(* ===== verification/_CoqProject ===== *)
-Q . S2P
Prelude.v
SelVector.v
Serializer.v
VersionInfo.v
VersionSpec.v
ChunkSpec.v
ChunkVisibility.v
UpdateInfo.v
UpdateSpec.v
UpdateSnapshot.v
InMemFile.v
FreeSpace.v
FreeSpaceSpec.v
FreeSpaceTheorems.v
FreeSpacePersist.v
TransactionManager.v
TransactionSpec.v
TransactionContext.v
ConnectionSpec.v
CatalogSet.v
CatalogSpec.v
CatalogTheorems.v
CatalogPersist.v
UndoBuffer.v
Sequence.v
NullMask.v
NullMaskSpec.v
NullMaskTheorems.v
Date.v
DateSpec.v
Int128.v
Int128Spec.v
Int128Theorems.v
Bitpacking.v
BitpackingSpec.v
FastPForSpec.v
BitpackingTheorems.v
BufferedFile.v
WalRecord.v
WalWriter.v
WalReplay.v
WalTheorems.v
ShadowFile.v
ShadowSpec.v
ShadowTheorems.v
Recovery.v
RecoverySpec.v
RecoveryTheorems.v
Checkpointer.v
CheckpointerSpec.v
PageState.v
PageProtocol.v
PageSpec.v
PageTheorems.v
BufferManager.v
BufferSpec.v
BufferAccounting.v
BufferTheorems.v
HashSlot.v
HashSlotSpec.v
InMemHashIndex.v
HashChain.v
HashGrow.v
HashSplit.v
HashDirectory.v
HashIndexSpec.v
LocalHashIndex.v
DiskArray.v
HashIndex.v
HashIndexCheckpoint.v
HashIndexDisk.v
HashDiskSplit.v
HashDiskMerge.v
PrimaryKeyIndex.v
PrimaryKeySpec.v
PrimaryKeyTheorems.v
DiskArraySpec.v
DiskArrayOps.v
DiskArrayTheorems.v
DiskArrayHeaders.v
