(* ===== verification/Prelude.v ===== *)
(** * The transactional storage core of the motif C++ reference

    motif keeps a fork of the Kuzu graph database under src/cpp-reference/src; this library models its
    transactional storage core and proves what makes it correct. Paths below are relative to that
    directory. The definitions are executable translations of the C++: integers at their width where
    they wrap, asserts, exceptions and undefined behaviour as outcomes, mutation as state passing.

    ** The parts and how they interact

    A connection runs statements in transactions ([TransactionContext]); the [TransactionManager] hands
    out identifiers (from 2^63 on) and snapshots (the timestamp of the last commit) and runs commit,
    rollback and checkpoint. A transaction writes rows of node groups; each column chunk keeps who
    inserted and deleted each row ([VectorVersionInfo], [VersionInfo]) and a chain of value versions
    ([UpdateInfo]); tables, sequences and functions live in versioned catalog sets ([CatalogSet]).
    Each change leaves a record in the transaction's [UndoBuffer], which commit replays forward (putting
    the commit timestamp in place of the identifier) and rollback backward. A checkpoint serializes the
    committed state ([Serializer], [InMemFileWriter]) to pages the [FreeSpaceManager] and [PageManager]
    hand out; values carry null masks ([NullMask]), and dates are days ([date_t]). Commit first
    writes the transaction's records to the write-ahead log ([WAL]); a checkpoint changes pages
    through copies in the shadow file ([ShadowFile]), logs that they are complete, applies them to the
    data file and clears both. Opening a database replays whichever of the two it finds. Pages are
    read and written through frames of a fixed amount of memory ([BufferManager]), each guarded by a
    word that threads change with compare-and-swap ([PageState]). The primary keys of a table are
    in 256 hash indexes that grow by splitting slots ([PrimaryKeyIndex], [HashIndex]): what changed
    since the last checkpoint is in memory ([LocalHashIndex], [InMemHashIndex]), and a checkpoint
    merges it into the slots on disk.

    ** Files

    - Prelude: outcomes, the state and exception monad [M] with its triple rules, tactics, hints, lemmas
      on lists and machine integers, the constants of common/constants.h the components share.
    - SelVector: common/data_chunk/sel_vector.cpp.
    - Serializer: common/serializer; the class [Codec] states what a persisted type promises.
    - VersionInfo: storage/table/version_info.cpp, module [VectorVersion] for one vector of 2048 rows
      and [ChunkVersion] for a chunk. VersionSpec, ChunkSpec: the abstraction (each row's inserter and
      deleter) and the refinement lemmas. ChunkVisibility: the theorems on visibility.
    - UpdateInfo: storage/table/update_info.cpp and the update paths of storage/table/column_chunk.cpp.
      UpdateSpec with its module [UpdateProtocol], UpdateSnapshot: a snapshot-isolated map per row as the
      specification, the protocol of concurrent transactions, the simulation.
    - InMemFile: common/serializer/in_mem_file_writer.cpp. FreeSpace: storage/free_space_manager.cpp,
      storage/page_manager.cpp, storage/optimistic_allocator.cpp and the page counting of
      storage/file_handle.cpp. FreeSpaceSpec, FreeSpaceTheorems: which page is where, in every
      execution. FreeSpacePersist: serialization, the iterator, the writer.
    - TransactionManager: transaction/transaction_manager.cpp and transaction/transaction.cpp over an
      engine that may throw at any call (the class of engine operations). TransactionSpec: invariant,
      branches of begin, commit, rollback and checkpoint. TransactionContext:
      transaction/transaction_context.cpp and the statement loop of main/client_context.cpp;
      ConnectionSpec: many connections sharing the manager.
    - CatalogSet: catalog/catalog_set.cpp and catalog/catalog_entry; CatalogSpec, CatalogTheorems: the
      view of each transaction as a map and its refinement; CatalogPersist: checkpointing a set.
    - UndoBuffer: storage/undo_buffer.cpp; its targets are a class. Sequence:
      catalog/catalog_entry/sequence_catalog_entry.cpp.
    - NullMask, NullMaskSpec, NullMaskTheorems: common/null_mask.{h,cpp} against lists of booleans.
    - Date, DateSpec: common/types/date_t.cpp against the Gregorian calendar.
    - Int128, Int128Spec, Int128Theorems: common/types/int128_t.{h,cpp} and uint128_t.{h,cpp} against the
      integers; modules [Int128] and [UInt128].
    - Bitpacking, BitpackingSpec, BitpackingTheorems: storage/compression/bitpacking_utils.cpp,
      bitpacking_int128.cpp and [IntegerBitpacking] of storage/compression/compression.{h,cpp} against
      the bits of a buffer; FastPForSpec: the vendored src/cpp-reference/third_party/fastpfor (module [FastPForLib] of Bitpacking).
    - BufferedFile: common/serializer/buffered_file.cpp over files of
      common/file_system/local_file_system.cpp (module [FileInfo]: the synced bytes and the operations
      since the last sync).
    - WalRecord: the records of storage/wal/wal_record.cpp and their bytes. WalWriter: checksums, the log
      of a transaction and of the database (common/checksum.cpp, storage/wal/checksum_writer.cpp,
      local_wal.cpp, wal.cpp). WalReplay: reading it (checksum_reader.cpp, wal_replayer.cpp) over an
      engine that applies records, a class. WalTheorems: what a log gives back, torn or not.
    - ShadowFile: storage/shadow_file.cpp, storage/shadow_utils.cpp and storage/database_header.cpp.
      ShadowSpec, ShadowTheorems: the shadow file as a memory of pages, its bytes and
      what applying them does to a file.
    - Recovery: opening a database (storage/storage_manager.cpp, wal_replayer.cpp, checkpointer.cpp)
      and the end of a checkpoint. RecoverySpec: power failures and the state a recovery gives;
      RecoveryTheorems: a checkpoint is atomic. Checkpointer: the rest of storage/checkpointer.cpp;
      CheckpointerSpec: the whole checkpoint, with the page manager.
    - PageState: storage/buffer_manager/page_state.h. PageProtocol: the accesses of any number of threads
      to one page, step by step (pin, unpin, optimistic read, evict; buffer_manager.cpp and file_handle.h);
      PageSpec, PageTheorems: invariant and refinement of a shared memory.
    - BufferManager: the eviction queue, frames, reservations and eviction of
      storage/buffer_manager/buffer_manager.cpp and vm_region.cpp, and storage/file_handle.cpp.
      BufferSpec, BufferAccounting, BufferTheorems: memory accounting, progress of eviction.
    - HashSlot: slots, header and hashes of the index (storage/index/hash_index_slot.h, hash_index_header.h,
      hash_index_utils.h, function/hash/hash_functions.h). InMemHashIndex:
      storage/index/in_mem_hash_index.{h,cpp}. HashSlotSpec: slots as cells; HashChain: chains of slots
      as rows of cells, and who owns which slot; HashGrow: adding and removing entries and slots;
      HashSplit: splitting a chain; HashDirectory: linear hashing, from hashes to chains; HashIndexSpec:
      the invariant, the bag of entries, each operation on the bag, and its theorems.
    - LocalHashIndex: storage/local_storage/local_hash_index.h. HashIndex, HashIndexCheckpoint: [HashIndex]
      of storage/index/hash_index.{h,cpp}, over arrays with a committed and a current version
      ([VersionedArray], what storage/disk_array.cpp promises). HashIndexDisk: the invariant of the slots
      on disk, and operations through the three layers; HashDiskSplit, HashDiskMerge:
      the steps of a checkpoint.
    - DiskArray: what a versioned array promises, and storage/disk_array.{h,cpp} with the calls it makes of
      storage/shadow_utils.cpp. DiskArraySpec: page numbers and elements of an array; DiskArrayOps: the
      invariant, each operation; DiskArrayTheorems: checkpoints, sequences of operations, runs
      that go wrong. DiskArray also has the modules [DiskArrayCollection] and [BlockVector]: storage/disk_array_collection.{h,cpp}
      and block vectors; DiskArrayHeaders: their theorems.
    - PrimaryKeyIndex: the rest of storage/index/hash_index.{h,cpp} and the rollback of keys in
      storage/table/node_table.cpp. PrimaryKeySpec: checkpoints and runs of one hash index
      and of all; PrimaryKeyTheorems, with runs that go wrong in its module [HashIndexFindings].

    ** What the theorems show

    - Row versions: appending and deleting refine the row-by-row specification, commit publishes to
      exactly the later snapshots, rollback undoes, scanning and counting agree with visibility,
      persisted versions read back.
    - Updates: any interleaving of transactions gets the answers of snapshot isolation with
      first-writer-wins conflicts; scans agree with lookups.
    - Space: every page is in exactly one place in every execution, also when the buffer manager refuses
      frames (only pages of an allocation that threw are lost); allocation succeeds with pages nobody
      uses when requests are granted and page numbers are left; checkpoints merge ranges, persisted free lists read back and fit the pages
      reserved for them.
    - Transactions: the manager's invariant over all executions with failing engines, the behaviour
      of each operation on every branch, the wait before a checkpoint ends, and a statement never
      touches a transaction that is gone, nor leaves one behind.
    - Catalog: operations of the only writer, renames being to free names, are map operations on its view, commit shows them to exactly the later
      snapshots, rollback restores every view, checkpointing keeps every view.
    - Undo buffer and sequences: replay order over any layout of buffers and any refused allocation; steps of a sequence with
      64-bit overflow.
    - Null masks and dates: the shifted 64-bit copy is a bit copy, dates are the Gregorian
      calendar, text and interval arithmetic are exact.
    - 128-bit integers: sums, products, quotients, shifts and bits are those of the integers, or throw
      exactly when the result does not fit, with the operands at the ends of the range for which the
      code is undefined or refuses a result that fits; both multiplications agree; text is decimal.
    - Bit packing: values that were packed are read back, alone or 32 at a time, from any position, and
      updates in place change exactly the values they name, when the range of the values allows it.
    - Durability: buffered files read back what was written; committed transactions are recovered in
      order and a torn log gives exactly the committed ones; the shadow file is a memory of pages;
      a power failure at any point from logging a checkpoint to truncating the log leaves the state
      before it or after it, and what a checkpoint wrote is found where the new header says, both when
      the tables left no unsynced writes in the data file; a new database opens again. Records fit
      the checksum buffer, and a torn log fits the buffer of the reader: the text of each theorem says so.
    - Buffer manager: one thread at a time is in the critical section of a page, whatever the
      interleaving, and reads and writes are those of a memory; used memory is what the frames hold;
      eviction makes progress; a reservation never exceeds the pool. The theorems on memory hold without
      a spiller and with one that has nothing to spill ([Idle]), and without files in memory mode.
    - Hash index: any sequence of operations on a new index does what it does on a finite map, through
      splits, overflow chains and reused slots; with visibility, each operation is exact on the bag of
      entries.
    - Primary key index: insertions, lookups and checkpoints do what they do on a finite map, and an index
      opened from the pages of a checkpoint goes on with the same map; operations through the local
      storage are exact on deleted, inserted and stored entries; committing rows stops at the first NULL
      or duplicate key. The theorems exclude deletions and checkpoints that more than double the slots
      of an index with entries: HashIndexFindings shows that they lose keys or fail.
    - Disk arrays: reads, updates, appends and checkpoints in any sequence do what they do on a list that
      checkpoints change and a list that the others read (with pages written in place, as the hash index
      has them, as long as the others do not read while a checkpoint is changing the array); a reopened array or collection has the lists
      of the last checkpoint; a released array gives back each of its pages once.

    ** Bounds and fuel

    Loops that are not structural take fuel that is proved to be enough: the wait for active transactions
    polls as often as the timeout allows ([wait_fuel]); writing into pages takes at most one round per
    byte; walking undo records at most one step per byte of the buffer; growing a buffer at most 64
    doublings; copying unaligned bits one round per bit; normalizing a day into the 400-year
    interval one round per interval of distance; printing a year five digits, a 128-bit integer 39. Theorems on executions
    with 64-bit counters bound the number of steps by 2^62, which no run reaches.
    Reading a log takes one round per record, at most one per byte ([dry_loop], [replay_loop]).

    ** Power failures

    A file is its synced bytes and the writes and truncations since ([FileInfo]). After a power
    failure any subsequence of those operations may have reached the disk, each of them whole, and
    independently for each file; a file that was never synced may be missing. Files are removed at
    once.

    Eviction and reservation loops of the buffer manager take fuel from the size of the queue; a walk
    along a chain of slots at most one round per overflow slot ([chain_fuel]), looking for a gap one
    per cell. The hash index theorems bound slots by 2^32, the width of a slot number, and levels by
    2^30 slots, up to which the shifts of [incrementLevel] are exact; 2^14 operations stay below.
    Reading a chain of pages takes at most one round per page of the file; a disk array holds fewer than 2^32
    elements, and appending takes at most two pages from the allocator.

    ** Asserts

    A failed [KU_ASSERT] is the outcome [assert_failure], as in a build that checks assertions; a theorem that an
    operation returns shows that none fails. [checkOutOfBoundAccess] of disk arrays is such a check. Where the
    text of a theorem speaks of a checked build, the result needs the assertion to stop the code.

    ** Parameters

    Code outside the repository or not modelled appears as an argument: what a fresh buffer holds, what an
    engine call does, the payload of a catalog entry and how it is serialized, the iteration
    order of an unordered map, the page numbers an allocator hands out, whether the buffer manager grants a
    request. Theorems quantify over them, or name what they rely on (an
    injective codec, a rollback that does not throw).

    ** Not modelled

    The query side (parser, binder, planner, optimizer, processor, function library) only produces
    calls to the core; threads are modelled as interleavings of the operations the code makes
    atomic with its locks, and below them only for the word of a page; memory mapping;
    node groups, CSR, the overflow file of string keys, column metadata, and of compression all but bit packing;
    types other than dates and 128-bit integers, and of the latter the casts from and to floating point. Of a checkpoint,
    what the tables write into pages is the engine's part, and so is what is made of the catalog and
    of the tables when they are loaded. PROJECT.json lists every part with the reason.

    ** Plan

    In this order: the segments of column chunks and node groups on top of row versions and updates;
    compressed columns on top of the bit packing; timestamps, times and intervals on top of the dates. *)

From stdpp Require Import base numbers list gmap strings.
From Stdlib Require Import ZArith Lia.

(** ** Machine integers *)

Declare Scope kuzu_scope.
Delimit Scope kuzu_scope with kuzu.
Open Scope kuzu_scope.

(** Wrap-around of an unsigned [w]-bit operation. *)
Definition uwrap (w : Z) (x : Z) : Z := (x mod 2 ^ w)%Z.

Lemma uwrap_small w x : (0 ≤ x < 2 ^ w)%Z → uwrap w x = x.
Proof. apply Z.mod_small. Qed.

(** A value of type [uint64_t]. *)
Definition is_u64 (x : Z) : Prop := (0 ≤ x < 2 ^ 64)%Z.

(** [transaction_t] is [uint64_t]; [INVALID_TRANSACTION] is [UINT64_MAX]. *)
Definition INVALID_TRANSACTION : Z := 18446744073709551615%Z.

(** [Transaction::START_TRANSACTION_ID]: identifiers of running transactions start at 2^63, commit
    timestamps stay below. *)
Definition START_TRANSACTION_ID : Z := 9223372036854775808%Z.
Definition DUMMY_TRANSACTION_ID : Z := 0%Z.
Definition DUMMY_START_TIMESTAMP : Z := 0%Z.

(** [DEFAULT_VECTOR_CAPACITY], with the build's default [VECTOR_CAPACITY_LOG_2 = 11]. *)
Definition DEFAULT_VECTOR_CAPACITY : nat := 2 ^ 11.

(** [KUZU_PAGE_SIZE], with the build's default [PAGE_SIZE_LOG2 = 12]. *)
Definition KUZU_PAGE_SIZE : nat := 2 ^ 12.

Abbreviation CAP := DEFAULT_VECTOR_CAPACITY.

#[global] Arguments DEFAULT_VECTOR_CAPACITY : simpl never.
#[global] Arguments KUZU_PAGE_SIZE : simpl never.
#[global] Arguments INVALID_TRANSACTION : simpl never.
#[global] Arguments START_TRANSACTION_ID : simpl never.

Lemma INVALID_TRANSACTION_eq : INVALID_TRANSACTION = (2 ^ 64 - 1)%Z.
Proof. reflexivity. Qed.

Lemma START_TRANSACTION_ID_eq : START_TRANSACTION_ID = (2 ^ 63)%Z.
Proof. reflexivity. Qed.

Lemma vector_capacity_pos : 0 < DEFAULT_VECTOR_CAPACITY.
Proof. apply Nat.ltb_lt. vm_compute. reflexivity. Qed.

Lemma vector_capacity_nonzero : DEFAULT_VECTOR_CAPACITY ≠ 0.
Proof. pose proof vector_capacity_pos. lia. Qed.

(** A transaction's identifier, and a timestamp a transaction can have been given. *)
Definition is_txn_id (t : Z) : Prop := (START_TRANSACTION_ID ≤ t < INVALID_TRANSACTION)%Z.
Definition is_commit_ts (t : Z) : Prop := (0 ≤ t < START_TRANSACTION_ID)%Z.

Create HintDb kuzu discriminated.
Create Rewrite HintDb kuzu.
#[export] Hint Unfold is_txn_id is_commit_ts is_u64 : kuzu.
#[export] Hint Resolve vector_capacity_pos vector_capacity_nonzero : kuzu.

(** Solves the arithmetic goals about transaction identifiers, timestamps and the invalid marker. *)
Ltac solve_ts :=
  unfold is_txn_id, is_commit_ts, is_u64, INVALID_TRANSACTION, START_TRANSACTION_ID,
    DUMMY_TRANSACTION_ID, DUMMY_START_TIMESTAMP in *; lia.

(** Turns the boolean comparisons of the code into propositions. *)
Ltac zbool :=
  repeat match goal with
  | H : (_ =? _)%Z = true |- _ => apply Z.eqb_eq in H
  | H : (_ =? _)%Z = false |- _ => apply Z.eqb_neq in H
  | H : (_ <=? _)%Z = true |- _ => apply Z.leb_le in H
  | H : (_ <=? _)%Z = false |- _ => apply Z.leb_gt in H
  | H : (_ <? _)%Z = true |- _ => apply Z.ltb_lt in H
  | H : (_ <? _)%Z = false |- _ => apply Z.ltb_ge in H
  | H : (_ =? _)%nat = true |- _ => apply Nat.eqb_eq in H
  | H : (_ =? _)%nat = false |- _ => apply Nat.eqb_neq in H
  | H : (_ <=? _)%nat = true |- _ => apply Nat.leb_le in H
  | H : (_ <=? _)%nat = false |- _ => apply Nat.leb_gt in H
  | H : (_ <? _)%nat = true |- _ => apply Nat.ltb_lt in H
  | H : (_ <? _)%nat = false |- _ => apply Nat.ltb_ge in H
  | H : negb _ = true |- _ => apply negb_true_iff in H
  | H : negb _ = false |- _ => apply negb_false_iff in H
  | H : (_ && _)%bool = true |- _ => apply andb_true_iff in H; destruct H
  | H : (_ || _)%bool = false |- _ => apply orb_false_iff in H; destruct H
  end.

(** ** Exceptions and state

    The code's operations mutate an object in place and may throw half way. An operation on an
    object of type [S] that returns an [A] is a function [S -> outcome A * S]: the state is threaded
    through an exception, so what was written before the throw stays written. *)

Inductive exn : Type :=
  | RuntimeException (msg : string)
  | CatalogException (msg : string)
  | TransactionManagerException (msg : string)
  | CheckpointException (msg : string)
  | ConversionException (msg : string)
  | OverflowException (msg : string)
  | ConnectionException (msg : string)
  | IOException (msg : string)
  | StorageException (msg : string)
  | BufferManagerException (msg : string)
  (** [KU_ASSERT] in a build with runtime checks, [KU_UNREACHABLE], and explicit throws. *)
  | InternalException (msg : string)
  (** [std::logic_error], of a library. *)
  | LogicError (msg : string)
  (** What C++ leaves undefined: a null dereference or an index past the end of an array. *)
  | UndefinedBehaviour (msg : string).

(** What a C++ handler can catch. *)
Definition catchable (e : exn) : bool :=
  match e with UndefinedBehaviour _ => false | _ => true end.

#[global] Instance exn_eq_dec : EqDecision exn.
Proof. solve_decision. Defined.

Inductive outcome (A : Type) : Type :=
  | Ok (a : A)
  | Throw (e : exn).
Arguments Ok {A} a.
Arguments Throw {A} e.

Lemma Ok_inj {A} (a b : A) : Ok a = Ok b → a = b.
Proof. intros H. injection H. auto. Qed.

Definition is_ok {A} (o : outcome A) : bool := match o with Ok _ => true | Throw _ => false end.

Lemma is_ok_Ok {A} (o : outcome A) : is_ok o = true → ∃ a, o = Ok a.
Proof. destruct o; [eauto|discriminate]. Qed.

#[global] Instance outcome_ret : MRet outcome := λ A a, Ok a.
#[global] Instance outcome_bind : MBind outcome := λ A B f m,
  match m with Ok a => f a | Throw e => Throw e end.
#[global] Instance outcome_fmap : FMap outcome := λ A B f m,
  match m with Ok a => Ok (f a) | Throw e => Throw e end.

Lemma outcome_bind_Ok {A B} (a : A) (f : A → outcome B) : (Ok a ≫= f) = f a.
Proof. reflexivity. Qed.

Lemma outcome_mapM_cons {A B} (f : A → outcome B) x l y ys :
  f x = Ok y → mapM f l = Ok ys → mapM f (x :: l) = Ok (y :: ys).
Proof.
  intros Hx Hl.
  change (mapM f (x :: l)) with (y ← f x; k ← mapM f l; mret (y :: k)).
  rewrite Hx. cbn. rewrite Hl. reflexivity.
Qed.

Definition M (S A : Type) : Type := S → outcome A * S.

#[global] Instance M_ret S : MRet (M S) := λ A a s, (Ok a, s).
#[global] Instance M_bind S : MBind (M S) := λ A B f m s,
  match m s with
  | (Ok a, s') => f a s'
  | (Throw e, s') => (Throw e, s')
  end.

Definition get_state {S} : M S S := λ s, (Ok s, s).
Definition put_state {S} (s : S) : M S unit := λ _, (Ok tt, s).
Definition modify {S} (f : S → S) : M S unit := λ s, (Ok tt, f s).
Definition raise {S A} (e : exn) : M S A := λ s, (Throw e, s).
(** Runs an operation that does not change the state. *)
Definition observe {S A} (f : S → outcome A) : M S A := λ s, (f s, s).

(** [KU_ASSERT]: the checked build throws an [InternalException]. *)
Definition assert_failure : exn := InternalException "KU_ASSERT".
Definition ku_assert {S} (b : bool) : M S unit :=
  if b then mret tt else raise assert_failure.
Definition ku_assert_o (b : bool) : outcome unit :=
  if b then Ok tt else Throw assert_failure.

(** The result and the final state of an operation. *)
Definition result_of {S A} (m : M S A) (s : S) : outcome A := (m s).1.
Definition state_of {S A} (m : M S A) (s : S) : S := (m s).2.

Lemma M_bind_ok {S A B} (m : M S A) (f : A → M S B) s a s' :
  m s = (Ok a, s') → (m ≫= f) s = f a s'.
Proof. intros H. unfold mbind, M_bind. rewrite H. reflexivity. Qed.

Lemma M_bind_throw {S A B} (m : M S A) (f : A → M S B) s e s' :
  m s = (Throw e, s') → (m ≫= f) s = (Throw e, s').
Proof. intros H. unfold mbind, M_bind. rewrite H. reflexivity. Qed.

Lemma M_bind_assoc {S A B C} (m : M S A) (f : A → M S B) (g : B → M S C) s :
  ((m ≫= f) ≫= g) s = (m ≫= λ a, f a ≫= g) s.
Proof. unfold mbind, M_bind. destruct (m s) as [[a|e] s']; reflexivity. Qed.

(** Unfolds the plumbing of the two monads. *)
Ltac unfold_M :=
  unfold get_state, put_state, modify, raise, observe, ku_assert, ku_assert_o;
  unfold mbind, M_bind, outcome_bind, mret, M_ret, outcome_ret; cbv beta iota.

(** A loop [for (x : l) body(x)] over a list computed before the loop starts. *)
Fixpoint for_each {S A} (l : list A) (body : A → M S unit) : M S unit :=
  match l with
  | [] => mret tt
  | x :: l' => body x ;; for_each l' body
  end.

(** [triple P m Q R]: from a state in [P], [m] returns in [Q] or throws in [R]. *)
Definition triple {S A} (P : S → Prop) (m : M S A) (Q : A → S → Prop) (R : exn → S → Prop) : Prop :=
  ∀ s, P s → match m s with (Ok a, s') => Q a s' | (Throw e, s') => R e s' end.

Section Triples.
Context {S : Type}.
Implicit Types (P : S → Prop) (R : exn → S → Prop).

Lemma triple_ret {A} P R (a : A) : triple P (mret a) (λ b s, b = a ∧ P s) R.
Proof. intros s HP. split; [reflexivity|exact HP]. Qed.

Lemma triple_bind {A B} P (m : M S A) (f : A → M S B) Q1 Q2 R :
  triple P m Q1 R → (∀ a, triple (Q1 a) (f a) Q2 R) → triple P (m ≫= f) Q2 R.
Proof.
  intros Hm Hf s HP. specialize (Hm s HP). unfold mbind, M_bind.
  destruct (m s) as [[a|e] s']; [apply (Hf a s' Hm)|exact Hm].
Qed.

Lemma triple_conseq {A} P P' (m : M S A) Q Q' R R' :
  triple P m Q R → (∀ s, P' s → P s) → (∀ a s, Q a s → Q' a s) → (∀ e s, R e s → R' e s) →
  triple P' m Q' R'.
Proof.
  intros Hm HP HQ HR s Hs. specialize (Hm s (HP s Hs)).
  destruct (m s) as [[a|e] s']; auto.
Qed.

Lemma triple_post {A} P (m : M S A) Q Q' R :
  triple P m Q R → (∀ a s, Q a s → Q' a s) → triple P m Q' R.
Proof. intros Hm HQ. apply (triple_conseq P P m Q Q' R R); auto. Qed.

Lemma triple_state {A} P (m : M S A) (I : S → Prop) :
  triple P m (λ _, I) (λ _, I) ↔ ∀ s, P s → I (state_of m s).
Proof.
  unfold triple, state_of. split; intros H s HP; specialize (H s HP);
    destruct (m s) as [[a|e] s']; exact H.
Qed.

Lemma triple_modify P R (f : S → S) (Q : unit → S → Prop) :
  (∀ s, P s → Q tt (f s)) → triple P (modify f) Q R.
Proof. intros H s HP. exact (H s HP). Qed.

Lemma triple_get P R : triple P get_state (λ a s, a = s ∧ P s) R.
Proof. intros s HP. split; [reflexivity|exact HP]. Qed.

Lemma triple_raise {A} P e (Q : A → S → Prop) R : (∀ s, P s → R e s) → triple P (raise e) Q R.
Proof. intros H s HP. exact (H s HP). Qed.

Lemma triple_if {A} P (b : bool) (m1 m2 : M S A) Q R :
  triple P m1 Q R → triple P m2 Q R → triple P (if b then m1 else m2) Q R.
Proof. destruct b; auto. Qed.

Lemma triple_for_each {A} P (l : list A) (body : A → M S unit) R :
  (∀ x, x ∈ l → triple P (body x) (λ _, P) R) → triple P (for_each l body) (λ _, P) R.
Proof.
  induction l as [|x l IH]; intros H; [intros s HP; exact HP|].
  apply (triple_bind _ _ _ (λ _, P)); [apply H; left|].
  intros []. apply IH. intros y Hy. apply H. right. exact Hy.
Qed.
End Triples.

Lemma for_each_nil {S A} (body : A → M S unit) s : for_each [] body s = (Ok tt, s).
Proof. reflexivity. Qed.

Lemma for_each_app {S A} (l1 l2 : list A) (body : A → M S unit) s :
  for_each (l1 ++ l2) body s = (for_each l1 body ;; for_each l2 body) s.
Proof.
  revert s. induction l1 as [|x l1 IH]; intros s; [reflexivity|].
  cbn. rewrite M_bind_assoc. unfold mbind, M_bind.
  destruct (body x s) as [[[]|e] s']; [apply IH|reflexivity].
Qed.

Lemma for_each_cons_ok {S A} x l (body : A → M S unit) s s' :
  body x s = (Ok tt, s') → for_each (x :: l) body s = for_each l body s'.
Proof. intros H. cbn. unfold mbind, M_bind. rewrite H. reflexivity. Qed.

(** Rule for loops that never throw: an invariant indexed by the iterations done. *)
Lemma for_each_invariant {S A} (body : A → M S unit) (I : list A → S → Prop) l :
  ∀ done s,
    I done s →
    (∀ done' x s', x ∈ l → I done' s' → ∃ s'', body x s' = (Ok tt, s'') ∧ I (done' ++ [x]) s'') →
    ∃ s', for_each l body s = (Ok tt, s') ∧ I (done ++ l) s'.
Proof.
  induction l as [|x l IH]; intros done s HI Hstep.
  - exists s. rewrite app_nil_r. split; [reflexivity|assumption].
  - destruct (Hstep done x s) as (s1 & Hb & HI1); [left|assumption|].
    destruct (IH (done ++ [x]) s1 HI1) as (s2 & Hl & HI2).
    { intros d y s' Hy. apply Hstep. right; assumption. }
    exists s2. rewrite (for_each_cons_ok _ _ _ _ s1 Hb), <- (assoc_L (++)) in *.
    split; assumption.
Qed.

(** ** Arrays

    [write_range start n x l] is [for (i = start; i < start + n; i++) l[i] = x]. *)

Fixpoint write_range {A} (start n : nat) (x : A) (l : list A) : list A :=
  match n with
  | 0 => l
  | S n' => write_range (S start) n' x (<[start:=x]> l)
  end.

Lemma length_write_range {A} start n (x : A) l : length (write_range start n x l) = length l.
Proof.
  revert start l. induction n as [|n IH]; intros start l; cbn; [reflexivity|].
  rewrite IH. apply length_insert.
Qed.

Lemma lookup_write_range {A} start n (x : A) l i :
  start + n ≤ length l →
  write_range start n x l !! i =
    if decide (start ≤ i < start + n) then Some x else l !! i.
Proof.
  revert start l. induction n as [|n IH]; intros start l Hlen; cbn.
  - rewrite decide_False by lia. reflexivity.
  - rewrite IH by (rewrite length_insert; lia).
    destruct (decide (S start ≤ i < S start + n)) as [Hin|Hout].
    + rewrite decide_True by lia. reflexivity.
    + destruct (decide (i = start)) as [->|Hne].
      * rewrite decide_True by lia. apply list_lookup_insert_eq. lia.
      * rewrite decide_False by lia. apply list_lookup_insert_ne. congruence.
Qed.

#[export] Hint Rewrite @length_write_range @length_insert @length_replicate : kuzu.

(** The number of elements of a list that satisfy a boolean predicate. *)
Definition count_if {A} (f : A → bool) (l : list A) : nat := length (List.filter f l).

Lemma count_if_app {A} (f : A → bool) l1 l2 : count_if f (l1 ++ l2) = count_if f l1 + count_if f l2.
Proof. unfold count_if. rewrite List.filter_app. apply length_app. Qed.

Lemma count_if_ext {A} (f g : A → bool) l :
  (∀ x, x ∈ l → f x = g x) → count_if f l = count_if g l.
Proof.
  intros H. unfold count_if. f_equal. apply List.filter_ext_in.
  intros x Hx. apply H, list_elem_of_In, Hx.
Qed.

Lemma count_if_false {A} (f : A → bool) l :
  (∀ x, x ∈ l → f x = false) → count_if f l = 0.
Proof.
  intros H. rewrite (count_if_ext f (λ _, false)) by exact H.
  unfold count_if. induction l as [|x l IH]; [reflexivity|].
  cbn. apply IH. intros y Hy. apply H. right. exact Hy.
Qed.

(** ** Vectors of rows

    A chunk's rows are cut into vectors of [DEFAULT_VECTOR_CAPACITY] rows;
    [StorageUtils::getQuotientRemainder] gives the vector and the row in it. *)

Definition getQuotientRemainder (i divisor : nat) : nat * nat := (i / divisor, i mod divisor).

Lemma vector_row_split r :
  r = r / DEFAULT_VECTOR_CAPACITY * DEFAULT_VECTOR_CAPACITY + r mod DEFAULT_VECTOR_CAPACITY.
Proof.
  rewrite (Nat.div_mod_eq r DEFAULT_VECTOR_CAPACITY) at 1. lia.
Qed.

Lemma vector_row_bound r : r mod DEFAULT_VECTOR_CAPACITY < DEFAULT_VECTOR_CAPACITY.
Proof. apply Nat.mod_upper_bound, vector_capacity_nonzero. Qed.

Lemma vector_row_div v i :
  i < DEFAULT_VECTOR_CAPACITY →
  (v * DEFAULT_VECTOR_CAPACITY + i) / DEFAULT_VECTOR_CAPACITY = v.
Proof.
  intros H. rewrite Nat.div_add_l by apply vector_capacity_nonzero.
  rewrite Nat.div_small by exact H. lia.
Qed.

Lemma vector_row_mod v i :
  i < DEFAULT_VECTOR_CAPACITY →
  (v * DEFAULT_VECTOR_CAPACITY + i) mod DEFAULT_VECTOR_CAPACITY = i.
Proof.
  intros H. rewrite Nat.add_comm, Nat.Div0.mod_add. apply Nat.mod_small. exact H.
Qed.

#[export] Hint Resolve vector_row_bound : kuzu.
