(* ===== verification/SelVector.v ===== *)
(** * Selection vectors

    [SelectionView] and [SelectionVector] of common/data_chunk/sel_vector: which positions of a
    vector an operator has to look at. A STATIC vector points into the shared array 0, 1, 2, ...;
    a DYNAMIC one into its own buffer. The theorems show that the two representations agree: the
    loops of [forEach] visit the selected positions, and the setters select what they say. *)

From stdpp Require Import base numbers list strings.
From Stdlib Require Import Lia.
From S2P Require Import Prelude.

Module SelVector.

(** [SelectionView::State] *)
Inductive State := DYNAMIC | STATIC.

#[global] Instance State_eq_dec : EqDecision State.
Proof. solve_decision. Defined.

(** Where [selectedPositions] points: at an offset of [INCREMENTAL_SELECTED_POS], or at the start of
    the vector's own buffer. *)
Inductive SelPtr := Incremental (offset : nat) | OwnBuffer.

#[global] Instance SelPtr_eq_dec : EqDecision SelPtr.
Proof. solve_decision. Defined.

(** The shared array 0, 1, ..., DEFAULT_VECTOR_CAPACITY - 1. *)
Definition INCREMENTAL_SELECTED_POS : list nat := seq 0 DEFAULT_VECTOR_CAPACITY.

Record SelectionVector := MkSelectionVector {
  selectedPositions : SelPtr;
  selectedSize : nat;
  state : State;
  selectedPositionsBuffer : list nat;
  capacity : nat;
}.

(** What [selectedPositions] points at. *)
Definition pointee (v : SelectionVector) : list nat :=
  match selectedPositions v with
  | Incremental off => drop off INCREMENTAL_SELECTED_POS
  | OwnBuffer => selectedPositionsBuffer v
  end.

(** [SelectionView::getSelectedPositions] *)
Definition getSelectedPositions (v : SelectionVector) : list nat :=
  take (selectedSize v) (pointee v).

Definition getSelSize (v : SelectionVector) : nat := selectedSize v.

(** [selectedPositions[index]], the raw read of both [operator[]]. *)
Definition read_position (v : SelectionVector) (index : nat) : outcome nat :=
  match pointee v !! index with
  | Some p => Ok p
  | None => Throw (UndefinedBehaviour "selectedPositions")
  end.

(** [SelectionView::operator[]], which checks against the size. *)
Definition view_at (v : SelectionVector) (index : nat) : outcome nat :=
  ku_assert_o (index <? selectedSize v) ;; read_position v index.

(** [SelectionVector::operator[]], which checks against the capacity. *)
Definition at_ (v : SelectionVector) (index : nat) : outcome nat :=
  ku_assert_o (index <? capacity v) ;; read_position v index.

(** [SelectionView::isUnfiltered] *)
Definition isUnfiltered (v : SelectionVector) : bool :=
  bool_decide (state v = STATIC) && bool_decide (pointee v !! 0 = Some 0).

Definition isStatic (v : SelectionVector) : bool := bool_decide (state v = STATIC).

(** The positions [SelectionView::forEach] calls its function on, in order. *)
Definition forEach (v : SelectionVector) : outcome (list nat) :=
  match state v with
  | DYNAMIC => mapM (read_position v) (seq 0 (selectedSize v))
  | STATIC =>
      start ← read_position v 0;
      Ok (seq start (selectedSize v))
  end.

(** The prefix of a loop that stops after the first element the predicate refuses. *)
Fixpoint take_until_false (f : nat → bool) (l : list nat) : list nat :=
  match l with
  | [] => []
  | x :: l' => if f x then x :: take_until_false f l' else [x]
  end.

(** The positions [SelectionView::forEachBreakWhenFalse] calls its function on. *)
Definition forEachBreakWhenFalse (v : SelectionVector) (func : nat → bool) :
    outcome (list nat) :=
  match state v with
  | DYNAMIC =>
      ps ← mapM (read_position v) (seq 0 (selectedSize v));
      Ok (take_until_false func ps)
  | STATIC =>
      start ← read_position v 0;
      Ok (take_until_false func (seq start (selectedSize v)))
  end.

Definition set_view (p : SelPtr) (n : nat) (s : State) (v : SelectionVector) : SelectionVector :=
  MkSelectionVector p n s (selectedPositionsBuffer v) (capacity v).

Definition set_buffer (b : list nat) (v : SelectionVector) : SelectionVector :=
  MkSelectionVector (selectedPositions v) (selectedSize v) (state v) b (capacity v).

(** [setToUnfiltered()] keeps the size. *)
Definition setToUnfiltered (v : SelectionVector) : SelectionVector :=
  set_view (Incremental 0) (selectedSize v) STATIC v.

(** [setToUnfiltered(size)] *)
Definition setToUnfilteredSize (size : nat) : M SelectionVector unit :=
  v ← get_state;
  ku_assert (size <=? capacity v) ;;
  put_state (set_view (Incremental 0) size STATIC v).

(** The constructor [SelectionVector(capacity)]: an empty STATIC view and a zeroed buffer. *)
Definition SelectionVector_new (cap : nat) : SelectionVector :=
  setToUnfiltered (MkSelectionVector (Incremental 0) 0 STATIC (replicate cap 0) cap).

(** The default constructor [SelectionVector()]. *)
Definition SelectionVector_default : SelectionVector := SelectionVector_new DEFAULT_VECTOR_CAPACITY.

(** [getMutableBuffer()[index] = pos] *)
Definition write_buffer (index pos : nat) : M SelectionVector unit :=
  v ← get_state;
  if index <? length (selectedPositionsBuffer v)
  then put_state (set_buffer (<[index:=pos]> (selectedPositionsBuffer v)) v)
  else raise (UndefinedBehaviour "selectedPositionsBuffer").

(** [setRange(startPos, size)] *)
Definition setRange (startPos size : nat) : M SelectionVector unit :=
  v ← get_state;
  ku_assert (startPos + size <=? capacity v) ;;
  modify (λ v, set_view OwnBuffer (selectedSize v) (state v) v) ;;
  for_each (seq 0 size) (λ i, write_buffer i (startPos + i)) ;;
  modify (λ v, set_view OwnBuffer size DYNAMIC v).

(** [setToFiltered()] *)
Definition setToFiltered (v : SelectionVector) : SelectionVector :=
  set_view OwnBuffer (selectedSize v) DYNAMIC v.

(** [setToFiltered(size)] *)
Definition setToFilteredSize (size : nat) : M SelectionVector unit :=
  v ← get_state;
  ku_assert (size <=? capacity v) ;;
  put_state (set_view OwnBuffer size DYNAMIC v).

(** [makeDynamic()]: memcpy of the selected positions into the buffer. *)
Definition makeDynamic : M SelectionVector unit :=
  v ← get_state;
  if (selectedSize v <=? length (selectedPositionsBuffer v)) &&
     (selectedSize v <=? length (pointee v))
  then put_state (MkSelectionVector OwnBuffer (selectedSize v) DYNAMIC
         (take (selectedSize v) (pointee v) ++
          drop (selectedSize v) (selectedPositionsBuffer v)) (capacity v))
  else raise (UndefinedBehaviour "memcpy").

(** [setSelSize(size)] *)
Definition setSelSize (size : nat) : M SelectionVector unit :=
  v ← get_state;
  ku_assert (size <=? capacity v) ;;
  put_state (set_view (selectedPositions v) size (state v) v).

(** [incrementSelSize(increment)] *)
Definition incrementSelSize (increment : nat) : M SelectionVector unit :=
  v ← get_state;
  ku_assert (selectedSize v <? capacity v) ;;
  put_state (set_view (selectedPositions v) (selectedSize v + increment) (state v) v).

(** Well-formed vectors: the pointer goes with the state, the buffer has [capacity] elements, and
    the selected positions are all there. [capacity] is at most DEFAULT_VECTOR_CAPACITY, as the
    shared array has no more. *)
Definition wf (v : SelectionVector) : Prop :=
  length (selectedPositionsBuffer v) = capacity v ∧
  0 < capacity v ≤ DEFAULT_VECTOR_CAPACITY ∧
  selectedSize v ≤ capacity v ∧
  match state v with
  | STATIC => selectedPositions v = Incremental 0
  | DYNAMIC => selectedPositions v = OwnBuffer
  end.

(** ** Lemmas *)

Lemma length_incremental : length INCREMENTAL_SELECTED_POS = DEFAULT_VECTOR_CAPACITY.
Proof. apply length_seq. Qed.

Lemma wf_pointee_length v : wf v → selectedSize v ≤ length (pointee v).
Proof.
  intros (Hb & Hc & Hs & Hst). unfold pointee.
  destruct (state v); rewrite Hst; [lia|].
  rewrite length_drop, length_incremental. lia.
Qed.

Lemma length_getSelectedPositions v : wf v → length (getSelectedPositions v) = selectedSize v.
Proof.
  intros Hwf. unfold getSelectedPositions. rewrite length_take.
  pose proof (wf_pointee_length v Hwf). lia.
Qed.

Lemma static_positions v :
  wf v → state v = STATIC → getSelectedPositions v = seq 0 (selectedSize v).
Proof.
  intros (Hb & Hc & Hs & Hst) Hstate. unfold getSelectedPositions, pointee.
  rewrite Hstate in Hst. rewrite Hst. unfold INCREMENTAL_SELECTED_POS. rewrite drop_0.
  rewrite take_seq. f_equal. lia.
Qed.

Lemma dynamic_positions v :
  wf v → state v = DYNAMIC →
  getSelectedPositions v = take (selectedSize v) (selectedPositionsBuffer v).
Proof.
  intros (Hb & Hc & Hs & Hst) Hstate. unfold getSelectedPositions, pointee.
  rewrite Hstate in Hst. rewrite Hst. reflexivity.
Qed.

Lemma isUnfiltered_wf v : wf v → isUnfiltered v = bool_decide (state v = STATIC).
Proof.
  intros (Hb & Hc & Hs & Hst). unfold isUnfiltered, pointee.
  destruct (state v); [reflexivity|]. rewrite Hst.
  unfold INCREMENTAL_SELECTED_POS. rewrite drop_0.
  rewrite lookup_seq_lt by (pose proof vector_capacity_pos; lia). reflexivity.
Qed.

Lemma mapM_read_positions v n :
  n ≤ length (pointee v) → mapM (read_position v) (seq 0 n) = Ok (take n (pointee v)).
Proof.
  assert (Hgen : ∀ k l, pointee v = take k (pointee v) ++ l → k ≤ length (pointee v) → n ≤ length l →
    mapM (read_position v) (seq k n) = Ok (take n l)).
  { induction n as [|n IH]; intros k l Hl Hk Hn; [reflexivity|].
    destruct l as [|x l]; [cbn in Hn; lia|].
    assert (Hx : pointee v !! k = Some x).
    { rewrite Hl, lookup_app_r; rewrite length_take; [|lia].
      replace (k - k `min` length (pointee v)) with 0 by lia. reflexivity. }
    assert (Hk1 : k < length (pointee v)) by (apply lookup_lt_Some in Hx; exact Hx).
    cbn [seq]. apply outcome_mapM_cons; [unfold read_position; rewrite Hx; reflexivity|].
    apply IH; [|lia|cbn in Hn; lia].
    rewrite (take_S_r _ _ _ Hx), <- (assoc_L (++)). exact Hl. }
  intros Hn. apply (Hgen 0 (pointee v)); [reflexivity|lia|exact Hn].
Qed.

(** The state-specialised loops of [forEach] visit exactly the selected positions, in order. *)
Lemma forEach_positions v : wf v → forEach v = Ok (getSelectedPositions v).
Proof.
  intros Hwf. unfold forEach. destruct (state v) eqn:Hst.
  - apply mapM_read_positions, wf_pointee_length, Hwf.
  - rewrite (static_positions v Hwf Hst).
    destruct Hwf as (Hb & Hc & Hs & Hp). rewrite Hst in Hp.
    unfold read_position, pointee. rewrite Hp. unfold INCREMENTAL_SELECTED_POS.
    rewrite drop_0, lookup_seq_lt by lia. reflexivity.
Qed.

Lemma wf_SelectionVector_new cap :
  0 < cap ≤ DEFAULT_VECTOR_CAPACITY → wf (SelectionVector_new cap).
Proof.
  intros H. unfold wf, SelectionVector_new; cbn. rewrite length_replicate.
  repeat split; cbn; first [reflexivity | lia].
Qed.

Lemma setToUnfilteredSize_ok v size :
  wf v → size ≤ capacity v →
  ∃ v', setToUnfilteredSize size v = (Ok tt, v') ∧ wf v' ∧ capacity v' = capacity v ∧
    state v' = STATIC ∧ getSelectedPositions v' = seq 0 size.
Proof.
  intros (Hb & Hc & Hs & Hst) Hsize.
  unfold setToUnfilteredSize. unfold_M.
  rewrite (proj2 (Nat.leb_le _ _) Hsize). eexists; split; [reflexivity|].
  assert (Hwf : wf (set_view (Incremental 0) size STATIC v)) by (repeat split; cbn; first [reflexivity | lia]).
  split; [exact Hwf|]. split; [reflexivity|]. split; [reflexivity|].
  apply (static_positions _ Hwf eq_refl).
Qed.

Lemma setSelSize_static_ok v size :
  wf v → state v = STATIC → size ≤ capacity v →
  ∃ v', setSelSize size v = (Ok tt, v') ∧ wf v' ∧ capacity v' = capacity v ∧
    state v' = STATIC ∧ getSelectedPositions v' = seq 0 size.
Proof.
  intros (Hb & Hc & Hs & Hst) Hstate Hsize. rewrite Hstate in Hst.
  unfold setSelSize. unfold_M.
  rewrite (proj2 (Nat.leb_le _ _) Hsize). eexists; split; [reflexivity|].
  rewrite Hst, Hstate.
  assert (Hwf : wf (set_view (Incremental 0) size STATIC v)) by (repeat split; cbn; first [reflexivity | lia]).
  split; [exact Hwf|]. split; [reflexivity|]. split; [reflexivity|].
  apply (static_positions _ Hwf eq_refl).
Qed.

(** [makeDynamic] changes the representation and not what is selected. *)
Lemma makeDynamic_ok v :
  wf v →
  ∃ v', makeDynamic v = (Ok tt, v') ∧ wf v' ∧ capacity v' = capacity v ∧ state v' = DYNAMIC ∧
    getSelectedPositions v' = getSelectedPositions v.
Proof.
  intros Hwf. pose proof (wf_pointee_length v Hwf) as Hlen.
  destruct Hwf as (Hb & Hc & Hs & Hst). unfold makeDynamic. unfold_M.
  rewrite (proj2 (Nat.leb_le _ _)) by lia.
  rewrite (proj2 (Nat.leb_le _ _)) by lia. cbn [andb].
  eexists; split; [reflexivity|]. split; [|split; [reflexivity|split; [reflexivity|]]].
  - repeat split; cbn; try lia. rewrite length_app, length_take, length_drop. lia.
  - unfold getSelectedPositions at 1. cbn.
    rewrite take_app_le by (rewrite length_take; lia).
    rewrite take_take. unfold getSelectedPositions. f_equal. lia.
Qed.

(** Writing one position past the selected ones and counting it selects it. *)
Lemma dynamic_push v pos :
  wf v → state v = DYNAMIC → selectedSize v < capacity v →
  take (S (selectedSize v)) (<[selectedSize v:=pos]> (selectedPositionsBuffer v)) =
    getSelectedPositions v ++ [pos].
Proof.
  intros Hwf Hst Hlt. rewrite (dynamic_positions v Hwf Hst).
  destruct Hwf as (Hb & _). 
  rewrite (take_S_r _ _ pos) by (apply list_lookup_insert_eq; lia).
  rewrite take_insert_ge by lia. reflexivity.
Qed.

End SelVector.
