(* ===== verification/Serializer.v ===== *)
(** * Serializer and Deserializer

    common/serializer: values are written as their bytes in memory order (little endian on the
    supported targets) and read back in the same order. [Codec] is what a component that persists
    itself relies on and what it has to promise in turn: reading back what was written gives the
    value and leaves the rest of the stream alone. *)

From stdpp Require Import base numbers list strings.
From Stdlib Require Import ZArith Lia Ascii.
From S2P Require Import Prelude.

Module Serializer.

(** The bytes of an unsigned value of [n] bytes, least significant first. *)
Fixpoint le_bytes (n : nat) (x : Z) : list Z :=
  match n with
  | 0 => []
  | S n' => (x mod 256)%Z :: le_bytes n' (x / 256)%Z
  end.

Fixpoint le_value (l : list Z) : Z :=
  match l with
  | [] => 0%Z
  | b :: l' => (b + 256 * le_value l')%Z
  end.

Definition end_of_stream : exn := RuntimeException "Reading past the end of the file".

(** [Reader::read]: the next [n] bytes of the stream. *)
Definition read_bytes (n : nat) : M (list Z) (list Z) :=
  s ← get_state;
  if n <=? length s then put_state (drop n s) ;; mret (take n s)
  else raise end_of_stream.

(** [Serializer::serializeValue] of an unsigned integer of [n] bytes. *)
Definition serializeValue (n : nat) (x : Z) : list Z := le_bytes n x.

(** [Deserializer::deserializeValue] of an unsigned integer of [n] bytes. *)
Definition deserializeValue (n : nat) : M (list Z) Z :=
  bs ← read_bytes n; mret (le_value bs).

Definition byte_of_ascii (a : ascii) : Z := Z.of_N (N_of_ascii a).
Definition ascii_of_byte (b : Z) : ascii := ascii_of_N (Z.to_N b).

(** [Serializer::serializeValue] of a string: its length, then its characters. *)
Definition serializeString (s : string) : list Z :=
  serializeValue 8 (Z.of_nat (String.length s)) ++ map byte_of_ascii (String.list_ascii_of_string s).

(** [Deserializer::deserializeValue] of a string. *)
Definition deserializeString : M (list Z) string :=
  n ← deserializeValue 8;
  bs ← read_bytes (Z.to_nat n);
  mret (String.string_of_list_ascii (map ascii_of_byte bs)).

(** [Serializer::writeDebuggingInfo]: a string in a build with KUZU_DESER_DEBUG, else nothing. *)
Definition writeDebuggingInfo (dbg : bool) (s : string) : list Z :=
  if dbg then serializeString s else [].

(** [Deserializer::validateDebuggingInfo] *)
Definition validateDebuggingInfo (dbg : bool) (expected : string) : M (list Z) unit :=
  if dbg then s ← deserializeString; ku_assert (String.eqb s expected) else mret tt.

(** [Serializer::serializeArray] of unsigned integers. *)
Definition serializeArray (n : nat) (l : list Z) : list Z := l ≫= serializeValue n.

(** [Deserializer::deserializeArray]: a fixed number of values. *)
Fixpoint deserializeArray (n count : nat) : M (list Z) (list Z) :=
  match count with
  | 0 => mret []
  | S c => x ← deserializeValue n; xs ← deserializeArray n c; mret (x :: xs)
  end.

Definition serializeBool (b : bool) : list Z := serializeValue 1 (if b then 1 else 0)%Z.
Definition deserializeBool : M (list Z) bool := x ← deserializeValue 1; mret (negb (x =? 0)%Z).

(** [decodes m bs a]: on a stream that starts with [bs], [m] reads exactly [bs] and returns [a]. *)
Definition decodes {A} (m : M (list Z) A) (bs : list Z) (a : A) : Prop :=
  ∀ rest, m (bs ++ rest) = (Ok a, rest).

(** What a persisted type promises. *)
Class Codec (A : Type) := {
  encode : A → list Z;
  decode : M (list Z) A;
  encodable : A → Prop;
  decode_encode : ∀ a, encodable a → decodes decode (encode a) a;
}.

(** ** Lemmas *)

Lemma length_le_bytes n x : length (le_bytes n x) = n.
Proof. revert x. induction n as [|n IH]; intros x; cbn; [reflexivity|]. rewrite IH. reflexivity. Qed.

Lemma le_value_bytes n x : (0 ≤ x < 256 ^ Z.of_nat n)%Z → le_value (le_bytes n x) = x.
Proof.
  revert x. induction n as [|n IH]; intros x Hx.
  - cbn in *. lia.
  - cbn [le_bytes le_value]. rewrite Nat2Z.inj_succ, Z.pow_succ_r in Hx by lia.
    rewrite IH.
    + rewrite (Z.add_comm (x mod 256)), <- Z.div_mod by lia. reflexivity.
    + split; [apply Z.div_pos; lia|]. apply Z.div_lt_upper_bound; lia.
Qed.

Lemma decodes_ret {A} (a : A) : decodes (mret a) [] a.
Proof. intros rest. reflexivity. Qed.

Lemma decodes_bind {A B} (m : M (list Z) A) (f : A → M (list Z) B) bs1 bs2 a b :
  decodes m bs1 a → decodes (f a) bs2 b → decodes (m ≫= f) (bs1 ++ bs2) b.
Proof.
  intros Hm Hf rest. rewrite <- (assoc_L (++)).
  rewrite (M_bind_ok m f _ _ _ (Hm (bs2 ++ rest))). apply Hf.
Qed.

Lemma decodes_bind_ret {A B} (m : M (list Z) A) (f : A → B) bs a :
  decodes m bs a → decodes (x ← m; mret (f x)) bs (f a).
Proof. intros Hm. rewrite <- (app_nil_r bs). eapply decodes_bind; [exact Hm|apply decodes_ret]. Qed.

Lemma decodes_bind_nil {A B} (m : M (list Z) A) (f : A → M (list Z) B) bs a b :
  decodes m [] a → decodes (f a) bs b → decodes (m ≫= f) bs b.
Proof. intros Hm Hf. rewrite <- (app_nil_l bs). eapply decodes_bind; eassumption. Qed.

Lemma decodes_read_bytes bs : decodes (read_bytes (length bs)) bs bs.
Proof.
  intros rest. unfold read_bytes. unfold_M.
  rewrite (proj2 (Nat.leb_le _ _)) by (rewrite length_app; lia).
  rewrite take_app_length, drop_app_length. reflexivity.
Qed.

Lemma decodes_value n x :
  (0 ≤ x < 256 ^ Z.of_nat n)%Z → decodes (deserializeValue n) (serializeValue n x) x.
Proof.
  intros Hx. unfold deserializeValue, serializeValue.
  rewrite <- (le_value_bytes n x Hx) at 2. apply decodes_bind_ret.
  rewrite <- (length_le_bytes n x) at 1. apply decodes_read_bytes.
Qed.

Lemma decodes_u64 x : is_u64 x → decodes (deserializeValue 8) (serializeValue 8 x) x.
Proof. intros Hx. apply decodes_value. exact Hx. Qed.

Lemma decodes_u32 x : (0 ≤ x < 2 ^ 32)%Z → decodes (deserializeValue 4) (serializeValue 4 x) x.
Proof. intros Hx. apply decodes_value. exact Hx. Qed.

Lemma decodes_bool b : decodes deserializeBool (serializeBool b) b.
Proof.
  unfold deserializeBool, serializeBool.
  replace b with (negb ((if b then 1 else 0) =? 0)%Z) at 2 by (destruct b; reflexivity).
  apply (decodes_bind_ret (deserializeValue 1) (λ x, negb (x =? 0)%Z)).
  apply decodes_value. destruct b; cbn; lia.
Qed.

Lemma ascii_of_byte_of_ascii a : ascii_of_byte (byte_of_ascii a) = a.
Proof.
  unfold ascii_of_byte, byte_of_ascii. rewrite N2Z.id. apply ascii_N_embedding.
Qed.

Lemma decodes_string s :
  is_u64 (Z.of_nat (String.length s)) → decodes deserializeString (serializeString s) s.
Proof.
  intros Hs. unfold deserializeString, serializeString.
  eapply decodes_bind; [apply decodes_u64; exact Hs|].
  rewrite Nat2Z.id.
  assert (Hlen : String.length s = length (map byte_of_ascii (String.list_ascii_of_string s))).
  { rewrite length_map. induction s as [|a s IH]; cbn; [reflexivity|].
    rewrite IH; [reflexivity|]. cbn [String.length] in Hs. unfold is_u64 in *. lia. }
  rewrite Hlen.
  replace s with (String.string_of_list_ascii (map ascii_of_byte
    (map byte_of_ascii (String.list_ascii_of_string s)))) at 3.
  2:{ rewrite map_map. rewrite (map_ext _ (λ x, x)) by apply ascii_of_byte_of_ascii.
      rewrite map_id. apply String.string_of_list_ascii_of_string. }
  apply (decodes_bind_ret (read_bytes _) (λ bs, String.string_of_list_ascii (map ascii_of_byte bs))).
  apply decodes_read_bytes.
Qed.

Lemma decodes_debugging_info dbg s :
  is_u64 (Z.of_nat (String.length s)) →
  decodes (validateDebuggingInfo dbg s) (writeDebuggingInfo dbg s) tt.
Proof.
  intros Hs. destruct dbg; [|apply decodes_ret]. cbn [validateDebuggingInfo writeDebuggingInfo].
  rewrite <- (app_nil_r (serializeString s)).
  eapply decodes_bind; [apply decodes_string; exact Hs|].
  rewrite String.eqb_refl. apply decodes_ret.
Qed.

Lemma decodes_array n l :
  Forall (λ x, 0 ≤ x < 256 ^ Z.of_nat n)%Z l →
  decodes (deserializeArray n (length l)) (serializeArray n l) l.
Proof.
  induction 1 as [|x l Hx Hl IH]; [apply decodes_ret|].
  cbn [length deserializeArray serializeArray].
  change (mbind (serializeValue n) (x :: l)) with (serializeValue n x ++ (l ≫= serializeValue n)).
  eapply decodes_bind; [apply decodes_value; exact Hx|].
  apply (decodes_bind_ret (deserializeArray n (length l)) (λ xs, x :: xs)). exact IH.
Qed.

#[export] Hint Resolve decodes_ret decodes_u64 decodes_u32 decodes_bool decodes_string : kuzu.

#[export] Instance Codec_u64 : Codec Z := {|
  encode := serializeValue 8;
  decode := deserializeValue 8;
  encodable := is_u64;
  decode_encode := decodes_u64;
|}.

End Serializer.
