(* ===== verification/VersionInfo.v ===== *)
(** * Row versions

    [VectorVersionInfo] and [VersionInfo] of storage/table/version_info.cpp: which transaction
    inserted and which deleted each row of a chunk, kept as one shared version per vector while all
    rows agree and as an array of versions afterwards. This file holds the data and the operations
    as the code has them; VersionSpec proves what they mean. *)

From stdpp Require Import base numbers list strings.
From Stdlib Require Import ZArith Lia.
From S2P Require Import Prelude SelVector Serializer.
Import SelVector Serializer.

Module VectorVersion.

(** [VectorVersionInfo::InsertionStatus] and [VectorVersionInfo::DeletionStatus] *)
Inductive InsertionStatus := NO_INSERTED | INS_CHECK_VERSION | ALWAYS_INSERTED.
Inductive DeletionStatus := NO_DELETED | DEL_CHECK_VERSION.

#[global] Instance InsertionStatus_eq_dec : EqDecision InsertionStatus.
Proof. solve_decision. Defined.
#[global] Instance DeletionStatus_eq_dec : EqDecision DeletionStatus.
Proof. solve_decision. Defined.

Record VectorVersionInfo := MkVectorVersionInfo {
  insertedVersions : option (list Z);
  deletedVersions : option (list Z);
  sameInsertionVersion : Z;
  sameDeletionVersion : Z;
  insertionStatus : InsertionStatus;
  deletionStatus : DeletionStatus;
}.

#[global] Instance VectorVersionInfo_eq_dec : EqDecision VectorVersionInfo.
Proof. solve_decision. Defined.

(** The constructor [VectorVersionInfo()]. *)
Definition VectorVersionInfo_new : VectorVersionInfo :=
  MkVectorVersionInfo None None INVALID_TRANSACTION INVALID_TRANSACTION NO_INSERTED NO_DELETED.

Definition set_insertedVersions (a : option (list Z)) (v : VectorVersionInfo) :=
  MkVectorVersionInfo a (deletedVersions v) (sameInsertionVersion v) (sameDeletionVersion v)
    (insertionStatus v) (deletionStatus v).
Definition set_deletedVersions (a : option (list Z)) (v : VectorVersionInfo) :=
  MkVectorVersionInfo (insertedVersions v) a (sameInsertionVersion v) (sameDeletionVersion v)
    (insertionStatus v) (deletionStatus v).
Definition set_sameInsertionVersion (t : Z) (v : VectorVersionInfo) :=
  MkVectorVersionInfo (insertedVersions v) (deletedVersions v) t (sameDeletionVersion v)
    (insertionStatus v) (deletionStatus v).
Definition set_sameDeletionVersion (t : Z) (v : VectorVersionInfo) :=
  MkVectorVersionInfo (insertedVersions v) (deletedVersions v) (sameInsertionVersion v) t
    (insertionStatus v) (deletionStatus v).
Definition set_insertionStatus (s : InsertionStatus) (v : VectorVersionInfo) :=
  MkVectorVersionInfo (insertedVersions v) (deletedVersions v) (sameInsertionVersion v)
    (sameDeletionVersion v) s (deletionStatus v).
Definition set_deletionStatus (s : DeletionStatus) (v : VectorVersionInfo) :=
  MkVectorVersionInfo (insertedVersions v) (deletedVersions v) (sameInsertionVersion v)
    (sameDeletionVersion v) (insertionStatus v) s.

Definition isSameInsertionVersion (v : VectorVersionInfo) : bool :=
  negb (sameInsertionVersion v =? INVALID_TRANSACTION)%Z.
Definition isSameDeletionVersion (v : VectorVersionInfo) : bool :=
  negb (sameDeletionVersion v =? INVALID_TRANSACTION)%Z.

(** A fresh version array, filled with [INVALID_TRANSACTION]. *)
Definition new_version_array : list Z := replicate DEFAULT_VECTOR_CAPACITY INVALID_TRANSACTION.

Definition initInsertionVersionArray (v : VectorVersionInfo) : VectorVersionInfo :=
  set_insertedVersions (Some new_version_array) v.
Definition initDeletionVersionArray (v : VectorVersionInfo) : VectorVersionInfo :=
  set_deletedVersions (Some new_version_array) v.

(** [insertedVersions->operator[](row) = t], with a null pointer or a row past the end undefined. *)
Definition write_inserted (row : nat) (t : Z) : M VectorVersionInfo unit :=
  v ← get_state;
  match insertedVersions v with
  | Some a =>
      if row <? length a then put_state (set_insertedVersions (Some (<[row:=t]> a)) v)
      else raise (UndefinedBehaviour "insertedVersions")
  | None => raise (UndefinedBehaviour "insertedVersions")
  end.
Definition write_deleted (row : nat) (t : Z) : M VectorVersionInfo unit :=
  v ← get_state;
  match deletedVersions v with
  | Some a =>
      if row <? length a then put_state (set_deletedVersions (Some (<[row:=t]> a)) v)
      else raise (UndefinedBehaviour "deletedVersions")
  | None => raise (UndefinedBehaviour "deletedVersions")
  end.

(** [versions->operator[](row)] *)
Definition read_version (a : option (list Z)) (row : nat) : outcome Z :=
  match a ≫= λ l, l !! row with
  | Some t => Ok t
  | None => Throw (UndefinedBehaviour "versions")
  end.

Definition has_inserted_array (v : VectorVersionInfo) : bool :=
  bool_decide (is_Some (insertedVersions v)).
Definition has_deleted_array (v : VectorVersionInfo) : bool :=
  bool_decide (is_Some (deletedVersions v)).

(** The part of [VectorVersionInfo::append] that switches from one shared version to an array. *)
Definition spread_same_version (startRow : nat) : M VectorVersionInfo unit :=
  v ← get_state;
  modify initInsertionVersionArray ;;
  for_each (seq 0 startRow) (λ i, write_inserted i (sameInsertionVersion v)) ;;
  modify (set_sameInsertionVersion INVALID_TRANSACTION).

(** The last loop of [VectorVersionInfo::append]. *)
Definition append_rows (transactionID : Z) (startRow numRows : nat) : M VectorVersionInfo unit :=
  for_each (seq 0 numRows) (λ i,
    v ← get_state;
    old ← observe (λ _, read_version (insertedVersions v) (startRow + i));
    ku_assert (old =? INVALID_TRANSACTION)%Z ;;
    write_inserted (startRow + i) transactionID).

(** [VectorVersionInfo::append] *)
Definition append (transactionID : Z) (startRow numRows : nat) : M VectorVersionInfo unit :=
  modify (set_insertionStatus INS_CHECK_VERSION) ;;
  v ← get_state;
  if (transactionID =? sameInsertionVersion v)%Z then mret tt
  else if negb (isSameInsertionVersion v) && negb (has_inserted_array v) then
    modify (set_sameInsertionVersion transactionID)
  else
    (if negb (has_inserted_array v) then spread_same_version startRow else mret tt) ;;
    append_rows transactionID startRow numRows.

Definition delete_conflict : exn := RuntimeException
  "Write-write conflict: deleting a row that is already deleted by another transaction.".

(** [VectorVersionInfo::delete_] *)
Definition delete_ (transactionID : Z) (rowIdx : nat) : M VectorVersionInfo bool :=
  modify (set_deletionStatus DEL_CHECK_VERSION) ;;
  v ← get_state;
  if (transactionID =? sameDeletionVersion v)%Z then mret false
  else if isSameDeletionVersion v then raise delete_conflict
  else
    (if negb (has_deleted_array v) then modify initDeletionVersionArray else mret tt) ;;
    v ← get_state;
    old ← observe (λ _, read_version (deletedVersions v) rowIdx);
    if (old =? transactionID)%Z then mret false
    else if negb (old =? INVALID_TRANSACTION)%Z then raise delete_conflict
    else write_deleted rowIdx transactionID ;; mret true.

(** [VectorVersionInfo::setInsertCommitTS] *)
Definition setInsertCommitTS (commitTS : Z) (startRow numRows : nat) : M VectorVersionInfo unit :=
  v ← get_state;
  if isSameInsertionVersion v then modify (set_sameInsertionVersion commitTS)
  else
    ku_assert (has_inserted_array v) ;;
    for_each (seq startRow numRows) (λ rowIdx, write_inserted rowIdx commitTS).

(** [VectorVersionInfo::setDeleteCommitTS] *)
Definition setDeleteCommitTS (commitTS : Z) (startRow numRows : nat) : M VectorVersionInfo unit :=
  v ← get_state;
  if isSameDeletionVersion v then modify (set_sameDeletionVersion commitTS)
  else
    ku_assert (has_deleted_array v) ;;
    for_each (seq startRow numRows) (λ rowIdx, write_deleted rowIdx commitTS).

(** [VectorVersionInfo::isDeleted] *)
Definition isDeleted (startTS transactionID : Z) (rowIdx : nat) (v : VectorVersionInfo) :
    outcome bool :=
  match deletionStatus v with
  | NO_DELETED => Ok false
  | DEL_CHECK_VERSION =>
      deletion ← (if isSameDeletionVersion v then Ok (sameDeletionVersion v)
                  else ku_assert_o (has_deleted_array v) ;; read_version (deletedVersions v) rowIdx);
      Ok ((deletion =? transactionID)%Z || (deletion <=? startTS)%Z)
  end.

(** [VectorVersionInfo::isInserted] *)
Definition isInserted (startTS transactionID : Z) (rowIdx : nat) (v : VectorVersionInfo) :
    outcome bool :=
  match insertionStatus v with
  | ALWAYS_INSERTED => Ok true
  | NO_INSERTED => Ok false
  | INS_CHECK_VERSION =>
      insertion ← (if isSameInsertionVersion v then Ok (sameInsertionVersion v)
                   else ku_assert_o (has_inserted_array v) ;;
                        read_version (insertedVersions v) rowIdx);
      Ok ((insertion =? transactionID)%Z || (insertion <=? startTS)%Z)
  end.

(** [VectorVersionInfo::isSelected] *)
Definition isSelected (startTS transactionID : Z) (rowIdx : nat) (v : VectorVersionInfo) :
    outcome bool :=
  if bool_decide (deletionStatus v = NO_DELETED) && bool_decide (insertionStatus v = ALWAYS_INSERTED)
  then Ok true
  else if bool_decide (insertionStatus v = NO_INSERTED) then Ok false
  else
    ins ← isInserted startTS transactionID rowIdx v;
    if (ins : bool) then negb <$> isDeleted startTS transactionID rowIdx v
    else Ok false.

(** The loop [for (i : l) if (keep(i)) getMutableBuffer()[numSelected++] = base + i], which returns
    the final [numSelected]. *)
Fixpoint push_selected (l : list nat) (keep : nat → outcome bool) (base numSelected : nat) :
    M SelectionVector nat :=
  match l with
  | [] => mret numSelected
  | i :: l' =>
      k ← observe (λ _, keep i);
      if (k : bool) then
        write_buffer numSelected (base + i) ;; push_selected l' keep base (S numSelected)
      else push_selected l' keep base numSelected
  end.

(** [VectorVersionInfo::getSelVectorForScan] *)
Definition getSelVectorForScan (startTS transactionID : Z) (v : VectorVersionInfo)
    (startRow numRows startOutputPos : nat) : M SelectionVector unit :=
  sv ← get_state;
  let numSelected := getSelSize sv in
  if bool_decide (deletionStatus v = NO_DELETED) && bool_decide (insertionStatus v = ALWAYS_INSERTED)
  then
    if isUnfiltered sv then setSelSize (getSelSize sv + numRows)
    else
      n ← push_selected (seq 0 numRows) (λ _, Ok true) startOutputPos numSelected;
      setToFilteredSize n
  else if negb (bool_decide (insertionStatus v = NO_INSERTED)) then
    (if isUnfiltered sv then makeDynamic else mret tt) ;;
    n ← push_selected (seq 0 numRows) (λ i,
          ins ← isInserted startTS transactionID (startRow + i) v;
          if (ins : bool) then negb <$> isDeleted startTS transactionID (startRow + i) v
          else Ok false) startOutputPos numSelected;
    setToFilteredSize n
  else mret tt.

(** A loop that adds up booleans. *)
Fixpoint count_rows (l : list nat) (f : nat → outcome bool) : outcome nat :=
  match l with
  | [] => Ok 0
  | i :: l' =>
      b ← f i;
      n ← count_rows l' f;
      Ok ((if (b : bool) then 1 else 0) + n)
  end.

(** [VectorVersionInfo::getNumDeletions] *)
Definition getNumDeletions (startTS transactionID : Z) (startRow numRows : nat)
    (v : VectorVersionInfo) : outcome nat :=
  if bool_decide (deletionStatus v = NO_DELETED) then Ok 0
  else count_rows (seq 0 numRows) (λ i, isDeleted startTS transactionID (startRow + i) v).

(** Whether any entry of a version array is a version. *)
Definition has_any_version (a : list Z) : bool :=
  existsb (λ t, negb (t =? INVALID_TRANSACTION)%Z) a.

(** [VectorVersionInfo::rollbackInsertions] *)
Definition rollbackInsertions (startRowInVector numRows : nat) : M VectorVersionInfo unit :=
  v ← get_state;
  (if isSameInsertionVersion v then modify (set_sameInsertionVersion INVALID_TRANSACTION)
   else if has_inserted_array v then
     for_each (seq startRowInVector numRows) (λ row, write_inserted row INVALID_TRANSACTION) ;;
     v ← get_state;
     if negb (has_any_version (default [] (insertedVersions v)))
     then modify (set_insertedVersions None) else mret tt
   else mret tt) ;;
  v ← get_state;
  if negb (has_inserted_array v) then
    modify (set_insertionStatus NO_INSERTED) ;; modify (set_deletionStatus NO_DELETED)
  else mret tt.

(** [VectorVersionInfo::rollbackDeletions] *)
Definition rollbackDeletions (startRowInVector numRows : nat) : M VectorVersionInfo unit :=
  v ← get_state;
  (if isSameDeletionVersion v then modify (set_sameDeletionVersion INVALID_TRANSACTION)
   else if has_deleted_array v then
     for_each (seq startRowInVector numRows) (λ row, write_deleted row INVALID_TRANSACTION) ;;
     v ← get_state;
     if negb (has_any_version (default [] (deletedVersions v)))
     then modify (set_deletedVersions None) else mret tt
   else mret tt) ;;
  v ← get_state;
  if negb (has_deleted_array v) then modify (set_deletionStatus NO_DELETED) else mret tt.

(** [VectorVersionInfo::hasDeletions(transaction)]. The array's [size()] is read through a pointer
    that is null while the vector has no deletions, which C++ leaves undefined. *)
Definition hasDeletions (startTS transactionID : Z) (v : VectorVersionInfo) : outcome bool :=
  if isSameDeletionVersion v then
    Ok ((sameDeletionVersion v <=? startTS)%Z || (sameDeletionVersion v =? transactionID)%Z)
  else
    match deletedVersions v with
    | None => Throw (UndefinedBehaviour "deletedVersions")
    | Some a =>
        n ← count_rows (seq 0 (length a)) (λ i, isDeleted startTS transactionID i v);
        Ok (0 <? n)
    end.

(** The underlying values of the two status enumerations. *)
Definition insertionStatus_code (s : InsertionStatus) : Z :=
  match s with NO_INSERTED => 0 | INS_CHECK_VERSION => 1 | ALWAYS_INSERTED => 2 end%Z.
Definition deletionStatus_code (s : DeletionStatus) : Z :=
  match s with NO_DELETED => 0 | DEL_CHECK_VERSION => 1 end%Z.

(** "Versions should be either INVALID_TRANSACTION or committed timestamps." *)
Definition persistable_version (t : Z) : bool :=
  (t =? INVALID_TRANSACTION)%Z || (t <? START_TRANSACTION_ID)%Z.

(** [VectorVersionInfo::serialize]: the bytes written. *)
Definition serialize (dbg : bool) (v : VectorVersionInfo) : outcome (list Z) :=
  (match deletedVersions v with
   | Some a => ku_assert_o (forallb persistable_version a)
   | None => Ok tt
   end) ;;
  ku_assert_o (bool_decide (insertionStatus v = NO_INSERTED) ||
               bool_decide (insertionStatus v = ALWAYS_INSERTED)) ;;
  let header :=
    writeDebuggingInfo dbg "insertion_status" ++
    serializeValue 1 (insertionStatus_code (insertionStatus v)) ++
    writeDebuggingInfo dbg "deletion_status" ++
    serializeValue 1 (deletionStatus_code (deletionStatus v)) in
  match deletionStatus v with
  | NO_DELETED => Ok header
  | DEL_CHECK_VERSION =>
      let same := writeDebuggingInfo dbg "same_deletion_version" ++
                  serializeValue 8 (sameDeletionVersion v) in
      if (sameDeletionVersion v =? INVALID_TRANSACTION)%Z then
        match deletedVersions v with
        | Some a => Ok (header ++ same ++ writeDebuggingInfo dbg "deleted_versions" ++
                        serializeArray 8 a)
        | None => Throw assert_failure
        end
      else Ok (header ++ same)
  end.

(** [VectorVersionInfo::deSerialize] *)
Definition deSerialize (dbg : bool) : M (list Z) VectorVersionInfo :=
  validateDebuggingInfo dbg "insertion_status" ;;
  ins ← deserializeValue 1;
  ku_assert ((ins =? 0) || (ins =? 2))%Z ;;
  let v := set_insertionStatus (if (ins =? 0)%Z then NO_INSERTED else ALWAYS_INSERTED)
             VectorVersionInfo_new in
  validateDebuggingInfo dbg "deletion_status" ;;
  del ← deserializeValue 1;
  v ← (if (del =? 0)%Z then mret v
       else if (del =? 1)%Z then
         let v := set_deletionStatus DEL_CHECK_VERSION v in
         validateDebuggingInfo dbg "same_deletion_version" ;;
         same ← deserializeValue 8;
         let v := set_sameDeletionVersion same v in
         if (same =? INVALID_TRANSACTION)%Z then
           validateDebuggingInfo dbg "deleted_versions" ;;
           a ← deserializeArray 8 DEFAULT_VECTOR_CAPACITY;
           mret (set_deletedVersions (Some a) v)
         else mret v
       else raise (InternalException "KU_UNREACHABLE"));
  ku_assert (forallb persistable_version (default [] (deletedVersions v))) ;;
  mret v.

End VectorVersion.

Module ChunkVersion.
Import VectorVersion.

(** [VersionInfo]: the vectors of a chunk; a vector without version information is null. *)
Record VersionInfo := MkVersionInfo { vectorsInfo : list (option VectorVersionInfo) }.

(** The constructor [VersionInfo()]. *)
Definition VersionInfo_new : VersionInfo := MkVersionInfo [].

(** [VersionInfo::getOrCreateVersionInfo], as the vectors afterwards: the list is extended with null
    pointers, and a null entry is replaced by a new object. *)
Definition ensure_vector (vectorIdx : nat) (l : list (option VectorVersionInfo)) :
    list (option VectorVersionInfo) :=
  let l1 := if length l <=? vectorIdx then l ++ replicate (vectorIdx + 1 - length l) None else l in
  match l1 !! vectorIdx with
  | Some None => <[vectorIdx:=Some VectorVersionInfo_new]> l1
  | _ => l1
  end.

(** A call through the reference that [getOrCreateVersionInfo] returns. *)
Definition on_vector {A} (vectorIdx : nat) (m : M VectorVersionInfo A) : M VersionInfo A :=
  λ vi,
    let l := ensure_vector vectorIdx (vectorsInfo vi) in
    match l !! vectorIdx with
    | Some (Some v) =>
        let '(r, v') := m v in (r, MkVersionInfo (<[vectorIdx:=Some v']> l))
    | _ => (Throw (UndefinedBehaviour "vectorsInfo"), MkVersionInfo l)
    end.

(** [VersionInfo::getVectorVersionInfo] *)
Definition getVectorVersionInfo (vectorIdx : nat) (vi : VersionInfo) : option VectorVersionInfo :=
  if length (vectorsInfo vi) <=? vectorIdx then None
  else mjoin (vectorsInfo vi !! vectorIdx).

(** The loop header shared by the range operations: the vectors a row range touches, each with its
    first row in the vector and its number of rows there. *)
Definition vector_slices (startRow numRows : nat) : list (nat * nat * nat) :=
  let '(startVectorIdx, startRowIdxInVector) :=
    getQuotientRemainder startRow DEFAULT_VECTOR_CAPACITY in
  let '(endVectorIdx, endRowIdxInVector) :=
    getQuotientRemainder (startRow + numRows - 1) DEFAULT_VECTOR_CAPACITY in
  map (λ vectorIdx,
    let startRowIdx := if vectorIdx =? startVectorIdx then startRowIdxInVector else 0 in
    let endRowIdx :=
      if vectorIdx =? endVectorIdx then endRowIdxInVector else DEFAULT_VECTOR_CAPACITY - 1 in
    (vectorIdx, startRowIdx, endRowIdx - startRowIdx + 1))
    (seq startVectorIdx (endVectorIdx + 1 - startVectorIdx)).

(** [VersionInfo::append] *)
Definition append (transactionID : Z) (startRow numRows : nat) : M VersionInfo unit :=
  if numRows =? 0 then mret tt
  else for_each (vector_slices startRow numRows) (λ '(vectorIdx, startRowIdx, numRowsInVector),
    on_vector vectorIdx (VectorVersion.append transactionID startRowIdx numRowsInVector)).

(** [VersionInfo::delete_] *)
Definition delete_ (transactionID : Z) (rowIdx : nat) : M VersionInfo bool :=
  let '(vectorIdx, rowIdxInVector) := getQuotientRemainder rowIdx DEFAULT_VECTOR_CAPACITY in
  on_vector vectorIdx (
    v ← get_state;
    (if bool_decide (insertionStatus v = NO_INSERTED)
     then modify (set_insertionStatus ALWAYS_INSERTED) else mret tt) ;;
    VectorVersion.delete_ transactionID rowIdxInVector).

(** [VersionInfo::isSelected] *)
Definition isSelected (startTS transactionID : Z) (rowIdx : nat) (vi : VersionInfo) : outcome bool :=
  let '(vectorIdx, rowIdxInVector) := getQuotientRemainder rowIdx DEFAULT_VECTOR_CAPACITY in
  match getVectorVersionInfo vectorIdx vi with
  | Some v => VectorVersion.isSelected startTS transactionID rowIdxInVector v
  | None => Ok true
  end.

(** The body of the loop of [VersionInfo::getSelVectorToScan] for one vector. *)
Definition scan_vector (startTS transactionID : Z) (vi : VersionInfo)
    (vectorIdx startRowIdx numRowsInVector outputPos : nat) : M SelectionVector unit :=
  match getVectorVersionInfo vectorIdx vi with
  | None =>
      sv ← get_state;
      let numSelected := getSelSize sv in
      if isUnfiltered sv then setSelSize (numSelected + numRowsInVector)
      else
        n ← push_selected (seq 0 numRowsInVector) (λ _, Ok true) outputPos numSelected;
        setToFilteredSize n
  | Some v => getSelVectorForScan startTS transactionID v startRowIdx numRowsInVector outputPos
  end.

Fixpoint scan_vectors (startTS transactionID : Z) (vi : VersionInfo)
    (slices : list (nat * nat * nat)) (outputPos : nat) : M SelectionVector nat :=
  match slices with
  | [] => mret outputPos
  | (vectorIdx, startRowIdx, numRowsInVector) :: slices' =>
      scan_vector startTS transactionID vi vectorIdx startRowIdx numRowsInVector outputPos ;;
      scan_vectors startTS transactionID vi slices' (outputPos + numRowsInVector)
  end.

(** [VersionInfo::getSelVectorToScan] *)
Definition getSelVectorToScan (startTS transactionID : Z) (vi : VersionInfo)
    (startRow numRows : nat) : M SelectionVector unit :=
  if numRows =? 0 then mret tt
  else
    setToUnfilteredSize 0 ;;
    outputPos ← scan_vectors startTS transactionID vi (vector_slices startRow numRows) 0;
    ku_assert (outputPos <=? DEFAULT_VECTOR_CAPACITY).

(** [VersionInfo::clearVectorInfo] *)
Definition clearVectorInfo (vectorIdx : nat) : M VersionInfo unit :=
  vi ← get_state;
  ku_assert (vectorIdx <? length (vectorsInfo vi)) ;;
  put_state (MkVersionInfo (<[vectorIdx:=None]> (vectorsInfo vi))).

(** [VersionInfo::hasDeletions()] *)
Definition hasAnyDeletions (vi : VersionInfo) : bool :=
  existsb (λ o, match o with
                | Some v => bool_decide (deletionStatus v = DEL_CHECK_VERSION)
                | None => false
                end) (vectorsInfo vi).

(** [VersionInfo::hasInsertions()] *)
Definition hasInsertions (vi : VersionInfo) : bool :=
  existsb (λ o, match o with
                | Some v => bool_decide (insertionStatus v = INS_CHECK_VERSION)
                | None => false
                end) (vectorsInfo vi).

Fixpoint sum_deletions (startTS transactionID : Z) (vi : VersionInfo)
    (slices : list (nat * nat * nat)) : outcome nat :=
  match slices with
  | [] => Ok 0
  | (vectorIdx, rowInVector, numRowsInVector) :: slices' =>
      n ← match getVectorVersionInfo vectorIdx vi with
          | Some v =>
              VectorVersion.getNumDeletions startTS transactionID rowInVector numRowsInVector v
          | None => Ok 0
          end;
      m ← sum_deletions startTS transactionID vi slices';
      Ok (n + m)
  end.

(** [VersionInfo::getNumDeletions(transaction, startRow, numRows)] *)
Definition getNumDeletions (startTS transactionID : Z) (startRow numRows : nat) (vi : VersionInfo) :
    outcome nat :=
  if numRows =? 0 then Ok 0
  else sum_deletions startTS transactionID vi (vector_slices startRow numRows).

(** [VersionInfo::isDeleted(transaction, rowInChunk)] *)
Definition isDeleted (startTS transactionID : Z) (rowInChunk : nat) (vi : VersionInfo) :
    outcome bool :=
  let '(vectorIdx, rowInVector) := getQuotientRemainder rowInChunk DEFAULT_VECTOR_CAPACITY in
  match getVectorVersionInfo vectorIdx vi with
  | Some v => VectorVersion.isDeleted startTS transactionID rowInVector v
  | None => Ok false
  end.

(** [VersionInfo::isInserted(transaction, rowInChunk)] *)
Definition isInserted (startTS transactionID : Z) (rowInChunk : nat) (vi : VersionInfo) :
    outcome bool :=
  let '(vectorIdx, rowInVector) := getQuotientRemainder rowInChunk DEFAULT_VECTOR_CAPACITY in
  match getVectorVersionInfo vectorIdx vi with
  | Some v => VectorVersion.isInserted startTS transactionID rowInVector v
  | None => Ok true
  end.

(** [VersionInfo::hasDeletions(transaction)] *)
Fixpoint vectors_haveDeletions (startTS transactionID : Z) (l : list (option VectorVersionInfo)) :
    outcome bool :=
  match l with
  | [] => Ok false
  | None :: l' => vectors_haveDeletions startTS transactionID l'
  | Some v :: l' =>
      b ← VectorVersion.hasDeletions startTS transactionID v;
      if (b : bool) then Ok true else vectors_haveDeletions startTS transactionID l'
  end.

Definition hasDeletions (startTS transactionID : Z) (vi : VersionInfo) : outcome bool :=
  vectors_haveDeletions startTS transactionID (vectorsInfo vi).

(** [VersionInfo::commitInsert] *)
Definition commitInsert (startRow numRows : nat) (commitTS : Z) : M VersionInfo unit :=
  if numRows =? 0 then mret tt
  else for_each (vector_slices startRow numRows) (λ '(vectorIdx, startRowIdx, n),
    on_vector vectorIdx (setInsertCommitTS commitTS startRowIdx n)).

(** [VersionInfo::rollbackInsert] *)
Definition rollbackInsert (startRow numRows : nat) : M VersionInfo unit :=
  if numRows =? 0 then mret tt
  else for_each (vector_slices startRow numRows) (λ '(vectorIdx, startRowIdx, n),
    on_vector vectorIdx (rollbackInsertions startRowIdx n)).

(** [VersionInfo::commitDelete] *)
Definition commitDelete (startRow numRows : nat) (commitTS : Z) : M VersionInfo unit :=
  if numRows =? 0 then mret tt
  else for_each (vector_slices startRow numRows) (λ '(vectorIdx, startRowIdx, n),
    on_vector vectorIdx (setDeleteCommitTS commitTS startRowIdx n)).

(** [VersionInfo::rollbackDelete] *)
Definition rollbackDelete (startRow numRows : nat) : M VersionInfo unit :=
  if numRows =? 0 then mret tt
  else for_each (vector_slices startRow numRows) (λ '(vectorIdx, startRowIdx, n),
    on_vector vectorIdx (rollbackDeletions startRowIdx n)).

(** [VersionInfo::serialize] *)
Fixpoint serialize_vectors (dbg : bool) (l : list (option VectorVersionInfo)) : outcome (list Z) :=
  match l with
  | [] => Ok []
  | o :: l' =>
      bs ← match o with
           | Some v =>
               bs ← VectorVersion.serialize dbg v;
               Ok (writeDebuggingInfo dbg "has_vector_info" ++ serializeBool true ++
                   writeDebuggingInfo dbg "vector_info" ++ bs)
           | None => Ok (writeDebuggingInfo dbg "has_vector_info" ++ serializeBool false)
           end;
      rest ← serialize_vectors dbg l';
      Ok (bs ++ rest)
  end.

Definition serialize (dbg : bool) (vi : VersionInfo) : outcome (list Z) :=
  bs ← serialize_vectors dbg (vectorsInfo vi);
  Ok (writeDebuggingInfo dbg "vectors_info_size" ++
      serializeValue 8 (Z.of_nat (length (vectorsInfo vi))) ++ bs).

(** [VersionInfo::deserialize] *)
Fixpoint deserialize_vectors (dbg : bool) (n : nat) : M (list Z) (list (option VectorVersionInfo)) :=
  match n with
  | 0 => mret []
  | S n' =>
      validateDebuggingInfo dbg "has_vector_info" ;;
      hasVectorVersion ← deserializeBool;
      o ← (if (hasVectorVersion : bool) then
             validateDebuggingInfo dbg "vector_info" ;;
             v ← deSerialize dbg; mret (Some v)
           else mret None);
      rest ← deserialize_vectors dbg n';
      mret (o :: rest)
  end.

Definition deserialize (dbg : bool) : M (list Z) VersionInfo :=
  validateDebuggingInfo dbg "vectors_info_size" ;;
  vectorSize ← deserializeValue 8;
  l ← deserialize_vectors dbg (Z.to_nat vectorSize);
  mret (MkVersionInfo l).

End ChunkVersion.
