(* ===== verification/VersionSpec.v ===== *)
(** * What the row versions of one vector mean

    [ins_version] and [del_version] read off a [VectorVersionInfo] the version that inserted and the
    one that deleted a row, whatever representation the vector is in. The lemmas show that each
    operation does to these what its name says: the abstract state of a vector is the pair of
    functions from rows to versions, and the operations refine updates of it. *)

From stdpp Require Import base numbers list strings.
From Stdlib Require Import ZArith Lia.
From S2P Require Import Prelude SelVector Serializer VersionInfo.
Import SelVector Serializer VectorVersion.

(** The version recorded for a row in an array that may not be allocated. *)
Definition array_version (a : option (list Z)) (i : nat) : Z :=
  default INVALID_TRANSACTION (a ≫= λ l, l !! i).

(** The version that inserted row [i]: checkpointed rows count as inserted at timestamp 0. *)
Definition ins_version (v : VectorVersionInfo) (i : nat) : Z :=
  match insertionStatus v with
  | ALWAYS_INSERTED => DUMMY_START_TIMESTAMP
  | NO_INSERTED => INVALID_TRANSACTION
  | INS_CHECK_VERSION =>
      if isSameInsertionVersion v then sameInsertionVersion v else array_version (insertedVersions v) i
  end.

(** The version that deleted row [i], [INVALID_TRANSACTION] for a row that is not deleted. *)
Definition del_version (v : VectorVersionInfo) (i : nat) : Z :=
  match deletionStatus v with
  | NO_DELETED => INVALID_TRANSACTION
  | DEL_CHECK_VERSION => array_version (deletedVersions v) i
  end.

(** A version is seen by a transaction that wrote it or that started after it committed. *)
Definition sees (startTS transactionID version : Z) : bool :=
  (version =? transactionID)%Z || (version <=? startTS)%Z.

(** A row is visible when the transaction sees its insertion and does not see its deletion. *)
Definition visible (startTS transactionID ins del : Z) : bool :=
  sees startTS transactionID ins && negb (sees startTS transactionID del).

Definition is_version_array (a : option (list Z)) : Prop :=
  ∀ l, a = Some l → length l = DEFAULT_VECTOR_CAPACITY.

(** The invariant of a vector: the arrays are full vectors, a status of CHECK_VERSION has a version to
    check, the shared and the per-row insertion versions exclude each other, and there is a deletion
    array only for a vector whose status says so. [sameDeletionVersion] is never written by the
    operations. *)
Record wf_vector (v : VectorVersionInfo) : Prop := {
  wf_ins_array : is_version_array (insertedVersions v);
  wf_del_array : is_version_array (deletedVersions v);
  wf_ins_check : insertionStatus v = INS_CHECK_VERSION →
    isSameInsertionVersion v = negb (has_inserted_array v);
  wf_ins_nocheck : insertionStatus v ≠ INS_CHECK_VERSION →
    isSameInsertionVersion v = false ∧ insertedVersions v = None;
  wf_del_same : sameDeletionVersion v = INVALID_TRANSACTION;
  wf_del_check : deletionStatus v = DEL_CHECK_VERSION → is_Some (deletedVersions v);
  wf_del_nocheck : deletionStatus v = NO_DELETED → deletedVersions v = None;
}.

(** Rows from [s] on are free: a transaction may append there. A vector with no recorded insertion
    has no rows yet, and rows of an always-inserted vector come from a checkpoint. *)
Definition appendable (v : VectorVersionInfo) (s : nat) : Prop :=
  match insertionStatus v with
  | NO_INSERTED => s = 0
  | ALWAYS_INSERTED => False
  | INS_CHECK_VERSION => ∀ l i t, insertedVersions v = Some l → s ≤ i → l !! i = Some t →
      t = INVALID_TRANSACTION
  end.

(** ** Reading *)

Lemma is_version_array_None : is_version_array None.
Proof. intros l H. discriminate. Qed.

Lemma is_version_array_Some l :
  length l = DEFAULT_VECTOR_CAPACITY → is_version_array (Some l).
Proof. intros H l' [= <-]. exact H. Qed.

Lemma length_new_version_array : length new_version_array = DEFAULT_VECTOR_CAPACITY.
Proof. apply length_replicate. Qed.

#[export] Hint Resolve is_version_array_None is_version_array_Some length_new_version_array : kuzu.

Lemma read_version_array a i :
  is_version_array a → is_Some a → i < DEFAULT_VECTOR_CAPACITY →
  read_version a i = Ok (array_version a i).
Proof.
  intros Ha [l ->] Hi. unfold read_version, array_version. cbn.
  destruct (lookup_lt_is_Some_2 l i) as [t Ht]; [rewrite (Ha l eq_refl); exact Hi|].
  rewrite Ht. reflexivity.
Qed.

Lemma has_array_Some (v : VectorVersionInfo) l :
  insertedVersions v = Some l → has_inserted_array v = true.
Proof. intros H. unfold has_inserted_array. rewrite H. reflexivity. Qed.

Lemma isDeleted_spec startTS id i v :
  wf_vector v → i < DEFAULT_VECTOR_CAPACITY →
  isDeleted startTS id i v =
    Ok (match deletionStatus v with NO_DELETED => false | _ => sees startTS id (del_version v i) end).
Proof.
  intros Hwf Hi. unfold isDeleted, del_version. destruct (deletionStatus v) eqn:Hst; [reflexivity|].
  unfold isSameDeletionVersion. rewrite (wf_del_same _ Hwf), Z.eqb_refl.
  destruct (wf_del_check _ Hwf Hst) as [l Hl]. unfold has_deleted_array. cbn [negb].
  rewrite (bool_decide_eq_true_2 _ (wf_del_check _ Hwf Hst)). cbn -[read_version array_version].
  rewrite read_version_array; [reflexivity|apply Hwf|rewrite Hl; eauto|exact Hi].
Qed.

Lemma isInserted_spec startTS id i v :
  wf_vector v → i < DEFAULT_VECTOR_CAPACITY →
  isInserted startTS id i v =
    Ok (match insertionStatus v with
        | ALWAYS_INSERTED => true
        | NO_INSERTED => false
        | _ => sees startTS id (ins_version v i)
        end).
Proof.
  intros Hwf Hi. unfold isInserted, ins_version.
  destruct (insertionStatus v) eqn:Hst; [reflexivity| |reflexivity].
  pose proof (wf_ins_check _ Hwf Hst) as Hex.
  destruct (isSameInsertionVersion v); [reflexivity|].
  symmetry in Hex. apply negb_false_iff in Hex. rewrite Hex. cbn -[read_version].
  unfold has_inserted_array in Hex. apply bool_decide_eq_true in Hex.
  rewrite read_version_array; [reflexivity|apply Hwf|exact Hex|exact Hi].
Qed.

(** A transaction that can read: a timestamp below every transaction id, and an id of its own. *)
Definition is_reader (startTS id : Z) : Prop := is_commit_ts startTS ∧ is_txn_id id.

Lemma sees_invalid startTS id : is_reader startTS id → sees startTS id INVALID_TRANSACTION = false.
Proof.
  intros [Hs Hid]. unfold sees. apply orb_false_iff. split; [apply Z.eqb_neq|apply Z.leb_gt]; solve_ts.
Qed.

Lemma sees_zero startTS id : is_reader startTS id → sees startTS id DUMMY_START_TIMESTAMP = true.
Proof.
  intros [Hs Hid]. unfold sees. apply orb_true_iff. right. apply Z.leb_le. solve_ts.
Qed.

Lemma isSelected_spec startTS id i v :
  wf_vector v → is_reader startTS id → i < DEFAULT_VECTOR_CAPACITY →
  isSelected startTS id i v = Ok (visible startTS id (ins_version v i) (del_version v i)).
Proof.
  intros Hwf Hr Hi. unfold isSelected, visible.
  rewrite (isInserted_spec _ _ _ _ Hwf Hi), (isDeleted_spec _ _ _ _ Hwf Hi).
  unfold ins_version, del_version.
  pose proof (sees_invalid _ _ Hr) as Hinv. pose proof (sees_zero _ _ Hr) as Hzero.
  destruct (insertionStatus v), (deletionStatus v);
    repeat case_bool_decide; try congruence; cbn [mbind outcome_bind andb fmap outcome_fmap];
    rewrite ?Hinv, ?Hzero; try reflexivity;
    generalize (sees startTS id (if isSameInsertionVersion v then sameInsertionVersion v
      else array_version (insertedVersions v) i)); intros []; reflexivity.
Qed.

(** ** Writing *)

Lemma write_inserted_ok i t v l :
  insertedVersions v = Some l → i < length l →
  write_inserted i t v = (Ok tt, set_insertedVersions (Some (<[i:=t]> l)) v).
Proof.
  intros Hl Hi. unfold write_inserted. unfold_M. rewrite Hl.
  rewrite (proj2 (Nat.ltb_lt _ _) Hi). reflexivity.
Qed.

Lemma write_deleted_ok i t v l :
  deletedVersions v = Some l → i < length l →
  write_deleted i t v = (Ok tt, set_deletedVersions (Some (<[i:=t]> l)) v).
Proof.
  intros Hl Hi. unfold write_deleted. unfold_M. rewrite Hl.
  rewrite (proj2 (Nat.ltb_lt _ _) Hi). reflexivity.
Qed.

Lemma for_each_write_inserted t s n v l :
  insertedVersions v = Some l → s + n ≤ length l →
  for_each (seq s n) (λ i, write_inserted i t) v =
    (Ok tt, set_insertedVersions (Some (write_range s n t l)) v).
Proof.
  revert s v l. induction n as [|n IH]; intros s v l Hl Hn.
  - destruct v; cbn in *; subst; reflexivity.
  - cbn [seq]. rewrite (for_each_cons_ok _ _ _ _ (set_insertedVersions (Some (<[s:=t]> l)) v)).
    + rewrite (IH (S s) _ (<[s:=t]> l)); [|reflexivity|rewrite length_insert; lia].
      destruct v; reflexivity.
    + apply write_inserted_ok; [exact Hl|lia].
Qed.

Lemma for_each_write_deleted t s n v l :
  deletedVersions v = Some l → s + n ≤ length l →
  for_each (seq s n) (λ i, write_deleted i t) v =
    (Ok tt, set_deletedVersions (Some (write_range s n t l)) v).
Proof.
  revert s v l. induction n as [|n IH]; intros s v l Hl Hn.
  - destruct v; cbn in *; subst; reflexivity.
  - cbn [seq]. rewrite (for_each_cons_ok _ _ _ _ (set_deletedVersions (Some (<[s:=t]> l)) v)).
    + rewrite (IH (S s) _ (<[s:=t]> l)); [|reflexivity|rewrite length_insert; lia].
      destruct v; reflexivity.
    + apply write_deleted_ok; [exact Hl|lia].
Qed.

(** The checked loop of [append]: the assertions hold when the rows are free. *)
Lemma append_rows_ok t s n v l :
  insertedVersions v = Some l → s + n ≤ length l →
  (∀ i u, s ≤ i → l !! i = Some u → u = INVALID_TRANSACTION) →
  append_rows t s n v = (Ok tt, set_insertedVersions (Some (write_range s n t l)) v).
Proof.
  intros Hl Hn Hfree. unfold append_rows.
  set (body := λ i, _).
  assert (Hgen : ∀ k m l', k + m = n → length l' = length l →
    (∀ i u, s + k ≤ i → l' !! i = Some u → u = INVALID_TRANSACTION) →
    for_each (seq k m) body (set_insertedVersions (Some l') v) =
    (Ok tt, set_insertedVersions (Some (write_range (s + k) m t l')) v)).
  { intros k m. revert k. induction m as [|m IH]; intros k l' Hkm Hlen Hf; [reflexivity|].
    cbn [seq]. rewrite (for_each_cons_ok _ _ _ _
      (set_insertedVersions (Some (<[s + k:=t]> l')) v)).
    - rewrite (IH (S k)); [|lia|rewrite length_insert; lia|].
      + rewrite Nat.add_succ_r. reflexivity.
      + intros i u Hi Hu. apply (Hf i u); [lia|].
        rewrite list_lookup_insert_ne in Hu by lia. exact Hu.
    - destruct (lookup_lt_is_Some_2 l' (s + k)) as [u Hu]; [lia|].
      pose proof (Hf (s + k) u ltac:(lia) Hu) as ->.
      unfold body. unfold_M. cbn [insertedVersions set_insertedVersions]. unfold read_version.
      change (Some l' ≫= λ l0, l0 !! (s + k)) with (l' !! (s + k)). rewrite Hu, Z.eqb_refl.
      cbv beta iota. rewrite (write_inserted_ok _ _ _ l') by (reflexivity || lia). reflexivity. }
  specialize (Hgen 0 n l eq_refl eq_refl).
  rewrite Nat.add_0_r in Hgen. rewrite <- Hgen by exact Hfree.
  f_equal. destruct v; cbn in *; subst; reflexivity.
Qed.

Lemma array_version_write_range s n t l i :
  s + n ≤ length l →
  array_version (Some (write_range s n t l)) i =
    if decide (s ≤ i < s + n) then t else array_version (Some l) i.
Proof.
  intros Hn. unfold array_version. cbn. rewrite lookup_write_range by exact Hn.
  case_decide; reflexivity.
Qed.

(** ** The operations on one vector *)

(** Two vectors whose rows have the same deletion versions. *)
Definition same_deletions (v v' : VectorVersionInfo) : Prop :=
  ∀ i, del_version v' i = del_version v i.
Definition same_insertions (v v' : VectorVersionInfo) : Prop :=
  ∀ i, ins_version v' i = ins_version v i.

Lemma isSame_set_same t v :
  t ≠ INVALID_TRANSACTION → isSameInsertionVersion (set_sameInsertionVersion t v) = true.
Proof. intros H. unfold isSameInsertionVersion. cbn. apply negb_true_iff, Z.eqb_neq, H. Qed.

Lemma wf_new : wf_vector VectorVersionInfo_new.
Proof. split; cbn; first [discriminate | auto with kuzu]. Qed.

Lemma ins_version_array v l i :
  insertionStatus v = INS_CHECK_VERSION → isSameInsertionVersion v = false →
  insertedVersions v = Some l → ins_version v i = array_version (Some l) i.
Proof. intros Hs Hsame Hl. unfold ins_version. rewrite Hs, Hsame, Hl. reflexivity. Qed.

(** A shared version, or an array, goes with the status CHECK_VERSION. *)
Lemma same_version_check v :
  wf_vector v → isSameInsertionVersion v = true → insertionStatus v = INS_CHECK_VERSION.
Proof.
  intros Hwf HS. destruct (decide (insertionStatus v = INS_CHECK_VERSION)) as [|Hne]; [assumption|].
  destruct (wf_ins_nocheck _ Hwf Hne). congruence.
Qed.

Lemma array_check v l :
  wf_vector v → insertedVersions v = Some l →
  insertionStatus v = INS_CHECK_VERSION ∧ sameInsertionVersion v = INVALID_TRANSACTION.
Proof.
  intros Hwf Hl. destruct (decide (insertionStatus v = INS_CHECK_VERSION)) as [Hst|Hne].
  - split; [exact Hst|]. pose proof (wf_ins_check _ Hwf Hst) as Hx.
    rewrite (has_array_Some _ _ Hl) in Hx. cbn in Hx.
    unfold isSameInsertionVersion in Hx. apply negb_false_iff, Z.eqb_eq in Hx. exact Hx.
  - destruct (wf_ins_nocheck _ Hwf Hne). congruence.
Qed.

(** A vector in array representation after its insertion array was replaced. *)
Lemma wf_set_array v l :
  wf_vector v → length l = DEFAULT_VECTOR_CAPACITY →
  insertionStatus v = INS_CHECK_VERSION → sameInsertionVersion v = INVALID_TRANSACTION →
  wf_vector (set_insertedVersions (Some l) v).
Proof.
  intros Hwf Hlen Hst Hsame. split; cbn; try apply Hwf; auto with kuzu.
  - intros _. unfold isSameInsertionVersion. cbn. rewrite Hsame, Z.eqb_refl. reflexivity.
  - intros H. congruence.
Qed.

Section Append.
Context (T : Z) (s n : nat) (v : VectorVersionInfo).
Context (HT : T ≠ INVALID_TRANSACTION) (Hwf : wf_vector v) (Hfree : appendable v s).
Context (Hn : s + n ≤ DEFAULT_VECTOR_CAPACITY).

(** What [append] promises of the vector it leaves. *)
Definition appended (v' : VectorVersionInfo) : Prop :=
  wf_vector v' ∧ appendable v' (s + n) ∧ insertionStatus v' = INS_CHECK_VERSION ∧
  same_deletions v v' ∧
  (∀ i, i < s → ins_version v' i = ins_version v i) ∧
  (∀ i, s ≤ i < s + n → ins_version v' i = T).

(** The per-row representation, from an array whose rows below [s] are already right. *)
Lemma append_to_array v1 l :
  wf_vector v1 → insertionStatus v1 = INS_CHECK_VERSION →
  sameInsertionVersion v1 = INVALID_TRANSACTION → insertedVersions v1 = Some l →
  same_deletions v v1 →
  (∀ i, i < s → array_version (Some l) i = ins_version v i) →
  (∀ i u, s ≤ i → l !! i = Some u → u = INVALID_TRANSACTION) →
  appended (set_insertedVersions (Some (write_range s n T l)) v1).
Proof.
  intros Hwf1 Hst1 Hsame1 Hl1 Hdel Hlow Hhigh.
  assert (Hlen : length l = DEFAULT_VECTOR_CAPACITY) by (apply (wf_ins_array _ Hwf1), Hl1).
  assert (Hversion : ∀ i, ins_version (set_insertedVersions (Some (write_range s n T l)) v1) i =
    if decide (s ≤ i < s + n) then T else array_version (Some l) i).
  { intros i. rewrite <- array_version_write_range by lia. apply ins_version_array; [exact Hst1| |reflexivity].
    unfold isSameInsertionVersion. cbn. rewrite Hsame1, Z.eqb_refl. reflexivity. }
  split; [|split; [|split; [|split; [|split]]]].
  - apply wf_set_array; auto. rewrite length_write_range. exact Hlen.
  - unfold appendable. cbn. rewrite Hst1. intros l' i t [= <-] Hi Ht.
    rewrite lookup_write_range in Ht by lia. rewrite decide_False in Ht by lia.
    apply (Hhigh i t); [lia|exact Ht].
  - exact Hst1.
  - exact Hdel.
  - intros i Hi. rewrite Hversion, decide_False by lia. apply Hlow, Hi.
  - intros i Hi. rewrite Hversion, decide_True by lia. reflexivity.
Qed.

Lemma appended_same : isSameInsertionVersion v = true → sameInsertionVersion v = T → appended v.
Proof.
  intros HS HTsame. pose proof (same_version_check v Hwf HS) as Hst.
  assert (Hall : ∀ i, ins_version v i = T).
  { intros i. unfold ins_version. rewrite Hst, HS. exact HTsame. }
  split; [exact Hwf|]. split; [|repeat split; auto].
  unfold appendable. rewrite Hst. intros l i t Hl.
  pose proof (wf_ins_check _ Hwf Hst) as Hx. rewrite (has_array_Some _ _ Hl) in Hx. cbn in Hx. congruence.
Qed.

Lemma append_array l :
  insertedVersions v = Some l → ∃ v', append_rows T s n v = (Ok tt, v') ∧ appended v'.
Proof.
  intros Hl. pose proof (array_check v l Hwf Hl) as [Hst Hsame].
  assert (Hlen : length l = DEFAULT_VECTOR_CAPACITY) by (apply (wf_ins_array _ Hwf), Hl).
  assert (Hhigh : ∀ i u, s ≤ i → l !! i = Some u → u = INVALID_TRANSACTION).
  { intros i u Hi Hu. unfold appendable in Hfree. rewrite Hst in Hfree. eapply Hfree; eassumption. }
  eexists; split; [apply (append_rows_ok T s n v l Hl ltac:(lia) Hhigh)|].
  apply append_to_array; auto; [intros i; reflexivity|].
  intros i _. symmetry. apply ins_version_array; auto.
  unfold isSameInsertionVersion. rewrite Hsame, Z.eqb_refl. reflexivity.
Qed.

Lemma append_switch :
  isSameInsertionVersion v = true →
  ∃ v', (spread_same_version s ;; append_rows T s n) v = (Ok tt, v') ∧ appended v'.
Proof.
  intros HS. pose proof (same_version_check v Hwf HS) as Hst.
  set (l := write_range 0 s (sameInsertionVersion v) new_version_array).
  set (v1 := set_sameInsertionVersion INVALID_TRANSACTION
    (set_insertedVersions (Some l) (initInsertionVersionArray v))).
  assert (Hlen : length l = DEFAULT_VECTOR_CAPACITY)
    by (unfold l; rewrite length_write_range; apply length_new_version_array).
  assert (Hspread : spread_same_version s v = (Ok tt, v1)).
  { unfold spread_same_version. unfold_M.
    rewrite (for_each_write_inserted _ 0 s _ new_version_array); [reflexivity|reflexivity|].
    rewrite length_new_version_array. lia. }
  assert (Hhigh : ∀ i u, s ≤ i → l !! i = Some u → u = INVALID_TRANSACTION).
  { intros i u Hi Hu. unfold l in Hu. rewrite lookup_write_range, decide_False in Hu
      by (rewrite ?length_new_version_array; lia).
    apply lookup_replicate_1 in Hu. tauto. }
  eexists; split.
  { rewrite (M_bind_ok _ _ _ _ _ Hspread). apply (append_rows_ok T s n v1 l eq_refl ltac:(lia) Hhigh). }
  apply append_to_array; auto; [|intros i; reflexivity|].
  - split; cbn; try apply Hwf; auto with kuzu; first [congruence | intros _; reflexivity].
  - intros i Hi. unfold l. rewrite array_version_write_range, decide_True
      by (rewrite ?length_new_version_array; lia).
    unfold ins_version. rewrite Hst, HS. reflexivity.
Qed.

Lemma append_first :
  isSameInsertionVersion v = false → insertedVersions v = None →
  appended (set_sameInsertionVersion T (set_insertionStatus INS_CHECK_VERSION v)).
Proof.
  intros HS Hl.
  assert (Hna : has_inserted_array v = false) by (unfold has_inserted_array; rewrite Hl; reflexivity).
  assert (Hs0 : s = 0).
  { unfold appendable in Hfree. destruct (insertionStatus v) eqn:Hst; [exact Hfree| |contradiction].
    pose proof (wf_ins_check _ Hwf Hst) as Hx. rewrite HS, Hna in Hx. discriminate. }
  pose proof (isSame_set_same T (set_insertionStatus INS_CHECK_VERSION v) HT) as HST.
  split; [|split; [|split; [|split; [|split]]]].
  - split; try apply Hwf; cbn [insertionStatus set_sameInsertionVersion set_insertionStatus].
    + intros _. rewrite HST. symmetry. apply negb_true_iff. exact Hna.
    + congruence.
  - unfold appendable. cbn. rewrite Hl. discriminate.
  - reflexivity.
  - intros i. reflexivity.
  - intros i Hi. lia.
  - intros i Hi. unfold ins_version. rewrite HST. reflexivity.
Qed.

Lemma append_spec : ∃ v', append T s n v = (Ok tt, v') ∧ appended v'.
Proof.
  unfold append. rewrite (M_bind_ok _ _ _ tt (set_insertionStatus INS_CHECK_VERSION v)) by reflexivity.
  rewrite (M_bind_ok _ _ _ _ _ (eq_refl : get_state _ = (Ok _, _))).
  set (v0 := set_insertionStatus INS_CHECK_VERSION v).
  assert (Hv0 : insertionStatus v = INS_CHECK_VERSION → v0 = v).
  { intros H. unfold v0. destruct v; cbn in *; subst; reflexivity. }
  destruct (T =? sameInsertionVersion v0)%Z eqn:HTsame.
  - apply Z.eqb_eq in HTsame. cbn in HTsame.
    assert (HS : isSameInsertionVersion v = true).
    { unfold isSameInsertionVersion. rewrite <- HTsame. apply negb_true_iff, Z.eqb_neq, HT. }
    rewrite (Hv0 (same_version_check v Hwf HS)).
    exists v. split; [reflexivity|]. apply appended_same; auto.
  - change (isSameInsertionVersion v0) with (isSameInsertionVersion v).
    change (has_inserted_array v0) with (has_inserted_array v).
    destruct (insertedVersions v) as [l|] eqn:Hl.
    + rewrite (has_array_Some _ _ Hl), andb_false_r, (Hv0 (proj1 (array_check v l Hwf Hl))).
      apply (append_array l Hl).
    + assert (Hna : has_inserted_array v = false)
        by (unfold has_inserted_array; rewrite Hl; reflexivity).
      rewrite Hna. destruct (isSameInsertionVersion v) eqn:HS; cbn [negb andb].
      * rewrite (Hv0 (same_version_check v Hwf HS)). apply (append_switch HS).
      * eexists; split; [reflexivity|]. apply append_first; auto.
Qed.

End Append.

(** *** Deleting a row *)

Lemma array_version_insert l i j t :
  i < length l →
  array_version (Some (<[i:=t]> l)) j = if decide (j = i) then t else array_version (Some l) j.
Proof.
  intros Hi. unfold array_version. cbn. case_decide as Hj.
  - subst. rewrite list_lookup_insert_eq by exact Hi. reflexivity.
  - rewrite list_lookup_insert_ne by congruence. reflexivity.
Qed.

Lemma array_version_new i : array_version (Some new_version_array) i = INVALID_TRANSACTION.
Proof.
  unfold array_version. cbn. destruct (new_version_array !! i) eqn:H; [|reflexivity].
  apply lookup_replicate_1 in H. cbn. tauto.
Qed.

(** The vector a deletion works on: status CHECK_VERSION, and an array that records what the vector
    recorded before. *)
Lemma delete_prepare v :
  wf_vector v →
  ∃ l, length l = DEFAULT_VECTOR_CAPACITY ∧
    (∀ i, array_version (Some l) i = del_version v i) ∧
    wf_vector (set_deletionStatus DEL_CHECK_VERSION (set_deletedVersions (Some l) v)) ∧
    (if negb (has_deleted_array v) then modify initDeletionVersionArray else mret tt)
      (set_deletionStatus DEL_CHECK_VERSION v) =
      (Ok tt, set_deletionStatus DEL_CHECK_VERSION (set_deletedVersions (Some l) v)).
Proof.
  intros Hwf. destruct (deletedVersions v) as [l|] eqn:Hl.
  - exists l. assert (Hst : deletionStatus v = DEL_CHECK_VERSION).
    { destruct (deletionStatus v) eqn:Hst; [|reflexivity].
      pose proof (wf_del_nocheck _ Hwf Hst). congruence. }
    split; [apply (wf_del_array _ Hwf), Hl|].
    split; [intros i; unfold del_version; rewrite Hst, Hl; reflexivity|].
    replace (set_deletionStatus DEL_CHECK_VERSION (set_deletedVersions (Some l) v)) with v
      by (destruct v; cbn in *; subst; reflexivity).
    replace (set_deletionStatus DEL_CHECK_VERSION v) with v
      by (destruct v; cbn in *; subst; reflexivity).
    split; [exact Hwf|]. unfold has_deleted_array. rewrite Hl. reflexivity.
  - exists new_version_array. split; [apply length_new_version_array|].
    split.
    { intros i. rewrite array_version_new. unfold del_version.
      destruct (deletionStatus v); [reflexivity|]. rewrite Hl. reflexivity. }
    split.
    { split; cbn; try apply Hwf; auto with kuzu. discriminate. }
    unfold has_deleted_array. rewrite Hl. reflexivity.
Qed.

Lemma set_array_deletions v l i :
  del_version (set_deletionStatus DEL_CHECK_VERSION (set_deletedVersions (Some l) v)) i =
    array_version (Some l) i.
Proof. reflexivity. Qed.

(** Deleting row [row] for transaction [T]: the row's deletion version decides between a fresh
    deletion, a repeated one, and a write-write conflict; in no case does another row change. *)
Lemma delete_spec T row v :
  T ≠ INVALID_TRANSACTION → wf_vector v → row < DEFAULT_VECTOR_CAPACITY →
  ∃ v', wf_vector v' ∧ same_insertions v v' ∧ insertionStatus v' = insertionStatus v ∧
    ((del_version v row = INVALID_TRANSACTION ∧ delete_ T row v = (Ok true, v') ∧
      ∀ i, del_version v' i = if decide (i = row) then T else del_version v i) ∨
     (del_version v row = T ∧ delete_ T row v = (Ok false, v') ∧ same_deletions v v') ∨
     (del_version v row ≠ INVALID_TRANSACTION ∧ del_version v row ≠ T ∧
      delete_ T row v = (Throw delete_conflict, v') ∧ same_deletions v v')).
Proof.
  intros HT Hwf Hrow. destruct (delete_prepare v Hwf) as (l & Hlen & Hver & Hwf1 & Hprep).
  assert (Hread : read_version (Some l) row = Ok (del_version v row)).
  { rewrite read_version_array; [rewrite Hver; reflexivity| |eauto|exact Hrow].
    apply is_version_array_Some, Hlen. }
  set (v1 := set_deletionStatus DEL_CHECK_VERSION (set_deletedVersions (Some l) v)) in *.
  assert (Hrun : ∀ A (k : Z → M VectorVersionInfo A),
    (old ← observe (λ _, read_version (deletedVersions v1) row); k old) v1 =
      k (del_version v row) v1).
  { intros A k. unfold_M. cbn [v1 deletedVersions set_deletionStatus set_deletedVersions].
    rewrite Hread. reflexivity. }
  unfold delete_.
  rewrite (M_bind_ok _ _ v tt (set_deletionStatus DEL_CHECK_VERSION v)) by reflexivity.
  rewrite (M_bind_ok _ _ _ _ _ (eq_refl : get_state _ = (Ok _, _))).
  cbn [sameDeletionVersion set_deletionStatus]. unfold isSameDeletionVersion.
  cbn [sameDeletionVersion set_deletionStatus].
  rewrite (wf_del_same _ Hwf), (proj2 (Z.eqb_neq _ _) HT), Z.eqb_refl. cbn [negb].
  change (has_deleted_array (set_deletionStatus DEL_CHECK_VERSION v)) with (has_deleted_array v).
  rewrite (M_bind_ok _ _ _ _ _ Hprep), (M_bind_ok _ _ _ _ _ (eq_refl : get_state _ = (Ok _, _))).
  rewrite Hrun.
  destruct (del_version v row =? T)%Z eqn:H1; zbool.
  - exists v1. split; [exact Hwf1|split; [intros i; reflexivity|split; [reflexivity|]]].
      right; left. repeat split; auto.
  - destruct (del_version v row =? INVALID_TRANSACTION)%Z eqn:H2; zbool; cbn [negb].
    + rewrite (M_bind_ok _ _ _ _ _ (write_deleted_ok row T v1 l eq_refl ltac:(lia))).
      eexists. split; [|split; [|split; [|left; split; [exact H2|split; [reflexivity|]]]]].
      * split; try apply Hwf1; first [discriminate | intros _; eexists; reflexivity
          | apply is_version_array_Some; rewrite length_insert; exact Hlen].
      * intros i. reflexivity.
      * reflexivity.
      * intros i. change (del_version _ i) with (array_version (Some (<[row:=T]> l)) i) at 1.
        rewrite array_version_insert by lia. case_decide; [reflexivity|]. apply Hver.
    + exists v1. split; [exact Hwf1|split; [intros i; reflexivity|split; [reflexivity|]]].
      right; right. repeat split; auto.
Qed.

(** *** Commit and roll back

    The rows of a transaction's undo record all carry its identifier; rows with another version
    are not touched, also when the vector shares one version. *)

Section RowRange.
Context (T : Z) (s n : nat) (v : VectorVersionInfo).
Context (Hwf : wf_vector v) (Hn : s + n ≤ DEFAULT_VECTOR_CAPACITY) (Hpos : 0 < n).

(** The insertion versions of the range become [t], those of other transactions stay. *)
Definition inserts_become (t : Z) (v' : VectorVersionInfo) : Prop :=
  (∀ i, s ≤ i < s + n → ins_version v' i = t) ∧
  (∀ i, ins_version v i ≠ T → ins_version v' i = ins_version v i).
Definition deletes_become (t : Z) (v' : VectorVersionInfo) : Prop :=
  (∀ i, s ≤ i < s + n → del_version v' i = t) ∧
  (∀ i, del_version v i ≠ T → del_version v' i = del_version v i).

Context (HT : T ≠ INVALID_TRANSACTION).

Lemma range_shared_version :
  (∀ i, s ≤ i < s + n → ins_version v i = T) → isSameInsertionVersion v = true →
  ∀ i, ins_version v i = T.
Proof.
  intros Hrange HS i. specialize (Hrange s ltac:(lia)).
  unfold ins_version in *. rewrite (same_version_check v Hwf HS), HS in *. exact Hrange.
Qed.

(** A range of a transaction's rows in a vector without a shared version is in the array. *)
Lemma range_array :
  (∀ i, s ≤ i < s + n → ins_version v i = T) → isSameInsertionVersion v = false →
  T ≠ DUMMY_START_TIMESTAMP →
  ∃ l, insertedVersions v = Some l ∧ length l = DEFAULT_VECTOR_CAPACITY.
Proof.
  intros Hrange HS HT0. specialize (Hrange s ltac:(lia)). unfold ins_version in Hrange.
  destruct (insertionStatus v) eqn:Hst; [congruence| |congruence].
  rewrite HS in Hrange. destruct (insertedVersions v) as [l|] eqn:Hl.
  - exists l. split; [reflexivity|]. apply (wf_ins_array _ Hwf), Hl.
  - cbn in Hrange. congruence.
Qed.

Lemma setInsertCommitTS_spec commitTS :
  commitTS ≠ INVALID_TRANSACTION → T ≠ DUMMY_START_TIMESTAMP →
  (∀ i, s ≤ i < s + n → ins_version v i = T) →
  ∃ v', setInsertCommitTS commitTS s n v = (Ok tt, v') ∧ wf_vector v' ∧ same_deletions v v' ∧
    inserts_become commitTS v'.
Proof.
  intros Hts HT0 Hrange. unfold setInsertCommitTS.
  rewrite (M_bind_ok _ _ _ _ _ (eq_refl : get_state _ = (Ok _, _))).
  destruct (isSameInsertionVersion v) eqn:HS.
  - pose proof (same_version_check v Hwf HS) as Hst.
    pose proof (isSame_set_same commitTS v Hts) as HS'.
    exists (set_sameInsertionVersion commitTS v). split; [reflexivity|].
    split; [|split; [intros i; reflexivity|split]].
    + split; try apply Hwf; cbn [insertionStatus set_sameInsertionVersion]; [|congruence].
      intros _. rewrite HS', <- HS. apply (wf_ins_check _ Hwf Hst).
    + intros i _. unfold ins_version. rewrite HS'. cbn. rewrite Hst. reflexivity.
    + intros i Hne. destruct Hne. apply (range_shared_version Hrange HS).
  - destruct (range_array Hrange HS HT0) as (l & Hl & Hlen).
    destruct (array_check v l Hwf Hl) as [Hst Hsame].
    rewrite (has_array_Some _ _ Hl).
    rewrite (M_bind_ok _ _ _ _ _ (eq_refl : ku_assert true v = (Ok tt, v))).
    rewrite (for_each_write_inserted _ _ _ _ l Hl) by lia.
    eexists; split; [reflexivity|].
    split; [apply wf_set_array; auto; rewrite length_write_range; exact Hlen|].
    split; [intros i; reflexivity|].
    assert (Hnew : ∀ i, ins_version (set_insertedVersions (Some (write_range s n commitTS l)) v) i =
      if decide (s ≤ i < s + n) then commitTS else ins_version v i).
    { intros i. rewrite (ins_version_array v l i Hst HS Hl), <- array_version_write_range by lia.
      apply ins_version_array; [exact Hst|exact HS|reflexivity]. }
    split; intros i Hi; rewrite Hnew; [apply decide_True; exact Hi|].
    case_decide as Hin; [|reflexivity]. specialize (Hrange i Hin). congruence.
Qed.

Lemma has_any_version_false l i :
  has_any_version l = false → array_version (Some l) i = INVALID_TRANSACTION.
Proof.
  intros H. unfold array_version. cbn. destruct (l !! i) as [t|] eqn:Ht; [|reflexivity].
  unfold has_any_version in H. cbn.
  destruct (decide (t = INVALID_TRANSACTION)) as [|Hne]; [assumption|].
  exfalso. assert (Hex : existsb (λ t, negb (t =? INVALID_TRANSACTION)%Z) l = true); [|congruence].
  apply existsb_exists. exists t. split; [apply list_elem_of_In, list_elem_of_lookup; eauto|].
  apply negb_true_iff, Z.eqb_neq, Hne.
Qed.

(** The vector that a rollback leaves when no insertion is left. *)
Definition emptied : VectorVersionInfo :=
  set_deletionStatus NO_DELETED (set_insertionStatus NO_INSERTED
    (set_insertedVersions None (set_sameInsertionVersion INVALID_TRANSACTION v))).

(** What rolling back the range's insertions promises. *)
Definition insertions_rolled_back (v' : VectorVersionInfo) : Prop :=
  wf_vector v' ∧ same_deletions v v' ∧ inserts_become INVALID_TRANSACTION v'.

Lemma emptied_rolled_back :
  deletedVersions v = None →
  (∀ i, ins_version v i ≠ T → ins_version v i = INVALID_TRANSACTION) →
  insertions_rolled_back emptied.
Proof.
  intros Hdel Hother. split; [|split].
  - split; cbn; try apply Hwf; auto with kuzu; first [discriminate|split; reflexivity].
  - intros i. unfold del_version. cbn. destruct (deletionStatus v); [|rewrite Hdel]; reflexivity.
  - split; intros i Hi; [reflexivity|]. symmetry. apply Hother, Hi.
Qed.

(** Rolling back insertions: the rows disappear, other transactions' rows stay. The deletions of a
    vector that ends up empty have been rolled back before (undo records are replayed backwards). *)
Lemma rollbackInsertions_spec :
  T ≠ DUMMY_START_TIMESTAMP →
  (∀ i, s ≤ i < s + n → ins_version v i = T) →
  deletedVersions v = None →
  ∃ v', rollbackInsertions s n v = (Ok tt, v') ∧ insertions_rolled_back v'.
Proof.
  intros HT0 Hrange Hdel. unfold rollbackInsertions.
  rewrite (M_bind_ok _ _ _ _ _ (eq_refl : get_state _ = (Ok _, _))).
  destruct (isSameInsertionVersion v) eqn:HS.
  - assert (Hl : insertedVersions v = None).
    { pose proof (wf_ins_check _ Hwf (same_version_check v Hwf HS)) as Hx.
      destruct (insertedVersions v) eqn:Hl; [|reflexivity].
      rewrite (has_array_Some _ _ Hl) in Hx. cbn in Hx. congruence. }
    exists emptied. split.
    + unfold_M. unfold has_inserted_array, emptied. cbn. rewrite Hl.
      destruct v; cbn in *; subst; reflexivity.
    + apply emptied_rolled_back; [exact Hdel|]. intros i Hi. destruct Hi.
      apply (range_shared_version Hrange HS).
  - destruct (range_array Hrange HS HT0) as (l & Hl & Hlen).
    destruct (array_check v l Hwf Hl) as [Hst Hsame]. rewrite (has_array_Some _ _ Hl).
    set (l1 := write_range s n INVALID_TRANSACTION l).
    assert (Hlen1 : length l1 = DEFAULT_VECTOR_CAPACITY) by (unfold l1; rewrite length_write_range; exact Hlen).
    assert (Hnew : ∀ i, array_version (Some l1) i =
      if decide (s ≤ i < s + n) then INVALID_TRANSACTION else ins_version v i).
    { intros i. rewrite (ins_version_array v l i Hst HS Hl). apply array_version_write_range. lia. }
    assert (Hkeep : ∀ i, ins_version v i ≠ T → array_version (Some l1) i = ins_version v i).
    { intros i Hi. rewrite Hnew. case_decide as Hin; [|reflexivity]. specialize (Hrange i Hin). congruence. }
    unfold_M. rewrite (for_each_write_inserted _ _ _ _ l Hl) by lia. fold l1.
    change (default [] (insertedVersions (set_insertedVersions (Some l1) v))) with l1.
    destruct (has_any_version l1) eqn:Hany; cbn [negb].
    + exists (set_insertedVersions (Some l1) v). split; [reflexivity|].
      split; [apply wf_set_array; auto|]. split; [intros i; reflexivity|].
      assert (Heq : ∀ i, ins_version (set_insertedVersions (Some l1) v) i = array_version (Some l1) i)
        by (intros i; apply ins_version_array; auto).
      split; intros i Hi; rewrite Heq; [|apply Hkeep, Hi]. rewrite Hnew. apply decide_True. exact Hi.
    + exists emptied. split.
      * unfold emptied. destruct v; cbn in *; subst; reflexivity.
      * apply emptied_rolled_back; [exact Hdel|]. intros i Hi. rewrite <- (Hkeep i Hi).
        apply has_any_version_false, Hany.
Qed.

(** A range of rows that a transaction deleted is in the deletion array. *)
Lemma range_deleted_array :
  (∀ i, s ≤ i < s + n → del_version v i = T) →
  ∃ l, deletedVersions v = Some l ∧ length l = DEFAULT_VECTOR_CAPACITY ∧
    deletionStatus v = DEL_CHECK_VERSION ∧ ∀ i, del_version v i = array_version (Some l) i.
Proof.
  intros Hrange. specialize (Hrange s ltac:(lia)). unfold del_version in *.
  destruct (deletionStatus v) eqn:Hst; [congruence|].
  destruct (wf_del_check _ Hwf Hst) as [l Hl]. exists l. rewrite Hl in *.
  split; [reflexivity|]. split; [apply (wf_del_array _ Hwf), Hl|]. split; reflexivity.
Qed.

Lemma wf_set_deleted_array l :
  length l = DEFAULT_VECTOR_CAPACITY → deletionStatus v = DEL_CHECK_VERSION →
  wf_vector (set_deletedVersions (Some l) v).
Proof.
  intros Hlen Hst. split; try apply Hwf; [apply is_version_array_Some, Hlen| |].
  - intros _. eexists; reflexivity.
  - cbn. congruence.
Qed.

Lemma write_deleted_range l t :
  deletedVersions v = Some l → length l = DEFAULT_VECTOR_CAPACITY →
  deletionStatus v = DEL_CHECK_VERSION →
  (∀ i, s ≤ i < s + n → del_version v i = T) →
  deletes_become t (set_deletedVersions (Some (write_range s n t l)) v).
Proof.
  intros Hl Hlen Hst Hrange.
  assert (Hnew : ∀ i, del_version (set_deletedVersions (Some (write_range s n t l)) v) i =
    if decide (s ≤ i < s + n) then t else del_version v i).
  { intros i. unfold del_version. cbn [deletionStatus set_deletedVersions deletedVersions].
    rewrite Hst, Hl. apply array_version_write_range. lia. }
  split; intros i Hi; rewrite Hnew; [apply decide_True; exact Hi|].
  case_decide as Hin; [|reflexivity]. specialize (Hrange i Hin). congruence.
Qed.

Lemma isSameDeletion_wf : isSameDeletionVersion v = false.
Proof. unfold isSameDeletionVersion. rewrite (wf_del_same _ Hwf), Z.eqb_refl. reflexivity. Qed.

Lemma setDeleteCommitTS_spec commitTS :
  (∀ i, s ≤ i < s + n → del_version v i = T) →
  ∃ v', setDeleteCommitTS commitTS s n v = (Ok tt, v') ∧ wf_vector v' ∧ same_insertions v v' ∧
    deletes_become commitTS v'.
Proof.
  intros Hrange. destruct (range_deleted_array Hrange) as (l & Hl & Hlen & Hst & Hver).
  unfold setDeleteCommitTS.
  rewrite (M_bind_ok _ _ _ _ _ (eq_refl : get_state _ = (Ok _, _))), isSameDeletion_wf.
  assert (Ha : has_deleted_array v = true) by (unfold has_deleted_array; rewrite Hl; reflexivity).
  rewrite Ha, (M_bind_ok _ _ _ _ _ (eq_refl : ku_assert true v = (Ok tt, v))).
  rewrite (for_each_write_deleted _ _ _ _ l Hl) by lia.
  eexists; split; [reflexivity|].
  split; [apply wf_set_deleted_array; auto; rewrite length_write_range; exact Hlen|].
  split; [intros i; reflexivity|]. apply write_deleted_range; auto.
Qed.

Lemma rollbackDeletions_spec :
  (∀ i, s ≤ i < s + n → del_version v i = T) →
  ∃ v', rollbackDeletions s n v = (Ok tt, v') ∧ wf_vector v' ∧ same_insertions v v' ∧
    deletes_become INVALID_TRANSACTION v'.
Proof.
  intros Hrange. destruct (range_deleted_array Hrange) as (l & Hl & Hlen & Hst & Hver).
  pose proof (write_deleted_range l INVALID_TRANSACTION Hl Hlen Hst Hrange) as [Hin Hout].
  set (l1 := write_range s n INVALID_TRANSACTION l) in *.
  assert (Hlen1 : length l1 = DEFAULT_VECTOR_CAPACITY) by (unfold l1; rewrite length_write_range; exact Hlen).
  assert (Ha : has_deleted_array v = true) by (unfold has_deleted_array; rewrite Hl; reflexivity).
  unfold rollbackDeletions.
  rewrite (M_bind_ok _ _ _ _ _ (eq_refl : get_state _ = (Ok _, _))), isSameDeletion_wf, Ha.
  unfold_M. rewrite (for_each_write_deleted _ _ _ _ l Hl) by lia. fold l1.
  change (default [] (deletedVersions (set_deletedVersions (Some l1) v))) with l1.
  destruct (has_any_version l1) eqn:Hany; cbn [negb].
  - exists (set_deletedVersions (Some l1) v). split; [reflexivity|].
    split; [apply wf_set_deleted_array; auto|]. split; [intros i; reflexivity|]. split; assumption.
  - exists (set_deletionStatus NO_DELETED (set_deletedVersions None v)).
    split; [destruct v; cbn in *; subst; reflexivity|].
    split; [split; cbn; try apply Hwf; auto with kuzu; discriminate|].
    split; [intros i; reflexivity|].
    split; intros i Hi; [reflexivity|]. rewrite <- (Hout i Hi). symmetry.
    unfold del_version. cbn [deletionStatus set_deletedVersions deletedVersions]. rewrite Hst.
    apply has_any_version_false, Hany.
Qed.

End RowRange.

(** *** Scanning a vector *)

Lemma write_buffer_ok i p sv :
  i < length (selectedPositionsBuffer sv) →
  write_buffer i p sv = (Ok tt, set_buffer (<[i:=p]> (selectedPositionsBuffer sv)) sv).
Proof.
  intros Hi. unfold write_buffer. unfold_M. rewrite (proj2 (Nat.ltb_lt _ _) Hi). reflexivity.
Qed.

(** The loop that collects the kept rows writes them after the first [n] entries of the buffer. *)
Lemma push_selected_ok (f : nat → bool) keep base l n sv :
  (∀ i, i ∈ l → keep i = Ok (f i)) →
  n + count_if f l ≤ length (selectedPositionsBuffer sv) →
  ∃ b, push_selected l keep base n sv = (Ok (n + count_if f l), set_buffer b sv) ∧
    length b = length (selectedPositionsBuffer sv) ∧
    take (n + count_if f l) b =
      take n (selectedPositionsBuffer sv) ++ map (λ i, base + i) (List.filter f l).
Proof.
  revert n sv. induction l as [|i l IH]; intros n sv Hkeep Hlen.
  - exists (selectedPositionsBuffer sv). cbn. rewrite Nat.add_0_r, app_nil_r.
    repeat split. destruct sv; reflexivity.
  - assert (Hkeep' : ∀ j, j ∈ l → keep j = Ok (f j)) by (intros j Hj; apply Hkeep; right; exact Hj).
    cbn [push_selected]. unfold_M. rewrite (Hkeep i ltac:(left)).
    unfold count_if in *. cbn [List.filter] in *. destruct (f i) eqn:Hf.
    + cbn [length] in *. rewrite write_buffer_ok by lia.
      destruct (IH (S n) (set_buffer (<[n:=base + i]> (selectedPositionsBuffer sv)) sv)) as
        (b & Hb & Hblen & Htake); [exact Hkeep'|cbn; rewrite length_insert; lia|].
      exists b. rewrite Nat.add_succ_r. split; [rewrite Hb; reflexivity|].
      cbn in Hblen, Htake. rewrite length_insert in Hblen. split; [exact Hblen|].
      cbn. rewrite Htake, (take_S_r _ _ (base + i)) by (apply list_lookup_insert_eq; lia).
      rewrite take_insert_ge by lia. rewrite <- (assoc_L (++)). reflexivity.
    + destruct (IH n sv Hkeep' Hlen) as (b & Hb & Hblen & Htake). exists b. split; [exact Hb|].
      split; assumption.
Qed.

(** The selection a scan of the rows [f] keeps adds to a selection vector. *)
Definition scan_adds (f : nat → bool) (numRows outputPos : nat) (sv sv' : SelectionVector) : Prop :=
  SelVector.wf sv' ∧ capacity sv' = capacity sv ∧
  getSelectedPositions sv' = getSelectedPositions sv ++
    map (λ i, outputPos + i) (List.filter f (seq 0 numRows)) ∧
  (state sv' = STATIC → selectedSize sv' = outputPos + numRows).

Lemma count_if_le (f : nat → bool) n : count_if f (seq 0 n) ≤ n.
Proof.
  unfold count_if. etrans; [apply List.filter_length_le|]. rewrite length_seq. reflexivity.
Qed.

(** Pushing rows onto a dynamic vector and setting its size. *)
Lemma push_and_filter sv numRows outputPos (f : nat → bool) keep :
  SelVector.wf sv → selectedSize sv + numRows ≤ capacity sv → state sv = DYNAMIC →
  (∀ i, i < numRows → keep i = Ok (f i)) →
  ∃ sv', (n ← push_selected (seq 0 numRows) keep outputPos (getSelSize sv); setToFilteredSize n) sv =
      (Ok tt, sv') ∧ scan_adds f numRows outputPos sv sv'.
Proof.
  intros Hsv Hcap Hst Hkeep. pose proof Hsv as (Hb & Hc & Hs & Hptr). rewrite Hst in Hptr.
  pose proof (count_if_le f numRows) as Hcount.
  destruct (push_selected_ok f keep outputPos (seq 0 numRows) (selectedSize sv) sv) as
    (b & Hpush & Hblen & Htake); [|lia|].
  { intros i Hi. apply Hkeep. apply elem_of_seq in Hi. lia. }
  rewrite (M_bind_ok _ _ _ _ _ Hpush). unfold setToFilteredSize. unfold_M. cbn [capacity set_buffer].
  rewrite (proj2 (Nat.leb_le _ _)) by lia. eexists; split; [reflexivity|].
  split; [|split; [reflexivity|split; [|discriminate]]].
  - repeat split; cbn; lia.
  - rewrite (dynamic_positions sv Hsv Hst). exact Htake.
Qed.

Lemma filter_true {A} (l : list A) : List.filter (λ _, true) l = l.
Proof. induction l as [|x l IH]; [reflexivity|]. cbn. f_equal. exact IH. Qed.

Lemma map_add_seq p n : map (λ i, p + i) (seq 0 n) = seq p n.
Proof.
  revert p. induction n as [|n IH]; intros p; [reflexivity|].
  cbn. rewrite Nat.add_0_r. f_equal. rewrite <- (IH (S p)), <- seq_shift, map_map.
  apply map_ext. intros i. lia.
Qed.

Section Scan.
Context (sv : SelectionVector) (numRows outputPos : nat).
Context (Hsv : SelVector.wf sv) (Hcap : selectedSize sv + numRows ≤ capacity sv).
(** While the vector is unfiltered, all rows up to here have been selected. *)
Context (Hout : state sv = STATIC → selectedSize sv = outputPos).

(** All rows of the vector are visible: an unfiltered vector stays unfiltered. *)
Lemma scan_all_visible :
  ∃ sv', (if isUnfiltered sv then setSelSize (getSelSize sv + numRows)
          else n ← push_selected (seq 0 numRows) (λ _, Ok true) outputPos (getSelSize sv);
               setToFilteredSize n) sv = (Ok tt, sv') ∧
    scan_adds (λ _, true) numRows outputPos sv sv'.
Proof.
  rewrite isUnfiltered_wf by exact Hsv. case_bool_decide as Hst.
  - destruct (setSelSize_static_ok sv (getSelSize sv + numRows) Hsv Hst) as
      (sv' & Hrun & Hwf' & Hcap' & Hst' & Hpos); [exact Hcap|].
    exists sv'. split; [exact Hrun|]. specialize (Hout Hst).
    split; [exact Hwf'|]. split; [exact Hcap'|]. split.
    + rewrite Hpos, (static_positions sv Hsv Hst). unfold getSelSize.
      rewrite seq_app. f_equal. cbn [Nat.add]. rewrite Hout, <- map_add_seq. f_equal.
      symmetry. apply filter_true.
    + intros _. pose proof (length_getSelectedPositions sv' Hwf') as Hl.
      rewrite Hpos, length_seq in Hl. unfold getSelSize in Hl. lia.
  - apply push_and_filter; [exact Hsv|exact Hcap|destruct (state sv); congruence|reflexivity].
Qed.

Context (startTS id : Z) (v : VectorVersionInfo) (startRow : nat).
Context (Hwf : wf_vector v) (Hreader : is_reader startTS id).
Context (Hrows : startRow + numRows ≤ DEFAULT_VECTOR_CAPACITY).

(** [getSelVectorForScan] adds the output positions of the visible rows, in order. *)
Lemma getSelVectorForScan_spec :
  insertionStatus v ≠ NO_INSERTED →
  ∃ sv', getSelVectorForScan startTS id v startRow numRows outputPos sv = (Ok tt, sv') ∧
    scan_adds (λ i, visible startTS id (ins_version v (startRow + i)) (del_version v (startRow + i)))
      numRows outputPos sv sv'.
Proof.
  intros Hins. unfold getSelVectorForScan.
  rewrite (M_bind_ok _ _ _ _ _ (eq_refl : get_state _ = (Ok _, _))).
  destruct (bool_decide (deletionStatus v = NO_DELETED) &&
            bool_decide (insertionStatus v = ALWAYS_INSERTED)) eqn:Hall.
  - apply andb_true_iff in Hall as [Hd%bool_decide_eq_true Hi%bool_decide_eq_true].
    destruct scan_all_visible as (sv' & Hrun & Hadds). exists sv'. split; [exact Hrun|].
    unfold scan_adds in *. erewrite List.filter_ext; [exact Hadds|].
    intros i. cbn. unfold visible, ins_version, del_version. rewrite Hd, Hi.
    rewrite (sees_zero _ _ Hreader), (sees_invalid _ _ Hreader). reflexivity.
  - rewrite bool_decide_eq_false_2 by exact Hins. cbn [negb].
    set (f := λ i, visible _ _ _ _).
    assert (Hkeep : ∀ i, i < numRows →
      (ins ← isInserted startTS id (startRow + i) v;
       if (ins : bool) then negb <$> isDeleted startTS id (startRow + i) v else Ok false) = Ok (f i)).
    { intros i Hi. assert (Hr : startRow + i < DEFAULT_VECTOR_CAPACITY) by lia.
      pose proof (isSelected_spec startTS id (startRow + i) v Hwf Hreader Hr) as Hsel.
      unfold isSelected in Hsel. rewrite Hall, bool_decide_eq_false_2 in Hsel by exact Hins.
      exact Hsel. }
    rewrite isUnfiltered_wf by exact Hsv. destruct (bool_decide_reflect (state sv = STATIC)) as [Hst|Hst].
    + destruct (makeDynamic_ok sv Hsv) as (sv1 & Hmk & Hwf1 & Hcap1 & Hst1 & Hpos1).
      cbv iota. rewrite (M_bind_ok _ _ _ _ _ Hmk).
      assert (Hsize : selectedSize sv1 = selectedSize sv).
      { rewrite <- (length_getSelectedPositions sv1 Hwf1), Hpos1.
        apply length_getSelectedPositions, Hsv. }
      unfold getSelSize. rewrite <- Hsize.
      destruct (push_and_filter sv1 numRows outputPos f _ Hwf1 ltac:(lia) Hst1 Hkeep) as (sv' & Hrun & Hadds).
      exists sv'. split; [exact Hrun|]. unfold scan_adds in *. rewrite <- Hpos1, <- Hcap1. exact Hadds.
    + cbv iota. rewrite (M_bind_ok _ _ _ _ _ (eq_refl : (mret tt : M SelectionVector unit) sv = (Ok tt, sv))).
      apply push_and_filter; [exact Hsv|exact Hcap|destruct (state sv); congruence|exact Hkeep].
Qed.

End Scan.

(** *** Counting deletions *)

Lemma count_rows_ok (g : nat → bool) f l :
  (∀ i, i ∈ l → f i = Ok (g i)) → count_rows l f = Ok (count_if g l).
Proof.
  induction l as [|i l IH]; intros H; [reflexivity|].
  cbn [count_rows]. unfold_M. rewrite (H i ltac:(left)), IH by (intros j Hj; apply H; right; exact Hj).
  unfold count_if. cbn. destruct (g i); reflexivity.
Qed.

Lemma getNumDeletions_spec startTS id startRow numRows v :
  wf_vector v → is_reader startTS id → startRow + numRows ≤ DEFAULT_VECTOR_CAPACITY →
  getNumDeletions startTS id startRow numRows v =
    Ok (count_if (λ i, sees startTS id (del_version v (startRow + i))) (seq 0 numRows)).
Proof.
  intros Hwf Hr Hn. unfold getNumDeletions. case_bool_decide as Hst.
  - f_equal. symmetry. apply count_if_false. intros i _. unfold del_version. rewrite Hst.
    apply sees_invalid, Hr.
  - apply count_rows_ok. intros i Hi%elem_of_seq.
    rewrite (isDeleted_spec startTS id (startRow + i) v Hwf) by lia.
    destruct (deletionStatus v); [congruence|reflexivity].
Qed.

(** *** Persisting a vector *)

(** The deletion versions fit their 64-bit representation. *)
Definition u64_versions (v : VectorVersionInfo) : Prop :=
  ∀ l, deletedVersions v = Some l → Forall is_u64 l.

Lemma decodes_assert {A} (b : bool) (m : M (list Z) A) bs a :
  b = true → decodes m bs a → decodes (ku_assert b ;; m) bs a.
Proof. intros -> Hm. eapply decodes_bind_nil; [apply decodes_ret|exact Hm]. Qed.

(** The part of the stream that records the deletions. *)
Definition deletion_bytes (dbg : bool) (v : VectorVersionInfo) : list Z :=
  match deletedVersions v with
  | None => []
  | Some l =>
      (writeDebuggingInfo dbg "same_deletion_version" ++ serializeValue 8 INVALID_TRANSACTION) ++
      writeDebuggingInfo dbg "deleted_versions" ++ serializeArray 8 l
  end.

(** What [serialize] writes for a well-formed vector, and which vectors it accepts. *)
Lemma serialize_bytes dbg v bs :
  wf_vector v → serialize dbg v = Ok bs →
  forallb persistable_version (default [] (deletedVersions v)) = true ∧
  (insertionStatus v = NO_INSERTED ∨ insertionStatus v = ALWAYS_INSERTED) ∧
  bs = writeDebuggingInfo dbg "insertion_status" ++
       serializeValue 1 (insertionStatus_code (insertionStatus v)) ++
       writeDebuggingInfo dbg "deletion_status" ++
       serializeValue 1 (deletionStatus_code (deletionStatus v)) ++ deletion_bytes dbg v.
Proof.
  intros Hwf. unfold serialize, deletion_bytes. unfold_M.
  destruct (deletedVersions v) as [l|] eqn:Hl.
  - assert (Hst : deletionStatus v = DEL_CHECK_VERSION).
    { destruct (deletionStatus v) eqn:Hst; [|reflexivity].
      pose proof (wf_del_nocheck _ Hwf Hst). congruence. }
    rewrite Hst, (wf_del_same _ Hwf), Z.eqb_refl. cbn [default].
    destruct (forallb persistable_version l) eqn:Hper; [|discriminate].
    destruct (bool_decide _ || bool_decide _) eqn:Hins; [|discriminate].
    intros <-%Ok_inj. rewrite <- !(assoc_L (++)). split; [exact Hper|]. split; [|reflexivity].
    apply orb_true_iff in Hins. rewrite !bool_decide_eq_true in Hins. exact Hins.
  - assert (Hst : deletionStatus v = NO_DELETED).
    { destruct (deletionStatus v) eqn:Hst; [reflexivity|].
      destruct (wf_del_check _ Hwf Hst). congruence. }
    rewrite Hst.
    destruct (bool_decide _ || bool_decide _) eqn:Hins; [|discriminate].
    intros <-%Ok_inj. rewrite app_nil_r. split; [reflexivity|]. split; [|reflexivity].
    apply orb_true_iff in Hins. rewrite !bool_decide_eq_true in Hins. exact Hins.
Qed.

Lemma insertionStatus_code_range st : (0 ≤ insertionStatus_code st < 256 ^ Z.of_nat 1)%Z.
Proof. destruct st; cbn; lia. Qed.

Lemma deletionStatus_code_range st : (0 ≤ deletionStatus_code st < 256 ^ Z.of_nat 1)%Z.
Proof. destruct st; cbn; lia. Qed.

Ltac solve_decode :=
  first [ apply decodes_debugging_info; vm_compute; split; (discriminate || reflexivity)
        | apply decodes_value; vm_compute; split; (discriminate || reflexivity) ].

(** Reading back a persisted vector gives the same object. *)
Lemma deSerialize_serialize dbg v bs :
  wf_vector v → u64_versions v → serialize dbg v = Ok bs → decodes (deSerialize dbg) bs v.
Proof.
  intros Hwf Hu Hser. destruct (serialize_bytes dbg v bs Hwf Hser) as (Hper & Hins & ->).
  assert (Hnocheck : insertionStatus v ≠ INS_CHECK_VERSION) by (destruct Hins; congruence).
  destruct (wf_ins_nocheck _ Hwf Hnocheck) as [Hsame Hia].
  apply negb_false_iff, Z.eqb_eq in Hsame.
  pose proof (wf_del_same _ Hwf) as Hsd. pose proof (wf_del_array _ Hwf) as Hlen.
  pose proof (wf_del_check _ Hwf) as Hdc. pose proof (wf_del_nocheck _ Hwf) as Hdn.
  clear Hser Hwf Hnocheck.
  destruct v as [ia da si sd ist dst]. unfold u64_versions, deletion_bytes in *. cbn in * |-. subst ia si sd.
  cbn [deletedVersions insertionStatus deletionStatus].
  unfold deSerialize. eapply decodes_bind; [solve_decode|].
  eapply decodes_bind; [apply decodes_value, insertionStatus_code_range|].
  apply decodes_assert; [destruct Hins as [-> | ->]; reflexivity|].
  eapply decodes_bind; [solve_decode|].
  eapply decodes_bind; [apply decodes_value, deletionStatus_code_range|].
  rewrite <- (app_nil_r (match da with Some _ => _ | None => _ end)).
  apply (decodes_bind _ _ _ _ (MkVectorVersionInfo None da INVALID_TRANSACTION
    INVALID_TRANSACTION ist dst)); [|apply decodes_assert; [exact Hper|apply decodes_ret]].
  destruct dst; cbn [deletionStatus_code].
  - rewrite Hdn by reflexivity. destruct Hins as [-> | ->]; apply decodes_ret.
  - destruct (Hdc eq_refl) as [l ->]. cbn [Z.eqb Pos.eqb].
    rewrite <- (assoc_L (++)). eapply decodes_bind; [solve_decode|].
    eapply decodes_bind; [solve_decode|]. rewrite Z.eqb_refl.
    eapply decodes_bind; [solve_decode|].
    rewrite <- (app_nil_r (serializeArray 8 l)), <- (Hlen l eq_refl).
    eapply decodes_bind; [apply decodes_array, (Hu l eq_refl)|].
    destruct Hins as [-> | ->]; apply decodes_ret.
Qed.
