(* ===== verification/ChunkSpec.v ===== *)
(** * What the row versions of a chunk mean

    Lifts VersionSpec from one vector to the rows of a chunk: [VersionInfo]'s operations cut a range
    of rows into vectors; the theorems state their effect row by row, and the reader's view as
    snapshot visibility. *)

From stdpp Require Import base numbers list strings.
From Stdlib Require Import ZArith Lia.
From S2P Require Import Prelude SelVector Serializer VersionInfo VersionSpec.
Import SelVector Serializer VectorVersion ChunkVersion.

(** ** Cutting a row range into vectors *)

(** The slices cover the rows from [row] up to [last], in order and without gaps. *)
Fixpoint contiguous (row : nat) (slices : list (nat * nat * nat)) (last : nat) : Prop :=
  match slices with
  | [] => row = last
  | (v, s, n) :: slices' =>
      row = v * CAP + s ∧ 0 < n ∧ s + n ≤ CAP ∧ contiguous (row + n) slices' last
  end.

Definition slice_of (sv sr ev er v : nat) : nat * nat * nat :=
  let s := if v =? sv then sr else 0 in
  let e := if v =? ev then er else CAP - 1 in
  (v, s, e - s + 1).

Lemma contiguous_slices k sv sr ev er :
  ev = sv + k → sr < CAP → er < CAP → (sv = ev → sr ≤ er) →
  contiguous (sv * CAP + sr) (map (slice_of sv sr ev er) (seq sv (S k))) (ev * CAP + er + 1).
Proof.
  revert sv sr. induction k as [|k IH]; intros sv sr Hev Hsr Her Hle.
  - assert (ev = sv) as -> by lia. specialize (Hle eq_refl). cbn [seq map contiguous].
    unfold slice_of. rewrite !Nat.eqb_refl. repeat split; lia.
  - change (map (slice_of sv sr ev er) (seq sv (S (S k)))) with
      (slice_of sv sr ev er sv :: map (slice_of sv sr ev er) (seq (S sv) (S k))).
    unfold slice_of at 1. rewrite Nat.eqb_refl.
    rewrite (proj2 (Nat.eqb_neq sv ev)) by lia. cbn [contiguous].
    split; [reflexivity|]. split; [lia|]. split; [lia|].
    replace (sv * CAP + sr + (CAP - 1 - sr + 1)) with (S sv * CAP + 0) by lia.
    rewrite (List.map_ext_in _ (slice_of (S sv) 0 ev er)).
    + apply (IH (S sv) 0); [lia|pose proof vector_capacity_pos; lia|exact Her|lia].
    + intros v Hv%List.in_seq. unfold slice_of.
      rewrite (proj2 (Nat.eqb_neq v sv)) by lia. destruct (v =? S sv); reflexivity.
Qed.

Lemma vector_slices_contiguous startRow numRows :
  0 < numRows → contiguous startRow (vector_slices startRow numRows) (startRow + numRows).
Proof.
  intros Hn. unfold vector_slices, getQuotientRemainder.
  set (endRow := startRow + numRows - 1).
  pose proof (vector_row_split startRow) as Hs. pose proof (vector_row_split endRow) as He.
  pose proof (vector_row_bound startRow) as Hsr. pose proof (vector_row_bound endRow) as Her.
  assert (Hdiv : startRow / CAP ≤ endRow / CAP) by (apply Nat.Div0.div_le_mono; lia).
  pose proof (contiguous_slices (endRow / CAP - startRow / CAP) (startRow / CAP) (startRow mod CAP)
    (endRow / CAP) (endRow mod CAP)) as H.
  rewrite <- Hs, <- He in H. replace (endRow + 1) with (startRow + numRows) in H by lia.
  replace (S (endRow / CAP - startRow / CAP)) with (endRow / CAP + 1 - startRow / CAP) in H by lia.
  apply H; [lia|exact Hsr|exact Her|]. intros Heq. rewrite Heq in Hs. lia.
Qed.

Lemma vector_slices_indices startRow numRows :
  (vector_slices startRow numRows).*1.*1 =
    seq (startRow / CAP) ((startRow + numRows - 1) / CAP + 1 - startRow / CAP).
Proof.
  unfold vector_slices, getQuotientRemainder.
  change (@map nat (nat * nat * nat)) with (@fmap list _ nat (nat * nat * nat)).
  rewrite <- !list_fmap_compose. apply list_fmap_id.
Qed.

Lemma contiguous_bounds row slices last : contiguous row slices last → row ≤ last.
Proof.
  revert row. induction slices as [|[[v s] n] l IH]; cbn; intros row H; [lia|].
  destruct H as (_ & _ & _ & H). apply IH in H. lia.
Qed.

(** A slice lies in its vector and inside the range. *)
Lemma contiguous_slice row slices last v s n :
  contiguous row slices last → (v, s, n) ∈ slices →
  0 < n ∧ s + n ≤ CAP ∧ row ≤ v * CAP + s ∧ v * CAP + s + n ≤ last.
Proof.
  revert row. induction slices as [|[[v' s'] n'] l IH]; cbn; intros row H Hin.
  - apply elem_of_nil in Hin. contradiction.
  - destruct H as (-> & Hn & Hs & H). apply elem_of_cons in Hin as [[= -> -> ->]|Hin].
    + apply contiguous_bounds in H. lia.
    + destruct (IH _ H Hin) as (? & ? & ? & ?). lia.
Qed.

(** Each row of the range is in the slice of its vector. *)
Lemma contiguous_row row slices last r :
  contiguous row slices last → row ≤ r < last →
  ∃ s n, (r / CAP, s, n) ∈ slices ∧ s ≤ r mod CAP < s + n.
Proof.
  revert row. induction slices as [|[[v s] n] l IH]; cbn; intros row H Hr; [lia|].
  destruct H as (-> & Hn & Hs & H).
  destruct (decide (r < v * CAP + s + n)) as [Hlt|Hge].
  - exists s, n. replace r with (v * CAP + (r - v * CAP)) by lia.
    rewrite vector_row_div, vector_row_mod by lia. split; [left|lia].
  - destruct (IH _ H) as (s' & n' & Hin & Hrow); [lia|]. exists s', n'. split; [right|]; assumption.
Qed.

(** ** Rows of a chunk *)

(** The vector an operation works on: a null entry is created on first use. *)
Definition cur (vi : VersionInfo) (vectorIdx : nat) : VectorVersionInfo :=
  default VectorVersionInfo_new (getVectorVersionInfo vectorIdx vi).

(** The versions of a row. Rows of a vector without version information come from a checkpoint. *)
Definition row_ins (vi : VersionInfo) (r : nat) : Z :=
  match getVectorVersionInfo (r / CAP) vi with
  | Some v => ins_version v (r mod CAP)
  | None => DUMMY_START_TIMESTAMP
  end.
Definition row_del (vi : VersionInfo) (r : nat) : Z :=
  match getVectorVersionInfo (r / CAP) vi with
  | Some v => del_version v (r mod CAP)
  | None => INVALID_TRANSACTION
  end.

(** The abstract state of a chunk: who inserted and who deleted each row. *)
Definition row_visible (startTS id : Z) (vi : VersionInfo) (r : nat) : bool :=
  visible startTS id (row_ins vi r) (row_del vi r).

Definition wf_chunk (vi : VersionInfo) : Prop :=
  ∀ idx v, getVectorVersionInfo idx vi = Some v → wf_vector v.

(** The chunk has rows up to [numRows], and a transaction may append there. *)
Definition chunk_appendable (vi : VersionInfo) (numRows : nat) : Prop :=
  ∀ idx, numRows / CAP ≤ idx →
    appendable (cur vi idx) (if idx =? numRows / CAP then numRows mod CAP else 0).

Lemma wf_cur vi idx : wf_chunk vi → wf_vector (cur vi idx).
Proof.
  intros Hwf. unfold cur. destruct (getVectorVersionInfo idx vi) eqn:H; [exact (Hwf _ _ H)|apply wf_new].
Qed.

Lemma getVectorVersionInfo_lookup idx l :
  getVectorVersionInfo idx (MkVersionInfo l) = mjoin (l !! idx).
Proof.
  unfold getVectorVersionInfo. cbn. destruct (length l <=? idx) eqn:H; [|reflexivity].
  apply Nat.leb_le in H. rewrite lookup_ge_None_2 by exact H. reflexivity.
Qed.

(** [getOrCreateVersionInfo] gives the vector or a new one, and leaves the other vectors alone. *)
Lemma ensure_vector_lookup idx l :
  ensure_vector idx l !! idx = Some (Some (cur (MkVersionInfo l) idx)) ∧
  ∀ j, j ≠ idx → mjoin (ensure_vector idx l !! j) = mjoin (l !! j).
Proof.
  unfold cur. rewrite getVectorVersionInfo_lookup. unfold ensure_vector.
  set (l1 := if length l <=? idx then _ else _).
  assert (Hlen : idx < length l1).
  { unfold l1. destruct (length l <=? idx) eqn:H; zbool; rewrite ?length_app, ?length_replicate; lia. }
  assert (Hj : ∀ j, mjoin (l1 !! j) = mjoin (l !! j)).
  { intros j. unfold l1. destruct (length l <=? idx); [|reflexivity].
    destruct (decide (j < length l)) as [Hlt|Hge]; [rewrite lookup_app_l by exact Hlt; reflexivity|].
    rewrite lookup_app_r by lia. rewrite (lookup_ge_None_2 l) by lia.
    destruct (replicate _ _ !! _) as [o|] eqn:Ho; [|reflexivity].
    apply lookup_replicate_1 in Ho as [-> _]. reflexivity. }
  rewrite <- Hj. destruct (lookup_lt_is_Some_2 l1 idx Hlen) as [o Ho]. rewrite Ho.
  destruct o as [v|].
  - split; [exact Ho|]. intros j _. apply Hj.
  - split; [apply list_lookup_insert_eq, Hlen|].
    intros j Hne. rewrite list_lookup_insert_ne by congruence. apply Hj.
Qed.

Lemma on_vector_run {A} idx (m : M VectorVersionInfo A) vi r v' :
  m (cur vi idx) = (r, v') →
  ∃ vi', on_vector idx m vi = (r, vi') ∧ getVectorVersionInfo idx vi' = Some v' ∧
    ∀ j, j ≠ idx → getVectorVersionInfo j vi' = getVectorVersionInfo j vi.
Proof.
  intros Hm. destruct vi as [l]. destruct (ensure_vector_lookup idx l) as [Hidx Hother].
  unfold on_vector. cbn [vectorsInfo]. rewrite Hidx, Hm.
  eexists; split; [reflexivity|]. rewrite !getVectorVersionInfo_lookup.
  pose proof (lookup_lt_Some _ _ _ Hidx) as Hlt.
  split; [rewrite list_lookup_insert_eq by exact Hlt; reflexivity|].
  intros j Hj. rewrite !getVectorVersionInfo_lookup, list_lookup_insert_ne by congruence.
  apply Hother, Hj.
Qed.

(** A loop over the slices of a range runs its operation once on each vector of the range. *)
Lemma for_slices (op : nat → nat → M VectorVersionInfo unit) Q slices vi :
  NoDup slices.*1.*1 →
  (∀ idx s n, (idx, s, n) ∈ slices →
    ∃ v', op s n (cur vi idx) = (Ok tt, v') ∧ Q s n (cur vi idx) v') →
  ∃ vi', for_each slices (λ '(idx, s, n), on_vector idx (op s n)) vi = (Ok tt, vi') ∧
    (∀ idx s n, (idx, s, n) ∈ slices →
      ∃ v', getVectorVersionInfo idx vi' = Some v' ∧ Q s n (cur vi idx) v') ∧
    (∀ idx, idx ∉ slices.*1.*1 → getVectorVersionInfo idx vi' = getVectorVersionInfo idx vi).
Proof.
  revert vi. induction slices as [|[[idx s] n] l IH]; intros vi Hnd Hop.
  - exists vi. split; [reflexivity|]. split; [|reflexivity].
    intros idx s n H. apply elem_of_nil in H. contradiction.
  - cbn in Hnd. apply NoDup_cons in Hnd as [Hfresh Hnd].
    destruct (Hop idx s n) as (v1 & Hrun1 & HQ1); [left|].
    destruct (on_vector_run idx (op s n) vi (Ok tt) v1 Hrun1) as (vi1 & Hon & Hget1 & Hother1).
    assert (Hcur : ∀ j, j ≠ idx → cur vi1 j = cur vi j)
      by (intros j Hj; unfold cur; rewrite Hother1 by exact Hj; reflexivity).
    assert (Hne : ∀ j s' n', (j, s', n') ∈ l → j ≠ idx).
    { intros j s' n' Hin ->. apply Hfresh. apply list_elem_of_fmap. exists (idx, s').
      split; [reflexivity|]. apply list_elem_of_fmap. exists (idx, s', n'). auto. }
    destruct (IH vi1 Hnd) as (vi2 & Hrun2 & Hin2 & Hout2).
    { intros j s' n' Hin. rewrite (Hcur j (Hne _ _ _ Hin)). apply Hop. right. exact Hin. }
    exists vi2. split.
    { rewrite (for_each_cons_ok (idx, s, n) l (λ '(idx, s, n), on_vector idx (op s n)) vi vi1 Hon).
      exact Hrun2. }
    split.
    + intros j s' n' [[= -> -> ->]|Hin]%elem_of_cons.
      * exists v1. split; [|exact HQ1]. rewrite Hout2 by exact Hfresh. exact Hget1.
      * destruct (Hin2 j s' n' Hin) as (v' & Hv' & HQ'). exists v'. split; [exact Hv'|].
        rewrite <- (Hcur j (Hne _ _ _ Hin)). exact HQ'.
    + intros j Hj. cbn in Hj. apply not_elem_of_cons in Hj as [Hj1 Hj2].
      rewrite Hout2 by exact Hj2. apply Hother1, Hj1.
Qed.

(** The same for the slices of a row range, stated with the rows' vectors. *)
Lemma for_row_range (op : nat → nat → M VectorVersionInfo unit) Q startRow numRows vi :
  0 < numRows →
  (∀ idx s n, (idx, s, n) ∈ vector_slices startRow numRows →
    ∃ v', op s n (cur vi idx) = (Ok tt, v') ∧ Q s n (cur vi idx) v') →
  ∃ vi', for_each (vector_slices startRow numRows) (λ '(idx, s, n), on_vector idx (op s n)) vi =
      (Ok tt, vi') ∧
    (∀ idx s n, (idx, s, n) ∈ vector_slices startRow numRows →
      ∃ v', getVectorVersionInfo idx vi' = Some v' ∧ Q s n (cur vi idx) v') ∧
    (∀ idx, idx < startRow / CAP ∨ (startRow + numRows - 1) / CAP < idx →
      getVectorVersionInfo idx vi' = getVectorVersionInfo idx vi).
Proof.
  intros Hn Hop. destruct (for_slices op Q (vector_slices startRow numRows) vi) as
    (vi' & Hrun & Hin & Hout); [rewrite vector_slices_indices; apply NoDup_seq|exact Hop|].
  exists vi'. split; [exact Hrun|]. split; [exact Hin|].
  intros idx Hidx. apply Hout. rewrite vector_slices_indices, elem_of_seq. lia.
Qed.

Lemma vector_slices_elem startRow numRows idx s n :
  (idx, s, n) ∈ vector_slices startRow numRows →
  startRow / CAP ≤ idx ≤ (startRow + numRows - 1) / CAP ∧
  s = (if idx =? startRow / CAP then startRow mod CAP else 0) ∧
  n = (if idx =? (startRow + numRows - 1) / CAP then (startRow + numRows - 1) mod CAP
       else CAP - 1) - s + 1.
Proof.
  unfold vector_slices, getQuotientRemainder. intros H%list_elem_of_In%List.in_map_iff.
  destruct H as (v & [= -> <- <-] & Hv%List.in_seq). split; [lia|]. split; reflexivity.
Qed.

Lemma slices_row startRow numRows r :
  0 < numRows → startRow ≤ r < startRow + numRows →
  ∃ s n, (r / CAP, s, n) ∈ vector_slices startRow numRows ∧ s ≤ r mod CAP < s + n.
Proof. intros Hn Hr. eapply contiguous_row; [apply vector_slices_contiguous, Hn|exact Hr]. Qed.

Lemma slice_in_range startRow numRows idx s n :
  0 < numRows → (idx, s, n) ∈ vector_slices startRow numRows →
  0 < n ∧ s + n ≤ CAP ∧ startRow ≤ idx * CAP + s ∧ idx * CAP + s + n ≤ startRow + numRows.
Proof. intros Hn Hin. eapply contiguous_slice; [apply vector_slices_contiguous, Hn|exact Hin]. Qed.

Lemma row_ins_vector vi r v :
  getVectorVersionInfo (r / CAP) vi = Some v → row_ins vi r = ins_version v (r mod CAP).
Proof. intros H. unfold row_ins. rewrite H. reflexivity. Qed.

Lemma row_del_vector vi r v :
  getVectorVersionInfo (r / CAP) vi = Some v → row_del vi r = del_version v (r mod CAP).
Proof. intros H. unfold row_del. rewrite H. reflexivity. Qed.

(** A missing vector and a new one record no deletion. *)
Lemma row_del_cur vi r : row_del vi r = del_version (cur vi (r / CAP)) (r mod CAP).
Proof.
  unfold row_del, cur. destruct (getVectorVersionInfo (r / CAP) vi); reflexivity.
Qed.

(** A row is in a touched vector or its versions are those of before. *)
Lemma touched_or_same startRow numRows idx :
  0 < numRows →
  (∃ s n, (idx, s, n) ∈ vector_slices startRow numRows) ∨
  (idx < startRow / CAP ∨ (startRow + numRows - 1) / CAP < idx).
Proof.
  intros Hn. destruct (decide (startRow / CAP ≤ idx ≤ (startRow + numRows - 1) / CAP)) as [Hin|Hout];
    [left|right; lia].
  assert (Hidx : idx ∈ (vector_slices startRow numRows).*1.*1)
    by (rewrite vector_slices_indices, elem_of_seq; lia).
  apply list_elem_of_fmap in Hidx as ([j s] & -> & Hj).
  apply list_elem_of_fmap in Hj as ([[j' s'] n] & [= -> ->] & Hj'). eauto.
Qed.

(** ** Appending rows *)

Section ChunkAppend.
Context (T : Z) (startRow numRows : nat) (vi : VersionInfo).
Context (HT : T ≠ INVALID_TRANSACTION) (Hwf : wf_chunk vi) (Hfree : chunk_appendable vi startRow).
Context (Hn : 0 < numRows).

Lemma append_slice idx s n :
  (idx, s, n) ∈ vector_slices startRow numRows →
  ∃ v', VectorVersion.append T s n (cur vi idx) = (Ok tt, v') ∧ appended T s n (cur vi idx) v'.
Proof.
  intros Hin. destruct (vector_slices_elem _ _ _ _ _ Hin) as (Hidx & Hs & _).
  destruct (slice_in_range _ _ _ _ _ Hn Hin) as (_ & Hsn & _).
  apply append_spec; [exact HT|apply wf_cur, Hwf| |exact Hsn]. rewrite Hs. apply Hfree. lia.
Qed.

(** The vector that [startRow + numRows] falls in can be appended to afterwards. *)
Lemma appendable_after vi' :
  (∀ idx s n, (idx, s, n) ∈ vector_slices startRow numRows →
    ∃ v', getVectorVersionInfo idx vi' = Some v' ∧ appended T s n (cur vi idx) v') →
  (∀ idx, idx < startRow / CAP ∨ (startRow + numRows - 1) / CAP < idx →
    getVectorVersionInfo idx vi' = getVectorVersionInfo idx vi) →
  chunk_appendable vi' (startRow + numRows).
Proof.
  intros Hin Hout idx Hidx.
  set (last := startRow + numRows - 1) in *.
  pose proof (vector_row_split last) as Hl. pose proof (vector_row_bound last) as Hlb.
  pose proof vector_capacity_pos as Hcap.
  assert (Hdiv : startRow / CAP ≤ last / CAP) by (apply Nat.Div0.div_le_mono; lia).
  destruct (decide (last mod CAP + 1 = CAP)) as [Hfull|Hpart].
  - (* the last vector is full: the next one is untouched *)
    assert (Hend : startRow + numRows = (last / CAP + 1) * CAP + 0) by lia.
    assert (Hq : (startRow + numRows) / CAP = last / CAP + 1)
      by (rewrite Hend; apply vector_row_div; lia).
    assert (Hr : (startRow + numRows) mod CAP = 0) by (rewrite Hend; apply vector_row_mod; lia).
    rewrite Hq in *. unfold cur. rewrite Hout by lia. fold (cur vi idx). rewrite Hr.
    replace (if idx =? last / CAP + 1 then 0 else 0) with 0 by (destruct (idx =? _); reflexivity).
    specialize (Hfree idx ltac:(lia)). rewrite (proj2 (Nat.eqb_neq idx (startRow / CAP))) in Hfree by lia.
    exact Hfree.
  - (* the next row is in the last vector that was written *)
    assert (Hend : startRow + numRows = last / CAP * CAP + (last mod CAP + 1)) by lia.
    assert (Hq : (startRow + numRows) / CAP = last / CAP) by (rewrite Hend; apply vector_row_div; lia).
    assert (Hr : (startRow + numRows) mod CAP = last mod CAP + 1)
      by (rewrite Hend; apply vector_row_mod; lia).
    rewrite Hq, Hr in *. destruct (idx =? last / CAP) eqn:Heq; zbool.
    + subst idx. destruct (touched_or_same startRow numRows (last / CAP) Hn) as [(s & n & Hsn)|Hx];
        [|fold last in Hx; lia].
      destruct (vector_slices_elem _ _ _ _ _ Hsn) as (_ & Hs & Hnn).
      fold last in Hnn. rewrite Nat.eqb_refl in Hnn.
      destruct (Hin _ _ _ Hsn) as (v' & Hget & Happ). unfold cur. rewrite Hget. cbn.
      assert (s ≤ last mod CAP).
      { rewrite Hs. destruct (last / CAP =? startRow / CAP) eqn:Hsame; zbool; [|lia].
        pose proof (vector_row_split startRow). rewrite Hsame in *. lia. }
      replace (last mod CAP + 1) with (s + n) by lia. apply Happ.
    + unfold cur. rewrite Hout by lia. fold (cur vi idx).
      specialize (Hfree idx ltac:(lia)). rewrite (proj2 (Nat.eqb_neq idx (startRow / CAP))) in Hfree by lia.
      exact Hfree.
Qed.

Lemma append_rows_below vi' r :
  (∀ idx s n, (idx, s, n) ∈ vector_slices startRow numRows →
    ∃ v', getVectorVersionInfo idx vi' = Some v' ∧ appended T s n (cur vi idx) v') →
  (∀ idx, idx < startRow / CAP ∨ (startRow + numRows - 1) / CAP < idx →
    getVectorVersionInfo idx vi' = getVectorVersionInfo idx vi) →
  r < startRow → row_ins vi' r = row_ins vi r.
Proof.
  intros Hin Hout Hr.
  destruct (touched_or_same startRow numRows (r / CAP) Hn) as [(s & n & Hsn)|Hx].
  - destruct (Hin _ _ _ Hsn) as (v' & Hget & Happ). rewrite (row_ins_vector _ _ _ Hget).
    destruct Happ as (_ & _ & _ & _ & Hlow & _).
    destruct (slice_in_range _ _ _ _ _ Hn Hsn) as (_ & Hsc & Hge & _).
    destruct (vector_slices_elem _ _ _ _ _ Hsn) as (Hidx & Hs & _).
    pose proof (vector_row_split r) as Hr1. pose proof (vector_row_split startRow) as Hr2.
    assert (Heq : r / CAP = startRow / CAP).
    { assert (r / CAP ≤ startRow / CAP) by (apply Nat.Div0.div_le_mono; lia). lia. }
    rewrite (proj2 (Nat.eqb_eq _ _) Heq) in Hs.
    assert (Hlt : r mod CAP < s) by (rewrite Heq in Hr1; lia).
    rewrite Hlow by exact Hlt. unfold row_ins, cur.
    destruct (getVectorVersionInfo (r / CAP) vi) eqn:Hv; [reflexivity|].
    specialize (Hfree (startRow / CAP) ltac:(lia)). rewrite Nat.eqb_refl in Hfree.
    unfold cur in Hfree. rewrite <- Heq, Hv in Hfree. cbn in Hfree. lia.
  - unfold row_ins. rewrite Hout by exact Hx. reflexivity.
Qed.

End ChunkAppend.

(** Vectors of a chunk whose touched vectors satisfy [wf_vector] again. *)
Lemma wf_chunk_touched vi vi' startRow numRows :
  0 < numRows → wf_chunk vi →
  (∀ idx s n, (idx, s, n) ∈ vector_slices startRow numRows →
    ∃ v', getVectorVersionInfo idx vi' = Some v' ∧ wf_vector v') →
  (∀ idx, idx < startRow / CAP ∨ (startRow + numRows - 1) / CAP < idx →
    getVectorVersionInfo idx vi' = getVectorVersionInfo idx vi) →
  wf_chunk vi'.
Proof.
  intros Hn Hwf Hin Hout idx v Hv.
  destruct (touched_or_same startRow numRows idx Hn) as [(s & n & Hsn)|Hx].
  - destruct (Hin _ _ _ Hsn) as (v' & Hget & Hwf'). congruence.
  - rewrite Hout in Hv by exact Hx. exact (Hwf _ _ Hv).
Qed.

(** Deletion versions that no touched vector changed. *)
Lemma row_del_touched vi vi' startRow numRows r :
  0 < numRows →
  (∀ idx s n, (idx, s, n) ∈ vector_slices startRow numRows →
    ∃ v', getVectorVersionInfo idx vi' = Some v' ∧ same_deletions (cur vi idx) v') →
  (∀ idx, idx < startRow / CAP ∨ (startRow + numRows - 1) / CAP < idx →
    getVectorVersionInfo idx vi' = getVectorVersionInfo idx vi) →
  row_del vi' r = row_del vi r.
Proof.
  intros Hn Hin Hout. destruct (touched_or_same startRow numRows (r / CAP) Hn) as [(s & n & Hsn)|Hx].
  - destruct (Hin _ _ _ Hsn) as (v' & Hget & Hsame).
    rewrite (row_del_vector _ _ _ Hget), (row_del_cur vi). apply Hsame.
  - unfold row_del. rewrite Hout by exact Hx. reflexivity.
Qed.

(** C12. Appending rows refines its specification: the appended rows carry the transaction's id, no
    earlier row and no deletion changes, no assertion fails, and the chunk can be appended to at the
    new end. *)
Theorem append_refines T startRow numRows vi :
  is_txn_id T → wf_chunk vi → chunk_appendable vi startRow →
  ∃ vi', ChunkVersion.append T startRow numRows vi = (Ok tt, vi') ∧
    wf_chunk vi' ∧ chunk_appendable vi' (startRow + numRows) ∧
    (∀ r, r < startRow → row_ins vi' r = row_ins vi r) ∧
    (∀ r, startRow ≤ r < startRow + numRows → row_ins vi' r = T) ∧
    (∀ r, row_del vi' r = row_del vi r).
Proof.
  intros HT Hwf Hfree. assert (HT' : T ≠ INVALID_TRANSACTION) by solve_ts.
  unfold ChunkVersion.append. destruct (numRows =? 0) eqn:Hn; zbool.
  { subst. rewrite Nat.add_0_r. exists vi. split_and!; auto; intros r Hr; lia. }
  assert (Hpos : 0 < numRows) by lia.
  destruct (for_row_range (VectorVersion.append T) (λ s n v v', appended T s n v v') startRow numRows vi
    Hpos (append_slice T startRow numRows vi HT' Hwf Hfree Hpos)) as (vi' & Hrun & Hin & Hout).
  exists vi'. split; [exact Hrun|].
  split; [|split; [|split; [|split]]].
  - eapply wf_chunk_touched; [exact Hpos|exact Hwf| |exact Hout].
    intros idx s n Hsn. destruct (Hin _ _ _ Hsn) as (v' & Hget & Happ). exists v'. split; [exact Hget|apply Happ].
  - eapply appendable_after; eauto.
  - intros r Hr. eapply append_rows_below; eauto.
  - intros r Hr. destruct (slices_row startRow numRows r Hpos Hr) as (s & n & Hsn & Hrow).
    destruct (Hin _ _ _ Hsn) as (v' & Hget & Happ). rewrite (row_ins_vector _ _ _ Hget).
    apply Happ. exact Hrow.
  - intros r. eapply row_del_touched; [exact Hpos| |exact Hout].
    intros idx s n Hsn. destruct (Hin _ _ _ Hsn) as (v' & Hget & Happ). exists v'. split; [exact Hget|apply Happ].
Qed.

Lemma empty_chunk_wf : wf_chunk VersionInfo_new.
Proof. intros idx v H. discriminate. Qed.

Lemma empty_chunk_appendable : chunk_appendable VersionInfo_new 0.
Proof.
  intros idx _. rewrite Nat.Div0.div_0_l, Nat.Div0.mod_0_l.
  replace (if idx =? 0 then 0 else 0) with 0 by (destruct (idx =? 0); reflexivity). reflexivity.
Qed.

Lemma first_txn_id : is_txn_id (START_TRANSACTION_ID + 1).
Proof. solve_ts. Qed.

Lemma append_refines_witness :
  is_txn_id (START_TRANSACTION_ID + 1) ∧
  ∃ vi', ChunkVersion.append (START_TRANSACTION_ID + 1) 0 3000 VersionInfo_new = (Ok tt, vi') ∧
    row_ins vi' 2999 = (START_TRANSACTION_ID + 1)%Z.
Proof.
  split; [exact first_txn_id|].
  destruct (append_refines (START_TRANSACTION_ID + 1) 0 3000 VersionInfo_new first_txn_id
    empty_chunk_wf empty_chunk_appendable) as (vi' & Hrun & _ & _ & _ & Hrows & _).
  exists vi'. split; [exact Hrun|]. apply Hrows.
  split; [apply Nat.leb_le|apply Nat.ltb_lt]; vm_compute; reflexivity.
Defined.
