(* ===== verification/ChunkVisibility.v ===== *)
(** * Deleting, committing, rolling back, reading and persisting the rows of a chunk

    The theorems about [VersionInfo] beyond appending: each operation's effect on the versions of the
    rows, and the reads as snapshot visibility. *)

From stdpp Require Import base numbers list strings.
From Stdlib Require Import ZArith Lia.
From S2P Require Import Prelude SelVector Serializer VersionInfo VersionSpec ChunkSpec.
Import SelVector Serializer VectorVersion ChunkVersion.

(** ** Deleting a row *)

(** The row's vector is not an emptied one: its insertions have not all been rolled back. *)
Definition row_exists (vi : VersionInfo) (r : nat) : Prop :=
  ∀ v, getVectorVersionInfo (r / CAP) vi = Some v → insertionStatus v ≠ NO_INSERTED.

(** The preparation of [VersionInfo::delete_]: a vector without version information becomes one whose
    rows are all inserted. *)
Definition prepared (v : VectorVersionInfo) : VectorVersionInfo :=
  if bool_decide (insertionStatus v = NO_INSERTED) then set_insertionStatus ALWAYS_INSERTED v else v.

Lemma prepared_wf vi idx : wf_chunk vi → wf_vector (prepared (cur vi idx)).
Proof.
  intros Hwf. pose proof (wf_cur vi idx Hwf) as H. unfold prepared.
  destruct (bool_decide_reflect (insertionStatus (cur vi idx) = NO_INSERTED)) as [Hn|Hn]; [|exact H].
  destruct H as [H1 H2 H3 H4 H5 H6 H7].
  destruct (H4 ltac:(congruence)) as [Hsame Hins].
  constructor; cbn; auto; intros; try discriminate.
Qed.

Lemma prepared_ins vi r :
  row_exists vi r → ins_version (prepared (cur vi (r / CAP))) (r mod CAP) = row_ins vi r.
Proof.
  intros He. unfold row_ins, prepared, cur.
  destruct (getVectorVersionInfo (r / CAP) vi) as [v|] eqn:Hv; [|reflexivity]. cbn.
  rewrite bool_decide_eq_false_2 by exact (He v Hv). reflexivity.
Qed.

Lemma prepared_del vi idx i : del_version (prepared (cur vi idx)) i = del_version (cur vi idx) i.
Proof. unfold prepared. destruct (bool_decide _); reflexivity. Qed.

(** Rows are equal when their vectors and their rows in the vector are. *)
Lemma row_eq r r' : r / CAP = r' / CAP → r mod CAP = r' mod CAP → r = r'.
Proof. intros H1 H2. rewrite (vector_row_split r), (vector_row_split r'), H1, H2. reflexivity. Qed.

(** One operation on the vector of row [r]: rows of other vectors keep their versions. *)
Lemma one_vector_rows vi vi' r v' i :
  getVectorVersionInfo (r / CAP) vi' = Some v' →
  (∀ j, j ≠ r / CAP → getVectorVersionInfo j vi' = getVectorVersionInfo j vi) →
  (row_ins vi' i = if decide (i / CAP = r / CAP) then ins_version v' (i mod CAP) else row_ins vi i) ∧
  (row_del vi' i = if decide (i / CAP = r / CAP) then del_version v' (i mod CAP) else row_del vi i).
Proof.
  intros Hget Hother. unfold row_ins, row_del.
  destruct (decide (i / CAP = r / CAP)) as [->|Hne]; [rewrite Hget; auto|].
  rewrite Hother by exact Hne. auto.
Qed.

(** The run of [VersionInfo::delete_], from the run on the prepared vector. *)
Lemma delete_run T r vi o v' :
  wf_chunk vi → (∀ i, i / CAP = r / CAP → row_exists vi i) →
  wf_vector v' → same_insertions (prepared (cur vi (r / CAP))) v' →
  VectorVersion.delete_ T (r mod CAP) (prepared (cur vi (r / CAP))) = (o, v') →
  ∃ vi', ChunkVersion.delete_ T r vi = (o, vi') ∧ wf_chunk vi' ∧
    (∀ i, row_ins vi' i = row_ins vi i) ∧
    ∀ i, row_del vi' i = if decide (i / CAP = r / CAP) then del_version v' (i mod CAP) else row_del vi i.
Proof.
  intros Hwf He Hwf' Hins Hrun.
  assert (Hm : (v ← get_state;
    (if bool_decide (insertionStatus v = NO_INSERTED)
     then modify (set_insertionStatus ALWAYS_INSERTED) else mret tt) ;;
    VectorVersion.delete_ T (r mod CAP)) (cur vi (r / CAP)) = (o, v')).
  { rewrite <- Hrun. unfold prepared. unfold_M. destruct (bool_decide _); reflexivity. }
  destruct (on_vector_run _ _ _ _ _ Hm) as (vi' & Hon & Hget & Hother).
  exists vi'. split; [exact Hon|].
  assert (Hrows := λ i, one_vector_rows vi vi' r v' i Hget Hother).
  split; [|split].
  - intros idx v Hv. destruct (decide (idx = r / CAP)) as [->|Hne]; [congruence|].
    rewrite Hother in Hv by exact Hne. exact (Hwf _ _ Hv).
  - intros i. rewrite (proj1 (Hrows i)). destruct (decide _) as [Heq|_]; [|reflexivity].
    rewrite Hins, <- Heq. apply prepared_ins, He, Heq.
  - intros i. apply (Hrows i).
Qed.

Lemma delete_row_del T r vi i :
  (if decide (i / CAP = r / CAP)
   then if decide (i mod CAP = r mod CAP) then T else del_version (cur vi (r / CAP)) (i mod CAP)
   else row_del vi i) = if decide (i = r) then T else row_del vi i.
Proof.
  destruct (decide (i / CAP = r / CAP)) as [Hq|Hq].
  - destruct (decide (i mod CAP = r mod CAP)) as [Hm|Hm].
    + rewrite decide_True by (apply row_eq; assumption). reflexivity.
    + rewrite decide_False by congruence. rewrite row_del_cur, Hq. reflexivity.
  - rewrite decide_False by congruence. reflexivity.
Qed.

(** C22. Deleting a row decides on the row's recorded deletion: a row nobody deleted is deleted and
    the call returns true; a row this transaction deleted returns false; a row another transaction
    deleted raises the write-write conflict. No insertion changes, and no other deletion. *)
Theorem delete_refines T r vi :
  is_txn_id T → wf_chunk vi → (∀ i, i / CAP = r / CAP → row_exists vi i) →
  ∃ vi', wf_chunk vi' ∧ (∀ i, row_ins vi' i = row_ins vi i) ∧
    ((row_del vi r = INVALID_TRANSACTION ∧ ChunkVersion.delete_ T r vi = (Ok true, vi') ∧
      ∀ i, row_del vi' i = if decide (i = r) then T else row_del vi i) ∨
     (row_del vi r = T ∧ ChunkVersion.delete_ T r vi = (Ok false, vi') ∧
      ∀ i, row_del vi' i = row_del vi i) ∨
     (row_del vi r ≠ INVALID_TRANSACTION ∧ row_del vi r ≠ T ∧
      ChunkVersion.delete_ T r vi = (Throw delete_conflict, vi') ∧
      ∀ i, row_del vi' i = row_del vi i)).
Proof.
  intros HT Hwf He. assert (HT' : T ≠ INVALID_TRANSACTION) by solve_ts.
  destruct (delete_spec T (r mod CAP) (prepared (cur vi (r / CAP))) HT' (prepared_wf _ _ Hwf)
    (vector_row_bound r)) as (v' & Hwf' & Hins & _ & Hcases).
  rewrite prepared_del, <- row_del_cur in Hcases.
  assert (Hstep : ∀ o, VectorVersion.delete_ T (r mod CAP) (prepared (cur vi (r / CAP))) = (o, v') →
    ∃ vi', ChunkVersion.delete_ T r vi = (o, vi') ∧ wf_chunk vi' ∧
      (∀ i, row_ins vi' i = row_ins vi i) ∧
      ∀ i, row_del vi' i = if decide (i / CAP = r / CAP) then del_version v' (i mod CAP) else row_del vi i)
    by (intros o; apply delete_run; assumption).
  destruct Hcases as [(Hd & Hrun & Hdel)|[(Hd & Hrun & Hdel)|(Hd1 & Hd2 & Hrun & Hdel)]];
    destruct (Hstep _ Hrun) as (vi' & Hrun' & Hwf'' & Hins' & Hdel'); exists vi';
    (split; [exact Hwf''|]); (split; [exact Hins'|]).
  - left. split_and!; [exact Hd|exact Hrun'|]. intros i. rewrite Hdel', Hdel, prepared_del.
    apply delete_row_del.
  - right; left. split_and!; [exact Hd|exact Hrun'|]. intros i. rewrite Hdel', Hdel, prepared_del.
    destruct (decide _) as [Heq|_]; [rewrite row_del_cur, Heq|]; reflexivity.
  - right; right. split_and!; [exact Hd1|exact Hd2|exact Hrun'|]. intros i.
    rewrite Hdel', Hdel, prepared_del.
    destruct (decide _) as [Heq|_]; [rewrite row_del_cur, Heq|]; reflexivity.
Qed.

Lemma delete_refines_witness :
  ∃ vi', ChunkVersion.delete_ (START_TRANSACTION_ID + 1) 5000 VersionInfo_new = (Ok true, vi') ∧
    row_del vi' 5000 = (START_TRANSACTION_ID + 1)%Z.
Proof.
  destruct (delete_refines (START_TRANSACTION_ID + 1) 5000 VersionInfo_new first_txn_id empty_chunk_wf)
    as (vi' & _ & _ & [(_ & Hrun & Hdel)|[(Hd & _)|(Hd & _)]]).
  - intros i _ v Hv. discriminate.
  - exists vi'. split; [exact Hrun|]. rewrite Hdel. apply decide_True. reflexivity.
  - vm_compute in Hd. discriminate.
  - exfalso. apply Hd. vm_compute. reflexivity.
Defined.

(** ** Commit and rollback of a row range *)

Section Range.
Context (T : Z) (startRow numRows : nat) (vi : VersionInfo).
Context (HT : is_txn_id T) (Hwf : wf_chunk vi).

(** The rows of the range carry the transaction's id, as insertions or as deletions. *)
Definition range_inserted : Prop := ∀ r, startRow ≤ r < startRow + numRows → row_ins vi r = T.
Definition range_deleted : Prop := ∀ r, startRow ≤ r < startRow + numRows → row_del vi r = T.

(** The range's versions become [t]; versions of other transactions stay as they are. *)
Definition range_becomes (ver : VersionInfo → nat → Z) (t : Z) (vi' : VersionInfo) : Prop :=
  (∀ r, startRow ≤ r < startRow + numRows → ver vi' r = t) ∧
  (∀ r, ver vi r ≠ T → ver vi' r = ver vi r).

(** A row of a slice, as a row of the chunk. *)
Lemma slice_row idx s n i :
  0 < numRows → (idx, s, n) ∈ vector_slices startRow numRows → s ≤ i < s + n →
  startRow ≤ idx * CAP + i < startRow + numRows ∧ (idx * CAP + i) / CAP = idx ∧
  (idx * CAP + i) mod CAP = i.
Proof.
  intros Hn Hin Hi. destruct (slice_in_range _ _ _ _ _ Hn Hin) as (_ & Hs & Hlo & Hhi).
  rewrite vector_row_div, vector_row_mod by lia. lia.
Qed.

Lemma slice_inserted idx s n :
  0 < numRows → range_inserted → (idx, s, n) ∈ vector_slices startRow numRows →
  getVectorVersionInfo idx vi = Some (cur vi idx) ∧
  ∀ i, s ≤ i < s + n → ins_version (cur vi idx) i = T.
Proof.
  intros Hn Hr Hin. destruct (slice_in_range _ _ _ _ _ Hn Hin) as (Hpos & _).
  assert (Hrow : ∀ i, s ≤ i < s + n →
    match getVectorVersionInfo idx vi with Some v => ins_version v i = T | None => False end).
  { intros i Hi. destruct (slice_row idx s n i Hn Hin Hi) as (Hrange & Hq & Hm).
    specialize (Hr _ Hrange). unfold row_ins in Hr. rewrite Hq, Hm in Hr.
    destruct (getVectorVersionInfo idx vi); [exact Hr|solve_ts]. }
  unfold cur. destruct (getVectorVersionInfo idx vi) as [v|].
  - split; [reflexivity|exact Hrow].
  - destruct (Hrow s ltac:(lia)).
Qed.

Lemma slice_deleted idx s n :
  0 < numRows → range_deleted → (idx, s, n) ∈ vector_slices startRow numRows →
  getVectorVersionInfo idx vi = Some (cur vi idx) ∧
  ∀ i, s ≤ i < s + n → del_version (cur vi idx) i = T.
Proof.
  intros Hn Hr Hin. destruct (slice_in_range _ _ _ _ _ Hn Hin) as (Hpos & _).
  assert (Hrow : ∀ i, s ≤ i < s + n → del_version (cur vi idx) i = T).
  { intros i Hi. destruct (slice_row idx s n i Hn Hin Hi) as (Hrange & Hq & Hm).
    rewrite <- (Hr _ Hrange), row_del_cur, Hq, Hm. reflexivity. }
  split; [|exact Hrow]. specialize (Hrow s ltac:(lia)). unfold cur in *.
  destruct (getVectorVersionInfo idx vi); [reflexivity|]. cbn in Hrow. solve_ts.
Qed.

(** A loop that makes the insertions of each slice [t] makes those of the range [t]. *)
Lemma range_inserts_become t vi' :
  0 < numRows → range_inserted →
  (∀ idx s n, (idx, s, n) ∈ vector_slices startRow numRows →
    ∃ v', getVectorVersionInfo idx vi' = Some v' ∧ inserts_become T s n (cur vi idx) t v') →
  (∀ idx, idx < startRow / CAP ∨ (startRow + numRows - 1) / CAP < idx →
    getVectorVersionInfo idx vi' = getVectorVersionInfo idx vi) →
  range_becomes row_ins t vi'.
Proof.
  intros Hn Hr Hin Hout. split.
  - intros r Hrow. destruct (slices_row startRow numRows r Hn Hrow) as (s & n & Hsn & Hi).
    destruct (Hin _ _ _ Hsn) as (v' & Hget & Hb & _).
    rewrite (row_ins_vector _ _ _ Hget). apply Hb, Hi.
  - intros r Hne. destruct (touched_or_same startRow numRows (r / CAP) Hn) as [(s & n & Hsn)|Hx].
    + destruct (Hin _ _ _ Hsn) as (v' & Hget & _ & Hkeep).
      destruct (slice_inserted _ _ _ Hn Hr Hsn) as [Hcur _].
      rewrite (row_ins_vector _ _ _ Hcur) in *. rewrite (row_ins_vector _ _ _ Hget).
      apply Hkeep, Hne.
    + unfold row_ins. rewrite Hout by exact Hx. reflexivity.
Qed.

Lemma range_deletes_become t vi' :
  0 < numRows →
  (∀ idx s n, (idx, s, n) ∈ vector_slices startRow numRows →
    ∃ v', getVectorVersionInfo idx vi' = Some v' ∧ deletes_become T s n (cur vi idx) t v') →
  (∀ idx, idx < startRow / CAP ∨ (startRow + numRows - 1) / CAP < idx →
    getVectorVersionInfo idx vi' = getVectorVersionInfo idx vi) →
  range_becomes row_del t vi'.
Proof.
  intros Hn Hin Hout. split.
  - intros r Hrow. destruct (slices_row startRow numRows r Hn Hrow) as (s & n & Hsn & Hi).
    destruct (Hin _ _ _ Hsn) as (v' & Hget & Hb & _).
    rewrite (row_del_vector _ _ _ Hget). apply Hb, Hi.
  - intros r Hne. destruct (touched_or_same startRow numRows (r / CAP) Hn) as [(s & n & Hsn)|Hx].
    + destruct (Hin _ _ _ Hsn) as (v' & Hget & _ & Hkeep).
      rewrite (row_del_cur vi) in *. rewrite (row_del_vector _ _ _ Hget). apply Hkeep, Hne.
    + unfold row_del. rewrite Hout by exact Hx. reflexivity.
Qed.

(** Insertions that no touched vector changed. *)
Lemma row_ins_touched vi' r :
  0 < numRows → range_deleted →
  (∀ idx s n, (idx, s, n) ∈ vector_slices startRow numRows →
    ∃ v', getVectorVersionInfo idx vi' = Some v' ∧ same_insertions (cur vi idx) v') →
  (∀ idx, idx < startRow / CAP ∨ (startRow + numRows - 1) / CAP < idx →
    getVectorVersionInfo idx vi' = getVectorVersionInfo idx vi) →
  row_ins vi' r = row_ins vi r.
Proof.
  intros Hn Hr Hin Hout. destruct (touched_or_same startRow numRows (r / CAP) Hn) as [(s & n & Hsn)|Hx].
  - destruct (Hin _ _ _ Hsn) as (v' & Hget & Hsame).
    destruct (slice_deleted _ _ _ Hn Hr Hsn) as [Hcur _].
    rewrite (row_ins_vector _ _ _ Hget), (row_ins_vector _ _ _ Hcur). apply Hsame.
  - unfold row_ins. rewrite Hout by exact Hx. reflexivity.
Qed.

(** What an operation on the insertions, or on the deletions, of the range promises. *)
Definition insertions_set (t : Z) (vi' : VersionInfo) : Prop :=
  wf_chunk vi' ∧ (∀ r, row_del vi' r = row_del vi r) ∧ range_becomes row_ins t vi'.
Definition deletions_set (t : Z) (vi' : VersionInfo) : Prop :=
  wf_chunk vi' ∧ (∀ r, row_ins vi' r = row_ins vi r) ∧ range_becomes row_del t vi'.

Lemma range_nothing ver t : numRows = 0 → range_becomes ver t vi.
Proof. intros ->. split; [lia|auto]. Qed.

(** The operations of the range, from what the operation on one vector does. *)
Lemma insertions_set_by (op : nat → nat → M VectorVersionInfo unit) t :
  0 < numRows → range_inserted →
  (∀ idx s n, (idx, s, n) ∈ vector_slices startRow numRows →
    ∃ v', op s n (cur vi idx) = (Ok tt, v') ∧
      wf_vector v' ∧ same_deletions (cur vi idx) v' ∧ inserts_become T s n (cur vi idx) t v') →
  ∃ vi', for_each (vector_slices startRow numRows) (λ '(idx, s, n), on_vector idx (op s n)) vi =
      (Ok tt, vi') ∧ insertions_set t vi'.
Proof.
  intros Hn Hr Hop.
  destruct (for_row_range op (λ s n v v', wf_vector v' ∧ same_deletions v v' ∧
    inserts_become T s n v t v') startRow numRows vi Hn Hop) as (vi' & Hrun & Hin & Hout).
  exists vi'. split; [exact Hrun|]. split_and!.
  - eapply wf_chunk_touched; [exact Hn|exact Hwf| |exact Hout].
    intros idx s n Hsn. destruct (Hin _ _ _ Hsn) as (v' & Hget & H). exists v'. tauto.
  - intros r. eapply row_del_touched; [exact Hn| |exact Hout].
    intros idx s n Hsn. destruct (Hin _ _ _ Hsn) as (v' & Hget & H). exists v'. tauto.
  - apply range_inserts_become; [exact Hn|exact Hr| |exact Hout].
    intros idx s n Hsn. destruct (Hin _ _ _ Hsn) as (v' & Hget & H). exists v'. tauto.
Qed.

Lemma deletions_set_by (op : nat → nat → M VectorVersionInfo unit) t :
  0 < numRows → range_deleted →
  (∀ idx s n, (idx, s, n) ∈ vector_slices startRow numRows →
    ∃ v', op s n (cur vi idx) = (Ok tt, v') ∧
      wf_vector v' ∧ same_insertions (cur vi idx) v' ∧ deletes_become T s n (cur vi idx) t v') →
  ∃ vi', for_each (vector_slices startRow numRows) (λ '(idx, s, n), on_vector idx (op s n)) vi =
      (Ok tt, vi') ∧ deletions_set t vi'.
Proof.
  intros Hn Hr Hop.
  destruct (for_row_range op (λ s n v v', wf_vector v' ∧ same_insertions v v' ∧
    deletes_become T s n v t v') startRow numRows vi Hn Hop) as (vi' & Hrun & Hin & Hout).
  exists vi'. split; [exact Hrun|]. split_and!.
  - eapply wf_chunk_touched; [exact Hn|exact Hwf| |exact Hout].
    intros idx s n Hsn. destruct (Hin _ _ _ Hsn) as (v' & Hget & H). exists v'. tauto.
  - intros r. eapply row_ins_touched; [exact Hn|exact Hr| |exact Hout].
    intros idx s n Hsn. destruct (Hin _ _ _ Hsn) as (v' & Hget & H). exists v'. tauto.
  - apply range_deletes_become; [exact Hn| |exact Hout].
    intros idx s n Hsn. destruct (Hin _ _ _ Hsn) as (v' & Hget & H). exists v'. tauto.
Qed.

Lemma commitInsert_sets commitTS :
  is_commit_ts commitTS → range_inserted →
  ∃ vi', commitInsert startRow numRows commitTS vi = (Ok tt, vi') ∧ insertions_set commitTS vi'.
Proof.
  intros Hc Hr. unfold commitInsert. destruct (numRows =? 0) eqn:Hn; zbool.
  { exists vi. split; [reflexivity|]. split_and!; auto using range_nothing. }
  apply insertions_set_by; [lia|exact Hr|]. intros idx s n Hsn.
  destruct (slice_in_range startRow numRows _ _ _ ltac:(lia) Hsn) as (Hpos & Hcap & _).
  apply setInsertCommitTS_spec; try assumption; try solve_ts; [apply wf_cur, Hwf|].
  eapply slice_inserted; [lia|exact Hr|exact Hsn].
Qed.

Lemma rollbackInsert_sets :
  range_inserted →
  (∀ idx, startRow / CAP ≤ idx ≤ (startRow + numRows - 1) / CAP → deletedVersions (cur vi idx) = None) →
  ∃ vi', rollbackInsert startRow numRows vi = (Ok tt, vi') ∧ insertions_set INVALID_TRANSACTION vi'.
Proof.
  intros Hr Hd. unfold rollbackInsert. destruct (numRows =? 0) eqn:Hn; zbool.
  { exists vi. split; [reflexivity|]. split_and!; auto using range_nothing. }
  apply insertions_set_by; [lia|exact Hr|]. intros idx s n Hsn.
  destruct (slice_in_range startRow numRows _ _ _ ltac:(lia) Hsn) as (Hpos & Hcap & _).
  destruct (vector_slices_elem _ _ _ _ _ Hsn) as (Hidx & _ & _).
  apply (rollbackInsertions_spec T); try assumption; try solve_ts; [apply wf_cur, Hwf| |apply Hd; lia].
  eapply slice_inserted; [lia|exact Hr|exact Hsn].
Qed.

Lemma commitDelete_sets commitTS :
  range_deleted →
  ∃ vi', commitDelete startRow numRows commitTS vi = (Ok tt, vi') ∧ deletions_set commitTS vi'.
Proof.
  intros Hr. unfold commitDelete. destruct (numRows =? 0) eqn:Hn; zbool.
  { exists vi. split; [reflexivity|]. split_and!; auto using range_nothing. }
  apply deletions_set_by; [lia|exact Hr|]. intros idx s n Hsn.
  destruct (slice_in_range startRow numRows _ _ _ ltac:(lia) Hsn) as (Hpos & Hcap & _).
  apply setDeleteCommitTS_spec; try assumption; try solve_ts; [apply wf_cur, Hwf|].
  eapply slice_deleted; [lia|exact Hr|exact Hsn].
Qed.

Lemma rollbackDelete_sets :
  range_deleted →
  ∃ vi', rollbackDelete startRow numRows vi = (Ok tt, vi') ∧ deletions_set INVALID_TRANSACTION vi'.
Proof.
  intros Hr. unfold rollbackDelete. destruct (numRows =? 0) eqn:Hn; zbool.
  { exists vi. split; [reflexivity|]. split_and!; auto using range_nothing. }
  apply deletions_set_by; [lia|exact Hr|]. intros idx s n Hsn.
  destruct (slice_in_range startRow numRows _ _ _ ltac:(lia) Hsn) as (Hpos & Hcap & _).
  apply rollbackDeletions_spec; try assumption; try solve_ts; [apply wf_cur, Hwf|].
  eapply slice_deleted; [lia|exact Hr|exact Hsn].
Qed.

End Range.

(** C23. Committing a range of rows that a transaction has inserted publishes them: the call returns, the chunk
    stays well-formed, and afterwards exactly the readers that started at or after the commit timestamp see a
    row of the range that they do not see deleted; no reader's view of another transaction's rows changes. *)
Theorem commitInsert_publishes T startRow numRows commitTS vi :
  is_txn_id T → is_commit_ts commitTS → wf_chunk vi → range_inserted T startRow numRows vi →
  ∃ vi', commitInsert startRow numRows commitTS vi = (Ok tt, vi') ∧ wf_chunk vi' ∧
    (∀ startTS id r, is_reader startTS id → startRow ≤ r < startRow + numRows →
      row_visible startTS id vi' r =
        (commitTS <=? startTS)%Z && negb (sees startTS id (row_del vi r))) ∧
    (∀ startTS id r, row_ins vi r ≠ T → row_visible startTS id vi' r = row_visible startTS id vi r).
Proof.
  intros HT Hc Hwf Hr. destruct (commitInsert_sets T startRow numRows vi HT Hwf commitTS Hc Hr)
    as (vi' & Hrun & Hwf' & Hdel & Hin & Hother).
  exists vi'. split_and!; [exact Hrun|exact Hwf'| |].
  - intros startTS id r [_ Hid] Hrow. unfold row_visible, visible. rewrite Hin, Hdel by exact Hrow.
    unfold sees at 1. replace (commitTS =? id)%Z with false; [reflexivity|].
    symmetry. apply Z.eqb_neq. solve_ts.
  - intros startTS id r Hne. unfold row_visible. rewrite Hother, Hdel by exact Hne. reflexivity.
Qed.

(** Rolling back a transaction's insertions hides the rows of the range from every reader, and
    changes no reader's view of another transaction's rows. The deletions in the touched vectors have
    been undone before. *)
Theorem rollbackInsert_hides T startRow numRows vi :
  is_txn_id T → wf_chunk vi → range_inserted T startRow numRows vi →
  (∀ idx, startRow / CAP ≤ idx ≤ (startRow + numRows - 1) / CAP → deletedVersions (cur vi idx) = None) →
  ∃ vi', rollbackInsert startRow numRows vi = (Ok tt, vi') ∧ wf_chunk vi' ∧
    (∀ startTS id r, is_reader startTS id → startRow ≤ r < startRow + numRows →
      row_visible startTS id vi' r = false) ∧
    (∀ startTS id r, row_ins vi r ≠ T → row_visible startTS id vi' r = row_visible startTS id vi r).
Proof.
  intros HT Hwf Hr Hd. destruct (rollbackInsert_sets T startRow numRows vi HT Hwf Hr Hd)
    as (vi' & Hrun & Hwf' & Hdel & Hin & Hother).
  exists vi'. split_and!; [exact Hrun|exact Hwf'| |].
  - intros startTS id r Hid Hrow. unfold row_visible, visible. rewrite Hin by exact Hrow.
    rewrite sees_invalid by exact Hid. reflexivity.
  - intros startTS id r Hne. unfold row_visible. rewrite Hother, Hdel by exact Hne. reflexivity.
Qed.

(** Committing a transaction's deletions hides the rows of the range from exactly the readers that
    started at or after the commit timestamp. *)
Theorem commitDelete_publishes T startRow numRows commitTS vi :
  is_txn_id T → is_commit_ts commitTS → wf_chunk vi → range_deleted T startRow numRows vi →
  ∃ vi', commitDelete startRow numRows commitTS vi = (Ok tt, vi') ∧ wf_chunk vi' ∧
    (∀ startTS id r, is_reader startTS id → startRow ≤ r < startRow + numRows →
      row_visible startTS id vi' r =
        sees startTS id (row_ins vi r) && negb (commitTS <=? startTS)%Z) ∧
    (∀ startTS id r, row_del vi r ≠ T → row_visible startTS id vi' r = row_visible startTS id vi r).
Proof.
  intros HT Hc Hwf Hr. destruct (commitDelete_sets T startRow numRows vi HT Hwf commitTS Hr)
    as (vi' & Hrun & Hwf' & Hins & Hin & Hother).
  exists vi'. split_and!; [exact Hrun|exact Hwf'| |].
  - intros startTS id r [_ Hid] Hrow. unfold row_visible, visible. rewrite Hin, Hins by exact Hrow.
    unfold sees at 2. replace (commitTS =? id)%Z with false; [reflexivity|].
    symmetry. apply Z.eqb_neq. solve_ts.
  - intros startTS id r Hne. unfold row_visible. rewrite Hother, Hins by exact Hne. reflexivity.
Qed.

(** Rolling back a transaction's deletions restores the rows of the range for every reader that
    sees their insertion. *)
Theorem rollbackDelete_restores T startRow numRows vi :
  is_txn_id T → wf_chunk vi → range_deleted T startRow numRows vi →
  ∃ vi', rollbackDelete startRow numRows vi = (Ok tt, vi') ∧ wf_chunk vi' ∧
    (∀ startTS id r, is_reader startTS id → startRow ≤ r < startRow + numRows →
      row_visible startTS id vi' r = sees startTS id (row_ins vi r)) ∧
    (∀ startTS id r, row_del vi r ≠ T → row_visible startTS id vi' r = row_visible startTS id vi r).
Proof.
  intros HT Hwf Hr. destruct (rollbackDelete_sets T startRow numRows vi HT Hwf Hr)
    as (vi' & Hrun & Hwf' & Hins & Hin & Hother).
  exists vi'. split_and!; [exact Hrun|exact Hwf'| |].
  - intros startTS id r Hid Hrow. unfold row_visible, visible. rewrite Hin, Hins by exact Hrow.
    rewrite sees_invalid by exact Hid. apply andb_true_r.
  - intros startTS id r Hne. unfold row_visible. rewrite Hother, Hins by exact Hne. reflexivity.
Qed.

(** A chunk whose first rows a running transaction inserted, and one whose first rows it deleted. *)
Definition sample_inserted (T : Z) : VersionInfo :=
  MkVersionInfo [Some (MkVectorVersionInfo None None T INVALID_TRANSACTION INS_CHECK_VERSION NO_DELETED)].
Definition sample_deleted (T : Z) : VersionInfo :=
  MkVersionInfo [Some (MkVectorVersionInfo None (Some (write_range 0 3 T new_version_array))
    INVALID_TRANSACTION INVALID_TRANSACTION ALWAYS_INSERTED DEL_CHECK_VERSION)].

Abbreviation T1 := (START_TRANSACTION_ID + 1)%Z.

Lemma single_vector_wf v : wf_vector v → wf_chunk (MkVersionInfo [Some v]).
Proof.
  intros H idx v' Hv. destruct idx as [|idx]; [injection Hv as <-; exact H|discriminate].
Qed.

Lemma sample_inserted_wf : wf_chunk (sample_inserted T1).
Proof.
  apply single_vector_wf. constructor; cbn; try (intros; discriminate); try apply is_version_array_None;
    try congruence. intros _. reflexivity.
Qed.

Lemma sample_inserted_range : range_inserted T1 0 3 (sample_inserted T1).
Proof. intros r Hr. destruct r as [|[|[|r]]]; [reflexivity..|lia]. Qed.

Lemma sample_deleted_wf : wf_chunk (sample_deleted T1).
Proof.
  apply single_vector_wf. constructor; cbn [insertedVersions deletedVersions insertionStatus
    deletionStatus sameInsertionVersion sameDeletionVersion]; try (intros; discriminate);
    try apply is_version_array_None; try congruence; auto.
  - apply is_version_array_Some. rewrite length_write_range. apply length_new_version_array.
Qed.

Lemma sample_deleted_range : range_deleted T1 0 3 (sample_deleted T1).
Proof. intros r Hr. destruct r as [|[|[|r]]]; [vm_compute; reflexivity..|lia]. Qed.

Lemma commit_ts_7 : is_commit_ts 7.
Proof. solve_ts. Qed.

Lemma reader_5 : is_reader 5 (START_TRANSACTION_ID + 9).
Proof. split; solve_ts. Qed.

Lemma commitInsert_publishes_witness :
  ∃ vi', commitInsert 0 3 7 (sample_inserted T1) = (Ok tt, vi') ∧
    row_visible 5 (START_TRANSACTION_ID + 9) vi' 2 = false.
Proof.
  destruct (commitInsert_publishes T1 0 3 7 (sample_inserted T1) first_txn_id commit_ts_7
    sample_inserted_wf sample_inserted_range) as (vi' & Hrun & _ & Hvis & _).
  exists vi'. split; [exact Hrun|]. rewrite Hvis; [reflexivity|exact reader_5|lia].
Defined.

Lemma rollbackInsert_hides_witness :
  ∃ vi', rollbackInsert 0 3 (sample_inserted T1) = (Ok tt, vi') ∧
    row_visible 5 (START_TRANSACTION_ID + 9) vi' 2 = false.
Proof.
  destruct (rollbackInsert_hides T1 0 3 (sample_inserted T1) first_txn_id
    sample_inserted_wf sample_inserted_range) as (vi' & Hrun & _ & Hvis & _).
  - intros [|idx] _; reflexivity.
  - exists vi'. split; [exact Hrun|]. apply Hvis; [exact reader_5|lia].
Defined.

Lemma commitDelete_publishes_witness :
  ∃ vi', commitDelete 0 3 7 (sample_deleted T1) = (Ok tt, vi') ∧
    row_visible 5 (START_TRANSACTION_ID + 9) vi' 2 = true.
Proof.
  destruct (commitDelete_publishes T1 0 3 7 (sample_deleted T1) first_txn_id commit_ts_7
    sample_deleted_wf sample_deleted_range) as (vi' & Hrun & _ & Hvis & _).
  exists vi'. split; [exact Hrun|]. rewrite Hvis; [reflexivity|exact reader_5|lia].
Defined.

Lemma rollbackDelete_restores_witness :
  ∃ vi', rollbackDelete 0 3 (sample_deleted T1) = (Ok tt, vi') ∧
    row_visible 5 (START_TRANSACTION_ID + 9) vi' 2 = true.
Proof.
  destruct (rollbackDelete_restores T1 0 3 (sample_deleted T1) first_txn_id
    sample_deleted_wf sample_deleted_range) as (vi' & Hrun & _ & Hvis & _).
  exists vi'. split; [exact Hrun|]. rewrite Hvis; [reflexivity|exact reader_5|lia].
Defined.

(** ** Reading *)

Lemma row_visible_vector startTS id vi r v :
  getVectorVersionInfo (r / CAP) vi = Some v →
  row_visible startTS id vi r = visible startTS id (ins_version v (r mod CAP)) (del_version v (r mod CAP)).
Proof.
  intros H. unfold row_visible. rewrite (row_ins_vector _ _ _ H), (row_del_vector _ _ _ H). reflexivity.
Qed.

(** Rows of a vector without version information are visible to every reader. *)
Lemma row_visible_none startTS id vi r :
  is_reader startTS id → getVectorVersionInfo (r / CAP) vi = None → row_visible startTS id vi r = true.
Proof.
  intros Hr H. unfold row_visible, visible, row_ins, row_del. rewrite H.
  rewrite sees_invalid, sees_zero by exact Hr. reflexivity.
Qed.

(** The test for one row is snapshot visibility: the reader sees the insertion, and not the
    deletion. *)
Theorem isSelected_is_visibility startTS id r vi :
  wf_chunk vi → is_reader startTS id →
  ChunkVersion.isSelected startTS id r vi = Ok (row_visible startTS id vi r).
Proof.
  intros Hwf Hr. unfold ChunkVersion.isSelected, getQuotientRemainder.
  destruct (getVectorVersionInfo (r / CAP) vi) as [v|] eqn:Hv.
  - rewrite (row_visible_vector _ _ _ _ _ Hv).
    apply isSelected_spec; [exact (Hwf _ _ Hv)|exact Hr|apply vector_row_bound].
  - rewrite row_visible_none by assumption. reflexivity.
Qed.

Lemma isSelected_is_visibility_witness :
  ChunkVersion.isSelected 5 (START_TRANSACTION_ID + 9) 2 (sample_inserted T1) = Ok false.
Proof.
  rewrite (isSelected_is_visibility 5 (START_TRANSACTION_ID + 9) 2 (sample_inserted T1)
    sample_inserted_wf reader_5). reflexivity.
Defined.

Lemma filter_seq_add (f : nat → bool) n m :
  List.filter f (seq 0 (n + m)) =
    List.filter f (seq 0 n) ++ map (λ i, n + i) (List.filter (λ i, f (n + i)) (seq 0 m)).
Proof.
  rewrite seq_app, List.filter_app. f_equal. cbn. rewrite <- (map_add_seq n m).
  generalize (seq 0 m) as l. intros l. induction l as [|x l IH]; [reflexivity|].
  cbn. destruct (f (n + x)); cbn; rewrite IH; reflexivity.
Qed.

Lemma filter_ext_seq (f g : nat → bool) n :
  (∀ i, i < n → f i = g i) → List.filter f (seq 0 n) = List.filter g (seq 0 n).
Proof.
  intros H. apply List.filter_ext_in. intros i Hi%List.in_seq. apply H. lia.
Qed.

Lemma scan_adds_ext f g n outputPos sv sv' :
  (∀ i, i < n → f i = g i) → scan_adds f n outputPos sv sv' → scan_adds g n outputPos sv sv'.
Proof.
  intros H. unfold scan_adds. rewrite (filter_ext_seq f g n H). auto.
Qed.

Section ScanRows.
Context (startTS id : Z) (vi : VersionInfo).
Context (Hwf : wf_chunk vi) (Hreader : is_reader startTS id).

Lemma scan_vector_spec sv idx s n outputPos :
  SelVector.wf sv → selectedSize sv + n ≤ capacity sv →
  (state sv = STATIC → selectedSize sv = outputPos) →
  s + n ≤ CAP → 0 < n → row_exists vi (idx * CAP + s) →
  ∃ sv', scan_vector startTS id vi idx s n outputPos sv = (Ok tt, sv') ∧
    scan_adds (λ i, row_visible startTS id vi (idx * CAP + s + i)) n outputPos sv sv'.
Proof.
  intros Hsv Hcap Hout Hs Hn He. unfold row_exists in He.
  assert (Hq : ∀ i, i < n → (idx * CAP + s + i) / CAP = idx ∧ (idx * CAP + s + i) mod CAP = s + i).
  { intros i Hi. rewrite <- Nat.add_assoc, vector_row_div, vector_row_mod by lia. auto. }
  rewrite vector_row_div in He by lia. unfold scan_vector.
  destruct (getVectorVersionInfo idx vi) as [v|] eqn:Hv.
  - destruct (getSelVectorForScan_spec sv n outputPos Hsv Hcap Hout startTS id v s (Hwf _ _ Hv) Hreader
      Hs (He v eq_refl)) as (sv' & Hrun & Hadds).
    exists sv'. split; [exact Hrun|]. eapply scan_adds_ext; [|exact Hadds].
    intros i Hi. destruct (Hq i Hi) as [H1 H2]. cbv beta.
    rewrite (row_visible_vector _ _ _ _ v), H2; [reflexivity|]. rewrite H1. exact Hv.
  - destruct (scan_all_visible sv n outputPos Hsv Hcap Hout) as (sv' & Hrun & Hadds).
    exists sv'. split; [exact Hrun|]. eapply scan_adds_ext; [|exact Hadds].
    intros i Hi. destruct (Hq i Hi) as [H1 H2]. symmetry. apply row_visible_none; [exact Hreader|].
    rewrite H1. exact Hv.
Qed.

(** The loop over the vectors of the range. *)
Lemma scan_vectors_spec slices row last sv outputPos :
  contiguous row slices last →
  (∀ r, row ≤ r < last → row_exists vi r) →
  SelVector.wf sv → selectedSize sv + (last - row) ≤ capacity sv →
  (state sv = STATIC → selectedSize sv = outputPos) →
  ∃ sv', scan_vectors startTS id vi slices outputPos sv = (Ok (outputPos + (last - row)), sv') ∧
    scan_adds (λ i, row_visible startTS id vi (row + i)) (last - row) outputPos sv sv'.
Proof.
  revert row sv outputPos. induction slices as [|[[idx s] n] slices IH];
    intros row sv outputPos Hc He Hsv Hcap Hout.
  - cbn in Hc. subst row. rewrite Nat.sub_diag, Nat.add_0_r. exists sv. split; [reflexivity|].
    unfold scan_adds. cbn. rewrite app_nil_r, Nat.add_0_r. auto.
  - destruct Hc as (Hrow & Hn & Hs & Hc). pose proof (contiguous_bounds _ _ _ Hc) as Hle.
    destruct (scan_vector_spec sv idx s n outputPos) as (sv1 & Hrun1 & Hadds1);
      try assumption; [lia|rewrite <- Hrow; apply He; lia|].
    destruct Hadds1 as (Hsv1 & Hcap1 & Hsel1 & Hst1).
    assert (Hlen : selectedSize sv1 ≤ selectedSize sv + n).
    { rewrite <- (length_getSelectedPositions sv1 Hsv1), Hsel1, length_app, length_map,
        (length_getSelectedPositions sv Hsv).
      apply Nat.add_le_mono_l, (count_if_le _ n). }
    destruct (IH (row + n) sv1 (outputPos + n) Hc) as (sv2 & Hrun2 & Hsv2 & Hcap2 & Hsel2 & Hst2);
      [intros r Hr; apply He; lia|exact Hsv1|lia|exact Hst1|].
    exists sv2. split.
    + cbn [scan_vectors]. rewrite (M_bind_ok _ _ _ _ _ Hrun1), Hrun2. do 2 f_equal. lia.
    + split; [exact Hsv2|]. split; [congruence|]. split; [|intros H; rewrite (Hst2 H); lia].
      rewrite Hsel2, Hsel1, <- app_assoc. f_equal.
      replace (last - row) with (n + (last - (row + n))) by lia.
      rewrite filter_seq_add, map_app, List.map_map. subst row. f_equal.
      rewrite (filter_ext_seq _ (λ i, row_visible startTS id vi (idx * CAP + s + (n + i))))
        by (intros i _; f_equal; lia).
      apply List.map_ext. intros i. lia.
Qed.

End ScanRows.

(** C24. Scanning a row range none of whose vectors was rolled back computes exactly the rows visible to the
    reader, in order and whatever the representation of the vectors (no version information, a shared
    version, arrays): the selection vector holds the offsets of the visible rows, and [forEach] visits them.
    A vector all of whose insertions were rolled back has no rows any more ([row_exists]); the rollback
    also takes them from the rows of the chunked group, so they are not asked for. *)
Theorem getSelVectorToScan_selects_visible startTS id vi startRow numRows sv :
  wf_chunk vi → is_reader startTS id → SelVector.wf sv →
  0 < numRows ≤ capacity sv → (∀ r, startRow ≤ r < startRow + numRows → row_exists vi r) →
  ∃ sv', getSelVectorToScan startTS id vi startRow numRows sv = (Ok tt, sv') ∧ SelVector.wf sv' ∧
    forEach sv' =
      Ok (List.filter (λ i, row_visible startTS id vi (startRow + i)) (seq 0 numRows)).
Proof.
  intros Hwf Hr Hsv [Hn Hcap] He. unfold getSelVectorToScan.
  rewrite (proj2 (Nat.eqb_neq numRows 0)) by lia.
  destruct (setToUnfilteredSize_ok sv 0 Hsv ltac:(lia)) as (sv1 & Hrun1 & Hsv1 & Hcap1 & Hst1 & Hsel1).
  assert (Hsize : selectedSize sv1 = 0).
  { rewrite <- (length_getSelectedPositions sv1 Hsv1), Hsel1. reflexivity. }
  destruct (scan_vectors_spec startTS id vi Hwf Hr (vector_slices startRow numRows) startRow
    (startRow + numRows) sv1 0 (vector_slices_contiguous _ _ Hn) He Hsv1)
    as (sv2 & Hrun2 & Hsv2 & _ & Hsel2 & _); [lia|auto|].
  replace (startRow + numRows - startRow) with numRows in * by lia.
  exists sv2. split; [|split; [exact Hsv2|]].
  - rewrite (M_bind_ok _ _ _ _ _ Hrun1), (M_bind_ok _ _ _ _ _ Hrun2).
    unfold ku_assert. rewrite (proj2 (Nat.leb_le _ _)); [reflexivity|].
    destruct Hsv as (_ & [_ Hmax] & _). lia.
  - rewrite forEach_positions by exact Hsv2. rewrite Hsel2, Hsel1. cbn. f_equal. apply List.map_id.
Qed.

Lemma getSelVectorToScan_selects_visible_witness :
  ∃ sv', getSelVectorToScan 5 (START_TRANSACTION_ID + 9) (sample_deleted T1) 1 4 SelectionVector_default =
      (Ok tt, sv') ∧ forEach sv' = Ok [0; 1; 2; 3].
Proof.
  destruct (getSelVectorToScan_selects_visible 5 (START_TRANSACTION_ID + 9) (sample_deleted T1) 1 4
    SelectionVector_default sample_deleted_wf reader_5) as (sv' & Hrun & _ & Hsel).
  - apply wf_SelectionVector_new. pose proof vector_capacity_pos. lia.
  - split; [lia|]. apply Nat.leb_le. vm_compute. reflexivity.
  - intros r _ v. unfold sample_deleted. generalize (r / CAP) as idx.
    intros [|idx]; [intros [= <-]|]; discriminate.
  - exists sv'. split; [exact Hrun|]. rewrite Hsel. vm_compute. reflexivity.
Defined.

(** Why the rows have to exist: a vector that was rolled back is passed over without a filter, and the offsets of
    the rows behind it in the same scan move forward; here the visible row is at offset 1. *)
Example rolled_back_vector_shifts :
  let vi := MkVersionInfo [Some VectorVersionInfo_new; None] in
  row_visible 5 (START_TRANSACTION_ID + 9) vi (CAP - 1) = false ∧ row_visible 5 (START_TRANSACTION_ID + 9) vi CAP = true ∧
  forEach (getSelVectorToScan 5 (START_TRANSACTION_ID + 9) vi (CAP - 1) 2 SelectionVector_default).2 = Ok [0].
Proof. vm_compute. auto. Qed.

(** ** Counting deletions *)

Lemma count_if_seq_add (f : nat → bool) n m :
  count_if f (seq 0 (n + m)) = count_if f (seq 0 n) + count_if (λ i, f (n + i)) (seq 0 m).
Proof.
  unfold count_if. rewrite filter_seq_add, length_app, length_map. reflexivity.
Qed.

Section CountDeletions.
Context (startTS id : Z) (vi : VersionInfo).
Context (Hwf : wf_chunk vi) (Hreader : is_reader startTS id).

Lemma vector_deletions_spec idx s n :
  s + n ≤ CAP → 0 < n →
  match getVectorVersionInfo idx vi with
  | Some v => VectorVersion.getNumDeletions startTS id s n v
  | None => Ok 0
  end = Ok (count_if (λ i, sees startTS id (row_del vi (idx * CAP + s + i))) (seq 0 n)).
Proof.
  intros Hs Hn.
  assert (Hq : ∀ i, i < n → (idx * CAP + s + i) / CAP = idx ∧ (idx * CAP + s + i) mod CAP = s + i).
  { intros i Hi. rewrite <- Nat.add_assoc, vector_row_div, vector_row_mod by lia. auto. }
  destruct (getVectorVersionInfo idx vi) as [v|] eqn:Hv.
  - rewrite getNumDeletions_spec; [|exact (Hwf _ _ Hv)|exact Hreader|exact Hs]. f_equal.
    apply count_if_ext. intros i Hi%elem_of_seq. destruct (Hq i ltac:(lia)) as [H1 H2].
    rewrite (row_del_vector _ _ v), H2; [reflexivity|]. rewrite H1. exact Hv.
  - rewrite count_if_false; [reflexivity|]. intros i Hi%elem_of_seq.
    destruct (Hq i ltac:(lia)) as [H1 H2]. unfold row_del. rewrite H1, Hv.
    apply sees_invalid, Hreader.
Qed.

Lemma sum_deletions_spec slices row last :
  contiguous row slices last →
  sum_deletions startTS id vi slices =
    Ok (count_if (λ i, sees startTS id (row_del vi (row + i))) (seq 0 (last - row))).
Proof.
  revert row. induction slices as [|[[idx s] n] slices IH]; intros row Hc.
  - cbn in Hc. subst row. rewrite Nat.sub_diag. reflexivity.
  - destruct Hc as (-> & Hn & Hs & Hc). pose proof (contiguous_bounds _ _ _ Hc) as Hle.
    cbn [sum_deletions]. rewrite vector_deletions_spec by assumption.
    unfold mbind, outcome_bind. rewrite (IH _ Hc). f_equal.
    replace (last - (idx * CAP + s)) with (n + (last - (idx * CAP + s + n))) by lia.
    rewrite count_if_seq_add. f_equal. apply count_if_ext. intros i _. do 2 f_equal. lia.
Qed.

End CountDeletions.

(** Counting deletions counts the rows of the range whose deletion the reader sees. *)
Theorem getNumDeletions_counts startTS id startRow numRows vi :
  wf_chunk vi → is_reader startTS id →
  ChunkVersion.getNumDeletions startTS id startRow numRows vi =
    Ok (count_if (λ i, sees startTS id (row_del vi (startRow + i))) (seq 0 numRows)).
Proof.
  intros Hwf Hr. unfold ChunkVersion.getNumDeletions. destruct (numRows =? 0) eqn:Hn; zbool.
  { subst. reflexivity. }
  rewrite (sum_deletions_spec startTS id vi Hwf Hr _ startRow (startRow + numRows)).
  - do 2 f_equal. f_equal. lia.
  - apply vector_slices_contiguous. lia.
Qed.

Lemma getNumDeletions_counts_witness :
  ChunkVersion.getNumDeletions 5 (START_TRANSACTION_ID + 1) 1 4 (sample_deleted T1) = Ok 2.
Proof.
  rewrite (getNumDeletions_counts 5 (START_TRANSACTION_ID + 1) 1 4 (sample_deleted T1) sample_deleted_wf
    (conj (proj1 reader_5) first_txn_id)). vm_compute. reflexivity.
Defined.

(** ** Persisting the versions of a chunk *)

Definition wf_persisted (vi : VersionInfo) : Prop :=
  is_u64 (Z.of_nat (length (vectorsInfo vi))) ∧
  ∀ v, Some v ∈ vectorsInfo vi → wf_vector v ∧ u64_versions v.

Lemma decodes_vectors dbg l bs :
  (∀ v, Some v ∈ l → wf_vector v ∧ u64_versions v) →
  serialize_vectors dbg l = Ok bs → decodes (deserialize_vectors dbg (length l)) bs l.
Proof.
  revert bs. induction l as [|o l IH]; intros bs Hl Hs.
  - apply Ok_inj in Hs as <-. apply decodes_ret.
  - cbn [serialize_vectors] in Hs. unfold mbind, outcome_bind in Hs.
    destruct (serialize_vectors dbg l) as [rest|e] eqn:Hrest.
    2: { destruct o as [v|]; [destruct (VectorVersion.serialize dbg v)|]; discriminate. }
    assert (Htail : decodes (deserialize_vectors dbg (length l)) rest l).
    { apply IH; [|reflexivity]. intros v Hv. apply Hl. right. exact Hv. }
    cbn [length deserialize_vectors]. destruct o as [v|].
    + destruct (VectorVersion.serialize dbg v) as [vb|e] eqn:Hvb; [|discriminate].
      apply Ok_inj in Hs as <-. rewrite <- !app_assoc.
      eapply decodes_bind; [solve_decode|]. eapply decodes_bind; [apply decodes_bool|].
      destruct (Hl v ltac:(left)) as [Hwf Hu]. rewrite (app_assoc _ vb rest).
      eapply decodes_bind; [eapply decodes_bind; [solve_decode|] |].
      * apply (decodes_bind_ret _ Some). exact (deSerialize_serialize dbg v vb Hwf Hu Hvb).
      * apply decodes_bind_ret, Htail.
    + apply Ok_inj in Hs as <-. rewrite <- !app_assoc.
      eapply decodes_bind; [solve_decode|]. eapply decodes_bind; [apply decodes_bool|].
      eapply decodes_bind_nil; [apply decodes_ret|]. apply (decodes_bind_ret _ (cons None)), Htail.
Qed.

(** Round trip: the versions of a chunk that [serialize] accepts are read back as the same
    object, from a stream that starts with the written bytes; the rest of the stream is left. Both
    with and without the debugging strings. *)
Theorem deserialize_serialize dbg vi bs :
  wf_persisted vi → ChunkVersion.serialize dbg vi = Ok bs →
  ∀ rest, ChunkVersion.deserialize dbg (bs ++ rest) = (Ok vi, rest).
Proof.
  intros [Hlen Hl] Hs. destruct vi as [l]. cbn [vectorsInfo] in *.
  unfold ChunkVersion.serialize in Hs. cbn [vectorsInfo] in Hs. unfold mbind, outcome_bind in Hs.
  destruct (serialize_vectors dbg l) as [vs|e] eqn:Hvs; [|discriminate].
  apply Ok_inj in Hs as <-. change (decodes (ChunkVersion.deserialize dbg)
    (writeDebuggingInfo dbg "vectors_info_size" ++ serializeValue 8 (Z.of_nat (length l)) ++ vs)
    (MkVersionInfo l)).
  unfold ChunkVersion.deserialize. eapply decodes_bind; [solve_decode|].
  eapply decodes_bind; [apply decodes_u64, Hlen|]. rewrite Nat2Z.id.
  apply (decodes_bind_ret _ MkVersionInfo), decodes_vectors; assumption.
Qed.

(** A checkpointed chunk: the second of two vectors has a deleted row. *)
Definition sample_persisted : VersionInfo :=
  MkVersionInfo [None; Some (MkVectorVersionInfo None (Some (write_range 0 3 7%Z new_version_array))
    INVALID_TRANSACTION INVALID_TRANSACTION ALWAYS_INSERTED DEL_CHECK_VERSION)].

Lemma sample_persisted_wf : wf_persisted sample_persisted.
Proof.
  split; [vm_compute; split; [discriminate|reflexivity]|].
  intros v Hv. unfold sample_persisted, vectorsInfo in Hv.
  apply elem_of_cons in Hv as [Hv|Hv]; [discriminate|].
  apply list_elem_of_singleton in Hv. apply (inj Some) in Hv as ->. split.
  - constructor; cbn [insertedVersions deletedVersions insertionStatus
      deletionStatus sameInsertionVersion sameDeletionVersion]; try (intros; discriminate);
      try apply is_version_array_None; try congruence; auto.
    apply is_version_array_Some. rewrite length_write_range. apply length_new_version_array.
  - intros l Hl. apply (inj Some) in Hl as <-. apply Forall_forall. intros x Hx.
    apply list_elem_of_lookup in Hx as [i Hi].
    rewrite lookup_write_range in Hi
      by (rewrite length_new_version_array; apply Nat.leb_le; vm_compute; reflexivity).
    destruct (decide _); [apply (inj Some) in Hi as <-; solve_ts|].
    apply lookup_replicate_1 in Hi as [-> _]. solve_ts.
Qed.

Lemma sample_persisted_written : is_ok (ChunkVersion.serialize false sample_persisted) = true.
Proof. vm_compute. reflexivity. Qed.

Lemma deserialize_serialize_witness :
  ∃ bs, ChunkVersion.serialize false sample_persisted = Ok bs ∧
    ChunkVersion.deserialize false (bs ++ [42%Z]) = (Ok sample_persisted, [42%Z]).
Proof.
  destruct (is_ok_Ok _ sample_persisted_written) as [bs Hs].
  exists bs. split; [exact Hs|]. apply deserialize_serialize; [exact sample_persisted_wf|exact Hs].
Defined.
