(* ===== verification/UpdateInfo.v ===== *)
(** * Versioned updates of a column chunk

    storage/table/update_info.{h,cpp}: an [UpdateInfo] keeps, per vector of rows, a chain of
    [VectorUpdateInfo]s, newest first; each holds the rows one transaction updated and their new
    values. A reader merges the versions it may see. UpdateSpec proves that this implements
    snapshot reads.

    A chain is a list: [prev] is the tail, and [next] is null exactly at the head. [addr] stands for
    the identity of the object, which [commit] receives as a pointer. Values are of an arbitrary type
    [V]; the [ColumnChunkData] of a version maps slots to values. *)

From stdpp Require Import base numbers list gmap strings.
From Stdlib Require Import ZArith Lia.
From S2P Require Import Prelude.

Module UpdateInfo.

Section Defs.
Context {V : Type}.

(** [VectorUpdateInfo]; [numRowsUpdated] is the length of [rowsInVector], of which the code keeps
    DEFAULT_VECTOR_CAPACITY entries. *)
Record VectorUpdateInfo := MkVectorUpdateInfo {
  addr : nat;
  version : Z;
  rowsInVector : list nat;
  data : gmap nat V;
}.

Definition numRowsUpdated (info : VectorUpdateInfo) : nat := length (rowsInVector info).

Definition set_version (t : Z) (info : VectorUpdateInfo) : VectorUpdateInfo :=
  MkVectorUpdateInfo (addr info) t (rowsInVector info) (data info).

(** [UpdateNode::info]: the versions from the head of the chain. *)
#[local] Abbreviation UpdateNode := (list VectorUpdateInfo).

(** [UpdateInfo]; [nextAddr] is where the next version is allocated. *)
Record UpdateInfo := MkUpdateInfo {
  updates : list UpdateNode;
  nextAddr : nat;
}.

(** The constructor [UpdateInfo()]. *)
Definition UpdateInfo_new : UpdateInfo := MkUpdateInfo [] 0.

(** [UpdateNode::isEmpty], which is true for a node that has versions. *)
Definition isEmpty (node : UpdateNode) : bool := match node with [] => false | _ => true end.

Definition isSet (ui : UpdateInfo) : bool := match updates ui with [] => false | _ => true end.
Definition reset (ui : UpdateInfo) : UpdateInfo := MkUpdateInfo [] (nextAddr ui).
Definition getNumVectors (ui : UpdateInfo) : nat := length (updates ui).

(** [UpdateInfo::clearVectorInfo] *)
Definition clearVectorInfo (vectorIdx : nat) : M UpdateInfo unit :=
  ui ← get_state;
  if vectorIdx <? length (updates ui)
  then put_state (MkUpdateInfo (<[vectorIdx:=[]]> (updates ui)) (nextAddr ui))
  else raise (UndefinedBehaviour "updates").

(** [UpdateInfo::getOrCreateUpdateNode], as the nodes afterwards. *)
Definition ensure_node (vectorIdx : nat) (l : list UpdateNode) : list UpdateNode :=
  if length l <=? vectorIdx then l ++ replicate (vectorIdx + 1 - length l) [] else l.

(** The first slot of a version that holds a row. *)
Fixpoint index_of (row : nat) (rows : list nat) : option nat :=
  match rows with
  | [] => None
  | r :: rows' => if r =? row then Some 0 else S <$> index_of row rows'
  end.

Definition update_conflict : exn := RuntimeException "Write-write conflict of updating the same row.".

(** The traversal of [UpdateInfo::update]: the transaction's version in the chain, if any, and a
    throw when a version the transaction may not overwrite has the row. *)
Fixpoint find_version (id startTS : Z) (row : nat) (chain : UpdateNode)
    (vecUpdateInfo : option nat) : outcome (option nat) :=
  match chain with
  | [] => Ok vecUpdateInfo
  | current :: prev =>
      if (version current =? id)%Z then
        ku_assert_o (START_TRANSACTION_ID <=? version current)%Z ;;
        find_version id startTS row prev (Some (addr current))
      else if (startTS <? version current)%Z then
        if existsb (Nat.eqb row) (rowsInVector current) then Throw update_conflict
        else find_version id startTS row prev vecUpdateInfo
      else find_version id startTS row prev vecUpdateInfo
  end.

(** The write at the end of [UpdateInfo::update]: the row's slot is overwritten, or the row gets the
    next slot. *)
Definition write_value (row : nat) (value : V) (info : VectorUpdateInfo) : outcome VectorUpdateInfo :=
  match index_of row (rowsInVector info) with
  | Some i => Ok (MkVectorUpdateInfo (addr info) (version info) (rowsInVector info)
                    (<[i:=value]> (data info)))
  | None =>
      let n := numRowsUpdated info in
      if n <? DEFAULT_VECTOR_CAPACITY then
        Ok (MkVectorUpdateInfo (addr info) (version info) (rowsInVector info ++ [row])
              (<[n:=value]> (data info)))
      else Throw (UndefinedBehaviour "rowsInVector")
  end.

(** Writing through a pointer into the chain. *)
Fixpoint update_at (a : nat) (f : VectorUpdateInfo → outcome VectorUpdateInfo) (chain : UpdateNode) :
    outcome UpdateNode :=
  match chain with
  | [] => Throw (UndefinedBehaviour "VectorUpdateInfo")
  | info :: prev =>
      if addr info =? a then info' ← f info; Ok (info' :: prev)
      else prev' ← update_at a f prev; Ok (info :: prev')
  end.

(** [UpdateInfo::update], which returns the version it wrote to. *)
Definition update (id startTS : Z) (vectorIdx rowIdxInVector : nat) (value : V) : M UpdateInfo nat :=
  λ ui,
    let l := ensure_node vectorIdx (updates ui) in
    let chain := default [] (l !! vectorIdx) in
    match find_version id startTS rowIdxInVector chain None with
    | Throw e => (Throw e, MkUpdateInfo l (nextAddr ui))
    | Ok found =>
        let '(a, chain', next) :=
          match found with
          | Some a => (a, chain, nextAddr ui)
          | None => (nextAddr ui, MkVectorUpdateInfo (nextAddr ui) id [] ∅ :: chain, S (nextAddr ui))
          end in
        match update_at a (write_value rowIdxInVector value) chain' with
        | Throw e => (Throw e, MkUpdateInfo (<[vectorIdx:=chain']> l) next)
        | Ok chain'' => (Ok a, MkUpdateInfo (<[vectorIdx:=chain'']> l) next)
        end
    end.

(** The versions of a chain that [UpdateInfo::iterateVectorInfo] calls its function on, in order. *)
Fixpoint visible_versions (id startTS : Z) (chain : UpdateNode) : outcome (list VectorUpdateInfo) :=
  match chain with
  | [] => Ok []
  | current :: prev =>
      if (version current =? id)%Z || (version current <=? startTS)%Z then
        ku_assert_o
          (((version current =? id)%Z && (START_TRANSACTION_ID <=? version current)%Z) ||
           ((version current <=? startTS)%Z && (version current <? START_TRANSACTION_ID)%Z)) ;;
        rest ← visible_versions id startTS prev; Ok (current :: rest)
      else visible_versions id startTS prev
  end.

Definition iterateVectorInfo (id startTS : Z) (idx : nat) (ui : UpdateInfo) :
    outcome (list VectorUpdateInfo) :=
  match updates ui !! idx with
  | Some head => if isEmpty head then visible_versions id startTS head else Ok []
  | None => Ok []
  end.

(** [data->lookup(i, ...)] *)
Definition read_slot (info : VectorUpdateInfo) (i : nat) : outcome V :=
  match data info !! i with
  | Some v => Ok v
  | None => Throw (UndefinedBehaviour "data")
  end.

(** The function of [UpdateInfo::lookup], folded over the versions: the first one that has the row
    decides. *)
Fixpoint first_value (row : nat) (infos : list VectorUpdateInfo) : outcome (option V) :=
  match infos with
  | [] => Ok None
  | info :: infos' =>
      match index_of row (rowsInVector info) with
      | Some i => v ← read_slot info i; Ok (Some v)
      | None => first_value row infos'
      end
  end.

(** [UpdateInfo::lookup]: the value written to the output, or [None] when the output is left alone. *)
Definition lookup (id startTS : Z) (rowInChunk : nat) (ui : UpdateInfo) : outcome (option V) :=
  if negb (isSet ui) then Ok None
  else
    let '(vectorIdx, rowInVector) := getQuotientRemainder rowInChunk DEFAULT_VECTOR_CAPACITY in
    infos ← iterateVectorInfo id startTS vectorIdx ui;
    first_value rowInVector infos.

(** The function [iterateScan] applies to one version: [rowsUpdated] is the bitset of rows already
    merged; the result lists the calls of [readFromRowFunc]. *)
Fixpoint merge_rows (info : VectorUpdateInfo) (lo hi pos i : nat) (rows : list nat)
    (rowsUpdated : gset nat) : list (VectorUpdateInfo * nat * nat) * gset nat :=
  match rows with
  | [] => ([], rowsUpdated)
  | row :: rows' =>
      if (row <? lo) || (hi <=? row) then merge_rows info lo hi pos (S i) rows' rowsUpdated
      else
        let updatedRowIdx := row - lo in
        if bool_decide (updatedRowIdx ∈ rowsUpdated) then
          merge_rows info lo hi pos (S i) rows' rowsUpdated
        else
          let '(calls, done) :=
            merge_rows info lo hi pos (S i) rows' ({[updatedRowIdx]} ∪ rowsUpdated) in
          ((info, i, pos + updatedRowIdx) :: calls, done)
  end.

Fixpoint merge_versions (infos : list VectorUpdateInfo) (lo hi pos : nat) (rowsUpdated : gset nat) :
    list (VectorUpdateInfo * nat * nat) :=
  match infos with
  | [] => []
  | info :: infos' =>
      if (numRowsUpdated info =? 0) || (size rowsUpdated =? hi - lo)
      then merge_versions infos' lo hi pos rowsUpdated
      else
        let '(calls, done) := merge_rows info lo hi pos 0 (rowsInVector info) rowsUpdated in
        calls ++ merge_versions infos' lo hi pos done
  end.

(** The loop of [iterateScan] over the vectors, each with its range of rows. *)
Fixpoint scan_updates (id startTS : Z) (ui : UpdateInfo) (slices : list (nat * nat * nat))
    (posInVector : nat) : outcome (list (VectorUpdateInfo * nat * nat)) :=
  match slices with
  | [] => Ok []
  | (idx, lo, hi) :: slices' =>
      infos ← iterateVectorInfo id startTS idx ui;
      rest ← scan_updates id startTS ui slices' (posInVector + (hi - lo));
      Ok (merge_versions infos lo hi posInVector ∅ ++ rest)
  end.

Definition scan_slices (start numRows : nat) : list (nat * nat * nat) :=
  let '(startVectorIdx, startOffsetInVector) := getQuotientRemainder start DEFAULT_VECTOR_CAPACITY in
  let '(endVectorIdx, endOffsetInVector) :=
    getQuotientRemainder (start + numRows) DEFAULT_VECTOR_CAPACITY in
  map (λ idx, (idx, if idx =? startVectorIdx then startOffsetInVector else 0,
                    if idx =? endVectorIdx then endOffsetInVector else DEFAULT_VECTOR_CAPACITY))
    (seq startVectorIdx (endVectorIdx + 1 - startVectorIdx)).

(** [UpdateInfo::iterateScan]: the calls of [readFromRowFunc], in order. *)
Definition iterateScan (id startTS : Z) (startOffsetToScan numRowsToScan startPosInOutput : nat)
    (ui : UpdateInfo) : outcome (list (VectorUpdateInfo * nat * nat)) :=
  if negb (isSet ui) then Ok []
  else scan_updates id startTS ui (scan_slices startOffsetToScan numRowsToScan) startPosInOutput.

(** The calls write one value each into the output. *)
Fixpoint write_outputs (calls : list (VectorUpdateInfo * nat * nat)) (output : list V) :
    outcome (list V) :=
  match calls with
  | [] => Ok output
  | (info, i, pos) :: calls' =>
      v ← read_slot info i;
      if pos <? length output then write_outputs calls' (<[pos:=v]> output)
      else Throw (UndefinedBehaviour "output")
  end.

(** [UpdateInfo::scan], on the values of the output vector. *)
Definition scan (id startTS : Z) (offsetInChunk length : nat) (ui : UpdateInfo) (output : list V) :
    outcome (list V) :=
  calls ← iterateScan id startTS offsetInChunk length 0 ui;
  write_outputs calls output.

(** [UpdateInfo::scanCommitted], on the values of the output chunk. *)
Definition scanCommitted (id startTS : Z) (startOffsetInOutput startRowScanned numRows : nat)
    (ui : UpdateInfo) (output : list V) : outcome (list V) :=
  calls ← iterateScan id startTS startRowScanned numRows startOffsetInOutput ui;
  write_outputs calls output.

(** [UpdateInfo::hasUpdates] *)
Definition hasUpdates (id startTS : Z) (startRow numRows : nat) (ui : UpdateInfo) : outcome bool :=
  calls ← iterateScan id startTS startRow numRows 0 ui;
  Ok (match calls with [] => false | _ => true end).

(** [UpdateInfo::getNumUpdatedRows]: one set collects the rows of all vectors. *)
Fixpoint collect_rows (id startTS : Z) (nodes : list UpdateNode) (updatedRows : gset nat) :
    outcome (gset nat) :=
  match nodes with
  | [] => Ok updatedRows
  | node :: nodes' =>
      infos ← (if isEmpty node then visible_versions id startTS node else Ok []);
      collect_rows id startTS nodes' (list_to_set (infos ≫= rowsInVector) ∪ updatedRows)
  end.

Definition getNumUpdatedRows (id startTS : Z) (ui : UpdateInfo) : outcome nat :=
  rows ← collect_rows id startTS (updates ui) ∅; Ok (size rows).

(** [validateUpdateChain] *)
Definition validateUpdateChain (chain : UpdateNode) (info : nat) : bool :=
  existsb (λ c, addr c =? info) chain.

Definition no_node : exn := InternalException "UpdateInfo does not have update node for vector index".

(** [UpdateInfo::commit] *)
Definition commit (vectorIdx info : nat) (commitTS : Z) : M UpdateInfo unit :=
  ui ← get_state;
  match updates ui !! vectorIdx with
  | None => raise no_node
  | Some chain =>
      ku_assert (validateUpdateChain chain info) ;;
      chain' ← observe (λ _, update_at info (λ i, Ok (set_version commitTS i)) chain);
      put_state (MkUpdateInfo (<[vectorIdx:=chain']> (updates ui)) (nextAddr ui))
  end.

(** The chain without its first version that has the given version number. *)
Fixpoint unlink (v : Z) (chain : UpdateNode) : UpdateNode :=
  match chain with
  | [] => []
  | current :: prev => if (version current =? v)%Z then prev else current :: unlink v prev
  end.

(** [UpdateInfo::rollback] *)
Definition rollback (vectorIdx : nat) (v : Z) : M UpdateInfo unit :=
  ui ← get_state;
  match updates ui !! vectorIdx with
  | None => raise assert_failure
  | Some chain =>
      put_state (MkUpdateInfo (<[vectorIdx:=unlink v chain]> (updates ui)) (nextAddr ui))
  end.

End Defs.

Arguments VectorUpdateInfo : clear implicits.
Arguments UpdateInfo : clear implicits.

Abbreviation UpdateNode V := (list (VectorUpdateInfo V)).

End UpdateInfo.
