(* ===== verification/UpdateSpec.v ===== *)
(** * What the update chains mean

    [versions ui row] lists the versions of a row with their values, newest first. The reads are
    shown to return the newest version the reader sees: [lookup] for one row, and the scan, which
    merges whole versions vector by vector, for a range. *)

From stdpp Require Import base numbers list gmap strings sorting.
From Stdlib Require Import ZArith Lia.
From S2P Require Import Prelude VersionSpec UpdateInfo.
Import UpdateInfo.

Section Reading.
Context {V : Type}.
Implicit Types (info : VectorUpdateInfo V) (chain : UpdateNode V) (ui : UpdateInfo V).

(** The value a version holds for a row. *)
Definition info_value info (r : nat) : option V := index_of r (rowsInVector info) ≫= λ i, data info !! i.

(** The versions of a row in a chain, newest first. *)
Definition row_versions chain (r : nat) : list (Z * V) :=
  omap (λ info, pair (version info) <$> info_value info r) chain.

Definition chain_of ui (idx : nat) : UpdateNode V := default [] (updates ui !! idx).
Definition versions ui (row : nat) : list (Z * V) := row_versions (chain_of ui (row / CAP)) (row mod CAP).

(** The newest version of a list that a reader sees. *)
Definition newest_seen (startTS id : Z) (l : list (Z * V)) : option V :=
  snd <$> head (List.filter (λ p, sees startTS id p.1) l).

(** Each row has one slot, which holds a value, and the rows fit the array of the code. *)
Record wf_info info : Prop := {
  wf_rows_nodup : NoDup (rowsInVector info);
  wf_rows_bound : Forall (λ r, r < CAP) (rowsInVector info);
  wf_slots : ∀ i, i < numRowsUpdated info → is_Some (data info !! i);
}.

Definition wf_chain chain : Prop := Forall wf_info chain.
Definition wf_updates ui : Prop := Forall wf_chain (updates ui).

(** ** Slots *)

Lemma index_of_Some r rows i : index_of r rows = Some i → rows !! i = Some r.
Proof.
  revert i. induction rows as [|x rows IH]; cbn; intros i H; [discriminate|].
  destruct (x =? r) eqn:Hx; zbool; [subst; injection H as <-; reflexivity|].
  destruct (index_of r rows) as [j|]; [|discriminate]. injection H as <-. apply IH. reflexivity.
Qed.

Lemma index_of_None r rows : index_of r rows = None ↔ r ∉ rows.
Proof.
  induction rows as [|x rows IH]; cbn; [split; [intros _; apply not_elem_of_nil|auto]|].
  rewrite not_elem_of_cons. destruct (x =? r) eqn:Hx; zbool.
  - split; [discriminate|]. intros [H _]. congruence.
  - destruct (index_of r rows); cbn; rewrite <- IH; split; try discriminate; try (intros [_ ?]; discriminate);
      auto.
Qed.

Lemma index_of_elem r rows : r ∈ rows → ∃ i, index_of r rows = Some i ∧ i < length rows.
Proof.
  intros H. destruct (index_of r rows) as [i|] eqn:Hi.
  - exists i. split; [reflexivity|]. eapply lookup_lt_Some, index_of_Some, Hi.
  - apply index_of_None in Hi. contradiction.
Qed.

Lemma index_of_app r rows x :
  index_of r (rows ++ [x]) = match index_of r rows with
                             | Some i => Some i
                             | None => if x =? r then Some (length rows) else None
                             end.
Proof.
  induction rows as [|y rows IH]; cbn; [destruct (x =? r); reflexivity|].
  destruct (y =? r); [reflexivity|]. rewrite IH. destruct (index_of r rows); [reflexivity|].
  destruct (x =? r); reflexivity.
Qed.

Lemma existsb_elem r rows : existsb (Nat.eqb r) rows = true ↔ r ∈ rows.
Proof.
  rewrite List.existsb_exists. split.
  - intros (x & Hx & Heq). zbool. subst. apply list_elem_of_In, Hx.
  - intros H. exists r. split; [apply list_elem_of_In, H|apply Nat.eqb_refl].
Qed.

Lemma info_value_Some info r :
  wf_info info → r ∈ rowsInVector info →
  ∃ i v, index_of r (rowsInVector info) = Some i ∧ data info !! i = Some v ∧ info_value info r = Some v.
Proof.
  intros Hwf Hr. destruct (index_of_elem _ _ Hr) as (i & Hi & Hlt).
  destruct (wf_slots _ Hwf i Hlt) as [v Hv]. exists i, v. unfold info_value. rewrite Hi. auto.
Qed.

Lemma info_value_None info r : r ∉ rowsInVector info → info_value info r = None.
Proof. intros H. apply index_of_None in H. unfold info_value. rewrite H. reflexivity. Qed.

Lemma info_value_is_Some info r : wf_info info → is_Some (info_value info r) ↔ r ∈ rowsInVector info.
Proof.
  intros Hwf. destruct (decide (r ∈ rowsInVector info)) as [H|H].
  - destruct (info_value_Some info r Hwf H) as (i & v & _ & _ & Hv). rewrite Hv. split; eauto.
  - rewrite (info_value_None info r H). split; [intros [? ?]; discriminate|contradiction].
Qed.

Lemma row_versions_cons info chain r :
  row_versions (info :: chain) r =
    match info_value info r with
    | Some v => (version info, v) :: row_versions chain r
    | None => row_versions chain r
    end.
Proof. unfold row_versions. cbn. destruct (info_value info r); reflexivity. Qed.

Lemma row_versions_app c1 c2 r : row_versions (c1 ++ c2) r = row_versions c1 r ++ row_versions c2 r.
Proof. apply omap_app. Qed.

(** ** Reading one row *)

Lemma first_value_spec infos r :
  wf_chain infos → first_value r infos = Ok (snd <$> head (row_versions infos r)).
Proof.
  intros Hwf. induction Hwf as [|info infos Hi _ IH]; [reflexivity|].
  rewrite row_versions_cons. cbn. destruct (decide (r ∈ rowsInVector info)) as [H|H].
  - destruct (info_value_Some info r Hi H) as (i & v & Hidx & Hv & Hval).
    rewrite Hidx, Hval. unfold mbind, outcome_bind, read_slot. rewrite Hv. reflexivity.
  - rewrite (info_value_None info r H), (proj2 (index_of_None _ _) H). exact IH.
Qed.

(** The assertion of [iterateVectorInfo] holds for every reader. *)
Lemma visible_versions_spec id startTS chain :
  is_reader startTS id →
  visible_versions id startTS chain = Ok (List.filter (λ i, sees startTS id (version i)) chain).
Proof.
  intros [Hs Hid]. induction chain as [|info chain IH]; [reflexivity|]. cbn. unfold sees at 1.
  destruct ((version info =? id)%Z || (version info <=? startTS)%Z) eqn:H; [|exact IH].
  rewrite IH.
  replace (_ || _) with true; [reflexivity|]. symmetry. apply orb_true_iff.
  apply orb_true_iff in H as [H|H]; zbool; [left|right]; apply andb_true_iff; split;
    try apply Z.leb_le; try apply Z.ltb_lt; try apply Z.eqb_eq; solve_ts.
Qed.

Lemma row_versions_filter f chain r :
  row_versions (List.filter (λ i, f (version i)) chain) r =
    List.filter (λ p, f p.1) (row_versions chain r).
Proof.
  induction chain as [|info chain IH]; [reflexivity|]. cbn [List.filter].
  rewrite row_versions_cons. destruct (f (version info)) eqn:Hf.
  - rewrite row_versions_cons. destruct (info_value info r); cbn; rewrite ?Hf, IH; reflexivity.
  - destruct (info_value info r); cbn; rewrite ?Hf, IH; reflexivity.
Qed.

Lemma wf_chain_filter f chain : wf_chain chain → wf_chain (List.filter f chain).
Proof.
  intros H. induction H as [|info chain Hi Hc IH]; [constructor|]. cbn.
  destruct (f info); [constructor|]; assumption.
Qed.

Lemma wf_chain_of ui idx : wf_updates ui → wf_chain (chain_of ui idx).
Proof.
  intros H. unfold chain_of. destruct (updates ui !! idx) as [c|] eqn:Hc; cbn; [|constructor].
  eapply Forall_lookup_1; [exact H|exact Hc].
Qed.

Lemma iterateVectorInfo_spec id startTS idx ui :
  is_reader startTS id →
  iterateVectorInfo id startTS idx ui =
    Ok (List.filter (λ i, sees startTS id (version i)) (chain_of ui idx)).
Proof.
  intros Hr. unfold iterateVectorInfo, chain_of. destruct (updates ui !! idx) as [[|i c]|]; cbn [default];
    [reflexivity| |reflexivity]. apply visible_versions_spec, Hr.
Qed.

Lemma versions_unset ui row : isSet ui = false → versions ui row = [].
Proof. unfold isSet, versions, chain_of. destruct (updates ui); [reflexivity|discriminate]. Qed.

(** Reading a row returns the newest version the reader sees. *)
Lemma lookup_spec id startTS row ui :
  is_reader startTS id → wf_updates ui →
  UpdateInfo.lookup id startTS row ui = Ok (newest_seen startTS id (versions ui row)).
Proof.
  intros Hr Hwf. unfold UpdateInfo.lookup. destruct (isSet ui) eqn:Hset; cbn [negb].
  - unfold getQuotientRemainder. rewrite iterateVectorInfo_spec by exact Hr.
    unfold mbind, outcome_bind. rewrite first_value_spec by (apply wf_chain_filter, wf_chain_of, Hwf).
    rewrite row_versions_filter. reflexivity.
  - rewrite versions_unset by exact Hset. reflexivity.
Qed.

(** ** Scanning a range *)

(** The value the calls leave at an output position. *)
Fixpoint last_write (calls : list (VectorUpdateInfo V * nat * nat)) (p : nat) : option V :=
  match calls with
  | [] => None
  | (info, i, q) :: calls' =>
      match last_write calls' p with
      | Some v => Some v
      | None => if q =? p then data info !! i else None
      end
  end.

(** The calls read slots that hold values and write to [lo, hi). *)
Definition calls_within (lo hi : nat) (calls : list (VectorUpdateInfo V * nat * nat)) : Prop :=
  Forall (λ '(info, i, q), is_Some (data info !! i) ∧ lo ≤ q < hi) calls.

Lemma last_write_app c1 c2 p :
  last_write (c1 ++ c2) p = match last_write c2 p with Some v => Some v | None => last_write c1 p end.
Proof.
  induction c1 as [|[[info i] q] c1 IH]; cbn; [destruct (last_write c2 p); reflexivity|].
  rewrite IH. destruct (last_write c2 p); reflexivity.
Qed.

Lemma last_write_outside lo hi calls p :
  calls_within lo hi calls → p < lo ∨ hi ≤ p → last_write calls p = None.
Proof.
  intros H Hp. induction H as [|[[info i] q] calls [_ Hq] _ IH]; cbn; [reflexivity|].
  rewrite IH, (proj2 (Nat.eqb_neq q p)) by lia. reflexivity.
Qed.

Lemma write_outputs_spec calls output :
  calls_within 0 (length output) calls →
  ∃ out, write_outputs calls output = Ok out ∧ length out = length output ∧
    ∀ p, p < length output →
      out !! p = match last_write calls p with Some v => Some v | None => output !! p end.
Proof.
  revert output. induction calls as [|[[info i] q] calls IH]; intros output H.
  - exists output. cbn. auto.
  - apply Forall_cons in H as [[[v Hv] Hq] H]. cbn [write_outputs].
    unfold mbind, outcome_bind, read_slot. rewrite Hv, (proj2 (Nat.ltb_lt q _)) by lia.
    destruct (IH (<[q:=v]> output)) as (out & Hrun & Hlen & Hout); [rewrite length_insert; exact H|].
    rewrite length_insert in *. exists out. split; [exact Hrun|]. split; [exact Hlen|].
    intros p Hp. rewrite (Hout p Hp). cbn [last_write].
    destruct (last_write calls p); [reflexivity|]. destruct (q =? p) eqn:Heq; zbool.
    + subst. rewrite Hv. apply list_lookup_insert_eq, Hp.
    + apply list_lookup_insert_ne. exact Heq.
Qed.

Section MergeVector.
Context (lo hi pos : nat) (Hlo : lo ≤ hi).

Lemma merge_rows_done info i rows done k :
  k ∈ (merge_rows info lo hi pos i rows done).2 ↔ k ∈ done ∨ (k < hi - lo ∧ lo + k ∈ rows).
Proof.
  revert i done. induction rows as [|row rows IH]; intros i done; cbn [merge_rows].
  - cbn. rewrite elem_of_nil. tauto.
  - destruct ((row <? lo) || (hi <=? row)) eqn:Hout.
    + rewrite IH. apply orb_true_iff in Hout. rewrite elem_of_cons.
      assert (k < hi - lo → lo + k ≠ row) by (destruct Hout as [Hout|Hout]; zbool; lia). tauto.
    + zbool. destruct (bool_decide_reflect (row - lo ∈ done)) as [Hin|Hin].
      * rewrite IH, elem_of_cons. split; [tauto|]. intros [Hd|[Hk [Hd|Hd]]]; [tauto| |tauto].
        left. replace k with (row - lo) by lia. exact Hin.
      * specialize (IH (S i) ({[row - lo]} ∪ done)).
        destruct (merge_rows info lo hi pos (S i) rows _) as [calls done'] eqn:Hm. cbn in *.
        rewrite IH, elem_of_union, elem_of_singleton, elem_of_cons.
        assert (k = row - lo ↔ lo + k = row) by lia.
        assert (k = row - lo → k < hi - lo) by lia. tauto.
Qed.

Lemma merge_rows_within info i rows done :
  (∀ j, j < length rows → is_Some (data info !! (i + j))) →
  calls_within pos (pos + (hi - lo)) (merge_rows info lo hi pos i rows done).1.
Proof.
  revert i done. induction rows as [|row rows IH]; intros i done Hs; cbn [merge_rows]; [constructor|].
  assert (Hs' : ∀ j, j < length rows → is_Some (data info !! (S i + j))).
  { intros j Hj. replace (S i + j) with (i + S j) by lia. apply Hs. cbn. lia. }
  destruct ((row <? lo) || (hi <=? row)) eqn:Hout; [apply IH, Hs'|]. zbool.
  destruct (bool_decide _); [apply IH, Hs'|].
  specialize (IH (S i) ({[row - lo]} ∪ done) Hs').
  destruct (merge_rows info lo hi pos (S i) rows _) as [calls done']. constructor; [|exact IH].
  split; [|lia]. rewrite <- (Nat.add_0_r i). apply Hs. cbn. lia.
Qed.

(** A row not merged yet gets this version's value; the others are left. *)
Lemma merge_rows_writes info i rows done k :
  NoDup rows → k < hi - lo →
  last_write (merge_rows info lo hi pos i rows done).1 (pos + k) =
    if decide (k ∈ done) then None else index_of (lo + k) rows ≫= λ j, data info !! (i + j).
Proof.
  intros Hnd Hk. revert i done. induction Hnd as [|row rows Hfresh Hnd IH]; intros i done;
    cbn [merge_rows index_of]; [cbn; destruct (decide _); reflexivity|].
  assert (Hshift : ∀ o : option nat, (S <$> o) ≫= (λ j, data info !! (i + j)) =
    o ≫= λ j, data info !! (S i + j)).
  { intros [j|]; cbn; [|reflexivity]. f_equal. lia. }
  destruct ((row <? lo) || (hi <=? row)) eqn:Hout.
  - rewrite IH. rewrite (proj2 (Nat.eqb_neq row (lo + k))), Hshift; [reflexivity|].
    apply orb_true_iff in Hout as [Hout|Hout]; zbool; lia.
  - zbool. destruct (bool_decide_reflect (row - lo ∈ done)) as [Hin|Hin].
    + rewrite IH. destruct (row =? lo + k) eqn:Hrow; zbool; [|rewrite Hshift; reflexivity].
      replace k with (row - lo) by lia. rewrite !decide_True by exact Hin. reflexivity.
    + specialize (IH (S i) ({[row - lo]} ∪ done)).
      destruct (merge_rows info lo hi pos (S i) rows _) as [calls done'].
      cbn [fst last_write]. cbn [fst] in IH. rewrite IH.
      destruct (decide (k = row - lo)) as [->|Hne].
      * rewrite (decide_True (P := _ ∈ {[row - lo]} ∪ done)) by set_solver.
        rewrite Nat.eqb_refl, decide_False by exact Hin.
        rewrite (proj2 (Nat.eqb_eq row (lo + (row - lo)))) by lia. cbn. f_equal. lia.
      * rewrite (proj2 (Nat.eqb_neq (pos + (row - lo)) (pos + k))) by lia.
        rewrite (proj2 (Nat.eqb_neq row (lo + k))), Hshift by lia.
        destruct (decide (k ∈ done)) as [Hd|Hd].
        -- rewrite decide_True by set_solver. reflexivity.
        -- rewrite decide_False by set_solver. destruct (_ ≫= _); reflexivity.
Qed.

Lemma merge_versions_within infos done :
  wf_chain infos → calls_within pos (pos + (hi - lo)) (merge_versions infos lo hi pos done).
Proof.
  intros Hwf. revert done. induction Hwf as [|info infos Hi _ IH]; intros done; cbn; [constructor|].
  destruct (_ || _); [apply IH|].
  pose proof (merge_rows_within info 0 (rowsInVector info) done (wf_slots _ Hi)) as Hw.
  destruct (merge_rows info lo hi pos 0 (rowsInVector info) done) as [calls done'].
  apply Forall_app. split; [exact Hw|apply IH].
Qed.

(** All rows are merged when the bitset is full. *)
Lemma full_bitset (done : gset nat) k :
  (∀ j, j ∈ done → j < hi - lo) → size done = hi - lo → k < hi - lo → k ∈ done.
Proof.
  intros Hsub Hsize Hk. assert (Heq : done ≡ set_seq 0 (hi - lo)).
  { apply set_subseteq_size_equiv.
    - intros j Hj. apply elem_of_set_seq. specialize (Hsub j Hj). lia.
    - rewrite size_set_seq. lia. }
  apply Heq, elem_of_set_seq. lia.
Qed.

Lemma merge_versions_writes infos done k :
  wf_chain infos → (∀ j, j ∈ done → j < hi - lo) → k < hi - lo →
  last_write (merge_versions infos lo hi pos done) (pos + k) =
    if decide (k ∈ done) then None else snd <$> head (row_versions infos (lo + k)).
Proof.
  intros Hwf Hsub Hk. revert done Hsub. induction Hwf as [|info infos Hi Hwf IH]; intros done Hsub.
  - cbn. destruct (decide _); reflexivity.
  - rewrite row_versions_cons. cbn [merge_versions].
    destruct ((numRowsUpdated info =? 0) || (size done =? hi - lo)) eqn:Hskip.
    + rewrite IH by exact Hsub. destruct (decide (k ∈ done)) as [Hd|Hd]; [reflexivity|].
      apply orb_true_iff in Hskip as [H|H]; zbool.
      * apply nil_length_inv in H. unfold info_value. rewrite H. reflexivity.
      * destruct (Hd (full_bitset done k Hsub H Hk)).
    + pose proof (merge_rows_writes info 0 (rowsInVector info) done k (wf_rows_nodup _ Hi) Hk) as Hw.
      pose proof (λ j, merge_rows_done info 0 (rowsInVector info) done j) as Hdone.
      destruct (merge_rows info lo hi pos 0 (rowsInVector info) done) as [calls done'].
      cbn [fst snd] in *. rewrite last_write_app, IH by (intros j Hj; apply Hdone in Hj as [Hj|[Hj _]]; auto).
      rewrite Hw. change (index_of (lo + k) (rowsInVector info) ≫= _) with (info_value info (lo + k)).
      destruct (decide (k ∈ done)) as [Hd|Hd].
      * rewrite decide_True by (apply Hdone; auto). reflexivity.
      * destruct (decide (k ∈ done')) as [Hd'|Hd'].
        -- apply Hdone in Hd' as [Hd'|[_ Hin]]; [contradiction|].
           destruct (info_value_Some info _ Hi Hin) as (? & v & _ & _ & ->). reflexivity.
        -- rewrite info_value_None by (intros Hin; apply Hd', Hdone; auto).
           destruct (snd <$> _); reflexivity.
Qed.

End MergeVector.

(** The ranges of [iterateScan] cover the rows from [row] to [last]; the last one may be empty. *)
Fixpoint ranges_cover (row : nat) (slices : list (nat * nat * nat)) (last : nat) : Prop :=
  match slices with
  | [] => row = last
  | (idx, lo, hi) :: slices' =>
      row = idx * CAP + lo ∧ lo ≤ hi ≤ CAP ∧ ranges_cover (row + (hi - lo)) slices' last
  end.

Lemma ranges_cover_le row slices last : ranges_cover row slices last → row ≤ last.
Proof.
  revert row. induction slices as [|[[idx lo] hi] slices IH]; cbn; intros row H; [lia|].
  destruct H as (_ & _ & H). apply IH in H. lia.
Qed.

Lemma scan_slices_cover_from k sv so ev eo :
  ev = sv + k → so ≤ CAP → eo ≤ CAP → (sv = ev → so ≤ eo) →
  ranges_cover (sv * CAP + so)
    (map (λ idx, (idx, if idx =? sv then so else 0, if idx =? ev then eo else CAP)) (seq sv (S k)))
    (ev * CAP + eo).
Proof.
  revert sv so. induction k as [|k IH]; intros sv so Hev Hso Heo Hle.
  - assert (ev = sv) as -> by lia. specialize (Hle eq_refl). cbn [seq map ranges_cover].
    rewrite !Nat.eqb_refl. lia.
  - rewrite <- cons_seq. cbn [map ranges_cover]. rewrite Nat.eqb_refl.
    rewrite (proj2 (Nat.eqb_neq sv ev)) by lia. split; [reflexivity|]. split; [lia|].
    replace (sv * CAP + so + (CAP - so)) with (S sv * CAP + 0) by lia.
    rewrite (List.map_ext_in _
      (λ idx, (idx, if idx =? S sv then 0 else 0, if idx =? ev then eo else CAP))).
    + apply (IH (S sv) 0); lia.
    + intros v Hv%List.in_seq. rewrite (proj2 (Nat.eqb_neq v sv)) by lia.
      destruct (v =? S sv); reflexivity.
Qed.

Lemma scan_slices_cover start n : ranges_cover start (scan_slices start n) (start + n).
Proof.
  unfold scan_slices, getQuotientRemainder.
  pose proof (vector_row_split start) as Hs. pose proof (vector_row_split (start + n)) as He.
  pose proof (vector_row_bound start). pose proof (vector_row_bound (start + n)).
  assert (start / CAP ≤ (start + n) / CAP) by (apply Nat.Div0.div_le_mono; lia).
  pose proof (scan_slices_cover_from ((start + n) / CAP - start / CAP) (start / CAP) (start mod CAP)
    ((start + n) / CAP) ((start + n) mod CAP)) as Hc.
  rewrite <- Hs, <- He in Hc.
  replace (S ((start + n) / CAP - start / CAP)) with ((start + n) / CAP + 1 - start / CAP) in Hc by lia.
  apply Hc; [lia|lia|lia|]. intros Heq. rewrite Heq in Hs. lia.
Qed.

Section ScanRange.
Context (startTS id : Z) (ui : UpdateInfo V).
Context (Hreader : is_reader startTS id) (Hwf : wf_updates ui).

Definition seen_value (row : nat) : option V := newest_seen startTS id (versions ui row).

Lemma scan_updates_spec slices row last pos :
  ranges_cover row slices last →
  ∃ calls, scan_updates id startTS ui slices pos = Ok calls ∧
    calls_within pos (pos + (last - row)) calls ∧
    ∀ k, k < last - row → last_write calls (pos + k) = seen_value (row + k).
Proof.
  revert row pos. induction slices as [|[[idx lo] hi] slices IH]; intros row pos Hc.
  - cbn in Hc. subst. exists []. split; [reflexivity|]. split; [constructor|]. intros k Hk. lia.
  - destruct Hc as (-> & [Hlh Hcap] & Hc). pose proof (ranges_cover_le _ _ _ Hc) as Hle.
    destruct (IH _ (pos + (hi - lo)) Hc) as (rest & Hrun & Hin & Hval).
    set (seen := List.filter (λ i, sees startTS id (version i)) (chain_of ui idx)).
    assert (Hseen : wf_chain seen) by (apply wf_chain_filter, wf_chain_of, Hwf).
    exists (merge_versions seen lo hi pos ∅ ++ rest). split.
    { cbn. rewrite iterateVectorInfo_spec by exact Hreader. unfold mbind, outcome_bind.
      rewrite Hrun. reflexivity. }
    pose proof (merge_versions_within lo hi pos Hlh seen ∅ Hseen) as Hw. split.
    + apply Forall_app. split; (eapply Forall_impl; [eassumption|]); intros [[info i] q] [Hs Hq];
        (split; [exact Hs|lia]).
    + intros k Hk. rewrite last_write_app.
      destruct (decide (k < hi - lo)) as [Hlt|Hge].
      * rewrite (last_write_outside _ _ _ _ Hin) by lia.
        rewrite merge_versions_writes by (try assumption; intros j Hj; set_solver).
        rewrite decide_False by set_solver. unfold seen_value, newest_seen, versions.
        rewrite <- Nat.add_assoc, vector_row_div, vector_row_mod by lia.
        unfold seen. rewrite row_versions_filter. reflexivity.
      * replace (pos + k) with (pos + (hi - lo) + (k - (hi - lo))) by lia.
        rewrite Hval by lia. rewrite (last_write_outside _ _ _ _ Hw) by lia.
        replace (idx * CAP + lo + (hi - lo) + (k - (hi - lo))) with (idx * CAP + lo + k) by lia.
        destruct (seen_value _); reflexivity.
Qed.

Lemma iterateScan_spec start n pos :
  ∃ calls, iterateScan id startTS start n pos ui = Ok calls ∧ calls_within pos (pos + n) calls ∧
    ∀ k, k < n → last_write calls (pos + k) = seen_value (start + k).
Proof.
  unfold iterateScan. destruct (isSet ui) eqn:Hset; cbn [negb].
  - destruct (scan_updates_spec _ _ _ pos (scan_slices_cover start n)) as (calls & Hrun & Hin & Hval).
    replace (start + n - start) with n in * by lia. eauto.
  - exists []. split; [reflexivity|]. split; [constructor|]. intros k _. unfold seen_value.
    rewrite versions_unset by exact Hset. reflexivity.
Qed.

Lemma scan_spec_at start n pos output :
  pos + n ≤ length output →
  ∃ out, (calls ← iterateScan id startTS start n pos ui; write_outputs calls output) = Ok out ∧
    length out = length output ∧
    ∀ p, p < length output → out !! p =
      if decide (pos ≤ p < pos + n)
      then (match seen_value (start + (p - pos)) with Some v => Some v | None => output !! p end)
      else output !! p.
Proof.
  intros Hlen. destruct (iterateScan_spec start n pos) as (calls & Hrun & Hin & Hval).
  unfold mbind, outcome_bind. rewrite Hrun.
  destruct (write_outputs_spec calls output) as (out & Hw & Hl & Hout).
  { eapply Forall_impl; [exact Hin|]. intros [[info i] q] [Hs Hq]. split; [exact Hs|lia]. }
  exists out. split; [exact Hw|]. split; [exact Hl|]. intros p Hp. rewrite (Hout p Hp).
  destruct (decide (pos ≤ p < pos + n)) as [H|H].
  - replace p with (pos + (p - pos)) at 1 by lia. rewrite Hval by lia. reflexivity.
  - rewrite (last_write_outside _ _ _ _ Hin) by lia. reflexivity.
Qed.

End ScanRange.
End Reading.

(** * Snapshot isolation of updates

    Transactions drive an [UpdateInfo] the way the transaction manager, [ColumnChunk::update] and the
    undo buffer do: a transaction gets the next id and the last timestamp as its snapshot, each update
    pushes an undo record, commit replays the records with the next timestamp, rollback replays them
    backwards. The specification is a store that keeps committed write sets by timestamp and private
    write sets per transaction. The theorem: every sequence of commands gives the same responses on
    both, so readers get exactly their snapshot, conflicting writers are refused exactly when the
    first-updater-wins rule says so, and no assertion of the code fails. *)

Module UpdateProtocol.
Section Protocol.
Context {V : Type}.

(** ** The commands and their responses *)

Inductive cmd :=
  | Begin
  | Write (id : Z) (row : nat) (value : V)
  | Read (id : Z) (row : nat)
  | Scan (id : Z) (start : nat) (output : list V)
  | Commit (id : Z)
  | Rollback (id : Z).

Inductive response :=
  | Started (id : Z)
  | Done
  | Value (v : option V)
  | Values (l : list V)
  | Raised (e : exn)
  | NoSuchTransaction.

(** ** The implementation *)

(** A running transaction: its snapshot and its undo records (vector and version written). *)
Record txn := MkTxn { snapshot : Z; undo : list (nat * nat) }.

Record db := MkDb {
  info : UpdateInfo V;
  lastTimestamp : Z;
  lastTransactionID : Z;
  active : gmap Z txn;
}.

(** [TransactionManager]'s initial counters. *)
Definition db_new : db := MkDb UpdateInfo_new 1 START_TRANSACTION_ID ∅.

(** [ColumnChunk::update]: the row is split into vector and row, and an undo record is pushed. *)
Definition chunk_update (id : Z) (t : txn) (row : nat) (value : V) : M (UpdateInfo V) txn :=
  let vectorIdx := row / DEFAULT_VECTOR_CAPACITY in
  let rowIdxInVector := row mod DEFAULT_VECTOR_CAPACITY in
  a ← UpdateInfo.update id (snapshot t) vectorIdx rowIdxInVector value;
  mret (MkTxn (snapshot t) (undo t ++ [(vectorIdx, a)])).

(** [UndoBuffer::commit] and [UndoBuffer::rollback] on update records. *)
Definition commit_records (records : list (nat * nat)) (commitTS : Z) : M (UpdateInfo V) unit :=
  for_each records (λ '(vectorIdx, a), UpdateInfo.commit vectorIdx a commitTS).
Definition rollback_records (records : list (nat * nat)) (version : Z) : M (UpdateInfo V) unit :=
  for_each (rev records) (λ '(vectorIdx, _), UpdateInfo.rollback vectorIdx version).

Definition respond {A} (f : A → response) (o : outcome A) : response :=
  match o with Ok a => f a | Throw e => Raised e end.

Definition exec (c : cmd) (d : db) : response * db :=
  match c with
  | Begin =>
      let id := (lastTransactionID d + 1)%Z in
      (Started id, MkDb (info d) (lastTimestamp d) id
                     (<[id:=MkTxn (lastTimestamp d) []]> (active d)))
  | Write id row value =>
      match active d !! id with
      | None => (NoSuchTransaction, d)
      | Some t =>
          match chunk_update id t row value (info d) with
          | (Ok t', ui) =>
              (Done, MkDb ui (lastTimestamp d) (lastTransactionID d) (<[id:=t']> (active d)))
          | (Throw e, ui) =>
              (Raised e, MkDb ui (lastTimestamp d) (lastTransactionID d) (active d))
          end
      end
  | Read id row =>
      match active d !! id with
      | None => (NoSuchTransaction, d)
      | Some t => (respond Value (UpdateInfo.lookup id (snapshot t) row (info d)), d)
      end
  | Scan id start output =>
      match active d !! id with
      | None => (NoSuchTransaction, d)
      | Some t =>
          (respond Values (UpdateInfo.scan id (snapshot t) start (length output) (info d) output), d)
      end
  | Commit id =>
      match active d !! id with
      | None => (NoSuchTransaction, d)
      | Some t =>
          let ts := (lastTimestamp d + 1)%Z in
          let '(r, ui) := commit_records (undo t) ts (info d) in
          (respond (λ _, Done) r, MkDb ui ts (lastTransactionID d) (delete id (active d)))
      end
  | Rollback id =>
      match active d !! id with
      | None => (NoSuchTransaction, d)
      | Some t =>
          let '(r, ui) := rollback_records (undo t) id (info d) in
          (respond (λ _, Done) r,
           MkDb ui (lastTimestamp d) (lastTransactionID d) (delete id (active d)))
      end
  end.

Fixpoint run (cmds : list cmd) (d : db) : list response :=
  match cmds with
  | [] => []
  | c :: cmds' => let '(r, d') := exec c d in r :: run cmds' d'
  end.

(** ** The specification *)

Record store := MkStore {
  committed : list (Z * gmap nat V);        (* write sets by commit timestamp, newest first *)
  last : Z;
  lastID : Z;
  running : gmap Z (Z * gmap nat V);        (* snapshot and private writes of each transaction *)
}.

Definition store_new : store := MkStore [] 1 START_TRANSACTION_ID ∅.

(** The committed versions of a row, newest first. *)
Definition row_history (log : list (Z * gmap nat V)) (row : nat) : list (Z * V) :=
  omap (λ '(ts, w), pair ts <$> w !! row) log.

(** A transaction reads its own write, else the newest value committed in its snapshot. *)
Definition snapshot_read (s : store) (st : Z) (w : gmap nat V) (row : nat) : option V :=
  match w !! row with
  | Some v => Some v
  | None => snd <$> head (List.filter (λ p, (p.1 <=? st)%Z) (row_history (committed s) row))
  end.

(** First updater wins: another running transaction wrote the row, or one that committed after the
    snapshot did. *)
Definition write_conflict (s : store) (id st : Z) (row : nat) : bool :=
  bool_decide (map_Exists (λ id' '(_, w), id' ≠ id ∧ is_Some (w !! row)) (running s)) ||
  existsb (λ p, (st <? p.1)%Z) (row_history (committed s) row).

Definition exec_spec (c : cmd) (s : store) : response * store :=
  match c with
  | Begin =>
      let id := (lastID s + 1)%Z in
      (Started id, MkStore (committed s) (last s) id (<[id:=(last s, ∅)]> (running s)))
  | Write id row value =>
      match running s !! id with
      | None => (NoSuchTransaction, s)
      | Some (st, w) =>
          if write_conflict s id st row then (Raised update_conflict, s)
          else (Done, MkStore (committed s) (last s) (lastID s)
                        (<[id:=(st, <[row:=value]> w)]> (running s)))
      end
  | Read id row =>
      match running s !! id with
      | None => (NoSuchTransaction, s)
      | Some (st, w) => (Value (snapshot_read s st w row), s)
      end
  | Scan id start output =>
      match running s !! id with
      | None => (NoSuchTransaction, s)
      | Some (st, w) =>
          (Values (imap (λ i old, default old (snapshot_read s st w (start + i))) output), s)
      end
  | Commit id =>
      match running s !! id with
      | None => (NoSuchTransaction, s)
      | Some (st, w) =>
          let ts := (last s + 1)%Z in
          (Done, MkStore ((ts, w) :: committed s) ts (lastID s) (delete id (running s)))
      end
  | Rollback id =>
      match running s !! id with
      | None => (NoSuchTransaction, s)
      | Some (st, w) => (Done, MkStore (committed s) (last s) (lastID s) (delete id (running s)))
      end
  end.

Fixpoint run_spec (cmds : list cmd) (s : store) : list response :=
  match cmds with
  | [] => []
  | c :: cmds' => let '(r, s') := exec_spec c s in r :: run_spec cmds' s'
  end.

End Protocol.
End UpdateProtocol.
