(* ===== verification/UpdateSnapshot.v ===== *)
(** * The update chains implement the snapshot store

    The invariant that relates the chains to the specification of UpdateProtocol, its preservation by
    every command, and the theorem. *)

From stdpp Require Import base numbers list gmap sorting strings.
From Stdlib Require Import ZArith Lia.
From S2P Require Import Prelude VersionSpec UpdateInfo UpdateSpec.
Import UpdateInfo UpdateProtocol.

Lemma StronglySorted_impl_in {A} (R R' : A → A → Prop) l :
  (∀ x y, x ∈ l → y ∈ l → R x y → R' x y) → StronglySorted R l → StronglySorted R' l.
Proof.
  intros Himpl H. induction H as [|x l H IH Hx]; constructor.
  - apply IH. intros y z Hy Hz. apply Himpl; right; assumption.
  - rewrite Forall_forall in Hx. apply Forall_forall. intros y Hy.
    apply Himpl; [left|right; exact Hy|apply Hx, Hy].
Qed.

Lemma StronglySorted_fmap {A B} (f : A → B) (R : B → B → Prop) l :
  StronglySorted (λ x y, R (f x) (f y)) l → StronglySorted R (f <$> l).
Proof.
  intros H. induction H as [|x l H IH Hx]; cbn; constructor; [exact IH|].
  rewrite Forall_forall in Hx. apply Forall_forall.
  intros y (z & -> & Hz)%list_elem_of_fmap. apply Hx, Hz.
Qed.

Lemma StronglySorted_filter_bool {A} (R : A → A → Prop) (f : A → bool) l :
  StronglySorted R l → StronglySorted R (List.filter f l).
Proof.
  intros H. induction H as [|x l H IH Hx]; cbn; [constructor|].
  destruct (f x); [|exact IH]. constructor; [exact IH|].
  rewrite Forall_forall in Hx. apply Forall_forall. intros y Hy. apply Hx. apply list_elem_of_In in Hy.
  apply List.filter_In in Hy as [Hy _]. apply list_elem_of_In, Hy.
Qed.

Lemma elem_of_filter_bool {A} (f : A → bool) l x : x ∈ List.filter f l ↔ x ∈ l ∧ f x = true.
Proof. rewrite !list_elem_of_In. apply List.filter_In. Qed.

Lemma NoDup_fmap_filter_bool {A B} (g : A → B) (f : A → bool) l :
  NoDup (g <$> l) → NoDup (g <$> List.filter f l).
Proof.
  induction l as [|x l IH]; cbn; [auto|]. intros [Hx H]%NoDup_cons.
  destruct (f x); [|apply IH, H]. cbn. apply NoDup_cons. split; [|apply IH, H].
  intros (y & Heq & [Hy _]%elem_of_filter_bool)%list_elem_of_fmap.
  apply Hx, list_elem_of_fmap. eauto.
Qed.

Lemma bounded_nodup_length (l : list nat) n : NoDup l → Forall (λ x, x < n) l → length l ≤ n.
Proof.
  intros Hnd Hb. replace n with (length (seq 0 n)) by apply length_seq. apply submseteq_length, NoDup_submseteq; [exact Hnd|].
  intros x Hx. apply elem_of_seq. rewrite Forall_forall in Hb. specialize (Hb x Hx). lia.
Qed.

Section Chain.
Context {V : Type}.
Implicit Types (i : VectorUpdateInfo V) (chain : UpdateNode V).

(** ** Writing to a version *)

Lemma write_value_spec row (v : V) i :
  wf_info i → row < CAP →
  ∃ i', write_value row v i = Ok i' ∧ wf_info i' ∧ addr i' = addr i ∧ version i' = version i ∧
    ∀ r, info_value i' r = if decide (r = row) then Some v else info_value i r.
Proof.
  intros Hwf Hrow. unfold write_value. destruct (index_of row (rowsInVector i)) as [k|] eqn:Hk.
  - eexists. split; [reflexivity|]. split; [constructor; cbn|split; [reflexivity|split; [reflexivity|]]].
    + apply Hwf.
    + apply Hwf.
    + intros j Hj. destruct (decide (j = k)) as [->|Hne];
        [rewrite lookup_insert_eq; eauto|rewrite lookup_insert_ne by congruence; apply Hwf, Hj].
    + intros r. unfold info_value. cbn. destruct (decide (r = row)) as [->|Hne].
      * rewrite Hk. cbn. apply lookup_insert_eq.
      * destruct (index_of r (rowsInVector i)) as [j|] eqn:Hj; [|reflexivity]. cbn.
        apply lookup_insert_ne. intros ->. apply index_of_Some in Hj, Hk. congruence.
  - apply index_of_None in Hk as Hfresh.
    assert (Hlen : S (length (rowsInVector i)) ≤ CAP).
    { pose proof (bounded_nodup_length (rowsInVector i ++ [row]) CAP) as H.
      rewrite length_app in H. cbn in H. rewrite Nat.add_1_r in H. apply H.
      - apply NoDup_app. split; [apply Hwf|]. split; [|apply NoDup_singleton].
        intros x Hx ->%list_elem_of_singleton. contradiction.
      - apply Forall_app. split; [apply Hwf|]. constructor; [exact Hrow|constructor]. }
    unfold numRowsUpdated. rewrite (proj2 (Nat.ltb_lt _ _)) by lia.
    eexists. split; [reflexivity|]. split; [constructor; cbn|split; [reflexivity|split; [reflexivity|]]].
    + apply NoDup_app. split; [apply Hwf|]. split; [|apply NoDup_singleton].
      intros x Hx ->%list_elem_of_singleton. contradiction.
    + apply Forall_app. split; [apply Hwf|]. constructor; [exact Hrow|constructor].
    + unfold numRowsUpdated. cbn. intros j. rewrite length_app. cbn. intros Hj.
      destruct (decide (j = length (rowsInVector i))) as [->|Hne];
        [rewrite lookup_insert_eq; eauto|rewrite lookup_insert_ne by congruence].
      apply Hwf. unfold numRowsUpdated. lia.
    + intros r. unfold info_value. cbn. rewrite index_of_app.
      destruct (decide (r = row)) as [->|Hne].
      * rewrite Hk, Nat.eqb_refl. cbn. apply lookup_insert_eq.
      * rewrite (proj2 (Nat.eqb_neq row r)) by congruence.
        destruct (index_of r (rowsInVector i)) as [j|] eqn:Hj; [|reflexivity]. cbn.
        apply lookup_insert_ne. apply index_of_Some, lookup_lt_Some in Hj. lia.
Qed.

Lemma update_at_split f l1 i l2 (i' : VectorUpdateInfo V) :
  NoDup (addr <$> l1 ++ i :: l2) → f i = Ok i' →
  update_at (addr i) f (l1 ++ i :: l2) = Ok (l1 ++ i' :: l2).
Proof.
  intros Hnd Hf. induction l1 as [|x l1 IH]; cbn.
  - rewrite Nat.eqb_refl. unfold mbind, outcome_bind. rewrite Hf. reflexivity.
  - cbn in Hnd. apply NoDup_cons in Hnd as [Hx Hnd].
    rewrite (proj2 (Nat.eqb_neq (addr x) (addr i))).
    + unfold mbind, outcome_bind. rewrite IH by exact Hnd. reflexivity.
    + intros Heq. apply Hx. rewrite Heq, fmap_app. apply elem_of_app. right. left.
Qed.

(** ** Finding the transaction's version *)

(** A version of the row that stops transaction [id] from writing. *)
Definition conflicting (id st : Z) (p : Z * V) : bool := negb (p.1 =? id)%Z && (st <? p.1)%Z.

Lemma conflicting_pair id st t (v : V) :
  conflicting id st (t, v) = negb (t =? id)%Z && (st <? t)%Z.
Proof. reflexivity. Qed.

Lemma find_version_spec id st row chain acc :
  is_txn_id id → wf_chain chain →
  find_version id st row chain acc =
    if existsb (conflicting id st) (row_versions chain row) then Throw update_conflict
    else Ok (fold_left (λ acc i, if (version i =? id)%Z then Some (addr i) else acc) chain acc).
Proof.
  intros Hid Hwf. revert acc. induction Hwf as [|i chain Hi _ IH]; intros acc; [reflexivity|].
  rewrite row_versions_cons. cbn [find_version fold_left].
  destruct (version i =? id)%Z eqn:Hv; zbool.
  - unfold ku_assert_o. rewrite (proj2 (Z.leb_le _ _)) by solve_ts. cbn. rewrite IH.
    destruct (info_value i row); [|reflexivity]. cbn [existsb].
    rewrite conflicting_pair, (proj2 (Z.eqb_eq _ _) Hv). reflexivity.
  - destruct (st <? version i)%Z eqn:Hs.
    + destruct (existsb (Nat.eqb row) (rowsInVector i)) eqn:Hrow.
      * apply existsb_elem in Hrow. destruct (info_value_Some i row Hi Hrow) as (? & v & _ & _ & ->).
        cbn [existsb]. rewrite conflicting_pair, Hs, (proj2 (Z.eqb_neq _ _) Hv). reflexivity.
      * rewrite info_value_None; [apply IH|]. rewrite <- existsb_elem, Hrow. discriminate.
    + rewrite IH. destruct (info_value i row); [|reflexivity]. cbn [existsb].
      rewrite conflicting_pair, Hs, andb_false_r. reflexivity.
Qed.

Lemma fold_own_none id chain acc :
  Forall (λ i, version i ≠ id) chain →
  fold_left (λ acc i, if (version i =? id)%Z then Some (addr i) else acc) chain acc = acc.
Proof.
  intros H. revert acc. induction H as [|i chain Hi _ IH]; intros acc; cbn; [reflexivity|].
  rewrite (proj2 (Z.eqb_neq _ _) Hi). apply IH.
Qed.

Lemma fold_own_split id l1 i l2 acc :
  version i = id → Forall (λ i, version i ≠ id) l2 →
  fold_left (λ acc i, if (version i =? id)%Z then Some (addr i) else acc) (l1 ++ i :: l2) acc =
    Some (addr i).
Proof.
  intros Hi H2. rewrite List.fold_left_app. cbn. rewrite Hi, Z.eqb_refl. apply fold_own_none, H2.
Qed.

(** ** The invariant of a chain

    [snap] gives the snapshots of the running transactions. A version is committed or belongs to a
    running transaction; a running transaction has one version in the chain, and what is newer in the
    chain is not in its snapshot. *)

Definition newer (snap : gmap Z Z) (a b : Z) : Prop := ∀ st, snap !! b = Some st → a ≠ b ∧ (st < a)%Z.

Record chain_ok (snap : gmap Z Z) (lastTS : Z) (next : nat) chain : Prop := {
  co_wf : wf_chain chain;
  co_version : Forall (λ t, (0 < t ≤ lastTS)%Z ∨ is_Some (snap !! t)) (version <$> chain);
  co_order : StronglySorted (newer snap) (version <$> chain);
  co_nodup : NoDup (addr <$> chain);
  co_fresh : Forall (λ a, a < next) (addr <$> chain);
}.

Lemma chain_ok_nil snap lastTS next : chain_ok snap lastTS next [].
Proof. split; try constructor. Qed.

Lemma chain_ok_next snap lastTS next next' chain :
  next ≤ next' → chain_ok snap lastTS next chain → chain_ok snap lastTS next' chain.
Proof.
  intros Hle [? ? ? ? Hf]. split; try assumption. eapply Forall_impl; [exact Hf|]. cbn. intros. lia.
Qed.

(** A version of a running transaction splits the chain into newer and older versions of others. *)
Lemma chain_split snap lastTS next chain i st :
  chain_ok snap lastTS next chain → i ∈ chain → snap !! version i = Some st →
  ∃ l1 l2, chain = l1 ++ i :: l2 ∧ Forall (λ x, version x ≠ version i ∧ (st < version x)%Z) l1 ∧
    Forall (λ x, version x ≠ version i) l2.
Proof.
  intros Hok Hin Hst. apply list_elem_of_split in Hin as (l1 & l2 & ->). exists l1, l2.
  split; [reflexivity|]. pose proof (co_order _ _ _ _ Hok) as Hs.
  rewrite fmap_app, fmap_cons in Hs. split; apply Forall_forall; intros x Hx.
  - eapply StronglySorted_app_1_elem_of in Hs; [apply Hs, Hst| |left].
    apply list_elem_of_fmap. eauto.
  - apply StronglySorted_app_1_r in Hs. apply StronglySorted_inv in Hs as [_ Hs].
    rewrite Forall_forall in Hs. intros Heq.
    destruct (Hs (version x)) with (st := st); [apply list_elem_of_fmap; eauto|congruence|congruence].
Qed.

Definition new_version (next : nat) (id : Z) : VectorUpdateInfo V := MkVectorUpdateInfo next id [] ∅.

(** A new version at the head, for a transaction that has none in the chain. *)
Lemma push_ok snap lastTS next chain id st :
  chain_ok snap lastTS next chain → snap !! id = Some st →
  (∀ t s, snap !! t = Some s → (s < id)%Z) →
  Forall (λ x, version x ≠ id) chain →
  chain_ok snap lastTS (S next) (new_version next id :: chain).
Proof.
  intros [Hwf Hv Ho Hn Hf] Hst Hsnap Hown. split.
  - constructor; [|exact Hwf]. split; cbn; [constructor|constructor|]. intros j Hj.
    unfold numRowsUpdated in Hj. cbn in Hj. lia.
  - constructor; [right; cbn; eauto|exact Hv].
  - constructor; [exact Ho|]. apply Forall_forall. intros t (x & -> & Hx)%list_elem_of_fmap s Hs.
    rewrite Forall_forall in Hown. split; [|exact (Hsnap _ _ Hs)]. intros Heq. exact (Hown x Hx (eq_sym Heq)).
  - cbn. apply NoDup_cons. split; [|exact Hn]. intros Hin. rewrite Forall_forall in Hf.
    specialize (Hf _ Hin). lia.
  - constructor; [cbn; lia|]. eapply Forall_impl; [exact Hf|]. cbn. intros. lia.
Qed.

(** A version that keeps its number and its identity may change its rows. *)
Lemma replace_ok snap lastTS next l1 i i' l2 :
  chain_ok snap lastTS next (l1 ++ i :: l2) → wf_info i' → addr i' = addr i → version i' = version i →
  chain_ok snap lastTS next (l1 ++ i' :: l2).
Proof.
  intros [Hwf Hv Ho Hn Hf] Hi' Ha Hver.
  assert (Heq1 : version <$> l1 ++ i' :: l2 = version <$> l1 ++ i :: l2)
    by (rewrite !fmap_app, !fmap_cons, Hver; reflexivity).
  assert (Heq2 : addr <$> l1 ++ i' :: l2 = addr <$> l1 ++ i :: l2)
    by (rewrite !fmap_app, !fmap_cons, Ha; reflexivity).
  split; rewrite ?Heq1, ?Heq2; try assumption.
  apply Forall_app in Hwf as [H1 H2]. apply Forall_cons in H2 as [_ H2].
  apply Forall_app. split; [exact H1|]. constructor; assumption.
Qed.

(** ** A transaction's write in a chain *)

Lemma row_versions_elem chain r t v :
  (t, v) ∈ row_versions chain r ↔ ∃ i, i ∈ chain ∧ version i = t ∧ info_value i r = Some v.
Proof.
  unfold row_versions. rewrite list_elem_of_omap. split.
  - intros (i & Hi & Hv). destruct (info_value i r) eqn:H; [|discriminate]. injection Hv as <- <-. eauto.
  - intros (i & Hi & <- & Hv). exists i. rewrite Hv. auto.
Qed.

Lemma filter_id {A} (f : A → bool) l : (∀ x, x ∈ l → f x = true) → List.filter f l = l.
Proof.
  induction l as [|x l IH]; intros H; cbn; [reflexivity|].
  rewrite H by left. f_equal. apply IH. intros y Hy. apply H. right. exact Hy.
Qed.

Definition not_own (id : Z) (p : Z * V) : bool := negb (p.1 =? id)%Z.

Lemma not_own_others id l r :
  Forall (λ x, version x ≠ id) l → List.filter (not_own id) (row_versions l r) = row_versions l r.
Proof.
  intros H. apply filter_id. intros [t v] (i & Hi & <- & _)%row_versions_elem.
  rewrite Forall_forall in H. unfold not_own. cbn. rewrite (proj2 (Z.eqb_neq _ _) (H i Hi)). reflexivity.
Qed.

(** No newer version has a row that the transaction may write. *)
Lemma no_newer_rows id st l r :
  Forall (λ x, version x ≠ id ∧ (st < version x)%Z) l →
  existsb (conflicting id st) (row_versions l r) = false → row_versions l r = [].
Proof.
  intros H He. destruct (row_versions l r) as [|[t v] rest] eqn:Hl; [reflexivity|].
  assert (Hin : (t, v) ∈ row_versions l r) by (rewrite Hl; left).
  apply row_versions_elem in Hin as (i & Hi & <- & _).
  rewrite Forall_forall in H. destruct (H i Hi) as [H1 H2].
  cbn [existsb] in He. apply orb_false_iff in He as [He _].
  rewrite conflicting_pair, (proj2 (Z.eqb_neq _ _) H1), (proj2 (Z.ltb_lt _ _) H2) in He. discriminate.
Qed.

Definition has_version chain (a : nat) (id : Z) : Prop := ∃ i, i ∈ chain ∧ addr i = a ∧ version i = id.

Lemma has_version_app l1 l2 a id : has_version (l1 ++ l2) a id ↔ has_version l1 a id ∨ has_version l2 a id.
Proof. unfold has_version. setoid_rewrite elem_of_app. naive_solver. Qed.

Lemma has_version_cons i l a id :
  has_version (i :: l) a id ↔ (addr i = a ∧ version i = id) ∨ has_version l a id.
Proof. unfold has_version. setoid_rewrite elem_of_cons. naive_solver. Qed.

(** The chain after transaction [id] wrote [v] to [row], at version [a]. *)
Definition chain_written (id : Z) (row : nat) (v : V) (a : nat) chain chain' : Prop :=
  (∀ r, r ≠ row → row_versions chain' r = row_versions chain r) ∧
  row_versions chain' row = (id, v) :: List.filter (not_own id) (row_versions chain row) ∧
  (∀ a' id', has_version chain' a' id' ↔ has_version chain a' id' ∨ (a' = a ∧ id' = id)).

Section ChainWrite.
Context (snap : gmap Z Z) (lastTS : Z) (id st : Z) (row : nat) (v : V).
Context (Hid : snap !! id = Some st) (Hrow : row < CAP).

Lemma write_in_place next l1 i l2 :
  chain_ok snap lastTS next (l1 ++ i :: l2) → version i = id →
  existsb (conflicting id st) (row_versions (l1 ++ i :: l2) row) = false →
  Forall (λ x, version x ≠ id ∧ (st < version x)%Z) l1 → Forall (λ x, version x ≠ id) l2 →
  ∃ chain', update_at (addr i) (write_value row v) (l1 ++ i :: l2) = Ok chain' ∧
    chain_ok snap lastTS next chain' ∧ chain_written id row v (addr i) (l1 ++ i :: l2) chain'.
Proof.
  intros Hok Hver Hc H1 H2.
  assert (Hi : wf_info i). { pose proof (co_wf _ _ _ _ Hok) as H. unfold wf_chain in H. rewrite Forall_app, Forall_cons in H. tauto. }
  destruct (write_value_spec row v i Hi Hrow) as (i' & Hw & Hwf' & Ha & Hv' & Hval).
  exists (l1 ++ i' :: l2). split; [apply update_at_split; [apply (co_nodup _ _ _ _ Hok)|exact Hw]|].
  split; [eapply replace_ok; eassumption|].
  rewrite row_versions_app, existsb_app in Hc. apply orb_false_iff in Hc as [Hc1 _].
  pose proof (no_newer_rows id st l1 row H1 Hc1) as Hnil. split_and!.
  - intros r Hr. rewrite !row_versions_app, !row_versions_cons, Hval, Hv', decide_False by exact Hr.
    reflexivity.
  - rewrite !row_versions_app, Hnil, !row_versions_cons, Hval, Hv', Hver, decide_True by reflexivity.
    cbn [app]. f_equal. rewrite <- (not_own_others id l2 row H2) at 1.
    destruct (info_value i row); [|reflexivity]. cbn. unfold not_own at 2. cbn.
    rewrite Z.eqb_refl. reflexivity.
  - intros a' id'. rewrite !has_version_app, !has_version_cons, Ha, Hv'. naive_solver.
Qed.

(** The whole of [update] on one chain, when no version conflicts. *)
Lemma chain_write next chain :
  chain_ok snap lastTS next chain → is_txn_id id → (∀ t s, snap !! t = Some s → (s < id)%Z) →
  existsb (conflicting id st) (row_versions chain row) = false →
  ∃ found a chain1 next' chain', find_version id st row chain None = Ok found ∧
    (match found with
     | Some a => (a, chain, next)
     | None => (next, new_version next id :: chain, S next)
     end) = (a, chain1, next') ∧
    next ≤ next' ∧ update_at a (write_value row v) chain1 = Ok chain' ∧
    chain_ok snap lastTS next' chain' ∧ chain_written id row v a chain chain'.
Proof.
  intros Hok Htxn Hsnap Hc. rewrite find_version_spec, Hc by (try exact Htxn; apply Hok).
  destruct (decide (Exists (λ x, version x = id) chain)) as [Hown|Hown].
  - apply Exists_exists in Hown as (i & Hi & Hver).
    assert (Hid' : snap !! version i = Some st) by (rewrite Hver; exact Hid).
    destruct (chain_split _ _ _ _ _ _ Hok Hi Hid') as (l1 & l2 & -> & H1 & H2). rewrite Hver in H1, H2.
    destruct (write_in_place next l1 i l2 Hok Hver Hc H1 H2) as (chain' & Hu & Hok' & Hwr).
    exists (Some (addr i)), (addr i), (l1 ++ i :: l2), next, chain'.
    rewrite (fold_own_split id l1 i l2) by assumption.
    split_and!; try assumption; reflexivity.
  - assert (Hnone : Forall (λ x, version x ≠ id) chain).
    { apply Forall_forall. intros x Hx Hv. apply Hown, Exists_exists. eauto. }
    pose proof (push_ok _ _ _ _ id st Hok Hid Hsnap Hnone) as Hpush.
    destruct (write_in_place (S next) [] (new_version next id) chain Hpush eq_refl) as
      (chain' & Hu & Hok' & Hw1 & Hw2 & Hw3); [exact Hc|constructor|exact Hnone|].
    exists None, next, (new_version next id :: chain), (S next), chain'.
    rewrite fold_own_none by exact Hnone. split_and!; try assumption; try reflexivity; [lia|].
    split; [exact Hw1|]. split; [exact Hw2|]. intros a' id'. rewrite Hw3. cbn [app].
    rewrite has_version_cons. cbn. naive_solver.
Qed.

End ChainWrite.

(** ** Committing and rolling back a transaction's versions in a chain *)

Definition retag (id ts : Z) i : VectorUpdateInfo V :=
  if (version i =? id)%Z then set_version ts i else i.

Definition drop_own (id : Z) chain : UpdateNode V := List.filter (λ i, negb (version i =? id)%Z) chain.

Lemma retag_addr id ts chain : addr <$> (retag id ts <$> chain) = addr <$> chain.
Proof.
  rewrite <- list_fmap_compose. apply list_fmap_ext. intros _ i _. unfold compose, retag.
  destruct (_ =? _)%Z; reflexivity.
Qed.

Lemma retag_version id ts chain :
  version <$> (retag id ts <$> chain) = (λ t, if (t =? id)%Z then ts else t) <$> (version <$> chain).
Proof.
  rewrite <- !list_fmap_compose. apply list_fmap_ext. intros _ i _. unfold compose, retag.
  destruct (_ =? _)%Z; reflexivity.
Qed.

Lemma retag_value id ts i r : info_value (retag id ts i) r = info_value i r.
Proof. unfold retag. destruct (_ =? _)%Z; reflexivity. Qed.

Lemma retag_ok snap lastTS next chain id ts :
  chain_ok snap lastTS next chain → (∀ t s, snap !! t = Some s → is_txn_id t ∧ (s ≤ lastTS)%Z) →
  (0 < lastTS < ts)%Z → is_commit_ts ts →
  chain_ok (delete id snap) ts next (retag id ts <$> chain).
Proof.
  intros [Hwf Hv Ho Hn Hf] Hsnap Hlt Hts.
  split; rewrite ?retag_addr, ?retag_version; try assumption.
  - apply Forall_fmap. eapply Forall_impl; [exact Hwf|]. intros i [H1 H2 H3]. unfold compose, retag.
    destruct (_ =? _)%Z; split; assumption.
  - apply Forall_fmap. eapply Forall_impl; [exact Hv|]. intros t Ht. unfold compose.
    destruct (t =? id)%Z eqn:Heq; zbool; [left; lia|].
    destruct Ht as [Ht|Ht]; [left; lia|right]. rewrite lookup_delete_ne by congruence. exact Ht.
  - apply StronglySorted_fmap. eapply StronglySorted_impl_in; [|exact Ho].
    intros a b Ha Hb Hab s Hs. destruct (b =? id)%Z eqn:Hbid; zbool.
    + exfalso. apply lookup_delete_Some in Hs as [_ Hs]. apply Hsnap in Hs. solve_ts.
    + apply lookup_delete_Some in Hs as [_ Hs]. destruct (Hab _ Hs) as [H1 H2].
      apply Hsnap in Hs as [Hs1 Hs2]. destruct (a =? id)%Z; [solve_ts|auto].
Qed.

Lemma row_versions_retag id ts chain r :
  row_versions (retag id ts <$> chain) r =
    (λ p, if (p.1 =? id)%Z then (ts, p.2) else p) <$> row_versions chain r.
Proof.
  induction chain as [|i chain IH]; [reflexivity|]. cbn [fmap list_fmap].
  rewrite !row_versions_cons, retag_value. destruct (info_value i r); [|exact IH].
  cbn [fmap list_fmap]. rewrite <- IH. cbn. f_equal. unfold retag. destruct (_ =? _)%Z; reflexivity.
Qed.

Lemma drop_own_ok snap lastTS next chain id :
  chain_ok snap lastTS next chain → chain_ok (delete id snap) lastTS next (drop_own id chain).
Proof.
  intros [Hwf Hv Ho Hn Hf]. unfold drop_own.
  assert (Hver : version <$> List.filter (λ i, negb (version i =? id)%Z) chain =
    List.filter (λ t, negb (t =? id)%Z) (version <$> chain)).
  { clear. induction chain as [|i chain IH]; [reflexivity|]. cbn.
    destruct (negb _); cbn; rewrite IH; reflexivity. }
  split; rewrite ?Hver.
  - apply wf_chain_filter, Hwf.
  - apply Forall_forall. intros t [Ht Hne]%elem_of_filter_bool. zbool. rewrite Forall_forall in Hv.
    rewrite lookup_delete_ne by congruence. apply Hv, Ht.
  - apply StronglySorted_filter_bool. eapply StronglySorted_impl_in; [|exact Ho].
    intros a b _ _ Hab s Hs. apply lookup_delete_Some in Hs as [_ Hs]. apply Hab, Hs.
  - apply NoDup_fmap_filter_bool, Hn.
  - apply Forall_forall. intros a (i & -> & [Hi _]%elem_of_filter_bool)%list_elem_of_fmap.
    rewrite Forall_forall in Hf. apply Hf, list_elem_of_fmap. eauto.
Qed.

(** A running transaction has one version in a chain, so unlinking the first one removes it. *)
Lemma unlink_own snap lastTS next chain id st :
  chain_ok snap lastTS next chain → snap !! id = Some st → unlink id chain = drop_own id chain.
Proof.
  intros Hok Hid. pose proof (co_order _ _ _ _ Hok) as Ho. clear Hok.
  induction chain as [|i chain IH]; [reflexivity|]. cbn in *.
  apply StronglySorted_inv in Ho as [Ho Hi]. destruct (version i =? id)%Z eqn:Hv; zbool; cbn.
  - symmetry. apply filter_id. intros x Hx. apply negb_true_iff, Z.eqb_neq. intros Heq.
    rewrite Forall_forall in Hi. destruct (Hi (version x)) with (st := st) as [H _].
    + apply list_elem_of_fmap. eauto.
    + congruence.
    + congruence.
  - f_equal. apply IH, Ho.
Qed.

End Chain.

(** ** Replaying undo records *)

Section Replay.
Context {V : Type}.
Implicit Types (i : VectorUpdateInfo V) (chain : UpdateNode V) (ui : UpdateInfo V).

Definition tag1 (a : nat) (ts : Z) i : VectorUpdateInfo V := if addr i =? a then set_version ts i else i.

Lemma update_at_tag a ts chain :
  NoDup (addr <$> chain) → a ∈ addr <$> chain →
  update_at a (λ i, Ok (set_version ts i)) chain = Ok (tag1 a ts <$> chain).
Proof.
  intros Hnd (i & -> & Hi)%list_elem_of_fmap. apply list_elem_of_split in Hi as (l1 & l2 & ->).
  rewrite (update_at_split _ _ _ _ (set_version ts i) Hnd) by reflexivity. f_equal.
  assert (Hother : ∀ x, x ∈ l1 ∨ x ∈ l2 → tag1 (addr i) ts x = x).
  { intros x Hx. unfold tag1. rewrite (proj2 (Nat.eqb_neq _ _)); [reflexivity|]. intros Heq.
    rewrite fmap_app, fmap_cons in Hnd. apply NoDup_app in Hnd as (_ & Hd & [Hi2 _]%NoDup_cons).
    destruct Hx as [Hx|Hx].
    - apply (Hd (addr x)); [apply list_elem_of_fmap; eauto|]. rewrite Heq. left.
    - apply Hi2. rewrite <- Heq. apply list_elem_of_fmap. eauto. }
  rewrite fmap_app, fmap_cons. f_equal; [|f_equal].
  - symmetry. rewrite <- (list_fmap_id l1) at 2. apply list_fmap_ext. intros k x Hx. apply Hother.
    left. eapply list_elem_of_lookup_2, Hx.
  - unfold tag1. rewrite Nat.eqb_refl. reflexivity.
  - symmetry. rewrite <- (list_fmap_id l2) at 2. apply list_fmap_ext. intros k x Hx. apply Hother.
    right. eapply list_elem_of_lookup_2, Hx.
Qed.

Lemma validateUpdateChain_elem chain a : a ∈ addr <$> chain → validateUpdateChain chain a = true.
Proof.
  intros (i & -> & Hi)%list_elem_of_fmap. apply List.existsb_exists. exists i.
  split; [apply list_elem_of_In, Hi|apply Nat.eqb_refl].
Qed.

(** The versions of the records get the commit timestamp. *)
Definition tagged (records : list (nat * nat)) (ts : Z) (idx : nat) i : VectorUpdateInfo V :=
  if decide ((idx, addr i) ∈ records) then set_version ts i else i.

Lemma commit_records_spec records ts ui :
  (∀ idx chain, updates ui !! idx = Some chain → NoDup (addr <$> chain)) →
  (∀ idx a, (idx, a) ∈ records → ∃ chain, updates ui !! idx = Some chain ∧ a ∈ addr <$> chain) →
  ∃ ui', commit_records records ts ui = (Ok tt, ui') ∧ nextAddr ui' = nextAddr ui ∧
    ∀ idx, updates ui' !! idx =
      (λ chain : UpdateNode V, tagged records ts idx <$> chain : UpdateNode V) <$> updates ui !! idx.
Proof.
  revert ui. induction records as [|[idx a] records IH]; intros ui Hnd Hin.
  - exists ui. split; [reflexivity|]. split; [reflexivity|]. intros idx.
    destruct (updates ui !! idx); [|reflexivity]. cbn. f_equal. symmetry. apply list_fmap_id.
  - destruct (Hin idx a) as (chain & Hchain & Ha); [left|].
    set (ui1 := MkUpdateInfo (<[idx:=tag1 a ts <$> chain]> (updates ui)) (nextAddr ui)).
    assert (Hrun : UpdateInfo.commit idx a ts ui = (Ok tt, ui1)).
    { unfold UpdateInfo.commit. unfold_M. rewrite Hchain, validateUpdateChain_elem by exact Ha.
      rewrite update_at_tag by eauto. reflexivity. }
    assert (Hlt : idx < length (updates ui)) by (eapply lookup_lt_Some, Hchain).
    assert (Haddr : ∀ c : UpdateNode V, addr <$> (tag1 a ts <$> c) = addr <$> c).
    { intros c. rewrite <- list_fmap_compose. apply list_fmap_ext. intros _ x _. unfold compose, tag1.
      destruct (_ =? _); reflexivity. }
    assert (Hget : ∀ j, updates ui1 !! j =
      (λ c : UpdateNode V, if decide (j = idx) then tag1 a ts <$> c else c : UpdateNode V) <$>
        updates ui !! j).
    { intros j. unfold ui1. cbn [updates]. destruct (decide (j = idx)) as [->|Hne].
      - rewrite list_lookup_insert_eq, Hchain by exact Hlt. reflexivity.
      - rewrite list_lookup_insert_ne by congruence. destruct (updates ui !! j); reflexivity. }
    destruct (IH ui1) as (ui2 & Hrun2 & Hnext & Hup).
    + intros j c. rewrite Hget. destruct (updates ui !! j) as [c0|] eqn:Hc0; [|discriminate].
      intros [= <-]. destruct (decide (j = idx)); [rewrite Haddr|]; exact (Hnd _ _ Hc0).
    + intros j b Hb. destruct (Hin j b) as (c & Hc & Hbc); [right; exact Hb|].
      rewrite Hget, Hc. eexists. split; [reflexivity|].
      destruct (decide (j = idx)); [rewrite Haddr|]; exact Hbc.
    + exists ui2. split.
      { unfold commit_records.
        rewrite (for_each_cons_ok (idx, a) records _ ui ui1 Hrun). exact Hrun2. }
      split; [exact Hnext|]. intros j. rewrite Hup, Hget.
      destruct (updates ui !! j) as [c|]; [|reflexivity]. cbn. f_equal.
      destruct (decide (j = idx)) as [->|Hne].
      * rewrite <- list_fmap_compose. apply list_fmap_ext. intros _ x _. unfold compose, tagged, tag1.
        destruct (addr x =? a) eqn:Hx; zbool.
        -- subst. rewrite (decide_True (P := _ ∈ (_ :: _))) by left. cbn. destruct (decide _); reflexivity.
        -- apply decide_ext. rewrite elem_of_cons. naive_solver.
      * apply list_fmap_ext. intros _ x _. unfold tagged. apply decide_ext. rewrite elem_of_cons. naive_solver.
Qed.

Lemma drop_own_none id chain : Forall (λ x, version x ≠ id) chain → drop_own id chain = chain.
Proof.
  intros H. apply filter_id. intros x Hx. rewrite Forall_forall in H.
  apply negb_true_iff, Z.eqb_neq, H, Hx.
Qed.

Lemma unlink_none id chain : Forall (λ x, version x ≠ id) chain → unlink id chain = chain.
Proof.
  intros H. induction H as [|i chain Hi _ IH]; [reflexivity|]. cbn.
  rewrite (proj2 (Z.eqb_neq _ _) Hi), IH. reflexivity.
Qed.

Lemma drop_own_others id chain : Forall (λ x, version x ≠ id) (drop_own id chain).
Proof.
  apply Forall_forall. intros x [_ Hx]%elem_of_filter_bool. zbool. exact Hx.
Qed.

Lemma rollback_list_spec (records : list (nat * nat)) id ui :
  (∀ idx chain, updates ui !! idx = Some chain → unlink id chain = drop_own id chain) →
  (∀ idx a, (idx, a) ∈ records → is_Some (updates ui !! idx)) →
  ∃ ui', for_each records (λ '(idx, _), UpdateInfo.rollback idx id) ui = (Ok tt, ui') ∧
    nextAddr ui' = nextAddr ui ∧
    ∀ idx, updates ui' !! idx =
      (λ chain, if decide (idx ∈ records.*1) then drop_own id chain else chain) <$> updates ui !! idx.
Proof.
  revert ui. induction records as [|[idx a] records IH]; intros ui Hul Hin.
  - exists ui. split; [reflexivity|]. split; [reflexivity|]. intros idx.
    destruct (updates ui !! idx); reflexivity.
  - destruct (Hin idx a) as [chain Hchain]; [left|].
    set (ui1 := MkUpdateInfo (<[idx:=drop_own id chain]> (updates ui)) (nextAddr ui)).
    assert (Hrun : UpdateInfo.rollback idx id ui = (Ok tt, ui1)).
    { unfold UpdateInfo.rollback. unfold_M. rewrite Hchain, (Hul _ _ Hchain). reflexivity. }
    assert (Hlt : idx < length (updates ui)) by (eapply lookup_lt_Some, Hchain).
    assert (Hget : ∀ j, updates ui1 !! j =
      (λ c : UpdateNode V, if decide (j = idx) then drop_own id c else c) <$> updates ui !! j).
    { intros j. unfold ui1. cbn [updates]. destruct (decide (j = idx)) as [->|Hne].
      - rewrite list_lookup_insert_eq, Hchain by exact Hlt. reflexivity.
      - rewrite list_lookup_insert_ne by congruence. destruct (updates ui !! j); reflexivity. }
    destruct (IH ui1) as (ui2 & Hrun2 & Hnext & Hup).
    + intros j c. rewrite Hget. destruct (updates ui !! j) as [c0|] eqn:Hc0; [|discriminate].
      intros [= <-]. destruct (decide (j = idx)); [|exact (Hul _ _ Hc0)].
      rewrite unlink_none by apply drop_own_others. symmetry. apply drop_own_none, drop_own_others.
    + intros j b Hb. destruct (Hin j b) as [c Hc]; [right; exact Hb|]. rewrite Hget, Hc. cbn. eauto.
    + exists ui2. split; [rewrite (for_each_cons_ok (idx, a) records _ ui ui1 Hrun); exact Hrun2|].
      split; [exact Hnext|]. intros j. rewrite Hup, Hget.
      destruct (updates ui !! j) as [c|]; [|reflexivity]. cbn. f_equal.
      destruct (decide (j = idx)) as [->|Hne].
      * rewrite (decide_True (P := _ ∈ (_ :: _))) by left. destruct (decide _); [|reflexivity].
        apply drop_own_none, drop_own_others.
      * apply decide_ext. rewrite elem_of_cons. naive_solver.
Qed.

End Replay.

(** ** The simulation *)

(** Projects the fields of the two states. *)
Ltac db_simpl :=
  cbn [info lastTimestamp lastTransactionID active committed last lastID running snapshot undo fst snd].

Section Simulation.
Context {V : Type}.
Implicit Types (d : db (V := V)) (s : store (V := V)).

Definition snapshots s : gmap Z Z := fst <$> running s.

Lemma snapshots_lookup s id : snapshots s !! id = fst <$> running s !! id.
Proof. apply lookup_fmap. Qed.

(** The private versions of a row: at most one transaction has written it. *)
Definition private_ok (run : gmap Z (Z * gmap nat V)) (row : nat) (priv : list (Z * V)) : Prop :=
  length priv ≤ 1 ∧
  ∀ id v, (id, v) ∈ priv ↔ ∃ st w, run !! id = Some (st, w) ∧ w !! row = Some v.

(** The versions of a row in its chain are its private version, then its committed history. *)
Definition row_ok s (row : nat) (l : list (Z * V)) : Prop :=
  ∃ priv, l = priv ++ row_history (committed s) row ∧ private_ok (running s) row priv.

Record Inv d s : Prop := {
  inv_last : lastTimestamp d = last s;
  inv_lastID : lastTransactionID d = lastID s;
  inv_pos : (1 ≤ last s)%Z ∧ (START_TRANSACTION_ID ≤ lastID s)%Z;
  inv_active : snapshot <$> active d = snapshots s;
  inv_ids : ∀ id st, snapshots s !! id = Some st →
    (START_TRANSACTION_ID < id ≤ lastID s)%Z ∧ (0 ≤ st ≤ last s)%Z;
  inv_log : Forall (λ p, (0 < p.1 ≤ last s)%Z) (committed s);
  inv_chain : ∀ idx, chain_ok (snapshots s) (last s) (nextAddr (info d)) (chain_of (info d) idx);
  inv_row : ∀ row, row_ok s row (versions (info d) row);
  inv_undo : ∀ id t, active d !! id = Some t →
    ∀ idx a, (idx, a) ∈ undo t ↔ has_version (chain_of (info d) idx) a id;
}.

(** There are timestamps and identifiers left. *)
Definition room s : Prop := (last s + 1 < START_TRANSACTION_ID)%Z ∧ (lastID s + 1 < INVALID_TRANSACTION)%Z.

Lemma row_history_bound (log : list (Z * gmap nat V)) row t v lastTS :
  Forall (λ p, (0 < p.1 ≤ lastTS)%Z) log → (t, v) ∈ row_history log row → (0 < t ≤ lastTS)%Z.
Proof.
  intros H ([ts w] & Hin & Hv)%list_elem_of_omap. destruct (w !! row); [|discriminate].
  injection Hv as <- <-. rewrite Forall_forall in H. exact (H _ Hin).
Qed.

Section Given.
Context (d : db) (s : store) (Hinv : Inv d s) (Hroom : room s).

Lemma wf_info_updates : wf_updates (info d).
Proof.
  apply Forall_lookup. intros idx c Hc. pose proof (co_wf _ _ _ _ (inv_chain _ _ Hinv idx)) as H.
  unfold chain_of in H. rewrite Hc in H. exact H.
Qed.

Lemma active_running id :
  match active d !! id, running s !! id with
  | Some t, Some (st, w) => snapshot t = st
  | None, None => True
  | _, _ => False
  end.
Proof.
  pose proof (inv_active _ _ Hinv) as H. apply (f_equal (.!! id)) in H.
  rewrite lookup_fmap, snapshots_lookup in H.
  destruct (active d !! id), (running s !! id) as [[st w]|]; cbn in H;
    first [discriminate H | exact I | congruence].
Qed.

Lemma running_reader id st w : running s !! id = Some (st, w) → is_reader st id.
Proof.
  intros H. destruct (inv_ids _ _ Hinv id st) as [H1 H2]; [rewrite snapshots_lookup, H; reflexivity|].
  destruct Hroom. split; solve_ts.
Qed.

(** A row's versions: readers other than its writer see the committed ones of their snapshot. *)
Lemma read_row id st w row :
  running s !! id = Some (st, w) →
  newest_seen st id (versions (info d) row) = snapshot_read s st w row.
Proof.
  intros Hrun. pose proof (running_reader _ _ _ Hrun) as [Hst Hid].
  destruct (inv_row _ _ Hinv row) as (priv & -> & Hlen & Hpriv).
  assert (Hcom : List.filter (λ p, sees st id p.1) (row_history (committed s) row) =
    List.filter (λ p, (p.1 <=? st)%Z) (row_history (committed s) row)).
  { apply List.filter_ext_in. intros [t v] Hin%list_elem_of_In. cbn. unfold sees.
    pose proof (row_history_bound _ _ _ _ _ (inv_log _ _ Hinv) Hin) as Hb. destruct Hroom.
    rewrite (proj2 (Z.eqb_neq t id)) by solve_ts. reflexivity. }
  unfold newest_seen, snapshot_read. rewrite List.filter_app, Hcom.
  destruct priv as [|[t v] [|p priv]]; [| |cbn in Hlen; lia].
  - destruct (w !! row) as [v|] eqn:Hw; [|reflexivity].
    exfalso. apply (not_elem_of_nil (id, v)), Hpriv. eauto.
  - destruct (proj1 (Hpriv t v)) as (st' & w' & Hrun' & Hw'); [left|].
    cbn. unfold sees at 1. destruct (t =? id)%Z eqn:Ht; zbool.
    + subst. rewrite Hrun in Hrun'. injection Hrun' as <- <-. rewrite Hw'. reflexivity.
    + pose proof (running_reader _ _ _ Hrun') as [_ Hid']. cbn [orb].
      rewrite (proj2 (Z.leb_gt t st)) by solve_ts. cbn [app].
      destruct (w !! row) as [v'|] eqn:Hw; [|reflexivity]. exfalso.
      assert (Hin : (id, v') ∈ [(t, v)]) by (apply Hpriv; eauto).
      apply list_elem_of_singleton in Hin. congruence.
Qed.

(** The conflict test of the code is that of the specification. *)
Lemma conflict_row id st w row :
  running s !! id = Some (st, w) →
  existsb (conflicting id st) (versions (info d) row) = write_conflict s id st row.
Proof.
  intros Hrun. pose proof (running_reader _ _ _ Hrun) as [Hst Hid].
  destruct (inv_row _ _ Hinv row) as (priv & -> & Hlen & Hpriv).
  rewrite existsb_app. unfold write_conflict. f_equal.
  - apply eq_bool_prop_intro. rewrite bool_decide_spec, Is_true_true, List.existsb_exists. split.
    + intros ([t v] & Hin%list_elem_of_In & Hc). rewrite conflicting_pair in Hc. zbool.
      apply Hpriv in Hin as (st' & w' & Hrun' & Hw').
      exists t, (st', w'). split; [exact Hrun'|]. split; [assumption|eauto].
    + intros (t & [st' w'] & Hrun' & Hne & [v Hv]). exists (t, v). split.
      { apply list_elem_of_In, Hpriv. eauto. }
      pose proof (running_reader _ _ _ Hrun') as [_ Hid'].
      rewrite conflicting_pair, (proj2 (Z.eqb_neq _ _) Hne), (proj2 (Z.ltb_lt _ _)) by solve_ts. reflexivity.
  - apply eq_bool_prop_intro. rewrite !Is_true_true, !List.existsb_exists. split.
    + intros ([t v] & Hin & Hc). rewrite conflicting_pair in Hc. apply andb_true_iff in Hc as [_ Hc].
      exists (t, v). auto.
    + intros ([t v] & Hin & Hc). exists (t, v). split; [exact Hin|].
      apply list_elem_of_In in Hin.
      pose proof (row_history_bound _ _ _ _ _ (inv_log _ _ Hinv) Hin) as Hb. destruct Hroom.
      rewrite conflicting_pair, (proj2 (Z.eqb_neq t id)) by solve_ts. exact Hc.
Qed.

End Given.
(** *** Begin *)

Lemma chain_ok_begin {W} snap lastTS next (chain : UpdateNode W) id st :
  chain_ok snap lastTS next chain → id ∉ version <$> chain →
  chain_ok (<[id:=st]> snap) lastTS next chain.
Proof.
  intros [Hwf Hv Ho Hn Hf] Hid. split; try assumption.
  - eapply Forall_impl; [exact Hv|]. intros t [Ht|Ht]; [auto|]. right.
    destruct (decide (t = id)) as [->|Hne]; [rewrite lookup_insert_eq; eauto|].
    rewrite lookup_insert_ne by congruence. exact Ht.
  - eapply StronglySorted_impl_in; [|exact Ho]. intros a b _ Hb Hab s Hs.
    rewrite lookup_insert_ne in Hs by congruence. exact (Hab _ Hs).
Qed.

Lemma fresh_id d s idx :
  Inv d s → room s → (lastID s + 1)%Z ∉ version <$> chain_of (info d) idx.
Proof.
  intros Hinv [Hr1 Hr2] Hin. pose proof (co_version _ _ _ _ (inv_chain _ _ Hinv idx)) as Hv.
  rewrite Forall_forall in Hv. pose proof (inv_pos _ _ Hinv).
  destruct (Hv _ Hin) as [Ht|[st Ht]]; [solve_ts|]. apply (inv_ids _ _ Hinv) in Ht. lia.
Qed.

Lemma private_ok_run run run' row priv :
  (∀ id v, (∃ st w, run !! id = Some (st, w) ∧ w !! row = Some v) ↔
           (∃ st w, run' !! id = Some (st, w) ∧ w !! row = Some v)) →
  private_ok run row priv → private_ok run' row priv.
Proof. intros Heq [Hlen Hp]. split; [exact Hlen|]. intros id v. rewrite Hp. apply Heq. Qed.

Lemma begin_cmd_inv d s :
  Inv d s → room s → Inv (exec Begin d).2 (exec_spec Begin s).2.
Proof.
  intros Hinv Hroom. pose proof (inv_pos _ _ Hinv) as Hpos.
  assert (Hnone : running s !! (lastID s + 1)%Z = None).
  { destruct (running s !! (lastID s + 1)%Z) as [[st w]|] eqn:H; [|reflexivity].
    destruct (inv_ids _ _ Hinv (lastID s + 1)%Z st) as [Hle _]; [|lia]. rewrite snapshots_lookup, H. reflexivity. }
  pose proof Hinv as [Hlast HID _ Hact Hids Hlog Hchain Hrow Hundo].
  unfold exec, exec_spec. db_simpl. rewrite HID, Hlast. split; db_simpl; try assumption; try reflexivity.
  - lia.
  - unfold snapshots. db_simpl. rewrite !fmap_insert. db_simpl. f_equal. exact Hact.
  - intros id st. rewrite snapshots_lookup. db_simpl. destruct (decide (id = (lastID s + 1)%Z)) as [->|Hne].
    + rewrite lookup_insert_eq. cbn. intros [= <-]. lia.
    + rewrite lookup_insert_ne, <- snapshots_lookup by congruence. intros H. apply Hids in H. lia.
  - intros idx. unfold snapshots. db_simpl. rewrite fmap_insert. apply chain_ok_begin; [apply Hchain|].
    apply (fresh_id d s); assumption.
  - intros row. destruct (Hrow row) as (priv & Hv & Hp). exists priv. split; [exact Hv|].
    eapply private_ok_run; [|exact Hp]. intros id v. db_simpl.
    destruct (decide (id = (lastID s + 1)%Z)) as [->|Hne].
    + rewrite lookup_insert_eq, Hnone. split; [intros (? & ? & ? & _); discriminate|].
      intros (? & ? & [= <- <-] & H). rewrite lookup_empty in H. discriminate.
    + rewrite lookup_insert_ne by congruence. reflexivity.
  - intros id t. destruct (decide (id = (lastID s + 1)%Z)) as [->|Hne].
    + rewrite lookup_insert_eq. intros [= <-] idx a. cbn. split; [intros H; apply elem_of_nil in H; contradiction|].
      intros (i & Hi & _ & Hver). destruct (fresh_id d s idx Hinv Hroom). apply list_elem_of_fmap. eauto.
    + rewrite lookup_insert_ne by congruence. apply Hundo.
Qed.

(** *** Write *)

Lemma ensure_node_chain idx (l : list (UpdateNode V)) j :
  default [] (ensure_node idx l !! j) = default [] (l !! j).
Proof.
  unfold ensure_node. destruct (length l <=? idx); [|reflexivity].
  destruct (decide (j < length l)); [rewrite lookup_app_l by lia; reflexivity|].
  rewrite lookup_app_r, (lookup_ge_None_2 l) by lia.
  destruct (replicate _ _ !! _) as [c|] eqn:Hc; [|reflexivity].
  apply lookup_replicate_1 in Hc as [-> _]. reflexivity.
Qed.

Lemma ensure_node_length idx (l : list (UpdateNode V)) : idx < length (ensure_node idx l).
Proof.
  unfold ensure_node. destruct (length l <=? idx) eqn:H; zbool; [|exact H].
  rewrite length_app, length_replicate. lia.
Qed.

Lemma versions_chains (ui ui' : UpdateInfo V) row :
  (∀ idx, chain_of ui' idx = chain_of ui idx) → versions ui' row = versions ui row.
Proof. intros H. unfold versions. rewrite H. reflexivity. Qed.

(** Creating nodes changes nothing. *)
Lemma Inv_same_chains d s ui' :
  Inv d s → (∀ idx, chain_of ui' idx = chain_of (info d) idx) → nextAddr ui' = nextAddr (info d) →
  Inv (MkDb ui' (lastTimestamp d) (lastTransactionID d) (active d)) s.
Proof.
  intros Hinv Hc Hn. split; db_simpl; try apply Hinv.
  - intros idx. rewrite Hc, Hn. apply Hinv.
  - intros row. rewrite (versions_chains _ _ _ Hc). apply Hinv.
  - intros id t Ht idx a. rewrite Hc. apply (inv_undo _ _ Hinv id t Ht).
Qed.

(** [update] on the chain of the row's vector. *)
Lemma update_conflicts d s id st w row v :
  Inv d s → room s → running s !! id = Some (st, w) → write_conflict s id st row = true →
  ∃ ui', UpdateInfo.update id st (row / CAP) (row mod CAP) v (info d) = (Throw update_conflict, ui') ∧
    (∀ idx, chain_of ui' idx = chain_of (info d) idx) ∧ nextAddr ui' = nextAddr (info d).
Proof.
  intros Hinv Hroom Hrun Hc. destruct (running_reader _ _ Hinv Hroom _ _ _ Hrun) as [_ Hid].
  rewrite <- (conflict_row _ _ Hinv Hroom _ _ _ row Hrun) in Hc.
  unfold UpdateInfo.update. rewrite ensure_node_chain. fold (chain_of (info d) (row / CAP)).
  rewrite find_version_spec by (try exact Hid; apply wf_chain_of, (wf_info_updates d s Hinv)).
  unfold versions in Hc. rewrite Hc. eexists. split; [reflexivity|]. split; [|reflexivity].
  intros idx. apply ensure_node_chain.
Qed.

Lemma snapshots_below d s id :
  Inv d s → room s → (START_TRANSACTION_ID < id)%Z → ∀ t st, snapshots s !! t = Some st → (st < id)%Z.
Proof. intros Hinv [Hr _] Hid t st H. apply (inv_ids _ _ Hinv) in H as [_ H]. solve_ts. Qed.

Lemma update_writes d s id st w row v :
  Inv d s → room s → running s !! id = Some (st, w) → write_conflict s id st row = false →
  ∃ a ui', UpdateInfo.update id st (row / CAP) (row mod CAP) v (info d) = (Ok a, ui') ∧
    nextAddr (info d) ≤ nextAddr ui' ∧
    chain_ok (snapshots s) (last s) (nextAddr ui') (chain_of ui' (row / CAP)) ∧
    chain_written id (row mod CAP) v a (chain_of (info d) (row / CAP)) (chain_of ui' (row / CAP)) ∧
    ∀ idx, idx ≠ row / CAP → chain_of ui' idx = chain_of (info d) idx.
Proof.
  intros Hinv Hroom Hrun Hc. destruct (running_reader _ _ Hinv Hroom _ _ _ Hrun) as [_ Hid].
  rewrite <- (conflict_row _ _ Hinv Hroom _ _ _ row Hrun) in Hc.
  assert (Hsnap : snapshots s !! id = Some st) by (rewrite snapshots_lookup, Hrun; reflexivity).
  assert (Hlt : (START_TRANSACTION_ID < id)%Z) by (apply (inv_ids _ _ Hinv _ _ Hsnap)).
  destruct (chain_write (snapshots s) (last s) id st (row mod CAP) v Hsnap (vector_row_bound row)
    (nextAddr (info d)) (chain_of (info d) (row / CAP)) (inv_chain _ _ Hinv _) Hid
    (snapshots_below d s id Hinv Hroom Hlt) Hc)
    as (found & a & chain1 & next' & chain' & Hfind & Hsel & Hle & Hup & Hok & Hwr).
  exists a, (MkUpdateInfo (<[row / CAP:=chain']> (ensure_node (row / CAP) (updates (info d)))) next').
  pose proof (ensure_node_length (row / CAP) (updates (info d))) as Hlen.
  assert (Hget : chain_of (MkUpdateInfo (<[row / CAP:=chain']>
    (ensure_node (row / CAP) (updates (info d)))) next') (row / CAP) = chain').
  { unfold chain_of. cbn [updates]. rewrite list_lookup_insert_eq by exact Hlen. reflexivity. }
  rewrite Hget. split; [|split; [exact Hle|split; [exact Hok|split; [exact Hwr|]]]].
  - unfold UpdateInfo.update. rewrite ensure_node_chain. fold (chain_of (info d) (row / CAP)).
    rewrite Hfind. unfold new_version in Hsel. rewrite Hsel, Hup. reflexivity.
  - intros idx Hne. unfold chain_of. cbn [updates]. rewrite list_lookup_insert_ne by congruence.
    apply ensure_node_chain.
Qed.

(** The private versions of a row after its transaction wrote it. *)
Lemma private_after_write s d id st w row v priv :
  Inv d s → room s → running s !! id = Some (st, w) →
  private_ok (running s) row priv →
  existsb (conflicting id st) (priv ++ row_history (committed s) row) = false →
  List.filter (not_own id) (priv ++ row_history (committed s) row) = row_history (committed s) row ∧
  private_ok (<[id:=(st, <[row:=v]> w)]> (running s)) row [(id, v)].
Proof.
  intros Hinv Hroom Hrun [Hlen Hp] Hc. rewrite existsb_app in Hc. apply orb_false_iff in Hc as [Hc _].
  destruct (running_reader _ _ Hinv Hroom _ _ _ Hrun) as [Hst Hid].
  assert (Hown : ∀ t u, (t, u) ∈ priv → t = id).
  { intros t u Hin. destruct (decide (t = id)) as [|Hne]; [assumption|exfalso].
    apply Hp in Hin as Hin'. destruct Hin' as (st' & w' & Hrun' & _).
    destruct (running_reader _ _ Hinv Hroom _ _ _ Hrun') as [_ Hid'].
    rewrite <- not_true_iff_false, List.existsb_exists in Hc. apply Hc. exists (t, u).
    split; [apply list_elem_of_In, Hin|].
    rewrite conflicting_pair, (proj2 (Z.eqb_neq _ _) Hne), (proj2 (Z.ltb_lt _ _)) by solve_ts. reflexivity. }
  split.
  - rewrite List.filter_app, (filter_id _ (row_history _ _)).
    + replace (List.filter (not_own id) priv) with (@nil (Z * V)); [reflexivity|].
      symmetry. destruct priv as [|[t u] [|? ?]]; [reflexivity| |cbn in Hlen; lia].
      cbn. rewrite (Hown t u) by left. unfold not_own. cbn. rewrite Z.eqb_refl. reflexivity.
    + intros [t u] Hin. pose proof (row_history_bound _ _ _ _ _ (inv_log _ _ Hinv) Hin).
      destruct Hroom. unfold not_own. cbn. rewrite (proj2 (Z.eqb_neq _ _)) by solve_ts. reflexivity.
  - split; [cbn; lia|]. intros t u. rewrite list_elem_of_singleton.
    destruct (decide (t = id)) as [->|Hne].
    + rewrite lookup_insert_eq. split; [intros [= <-]; eexists _, _; rewrite lookup_insert_eq; auto|].
      intros (? & ? & [= <- <-] & Hu). rewrite lookup_insert_eq in Hu. congruence.
    + rewrite lookup_insert_ne by congruence. split; [congruence|].
      intros (st' & w' & Hrun' & Hw'). exfalso. apply Hne, (Hown t u), Hp. eauto.
Qed.

Lemma write_inv d s id t st w row v a ui' :
  Inv d s → room s → active d !! id = Some t → running s !! id = Some (st, w) →
  write_conflict s id st row = false →
  nextAddr (info d) ≤ nextAddr ui' →
  chain_ok (snapshots s) (last s) (nextAddr ui') (chain_of ui' (row / CAP)) →
  chain_written id (row mod CAP) v a (chain_of (info d) (row / CAP)) (chain_of ui' (row / CAP)) →
  (∀ idx, idx ≠ row / CAP → chain_of ui' idx = chain_of (info d) idx) →
  Inv (MkDb ui' (lastTimestamp d) (lastTransactionID d)
         (<[id:=MkTxn (snapshot t) (undo t ++ [(row / CAP, a)])]> (active d)))
      (MkStore (committed s) (last s) (lastID s) (<[id:=(st, <[row:=v]> w)]> (running s))).
Proof.
  intros Hinv Hroom Hact Hrun Hc Hle Hok (Hother & Hown & Hhas) Hrest.
  rewrite <- (conflict_row _ _ Hinv Hroom _ _ _ row Hrun) in Hc.
  set (s' := MkStore _ _ _ _).
  assert (Hsnaps : snapshots s' = snapshots s).
  { unfold snapshots, s'. db_simpl. rewrite fmap_insert. apply insert_id. rewrite lookup_fmap, Hrun. reflexivity. }
  split; rewrite ?Hsnaps; db_simpl; try apply Hinv.
  - rewrite fmap_insert. db_simpl. rewrite insert_id; [apply Hinv|]. rewrite lookup_fmap, Hact. reflexivity.
  - intros idx. destruct (decide (idx = row / CAP)) as [->|Hne]; [exact Hok|].
    rewrite Hrest by exact Hne. eapply chain_ok_next; [exact Hle|apply Hinv].
  - intros r. destruct (decide (r = row)) as [->|Hne].
    + destruct (inv_row _ _ Hinv row) as (priv & Hv & Hp). rewrite Hv in Hc.
      destruct (private_after_write s d id st w row v priv Hinv Hroom Hrun Hp Hc) as [Hf Hp'].
      exists [(id, v)]. split; [|exact Hp']. unfold versions. rewrite Hown.
      fold (versions (info d) row). rewrite Hv, Hf. reflexivity.
    + destruct (inv_row _ _ Hinv r) as (priv & Hv & Hp). exists priv. split.
      * unfold s'. db_simpl. rewrite <- Hv. unfold versions. destruct (decide (r / CAP = row / CAP)) as [Heq|Hneq].
        -- rewrite Heq. apply Hother. intros Hm. apply Hne.
           rewrite (vector_row_split r), (vector_row_split row), Heq, Hm. reflexivity.
        -- rewrite Hrest by exact Hneq. reflexivity.
      * eapply private_ok_run; [|exact Hp]. intros t' u. unfold s'. db_simpl.
        destruct (decide (t' = id)) as [->|Hne'].
        -- rewrite lookup_insert_eq, Hrun. split.
           ++ intros (? & ? & [= <- <-] & Hu). exists st, (<[row:=v]> w). rewrite lookup_insert_ne by congruence. auto.
           ++ intros (? & ? & [= <- <-] & Hu). rewrite lookup_insert_ne in Hu by congruence. eauto.
        -- rewrite lookup_insert_ne by congruence. reflexivity.
  - intros id' t'. destruct (decide (id' = id)) as [->|Hne].
    + rewrite lookup_insert_eq. intros [= <-] idx a'. db_simpl.
      rewrite elem_of_app, list_elem_of_singleton, (inv_undo _ _ Hinv id t Hact).
      destruct (decide (idx = row / CAP)) as [->|Hne].
      * rewrite Hhas. split; (intros [H|H]; [left; exact H|right]).
        -- injection H as ->. auto.
        -- destruct H as [-> _]. reflexivity.
      * rewrite Hrest by exact Hne. split; [|auto].
        intros [H|H]; [exact H|]. apply (f_equal fst) in H. contradiction.
    + rewrite lookup_insert_ne by congruence. intros Ht' idx a'. rewrite (inv_undo _ _ Hinv id' t' Ht').
      destruct (decide (idx = row / CAP)) as [->|Hne']; [|rewrite Hrest by exact Hne'; reflexivity].
      rewrite Hhas. split; [auto|]. intros [H|[_ H]]; [exact H|congruence].
Qed.

(** *** Commit *)

Lemma nodup_addr_inj (chain : UpdateNode V) i j :
  NoDup (addr <$> chain) → i ∈ chain → j ∈ chain → addr i = addr j → i = j.
Proof.
  induction chain as [|x chain IH]; intros Hnd Hi Hj Heq; [apply elem_of_nil in Hi; contradiction|].
  cbn in Hnd. apply NoDup_cons in Hnd as [Hx Hnd]. apply elem_of_cons in Hi, Hj.
  destruct Hi as [->|Hi], Hj as [->|Hj]; [reflexivity| | |apply IH; assumption];
    exfalso; apply Hx, list_elem_of_fmap; eauto.
Qed.

(** The records of a transaction name the nodes and versions it has. *)
Lemma undo_nodes d s id t idx a :
  Inv d s → active d !! id = Some t → (idx, a) ∈ undo t →
  ∃ chain, updates (info d) !! idx = Some chain ∧ a ∈ addr <$> chain.
Proof.
  intros Hinv Ht Hin. apply (inv_undo _ _ Hinv id t Ht) in Hin as (i & Hi & <- & _).
  unfold chain_of in Hi. destruct (updates (info d) !! idx) as [chain|]; cbn in Hi.
  - exists chain. split; [reflexivity|]. apply list_elem_of_fmap. eauto.
  - apply elem_of_nil in Hi. contradiction.
Qed.

Lemma node_chain (ui : UpdateInfo V) idx chain : updates ui !! idx = Some chain → chain_of ui idx = chain.
Proof. intros H. unfold chain_of. rewrite H. reflexivity. Qed.

Lemma commit_chains d s id t ts :
  Inv d s → active d !! id = Some t →
  ∃ ui', commit_records (undo t) ts (info d) = (Ok tt, ui') ∧ nextAddr ui' = nextAddr (info d) ∧
    ∀ idx, chain_of ui' idx = retag id ts <$> chain_of (info d) idx.
Proof.
  intros Hinv Ht. destruct (commit_records_spec (undo t) ts (info d)) as (ui' & Hrun & Hn & Hup).
  - intros idx chain Hc. rewrite <- (node_chain _ _ _ Hc). apply (inv_chain _ _ Hinv).
  - intros idx a. apply (undo_nodes d s id t idx a Hinv Ht).
  - exists ui'. split; [exact Hrun|]. split; [exact Hn|]. intros idx. unfold chain_of. rewrite Hup.
    destruct (updates (info d) !! idx) as [chain|] eqn:Hc; [|reflexivity]. cbn [fmap option_fmap option_map default].
    apply list_fmap_ext. intros k i Hi%list_elem_of_lookup_2. unfold tagged, retag.
    rewrite <- (node_chain _ _ _ Hc) in Hi. pose proof (inv_undo _ _ Hinv id t Ht idx (addr i)) as Hu.
    destruct (version i =? id)%Z eqn:Hv; zbool.
    + rewrite decide_True; [reflexivity|]. apply Hu. exists i. auto.
    + rewrite decide_False; [reflexivity|]. intros (j & Hj & Ha & Hvj)%Hu. apply Hv.
      rewrite (nodup_addr_inj _ i j (co_nodup _ _ _ _ (inv_chain _ _ Hinv idx)) Hi Hj) by congruence. exact Hvj.
Qed.

(** The versions of a row after a commit, as history and private versions. *)
Lemma commit_row d s id st w row ts priv :
  Inv d s → room s → running s !! id = Some (st, w) → private_ok (running s) row priv →
  ∃ priv', private_ok (delete id (running s)) row priv' ∧
    (λ p, if (p.1 =? id)%Z then (ts, p.2) else p) <$> (priv ++ row_history (committed s) row) =
      priv' ++ row_history ((ts, w) :: committed s) row.
Proof.
  intros Hinv Hroom Hrun [Hlen Hp].
  destruct (running_reader _ _ Hinv Hroom _ _ _ Hrun) as [Hst Hid].
  assert (Hhist : (λ p, if (p.1 =? id)%Z then (ts, p.2) else p) <$> row_history (committed s) row =
    row_history (committed s) row).
  { rewrite <- (list_fmap_id (row_history (committed s) row)) at 2. apply list_fmap_ext.
    intros k [t u] Hin%list_elem_of_lookup_2.
    pose proof (row_history_bound _ _ _ _ _ (inv_log _ _ Hinv) Hin). destruct Hroom.
    cbn. rewrite (proj2 (Z.eqb_neq _ _)) by solve_ts. reflexivity. }
  rewrite fmap_app, Hhist. destruct (w !! row) as [v|] eqn:Hw.
  - assert (Hin : (id, v) ∈ priv) by (apply Hp; eauto).
    destruct priv as [|p [|? ?]]; [apply elem_of_nil in Hin; contradiction| |cbn in Hlen; lia].
    apply list_elem_of_singleton in Hin as <-. exists []. split.
    + split; [cbn; lia|]. intros t u. split; [intros H; apply elem_of_nil in H; contradiction|].
      intros (st' & w' & [Hne Hrun']%lookup_delete_Some & Hw'). exfalso.
      assert (H : (t, u) ∈ [(id, v)]) by (apply Hp; eauto). apply list_elem_of_singleton in H. congruence.
    + cbn. rewrite Hw, Z.eqb_refl. reflexivity.
  - exists priv. split.
    + eapply private_ok_run; [|split; [exact Hlen|exact Hp]]. intros t u.
      destruct (decide (t = id)) as [->|Hne].
      * rewrite lookup_delete_eq, Hrun. split; [intros (? & ? & [= <- <-] & ?); congruence|].
        intros (? & ? & ? & _). discriminate.
      * rewrite lookup_delete_ne by congruence. reflexivity.
    + cbn [row_history]. unfold row_history. cbn. rewrite Hw. f_equal.
      rewrite <- (list_fmap_id priv) at 2. apply list_fmap_ext. intros k [t u] Hin%list_elem_of_lookup_2.
      apply Hp in Hin as (st' & w' & Hrun' & Hw'). cbn.
      rewrite (proj2 (Z.eqb_neq t id)); [reflexivity|]. intros ->. congruence.
Qed.

Lemma delete_snapshots_ids d s id (ts : Z) :
  Inv d s → (last s ≤ ts)%Z →
  ∀ id' st', delete id (snapshots s) !! id' = Some st' →
    (START_TRANSACTION_ID < id' ≤ lastID s)%Z ∧ (0 ≤ st' ≤ ts)%Z.
Proof. intros Hinv Hts id' st' [_ H]%lookup_delete_Some. apply (inv_ids _ _ Hinv) in H. lia. Qed.

Lemma commit_cmd_inv d s id t st w ui' :
  Inv d s → room s → active d !! id = Some t → running s !! id = Some (st, w) →
  nextAddr ui' = nextAddr (info d) →
  (∀ idx, chain_of ui' idx = retag id (last s + 1) <$> chain_of (info d) idx) →
  Inv (MkDb ui' (lastTimestamp d + 1) (lastTransactionID d) (delete id (active d)))
      (MkStore ((last s + 1, w)%Z :: committed s) (last s + 1) (lastID s) (delete id (running s))).
Proof.
  intros Hinv Hroom Hact Hrun Hn Hc. pose proof (inv_pos _ _ Hinv) as Hpos. pose proof Hroom as [Hr1 _].
  set (s' := MkStore _ _ _ _).
  assert (Hsnaps : snapshots s' = delete id (snapshots s)) by apply fmap_delete.
  split; rewrite ?Hsnaps; unfold s'; db_simpl.
  - rewrite (inv_last _ _ Hinv). reflexivity.
  - apply Hinv.
  - lia.
  - rewrite fmap_delete, (inv_active _ _ Hinv). reflexivity.
  - apply (delete_snapshots_ids d s); [exact Hinv|lia].
  - constructor; [cbn; lia|]. eapply Forall_impl; [apply (inv_log _ _ Hinv)|]. cbn. intros. lia.
  - intros idx. rewrite Hc, Hn. eapply retag_ok; [apply Hinv| |lia|solve_ts].
    intros t' st' H%(inv_ids _ _ Hinv). destruct Hroom. split; [solve_ts|lia].
  - intros row. destruct (inv_row _ _ Hinv row) as (priv & Hv & Hp).
    destruct (commit_row d s id st w row (last s + 1)%Z priv Hinv Hroom Hrun Hp) as (priv' & Hp' & Heq).
    exists priv'. split; [|exact Hp']. db_simpl. rewrite <- Heq, <- Hv. unfold versions. rewrite Hc.
    apply row_versions_retag.
  - intros id' t' [Hne Ht']%lookup_delete_Some idx a. rewrite (inv_undo _ _ Hinv id' t' Ht'), Hc.
    assert (Hid' : (last s + 1)%Z ≠ id').
    { pose proof (active_running _ _ Hinv id') as Har. rewrite Ht' in Har.
      destruct (running s !! id') as [[st' w']|] eqn:Hr'; [|contradiction].
      destruct (running_reader _ _ Hinv Hroom _ _ _ Hr') as [_ ?]. solve_ts. }
    unfold has_version. split.
    + intros (i & Hi & Ha & Hver). exists i. split; [|auto]. apply list_elem_of_fmap. exists i.
      split; [|exact Hi]. unfold retag. rewrite (proj2 (Z.eqb_neq _ _)) by congruence. reflexivity.
    + intros (i & (j & -> & Hj)%list_elem_of_fmap & Ha & Hver). exists j. unfold retag in *.
      destruct (version j =? id)%Z eqn:Hvj; zbool; cbn in *; [congruence|auto].
Qed.

(** *** Rollback *)

Lemma rollback_chains d s id t :
  Inv d s → active d !! id = Some t →
  ∃ ui', rollback_records (undo t) id (info d) = (Ok tt, ui') ∧ nextAddr ui' = nextAddr (info d) ∧
    ∀ idx, chain_of ui' idx = drop_own id (chain_of (info d) idx).
Proof.
  intros Hinv Ht. pose proof (active_running _ _ Hinv id) as Har. rewrite Ht in Har.
  destruct (running s !! id) as [[st w]|] eqn:Hrun; [|contradiction].
  assert (Hsnap : snapshots s !! id = Some st) by (rewrite snapshots_lookup, Hrun; reflexivity).
  destruct (rollback_list_spec (rev (undo t)) id (info d)) as (ui' & Hrun' & Hn & Hup).
  - intros idx chain Hc. rewrite <- (node_chain _ _ _ Hc).
    exact (unlink_own _ _ _ _ _ _ (inv_chain _ _ Hinv idx) Hsnap).
  - intros idx a Hin. rewrite list_elem_of_In, <- List.in_rev, <- list_elem_of_In in Hin.
    destruct (undo_nodes d s id t idx a Hinv Ht Hin) as (chain & Hc & _). rewrite Hc. eauto.
  - exists ui'. split; [exact Hrun'|]. split; [exact Hn|]. intros idx. unfold chain_of. rewrite Hup.
    destruct (updates (info d) !! idx) as [chain|] eqn:Hc; [|reflexivity].
    cbn [fmap option_fmap option_map default]. destruct (decide _) as [_|Hout]; [reflexivity|].
    symmetry. apply drop_own_none, Forall_forall. intros i Hi Hver. apply Hout.
    assert (Hin : (idx, addr i) ∈ undo t).
    { apply (inv_undo _ _ Hinv id t Ht). exists i. rewrite (node_chain _ _ _ Hc). auto. }
    apply list_elem_of_fmap. exists (idx, addr i). split; [reflexivity|].
    rewrite list_elem_of_In, <- List.in_rev, <- list_elem_of_In. exact Hin.
Qed.

Lemma rollback_row d s id st w row priv :
  Inv d s → room s → running s !! id = Some (st, w) → private_ok (running s) row priv →
  private_ok (delete id (running s)) row (List.filter (not_own id) priv) ∧
  List.filter (not_own id) (priv ++ row_history (committed s) row) =
    List.filter (not_own id) priv ++ row_history (committed s) row.
Proof.
  intros Hinv Hroom Hrun [Hlen Hp]. split; [split|].
  - destruct priv as [|p [|? ?]]; cbn in *; [lia|destruct (not_own id p); cbn; lia|lia].
  - intros t u. rewrite elem_of_filter_bool, Hp. unfold not_own. cbn. rewrite negb_true_iff, Z.eqb_neq.
    split.
    + intros [(st' & w' & Hr & Hw) Hne]. exists st', w'. rewrite lookup_delete_ne by congruence. auto.
    + intros (st' & w' & [Hne Hr]%lookup_delete_Some & Hw). split; [eauto|congruence].
  - rewrite List.filter_app. f_equal. apply filter_id. intros [t u] Hin.
    pose proof (row_history_bound _ _ _ _ _ (inv_log _ _ Hinv) Hin). destruct Hroom.
    destruct (running_reader _ _ Hinv (conj H0 H1) _ _ _ Hrun) as [_ Hid].
    unfold not_own. cbn. rewrite (proj2 (Z.eqb_neq _ _)) by solve_ts. reflexivity.
Qed.

Lemma rollback_cmd_inv d s id t st w ui' :
  Inv d s → room s → active d !! id = Some t → running s !! id = Some (st, w) →
  nextAddr ui' = nextAddr (info d) →
  (∀ idx, chain_of ui' idx = drop_own id (chain_of (info d) idx)) →
  Inv (MkDb ui' (lastTimestamp d) (lastTransactionID d) (delete id (active d)))
      (MkStore (committed s) (last s) (lastID s) (delete id (running s))).
Proof.
  intros Hinv Hroom Hact Hrun Hn Hc. set (s' := MkStore _ _ _ _).
  assert (Hsnaps : snapshots s' = delete id (snapshots s)) by apply fmap_delete.
  split; rewrite ?Hsnaps; unfold s'; db_simpl; try apply Hinv.
  - rewrite fmap_delete, (inv_active _ _ Hinv). reflexivity.
  - apply (delete_snapshots_ids d s); [exact Hinv|lia].
  - intros idx. rewrite Hc, Hn. apply drop_own_ok, Hinv.
  - intros row. destruct (inv_row _ _ Hinv row) as (priv & Hv & Hp).
    destruct (rollback_row d s id st w row priv Hinv Hroom Hrun Hp) as [Hp' Heq].
    exists (List.filter (not_own id) priv). split; [|exact Hp']. db_simpl. rewrite <- Heq, <- Hv.
    unfold versions. rewrite Hc. apply (row_versions_filter (λ t, negb (t =? id)%Z)).
  - intros id' t' [Hne Ht']%lookup_delete_Some idx a. rewrite (inv_undo _ _ Hinv id' t' Ht'), Hc.
    unfold has_version, drop_own. setoid_rewrite elem_of_filter_bool. split.
    + intros (i & Hi & Ha & Hver). exists i. rewrite negb_true_iff, Z.eqb_neq. split; [|auto].
      split; [exact Hi|congruence].
    + intros (i & [Hi _] & Ha & Hver). eauto.
Qed.

(** *** One command *)

Lemma scan_row d s id st w start (output : list V) :
  Inv d s → room s → running s !! id = Some (st, w) →
  UpdateInfo.scan id st start (length output) (info d) output =
    Ok (imap (λ k old, default old (snapshot_read s st w (start + k))) output).
Proof.
  intros Hinv Hroom Hrun. pose proof (running_reader _ _ Hinv Hroom _ _ _ Hrun) as Hr.
  destruct (scan_spec_at st id (info d) Hr (wf_info_updates d s Hinv) start (length output) 0 output)
    as (out & Hscan & Hlen & Hout); [lia|].
  unfold UpdateInfo.scan. rewrite Hscan. f_equal. apply list_eq. intros p.
  destruct (decide (p < length output)) as [Hp|Hp].
  - rewrite (Hout p Hp), decide_True by lia. unfold seen_value. rewrite Nat.sub_0_r.
    rewrite (read_row _ _ Hinv Hroom _ _ _ (start + p) Hrun), list_lookup_imap.
    destruct (lookup_lt_is_Some_2 output p Hp) as [old Hold]. rewrite Hold. cbn.
    destruct (snapshot_read _ _ _ _); reflexivity.
  - rewrite !lookup_ge_None_2 by (rewrite ?length_imap; lia). reflexivity.
Qed.

Lemma exec_simulates c d s :
  Inv d s → room s → (exec c d).1 = (exec_spec c s).1 ∧ Inv (exec c d).2 (exec_spec c s).2.
Proof.
  intros Hinv Hroom. destruct c as [|id row v|id row|id start output|id|id].
  - split; [cbn; rewrite (inv_lastID _ _ Hinv); reflexivity|apply begin_cmd_inv; assumption].
  - cbn [exec exec_spec]. pose proof (active_running _ _ Hinv id) as Har.
    destruct (active d !! id) as [t|] eqn:Hact, (running s !! id) as [[st w]|] eqn:Hrun;
      try contradiction; [|auto]. subst st.
    unfold chunk_update. destruct (write_conflict s id (snapshot t) row) eqn:Hc.
    + destruct (update_conflicts d s id (snapshot t) w row v Hinv Hroom Hrun Hc) as (ui' & Hup & Hch & Hn).
      rewrite (M_bind_throw _ _ _ _ _ Hup). split; [reflexivity|]. apply Inv_same_chains; assumption.
    + destruct (update_writes d s id (snapshot t) w row v Hinv Hroom Hrun Hc)
        as (a & ui' & Hup & Hn & Hok & Hwr & Hrest).
      rewrite (M_bind_ok _ _ _ _ _ Hup). split; [reflexivity|].
      eapply write_inv; eassumption.
  - cbn [exec exec_spec]. pose proof (active_running _ _ Hinv id) as Har.
    destruct (active d !! id) as [t|] eqn:Hact, (running s !! id) as [[st w]|] eqn:Hrun;
      try contradiction; [|auto]. subst st. split; [|exact Hinv].
    rewrite lookup_spec by (first [apply (wf_info_updates d s Hinv)|eapply running_reader; eassumption]).
    rewrite (read_row _ _ Hinv Hroom _ _ _ row Hrun). reflexivity.
  - cbn [exec exec_spec]. pose proof (active_running _ _ Hinv id) as Har.
    destruct (active d !! id) as [t|] eqn:Hact, (running s !! id) as [[st w]|] eqn:Hrun;
      try contradiction; [|auto]. subst st. split; [|exact Hinv].
    rewrite (scan_row d s id (snapshot t) w start output Hinv Hroom Hrun). reflexivity.
  - cbn [exec exec_spec]. pose proof (active_running _ _ Hinv id) as Har.
    destruct (active d !! id) as [t|] eqn:Hact, (running s !! id) as [[st w]|] eqn:Hrun;
      try contradiction; [|auto]. rewrite (inv_last _ _ Hinv).
    destruct (commit_chains d s id t (last s + 1) Hinv Hact) as (ui' & Hcr & Hn & Hch). rewrite Hcr.
    split; [reflexivity|]. rewrite <- (inv_last _ _ Hinv) at 1. eapply commit_cmd_inv; eassumption.
  - cbn [exec exec_spec]. pose proof (active_running _ _ Hinv id) as Har.
    destruct (active d !! id) as [t|] eqn:Hact, (running s !! id) as [[st w]|] eqn:Hrun;
      try contradiction; [|auto].
    destruct (rollback_chains d s id t Hinv Hact) as (ui' & Hcr & Hn & Hch). rewrite Hcr.
    split; [reflexivity|]. eapply rollback_cmd_inv; eassumption.
Qed.

Lemma exec_spec_counters c s :
  (last s ≤ last (exec_spec c s).2 ≤ last s + 1)%Z ∧ (lastID s ≤ lastID (exec_spec c s).2 ≤ lastID s + 1)%Z.
Proof.
  destruct c as [|id row v|id row|id start output|id|id]; cbn; try lia;
    destruct (running s !! id) as [[st w]|]; cbn; try lia.
  destruct (write_conflict s id st row); cbn; lia.
Qed.

Lemma run_simulates cmds d s :
  Inv d s → (last s + Z.of_nat (length cmds) < START_TRANSACTION_ID)%Z →
  (lastID s + Z.of_nat (length cmds) < INVALID_TRANSACTION)%Z →
  run cmds d = run_spec cmds s.
Proof.
  revert d s. induction cmds as [|c cmds IH]; intros d s Hinv H1 H2; [reflexivity|].
  cbn [length] in *. destruct (exec_simulates c d s Hinv) as [Hr Hi]; [split; lia|].
  pose proof (exec_spec_counters c s) as Hcnt. cbn [run run_spec].
  destruct (exec c d) as [r d'], (exec_spec c s) as [r' s']. cbn in *. subst r'. f_equal.
  apply IH; [exact Hi|lia|lia].
Qed.

Lemma Inv_new : Inv db_new store_new.
Proof.
  unfold db_new, store_new. split; db_simpl; try reflexivity; try solve_ts.
  - intros id st H. rewrite snapshots_lookup in H. cbn in H. rewrite lookup_empty in H. discriminate.
  - constructor.
  - intros idx. apply chain_ok_nil.
  - intros row. exists []. split; [reflexivity|]. split; [cbn; lia|]. intros id v.
    split; [intros H; apply elem_of_nil in H; contradiction|]. intros (? & ? & H & _).
    cbn in H. rewrite lookup_empty in H. discriminate.
  - intros id t H. rewrite lookup_empty in H. discriminate.
Qed.

End Simulation.

(** C2. Snapshot isolation of updates: for every sequence of begins, writes, reads, scans, commits
    and rollbacks, interleaved in any way, the update chains give exactly the responses of the
    snapshot store. In particular a transaction reads its own writes and otherwise the newest values
    committed before it started, a write is refused exactly when another running transaction wrote the
    row or one committed it after the snapshot, a rollback leaves no trace, and no assertion of the
    code fails. The bound keeps timestamps below the transaction identifiers. *)
Theorem update_snapshot_isolation {V} (cmds : list (cmd (V := V))) :
  (Z.of_nat (length cmds) < 2 ^ 62)%Z → run cmds db_new = run_spec cmds store_new.
Proof.
  intros Hlen. apply run_simulates; [apply Inv_new| |]; cbn [last lastID store_new]; solve_ts.
Qed.

Abbreviation U1 := (START_TRANSACTION_ID + 1)%Z.
Abbreviation U2 := (START_TRANSACTION_ID + 2)%Z.
Abbreviation U3 := (START_TRANSACTION_ID + 3)%Z.

(** Two writers that meet on row 5, and a third that starts after the first committed. *)
Definition sample_cmds : list (cmd (V := nat)) :=
  [Begin; Begin; Write U1 5 10; Write U2 5 20; Write U2 3000 21; Read U2 5; Commit U1; Read U2 5;
   Begin; Read U3 5; Rollback U2; Scan U3 4 [0; 0; 0]].

Lemma update_snapshot_isolation_witness :
  (Z.of_nat (length sample_cmds) < 2 ^ 62)%Z ∧
  run sample_cmds db_new =
    [Started U1; Started U2; Done; Raised update_conflict; Done; Value None; Done; Value None;
     Started U3; Value (Some 10); Done; Values [0; 10; 0]].
Proof.
  split; [cbn; lia|]. rewrite (update_snapshot_isolation sample_cmds) by (cbn; lia).
  vm_compute. reflexivity.
Defined.

(** Merging versions vector by vector in a scan gives each row the value a lookup of the row
    gives, and leaves the rows alone that have no visible update; positions outside are untouched. *)
Theorem scan_equals_lookups {V} (ui : UpdateInfo V) startTS id start pos n (output : list V) :
  is_reader startTS id → wf_updates ui → pos + n ≤ length output →
  ∃ out, UpdateInfo.scanCommitted id startTS pos start n ui output = Ok out ∧
    length out = length output ∧
    (∀ k, k < n → ∃ o, UpdateInfo.lookup id startTS (start + k) ui = Ok o ∧
      out !! (pos + k) = match o with Some v => Some v | None => output !! (pos + k) end) ∧
    (∀ p, p < pos ∨ pos + n ≤ p → out !! p = output !! p).
Proof.
  intros Hr Hwf Hlen. destruct (scan_spec_at startTS id ui Hr Hwf start n pos output Hlen)
    as (out & Hrun & Hl & Hout).
  exists out. split; [exact Hrun|]. split; [exact Hl|]. split.
  - intros k Hk. exists (newest_seen startTS id (versions ui (start + k))).
    split; [apply lookup_spec; assumption|]. rewrite Hout, decide_True by lia. unfold seen_value.
    replace (start + (pos + k - pos)) with (start + k) by lia. reflexivity.
  - intros p Hp. destruct (decide (p < length output)).
    + rewrite Hout, decide_False by lia. reflexivity.
    + rewrite !lookup_ge_None_2 by lia. reflexivity.
Qed.

(** Versions of two transactions that updated the same row; the older one also has another. *)
Definition sample_updates : UpdateInfo nat :=
  MkUpdateInfo [[]; [MkVectorUpdateInfo 1 9 [3] {[0 := 30]}; MkVectorUpdateInfo 0 4 [3; 7] {[0 := 20; 1 := 21]}]] 2.

Lemma sample_updates_wf : wf_updates sample_updates.
Proof.
  repeat constructor; cbn; try (apply Nat.ltb_lt; vm_compute; reflexivity); try set_solver.
  - intros [|i] Hi; [rewrite lookup_singleton_eq; eauto|unfold numRowsUpdated in Hi; cbn in Hi; lia].
  - intros [|[|i]] Hi; [vm_compute; eauto|vm_compute; eauto|unfold numRowsUpdated in Hi; cbn in Hi; lia].
Qed.

Lemma reader_7 : is_reader 7 (START_TRANSACTION_ID + 1).
Proof. split; solve_ts. Qed.

Lemma scan_equals_lookups_witness :
  ∃ out, UpdateInfo.scanCommitted (START_TRANSACTION_ID + 1) 7 1 2050 6 sample_updates
      [0; 0; 0; 0; 0; 0; 0; 0] = Ok out ∧ out !! 2 = Some 20.
Proof.
  destruct (scan_equals_lookups sample_updates 7 (START_TRANSACTION_ID + 1) 2050 1 6
    [0; 0; 0; 0; 0; 0; 0; 0] reader_7 sample_updates_wf) as (out & Hrun & _ & Hval & _); [cbn; lia|].
  exists out. split; [exact Hrun|]. destruct (Hval 1) as (o & Ho & Hout); [lia|].
  change (out !! 2) with (out !! (1 + 1)). rewrite Hout. clear Hout.
  vm_compute in Ho. injection Ho as <-. reflexivity.
Defined.

Lemma last_write_last {V} (calls : list (VectorUpdateInfo V * nat * nat)) lo hi :
  calls_within lo hi calls → calls ≠ [] → ∃ p, lo ≤ p < hi ∧ is_Some (last_write calls p).
Proof.
  intros H. induction H as [|[[i k] q] calls [Hs Hq] _ IH]; intros Hne; [contradiction|].
  destruct calls as [|c calls].
  - exists q. split; [exact Hq|]. cbn. rewrite Nat.eqb_refl. exact Hs.
  - destruct IH as (p & Hp & [v Hv]); [discriminate|]. exists p. split; [exact Hp|].
    cbn [last_write]. cbn [last_write] in Hv. rewrite Hv. eauto.
Qed.

(** [hasUpdates] tells exactly whether a lookup of some row of the range finds an update. *)
Theorem hasUpdates_correct {V} (ui : UpdateInfo V) startTS id start n :
  is_reader startTS id → wf_updates ui →
  ∃ b, UpdateInfo.hasUpdates id startTS start n ui = Ok b ∧
    (b = true ↔ ∃ k v, k < n ∧ UpdateInfo.lookup id startTS (start + k) ui = Ok (Some v)).
Proof.
  intros Hr Hwf. destruct (iterateScan_spec startTS id ui Hr Hwf start n 0) as (calls & Hrun & Hin & Hval).
  unfold UpdateInfo.hasUpdates, mbind, outcome_bind. rewrite Hrun. eexists. split; [reflexivity|]. split.
  - intros Hb. destruct (last_write_last calls 0 n Hin) as (p & Hp & [v Hv]); [destruct calls; discriminate|].
    exists p, v. split; [lia|]. rewrite lookup_spec by assumption. f_equal.
    rewrite <- Hv. symmetry. apply (Hval p). lia.
  - intros (k & v & Hk & Hl). rewrite lookup_spec in Hl by assumption. injection Hl as Hl.
    destruct calls as [|c calls]; [|reflexivity]. specialize (Hval k Hk). cbn in Hval.
    unfold seen_value in Hval. congruence.
Qed.

Lemma hasUpdates_correct_witness :
  ∃ b, UpdateInfo.hasUpdates (START_TRANSACTION_ID + 1) 7 2048 10 sample_updates = Ok b ∧ b = true.
Proof.
  destruct (hasUpdates_correct sample_updates 7 (START_TRANSACTION_ID + 1) 2048 10 reader_7 sample_updates_wf)
    as (b & Hrun & Hb).
  exists b. split; [exact Hrun|]. apply Hb. exists 3, 20. split; [lia|]. vm_compute. reflexivity.
Defined.

(** [getNumUpdatedRows] collects rows of different vectors in one set without their vector: two
    updated rows at the same place in their vectors count once. *)
Lemma getNumUpdatedRows_undercounts :
  ∃ ui : UpdateInfo nat, wf_updates ui ∧
    UpdateInfo.getNumUpdatedRows (START_TRANSACTION_ID + 1) 7 ui = Ok 1 ∧
    UpdateInfo.lookup (START_TRANSACTION_ID + 1) 7 3 ui = Ok (Some 20) ∧
    UpdateInfo.lookup (START_TRANSACTION_ID + 1) 7 2051 ui = Ok (Some 30).
Proof.
  exists (MkUpdateInfo [[MkVectorUpdateInfo 0 4 [3] {[0 := 20]}]; [MkVectorUpdateInfo 1 4 [3] {[0 := 30]}]] 2).
  split; [|split_and!; vm_compute; reflexivity].
  repeat constructor; cbn; try (apply Nat.ltb_lt; vm_compute; reflexivity); try set_solver;
    intros [|i] Hi; try (rewrite lookup_singleton_eq; eauto); unfold numRowsUpdated in Hi; cbn in Hi; lia.
Qed.
