(* ===== verification/InMemFile.v ===== *)
(** * The in-memory file writer

    common/serializer/in_mem_file_writer.{h,cpp}: a [Writer] that collects its bytes in page-sized
    buffers, which a checkpoint then copies to pages of the data file. What a fresh buffer holds is
    unspecified, the parameter [blank]. *)

From stdpp Require Import base numbers list strings.
From Stdlib Require Import ZArith Lia.
From S2P Require Import Prelude.

Module InMemFile.

Abbreviation PAGE := KUZU_PAGE_SIZE.

Record InMemFileWriter := MkInMemFileWriter {
  pages : list (list Z);
  pageOffset : nat;
}.

(** The constructor, and [clear]. *)
Definition InMemFileWriter_new : InMemFileWriter := MkInMemFileWriter [] 0.
Definition clear (w : InMemFileWriter) : InMemFileWriter := MkInMemFileWriter [] 0.

(** [InMemFileWriter::needNewBuffer] *)
Definition needNewBuffer (size : nat) (w : InMemFileWriter) : bool :=
  match pages w with [] => true | _ => PAGE <? pageOffset w + size end.

(** [memcpy(page + off, data, length data)] *)
Definition copy_into (off : nat) (data page : list Z) : list Z :=
  take off page ++ data ++ drop (off + length data) page.

Definition alter_last (f : list Z → list Z) (ps : list (list Z)) : list (list Z) :=
  alter f (length ps - 1) ps.

(** The loop of [InMemFileWriter::write]; [data] is what remains of the [size] bytes. *)
Fixpoint write_loop (blank : list Z) (fuel size : nat) (data : list Z) (w : InMemFileWriter) :
    InMemFileWriter :=
  match fuel with
  | 0 => w
  | S fuel' =>
      if length data =? 0 then w
      else
        let '(data1, w1) :=
          if needNewBuffer size w then
            let '(rest, ps) :=
              match pages w with
              | [] => (data, [])
              | _ =>
                  let toCopy := Nat.min size (PAGE - pageOffset w) in
                  (drop toCopy data, alter_last (copy_into (pageOffset w) (take toCopy data)) (pages w))
              end in
            (rest, MkInMemFileWriter (ps ++ [blank]) 0)
          else (data, w) in
        let toCopy := Nat.min (length data1) (PAGE - pageOffset w1) in
        let w2 := MkInMemFileWriter
          (alter_last (copy_into (pageOffset w1) (take toCopy data1)) (pages w1))
          (pageOffset w1 + toCopy) in
        write_loop blank fuel' size (drop toCopy data1) w2
  end.

(** [InMemFileWriter::write]. Each round copies at least one byte, so [length data] rounds do. *)
Definition write (blank data : list Z) (w : InMemFileWriter) : InMemFileWriter :=
  write_loop blank (length data) (length data) data w.

(** [getNumPagesToFlush], [getSize] *)
Definition getNumPagesToFlush (w : InMemFileWriter) : nat := length (pages w).
Definition getSize (w : InMemFileWriter) : nat :=
  (if 1 <? length (pages w) then PAGE * (length (pages w) - 1) else 0) + pageOffset w.

(** [flush(Writer&)]: the bytes handed to the other writer. *)
Fixpoint flush_pages (ps : list (list Z)) (off : nat) : list Z :=
  match ps with
  | [] => []
  | [p] => take off p
  | p :: ps' => take PAGE p ++ flush_pages ps' off
  end.
Definition flush (w : InMemFileWriter) : list Z := flush_pages (pages w) (pageOffset w).

(** ** The invariant

    Buffers are pages, and the last one has some bytes; the bytes before the last page fill pages. *)

Record wf (w : InMemFileWriter) : Prop := {
  wf_pages : Forall (λ p, length p = PAGE) (pages w);
  wf_offset : match pages w with [] => pageOffset w = 0 | _ => 0 < pageOffset w ≤ PAGE end;
}.

Lemma writer_wf_new : wf InMemFileWriter_new.
Proof. split; [constructor|reflexivity]. Qed.

Lemma page_pos : 0 < PAGE.
Proof. apply Nat.ltb_lt. vm_compute. reflexivity. Qed.

(** A writer with pages, as its full pages and the last one. *)
Lemma pages_snoc w : pages w ≠ [] → ∃ front lastp, pages w = front ++ [lastp].
Proof. intros H. destruct (exists_last H) as (front & lastp & Heq). eauto. Qed.

Lemma alter_last_snoc f front (lastp : list Z) : alter_last f (front ++ [lastp]) = front ++ [f lastp].
Proof.
  unfold alter_last. rewrite length_app. cbn.
  replace (length front + 1 - 1) with (length front + 0) by lia. rewrite alter_app_r. reflexivity.
Qed.

Lemma flush_pages_snoc front lastp off :
  Forall (λ p, length p = PAGE) front → flush_pages (front ++ [lastp]) off = concat front ++ take off lastp.
Proof.
  intros H. induction H as [|p front Hp _ IH]; [reflexivity|].
  cbn [app]. destruct (front ++ [lastp]) as [|q qs] eqn:Hq; [destruct front; discriminate|].
  change (flush_pages (p :: q :: qs) off) with (take PAGE p ++ flush_pages (q :: qs) off).
  rewrite IH, take_ge by lia. cbn. apply app_assoc.
Qed.

Lemma copy_into_length off data page :
  off + length data ≤ length page → length (copy_into off data page) = length page.
Proof. intros H. unfold copy_into. rewrite !length_app, length_take, length_drop. lia. Qed.

Lemma copy_into_take off data page :
  off + length data ≤ length page →
  take (off + length data) (copy_into off data page) = take off page ++ data.
Proof.
  intros H. unfold copy_into. rewrite (app_assoc (take off page)).
  apply take_app_length'. rewrite length_app, length_take. lia.
Qed.

(** Copying into the last page, where it fits. *)
Lemma fill_last front lastp off data :
  Forall (λ p, length p = PAGE) (front ++ [lastp]) → off + length data ≤ PAGE →
  Forall (λ p, length p = PAGE) (front ++ [copy_into off data lastp]) ∧
  flush_pages (front ++ [copy_into off data lastp]) (off + length data) =
    flush_pages (front ++ [lastp]) off ++ data.
Proof.
  intros Hf Hlen. apply Forall_app in Hf as [Hf Hl]. apply Forall_cons in Hl as [Hl _]. split.
  - apply Forall_app. split; [exact Hf|]. repeat constructor. rewrite copy_into_length; lia.
  - rewrite !flush_pages_snoc, copy_into_take by (try exact Hf; lia). apply app_assoc.
Qed.

Section Writing.
Context (blank : list Z) (Hblank : length blank = PAGE).

Lemma full_pages_flush ps : Forall (λ p, length p = PAGE) ps → flush_pages (ps ++ [blank]) 0 = concat ps.
Proof. intros H. rewrite flush_pages_snoc by exact H. apply app_nil_r. Qed.

Lemma nonempty_length (l : list Z) : l ≠ [] → 0 < length l.
Proof. destruct l; [contradiction|]. intros _. cbn. lia. Qed.

Lemma alter_last_nonempty f ps : ps ≠ [] → alter_last f ps ≠ [].
Proof.
  intros H. unfold alter_last. intros Heq. apply (f_equal length) in Heq. rewrite length_alter in Heq.
  cbn in Heq. apply nil_length_inv in Heq. contradiction.
Qed.

(** Starting a fresh page after full ones. *)
Lemma start_page ps rest w2 :
  Forall (λ p, length p = PAGE) ps → rest ≠ [] →
  w2 = MkInMemFileWriter (alter_last (copy_into 0 (take (Nat.min (length rest) PAGE) rest)) (ps ++ [blank]))
         (0 + Nat.min (length rest) PAGE) →
  wf w2 ∧ flush w2 = concat ps ++ take (Nat.min (length rest) PAGE) rest ∧
  pageOffset w2 = Nat.min (length rest) PAGE.
Proof.
  intros Hps Hrest ->. set (n := Nat.min (length rest) PAGE).
  assert (Hn : 0 < n ≤ PAGE).
  { pose proof page_pos. pose proof (nonempty_length rest Hrest). unfold n. lia. }
  assert (Hlen : length (take n rest) = n) by (rewrite length_take; unfold n; lia).
  rewrite alter_last_snoc.
  destruct (fill_last ps blank 0 (take n rest)) as [H1 H2]; [|rewrite Hlen; lia|].
  { apply Forall_app. split; [exact Hps|]. repeat constructor. exact Hblank. }
  rewrite Hlen in H2. split; [|split; [|reflexivity]].
  - split; cbn [pages pageOffset]; [exact H1|]. destruct ps; exact Hn.
  - unfold flush. cbn [pages pageOffset]. rewrite H2, full_pages_flush by exact Hps. reflexivity.
Qed.

(** Filling up the last page. *)
Lemma fill_page w data :
  wf w → pages w ≠ [] → PAGE - pageOffset w ≤ length data →
  let filled := alter_last (copy_into (pageOffset w) (take (PAGE - pageOffset w) data)) (pages w) in
  Forall (λ p, length p = PAGE) filled ∧ concat filled = flush w ++ take (PAGE - pageOffset w) data.
Proof.
  intros [Hp Ho] Hne Hlen. destruct (pages_snoc w Hne) as (front & lastp & Heq). cbn zeta.
  unfold flush. rewrite Heq in *. rewrite alter_last_snoc. set (k := PAGE - pageOffset w) in *.
  assert (Hoff : pageOffset w + length (take k data) = PAGE).
  { rewrite length_take. destruct front; cbn in Ho; unfold k in *; lia. }
  destruct (fill_last front lastp (pageOffset w) (take k data) Hp ltac:(lia)) as [H1 H2].
  split; [exact H1|]. rewrite <- H2, Hoff. apply Forall_app in H1 as [H1 H3].
  apply Forall_cons in H3 as [H3 _]. rewrite flush_pages_snoc, (take_ge (copy_into _ _ _)), concat_app by (try exact H1; lia).
  cbn. rewrite app_nil_r. reflexivity.
Qed.

(** Data that fits the last page. *)
Lemma append_page w data :
  wf w → pages w ≠ [] → data ≠ [] → pageOffset w + length data ≤ PAGE →
  let w' := MkInMemFileWriter (alter_last (copy_into (pageOffset w) data) (pages w))
              (pageOffset w + length data) in
  wf w' ∧ flush w' = flush w ++ data.
Proof.
  intros [Hp Ho] Hne Hd Hlen. destruct (pages_snoc w Hne) as (front & lastp & Heq). cbn zeta.
  unfold flush. cbn [pages pageOffset]. rewrite Heq in *. rewrite alter_last_snoc.
  destruct (fill_last front lastp (pageOffset w) data Hp Hlen) as [H1 H2].
  split; [|exact H2]. split; cbn [pages pageOffset]; [exact H1|].
  destruct data; [contradiction|]. destruct front; cbn in *; lia.
Qed.

(** The loop is about to end, has not copied anything yet, or is at the end of a page. *)
Definition loop_state (size : nat) (data : list Z) (w : InMemFileWriter) : Prop :=
  data = [] ∨ length data = size ∨ (pages w ≠ [] ∧ pageOffset w = PAGE).

Definition loop_correct (fuel size : nat) : Prop := ∀ data w,
  wf w → length data ≤ fuel → length data ≤ size → loop_state size data w →
  wf (write_loop blank fuel size data w) ∧ flush (write_loop blank fuel size data w) = flush w ++ data.

(** A round that starts a page with [rest] after the full pages [ps]. *)
Lemma page_round fuel size ps rest :
  loop_correct fuel size → Forall (λ p, length p = PAGE) ps → rest ≠ [] →
  length rest ≤ S fuel → length rest ≤ size →
  let n := Nat.min (length rest) (PAGE - 0) in
  let w2 := MkInMemFileWriter (alter_last (copy_into 0 (take n rest)) (ps ++ [blank])) (0 + n) in
  wf (write_loop blank fuel size (drop n rest) w2) ∧
  flush (write_loop blank fuel size (drop n rest) w2) = concat ps ++ rest.
Proof.
  intros Hrec Hps Hrest Hf Hs. cbn zeta. rewrite Nat.sub_0_r.
  destruct (start_page ps rest _ Hps Hrest eq_refl) as (Hw & Hfl & Hoff).
  set (w2 := MkInMemFileWriter _ _) in *. set (n := Nat.min (length rest) PAGE) in *.
  pose proof page_pos. pose proof (nonempty_length rest Hrest).
  destruct (Hrec (drop n rest) w2 Hw) as [H1 H2].
  - rewrite length_drop. unfold n. lia.
  - rewrite length_drop. lia.
  - destruct (decide (length rest ≤ PAGE)) as [Hl|Hl].
    + left. apply drop_ge. unfold n. lia.
    + right. right. split; [apply alter_last_nonempty; destruct ps; discriminate|]. rewrite Hoff. unfold n. lia.
  - split; [exact H1|]. rewrite H2, Hfl, <- app_assoc, take_drop. reflexivity.
Qed.

Lemma write_loop_spec fuel size : loop_correct fuel size.
Proof.
  induction fuel as [|fuel IH]; intros data w Hwf Hf Hs Hcase.
  { destruct data; [cbn; rewrite app_nil_r; auto|cbn in Hf; lia]. }
  cbn [write_loop]. destruct (length data =? 0) eqn:Hz; zbool.
  { apply nil_length_inv in Hz as ->. rewrite app_nil_r. auto. }
  assert (Hne : data ≠ []) by (intros ->; cbn in Hz; lia). unfold needNewBuffer.
  destruct (decide (pages w = [])) as [Hp|Hp].
  - rewrite Hp. cbn [pages pageOffset].
    destruct (page_round fuel size [] data IH) as [H1 H2]; try assumption; [constructor|].
    split; [exact H1|]. etransitivity; [exact H2|]. unfold flush. rewrite Hp. reflexivity.
  - destruct (pages w) as [|p0 ps0] eqn:Hpw; [contradiction|]. rewrite <- Hpw in *. clear Hp.
    assert (Hpne : pages w ≠ []) by (rewrite Hpw; discriminate).
    assert (Hoff : 0 < pageOffset w ≤ PAGE) by (pose proof (wf_offset _ Hwf) as Ho; rewrite Hpw in Ho; exact Ho).
    destruct (PAGE <? pageOffset w + size) eqn:Hneed; zbool.
    + assert (Hk : Nat.min size (PAGE - pageOffset w) = PAGE - pageOffset w) by lia. rewrite Hk.
      assert (Hkd : PAGE - pageOffset w < length data).
      { destruct Hcase as [->|[Hd|[_ Hd]]]; [contradiction|lia|lia]. }
      destruct (fill_page w data Hwf Hpne ltac:(lia)) as [H1 H2].
      assert (Hrest : drop (PAGE - pageOffset w) data ≠ []).
      { intros Hd. apply (f_equal length) in Hd. rewrite length_drop in Hd. cbn in Hd. lia. }
      destruct (page_round fuel size _ _ IH H1 Hrest) as [H3 H4]; [rewrite length_drop; lia|rewrite length_drop; lia|].
      cbn [pages pageOffset]. split; [exact H3|]. rewrite H4, H2, <- app_assoc, take_drop. reflexivity.
    + assert (Hd : length data = size) by (destruct Hcase as [->|[Hd|[_ Hd]]]; [contradiction|exact Hd|lia]).
      replace (Nat.min (length data) (PAGE - pageOffset w)) with (length data) by lia.
      rewrite take_ge, drop_ge by lia.
      destruct (append_page w data Hwf Hpne Hne ltac:(lia)) as [H1 H2].
      destruct (IH [] _ H1) as [H3 H4]; [cbn; lia|cbn; lia|left; reflexivity|].
      split; [exact H3|]. rewrite H4, app_nil_r. exact H2.
Qed.

(** Writing appends to the bytes of the file. *)
Lemma write_appends data w : wf w → wf (write blank data w) ∧ flush (write blank data w) = flush w ++ data.
Proof. intros Hwf. apply write_loop_spec; [exact Hwf|lia|lia|right; left; reflexivity]. Qed.

(** Several writes, as a serializer makes them. *)
Definition write_all (ds : list (list Z)) (w : InMemFileWriter) : InMemFileWriter :=
  fold_left (λ w d, write blank d w) ds w.

Lemma write_all_appends ds w :
  wf w → wf (write_all ds w) ∧ flush (write_all ds w) = flush w ++ concat ds.
Proof.
  unfold write_all. revert w. induction ds as [|d ds IH]; intros w Hwf; cbn [fold_left concat];
    [rewrite app_nil_r; auto|].
  destruct (write_appends d w Hwf) as [H1 H2]. destruct (IH _ H1) as [H3 H4].
  split; [exact H3|]. rewrite H4, H2, app_assoc. reflexivity.
Qed.

End Writing.

(** The number of bytes, and of pages, of a writer. *)
Lemma flush_length w :
  wf w → length (flush w) = getSize w ∧
  (pages w = [] ∨ length (flush w) = PAGE * (length (pages w) - 1) + pageOffset w).
Proof.
  intros [Hp Ho]. destruct (decide (pages w = [])) as [He|Hne].
  - unfold flush, getSize. rewrite He in *. cbn. auto.
  - destruct (pages_snoc w Hne) as (front & lastp & Heq). unfold flush, getSize. rewrite Heq in *.
    apply Forall_app in Hp as [Hf Hl]. apply Forall_cons in Hl as [Hl _].
    assert (Hc : length (concat front) = PAGE * length front).
    { clear -Hf. induction Hf as [|p l Hp _ IH]; [cbn; lia|]. cbn. rewrite length_app, IH, Hp. lia. }
    rewrite flush_pages_snoc, length_app, length_take, Hc, length_app by exact Hf. cbn [length].
    assert (pageOffset w ≤ PAGE) by (destruct front; cbn in Ho; lia).
    replace (length front + 1 - 1) with (length front) by lia. split; [|right; lia].
    destruct (1 <? length front + 1) eqn:H1; zbool; [lia|]. assert (length front = 0) by lia. lia.
Qed.

Lemma pages_bound w p : wf w → length (flush w) ≤ PAGE * p → getNumPagesToFlush w ≤ p.
Proof.
  intros Hwf Hp. unfold getNumPagesToFlush.
  destruct (flush_length w Hwf) as [_ [He|Hl]]; [rewrite He; cbn; lia|].
  pose proof (wf_offset _ Hwf) as Ho. pose proof page_pos as Hpos. rewrite Hl in Hp.
  destruct (pages w) as [|q qs]; [cbn; lia|]. cbn [length] in *.
  destruct (decide (S (length qs) ≤ p)) as [|Hgt]; [assumption|exfalso].
  assert (PAGE * p ≤ PAGE * length qs) by (apply Nat.mul_le_mono_l; lia).
  replace (S (length qs) - 1) with (length qs) in Hp by lia. lia.
Qed.

End InMemFile.
