(* ===== verification/FreeSpace.v ===== *)
(** * Free space and page allocation

    storage/free_space_manager.cpp, storage/page_manager.cpp, storage/optimistic_allocator.cpp: the
    free page ranges of the data file, in one ordered set per power of two of their size; freed
    ranges wait in a list until a checkpoint completes, which merges them into the sets. The file
    handle is what these use of it: its number of pages and the pages evicted from the buffer
    manager's frames. Page numbers are [uint32_t] in the code; the ranges lie inside a file of fewer
    than 2^32 pages, so their sums do not wrap. *)

From stdpp Require Import base numbers list sorting strings.
From Stdlib Require Import ZArith Lia.
From S2P Require Import Prelude Serializer.
Import Serializer.

Module FreeSpace.

Record PageRange := MkPageRange { startPageIdx : nat; numPages : nat }.

#[global] Instance PageRange_eq_dec : EqDecision PageRange.
Proof. solve_decision. Defined.

(** [PageRange::subrange] *)
Definition subrange (r : PageRange) (newStartPage : nat) : outcome PageRange :=
  ku_assert_o (newStartPage <=? numPages r) ;;
  Ok (MkPageRange (startPageIdx r + newStartPage) (numPages r - newStartPage)).

(** [FreeSpaceManager::entryCmp]: by size, then by position. *)
Definition entryCmp (a b : PageRange) : bool :=
  if numPages a =? numPages b then startPageIdx a <? startPageIdx b else numPages a <? numPages b.

(** *** [std::set<PageRange, entryCmp>], as the list of its elements in order *)

Fixpoint set_insert (x : PageRange) (l : list PageRange) : list PageRange :=
  match l with
  | [] => [x]
  | y :: l' => if entryCmp x y then x :: l
               else if entryCmp y x then y :: set_insert x l' else l
  end.

(** The iterator of [lower_bound], as the elements before it and those from it on. *)
Fixpoint lower_bound (x : PageRange) (l : list PageRange) : list PageRange * list PageRange :=
  match l with
  | [] => ([], [])
  | y :: l' => if entryCmp y x then let '(a, b) := lower_bound x l' in (y :: a, b) else ([], l)
  end.

Definition set_contains (x : PageRange) (l : list PageRange) : bool :=
  match (lower_bound x l).2 with
  | y :: _ => negb (entryCmp x y)
  | [] => false
  end.

(** *** The manager *)

Record FreeSpaceManager := MkFreeSpaceManager {
  freeLists : list (list PageRange);
  uncheckpointedFreePageRanges : list PageRange;
  numEntries : nat;
  needClearEvictedEntries : bool;
}.

(** The constructor [FreeSpaceManager()]. *)
Definition FreeSpaceManager_new : FreeSpaceManager := MkFreeSpaceManager [] [] 0 false.

Definition set_freeLists l (m : FreeSpaceManager) :=
  MkFreeSpaceManager l (uncheckpointedFreePageRanges m) (numEntries m) (needClearEvictedEntries m).
Definition set_unchk l (m : FreeSpaceManager) :=
  MkFreeSpaceManager (freeLists m) l (numEntries m) (needClearEvictedEntries m).
Definition set_numEntries n (m : FreeSpaceManager) :=
  MkFreeSpaceManager (freeLists m) (uncheckpointedFreePageRanges m) n (needClearEvictedEntries m).
Definition set_needClear b (m : FreeSpaceManager) :=
  MkFreeSpaceManager (freeLists m) (uncheckpointedFreePageRanges m) (numEntries m) b.

(** [std::bit_floor] and [CountZeros::Trailing] *)
Definition bit_floor (n : nat) : nat := if n =? 0 then 0 else 2 ^ Nat.log2 n.
Fixpoint trailing_zeros_pos (p : positive) : nat :=
  match p with
  | xO p' => S (trailing_zeros_pos p')
  | _ => 0
  end.
Definition trailing_zeros (n : nat) : nat :=
  match N.of_nat n with N0 => 32 | Npos p => trailing_zeros_pos p end.

(** [FreeSpaceManager::getLevel] *)
Definition getLevel (n : nat) : outcome nat :=
  ku_assert_o (0 <? n) ;; Ok (trailing_zeros (bit_floor n)).

(** [getFreeList], as the lists afterwards. *)
Definition ensure_level (level : nat) (l : list (list PageRange)) : list (list PageRange) :=
  if length l <=? level then l ++ replicate (level + 1 - length l) [] else l.

(** [FreeSpaceManager::addFreePages] *)
Definition addFreePages (entry : PageRange) : M FreeSpaceManager unit :=
  ku_assert (0 <? numPages entry) ;;
  level ← observe (λ _, getLevel (numPages entry));
  modify (λ m, set_freeLists (ensure_level level (freeLists m)) m) ;;
  m ← get_state;
  let freeList := default [] (freeLists m !! level) in
  ku_assert (negb (set_contains entry freeList)) ;;
  modify (set_freeLists (<[level:=set_insert entry freeList]> (freeLists m))) ;;
  modify (λ m, set_numEntries (S (numEntries m)) m).

(** [FreeSpaceManager::addUncheckpointedFreePages], [rollbackCheckpoint] and [resetFreeLists] *)
Definition addUncheckpointedFreePages (entry : PageRange) (m : FreeSpaceManager) : FreeSpaceManager :=
  set_unchk (uncheckpointedFreePageRanges m ++ [entry]) m.
Definition rollbackCheckpoint (m : FreeSpaceManager) : FreeSpaceManager := set_unchk [] m.
Definition resetFreeLists (m : FreeSpaceManager) : FreeSpaceManager :=
  set_numEntries 0 (set_freeLists [] m).

(** [FreeSpaceManager::splitPageRange] *)
Definition splitPageRange (chunk : PageRange) (numRequiredPages : nat) : M FreeSpaceManager PageRange :=
  ku_assert (numRequiredPages <=? numPages chunk) ;;
  (if numRequiredPages <? numPages chunk then
     addFreePages (MkPageRange (startPageIdx chunk + numRequiredPages)
                               (numPages chunk - numRequiredPages))
   else mret tt) ;;
  mret (MkPageRange (startPageIdx chunk) numRequiredPages).

(** The loop of [FreeSpaceManager::popFreePages] over the levels from [level] on. *)
Fixpoint search_levels (n level : nat) (lists : list (list PageRange)) :
    option (nat * list PageRange * PageRange * list PageRange) :=
  match lists with
  | [] => None
  | curList :: lists' =>
      match lower_bound (MkPageRange 0 n) curList with
      | (before, entry :: after) => Some (level, before, entry, after)
      | (_, []) => search_levels n (S level) lists'
      end
  end.

(** [FreeSpaceManager::popFreePages] *)
Definition popFreePages (n : nat) : M FreeSpaceManager (option PageRange) :=
  if 0 <? n then
    levelToSearch ← observe (λ _, getLevel n);
    m ← get_state;
    match search_levels n levelToSearch (drop levelToSearch (freeLists m)) with
    | Some (level, before, entry, after) =>
        modify (set_freeLists (<[level:=before ++ after]> (freeLists m))) ;;
        modify (λ m, set_numEntries (numEntries m - 1) m) ;;
        r ← splitPageRange entry n; mret (Some r)
    | None => mret None
    end
  else mret None.

(** *** Iterating over the entries *)

(** [FreeEntryIterator]: the list it is in and the elements from the current one on. *)
Record FreeEntryIterator := MkFreeEntryIterator {
  freeListIdx : nat;
  freeListIt : list PageRange;
}.

(** [FreeEntryIterator::advanceFreeListIdx] over the lists from [idx] on. *)
Fixpoint advanceFreeListIdx (idx : nat) (lists : list (list PageRange)) : FreeEntryIterator :=
  match lists with
  | [] => MkFreeEntryIterator idx []
  | [] :: lists' => advanceFreeListIdx (S idx) lists'
  | l :: _ => MkFreeEntryIterator idx l
  end.

Definition iterator_begin (lists : list (list PageRange)) : FreeEntryIterator := advanceFreeListIdx 0 lists.
Definition done (lists : list (list PageRange)) (it : FreeEntryIterator) : bool :=
  length lists <=? freeListIdx it.

(** [FreeEntryIterator::operator++] *)
Definition iterator_next (lists : list (list PageRange)) (it : FreeEntryIterator) :
    outcome FreeEntryIterator :=
  ku_assert_o (freeListIdx it <? length lists) ;;
  match freeListIt it with
  | [] => Throw (UndefinedBehaviour "freeListIt")
  | _ :: rest =>
      match rest with
      | [] => Ok (advanceFreeListIdx (S (freeListIdx it)) (drop (S (freeListIdx it)) lists))
      | _ => Ok (MkFreeEntryIterator (freeListIdx it) rest)
      end
  end.

(** [FreeEntryIterator::operator*] *)
Definition iterator_get (lists : list (list PageRange)) (it : FreeEntryIterator) : outcome PageRange :=
  ku_assert_o (freeListIdx it <? length lists) ;;
  match freeListIt it with
  | [] => Throw assert_failure
  | x :: _ => Ok x
  end.

(** [FreeEntryIterator::advance] *)
Fixpoint advance (lists : list (list PageRange)) (n : nat) (it : FreeEntryIterator) :
    outcome FreeEntryIterator :=
  match n with
  | 0 => Ok it
  | S n' => it' ← iterator_next lists it; advance lists n' it'
  end.

Fixpoint collect (lists : list (list PageRange)) (n : nat) (it : FreeEntryIterator) :
    outcome (list PageRange) :=
  match n with
  | 0 => Ok []
  | S n' =>
      ku_assert_o (negb (done lists it)) ;;
      x ← iterator_get lists it;
      it' ← iterator_next lists it;
      rest ← collect lists n' it';
      Ok (x :: rest)
  end.

(** [FreeSpaceManager::getEntries] *)
Definition getEntries (startOffset endOffset : nat) (m : FreeSpaceManager) : outcome (list PageRange) :=
  ku_assert_o (startOffset <=? endOffset) ;;
  it ← advance (freeLists m) startOffset (iterator_begin (freeLists m));
  collect (freeLists m) (endOffset - startOffset) it.

(** *** Persisting *)

(** What [serializeInternal] hands to its value processor. *)
Inductive item :=
  | DebuggingInfo (s : string)
  | PageIdx (x : nat)      (* [page_idx_t], 4 bytes *)
  | RowIdx (x : nat).      (* [row_idx_t], 8 bytes *)

Definition entry_items (r : PageRange) : list item := [PageIdx (startPageIdx r); PageIdx (numPages r)].

(** The loop of [serializeCheckpointedEntries]: a list never has more than [fuel] entries when [fuel]
    is their number. *)
Fixpoint checkpointed_items (lists : list (list PageRange)) (fuel : nat) (it : FreeEntryIterator) :
    outcome (list item * nat) :=
  match fuel with
  | 0 => Ok ([], 0)
  | S fuel' =>
      if done lists it then Ok ([], 0)
      else
        x ← iterator_get lists it;
        it' ← iterator_next lists it;
        p ← checkpointed_items lists fuel' it';
        Ok (entry_items x ++ p.1, S p.2)
  end.

Definition total_entries (lists : list (list PageRange)) : nat := length (concat lists).

(** [FreeSpaceManager::serializeInternal] *)
Definition serializeInternal (m : FreeSpaceManager) : outcome (list item) :=
  let total := numEntries m + length (uncheckpointedFreePageRanges m) in
  p ← checkpointed_items (freeLists m) (S (total_entries (freeLists m))) (iterator_begin (freeLists m));
  ku_assert_o (p.2 + length (uncheckpointedFreePageRanges m) =? total) ;;
  Ok ([DebuggingInfo "page_manager"; DebuggingInfo "numEntries"; RowIdx total; DebuggingInfo "entries"]
        ++ p.1 ++ (uncheckpointedFreePageRanges m ≫= entry_items)).

(** [ValueSerializer] *)
Definition item_bytes (dbg : bool) (i : item) : list Z :=
  match i with
  | DebuggingInfo s => writeDebuggingInfo dbg s
  | PageIdx x => serializeValue 4 (Z.of_nat x)
  | RowIdx x => serializeValue 8 (Z.of_nat x)
  end.

(** [FreeSpaceManager::serialize]: the bytes written. *)
Definition serialize (dbg : bool) (m : FreeSpaceManager) : outcome (list Z) :=
  items ← serializeInternal m; Ok (items ≫= item_bytes dbg).

(** [SerializePagesUsedTracker] *)
Record SerializePagesUsedTracker := MkTracker { numPagesUsed : nat; numBytesUsedInPage : nat }.

Definition updatePagesUsed (numBytesToAdd : nat) (t : SerializePagesUsedTracker) :
    SerializePagesUsedTracker :=
  if KUZU_PAGE_SIZE <? numBytesUsedInPage t + numBytesToAdd
  then MkTracker (S (numPagesUsed t)) numBytesToAdd
  else MkTracker (numPagesUsed t) (numBytesUsedInPage t + numBytesToAdd).

Definition item_size (i : item) : nat :=
  match i with DebuggingInfo s => 8 + String.length s | PageIdx _ => 4 | RowIdx _ => 8 end.

(** [FreeSpaceManager::getMaxNumPagesForSerialization] *)
Definition getMaxNumPagesForSerialization (m : FreeSpaceManager) : outcome nat :=
  items ← serializeInternal m;
  let t := fold_left (λ t i, updatePagesUsed (item_size i) t) items (MkTracker 0 0) in
  Ok (numPagesUsed t + if 0 <? numBytesUsedInPage t then 1 else 0).

(** The loop of [FreeSpaceManager::deserialize]. *)
Fixpoint deserialize_entries (n : nat) : M (list Z * FreeSpaceManager) unit :=
  λ '(bs, m),
    match n with
    | 0 => (Ok tt, (bs, m))
    | S n' =>
        match (start ← deserializeValue 4; num ← deserializeValue 4;
               mret (MkPageRange (Z.to_nat start) (Z.to_nat num))) bs with
        | (Throw e, bs') => (Throw e, (bs', m))
        | (Ok entry, bs') =>
            match addFreePages entry m with
            | (Throw e, m') => (Throw e, (bs', m'))
            | (Ok _, m') => deserialize_entries n' (bs', m')
            end
        end
    end.

(** [FreeSpaceManager::deserialize], on the stream and the manager. *)
Definition deserialize (dbg : bool) : M (list Z * FreeSpaceManager) unit :=
  λ '(bs, m),
    match (validateDebuggingInfo dbg "page_manager" ;; validateDebuggingInfo dbg "numEntries" ;;
           n ← deserializeValue 8; validateDebuggingInfo dbg "entries" ;; mret n) bs with
    | (Throw e, bs') => (Throw e, (bs', m))
    | (Ok n, bs') => deserialize_entries (Z.to_nat n) (bs', m)
    end.

(** *** Checkpoints *)

(** What is used of the [FileHandle]: its pages, how many fit its page groups, the frame groups it has, and how the
    buffer manager answers the requests to come, [true] for one that is granted; when the list is used up all are. *)
Record FileHandle := MkFileHandle {
  fileNumPages : nat;
  pageCapacity : nat;
  frameGroups : nat;
  inMemoryMode : bool;
  bmAnswers : list bool;
  evictedPages : list nat }.

Definition PAGE_GROUP_SIZE : nat := 2 ^ 10.
#[global] Arguments PAGE_GROUP_SIZE : simpl never.
(** A number kept in a [page_idx_t]. *)
Definition page_idx (n : nat) : nat := Z.to_nat (uwrap 32 (Z.of_nat n)).

Definition set_pages (n capacity groups : nat) (fh : FileHandle) : FileHandle :=
  MkFileHandle n capacity groups (inMemoryMode fh) (bmAnswers fh) (evictedPages fh).
Definition set_answers (l : list bool) (fh : FileHandle) : FileHandle :=
  MkFileHandle (fileNumPages fh) (pageCapacity fh) (frameGroups fh) (inMemoryMode fh) l (evictedPages fh).

(** A request to the buffer manager, which throws when it is not granted. *)
Definition request (msg : string) : M FileHandle unit :=
  fh ← get_state;
  match bmAnswers fh with
  | [] => mret tt
  | granted :: l => put_state (set_answers l fh) ;; if (granted : bool) then mret tt else raise (BufferManagerException msg)
  end.

(** [FileHandle::addNewPageGroupWithoutLock] *)
Definition addNewPageGroupWithoutLock : M FileHandle unit :=
  modify (λ fh, set_pages (fileNumPages fh) (page_idx (pageCapacity fh + PAGE_GROUP_SIZE)) (frameGroups fh) fh) ;;
  request "No more frame groups can be added to the allocator." ;;
  modify (λ fh, set_pages (fileNumPages fh) (pageCapacity fh) (S (frameGroups fh)) fh).

(** [FileHandle::addNewPageWithoutLock]; the pages of a file in memory mode are pinned at once. *)
Definition addNewPageWithoutLock : M FileHandle nat :=
  fh ← get_state;
  (if fileNumPages fh =? pageCapacity fh then addNewPageGroupWithoutLock else mret tt) ;;
  modify (λ fh, set_pages (page_idx (S (fileNumPages fh))) (pageCapacity fh) (frameGroups fh) fh) ;;
  (if inMemoryMode fh then request "Unable to allocate memory! The buffer pool is full and no memory could be freed!" else mret tt) ;;
  mret (fileNumPages fh).

(** [FileHandle::addNewPages] *)
Fixpoint add_pages (n : nat) : M FileHandle unit :=
  match n with
  | 0 => mret tt
  | S n' => addNewPageWithoutLock ;; add_pages n'
  end.
Definition addNewPages (n : nat) : M FileHandle nat :=
  fh ← get_state;
  add_pages n ;;
  mret (fileNumPages fh).

(** [FileHandle::removePageIdxAndTruncateIfNecessary] *)
Definition getNumPageGroups (n : nat) : nat := (n + PAGE_GROUP_SIZE - 1) / PAGE_GROUP_SIZE.
Definition removePageIdxAndTruncateIfNecessary (pageIdx : nat) : M FileHandle unit :=
  fh ← get_state;
  if fileNumPages fh <=? pageIdx then mret tt
  else
    put_state (set_pages pageIdx (pageCapacity fh) (frameGroups fh) fh) ;;
    let numPageGroups := getNumPageGroups pageIdx in
    if numPageGroups =? frameGroups fh then mret tt
    else
      ku_assert (numPageGroups <? frameGroups fh) ;;
      put_state (set_pages pageIdx (numPageGroups * PAGE_GROUP_SIZE) numPageGroups fh).

(** The manager together with the file it is called for. *)
Definition Store : Type := FreeSpaceManager * FileHandle.

Definition on_manager {A} (m : M FreeSpaceManager A) : M Store A :=
  λ '(fsm, fh), let '(r, fsm') := m fsm in (r, (fsm', fh)).
Definition on_file {A} (m : M FileHandle A) : M Store A :=
  λ '(fsm, fh), let '(r, fh') := m fh in (r, (fsm, fh')).

(** [FreeSpaceManager::evictPages] *)
Definition add_evicted (l : list nat) (fh : FileHandle) : FileHandle :=
  MkFileHandle (fileNumPages fh) (pageCapacity fh) (frameGroups fh) (inMemoryMode fh) (bmAnswers fh) (evictedPages fh ++ l).
Definition evictPages (entry : PageRange) : M Store unit :=
  modify (λ '(fsm, fh), (set_needClear true fsm, add_evicted (seq (startPageIdx entry) (numPages entry)) fh)).

(** [FreeSpaceManager::evictAndAddFreePages] *)
Definition evictAndAddFreePages (entry : PageRange) : M Store unit :=
  evictPages entry ;; on_manager (addFreePages entry).

(** [FreeSpaceManager::handleLastPageRange] *)
Definition handleLastPageRange (r : PageRange) : M Store unit :=
  s ← get_state;
  if startPageIdx r + numPages r =? fileNumPages s.2
  then on_file (removePageIdxAndTruncateIfNecessary (startPageIdx r))
  else on_manager (addFreePages r).

(** The loop of [mergePageRanges] over the sorted entries after the first one. *)
Fixpoint merge_loop (prevEntry : PageRange) (entries : list PageRange) : M FreeSpaceManager PageRange :=
  match entries with
  | [] => mret prevEntry
  | entry :: entries' =>
      ku_assert (startPageIdx prevEntry + numPages prevEntry <=? startPageIdx entry) ;;
      if startPageIdx prevEntry + numPages prevEntry =? startPageIdx entry
      then merge_loop (MkPageRange (startPageIdx prevEntry) (numPages prevEntry + numPages entry)) entries'
      else addFreePages prevEntry ;; merge_loop entry entries'
  end.

Definition starts_before (a b : PageRange) : Prop := startPageIdx a ≤ startPageIdx b.
#[global] Instance starts_before_dec a b : Decision (starts_before a b).
Proof. unfold starts_before. apply _. Defined.

(** [FreeSpaceManager::mergePageRanges] *)
Definition mergePageRanges (newInitialEntries : list PageRange) : M Store unit :=
  s ← get_state;
  let allEntries := newInitialEntries ++ concat (freeLists s.1) in
  match merge_sort starts_before allEntries with
  | [] => mret tt
  | first :: rest =>
      on_manager (modify resetFreeLists) ;;
      lastEntry ← on_manager (merge_loop first rest);
      handleLastPageRange lastEntry
  end.

(** [FreeSpaceManager::finalizeCheckpoint] *)
Definition finalizeCheckpoint : M Store unit :=
  s ← get_state;
  for_each (uncheckpointedFreePageRanges s.1) evictPages ;;
  mergePageRanges (uncheckpointedFreePageRanges s.1) ;;
  on_manager (modify (set_unchk [])).

(** [clearEvictedBufferManagerEntriesIfNeeded]: whether the buffer manager is called. *)
Definition clearEvictedBufferManagerEntriesIfNeeded (m : FreeSpaceManager) : bool * FreeSpaceManager :=
  if needClearEvictedEntries m then (true, set_needClear false m) else (false, m).

(** *** [PageManager] *)

Record PageManager := MkPageManager { store : Store; version : nat }.

Definition on_store {A} (m : M Store A) : M PageManager A :=
  λ pm, let '(r, s') := m (store pm) in (r, MkPageManager s' (version pm)).
Definition bump : M PageManager unit := modify (λ pm, MkPageManager (store pm) (S (version pm))).

(** [PageManager::allocatePageRange] *)
Definition allocatePageRange (n : nat) : M PageManager PageRange :=
  popped ← on_store (on_manager (popFreePages n));
  match popped with
  | Some r => bump ;; mret r
  | None =>
      start ← on_store (on_file (addNewPages n));
      pm ← get_state;
      ku_assert (start + n <=? fileNumPages (store pm).2) ;;
      mret (MkPageRange start n)
  end.

(** [PageManager::freePageRange] *)
Definition freePageRange (entry : PageRange) : M PageManager unit :=
  on_store (on_manager (modify (addUncheckpointedFreePages entry))) ;; bump.

(** [PageManager::freeImmediatelyRewritablePageRange] *)
Definition freeImmediatelyRewritablePageRange (entry : PageRange) : M PageManager unit :=
  on_store (evictAndAddFreePages entry) ;; bump.

(** [PageManager::finalizeCheckpoint] and [PageManager::rollbackCheckpoint] *)
Definition pm_finalizeCheckpoint : M PageManager unit := on_store finalizeCheckpoint.
Definition pm_rollbackCheckpoint : M PageManager unit :=
  on_store (on_manager (modify rollbackCheckpoint)).

(** *** [OptimisticAllocator]: a page manager and the pages allocated through this object. *)

Record OptimisticAllocator := MkOptimisticAllocator {
  pageManager : PageManager;
  optimisticallyAllocatedPages : list PageRange;
}.

Definition on_pages {A} (m : M PageManager A) : M OptimisticAllocator A :=
  λ oa, let '(r, pm') := m (pageManager oa) in
        (r, MkOptimisticAllocator pm' (optimisticallyAllocatedPages oa)).

(** [OptimisticAllocator::allocatePageRange] *)
Definition oa_allocatePageRange (n : nat) : M OptimisticAllocator PageRange :=
  r ← on_pages (allocatePageRange n);
  (if 0 <? n then modify (λ oa, MkOptimisticAllocator (pageManager oa)
                                  (optimisticallyAllocatedPages oa ++ [r]))
   else mret tt) ;;
  mret r.

(** [OptimisticAllocator::freePageRange], [rollback] and [commit] *)
Definition oa_freePageRange (block : PageRange) : M OptimisticAllocator unit :=
  on_pages (freePageRange block).
Definition oa_clear : M OptimisticAllocator unit :=
  modify (λ oa, MkOptimisticAllocator (pageManager oa) []).
Definition oa_rollback : M OptimisticAllocator unit :=
  oa ← get_state;
  for_each (optimisticallyAllocatedPages oa)
    (λ entry, on_pages (freeImmediatelyRewritablePageRange entry)) ;;
  oa_clear.
Definition oa_commit : M OptimisticAllocator unit := oa_clear.

End FreeSpace.
