(* ===== verification/FreeSpaceSpec.v ===== *)
(** * What the free space manager promises

    The free entries as a bag of disjoint page ranges: adding, best-fit allocation, merging at a
    checkpoint, enumeration. Each operation is described by its effect on the entries up to order. *)

From stdpp Require Import base numbers list sorting strings.
From Stdlib Require Import ZArith Lia.
From S2P Require Import Prelude Serializer FreeSpace.
Import Serializer FreeSpace.

Definition range_end (r : PageRange) : nat := startPageIdx r + numPages r.
Definition pages (r : PageRange) : list nat := seq (startPageIdx r) (numPages r).
Definition pages_of (l : list PageRange) : list nat := l ≫= pages.
Definition entries (m : FreeSpaceManager) : list PageRange := concat (freeLists m).

Definition positive_range (r : PageRange) : Prop := 0 < numPages r.

(** A level holds, in order, ranges whose size has that power of two. *)
Definition level_ok (k : nat) (l : list PageRange) : Prop :=
  StronglySorted (λ a b, entryCmp a b = true) l ∧
  Forall (λ r, 0 < numPages r ∧ Nat.log2 (numPages r) = k) l.

(** The invariant of the manager. *)
Definition fsm_ok (m : FreeSpaceManager) : Prop :=
  (∀ k l, freeLists m !! k = Some l → level_ok k l) ∧ numEntries m = length (entries m).

(** ** Pages *)

Lemma elem_of_pages p r : p ∈ pages r ↔ startPageIdx r ≤ p < range_end r.
Proof. unfold pages, range_end. rewrite elem_of_seq. lia. Qed.

Lemma elem_of_pages_of p l : p ∈ pages_of l ↔ ∃ r, r ∈ l ∧ p ∈ pages r.
Proof. unfold pages_of. rewrite list_elem_of_bind. naive_solver. Qed.

Lemma pages_of_app l1 l2 : pages_of (l1 ++ l2) = pages_of l1 ++ pages_of l2.
Proof. apply bind_app. Qed.

Lemma pages_of_cons r l : pages_of (r :: l) = pages r ++ pages_of l.
Proof. reflexivity. Qed.

#[global] Instance pages_of_Permutation : Proper ((≡ₚ) ==> (≡ₚ)) pages_of.
Proof. intros l1 l2 H. unfold pages_of. rewrite H. reflexivity. Qed.

Lemma length_pages r : length (pages r) = numPages r.
Proof. apply length_seq. Qed.

(** Two ranges of a list of disjoint ranges share no page. *)
Lemma disjoint_ranges r l :
  NoDup (pages_of (r :: l)) → positive_range r → r ∉ l.
Proof.
  intros Hnd Hpos Hin. rewrite pages_of_cons in Hnd. apply NoDup_app in Hnd as (_ & Hd & _).
  apply (Hd (startPageIdx r)); [apply elem_of_pages; unfold range_end, positive_range in *; lia|].
  apply elem_of_pages_of. exists r. split; [exact Hin|].
  apply elem_of_pages. unfold range_end, positive_range in *. lia.
Qed.

(** ** Levels *)

Lemma trailing_zeros_pow2 k : trailing_zeros (2 ^ k) = k.
Proof.
  unfold trailing_zeros. induction k as [|k IH]; [reflexivity|].
  replace (2 ^ S k) with (2 * 2 ^ k) by (cbn; lia).
  rewrite Nat2N.inj_mul. change (N.of_nat 2) with 2%N.
  assert (Hp : 2 ^ k ≠ 0) by (apply Nat.pow_nonzero; lia).
  destruct (N.of_nat (2 ^ k)) as [|p] eqn:Hk; [lia|]. change (S (trailing_zeros_pos p) = S k). rewrite IH. reflexivity.
Qed.

Lemma getLevel_log2 n : 0 < n → getLevel n = Ok (Nat.log2 n).
Proof.
  intros Hn. unfold getLevel, bit_floor, ku_assert_o. rewrite (proj2 (Nat.ltb_lt 0 n)) by exact Hn.
  rewrite (proj2 (Nat.eqb_neq n 0)) by lia. unfold mbind, outcome_bind.
  rewrite trailing_zeros_pow2. reflexivity.
Qed.

(** ** The ordered sets *)

Lemma entryCmp_true a b :
  entryCmp a b = true ↔
  numPages a < numPages b ∨ (numPages a = numPages b ∧ startPageIdx a < startPageIdx b).
Proof. unfold entryCmp. destruct (numPages a =? numPages b) eqn:H; zbool; rewrite Nat.ltb_lt; lia. Qed.

Lemma entryCmp_false a b :
  entryCmp a b = false ↔
  numPages b < numPages a ∨ (numPages a = numPages b ∧ startPageIdx b ≤ startPageIdx a).
Proof. rewrite <- not_true_iff_false, entryCmp_true. lia. Qed.

Lemma range_eq a b : startPageIdx a = startPageIdx b → numPages a = numPages b → a = b.
Proof. destruct a, b. cbn. congruence. Qed.

Lemma entryCmp_total a b : entryCmp a b = false → entryCmp b a = false → a = b.
Proof. rewrite !entryCmp_false. intros H1 H2. apply range_eq; lia. Qed.

Abbreviation set_sorted := (StronglySorted (λ a b, entryCmp a b = true)).

Lemma lower_bound_spec x l a b :
  set_sorted l → lower_bound x l = (a, b) →
  l = a ++ b ∧ Forall (λ y, entryCmp y x = true) a ∧ Forall (λ y, entryCmp y x = false) b.
Proof.
  intros Hs. revert a b. induction Hs as [|y l Hs IH Hy]; cbn; intros a b H.
  - injection H as <- <-. auto.
  - destruct (entryCmp y x) eqn:Hyx.
    + destruct (lower_bound x l) as [a' b']. injection H as <- <-.
      destruct (IH a' b' eq_refl) as (-> & Ha & Hb). auto.
    + injection H as <- <-. split; [reflexivity|]. split; [constructor|]. constructor; [exact Hyx|].
      eapply Forall_impl; [exact Hy|]. cbn. intros z Hz.
      rewrite entryCmp_false in *. rewrite entryCmp_true in Hz. lia.
Qed.

Lemma set_contains_false x l : set_sorted l → x ∉ l → set_contains x l = false.
Proof.
  intros Hs Hx. unfold set_contains. destruct (lower_bound x l) as [a b] eqn:H.
  apply (lower_bound_spec x l a b Hs) in H as (-> & Ha & Hb). cbn. destruct b as [|y b]; [reflexivity|].
  apply negb_false_iff, not_false_iff_true. intros Hxy. apply Forall_cons in Hb as [Hyx _].
  rewrite (entryCmp_total x y Hxy Hyx) in Hx. apply Hx, elem_of_app. right. left.
Qed.

Lemma set_insert_perm x l : x ∉ l → set_sorted l → set_insert x l ≡ₚ x :: l.
Proof.
  intros Hx Hs. induction Hs as [|y l Hs IH Hy]; cbn; [reflexivity|].
  apply not_elem_of_cons in Hx as [Hxy Hx].
  destruct (entryCmp x y) eqn:H1; [reflexivity|]. destruct (entryCmp y x) eqn:H2.
  - rewrite IH by exact Hx. apply Permutation_swap.
  - destruct (Hxy (entryCmp_total _ _ H1 H2)).
Qed.

Lemma set_insert_sorted x l : set_sorted l → set_sorted (set_insert x l).
Proof.
  intros Hs. induction Hs as [|y l Hs IH Hy]; cbn; [repeat constructor|].
  destruct (entryCmp x y) eqn:H1; [|destruct (entryCmp y x) eqn:H2].
  - constructor; [constructor; assumption|]. constructor; [exact H1|].
    eapply Forall_impl; [exact Hy|]. cbn. intros z Hz. rewrite entryCmp_true in *. lia.
  - constructor; [exact IH|]. apply Forall_forall. intros z Hz.
    assert (Hin : z = x ∨ z ∈ l).
    { clear -Hz. induction l as [|w l IHl]; cbn in Hz.
      - apply list_elem_of_singleton in Hz. auto.
      - destruct (entryCmp x w); [apply elem_of_cons in Hz; tauto|].
        destruct (entryCmp w x); [|auto]. apply elem_of_cons in Hz as [->|Hz]; [right; left|].
        destruct (IHl Hz); [auto|right; right; assumption]. }
    destruct Hin as [->|Hin]; [exact H2|]. rewrite Forall_forall in Hy. exact (Hy z Hin).
  - constructor; assumption.
Qed.

(** ** Entries of the lists *)

Lemma elem_of_entries r m : r ∈ entries m ↔ ∃ k l, freeLists m !! k = Some l ∧ r ∈ l.
Proof.
  unfold entries. rewrite list_elem_of_In, List.in_concat. split.
  - intros (l & Hl%list_elem_of_In & Hr%list_elem_of_In). apply list_elem_of_lookup in Hl as [k Hk]. eauto.
  - intros (k & l & Hl & Hr). exists l. split; apply list_elem_of_In; [|exact Hr].
    eapply list_elem_of_lookup_2, Hl.
Qed.

Lemma concat_replace (lists : list (list PageRange)) k x y z :
  lists !! k = Some x → y ≡ₚ z ++ x → concat (<[k:=y]> lists) ≡ₚ z ++ concat lists.
Proof.
  intros Hk Hy. rewrite <- (take_drop_middle lists k x Hk) at 2.
  rewrite insert_take_drop by (eapply lookup_lt_Some, Hk). rewrite !concat_app. cbn.
  rewrite Hy, !app_assoc. do 2 f_equiv. apply Permutation_app_comm.
Qed.

Lemma concat_remove (lists : list (list PageRange)) k x y z :
  lists !! k = Some x → x ≡ₚ z ++ y → concat lists ≡ₚ z ++ concat (<[k:=y]> lists).
Proof.
  intros Hk Hx. rewrite <- (take_drop_middle lists k x Hk) at 1.
  rewrite insert_take_drop by (eapply lookup_lt_Some, Hk). rewrite !concat_app. cbn.
  rewrite Hx, !app_assoc. do 2 f_equiv. apply Permutation_app_comm.
Qed.

Lemma ensure_level_concat k lists : concat (ensure_level k lists) = concat lists.
Proof.
  unfold ensure_level. destruct (length lists <=? k); [|reflexivity].
  rewrite concat_app. assert (H : ∀ n, concat (replicate n (@nil PageRange)) = [])
    by (intros n; induction n; [reflexivity|assumption]).
  rewrite H. apply app_nil_r.
Qed.

Lemma ensure_level_lookup k lists j l :
  ensure_level k lists !! j = Some l → lists !! j = Some l ∨ l = [].
Proof.
  unfold ensure_level. destruct (length lists <=? k); [|auto]. intros [H|[_ H]]%lookup_app_Some; [auto|].
  apply lookup_replicate_1 in H as [-> _]. auto.
Qed.

Lemma ensure_level_length k lists : k < length (ensure_level k lists).
Proof.
  unfold ensure_level. destruct (length lists <=? k) eqn:H; zbool; [|exact H].
  rewrite length_app, length_replicate. lia.
Qed.

Lemma level_ok_nil k : level_ok k [].
Proof. split; constructor. Qed.

Lemma fsm_positive m r : fsm_ok m → r ∈ entries m → positive_range r.
Proof.
  intros [Hl _] (k & l & Hk & Hr)%elem_of_entries. destruct (Hl k l Hk) as [_ H].
  rewrite Forall_forall in H. apply (H r Hr).
Qed.

(** ** Adding a range *)

Definition same_rest (m m' : FreeSpaceManager) : Prop :=
  uncheckpointedFreePageRanges m' = uncheckpointedFreePageRanges m ∧
  needClearEvictedEntries m' = needClearEvictedEntries m.

Lemma addFreePages_ok m e :
  fsm_ok m → positive_range e → e ∉ entries m →
  ∃ m', addFreePages e m = (Ok tt, m') ∧ fsm_ok m' ∧ entries m' ≡ₚ e :: entries m ∧ same_rest m m'.
Proof.
  intros [Hl Hn] Hpos Hfresh. unfold positive_range in Hpos. set (k := Nat.log2 (numPages e)).
  pose proof (ensure_level_length k (freeLists m)) as Hlen.
  destruct (lookup_lt_is_Some_2 _ _ Hlen) as [l Hk].
  assert (Hok : level_ok k l).
  { destruct (ensure_level_lookup _ _ _ _ Hk) as [H| ->]; [exact (Hl _ _ H)|apply level_ok_nil]. }
  assert (Hnew : e ∉ l).
  { intros Hin. apply Hfresh. unfold entries. rewrite <- (ensure_level_concat k).
    apply list_elem_of_In, List.in_concat. exists l.
    split; apply list_elem_of_In; [eapply list_elem_of_lookup_2, Hk|exact Hin]. }
  eexists. split.
  { unfold addFreePages. rewrite (proj2 (Nat.ltb_lt _ _) Hpos). unfold_M.
    rewrite getLevel_log2 by exact Hpos. fold k. cbn [freeLists set_freeLists]. rewrite Hk. cbn [default].
    rewrite set_contains_false by (try exact Hnew; apply Hok). reflexivity. }
  assert (Hperm : set_insert e l ≡ₚ [e] ++ l) by (apply set_insert_perm; [exact Hnew|apply Hok]).
  assert (Hent : concat (<[k:=set_insert e l]> (ensure_level k (freeLists m))) ≡ₚ e :: entries m).
  { rewrite (concat_replace _ _ _ _ [e] Hk Hperm), ensure_level_concat. reflexivity. }
  split; [|split; [exact Hent|split; reflexivity]]. split.
  - intros j l'. cbn. intros [(Heq & <- & _)|[Hne Hj]]%list_lookup_insert_Some.
    + rewrite <- Heq. split; [apply set_insert_sorted, Hok|]. rewrite Hperm.
      constructor; [split; [exact Hpos|reflexivity]|]. apply Hok.
    + destruct (ensure_level_lookup _ _ _ _ Hj) as [H| ->]; [exact (Hl _ _ H)|apply level_ok_nil].
  - cbn. unfold entries. cbn. rewrite Hent, Hn. reflexivity.
Qed.

(** ** Allocating a range *)

Lemma search_levels_spec n lvl lists :
  (∀ k l, lists !! k = Some l → set_sorted l) →
  match search_levels n lvl lists with
  | None => ∀ k l r, lists !! k = Some l → r ∈ l → numPages r < n
  | Some (level, before, e, after) =>
      ∃ k, level = lvl + k ∧ lists !! k = Some (before ++ e :: after) ∧ n ≤ numPages e ∧
        (∀ r, r ∈ before ++ e :: after → n ≤ numPages r → entryCmp r e = false) ∧
        (∀ j l r, j < k → lists !! j = Some l → r ∈ l → numPages r < n)
  end.
Proof.
  revert lvl. induction lists as [|cl lists IH]; intros lvl Hs; cbn.
  - intros k l r H. rewrite lookup_nil in H. discriminate.
  - assert (Hcl : set_sorted cl) by (apply (Hs 0); reflexivity).
    destruct (lower_bound (MkPageRange 0 n) cl) as [before after] eqn:Hlb.
    apply (lower_bound_spec _ _ _ _ Hcl) in Hlb as (-> & Hbef & Haft).
    assert (Hsmall : ∀ r, r ∈ before → numPages r < n).
    { intros r Hr. rewrite Forall_forall in Hbef. specialize (Hbef r Hr).
      apply entryCmp_true in Hbef. cbn in Hbef. lia. }
    destruct after as [|e after].
    + rewrite app_nil_r in *. specialize (IH (S lvl) (λ k, Hs (S k))).
      destruct (search_levels n (S lvl) lists) as [[[[level b] e] a]|].
      * destruct IH as (k & -> & Hk & Hn & Hbest & Hlow). exists (S k).
        split_and!; [lia|exact Hk|exact Hn|exact Hbest|]. intros [|j] l r Hj Hl Hr.
        -- injection Hl as <-. exact (Hsmall r Hr).
        -- apply (Hlow j l r); [lia|exact Hl|exact Hr].
      * intros [|k] l r Hl Hr; [injection Hl as <-; exact (Hsmall r Hr)|exact (IH k l r Hl Hr)].
    + exists 0. apply Forall_cons in Haft as [He Haft]. apply entryCmp_false in He. cbn in He.
      split_and!; [lia|reflexivity|lia| |intros j l r Hj; lia].
      intros r [Hr|[->|Hr]%elem_of_cons]%elem_of_app Hn.
      * specialize (Hsmall r Hr). lia.
      * apply entryCmp_false. lia.
      * apply entryCmp_false. apply StronglySorted_app_1_r, StronglySorted_inv in Hcl as [_ Hcl].
        rewrite Forall_forall in Hcl. specialize (Hcl r Hr). apply entryCmp_true in Hcl. lia.
Qed.

(** Sizes of a lower level are smaller. *)
Lemma lower_level_smaller n r : 0 < n → 0 < numPages r → Nat.log2 (numPages r) < Nat.log2 n → numPages r < n.
Proof.
  intros Hn Hr Hlog. destruct (decide (numPages r < n)) as [|Hge]; [assumption|exfalso].
  pose proof (Nat.log2_le_mono n (numPages r)). lia.
Qed.

(** The remainder of an entry that is split. *)
Definition remainder (e : PageRange) (n : nat) : list PageRange :=
  if n <? numPages e then [MkPageRange (startPageIdx e + n) (numPages e - n)] else [].

Lemma pages_split e n :
  n ≤ numPages e → pages e = pages (MkPageRange (startPageIdx e) n) ++ pages_of (remainder e n).
Proof.
  intros Hn. unfold remainder, pages, pages_of. destruct (n <? numPages e) eqn:H; zbool; cbn.
  - rewrite app_nil_r, <- seq_app. f_equal. lia.
  - rewrite app_nil_r. f_equal. lia.
Qed.

Lemma splitPageRange_ok m e n :
  fsm_ok m → 0 < n ≤ numPages e → Forall (λ r, r ∉ entries m) (remainder e n) →
  ∃ m', splitPageRange e n m = (Ok (MkPageRange (startPageIdx e) n), m') ∧ fsm_ok m' ∧
    entries m' ≡ₚ remainder e n ++ entries m ∧ same_rest m m'.
Proof.
  intros Hok Hn Hfresh. unfold splitPageRange, ku_assert. rewrite (proj2 (Nat.leb_le _ _)) by lia.
  unfold remainder in *. destruct (n <? numPages e) eqn:H; zbool.
  - apply Forall_cons in Hfresh as [Hfresh _].
    set (rem := MkPageRange _ _) in *.
    destruct (addFreePages_ok m rem Hok) as (m' & Hrun & Hok' & Hperm & Hrest);
      [unfold positive_range, rem; cbn; lia|exact Hfresh|].
    exists m'. split; [|auto]. unfold_M. rewrite Hrun. reflexivity.
  - exists m. split; [reflexivity|]. split; [exact Hok|]. split; [reflexivity|split; reflexivity].
Qed.

(** Which entry [popFreePages] takes, and what it leaves. *)
Lemma popFreePages_ok m n :
  fsm_ok m → NoDup (pages_of (entries m)) → 0 < n →
  (popFreePages n m = (Ok None, m) ∧ ∀ r, r ∈ entries m → numPages r < n) ∨
  ∃ e rest m', popFreePages n m = (Ok (Some (MkPageRange (startPageIdx e) n)), m') ∧
    entries m ≡ₚ e :: rest ∧ n ≤ numPages e ∧
    (∀ r, r ∈ entries m → n ≤ numPages r → entryCmp r e = false) ∧
    fsm_ok m' ∧ entries m' ≡ₚ remainder e n ++ rest ∧ same_rest m m'.
Proof.
  intros [Hl Hnum] Hnd Hn. unfold popFreePages. rewrite (proj2 (Nat.ltb_lt _ _) Hn). unfold_M.
  rewrite getLevel_log2 by exact Hn. set (k0 := Nat.log2 n).
  pose proof (search_levels_spec n k0 (drop k0 (freeLists m))) as Hspec.
  assert (Hlow : ∀ k l r, k < k0 → freeLists m !! k = Some l → r ∈ l → numPages r < n).
  { intros k l r Hk Hkl Hr. destruct (Hl k l Hkl) as [_ H]. rewrite Forall_forall in H.
    destruct (H r Hr) as [Hpos Hlog]. apply lower_level_smaller; [exact Hn|exact Hpos|]. fold k0. lia. }
  destruct (search_levels n k0 (drop k0 (freeLists m))) as [[[[level before] e] after]|].
  - right. destruct Hspec as (k & -> & Hk & Hne & Hbest & Hmid).
    { intros k l Hk. rewrite lookup_drop in Hk. apply (Hl _ _ Hk). }
    rewrite lookup_drop in Hk. set (lists' := <[k0 + k:=before ++ after]> (freeLists m)).
    set (m1 := set_numEntries (numEntries m - 1) (set_freeLists lists' m)).
    assert (Hperm : entries m ≡ₚ e :: concat lists').
    { apply (concat_remove _ _ _ _ [e] Hk). cbn. symmetry. apply Permutation_middle. }
    assert (Hm1 : fsm_ok m1).
    { split.
      - intros j l. cbn. unfold lists'. intros [(<- & <- & _)|[_ Hj]]%list_lookup_insert_Some; [|exact (Hl _ _ Hj)].
        destruct (Hl _ _ Hk) as [Hs Hf]. split.
        + clear -Hs. induction before as [|b before IH]; cbn in *; [apply StronglySorted_inv in Hs; apply Hs|].
          apply StronglySorted_inv in Hs as [Hs Hb]. constructor; [apply IH, Hs|].
          rewrite Forall_app, Forall_cons in Hb. apply Forall_app. tauto.
        + rewrite Forall_app, Forall_cons in Hf. apply Forall_app. tauto.
      - cbn. unfold entries. cbn. rewrite Hnum, Hperm. cbn. lia. }
    destruct (splitPageRange_ok m1 e n Hm1) as (m' & Hrun & Hok' & Hent & Hrest); [lia| |].
    { unfold remainder. destruct (n <? numPages e) eqn:Hlt; zbool; [|constructor].
      constructor; [|constructor]. apply disjoint_ranges; [|unfold positive_range; cbn; lia].
      rewrite Hperm, pages_of_cons, (pages_split e n) in Hnd by lia.
      unfold remainder in Hnd. rewrite (proj2 (Nat.ltb_lt _ _) Hlt) in Hnd.
      rewrite <- app_assoc in Hnd. apply NoDup_app in Hnd as (_ & _ & Hnd).
      rewrite <- pages_of_app in Hnd. exact Hnd. }
    exists e, (concat lists'), m'. change (numEntries (set_freeLists lists' m)) with (numEntries m).
    fold m1. rewrite Hrun. split; [reflexivity|].
    split_and!; [exact Hperm|exact Hne| |exact Hok'|exact Hent|exact Hrest].
    intros r (j & l & Hj & Hr)%elem_of_entries Hnr.
    destruct (decide (j = k0 + k)) as [->|Hneq].
    { rewrite Hk in Hj. injection Hj as <-. exact (Hbest r Hr Hnr). }
    destruct (decide (j < k0)) as [Hlt|Hge]; [specialize (Hlow j l r Hlt Hj Hr); lia|].
    destruct (decide (j < k0 + k)) as [Hlt|Hgt].
    + assert (numPages r < n); [|lia]. apply (Hmid (j - k0) l r); [lia| |exact Hr].
      rewrite lookup_drop. replace (k0 + (j - k0)) with j by lia. exact Hj.
    + apply entryCmp_false. left. destruct (Hl _ _ Hj) as [_ Hfj]. destruct (Hl _ _ Hk) as [_ Hfk].
      rewrite Forall_forall in Hfj, Hfk. destruct (Hfj r Hr) as [Hp1 Hlog1].
      destruct (Hfk e) as [Hp2 Hlog2]; [apply elem_of_app; right; left|].
      apply lower_level_smaller; lia.
  - left. split; [reflexivity|]. intros r (j & l & Hj & Hr)%elem_of_entries.
    destruct (decide (j < k0)) as [Hlt|Hge]; [exact (Hlow j l r Hlt Hj Hr)|].
    apply (Hspec (λ k l Hk, proj1 (Hl (k0 + k) l (eq_trans (eq_sym (lookup_drop _ _ _)) Hk))) (j - k0) l r);
      [|exact Hr]. rewrite lookup_drop. replace (k0 + (j - k0)) with j by lia. exact Hj.
Qed.

(** ** Merging at a checkpoint *)

(** Ranges in the order of the file, without overlap; and with a gap between any two. *)
Abbreviation in_order := (StronglySorted (λ a b, range_end a ≤ startPageIdx b)).
Abbreviation with_gaps := (StronglySorted (λ a b, range_end a < startPageIdx b)).

Lemma sorted_disjoint_in_order l :
  StronglySorted starts_before l → Forall positive_range l → NoDup (pages_of l) → in_order l.
Proof.
  intros Hs. induction Hs as [|a l Hs IH Ha]; intros Hp Hnd; [constructor|].
  apply Forall_cons in Hp as [Hpa Hp]. rewrite pages_of_cons in Hnd.
  apply NoDup_app in Hnd as (_ & Hd & Hnd). constructor; [apply IH; assumption|].
  apply Forall_forall. intros b Hb. destruct (decide (range_end a ≤ startPageIdx b)) as [|Hlt]; [assumption|].
  exfalso. apply (Hd (startPageIdx b)).
  - apply elem_of_pages. rewrite Forall_forall in Ha. specialize (Ha b Hb). unfold starts_before in Ha. lia.
  - apply elem_of_pages_of. exists b. split; [exact Hb|]. apply elem_of_pages.
    rewrite Forall_forall in Hp. specialize (Hp b Hb). unfold positive_range, range_end in *. lia.
Qed.

Lemma pages_adjacent a b :
  range_end a = startPageIdx b →
  pages (MkPageRange (startPageIdx a) (numPages a + numPages b)) = pages a ++ pages b.
Proof. intros H. unfold pages. cbn. rewrite seq_app. unfold range_end in H. rewrite H. reflexivity. Qed.

Lemma with_gaps_snoc l x : with_gaps (l ++ [x]) ↔ with_gaps l ∧ Forall (λ a, range_end a < startPageIdx x) l.
Proof.
  induction l as [|a l IH]; cbn; [split; [repeat constructor|intros _; repeat constructor]|]. split.
  - intros [Hs Ha]%StronglySorted_inv. apply IH in Hs as [Hs Hx]. apply Forall_app in Ha as [Ha Hxa].
    apply Forall_cons in Hxa as [Hxa _]. split; constructor; assumption.
  - intros [[Hs Ha]%StronglySorted_inv [Hxa Hx]%Forall_cons]. constructor; [apply IH; auto|].
    apply Forall_app. split; [exact Ha|]. repeat constructor. exact Hxa.
Qed.

(** The loop keeps the pages and leaves gaps; [gone] are the entries added so far. *)
Lemma merge_loop_spec entriesLeft prev m gone :
  fsm_ok m → entries m ≡ₚ gone → with_gaps (gone ++ [prev]) → Forall positive_range gone →
  positive_range prev → in_order (prev :: entriesLeft) → Forall positive_range entriesLeft →
  ∃ last m' gone', merge_loop prev entriesLeft m = (Ok last, m') ∧ fsm_ok m' ∧
    entries m' ≡ₚ gone' ∧ with_gaps (gone' ++ [last]) ∧ positive_range last ∧
    pages_of (gone' ++ [last]) = pages_of (gone ++ prev :: entriesLeft) ∧ same_rest m m'.
Proof.
  revert prev m gone. induction entriesLeft as [|e l IH]; intros prev m gone Hok Hent Hgaps Hpg Hpp Hord Hpl.
  - exists prev, m, gone. split_and!; try assumption; try reflexivity. split; reflexivity.
  - apply StronglySorted_inv in Hord as [Hord Hprev]. apply Forall_cons in Hprev as [Hpe Hprev].
    apply Forall_cons in Hpl as [Hep Hpl]. cbn [merge_loop].
    change (startPageIdx prev + numPages prev) with (range_end prev).
    unfold ku_assert. rewrite (proj2 (Nat.leb_le _ _) Hpe).
    destruct (range_end prev =? startPageIdx e) eqn:Hadj; zbool.
    + destruct (IH (MkPageRange (startPageIdx prev) (numPages prev + numPages e)) m gone)
        as (last & m' & gone' & Hrun & H1 & H2 & H3 & H4 & H5 & H6); try assumption.
      * apply with_gaps_snoc in Hgaps as [Hg1 Hg2]. apply with_gaps_snoc. auto.
      * unfold positive_range in *. cbn. lia.
      * apply StronglySorted_inv in Hord as [Hord He]. constructor; [exact Hord|].
        eapply Forall_impl; [exact He|]. unfold range_end in *. cbn. intros. lia.
      * exists last, m', gone'. split_and!; try assumption.
        rewrite H5, !pages_of_app, !pages_of_cons, pages_adjacent, <- app_assoc by exact Hadj. reflexivity.
    + apply with_gaps_snoc in Hgaps as Hg. destruct Hg as [Hg1 Hg2].
      assert (Hfresh : prev ∉ entries m).
      { rewrite Hent. intros Hin. rewrite Forall_forall in Hg2. specialize (Hg2 _ Hin).
        unfold range_end in Hg2. lia. }
      destruct (addFreePages_ok m prev Hok Hpp Hfresh) as (m1 & Hrun1 & Hok1 & Hent1 & Hrest1).
      destruct (IH e m1 (gone ++ [prev])) as (last & m' & gone' & Hrun & H1 & H2 & H3 & H4 & H5 & H6);
        try assumption.
      * rewrite Hent1, Hent. apply Permutation_cons_append.
      * apply with_gaps_snoc. split; [exact Hgaps|]. apply Forall_app. split; [|repeat constructor; lia].
        eapply Forall_impl; [exact Hg2|]. cbn. intros a Ha. unfold range_end in *. lia.
      * apply Forall_app. split; [exact Hpg|]. repeat constructor. exact Hpp.
      * exists last, m', gone'. split_and!; try assumption.
        -- unfold_M. rewrite Hrun1. exact Hrun.
        -- rewrite H5, <- app_assoc. reflexivity.
        -- destruct Hrest1, H6. split; congruence.
Qed.

Definition adjacent (a b : PageRange) : Prop := range_end a = startPageIdx b.

Lemma with_gaps_not_adjacent l a b :
  with_gaps l → Forall positive_range l → a ∈ l → b ∈ l → ¬ adjacent a b.
Proof.
  intros Hg. induction Hg as [|x l Hg IH Hx]; intros Hp Ha Hb Hadj; [apply elem_of_nil in Ha; contradiction|].
  apply Forall_cons in Hp as [Hpx Hp]. rewrite Forall_forall in Hx. unfold adjacent, positive_range, range_end in *.
  apply elem_of_cons in Ha as [->|Ha], Hb as [->|Hb].
  - lia.
  - specialize (Hx b Hb). lia.
  - specialize (Hx a Ha). rewrite Forall_forall in Hp. specialize (Hp a Ha). cbn in *. lia.
  - exact (IH Hp Ha Hb Hadj).
Qed.

Lemma resetFreeLists_ok m : fsm_ok (resetFreeLists m) ∧ entries (resetFreeLists m) = [].
Proof. split; [|reflexivity]. split; [|reflexivity]. intros k l H. cbn in H. rewrite lookup_nil in H. discriminate. Qed.

Lemma fold_evict l (s : Store) :
  for_each l evictPages s =
    (Ok tt, (match l with [] => s.1 | _ => set_needClear true s.1 end,
             add_evicted (pages_of l) s.2)).
Proof.
  revert s. induction l as [|e l IH]; intros [fsm fh].
  - unfold add_evicted. cbn. rewrite app_nil_r. destruct fh. reflexivity.
  - rewrite (for_each_cons_ok e l evictPages (fsm, fh) _ eq_refl). rewrite IH. cbn [fst snd].
    rewrite pages_of_cons. unfold add_evicted. cbn [fileNumPages pageCapacity frameGroups inMemoryMode bmAnswers evictedPages].
    rewrite <- app_assoc. destruct l; reflexivity.
Qed.

(** ** The pages of the file *)

(** Every page has a frame: this is so until a frame group is refused. *)
Definition frames_ok (fh : FileHandle) : Prop :=
  pageCapacity fh = PAGE_GROUP_SIZE * frameGroups fh ∧ fileNumPages fh ≤ pageCapacity fh.

(** The file keeps so far below the end of the page numbers that a page group still fits. *)
Definition numbers_left (n : nat) : Prop := (Z.of_nat n <= 2 ^ 32 - 2 ^ 10)%Z.

Lemma numbers_left_le n k : k ≤ n → numbers_left n → numbers_left k.
Proof. unfold numbers_left. lia. Qed.

Lemma page_idx_small n : (Z.of_nat n < 2 ^ 32)%Z → page_idx n = n.
Proof. intros H. unfold page_idx, uwrap. rewrite Z.mod_small by lia. apply Nat2Z.id. Qed.

Lemma page_group_size : Z.of_nat PAGE_GROUP_SIZE = (2 ^ 10)%Z.
Proof. reflexivity. Qed.

(** What the file keeps while pages are added. *)
Definition same_file (fh fh' : FileHandle) : Prop :=
  inMemoryMode fh' = inMemoryMode fh ∧ evictedPages fh' = evictedPages fh ∧ (bmAnswers fh = [] → bmAnswers fh' = []).

Lemma same_file_trans fh1 fh2 fh3 : same_file fh1 fh2 → same_file fh2 fh3 → same_file fh1 fh3.
Proof. unfold same_file. intros (-> & -> & H1) (-> & -> & H2). auto. Qed.

Lemma request_ok msg fh :
  ∃ r fh', request msg fh = (r, fh') ∧ same_file fh fh' ∧ fileNumPages fh' = fileNumPages fh ∧
    pageCapacity fh' = pageCapacity fh ∧ frameGroups fh' = frameGroups fh ∧ (bmAnswers fh = [] → r = Ok tt).
Proof.
  unfold request. unfold_M. destruct (bmAnswers fh) as [|[] l] eqn:H; eexists _, _; (split; [reflexivity|]);
    unfold same_file; cbn; rewrite ?H; split_and!; try reflexivity; auto; discriminate.
Qed.

(** One page more, or none when its frame group was refused. *)
Lemma addNewPageWithoutLock_ok fh :
  numbers_left (S (fileNumPages fh)) →
  ∃ r fh' k, addNewPageWithoutLock fh = (r, fh') ∧ same_file fh fh' ∧
    fileNumPages fh' = fileNumPages fh + k ∧ k ≤ 1 ∧
    (∀ i, r = Ok i → k = 1) ∧ (bmAnswers fh = [] → (∃ i, r = Ok i) ∧ (frames_ok fh → frames_ok fh')).
Proof.
  intros Hleft. unfold numbers_left in Hleft.
  assert (Hgroup : ∃ r fh1, (if fileNumPages fh =? pageCapacity fh then addNewPageGroupWithoutLock else mret tt) fh = (r, fh1) ∧
    same_file fh fh1 ∧ fileNumPages fh1 = fileNumPages fh ∧
    (bmAnswers fh = [] → r = Ok tt ∧ (frames_ok fh → frames_ok fh1 ∧ fileNumPages fh < pageCapacity fh1))).
  { destruct (fileNumPages fh =? pageCapacity fh) eqn:He; zbool.
    - unfold addNewPageGroupWithoutLock. unfold_M. set (fh0 := set_pages _ _ _ fh).
      destruct (request_ok "No more frame groups can be added to the allocator." fh0) as (r & fh1 & -> & Hs & H1 & H2 & H3 & H4).
      assert (Hs0 : same_file fh fh1) by (eapply same_file_trans; [|exact Hs]; unfold same_file; auto).
      destruct r as [[]|e]; eexists _, _; (split; [reflexivity|]); split_and!;
        try (intros Ha; specialize (H4 Ha); discriminate H4); try exact Hs0; try (cbn; exact H1).
      intros _. split; [reflexivity|]. intros [Hc Hn]. unfold frames_ok. cbn. rewrite H2, H3. unfold fh0. cbn.
      pose proof page_group_size. rewrite page_idx_small by lia. rewrite H1. unfold fh0. cbn. lia.
    - eexists _, _. split; [reflexivity|]. split_and!; [unfold same_file; auto|reflexivity|].
      intros _. split; [reflexivity|]. intros [Hc Hn]. split; [split; assumption|lia]. }
  destruct Hgroup as (r & fh1 & Hrun & Hs1 & Hn1 & Hok). unfold addNewPageWithoutLock.
  rewrite (M_bind_ok _ _ _ _ _ (eq_refl : get_state _ = (Ok _, _))). unfold mbind at 1, M_bind. rewrite Hrun.
  destruct r as [[]|e]; cycle 1.
  { eexists _, _, 0. split; [reflexivity|]. split_and!; [exact Hs1|lia|lia|discriminate|].
    intros Ha. destruct (Hok Ha) as [H _]. discriminate H. }
  unfold_M. set (fh2 := set_pages (page_idx _) _ _ fh1).
  assert (Hp2 : fileNumPages fh2 = fileNumPages fh + 1)
    by (unfold fh2; cbn; rewrite Hn1, page_idx_small by lia; lia).
  assert (Hs2 : same_file fh fh2) by (eapply same_file_trans; [exact Hs1|]; unfold same_file; auto).
  assert (Hf2 : bmAnswers fh = [] → frames_ok fh → frames_ok fh2).
  { intros Ha Hf. destruct (Hok Ha) as [_ Hf1]. destruct (Hf1 Hf) as [[Hc _] Hlt].
    split; [exact Hc|]. rewrite Hp2. unfold fh2. cbn. lia. }
  destruct (inMemoryMode fh).
  - destruct (request_ok "Unable to allocate memory! The buffer pool is full and no memory could be freed!" fh2)
      as (r & fh3 & -> & Hs & H1 & H2 & H3 & H4).
    assert (Hs3 : same_file fh fh3) by (eapply same_file_trans; [exact Hs2|exact Hs]).
    destruct r as [[]|e]; eexists _, _, 1; (split; [reflexivity|]);
      (split_and!; [exact Hs3|rewrite H1; exact Hp2|lia|reflexivity || discriminate|]); intros Ha.
    + split; [eauto|]. intros Hf. destruct (Hf2 Ha Hf) as [G1 G2]. split; rewrite ?H1, H2, ?H3; assumption.
    + specialize (H4 (proj2 (proj2 Hs2) Ha)). discriminate H4.
  - eexists _, _, 1. split; [reflexivity|]. split_and!; [exact Hs2|exact Hp2|lia|reflexivity|].
    intros Ha. split; [eauto|]. exact (Hf2 Ha).
Qed.

(** All the pages asked for, or the first of them when the buffer manager refuses a request. *)
Lemma add_pages_ok n fh :
  numbers_left (fileNumPages fh + n) →
  ∃ r fh' k, add_pages n fh = (r, fh') ∧ same_file fh fh' ∧ fileNumPages fh' = fileNumPages fh + k ∧ k ≤ n ∧
    (r = Ok tt → k = n) ∧ (bmAnswers fh = [] → r = Ok tt ∧ (frames_ok fh → frames_ok fh')).
Proof.
  revert fh. induction n as [|n IH]; intros fh Hleft.
  - exists (Ok tt), fh, 0. split; [reflexivity|]. split_and!; auto; unfold same_file; auto.
  - destruct (addNewPageWithoutLock_ok fh) as (r & fh1 & k & Hrun & Hs1 & Hp1 & Hk & Hr & Hok);
      [eapply numbers_left_le; [|exact Hleft]; lia|].
    cbn [add_pages]. unfold mbind, M_bind. rewrite Hrun. destruct r as [i|e].
    + rewrite (Hr i eq_refl) in Hp1.
      destruct (IH fh1) as (r2 & fh2 & k2 & Hrun2 & Hs2 & Hp2 & Hk2 & Hr2 & Hok2);
        [eapply numbers_left_le; [|exact Hleft]; lia|].
      exists r2, fh2, (S k2). split; [exact Hrun2|].
      split_and!; [eapply same_file_trans; eassumption|lia|lia|intros H; rewrite (Hr2 H); reflexivity|].
      intros Ha. destruct (Hok2 (proj2 (proj2 Hs1) Ha)) as [-> Hf2]. split; [reflexivity|].
      intros Hf. apply Hf2. destruct (Hok Ha) as [_ Hf1]. auto.
    + exists (Throw e), fh1, k. split; [reflexivity|]. split_and!; [exact Hs1|exact Hp1|lia|discriminate|].
      intros Ha. destruct (Hok Ha) as [[i Hi] _]. discriminate Hi.
Qed.

(** Truncation: the pages are gone whether or not the assertion on the frame groups holds. *)
Lemma truncate_ok p fh :
  p < fileNumPages fh →
  ∃ r fh', removePageIdxAndTruncateIfNecessary p fh = (r, fh') ∧ fileNumPages fh' = p ∧
    evictedPages fh' = evictedPages fh ∧ bmAnswers fh' = bmAnswers fh ∧ inMemoryMode fh' = inMemoryMode fh ∧
    (frames_ok fh → r = Ok tt ∧ frames_ok fh').
Proof.
  intros Hlt. unfold removePageIdxAndTruncateIfNecessary. unfold_M. rewrite (proj2 (Nat.leb_gt _ _) Hlt).
  cbn [snd fst]. assert (Hfit : frames_ok fh → getNumPageGroups p ≤ frameGroups fh).
  { intros [Hc Hn]. unfold getNumPageGroups. apply Nat.lt_succ_r, Nat.Div0.div_lt_upper_bound.
    pose proof page_group_size. lia. }
  assert (Hcov : p ≤ getNumPageGroups p * PAGE_GROUP_SIZE).
  { unfold getNumPageGroups. pose proof (Nat.div_mod_eq (p + PAGE_GROUP_SIZE - 1) PAGE_GROUP_SIZE).
    pose proof (Nat.mod_upper_bound (p + PAGE_GROUP_SIZE - 1) PAGE_GROUP_SIZE). pose proof page_group_size. lia. }
  destruct (getNumPageGroups p =? frameGroups fh) eqn:He; zbool.
  - eexists _, _. split; [reflexivity|]. split_and!; try reflexivity. intros [Hc Hn]. split; [reflexivity|].
    split; [exact Hc|cbn; lia].
  - unfold ku_assert. destruct (getNumPageGroups p <? frameGroups fh) eqn:Hl; zbool;
      eexists _, _; (split; [reflexivity|]); split_and!; try reflexivity; intros Hf.
    + split; [reflexivity|]. split; cbn; lia.
    + specialize (Hfit Hf). lia.
Qed.

(** What a completed checkpoint leaves: the waiting ranges are free, everything is merged, a free
    range at the end of the file is given back, and the pages were evicted first. *)
Record checkpointed (s s' : Store) : Prop := {
  cp_ok : fsm_ok s'.1;
  cp_waiting : uncheckpointedFreePageRanges s'.1 = [];
  cp_shrunk : fileNumPages s'.2 ≤ fileNumPages s.2;
  cp_pages : pages_of (entries s'.1) ++ seq (fileNumPages s'.2) (fileNumPages s.2 - fileNumPages s'.2) ≡ₚ
    pages_of (uncheckpointedFreePageRanges s.1 ++ entries s.1);
  cp_merged : ∀ a b, a ∈ entries s'.1 → b ∈ entries s'.1 → ¬ adjacent a b;
  cp_end : ∀ a, a ∈ entries s'.1 → range_end a ≠ fileNumPages s'.2;
  cp_evicted : evictedPages s'.2 = evictedPages s.2 ++ pages_of (uncheckpointedFreePageRanges s.1);
  cp_answers : bmAnswers s'.2 = bmAnswers s.2;
  cp_frames : frames_ok s.2 → frames_ok s'.2;
}.

Lemma handle_last fsm fh last gone :
  fsm_ok fsm → entries fsm ≡ₚ gone → with_gaps (gone ++ [last]) → positive_range last →
  Forall positive_range gone →
  (∀ p, p ∈ pages_of (gone ++ [last]) → p < fileNumPages fh) →
  ∃ r s', handleLastPageRange last (fsm, fh) = (r, s') ∧ fsm_ok s'.1 ∧ same_rest fsm s'.1 ∧
    fileNumPages s'.2 ≤ fileNumPages fh ∧ evictedPages s'.2 = evictedPages fh ∧
    pages_of (entries s'.1) ++ seq (fileNumPages s'.2) (fileNumPages fh - fileNumPages s'.2) ≡ₚ
      pages_of (gone ++ [last]) ∧
    (∀ a b, a ∈ entries s'.1 → b ∈ entries s'.1 → ¬ adjacent a b) ∧
    (∀ a, a ∈ entries s'.1 → range_end a ≠ fileNumPages s'.2) ∧
    bmAnswers s'.2 = bmAnswers fh ∧ (frames_ok fh → r = Ok tt ∧ frames_ok s'.2).
Proof.
  intros Hf Hent Hg Hlast Hgone Hbound. unfold handleLastPageRange. unfold_M. cbn [snd].
  change (startPageIdx last + numPages last) with (range_end last).
  apply with_gaps_snoc in Hg as Hg'. destruct Hg' as [Hg1 Hg2].
  destruct (range_end last =? fileNumPages fh) eqn:Hend; zbool.
  - assert (Hlt : startPageIdx last < fileNumPages fh) by (unfold positive_range, range_end in *; lia).
    destruct (truncate_ok _ _ Hlt) as (r & fh' & Hrun & Hp & He & Hans & _ & Hfr).
    unfold on_file. rewrite Hrun. eexists _, _. split; [reflexivity|]. cbn [fst snd]. rewrite Hp.
    split_and!; try assumption; try reflexivity; [split; reflexivity|lia| | |].
    + rewrite Hent, pages_of_app. f_equiv. unfold pages_of, pages. cbn. rewrite app_nil_r.
      replace (fileNumPages fh - startPageIdx last) with (numPages last)
        by (unfold range_end in Hend; lia). reflexivity.
    + intros a b Ha Hb. rewrite Hent in Ha, Hb. apply (with_gaps_not_adjacent gone); assumption.
    + intros a Ha. rewrite Hent in Ha. rewrite Forall_forall in Hg2. specialize (Hg2 a Ha). lia.
  - assert (Hfresh : last ∉ entries fsm).
    { rewrite Hent. intros Hi. rewrite Forall_forall in Hg2. specialize (Hg2 _ Hi). unfold range_end in Hg2. lia. }
    destruct (addFreePages_ok fsm last Hf Hlast Hfresh) as (m' & Hrun & Hok' & Hent' & Hrest).
    unfold on_manager. rewrite Hrun. eexists _, _. split; [reflexivity|]. cbn [fst snd].
    assert (Hent2 : entries m' ≡ₚ gone ++ [last])
      by (rewrite Hent', Hent; apply Permutation_cons_append).
    assert (Hp : Forall positive_range (gone ++ [last])).
    { apply Forall_app. split; [exact Hgone|]. repeat constructor. exact Hlast. }
    split_and!; try assumption; try reflexivity.
    + rewrite Nat.sub_diag. cbn. rewrite app_nil_r, Hent2. reflexivity.
    + intros a b Ha Hb. rewrite Hent2 in Ha, Hb. apply (with_gaps_not_adjacent (gone ++ [last])); assumption.
    + intros a Ha Heq. rewrite Hent2 in Ha. apply elem_of_app in Ha as [Ha|Ha].
      * rewrite Forall_forall in Hg2. specialize (Hg2 a Ha).
        assert (range_end last ≤ fileNumPages fh); [|unfold range_end, positive_range in *; lia].
        specialize (Hbound (range_end last - 1)). rewrite elem_of_pages_of in Hbound.
        destruct (decide (range_end last ≤ fileNumPages fh)); [assumption|].
        assert (range_end last - 1 < fileNumPages fh); [|lia]. apply Hbound. exists last.
        split; [apply elem_of_app; right; left|]. apply elem_of_pages. unfold positive_range, range_end in *. lia.
      * apply list_elem_of_singleton in Ha. subst. contradiction.
    + auto.
Qed.

Section Checkpoint.
Context (fsm : FreeSpaceManager) (fh : FileHandle).
Abbreviation all := (uncheckpointedFreePageRanges fsm ++ entries fsm).
Context (Hok : fsm_ok fsm) (Hpos : Forall positive_range (uncheckpointedFreePageRanges fsm)).
Context (Hnd : NoDup (pages_of all)) (Hin : ∀ p, p ∈ pages_of all → p < fileNumPages fh).

Lemma all_positive : Forall positive_range all.
Proof.
  apply Forall_app. split; [exact Hpos|]. apply Forall_forall. intros r. apply fsm_positive, Hok.
Qed.

Lemma sorted_all : in_order (merge_sort starts_before all).
Proof.
  pose proof (merge_sort_Permutation starts_before all) as Hperm.
  apply sorted_disjoint_in_order.
  - apply StronglySorted_merge_sort; [intros a b c; unfold starts_before; lia|].
    intros a b. unfold starts_before. lia.
  - rewrite Hperm. apply all_positive.
  - rewrite Hperm. exact Hnd.
Qed.

Lemma finalizeCheckpoint_ok :
  ∃ r s', finalizeCheckpoint (fsm, fh) = (r, s') ∧ (r = Ok tt → checkpointed (fsm, fh) s') ∧ (frames_ok fh → r = Ok tt).
Proof.
  unfold finalizeCheckpoint. rewrite (M_bind_ok _ _ _ _ _ (eq_refl : get_state _ = (Ok _, _))).
  cbn [fst]. rewrite (M_bind_ok _ _ _ _ _ (fold_evict _ _)). cbn [fst snd].
  set (fsm1 := match uncheckpointedFreePageRanges fsm with [] => fsm | _ => set_needClear true fsm end).
  assert (Hent1 : freeLists fsm1 = freeLists fsm) by (unfold fsm1; destruct (uncheckpointedFreePageRanges fsm); reflexivity).
  set (fh1 := add_evicted _ fh). unfold mergePageRanges.
  rewrite !M_bind_assoc, (M_bind_ok _ _ _ _ _ (eq_refl : get_state _ = (Ok _, _))). cbn [fst].
  rewrite Hent1. change (concat (freeLists fsm)) with (entries fsm).
  pose proof sorted_all as Hord. pose proof all_positive as Hap.
  pose proof (merge_sort_Permutation starts_before (uncheckpointedFreePageRanges fsm ++ entries fsm)) as Hperm.
  destruct (merge_sort starts_before (uncheckpointedFreePageRanges fsm ++ entries fsm)) as [|first rest].
  - symmetry in Hperm. apply Permutation_nil_r in Hperm. apply app_eq_nil in Hperm as [Hu He].
    eexists _, _. split; [reflexivity|]. split; [intros _|reflexivity].
    assert (Hempty : entries (set_unchk [] fsm1) = []) by (unfold entries in *; cbn; rewrite Hent1; exact He).
    unfold entries in Hempty. split; cbn [fst snd]; unfold entries; rewrite ?Hempty.
    + destruct Hok as [H1 H2]. split; cbn; rewrite Hent1; [exact H1|]. unfold fsm1. rewrite Hu. exact H2.
    + reflexivity.
    + reflexivity.
    + cbn. rewrite Nat.sub_diag, Hu. unfold entries in He. rewrite He. reflexivity.
    + intros a b Ha. apply elem_of_nil in Ha. contradiction.
    + intros a Ha. apply elem_of_nil in Ha. contradiction.
    + cbn. rewrite Hu. reflexivity.
    + reflexivity.
    + auto.
  - destruct (resetFreeLists_ok fsm1) as [Hr1 Hr2].
    rewrite <- Hperm in Hap. apply Forall_cons in Hap as [Hpf Hpr].
    destruct (merge_loop_spec rest first (resetFreeLists fsm1) []) as
      (last & m' & gone & Hrun & Hok' & Hent' & Hg & Hpl & Hpages & Hsame); try assumption;
      [rewrite Hr2; reflexivity|repeat constructor|constructor|].
    assert (Hpg : Forall positive_range gone).
    { apply Forall_forall. intros r Hr. apply (fsm_positive m'); [exact Hok'|]. rewrite Hent'. exact Hr. }
    assert (Hallp : pages_of (gone ++ [last]) ≡ₚ pages_of (uncheckpointedFreePageRanges fsm ++ entries fsm)).
    { rewrite Hpages. cbn [app]. rewrite Hperm. reflexivity. }
    destruct (handle_last m' fh1 last gone) as (r & s' & Hrun' & H1 & H2 & H3 & H4 & H5 & H6 & H7 & H8 & H9); try assumption.
    { intros p Hp. rewrite Hallp in Hp. apply Hin, Hp. }
    exists r, (match r with Ok _ => (set_unchk [] s'.1, s'.2) | Throw _ => s' end). split.
    { unfold on_manager. unfold_M. rewrite Hrun, Hrun'. destruct r as [[]|], s'; reflexivity. }
    split; [|intros Hf; apply H9; exact Hf]. intros ->.
    split; cbn [fst snd]; try assumption; try reflexivity; [rewrite <- Hallp, <- H5; reflexivity|].
    intros Hf. apply H9. exact Hf.
Qed.

End Checkpoint.
