(* ===== verification/FreeSpaceTheorems.v ===== *)
(** * Page allocation never hands out a page twice and loses none

    The page manager as a transition system over its clients' allocations, frees and checkpoints,
    with the invariant that every page of the file is owned by exactly one party; best fit, merging,
    enumeration and persistence of the free entries. *)

From stdpp Require Import base numbers list sorting strings relations.
From Stdlib Require Import ZArith Lia.
From S2P Require Import Prelude Serializer FreeSpace FreeSpaceSpec.
Import Serializer FreeSpace.

(** ** The page manager and its clients *)

(** A new database file, on disk or in memory, and how the buffer manager will answer. *)
Definition PageManager_new (inMemory : bool) (answers : list bool) : PageManager :=
  MkPageManager (FreeSpaceManager_new, MkFileHandle 0 0 0 inMemory answers []) 0.

Abbreviation fsm_of pm := (store pm).1.
Abbreviation file_pages pm := (fileNumPages (store pm).2).

(** The steps of the page manager, the pages its clients own, and the pages an allocation had added when
    the buffer manager refused a request: these belong to nobody. A checkpoint that is rolled back leaves
    the pages freed since the last one in use. *)
Inductive pm_step : PageManager * list nat * list nat → PageManager * list nat * list nat → Prop :=
  | step_allocate n r pm pm' owned leaked :
      numbers_left (file_pages pm + n) → allocatePageRange n pm = (Ok r, pm') →
      pm_step (pm, owned, leaked) (pm', pages r ++ owned, leaked)
  | step_refused n e pm pm' owned leaked :
      numbers_left (file_pages pm + n) → allocatePageRange n pm = (Throw e, pm') →
      pm_step (pm, owned, leaked) (pm', owned, seq (file_pages pm) (file_pages pm' - file_pages pm) ++ leaked)
  | step_free r pm pm' owned leaked rest :
      0 < numPages r → owned ≡ₚ pages r ++ rest → freePageRange r pm = (Ok tt, pm') →
      pm_step (pm, owned, leaked) (pm', rest, leaked)
  | step_free_now r pm pm' owned leaked rest :
      0 < numPages r → owned ≡ₚ pages r ++ rest →
      freeImmediatelyRewritablePageRange r pm = (Ok tt, pm') →
      pm_step (pm, owned, leaked) (pm', rest, leaked)
  | step_checkpoint pm pm' owned leaked :
      pm_finalizeCheckpoint pm = (Ok tt, pm') → pm_step (pm, owned, leaked) (pm', owned, leaked)
  | step_rollback pm pm' owned leaked :
      pm_rollbackCheckpoint pm = (Ok tt, pm') →
      pm_step (pm, owned, leaked) (pm', pages_of (uncheckpointedFreePageRanges (fsm_of pm)) ++ owned, leaked).

Definition reachable (s : PageManager * list nat * list nat) : Prop :=
  ∃ inMemory answers, rtc pm_step (PageManager_new inMemory answers, [], []) s.

Abbreviation waiting pm := (uncheckpointedFreePageRanges (fsm_of pm)).

(** [owned] are the pages that are neither waiting nor free. *)
Record pm_inv (pm : PageManager) (owned : list nat) : Prop := {
  pi_ok : fsm_ok (fsm_of pm);
  pi_waiting : Forall positive_range (waiting pm);
  pi_pages : owned ++ pages_of (waiting pm ++ entries (fsm_of pm)) ≡ₚ seq 0 (file_pages pm);
}.

#[global] Instance pm_inv_Permutation pm : Proper ((≡ₚ) ==> iff) (pm_inv pm).
Proof. intros l1 l2 H. split; intros [H1 H2 H3]; split; try assumption; rewrite <- H3, H; reflexivity. Qed.

Lemma pm_inv_nodup pm owned : pm_inv pm owned → NoDup (owned ++ pages_of (waiting pm ++ entries (fsm_of pm))).
Proof. intros H. rewrite (pi_pages _ _ H). apply NoDup_seq. Qed.

Lemma pm_inv_nodup_free pm owned : pm_inv pm owned → NoDup (pages_of (entries (fsm_of pm))).
Proof.
  intros H%pm_inv_nodup. rewrite pages_of_app in H.
  apply NoDup_app in H as (_ & _ & H). apply NoDup_app in H as (_ & _ & H). exact H.
Qed.

Lemma pm_inv_fresh_range pm owned r rest :
  pm_inv pm owned → owned ≡ₚ pages r ++ rest → 0 < numPages r → r ∉ entries (fsm_of pm).
Proof.
  intros Hinv Ho Hr. apply disjoint_ranges; [|exact Hr]. pose proof (pm_inv_nodup _ _ Hinv) as Hnd.
  rewrite Ho, pages_of_app in Hnd. rewrite pages_of_cons.
  rewrite <- app_assoc in Hnd. apply NoDup_app in Hnd as (H1 & H2 & H3).
  apply NoDup_app. split; [exact H1|]. split.
  - intros p Hp Hp'. apply (H2 p Hp). rewrite !elem_of_app. auto.
  - apply NoDup_app in H3 as (_ & _ & H3). apply NoDup_app in H3 as (_ & _ & H3). exact H3.
Qed.

(** What an allocation leaves of the file. *)
Definition file_grown (pm pm' : PageManager) (k : nat) : Prop :=
  same_file (store pm).2 (store pm').2 ∧ file_pages pm' = file_pages pm + k ∧
  (bmAnswers (store pm).2 = [] → frames_ok (store pm).2 → frames_ok (store pm').2).

Lemma file_grown_refl pm fsm ver : file_grown pm (MkPageManager (fsm, (store pm).2) ver) 0.
Proof. unfold file_grown, same_file. cbn. split_and!; auto. Qed.

(** An allocation gives pages nobody has; when it throws, the pages it added have no owner. *)
Definition allocated (n : nat) (pm : PageManager) (owned : list nat) : Prop :=
  ∃ res pm' k, allocatePageRange n pm = (res, pm') ∧ file_grown pm pm' k ∧ k ≤ n ∧
    (bmAnswers (store pm).2 = [] → ∃ r, res = Ok r) ∧
    match res with
    | Ok r => numPages r = n ∧ pm_inv pm' (pages r ++ owned) ∧
        (k = 0 ∨ (k = n ∧ ∀ e, e ∈ entries (fsm_of pm) → 0 < n → numPages e < n))
    | Throw _ => pm_inv pm' (seq (file_pages pm) k ++ owned)
    end.

(** Pages added at the end of the file, all of them or, when the buffer manager refuses a request, the first. *)
Lemma allocate_new n pm owned :
  pm_inv pm owned → numbers_left (file_pages pm + n) → popFreePages n (fsm_of pm) = (Ok None, fsm_of pm) →
  (∀ e, e ∈ entries (fsm_of pm) → 0 < n → numPages e < n) → allocated n pm owned.
Proof.
  intros Hinv Hleft Hpop Hsmall. destruct pm as [[fsm fh] ver]. cbn [store fst snd] in *.
  destruct (add_pages_ok n fh Hleft) as (r & fh' & k & Hrun & Hs & Hp & Hk & Hr & Hok).
  assert (Hinv' : pm_inv (MkPageManager (fsm, fh') ver) (seq (fileNumPages fh) k ++ owned)).
  { destruct Hinv as [H1 H2 H3]. split; cbn [store fst snd] in *; try assumption.
    rewrite Hp, seq_app, <- H3. cbn. solve_Permutation. }
  exists (match r with Ok _ => Ok (MkPageRange (fileNumPages fh) n) | Throw e => Throw e end),
    (MkPageManager (fsm, fh') ver), k. split.
  { unfold allocatePageRange, on_store, on_manager, on_file, addNewPages. unfold_M. cbn [store].
    rewrite Hpop. cbn [store version]. rewrite Hrun. destruct r as [[]|e]; [|reflexivity]. cbn [store snd].
    rewrite (Hr eq_refl) in Hp. rewrite Hp, (proj2 (Nat.leb_le _ _)) by lia. reflexivity. }
  split_and!; [split; [exact Hs|split; [exact Hp|intros Ha; apply (Hok Ha)]]|exact Hk| |].
  - intros Ha. destruct (Hok Ha) as [-> _]. eauto.
  - destruct r as [[]|e]; [|exact Hinv']. rewrite (Hr eq_refl) in *.
    split_and!; [reflexivity|exact Hinv'|]. right. split; [reflexivity|exact Hsmall].
Qed.

Lemma allocate_run n pm owned :
  pm_inv pm owned → numbers_left (file_pages pm + n) → allocated n pm owned.
Proof.
  intros Hinv Hleft.
  destruct (decide (n = 0)) as [->|Hn]; [apply allocate_new; [assumption..|reflexivity|lia]|].
  destruct (popFreePages_ok (fsm_of pm) n (pi_ok _ _ Hinv) (pm_inv_nodup_free _ _ Hinv)) as
    [[Hpop Hall]|(e & rest & m' & Hpop & Hent & Hne & _ & Hok & Hent' & Hrest)]; [lia|apply allocate_new; auto|].
  exists (Ok (MkPageRange (startPageIdx e) n)), (MkPageManager (m', (store pm).2) (S (version pm))), 0.
  split; [unfold allocatePageRange, on_store, on_manager, bump; destruct pm as [[fsm fh] ver]; unfold_M; cbn [store fst] in *;
          rewrite Hpop; reflexivity|].
  split_and!; [apply file_grown_refl|lia|eauto|reflexivity| |left; reflexivity].
  destruct Hinv as [H1 H2 H3]. destruct Hrest as [Hu _].
  split; cbn [store fst snd] in *; [exact Hok|rewrite Hu; exact H2|].
  rewrite Hu, <- H3. rewrite !pages_of_app, Hent', Hent, pages_of_app, pages_of_cons.
  rewrite (pages_split e n Hne). solve_Permutation.
Qed.

(** When the buffer manager grants every request an allocation succeeds. *)
Lemma allocate_ok n pm owned :
  pm_inv pm owned → numbers_left (file_pages pm + n) → bmAnswers (store pm).2 = [] →
  ∃ r pm' k, allocatePageRange n pm = (Ok r, pm') ∧ file_grown pm pm' k ∧ numPages r = n ∧ pm_inv pm' (pages r ++ owned) ∧
    (k = 0 ∨ (k = n ∧ ∀ e, e ∈ entries (fsm_of pm) → 0 < n → numPages e < n)).
Proof.
  intros Hinv Hleft Ha. destruct (allocate_run n pm owned Hinv Hleft) as (res & pm' & k & H1 & H2 & _ & H4 & H5).
  destruct (H4 Ha) as [r ->]. exists r, pm', k. destruct H5 as (H5 & H6 & H7). split_and!; assumption.
Qed.

Lemma free_ok r pm owned rest :
  pm_inv pm owned → 0 < numPages r → owned ≡ₚ pages r ++ rest →
  ∃ pm', freePageRange r pm = (Ok tt, pm') ∧ pm_inv pm' rest.
Proof.
  intros Hinv Hr Ho. destruct pm as [[fsm fh] ver]. eexists. split; [reflexivity|].
  destruct Hinv as [H1 H2 H3]. split; cbn [store fst snd] in *.
  - exact H1.
  - cbn. apply Forall_app. split; [exact H2|]. repeat constructor. exact Hr.
  - cbn. rewrite <- H3, Ho, !pages_of_app. cbn. rewrite app_nil_r.
    change (entries (addUncheckpointedFreePages r fsm)) with (entries fsm). solve_Permutation.
Qed.

Lemma free_now_ok r pm owned rest :
  pm_inv pm owned → 0 < numPages r → owned ≡ₚ pages r ++ rest →
  ∃ pm', freeImmediatelyRewritablePageRange r pm = (Ok tt, pm') ∧ pm_inv pm' rest.
Proof.
  intros Hinv Hr Ho. pose proof (pm_inv_fresh_range _ _ _ _ Hinv Ho Hr) as Hfresh.
  destruct pm as [[fsm fh] ver]. cbn [store fst] in Hfresh.
  destruct (addFreePages_ok (set_needClear true fsm) r (pi_ok _ _ Hinv) Hr Hfresh)
    as (m' & Hrun & Hok & Hent & Hu & _).
  unfold freeImmediatelyRewritablePageRange, on_store, evictAndAddFreePages, evictPages, on_manager, bump.
  unfold_M. cbn [store]. rewrite Hrun. eexists. split; [reflexivity|].
  destruct Hinv as [H1 H2 H3]. split; cbn [store fst snd fileNumPages] in *; [exact Hok|rewrite Hu; exact H2|].
  rewrite Hu, <- H3, Ho, !pages_of_app, Hent, pages_of_cons.
  change (entries (set_needClear true fsm)) with (entries fsm).
  change (uncheckpointedFreePageRanges (set_needClear true fsm)) with (uncheckpointedFreePageRanges fsm).
  solve_Permutation.
Qed.

Lemma checkpoint_ok pm owned :
  pm_inv pm owned →
  ∃ r pm', pm_finalizeCheckpoint pm = (r, pm') ∧ (frames_ok (store pm).2 → r = Ok tt) ∧
    (r = Ok tt → pm_inv pm' owned ∧ checkpointed (store pm) (store pm')).
Proof.
  intros Hinv. pose proof (pm_inv_nodup _ _ Hinv) as Hnd. apply NoDup_app in Hnd as (_ & _ & Hnd).
  destruct pm as [[fsm fh] ver]. pose proof (pi_pages _ _ Hinv) as Hpages. cbn [store fst snd] in *.
  destruct (finalizeCheckpoint_ok fsm fh (pi_ok _ _ Hinv) (pi_waiting _ _ Hinv) Hnd) as (r & s' & Hrun & Hcp & Hframes).
  { intros p Hp. assert (H : p ∈ seq 0 (fileNumPages fh)) by (rewrite <- Hpages; apply elem_of_app; auto).
    apply elem_of_seq in H. lia. }
  exists r, (MkPageManager s' ver). split; [unfold pm_finalizeCheckpoint, on_store; cbn [store]; rewrite Hrun; reflexivity|].
  split; [exact Hframes|]. intros Hr. specialize (Hcp Hr). split; [|exact Hcp]. destruct Hcp as [H1 H2 H3 H4 _ _ _ _ _].
  split; cbn [store] in *; [exact H1|rewrite H2; constructor|].
  rewrite H2. cbn [app fst snd] in *. rewrite <- H4 in Hpages.
  set (k := fileNumPages s'.2) in *. replace (fileNumPages fh) with (k + (fileNumPages fh - k)) in Hpages at 2 by lia.
  rewrite seq_app, app_assoc in Hpages. cbn in Hpages.
  apply (Permutation_app_inv_r (seq k (fileNumPages fh - k))). exact Hpages.
Qed.

Lemma rollback_ok pm owned :
  pm_inv pm owned →
  ∃ pm', pm_rollbackCheckpoint pm = (Ok tt, pm') ∧ pm_inv pm' (pages_of (waiting pm) ++ owned).
Proof.
  intros Hinv. destruct pm as [[fsm fh] ver]. eexists. split; [reflexivity|].
  destruct Hinv as [H1 H2 H3]. split; cbn [store fst snd] in *; [exact H1|constructor|].
  cbn. rewrite <- H3, pages_of_app. change (entries (rollbackCheckpoint fsm)) with (entries fsm).
  solve_Permutation.
Qed.

(** The pages with an owner and those without one. *)
Definition taken (s : PageManager * list nat * list nat) : list nat := s.1.2 ++ s.2.

Lemma pm_step_inv s s' : pm_step s s' → pm_inv s.1.1 (taken s) → pm_inv s'.1.1 (taken s').
Proof.
  intros H Hinv. destruct H as [n r pm pm' owned leaked Hleft Hrun|n e pm pm' owned leaked Hleft Hrun|
    r pm pm' owned leaked rest Hr Ho Hrun|r pm pm' owned leaked rest Hr Ho Hrun|pm pm' owned leaked Hrun|
    pm pm' owned leaked Hrun]; unfold taken in *; cbn [fst snd] in *.
  - destruct (allocate_run n pm _ Hinv Hleft) as (res & pm2 & k & Hrun' & _ & _ & _ & Hres).
    rewrite Hrun in Hrun'. injection Hrun' as <- <-. rewrite <- app_assoc. apply Hres.
  - destruct (allocate_run n pm _ Hinv Hleft) as (res & pm2 & k & Hrun' & (_ & Hk & _) & _ & _ & Hres).
    rewrite Hrun in Hrun'. injection Hrun' as <- <-. replace (file_pages pm' - file_pages pm) with k by lia.
    revert Hres. apply pm_inv_Permutation. solve_Permutation.
  - destruct (free_ok r pm (owned ++ leaked) (rest ++ leaked) Hinv Hr) as (pm2 & Hrun' & Hinv');
      [rewrite Ho, app_assoc; reflexivity|]. rewrite Hrun in Hrun'. injection Hrun' as ->. exact Hinv'.
  - destruct (free_now_ok r pm (owned ++ leaked) (rest ++ leaked) Hinv Hr) as (pm2 & Hrun' & Hinv');
      [rewrite Ho, app_assoc; reflexivity|]. rewrite Hrun in Hrun'. injection Hrun' as ->. exact Hinv'.
  - destruct (checkpoint_ok pm _ Hinv) as (r & pm2 & Hrun' & _ & Hinv').
    rewrite Hrun in Hrun'. injection Hrun' as <- <-. apply Hinv'. reflexivity.
  - destruct (rollback_ok pm _ Hinv) as (pm2 & Hrun' & Hinv').
    rewrite Hrun in Hrun'. injection Hrun' as ->. rewrite <- app_assoc. exact Hinv'.
Qed.

Lemma pm_inv_new inMemory answers : pm_inv (PageManager_new inMemory answers) [].
Proof.
  split; cbn; [split; [intros k l H; cbn in H; rewrite lookup_nil in H; discriminate|reflexivity]|constructor|reflexivity].
Qed.

Lemma reachable_inv s : reachable s → pm_inv s.1.1 (taken s).
Proof.
  intros (inMemory & answers & H). pose proof (pm_inv_new inMemory answers) as Hnew.
  change (pm_inv (PageManager_new inMemory answers, @nil nat, @nil nat).1.1
            (taken (PageManager_new inMemory answers, @nil nat, @nil nat))) in Hnew.
  induction H as [s|s1 s2 s3 Hstep _ IH]; [exact Hnew|]. apply IH. exact (pm_step_inv _ _ Hstep Hnew).
Qed.

(** C13. The partition of the file: in every state the page manager reaches from a new file, on disk or in
    memory, through allocations, frees, immediate frees, checkpoints that complete and checkpoints that are
    rolled back, with the buffer manager granting or refusing any request, each page of the file is either
    owned by a client, added by an allocation that then threw, waiting for the next checkpoint, or free, and
    in exactly one of these; so no page is handed out twice and the only pages lost are those of allocations
    that threw. The file stays a page group below 2^32 pages. *)
Theorem pages_partitioned pm owned leaked :
  reachable (pm, owned, leaked) →
  owned ++ leaked ++ pages_of (uncheckpointedFreePageRanges (store pm).1) ++ pages_of (entries (store pm).1) ≡ₚ
    seq 0 (fileNumPages (store pm).2).
Proof.
  intros H. apply reachable_inv in H. rewrite <- (pi_pages _ _ H). unfold taken. cbn [fst snd].
  rewrite pages_of_app, <- app_assoc. reflexivity.
Qed.

(** A run: allocate 5 pages, free 3 of them, complete a checkpoint, allocate 2 pages again. *)
Definition sample_run : PageManager * PageRange :=
  let pm1 := (allocatePageRange 5 (PageManager_new false [])).2 in
  let pm2 := (freePageRange (MkPageRange 0 3) pm1).2 in
  let pm3 := (pm_finalizeCheckpoint pm2).2 in
  let '(r, pm4) := allocatePageRange 2 pm3 in
  (pm4, match r with Ok r => r | Throw _ => MkPageRange 0 0 end).

Lemma sample_reachable : reachable (sample_run.1, [0; 1; 3; 4], []).
Proof.
  exists false, [].
  eapply rtc_l; [apply (step_allocate 5); [unfold numbers_left; cbn; lia|vm_compute; reflexivity]|].
  eapply rtc_l; [apply (step_free (MkPageRange 0 3)) with (rest := [3; 4]);
                 [cbn; lia|vm_compute; reflexivity|vm_compute; reflexivity]|].
  eapply rtc_l; [apply step_checkpoint; vm_compute; reflexivity|].
  eapply rtc_l; [apply (step_allocate 2); [unfold numbers_left; cbn; lia|vm_compute; reflexivity]|].
  apply rtc_refl.
Qed.

(** In memory: the second of three pages is refused, and the first two stay in the file without an owner. *)
Definition refused_run : PageManager := (allocatePageRange 3 (PageManager_new true [true; true; false])).2.

Lemma refused_reachable : reachable (refused_run, [], [0; 1]).
Proof.
  exists true, [true; true; false].
  eapply rtc_l; [apply (step_refused 3 (BufferManagerException
    "Unable to allocate memory! The buffer pool is full and no memory could be freed!")); [unfold numbers_left; cbn; lia|vm_compute; reflexivity]|].
  apply rtc_refl.
Qed.

Lemma pages_partitioned_witness :
  ([0; 1; 3; 4] ++ [] ++ pages_of (uncheckpointedFreePageRanges (store sample_run.1).1) ++
    pages_of (entries (store sample_run.1).1) ≡ₚ seq 0 5) ∧
  ([] ++ [0; 1] ++ pages_of (uncheckpointedFreePageRanges (store refused_run).1) ++
    pages_of (entries (store refused_run).1) ≡ₚ seq 0 2).
Proof.
  split; [exact (pages_partitioned sample_run.1 [0; 1; 3; 4] [] sample_reachable)|].
  exact (pages_partitioned refused_run [] [0; 1] refused_reachable).
Defined.

(** A refused frame group leaves a file that counts on it: the next allocation hands out pages that have no
    frame group, and giving the last of them back at a checkpoint fails the assertion on the frame groups. *)
Definition after_refusal : PageManager :=
  (allocatePageRange 2 (allocatePageRange 1 (PageManager_new false [false])).2).2.

Theorem refused_group_counted :
  (allocatePageRange 2 (allocatePageRange 1 (PageManager_new false [false])).2).1 = Ok (MkPageRange 0 2) ∧
  frameGroups (store after_refusal).2 = 0 ∧
  (pm_finalizeCheckpoint (freePageRange (MkPageRange 1 1) after_refusal).2).1 = Throw assert_failure.
Proof. vm_compute. auto. Qed.

(** Allocation is total and fresh: from every reachable state, as long as the buffer manager grants the requests
    and page numbers are left, an allocation of any size succeeds with exactly that many pages, none of which
    a client owns; the file grows only when no free entry is large enough. *)
Theorem allocation_total_and_fresh pm owned leaked n :
  reachable (pm, owned, leaked) → numbers_left (fileNumPages (store pm).2 + n) → bmAnswers (store pm).2 = [] →
  ∃ r pm', allocatePageRange n pm = (Ok r, pm') ∧ numPages r = n ∧ NoDup (pages r ++ owned) ∧
    (fileNumPages (store pm').2 = fileNumPages (store pm).2 ∨
     (fileNumPages (store pm').2 = fileNumPages (store pm).2 + n ∧
      ∀ e, e ∈ entries (store pm).1 → 0 < n → numPages e < n)).
Proof.
  intros H%reachable_inv Hleft Ha. destruct (allocate_ok n pm _ H Hleft Ha) as (r & pm' & k & H1 & (_ & Hk & _) & H2 & H3 & H4).
  exists r, pm'. split_and!; [exact H1|exact H2| |].
  - apply pm_inv_nodup in H3. unfold taken in H3. rewrite app_assoc in H3.
    apply NoDup_app in H3 as (H3 & _). apply NoDup_app in H3 as (H3 & _). exact H3.
  - destruct H4 as [-> |[-> H4]]; [left; lia|right; split; [exact Hk|exact H4]].
Qed.

Lemma allocation_total_and_fresh_witness :
  ∃ r pm', allocatePageRange 7 sample_run.1 = (Ok r, pm') ∧ numPages r = 7.
Proof.
  destruct (allocation_total_and_fresh sample_run.1 [0; 1; 3; 4] [] 7 sample_reachable) as (r & pm' & H1 & H2 & _);
    [vm_compute; discriminate|reflexivity|].
  exists r, pm'. auto.
Defined.

(** Checkpoint: from every reachable state in which no frame group was refused the completion of a checkpoint
    succeeds; afterwards no range is waiting, no two free entries are adjacent, no free entry touches the end of the file (its
    pages are given back), and the freed pages have been evicted from the buffer manager. *)
Theorem checkpoint_merges pm owned leaked :
  reachable (pm, owned, leaked) → frames_ok (store pm).2 →
  ∃ pm', pm_finalizeCheckpoint pm = (Ok tt, pm') ∧
    uncheckpointedFreePageRanges (store pm').1 = [] ∧
    (∀ a b, a ∈ entries (store pm').1 → b ∈ entries (store pm').1 → range_end a ≠ startPageIdx b) ∧
    (∀ a, a ∈ entries (store pm').1 → range_end a ≠ fileNumPages (store pm').2) ∧
    pages_of (entries (store pm').1) ++
      seq (fileNumPages (store pm').2) (fileNumPages (store pm).2 - fileNumPages (store pm').2) ≡ₚ
      pages_of (uncheckpointedFreePageRanges (store pm).1 ++ entries (store pm).1) ∧
    evictedPages (store pm').2 =
      evictedPages (store pm).2 ++ pages_of (uncheckpointedFreePageRanges (store pm).1).
Proof.
  intros H%reachable_inv Hf. destruct (checkpoint_ok pm _ H) as (r & pm' & Hrun & Hr & Hcp).
  specialize (Hr Hf). destruct (Hcp Hr) as [_ [_ H2 _ H4 H5 H6 H7 _ _]]. exists pm'. rewrite <- Hr. split_and!; assumption.
Qed.

Lemma checkpoint_merges_witness :
  ∃ pm', pm_finalizeCheckpoint sample_run.1 = (Ok tt, pm') ∧
    uncheckpointedFreePageRanges (store pm').1 = [].
Proof.
  destruct (checkpoint_merges sample_run.1 [0; 1; 3; 4] [] sample_reachable) as (pm' & H1 & H2 & _);
    [split; vm_compute; [reflexivity|lia]|]. eauto.
Defined.

(** Best fit: [popFreePages] fails only when no entry is large enough, and otherwise takes the
    smallest entry that is, the first one in the file among equals; it returns the first pages of
    the entry and keeps the rest free. *)
Theorem popFreePages_best_fit m n :
  fsm_ok m → NoDup (pages_of (entries m)) → 0 < n →
  (popFreePages n m = (Ok None, m) ∧ ∀ r, r ∈ entries m → numPages r < n) ∨
  ∃ e m', popFreePages n m = (Ok (Some (MkPageRange (startPageIdx e) n)), m') ∧ e ∈ entries m ∧
    (∀ r, r ∈ entries m → n ≤ numPages r →
      numPages e < numPages r ∨ (numPages e = numPages r ∧ startPageIdx e ≤ startPageIdx r)) ∧
    pages (MkPageRange (startPageIdx e) n) ++ pages_of (entries m') ≡ₚ pages_of (entries m).
Proof.
  intros Hok Hnd Hn.
  destruct (popFreePages_ok m n Hok Hnd Hn) as [H|(e & rest & m' & H1 & H2 & H3 & H4 & _ & H6 & _)];
    [left; exact H|right]. exists e, m'. split; [exact H1|]. split; [rewrite H2; left|]. split.
  - intros r Hr Hle. specialize (H4 r Hr Hle). apply entryCmp_false in H4. lia.
  - rewrite H6, H2, pages_of_app, pages_of_cons, (pages_split e n H3), app_assoc. reflexivity.
Qed.

(** Three free entries in two levels. *)
Definition sample_fsm : FreeSpaceManager :=
  MkFreeSpaceManager [[]; [MkPageRange 4 2]; [MkPageRange 20 5; MkPageRange 10 6]] [] 3 false.

Lemma sample_fsm_ok : fsm_ok sample_fsm ∧ NoDup (pages_of (entries sample_fsm)).
Proof.
  split; [split; [|reflexivity]|].
  - intros [|[|[|k]]] l H; cbn in H; try discriminate H; injection H as <-; split; repeat constructor.
  - apply (bool_decide_eq_true_1 (NoDup (pages_of (entries sample_fsm)))). vm_compute. reflexivity.
Qed.

Lemma popFreePages_best_fit_witness :
  ∃ m', popFreePages 4 sample_fsm = (Ok (Some (MkPageRange 20 4)), m').
Proof.
  destruct (popFreePages_best_fit sample_fsm 4 (proj1 sample_fsm_ok) (proj2 sample_fsm_ok)) as
    [[_ H]|(e & m' & H1 & H2 & H3 & _)]; [lia| |].
  - exfalso. specialize (H (MkPageRange 20 5)). cbn in H. assert (5 < 4); [|lia].
    apply H. right. left.
  - exists m'. vm_compute in H1 |- *. congruence.
Defined.

(** ** Optimistic allocation *)

(** The pages of an allocator: those it allocated and has not given up are owned by its client. *)
Definition oa_inv (oa : OptimisticAllocator) (others : list nat) : Prop :=
  pm_inv (pageManager oa) (pages_of (optimisticallyAllocatedPages oa) ++ others) ∧
  Forall positive_range (optimisticallyAllocatedPages oa).

Lemma oa_rollback_loop l pm others :
  pm_inv pm (pages_of l ++ others) → Forall positive_range l →
  ∀ kept, ∃ pm', for_each l (λ entry, on_pages (freeImmediatelyRewritablePageRange entry))
      (MkOptimisticAllocator pm kept) = (Ok tt, MkOptimisticAllocator pm' kept) ∧ pm_inv pm' others.
Proof.
  revert pm. induction l as [|r l IH]; intros pm Hinv Hpos kept; [exists pm; auto|].
  apply Forall_cons in Hpos as [Hr Hpos].
  destruct (free_now_ok r pm _ (pages_of l ++ others) Hinv Hr) as (pm1 & Hrun & Hinv1).
  { rewrite pages_of_cons, app_assoc. reflexivity. }
  destruct (IH pm1 Hinv1 Hpos kept) as (pm' & Hrun' & Hinv'). exists pm'. split; [|exact Hinv'].
  rewrite (for_each_cons_ok r l _ _ (MkOptimisticAllocator pm1 kept)); [exact Hrun'|].
  unfold on_pages. cbn [pageManager]. rewrite Hrun. reflexivity.
Qed.

(** Optimistic allocation: pages taken through the allocator, when the buffer manager grants the requests,
    are remembered, so that a rollback succeeds and gives exactly them back as free pages; the pages of others keep their owners. *)
Theorem optimistic_rollback oa others n :
  oa_inv oa others → numbers_left (file_pages (pageManager oa) + n) → bmAnswers (store (pageManager oa)).2 = [] →
  ∃ r oa1 oa2, oa_allocatePageRange n oa = (Ok r, oa1) ∧ numPages r = n ∧ oa_inv oa1 others ∧
    oa_rollback oa1 = (Ok tt, oa2) ∧ optimisticallyAllocatedPages oa2 = [] ∧
    others ++ pages_of (waiting (pageManager oa2)) ++ pages_of (entries (fsm_of (pageManager oa2))) ≡ₚ
      seq 0 (file_pages (pageManager oa2)).
Proof.
  destruct oa as [pm l]. intros [Hinv Hpos] Hleft Ha. cbn [pageManager optimisticallyAllocatedPages] in *.
  destruct (allocate_ok n pm _ Hinv Hleft Ha) as (r & pm1 & k & Hrun & _ & Hn & Hinv1 & _).
  set (l1 := if 0 <? n then l ++ [r] else l).
  assert (Hl1 : pages r ++ pages_of l ++ others ≡ₚ pages_of l1 ++ others ∧ Forall positive_range l1).
  { unfold l1. destruct (0 <? n) eqn:H0; zbool.
    - split; [rewrite pages_of_app; cbn; rewrite app_nil_r; solve_Permutation|].
      apply Forall_app. split; [exact Hpos|]. repeat constructor. unfold positive_range. lia.
    - split; [|exact Hpos]. replace (pages r) with (@nil nat); [reflexivity|].
      unfold pages. rewrite Hn. replace n with 0 by lia. reflexivity. }
  destruct Hl1 as [Hperm Hpos1].
  assert (Hinv1' : pm_inv pm1 (pages_of l1 ++ others)).
  { destruct Hinv1 as [H1 H2 H3]. split; [exact H1|exact H2|]. rewrite <- H3, <- Hperm. reflexivity. }
  destruct (oa_rollback_loop l1 pm1 others Hinv1' Hpos1 l1) as (pm2 & Hrun2 & Hinv2).
  exists r, (MkOptimisticAllocator pm1 l1), (MkOptimisticAllocator pm2 []).
  split_and!.
  - unfold oa_allocatePageRange, on_pages. unfold_M. cbn [pageManager]. rewrite Hrun. unfold l1.
    destruct (0 <? n); reflexivity.
  - exact Hn.
  - split; assumption.
  - unfold oa_rollback, oa_clear. unfold_M. cbn [optimisticallyAllocatedPages]. rewrite Hrun2. reflexivity.
  - reflexivity.
  - cbn [pageManager]. rewrite <- (pi_pages _ _ Hinv2), pages_of_app. reflexivity.
Qed.

Lemma optimistic_rollback_witness :
  ∃ r oa1 oa2, oa_allocatePageRange 3 (MkOptimisticAllocator (PageManager_new false []) []) = (Ok r, oa1) ∧
    numPages r = 3 ∧ oa_rollback oa1 = (Ok tt, oa2).
Proof.
  destruct (optimistic_rollback (MkOptimisticAllocator (PageManager_new false []) []) [] 3) as
    (r & oa1 & oa2 & H1 & H2 & _ & H3 & _).
  - split; [exact (pm_inv_new false [])|constructor].
  - unfold numbers_left. cbn. lia.
  - reflexivity.
  - exists r, oa1, oa2. auto.
Defined.
