(* ===== verification/FreeSpacePersist.v ===== *)
(** * Enumerating and persisting the free entries

    The iterator over the free lists visits every entry once; what [serialize] writes,
    [deserialize] reads back; the page estimate of [getMaxNumPagesForSerialization] is large enough
    for what the in-memory file writer (InMemFile) makes of it. *)

From stdpp Require Import base numbers list sorting strings.
From Stdlib Require Import ZArith Lia.
From S2P Require Import Prelude Serializer InMemFile FreeSpace FreeSpaceSpec.
Import Serializer FreeSpace.

(** ** The iterator *)

Section Iterator.
Context (lists : list (list PageRange)).

Definition remaining (it : FreeEntryIterator) : list PageRange :=
  freeListIt it ++ concat (drop (S (freeListIdx it)) lists).

(** At the end, or at an element of its list. *)
Definition it_ok (it : FreeEntryIterator) : Prop :=
  (length lists ≤ freeListIdx it ∧ freeListIt it = []) ∨
  (freeListIdx it < length lists ∧ freeListIt it ≠ []).

Lemma advance_from suffix idx :
  drop idx lists = suffix → 
  it_ok (advanceFreeListIdx idx suffix) ∧ remaining (advanceFreeListIdx idx suffix) = concat suffix.
Proof.
  revert idx. induction suffix as [|l suffix IH]; intros idx Hd.
  - assert (Hlen : length lists ≤ idx).
    { apply (f_equal length) in Hd. rewrite length_drop in Hd. cbn in Hd. lia. }
    split; [left; auto|]. unfold remaining. cbn. rewrite skipn_all2 by lia. reflexivity.
  - assert (Hlt : idx < length lists).
    { apply (f_equal length) in Hd. rewrite length_drop in Hd. cbn in Hd. lia. }
    assert (Hd' : drop (S idx) lists = suffix).
    { rewrite <- Nat.add_1_r, <- drop_drop, Hd. reflexivity. }
    destruct l as [|x l]; [exact (IH (S idx) Hd')|]. cbn [advanceFreeListIdx].
    split; [right; split; [exact Hlt|discriminate]|]. unfold remaining. cbn [freeListIt freeListIdx].
    rewrite Hd'. reflexivity.
Qed.

Lemma begin_ok : it_ok (iterator_begin lists) ∧ remaining (iterator_begin lists) = concat lists.
Proof. apply advance_from. reflexivity. Qed.

Lemma done_ok it : it_ok it → done lists it = true ↔ remaining it = [].
Proof.
  unfold done. rewrite Nat.leb_le. intros [[Hl Hit]|[Hl Hit]].
  - split; [intros _|auto]. unfold remaining. rewrite Hit, skipn_all2 by lia. reflexivity.
  - split; [lia|]. intros H. unfold remaining in H. apply app_eq_nil in H as [H _]. contradiction.
Qed.

Lemma next_ok it x rest :
  it_ok it → remaining it = x :: rest →
  done lists it = false ∧ iterator_get lists it = Ok x ∧
  ∃ it', iterator_next lists it = Ok it' ∧ it_ok it' ∧ remaining it' = rest.
Proof.
  intros Hok Hrem. destruct (done lists it) eqn:Hd; [apply (done_ok it Hok) in Hd; congruence|].
  split; [reflexivity|]. destruct Hok as [[Hl Hit]|[Hl Hit]].
  { unfold done in Hd. zbool. lia. }
  unfold iterator_get, iterator_next, ku_assert_o. rewrite (proj2 (Nat.ltb_lt _ _) Hl).
  unfold mbind, outcome_bind. unfold remaining in Hrem.
  destruct (freeListIt it) as [|y [|z l]] eqn:Hl'; [contradiction| |]; cbn [app] in Hrem;
    injection Hrem as -> <-; (split; [reflexivity|]).
  - eexists. split; [reflexivity|]. apply advance_from. reflexivity.
  - eexists. split; [reflexivity|]. split; [right; split; [exact Hl|discriminate]|]. reflexivity.
Qed.

Lemma advance_ok n it :
  it_ok it → n ≤ length (remaining it) →
  ∃ it', advance lists n it = Ok it' ∧ it_ok it' ∧ remaining it' = drop n (remaining it).
Proof.
  revert it. induction n as [|n IH]; intros it Hok Hn; [exists it; auto|].
  destruct (remaining it) as [|x rest] eqn:Hrem; [cbn in Hn; lia|].
  destruct (next_ok it x rest Hok Hrem) as (_ & _ & it1 & Hnext & Hok1 & Hrem1).
  destruct (IH it1 Hok1) as (it' & H1 & H2 & H3); [rewrite Hrem1; cbn in Hn; lia|].
  exists it'. cbn. unfold mbind, outcome_bind. rewrite Hnext. rewrite Hrem1 in H3. auto.
Qed.

Lemma collect_ok n it :
  it_ok it → n ≤ length (remaining it) → collect lists n it = Ok (take n (remaining it)).
Proof.
  revert it. induction n as [|n IH]; intros it Hok Hn; [reflexivity|].
  destruct (remaining it) as [|x rest] eqn:Hrem; [cbn in Hn; lia|].
  destruct (next_ok it x rest Hok Hrem) as (Hd & Hget & it1 & Hnext & Hok1 & Hrem1).
  cbn. unfold ku_assert_o, mbind, outcome_bind. rewrite Hd, Hget, Hnext. cbn [negb].
  rewrite IH by (try exact Hok1; rewrite Hrem1; cbn in Hn; lia). rewrite Hrem1. reflexivity.
Qed.

Lemma checkpointed_items_ok fuel it :
  it_ok it → length (remaining it) < fuel →
  checkpointed_items lists fuel it = Ok (remaining it ≫= entry_items, length (remaining it)).
Proof.
  revert it. induction fuel as [|fuel IH]; intros it Hok Hf; [lia|].
  cbn [checkpointed_items]. destruct (remaining it) as [|x rest] eqn:Hrem.
  - rewrite (proj2 (done_ok it Hok) Hrem). reflexivity.
  - destruct (next_ok it x rest Hok Hrem) as (Hd & Hget & it1 & Hnext & Hok1 & Hrem1).
    rewrite Hd, Hget. unfold mbind, outcome_bind. rewrite Hnext.
    rewrite IH by (try exact Hok1; rewrite Hrem1; cbn in Hf; lia). rewrite Hrem1. reflexivity.
Qed.

End Iterator.

(** Enumeration: [getEntries] returns the requested slice of the free entries, every entry once
    and in the order of the lists, without failing its assertions. *)
Theorem getEntries_slice m startOffset endOffset :
  fsm_ok m → startOffset ≤ endOffset ≤ numEntries m →
  getEntries startOffset endOffset m = Ok (take (endOffset - startOffset) (drop startOffset (entries m))).
Proof.
  intros [_ Hnum] Hle. destruct (begin_ok (freeLists m)) as [Hok Hrem].
  change (concat (freeLists m)) with (entries m) in Hrem.
  destruct (advance_ok (freeLists m) startOffset (iterator_begin (freeLists m)) Hok) as
    (it & Hadv & Hok' & Hrem'); [rewrite Hrem; lia|].
  unfold getEntries, ku_assert_o. rewrite (proj2 (Nat.leb_le _ _)) by lia.
  unfold mbind, outcome_bind. rewrite Hadv.
  rewrite collect_ok; [rewrite Hrem', Hrem; reflexivity|exact Hok'|].
  rewrite Hrem', Hrem, length_drop. lia.
Qed.

(** Free entries in two levels, and a range that waits for the checkpoint. *)
Definition sample_manager : FreeSpaceManager :=
  MkFreeSpaceManager [[]; [MkPageRange 4 2]; [MkPageRange 20 5; MkPageRange 10 6]] [MkPageRange 40 1] 3 false.

Lemma sample_manager_ok : fsm_ok sample_manager.
Proof.
  split; [|reflexivity]. intros [|[|[|k]]] l H; cbn in H; try discriminate H; injection H as <-;
    split; repeat constructor.
Qed.

Lemma getEntries_slice_witness :
  getEntries 1 3 sample_manager = Ok [MkPageRange 20 5; MkPageRange 10 6].
Proof.
  rewrite (getEntries_slice sample_manager 1 3 sample_manager_ok); [reflexivity|cbn; lia].
Defined.

(** ** Serialization *)

Definition header_items (n : nat) : list item :=
  [DebuggingInfo "page_manager"; DebuggingInfo "numEntries"; RowIdx n; DebuggingInfo "entries"].

Lemma serializeInternal_ok m :
  fsm_ok m →
  serializeInternal m =
    Ok (header_items (length (entries m ++ uncheckpointedFreePageRanges m)) ++
        ((entries m ++ uncheckpointedFreePageRanges m) ≫= entry_items)).
Proof.
  intros [_ Hnum]. destruct (begin_ok (freeLists m)) as [Hok Hrem].
  change (concat (freeLists m)) with (entries m) in Hrem. unfold serializeInternal.
  rewrite checkpointed_items_ok by (try exact Hok; rewrite Hrem; unfold total_entries, entries; lia).
  rewrite Hrem, Hnum, outcome_bind_Ok. unfold ku_assert_o. cbn [snd fst].
  rewrite Nat.eqb_refl, outcome_bind_Ok, length_app, bind_app. reflexivity.
Qed.

Definition entry_bytes (r : PageRange) : list Z :=
  serializeValue 4 (Z.of_nat (startPageIdx r)) ++ serializeValue 4 (Z.of_nat (numPages r)).

Definition is_page_idx (n : nat) : Prop := (Z.of_nat n < 2 ^ 32)%Z.
Definition u32_range (r : PageRange) : Prop := is_page_idx (startPageIdx r) ∧ is_page_idx (numPages r).

Lemma serialize_ok dbg m :
  fsm_ok m →
  serialize dbg m =
    Ok ((header_items (length (entries m ++ uncheckpointedFreePageRanges m)) ≫= item_bytes dbg) ++
        ((entries m ++ uncheckpointedFreePageRanges m) ≫= entry_bytes)).
Proof.
  intros Hok. unfold serialize. rewrite serializeInternal_ok by exact Hok.
  rewrite outcome_bind_Ok. f_equal. rewrite bind_app. f_equal.
  generalize (entries m ++ uncheckpointedFreePageRanges m) as l. intros l.
  induction l as [|r l IH]; [reflexivity|].
  change ((r :: l) ≫= entry_items) with (entry_items r ++ (l ≫= entry_items)).
  rewrite bind_app, IH. cbn [entry_items mbind list_bind item_bytes]. rewrite app_nil_r. reflexivity.
Qed.

Lemma decodes_entry r :
  u32_range r →
  decodes (start ← deserializeValue 4; num ← deserializeValue 4;
           mret (MkPageRange (Z.to_nat start) (Z.to_nat num))) (entry_bytes r) r.
Proof.
  intros [H1 H2]. unfold is_page_idx in *. eapply decodes_bind; [apply decodes_u32; lia|].
  replace r with (MkPageRange (Z.to_nat (Z.of_nat (startPageIdx r))) (Z.to_nat (Z.of_nat (numPages r)))) at 2
    by (rewrite !Nat2Z.id; destruct r; reflexivity).
  apply (decodes_bind_ret _ (λ num, MkPageRange _ (Z.to_nat num))), decodes_u32. lia.
Qed.

Lemma deserialize_entries_ok l bs m :
  fsm_ok m → Forall positive_range l → Forall u32_range l → NoDup (l ++ entries m) →
  ∃ m', deserialize_entries (length l) ((l ≫= entry_bytes) ++ bs, m) = (Ok tt, (bs, m')) ∧ fsm_ok m' ∧
    entries m' ≡ₚ l ++ entries m ∧ same_rest m m'.
Proof.
  revert m. induction l as [|r l IH]; intros m Hok Hpos Hu Hnd.
  - exists m. split; [reflexivity|]. split; [exact Hok|]. split; [reflexivity|split; reflexivity].
  - apply Forall_cons in Hpos as [Hr Hpos]. apply Forall_cons in Hu as [Hur Hu].
    cbn in Hnd. apply NoDup_cons in Hnd as [Hfresh Hnd].
    destruct (addFreePages_ok m r Hok Hr) as (m1 & Hrun1 & Hok1 & Hent1 & Hrest1).
    { intros H. apply Hfresh, elem_of_app. auto. }
    destruct (IH m1 Hok1 Hpos Hu) as (m' & Hrun & Hok' & Hent & Hrest).
    { rewrite Hent1. rewrite <- Permutation_middle. apply NoDup_cons. auto. }
    exists m'. split.
    + cbn [length deserialize_entries mbind list_bind].
      rewrite <- app_assoc, (decodes_entry r Hur ((l ≫= entry_bytes) ++ bs)), Hrun1. exact Hrun.
    + split; [exact Hok'|]. split; [rewrite Hent, Hent1, <- Permutation_middle; reflexivity|].
      destruct Hrest1, Hrest. split; congruence.
Qed.

(** Round trip of the free entries: reading what [serialize] wrote into a new manager gives a
    well-formed manager whose free entries are the written free entries together with the ranges that
    were waiting for the checkpoint, and leaves the rest of the stream. *)
Theorem deserialize_serialize_fsm dbg m rest :
  fsm_ok m → Forall positive_range (uncheckpointedFreePageRanges m) →
  NoDup (entries m ++ uncheckpointedFreePageRanges m) →
  Forall u32_range (entries m ++ uncheckpointedFreePageRanges m) →
  is_u64 (Z.of_nat (length (entries m ++ uncheckpointedFreePageRanges m))) →
  ∃ bs m', serialize dbg m = Ok bs ∧
    deserialize dbg (bs ++ rest, FreeSpaceManager_new) = (Ok tt, (rest, m')) ∧ fsm_ok m' ∧
    entries m' ≡ₚ entries m ++ uncheckpointedFreePageRanges m ∧ uncheckpointedFreePageRanges m' = [].
Proof.
  intros Hok Hpos Hnd Hu Hlen. set (l := entries m ++ uncheckpointedFreePageRanges m) in *.
  assert (Hnew : fsm_ok FreeSpaceManager_new).
  { split; [|reflexivity]. intros k x H. cbn in H. rewrite lookup_nil in H. discriminate. }
  assert (Hpl : Forall positive_range l).
  { apply Forall_app. split; [|exact Hpos]. apply Forall_forall. intros r. apply fsm_positive, Hok. }
  destruct (deserialize_entries_ok l rest FreeSpaceManager_new Hnew Hpl Hu) as (m' & Hrun & Hok' & Hent & Hrest).
  { cbn. rewrite app_nil_r. exact Hnd. }
  eexists _, m'. split; [apply serialize_ok, Hok|]. fold l. split.
  - unfold deserialize. rewrite <- app_assoc.
    assert (Hdec : decodes (validateDebuggingInfo dbg "page_manager" ;; validateDebuggingInfo dbg "numEntries" ;;
      n ← deserializeValue 8; validateDebuggingInfo dbg "entries" ;; mret n)
      (header_items (length l) ≫= item_bytes dbg) (Z.of_nat (length l))).
    { cbn [header_items mbind list_bind item_bytes].
      eapply decodes_bind; [apply decodes_debugging_info; vm_compute; split; congruence|].
      eapply decodes_bind; [apply decodes_debugging_info; vm_compute; split; congruence|].
      eapply decodes_bind; [apply decodes_u64, Hlen|].
      eapply decodes_bind; [apply decodes_debugging_info; vm_compute; split; congruence|apply decodes_ret]. }
    rewrite Hdec, Nat2Z.id. exact Hrun.
  - split; [exact Hok'|]. split; [rewrite Hent; cbn; rewrite app_nil_r; reflexivity|].
    apply Hrest.
Qed.

Lemma deserialize_serialize_fsm_witness :
  ∃ bs m', serialize true sample_manager = Ok bs ∧
    deserialize true (bs ++ [1%Z], FreeSpaceManager_new) = (Ok tt, ([1%Z], m')) ∧ numEntries m' = 4.
Proof.
  destruct (deserialize_serialize_fsm true sample_manager [1%Z] sample_manager_ok) as
    (bs & m' & H1 & H2 & [_ H3] & H4 & _).
  - repeat constructor.
  - apply (bool_decide_eq_true_1 (NoDup _)). vm_compute. reflexivity.
  - repeat constructor; vm_compute; reflexivity.
  - vm_compute. split; [discriminate|reflexivity].
  - exists bs, m'. split; [exact H1|]. split; [exact H2|]. rewrite H3, H4. reflexivity.
Defined.

(** ** The page estimate *)

Lemma page_size_large : 64 ≤ KUZU_PAGE_SIZE.
Proof. apply Nat.leb_le. vm_compute. reflexivity. Qed.

Definition tracked (t : SerializePagesUsedTracker) : nat :=
  KUZU_PAGE_SIZE * numPagesUsed t + numBytesUsedInPage t.

Lemma updatePagesUsed_tracks n t :
  n ≤ KUZU_PAGE_SIZE → numBytesUsedInPage t ≤ KUZU_PAGE_SIZE →
  tracked t + n ≤ tracked (updatePagesUsed n t) ∧ numBytesUsedInPage (updatePagesUsed n t) ≤ KUZU_PAGE_SIZE.
Proof.
  intros Hn Ht. unfold updatePagesUsed, tracked.
  destruct (KUZU_PAGE_SIZE <? numBytesUsedInPage t + n) eqn:H; zbool; cbn; lia.
Qed.

Lemma item_bytes_size dbg i : length (item_bytes dbg i) ≤ item_size i.
Proof.
  destruct i as [s|x|x]; cbn [item_bytes item_size].
  - unfold writeDebuggingInfo, serializeString. destruct dbg; [|cbn; lia].
    rewrite length_app, length_map. unfold serializeValue. rewrite length_le_bytes.
    apply Nat.add_le_mono_l. clear. induction s as [|c s IH]; cbn; lia.
  - unfold serializeValue. rewrite length_le_bytes. lia.
  - unfold serializeValue. rewrite length_le_bytes. lia.
Qed.

Lemma tracker_bounds dbg items t :
  Forall (λ i, item_size i ≤ KUZU_PAGE_SIZE) items → numBytesUsedInPage t ≤ KUZU_PAGE_SIZE →
  let t' := fold_left (λ t i, updatePagesUsed (item_size i) t) items t in
  tracked t + length (items ≫= item_bytes dbg) ≤ tracked t' ∧ numBytesUsedInPage t' ≤ KUZU_PAGE_SIZE.
Proof.
  intros Hs. revert t. induction Hs as [|i items Hi _ IH]; intros t Ht; [cbn; lia|].
  cbn [fold_left]. destruct (updatePagesUsed_tracks (item_size i) t Hi Ht) as [H1 H2].
  destruct (IH _ H2) as [H3 H4]. split; [|exact H4].
  change ((i :: items) ≫= item_bytes dbg) with (item_bytes dbg i ++ (items ≫= item_bytes dbg)).
  rewrite length_app. pose proof (item_bytes_size dbg i). lia.
Qed.

Lemma serialized_item_sizes m items :
  serializeInternal m = Ok items → fsm_ok m → Forall (λ i, item_size i ≤ KUZU_PAGE_SIZE) items.
Proof.
  intros H Hok. rewrite serializeInternal_ok in H by exact Hok. apply Ok_inj in H as <-.
  pose proof page_size_large as Hp. apply Forall_app. split.
  - apply Forall_forall. intros i Hi. eapply Nat.le_trans; [|exact Hp].
    unfold header_items in Hi. rewrite !elem_of_cons in Hi.
    destruct Hi as [->|[->|[->|[->|Hi]]]]; cbn [item_size String.length]; try lia.
    apply elem_of_nil in Hi. contradiction.
  - apply Forall_forall. intros i (r & Hi & _)%list_elem_of_bind.
    apply elem_of_cons in Hi as [->|Hi]; [cbn; lia|]. apply list_elem_of_singleton in Hi as ->. cbn. lia.
Qed.

Lemma estimate_bounds m :
  fsm_ok m →
  ∃ p, getMaxNumPagesForSerialization m = Ok p ∧
    ∀ dbg, ∃ bs, serialize dbg m = Ok bs ∧ length bs ≤ KUZU_PAGE_SIZE * p.
Proof.
  intros Hok. unfold getMaxNumPagesForSerialization, serialize.
  destruct (serializeInternal m) as [items|e] eqn:Hitems;
    [|rewrite serializeInternal_ok in Hitems by exact Hok; discriminate].
  eexists. split; [reflexivity|]. intros dbg. eexists. split; [reflexivity|].
  pose proof (tracker_bounds dbg items (MkTracker 0 0) (serialized_item_sizes m items Hitems Hok)) as H.
  cbn zeta in H. destruct H as [H1 H2]; [cbn; lia|].
  unfold tracked in H1. cbn [numPagesUsed numBytesUsedInPage] in H1.
  destruct (0 <? _) eqn:Hz; zbool; lia.
Qed.

(** The estimate in terms of the ranges alone. *)
Lemma fold_pages_used items t :
  numPagesUsed (fold_left (λ t i, updatePagesUsed (item_size i) t) items t) ≤ numPagesUsed t + length items.
Proof.
  revert t. induction items as [|i items IH]; intros t; cbn; [lia|]. etransitivity; [apply IH|].
  unfold updatePagesUsed. destruct (_ <? _); cbn; lia.
Qed.

Lemma estimate_small m p :
  fsm_ok m → getMaxNumPagesForSerialization m = Ok p →
  p ≤ 5 + 2 * length (entries m ++ uncheckpointedFreePageRanges m).
Proof.
  intros Hok H. unfold getMaxNumPagesForSerialization in H. rewrite serializeInternal_ok, outcome_bind_Ok in H by exact Hok.
  apply Ok_inj in H as <-. set (items := _ ++ _).
  assert (Hlen : length items = 4 + 2 * length (entries m ++ uncheckpointedFreePageRanges m)).
  { unfold items. rewrite length_app. f_equal. clear. generalize (entries m ++ uncheckpointedFreePageRanges m). intros l.
    induction l as [|r l IH]; [reflexivity|]. change ((r :: l) ≫= entry_items) with (entry_items r ++ (l ≫= entry_items)).
    rewrite length_app, IH. cbn. lia. }
  pose proof (fold_pages_used items (MkTracker 0 0)) as Hf. cbn [numPagesUsed] in Hf.
  destruct (0 <? _); lia.
Qed.

(** The estimate is large enough: writing the serialized free entries, value by value, through
    the in-memory file writer takes at most [getMaxNumPagesForSerialization] pages (the assertion of
    [InMemFileWriter::flush] on the range allocated for them), with and without debugging strings. *)
Theorem serialization_fits_estimate m blank dbg items :
  fsm_ok m → length blank = KUZU_PAGE_SIZE → serializeInternal m = Ok items →
  ∃ p, getMaxNumPagesForSerialization m = Ok p ∧
    InMemFile.getNumPagesToFlush
      (InMemFile.write_all blank (map (item_bytes dbg) items) InMemFile.InMemFileWriter_new) ≤ p.
Proof.
  intros Hok Hblank Hitems. destruct (estimate_bounds m Hok) as (p & Hp & Hbytes).
  exists p. split; [exact Hp|]. destruct (Hbytes dbg) as (bs & Hs & Hlen).
  destruct (InMemFile.write_all_appends blank Hblank (map (item_bytes dbg) items) _ InMemFile.writer_wf_new)
    as [Hwf Hfl].
  apply InMemFile.pages_bound; [exact Hwf|]. rewrite Hfl. cbn [app].
  unfold serialize in Hs. rewrite Hitems, outcome_bind_Ok in Hs. apply Ok_inj in Hs.
  replace (concat (map (item_bytes dbg) items)) with bs; [exact Hlen|]. rewrite <- Hs.
  clear. induction items as [|i items IH]; [reflexivity|]. cbn. f_equal. exact IH.
Qed.

Lemma serialization_fits_estimate_witness :
  ∃ p, getMaxNumPagesForSerialization sample_manager = Ok p ∧
    InMemFile.getNumPagesToFlush
      (InMemFile.write_all (replicate KUZU_PAGE_SIZE 0%Z)
         (map (item_bytes true) (header_items 4 ++ ((entries sample_manager ++ [MkPageRange 40 1]) ≫= entry_items)))
         InMemFile.InMemFileWriter_new) ≤ p.
Proof.
  apply (serialization_fits_estimate sample_manager (replicate KUZU_PAGE_SIZE 0%Z) true).
  - exact sample_manager_ok.
  - apply length_replicate.
  - vm_compute. reflexivity.
Defined.

(** The in-memory file writer is a byte stream: after any sequence of writes of any sizes,
    across page boundaries, the flushed bytes are the concatenation of the writes, [getSize] is their
    number, and every page but the last is full. *)
Theorem writer_concatenates blank ds :
  length blank = KUZU_PAGE_SIZE →
  let w := InMemFile.write_all blank ds InMemFile.InMemFileWriter_new in
  InMemFile.flush w = concat ds ∧ InMemFile.getSize w = length (concat ds) ∧
  (InMemFile.getNumPagesToFlush w - 1) * KUZU_PAGE_SIZE ≤ length (concat ds) ≤
    InMemFile.getNumPagesToFlush w * KUZU_PAGE_SIZE.
Proof.
  intros Hblank w. destruct (InMemFile.write_all_appends blank Hblank ds _ InMemFile.writer_wf_new) as [Hwf Hfl].
  fold w in Hwf, Hfl. change (InMemFile.flush w = concat ds) in Hfl. destruct (InMemFile.flush_length w Hwf) as [Hsize Hpages].
  rewrite Hfl in Hsize, Hpages. split; [exact Hfl|]. split; [symmetry; exact Hsize|].
  pose proof (InMemFile.wf_offset _ Hwf) as Ho. unfold InMemFile.getNumPagesToFlush.
  destruct Hpages as [He|Hl].
  - unfold InMemFile.flush in Hfl. rewrite He in *. cbn in Hfl. rewrite <- Hfl. cbn. lia.
  - destruct (InMemFile.pages w) as [|q qs]; cbn [length] in *.
    + rewrite Hl, Ho, Nat.sub_0_l. lia.
    + rewrite Hl. replace (S (length qs) - 1) with (length qs) by lia. lia.
Qed.

Lemma writer_concatenates_witness :
  InMemFile.flush (InMemFile.write_all (replicate KUZU_PAGE_SIZE 0%Z)
    [replicate 3000 1%Z; replicate 5000 2%Z] InMemFile.InMemFileWriter_new) =
  concat [replicate 3000 1%Z; replicate 5000 2%Z].
Proof.
  apply (writer_concatenates (replicate KUZU_PAGE_SIZE 0%Z)). apply length_replicate.
Defined.
