(* ===== verification/TransactionManager.v ===== *)
(** * Transactions, the transaction manager and a connection's transaction context

    [Transaction] ([transaction/transaction.cpp]), [TransactionManager]
    ([transaction/transaction_manager.cpp]) and [TransactionContext]
    ([transaction/transaction_context.cpp]). What the manager calls in the storage engine (local
    storage, undo buffer, write-ahead log, checkpointer) is the interface [Engine]: each operation may
    change the engine's state and may throw, and nothing else is assumed of it.

    Public functions of the manager hold [mtxForSerializingPublicFunctionCalls] from their first to
    their last line, so an execution is a sequence of whole calls: [tm_step] is one call, from any
    connection, or work of the engine between calls. A [Transaction*] is the transaction's identifier;
    the object lives in [activeTransactions]. *)

From stdpp Require Import base numbers list relations strings.
From Stdlib Require Import ZArith Lia.
From S2P Require Import Prelude.

Open Scope Z_scope.

Module Transaction.

(** [enum class TransactionType]. *)
Inductive TransactionType := READ_ONLY | WRITE | CHECKPOINT | DUMMY | RECOVERY.

#[global] Instance TransactionType_eq_dec : EqDecision TransactionType.
Proof. solve_decision. Defined.

(** The fields the manager reads or writes; the local storage, the undo buffer and the local WAL of a
    transaction belong to the engine, under the transaction's identifier. *)
Record Transaction := MkTransaction {
  getType : TransactionType;
  getID : Z;
  getStartTS : Z;
  commitTS : Z;
  forceCheckpoint : bool;
  hasCatalogChanges : bool;
}.

(** The constructor [Transaction(clientContext, type, id, startTS)]. *)
Definition Transaction_new (type : TransactionType) (transactionID startTS : Z) : Transaction :=
  MkTransaction type transactionID startTS INVALID_TRANSACTION false false.

Definition isReadOnly (t : Transaction) : bool := bool_decide (getType t = READ_ONLY).
Definition isWriteTransaction (t : Transaction) : bool := bool_decide (getType t = WRITE).
Definition isRecovery (t : Transaction) : bool := bool_decide (getType t = RECOVERY).
Definition shouldAppendToUndoBuffer (t : Transaction) : bool := isWriteTransaction t || isRecovery t.

Definition set_commitTS (ts : Z) (t : Transaction) : Transaction :=
  MkTransaction (getType t) (getID t) (getStartTS t) ts (forceCheckpoint t) (hasCatalogChanges t).
Definition setForceCheckpoint (t : Transaction) : Transaction :=
  MkTransaction (getType t) (getID t) (getStartTS t) (commitTS t) true (hasCatalogChanges t).
Definition set_hasCatalogChanges (b : bool) (t : Transaction) : Transaction :=
  MkTransaction (getType t) (getID t) (getStartTS t) (commitTS t) (forceCheckpoint t) b.

(** What the manager reads of a client context and its database's configuration. *)
Record ClientContext := MkClientContext {
  isInMemory : bool;
  enableMultiWrites : bool;
  autoCheckpoint : bool;
  checkpointThreshold : Z;
}.

Definition shouldLogToWAL (cc : ClientContext) (t : Transaction) : bool :=
  isWriteTransaction t && negb (isInMemory cc).
Definition shouldForceCheckpoint (cc : ClientContext) (t : Transaction) : bool :=
  negb (isInMemory cc) && forceCheckpoint t.

(** The storage engine below the manager; the [Z] argument is the transaction's identifier. *)
Class Engine (E : Type) := {
  cleanUp : M E unit;
  localWAL_logBeginTransaction : Z → M E unit;
  localWAL_logCommit : Z → M E unit;
  localWAL_clear : Z → M E unit;
  localWAL_getSize : Z → E → Z;
  wal_logCommittedWAL : Z → M E unit;
  wal_getFileSize : E → Z;
  localStorage_commit : Z → M E unit;
  localStorage_rollback : Z → M E unit;
  undoBuffer_commit : Z → Z → M E unit;
  undoBuffer_rollback : Z → M E unit;
  catalog_incrementVersion : M E unit;
  writeCheckpoint : M E unit;
  checkpointer_rollback : M E unit;
}.

End Transaction.
Import Transaction.

Module TransactionManager.
Section Manager.
Context {E : Type} `{Engine E}.

Record TransactionManager := MkTransactionManager {
  activeTransactions : list Transaction;
  lastTransactionID : Z;
  lastTimestamp : Z;
  checkpointWaitTimeoutInMicros : Z;
  engine : E;
}.

Definition THREAD_SLEEP_TIME_WHEN_WAITING_IN_MICROS : Z := 500.
Definition DEFAULT_CHECKPOINT_WAIT_TIMEOUT_IN_MICROS : Z := 5000000.

Definition TransactionManager_new (e : E) : TransactionManager :=
  MkTransactionManager [] START_TRANSACTION_ID 1 DEFAULT_CHECKPOINT_WAIT_TIMEOUT_IN_MICROS e.

Definition set_active (f : list Transaction → list Transaction) (tm : TransactionManager) :=
  MkTransactionManager (f (activeTransactions tm)) (lastTransactionID tm) (lastTimestamp tm)
    (checkpointWaitTimeoutInMicros tm) (engine tm).
Definition set_lastTransactionID (i : Z) (tm : TransactionManager) :=
  MkTransactionManager (activeTransactions tm) i (lastTimestamp tm)
    (checkpointWaitTimeoutInMicros tm) (engine tm).
Definition set_lastTimestamp (ts : Z) (tm : TransactionManager) :=
  MkTransactionManager (activeTransactions tm) (lastTransactionID tm) ts
    (checkpointWaitTimeoutInMicros tm) (engine tm).
Definition set_engine (e : E) (tm : TransactionManager) :=
  MkTransactionManager (activeTransactions tm) (lastTransactionID tm) (lastTimestamp tm)
    (checkpointWaitTimeoutInMicros tm) e.
(** [setCheckPointWaitTimeoutForTransactionsToLeaveInMicros]. *)
Definition setCheckPointWaitTimeout (timeout : Z) (tm : TransactionManager) :=
  MkTransactionManager (activeTransactions tm) (lastTransactionID tm) (lastTimestamp tm)
    timeout (engine tm).

(** A call into the engine. *)
Definition call {A} (m : M E A) : M TransactionManager A := λ tm,
  let '(r, e) := m (engine tm) in (r, set_engine e tm).

(** The object a [Transaction*] points to; a dangling pointer is undefined behaviour. *)
Definition find_transaction (id : Z) (l : list Transaction) : option Transaction :=
  List.find (λ t, getID t =? id) l.
Definition deref (id : Z) : M TransactionManager Transaction := λ tm,
  match find_transaction id (activeTransactions tm) with
  | Some t => (Ok t, tm)
  | None => (Throw (UndefinedBehaviour "dangling Transaction pointer"), tm)
  end.
(** An assignment to a field of the object. *)
Definition update_transaction (id : Z) (f : Transaction → Transaction) : M TransactionManager unit :=
  modify (set_active (fmap (λ t, if getID t =? id then f t else t))).

Definition next_transactionID : M TransactionManager Z := λ tm,
  let i := uwrap 64 (lastTransactionID tm + 1) in (Ok i, set_lastTransactionID i tm).
Definition next_timestamp : M TransactionManager Z := λ tm,
  let ts := uwrap 64 (lastTimestamp tm + 1) in (Ok ts, set_lastTimestamp ts tm).

Definition hasNoActiveTransactions (tm : TransactionManager) : bool :=
  match activeTransactions tm with [] => true | _ => false end.
Definition hasActiveWriteTransactionNoLock (tm : TransactionManager) : bool :=
  existsb isWriteTransaction (activeTransactions tm).

Definition clearTransactionNoLock (transactionID : Z) : M TransactionManager unit :=
  tm ← get_state;
  ku_assert (existsb (λ t, getID t =? transactionID) (activeTransactions tm)) ;;
  modify (set_active (List.filter (λ t, negb (getID t =? transactionID)))).

Definition multi_write_error : exn := TransactionManagerException
  "Cannot start a new write transaction in the system. Only one write transaction at a time is allowed in the system.".

Definition beginTransaction (cc : ClientContext) (type : TransactionType) :
    M TransactionManager Z :=
  match type with
  | READ_ONLY =>
      id ← next_transactionID;
      tm ← get_state;
      modify (set_active (λ l, l ++ [Transaction_new type id (lastTimestamp tm)])) ;;
      mret id
  | RECOVERY | WRITE =>
      tm ← get_state;
      (if negb (enableMultiWrites cc) && hasActiveWriteTransactionNoLock tm
       then raise multi_write_error else mret tt) ;;
      id ← next_transactionID;
      tm' ← get_state;
      let transaction := Transaction_new type id (lastTimestamp tm') in
      (if shouldLogToWAL cc transaction then call (localWAL_logBeginTransaction id) else mret tt) ;;
      modify (set_active (λ l, l ++ [transaction])) ;;
      mret id
  | CHECKPOINT | DUMMY =>
      raise (TransactionManagerException "Invalid transaction type to begin transaction.")
  end.

(** [Transaction::commit]. *)
Definition Transaction_commit (cc : ClientContext) (id : Z) : M TransactionManager unit :=
  t ← deref id;
  call (localStorage_commit id) ;;
  call (undoBuffer_commit id (commitTS t)) ;;
  (if shouldLogToWAL cc t
   then call (localWAL_logCommit id) ;;
        call (wal_logCommittedWAL id) ;;
        call (localWAL_clear id)
   else mret tt) ;;
  if hasCatalogChanges t
  then call catalog_incrementVersion ;; update_transaction id (set_hasCatalogChanges false)
  else mret tt.

(** [Transaction::rollback]. *)
Definition Transaction_rollback (id : Z) : M TransactionManager unit :=
  call (undoBuffer_rollback id) ;;
  call (localStorage_rollback id) ;;
  update_transaction id (set_hasCatalogChanges false).

(** [Checkpointer::canAutoCheckpoint]. *)
Definition canAutoCheckpoint (cc : ClientContext) (t : Transaction) (tm : TransactionManager) : bool :=
  if isInMemory cc then false
  else if negb (autoCheckpoint cc) then false
  else if isRecovery t then false
  else
    let expectedSize :=
      uwrap 64 (localWAL_getSize (getID t) (engine tm) + wal_getFileSize (engine tm)) in
    checkpointThreshold cc <? expectedSize.

Definition timeout_error : exn := TransactionManagerException
  "Timeout waiting for active transactions to leave the system before checkpointing. If you have an open transaction, please close it and try again.".

(** The loop of [stopNewTransactionsAndWaitUntilAllTransactionsLeave]. Its callers hold
    [mtxForSerializingPublicFunctionCalls], so the manager does not change between two polls; [None]
    when the fuel is spent while the loop still waits. *)
Fixpoint wait_loop (fuel : nat) (numTimesWaited : Z) (tm : TransactionManager) :
    option (outcome unit) :=
  match fuel with
  | O => None
  | S fuel' =>
      if hasNoActiveTransactions tm then Some (Ok tt)
      else
        let numTimesWaited := uwrap 64 (numTimesWaited + 1) in
        if checkpointWaitTimeoutInMicros tm <?
           uwrap 64 (numTimesWaited * THREAD_SLEEP_TIME_WHEN_WAITING_IN_MICROS)
        then Some (Throw timeout_error)
        else wait_loop fuel' numTimesWaited tm
  end.

(** The polls after which the loop has timed out. *)
Definition wait_fuel (tm : TransactionManager) : nat :=
  S (Z.to_nat (checkpointWaitTimeoutInMicros tm / THREAD_SLEEP_TIME_WHEN_WAITING_IN_MICROS)).

Definition stopNewTransactionsAndWaitUntilAllTransactionsLeave : M TransactionManager unit := λ tm,
  match wait_loop (wait_fuel tm) 0 tm with
  | Some r => (r, tm)
  | None => (Throw (UndefinedBehaviour "the loop does not end"), tm)
  end.

(** [CheckpointException{e}] keeps the message of [e]. *)
Definition to_checkpoint_exception (e : exn) : exn :=
  match e with
  | RuntimeException m | CatalogException m | TransactionManagerException m
  | CheckpointException m | ConversionException m | OverflowException m | ConnectionException m
  | InternalException m | IOException m | StorageException m
  | BufferManagerException m => CheckpointException m
  | LogicError m => CheckpointException m
  | UndefinedBehaviour m => UndefinedBehaviour m
  end.

(** [try m catch (std::exception& e) { handler; throw CheckpointException{e}; }] *)
Definition try_or_checkpoint_exception (m handler : M TransactionManager unit) :
    M TransactionManager unit := λ tm,
  match m tm with
  | (Ok a, tm') => (Ok a, tm')
  | (Throw e, tm') => (handler ;; raise (to_checkpoint_exception e)) tm'
  end.

Definition checkpointNoLock : M TransactionManager unit :=
  try_or_checkpoint_exception stopNewTransactionsAndWaitUntilAllTransactionsLeave (mret tt) ;;
  try_or_checkpoint_exception (call writeCheckpoint) (call checkpointer_rollback).

Definition commit (cc : ClientContext) (id : Z) : M TransactionManager unit :=
  call cleanUp ;;
  t ← deref id;
  match getType t with
  | READ_ONLY => clearTransactionNoLock id
  | RECOVERY | WRITE =>
      ts ← next_timestamp;
      update_transaction id (set_commitTS ts) ;;
      Transaction_commit cc id ;;
      t' ← deref id;
      tm ← get_state;
      let shouldCheckpoint := shouldForceCheckpoint cc t' || canAutoCheckpoint cc t' tm in
      clearTransactionNoLock id ;;
      if shouldCheckpoint then checkpointNoLock else mret tt
  | CHECKPOINT | DUMMY =>
      raise (TransactionManagerException "Invalid transaction type to commit.")
  end.

Definition rollback (id : Z) : M TransactionManager unit :=
  call cleanUp ;;
  t ← deref id;
  match getType t with
  | READ_ONLY => clearTransactionNoLock id
  | RECOVERY | WRITE => Transaction_rollback id ;; clearTransactionNoLock id
  | CHECKPOINT | DUMMY =>
      raise (TransactionManagerException "Invalid transaction type to rollback.")
  end.

Definition checkpoint (cc : ClientContext) : M TransactionManager unit :=
  if isInMemory cc then mret tt else checkpointNoLock.

(** ** Executions

    One call of a public function with its whole effect, whether it returns or throws, or a change of
    the engine's state or of a transaction's flags by the statements that run between calls. *)
Inductive tm_step (multi : bool) : TransactionManager → TransactionManager → Prop :=
  | step_begin cc type tm :
      enableMultiWrites cc = multi → tm_step multi tm (state_of (beginTransaction cc type) tm)
  | step_commit cc id tm :
      enableMultiWrites cc = multi → tm_step multi tm (state_of (commit cc id) tm)
  | step_rollback id tm : tm_step multi tm (state_of (rollback id) tm)
  | step_checkpoint cc tm :
      enableMultiWrites cc = multi → tm_step multi tm (state_of (checkpoint cc) tm)
  | step_force_checkpoint id tm :
      tm_step multi tm (state_of (update_transaction id setForceCheckpoint) tm)
  | step_catalog_change id tm :
      tm_step multi tm (state_of (update_transaction id (set_hasCatalogChanges true)) tm)
  | step_timeout timeout tm :
      0 ≤ timeout < 2 ^ 64 - 500 → tm_step multi tm (setCheckPointWaitTimeout timeout tm)
  | step_engine e tm : tm_step multi tm (set_engine e tm).

End Manager.
Arguments TransactionManager E : clear implicits.
End TransactionManager.
