(* ===== verification/TransactionSpec.v ===== *)
(** * What the transaction manager promises

    The invariant of every execution of [TransactionManager] (unique identifiers, snapshots below the
    clock, one writer), the behaviour of begin, commit and checkpoint on every branch, and termination
    of the wait before a checkpoint. Nothing is assumed of the storage engine. *)

From stdpp Require Import base numbers list relations strings.
From Stdlib Require Import ZArith Lia.
From S2P Require Import Prelude TransactionManager.
Import Transaction TransactionManager.

Open Scope Z_scope.

Module TransactionSpec.
Section Spec.
Context {E : Type} `{Engine E}.
Implicit Types (tm : TransactionManager E) (t : Transaction).

(** ** The invariant *)

(** A transaction of [activeTransactions]; a commit that failed leaves its commit timestamp set. *)
Definition txn_ok (lastID now : Z) (t : Transaction) : Prop :=
  START_TRANSACTION_ID < getID t ≤ lastID ∧ 1 ≤ getStartTS t ≤ now ∧
  (commitTS t = INVALID_TRANSACTION ∨ getStartTS t < commitTS t ≤ now) ∧
  (getType t = READ_ONLY ∨ getType t = WRITE ∨ getType t = RECOVERY).

(** The invariant after [n] steps. *)
Record inv (multi : bool) (n : Z) (tm : TransactionManager E) : Prop := {
  inv_txns : Forall (txn_ok (lastTransactionID tm) (lastTimestamp tm)) (activeTransactions tm);
  inv_ids : NoDup (getID <$> activeTransactions tm);
  inv_lastID : START_TRANSACTION_ID ≤ lastTransactionID tm ≤ START_TRANSACTION_ID + n;
  inv_clock : 1 ≤ lastTimestamp tm ≤ 1 + n;
  inv_writer : multi = false → (count_if isWriteTransaction (activeTransactions tm) ≤ 1)%nat;
  inv_timeout : 0 ≤ checkpointWaitTimeoutInMicros tm < 2 ^ 64 - 500;
}.

Lemma inv_new multi e : inv multi 0 (TransactionManager_new e).
Proof.
  constructor; cbn; [apply Forall_nil_2|apply NoDup_nil_2|solve_ts|solve_ts|lia|].
  unfold DEFAULT_CHECKPOINT_WAIT_TIMEOUT_IN_MICROS. lia.
Qed.

Lemma inv_engine multi n tm e : inv multi n tm → inv multi n (set_engine e tm).
Proof. intros []. constructor; assumption. Qed.

Lemma inv_weaken multi n n' tm : inv multi n tm → n ≤ n' → inv multi n' tm.
Proof. intros [] Hn. constructor; try assumption; lia. Qed.

(** ** Calls into the engine *)

Lemma call_eq {A} (m : M E A) tm :
  call m tm = ((m (engine tm)).1, set_engine (m (engine tm)).2 tm).
Proof. unfold call. destruct (m (engine tm)). reflexivity. Qed.

(** A predicate that does not look at the engine survives a call. *)
Lemma triple_call {A} (I : TransactionManager E → Prop) (m : M E A) :
  (∀ tm e, I tm → I (set_engine e tm)) → triple I (call m) (λ _, I) (λ _, I).
Proof.
  intros HI tm Htm. rewrite call_eq. destruct (m (engine tm)) as [[a|e] e']; apply HI, Htm.
Qed.

Lemma triple_call_inv {A} multi n (m : M E A) :
  triple (inv multi n) (call m) (λ _, inv multi n) (λ _, inv multi n).
Proof. apply triple_call. intros. apply inv_engine. assumption. Qed.

(** ** Assignments to a transaction *)

Definition keeps_identity (f : Transaction → Transaction) : Prop :=
  ∀ t, getID (f t) = getID t ∧ getType (f t) = getType t ∧ getStartTS (f t) = getStartTS t.

Definition write_txn (id : Z) (f : Transaction → Transaction) (l : list Transaction) :
    list Transaction := (λ t, if getID t =? id then f t else t) <$> l.

Lemma write_txn_ids id f l :
  keeps_identity f → getID <$> write_txn id f l = getID <$> l.
Proof.
  intros Hf. induction l as [|t l IH]; [reflexivity|].
  cbn [write_txn fmap list_fmap] in *. f_equal; [|exact IH].
  destruct (getID t =? id); [apply Hf|reflexivity].
Qed.

Lemma write_txn_writers id f l :
  keeps_identity f →
  count_if isWriteTransaction (write_txn id f l) = count_if isWriteTransaction l.
Proof.
  intros Hf. induction l as [|t l IH]; [reflexivity|].
  unfold count_if in *. cbn [write_txn fmap list_fmap List.filter].
  assert (Heq : isWriteTransaction (if getID t =? id then f t else t) = isWriteTransaction t).
  { destruct (getID t =? id); [|reflexivity]. unfold isWriteTransaction.
    destruct (Hf t) as (_ & -> & _). reflexivity. }
  rewrite Heq. destruct (isWriteTransaction t); cbn [length]; fold (write_txn id f l);
    [f_equal|]; exact IH.
Qed.

Lemma inv_write_txn multi n tm id f :
  keeps_identity f →
  (∀ t, getID t = id → t ∈ activeTransactions tm →
    txn_ok (lastTransactionID tm) (lastTimestamp tm) t →
    txn_ok (lastTransactionID tm) (lastTimestamp tm) (f t)) →
  inv multi n tm → inv multi n (set_active (write_txn id f) tm).
Proof.
  intros Hf Hok [Htx Hids Hl Hc Hw Ht].
  constructor; cbn [set_active activeTransactions lastTransactionID lastTimestamp
    checkpointWaitTimeoutInMicros]; try assumption.
  - rewrite Forall_forall in Htx |- *. intros t' Hin.
    apply list_elem_of_fmap in Hin as (t & -> & Hin).
    destruct (getID t =? id) eqn:Hid; [|apply Htx; exact Hin].
    apply Z.eqb_eq in Hid. apply Hok; [exact Hid|exact Hin|apply Htx, Hin].
  - rewrite write_txn_ids by exact Hf. exact Hids.
  - rewrite write_txn_writers by exact Hf. exact Hw.
Qed.

Lemma keeps_identity_commitTS ts : keeps_identity (set_commitTS ts).
Proof. intros t. repeat split. Qed.
Lemma keeps_identity_catalog b : keeps_identity (set_hasCatalogChanges b).
Proof. intros t. repeat split. Qed.
Lemma keeps_identity_force : keeps_identity setForceCheckpoint.
Proof. intros t. repeat split. Qed.
Hint Resolve keeps_identity_commitTS keeps_identity_catalog keeps_identity_force : kuzu.

Lemma update_transaction_flag multi n id f :
  keeps_identity f → (∀ t, commitTS (f t) = commitTS t) →
  triple (inv multi n) (update_transaction id f) (λ _, inv multi n) (λ _, inv multi n).
Proof.
  intros Hf Hc. apply triple_modify. intros tm Hinv. apply inv_write_txn; [exact Hf| |exact Hinv].
  intros t _ _. unfold txn_ok. destruct (Hf t) as (-> & -> & ->). rewrite Hc. auto.
Qed.

(** ** Leaving the system *)

Lemma count_if_filter_le {A} (f g : A → bool) l :
  (count_if f (List.filter g l) ≤ count_if f l)%nat.
Proof.
  unfold count_if. induction l as [|x l IH]; [reflexivity|]. cbn.
  destruct (g x); cbn; destruct (f x); cbn; lia.
Qed.

Lemma inv_filter multi n tm g :
  inv multi n tm → inv multi n (set_active (List.filter g) tm).
Proof.
  intros [Htx Hids Hl Hc Hw Ht].
  constructor; cbn [set_active activeTransactions lastTransactionID lastTimestamp
    checkpointWaitTimeoutInMicros]; try assumption.
  - rewrite Forall_forall in Htx |- *. intros t Hin. apply Htx.
    apply list_elem_of_In in Hin. apply List.filter_In in Hin as [Hin _].
    apply list_elem_of_In, Hin.
  - clear -Hids. induction (activeTransactions tm) as [|t l IH]; [constructor|].
    cbn [fmap list_fmap] in Hids. apply NoDup_cons in Hids as [Hnin Hnd]. cbn [List.filter].
    destruct (g t); [|apply IH, Hnd]. cbn [fmap list_fmap]. apply NoDup_cons. split; [|apply IH, Hnd].
    intros Hin. apply Hnin. apply list_elem_of_fmap in Hin as (t' & Heq & Hin).
    apply list_elem_of_fmap. exists t'. split; [exact Heq|].
    apply list_elem_of_In in Hin. apply List.filter_In in Hin as [Hin _].
    apply list_elem_of_In, Hin.
  - intros Hm. etrans; [apply count_if_filter_le|apply Hw, Hm].
Qed.

Lemma clear_inv multi n id :
  triple (inv multi n) (clearTransactionNoLock id) (λ _, inv multi n) (λ _, inv multi n).
Proof.
  intros tm Hinv. unfold clearTransactionNoLock. unfold_M.
  destruct (existsb _ _); cbv beta iota; [apply inv_filter|]; exact Hinv.
Qed.

(** ** Entering the system *)

(** The manager with the next transaction of a type running. *)
Definition started (type : TransactionType) (tm : TransactionManager E) : TransactionManager E :=
  let id := lastTransactionID tm + 1 in
  set_active (λ l, l ++ [Transaction_new type id (lastTimestamp tm)]) (set_lastTransactionID id tm).

Lemma txn_ok_mono lastID lastID' now now' t :
  txn_ok lastID now t → lastID ≤ lastID' → now ≤ now' → txn_ok lastID' now' t.
Proof. unfold txn_ok. intros (H1 & H2 & [H3|H3] & H4) ? ?; (split_and!; [lia..| |exact H4]); [left|right]; lia. Qed.

Lemma inv_set_lastID multi n tm :
  inv multi n tm → inv multi (n + 1) (set_lastTransactionID (lastTransactionID tm + 1) tm).
Proof.
  intros [Htx Hids Hl Hc Hw Ht].
  constructor; cbn [set_lastTransactionID activeTransactions lastTransactionID lastTimestamp
    checkpointWaitTimeoutInMicros]; try assumption; try lia.
  eapply Forall_impl; [exact Htx|]. intros t Hok. eapply txn_ok_mono; [exact Hok|lia..].
Qed.

Lemma existsb_count_if {A} (f : A → bool) l : existsb f l = false → count_if f l = 0%nat.
Proof.
  intros Hf. apply count_if_false. intros x Hx. destruct (f x) eqn:Hfx; [|reflexivity].
  rewrite <- Hf. symmetry. apply List.existsb_exists. exists x. split; [apply list_elem_of_In, Hx|exact Hfx].
Qed.

Lemma inv_started multi n tm type :
  inv multi n tm → type = READ_ONLY ∨ type = WRITE ∨ type = RECOVERY →
  (multi = false → type = READ_ONLY ∨ hasActiveWriteTransactionNoLock tm = false) →
  inv multi (n + 1) (started type tm).
Proof.
  intros Hinv Htype Hw1. pose proof (inv_set_lastID _ _ _ Hinv) as [Htx Hids Hl Hc Hw Ht].
  constructor; unfold started; cbn [set_lastTransactionID set_active activeTransactions
    lastTransactionID lastTimestamp checkpointWaitTimeoutInMicros] in *; try assumption.
  - apply Forall_app. split; [exact Htx|]. apply Forall_singleton. unfold txn_ok. cbn.
    pose proof (inv_lastID _ _ _ Hinv). pose proof (inv_clock _ _ _ Hinv).
    split_and!; [lia..|left; reflexivity|exact Htype].
  - rewrite fmap_app. apply NoDup_app. split_and!; [exact Hids| |apply NoDup_singleton].
    intros x Hx Hx'. apply list_elem_of_singleton in Hx' as ->.
    apply list_elem_of_fmap in Hx as (t & Heq & Hx). cbn in Heq.
    pose proof (inv_txns _ _ _ Hinv) as Hold. rewrite Forall_forall in Hold.
    destruct (Hold t Hx) as (? & _). lia.
  - intros Hm. rewrite count_if_app. destruct (Hw1 Hm) as [->|Hno].
    + specialize (Hw Hm). rewrite (count_if_false _ [_]); [lia|].
      intros t Hin. apply list_elem_of_singleton in Hin as ->. reflexivity.
    + rewrite (existsb_count_if _ _ Hno). unfold count_if. cbn [List.filter].
      destruct (isWriteTransaction _); cbn; lia.
Qed.

Lemma next_transactionID_eq multi n tm :
  inv multi n tm → n < 2 ^ 62 →
  next_transactionID tm =
    (Ok (lastTransactionID tm + 1), set_lastTransactionID (lastTransactionID tm + 1) tm).
Proof.
  intros Hinv Hn. unfold next_transactionID.
  rewrite uwrap_small by (pose proof (inv_lastID _ _ _ Hinv); solve_ts). reflexivity.
Qed.

(** [beginTransaction] on every branch: the write transaction is refused without a trace, the log
    record of the beginning may fail, else the transaction is the newest one. *)
Definition begin_result (cc : ClientContext) (type : TransactionType) (tm : TransactionManager E) :
    outcome Z * TransactionManager E :=
  let id := lastTransactionID tm + 1 in
  if bool_decide (type = CHECKPOINT ∨ type = DUMMY) then
    (Throw (TransactionManagerException "Invalid transaction type to begin transaction."), tm)
  else if negb (bool_decide (type = READ_ONLY)) && negb (enableMultiWrites cc) &&
          hasActiveWriteTransactionNoLock tm then (Throw multi_write_error, tm)
  else if bool_decide (type = WRITE) && negb (isInMemory cc) then
    match localWAL_logBeginTransaction id (engine tm) with
    | (Ok _, e) => (Ok id, set_engine e (started type tm))
    | (Throw ex, e) => (Throw ex, set_engine e (set_lastTransactionID id tm))
    end
  else (Ok id, started type tm).

Lemma begin_eq multi n cc type tm :
  inv multi n tm → n < 2 ^ 62 → beginTransaction cc type tm = begin_result cc type tm.
Proof.
  intros Hinv Hn. pose proof (next_transactionID_eq _ _ _ Hinv Hn) as Hid.
  unfold begin_result, beginTransaction, shouldLogToWAL, isWriteTransaction, Transaction_new.
  destruct type; cbn [getType]; simpl bool_decide; cbn [orb andb negb].
  1: { rewrite (M_bind_ok _ _ _ _ _ Hid). reflexivity. }
  2,3: reflexivity.
  all: rewrite (M_bind_ok _ _ tm tm tm) by reflexivity; unfold raise, mret, M_ret, mbind at 1, M_bind at 1;
    destruct (negb (enableMultiWrites cc) && hasActiveWriteTransactionNoLock tm) eqn:Hc; cbn iota;
    rewrite ?(M_bind_ok _ _ _ _ _ Hid); try reflexivity.
  all: unfold get_state, modify, mbind, M_bind; cbv beta iota; try reflexivity.
  destruct (isInMemory cc); cbn [negb]; [reflexivity|].
  rewrite call_eq. cbn [set_lastTransactionID engine].
  destruct (localWAL_logBeginTransaction _ _) as [[a|ex] e]; reflexivity.
Qed.

Lemma begin_inv multi n cc type tm :
  enableMultiWrites cc = multi → n < 2 ^ 62 → inv multi n tm →
  inv multi (n + 1) (state_of (beginTransaction cc type) tm).
Proof.
  intros Hm Hn Hinv. unfold state_of. rewrite (begin_eq _ _ _ _ _ Hinv Hn). unfold begin_result.
  assert (Hkeep : inv multi (n + 1) tm) by (eapply inv_weaken; [exact Hinv|lia]).
  destruct (bool_decide (type = CHECKPOINT ∨ type = DUMMY)) eqn:Htype; [exact Hkeep|].
  apply bool_decide_eq_false in Htype.
  destruct (negb _ && _ && _) eqn:Hguard; [exact Hkeep|].
  assert (Hstart : inv multi (n + 1) (started type tm)).
  { apply inv_started; [exact Hinv|destruct type; tauto|]. intros Hf.
    rewrite <- Hm in Hf. rewrite Hf in Hguard.
    destruct (decide (type = READ_ONLY)) as [->|Hr]; [left; reflexivity|right].
    rewrite bool_decide_eq_false_2 in Hguard by exact Hr. exact Hguard. }
  destruct (bool_decide (type = WRITE) && negb (isInMemory cc)); [|exact Hstart].
  destruct (localWAL_logBeginTransaction _ _) as [[a|ex] e]; apply inv_engine;
    [exact Hstart|apply inv_set_lastID, Hinv].
Qed.

(** ** Waiting for the transactions to leave *)

(** The loop ends within [wait_fuel] polls: at once when no transaction runs, else by timing out. *)
Lemma wait_loop_result tm fuel k :
  0 ≤ checkpointWaitTimeoutInMicros tm < 2 ^ 64 - 500 →
  0 ≤ k ≤ checkpointWaitTimeoutInMicros tm / 500 →
  (Z.to_nat (checkpointWaitTimeoutInMicros tm / 500 - k) < fuel)%nat →
  wait_loop fuel k tm =
    Some (if hasNoActiveTransactions tm then Ok tt else Throw timeout_error).
Proof.
  intros Ht. revert k. induction fuel as [|fuel IH]; intros k Hk Hfuel; [lia|].
  cbn [wait_loop]. destruct (hasNoActiveTransactions tm) eqn:Ha; [reflexivity|].
  unfold THREAD_SLEEP_TIME_WHEN_WAITING_IN_MICROS.
  pose proof (Z_div_mod_eq_full (checkpointWaitTimeoutInMicros tm) 500) as Hdiv.
  pose proof (Z.mod_pos_bound (checkpointWaitTimeoutInMicros tm) 500 ltac:(lia)) as Hmod.
  rewrite (uwrap_small 64 (k + 1)) by lia. rewrite uwrap_small by lia.
  destruct (_ <? _) eqn:Hlt; [reflexivity|]. zbool.
  apply IH; lia.
Qed.

Lemma stop_eq tm :
  0 ≤ checkpointWaitTimeoutInMicros tm < 2 ^ 64 - 500 →
  stopNewTransactionsAndWaitUntilAllTransactionsLeave tm =
    (if hasNoActiveTransactions tm then Ok tt else Throw timeout_error, tm).
Proof.
  intros Ht. unfold stopNewTransactionsAndWaitUntilAllTransactionsLeave.
  assert (0 ≤ checkpointWaitTimeoutInMicros tm / 500) by (apply Z.div_pos; lia).
  rewrite wait_loop_result; [reflexivity|exact Ht|lia|].
  unfold wait_fuel, THREAD_SLEEP_TIME_WHEN_WAITING_IN_MICROS. lia.
Qed.

(** [checkpointNoLock] on every branch: the engine is touched only when no transaction runs. *)
Definition checkpoint_result (tm : TransactionManager E) : outcome unit * TransactionManager E :=
  if hasNoActiveTransactions tm then
    match writeCheckpoint (engine tm) with
    | (Ok _, e) => (Ok tt, set_engine e tm)
    | (Throw ex, e) =>
        match checkpointer_rollback e with
        | (Ok _, e') => (Throw (to_checkpoint_exception ex), set_engine e' tm)
        | (Throw ex', e') => (Throw ex', set_engine e' tm)
        end
    end
  else (Throw (to_checkpoint_exception timeout_error), tm).

Lemma checkpoint_eq tm :
  0 ≤ checkpointWaitTimeoutInMicros tm < 2 ^ 64 - 500 → checkpointNoLock tm = checkpoint_result tm.
Proof.
  intros Ht. unfold checkpointNoLock, checkpoint_result, try_or_checkpoint_exception, raise, mret,
    M_ret, mbind, M_bind.
  rewrite stop_eq by exact Ht. destruct (hasNoActiveTransactions tm); [|reflexivity].
  rewrite call_eq. destruct (writeCheckpoint (engine tm)) as [[[]|ex] e]; [reflexivity|].
  cbn [fst snd]. rewrite call_eq. cbn [set_engine engine].
  destruct (checkpointer_rollback e) as [[a|ex'] e']; reflexivity.
Qed.

Lemma checkpoint_only_engine tm :
  0 ≤ checkpointWaitTimeoutInMicros tm < 2 ^ 64 - 500 →
  ∃ e, state_of checkpointNoLock tm = set_engine e tm.
Proof.
  intros Ht. unfold state_of. rewrite checkpoint_eq by exact Ht. unfold checkpoint_result.
  destruct (hasNoActiveTransactions tm); [|exists (engine tm); destruct tm; reflexivity].
  destruct (writeCheckpoint _) as [[?|ex] e]; [exists e; reflexivity|].
  destruct (checkpointer_rollback e) as [[?|ex'] e']; exists e'; reflexivity.
Qed.

Lemma checkpoint_inv multi n tm : inv multi n tm → inv multi n (state_of checkpointNoLock tm).
Proof.
  intros Hinv. destruct (checkpoint_only_engine tm (inv_timeout _ _ _ Hinv)) as (e & ->).
  apply inv_engine, Hinv.
Qed.

(** ** Committing *)

(** The calls [Transaction::commit] makes into the engine, in order. *)
Definition engine_commit (cc : ClientContext) (t : Transaction) (ts : Z) : M E unit :=
  localStorage_commit (getID t) ;;
  undoBuffer_commit (getID t) ts ;;
  (if shouldLogToWAL cc t
   then localWAL_logCommit (getID t) ;; wal_logCommittedWAL (getID t) ;; localWAL_clear (getID t)
   else mret tt) ;;
  if hasCatalogChanges t then catalog_incrementVersion else mret tt.

(** The manager after a commit of [id] at [ts] that left the engine in [e], and after one that
    threw. *)
Definition committed (id ts : Z) (e : E) (tm : TransactionManager E) : TransactionManager E :=
  set_engine e (set_active (List.filter (λ t, negb (getID t =? id))) (set_lastTimestamp ts tm)).
Definition stamped (id ts : Z) (e : E) (tm : TransactionManager E) : TransactionManager E :=
  set_engine e (set_active (write_txn id (set_commitTS ts)) (set_lastTimestamp ts tm)).

(** Whether the commit of [t] that left the engine in [e] is followed by a checkpoint. *)
Definition checkpoint_due (cc : ClientContext) (t : Transaction) (e : E) : bool :=
  shouldForceCheckpoint cc t ||
  (negb (isInMemory cc) && autoCheckpoint cc && negb (isRecovery t) &&
   (checkpointThreshold cc <? uwrap 64 (localWAL_getSize (getID t) e + wal_getFileSize e))).

(** [TransactionManager::commit] of a write or recovery transaction on every branch. *)
Definition commit_result (cc : ClientContext) (t : Transaction) (tm : TransactionManager E) :
    outcome unit * TransactionManager E :=
  let ts := lastTimestamp tm + 1 in
  match cleanUp (engine tm) with
  | (Throw ex, e) => (Throw ex, set_engine e tm)
  | (Ok _, e0) =>
      match engine_commit cc t ts e0 with
      | (Throw ex, e) => (Throw ex, stamped (getID t) ts e tm)
      | (Ok _, e) =>
          if checkpoint_due cc t e then checkpoint_result (committed (getID t) ts e tm)
          else (Ok tt, committed (getID t) ts e tm)
      end
  end.

Lemma find_transaction_id id l t : find_transaction id l = Some t → getID t = id ∧ t ∈ l.
Proof.
  intros Hf. apply List.find_some in Hf as [Hin Hid]. apply Z.eqb_eq in Hid.
  split; [exact Hid|]. apply list_elem_of_In, Hin.
Qed.

Lemma find_transaction_mem l t :
  NoDup (getID <$> l) → t ∈ l → find_transaction (getID t) l = Some t.
Proof.
  induction l as [|t' l IH]; intros Hnd Hin; [apply not_elem_of_nil in Hin as []|].
  cbn [fmap list_fmap] in Hnd. apply NoDup_cons in Hnd as [Hni Hnd].
  cbn [find_transaction List.find]. apply elem_of_cons in Hin as [->|Hin].
  - rewrite Z.eqb_refl. reflexivity.
  - destruct (getID t' =? getID t) eqn:Hid; [|apply IH; assumption].
    apply Z.eqb_eq in Hid. exfalso. apply Hni. rewrite Hid. apply list_elem_of_fmap. eauto.
Qed.

Lemma find_write_txn id f l t :
  keeps_identity f → find_transaction id l = Some t → find_transaction id (write_txn id f l) = Some (f t).
Proof.
  intros Hf. induction l as [|t' l IH]; [discriminate|].
  cbn [find_transaction List.find write_txn fmap list_fmap].
  destruct (getID t' =? id) eqn:Hid.
  - intros [= ->]. destruct (Hf t) as (-> & _). rewrite Hid. reflexivity.
  - rewrite Hid. exact IH.
Qed.

Lemma filter_write_txn id f l :
  keeps_identity f →
  List.filter (λ t, negb (getID t =? id)) (write_txn id f l) =
  List.filter (λ t, negb (getID t =? id)) l.
Proof.
  intros Hf. induction l as [|t l IH]; [reflexivity|].
  cbn [write_txn fmap list_fmap List.filter]. fold (write_txn id f l).
  destruct (getID t =? id) eqn:Hid.
  - destruct (Hf t) as (-> & _). rewrite Hid. exact IH.
  - rewrite Hid. cbn [negb]. f_equal. exact IH.
Qed.

(** The running transaction [id] leaves the list. *)
Lemma clear_eq id tm t :
  find_transaction id (activeTransactions tm) = Some t →
  clearTransactionNoLock id tm =
    (Ok tt, set_active (List.filter (λ t, negb (getID t =? id))) tm).
Proof.
  intros Hf. apply List.find_some in Hf as Hin.
  unfold clearTransactionNoLock. unfold_M.
  assert (existsb (λ t, getID t =? id) (activeTransactions tm) = true) as ->; [|reflexivity].
  apply List.existsb_exists. exists t. exact Hin.
Qed.

Lemma deref_eq id tm t :
  find_transaction id (activeTransactions tm) = Some t → deref id tm = (Ok t, tm).
Proof. intros Hf. unfold deref. rewrite Hf. reflexivity. Qed.

Lemma Transaction_commit_eq cc tm t :
  find_transaction (getID t) (activeTransactions tm) = Some t →
  Transaction_commit cc (getID t) tm =
    match engine_commit cc t (commitTS t) (engine tm) with
    | (Throw ex, e) => (Throw ex, set_engine e tm)
    | (Ok _, e) =>
        (Ok tt, set_engine e (if hasCatalogChanges t
           then set_active (write_txn (getID t) (set_hasCatalogChanges false)) tm else tm))
    end.
Proof.
  intros Hf. unfold Transaction_commit, engine_commit.
  rewrite (M_bind_ok _ _ _ _ _ (deref_eq _ _ _ Hf)).
  unfold call, set_engine, update_transaction, modify, mret, M_ret, mbind, M_bind. cbn [engine].
  destruct (localStorage_commit _ _) as [[?|ex] e1]; [|reflexivity]. cbn [engine].
  destruct (undoBuffer_commit _ _ _) as [[?|ex] e2]; [|reflexivity]. cbn [engine].
  destruct (shouldLogToWAL cc t); cbn [engine].
  - destruct (localWAL_logCommit _ _) as [[?|ex] e3]; [|reflexivity]. cbn [engine].
    destruct (wal_logCommittedWAL _ _) as [[?|ex] e4]; [|reflexivity]. cbn [engine].
    destruct (localWAL_clear _ _) as [[?|ex] e5]; [|reflexivity]. cbn [engine].
    destruct (hasCatalogChanges t); [|reflexivity].
    destruct (catalog_incrementVersion _) as [[?|ex] e6]; reflexivity.
  - destruct (hasCatalogChanges t); [|reflexivity].
    destruct (catalog_incrementVersion _) as [[?|ex] e6]; reflexivity.
Qed.

Lemma checkpoint_due_eq cc t t' e tm :
  getID t' = getID t → getType t' = getType t → forceCheckpoint t' = forceCheckpoint t →
  engine tm = e →
  shouldForceCheckpoint cc t' || canAutoCheckpoint cc t' tm = checkpoint_due cc t e.
Proof.
  intros Hid Hty Hfc <-. unfold checkpoint_due, canAutoCheckpoint, shouldForceCheckpoint, isRecovery.
  rewrite Hid, Hty, Hfc. destruct (isInMemory cc), (autoCheckpoint cc); cbn [negb andb orb];
    try reflexivity.
  destruct (bool_decide _); cbn [negb andb]; [|reflexivity]. reflexivity.
Qed.

(** The state a successful [Transaction::commit] leaves, in which the manager clears [id]. *)
Lemma commit_tail cc t ts e tm (b : bool) :
  0 ≤ checkpointWaitTimeoutInMicros tm < 2 ^ 64 - 500 →
  find_transaction (getID t) (activeTransactions tm) = Some t →
  let tm1 := stamped (getID t) ts e tm in
  let tm2 := if b then set_active (write_txn (getID t) (set_hasCatalogChanges false)) tm1 else tm1 in
  (t' ← deref (getID t);
   tm' ← get_state;
   let shouldCheckpoint := shouldForceCheckpoint cc t' || canAutoCheckpoint cc t' tm' in
   clearTransactionNoLock (getID t) ;;
   if shouldCheckpoint then checkpointNoLock else mret tt) tm2 =
  (if checkpoint_due cc t e then checkpoint_result (committed (getID t) ts e tm)
   else (Ok tt, committed (getID t) ts e tm)).
Proof.
  intros Ht Hf tm1 tm2.
  set (g := if b then λ t, set_hasCatalogChanges false (set_commitTS ts t) else set_commitTS ts).
  assert (Hf2 : find_transaction (getID t) (activeTransactions tm2) = Some (g t)).
  { subst tm2 g. destruct b; cbn [activeTransactions set_active].
    - apply (find_write_txn _ (set_hasCatalogChanges false)); [auto with kuzu|].
      apply find_write_txn; auto with kuzu.
    - apply find_write_txn; auto with kuzu. }
  assert (He : engine tm2 = e) by (subst tm2; destruct b; reflexivity).
  assert (Hfin : set_active (List.filter (λ t', negb (getID t' =? getID t))) tm2 =
                 committed (getID t) ts e tm).
  { subst tm2 tm1. unfold committed, stamped, set_active, set_engine. destruct b;
      cbn [activeTransactions lastTransactionID lastTimestamp checkpointWaitTimeoutInMicros engine
        set_lastTimestamp]; rewrite !filter_write_txn by auto with kuzu; reflexivity. }
  rewrite (M_bind_ok _ _ _ _ _ (deref_eq _ _ _ Hf2)).
  rewrite (M_bind_ok _ _ tm2 tm2 tm2) by reflexivity. cbv zeta.
  rewrite (M_bind_ok _ _ _ _ _ (clear_eq _ _ _ Hf2)), Hfin.
  rewrite (checkpoint_due_eq cc t (g t) e tm2) by (first [subst g; destruct b; reflexivity|exact He]).
  destruct (checkpoint_due cc t e); [|reflexivity].
  apply checkpoint_eq. exact Ht.
Qed.

Lemma commit_eq multi n cc t tm :
  inv multi n tm → n < 2 ^ 62 →
  find_transaction (getID t) (activeTransactions tm) = Some t →
  getType t = WRITE ∨ getType t = RECOVERY →
  commit cc (getID t) tm = commit_result cc t tm.
Proof.
  intros Hinv Hn Hf Hty. unfold commit, commit_result. unfold mbind at 1, M_bind at 1.
  rewrite call_eq. destruct (cleanUp (engine tm)) as [[a|ex] e0]; cbn [fst snd]; [|reflexivity].
  rewrite (M_bind_ok _ _ _ t (set_engine e0 tm)) by (apply deref_eq; exact Hf).
  set (ts := lastTimestamp tm + 1).
  assert (Hts : next_timestamp (set_engine e0 tm) =
                (Ok ts, set_lastTimestamp ts (set_engine e0 tm))).
  { unfold next_timestamp. cbn [lastTimestamp set_engine]. fold ts.
    rewrite uwrap_small by (pose proof (inv_clock _ _ _ Hinv); lia). reflexivity. }
  pose (t1 := set_commitTS ts t). pose (tm1 := stamped (getID t) ts e0 tm).
  assert (Hf1 : find_transaction (getID t1) (activeTransactions tm1) = Some t1).
  { apply find_write_txn; auto with kuzu. }
  pose proof (Transaction_commit_eq cc tm1 t1 Hf1) as Hc. cbn [t1 getID set_commitTS] in Hc.
  change (engine_commit cc t1 (commitTS t1) (engine tm1)) with (engine_commit cc t ts e0) in Hc.
  replace (match getType t with READ_ONLY => _ | _ => _ end) with
    (ts ← next_timestamp;
     update_transaction (getID t) (set_commitTS ts) ;;
     Transaction_commit cc (getID t) ;;
     t' ← deref (getID t);
     tm ← get_state;
     let shouldCheckpoint := shouldForceCheckpoint cc t' || canAutoCheckpoint cc t' tm in
     clearTransactionNoLock (getID t) ;;
     if shouldCheckpoint then checkpointNoLock else mret tt : M (TransactionManager E) unit)
    by (destruct Hty as [-> | ->]; reflexivity).
  rewrite (M_bind_ok _ _ _ _ _ Hts), (M_bind_ok _ _ _ tt tm1) by reflexivity.
  unfold mbind at 1, M_bind at 1. rewrite Hc.
  destruct (engine_commit cc t ts e0) as [[a'|ex] e]; [|reflexivity].
  rewrite <- (commit_tail cc t ts e tm (hasCatalogChanges t) (inv_timeout _ _ _ Hinv) Hf).
  subst t1. cbn [hasCatalogChanges set_commitTS]. destruct (hasCatalogChanges t); reflexivity.
Qed.

Lemma inv_set_lastTimestamp multi n tm :
  inv multi n tm → inv multi (n + 1) (set_lastTimestamp (lastTimestamp tm + 1) tm).
Proof.
  intros [Htx Hids Hl Hc Hw Ht].
  constructor; cbn [set_lastTimestamp activeTransactions lastTransactionID lastTimestamp
    checkpointWaitTimeoutInMicros]; try assumption; try lia.
  eapply Forall_impl; [exact Htx|]. intros t Hok. eapply txn_ok_mono; [exact Hok|lia..].
Qed.

Lemma inv_stamped multi n id e tm :
  inv multi n tm → inv multi (n + 1) (stamped id (lastTimestamp tm + 1) e tm).
Proof.
  intros Hinv. apply inv_engine, inv_write_txn;
    [auto with kuzu| |apply inv_set_lastTimestamp, Hinv].
  cbn [set_lastTimestamp activeTransactions lastTransactionID lastTimestamp].
  intros t _ Hin (H1 & H2 & _ & H4).
  pose proof (inv_txns _ _ _ Hinv) as Htx. rewrite Forall_forall in Htx.
  destruct (Htx t Hin) as (_ & H2' & _). unfold txn_ok. cbn.
  split_and!; [lia..|right; lia|exact H4].
Qed.

Lemma inv_committed multi n id e tm :
  inv multi n tm → inv multi (n + 1) (committed id (lastTimestamp tm + 1) e tm).
Proof. intros Hinv. apply inv_engine, inv_filter, inv_set_lastTimestamp, Hinv. Qed.

Lemma commit_result_inv multi n cc t tm :
  inv multi n tm → inv multi (n + 1) (commit_result cc t tm).2.
Proof.
  intros Hinv. unfold commit_result. destruct (cleanUp _) as [[?|ex] e0].
  - destruct (engine_commit _ _ _ _) as [[?|ex] e]; [|apply inv_stamped, Hinv].
    pose proof (inv_committed _ _ (getID t) e _ Hinv) as Hc.
    destruct (checkpoint_due _ _ _); [|exact Hc].
    rewrite <- checkpoint_eq by apply (inv_timeout _ _ _ Hc). apply checkpoint_inv, Hc.
  - eapply inv_weaken; [apply inv_engine, Hinv|lia].
Qed.

(** A call that starts by cleaning up and reading the transaction. *)
Lemma after_deref_inv multi n id (k : Transaction → M (TransactionManager E) unit) tm :
  inv multi n tm →
  (∀ t e, find_transaction id (activeTransactions tm) = Some t → inv multi n (set_engine e tm) →
    inv multi (n + 1) (state_of (k t) (set_engine e tm))) →
  inv multi (n + 1) (state_of (call cleanUp ;; t ← deref id; k t) tm).
Proof.
  intros Hinv Hk. unfold state_of, mbind, M_bind. rewrite call_eq.
  destruct (cleanUp (engine tm)) as [[?|ex] e]; cbn [fst snd];
    [|eapply inv_weaken; [apply inv_engine, Hinv|lia]].
  unfold deref. cbn [activeTransactions set_engine].
  destruct (find_transaction id (activeTransactions tm)) as [t|] eqn:Hf.
  - apply (Hk t e eq_refl), inv_engine, Hinv.
  - eapply inv_weaken; [apply inv_engine, Hinv|lia].
Qed.

Lemma clear_inv_state multi n id tm :
  inv multi n tm → inv multi (n + 1) (state_of (clearTransactionNoLock id) tm).
Proof.
  intros Hinv. apply (inv_weaken _ n); [|lia]. eapply triple_state; [apply clear_inv|exact Hinv].
Qed.

Lemma commit_inv multi n cc id tm :
  n < 2 ^ 62 → inv multi n tm → inv multi (n + 1) (state_of (commit cc id) tm).
Proof.
  intros Hn Hinv.
  destruct (find_transaction id (activeTransactions tm)) as [t|] eqn:Hf.
  - pose proof (find_transaction_id _ _ _ Hf) as [<- _].
    destruct (decide (getType t = WRITE ∨ getType t = RECOVERY)) as [Hty|Hty].
    + unfold state_of. rewrite (commit_eq _ _ _ _ _ Hinv Hn Hf Hty). apply commit_result_inv, Hinv.
    + apply after_deref_inv; [exact Hinv|]. intros t' e Hf' Hinv'.
      assert (t' = t) as -> by congruence.
      destruct (getType t); try tauto; [apply clear_inv_state, Hinv'|..];
        (eapply inv_weaken; [exact Hinv'|lia]).
  - apply after_deref_inv; [exact Hinv|]. intros t' e' Hf'. congruence.
Qed.

Lemma Transaction_rollback_inv multi n id :
  triple (inv multi n) (Transaction_rollback id) (λ _, inv multi n) (λ _, inv multi n).
Proof.
  unfold Transaction_rollback. eapply triple_bind; [apply triple_call_inv|]. intros ?.
  eapply triple_bind; [apply triple_call_inv|]. intros ?.
  apply update_transaction_flag; [auto with kuzu|reflexivity].
Qed.

Lemma rollback_inv multi n id tm :
  inv multi n tm → inv multi (n + 1) (state_of (rollback id) tm).
Proof.
  intros Hinv. apply after_deref_inv; [exact Hinv|]. intros t e _ Hinv'.
  assert (Hrb : inv multi (n + 1)
    (state_of (Transaction_rollback id ;; clearTransactionNoLock id) (set_engine e tm))).
  { apply (inv_weaken _ n); [|lia]. apply (proj1 (triple_state (inv multi n) _ _)); [|exact Hinv'].
    eapply triple_bind; [apply Transaction_rollback_inv|]. intros ?. apply clear_inv. }
  destruct (getType t); [apply clear_inv_state, Hinv'|exact Hrb| | |exact Hrb];
    (eapply inv_weaken; [exact Hinv'|lia]).
Qed.

(** ** Every execution *)

Lemma step_inv multi n tm tm' :
  n < 2 ^ 62 → tm_step multi tm tm' → inv multi n tm → inv multi (n + 1) tm'.
Proof.
  intros Hn Hstep Hinv. destruct Hstep as [cc type tm Hm|cc id tm Hm|id tm|cc tm Hm|id tm|id tm|to tm Ht|e tm].
  - apply begin_inv; assumption.
  - apply commit_inv; assumption.
  - apply rollback_inv, Hinv.
  - unfold checkpoint. destruct (isInMemory cc); eapply inv_weaken;
      [exact Hinv|lia|apply checkpoint_inv, Hinv|lia].
  - apply (inv_weaken _ n); [|lia]. eapply triple_state; [|exact Hinv].
    apply update_transaction_flag; [auto with kuzu|reflexivity].
  - apply (inv_weaken _ n); [|lia]. eapply triple_state; [|exact Hinv].
    apply update_transaction_flag; [auto with kuzu|reflexivity].
  - apply (inv_weaken _ n); [|lia]. destruct Hinv. constructor; assumption.
  - eapply inv_weaken; [apply inv_engine, Hinv|lia].
Qed.

Lemma steps_inv multi e n tm :
  nsteps (tm_step multi) n (TransactionManager_new e) tm → Z.of_nat n < 2 ^ 62 →
  inv multi (Z.of_nat n) tm.
Proof.
  intros Hsteps. remember (TransactionManager_new e) as tm0 eqn:H0.
  cut (∀ k, inv multi k tm0 → k + Z.of_nat n < 2 ^ 62 → inv multi (k + Z.of_nat n) tm).
  { intros Hc Hn. apply (Hc 0); [subst tm0; apply inv_new|lia]. }
  clear H0. induction Hsteps as [tm|n tm1 tm2 tm3 Hstep Hsteps IH]; intros k Hinv Hk.
  - rewrite Z.add_0_r. exact Hinv.
  - rewrite Nat2Z.inj_succ in Hk |- *.
    replace (k + Z.succ (Z.of_nat n)) with (k + 1 + Z.of_nat n) in Hk |- * by lia.
    apply IH; [|exact Hk]. apply (step_inv multi k tm1); [lia|exact Hstep|exact Hinv].
Qed.

(** C14. In every execution, with any storage engine and whatever it throws, the running transactions
    have distinct identifiers that no commit timestamp can equal, each snapshot is a timestamp of the
    past, a transaction whose commit failed has its commit timestamp after its snapshot and not after
    the clock, and at most one write transaction runs unless concurrent writers are enabled. *)
Theorem manager_invariant multi e n tm :
  nsteps (tm_step multi) n (TransactionManager_new e) tm → Z.of_nat n < 2 ^ 62 →
  NoDup (getID <$> activeTransactions tm) ∧
  is_commit_ts (lastTimestamp tm) ∧
  (∀ t, t ∈ activeTransactions tm →
    is_txn_id (getID t) ∧ getID t ≤ lastTransactionID tm ∧
    is_commit_ts (getStartTS t) ∧ getStartTS t ≤ lastTimestamp tm ∧
    (commitTS t = INVALID_TRANSACTION ∨ getStartTS t < commitTS t ≤ lastTimestamp tm)) ∧
  (multi = false → (count_if isWriteTransaction (activeTransactions tm) ≤ 1)%nat).
Proof.
  intros Hsteps Hn. destruct (steps_inv _ _ _ _ Hsteps Hn) as [Htx Hids Hl Hc Hw Ht].
  split_and!; [exact Hids|solve_ts| |exact Hw].
  intros t Hin. rewrite Forall_forall in Htx. destruct (Htx t Hin) as (H1 & H2 & H3 & _).
  split_and!; [solve_ts..|exact H3].
Qed.

(** Committing a write or recovery transaction of an execution: its commit timestamp is one past
    the clock, hence after the snapshot of every running transaction; the engine's steps run in the
    order local storage, undo buffer, write-ahead log, catalog version; if one throws, the transaction
    stays in the system with its commit timestamp; if all return, it has left and the checkpoint runs
    exactly when it is due, on a manager without it. *)
Theorem commit_behaviour multi e n tm cc t :
  nsteps (tm_step multi) n (TransactionManager_new e) tm → Z.of_nat n < 2 ^ 62 →
  t ∈ activeTransactions tm → getType t = WRITE ∨ getType t = RECOVERY →
  commit cc (getID t) tm = commit_result cc t tm ∧
  (∀ t', t' ∈ activeTransactions tm → getStartTS t' < lastTimestamp tm + 1) ∧
  is_commit_ts (lastTimestamp tm + 1).
Proof.
  intros Hsteps Hn Hin Hty. pose proof (steps_inv _ _ _ _ Hsteps Hn) as Hinv.
  split_and!; [|intros t' Hin'|pose proof (inv_clock _ _ _ Hinv); solve_ts].
  - apply (commit_eq multi (Z.of_nat n)); [exact Hinv|exact Hn| |exact Hty].
    apply find_transaction_mem; [apply (inv_ids _ _ _ Hinv)|exact Hin].
  - pose proof (inv_txns _ _ _ Hinv) as Htx. rewrite Forall_forall in Htx.
    destruct (Htx t' Hin') as (_ & ? & _). lia.
Qed.

(** Beginning a transaction in an execution: a second writer is refused without a trace unless
    concurrent writers are enabled; a transaction that starts has an identifier no transaction of the
    execution had before, and reads the snapshot of the last timestamp. *)
Theorem begin_behaviour multi e n tm cc type :
  nsteps (tm_step multi) n (TransactionManager_new e) tm → Z.of_nat n < 2 ^ 62 →
  beginTransaction cc type tm = begin_result cc type tm ∧
  (∀ t, t ∈ activeTransactions tm → getID t < lastTransactionID tm + 1) ∧
  is_txn_id (lastTransactionID tm + 1).
Proof.
  intros Hsteps Hn. pose proof (steps_inv _ _ _ _ Hsteps Hn) as Hinv.
  split_and!; [apply (begin_eq multi (Z.of_nat n)); assumption|intros t Hin|
    pose proof (inv_lastID _ _ _ Hinv); solve_ts].
  pose proof (inv_txns _ _ _ Hinv) as Htx. rewrite Forall_forall in Htx.
  destruct (Htx t Hin) as (? & _). lia.
Qed.

(** The wait before a checkpoint does not let transactions finish. The comment in [transaction_manager.h] says
    that commits and rollbacks can come in meanwhile; [checkpointNoLock] waits with the lock held that they
    need, so the wait ends within [wait_fuel] polls (and any larger fuel gives the same) successfully exactly
    when no transaction runs at its start, and times out otherwise. *)
Theorem checkpoint_wait_excludes_leaving multi e n tm cc fuel :
  nsteps (tm_step multi) n (TransactionManager_new e) tm → Z.of_nat n < 2 ^ 62 →
  (wait_fuel tm ≤ fuel)%nat → isInMemory cc = false →
  wait_loop fuel 0 tm =
    Some (if hasNoActiveTransactions tm then Ok tt else Throw timeout_error) ∧
  checkpoint cc tm = checkpoint_result tm.
Proof.
  intros Hsteps Hn Hfuel Hmem. pose proof (inv_timeout _ _ _ (steps_inv _ _ _ _ Hsteps Hn)) as Ht.
  assert (0 ≤ checkpointWaitTimeoutInMicros tm / 500) by (apply Z.div_pos; lia).
  unfold wait_fuel, THREAD_SLEEP_TIME_WHEN_WAITING_IN_MICROS in Hfuel. split.
  - apply wait_loop_result; [exact Ht|lia|lia].
  - unfold checkpoint. rewrite Hmem. apply checkpoint_eq, Ht.
Qed.

End Spec.
#[export] Hint Resolve keeps_identity_commitTS keeps_identity_catalog keeps_identity_force : kuzu.

(** ** A concrete engine

    It records the calls it gets, and throws at the call it is told to, rollbacks excepted. *)
Record TraceEngine := MkTraceEngine { fault : string; trace : list (string * Z) }.

Definition note_call (name : string) (arg : Z) : M TraceEngine unit := λ e,
  (Ok tt, MkTraceEngine (fault e) (trace e ++ [(name, arg)])).
Definition record_call (name : string) (arg : Z) : M TraceEngine unit := λ e,
  if String.eqb (fault e) name then (Throw (RuntimeException name), e) else note_call name arg e.

#[global] Instance trace_engine : Engine TraceEngine := {|
  cleanUp := note_call "cleanUp" 0;
  localWAL_logBeginTransaction := record_call "logBegin";
  localWAL_logCommit := record_call "logCommit";
  localWAL_clear := record_call "clear";
  localWAL_getSize := λ _ _, 0;
  wal_logCommittedWAL := record_call "logCommittedWAL";
  wal_getFileSize := λ e, Z.of_nat (length (trace e));
  localStorage_commit := record_call "local.commit";
  localStorage_rollback := note_call "local.rollback";
  undoBuffer_commit := λ _ ts, record_call "undo.commit" ts;
  undoBuffer_rollback := note_call "undo.rollback";
  catalog_incrementVersion := record_call "incrementVersion" 0;
  writeCheckpoint := record_call "writeCheckpoint" 0;
  checkpointer_rollback := note_call "rollbackCheckpoint" 0;
|}.

Definition disk : ClientContext := MkClientContext false false true 100.
Definition new_manager (fault : string) : TransactionManager TraceEngine :=
  TransactionManager_new (MkTraceEngine fault []).
(** A reader and a writer run. *)
Definition two_running (fault : string) : TransactionManager TraceEngine :=
  state_of (beginTransaction disk WRITE)
    (state_of (beginTransaction disk READ_ONLY) (new_manager fault)).
Definition writer : Transaction := Transaction_new WRITE (START_TRANSACTION_ID + 2) 1.

Lemma two_running_steps fault :
  nsteps (tm_step false) 2 (TransactionManager_new (MkTraceEngine fault [])) (two_running fault).
Proof.
  eapply nsteps_l; [apply (step_begin _ disk READ_ONLY); reflexivity|].
  eapply nsteps_l; [apply (step_begin _ disk WRITE); reflexivity|]. apply nsteps_O.
Qed.

Lemma writer_running : writer ∈ activeTransactions (two_running "").
Proof.
  apply list_elem_of_lookup. exists 1%nat. vm_compute. reflexivity.
Qed.

Lemma manager_invariant_witness :
  is_txn_id (getID writer) ∧ is_commit_ts (getStartTS writer) ∧
  (count_if isWriteTransaction (activeTransactions (two_running "")) ≤ 1)%nat.
Proof.
  destruct (manager_invariant false _ 2 (two_running "") (two_running_steps "") ltac:(lia))
    as (_ & _ & Htx & Hw).
  destruct (Htx writer writer_running) as (? & _ & ? & _).
  split_and!; [assumption..|apply Hw; reflexivity].
Defined.

(** The steps of a commit, and a commit whose logging fails after the undo buffer's commit. *)
Lemma commit_behaviour_witness :
  commit disk (START_TRANSACTION_ID + 2) (two_running "") =
    (Ok tt, MkTransactionManager [Transaction_new READ_ONLY (START_TRANSACTION_ID + 1) 1]
       (START_TRANSACTION_ID + 2) 2 5000000
       (MkTraceEngine "" [("logBegin", START_TRANSACTION_ID + 2); ("cleanUp", 0);
          ("local.commit", START_TRANSACTION_ID + 2); ("undo.commit", 2);
          ("logCommit", START_TRANSACTION_ID + 2); ("logCommittedWAL", START_TRANSACTION_ID + 2);
          ("clear", START_TRANSACTION_ID + 2)])).
Proof.
  destruct (commit_behaviour false _ 2 (two_running "") disk writer (two_running_steps "")
    ltac:(lia) writer_running (or_introl eq_refl)) as (Hc & _).
  transitivity (commit disk (getID writer) (two_running "")); [reflexivity|].
  rewrite Hc. vm_compute. reflexivity.
Defined.

(** A second writer is refused and leaves no trace. *)
Lemma begin_behaviour_witness :
  beginTransaction disk WRITE (two_running "") = (Throw multi_write_error, two_running "").
Proof.
  destruct (begin_behaviour false _ 2 (two_running "") disk WRITE (two_running_steps "")
    ltac:(lia)) as (Hb & _).
  rewrite Hb. vm_compute. reflexivity.
Defined.

Lemma checkpoint_wait_excludes_leaving_witness :
  checkpoint disk (two_running "") =
    (Throw (to_checkpoint_exception timeout_error), two_running "") ∧
  checkpoint disk (new_manager "writeCheckpoint") =
    (Throw (CheckpointException "writeCheckpoint"),
     set_engine (MkTraceEngine "writeCheckpoint" [("rollbackCheckpoint", 0)])
       (new_manager "writeCheckpoint")).
Proof.
  split.
  - destruct (checkpoint_wait_excludes_leaving false _ 2 (two_running "") disk _ (two_running_steps "")
      ltac:(lia) (Nat.le_refl _) eq_refl) as (_ & ->). reflexivity.
  - destruct (checkpoint_wait_excludes_leaving false _ 0 (new_manager "writeCheckpoint") disk _
      (nsteps_O _ _) ltac:(lia) (Nat.le_refl _) eq_refl) as (_ & ->). reflexivity.
Defined.

End TransactionSpec.
