(* ===== verification/TransactionContext.v ===== *)
(** * Connections: transaction contexts and running a statement in a transaction

    [TransactionContext] ([transaction/transaction_context.cpp]), the transaction operator
    ([processor/operator/transaction.cpp]) and the part of [ClientContext]
    ([main/client_context.cpp]) that prepares and executes a statement inside a transaction. The state
    is a database: the transaction manager and the context of each connection. Binding, planning and
    executing a statement are work of the engine. *)

From stdpp Require Import base numbers list gmap strings.
From Stdlib Require Import ZArith Lia.
From S2P Require Import Prelude TransactionManager.
Import Transaction.

Open Scope Z_scope.

Module TransactionContext.

Inductive TransactionMode := AUTO | MANUAL.

#[global] Instance TransactionMode_eq_dec : EqDecision TransactionMode.
Proof. solve_decision. Defined.

Record TransactionContext := MkTransactionContext {
  mode : TransactionMode;
  activeTransaction : option Z;
}.

#[global] Instance TransactionContext_eq_dec : EqDecision TransactionContext.
Proof. solve_decision. Defined.

Definition TransactionContext_new : TransactionContext := MkTransactionContext AUTO None.

Inductive TransactionAction :=
  BEGIN_READ | BEGIN_WRITE | COMMIT | ROLLBACK | ACTION_CHECKPOINT.

Inductive TransactionCommitAction :=
  COMMIT_IF_NEW | COMMIT_IF_AUTO | COMMIT_NEW_OR_AUTO | NOT_COMMIT.

Definition commitIfNew (a : TransactionCommitAction) : bool :=
  match a with COMMIT_IF_NEW | COMMIT_NEW_OR_AUTO => true | _ => false end.
Definition commitIfAuto (a : TransactionCommitAction) : bool :=
  match a with COMMIT_IF_AUTO | COMMIT_NEW_OR_AUTO => true | _ => false end.
Definition getAction (commitIfNew commitIfAuto : bool) : TransactionCommitAction :=
  if commitIfNew && commitIfAuto then COMMIT_NEW_OR_AUTO
  else if commitIfNew then COMMIT_IF_NEW
  else if commitIfAuto then COMMIT_IF_AUTO
  else NOT_COMMIT.

Section Connection.
Context {E : Type} `{Engine E}.

Record Database := MkDatabase {
  contexts : gmap nat TransactionContext;
  manager : TransactionManager.TransactionManager E;
}.

(** The context of connection [c]; a connection starts with a new one. *)
Definition context (c : nat) (db : Database) : TransactionContext :=
  default TransactionContext_new (contexts db !! c).
Definition set_context (c : nat) (f : TransactionContext → TransactionContext) (db : Database) :=
  MkDatabase (<[c := f (context c db)]> (contexts db)) (manager db).

Definition set_mode (m : TransactionMode) (ctx : TransactionContext) : TransactionContext :=
  MkTransactionContext m (activeTransaction ctx).
Definition set_activeTransaction (t : option Z) (ctx : TransactionContext) : TransactionContext :=
  MkTransactionContext (mode ctx) t.

(** A call of the transaction manager. *)
Definition on_manager {A} (m : M (TransactionManager.TransactionManager E) A) : M Database A := λ db,
  let '(r, tm) := m (manager db) in (r, MkDatabase (contexts db) tm).

Definition isAutoTransaction (ctx : TransactionContext) : bool := bool_decide (mode ctx = AUTO).
Definition hasActiveTransaction (ctx : TransactionContext) : bool :=
  match activeTransaction ctx with Some _ => true | None => false end.

Definition get_context (c : nat) : M Database TransactionContext := λ db, (Ok (context c db), db).
Definition clearTransaction (c : nat) : M Database unit :=
  modify (set_context c (λ _, MkTransactionContext AUTO None)).

Definition beginTransactionInternal (c : nat) (cc : ClientContext) (type : TransactionType) :
    M Database unit :=
  ctx ← get_context c;
  ku_assert (negb (hasActiveTransaction ctx)) ;;
  id ← on_manager (TransactionManager.beginTransaction cc type);
  modify (set_context c (set_activeTransaction (Some id))).

Definition beginReadTransaction (c : nat) (cc : ClientContext) : M Database unit :=
  modify (set_context c (set_mode MANUAL)) ;; beginTransactionInternal c cc READ_ONLY.
Definition beginWriteTransaction (c : nat) (cc : ClientContext) : M Database unit :=
  modify (set_context c (set_mode MANUAL)) ;; beginTransactionInternal c cc WRITE.
Definition beginRecoveryTransaction (c : nat) (cc : ClientContext) : M Database unit :=
  modify (set_context c (set_mode MANUAL)) ;; beginTransactionInternal c cc RECOVERY.

Definition beginAutoTransaction (c : nat) (cc : ClientContext) (readOnlyStatement : bool) :
    M Database unit :=
  ctx ← get_context c;
  (if hasActiveTransaction ctx
   then raise (TransactionManagerException
     "Cannot start a new transaction while there is an active transaction.")
   else mret tt) ;;
  beginTransactionInternal c cc (if readOnlyStatement then READ_ONLY else WRITE).

Definition validateManualTransaction (c : nat) (readOnlyStatement : bool) : M Database unit :=
  ctx ← get_context c;
  ku_assert (hasActiveTransaction ctx) ;;
  match activeTransaction ctx with
  | None => raise (UndefinedBehaviour "null Transaction pointer")
  | Some id =>
      t ← on_manager (TransactionManager.deref id);
      if isReadOnly t && negb readOnlyStatement
      then raise (TransactionManagerException
        "Can not execute a write query inside a read-only transaction.")
      else mret tt
  end.

Definition commit (c : nat) (cc : ClientContext) : M Database unit :=
  ctx ← get_context c;
  match activeTransaction ctx with
  | None => mret tt
  | Some id => on_manager (TransactionManager.commit cc id) ;; clearTransaction c
  end.

Definition rollback (c : nat) : M Database unit :=
  ctx ← get_context c;
  match activeTransaction ctx with
  | None => mret tt
  | Some id => on_manager (TransactionManager.rollback id) ;; clearTransaction c
  end.

(** ** The transaction operator *)

Definition validateActiveTransaction (ctx : TransactionContext) (action : TransactionAction) :
    outcome unit :=
  match action with
  | BEGIN_READ | BEGIN_WRITE =>
      if hasActiveTransaction ctx then Throw (TransactionManagerException
        "Connection already has an active transaction. Cannot start a transaction within another one. For concurrent multiple transactions, please open other connections.")
      else Ok tt
  | COMMIT =>
      if hasActiveTransaction ctx then Ok tt
      else Throw (TransactionManagerException "No active transaction for COMMIT.")
  | ROLLBACK =>
      if hasActiveTransaction ctx then Ok tt
      else Throw (TransactionManagerException "No active transaction for ROLLBACK.")
  | ACTION_CHECKPOINT =>
      if hasActiveTransaction ctx
      then Throw (TransactionManagerException "Found active transaction for CHECKPOINT.")
      else Ok tt
  end.

(** [Transaction::getNextTuplesInternal] of the operator, the first time it is called. *)
Definition transaction_operator (c : nat) (cc : ClientContext) (action : TransactionAction) :
    M Database unit :=
  ctx ← get_context c;
  observe (λ _, validateActiveTransaction ctx action) ;;
  match action with
  | BEGIN_READ => beginReadTransaction c cc
  | BEGIN_WRITE => beginWriteTransaction c cc
  | COMMIT => commit c cc
  | ROLLBACK => rollback c
  | ACTION_CHECKPOINT => on_manager (TransactionManager.checkpoint cc)
  end.

(** ** Running a function in a transaction *)

(** [try m catch (CheckpointException&) { h1; throw; } catch (std::exception&) { h2; throw; }];
    undefined behaviour is not an exception. *)
Definition try_catch (m h1 h2 : M Database unit) : M Database unit := λ db,
  match m db with
  | (Ok a, db') => (Ok a, db')
  | (Throw (CheckpointException msg), db') => (h1 ;; raise (CheckpointException msg)) db'
  | (Throw (UndefinedBehaviour msg), db') => (Throw (UndefinedBehaviour msg), db')
  | (Throw e, db') => (h2 ;; raise e) db'
  end.

Definition runFuncInTransaction (c : nat) (cc : ClientContext) (fun_ : M Database unit)
    (readOnlyStatement isTransactionStatement : bool) (action : TransactionCommitAction) :
    M Database unit :=
  ctx ← get_context c;
  ku_assert (isAutoTransaction ctx || hasActiveTransaction ctx) ;;
  let requireNewTransaction :=
    isAutoTransaction ctx && negb (hasActiveTransaction ctx) && negb isTransactionStatement in
  (if requireNewTransaction then beginAutoTransaction c cc readOnlyStatement else mret tt) ;;
  try_catch
    (fun_ ;;
     ctx' ← get_context c;
     if (requireNewTransaction && commitIfNew action) ||
        (isAutoTransaction ctx' && commitIfAuto action)
     then commit c cc else mret tt)
    (clearTransaction c)
    (rollback c).

(** ** Preparing and executing a statement *)

(** A parsed statement: its action if it is a transaction statement, and what analysing, binding and
    executing it does to the engine. *)
Record Statement := MkStatement {
  transactionAction : option TransactionAction;
  isCopyFrom : bool;
  readOnly : bool;
  analyze : M E unit;
  bind : M E unit;
  execute : M E unit;
}.

Definition requireTransaction (st : Statement) : bool :=
  match transactionAction st with Some _ => false | None => true end.

Definition validateTransaction (c : nat) (canExecuteWriteQuery readOnly requireTransaction : bool) :
    M Database unit :=
  (if negb canExecuteWriteQuery && negb readOnly
   then raise (ConnectionException "Cannot execute write operations in a read-only database!")
   else mret tt) ;;
  ctx ← get_context c;
  if requireTransaction && hasActiveTransaction ctx
  then ku_assert (negb (isAutoTransaction ctx)) ;; validateManualTransaction c readOnly
  else mret tt.

Definition engine_work (m : M E unit) : M Database unit := on_manager (TransactionManager.call m).

(** [catch (std::exception&)] that turns the exception into a failed result. *)
Definition try_result (m : M Database unit) : M Database (option exn) := λ db,
  match m db with
  | (Ok _, db') => (Ok None, db')
  | (Throw (UndefinedBehaviour msg), db') => (Throw (UndefinedBehaviour msg), db')
  | (Throw e, db') => (Ok (Some e), db')
  end.

Definition prepareNoLock (c : nat) (cc : ClientContext) (canExecuteWriteQuery : bool)
    (st : Statement) (shouldCommitNewTransaction : bool) : M Database (option exn) :=
  try_result (
    runFuncInTransaction c cc (engine_work (analyze st)) true false COMMIT_IF_NEW ;;
    validateTransaction c canExecuteWriteQuery (readOnly st) (requireTransaction st) ;;
    runFuncInTransaction c cc (engine_work (bind st)) (readOnly st)
      (negb (requireTransaction st)) (getAction shouldCommitNewTransaction false)).

(** [setForceCheckpoint] on the transaction of the context. *)
Definition force_checkpoint (c : nat) : M Database unit :=
  ctx ← get_context c;
  match activeTransaction ctx with
  | None => raise (UndefinedBehaviour "null Transaction pointer")
  | Some id =>
      on_manager (TransactionManager.deref id ;;
                  TransactionManager.update_transaction id setForceCheckpoint)
  end.

Definition execute_body (c : nat) (cc : ClientContext) (st : Statement) : M Database unit :=
  match transactionAction st with
  | Some action => transaction_operator c cc action
  | None => (if isCopyFrom st then force_checkpoint c else mret tt) ;; engine_work (execute st)
  end.

Definition executeNoLock (c : nat) (cc : ClientContext) (st : Statement)
    (prepared : option exn) : M Database (option exn) :=
  match prepared with
  | Some e => mret (Some e)
  | None =>
      let isTransactionStatement := negb (requireTransaction st) in
      try_result (runFuncInTransaction c cc (execute_body c cc st) (readOnly st)
        isTransactionStatement (getAction true (negb isTransactionStatement)))
  end.

(** The iteration of [queryNoLock] for one statement. *)
Definition query_statement (c : nat) (cc : ClientContext) (canExecuteWriteQuery : bool)
    (st : Statement) : M Database (option exn) :=
  prepared ← prepareNoLock c cc canExecuteWriteQuery st false;
  executeNoLock c cc st prepared.

End Connection.
Arguments Database E : clear implicits.
Arguments Statement E : clear implicits.
End TransactionContext.
