(* ===== verification/ConnectionSpec.v ===== *)
(** * Statements leave no dangling transaction

    For any number of connections, and an engine that may fail at every call but the ones of a
    rollback: a statement never touches a transaction that has left the system, no assertion of the
    transaction context fails, and the connection ends either without a transaction or with the
    manual one it began, a refused [BEGIN] excepted (its connection is left in manual mode without a
    transaction, see [refused_begin_wedges]). *)

From stdpp Require Import base numbers list gmap relations strings.
From Stdlib Require Import ZArith Lia.
From S2P Require Import Prelude TransactionManager TransactionSpec TransactionContext.
Import Transaction TransactionManager TransactionSpec TransactionContext.

Open Scope Z_scope.

Module ConnectionSpec.

(** Exceptions of the code other than a failed assertion. *)
Definition benign (e : exn) : Prop :=
  match e with UndefinedBehaviour _ | InternalException _ => False | _ => True end.
Definition is_checkpoint_exn (e : exn) : bool :=
  match e with CheckpointException _ => true | _ => false end.

(** An operation that throws nothing but benign exceptions, and one that does not throw. *)
Definition benign_op {E A} (m : M E A) : Prop := ∀ s e s', m s = (Throw e, s') → benign e.
Definition no_throw {E A} (m : M E A) : Prop := ∀ s, ∃ a s', m s = (Ok a, s').

(** What the connections rely on: no undefined behaviour below, and rollbacks that do not fail. *)
Record well_behaved (E : Type) `{Engine E} : Prop := {
  wb_cleanUp : no_throw (cleanUp (E := E));
  wb_undo_rollback : ∀ id, no_throw (undoBuffer_rollback (E := E) id);
  wb_local_rollback : ∀ id, no_throw (localStorage_rollback (E := E) id);
  wb_checkpointer_rollback : no_throw (checkpointer_rollback (E := E));
  wb_writeCheckpoint : benign_op (writeCheckpoint (E := E));
  wb_logBegin : ∀ id, benign_op (localWAL_logBeginTransaction (E := E) id);
  wb_commit : ∀ cc t ts, benign_op (engine_commit (E := E) cc t ts);
}.

Section Connections.
Context {E : Type} `{Engine E} (Hwb : well_behaved E) (multi : bool).
Implicit Types (tm : TransactionManager E) (db : Database E).

Definition ids tm : list Z := getID <$> activeTransactions tm.

Lemma benign_checkpoint e : benign e → benign (to_checkpoint_exception e).
Proof. destruct e; cbn; auto. Qed.

(** ** The manager's calls, seen from a connection *)

Lemma begin_ids n cc type tm :
  inv multi n tm → n < 2 ^ 62 → enableMultiWrites cc = multi →
  type = READ_ONLY ∨ type = WRITE ∨ type = RECOVERY →
  match beginTransaction cc type tm with
  | (Ok id, tm') => inv multi (n + 1) tm' ∧ ids tm' = ids tm ++ [id] ∧ id ∉ ids tm
  | (Throw e, tm') => inv multi (n + 1) tm' ∧ ids tm' = ids tm ∧ benign e
  end.
Proof.
  intros Hinv Hn Hcc Hty. pose proof (begin_inv _ _ _ type _ Hcc Hn Hinv) as Hinv'.
  unfold state_of in Hinv'. rewrite (begin_eq _ _ _ _ _ Hinv Hn) in *.
  assert (Hfresh : lastTransactionID tm + 1 ∉ ids tm).
  { intros Hin. apply list_elem_of_fmap in Hin as (t & Heq & Hin).
    pose proof (inv_txns _ _ _ Hinv) as Htx. rewrite Forall_forall in Htx.
    destruct (Htx t Hin) as (? & _). lia. }
  assert (Hids : ids (started type tm) = ids tm ++ [lastTransactionID tm + 1]).
  { unfold ids, started. cbn. rewrite fmap_app. reflexivity. }
  unfold begin_result in *. rewrite bool_decide_eq_false_2 in * by (intros [->| ->]; intuition discriminate).
  destruct (negb _ && _ && _); [split_and!; [exact Hinv'|reflexivity|exact I]|].
  destruct (bool_decide (type = WRITE) && _); [|split_and!; [exact Hinv'|exact Hids|exact Hfresh]].
  destruct (localWAL_logBeginTransaction _ _) as [[?|e] s'] eqn:Hl.
  - split_and!; [exact Hinv'|exact Hids|exact Hfresh].
  - split_and!; [exact Hinv'|reflexivity|eapply (wb_logBegin _ Hwb), Hl].
Qed.

Definition without (id : Z) (l : list Z) : list Z := List.filter (λ i, negb (i =? id)) l.

Lemma ids_filter id l :
  getID <$> List.filter (λ t, negb (getID t =? id)) l = without id (getID <$> l).
Proof.
  induction l as [|t l IH]; [reflexivity|]. unfold without in *. cbn.
  destruct (getID t =? id); cbn; [exact IH|f_equal; exact IH].
Qed.

Lemma checkpoint_result_benign tm e tm' :
  checkpoint_result tm = (Throw e, tm') →
  benign e ∧ is_checkpoint_exn e = true ∧ ∃ s, tm' = set_engine s tm.
Proof.
  unfold checkpoint_result. destruct (hasNoActiveTransactions tm).
  - destruct (writeCheckpoint (engine tm)) as [[?|ex] s] eqn:Hw; [discriminate|].
    destruct (wb_checkpointer_rollback _ Hwb s) as (a & s' & ->). intros [= <- <-].
    pose proof (wb_writeCheckpoint _ Hwb _ _ _ Hw) as Hb.
    split_and!; [apply benign_checkpoint, Hb|destruct ex; cbn in *; tauto|eauto].
  - intros [= <- <-]. split_and!; [exact I|reflexivity|]. exists (engine tm). destruct tm; reflexivity.
Qed.

Lemma checkpoint_result_ok tm a tm' :
  checkpoint_result tm = (Ok a, tm') → ∃ s, tm' = set_engine s tm.
Proof.
  unfold checkpoint_result. destruct (hasNoActiveTransactions tm); [|discriminate].
  destruct (writeCheckpoint (engine tm)) as [[?|ex] s]; [intros [= _ <-]; eauto|].
  destruct (checkpointer_rollback s) as [[?|?] ?]; discriminate.
Qed.

(** A running transaction has a type that can be committed. *)
Lemma running_type n tm t :
  inv multi n tm → find_transaction (getID t) (activeTransactions tm) = Some t →
  getType t = READ_ONLY ∨ getType t = WRITE ∨ getType t = RECOVERY.
Proof.
  intros Hinv Hf. apply find_transaction_id in Hf as [_ Hin].
  pose proof (inv_txns _ _ _ Hinv) as Htx. rewrite Forall_forall in Htx.
  destruct (Htx t Hin) as (_ & _ & _ & ?). assumption.
Qed.

Lemma ids_find n tm id :
  inv multi n tm → id ∈ ids tm →
  ∃ t, id = getID t ∧ find_transaction id (activeTransactions tm) = Some t.
Proof.
  intros Hinv Hin. apply list_elem_of_fmap in Hin as (t & -> & Hin). exists t.
  split; [reflexivity|]. apply find_transaction_mem; [apply (inv_ids _ _ _ Hinv)|exact Hin].
Qed.

Lemma cleanUp_ok tm : ∃ s, call cleanUp tm = (Ok tt, set_engine s tm).
Proof.
  destruct (wb_cleanUp _ Hwb (engine tm)) as ([] & s & Hc). exists s.
  rewrite call_eq, Hc. reflexivity.
Qed.

Lemma commit_ids n cc tm id :
  inv multi n tm → n < 2 ^ 62 → id ∈ ids tm →
  match TransactionManager.commit cc id tm with
  | (Ok _, tm') => ids tm' = without id (ids tm)
  | (Throw e, tm') =>
      benign e ∧ (ids tm' = ids tm ∨ is_checkpoint_exn e = true ∧ ids tm' = without id (ids tm))
  end.
Proof.
  intros Hinv Hn Hin. destruct (ids_find _ _ _ Hinv Hin) as (t & -> & Hf).
  destruct (running_type _ _ _ Hinv Hf) as [Hro|Hty].
  - unfold TransactionManager.commit.
    destruct (cleanUp_ok tm) as (s & Hcl). rewrite (M_bind_ok _ _ _ _ _ Hcl).
    rewrite (M_bind_ok _ _ _ t (set_engine s tm)) by (apply deref_eq; exact Hf).
    rewrite Hro, (clear_eq _ _ t) by exact Hf. apply ids_filter.
  - rewrite (commit_eq _ _ _ _ _ Hinv Hn Hf Hty). unfold commit_result.
    destruct (wb_cleanUp _ Hwb (engine tm)) as (a & s & ->).
    destruct (engine_commit _ _ _ _) as [[?|e] s'] eqn:Hc.
    + destruct (checkpoint_due cc t s'); [|apply ids_filter].
      destruct (checkpoint_result _) as [[?|e] tm'] eqn:Hcp.
      * apply checkpoint_result_ok in Hcp as (? & ->). apply ids_filter.
      * apply checkpoint_result_benign in Hcp as (? & ? & ? & ->).
        split; [assumption|right]. split; [assumption|apply ids_filter].
    + split; [eapply (wb_commit _ Hwb), Hc|left].
      unfold ids, stamped. cbn. apply write_txn_ids. auto with kuzu.
Qed.

Lemma rollback_ids n tm id :
  inv multi n tm → id ∈ ids tm →
  ∃ tm', TransactionManager.rollback id tm = (Ok tt, tm') ∧ ids tm' = without id (ids tm).
Proof.
  intros Hinv Hin. destruct (ids_find _ _ _ Hinv Hin) as (t & -> & Hf).
  unfold TransactionManager.rollback.
  destruct (cleanUp_ok tm) as (s & Hcl). rewrite (M_bind_ok _ _ _ _ _ Hcl).
  rewrite (M_bind_ok _ _ _ t (set_engine s tm)) by (apply deref_eq; exact Hf).
  assert (Hrb : ∃ tm', (Transaction_rollback (getID t) ;; clearTransactionNoLock (getID t))
                         (set_engine s tm) = (Ok tt, tm') ∧ ids tm' = without (getID t) (ids tm)).
  { destruct (wb_undo_rollback _ Hwb (getID t) s) as (a1 & s1 & H1).
    destruct (wb_local_rollback _ Hwb (getID t) s1) as (a2 & s2 & H2).
    pose (tm2 := set_active (write_txn (getID t) (set_hasCatalogChanges false)) (set_engine s2 tm)).
    assert (Hr : Transaction_rollback (getID t) (set_engine s tm) = (Ok tt, tm2)).
    { unfold Transaction_rollback, call, mbind, M_bind. cbn [engine set_engine].
      rewrite H1. cbn [engine set_engine]. rewrite H2. reflexivity. }
    assert (Hf2 : find_transaction (getID t) (activeTransactions tm2) =
                  Some (set_hasCatalogChanges false t)).
    { apply find_write_txn; [auto with kuzu|exact Hf]. }
    rewrite (M_bind_ok _ _ _ _ _ Hr), (clear_eq _ _ _ Hf2). eexists. split; [reflexivity|].
    unfold ids. cbn. rewrite ids_filter. f_equal. apply write_txn_ids. auto with kuzu. }
  destruct (running_type _ _ _ Hinv Hf) as [Hty|[Hty|Hty]]; rewrite Hty; try exact Hrb.
  rewrite (clear_eq _ _ t) by exact Hf. eexists. split; [reflexivity|apply ids_filter].
Qed.

Lemma elem_of_without id id' l : id' ∈ without id l ↔ id' ∈ l ∧ id' ≠ id.
Proof.
  unfold without. rewrite !list_elem_of_In, List.filter_In, negb_true_iff, Z.eqb_neq. reflexivity.
Qed.

(** ** A connection among others

    [others c f n db]: the other connections have the contexts [f] and their transactions run.
    [at_ctx] adds that connection [c] has the context [ctx], whose transaction runs and is its own. *)
Section OneConnection.
Context (c : nat) (f : nat → TransactionContext).

Definition others (n : Z) (db : Database E) : Prop :=
  inv multi n (manager db) ∧ (∀ c', c' ≠ c → context c' db = f c') ∧
  (∀ c' id, c' ≠ c → activeTransaction (f c') = Some id → id ∈ ids (manager db)).

Definition own (ctx : TransactionContext) (db : Database E) : Prop :=
  ∀ id, activeTransaction ctx = Some id →
    id ∈ ids (manager db) ∧ ∀ c', c' ≠ c → activeTransaction (f c') ≠ Some id.

Definition at_ctx (n : Z) (ctx : TransactionContext) (db : Database E) : Prop :=
  others n db ∧ context c db = ctx ∧ own ctx db.

Lemma others_weaken n n' db : others n db → n ≤ n' → others n' db.
Proof. intros (Hinv & Ho) Hn. split; [eapply inv_weaken; eassumption|exact Ho]. Qed.
Lemma at_ctx_weaken n n' ctx db : at_ctx n ctx db → n ≤ n' → at_ctx n' ctx db.
Proof. intros (Ho & Hc) Hn. split; [eapply others_weaken; eassumption|exact Hc]. Qed.

Lemma context_set_eq g db : context c (set_context c g db) = g (context c db).
Proof. unfold context at 1. cbn. rewrite lookup_insert_eq. reflexivity. Qed.
Lemma context_set_ne c' g db : c' ≠ c → context c' (set_context c g db) = context c' db.
Proof. intros Hne. unfold context. cbn. rewrite lookup_insert_ne by congruence. reflexivity. Qed.

(** Changing the connection's own context. *)
Lemma at_ctx_set n g db ctx :
  others n db → g (context c db) = ctx → own ctx db → at_ctx n ctx (set_context c g db).
Proof.
  intros (Hinv & Hf & Hl) <- Hown. split_and!; [|apply context_set_eq|exact Hown].
  split_and!; [exact Hinv| |exact Hl]. intros c' Hne. rewrite context_set_ne by exact Hne. auto.
Qed.

(** A step of the manager that keeps the transactions of the other connections. *)
Lemma others_step n n' db tm :
  others n db → inv multi n' tm →
  (∀ id c', c' ≠ c → activeTransaction (f c') = Some id → id ∈ ids (manager db) → id ∈ ids tm) →
  others n' (MkDatabase (contexts db) tm).
Proof.
  intros (Hinv & Hf & Hl) Hinv' Hkeep. split_and!; [exact Hinv'|exact Hf|].
  intros c' id Hne Hid. eapply Hkeep; eauto.
Qed.

Lemma get_context_bind {A} (k : TransactionContext → M (Database E) A) db :
  (get_context c ≫= k) db = k (context c db) db.
Proof. reflexivity. Qed.

Lemma on_manager_eq {A} (m : M (TransactionManager E) A) db :
  on_manager m db = ((m (manager db)).1, MkDatabase (contexts db) (m (manager db)).2).
Proof. unfold on_manager. destruct (m (manager db)). reflexivity. Qed.

Lemma engine_work_at n ctx m :
  benign_op m →
  triple (at_ctx n ctx) (engine_work m) (λ _, at_ctx n ctx) (λ e db, benign e ∧ at_ctx n ctx db).
Proof.
  intros Hm db (Ho & Hc & Hown). unfold engine_work. rewrite on_manager_eq, call_eq. cbn [fst snd].
  assert (Hres : ∀ s, at_ctx n ctx (MkDatabase (contexts db) (set_engine s (manager db)))).
  { intros s. split_and!; [|exact Hc|exact Hown]. eapply others_step; [exact Ho| |auto].
    apply inv_engine, Ho. }
  destruct (m (engine (manager db))) as [[a|e] s] eqn:Hs; cbn [fst snd]; [apply Hres|].
  split; [eapply Hm, Hs|apply Hres].
Qed.

Lemma begin_at n cc type md :
  n < 2 ^ 62 → enableMultiWrites cc = multi →
  type = READ_ONLY ∨ type = WRITE ∨ type = RECOVERY →
  triple (at_ctx n (MkTransactionContext md None)) (beginTransactionInternal c cc type)
    (λ _ db, ∃ id, at_ctx (n + 1) (MkTransactionContext md (Some id)) db)
    (λ e db, benign e ∧ at_ctx (n + 1) (MkTransactionContext md None) db).
Proof.
  intros Hn Hcc Hty db (Ho & Hc & _). unfold beginTransactionInternal.
  rewrite get_context_bind, Hc, (M_bind_ok _ _ db tt db) by reflexivity.
  unfold mbind, M_bind. rewrite on_manager_eq.
  pose proof (begin_ids n cc type (manager db) (proj1 Ho) Hn Hcc Hty) as Hb.
  destruct (beginTransaction cc type (manager db)) as [[id|e] tm]; cbn [fst snd];
    destruct Hb as (Hinv' & Hids & Hlast).
  - exists id. apply at_ctx_set.
    + eapply others_step; [exact Ho|exact Hinv'|]. intros i c' _ _ Hi. rewrite Hids.
      apply elem_of_app. auto.
    + change (context c (MkDatabase (contexts db) tm)) with (context c db). rewrite Hc. reflexivity.
    + intros i [= <-]. split; [cbn; rewrite Hids; apply elem_of_app; right; left|].
      intros c' Hne Hf. apply Hlast. destruct Ho as (_ & _ & Hl). eapply Hl; eauto.
  - split; [exact Hlast|]. split_and!; [|exact Hc|intros i [=]].
    eapply others_step; [exact Ho|exact Hinv'|]. intros i c' _ _. rewrite Hids. auto.
Qed.

(** The connection's own transaction leaves: the others keep theirs. *)
Lemma others_leave n n' db tm ctx id :
  others n db → own ctx db → activeTransaction ctx = Some id → inv multi n' tm →
  ids tm = without id (ids (manager db)) → others n' (MkDatabase (contexts db) tm).
Proof.
  intros Ho Hown Hid Hinv' Hids. eapply others_step; [exact Ho|exact Hinv'|].
  intros i c' Hne Hf Hi. rewrite Hids. apply elem_of_without. split; [exact Hi|].
  intros ->. destruct (Hown id Hid) as [_ Hno]. exact (Hno c' Hne Hf).
Qed.

Lemma clearTransaction_at n db : others n db →
  ∃ db', clearTransaction c db = (Ok tt, db') ∧ at_ctx n TransactionContext_new db'.
Proof.
  intros Ho. eexists. split; [reflexivity|]. apply at_ctx_set; [exact Ho|reflexivity|].
  intros i [=].
Qed.

Lemma commit_at n cc md id :
  n < 2 ^ 62 →
  triple (at_ctx n (MkTransactionContext md (Some id))) (TransactionContext.commit c cc)
    (λ _, at_ctx (n + 1) TransactionContext_new)
    (λ e db, benign e ∧ others (n + 1) db ∧
       (is_checkpoint_exn e = false → at_ctx (n + 1) (MkTransactionContext md (Some id)) db)).
Proof.
  intros Hn db (Ho & Hc & Hown). unfold TransactionContext.commit.
  rewrite get_context_bind, Hc. cbn [activeTransaction].
  destruct (Hown id eq_refl) as [Hin Hno].
  pose proof (commit_ids n cc (manager db) id (proj1 Ho) Hn Hin) as Hids.
  pose proof (commit_inv multi n cc id (manager db) Hn (proj1 Ho)) as Hinv'. unfold state_of in Hinv'.
  unfold mbind, M_bind. rewrite on_manager_eq.
  destruct (TransactionManager.commit cc id (manager db)) as [[a|e] tm]; cbn [fst snd] in *.
  - assert (Ho' : others (n + 1) (MkDatabase (contexts db) tm)) by (eapply others_leave; eauto).
    destruct (clearTransaction_at _ _ Ho') as (db' & -> & Hat). exact Hat.
  - destruct Hids as (Hb & Hcases). split; [exact Hb|].
    assert (Ho' : others (n + 1) (MkDatabase (contexts db) tm)).
    { destruct Hcases as [Heq|(_ & Heq)]; [|eapply others_leave; eauto].
      eapply others_step; [exact Ho|exact Hinv'|]. intros i c' _ _. rewrite Heq. auto. }
    split; [exact Ho'|]. intros Hcp. destruct Hcases as [Heq|(Hcp' & _)]; [|congruence].
    split_and!; [exact Ho'|exact Hc|]. intros i [= <-]. split; [cbn; rewrite Heq; exact Hin|exact Hno].
Qed.

Lemma rollback_at n db ctx :
  at_ctx n ctx db →
  ∃ db', TransactionContext.rollback c db = (Ok tt, db') ∧
    at_ctx (n + 1) (match activeTransaction ctx with
                    | Some _ => TransactionContext_new | None => ctx end) db'.
Proof.
  intros (Ho & Hc & Hown). unfold TransactionContext.rollback.
  rewrite get_context_bind, Hc.
  destruct (activeTransaction ctx) as [id|] eqn:Hid.
  - destruct (Hown id Hid) as [Hin _].
    destruct (rollback_ids n (manager db) id (proj1 Ho) Hin) as (tm & Hr & Hids).
    pose proof (rollback_inv multi n id (manager db) (proj1 Ho)) as Hinv'. unfold state_of in Hinv'.
    rewrite Hr in Hinv'. unfold mbind, M_bind. rewrite on_manager_eq, Hr. cbn [fst snd] in *.
    apply clearTransaction_at. eapply others_leave; eauto.
  - exists db. split; [reflexivity|]. apply (at_ctx_weaken n); [|lia]. split_and!; assumption.
Qed.

(** ** Running a function in a transaction *)

(** The body threw [e] with the connection in one of the contexts [K]. *)
Definition failed (n : Z) (K : TransactionContext → Prop) (e : exn) (db : Database E) : Prop :=
  benign e ∧ others n db ∧ (is_checkpoint_exn e = false → ∃ ctx, K ctx ∧ at_ctx n ctx db).

(** After the handlers: no transaction is left, or there was none. *)
Definition recovered (n : Z) (K : TransactionContext → Prop) (e : exn) (db : Database E) : Prop :=
  benign e ∧ ∃ ctx, at_ctx n ctx db ∧
    (ctx = TransactionContext_new ∨ K ctx ∧ activeTransaction ctx = None).

Lemma failed_weaken n n' (K K' : TransactionContext → Prop) e db :
  failed n K e db → n ≤ n' → (∀ ctx, K ctx → K' ctx) → failed n' K' e db.
Proof.
  intros (Hb & Ho & Hk) Hn HK. split_and!; [exact Hb|eapply others_weaken; eassumption|].
  intros Hcp. destruct (Hk Hcp) as (ctx & ? & ?). exists ctx.
  split; [auto|eapply at_ctx_weaken; eassumption].
Qed.

Lemma failed_at n (K : TransactionContext → Prop) ctx e db :
  benign e → at_ctx n ctx db → K ctx → failed n K e db.
Proof. intros Hb Hat HK. split_and!; [exact Hb|apply Hat|eauto]. Qed.

Lemma recovered_weaken n n' (K K' : TransactionContext → Prop) e db :
  recovered n K e db → n ≤ n' → (∀ ctx, K ctx → K' ctx) → recovered n' K' e db.
Proof.
  intros (Hb & ctx & Hat & Hc) Hn HK. split; [exact Hb|]. exists ctx.
  split; [eapply at_ctx_weaken; eassumption|]. destruct Hc as [?|[? ?]]; auto.
Qed.

Lemma handlers_recover n K e db :
  failed n K e db →
  (is_checkpoint_exn e = true → ∃ db', (clearTransaction c ;; raise (A := unit) e) db = (Throw e, db') ∧
     recovered (n + 1) K e db') ∧
  (is_checkpoint_exn e = false →
     ∃ db', (TransactionContext.rollback c ;; raise (A := unit) e) db = (Throw e, db') ∧
     recovered (n + 1) K e db').
Proof.
  intros (Hb & Ho & Hk). split; intros Hcp.
  - destruct (clearTransaction_at _ _ Ho) as (db' & Hr & Hat). exists db'.
    rewrite (M_bind_ok _ _ _ _ _ Hr). split; [reflexivity|]. split; [exact Hb|].
    exists TransactionContext_new. split; [eapply at_ctx_weaken; [exact Hat|lia]|left; reflexivity].
  - destruct (Hk Hcp) as (ctx & HK & Hat). destruct (rollback_at _ _ _ Hat) as (db' & Hr & Hat').
    exists db'. rewrite (M_bind_ok _ _ _ _ _ Hr). split; [reflexivity|]. split; [exact Hb|].
    eexists. split; [exact Hat'|]. destruct (activeTransaction ctx) eqn:Ha; auto.
Qed.

Lemma try_catch_at n Pre body Q K :
  triple Pre body Q (failed n K) →
  triple Pre (try_catch body (clearTransaction c) (TransactionContext.rollback c)) Q
    (recovered (n + 1) K).
Proof.
  intros Hbody db HP. specialize (Hbody db HP). unfold try_catch.
  destruct (body db) as [[a|e] db']; [exact Hbody|].
  destruct (handlers_recover _ _ _ _ Hbody) as [Hc Hr]. destruct Hbody as [Hb _].
  destruct e; cbn in Hb; try contradiction; cbn [is_checkpoint_exn] in *;
    first [destruct (Hr eq_refl) as (db'' & -> & ?) | destruct (Hc eq_refl) as (db'' & -> & ?)];
    assumption.
Qed.

(** What [runFuncInTransaction] runs inside the handlers. *)
Definition func_body (cc : ClientContext) (fn : M (Database E) unit) (new : bool)
    (action : TransactionCommitAction) : M (Database E) unit :=
  fn ;;
  ctx' ← get_context c;
  if (new && commitIfNew action) || (isAutoTransaction ctx' && commitIfAuto action)
  then TransactionContext.commit c cc else mret tt.

(** With a transaction, or for a transaction statement, the function runs as it is. *)
Lemma runFunc_current n cc ctx fn ro isT action Q K :
  isAutoTransaction ctx || hasActiveTransaction ctx = true →
  isAutoTransaction ctx && negb (hasActiveTransaction ctx) && negb isT = false →
  triple (at_ctx n ctx) (func_body cc fn false action) Q (failed (n + 2) K) →
  triple (at_ctx n ctx) (runFuncInTransaction c cc fn ro isT action) Q (recovered (n + 3) K).
Proof.
  intros Hok Hcur Hbody db Hat. unfold runFuncInTransaction. rewrite get_context_bind.
  destruct Hat as (Ho & Hc & Hown). rewrite Hc, Hok. cbv zeta. rewrite Hcur.
  unfold ku_assert. rewrite !(M_bind_ok (mret tt) _ db tt db) by reflexivity.
  replace (n + 3) with (n + 2 + 1) by lia.
  apply (try_catch_at (n + 2) _ _ Q K Hbody). split_and!; assumption.
Qed.

(** Without one, a transaction of the statement's own begins first. *)
Lemma runFunc_new n cc fn ro action Q K :
  n < 2 ^ 62 → enableMultiWrites cc = multi → K TransactionContext_new →
  (∀ id, triple (at_ctx (n + 1) (MkTransactionContext AUTO (Some id)))
    (func_body cc fn true action) Q (failed (n + 2) K)) →
  triple (at_ctx n TransactionContext_new) (runFuncInTransaction c cc fn ro false action) Q
    (recovered (n + 3) K).
Proof.
  intros Hn Hcc HK Hbody db Hat. unfold runFuncInTransaction. rewrite get_context_bind.
  pose proof Hat as (Ho & Hc & Hown). rewrite Hc. cbv zeta.
  change (isAutoTransaction TransactionContext_new) with true.
  change (hasActiveTransaction TransactionContext_new) with false. cbn [orb andb negb].
  rewrite (M_bind_ok (ku_assert true) _ db tt db) by reflexivity. unfold beginAutoTransaction.
  rewrite M_bind_assoc, get_context_bind, Hc.
  change (hasActiveTransaction TransactionContext_new) with false. cbn iota.
  rewrite M_bind_assoc, (M_bind_ok (mret tt) _ db tt db) by reflexivity.
  assert (Hty : ∀ b : bool, let t := if b then READ_ONLY else WRITE in
                  t = READ_ONLY ∨ t = WRITE ∨ t = RECOVERY) by (intros []; auto).
  pose proof (begin_at n cc _ AUTO Hn Hcc (Hty ro) db Hat) as Hb.
  unfold mbind at 1, M_bind at 1.
  destruct (beginTransactionInternal _ _ _ db) as [[[]|e] db'].
  - destruct Hb as (id & Hat'). replace (n + 3) with (n + 2 + 1) by lia.
    exact (try_catch_at (n + 2) _ _ Q K (Hbody id) db' Hat').
  - destruct Hb as (Hb & Hat'). split; [exact Hb|]. eexists.
    split; [eapply at_ctx_weaken; [exact Hat'|lia]|]. left. reflexivity.
Qed.

(** ** Preparing and executing a statement *)

(** Between statements: no transaction, or a manual one. *)
Definition resting (ctx : TransactionContext) : Prop :=
  ctx = TransactionContext_new ∨ ∃ id, ctx = MkTransactionContext MANUAL (Some id).

(** Contexts whose transaction a rollback takes back to [TransactionContext_new]. *)
Definition restorable (ctx : TransactionContext) : Prop :=
  ctx = TransactionContext_new ∨ ∃ md id, ctx = MkTransactionContext md (Some id).

Lemma resting_restorable ctx : resting ctx → restorable ctx.
Proof. intros [->|(id & ->)]; [left; reflexivity|right; eauto]. Qed.
Lemma restorable_some md id : restorable (MkTransactionContext md (Some id)).
Proof. right. eauto. Qed.
Hint Resolve resting_restorable restorable_some : kuzu.

(** A statement ended with [e] and the connection at rest. *)
Definition ended (n : Z) (e : exn) (db : Database E) : Prop :=
  benign e ∧ ∃ ctx, resting ctx ∧ at_ctx n ctx db.

Lemma recovered_ended n n' e db : recovered n restorable e db → n ≤ n' → ended n' e db.
Proof.
  intros (Hb & ctx & Hat & Hc) Hn. split; [exact Hb|]. exists ctx.
  split; [|eapply at_ctx_weaken; eassumption].
  destruct Hc as [->|([->|(md & id & ->)] & Ha)]; [left; reflexivity..|discriminate].
Qed.

(** A function that does not touch the connection's context. *)
Definition keeps (n : Z) (ctx : TransactionContext) (fn : M (Database E) unit) : Prop :=
  triple (at_ctx n ctx) fn (λ _, at_ctx n ctx) (λ e db, benign e ∧ at_ctx n ctx db).

Lemma func_body_at n cc fn new action ctx (b : bool) :
  (new && commitIfNew action) || (isAutoTransaction ctx && commitIfAuto action) = b →
  (b = true → ∃ md id, ctx = MkTransactionContext md (Some id)) →
  restorable ctx → n < 2 ^ 62 → keeps n ctx fn →
  triple (at_ctx n ctx) (func_body cc fn new action)
    (λ _, at_ctx (n + 1) (if b then TransactionContext_new else ctx)) (failed (n + 1) restorable).
Proof.
  intros Hb Hact Hres Hn Hfn. apply (triple_bind _ _ _ (λ _, at_ctx n ctx)).
  - eapply triple_conseq; [exact Hfn|auto|auto|]. intros e db (He & Hat).
    apply (failed_at _ _ ctx); [exact He| |exact Hres]. apply (at_ctx_weaken n); [exact Hat|lia].
  - intros _ db Hat. rewrite get_context_bind. pose proof Hat as (_ & -> & _). rewrite Hb.
    destruct b; [|apply (at_ctx_weaken n); [exact Hat|lia]].
    destruct (Hact eq_refl) as (md & id & ->).
    pose proof (commit_at n cc md id Hn db Hat) as Hc.
    destruct (TransactionContext.commit c cc db) as [[a|e] db']; [exact Hc|].
    destruct Hc as (Hbe & Ho & Hk). split_and!; [exact Hbe|exact Ho|].
    intros Hcp. eexists. split; [|exact (Hk Hcp)]. auto with kuzu.
Qed.

Lemma keeps_engine_work n ctx m : benign_op m → keeps n ctx (engine_work m).
Proof. intros Hm. apply engine_work_at, Hm. Qed.

(** A function that keeps the context, run in the current transaction. *)
Lemma current_at n cc ctx fn ro isT action (b : bool) :
  isAutoTransaction ctx || hasActiveTransaction ctx = true →
  isAutoTransaction ctx && negb (hasActiveTransaction ctx) && negb isT = false →
  isAutoTransaction ctx && commitIfAuto action = b →
  (b = true → ∃ md id, ctx = MkTransactionContext md (Some id)) →
  restorable ctx → n < 2 ^ 62 → keeps n ctx fn →
  triple (at_ctx n ctx) (runFuncInTransaction c cc fn ro isT action)
    (λ _, at_ctx (n + 2) (if b then TransactionContext_new else ctx)) (ended (n + 3)).
Proof.
  intros H1 H2 Hb Hact Hres Hn Hfn.
  apply (triple_conseq (at_ctx n ctx) _ _
    (λ _, at_ctx (n + 1) (if b then TransactionContext_new else ctx)) _ (recovered (n + 3) restorable)).
  - apply runFunc_current; [exact H1|exact H2|].
    apply (triple_conseq (at_ctx n ctx) _ _
      (λ _, at_ctx (n + 1) (if b then TransactionContext_new else ctx)) _ (failed (n + 1) restorable)).
    + apply func_body_at; assumption.
    + auto.
    + auto.
    + intros e db Hf. eapply failed_weaken; [exact Hf|lia|auto].
  - auto.
  - intros a db Hat. apply (at_ctx_weaken (n + 1)); [exact Hat|lia].
  - intros e db Hr. eapply recovered_ended; [exact Hr|lia].
Qed.

(** A function that keeps the context, run in a transaction of its own. *)
Lemma new_at n cc fn ro action (b : bool) :
  n + 1 < 2 ^ 62 → enableMultiWrites cc = multi →
  commitIfNew action || commitIfAuto action = b →
  (∀ id, keeps (n + 1) (MkTransactionContext AUTO (Some id)) fn) →
  triple (at_ctx n TransactionContext_new) (runFuncInTransaction c cc fn ro false action)
    (λ _ db, ∃ id, at_ctx (n + 2)
       (if b then TransactionContext_new else MkTransactionContext AUTO (Some id)) db)
    (ended (n + 3)).
Proof.
  intros Hn Hcc Hb Hfn.
  eapply (triple_conseq (at_ctx n TransactionContext_new) _ _ _ _ (recovered (n + 3) restorable));
    [|auto|intros a db HQ; exact HQ|intros e db Hr; eapply recovered_ended; [exact Hr|lia]].
  apply runFunc_new; [lia|exact Hcc|left; reflexivity|]. intros id.
  replace (n + 2) with (n + 1 + 1) by lia.
  eapply triple_post;
    [apply (func_body_at (n + 1) cc fn true action (MkTransactionContext AUTO (Some id)) b)|];
    [exact Hb|eauto|auto with kuzu|lia|apply Hfn|].
  intros a db Hat. exists id. exact Hat.
Qed.

(** The analysis of a statement leaves the context as it was. *)
Lemma analysis_at n cc ctx m :
  n + 2 < 2 ^ 62 → enableMultiWrites cc = multi → benign_op m → resting ctx →
  triple (at_ctx n ctx) (runFuncInTransaction c cc (engine_work m) true false COMMIT_IF_NEW)
    (λ _, at_ctx (n + 2) ctx) (ended (n + 3)).
Proof.
  intros Hn Hcc Hm [->|(id & ->)].
  - eapply triple_post.
    + apply (new_at n cc _ true COMMIT_IF_NEW true); [lia|exact Hcc|reflexivity|].
      intros id. apply keeps_engine_work, Hm.
    + intros a db [id Hat]. exact Hat.
  - apply (current_at n cc (MkTransactionContext MANUAL (Some id)) _ true false COMMIT_IF_NEW false);
      [reflexivity..|discriminate|auto with kuzu|lia|apply keeps_engine_work, Hm].
Qed.

(** The context in which a statement runs. *)
Definition bound (isT : bool) (ctx ctx' : TransactionContext) : Prop :=
  if isAutoTransaction ctx && negb isT then ∃ id, ctx' = MkTransactionContext AUTO (Some id)
  else ctx' = ctx.

Lemma bind_at n cc ctx m ro isT :
  n + 2 < 2 ^ 62 → enableMultiWrites cc = multi → benign_op m → resting ctx →
  triple (at_ctx n ctx) (runFuncInTransaction c cc (engine_work m) ro isT (getAction false false))
    (λ _ db, ∃ ctx', bound isT ctx ctx' ∧ at_ctx (n + 2) ctx' db) (ended (n + 3)).
Proof.
  intros Hn Hcc Hm Hres.
  destruct (decide (ctx = TransactionContext_new ∧ isT = false)) as [[-> ->]|Hcur].
  - eapply triple_post.
    + apply (new_at n cc _ ro NOT_COMMIT false); [lia|exact Hcc|reflexivity|].
      intros id. apply keeps_engine_work, Hm.
    + intros a db (id & Hat). eexists. split; [|exact Hat]. exists id. reflexivity.
  - assert (Hb : bound isT ctx ctx ∧
      isAutoTransaction ctx && negb (hasActiveTransaction ctx) && negb isT = false).
    { destruct Hres as [->|(id & ->)]; [|split; reflexivity].
      destruct isT; [split; reflexivity|tauto]. }
    eapply triple_post.
    + apply (current_at n cc ctx _ ro isT NOT_COMMIT false);
        [destruct Hres as [->|(id & ->)]; reflexivity|apply Hb|cbn; apply andb_false_r|discriminate|
         auto with kuzu|lia|apply keeps_engine_work, Hm].
    + intros a db Hat. exists ctx. split; [apply Hb|exact Hat].
Qed.

Lemma validate_at n ctx w ro req :
  resting ctx →
  triple (at_ctx n ctx) (validateTransaction c w ro req) (λ _, at_ctx n ctx) (ended n).
Proof.
  intros Hres db Hat. unfold validateTransaction.
  assert (Hend : ∀ e, benign e → ended n e db) by (intros e He; split; eauto).
  unfold mbind at 1, M_bind at 1. destruct (negb w && negb ro); cbn [raise mret M_ret];
    [apply Hend; exact I|].
  unfold mret, M_ret. rewrite get_context_bind. pose proof Hat as (Ho & -> & Hown).
  destruct Hres as [->|(id & ->)]; [rewrite andb_false_r; exact Hat|].
  change (hasActiveTransaction _) with true. rewrite andb_true_r. destruct req; [|exact Hat].
  rewrite (M_bind_ok _ _ db tt db) by reflexivity. unfold validateManualTransaction.
  rewrite get_context_bind. pose proof Hat as (_ & -> & _).
  rewrite (M_bind_ok _ _ db tt db) by reflexivity. cbn [activeTransaction].
  destruct (Hown id eq_refl) as [Hin _].
  destruct (ids_find _ _ _ (proj1 Ho) Hin) as (t & _ & Hf).
  unfold mbind, M_bind. rewrite on_manager_eq, (deref_eq _ _ _ Hf). cbn [fst snd].
  destruct db as [ctxs tm]. cbn [contexts manager] in *.
  destruct (isReadOnly t && negb ro); cbn [raise]; [apply Hend; exact I|exact Hat].
Qed.

(** [setForceCheckpoint] finds the transaction. *)
Lemma keeps_force n md id : keeps n (MkTransactionContext md (Some id)) (force_checkpoint c).
Proof.
  intros db (Ho & Hc & Hown). unfold force_checkpoint. rewrite get_context_bind, Hc.
  cbn [activeTransaction]. destruct (Hown id eq_refl) as [Hin Hno].
  destruct (ids_find _ _ _ (proj1 Ho) Hin) as (t & _ & Hf).
  rewrite on_manager_eq, (M_bind_ok _ _ _ _ _ (deref_eq _ _ _ Hf)).
  assert (Hids : ids (update_transaction id setForceCheckpoint (manager db)).2 = ids (manager db)).
  { unfold ids. cbn. apply write_txn_ids. auto with kuzu. }
  assert (Hinv : inv multi n (state_of (update_transaction id setForceCheckpoint) (manager db))).
  { eapply triple_state; [|apply Ho]. apply update_transaction_flag; [auto with kuzu|reflexivity]. }
  cbn [fst]. split_and!; [|exact Hc|].
  - eapply others_step; [exact Ho|exact Hinv|]. intros i c' _ _. rewrite Hids. auto.
  - intros i [= <-]. cbn [manager]. rewrite Hids. split; [exact Hin|exact Hno].
Qed.

Lemma keeps_query n md id st cc :
  transactionAction st = None → benign_op (execute st) →
  keeps n (MkTransactionContext md (Some id)) (execute_body c cc st).
Proof.
  intros Hst Hex. unfold execute_body. rewrite Hst.
  apply (triple_bind _ _ _ (λ _, at_ctx n (MkTransactionContext md (Some id)))).
  - destruct (isCopyFrom st); [apply keeps_force|]. intros db Hat. exact Hat.
  - intros _. apply keeps_engine_work, Hex.
Qed.

(** The context a refused [BEGIN] leaves. *)
Definition wedged (action : TransactionAction) (ctx : TransactionContext) : Prop :=
  (action = BEGIN_READ ∨ action = BEGIN_WRITE) ∧ ctx = MkTransactionContext MANUAL None.

Lemma begin_manual_at n cc type :
  n < 2 ^ 62 → enableMultiWrites cc = multi → type = READ_ONLY ∨ type = WRITE →
  triple (at_ctx n TransactionContext_new)
    (modify (set_context c (set_mode MANUAL)) ;; beginTransactionInternal c cc type)
    (λ _ db, ∃ ctx', resting ctx' ∧ at_ctx (n + 1) ctx' db)
    (failed (n + 1) (λ ctx, ctx = MkTransactionContext MANUAL None)).
Proof.
  intros Hn Hcc Hty.
  apply (triple_bind _ _ _ (λ _, at_ctx n (MkTransactionContext MANUAL None))).
  - apply triple_modify. intros db (Ho & Hc & _).
    apply at_ctx_set; [exact Ho|rewrite Hc; reflexivity|intros i [=]].
  - intros _. eapply triple_conseq; [apply (begin_at n cc type MANUAL Hn Hcc)| | |].
    + destruct Hty; auto.
    + intros db Hat. exact Hat.
    + intros a db (id & Hat). eexists. split; [right; eauto|exact Hat].
    + intros e db (Hb & Hat). eapply failed_at; [exact Hb|exact Hat|reflexivity].
Qed.

Lemma checkpoint_at n cc ctx :
  triple (at_ctx n ctx) (on_manager (TransactionManager.checkpoint cc)) (λ _, at_ctx n ctx)
    (failed n (λ ctx', ctx' = ctx)).
Proof.
  intros db Hat. pose proof Hat as (Ho & Hc & Hown). rewrite on_manager_eq.
  unfold TransactionManager.checkpoint.
  destruct (isInMemory cc); [destruct db; exact Hat|].
  rewrite checkpoint_eq by apply (inv_timeout _ _ _ (proj1 Ho)).
  assert (Hres : ∀ s, at_ctx n ctx (MkDatabase (contexts db) (set_engine s (manager db)))).
  { intros s. split_and!; [|exact Hc|exact Hown].
    eapply others_step; [exact Ho|apply inv_engine, Ho|auto]. }
  destruct (checkpoint_result (manager db)) as [[a|e] tm] eqn:Hcp; cbn [fst snd].
  - apply checkpoint_result_ok in Hcp as (s & ->). apply Hres.
  - apply checkpoint_result_benign in Hcp as (Hb & _ & s & ->).
    eapply failed_at; [exact Hb|apply Hres|reflexivity].
Qed.

(** Splits the run an instance of a triple is about. *)
Ltac destruct_run Hb :=
  match type of Hb with (match ?run with _ => _ end) => destruct run as [[?|?] ?] end.

Lemma operator_at n cc ctx action :
  n < 2 ^ 62 → enableMultiWrites cc = multi → resting ctx →
  triple (at_ctx n ctx) (transaction_operator c cc action)
    (λ _ db, ∃ ctx', resting ctx' ∧ at_ctx (n + 1) ctx' db)
    (failed (n + 1) (λ ctx', restorable ctx' ∨ wedged action ctx')).
Proof.
  intros Hn Hcc Hres db Hat. unfold transaction_operator. rewrite get_context_bind.
  pose proof Hat as (Ho & -> & Hown).
  assert (Hfail : ∀ e, benign e → failed (n + 1) (λ ctx', restorable ctx' ∨ wedged action ctx') e db).
  { intros e He. apply (failed_at _ _ ctx); [exact He|apply (at_ctx_weaken n); [exact Hat|lia]|].
    left. auto with kuzu. }
  destruct Hres as [->|(id & ->)], action; try (apply Hfail; exact I);
    rewrite (M_bind_ok _ _ db tt db) by reflexivity.
  - pose proof (begin_manual_at n cc READ_ONLY Hn Hcc (or_introl eq_refl) db Hat) as Hb.
    unfold beginReadTransaction. destruct_run Hb; [exact Hb|].
    eapply failed_weaken; [exact Hb|lia|]. intros ctx ->. right. split; auto.
  - pose proof (begin_manual_at n cc WRITE Hn Hcc (or_intror eq_refl) db Hat) as Hb.
    unfold beginWriteTransaction. destruct_run Hb; [exact Hb|].
    eapply failed_weaken; [exact Hb|lia|]. intros ctx ->. right. split; auto.
  - pose proof (checkpoint_at n cc _ db Hat) as Hb. destruct_run Hb.
    + eexists. split; [left; reflexivity|apply (at_ctx_weaken n); [exact Hb|lia]].
    + eapply failed_weaken; [exact Hb|lia|]. intros ctx ->. left. left. reflexivity.
  - pose proof (commit_at n cc MANUAL id Hn db Hat) as Hb.
    destruct (TransactionContext.commit c cc db) as [[a|e] db'].
    + eexists. split; [left; reflexivity|exact Hb].
    + destruct Hb as (Hbe & Ho' & Hk). split_and!; [exact Hbe|exact Ho'|]. intros Hcp.
      eexists. split; [|exact (Hk Hcp)]. left. auto with kuzu.
  - destruct (rollback_at n db _ Hat) as (db' & -> & Hat'). eexists. split; [left; reflexivity|exact Hat'].
Qed.

Lemma try_result_eq P m Q R db :
  triple P m Q R → (∀ e db', R e db' → benign e) → P db →
  ∃ r db', try_result m db = (Ok r, db') ∧
    match r with None => Q tt db' | Some e => R e db' end.
Proof.
  intros Hm Hben HP. specialize (Hm db HP). unfold try_result.
  destruct (m db) as [[[]|e] db']; [exists None; eauto|]. pose proof (Hben _ _ Hm) as Hb.
  destruct e; try contradiction; eexists (Some _), db'; (split; [reflexivity|exact Hm]).
Qed.

(** How a statement ends: [r] is its error, and only a refused [BEGIN] leaves the connection in manual
    mode without a transaction. *)
Definition finished (n : Z) (st : Statement E) (r : option exn) (db : Database E) : Prop :=
  (∀ e, r = Some e → benign e) ∧
  ∃ ctx, at_ctx n ctx db ∧
    (resting ctx ∨ ∃ a, transactionAction st = Some a ∧ wedged a ctx ∧ r ≠ None).

Lemma ended_finished n n' st e db : ended n e db → n ≤ n' → finished n' st (Some e) db.
Proof.
  intros (Hb & ctx & Hres & Hat) Hn. split; [intros e' [= <-]; exact Hb|]. exists ctx.
  split; [eapply at_ctx_weaken; eassumption|left; exact Hres].
Qed.

Lemma execute_query_at n cc ctx0 ctx st db :
  n + 3 < 2 ^ 62 → resting ctx0 → bound false ctx0 ctx → benign_op (execute st) →
  transactionAction st = None → at_ctx n ctx db →
  ∃ r db', executeNoLock c cc st None db = (Ok r, db') ∧ finished (n + 3) st r db'.
Proof.
  intros Hn Hres Hb Hex Hst Hat. unfold executeNoLock, requireTransaction. rewrite Hst. cbn [negb].
  pose (b := isAutoTransaction ctx).
  assert (Hctx : ∃ md id, ctx = MkTransactionContext md (Some id)).
  { destruct Hres as [->|(id & ->)]; [destruct Hb as (id & ->); eauto|]. rewrite Hb. eauto. }
  assert (Hfin : resting (if b then TransactionContext_new else ctx)).
  { subst b. destruct Hctx as ([] & id & ->); [left; reflexivity|right; eauto]. }
  pose proof (current_at n cc ctx (execute_body c cc st) (readOnly st) false COMMIT_NEW_OR_AUTO b)
    as Hrun.
  edestruct (try_result_eq (at_ctx n ctx)) as (r & db' & Hr & Hpost);
    [apply Hrun|intros e db' He; exact (proj1 He)|exact Hat|].
  - destruct Hctx as (md & id & ->). apply orb_true_r.
  - destruct Hctx as (md & id & ->). cbn. rewrite andb_false_r. reflexivity.
  - apply andb_true_r.
  - intros _. exact Hctx.
  - destruct Hctx as (md & id & ->). auto with kuzu.
  - lia.
  - destruct Hctx as (md & id & ->). apply keeps_query; assumption.
  - exists r, db'. split; [exact Hr|]. destruct r as [e|].
    + eapply ended_finished; [exact Hpost|lia].
    + split; [discriminate|]. eexists. split; [eapply at_ctx_weaken; [exact Hpost|lia]|left; exact Hfin].
Qed.

Lemma execute_transaction_at n cc ctx st a db :
  n + 3 < 2 ^ 62 → enableMultiWrites cc = multi → resting ctx →
  transactionAction st = Some a → at_ctx n ctx db →
  ∃ r db', executeNoLock c cc st None db = (Ok r, db') ∧ finished (n + 3) st r db'.
Proof.
  intros Hn Hcc Hres Hst Hat. unfold executeNoLock, requireTransaction. rewrite Hst. cbn [negb].
  pose (K := λ ctx', restorable ctx' ∨ wedged a ctx').
  assert (Hbody : triple (at_ctx n ctx) (func_body cc (execute_body c cc st) false COMMIT_IF_NEW)
            (λ _ db, ∃ ctx', resting ctx' ∧ at_ctx (n + 1) ctx' db) (failed (n + 2) K)).
  { apply (triple_bind _ _ _ (λ _ db, ∃ ctx', resting ctx' ∧ at_ctx (n + 1) ctx' db)).
    - unfold execute_body. rewrite Hst. eapply triple_conseq; [apply (operator_at n cc ctx a)| | |];
        [lia|exact Hcc|exact Hres|intros s Hs; exact Hs|intros s a' HQ; exact HQ|].
      intros e s Hf. eapply failed_weaken; [exact Hf|lia|auto].
    - intros _ s HQ. rewrite get_context_bind. cbn [andb commitIfNew commitIfAuto orb].
      rewrite andb_false_r. exact HQ. }
  edestruct (try_result_eq (at_ctx n ctx)) as (r & db' & Hr & Hpost);
    [apply (runFunc_current n cc ctx (execute_body c cc st) (readOnly st) true COMMIT_IF_NEW _ K); [| |exact Hbody]
    |intros e db' He; exact (proj1 He)|exact Hat|].
  - destruct Hres as [->|(id & ->)]; reflexivity.
  - cbn [negb]. apply andb_false_r.
  - exists r, db'. split; [exact Hr|]. destruct r as [e|].
    + destruct Hpost as (Hb & ctx' & Hat' & Hc). split; [intros e' [= <-]; exact Hb|].
      exists ctx'. split; [exact Hat'|].
      destruct Hc as [->|([[->|(md & id & ->)]|Hw] & Ha)]; [left; left; reflexivity..|discriminate|].
      right. exists a. split_and!; [exact Hst|exact Hw|discriminate].
    + destruct Hpost as (ctx' & Hres' & Hat'). split; [discriminate|]. exists ctx'.
      split; [eapply at_ctx_weaken; [exact Hat'|lia]|left; exact Hres'].
Qed.

Lemma ended_weaken n n' e db : ended n e db → n ≤ n' → ended n' e db.
Proof.
  intros (Hb & ctx & Hres & Hat) Hn. split; [exact Hb|]. exists ctx.
  split; [exact Hres|eapply at_ctx_weaken; eassumption].
Qed.

Lemma prepare_at n cc w ctx st db :
  n + 5 < 2 ^ 62 → enableMultiWrites cc = multi → resting ctx →
  benign_op (analyze st) → benign_op (bind st) → at_ctx n ctx db →
  ∃ r db', prepareNoLock c cc w st false db = (Ok r, db') ∧
    match r with
    | None => ∃ ctx', bound (negb (requireTransaction st)) ctx ctx' ∧ at_ctx (n + 4) ctx' db'
    | Some e => ended (n + 5) e db'
    end.
Proof.
  intros Hn Hcc Hres Han Hbi Hat.
  apply (try_result_eq (at_ctx n ctx) _
    (λ _ db, ∃ ctx', bound (negb (requireTransaction st)) ctx ctx' ∧ at_ctx (n + 4) ctx' db));
    [|intros e db' He; exact (proj1 He)|exact Hat].
  apply (triple_bind _ _ _ (λ _, at_ctx (n + 2) ctx)).
  - eapply triple_conseq; [apply (analysis_at n cc ctx)|..];
      [lia|exact Hcc|exact Han|exact Hres|intros s Hs; exact Hs|intros a s HQ; exact HQ|].
    intros e s He. eapply ended_weaken; [exact He|lia].
  - intros _. apply (triple_bind _ _ _ (λ _, at_ctx (n + 2) ctx)).
    + eapply triple_conseq; [apply (validate_at (n + 2) ctx); exact Hres|..];
        [intros s Hs; exact Hs|intros a s HQ; exact HQ|].
      intros e s He. eapply ended_weaken; [exact He|lia].
    + intros _. replace (n + 4) with (n + 2 + 2) by lia. replace (n + 5) with (n + 2 + 3) by lia.
      apply bind_at; [lia|exact Hcc|exact Hbi|exact Hres].
Qed.

Lemma query_at n cc w ctx st db :
  n + 10 < 2 ^ 62 → enableMultiWrites cc = multi → resting ctx →
  benign_op (analyze st) → benign_op (bind st) → benign_op (execute st) → at_ctx n ctx db →
  ∃ r db', query_statement c cc w st db = (Ok r, db') ∧ finished (n + 10) st r db'.
Proof.
  intros Hn Hcc Hres Han Hbi Hex Hat. unfold query_statement.
  destruct (prepare_at n cc w ctx st db ltac:(lia) Hcc Hres Han Hbi Hat) as (r & db1 & Hr & Hpost).
  rewrite (M_bind_ok _ _ _ _ _ Hr). destruct r as [e|].
  - exists (Some e), db1. split; [reflexivity|]. eapply ended_finished; [exact Hpost|lia].
  - destruct Hpost as (ctx' & Hb & Hat').
    assert (Hexe : ∃ r db', executeNoLock c cc st None db1 = (Ok r, db') ∧ finished (n + 4 + 3) st r db').
    { unfold requireTransaction in Hb. destruct (transactionAction st) as [a|] eqn:Hst.
      - unfold bound in Hb. cbn [negb] in Hb. rewrite andb_false_r in Hb. subst ctx'.
        eapply execute_transaction_at; eauto. lia.
      - eapply execute_query_at; eauto. lia. }
    destruct Hexe as (r & db' & Hr' & Hb' & c' & Hc' & Hfin). exists r, db'.
    split; [exact Hr'|]. split; [exact Hb'|]. exists c'.
    split; [eapply at_ctx_weaken; [exact Hc'|lia]|exact Hfin].
Qed.

End OneConnection.

(** ** All connections *)

(** Each connection's transaction runs, and no two connections share one. *)
Definition consistent (n : Z) (db : Database E) : Prop :=
  inv multi n (manager db) ∧
  (∀ c id, activeTransaction (context c db) = Some id → id ∈ ids (manager db)) ∧
  (∀ c c' id, activeTransaction (context c db) = Some id →
    activeTransaction (context c' db) = Some id → c = c').

Lemma consistent_at n c db :
  consistent n db → at_ctx c (λ c', context c' db) n (context c db) db.
Proof.
  intros (Hinv & Hl & Hd). split_and!; [|reflexivity|].
  - split_and!; [exact Hinv|reflexivity|]. intros c' id _. apply Hl.
  - intros id Hid. split; [eapply Hl, Hid|]. intros c' Hne Hid'. apply Hne. eauto.
Qed.

Lemma at_consistent n c f ctx db :
  at_ctx c f n ctx db →
  (∀ c1 c2 id, c1 ≠ c → c2 ≠ c → activeTransaction (f c1) = Some id →
     activeTransaction (f c2) = Some id → c1 = c2) →
  consistent n db.
Proof.
  intros ((Hinv & Hf & Hl) & Hc & Hown) Hd. split_and!; [exact Hinv| |].
  - intros c' id Hid. destruct (decide (c' = c)) as [->|Hne].
    + rewrite Hc in Hid. apply Hown, Hid.
    + rewrite Hf in Hid by exact Hne. eapply Hl; eauto.
  - intros c1 c2 id. destruct (decide (c1 = c)) as [->|H1], (decide (c2 = c)) as [->|H2]; intros Ha Hb.
    + reflexivity.
    + rewrite Hc in Ha. rewrite Hf in Hb by exact H2. destruct (Hown _ Ha) as [_ Hno].
      destruct (Hno _ H2 Hb).
    + rewrite Hc in Hb. rewrite Hf in Ha by exact H1. destruct (Hown _ Hb) as [_ Hno].
      destruct (Hno _ H1 Ha).
    + rewrite Hf in Ha, Hb by assumption. eauto.
Qed.

(** C20. A statement of any connection, prepared and executed on a consistent database whose
    connection is at rest, over an engine that may fail at every call but a rollback's: it returns a
    result or an error that is no failed assertion, it dereferences no transaction that has left, the
    database stays consistent and the other connections' contexts are untouched; and the connection is
    at rest again, unless the statement was a [BEGIN] that was refused. *)
Theorem statement_safe n cc w c st db :
  n + 10 < 2 ^ 62 → enableMultiWrites cc = multi → consistent n db → resting (context c db) →
  benign_op (analyze st) → benign_op (bind st) → benign_op (execute st) →
  ∃ r db', query_statement c cc w st db = (Ok r, db') ∧
    (∀ e, r = Some e → benign e) ∧ consistent (n + 10) db' ∧
    (∀ c', c' ≠ c → context c' db' = context c' db) ∧
    (resting (context c db') ∨
     ∃ a, transactionAction st = Some a ∧ wedged a (context c db') ∧ r ≠ None).
Proof.
  intros Hn Hcc Hcon Hres Han Hbi Hex.
  destruct (query_at c _ n cc w (context c db) st db Hn Hcc Hres Han Hbi Hex (consistent_at _ _ _ Hcon))
    as (r & db' & Hr & Hben & ctx & Hat & Hfin).
  exists r, db'. pose proof Hat as ((_ & Hf & _) & Hc & _).
  split_and!; [exact Hr|exact Hben| |exact Hf|rewrite Hc; exact Hfin].
  eapply at_consistent; [exact Hat|]. intros c1 c2 id _ _. apply Hcon.
Qed.

End Connections.

(** ** Concrete databases *)

Lemma record_call_benign name arg : benign_op (record_call name arg).
Proof.
  intros s e s'. unfold record_call. destruct (String.eqb _ _); [|discriminate].
  intros [= <- _]. exact I.
Qed.

Lemma benign_op_bind {S A B} (m : M S A) (k : A → M S B) :
  benign_op m → (∀ a, benign_op (k a)) → benign_op (m ≫= k).
Proof.
  intros Hm Hk s e s'. unfold mbind, M_bind. destruct (m s) as [[a|e1] s1] eqn:Hs.
  - apply Hk.
  - intros [= <- <-]. eapply Hm, Hs.
Qed.

Lemma trace_engine_well_behaved : well_behaved TraceEngine.
Proof.
  constructor; try (intros; intros s; eexists _, _; reflexivity);
    try (intros; apply record_call_benign).
  intros cc t ts. unfold engine_commit.
  repeat (apply benign_op_bind; [apply record_call_benign|intros _]).
  apply benign_op_bind.
  - destruct (shouldLogToWAL cc t); [|intros s e s' [=]].
    repeat (apply benign_op_bind; [apply record_call_benign|intros _]). apply record_call_benign.
  - intros _. destruct (hasCatalogChanges t); [apply record_call_benign|intros s e s' [=]].
Qed.

Definition new_db (fault : string) : Database TraceEngine := MkDatabase ∅ (new_manager fault).
Definition work (name : string) : Statement TraceEngine :=
  MkStatement None false false (record_call "analyze" 0) (record_call "bind" 0) (record_call name 0).
Definition statement_of (a : TransactionAction) : Statement TraceEngine :=
  MkStatement (Some a) false true (record_call "analyze" 0) (record_call "bind" 0)
    (record_call "" 0).

Lemma new_db_consistent fault : consistent false 0 (new_db fault).
Proof. split_and!; [apply inv_new|intros c id [=]|intros c c' id [=]]. Qed.

(** A write statement whose execution fails: the error is returned, no transaction is left. *)
Lemma statement_safe_witness :
  ∃ db', query_statement 0 disk true (work "insert") (new_db "insert") =
    (Ok (Some (RuntimeException "insert")), db') ∧ consistent false 10 db' ∧
    resting (context 0 db').
Proof.
  destruct (statement_safe trace_engine_well_behaved false 0 disk true 0%nat (work "insert")
    (new_db "insert") ltac:(lia) eq_refl (new_db_consistent _) (or_introl eq_refl)
    (record_call_benign _ _) (record_call_benign _ _) (record_call_benign _ _))
    as (r & db' & Hr & _ & Hcon & _ & Hfin).
  exists db'. assert (Hq : (query_statement 0 disk true (work "insert") (new_db "insert")).1 =
    Ok (Some (RuntimeException "insert"))) by reflexivity.
  rewrite Hr in Hq. cbn [fst] in Hq. rewrite Hr, Hq.
  split_and!; [reflexivity|exact Hcon|]. destruct Hfin as [Hf|(a & [=] & _)]. exact Hf.
Defined.

(** Connection 1 has begun a write transaction; the [BEGIN] of connection 2 is refused. Connection 2 is
    left in manual mode, and its next statement fails the assertion of [runFuncInTransaction] even
    after connection 1 has committed. *)
Lemma refused_begin_wedges :
  let db1 := state_of (query_statement 1 disk true (statement_of BEGIN_WRITE)) (new_db "") in
  let '(r2, db2) := query_statement 2 disk true (statement_of BEGIN_WRITE) db1 in
  let '(r3, db3) := query_statement 1 disk true (statement_of COMMIT) db2 in
  r2 = Ok (Some multi_write_error) ∧ context 2 db2 = MkTransactionContext MANUAL None ∧
  r3 = Ok None ∧ activeTransactions (manager db3) = [] ∧
  result_of (query_statement 2 disk true (work "read")) db3 = Ok (Some assert_failure).
Proof. vm_compute. split_and!; reflexivity. Qed.

End ConnectionSpec.
