(* ===== verification/CatalogSet.v ===== *)
(** * Catalog entries, catalog sets and their undo records

    [CatalogEntry] ([catalog/catalog_entry/catalog_entry.h]), [CatalogSet]
    ([catalog/catalog_set.cpp]), the catalog part of a transaction ([Transaction::push*CatalogEntry]) and
    of the undo buffer ([commitCatalogEntryRecord], [rollbackCatalogEntryRecord]).

    A version chain (the owning [prev] pointers and the [next] back pointers) is a list, newest version
    first. An entry has an address, so that an undo record, which holds a [CatalogEntry*], names an
    object of a chain and not a copy of it. What a table, index or macro entry stores besides the common
    fields is a parameter [P]. *)

From stdpp Require Import base numbers list gmap strings.
From Stdlib Require Import ZArith Lia Ascii.
From S2P Require Import Prelude.

Open Scope Z_scope.

Module CatalogSet.

Inductive CatalogEntryType :=
  | NODE_TABLE_ENTRY | REL_GROUP_ENTRY | FOREIGN_TABLE_ENTRY | SCALAR_MACRO_ENTRY
  | AGGREGATE_FUNCTION_ENTRY | SCALAR_FUNCTION_ENTRY | REWRITE_FUNCTION_ENTRY | TABLE_FUNCTION_ENTRY
  | COPY_FUNCTION_ENTRY | STANDALONE_TABLE_FUNCTION_ENTRY | SEQUENCE_ENTRY | TYPE_ENTRY | INDEX_ENTRY
  | DUMMY_ENTRY.

#[global] Instance CatalogEntryType_eq_dec : EqDecision CatalogEntryType.
Proof. solve_decision. Defined.

Definition INVALID_OID : Z := 18446744073709551615.
Definition INTERNAL_CATALOG_SET_START_OID : Z := 9223372036854775808.

(** [asciiToLowerCaseMap] and the key under which [case_insensitive_map_t] files a name. *)
Definition asciiToLowerCase (a : ascii) : ascii :=
  let n := Ascii.nat_of_ascii a in
  if (65 <=? n)%nat && (n <=? 90)%nat then Ascii.ascii_of_nat (n + 32) else a.
Fixpoint lower (s : string) : string :=
  match s with
  | EmptyString => EmptyString
  | String a s' => String (asciiToLowerCase a) (lower s')
  end.

(** [StringUtils::caseInsensitiveEquals]. *)
Fixpoint caseInsensitiveEquals (l r : string) : bool :=
  match l, r with
  | EmptyString, EmptyString => true
  | String a l', String b r' =>
      bool_decide (asciiToLowerCase a = asciiToLowerCase b) && caseInsensitiveEquals l' r'
  | _, _ => false
  end.

Section Sets.
Context {P : Type}.

Record CatalogEntry := MkEntry {
  address : nat;
  getType : CatalogEntryType;
  getName : string;
  getOID : Z;
  getTimestamp : Z;
  isDeleted : bool;
  hasParent : bool;
  payload : option P;
}.

Definition setOID (oid : Z) (e : CatalogEntry) : CatalogEntry :=
  MkEntry (address e) (getType e) (getName e) oid (getTimestamp e) (isDeleted e) (hasParent e) (payload e).
Definition setTimestamp (ts : Z) (e : CatalogEntry) : CatalogEntry :=
  MkEntry (address e) (getType e) (getName e) (getOID e) ts (isDeleted e) (hasParent e) (payload e).
Definition rename (name : string) (e : CatalogEntry) : CatalogEntry :=
  MkEntry (address e) (getType e) name (getOID e) (getTimestamp e) (isDeleted e) (hasParent e) (payload e).
Definition set_payload (f : option P → option P) (e : CatalogEntry) : CatalogEntry :=
  MkEntry (address e) (getType e) (getName e) (getOID e) (getTimestamp e) (isDeleted e) (hasParent e)
    (f (payload e)).
(** A new object. *)
Definition set_address (a : nat) (e : CatalogEntry) : CatalogEntry :=
  MkEntry a (getType e) (getName e) (getOID e) (getTimestamp e) (isDeleted e) (hasParent e) (payload e).

Definition DummyCatalogEntry (a : nat) (name : string) (oid : Z) : CatalogEntry :=
  MkEntry a DUMMY_ENTRY name oid 0 true false None.

Local Abbreviation chain := (list CatalogEntry).

(** The owning map, and the next free address. *)
Record CatalogSet := MkCatalogSet {
  nextOID : Z;
  entries : gmap string chain;
  next_address : nat;
}.

Definition CatalogSet_new (isInternal_ : bool) : CatalogSet :=
  MkCatalogSet (if isInternal_ then INTERNAL_CATALOG_SET_START_OID else 0) ∅ 0.

Definition isInternal (s : CatalogSet) : bool := INTERNAL_CATALOG_SET_START_OID <=? nextOID s.

(** A [CatalogEntry*]: the object's address, and the key of the chain that owns it. *)
Record EntryPtr := MkPtr { ptr_key : string; ptr_address : nat }.

(** What a transaction records: undo records, oldest first, and its local write-ahead log. *)
Inductive WALRecord :=
  | CreateCatalogEntryRecord (e : CatalogEntry) (isInternal : bool)
  | DropCatalogEntryRecord (oid : Z) (type : CatalogEntryType)
  | AlterCatalogEntryRecord (tableName : string).

(** The transaction that runs the operation, and the set it works on. *)
Record Txn := MkTxn {
  txn_id : Z;
  txn_startTS : Z;
  txn_shouldAppendToUndoBuffer : bool;
  txn_shouldLogToWAL : bool;
}.

Record State := MkState {
  set_ : CatalogSet;
  undo : list EntryPtr;
  hasCatalogChanges : bool;
  localWAL : list WALRecord;
}.

Definition on_set (f : CatalogSet → CatalogSet) (s : State) : State :=
  MkState (f (set_ s)) (undo s) (hasCatalogChanges s) (localWAL s).
Definition set_entries (f : gmap string chain → gmap string chain) (s : CatalogSet) : CatalogSet :=
  MkCatalogSet (nextOID s) (f (entries s)) (next_address s).

(** ** Reading *)

Definition checkWWConflict (t : Txn) (e : CatalogEntry) : bool :=
  ((START_TRANSACTION_ID <=? getTimestamp e) && negb (getTimestamp e =? txn_id t)) ||
  ((getTimestamp e <? START_TRANSACTION_ID) && (txn_startTS t <? getTimestamp e)).

(** The loop over [prev]; [None] is the null pointer at the end of the chain. *)
Fixpoint traverseVersionChainsForTransactionNoLock (id startTS : Z) (c : chain) :
    option CatalogEntry :=
  match c with
  | [] => None
  | e :: c' =>
      if getTimestamp e =? id then Some e
      else if getTimestamp e <=? startTS then Some e
      else traverseVersionChainsForTransactionNoLock id startTS c'
  end.

Fixpoint getCommittedEntryNoLock (c : chain) : option CatalogEntry :=
  match c with
  | [] => None
  | e :: c' => if getTimestamp e <? START_TRANSACTION_ID then Some e else getCommittedEntryNoLock c'
  end.

Definition null_entry : exn := UndefinedBehaviour "null CatalogEntry pointer".

Definition containsEntryNoLock (id startTS : Z) (name : string) (s : CatalogSet) : outcome bool :=
  match entries s !! lower name with
  | None => Ok false
  | Some c =>
      match traverseVersionChainsForTransactionNoLock id startTS c with
      | None => Throw null_entry
      | Some e => Ok (negb (isDeleted e))
      end
  end.

Definition not_exist (name : string) : exn :=
  CatalogException (name +:+ " does not exist in catalog.").
Definition already_exists (name : string) : exn :=
  CatalogException (name +:+ " already exists in catalog.").
Definition create_conflict (name : string) : exn :=
  CatalogException ("Write-write conflict on creating catalog entry with name " +:+ name +:+ ".").

Definition validateExistNoLock (id startTS : Z) (name : string) (s : CatalogSet) : outcome unit :=
  b ← containsEntryNoLock id startTS name s;
  if (b : bool) then Ok tt else Throw (not_exist name).
Definition validateNotExistNoLock (id startTS : Z) (name : string) (s : CatalogSet) : outcome unit :=
  b ← containsEntryNoLock id startTS name s;
  if (b : bool) then Throw (already_exists name) else Ok tt.

Definition getEntryNoLock (id startTS : Z) (name : string) (s : CatalogSet) : outcome CatalogEntry :=
  validateExistNoLock id startTS name s ;;
  match entries s !! lower name ≫= traverseVersionChainsForTransactionNoLock id startTS with
  | None => Throw assert_failure
  | Some e => if isDeleted e then Throw assert_failure else Ok e
  end.

(** The entries a traversal reaches and that are not tombstones. *)
Definition visible_entries (id startTS : Z) (s : CatalogSet) : gmap string CatalogEntry :=
  omap (λ c, e ← traverseVersionChainsForTransactionNoLock id startTS c;
             if isDeleted e then None else Some e) (entries s).

(** [CatalogSet::getEntries]: a traversal that reaches the end of a chain is dereferenced nevertheless. *)
Definition getEntries (id startTS : Z) (s : CatalogSet) : outcome (gmap string CatalogEntry) :=
  if bool_decide (map_Forall (λ _ c, is_Some (traverseVersionChainsForTransactionNoLock id startTS c)) (entries s))
  then Ok (visible_entries id startTS s) else Throw null_entry.

(** [getEntryOfOID] visits the map in an order the hash function determines: [order] lists the chains
    in that order. *)
Fixpoint getEntryOfOID (id startTS oid : Z) (order : list chain) : outcome (option CatalogEntry) :=
  match order with
  | [] => Ok None
  | c :: order' =>
      match head c with
      | None => Throw null_entry
      | Some h =>
          if negb (getOID h =? oid) then getEntryOfOID id startTS oid order'
          else
            match traverseVersionChainsForTransactionNoLock id startTS c with
            | None => Throw null_entry
            | Some e => if isDeleted e then getEntryOfOID id startTS oid order' else Ok (Some e)
            end
      end
  end.

(** ** Writing *)

(** Allocates an entry. *)
Definition fresh : M State nat := λ s,
  (Ok (next_address (set_ s)),
   on_set (λ c, MkCatalogSet (nextOID c) (entries c) (S (next_address c))) s).

Definition getNextOIDNoLock : M State Z := λ s,
  (Ok (nextOID (set_ s)),
   on_set (λ c, MkCatalogSet (uwrap 64 (nextOID c + 1)) (entries c) (next_address c)) s).

Definition emplaceNoLock (e : CatalogEntry) (m : gmap string chain) : gmap string chain :=
  let key := lower (getName e) in
  match m !! key with
  | Some c => <[key := e :: c]> m
  | None => <[key := [e]]> m
  end.

Definition eraseNoLock (name : string) (m : gmap string chain) : gmap string chain :=
  delete (lower name) m.

(** [entries.emplace(name, dummy)], which does nothing when the key is there. *)
Definition emplace_dummy (e : CatalogEntry) (m : gmap string chain) : gmap string chain :=
  let key := lower (getName e) in
  match m !! key with Some _ => m | None => <[key := [e]]> m end.

(** The entry under the new head of a chain, as [getPrev] gives it. *)
Definition getPrev (key : string) : M State EntryPtr := λ s,
  match entries (set_ s) !! key with
  | Some (_ :: o :: _) => (Ok (MkPtr key (address o)), s)
  | _ => (Throw assert_failure, s)
  end.

Definition createEntryNoLock (t : Txn) (entry : CatalogEntry) : M State EntryPtr :=
  s ← get_state;
  observe (λ s, validateNotExistNoLock (txn_id t) (txn_startTS t) (getName entry) (set_ s)) ;;
  let entry := setTimestamp (txn_id t) entry in
  match entries (set_ s) !! lower (getName entry) with
  | Some (existing :: _) =>
      if checkWWConflict t existing then raise (create_conflict (getName entry))
      else if negb (isDeleted existing)
      then raise (CatalogException ("Catalog entry with name " +:+ getName entry +:+ " already exists."))
      else mret tt
  | Some [] => raise null_entry
  | None => mret tt
  end ;;
  a ← fresh;
  modify (on_set (set_entries (emplace_dummy (DummyCatalogEntry a (getName entry) (getOID entry))))) ;;
  modify (on_set (set_entries (emplaceNoLock entry))) ;;
  getPrev (lower (getName entry)).

Definition dropEntryNoLock (t : Txn) (name : string) (oid : Z) : M State EntryPtr :=
  observe (λ s, validateExistNoLock (txn_id t) (txn_startTS t) name (set_ s)) ;;
  a ← fresh;
  let tombstone := setTimestamp (txn_id t) (DummyCatalogEntry a name oid) in
  modify (on_set (set_entries (emplaceNoLock tombstone))) ;;
  getPrev (lower name).

(** ** The transaction's records *)

(** The version above an entry of a chain, [getNext]. *)
Fixpoint find_next (a : nat) (c : chain) : option CatalogEntry :=
  match c with
  | n :: ((o :: _) as c') => if bool_decide (address o = a) then Some n else find_next a c'
  | _ => None
  end.
Definition find_entry (a : nat) (c : chain) : option CatalogEntry :=
  List.find (λ e, bool_decide (address e = a)) c.

(** The message names the type of the older entry. *)
Definition unsupported : exn := RuntimeException "Not supported catalog entry type yet.".

(** The log record [pushCreateDropCatalogEntry] writes for the version [newE] over [oldE]. *)
Definition create_drop_record (oldE newE : CatalogEntry) (isInternal : bool) :
    outcome (option WALRecord) :=
  match getType newE with
  | INDEX_ENTRY | NODE_TABLE_ENTRY | REL_GROUP_ENTRY =>
      if bool_decide (getType oldE = DUMMY_ENTRY) then
        ku_assert_o (isDeleted oldE) ;;
        Ok (Some (CreateCatalogEntryRecord newE isInternal))
      else Throw (RuntimeException "This shouldn't happen. Alter table is not supported.")
  | SEQUENCE_ENTRY =>
      ku_assert_o (bool_decide (getType oldE = DUMMY_ENTRY) && isDeleted oldE) ;;
      if hasParent newE then Ok None else Ok (Some (CreateCatalogEntryRecord newE isInternal))
  | SCALAR_MACRO_ENTRY | TYPE_ENTRY =>
      ku_assert_o (bool_decide (getType oldE = DUMMY_ENTRY) && isDeleted oldE) ;;
      Ok (Some (CreateCatalogEntryRecord newE isInternal))
  | DUMMY_ENTRY =>
      ku_assert_o (isDeleted newE) ;;
      if hasParent oldE then Ok None
      else
        match getType oldE with
        | INDEX_ENTRY | SCALAR_MACRO_ENTRY | NODE_TABLE_ENTRY | REL_GROUP_ENTRY | SEQUENCE_ENTRY =>
            Ok (Some (DropCatalogEntryRecord (getOID oldE) (getType oldE)))
        | SCALAR_FUNCTION_ENTRY | TABLE_FUNCTION_ENTRY | STANDALONE_TABLE_FUNCTION_ENTRY => Ok None
        | _ => Throw unsupported
        end
  | SCALAR_FUNCTION_ENTRY | TABLE_FUNCTION_ENTRY | STANDALONE_TABLE_FUNCTION_ENTRY => Ok None
  | _ => Throw unsupported
  end.

Definition push_undo (p : EntryPtr) : M State unit :=
  modify (λ s, MkState (set_ s) (undo s ++ [p]) true (localWAL s)).
Definition log (r : option WALRecord) : M State unit :=
  modify (λ s, MkState (set_ s) (undo s) (hasCatalogChanges s)
                 (localWAL s ++ match r with Some r => [r] | None => [] end)).

Definition pushCreateDropCatalogEntry (t : Txn) (p : EntryPtr) (isInternal skipLoggingToWAL : bool) :
    M State unit :=
  push_undo p ;;
  if negb (txn_shouldLogToWAL t) || skipLoggingToWAL then mret tt
  else
    s ← get_state;
    let c := default [] (entries (set_ s) !! ptr_key p) in
    match find_entry (ptr_address p) c, find_next (ptr_address p) c with
    | Some oldE, Some newE =>
        r ← observe (λ _, create_drop_record oldE newE isInternal);
        log r
    | _, _ => raise null_entry
    end.

Definition pushAlterCatalogEntry (t : Txn) (p : EntryPtr) (tableName : string) : M State unit :=
  push_undo p ;;
  if txn_shouldLogToWAL t then log (Some (AlterCatalogEntryRecord tableName)) else mret tt.

Definition createEntry (t : Txn) (entry : CatalogEntry) : M State Z :=
  oid ← getNextOIDNoLock;
  a ← fresh;
  p ← createEntryNoLock t (setOID oid (set_address a entry));
  s ← get_state;
  (if txn_shouldAppendToUndoBuffer t
   then pushCreateDropCatalogEntry t p (isInternal (set_ s)) false else mret tt) ;;
  mret oid.

Definition dropEntry (t : Txn) (name : string) (oid : Z) : M State unit :=
  p ← dropEntryNoLock t name oid;
  s ← get_state;
  if txn_shouldAppendToUndoBuffer t
  then pushCreateDropCatalogEntry t p (isInternal (set_ s)) false else mret tt.

(** [BoundAlterInfo]: a rename, an added connection of a relationship table (which takes an oid), or
    another change of the table's definition. *)
Inductive AlterInfo :=
  | RENAME (newName : string)
  | ADD_FROM_TO_CONNECTION (change : Z → option P → option P)
  | ALTER_PROPERTIES (change : option P → option P).

(** [TableCatalogEntry::alter]: a changed copy of the entry. *)
Definition alter (timestamp : Z) (info : AlterInfo) (e : CatalogEntry) : M State CatalogEntry :=
  ku_assert (negb (isDeleted e)) ;;
  a ← fresh;
  let newEntry := set_address a e in
  changed ←
    match info with
    | RENAME newName => mret (rename newName newEntry)
    | ADD_FROM_TO_CONNECTION change =>
        oid ← getNextOIDNoLock; mret (set_payload (change oid) newEntry)
    | ALTER_PROPERTIES change => mret (set_payload change newEntry)
    end;
  mret (setTimestamp timestamp (setOID (getOID e) changed)).

Definition is_table (e : CatalogEntry) : bool :=
  bool_decide (getType e = NODE_TABLE_ENTRY) || bool_decide (getType e = REL_GROUP_ENTRY).

Definition alterTableEntry (t : Txn) (tableName : string) (info : AlterInfo) : M State unit :=
  observe (λ s, validateExistNoLock (txn_id t) (txn_startTS t) tableName (set_ s)) ;;
  entry ← observe (λ s, getEntryNoLock (txn_id t) (txn_startTS t) tableName (set_ s));
  ku_assert (is_table entry) ;;
  newEntry ← alter (txn_id t) info entry;
  let old := MkPtr (lower tableName) (address entry) in
  match info with
  | RENAME _ =>
      dropEntryNoLock t tableName (getOID entry) ;;
      created ← createEntryNoLock t newEntry;
      if txn_shouldAppendToUndoBuffer t then
        pushAlterCatalogEntry t old tableName ;;
        s ← get_state;
        pushCreateDropCatalogEntry t created (isInternal (set_ s)) true
      else mret tt
  | _ =>
      modify (on_set (set_entries (emplaceNoLock newEntry))) ;;
      if txn_shouldAppendToUndoBuffer t then pushAlterCatalogEntry t old tableName else mret tt
  end.

(** ** Undo *)

(** Changes the version above the entry at [a]. *)
Fixpoint stamp_next (a : nat) (ts : Z) (c : chain) : option chain :=
  match c with
  | n :: ((o :: _) as c') =>
      if bool_decide (address o = a) then Some (setTimestamp ts n :: c')
      else cons n <$> stamp_next a ts c'
  | _ => None
  end.
(** Removes it. *)
Fixpoint unlink_next (a : nat) (c : chain) : option chain :=
  match c with
  | n :: ((o :: _) as c') =>
      if bool_decide (address o = a) then Some c' else cons n <$> unlink_next a c'
  | _ => None
  end.

Definition on_chain (f : chain → option chain) (p : EntryPtr) : M CatalogSet unit := λ s,
  match entries s !! ptr_key p with
  | None => (Throw null_entry, s)
  | Some c =>
      match f c with
      | None => (Throw assert_failure, s)
      | Some c' => (Ok tt, set_entries (insert (ptr_key p) c') s)
      end
  end.

(** [UndoBuffer::commitCatalogEntryRecord]. *)
Definition commitCatalogEntryRecord (commitTS : Z) (p : EntryPtr) : M CatalogSet unit :=
  on_chain (stamp_next (ptr_address p) commitTS) p.

(** [UndoBuffer::rollbackCatalogEntryRecord]: a version with a newer one above it is unlinked from the
    chain; the newest is erased with its chain, and the older version put back. *)
Definition rollbackCatalogEntryRecord (p : EntryPtr) : M CatalogSet unit := λ s,
  match entries s !! ptr_key p with
  | None => (Throw null_entry, s)
  | Some c =>
      match c with
      | n :: ((o :: _) as older) =>
          if bool_decide (address o = ptr_address p) then
            (Ok tt, set_entries (λ m, let m := eraseNoLock (getName o) m in
                                      <[lower (getName o) := older]> m) s)
          else on_chain (unlink_next (ptr_address p)) p s
      | _ => (Throw assert_failure, s)
      end
  end.

(** ** Checkpointing *)

Definition is_persisted (e : CatalogEntry) : bool :=
  match getType e with
  | SCALAR_FUNCTION_ENTRY | REWRITE_FUNCTION_ENTRY | AGGREGATE_FUNCTION_ENTRY | COPY_FUNCTION_ENTRY
  | TABLE_FUNCTION_ENTRY | STANDALONE_TABLE_FUNCTION_ENTRY => false
  | _ => true
  end.

(** The entries [serialize] writes, in the order [order] of the map's chains. *)
Fixpoint entriesToSerialize (order : list chain) : outcome (list CatalogEntry) :=
  match order with
  | [] => Ok []
  | c :: order' =>
      match head c with
      | None => Throw null_entry
      | Some h =>
          rest ← entriesToSerialize order';
          if negb (is_persisted h) then Ok rest
          else
            match getCommittedEntryNoLock c with
            | Some e => if isDeleted e then Ok rest else Ok (e :: rest)
            | None => Ok rest
            end
      end
  end.

(** What is written of an entry, and the entry [CatalogEntry::deserialize] makes of it. *)
Record EntryImage := MkImage {
  image_type : CatalogEntryType;
  image_name : string;
  image_oid : Z;
  image_hasParent : bool;
  image_payload : option P;
}.
Definition image (e : CatalogEntry) : EntryImage :=
  MkImage (getType e) (getName e) (getOID e) (hasParent e) (payload e).
Definition serialize (order : list chain) (s : CatalogSet) : outcome (Z * list EntryImage) :=
  l ← (entriesToSerialize order : outcome (list CatalogEntry)); Ok (nextOID s, List.map image l).

Definition deserialize_entry (a : nat) (i : EntryImage) : CatalogEntry :=
  MkEntry a (image_type i) (image_name i) (image_oid i) DUMMY_START_TIMESTAMP false
    (image_hasParent i) (image_payload i).
Fixpoint deserialize_entries (l : list EntryImage) (s : CatalogSet) : CatalogSet :=
  match l with
  | [] => s
  | i :: l' =>
      deserialize_entries l'
        (MkCatalogSet (nextOID s)
           (emplaceNoLock (deserialize_entry (next_address s) i) (entries s)) (S (next_address s)))
  end.
Definition deserialize (file : Z * list EntryImage) : CatalogSet :=
  deserialize_entries file.2 (MkCatalogSet file.1 ∅ 0).

End Sets.
Arguments CatalogEntry P : clear implicits.
Arguments CatalogSet P : clear implicits.
Arguments State P : clear implicits.
Arguments AlterInfo P : clear implicits.
Arguments WALRecord P : clear implicits.
Arguments EntryImage P : clear implicits.
End CatalogSet.
