(* ===== verification/CatalogSpec.v ===== *)
(** * Catalog sets: private changes, publication, undo

    The view of a transaction is what [getEntries] gives it ([getEntries_ok]). Under one writer at a time (the
    configuration in which [TransactionManager] refuses a second writer), creating, dropping and
    altering entries are map operations on the writer's view and invisible to all others, commit
    publishes exactly the writer's view to the readers that start at or after the commit timestamp,
    and rollback restores every view. *)

From stdpp Require Import base numbers list gmap strings.
From Stdlib Require Import ZArith Lia.
From S2P Require Import Prelude CatalogSet.
Import CatalogSet.

Open Scope Z_scope.

Module CatalogSpec.
Section Views.
Context {P : Type}.
Local Abbreviation chain := (list (CatalogEntry P)).
Implicit Types (e o d : CatalogEntry P) (c : chain) (m : gmap string chain) (s : CatalogSet P).

(** ** Views *)

Definition shown (id st : Z) (c : chain) : option (EntryImage P) :=
  e ← traverseVersionChainsForTransactionNoLock id st c;
  if isDeleted e then None else Some (image e).

Definition view_of (id st : Z) (m : gmap string chain) : gmap string (EntryImage P) :=
  omap (shown id st) m.
(** What transaction [id] with snapshot [st] sees of the set. *)
Definition view (id st : Z) (s : CatalogSet P) : gmap string (EntryImage P) :=
  image <$> visible_entries id st s.

Lemma view_eq id st s : view id st s = view_of id st (entries s).
Proof.
  apply map_eq. intros k. unfold view, view_of, visible_entries, shown.
  rewrite lookup_fmap, !lookup_omap.
  destruct (entries s !! k) as [c|]; [|reflexivity]. cbn.
  destruct (traverseVersionChainsForTransactionNoLock id st c) as [e|]; [|reflexivity]. cbn.
  destruct (isDeleted e); reflexivity.
Qed.

(** A reader is a transaction with a snapshot in the past of the writer's identifier. *)
Definition other_reader (id id' st : Z) : Prop := id' ≠ id ∧ 0 ≤ st < START_TRANSACTION_ID.

Lemma shown_skip id st e c :
  getTimestamp e ≠ id → st < getTimestamp e → shown id st (e :: c) = shown id st c.
Proof.
  intros Hid Hst. unfold shown. cbn.
  rewrite (proj2 (Z.eqb_neq _ _) Hid), (proj2 (Z.leb_gt _ _) Hst). reflexivity.
Qed.

Definition shown_head (e : CatalogEntry P) : option (EntryImage P) :=
  if isDeleted e then None else Some (image e).

Lemma shown_hit id st e c :
  getTimestamp e = id ∨ getTimestamp e ≤ st → shown id st (e :: c) = shown_head e.
Proof.
  intros H. unfold shown. cbn. destruct (getTimestamp e =? id) eqn:Hid; [reflexivity|].
  rewrite (proj2 (Z.leb_le _ _)); [reflexivity|]. apply Z.eqb_neq in Hid. lia.
Qed.

(** ** Well-formed chains *)

(** Tombstones are dummy entries, and only they. *)
Definition entry_ok (e : CatalogEntry P) : Prop :=
  isDeleted e = bool_decide (getType e = DUMMY_ENTRY) ∧ (isDeleted e = true → hasParent e = false).

(** A chain under [key] when everything up to [now] has committed and [id] is the only writer: it ends
    in a version every snapshot contains. *)
Record chain_ok (id now : Z) (n : nat) (key : string) (c : chain) : Prop := {
  ok_names : Forall (λ e, lower (getName e) = key) c;
  ok_stamps : Forall (λ e, getTimestamp e = id ∨ 0 ≤ getTimestamp e ≤ now) c;
  ok_entries : Forall entry_ok c;
  ok_addresses : NoDup (address <$> c);
  ok_bound : Forall (λ e, (address e < n)%nat) c;
  ok_last : ∃ e, last c = Some e ∧ getTimestamp e = 0;
}.

Definition chains_ok (id now : Z) (n : nat) (m : gmap string chain) : Prop :=
  map_Forall (λ key c, chain_ok id now n key c) m.

(** No change of [id] yet. *)
Definition clean (now : Z) (m : gmap string chain) : Prop :=
  map_Forall (λ _ c, Forall (λ e, 0 ≤ getTimestamp e ≤ now) c) m.

Lemma chain_ok_nonempty id now n key c : chain_ok id now n key c → ∃ e c', c = e :: c'.
Proof. intros H. destruct c; [destruct (ok_last _ _ _ _ _ H) as (? & [=] & _)|eauto]. Qed.

Lemma chain_ok_bound id now n n' key c :
  chain_ok id now n key c → (n ≤ n')%nat → chain_ok id now n' key c.
Proof.
  intros [] Hn. constructor; try assumption. eapply Forall_impl; [eassumption|]. cbn. lia.
Qed.

Lemma chains_ok_bound id now n n' m : chains_ok id now n m → (n ≤ n')%nat → chains_ok id now n' m.
Proof. intros H Hn key c Hc. eapply chain_ok_bound; [apply H, Hc|exact Hn]. Qed.

Lemma chain_ok_push id now n key e c :
  chain_ok id now n key c → lower (getName e) = key → getTimestamp e = id → entry_ok e →
  address e ∉ (address <$> c) → (address e < n)%nat → chain_ok id now n key (e :: c).
Proof.
  intros Hok Hname Hts He Hnew Hb. pose proof (chain_ok_nonempty _ _ _ _ _ Hok) as (o & c' & ->).
  destruct Hok as [H1 H2 H3 H4 H5 H6].
  constructor; [constructor; auto..|exact H6].
Qed.

Lemma chain_ok_dummy id now n a name oid :
  0 ≤ now → (a < n)%nat → chain_ok id now n (lower name) [DummyCatalogEntry (P:=P) a name oid].
Proof.
  intros Hnow Ha. constructor.
  - apply Forall_singleton. reflexivity.
  - apply Forall_singleton. right. cbn. lia.
  - apply Forall_singleton. split; reflexivity.
  - apply NoDup_singleton.
  - apply Forall_singleton. exact Ha.
  - eexists. split; reflexivity.
Qed.

(** The writer sees the newest version. *)
Lemma writer_sees_head id now n key st e c :
  chain_ok id now n key (e :: c) → now ≤ st → shown id st (e :: c) = shown_head e.
Proof.
  intros Hok Hst. apply shown_hit. destruct (Forall_cons_1 _ _ _ (ok_stamps _ _ _ _ _ Hok)) as [H _].
  cbn in H. destruct H as [H|H]; [left; exact H|right; lia].
Qed.

(** A traversal ends in an entry. *)
Lemma traverse_some id st c :
  (∃ e, last c = Some e ∧ getTimestamp e = 0) → 0 ≤ st →
  ∃ e, traverseVersionChainsForTransactionNoLock id st c = Some e.
Proof.
  intros (e0 & Hl & Ht) Hst. induction c as [|e c IH]; [discriminate|]. cbn.
  destruct (getTimestamp e =? id); [eauto|]. destruct (getTimestamp e <=? st) eqn:Hle; [eauto|].
  destruct c as [|e' c]; [|apply IH, Hl]. cbn in Hl. injection Hl as ->. zbool. lia.
Qed.

(** So no traversal of [getEntries] ends in a null pointer. *)
Lemma getEntries_ok id now n id' st s :
  chains_ok id now n (entries s) → 0 ≤ st → getEntries id' st s = Ok (visible_entries id' st s).
Proof.
  intros Hok Hst. unfold getEntries. rewrite bool_decide_eq_true_2; [reflexivity|].
  intros key c Hc. destruct (traverse_some id' st c (ok_last _ _ _ _ _ (Hok _ _ Hc)) Hst) as [e He]. eauto.
Qed.

(** ** What a writer has done *)

Inductive writes (id : Z) (m0 : gmap string chain) :
    list EntryPtr → gmap string chain → Prop :=
  | writes_nil : writes id m0 [] m0
  | writes_dummy u m key d :
      writes id m0 u m → m !! key = None → isDeleted d = true → getTimestamp d = 0 →
      writes id m0 u (<[key := [d]]> m)
  | writes_push u m key e o c :
      writes id m0 u m → m !! key = Some (o :: c) → getTimestamp e = id →
      lower (getName o) = key → NoDup (address <$> e :: o :: c) →
      writes id m0 (u ++ [MkPtr key (address o)]) (<[key := e :: o :: c]> m).

Lemma shown_dummy id st d : isDeleted d = true → shown id st [d] = None.
Proof.
  intros Hd. unfold shown. cbn. destruct (_ =? _); cbn; [rewrite Hd; reflexivity|].
  destruct (_ <=? _); cbn; [rewrite Hd|]; reflexivity.
Qed.

Lemma view_of_insert id st key c m :
  view_of id st (<[key := c]> m) =
    match shown id st c with
    | Some v => <[key := v]> (view_of id st m)
    | None => delete key (view_of id st m)
    end.
Proof.
  unfold view_of. destruct (shown id st c) as [v|] eqn:Hs.
  - apply omap_insert_Some. exact Hs.
  - apply omap_insert_None. exact Hs.
Qed.

Lemma view_of_insert_same id st key c m :
  shown id st c = m !! key ≫= shown id st → view_of id st (<[key := c]> m) = view_of id st m.
Proof.
  intros Hs. apply map_eq. intros k. unfold view_of. rewrite !lookup_omap.
  destruct (decide (k = key)) as [->|Hne]; [|rewrite lookup_insert_ne by congruence; reflexivity].
  rewrite lookup_insert_eq. exact Hs.
Qed.

(** Nobody else sees it. *)
Lemma writes_private id m0 u m id' st :
  writes id m0 u m → START_TRANSACTION_ID ≤ id → other_reader id id' st →
  view_of id' st m = view_of id' st m0.
Proof.
  intros Hw Hid [Hne Hst].
  induction Hw as [|u m key d Hw IH Hnone Hdel Hts|u m key e o c Hw IH Hc Hts Hn Hnd].
  - reflexivity.
  - rewrite <- IH. apply view_of_insert_same. rewrite Hnone. apply shown_dummy, Hdel.
  - rewrite <- IH. apply view_of_insert_same. rewrite Hc. apply shown_skip; lia.
Qed.

(** ** Rollback *)

(** Equal but for tombstones of names that did not exist. *)
Definition same_but_dummies (m0 m : gmap string chain) : Prop :=
  ∀ key, m !! key = m0 !! key ∨
    (m0 !! key = None ∧ ∃ d, m !! key = Some [d] ∧ isDeleted d = true ∧ getTimestamp d = 0).

Lemma same_but_dummies_view id st m0 m : same_but_dummies m0 m → view_of id st m = view_of id st m0.
Proof.
  intros Hs. apply map_eq. intros key. unfold view_of. rewrite !lookup_omap.
  destruct (Hs key) as [->|(-> & d & -> & Hd & _)]; [reflexivity|]. apply shown_dummy, Hd.
Qed.

Definition dummies (D : gmap string chain) : Prop :=
  map_Forall (λ _ c, ∃ d, c = [d] ∧ isDeleted d = true ∧ getTimestamp d = 0) D.

Lemma rollback_head s key e o c :
  entries s !! key = Some (e :: o :: c) → lower (getName o) = key →
  rollbackCatalogEntryRecord (MkPtr key (address o)) s =
    (Ok tt, set_entries (insert key (o :: c)) s).
Proof.
  intros Hc Hn. unfold rollbackCatalogEntryRecord. cbn [ptr_key ptr_address]. rewrite Hc.
  rewrite bool_decide_eq_true_2 by reflexivity. unfold set_entries, eraseNoLock. cbv zeta.
  rewrite Hn, insert_delete_eq. reflexivity.
Qed.

Lemma rollback_writes id m0 u m :
  writes id m0 u m → ∀ D s, m ##ₘ D → dummies D → entries s = m ∪ D →
  ∃ s', for_each (rev u) rollbackCatalogEntryRecord s = (Ok tt, s') ∧
    same_but_dummies m0 (entries s').
Proof.
  induction 1 as [|u m key d Hw IH Hnone Hdel Hts|u m key e o c Hw IH Hc Hts Hn Hnd];
    intros D s Hdisj HD Hs.
  - exists s. split; [reflexivity|]. intros key. rewrite Hs, lookup_union.
    destruct (m0 !! key) as [c|] eqn:H0.
    + left. destruct (D !! key); reflexivity.
    + destruct (D !! key) as [c|] eqn:HDk; [right|left; reflexivity].
      split; [reflexivity|]. destruct (HD _ _ HDk) as (d & -> & ? & ?). eauto.
  - apply (IH (<[key := [d]]> D)).
    + apply map_disjoint_insert_r. split; [exact Hnone|].
      eapply map_disjoint_insert_l, Hdisj.
    + apply map_Forall_insert_2; [eauto|exact HD].
    + rewrite Hs, <- insert_union_l, insert_union_r by exact Hnone. reflexivity.
  - rewrite rev_app_distr. cbn [rev app].
    apply map_disjoint_insert_l in Hdisj as [HDk Hdisj].
    assert (Hsk : entries s !! key = Some (e :: o :: c)).
    { rewrite Hs, <- insert_union_l, lookup_insert_eq. reflexivity. }
    rewrite (for_each_cons_ok _ _ _ _ _ (rollback_head s key e o c Hsk Hn)).
    apply (IH D); [exact Hdisj|exact HD|]. cbn [set_entries entries].
    rewrite Hs, <- insert_union_l, insert_insert_eq.
    apply map_eq. intros k. destruct (decide (k = key)) as [->|Hne].
    + rewrite lookup_insert_eq, lookup_union, Hc. destruct (D !! key); reflexivity.
    + rewrite lookup_insert_ne by congruence. reflexivity.
Qed.

(** ** Commit *)

Definition restamp_entry (id ts : Z) (e : CatalogEntry P) : CatalogEntry P :=
  if getTimestamp e =? id then setTimestamp ts e else e.
Definition restamp (id ts : Z) (m : gmap string chain) : gmap string chain :=
  fmap (M := gmap string) (fmap (M := list) (restamp_entry id ts)) m.

Lemma restamp_address id ts c : address <$> (restamp_entry id ts <$> c) = address <$> c.
Proof.
  induction c as [|e c IH]; [reflexivity|]. cbn. f_equal; [|exact IH].
  unfold restamp_entry. destruct (_ =? _); reflexivity.
Qed.

Lemma stamp_next_eq a ts n o c :
  stamp_next a ts (n :: o :: c) =
    if bool_decide (address o = a) then Some (setTimestamp ts n :: o :: c)
    else cons n <$> stamp_next a ts (o :: c).
Proof. reflexivity. Qed.

Lemma stamp_next_addresses a ts c c' :
  stamp_next a ts c = Some c' → address <$> c' = address <$> c.
Proof.
  revert c'. induction c as [|n c IH]; intros c'; [discriminate|].
  destruct c as [|o c]; [discriminate|]. rewrite stamp_next_eq.
  destruct (bool_decide (address o = a)); [intros [= <-]; reflexivity|].
  destruct (stamp_next a ts (o :: c)) as [c1|]; [|discriminate].
  intros [= <-]. cbn [fmap list_fmap]. f_equal. apply IH. reflexivity.
Qed.

(** The head of a chain has no version above it. *)
Lemma stamp_next_head a ts o c c' :
  stamp_next a ts (o :: c) = Some c' → NoDup (address <$> o :: c) → address o ≠ a.
Proof.
  intros Hs Hnd <-. cbn [fmap list_fmap] in Hnd. apply NoDup_cons in Hnd as [Hnew _].
  assert (Hin : ∀ (l : chain) n r, stamp_next (address o) ts (n :: l) = Some r →
            address o ∈ address <$> l).
  { induction l as [|x l IH]; intros n r; [discriminate|]. rewrite stamp_next_eq.
    destruct (bool_decide (address x = address o)) eqn:Hx.
    - apply bool_decide_eq_true in Hx. intros _. cbn. rewrite Hx. left.
    - intros Hs'. destruct (stamp_next (address o) ts (x :: l)) as [c1|] eqn:H1; [|discriminate].
      right. eapply IH, H1. }
  apply Hnew. eapply Hin, Hs.
Qed.

Lemma stamp_next_cons a ts e c c' :
  stamp_next a ts c = Some c' → NoDup (address <$> c) → stamp_next a ts (e :: c) = Some (e :: c').
Proof.
  intros Hs Hnd. destruct c as [|o c]; [discriminate|]. rewrite stamp_next_eq.
  rewrite bool_decide_eq_false_2 by (eapply stamp_next_head; eassumption).
  rewrite Hs. reflexivity.
Qed.

Definition commit_records (ts : Z) (u : list EntryPtr) : M (CatalogSet P) unit :=
  for_each u (commitCatalogEntryRecord ts).

(** Committing older records does not see a version pushed on a chain later, or a new chain. *)
Lemma commit_under_push ts u : ∀ s s' key c e,
  commit_records ts u s = (Ok tt, s') → entries s !! key = Some c → NoDup (address <$> c) →
  ∃ c', entries s' !! key = Some c' ∧ address <$> c' = address <$> c ∧
    commit_records ts u (set_entries (insert key (e :: c)) s) =
      (Ok tt, set_entries (insert key (e :: c')) s').
Proof.
  induction u as [|p u IH]; intros s s' key c e Hrun Hc Hnd.
  - injection Hrun as <-. exists c. auto.
  - unfold commit_records in *. cbn [for_each] in *. unfold mbind, M_bind in *.
    unfold commitCatalogEntryRecord at 1, on_chain at 1 in Hrun.
    unfold commitCatalogEntryRecord at 1, on_chain at 1. cbn [set_entries entries].
    destruct (entries s !! ptr_key p) as [cp|] eqn:Hp; [|discriminate].
    destruct (stamp_next (ptr_address p) ts cp) as [cp'|] eqn:Hst; [|discriminate].
    destruct (decide (ptr_key p = key)) as [Hk|Hk].
    + rewrite Hk, lookup_insert_eq. rewrite Hk in Hp, Hrun. rewrite Hc in Hp. injection Hp as <-.
      rewrite (stamp_next_cons _ _ e _ _ Hst Hnd).
      destruct (IH _ _ key cp' e Hrun) as (c' & Hc' & Ha & Hrun').
      * cbn. apply lookup_insert_eq.
      * rewrite (stamp_next_addresses _ _ _ _ Hst). exact Hnd.
      * exists c'. split_and!; [exact Hc'|rewrite Ha; eapply stamp_next_addresses, Hst|].
        rewrite <- Hrun'. unfold set_entries. cbn [nextOID entries next_address].
        rewrite !insert_insert_eq. reflexivity.
    + rewrite lookup_insert_ne by congruence. rewrite Hp, Hst.
      destruct (IH _ _ key c e Hrun) as (c' & Hc' & Ha & Hrun').
      * cbn. rewrite lookup_insert_ne by congruence. exact Hc.
      * exact Hnd.
      * exists c'. split_and!; [exact Hc'|exact Ha|]. rewrite <- Hrun'.
        unfold set_entries. cbn [nextOID entries next_address].
        rewrite insert_insert_ne by congruence. reflexivity.
Qed.

Lemma commit_other_chain ts u : ∀ s s' key c,
  commit_records ts u s = (Ok tt, s') → entries s !! key = None →
  entries s' !! key = None ∧
  commit_records ts u (set_entries (insert key c) s) = (Ok tt, set_entries (insert key c) s').
Proof.
  induction u as [|p u IH]; intros s s' key c Hrun Hc.
  - injection Hrun as <-. auto.
  - unfold commit_records in *. cbn [for_each] in *. unfold mbind, M_bind in *.
    unfold commitCatalogEntryRecord at 1, on_chain at 1 in Hrun.
    unfold commitCatalogEntryRecord at 1, on_chain at 1. cbn [set_entries entries].
    destruct (entries s !! ptr_key p) as [cp|] eqn:Hp; [|discriminate].
    destruct (stamp_next (ptr_address p) ts cp) as [cp'|] eqn:Hst; [|discriminate].
    assert (ptr_key p ≠ key) as Hk by congruence.
    rewrite lookup_insert_ne by congruence. rewrite Hp, Hst.
    destruct (IH _ _ key c Hrun) as (Hnone & Hrun').
    + cbn. rewrite lookup_insert_ne by congruence. exact Hc.
    + split; [exact Hnone|]. rewrite <- Hrun'.
      unfold set_entries. cbn [nextOID entries next_address].
      rewrite insert_insert_ne by congruence. reflexivity.
Qed.

Lemma restamp_chain_clean id now ts c :
  Forall (λ e, 0 ≤ getTimestamp e ≤ now) c → now < id → restamp_entry id ts <$> c = c.
Proof.
  intros Hcl Hnow. induction Hcl as [|e c He Hcl IH]; [reflexivity|]. cbn. f_equal; [|exact IH].
  unfold restamp_entry. rewrite (proj2 (Z.eqb_neq _ _)) by lia. reflexivity.
Qed.

Lemma restamp_clean id now ts m : clean now m → now < id → restamp id ts m = m.
Proof.
  intros Hcl Hnow. apply map_eq. intros key. unfold restamp. rewrite lookup_fmap.
  destruct (m !! key) as [c|] eqn:Hc; [|reflexivity]. cbn. f_equal.
  eapply restamp_chain_clean; [apply (Hcl _ _ Hc)|exact Hnow].
Qed.

(** Committing a writer's records gives its versions, and only them, the commit timestamp. *)
Lemma commit_writes id now ts m0 u m :
  writes id m0 u m → clean now m0 → now < id → 0 < id →
  map_Forall (λ _ c, NoDup (address <$> c)) m0 →
  ∀ s, entries s = m → ∃ s', commit_records ts u s = (Ok tt, s') ∧ entries s' = restamp id ts m.
Proof.
  intros Hw Hcl Hnow Hpos Hnd0.
  induction Hw as [|u m key d Hw IH Hnone Hdel Hts|u m key e o c Hw IH Hc Hts Hn Hnd]; intros s Hs.
  - exists s. split; [reflexivity|]. rewrite Hs. symmetry. eapply restamp_clean; eassumption.
  - destruct (IH (set_entries (λ _, m) s) eq_refl) as (s' & Hrun & He).
    destruct (commit_other_chain ts u _ _ key [d] Hrun Hnone) as (_ & Hrun').
    exists (set_entries (insert key [d]) s'). split.
    + rewrite <- Hrun'. f_equal. unfold set_entries. cbn. rewrite <- Hs. destruct s; reflexivity.
    + cbn [set_entries entries]. rewrite He. unfold restamp. rewrite fmap_insert. cbn. do 2 f_equal.
      unfold restamp_entry. rewrite (proj2 (Z.eqb_neq _ _)) by lia. reflexivity.
  - destruct (IH (set_entries (λ _, m) s) eq_refl) as (s' & Hrun & He).
    assert (Hnd' : NoDup (address <$> o :: c)) by (apply NoDup_cons in Hnd as [_ ?]; assumption).
    destruct (commit_under_push ts u _ _ key (o :: c) e Hrun Hc Hnd') as (c' & Hc' & Ha & Hrun').
    replace (set_entries (insert key (e :: o :: c)) (set_entries (λ _, m) s)) with s in Hrun'
      by (unfold set_entries; cbn; rewrite <- Hs; destruct s; reflexivity).
    assert (Hc'' : c' = restamp_entry id ts <$> o :: c).
    { rewrite He in Hc'. unfold restamp in Hc'. rewrite lookup_fmap, Hc in Hc'.
      apply (inj Some) in Hc'. symmetry. exact Hc'. }
    exists (set_entries (insert key (setTimestamp ts e :: c')) s'). split.
    + unfold commit_records in *. rewrite for_each_app, (M_bind_ok _ _ _ _ _ Hrun').
      cbn [for_each]. unfold mbind, M_bind, commitCatalogEntryRecord, on_chain.
      cbn [ptr_key ptr_address set_entries entries]. rewrite lookup_insert_eq.
      rewrite Hc''. cbn [fmap list_fmap]. rewrite stamp_next_eq.
      rewrite bool_decide_eq_true_2 by (unfold restamp_entry; destruct (_ =? _); reflexivity).
      unfold set_entries. cbn [nextOID entries next_address]. rewrite insert_insert_eq. reflexivity.
    + cbn [set_entries entries]. rewrite He, Hc''. unfold restamp. rewrite fmap_insert.
      cbn [fmap list_fmap]. do 2 f_equal. unfold restamp_entry.
      rewrite (proj2 (Z.eqb_eq _ _) Hts). reflexivity.
Qed.

(** ** Views after a commit *)

(** A reader from before the commit sees what it saw; one from after it sees what the writer saw. *)
Lemma restamp_old_reader id ts m id' st :
  START_TRANSACTION_ID ≤ id → other_reader id id' st → st < ts → id' ≠ ts →
  view_of id' st (restamp id ts m) = view_of id' st m.
Proof.
  intros Hid [Hne Hst] Hts Hnts. apply map_eq. intros key. unfold view_of, restamp.
  rewrite !lookup_omap, lookup_fmap. destruct (m !! key) as [c|]; [|reflexivity]. cbn.
  induction c as [|e c IH]; [reflexivity|]. cbn [fmap list_fmap]. unfold restamp_entry at 1.
  destruct (getTimestamp e =? id) eqn:He.
  - apply Z.eqb_eq in He. rewrite !shown_skip by (cbn; lia). exact IH.
  - destruct (decide (getTimestamp e = id' ∨ getTimestamp e ≤ st)) as [Hhit|Hmiss].
    + rewrite !shown_hit by exact Hhit. reflexivity.
    + rewrite !shown_skip by lia. exact IH.
Qed.

Lemma restamp_new_reader id now ts n m id' st startTS :
  chains_ok id now n m → now ≤ startTS → now < ts → ts ≤ st →
  view_of id' st (restamp id ts m) = view_of id startTS m.
Proof.
  intros Hok Hstart Hts Hst. apply map_eq. intros key. unfold view_of, restamp.
  rewrite !lookup_omap, lookup_fmap. destruct (m !! key) as [c|] eqn:Hc; [|reflexivity]. cbn.
  specialize (Hok _ _ Hc). cbn in Hok.
  destruct (chain_ok_nonempty _ _ _ _ _ Hok) as (e & c' & ->).
  rewrite (writer_sees_head _ _ _ _ _ _ _ Hok Hstart). cbn [fmap list_fmap].
  destruct (Forall_cons_1 _ _ _ (ok_stamps _ _ _ _ _ Hok)) as [He _]. cbn in He.
  rewrite shown_hit.
  - unfold restamp_entry, shown_head. destruct (_ =? _); reflexivity.
  - right. unfold restamp_entry. destruct (getTimestamp e =? id) eqn:Hid; cbn; [lia|].
    apply Z.eqb_neq in Hid. lia.
Qed.

End Views.
End CatalogSpec.
