(* ===== verification/CatalogTheorems.v ===== *)
(** * Catalog operations as operations on views

    Each operation of [CatalogSet] refines a map operation on the writer's view; sequences of them,
    their commit and their rollback follow. *)

From stdpp Require Import base numbers list gmap strings.
From Stdlib Require Import ZArith Lia.
From S2P Require Import Prelude CatalogSet CatalogSpec.
Import CatalogSet CatalogSpec.

Open Scope Z_scope.

Module CatalogTheorems.
Section Operations.
Context {P : Type}.
Local Abbreviation chain := (list (CatalogEntry P)).

(** ** The specification *)

(** An operation of a transaction on the set. *)
Inductive cmd :=
  | Create (entry : CatalogEntry P)
  | Drop (name : string) (oid : Z)
  | Alter (tableName : string) (info : AlterInfo P).

Definition exec (t : Txn) (c : cmd) : M (State P) unit :=
  match c with
  | Create entry => createEntry t entry ;; mret tt
  | Drop name oid => dropEntry t name oid
  | Alter tableName info => alterTableEntry t tableName info
  end.

(** The types of entries whose creation, and whose removal, the log can record or may skip. *)
Definition creatable (type : CatalogEntryType) : bool :=
  match type with
  | INDEX_ENTRY | NODE_TABLE_ENTRY | REL_GROUP_ENTRY | SEQUENCE_ENTRY | SCALAR_MACRO_ENTRY | TYPE_ENTRY
  | SCALAR_FUNCTION_ENTRY | TABLE_FUNCTION_ENTRY | STANDALONE_TABLE_FUNCTION_ENTRY => true
  | _ => false
  end.
Definition droppable (i : EntryImage P) : bool :=
  image_hasParent i ||
  match image_type i with
  | INDEX_ENTRY | SCALAR_MACRO_ENTRY | NODE_TABLE_ENTRY | REL_GROUP_ENTRY | SEQUENCE_ENTRY
  | SCALAR_FUNCTION_ENTRY | TABLE_FUNCTION_ENTRY | STANDALONE_TABLE_FUNCTION_ENTRY => true
  | _ => false
  end.
Definition image_is_table (i : EntryImage P) : bool :=
  bool_decide (image_type i = NODE_TABLE_ENTRY) || bool_decide (image_type i = REL_GROUP_ENTRY).

Definition logged (t : Txn) (ok : bool) : outcome unit :=
  if txn_shouldLogToWAL t && negb ok then Throw unsupported else Ok tt.

Definition image_with (i : EntryImage P) (name : string) (p : option P) : EntryImage P :=
  MkImage (image_type i) name (image_oid i) (image_hasParent i) p.

Definition new_image (e : CatalogEntry P) (oid : Z) : EntryImage P :=
  MkImage (getType e) (getName e) oid (hasParent e) (payload e).

(** The effect of an operation on the writer's view [v]; [oid] is the set's next oid. *)
Definition spec (t : Txn) (oid : Z) (c : cmd) (v : gmap string (EntryImage P)) :
    outcome unit * gmap string (EntryImage P) :=
  match c with
  | Create e =>
      match v !! lower (getName e) with
      | Some _ => (Throw (already_exists (getName e)), v)
      | None => (logged t (creatable (getType e)), <[lower (getName e) := new_image e oid]> v)
      end
  | Drop name _ =>
      match v !! lower name with
      | None => (Throw (not_exist name), v)
      | Some i => (logged t (droppable i), delete (lower name) v)
      end
  | Alter name info =>
      match v !! lower name with
      | None => (Throw (not_exist name), v)
      | Some i =>
          if negb (image_is_table i) then (Throw assert_failure, v)
          else
            match info with
            | RENAME newName =>
                (Ok tt, <[lower newName := image_with i newName (image_payload i)]>
                          (delete (lower name) v))
            | ADD_FROM_TO_CONNECTION change =>
                (Ok tt, <[lower name := image_with i (image_name i) (change oid (image_payload i))]> v)
            | ALTER_PROPERTIES change =>
                (Ok tt, <[lower name := image_with i (image_name i) (change (image_payload i))]> v)
            end
      end
  end.

(** Entries that are created are no tombstones, and a table is renamed to a free name (the binder
    checks it). *)
Definition admissible (c : cmd) (v : gmap string (EntryImage P)) : Prop :=
  match c with
  | Create e => isDeleted e = false ∧ getType e ≠ DUMMY_ENTRY
  | Alter name (RENAME newName) => delete (lower name) v !! lower newName = None
  | _ => True
  end.

(** ** The writer *)

Context (t : Txn) (now : Z) (m0 : gmap string chain).
Hypothesis (Hundo : txn_shouldAppendToUndoBuffer t = true).
Hypothesis (Hid : START_TRANSACTION_ID ≤ txn_id t).
Hypothesis (Hnow : 0 ≤ now < START_TRANSACTION_ID).
Hypothesis (Hstart : now ≤ txn_startTS t < START_TRANSACTION_ID).

(** The set with a writer's changes and undo records. *)
Definition tracked_at (u : list EntryPtr) (s : CatalogSet P) : Prop :=
  writes (txn_id t) m0 u (entries s) ∧ chains_ok (txn_id t) now (next_address s) (entries s).
Definition tracked (s : State P) : Prop := tracked_at (undo s) (set_ s).

Definition own_view (s : CatalogSet P) : gmap string (EntryImage P) :=
  view (txn_id t) (txn_startTS t) s.

Lemma own_view_lookup u s key :
  tracked_at u s →
  own_view s !! key =
    match entries s !! key with
    | Some (e :: _) => shown_head e
    | _ => None
    end.
Proof.
  intros [_ Hok]. unfold own_view. rewrite view_eq. unfold view_of. rewrite lookup_omap.
  destruct (entries s !! key) as [c|] eqn:Hc; [|reflexivity]. cbn.
  specialize (Hok _ _ Hc). cbn in Hok. destruct (chain_ok_nonempty _ _ _ _ _ Hok) as (e & c' & ->).
  eapply writer_sees_head; [exact Hok|lia].
Qed.

Lemma contains_eq u s name :
  tracked_at u s →
  containsEntryNoLock (txn_id t) (txn_startTS t) name s =
    Ok (match own_view s !! lower name with Some _ => true | None => false end).
Proof.
  intros Htr. rewrite (own_view_lookup u) by exact Htr. unfold containsEntryNoLock.
  destruct (entries s !! lower name) as [c|] eqn:Hc; [|reflexivity].
  destruct Htr as [_ Hok]. specialize (Hok _ _ Hc). cbn in Hok.
  destruct (chain_ok_nonempty _ _ _ _ _ Hok) as (e & c' & ->).
  pose proof (writer_sees_head _ _ _ _ _ _ _ Hok (proj1 Hstart)) as Hs. unfold shown in Hs.
  destruct (traverse_some (txn_id t) (txn_startTS t) _ (ok_last _ _ _ _ _ Hok)) as (e' & He'); [lia|].
  rewrite He' in Hs |- *. cbn in Hs. unfold shown_head in *.
  destruct (isDeleted e'), (isDeleted e); try discriminate; reflexivity.
Qed.

Lemma no_conflict key (e : CatalogEntry P) c n :
  chain_ok (txn_id t) now n key (e :: c) → checkWWConflict t e = false.
Proof.
  intros Hok. destruct (Forall_cons_1 _ _ _ (ok_stamps _ _ _ _ _ Hok)) as [He _]. cbn in He.
  unfold checkWWConflict. apply orb_false_iff. destruct He as [He|He].
  - rewrite He, Z.eqb_refl, (proj2 (Z.ltb_ge _ _)) by lia. split; [apply andb_false_r|reflexivity].
  - rewrite (proj2 (Z.leb_gt _ _)) by lia. rewrite (proj2 (Z.ltb_ge (txn_startTS t) _)) by lia.
    split; [reflexivity|apply andb_false_r].
Qed.

(** ** Pushing a version *)

(** The set after the version [e] was put on its chain, over an older entry [o]. *)
Definition pushed (u : list EntryPtr) (s s' : CatalogSet P) (e o : CatalogEntry P) (c : chain) : Prop :=
  entries s' !! lower (getName e) = Some (e :: o :: c) ∧ address o ≠ address e ∧
  nextOID s' = nextOID s ∧
  tracked_at (u ++ [MkPtr (lower (getName e)) (address o)]) s' ∧
  own_view s' = match shown_head e with
                | Some i => <[lower (getName e) := i]> (own_view s)
                | None => delete (lower (getName e)) (own_view s)
                end.

Lemma emplace_pushed u s e o c :
  tracked_at u s → entries s !! lower (getName e) = Some (o :: c) →
  getTimestamp e = txn_id t → entry_ok e → (address e < next_address s)%nat →
  address e ∉ (address <$> o :: c) →
  pushed u s (set_entries (emplaceNoLock e) s) e o c.
Proof.
  intros [Hw Hok] Hc Hts He Hb Hnew. pose proof (Hok _ _ Hc) as Hch. cbn in Hch.
  assert (Heq : set_entries (emplaceNoLock e) s =
    MkCatalogSet (nextOID s) (<[lower (getName e) := e :: o :: c]> (entries s)) (next_address s)).
  { unfold set_entries, emplaceNoLock. cbv zeta. rewrite Hc. reflexivity. }
  pose proof (chain_ok_push _ _ _ _ e _ Hch eq_refl Hts He Hnew Hb) as Hpush.
  rewrite Heq. split_and!; cbn [entries nextOID].
  - apply lookup_insert_eq.
  - intros Ha. apply Hnew. rewrite <- Ha. left.
  - reflexivity.
  - split; cbn [entries next_address].
    + apply writes_push; try assumption; [|apply (ok_addresses _ _ _ _ _ Hpush)].
      apply (Forall_cons_1 _ _ _ (ok_names _ _ _ _ _ Hch)).
    + apply map_Forall_insert_2; [exact Hpush|exact Hok].
  - unfold own_view. rewrite !view_eq. cbn [entries]. rewrite view_of_insert.
    rewrite (writer_sees_head _ _ _ _ _ _ _ Hpush) by lia. reflexivity.
Qed.

(** A tombstone below everything for a new name. *)
Lemma emplace_dummy_tracked u s name oid a :
  tracked_at u s → entries s !! lower name = None → (a < next_address s)%nat →
  let s' := set_entries (emplace_dummy (DummyCatalogEntry a name oid)) s in
  entries s' !! lower name = Some [DummyCatalogEntry a name oid] ∧
  tracked_at u s' ∧ own_view s' = own_view s ∧ next_address s' = next_address s.
Proof.
  intros [Hw Hok] Hc Ha. cbv zeta. unfold set_entries, emplace_dummy. cbn [getName DummyCatalogEntry].
  cbv zeta. rewrite Hc. cbn [entries next_address]. split_and!.
  - apply lookup_insert_eq.
  - split; cbn [entries next_address]; [apply writes_dummy; auto|].
    apply map_Forall_insert_2; [|exact Hok]. apply chain_ok_dummy; [lia|exact Ha].
  - unfold own_view. rewrite !view_eq. apply view_of_insert_same. rewrite Hc. apply shown_dummy.
    reflexivity.
  - reflexivity.
Qed.

Lemma tracked_alloc u s : tracked_at u s →
  tracked_at u (MkCatalogSet (nextOID s) (entries s) (S (next_address s))).
Proof. intros [Hw Hok]. split; [exact Hw|]. eapply chains_ok_bound; [exact Hok|cbn; lia]. Qed.

Lemma fresh_not_in u s key c :
  tracked_at u s → entries s !! key = Some c → ∀ a, (next_address s ≤ a)%nat → a ∉ (address <$> c).
Proof.
  intros [_ Hok] Hc a Ha Hin. specialize (Hok _ _ Hc). apply list_elem_of_fmap in Hin as (e & -> & Hin).
  pose proof (ok_bound _ _ _ _ _ Hok) as Hb. rewrite Forall_forall in Hb. specialize (Hb e Hin).
  cbn in Hb. lia.
Qed.

(** Only the set changes. *)
Definition with_set (s : State P) (c : CatalogSet P) : State P :=
  MkState c (undo s) (hasCatalogChanges s) (localWAL s).

Lemma getPrev_eq (s : State P) key e o c :
  entries (set_ s) !! key = Some (e :: o :: c) →
  getPrev key s = (Ok (MkPtr key (address o)), s).
Proof. intros Hc. unfold getPrev. rewrite Hc. reflexivity. Qed.

Lemma createEntryNoLock_exists u (s : State P) e i :
  tracked_at u (set_ s) → own_view (set_ s) !! lower (getName e) = Some i →
  createEntryNoLock t e s = (Throw (already_exists (getName e)), s).
Proof.
  intros Htr Hv. unfold createEntryNoLock. rewrite (M_bind_ok _ _ s s s) by reflexivity.
  apply M_bind_throw. unfold observe, validateNotExistNoLock. rewrite (contains_eq u) by exact Htr.
  rewrite Hv. reflexivity.
Qed.

Lemma createEntryNoLock_ok u (s : State P) (e : CatalogEntry P) :
  tracked_at u (set_ s) → own_view (set_ s) !! lower (getName e) = None →
  isDeleted e = false → entry_ok e → (address e < next_address (set_ s))%nat →
  (∀ c, entries (set_ s) !! lower (getName e) = Some c → address e ∉ (address <$> c)) →
  ∃ cs o c, createEntryNoLock t e s =
      (Ok (MkPtr (lower (getName e)) (address o)), with_set s cs) ∧
    pushed u (set_ s) cs (setTimestamp (txn_id t) e) o c ∧ isDeleted o = true.
Proof.
  intros Htr Hv Hdel Hok Hb Hnew. unfold createEntryNoLock.
  rewrite (M_bind_ok _ _ s s s) by reflexivity.
  rewrite (M_bind_ok _ _ s tt s).
  2:{ unfold observe, validateNotExistNoLock. rewrite (contains_eq u) by exact Htr.
      rewrite Hv. reflexivity. }
  cbv zeta. cbn [setTimestamp getName getOID]. pose proof Hv as Hhead.
  rewrite (own_view_lookup u) in Hhead by exact Htr.
  pose (e' := setTimestamp (txn_id t) e).
  pose (s1 := MkCatalogSet (nextOID (set_ s)) (entries (set_ s)) (S (next_address (set_ s)))).
  assert (Htr1 : tracked_at u s1) by (apply tracked_alloc, Htr).
  destruct (entries (set_ s) !! lower (getName e)) as [c|] eqn:Hc.
  - pose proof (proj2 Htr _ _ Hc) as Hch. cbn in Hch.
    destruct (chain_ok_nonempty _ _ _ _ _ Hch) as (o & c' & ->).
    assert (Hod : isDeleted o = true).
    { unfold shown_head in Hhead. destruct (isDeleted o); [reflexivity|discriminate]. }
    rewrite (no_conflict _ _ _ _ Hch), Hod. cbn [negb].
    rewrite (M_bind_ok _ _ s tt s) by reflexivity.
    rewrite (M_bind_ok _ _ s (next_address (set_ s)) (with_set s s1)) by reflexivity.
    rewrite (M_bind_ok _ _ _ tt (with_set s s1)).
    2:{ unfold modify, on_set, with_set, set_entries, emplace_dummy. cbn. rewrite Hc. reflexivity. }
    assert (Hp : pushed u s1 (set_entries (emplaceNoLock e') s1) e' o c').
    { apply emplace_pushed; [exact Htr1|exact Hc|reflexivity|exact Hok|cbn; lia|].
      apply (Hnew _ eq_refl). }
    exists (set_entries (emplaceNoLock e') s1), o, c'. split_and!; [|exact Hp|exact Hod].
    rewrite (M_bind_ok _ _ _ tt (with_set s (set_entries (emplaceNoLock e') s1))) by reflexivity.
    eapply getPrev_eq. exact (proj1 Hp).
  - clear Hhead. rewrite (M_bind_ok _ _ s tt s) by reflexivity.
    rewrite (M_bind_ok _ _ s (next_address (set_ s)) (with_set s s1)) by reflexivity.
    pose (d := DummyCatalogEntry (P:=P) (next_address (set_ s)) (getName e) (getOID e)).
    pose (s2 := set_entries (emplace_dummy d) s1).
    destruct (emplace_dummy_tracked u s1 (getName e) (getOID e) (next_address (set_ s)))
      as (Hc2 & Htr2 & Hv2 & Hn2); [exact Htr1|exact Hc|cbn; lia|].
    rewrite (M_bind_ok _ _ _ tt (with_set s s2)) by reflexivity.
    assert (Hp : pushed u s2 (set_entries (emplaceNoLock e') s2) e' d []).
    { apply emplace_pushed; [exact Htr2|exact Hc2|reflexivity|exact Hok|cbn; lia|].
      cbn. intros Hin. apply list_elem_of_singleton in Hin. lia. }
    exists (set_entries (emplaceNoLock e') s2), d, []. split_and!; [| |reflexivity].
    + rewrite (M_bind_ok _ _ _ tt (with_set s (set_entries (emplaceNoLock e') s2))) by reflexivity.
      eapply getPrev_eq. exact (proj1 Hp).
    + destruct Hp as (H1 & H2 & H3 & H4 & H5). split_and!; [exact H1|exact H2|exact H3|exact H4|].
      rewrite H5. replace (own_view s2) with (own_view (set_ s)) by (symmetry; exact Hv2). reflexivity.
Qed.

Lemma dropEntryNoLock_missing u (s : State P) name oid :
  tracked_at u (set_ s) → own_view (set_ s) !! lower name = None →
  dropEntryNoLock t name oid s = (Throw (not_exist name), s).
Proof.
  intros Htr Hv. apply M_bind_throw. unfold observe, validateExistNoLock.
  rewrite (contains_eq u) by exact Htr. rewrite Hv. reflexivity.
Qed.

Lemma dropEntryNoLock_ok u (s : State P) name oid i :
  tracked_at u (set_ s) → own_view (set_ s) !! lower name = Some i →
  ∃ cs e o c, dropEntryNoLock t name oid s = (Ok (MkPtr (lower name) (address o)), with_set s cs) ∧
    pushed u (set_ s) cs e o c ∧ getName e = name ∧ isDeleted e = true ∧ getType e = DUMMY_ENTRY ∧
    entries (set_ s) !! lower name = Some (o :: c) ∧ isDeleted o = false ∧ image o = i ∧
    next_address cs = S (next_address (set_ s)) ∧ address e = next_address (set_ s) ∧
    entries cs = <[lower name := e :: o :: c]> (entries (set_ s)).
Proof.
  intros Htr Hv. unfold dropEntryNoLock. rewrite (M_bind_ok _ _ s tt s).
  2:{ unfold observe, validateExistNoLock. rewrite (contains_eq u) by exact Htr. rewrite Hv. reflexivity. }
  pose proof Hv as Hhead. rewrite (own_view_lookup u) in Hhead by exact Htr.
  destruct (entries (set_ s) !! lower name) as [[|o c]|] eqn:Hc; try discriminate.
  unfold shown_head in Hhead. destruct (isDeleted o) eqn:Hod; [discriminate|].
  injection Hhead as Hi.
  pose (s1 := MkCatalogSet (nextOID (set_ s)) (entries (set_ s)) (S (next_address (set_ s)))).
  rewrite (M_bind_ok _ _ s (next_address (set_ s)) (with_set s s1)) by reflexivity. cbv zeta.
  pose (e := setTimestamp (txn_id t) (DummyCatalogEntry (P:=P) (next_address (set_ s)) name oid)).
  fold e.
  assert (Hp : pushed u s1 (set_entries (emplaceNoLock e) s1) e o c).
  { apply emplace_pushed; [apply tracked_alloc, Htr|exact Hc|reflexivity|split; reflexivity|cbn; lia|].
    eapply fresh_not_in; [exact Htr|exact Hc|reflexivity]. }
  exists (set_entries (emplaceNoLock e) s1), e, o, c.
  split_and!; try reflexivity; try assumption.
  - rewrite (M_bind_ok _ _ _ tt (with_set s (set_entries (emplaceNoLock e) s1))) by reflexivity.
    eapply getPrev_eq. exact (proj1 Hp).
  - unfold set_entries, emplaceNoLock. cbn. rewrite Hc. reflexivity.
Qed.

(** ** Undo and log records *)

Definition outcome_unit {A} (o : outcome A) : outcome unit :=
  match o with Ok _ => Ok tt | Throw e => Throw e end.

Lemma push_create_drop_eq (s : State P) key e o c int skip :
  entries (set_ s) !! key = Some (e :: o :: c) → address o ≠ address e →
  ∃ w, pushCreateDropCatalogEntry t (MkPtr key (address o)) int skip s =
    (if negb (txn_shouldLogToWAL t) || skip then Ok tt
     else outcome_unit (create_drop_record o e int),
     MkState (set_ s) (undo s ++ [MkPtr key (address o)]) true w).
Proof.
  intros Hc Ha. unfold pushCreateDropCatalogEntry.
  pose (s1 := MkState (set_ s) (undo s ++ [MkPtr key (address o)]) true (localWAL s)).
  rewrite (M_bind_ok _ _ s tt s1) by reflexivity.
  destruct (negb (txn_shouldLogToWAL t) || skip); [exists (localWAL s); reflexivity|].
  rewrite (M_bind_ok _ _ s1 s1 s1) by reflexivity. cbv zeta. cbn [ptr_key ptr_address set_ s1].
  rewrite Hc. cbn [default]. unfold find_entry. cbn [List.find id].
  rewrite (bool_decide_eq_false_2 (address e = address o)) by congruence.
  rewrite (bool_decide_eq_true_2 (address o = address o)) by reflexivity.
  cbn [find_next]. rewrite (bool_decide_eq_true_2 (address o = address o)) by reflexivity.
  unfold mbind, M_bind, observe, log, modify.
  destruct (create_drop_record o e int) as [r|ex]; eexists; reflexivity.
Qed.

Lemma create_record_outcome (o e : CatalogEntry P) int :
  entry_ok o → isDeleted o = true → getType e ≠ DUMMY_ENTRY →
  outcome_unit (create_drop_record o e int) =
    if creatable (getType e) then Ok tt else Throw unsupported.
Proof.
  intros [Ho _] Hd He. rewrite Hd in Ho. symmetry in Ho. unfold create_drop_record, ku_assert_o.
  rewrite Ho, Hd. destruct (getType e); try reflexivity; [|congruence]. cbn.
  destruct (hasParent e); reflexivity.
Qed.

Lemma drop_record_outcome (o e : CatalogEntry P) int :
  entry_ok o → isDeleted o = false → isDeleted e = true → getType e = DUMMY_ENTRY →
  outcome_unit (create_drop_record o e int) =
    if droppable (image o) then Ok tt else Throw unsupported.
Proof.
  intros [Ho _] Hd He Hty. unfold create_drop_record, ku_assert_o, droppable. rewrite Hty, He.
  cbn [image image_hasParent image_type]. destruct (hasParent o); [reflexivity|].
  destruct (getType o); reflexivity.
Qed.

Lemma logged_eq (b : bool) :
  (if negb (txn_shouldLogToWAL t) || false then Ok tt
   else if b then Ok tt else Throw unsupported) = logged t b.
Proof. unfold logged. destruct (txn_shouldLogToWAL t), b; reflexivity. Qed.

Lemma pushed_entry_ok u s s' e o c : pushed u s s' e o c → entry_ok o.
Proof.
  intros (Hc & _ & _ & [_ Hok] & _). specialize (Hok _ _ Hc).
  pose proof (ok_entries _ _ _ _ _ Hok) as He. apply Forall_cons_1 in He as [_ He].
  apply Forall_cons_1 in He as [He _]. exact He.
Qed.

(** ** Each operation *)

(** An operation does to the set and the writer's records what the specification says. *)
Definition refines (s : State P) (r : outcome unit * State P)
    (spec : outcome unit * gmap string (EntryImage P)) : Prop :=
  r.1 = spec.1 ∧ own_view (set_ r.2) = spec.2 ∧ tracked r.2.

Lemma create_refines s e :
  tracked s → isDeleted e = false → getType e ≠ DUMMY_ENTRY →
  refines s (exec t (Create e) s) (spec t (nextOID (set_ s)) (Create e) (own_view (set_ s))).
Proof.
  intros Htr Hdel Hty. cbn [exec]. unfold createEntry.
  pose (oid := nextOID (set_ s)). pose (a := next_address (set_ s)).
  pose (s1 := with_set s (MkCatalogSet (uwrap 64 (oid + 1)) (entries (set_ s)) (S a))).
  pose (e1 := setOID oid (set_address a e)).
  assert (Htr1 : tracked_at (undo s) (set_ s1)).
  { destruct Htr as [Hw Hok]. split; [exact Hw|]. eapply chains_ok_bound; [exact Hok|cbn; lia]. }
  assert (Hv1 : own_view (set_ s1) = own_view (set_ s)) by reflexivity.
  rewrite !M_bind_assoc, (M_bind_ok _ _ s oid (with_set s
    (MkCatalogSet (uwrap 64 (oid + 1)) (entries (set_ s)) a))) by reflexivity.
  rewrite M_bind_assoc, (M_bind_ok _ _ _ a s1) by reflexivity. fold e1. rewrite M_bind_assoc.
  cbn [spec]. destruct (own_view (set_ s) !! lower (getName e)) as [i|] eqn:Hv.
  - rewrite (M_bind_throw _ _ _ _ _ (createEntryNoLock_exists _ s1 e1 i Htr1 Hv)).
    split_and!; [reflexivity|exact Hv1|exact Htr1].
  - destruct (createEntryNoLock_ok (undo s) s1 e1 Htr1 Hv Hdel) as (cs & o & c & Hrun & Hp & Hod).
    { split; [cbn; rewrite Hdel; symmetry; apply bool_decide_eq_false; exact Hty|]. cbn. congruence. }
    { cbn. lia. }
    { intros c Hc. eapply fresh_not_in; [exact Htr|exact Hc|reflexivity]. }
    rewrite (M_bind_ok _ _ _ _ _ Hrun). set (s2 := with_set s1 cs).
    rewrite M_bind_assoc, (M_bind_ok _ _ s2 s2 s2), Hundo by reflexivity.
    pose proof Hp as (Hc & Ha & _ & Htr2 & Hv2).
    destruct (push_create_drop_eq s2 _ _ _ _ (isInternal (set_ s2)) false Hc Ha) as (w & Hpush).
    unfold refines, mbind, M_bind.
    change (lower (getName e1)) with (lower (getName (setTimestamp (txn_id t) e1))). rewrite Hpush.
    rewrite (create_record_outcome o (setTimestamp (txn_id t) e1) (isInternal (set_ s2))
      (pushed_entry_ok _ _ _ _ _ _ Hp) Hod Hty), logged_eq.
    cbn [fst snd]. split_and!.
    + destruct (logged t (creatable _)) as [[]|]; reflexivity.
    + transitivity (own_view cs); [destruct (logged t (creatable _)) as [[]|]; reflexivity|].
      rewrite Hv2. unfold shown_head. cbn [isDeleted setTimestamp e1 setOID set_address].
      rewrite Hdel. reflexivity.
    + destruct (logged t (creatable _)) as [[]|]; exact Htr2.
Qed.

Lemma drop_refines s name oid :
  tracked s →
  refines s (exec t (Drop name oid) s) (spec t (nextOID (set_ s)) (Drop name oid) (own_view (set_ s))).
Proof.
  intros Htr. cbn [exec spec]. unfold dropEntry.
  destruct (own_view (set_ s) !! lower name) as [i|] eqn:Hv.
  - destruct (dropEntryNoLock_ok (undo s) s name oid i Htr Hv)
      as (cs & e & o & c & Hrun & Hp & Hn & Hd & Hty & _ & Hod & <- & _).
    rewrite (M_bind_ok _ _ _ _ _ Hrun). set (s2 := with_set s cs).
    rewrite (M_bind_ok _ _ s2 s2 s2), Hundo by reflexivity.
    pose proof Hp as (Hc & Ha & _ & Htr2 & Hv2). rewrite Hn in Hc, Htr2, Hv2.
    destruct (push_create_drop_eq s2 _ _ _ _ (isInternal (set_ s2)) false Hc Ha) as (w & ->).
    rewrite (drop_record_outcome _ _ _ (pushed_entry_ok _ _ _ _ _ _ Hp) Hod Hd Hty), logged_eq.
    split_and!; [reflexivity| |exact Htr2].
    transitivity (own_view cs); [reflexivity|]. rewrite Hv2. unfold shown_head. rewrite Hd. reflexivity.
  - rewrite (M_bind_throw _ _ _ _ _ (dropEntryNoLock_missing _ s name oid Htr Hv)).
    split_and!; [reflexivity|reflexivity|exact Htr].
Qed.

(** ** Altering a table *)

Lemma getEntryNoLock_eq u (s : State P) name i :
  tracked_at u (set_ s) → own_view (set_ s) !! lower name = Some i →
  ∃ o c, entries (set_ s) !! lower name = Some (o :: c) ∧ isDeleted o = false ∧ image o = i ∧
    lower (getName o) = lower name ∧ entry_ok o ∧
    getEntryNoLock (txn_id t) (txn_startTS t) name (set_ s) = Ok o.
Proof.
  intros Htr Hv. pose proof Hv as Hhead. rewrite (own_view_lookup u) in Hhead by exact Htr.
  destruct (entries (set_ s) !! lower name) as [[|o c]|] eqn:Hc; try discriminate.
  unfold shown_head in Hhead. destruct (isDeleted o) eqn:Hod; [discriminate|]. injection Hhead as Hi.
  pose proof (proj2 Htr _ _ Hc) as Hch. cbn in Hch. exists o, c.
  split_and!; [reflexivity|exact Hod|exact Hi|apply (Forall_cons_1 _ _ _ (ok_names _ _ _ _ _ Hch))
    |apply (Forall_cons_1 _ _ _ (ok_entries _ _ _ _ _ Hch))|].
  unfold getEntryNoLock, validateExistNoLock. rewrite (contains_eq u) by exact Htr.
  rewrite Hv. cbn [mbind outcome_bind]. rewrite Hc. cbn [option_bind mbind].
  change (traverseVersionChainsForTransactionNoLock (txn_id t) (txn_startTS t) (o :: c)) with
    (if getTimestamp o =? txn_id t then Some o
     else if getTimestamp o <=? txn_startTS t then Some o
     else traverseVersionChainsForTransactionNoLock (txn_id t) (txn_startTS t) c).
  destruct (Forall_cons_1 _ _ _ (ok_stamps _ _ _ _ _ Hch)) as [Hts _]. cbn in Hts.
  destruct (getTimestamp o =? txn_id t) eqn:Heq; [rewrite Hod; reflexivity|].
  apply Z.eqb_neq in Heq. rewrite (proj2 (Z.leb_le _ _)) by lia. rewrite Hod. reflexivity.
Qed.

(** The changed copy of a table's entry. *)
Definition altered (info : AlterInfo P) (a : nat) (oid : Z) (o : CatalogEntry P) : CatalogEntry P :=
  setTimestamp (txn_id t) (setOID (getOID o)
    match info with
    | RENAME newName => rename newName (set_address a o)
    | ADD_FROM_TO_CONNECTION change => set_payload (change oid) (set_address a o)
    | ALTER_PROPERTIES change => set_payload change (set_address a o)
    end).

Lemma alter_eq u (s : State P) info o :
  tracked_at u (set_ s) → isDeleted o = false →
  ∃ cs, alter (txn_id t) info o s =
      (Ok (altered info (next_address (set_ s)) (nextOID (set_ s)) o), with_set s cs) ∧
    entries cs = entries (set_ s) ∧ next_address cs = S (next_address (set_ s)) ∧
    tracked_at u cs ∧ own_view cs = own_view (set_ s).
Proof.
  intros [Hw Hok] Hod. unfold alter. rewrite Hod.
  assert (Htr : ∀ n, tracked_at u (MkCatalogSet n (entries (set_ s)) (S (next_address (set_ s))))).
  { intros n. split; [exact Hw|]. eapply chains_ok_bound; [exact Hok|cbn; lia]. }
  destruct info as [newName|change|change]; eexists;
    (split_and!; [reflexivity|reflexivity|reflexivity|apply Htr|reflexivity]).
Qed.

Lemma alter_missing u (s : State P) name info :
  tracked_at u (set_ s) → own_view (set_ s) !! lower name = None →
  alterTableEntry t name info s = (Throw (not_exist name), s).
Proof.
  intros Htr Hv. apply M_bind_throw. unfold observe, validateExistNoLock.
  rewrite (contains_eq u) by exact Htr. rewrite Hv. reflexivity.
Qed.

(** The first steps of [alterTableEntry] on a table. *)
Lemma alter_start u (s : State P) name info i :
  tracked_at u (set_ s) → own_view (set_ s) !! lower name = Some i →
  ∃ o c cs, entries (set_ s) !! lower name = Some (o :: c) ∧ isDeleted o = false ∧ image o = i ∧
    lower (getName o) = lower name ∧ entry_ok o ∧
    entries cs = entries (set_ s) ∧ next_address cs = S (next_address (set_ s)) ∧
    tracked_at u cs ∧ own_view cs = own_view (set_ s) ∧
    alterTableEntry t name info s =
      if negb (image_is_table i) then (Throw assert_failure, s)
      else
        let newEntry := altered info (next_address (set_ s)) (nextOID (set_ s)) o in
        let old := MkPtr (lower name) (address o) in
        match info with
        | RENAME _ =>
            dropEntryNoLock t name (getOID o) ;;
            created ← createEntryNoLock t newEntry;
            if txn_shouldAppendToUndoBuffer t then
              pushAlterCatalogEntry t old name ;;
              s ← get_state;
              pushCreateDropCatalogEntry t created (isInternal (set_ s)) true
            else mret tt
        | _ =>
            modify (on_set (set_entries (emplaceNoLock newEntry))) ;;
            if txn_shouldAppendToUndoBuffer t then pushAlterCatalogEntry t old name else mret tt
        end (with_set s cs).
Proof.
  intros Htr Hv. destruct (getEntryNoLock_eq u s name i Htr Hv) as (o & c & Hc & Hod & Hi & Hn & Hok & Hg).
  destruct (alter_eq u s info o Htr Hod) as (cs & Ha & He & Hnx & Htr' & Hv').
  exists o, c, cs. split_and!; try assumption. unfold alterTableEntry.
  rewrite (M_bind_ok _ _ s tt s).
  2:{ unfold observe, validateExistNoLock. rewrite (contains_eq u) by exact Htr. rewrite Hv. reflexivity. }
  rewrite (M_bind_ok _ _ s o s) by (unfold observe; rewrite Hg; reflexivity).
  replace (is_table o) with (image_is_table i) by (rewrite <- Hi; reflexivity).
  destruct (image_is_table i); [|reflexivity]. cbn [negb].
  rewrite (M_bind_ok _ _ s tt s) by reflexivity. rewrite (M_bind_ok _ _ _ _ _ Ha).
  destruct info; reflexivity.
Qed.

Lemma push_alter_eq (s : State P) p name :
  ∃ w, pushAlterCatalogEntry t p name s = (Ok tt, MkState (set_ s) (undo s ++ [p]) true w).
Proof.
  unfold pushAlterCatalogEntry.
  rewrite (M_bind_ok _ _ s tt (MkState (set_ s) (undo s ++ [p]) true (localWAL s))) by reflexivity.
  destruct (txn_shouldLogToWAL t); eexists; reflexivity.
Qed.

(** A change in place: a new version under the same name. *)
Lemma alter_in_place u (s : State P) cs name info o c i a oid :
  tracked_at u cs → entries cs !! lower name = Some (o :: c) → isDeleted o = false → entry_ok o →
  image o = i → lower (getName o) = lower name → (∀ n, info ≠ RENAME n) → undo s = u →
  (a < next_address cs)%nat → a ∉ (address <$> o :: c) →
  let e := altered info a oid o in
  refines s ((modify (on_set (set_entries (emplaceNoLock e))) ;;
     if txn_shouldAppendToUndoBuffer t
     then pushAlterCatalogEntry t (MkPtr (lower name) (address o)) name else mret tt) (with_set s cs))
    (Ok tt, <[lower name := image_with i (image_name i)
       (match info with
        | RENAME _ => image_payload i
        | ADD_FROM_TO_CONNECTION change => change oid (image_payload i)
        | ALTER_PROPERTIES change => change (image_payload i)
        end)]> (own_view cs)).
Proof.
  intros Htr Hc Hod Hok <- Hn Hinfo Hu Ha Hnew e.
  assert (Hname : lower (getName e) = lower name).
  { subst e. destruct info; [destruct (Hinfo newName eq_refl)|exact Hn|exact Hn]. }
  assert (He : entry_ok e ∧ isDeleted e = false ∧ address e = a ∧ getTimestamp e = txn_id t).
  { subst e. destruct info; (split_and!; [|exact Hod|reflexivity|reflexivity]); exact Hok. }
  destruct He as (Heok & Hed & Hea & Hets).
  assert (Hp : pushed u cs (set_entries (emplaceNoLock e) cs) e o c).
  { apply emplace_pushed; rewrite ?Hname, ?Hea; assumption. }
  rewrite Hundo, (M_bind_ok _ _ _ tt (with_set s (set_entries (emplaceNoLock e) cs))) by reflexivity.
  destruct (push_alter_eq (with_set s (set_entries (emplaceNoLock e) cs))
    (MkPtr (lower name) (address o)) name) as (w & ->).
  destruct Hp as (_ & _ & _ & Htr' & Hv). rewrite Hname in Htr', Hv.
  split_and!; [reflexivity| |cbn [snd with_set undo]; rewrite <- Hu in Htr'; exact Htr'].
  cbn [snd set_ with_set]. rewrite Hv. unfold shown_head. rewrite Hed.
  subst e. destruct info; [destruct (Hinfo newName eq_refl)|reflexivity..].
Qed.

Lemma rename_refines s name newName i o c cs a oid :
  tracked s → tracked_at (undo s) cs → entries cs = entries (set_ s) →
  own_view cs = own_view (set_ s) → own_view cs !! lower name = Some i →
  entries cs !! lower name = Some (o :: c) → isDeleted o = false → entry_ok o → image o = i →
  next_address cs = S a → a = next_address (set_ s) →
  delete (lower name) (own_view cs) !! lower newName = None →
  let e := altered (RENAME newName) a oid o in
  refines s ((dropEntryNoLock t name (getOID o) ;;
     created ← createEntryNoLock t e;
     if txn_shouldAppendToUndoBuffer t then
       pushAlterCatalogEntry t (MkPtr (lower name) (address o)) name ;;
       s ← get_state;
       pushCreateDropCatalogEntry t created (isInternal (set_ s)) true
     else mret tt) (with_set s cs))
    (Ok tt, <[lower newName := image_with i newName (image_payload i)]>
              (delete (lower name) (own_view cs))).
Proof.
  intros Htr0 Htr Hent Hvv Hv Hc Hod Hok <- Hnx Ha Hfree e.
  destruct (dropEntryNoLock_ok (undo s) (with_set s cs) name (getOID o) _ Htr Hv)
    as (cs1 & e1 & o1 & c1 & Hrun & Hp1 & Hn1 & Hd1 & _ & Hc1 & _ & _ & Hnx1 & Ha1 & Hent1).
  cbn [with_set set_] in Hc1, Hnx1, Ha1, Hent1. rewrite Hc in Hc1. injection Hc1 as <- <-.
  rewrite (M_bind_ok _ _ _ _ _ Hrun).
  pose proof Hp1 as (_ & _ & _ & Htr1 & Hv1). rewrite Hn1 in Htr1, Hv1.
  unfold shown_head in Hv1. rewrite Hd1 in Hv1.
  set (p1 := MkPtr (lower name) (address o)) in *.
  destruct (createEntryNoLock_ok (undo s ++ [p1]) (with_set s cs1) e Htr1) as (cs2 & o2 & c2 & Hrun2 & Hp2 & _).
  - cbn [with_set set_]. rewrite Hv1. exact Hfree.
  - exact Hod.
  - exact Hok.
  - cbn. lia.
  - cbn [with_set set_]. intros c' Hc'. rewrite Hent1, Hent in Hc'. cbn [address e altered setTimestamp].
    apply lookup_insert_Some in Hc' as [[_ <-]|[_ Hc']].
    + cbn [fmap list_fmap]. intros Hin. apply elem_of_cons in Hin as [Hin|Hin].
      * cbn in Hin. rewrite Ha1 in Hin. lia.
      * revert Hin. rewrite Hent in Hc. apply (fresh_not_in _ _ _ _ Htr0 Hc). cbn. lia.
    + apply (fresh_not_in _ _ _ _ Htr0 Hc'). cbn. lia.
  - rewrite (M_bind_ok _ _ _ _ _ Hrun2), Hundo.
    destruct (push_alter_eq (with_set (with_set s cs1) cs2) p1 name) as (w & Hpa).
    rewrite (M_bind_ok _ _ _ _ _ Hpa). cbn [set_ undo with_set] in *.
    rewrite (M_bind_ok get_state _ _ _ _ eq_refl).
    pose proof Hp2 as (Hc2 & Ha2 & _ & Htr2 & Hv2).
    destruct (push_create_drop_eq (MkState cs2 (undo s ++ [p1]) true w) _ _ _ _ (isInternal cs2) true Hc2 Ha2)
      as (w2 & Hpc).
    change (lower (getName e)) with (lower (getName (setTimestamp (txn_id t) e))) in *.
    cbn [set_]. rewrite Hpc, orb_true_r. split_and!; [reflexivity| |exact Htr2].
    cbn [snd set_]. rewrite Hv2, Hv1. unfold shown_head.
    replace (isDeleted (setTimestamp (txn_id t) e)) with false by (symmetry; exact Hod). reflexivity.
Qed.

Lemma alter_refines s name info :
  tracked s → admissible (Alter name info) (own_view (set_ s)) →
  refines s (exec t (Alter name info) s)
    (spec t (nextOID (set_ s)) (Alter name info) (own_view (set_ s))).
Proof.
  intros Htr Hadm. cbn [exec spec].
  destruct (own_view (set_ s) !! lower name) as [i|] eqn:Hv.
  - destruct (alter_start _ _ name info i Htr Hv)
      as (o & c & cs & Hc & Hod & Hi & Hn & Hok & Hent & Hnx & Htr' & Hv' & ->).
    destruct (image_is_table i); cbn [negb]; [|split_and!; [reflexivity|reflexivity|exact Htr]].
    assert (Hnew : next_address (set_ s) ∉ (address <$> o :: c))
      by (eapply fresh_not_in; [exact Htr|exact Hc|reflexivity]).
    cbv zeta. rewrite <- Hent in Hc. destruct info as [newName|change|change].
    + rewrite <- Hv'. eapply (rename_refines s name newName i); eauto; rewrite ?Hv'; assumption.
    + rewrite <- Hv'. apply (alter_in_place (undo s) s cs name (ADD_FROM_TO_CONNECTION change) o c i);
        try assumption; [discriminate|reflexivity|lia].
    + rewrite <- Hv'. apply (alter_in_place (undo s) s cs name (ALTER_PROPERTIES change) o c i);
        try assumption; [discriminate|reflexivity|lia].
  - rewrite (alter_missing _ _ _ _ Htr Hv). split_and!; [reflexivity|reflexivity|exact Htr].
Qed.

Lemma exec_refines s c :
  tracked s → admissible c (own_view (set_ s)) →
  refines s (exec t c s) (spec t (nextOID (set_ s)) c (own_view (set_ s))).
Proof.
  intros Htr Hadm. destruct c as [e|name oid|name info].
  - destruct Hadm. apply create_refines; assumption.
  - apply drop_refines, Htr.
  - apply alter_refines; assumption.
Qed.

(** ** A writer's session *)

(** The operations of a transaction, those that throw included. *)
Fixpoint run (cmds : list cmd) (s : State P) : State P :=
  match cmds with
  | [] => s
  | c :: cmds' => run cmds' (state_of (exec t c) s)
  end.
Fixpoint admissible_all (cmds : list cmd) (s : State P) : Prop :=
  match cmds with
  | [] => True
  | c :: cmds' => admissible c (own_view (set_ s)) ∧ admissible_all cmds' (state_of (exec t c) s)
  end.

Lemma run_tracked cmds : ∀ s, tracked s → admissible_all cmds s → tracked (run cmds s).
Proof.
  induction cmds as [|c cmds IH]; intros s Htr Hadm; [exact Htr|]. destruct Hadm as [Hc Hadm].
  cbn [run]. apply IH; [|exact Hadm]. apply (exec_refines s c Htr Hc).
Qed.

End Operations.

(** ** The theorems *)

Section Theorems.
Context {P : Type}.

(** The state in which a writer starts: its snapshot contains everything committed, nothing else
    runs, and its undo buffer is empty. *)
Record writer_starts (t : Txn) (now : Z) (s : State P) : Prop := {
  starts_undo : txn_shouldAppendToUndoBuffer t = true;
  starts_id : START_TRANSACTION_ID ≤ txn_id t;
  starts_now : 0 ≤ now < START_TRANSACTION_ID;
  starts_snapshot : now ≤ txn_startTS t < START_TRANSACTION_ID;
  starts_clean : clean now (entries (set_ s));
  starts_chains : chains_ok (txn_id t) now (next_address (set_ s)) (entries (set_ s));
  starts_records : undo s = [];
}.

Lemma starts_tracked t now s : writer_starts t now s → tracked t now (entries (set_ s)) s.
Proof. intros []. unfold tracked. rewrite starts_records0. split; [constructor|assumption]. Qed.

(** C11. After any operations of the only writer, the next operation on the catalog set (create, drop, alter or
    rename, and their error cases, a rename to a name in use apart) is the map operation [spec] on the
    writer's own view, with the exceptions the code throws; and what any other transaction sees has not
    changed since the writer started. Renames, earlier ones too, are to names that are free in the writer's
    view, as the binder checks: otherwise see [rename_to_existing_leaks]. No chain a transaction traverses ends
    without a version it may see, so [getEntries] returns what the view holds. *)
Theorem catalog_op_refines t now (s0 : State P) cmds c :
  writer_starts t now s0 → admissible_all t cmds s0 →
  admissible c (own_view t (set_ (run t cmds s0))) →
  let s := run t cmds s0 in
  (exec t c s).1 = (spec t (nextOID (set_ s)) c (own_view t (set_ s))).1 ∧
  own_view t (set_ (exec t c s).2) = (spec t (nextOID (set_ s)) c (own_view t (set_ s))).2 ∧
  (∀ id st, other_reader (txn_id t) id st →
    view id st (set_ (exec t c s).2) = view id st (set_ s0)) ∧
  (∀ id st, 0 ≤ st → getEntries id st (set_ (exec t c s).2) = Ok (visible_entries id st (set_ (exec t c s).2))).
Proof.
  intros Hst Hall Hadm s. pose proof Hst as [Hu Hid Hnow Hsnap _ _ _].
  pose proof (run_tracked t now _ Hu Hid Hnow Hsnap cmds s0 (starts_tracked _ _ _ Hst) Hall) as Htr.
  destruct (exec_refines t now _ Hu Hid Hnow Hsnap _ c Htr Hadm) as (Hr & Hv & Htr').
  split_and!; [exact Hr|exact Hv| |intros id st; exact (getEntries_ok _ _ _ id st _ (proj2 Htr'))].
  intros id st Hreader. rewrite !view_eq. apply (writes_private _ _ _ _ _ _ (proj1 Htr') Hid Hreader).
Qed.

(** C27. Committing the records of the only writer publishes its view: a transaction whose snapshot is
    at or after the commit timestamp sees exactly what the writer saw, and one with an earlier snapshot
    sees what it saw before. No assertion fails. Renames are to names that are free in the writer's view. *)
Theorem catalog_commit_publishes t now (s0 : State P) cmds ts :
  writer_starts t now s0 → admissible_all t cmds s0 → now < ts < START_TRANSACTION_ID →
  let s := run t cmds s0 in
  ∃ s', commit_records ts (undo s) (set_ s) = (Ok tt, s') ∧
    (∀ id st, ts ≤ st → view id st s' = own_view t (set_ s)) ∧
    (∀ id st, other_reader (txn_id t) id st → st < ts → id ≠ ts → view id st s' = view id st (set_ s0)).
Proof.
  intros Hst Hall Hts s. pose proof Hst as [Hu Hid Hnow Hsnap Hcl Hch Hrec].
  pose proof (run_tracked t now _ Hu Hid Hnow Hsnap cmds s0 (starts_tracked _ _ _ Hst) Hall) as [Hw Hok].
  destruct (commit_writes _ now ts _ _ _ Hw Hcl ltac:(lia) ltac:(solve_ts)) with (s := set_ s)
    as (s' & Hrun & He); [|reflexivity|].
  { intros key c Hc. exact (ok_addresses _ _ _ _ _ (Hch _ _ Hc)). }
  exists s'. split_and!; [exact Hrun| |].
  - intros id st Hle. unfold own_view. rewrite !view_eq, He.
    eapply restamp_new_reader; [exact Hok|lia|lia|lia].
  - intros id st Hreader Hlt Hne. rewrite !view_eq, He.
    rewrite restamp_old_reader by (try exact Hreader; lia).
    exact (writes_private _ _ _ _ _ _ Hw Hid Hreader).
Qed.

(** C30. Rolling the records of the only writer back, newest first, gives every transaction, the
    writer included, the view it had before the writer started; no assertion fails. Renames are to names
    that are free in the writer's view. *)
Theorem catalog_rollback_restores t now (s0 : State P) cmds :
  writer_starts t now s0 → admissible_all t cmds s0 →
  let s := run t cmds s0 in
  ∃ s', for_each (rev (undo s)) rollbackCatalogEntryRecord (set_ s) = (Ok tt, s') ∧
    ∀ id st, view id st s' = view id st (set_ s0).
Proof.
  intros Hst Hall s. pose proof Hst as [Hu Hid Hnow Hsnap Hcl Hch Hrec].
  pose proof (run_tracked t now _ Hu Hid Hnow Hsnap cmds s0 (starts_tracked _ _ _ Hst) Hall) as [Hw Hok].
  destruct (rollback_writes _ _ _ _ Hw ∅ (set_ s)) as (s' & Hrun & Hsame).
  - apply map_disjoint_empty_r.
  - apply map_Forall_empty.
  - symmetry. apply map_union_empty.
  - exists s'. split; [exact Hrun|]. intros id st. rewrite !view_eq.
    apply same_but_dummies_view, Hsame.
Qed.

End Theorems.
(** ** A concrete catalog *)

Definition person : CatalogEntry nat := MkEntry 0 NODE_TABLE_ENTRY "Person" 0 1 false false (Some 7%nat).
Definition sample_set : CatalogSet nat :=
  MkCatalogSet 1 {["person" := [person; DummyCatalogEntry 1 "Person" 0]]} 2.
Definition sample_state : State nat := MkState sample_set [] false [].
Definition sample_txn : Txn := MkTxn (START_TRANSACTION_ID + 1) 1 true true.
Definition city : CatalogEntry nat :=
  MkEntry 0 NODE_TABLE_ENTRY "City" INVALID_OID INVALID_TRANSACTION false false (Some 8%nat).
Definition sample_cmds : list (cmd (P := nat)) :=
  [Create city; Alter "PERSON" (RENAME "Human"); Alter "human" (ALTER_PROPERTIES (fmap S)); Drop "city" 1].

Lemma sample_chain_ok : chain_ok (START_TRANSACTION_ID + 1) 1 2 "person"
  [person; DummyCatalogEntry 1 "Person" 0].
Proof.
  constructor.
  - repeat constructor.
  - repeat constructor; cbn; lia.
  - repeat constructor; cbn; congruence.
  - apply (bool_decide_eq_true_1 _). vm_compute. reflexivity.
  - repeat constructor.
  - eexists. split; reflexivity.
Qed.

Lemma sample_starts : writer_starts sample_txn 1 sample_state.
Proof.
  constructor; cbn; try reflexivity; try solve_ts.
  - apply map_Forall_singleton. repeat constructor; cbn; lia.
  - apply map_Forall_singleton. exact sample_chain_ok.
Qed.

Lemma sample_admissible : admissible_all sample_txn sample_cmds sample_state.
Proof. vm_compute. split_and!; try reflexivity; congruence. Qed.

(** The writer drops the altered table; a reader still sees the old one. *)
Lemma catalog_op_refines_witness :
  let s := run sample_txn sample_cmds sample_state in
  (exec sample_txn (Drop "HUMAN" 0) s).1 = Ok tt ∧
  own_view sample_txn (set_ (exec sample_txn (Drop "HUMAN" 0) s).2) = ∅ ∧
  view (START_TRANSACTION_ID + 9) 1 (set_ (exec sample_txn (Drop "HUMAN" 0) s).2) =
    {["person" := image person]}.
Proof.
  destruct (catalog_op_refines sample_txn 1 sample_state sample_cmds (Drop "HUMAN" 0)
    sample_starts sample_admissible I) as (Hr & Hv & Ho & _).
  cbv zeta. rewrite Hr, Hv, Ho by (split; cbn; solve_ts).
  split_and!; vm_compute; reflexivity.
Defined.

Lemma catalog_commit_publishes_witness :
  ∃ s', commit_records 2 (undo (run sample_txn sample_cmds sample_state))
      (set_ (run sample_txn sample_cmds sample_state)) = (Ok tt, s') ∧
    view (START_TRANSACTION_ID + 9) 2 s' =
      {["human" := MkImage NODE_TABLE_ENTRY "Human" 0 false (Some 8%nat)]} ∧
    view (START_TRANSACTION_ID + 9) 1 s' = {["person" := image person]}.
Proof.
  destruct (catalog_commit_publishes sample_txn 1 sample_state sample_cmds 2
    sample_starts sample_admissible) as (s' & Hrun & Hnew & Hold); [split; solve_ts|].
  exists s'. split_and!; [exact Hrun|rewrite Hnew by lia|rewrite Hold by (first [split; cbn; solve_ts|solve_ts])];
    vm_compute; reflexivity.
Defined.

Lemma catalog_rollback_restores_witness :
  ∃ s', for_each (rev (undo (run sample_txn sample_cmds sample_state))) rollbackCatalogEntryRecord
      (set_ (run sample_txn sample_cmds sample_state)) = (Ok tt, s') ∧
    view (START_TRANSACTION_ID + 1) 1 s' = {["person" := image person]}.
Proof.
  destruct (catalog_rollback_restores sample_txn 1 sample_state sample_cmds
    sample_starts sample_admissible) as (s' & Hrun & Hv).
  exists s'. split; [exact Hrun|]. rewrite Hv. vm_compute. reflexivity.
Defined.

(** Only [createEntryNoLock] checks for write-write conflicts. With concurrent writers, a transaction
    whose snapshot still has the table changes it after another one dropped it and committed: the drop
    is lost. *)
Lemma alter_misses_conflict :
  let t2 := MkTxn (START_TRANSACTION_ID + 2) 1 true true in
  let s1 := state_of (exec t2 (Drop "Person" 0)) sample_state in
  let dropped := (commit_records 2 (undo s1) (set_ s1)).2 in
  let '(r, s2) := exec sample_txn (Alter "Person" (ALTER_PROPERTIES (fmap S)))
    (MkState dropped [] false []) in
  view (START_TRANSACTION_ID + 9) 2 dropped = ∅ ∧ r = Ok tt ∧
  view (START_TRANSACTION_ID + 1) 1 (set_ s2) = {["person" := MkImage NODE_TABLE_ENTRY "Person" 0 false (Some 8%nat)]}.
Proof. vm_compute. split_and!; reflexivity. Qed.

(** A rename to a name in use throws after the tombstone of the old name was put in place, and leaves
    no undo record for it. *)
Lemma rename_to_existing_leaks :
  let s1 := state_of (exec sample_txn (Create city)) sample_state in
  let '(r, s2) := exec sample_txn (Alter "Person" (RENAME "City")) s1 in
  r = Throw (already_exists "City") ∧ undo s2 = undo s1 ∧
  own_view sample_txn (set_ s2) !! "person" = None.
Proof. vm_compute. split_and!; reflexivity. Qed.

End CatalogTheorems.
