(* ===== verification/CatalogPersist.v ===== *)
(** * Checkpointing a catalog set

    Serializing a catalog set on a quiescent system and reading the file back. *)

From stdpp Require Import base numbers list gmap strings sorting.
From Stdlib Require Import ZArith Lia.
From S2P Require Import Prelude CatalogSet CatalogSpec.
Import CatalogSet CatalogSpec.

Open Scope Z_scope.

Module CatalogPersist.
Section Persist.
Context {P : Type}.
Local Abbreviation chain := (list (CatalogEntry P)).

Definition image_persisted (i : EntryImage P) : bool :=
  match image_type i with
  | SCALAR_FUNCTION_ENTRY | REWRITE_FUNCTION_ENTRY | AGGREGATE_FUNCTION_ENTRY | COPY_FUNCTION_ENTRY
  | TABLE_FUNCTION_ENTRY | STANDALONE_TABLE_FUNCTION_ENTRY => false
  | _ => true
  end.

(** What of a chain is written. *)
Definition written (c : chain) : option (EntryImage P) :=
  e ← head c; if is_persisted e && negb (isDeleted e) then Some (image e) else None.

Lemma entriesToSerialize_eq id now n (m : gmap string chain) (order : list chain) :
  now < START_TRANSACTION_ID → clean now m → chains_ok id now n m →
  (∀ c, c ∈ order → ∃ key, m !! key = Some c) →
  ∃ l, entriesToSerialize order = Ok l ∧ List.map image l = omap written order.
Proof.
  intros Hnow Hcl Hok. induction order as [|c order IH]; intros Hin; [exists []; auto|].
  destruct IH as (l & Hl & Hm); [intros c' Hc'; apply Hin; right; exact Hc'|].
  destruct (Hin c) as (key & Hc); [left|].
  destruct (chain_ok_nonempty _ _ _ _ _ (Hok _ _ Hc)) as (e & c' & ->).
  pose proof (Forall_cons_1 _ _ _ (Hcl _ _ Hc)) as [He _]. cbn in He.
  cbn [entriesToSerialize head]. rewrite Hl, outcome_bind_Ok.
  cbn [omap list_omap]. unfold written at 1. cbn [head mbind option_bind].
  destruct (is_persisted e); cbn [negb andb]; [|exists l; auto].
  cbn [getCommittedEntryNoLock]. rewrite (proj2 (Z.ltb_lt _ _)) by lia.
  destruct (isDeleted e); cbn [negb]; [exists l; auto|]. exists (e :: l).
  split; [reflexivity|]. cbn. f_equal. exact Hm.
Qed.

(** ** Reading back *)

Definition image_key (i : EntryImage P) : string := lower (image_name i).

Lemma deserialize_lookup (l : list (EntryImage P)) : ∀ s key,
  NoDup (image_key <$> l) → (∀ i, i ∈ l → entries s !! image_key i = None) →
  (∀ i, i ∈ l → image_key i = key →
    ∃ a, entries (deserialize_entries l s) !! key = Some [deserialize_entry a i]) ∧
  ((∀ i, i ∈ l → image_key i ≠ key) → entries (deserialize_entries l s) !! key = entries s !! key) ∧
  nextOID (deserialize_entries l s) = nextOID s.
Proof.
  induction l as [|i l IH]; intros s key Hnd Hnew.
  { split_and!; [intros i Hi; apply not_elem_of_nil in Hi as []|auto|reflexivity]. }
  cbn [fmap list_fmap] in Hnd. apply NoDup_cons in Hnd as [Hni Hnd]. cbn [deserialize_entries].
  pose (s1 := MkCatalogSet (nextOID s)
    (<[image_key i := [deserialize_entry (next_address s) i]]> (entries s)) (S (next_address s))).
  assert (Hs1 : MkCatalogSet (nextOID s) (emplaceNoLock (deserialize_entry (next_address s) i) (entries s))
            (S (next_address s)) = s1).
  { unfold s1, emplaceNoLock. cbn [getName deserialize_entry]. fold (image_key i).
    rewrite (Hnew i) by left. reflexivity. }
  rewrite Hs1.
  assert (Hother : ∀ j, j ∈ l → image_key j ≠ image_key i).
  { intros j Hj Heq. apply Hni. rewrite <- Heq. apply list_elem_of_fmap. eauto. }
  destruct (IH s1 key Hnd) as (H1 & H2 & H3).
  { intros j Hj. unfold s1. cbn. rewrite lookup_insert_ne by (apply not_eq_sym, Hother, Hj).
    apply Hnew. right. exact Hj. }
  split_and!; [| |exact H3].
  - intros j Hj Hkey. apply elem_of_cons in Hj as [->|Hj]; [|apply H1; assumption].
    exists (next_address s). rewrite H2; [unfold s1; cbn; rewrite Hkey; apply lookup_insert_eq|].
    intros j' Hj'. rewrite <- Hkey. apply Hother, Hj'.
  - intros Hno. rewrite H2 by (intros j Hj; apply Hno; right; exact Hj).
    unfold s1. cbn. apply lookup_insert_ne. apply Hno. left.
Qed.

(** The view a set read from a file gives. *)
Lemma deserialize_view (l : list (EntryImage P)) oid id st key :
  NoDup (image_key <$> l) → 0 ≤ st →
  (∀ i, i ∈ l → image_key i = key → view id st (deserialize (oid, l)) !! key = Some i) ∧
  ((∀ i, i ∈ l → image_key i ≠ key) → view id st (deserialize (oid, l)) !! key = None).
Proof.
  intros Hnd Hst. unfold deserialize. cbn [fst snd].
  destruct (deserialize_lookup l (MkCatalogSet oid ∅ 0) key Hnd) as (H1 & H2 & _).
  { intros i _. apply lookup_empty. }
  rewrite view_eq. unfold view_of. rewrite lookup_omap. split.
  - intros i Hi Hkey. destruct (H1 i Hi Hkey) as (a & ->). cbn [mbind option_bind].
    rewrite shown_hit by (right; exact Hst). destruct i. reflexivity.
  - intros Hno. rewrite (H2 Hno). cbn. rewrite lookup_empty. reflexivity.
Qed.

(** ** The images that are written *)

Lemma written_key id now n (m : gmap string chain) key (c : chain) i :
  chains_ok id now n m → m !! key = Some c → written c = Some i → image_key i = key.
Proof.
  intros Hok Hc Hw. destruct (chain_ok_nonempty _ _ _ _ _ (Hok _ _ Hc)) as (e & c' & ->).
  pose proof (Forall_cons_1 _ _ _ (ok_names _ _ _ _ _ (Hok _ _ Hc))) as [Hn _].
  unfold written in Hw. cbn in Hw. destruct (_ && _); [|discriminate]. injection Hw as <-. exact Hn.
Qed.

Lemma written_NoDup (l : list (string * chain)) :
  NoDup l.*1 → (∀ key c i, (key, c) ∈ l → written c = Some i → image_key i = key) →
  NoDup (image_key <$> omap written l.*2).
Proof.
  induction l as [|[key c] l IH]; intros Hnd Hk; [apply NoDup_nil_2|].
  cbn [fmap list_fmap fst] in Hnd. apply NoDup_cons in Hnd as [Hni Hnd].
  assert (Htail : NoDup (image_key <$> omap written l.*2)).
  { apply IH; [exact Hnd|]. intros k c' i Hin. apply Hk. right. exact Hin. }
  cbn [fmap list_fmap snd omap list_omap]. destruct (written c) as [i|] eqn:Hw; [|exact Htail].
  cbn [fmap list_fmap]. apply NoDup_cons. split; [|exact Htail].
  rewrite (Hk key c i) by (first [left|exact Hw]). intros Hin. apply Hni.
  apply list_elem_of_fmap in Hin as (i' & -> & Hin). apply list_elem_of_omap in Hin as (c' & Hc' & Hw').
  apply list_elem_of_fmap in Hc' as ([k' c''] & -> & Hin'). cbn [snd] in Hw'.
  rewrite (Hk k' c'' i') by (first [right; exact Hin'|exact Hw']).
  apply list_elem_of_fmap. exists (k', c''). auto.
Qed.

Lemma elem_of_written (m : gmap string chain) (order : list chain) i :
  order ≡ₚ (map_to_list m).*2 →
  i ∈ omap written order ↔ ∃ key c, m !! key = Some c ∧ written c = Some i.
Proof.
  intros Horder. rewrite Horder, list_elem_of_omap. split.
  - intros (c & Hc & Hw). apply list_elem_of_fmap in Hc as ([key c'] & -> & Hin). exists key, c'.
    split; [apply elem_of_map_to_list, Hin|exact Hw].
  - intros (key & c & Hc & Hw). exists c. split; [|exact Hw].
    apply list_elem_of_fmap. exists (key, c). split; [reflexivity|]. apply elem_of_map_to_list, Hc.
Qed.

Lemma persisted_view id now n (m : gmap string chain) key :
  clean now m → chains_ok id now n m →
  filter (λ p, image_persisted p.2 = true) (view_of id now m) !! key = m !! key ≫= written.
Proof.
  intros Hcl Hok. rewrite map_lookup_filter. unfold view_of. rewrite lookup_omap.
  destruct (m !! key) as [c|] eqn:Hc; [|reflexivity].
  destruct (chain_ok_nonempty _ _ _ _ _ (Hok _ _ Hc)) as (e & c' & ->).
  cbn [mbind option_bind]. rewrite (writer_sees_head _ _ _ _ _ _ _ (Hok _ _ Hc)) by reflexivity.
  unfold shown_head, written. cbn [head mbind option_bind].
  destruct (isDeleted e); [rewrite andb_false_r; reflexivity|]. rewrite andb_true_r.
  cbn [mbind option_bind guard]. unfold image_persisted, is_persisted. cbn [snd image image_type].
  destruct (getType e); reflexivity.
Qed.

(** On a quiescent system, the state in which the transaction manager runs a checkpoint, reading
    back a serialized catalog set (whatever the iteration order of its hash map) gives every
    transaction the entries that were committed, functions excepted, and the same next oid. *)
Theorem catalog_serialize_roundtrip (s : CatalogSet P) now id n order id' st :
  now < START_TRANSACTION_ID → clean now (entries s) → chains_ok id now n (entries s) →
  order ≡ₚ (map_to_list (entries s)).*2 → 0 ≤ st →
  ∃ file, serialize order s = Ok file ∧ nextOID (deserialize file) = nextOID s ∧
    view id' st (deserialize file) =
      filter (λ p, image_persisted p.2 = true) (view id now s).
Proof.
  intros Hnow Hcl Hok Horder Hst.
  assert (Hin : ∀ c, c ∈ order ↔ ∃ key, entries s !! key = Some c).
  { intros c. rewrite Horder, list_elem_of_fmap. split.
    - intros ([key c'] & -> & Hc). exists key. apply elem_of_map_to_list, Hc.
    - intros (key & Hc). exists (key, c). split; [reflexivity|]. apply elem_of_map_to_list, Hc. }
  destruct (entriesToSerialize_eq id now n _ order Hnow Hcl Hok) as (l & Hl & Hm); [apply Hin|].
  assert (Hnd : NoDup (image_key <$> omap written order)).
  { rewrite Horder. apply written_NoDup; [apply NoDup_fst_map_to_list|].
    intros key c i Hkc. eapply written_key; [exact Hok|]. apply elem_of_map_to_list, Hkc. }
  exists (nextOID s, omap written order). split_and!.
  - unfold serialize. rewrite Hl, outcome_bind_Ok, Hm. reflexivity.
  - destruct (deserialize_lookup (omap written order) (MkCatalogSet (nextOID s) ∅ 0) "" Hnd)
      as (_ & _ & Ho); [intros; apply lookup_empty|exact Ho].
  - apply map_eq. intros key. rewrite (view_eq id now s), (persisted_view id now n) by assumption.
    destruct (deserialize_view (omap written order) (nextOID s) id' st key Hnd Hst) as (H1 & H2).
    destruct (entries s !! key ≫= written) as [i|] eqn:Hw.
    + apply bind_Some in Hw as (c & Hc & Hw). apply H1.
      * apply (elem_of_written (entries s)); [exact Horder|]. eauto.
      * eapply written_key; eassumption.
    + apply H2. intros i Hi Hkey. apply (elem_of_written (entries s)) in Hi as (k & c & Hc & Hwi);
        [|exact Horder].
      pose proof (written_key _ _ _ _ _ _ _ Hok Hc Hwi) as Hk. rewrite Hkey in Hk. subst k.
      rewrite Hc in Hw. cbn in Hw. congruence.
Qed.

End Persist.

(** ** A concrete set *)

Definition fn_entry : CatalogEntry nat :=
  MkEntry 2 SCALAR_FUNCTION_ENTRY "Abs" 1 0 false false None.
Definition tab_entry : CatalogEntry nat :=
  MkEntry 0 NODE_TABLE_ENTRY "Person" 0 1 false false (Some 7%nat).
Definition sample : CatalogSet nat :=
  MkCatalogSet 2 (<["abs" := [fn_entry]]> {["person" := [tab_entry; DummyCatalogEntry 1 "Person" 0]]}) 3.

Lemma sample_ok :
  clean 1 (entries sample) ∧ chains_ok START_TRANSACTION_ID 1 3 (entries sample).
Proof.
  split; (apply map_Forall_insert_2; [|apply map_Forall_singleton]).
  - repeat constructor; cbn; lia.
  - repeat constructor; cbn; lia.
  - constructor; try (repeat constructor; cbn; (congruence || lia));
      [apply (bool_decide_eq_true_1 _); vm_compute; reflexivity|eexists; split; reflexivity].
  - constructor; try (repeat constructor; cbn; (congruence || lia));
      [apply (bool_decide_eq_true_1 _); vm_compute; reflexivity|eexists; split; reflexivity].
Qed.

Lemma catalog_serialize_roundtrip_witness :
  ∃ file, serialize (map_to_list (entries sample)).*2 sample = Ok file ∧
    view START_TRANSACTION_ID 5 (deserialize file) = {["person" := image tab_entry]}.
Proof.
  destruct (catalog_serialize_roundtrip sample 1 START_TRANSACTION_ID 3
    (map_to_list (entries sample)).*2 START_TRANSACTION_ID 5 ltac:(solve_ts) (proj1 sample_ok)
    (proj2 sample_ok) (reflexivity _) ltac:(lia)) as (file & Hf & _ & Hv).
  exists file. split; [exact Hf|]. rewrite Hv. vm_compute. reflexivity.
Defined.

End CatalogPersist.
