(* ===== verification/UndoBuffer.v ===== *)
(** * The undo buffer

    [UndoBuffer], [UndoMemoryBuffer] and [UndoBufferIterator] ([storage/undo_buffer.cpp]): undo records
    are laid out one after the other in memory buffers of a page, each behind a header with its type and
    size; commit replays them in the order they were made, rollback in the reverse order.

    The memory of a buffer maps the offset of a header to the header and the record behind it; reading an
    offset where no header was written is undefined behaviour. What a record's commit and rollback do to
    catalog sets, sequences, tables and update infos is the interface [UndoTargets]; [CatalogSet.v] and
    [UpdateInfo.v] model the operations behind it. *)

From stdpp Require Import base numbers list gmap strings.
From Stdlib Require Import ZArith Lia.
From S2P Require Import Prelude.

Module UndoBuffer.

(** [UndoBuffer::UndoRecordType]. *)
Inductive UndoRecordType := CATALOG_ENTRY | SEQUENCE_ENTRY | UPDATE_INFO | INSERT_INFO | DELETE_INFO.

#[global] Instance UndoRecordType_eq_dec : EqDecision UndoRecordType.
Proof. solve_decision. Defined.

Section Undo.
(** The pointers in the records: catalog set and entry, sequence entry, version record handler, update
    info and version of a vector. *)
Context {SetPtr EntryPtr SequencePtr Handler InfoPtr VersionPtr : Type}.

(** The structs [CatalogEntryRecord], [SequenceEntryRecord], [VersionRecord], [VectorUpdateRecord]. *)
Inductive UndoRecord :=
  | CatalogEntryRecord (catalogSet : SetPtr) (catalogEntry : EntryPtr)
  | SequenceEntryRecord (sequenceEntry : SequencePtr) (usageCount currVal : Z)
  | VersionRecord (startRow numRows nodeGroupIdx : nat) (versionRecordHandler : Handler)
  | VectorUpdateRecord (updateInfo : InfoPtr) (vectorIdx : nat) (vectorUpdateInfo : VersionPtr)
      (version : Z).

(** [sizeof] of the structs, on a 64-bit platform. *)
Definition sizeof_UndoRecordHeader : nat := 8.
Definition sizeof (r : UndoRecord) : nat :=
  match r with
  | CatalogEntryRecord _ _ => 16
  | SequenceEntryRecord _ _ _ => 24
  | VersionRecord _ _ _ _ => 32
  | VectorUpdateRecord _ _ _ _ => 32
  end.

Record UndoRecordHeader := MkHeader { recordType : UndoRecordType; recordSize : nat }.

Definition UNDO_MEMORY_BUFFER_INIT_CAPACITY : nat := KUZU_PAGE_SIZE.

Record UndoMemoryBuffer := MkBuffer {
  data : gmap nat (UndoRecordHeader * UndoRecord);
  capacity : nat;
  currentPosition : nat;
}.

Definition canFit (b : UndoMemoryBuffer) (size_ : nat) : bool :=
  (currentPosition b + size_ <=? capacity b)%nat.

(** The buffers, the current one last, and how the memory manager answers the allocations to come, [true] for
    one that succeeds; when the list is used up all do. *)
Record UndoBuffer := MkUndoBuffer { memoryBuffers : list UndoMemoryBuffer; allocations : list bool }.

Definition allocation_failure : exn :=
  BufferManagerException "Unable to allocate memory! The buffer pool is full and no memory could be freed!".

(** [MemoryManager::allocateBuffer] *)
Definition allocateBuffer : M UndoBuffer unit := λ u,
  match allocations u with
  | [] => (Ok tt, u)
  | granted :: answers =>
      (if granted : bool then Ok tt else Throw allocation_failure, MkUndoBuffer (memoryBuffers u) answers)
  end.

(** [while (size > capacity) capacity *= 2]; [size] doublings are enough. *)
Fixpoint grow_capacity (fuel size capacity : nat) : nat :=
  match fuel with
  | 0 => capacity
  | S fuel' => if (capacity <? size)%nat then grow_capacity fuel' size (capacity * 2) else capacity
  end.

(** [createUndoRecord], the part that makes room for [size] more bytes in the last buffer. *)
Definition make_room (size : nat) : M UndoBuffer unit :=
  u ← get_state;
  if match last (memoryBuffers u) with Some b => canFit b size | None => false end then mret tt
  else
    allocateBuffer ;;
    modify (λ u, MkUndoBuffer (memoryBuffers u ++ [MkBuffer ∅ (grow_capacity size size UNDO_MEMORY_BUFFER_INIT_CAPACITY) 0])
                   (allocations u)).

(** Writing a header and its record at the current position, [moveCurrentPosition] included. *)
Definition put (type : UndoRecordType) (r : UndoRecord) (b : UndoMemoryBuffer) : UndoMemoryBuffer :=
  MkBuffer (<[currentPosition b := (MkHeader type (sizeof r), r)]> (data b)) (capacity b)
    (currentPosition b + (sizeof_UndoRecordHeader + sizeof r)).

Definition createUndoRecord (type : UndoRecordType) (r : UndoRecord) : M UndoBuffer unit :=
  let size := (sizeof_UndoRecordHeader + sizeof r)%nat in
  make_room size ;;
  u ← get_state;
  let bs := memoryBuffers u in
  match last bs with
  | None => raise (UndefinedBehaviour "no buffer")
  | Some b =>
      ku_assert (currentPosition b + size <=? capacity b)%nat ;;
      put_state (MkUndoBuffer (take (length bs - 1) bs ++ [put type r b]) (allocations u))
  end.

Definition createCatalogEntry (s : SetPtr) (e : EntryPtr) : M UndoBuffer unit :=
  createUndoRecord CATALOG_ENTRY (CatalogEntryRecord s e).
Definition createSequenceChange (s : SequencePtr) (usageCount currVal : Z) : M UndoBuffer unit :=
  createUndoRecord SEQUENCE_ENTRY (SequenceEntryRecord s usageCount currVal).
Definition createVersionInfo (type : UndoRecordType) (startRow numRows : nat) (h : option Handler)
    (nodeGroupIdx : nat) : M UndoBuffer unit :=
  match h with
  | None => raise assert_failure
  | Some h => createUndoRecord type (VersionRecord startRow numRows nodeGroupIdx h)
  end.
Definition createInsertInfo (nodeGroupIdx startRow numRows : nat) (h : option Handler) :
    M UndoBuffer unit := createVersionInfo INSERT_INFO startRow numRows h nodeGroupIdx.
Definition createDeleteInfo (nodeGroupIdx startRow numRows : nat) (h : option Handler) :
    M UndoBuffer unit := createVersionInfo DELETE_INFO startRow numRows h nodeGroupIdx.
Definition createVectorUpdateInfo (i : InfoPtr) (vectorIdx : nat) (v : VersionPtr) (version : Z) :
    M UndoBuffer unit :=
  createUndoRecord UPDATE_INFO (VectorUpdateRecord i vectorIdx v version).

(** ** Iteration *)

Definition bad_read : exn := UndefinedBehaviour "read past the undo records".

(** The records of a buffer from [current] to [end_]; a step advances by at least a header, so [end_]
    steps are enough. *)
Fixpoint walk (fuel current end_ : nat) (m : gmap nat (UndoRecordHeader * UndoRecord)) :
    outcome (list (UndoRecordType * UndoRecord)) :=
  if (current <? end_)%nat then
    match fuel with
    | 0 => Throw bad_read
    | S fuel' =>
        match m !! current with
        | None => Throw bad_read
        | Some (h, r) =>
            rest ← walk fuel' (current + sizeof_UndoRecordHeader + recordSize h) end_ m;
            Ok ((recordType h, r) :: rest)
        end
    end
  else Ok [].

Definition buffer_entries (b : UndoMemoryBuffer) : outcome (list (UndoRecordType * UndoRecord)) :=
  walk (currentPosition b) 0 (currentPosition b) (data b).

(** [iterate] and [reverseIterate]: a callback on the state [T] for each record. *)
Fixpoint iterate {T} (callback : UndoRecordType * UndoRecord → M T unit) (u : list UndoMemoryBuffer) : M T unit :=
  match u with
  | [] => mret tt
  | b :: u' =>
      entries ← observe (λ _, buffer_entries b);
      for_each entries callback ;;
      iterate callback u'
  end.
Fixpoint reverseIterate_from {T} (callback : UndoRecordType * UndoRecord → M T unit)
    (reversed : list UndoMemoryBuffer) : M T unit :=
  match reversed with
  | [] => mret tt
  | b :: u' =>
      entries ← observe (λ _, buffer_entries b);
      for_each (rev entries) callback ;;
      reverseIterate_from callback u'
  end.
Definition reverseIterate {T} (callback : UndoRecordType * UndoRecord → M T unit) (u : list UndoMemoryBuffer) :
    M T unit := reverseIterate_from callback (rev u).

(** ** Replaying *)

(** What the records are replayed on. *)
Class UndoTargets (T : Type) := {
  commit_entry : SetPtr → EntryPtr → Z → M T unit;
  rollback_entry : SetPtr → EntryPtr → M T unit;
  rollback_sequence : SequencePtr → Z → Z → M T unit;
  commit_insert : Handler → nat → nat → nat → Z → M T unit;
  commit_delete : Handler → nat → nat → nat → Z → M T unit;
  rollback_insert : Handler → nat → nat → nat → M T unit;
  rollback_delete : Handler → nat → nat → nat → Z → M T unit;
  commit_update : InfoPtr → nat → VersionPtr → Z → M T unit;
  rollback_update : InfoPtr → nat → Z → M T unit;
}.

Definition unreachable : exn := InternalException "KU_UNREACHABLE".

Definition commitRecord {T} `{UndoTargets T} (commitTS : Z) (e : UndoRecordType * UndoRecord) :
    M T unit :=
  match e with
  | (CATALOG_ENTRY, CatalogEntryRecord s p) => commit_entry s p commitTS
  | (SEQUENCE_ENTRY, SequenceEntryRecord _ _ _) => mret tt
  | (INSERT_INFO, VersionRecord startRow numRows ng h) => commit_insert h ng startRow numRows commitTS
  | (DELETE_INFO, VersionRecord startRow numRows ng h) => commit_delete h ng startRow numRows commitTS
  | (UPDATE_INFO, VectorUpdateRecord i v p _) => commit_update i v p commitTS
  | _ => raise unreachable
  end.

(** [txnCommitTS] is the commit timestamp of the transaction that rolls back. *)
Definition rollbackRecord {T} `{UndoTargets T} (txnCommitTS : Z) (e : UndoRecordType * UndoRecord) :
    M T unit :=
  match e with
  | (CATALOG_ENTRY, CatalogEntryRecord s p) => rollback_entry s p
  | (SEQUENCE_ENTRY, SequenceEntryRecord s usageCount currVal) => rollback_sequence s usageCount currVal
  | (INSERT_INFO, VersionRecord startRow numRows ng h) => rollback_insert h ng startRow numRows
  | (DELETE_INFO, VersionRecord startRow numRows ng h) =>
      rollback_delete h ng startRow numRows txnCommitTS
  | (UPDATE_INFO, VectorUpdateRecord i v _ version) => rollback_update i v version
  | _ => raise unreachable
  end.

Definition commit {T} `{UndoTargets T} (commitTS : Z) (u : UndoBuffer) : M T unit :=
  iterate (commitRecord commitTS) (memoryBuffers u).
Definition rollback {T} `{UndoTargets T} (txnCommitTS : Z) (u : UndoBuffer) : M T unit :=
  reverseIterate (rollbackRecord txnCommitTS) (memoryBuffers u).

(** ** The layout invariant *)

(** The bytes a list of records takes. *)
Definition footprint (l : list (UndoRecordType * UndoRecord)) : nat :=
  sum_list_with (λ e, sizeof_UndoRecordHeader + sizeof e.2) l.

(** The records [l] from offset [at_] on. *)
Fixpoint laid_out (at_ : nat) (l : list (UndoRecordType * UndoRecord))
    (m : gmap nat (UndoRecordHeader * UndoRecord)) : Prop :=
  match l with
  | [] => True
  | (ty, r) :: l' =>
      m !! at_ = Some (MkHeader ty (sizeof r), r) ∧
      laid_out (at_ + (sizeof_UndoRecordHeader + sizeof r)) l' m
  end.

Definition buffer_holds (b : UndoMemoryBuffer) (l : list (UndoRecordType * UndoRecord)) : Prop :=
  laid_out 0 l (data b) ∧ currentPosition b = footprint l ∧ currentPosition b ≤ capacity b.

(** The records of a buffer chain, in the order they were made. *)
Inductive holds : list UndoMemoryBuffer → list (UndoRecordType * UndoRecord) → Prop :=
  | holds_nil : holds [] []
  | holds_cons b u l l' : buffer_holds b l → holds u l' → holds (b :: u) (l ++ l').

Lemma footprint_app l1 l2 : footprint (l1 ++ l2) = footprint l1 + footprint l2.
Proof. unfold footprint. rewrite sum_list_with_app. reflexivity. Qed.

Lemma laid_out_walk l : ∀ fuel at_ m,
  laid_out at_ l m → footprint l ≤ fuel → walk fuel at_ (at_ + footprint l) m = Ok l.
Proof.
  induction l as [|[ty r] l IH]; intros fuel at_ m Hl Hf.
  - destruct fuel; cbn [walk]; rewrite (proj2 (Nat.ltb_ge _ _)) by (cbn; lia); reflexivity.
  - destruct Hl as [Hm Hl]. unfold footprint in Hf |- *. cbn [sum_list_with snd] in Hf |- *.
    fold (footprint l) in Hf |- *. unfold sizeof_UndoRecordHeader in *.
    destruct fuel as [|fuel]; [lia|]. cbn [walk].
    rewrite (proj2 (Nat.ltb_lt _ _)) by lia. rewrite Hm. cbn [recordSize recordType].
    unfold sizeof_UndoRecordHeader.
    replace (at_ + (8 + sizeof r + footprint l)) with (at_ + (8 + sizeof r) + footprint l) by lia.
    replace (at_ + 8 + sizeof r) with (at_ + (8 + sizeof r)) by lia.
    rewrite (IH fuel) by (try exact Hl; lia). reflexivity.
Qed.

Lemma laid_out_app l1 : ∀ l2 at_ m,
  laid_out at_ l1 m → laid_out (at_ + footprint l1) l2 m → laid_out at_ (l1 ++ l2) m.
Proof.
  induction l1 as [|[ty r] l1 IH]; intros l2 at_ m H1 H2.
  - unfold footprint in H2. cbn in H2. rewrite Nat.add_0_r in H2. exact H2.
  - destruct H1 as [Hm H1]. split; [exact Hm|]. apply IH; [exact H1|].
    unfold footprint in H2 |- *. cbn [sum_list_with snd] in H2.
    rewrite <- Nat.add_assoc. exact H2.
Qed.

(** Writing behind the records leaves them. *)
Lemma laid_out_insert l : ∀ at_ m k x,
  laid_out at_ l m → at_ + footprint l ≤ k → laid_out at_ l (<[k := x]> m).
Proof.
  induction l as [|[ty r] l IH]; intros at_ m k x Hl Hk; [exact I|]. destruct Hl as [Hm Hl].
  unfold footprint in Hk. cbn [sum_list_with snd] in Hk. fold (footprint l) in Hk.
  unfold sizeof_UndoRecordHeader in *. split.
  - rewrite lookup_insert_ne by lia. exact Hm.
  - apply IH; [exact Hl|]. unfold sizeof_UndoRecordHeader. lia.
Qed.

Lemma buffer_entries_eq b l : buffer_holds b l → buffer_entries b = Ok l.
Proof.
  intros (Hl & Hp & _). unfold buffer_entries. rewrite Hp. apply (laid_out_walk l _ 0); [exact Hl|lia].
Qed.

Lemma put_holds b l ty r :
  buffer_holds b l → currentPosition b + (sizeof_UndoRecordHeader + sizeof r) ≤ capacity b →
  buffer_holds (put ty r b) (l ++ [(ty, r)]).
Proof.
  intros (Hl & Hp & Hc) Hfit. unfold put, buffer_holds. cbn [data currentPosition capacity]. split_and!.
  - apply laid_out_app.
    + apply laid_out_insert; [exact Hl|]. rewrite Hp. lia.
    + rewrite Hp. cbn [laid_out plus]. split; [apply lookup_insert_eq|exact I].
  - rewrite footprint_app, Hp. unfold footprint at 3. cbn. lia.
  - exact Hfit.
Qed.

Lemma holds_app u1 u2 l1 l2 : holds u1 l1 → holds u2 l2 → holds (u1 ++ u2) (l1 ++ l2).
Proof.
  induction 1 as [|b u l l' Hb Hu IH]; intros H2; [exact H2|].
  cbn. rewrite <- (assoc_L (++)). constructor; [exact Hb|apply IH, H2].
Qed.

Lemma holds_snoc_inv u b l :
  holds (u ++ [b]) l → ∃ l1 l2, l = l1 ++ l2 ∧ holds u l1 ∧ buffer_holds b l2.
Proof.
  revert l. induction u as [|b' u IH]; intros l Hh; inversion Hh as [|? ? lb lu Hb Hu]; subst.
  - inversion Hu; subst. exists [], lb. rewrite app_nil_r. split_and!; [reflexivity|constructor|exact Hb].
  - destruct (IH _ Hu) as (l1 & l2 & -> & H1 & H2). exists (lb ++ l1), l2.
    split_and!; [apply (assoc_L (++))|constructor; assumption|exact H2].
Qed.

(** ** Making records *)

Lemma record_size_bound r : sizeof_UndoRecordHeader + sizeof r ≤ UNDO_MEMORY_BUFFER_INIT_CAPACITY.
Proof.
  transitivity 40; [destruct r; cbn; lia|].
  apply Nat.leb_le. vm_compute. reflexivity.
Qed.

Lemma grow_capacity_enough size :
  size ≤ UNDO_MEMORY_BUFFER_INIT_CAPACITY →
  grow_capacity size size UNDO_MEMORY_BUFFER_INIT_CAPACITY = UNDO_MEMORY_BUFFER_INIT_CAPACITY.
Proof.
  intros Hs. destruct size as [|n]; [reflexivity|]. cbn [grow_capacity].
  rewrite (proj2 (Nat.ltb_ge _ _)) by exact Hs. reflexivity.
Qed.

(** The buffers, made room in, hold the same records, and the last one has room; if the memory for a new one
    is refused they are as before. *)
Lemma make_room_holds u l r :
  holds (memoryBuffers u) l →
  (∃ answers, make_room (sizeof_UndoRecordHeader + sizeof r) u = (Throw allocation_failure, MkUndoBuffer (memoryBuffers u) answers) ∧
     false ∈ allocations u) ∨
  ∃ bs b answers l1 l2, make_room (sizeof_UndoRecordHeader + sizeof r) u = (Ok tt, MkUndoBuffer (bs ++ [b]) answers) ∧ l = l1 ++ l2 ∧
    (Forall (eq true) (allocations u) → Forall (eq true) answers) ∧ holds bs l1 ∧ buffer_holds b l2 ∧
    currentPosition b + (sizeof_UndoRecordHeader + sizeof r) ≤ capacity b.
Proof.
  intros Hh. pose proof (record_size_bound r) as Hb. set (size := sizeof_UndoRecordHeader + sizeof r) in *.
  unfold make_room. unfold_M. destruct u as [bs answers]. cbn [memoryBuffers allocations] in *.
  destruct (match last bs with Some b => canFit b size | None => false end) eqn:Hfit.
  - right. destruct (last bs) as [b|] eqn:Hl; [|discriminate].
    apply last_Some in Hl as (bs0 & ->). destruct (holds_snoc_inv _ _ _ Hh) as (l1 & l2 & -> & H1 & H2).
    exists bs0, b, answers, l1, l2. split_and!; try assumption; auto. apply Nat.leb_le, Hfit.
  - set (b := MkBuffer ∅ (grow_capacity size size UNDO_MEMORY_BUFFER_INIT_CAPACITY) 0).
    assert (Hnew : buffer_holds b [] ∧ currentPosition b + size ≤ capacity b).
    { split; [split_and!; [exact I|reflexivity|cbn; lia]|]. cbn [b currentPosition capacity].
      rewrite grow_capacity_enough by exact Hb. exact Hb. }
    destruct Hnew as [Hn1 Hn2]. unfold allocateBuffer. cbn [memoryBuffers allocations].
    destruct answers as [|[] answers].
    + right. exists bs, b, [], l, []. rewrite app_nil_r. split_and!; auto.
    + right. exists bs, b, answers, l, []. rewrite app_nil_r. split_and!; auto.
      intros [_ H]%Forall_cons. exact H.
    + left. exists answers. split; [reflexivity|left].
Qed.

(** A record is made behind the others, or its memory is refused and they stay as they are. *)
Lemma createUndoRecord_holds ty r u l :
  holds (memoryBuffers u) l →
  (∃ u', createUndoRecord ty r u = (Throw allocation_failure, u') ∧ holds (memoryBuffers u') l ∧ false ∈ allocations u) ∨
  (∃ u', createUndoRecord ty r u = (Ok tt, u') ∧ holds (memoryBuffers u') (l ++ [(ty, r)]) ∧
     (Forall (eq true) (allocations u) → Forall (eq true) (allocations u'))).
Proof.
  intros Hh. unfold createUndoRecord. cbv zeta.
  destruct (make_room_holds u l r Hh) as [(answers & Hroom & Hf)|(bs & b & answers & l1 & l2 & Hroom & -> & Ha & H1 & H2 & Hfit)].
  - left. exists (MkUndoBuffer (memoryBuffers u) answers). unfold mbind at 1, M_bind. rewrite Hroom. auto.
  - right. rewrite (M_bind_ok _ _ _ _ _ Hroom). rewrite (M_bind_ok _ _ _ _ _ (eq_refl : get_state _ = (Ok _, _))).
    cbn [memoryBuffers allocations]. rewrite last_snoc. unfold ku_assert. rewrite (proj2 (Nat.leb_le _ _) Hfit).
    eexists. split; [reflexivity|]. cbn [memoryBuffers allocations]. split; [|exact Ha].
    rewrite length_app, Nat.add_sub, take_app_length, <- (assoc_L (++)).
    apply holds_app; [exact H1|]. rewrite <- (app_nil_r (l2 ++ [(ty, r)])).
    constructor; [apply put_holds; assumption|constructor].
Qed.

(** Making records one after the other; those whose creation throws are left out. *)
Fixpoint create_all (records : list (UndoRecordType * UndoRecord)) (u : UndoBuffer) :
    list (UndoRecordType * UndoRecord) * UndoBuffer :=
  match records with
  | [] => ([], u)
  | (ty, r) :: records' =>
      match createUndoRecord ty r u with
      | (Ok _, u') => let '(made, u'') := create_all records' u' in ((ty, r) :: made, u'')
      | (Throw _, u') => create_all records' u'
      end
  end.

Lemma create_all_holds records : ∀ u l,
  holds (memoryBuffers u) l →
  holds (memoryBuffers (create_all records u).2) (l ++ (create_all records u).1) ∧
  (create_all records u).1 `sublist_of` records ∧
  (Forall (eq true) (allocations u) → (create_all records u).1 = records).
Proof.
  induction records as [|[ty r] records IH]; intros u l Hh; cbn [create_all].
  - cbn. rewrite app_nil_r. split_and!; auto.
  - destruct (createUndoRecord_holds ty r u l Hh) as [(u' & -> & Hh' & Hf)|(u' & -> & Hh' & Ha)].
    + destruct (IH u' l Hh') as (H1 & H2 & _). split_and!; [exact H1|apply sublist_cons, H2|].
      intros Hall. rewrite Forall_forall in Hall. specialize (Hall false Hf). discriminate.
    + destruct (IH u' _ Hh') as (H1 & H2 & H3). destruct (create_all records u') as [made u'']. cbn [fst snd] in *.
      rewrite <- (assoc_L (++)) in H1. split_and!; [exact H1|apply sublist_skip, H2|].
      intros Hall. rewrite (H3 (Ha Hall)). reflexivity.
Qed.

(** ** Replaying *)

Lemma iterate_eq {T} (f : UndoRecordType * UndoRecord → M T unit) u l st :
  holds u l → iterate f u st = for_each l f st.
Proof.
  intros Hh. revert st. induction Hh as [|b u l l' Hb Hu IH]; intros st; [reflexivity|].
  cbn [iterate]. rewrite (M_bind_ok _ _ st l st) by (unfold observe; rewrite (buffer_entries_eq _ _ Hb); reflexivity).
  rewrite for_each_app. unfold mbind, M_bind.
  destruct (for_each l f st) as [[[]|e] st']; [apply IH|reflexivity].
Qed.

Lemma reverseIterate_eq {T} (f : UndoRecordType * UndoRecord → M T unit) u l st :
  holds u l → reverseIterate f u st = for_each (rev l) f st.
Proof.
  unfold reverseIterate. revert l st. induction u as [|b u IH] using rev_ind; intros l st Hh.
  - inversion Hh; subst. reflexivity.
  - destruct (holds_snoc_inv _ _ _ Hh) as (l1 & l2 & -> & H1 & H2).
    rewrite !rev_app_distr. cbn [rev app reverseIterate_from].
    rewrite (M_bind_ok _ _ st l2 st) by (unfold observe; rewrite (buffer_entries_eq _ _ H2); reflexivity).
    rewrite for_each_app. unfold mbind, M_bind.
    destruct (for_each (rev l2) f st) as [[[]|e] st']; [apply IH, H1|reflexivity].
Qed.

(** C28. However many records a transaction makes and however the memory manager answers the allocations of
    their buffers: committing replays exactly the records whose creation succeeded, in the order they were
    made, and rolling back replays them in the reverse order, stopping at the first one that throws, however
    they are spread over the buffers; a refused allocation leaves the records made before it as they are, and
    when none is refused every record is made. *)
Theorem undo_replays {T} `{UndoTargets T} (records : list (UndoRecordType * UndoRecord)) answers ts (st : T) :
  let '(made, u) := create_all records (MkUndoBuffer [] answers) in
  commit ts u st = for_each made (commitRecord ts) st ∧
  rollback ts u st = for_each (rev made) (rollbackRecord ts) st ∧
  made `sublist_of` records ∧ (false ∈ answers ∨ made = records).
Proof.
  destruct (create_all_holds records (MkUndoBuffer [] answers) [] holds_nil) as (Hh & Hs & Ha).
  destruct (create_all records (MkUndoBuffer [] answers)) as [made u]. cbn [fst snd app allocations] in *.
  split_and!; [apply iterate_eq, Hh|apply reverseIterate_eq, Hh|exact Hs|].
  destruct (decide (false ∈ answers)) as [Hf|Hf]; [left; exact Hf|right]. apply Ha, Forall_forall.
  intros [] Hb; [reflexivity|contradiction].
Qed.

End Undo.
Arguments UndoRecord : clear implicits.
Arguments UndoBuffer : clear implicits.
Arguments UndoTargets : clear implicits.
End UndoBuffer.
