(* ===== verification/Sequence.v ===== *)
(** * Sequences

    [SequenceCatalogEntry] ([catalog/catalog_entry/sequence_catalog_entry.cpp]): advancing a sequence of
    64-bit values with bounds, an optional cycle, and the undo data of a transaction. *)

From stdpp Require Import base numbers list strings pretty.
From Stdlib Require Import ZArith Lia.
From S2P Require Import Prelude.

Open Scope Z_scope.

Module Sequence.

Definition INT64_MIN : Z := -9223372036854775808.
Definition INT64_MAX : Z := 9223372036854775807.

(** Wrap-around of a signed 64-bit operation. *)
Definition swrap64 (x : Z) : Z := (x + 2 ^ 63) mod 2 ^ 64 - 2 ^ 63.

(** [__builtin_add_overflow]: whether the sum overflows, and the wrapped sum it stores. *)
Definition add_overflow (left right : Z) : bool * Z :=
  let r := swrap64 (left + right) in (negb (r =? left + right), r).

Record SequenceData := MkSequenceData {
  usageCount : Z;
  currVal_ : Z;
  increment : Z;
  startValue : Z;
  minValue : Z;
  maxValue : Z;
  cycle : bool;
}.

(** [SequenceData(info)]. *)
Definition SequenceData_new (startWith increment minValue maxValue : Z) (cycle : bool) : SequenceData :=
  MkSequenceData 0 startWith increment startWith minValue maxValue cycle.

Definition set_usage (u v : Z) (d : SequenceData) : SequenceData :=
  MkSequenceData u v (increment d) (startValue d) (minValue d) (maxValue d) (cycle d).

Definition dquote : string := String (Ascii.ascii_of_nat 34) EmptyString.

Definition min_error (name : string) (d : SequenceData) : exn :=
  CatalogException ("nextval: reached minimum value of sequence " +:+ dquote +:+ name +:+ dquote +:+
                    " " +:+ pretty (minValue d)).
Definition max_error (name : string) (d : SequenceData) : exn :=
  CatalogException ("nextval: reached maximum value of sequence " +:+ dquote +:+ name +:+ dquote +:+
                    " " +:+ pretty (maxValue d)).

Definition currVal (name : string) (d : SequenceData) : outcome Z :=
  if usageCount d =? 0 then
    Throw (CatalogException ("currval: sequence " +:+ dquote +:+ name +:+ dquote +:+
      " is not yet defined. To define the sequence, call nextval first."))
  else Ok (currVal_ d).

Definition nextValNoLock (name : string) : M SequenceData unit := λ d,
  if usageCount d =? 0 then (Ok tt, set_usage (uwrap 64 (usageCount d + 1)) (currVal_ d) d)
  else
    let '(overflow, next) := add_overflow (currVal_ d) (increment d) in
    let advance (next : Z) := (Ok tt, set_usage (uwrap 64 (usageCount d + 1)) next d) in
    if cycle d then
      if overflow then advance (if increment d <? 0 then maxValue d else minValue d)
      else if next <? minValue d then advance (maxValue d)
      else if maxValue d <? next then advance (minValue d)
      else advance next
    else
      let minError := if overflow then increment d <? 0 else next <? minValue d in
      let maxError := if overflow then 0 <? increment d else maxValue d <? next in
      if minError then (Throw (min_error name d), d)
      else if maxError then (Throw (max_error name d), d)
      else advance next.

(** The loop of [nextKVal], collecting the values it puts into the result vector. *)
Fixpoint next_loop (name : string) (count : nat) : M SequenceData (list Z) :=
  match count with
  | O => mret []
  | S count' =>
      nextValNoLock name ;;
      d ← get_state;
      rest ← next_loop name count';
      mret (currVal_ d :: rest)
  end.

(** [SequenceRollbackData]. *)
Record SequenceRollbackData := MkRollback { rb_usageCount : Z; rb_currVal : Z }.

(** [nextKVal]: the values, and the undo record handed to [pushSequenceChange] after the loop. *)
Definition nextKVal (name : string) (count : nat) : M SequenceData (list Z * SequenceRollbackData) :=
  ku_assert (negb (count =? 0)%nat) ;;
  d ← get_state;
  let rollbackData := MkRollback (usageCount d) (currVal_ d) in
  values ← next_loop name count;
  mret (values, rollbackData).

Definition rollbackVal (data : SequenceRollbackData) : M SequenceData unit :=
  modify (set_usage (rb_usageCount data) (rb_currVal data)).

(** ** Behaviour *)

(** A sequence the binder accepts, with a value within its bounds. *)
Record seq_ok (d : SequenceData) : Prop := {
  ok_min : INT64_MIN ≤ minValue d;
  ok_max : maxValue d ≤ INT64_MAX;
  ok_val : minValue d ≤ currVal_ d ≤ maxValue d;
  ok_inc : INT64_MIN ≤ increment d ≤ INT64_MAX;
  ok_usage : 0 ≤ usageCount d < 2 ^ 64;
}.

(** The successor over unbounded integers. *)
Definition nextval_spec (name : string) (d : SequenceData) : outcome Z :=
  if usageCount d =? 0 then Ok (currVal_ d)
  else
    let next := currVal_ d + increment d in
    if next <? minValue d then (if cycle d then Ok (maxValue d) else Throw (min_error name d))
    else if maxValue d <? next then (if cycle d then Ok (minValue d) else Throw (max_error name d))
    else Ok next.

Lemma swrap64_small x : INT64_MIN ≤ x ≤ INT64_MAX → swrap64 x = x.
Proof. intros H. unfold swrap64, INT64_MIN, INT64_MAX in *. rewrite Z.mod_small; lia. Qed.

Lemma swrap64_range x : INT64_MIN ≤ swrap64 x ≤ INT64_MAX.
Proof.
  unfold swrap64, INT64_MIN, INT64_MAX. pose proof (Z.mod_pos_bound (x + 2 ^ 63) (2 ^ 64)). lia.
Qed.

Lemma add_overflow_fits l r :
  INT64_MIN ≤ l + r ≤ INT64_MAX → add_overflow l r = (false, l + r).
Proof.
  intros H. unfold add_overflow. rewrite swrap64_small by exact H. rewrite Z.eqb_refl. reflexivity.
Qed.

Lemma add_overflow_overflows l r :
  ~ (INT64_MIN ≤ l + r ≤ INT64_MAX) → (add_overflow l r).1 = true.
Proof.
  intros H. unfold add_overflow. cbn. pose proof (swrap64_range (l + r)) as Hr.
  destruct (swrap64 (l + r) =? l + r) eqn:Heq; [|reflexivity]. zbool. rewrite Heq in Hr. tauto.
Qed.

Lemma nextval_eq name d :
  seq_ok d →
  nextValNoLock name d =
    match nextval_spec name d with
    | Ok v => (Ok tt, set_usage (uwrap 64 (usageCount d + 1)) v d)
    | Throw e => (Throw e, d)
    end ∧
  (∀ v, nextval_spec name d = Ok v → minValue d ≤ v ≤ maxValue d).
Proof.
  intros [Hmin Hmax Hval Hinc Hus]. unfold nextValNoLock, nextval_spec.
  destruct (usageCount d =? 0); [split; [reflexivity|intros v [= <-]; exact Hval]|].
  destruct (decide (INT64_MIN ≤ currVal_ d + increment d ≤ INT64_MAX)) as [Hfit|Hover].
  - rewrite add_overflow_fits by exact Hfit.
    destruct (currVal_ d + increment d <? minValue d) eqn:H1,
      (maxValue d <? currVal_ d + increment d) eqn:H2, (cycle d); zbool;
      (split; [reflexivity|intros v Hv; injection Hv as <- || discriminate; lia]).
  - destruct (add_overflow (currVal_ d) (increment d)) as [o next] eqn:Ho.
    pose proof (add_overflow_overflows _ _ Hover) as Hov. rewrite Ho in Hov. cbn in Hov. subst o.
    destruct (increment d <? 0) eqn:H0; zbool.
    + rewrite (proj2 (Z.ltb_lt _ (minValue d))) by lia.
      destruct (cycle d); (split; [reflexivity|intros v Hv; injection Hv as <- || discriminate; lia]).
    + rewrite (proj2 (Z.ltb_ge _ (minValue d))) by lia.
      rewrite (proj2 (Z.ltb_lt (maxValue d) _)) by lia. rewrite (proj2 (Z.ltb_lt 0 _)) by lia.
      destruct (cycle d); (split; [reflexivity|intros v Hv; injection Hv as <- || discriminate; lia]).
Qed.

(** A sequence without a cycle, used at least once, advances by its increment as long as it stays
    within the bounds. *)
Lemma next_loop_progression name count : ∀ d,
  seq_ok d → usageCount d ≠ 0 → cycle d = false →
  (∀ k, (k ≤ count)%nat → minValue d ≤ currVal_ d + Z.of_nat k * increment d ≤ maxValue d) →
  usageCount d + Z.of_nat count < 2 ^ 64 →
  next_loop name count d =
    (Ok ((λ k, currVal_ d + Z.of_nat k * increment d) <$> seq 1 count),
     set_usage (usageCount d + Z.of_nat count) (currVal_ d + Z.of_nat count * increment d) d).
Proof.
  induction count as [|count IH]; intros d Hok Hus Hcy Hb Hu.
  - cbn [next_loop seq fmap list_fmap]. rewrite !Z.add_0_r. destruct d; reflexivity.
  - cbn [next_loop]. set (d1 := set_usage (usageCount d + 1) (currVal_ d + increment d) d).
    pose proof (Hb 1%nat ltac:(lia)) as Hb1. pose proof (ok_usage _ Hok) as Hu0.
    assert (Hstep : nextValNoLock name d = (Ok tt, d1)).
    { destruct (nextval_eq name d Hok) as [-> _]. unfold nextval_spec.
      rewrite (proj2 (Z.eqb_neq _ _) Hus). rewrite !(proj2 (Z.ltb_ge _ _)) by lia.
      rewrite uwrap_small by lia. reflexivity. }
    rewrite (M_bind_ok _ _ _ _ _ Hstep), (M_bind_ok _ _ d1 d1 d1) by reflexivity.
    rewrite (M_bind_ok _ _ _ _ _ (IH d1 ltac:(destruct Hok; constructor; cbn; lia) ltac:(cbn; lia) Hcy
      ltac:(intros k Hk; cbn; specialize (Hb (S k) ltac:(lia)); lia) ltac:(cbn; lia))).
    unfold mret, M_ret. cbn [d1 currVal_ usageCount increment set_usage seq fmap list_fmap].
    replace (seq 2 count) with (S <$> seq 1 count) by apply fmap_S_seq.
    rewrite <- list_fmap_compose. f_equal; [do 2 f_equal|].
    + lia.
    + apply list_fmap_ext. intros k x _. cbn. lia.
    + unfold set_usage. cbn. f_equal; lia.
Qed.

(** One step of a sequence, 64-bit overflow included, is the successor over unbounded integers:
    the first use gives the start value, a step past a bound wraps to the other bound of a cycle and
    throws on a sequence without one, which is left unchanged; the value stays within the bounds. *)
Theorem nextval_behaviour name d :
  seq_ok d →
  nextValNoLock name d =
    match nextval_spec name d with
    | Ok v => (Ok tt, set_usage (uwrap 64 (usageCount d + 1)) v d)
    | Throw e => (Throw e, d)
    end ∧
  (∀ v, nextval_spec name d = Ok v → minValue d ≤ v ≤ maxValue d).
Proof. apply nextval_eq. Qed.

Lemma nextval_behaviour_witness :
  let d := MkSequenceData 3 9223372036854775800 100 1 1 INT64_MAX in
  nextValNoLock "s" (d true) = (Ok tt, MkSequenceData 4 1 100 1 1 INT64_MAX true) ∧
  nextValNoLock "s" (d false) = (Throw (max_error "s" (d false)), d false).
Proof.
  split.
  - destruct (nextval_behaviour "s" (MkSequenceData 3 9223372036854775800 100 1 1 INT64_MAX true)) as [-> _];
      [constructor; unfold INT64_MIN, INT64_MAX; cbn; lia|reflexivity].
  - destruct (nextval_behaviour "s" (MkSequenceData 3 9223372036854775800 100 1 1 INT64_MAX false)) as [-> _];
      [constructor; unfold INT64_MIN, INT64_MAX; cbn; lia|reflexivity].
Defined.

(** A new sequence without a cycle: [nextKVal] gives the arithmetic progression from the start
    value, if it stays within the bounds, and the undo record it hands to the transaction takes the
    sequence back to where it was. *)
Theorem nextKVal_progression name d count :
  seq_ok d → usageCount d = 0 → cycle d = false → 0 < Z.of_nat count < 2 ^ 64 →
  (∀ k, (k < count)%nat → minValue d ≤ currVal_ d + Z.of_nat k * increment d ≤ maxValue d) →
  ∃ rb d', nextKVal name count d =
      (Ok ((λ k, currVal_ d + Z.of_nat k * increment d) <$> seq 0 count, rb), d') ∧
    usageCount d' = Z.of_nat count ∧ rollbackVal rb d' = (Ok tt, d).
Proof.
  intros Hok Hus Hcy Hcount Hb. destruct count as [|count]; [lia|].
  set (d1 := set_usage 1 (currVal_ d) d).
  assert (Hstep : nextValNoLock name d = (Ok tt, d1)).
  { unfold nextValNoLock. rewrite Hus. reflexivity. }
  eexists (MkRollback (usageCount d) (currVal_ d)), _. unfold nextKVal.
  rewrite (M_bind_ok _ _ d tt d), (M_bind_ok _ _ d d d) by reflexivity. cbv zeta. cbn [next_loop].
  rewrite !M_bind_assoc, (M_bind_ok _ _ _ _ _ Hstep), M_bind_assoc,
    (M_bind_ok _ _ d1 d1 d1) by reflexivity.
  rewrite M_bind_assoc, (M_bind_ok _ _ _ _ _ (next_loop_progression name count d1
    ltac:(destruct Hok; constructor; cbn; lia) ltac:(cbn; lia) Hcy
    ltac:(intros k Hk; cbn; apply Hb; lia) ltac:(cbn; lia))).
  split_and!.
  - unfold mret, mbind, M_ret, M_bind. cbn [d1 currVal_ increment usageCount set_usage seq fmap list_fmap].
    f_equal. do 2 f_equal. f_equal. lia.
  - cbn. lia.
  - unfold rollbackVal, modify, set_usage. cbn. destruct d; reflexivity.
Qed.

Lemma nextKVal_progression_witness :
  ∃ rb d', nextKVal "s" 3 (SequenceData_new 5 10 1 25 false) = (Ok ([5; 15; 25], rb), d') ∧
    rollbackVal rb d' = (Ok tt, SequenceData_new 5 10 1 25 false).
Proof.
  destruct (nextKVal_progression "s" (SequenceData_new 5 10 1 25 false) 3) as (rb & d' & Hn & _ & Hr).
  - constructor; unfold INT64_MIN, INT64_MAX; cbn; lia.
  - reflexivity.
  - reflexivity.
  - lia.
  - intros k Hk. cbn. lia.
  - exists rb, d'. split; [exact Hn|exact Hr].
Defined.

(** [nextKVal] that hits a bound half way has advanced the sequence, and hands no undo record to the
    transaction: the values already taken are not given back. *)
Lemma nextKVal_partial_advance :
  nextKVal "s" 4 (SequenceData_new 5 10 1 25 false) =
    (Throw (max_error "s" (SequenceData_new 5 10 1 25 false)),
     set_usage 3 25 (SequenceData_new 5 10 1 25 false)).
Proof. reflexivity. Qed.

End Sequence.
