(* ===== verification/NullMask.v ===== *)
(** * Null masks

    [common::NullMask] (common/null_mask.h, common/null_mask.cpp): one bit per value, packed into
    64-bit entries; a set bit is a null. The static functions work on raw arrays of entries; a
    read or write outside the array is undefined behaviour and throws in the model. Entries are
    integers below 2^64, positions are natural numbers; [uint32_t] parameters truncate. Bytes of an
    entry are numbered from the least significant one, the memory order of the supported targets.

    Facts about the bits are in NullMaskSpec, the theorems in NullMaskTheorems. *)

From stdpp Require Import base numbers list strings.
From Stdlib Require Import ZArith Lia.
From S2P Require Import Prelude.

Module NullMask.

(** ** The constant tables *)

Definition NULL_BITMASKS_WITH_SINGLE_ONE : list Z :=
  ([0x1; 0x2; 0x4; 0x8; 0x10; 0x20; 0x40; 0x80; 0x100; 0x200; 0x400; 0x800; 0x1000; 0x2000;
    0x4000; 0x8000; 0x10000; 0x20000; 0x40000; 0x80000; 0x100000; 0x200000; 0x400000; 0x800000;
    0x1000000; 0x2000000; 0x4000000; 0x8000000; 0x10000000; 0x20000000; 0x40000000; 0x80000000;
    0x100000000; 0x200000000; 0x400000000; 0x800000000; 0x1000000000; 0x2000000000; 0x4000000000;
    0x8000000000; 0x10000000000; 0x20000000000; 0x40000000000; 0x80000000000; 0x100000000000;
    0x200000000000; 0x400000000000; 0x800000000000; 0x1000000000000; 0x2000000000000;
    0x4000000000000; 0x8000000000000; 0x10000000000000; 0x20000000000000; 0x40000000000000;
    0x80000000000000; 0x100000000000000; 0x200000000000000; 0x400000000000000; 0x800000000000000;
    0x1000000000000000; 0x2000000000000000; 0x4000000000000000; 0x8000000000000000])%Z.

Definition NULL_BITMASKS_WITH_SINGLE_ZERO : list Z :=
  ([0xfffffffffffffffe; 0xfffffffffffffffd; 0xfffffffffffffffb; 0xfffffffffffffff7;
    0xffffffffffffffef; 0xffffffffffffffdf; 0xffffffffffffffbf; 0xffffffffffffff7f;
    0xfffffffffffffeff; 0xfffffffffffffdff; 0xfffffffffffffbff; 0xfffffffffffff7ff;
    0xffffffffffffefff; 0xffffffffffffdfff; 0xffffffffffffbfff; 0xffffffffffff7fff;
    0xfffffffffffeffff; 0xfffffffffffdffff; 0xfffffffffffbffff; 0xfffffffffff7ffff;
    0xffffffffffefffff; 0xffffffffffdfffff; 0xffffffffffbfffff; 0xffffffffff7fffff;
    0xfffffffffeffffff; 0xfffffffffdffffff; 0xfffffffffbffffff; 0xfffffffff7ffffff;
    0xffffffffefffffff; 0xffffffffdfffffff; 0xffffffffbfffffff; 0xffffffff7fffffff;
    0xfffffffeffffffff; 0xfffffffdffffffff; 0xfffffffbffffffff; 0xfffffff7ffffffff;
    0xffffffefffffffff; 0xffffffdfffffffff; 0xffffffbfffffffff; 0xffffff7fffffffff;
    0xfffffeffffffffff; 0xfffffdffffffffff; 0xfffffbffffffffff; 0xfffff7ffffffffff;
    0xffffefffffffffff; 0xffffdfffffffffff; 0xffffbfffffffffff; 0xffff7fffffffffff;
    0xfffeffffffffffff; 0xfffdffffffffffff; 0xfffbffffffffffff; 0xfff7ffffffffffff;
    0xffefffffffffffff; 0xffdfffffffffffff; 0xffbfffffffffffff; 0xff7fffffffffffff;
    0xfeffffffffffffff; 0xfdffffffffffffff; 0xfbffffffffffffff; 0xf7ffffffffffffff;
    0xefffffffffffffff; 0xdfffffffffffffff; 0xbfffffffffffffff; 0x7fffffffffffffff])%Z.

Definition NULL_LOWER_MASKS : list Z :=
  ([0x0; 0x1; 0x3; 0x7; 0xf; 0x1f; 0x3f; 0x7f; 0xff; 0x1ff; 0x3ff; 0x7ff; 0xfff; 0x1fff; 0x3fff;
    0x7fff; 0xffff; 0x1ffff; 0x3ffff; 0x7ffff; 0xfffff; 0x1fffff; 0x3fffff; 0x7fffff; 0xffffff;
    0x1ffffff; 0x3ffffff; 0x7ffffff; 0xfffffff; 0x1fffffff; 0x3fffffff; 0x7fffffff; 0xffffffff;
    0x1ffffffff; 0x3ffffffff; 0x7ffffffff; 0xfffffffff; 0x1fffffffff; 0x3fffffffff; 0x7fffffffff;
    0xffffffffff; 0x1ffffffffff; 0x3ffffffffff; 0x7ffffffffff; 0xfffffffffff; 0x1fffffffffff;
    0x3fffffffffff; 0x7fffffffffff; 0xffffffffffff; 0x1ffffffffffff; 0x3ffffffffffff;
    0x7ffffffffffff; 0xfffffffffffff; 0x1fffffffffffff; 0x3fffffffffffff; 0x7fffffffffffff;
    0xffffffffffffff; 0x1ffffffffffffff; 0x3ffffffffffffff; 0x7ffffffffffffff; 0xfffffffffffffff;
    0x1fffffffffffffff; 0x3fffffffffffffff; 0x7fffffffffffffff; 0xffffffffffffffff])%Z.

Definition NULL_HIGH_MASKS : list Z :=
  ([0x0; 0x8000000000000000; 0xc000000000000000; 0xe000000000000000; 0xf000000000000000;
    0xf800000000000000; 0xfc00000000000000; 0xfe00000000000000; 0xff00000000000000;
    0xff80000000000000; 0xffc0000000000000; 0xffe0000000000000; 0xfff0000000000000;
    0xfff8000000000000; 0xfffc000000000000; 0xfffe000000000000; 0xffff000000000000;
    0xffff800000000000; 0xffffc00000000000; 0xffffe00000000000; 0xfffff00000000000;
    0xfffff80000000000; 0xfffffc0000000000; 0xfffffe0000000000; 0xffffff0000000000;
    0xffffff8000000000; 0xffffffc000000000; 0xffffffe000000000; 0xfffffff000000000;
    0xfffffff800000000; 0xfffffffc00000000; 0xfffffffe00000000; 0xffffffff00000000;
    0xffffffff80000000; 0xffffffffc0000000; 0xffffffffe0000000; 0xfffffffff0000000;
    0xfffffffff8000000; 0xfffffffffc000000; 0xfffffffffe000000; 0xffffffffff000000;
    0xffffffffff800000; 0xffffffffffc00000; 0xffffffffffe00000; 0xfffffffffff00000;
    0xfffffffffff80000; 0xfffffffffffc0000; 0xfffffffffffe0000; 0xffffffffffff0000;
    0xffffffffffff8000; 0xffffffffffffc000; 0xffffffffffffe000; 0xfffffffffffff000;
    0xfffffffffffff800; 0xfffffffffffffc00; 0xfffffffffffffe00; 0xffffffffffffff00;
    0xffffffffffffff80; 0xffffffffffffffc0; 0xffffffffffffffe0; 0xfffffffffffffff0;
    0xfffffffffffffff8; 0xfffffffffffffffc; 0xfffffffffffffffe; 0xffffffffffffffff])%Z.

Definition NO_NULL_ENTRY : Z := 0%Z.
Definition ALL_NULL_ENTRY : Z := 18446744073709551615%Z.
Definition NUM_BITS_PER_NULL_ENTRY_LOG2 : nat := 6.
Definition NUM_BITS_PER_NULL_ENTRY : nat := 64.

(** ** Operations on [uint64_t] and on arrays of entries *)

Definition not64 (x : Z) : Z := uwrap 64 (Z.lnot x).
Definition shl64 (x : Z) (k : nat) : Z := uwrap 64 (Z.shiftl x (Z.of_nat k)).
Definition shr64 (x : Z) (k : nat) : Z := Z.shiftr x (Z.of_nat k).

(** The conversion of a position to [uint32_t]. *)
Definition to_u32 (pos : nat) : nat := Z.to_nat (uwrap 32 (Z.of_nat pos)).

Definition out_of_range : exn := UndefinedBehaviour "access past the end of an array".

Definition load (ws : list Z) (i : nat) : outcome Z :=
  match ws !! i with Some w => Ok w | None => Throw out_of_range end.

Definition store (ws : list Z) (i : nat) (w : Z) : outcome (list Z) :=
  if i <? length ws then Ok (<[i:=w]> ws) else Throw out_of_range.

Definition update_entry (ws : list Z) (i : nat) (f : Z → Z) : outcome (list Z) :=
  w ← load ws i; store ws i (f w).

Definition getNullEntryAndBitPos (pos : nat) : nat * nat :=
  let nullEntryPos := Nat.shiftr pos NUM_BITS_PER_NULL_ENTRY_LOG2 in
  (nullEntryPos, pos - Nat.shiftl nullEntryPos NUM_BITS_PER_NULL_ENTRY_LOG2).

(** ** Single bits *)

Definition setNullEntry (nullEntries : list Z) (pos32 : nat) (isNull : bool) : outcome (list Z) :=
  let pos := to_u32 pos32 in
  let entryPos := Nat.shiftr pos NUM_BITS_PER_NULL_ENTRY_LOG2 in
  let bitPosInEntry := pos - Nat.shiftl entryPos NUM_BITS_PER_NULL_ENTRY_LOG2 in
  if isNull then
    mask ← load NULL_BITMASKS_WITH_SINGLE_ONE bitPosInEntry;
    update_entry nullEntries entryPos (λ w, Z.lor w mask)
  else
    mask ← load NULL_BITMASKS_WITH_SINGLE_ZERO bitPosInEntry;
    update_entry nullEntries entryPos (λ w, Z.land w mask).

Definition isNullEntry (nullEntries : list Z) (pos32 : nat) : outcome bool :=
  let '(entryPos, bitPosInEntry) := getNullEntryAndBitPos (to_u32 pos32) in
  w ← load nullEntries entryPos;
  mask ← load NULL_BITMASKS_WITH_SINGLE_ONE bitPosInEntry;
  Ok (negb (Z.land w mask =? 0)%Z).

(** ** Copying bits between arrays *)

(** The variables of the loop of [copyUnaligned]. *)
Record CopyState := mkCopyState {
  bitPos : nat;
  srcNullEntryPos : nat;
  srcNullBitPos : nat;
  dstNullEntryPos : nat;
  dstNullBitPos : nat;
  dstEntries : list Z;
  hasNullInSrcNullMask : bool }.

(** The source entry masked to the bits read in this iteration and shifted to their place in the
    destination entry, in the three branches of the loop body. *)
Definition aligned_left (w : Z) (s d num : nat) : outcome Z :=
  high ← load NULL_HIGH_MASKS (NUM_BITS_PER_NULL_ENTRY - (s + num));
  lower ← load NULL_LOWER_MASKS d;
  Ok (Z.land (shr64 (Z.land w (not64 high)) (s - d)) (not64 lower)).

Definition aligned_right (w : Z) (s d num : nat) : outcome Z :=
  lower ← load NULL_LOWER_MASKS s;
  high ← load NULL_HIGH_MASKS (NUM_BITS_PER_NULL_ENTRY - (d + num));
  Ok (Z.land (shl64 (Z.land w (not64 lower)) (d - s)) (not64 high)).

Definition aligned_same (w : Z) (s d num : nat) : outcome Z :=
  lower ← load NULL_LOWER_MASKS s;
  high ← load NULL_HIGH_MASKS (NUM_BITS_PER_NULL_ENTRY - (d + num));
  Ok (Z.land (Z.land w (not64 lower)) (not64 high)).

(** Writes the bits read into the current destination entry. *)
Definition write_bits (dst : list Z) (entry d num : nat) (m : Z) : outcome (list Z) :=
  lower ← load NULL_LOWER_MASKS num;
  dst1 ← update_entry dst entry (λ w, Z.land w (not64 (shl64 lower d)));
  if (m =? 0)%Z then Ok dst1 else update_entry dst1 entry (λ w, Z.lor w m).

(** One iteration of the loop. *)
Definition copy_step (src : list Z) (numBitsToCopy : nat) (invert : bool) (st : CopyState)
    : outcome CopyState :=
  let s := srcNullBitPos st in
  let d := dstNullBitPos st in
  w0 ← load src (srcNullEntryPos st);
  let w := if invert then not64 w0 else w0 in
  let rest := numBitsToCopy - bitPos st in
  let finish num m se sb de db :=
    dst ← write_bits (dstEntries st) (dstNullEntryPos st) d num m;
    Ok (mkCopyState (bitPos st + num) se sb de db dst
          (if (m =? 0)%Z then hasNullInSrcNullMask st else true)) in
  if d <? s then
    let num := Nat.min (NUM_BITS_PER_NULL_ENTRY - s) rest in
    m ← aligned_left w s d num;
    finish num m (S (srcNullEntryPos st)) 0 (dstNullEntryPos st) (d + num)
  else if s <? d then
    let num := Nat.min (NUM_BITS_PER_NULL_ENTRY - d) rest in
    m ← aligned_right w s d num;
    finish num m (srcNullEntryPos st) (s + num) (S (dstNullEntryPos st)) 0
  else
    let num := Nat.min (NUM_BITS_PER_NULL_ENTRY - d) rest in
    m ← aligned_same w s d num;
    finish num m (S (srcNullEntryPos st)) 0 (S (dstNullEntryPos st)) 0.

(** The loop; every iteration copies a bit, so [numBitsToCopy] is fuel enough. *)
Fixpoint copy_loop (fuel : nat) (src : list Z) (numBitsToCopy : nat) (invert : bool)
    (st : CopyState) : outcome CopyState :=
  if bitPos st <? numBitsToCopy then
    match fuel with
    | 0 => Throw (InternalException "out of fuel")
    | S fuel' => st' ← copy_step src numBitsToCopy invert st;
                 copy_loop fuel' src numBitsToCopy invert st'
    end
  else Ok st.

Definition copyUnaligned (src : list Z) (srcOffset : nat) (dst : list Z) (dstOffset : nat)
    (numBitsToCopy : nat) (invert : bool) : outcome (list Z * bool) :=
  let '(se, sb) := getNullEntryAndBitPos srcOffset in
  let '(de, db) := getNullEntryAndBitPos dstOffset in
  st ← copy_loop numBitsToCopy src numBitsToCopy invert (mkCopyState 0 se sb de db dst false);
  Ok (dstEntries st, hasNullInSrcNullMask st).

(** The bytes of an array of entries. *)
Definition load_byte (ws : list Z) (i : nat) : outcome Z :=
  w ← load ws (i / 8); Ok (Z.land (shr64 w (8 * (i mod 8))) 255).

Definition store_byte (ws : list Z) (i : nat) (b : Z) : outcome (list Z) :=
  let shift := 8 * (i mod 8) in
  update_entry ws (i / 8) (λ w, Z.lor (Z.land w (not64 (shl64 255 shift))) (shl64 b shift)).

(** [memcpy] of [n] bytes. *)
Fixpoint memcpy (src : list Z) (srcByte : nat) (dst : list Z) (dstByte n : nat)
    : outcome (list Z) :=
  match n with
  | 0 => Ok dst
  | S n' => b ← load_byte src srcByte;
            dst' ← store_byte dst dstByte b;
            memcpy src (S srcByte) dst' (S dstByte) n'
  end.

(** [std::any_of(src, src + n, val != 0)]. *)
Fixpoint any_byte (src : list Z) (srcByte n : nat) : outcome bool :=
  match n with
  | 0 => Ok false
  | S n' => b ← load_byte src srcByte;
            if (b =? 0)%Z then any_byte src (S srcByte) n' else Ok true
  end.

(** The loop for at most three bits. *)
Fixpoint copy_bits (src : list Z) (srcOffset : nat) (dst : list Z) (dstOffset n : nat)
    (invert anyNull : bool) : outcome (list Z * bool) :=
  match n with
  | 0 => Ok (dst, anyNull)
  | S n' =>
    isNull ← isNullEntry src srcOffset;
    dst' ← setNullEntry dst dstOffset (xorb isNull invert);
    copy_bits src (S srcOffset) dst' (S dstOffset) n' invert (orb anyNull isNull)
  end.

(** The branch for offsets that are aligned relative to each other. *)
Definition copy_aligned (src : list Z) (srcOffset : nat) (dst : list Z) (dstOffset : nat)
    (numBitsToCopy : nat) : outcome (list Z * bool) :=
  let numBitsInFirstByte := if srcOffset =? 0 then 0 else 8 - srcOffset mod 8 in
  first ← (if srcOffset =? 0 then Ok (dst, false)
           else copyUnaligned src srcOffset dst dstOffset numBitsInFirstByte false)
          : outcome (list Z * bool);
  let '(dst1, hasNull1) := first in
  let srcByte := (srcOffset + numBitsInFirstByte) / 8 in
  let dstByte := (dstOffset + numBitsInFirstByte) / 8 in
  let numBytesForAlignedCopy := (numBitsToCopy - numBitsInFirstByte) / 8 in
  dst2 ← memcpy src srcByte dst1 dstByte numBytesForAlignedCopy;
  any ← any_byte src srcByte numBytesForAlignedCopy;
  let hasNull2 := orb any hasNull1 in
  let lastByteStart := numBitsInFirstByte + numBytesForAlignedCopy * 8 in
  let numBitsInLastByte := numBitsToCopy - numBitsInFirstByte - numBytesForAlignedCopy * 8 in
  if 0 <? numBitsInLastByte then
    last ← copyUnaligned src (srcOffset + lastByteStart) dst2 (dstOffset + lastByteStart)
             numBitsInLastByte false;
    let '(dst3, hasNull3) := last in
    Ok (dst3, orb hasNull3 hasNull2)
  else Ok (dst2, hasNull2).

Definition copyNullMask (src : list Z) (srcOffset : nat) (dst : list Z) (dstOffset : nat)
    (numBitsToCopy : nat) (invert : bool) : outcome (list Z * bool) :=
  if numBitsToCopy <=? 3 then copy_bits src srcOffset dst dstOffset numBitsToCopy invert false
  else if negb invert && (srcOffset mod 8 =? dstOffset mod 8) && (8 <=? numBitsToCopy)
          && (8 <=? numBitsToCopy - srcOffset mod 8)
  then copy_aligned src srcOffset dst dstOffset numBitsToCopy
  else copyUnaligned src srcOffset dst dstOffset numBitsToCopy invert.

(** ** Ranges, minimum and maximum, counts *)

(** The entry at the first position and, when the range reaches into it, the one after its end. *)
Definition setNullRange (nullEntries : list Z) (offset numBitsToSet : nat) (isNull : bool)
    : outcome (list Z) :=
  if numBitsToSet =? 0 then Ok nullEntries else
  let '(firstEntryPos, firstBitPos) := getNullEntryAndBitPos offset in
  let '(lastEntryPos, lastBitPos) := getNullEntryAndBitPos (offset + numBitsToSet) in
  filled ← (if firstEntryPos + 1 <? lastEntryPos then
              if lastEntryPos <=? length nullEntries then
                Ok (write_range (firstEntryPos + 1) (lastEntryPos - (firstEntryPos + 1))
                      (if isNull then ALL_NULL_ENTRY else NO_NULL_ENTRY) nullEntries)
              else Throw out_of_range
            else Ok nullEntries);
  lowerFirst ← load NULL_LOWER_MASKS firstBitPos;
  highLast ← load NULL_HIGH_MASKS (NUM_BITS_PER_NULL_ENTRY - lastBitPos);
  lowerLast ← load NULL_LOWER_MASKS lastBitPos;
  if firstEntryPos =? lastEntryPos then
    if isNull then
      update_entry filled firstEntryPos (λ w, Z.lor w (Z.land (not64 lowerFirst) (not64 highLast)))
    else
      update_entry filled firstEntryPos (λ w, Z.land w (Z.lor lowerFirst highLast))
  else if isNull then
    ws ← update_entry filled firstEntryPos (λ w, Z.lor w (not64 lowerFirst));
    if 0 <? lastBitPos then update_entry ws lastEntryPos (λ w, Z.lor w lowerLast) else Ok ws
  else
    ws ← update_entry filled firstEntryPos (λ w, Z.land w lowerFirst);
    if 0 <? lastBitPos then update_entry ws lastEntryPos (λ w, Z.land w (not64 lowerLast))
    else Ok ws.

(** The loop over the entries that are compared as a whole. *)
Fixpoint entries_equal (ws : list Z) (i n : nat) (baseline : Z) : outcome bool :=
  match n with
  | 0 => Ok true
  | S n' => w ← load ws i;
            if (w =? baseline)%Z then entries_equal ws (S i) n' baseline else Ok false
  end.

(** The check of the last, partly used entry. *)
Definition min_max_last (ws : list Z) (entry numValues : nat) (min max : bool)
    : outcome (bool * bool) :=
  if 0 <? numValues then
    mask ← load NULL_LOWER_MASKS numValues;
    w ← load ws entry;
    let masked := Z.land w mask in
    Ok (if (masked =? 0)%Z then (false, max)
        else if (masked =? mask)%Z then (min, true)
        else (false, true))
  else Ok (min, max).

(** The whole entries from [entry] on, then the last one. *)
Definition min_max_rest (ws : list Z) (entry numValues : nat) (min max : bool)
    : outcome (bool * bool) :=
  let baseline := if min then ALL_NULL_ENTRY else 0%Z in
  same ← entries_equal ws entry (numValues / NUM_BITS_PER_NULL_ENTRY) baseline;
  if same : bool then
    min_max_last ws (entry + numValues / NUM_BITS_PER_NULL_ENTRY)
      (numValues mod NUM_BITS_PER_NULL_ENTRY) min max
  else Ok (false, true).

Definition getMinMax (nullEntries : list Z) (offset0 numValues : nat) : outcome (bool * bool) :=
  let entry := offset0 / NUM_BITS_PER_NULL_ENTRY in
  let offset := offset0 mod NUM_BITS_PER_NULL_ENTRY in
  if offset + numValues <=? NUM_BITS_PER_NULL_ENTRY then
    high ← load NULL_HIGH_MASKS (NUM_BITS_PER_NULL_ENTRY - offset);
    lower ← load NULL_LOWER_MASKS (offset + numValues);
    let mask := Z.land high lower in
    w ← load nullEntries entry;
    let masked := Z.land w mask in
    Ok (if (masked =? 0)%Z then (false, false)
        else if (masked =? mask)%Z then (true, true)
        else (false, true))
  else if 0 <? offset then
    mask ← load NULL_HIGH_MASKS (NUM_BITS_PER_NULL_ENTRY - offset);
    w ← load nullEntries entry;
    let masked := Z.land w mask in
    let rest := numValues - (NUM_BITS_PER_NULL_ENTRY - offset) in
    if (masked =? 0)%Z then min_max_rest nullEntries (S entry) rest false false
    else if (masked =? mask)%Z then min_max_rest nullEntries (S entry) rest true true
    else Ok (false, true)
  else
    first ← isNullEntry (drop entry nullEntries) 0;
    min_max_rest nullEntries entry numValues first first.

(** [std::popcount]. *)
Fixpoint popcount_pos (p : positive) : nat :=
  match p with
  | xH => 1
  | xO p' => popcount_pos p'
  | xI p' => S (popcount_pos p')
  end.

Definition popcount (w : Z) : nat := match w with Zpos p => popcount_pos p | _ => 0 end.

Definition getNumNullEntries (numNullBits : Z) : Z :=
  (Z.shiftr numNullBits 6 +
   (if uwrap 64 (numNullBits - uwrap 64 (Z.shiftl numNullBits 6)) =? 0 then 0 else 1))%Z.

(** ** The class *)

Record NullMask := mkNullMask {
  data : list Z;
  mayContainNulls : bool }.

Definition entries_for (capacity : nat) : nat :=
  (capacity + NUM_BITS_PER_NULL_ENTRY - 1) / NUM_BITS_PER_NULL_ENTRY.

Definition NullMask_new (capacity : nat) : NullMask :=
  mkNullMask (replicate (entries_for capacity) NO_NULL_ENTRY) false.

Definition NullMask_of_data (nullData : list Z) (mayContainNulls : bool) : NullMask :=
  mkNullMask nullData mayContainNulls.

Definition getNumNullBits (ws : list Z) : nat := length ws * NUM_BITS_PER_NULL_ENTRY.

Definition hasNoNullsGuarantee (m : NullMask) : bool := negb (mayContainNulls m).

Definition countNulls (m : NullMask) : nat := sum_list_with popcount (data m).

Definition set_data (ws : list Z) : M NullMask unit :=
  modify (λ m, mkNullMask ws (mayContainNulls m)).

Definition set_mayContainNulls (b : bool) : M NullMask unit :=
  modify (λ m, mkNullMask (data m) b).

Definition setAllNonNull : M NullMask unit :=
  m ← get_state;
  if mayContainNulls m then
    set_data (replicate (length (data m)) NO_NULL_ENTRY) ;; set_mayContainNulls false
  else mret tt.

Definition setAllNull : M NullMask unit :=
  m ← get_state;
  set_data (replicate (length (data m)) ALL_NULL_ENTRY) ;; set_mayContainNulls true.

Definition setNull (pos : nat) (isNull : bool) : M NullMask unit :=
  m ← get_state;
  ku_assert (to_u32 pos <? getNumNullBits (data m)) ;;
  ws ← observe (λ m, setNullEntry (data m) pos isNull);
  set_data ws ;;
  if isNull then set_mayContainNulls true else mret tt.

Definition isNull (pos : nat) (m : NullMask) : outcome bool :=
  ku_assert_o (to_u32 pos <? getNumNullBits (data m)) ;;
  isNullEntry (data m) pos.

Definition setNullFromRange (offset numBitsToSet : nat) (isNull : bool) : M NullMask unit :=
  (if isNull then set_mayContainNulls true else mret tt) ;;
  m ← get_state;
  ku_assert (offset + numBitsToSet <=? getNumNullBits (data m)) ;;
  ws ← observe (λ m, setNullRange (data m) offset numBitsToSet isNull);
  set_data ws.

Definition copyFromNullBits (src : list Z) (srcOffset dstOffset numBitsToCopy : nat)
    (invert : bool) : M NullMask bool :=
  m ← get_state;
  ku_assert (dstOffset + numBitsToCopy <=? getNumNullBits (data m)) ;;
  copied ← observe (λ m, copyNullMask src srcOffset (data m) dstOffset numBitsToCopy invert);
  set_data copied.1 ;;
  if copied.2 : bool then set_mayContainNulls true ;; mret true else mret false.

Definition copyFrom (other : NullMask) (srcOffset dstOffset numBitsToCopy : nat) (invert : bool)
    : M NullMask bool :=
  if hasNoNullsGuarantee other then
    setNullFromRange dstOffset numBitsToCopy invert ;; mret invert
  else copyFromNullBits (data other) srcOffset dstOffset numBitsToCopy invert.

(** [memcpy] of the old entries into the new buffer, which must hold them. *)
Definition resize (capacity : nat) : M NullMask unit :=
  let numNullEntries := entries_for capacity in
  m ← get_state;
  if length (data m) <=? numNullEntries then
    set_data (data m ++ replicate (numNullEntries - length (data m)) 0%Z)
  else raise out_of_range.

Definition or_assign (other : NullMask) : M NullMask unit :=
  m ← get_state;
  ku_assert (length (data other) =? length (data m)) ;;
  set_data (zip_with Z.lor (data m) (data other)).

End NullMask.
