(* ===== verification/NullMaskSpec.v ===== *)
(** * The bits of null masks

    The view of an array of 64-bit entries as a sequence of bits, and what the word-level operations
    of NullMask do to it: masks, shifts, and the rounds of the copying, setting and scanning loops. *)

From stdpp Require Import base numbers list strings.
From Stdlib Require Import ZArith Lia.
From S2P Require Import Prelude NullMask.
Import NullMask.

(** ** Words *)

(** Bit [k] of a word, and the words of the machine. *)
Definition tb (w : Z) (k : nat) : bool := Z.testbit w (Z.of_nat k).
Definition word (w : Z) : Prop := (0 ≤ w < 2 ^ 64)%Z.

Lemma tb_land a b k : tb (Z.land a b) k = tb a k && tb b k.
Proof. apply Z.land_spec. Qed.

Lemma tb_lor a b k : tb (Z.lor a b) k = tb a k || tb b k.
Proof. apply Z.lor_spec. Qed.

Lemma tb_uwrap x k : tb (uwrap 64 x) k = (k <? 64) && tb x k.
Proof.
  unfold tb, uwrap. destruct (Nat.ltb_spec k 64) as [H|H].
  - rewrite Z.mod_pow2_bits_low by lia. reflexivity.
  - rewrite Z.mod_pow2_bits_high by lia. reflexivity.
Qed.

Lemma tb_not64 w k : tb (not64 w) k = (k <? 64) && negb (tb w k).
Proof. unfold not64. rewrite tb_uwrap. unfold tb. rewrite Z.lnot_spec by lia. reflexivity. Qed.

Lemma tb_shr64 w n k : tb (shr64 w n) k = tb w (k + n).
Proof. unfold tb, shr64. rewrite Z.shiftr_spec by lia. f_equal. lia. Qed.

Lemma tb_shl64 w n k : tb (shl64 w n) k = (k <? 64) && (n <=? k) && tb w (k - n).
Proof.
  unfold shl64. rewrite tb_uwrap. rewrite <- andb_assoc. f_equal. unfold tb.
  rewrite Z.shiftl_spec by lia. destruct (Nat.leb_spec n k) as [H|H].
  - rewrite Nat2Z.inj_sub by exact H. reflexivity.
  - rewrite Z.testbit_neg_r by lia. reflexivity.
Qed.

Lemma tb_ones n k : tb (Z.ones (Z.of_nat n)) k = (k <? n).
Proof.
  unfold tb. destruct (Nat.ltb_spec k n) as [H|H].
  - apply Z.ones_spec_low. lia.
  - apply Z.ones_spec_high. lia.
Qed.

Lemma tb_high w k : word w → 64 ≤ k → tb w k = false.
Proof.
  intros [H0 H1] Hk. unfold tb. destruct (decide (w = 0)%Z) as [->|Hne]; [apply Z.testbit_0_l|].
  apply Z.bits_above_log2; [exact H0|]. apply Z.log2_lt_pow2; [lia|].
  apply (Z.lt_le_trans _ _ _ H1). apply Z.pow_le_mono_r; lia.
Qed.

Lemma tb_ext a b : (∀ k, tb a k = tb b k) → a = b.
Proof.
  intros H. apply Z.bits_inj'. intros n Hn. specialize (H (Z.to_nat n)). unfold tb in H.
  rewrite Z2Nat.id in H by exact Hn. exact H.
Qed.

Lemma tb_zero k : tb 0 k = false.
Proof. apply Z.testbit_0_l. Qed.

Lemma word_of_bits w : (0 ≤ w)%Z → (∀ k, 64 ≤ k → tb w k = false) → word w.
Proof.
  intros H0 H. split; [exact H0|]. destruct (Z.lt_ge_cases w (2 ^ 64)) as [|Hge]; [assumption|].
  exfalso. assert (Hlog : (64 ≤ Z.log2 w)%Z) by (apply Z.log2_le_pow2; lia).
  specialize (H (Z.to_nat (Z.log2 w))). unfold tb in H.
  rewrite Z2Nat.id, Z.bit_log2 in H by lia. specialize (H ltac:(lia)). discriminate.
Qed.

Lemma word_uwrap x : word (uwrap 64 x).
Proof. unfold word, uwrap. apply Z.mod_pos_bound. lia. Qed.

Lemma word_not64 w : word (not64 w).
Proof. apply word_uwrap. Qed.

Lemma word_shl64 w n : word (shl64 w n).
Proof. apply word_uwrap. Qed.

Lemma word_land a b : word a → word (Z.land a b).
Proof.
  intros Ha. apply word_of_bits.
  - apply Z.land_nonneg. left. apply Ha.
  - intros k Hk. rewrite tb_land, (tb_high a) by assumption. reflexivity.
Qed.

Lemma word_lor a b : word a → word b → word (Z.lor a b).
Proof.
  intros Ha Hb. apply word_of_bits.
  - apply Z.lor_nonneg. split; [apply Ha|apply Hb].
  - intros k Hk. rewrite tb_lor, (tb_high a), (tb_high b) by assumption. reflexivity.
Qed.

Lemma word_shr64 w n : word w → word (shr64 w n).
Proof.
  intros Hw. apply word_of_bits.
  - apply Z.shiftr_nonneg. apply Hw.
  - intros k Hk. rewrite tb_shr64. apply tb_high; [exact Hw|lia].
Qed.

Lemma word_0 : word 0.
Proof. split; lia. Qed.

Lemma word_ones n : n ≤ 64 → word (Z.ones (Z.of_nat n)).
Proof.
  intros H. apply word_of_bits.
  { rewrite Z.ones_equiv. apply Z.lt_le_pred. apply Z.pow_pos_nonneg; lia. }
  intros k Hk. rewrite tb_ones. apply Nat.ltb_ge. lia.
Qed.

#[export] Hint Resolve word_not64 word_shl64 word_land word_lor word_shr64 word_0 word_ones
  word_uwrap : kuzu.

(** ** The tables *)

Lemma SINGLE_ONE_table :
  NULL_BITMASKS_WITH_SINGLE_ONE = map (λ i, Z.shiftl 1 (Z.of_nat i)) (seq 0 64).
Proof. reflexivity. Qed.

Lemma SINGLE_ZERO_table :
  NULL_BITMASKS_WITH_SINGLE_ZERO = map (λ i, not64 (Z.shiftl 1 (Z.of_nat i))) (seq 0 64).
Proof. reflexivity. Qed.

Lemma LOWER_table : NULL_LOWER_MASKS = map (λ i, Z.ones (Z.of_nat i)) (seq 0 65).
Proof. reflexivity. Qed.

Lemma HIGH_table :
  NULL_HIGH_MASKS = map (λ i, not64 (Z.ones (Z.of_nat (64 - i)))) (seq 0 65).
Proof. reflexivity. Qed.

Lemma load_table (f : nat → Z) n i : i < n → load (map f (seq 0 n)) i = Ok (f i).
Proof.
  intros H. unfold load. rewrite list_lookup_fmap, lookup_seq_lt by exact H. reflexivity.
Qed.

Lemma load_SINGLE_ONE i : i < 64 → load NULL_BITMASKS_WITH_SINGLE_ONE i = Ok (Z.shiftl 1 (Z.of_nat i)).
Proof. rewrite SINGLE_ONE_table. apply (load_table (λ i, Z.shiftl 1 (Z.of_nat i))). Qed.

Lemma load_SINGLE_ZERO i :
  i < 64 → load NULL_BITMASKS_WITH_SINGLE_ZERO i = Ok (not64 (Z.shiftl 1 (Z.of_nat i))).
Proof. rewrite SINGLE_ZERO_table. apply (load_table (λ i, not64 (Z.shiftl 1 (Z.of_nat i)))). Qed.

Lemma load_LOWER i : i ≤ 64 → load NULL_LOWER_MASKS i = Ok (Z.ones (Z.of_nat i)).
Proof.
  intros H. rewrite LOWER_table. apply (load_table (λ i, Z.ones (Z.of_nat i))). lia.
Qed.

Lemma load_HIGH i : i ≤ 64 → load NULL_HIGH_MASKS i = Ok (not64 (Z.ones (Z.of_nat (64 - i)))).
Proof.
  intros H. rewrite HIGH_table. apply (load_table (λ i, not64 (Z.ones (Z.of_nat (64 - i))))). lia.
Qed.

Lemma tb_one i k : tb (Z.shiftl 1 (Z.of_nat i)) k = (k =? i).
Proof.
  unfold tb. rewrite Z.shiftl_1_l, Z.pow2_bits_eqb by lia.
  destruct (Nat.eqb_spec k i) as [->|H]; [apply Z.eqb_refl|apply Z.eqb_neq; lia].
Qed.

#[export] Hint Rewrite tb_land tb_lor tb_not64 tb_shr64 tb_shl64 tb_ones tb_one tb_zero : kuzu.

(** Decides an equation between boolean combinations of comparisons of naturals and bits. *)
Ltac bits :=
  autorewrite with kuzu;
  repeat match goal with
  | |- context [(?a <? ?b)] => destruct (Nat.ltb_spec a b)
  | |- context [(?a <=? ?b)] => destruct (Nat.leb_spec a b)
  | |- context [(?a =? ?b)] => destruct (Nat.eqb_spec a b)
  end; cbn [andb orb negb]; rewrite ?andb_false_r, ?andb_true_r, ?orb_false_r, ?orb_true_r;
  try reflexivity; try lia; try (f_equal; lia).

(** ** Arrays of entries as bits *)

Definition bit (ws : list Z) (i : nat) : bool :=
  match ws !! (i / 64) with Some w => tb w (i mod 64) | None => false end.

Definition wf (ws : list Z) : Prop := Forall word ws.

Lemma getNullEntryAndBitPos_eq pos : getNullEntryAndBitPos pos = (pos / 64, pos mod 64).
Proof.
  unfold getNullEntryAndBitPos, NUM_BITS_PER_NULL_ENTRY_LOG2.
  rewrite Nat.shiftr_div_pow2, Nat.shiftl_mul_pow2. change (2 ^ 6) with 64.
  f_equal. rewrite (Nat.Div0.mod_eq pos 64). lia.
Qed.

Lemma entry_in_range pos n : pos < 64 * n → pos / 64 < n.
Proof. intros H. apply Nat.Div0.div_lt_upper_bound. exact H. Qed.

Lemma entry_bit e k : k < 64 → (64 * e + k) / 64 = e ∧ (64 * e + k) mod 64 = k.
Proof.
  intros H. rewrite (Nat.mul_comm 64). split.
  - rewrite Nat.div_add_l by lia. rewrite Nat.div_small by exact H. lia.
  - rewrite Nat.add_comm, Nat.Div0.mod_add. apply Nat.mod_small. exact H.
Qed.

Lemma bit_at ws e k w : k < 64 → ws !! e = Some w → bit ws (64 * e + k) = tb w k.
Proof. intros Hk Hw. unfold bit. destruct (entry_bit e k Hk) as [-> ->]. rewrite Hw. reflexivity. Qed.

Lemma bit_insert ws e w i :
  e < length ws → bit (<[e:=w]> ws) i = if i / 64 =? e then tb w (i mod 64) else bit ws i.
Proof.
  intros He. unfold bit. destruct (Nat.eqb_spec (i / 64) e) as [->|Hne].
  - rewrite list_lookup_insert_eq by exact He. reflexivity.
  - rewrite list_lookup_insert_ne by congruence. reflexivity.
Qed.

Lemma load_ok ws e : e < length ws → ∃ w, ws !! e = Some w ∧ load ws e = Ok w.
Proof.
  intros H. destruct (lookup_lt_is_Some_2 ws e H) as [w Hw]. exists w. unfold load. rewrite Hw. auto.
Qed.

Lemma update_entry_ok ws e f w :
  ws !! e = Some w → update_entry ws e f = Ok (<[e:=f w]> ws).
Proof.
  intros Hw. unfold update_entry, load, store. rewrite Hw, outcome_bind_Ok.
  rewrite (proj2 (Nat.ltb_lt _ _) (lookup_lt_Some _ _ _ Hw)). reflexivity.
Qed.

Lemma wf_insert ws e w : wf ws → word w → wf (<[e:=w]> ws).
Proof. intros H Hw. apply Forall_insert; assumption. Qed.

Lemma wf_lookup ws e w : wf ws → ws !! e = Some w → word w.
Proof. intros H Hw. exact (Forall_lookup_1 _ _ _ _ H Hw). Qed.

#[export] Hint Resolve wf_insert wf_lookup : kuzu.

(** An update of one entry, described by its bits: the array [ws'] has the same shape as [ws] and
    the bits [f] says. *)
Definition becomes (ws ws' : list Z) (f : nat → bool) : Prop :=
  wf ws' ∧ length ws' = length ws ∧ ∀ i, bit ws' i = f i.

Lemma update_entry_becomes ws e f w g :
  wf ws → ws !! e = Some w → word (f w) →
  (∀ k, k < 64 → g (64 * e + k) = tb (f w) k) →
  (∀ i, i / 64 ≠ e → g i = bit ws i) →
  ∃ ws', update_entry ws e f = Ok ws' ∧ becomes ws ws' g.
Proof.
  intros Hwf Hw Hword Hin Hout. exists (<[e:=f w]> ws). split; [apply update_entry_ok, Hw|].
  split_and!; [auto with kuzu|apply length_insert|].
  intros i. rewrite bit_insert by exact (lookup_lt_Some _ _ _ Hw).
  destruct (Nat.eqb_spec (i / 64) e) as [<-|Hne]; [|symmetry; auto].
  rewrite <- Hin by (apply Nat.mod_upper_bound; lia). f_equal. symmetry. apply Nat.div_mod_eq.
Qed.

(** ** Single bits *)

Lemma to_u32_small pos : (Z.of_nat pos < 2 ^ 32)%Z → to_u32 pos = pos.
Proof. intros H. unfold to_u32. rewrite uwrap_small by lia. apply Nat2Z.id. Qed.

Lemma isNullEntry_bit ws pos :
  (Z.of_nat pos < 2 ^ 32)%Z → pos < 64 * length ws → isNullEntry ws pos = Ok (bit ws pos).
Proof.
  intros H32 Hpos. unfold isNullEntry. rewrite to_u32_small by exact H32.
  rewrite getNullEntryAndBitPos_eq.
  destruct (load_ok ws (pos / 64) (entry_in_range _ _ Hpos)) as (w & Hw & ->).
  rewrite outcome_bind_Ok, load_SINGLE_ONE, outcome_bind_Ok by (apply Nat.mod_upper_bound; lia).
  f_equal. unfold bit. rewrite Hw. set (k := pos mod 64).
  destruct (Z.eqb_spec (Z.land w (Z.shiftl 1 (Z.of_nat k))) 0) as [Heq|Hne].
  - apply (f_equal (λ x, tb x k)) in Heq. autorewrite with kuzu in Heq.
    rewrite Nat.eqb_refl, andb_true_r in Heq. rewrite Heq. reflexivity.
  - destruct (tb w k) eqn:Hk; [reflexivity|]. destruct Hne. apply tb_ext. intros j.
    autorewrite with kuzu. destruct (Nat.eqb_spec j k) as [->|]; rewrite ?Hk; bits.
Qed.

Lemma setNullEntry_bit ws pos b :
  wf ws → (Z.of_nat pos < 2 ^ 32)%Z → pos < 64 * length ws →
  ∃ ws', setNullEntry ws pos b = Ok ws' ∧
         becomes ws ws' (λ i, if i =? pos then b else bit ws i).
Proof.
  intros Hwf H32 Hpos. unfold setNullEntry. rewrite to_u32_small by exact H32.
  change (pos - Nat.shiftl (Nat.shiftr pos NUM_BITS_PER_NULL_ENTRY_LOG2) _)
    with (snd (getNullEntryAndBitPos pos)).
  change (Nat.shiftr pos NUM_BITS_PER_NULL_ENTRY_LOG2) with (fst (getNullEntryAndBitPos pos)).
  rewrite getNullEntryAndBitPos_eq. cbn [fst snd].
  assert (Hlt : pos mod 64 < 64) by (apply Nat.mod_upper_bound; lia).
  destruct (load_ok ws (pos / 64) (entry_in_range _ _ Hpos)) as (w & Hw & _).
  assert (Hword : word w) by eauto with kuzu.
  pose proof (Nat.div_mod_eq pos 64) as Hdm.
  rewrite load_SINGLE_ONE, load_SINGLE_ZERO by exact Hlt.
  assert (Hone : word (Z.shiftl 1 (Z.of_nat (pos mod 64)))).
  { apply word_of_bits; [apply Z.shiftl_nonneg; lia|]. intros k Hge. bits. }
  assert (Hsame : ∀ k, k < 64 → (64 * (pos / 64) + k =? pos) = (k =? pos mod 64)).
  { intros k _. apply Bool.eq_iff_eq_true. rewrite !Nat.eqb_eq. lia. }
  assert (Hother : ∀ i, i / 64 ≠ pos / 64 → (if i =? pos then b else bit ws i) = bit ws i).
  { intros i Hne. destruct (Nat.eqb_spec i pos) as [->|]; [congruence|reflexivity]. }
  destruct b; rewrite outcome_bind_Ok;
    (eapply update_entry_becomes; [exact Hwf|exact Hw|auto with kuzu| |exact Hother]);
    intros k Hk64; rewrite Hsame, (bit_at _ _ _ _ Hk64 Hw) by exact Hk64; bits.
Qed.

(** ** Copying *)

(** [m] is the window of [num] bits of [w] from bit [s], moved to bit [d]. *)
Definition window (w m : Z) (s d num : nat) : Prop :=
  word m ∧ ∀ k, tb m k = (d <=? k) && (k <? d + num) && tb w (k - d + s).

Lemma aligned_left_window w s d num :
  word w → d < s → s + num ≤ 64 → ∃ m, aligned_left w s d num = Ok m ∧ window w m s d num.
Proof.
  intros Hw Hds Hnum. unfold aligned_left, NUM_BITS_PER_NULL_ENTRY.
  rewrite load_HIGH, load_LOWER, !outcome_bind_Ok by lia. eexists. split; [reflexivity|].
  split; [auto with kuzu|]. intros k. bits.
Qed.

Lemma aligned_right_window w s d num :
  word w → s < d → d + num ≤ 64 → ∃ m, aligned_right w s d num = Ok m ∧ window w m s d num.
Proof.
  intros Hw Hds Hnum. unfold aligned_right, NUM_BITS_PER_NULL_ENTRY.
  rewrite load_HIGH, load_LOWER, !outcome_bind_Ok by lia. eexists. split; [reflexivity|].
  split; [auto with kuzu|]. intros k. bits.
Qed.

Lemma aligned_same_window w s num :
  word w → s + num ≤ 64 → ∃ m, aligned_same w s s num = Ok m ∧ window w m s s num.
Proof.
  intros Hw Hnum. unfold aligned_same, NUM_BITS_PER_NULL_ENTRY.
  rewrite load_HIGH, load_LOWER, !outcome_bind_Ok by lia. eexists. split; [reflexivity|].
  split; [auto with kuzu|]. intros k. bits.
Qed.

(** Is a bit set among [n] bits from [start], each inverted on request. *)
Definition any_bit (ws : list Z) (invert : bool) (start n : nat) : bool :=
  existsb (λ j, xorb (bit ws j) invert) (seq start n).

Lemma any_bit_app ws invert start n m :
  any_bit ws invert start (n + m) = any_bit ws invert start n || any_bit ws invert (start + n) m.
Proof. unfold any_bit. rewrite seq_app, existsb_app. reflexivity. Qed.

Lemma any_bit_true ws invert start n :
  any_bit ws invert start n = true ↔ ∃ j, start ≤ j < start + n ∧ xorb (bit ws j) invert = true.
Proof.
  unfold any_bit. rewrite existsb_exists. split; intros (j & Hj & Hb); exists j; split; try exact Hb.
  - apply in_seq in Hj. exact Hj.
  - apply in_seq. exact Hj.
Qed.

(** The entry a copy reads, inverted on request. *)
Definition source_word (invert : bool) (w : Z) : Z := if invert then not64 w else w.

Lemma source_word_bit src e w invert k :
  wf src → src !! e = Some w → k < 64 →
  tb (source_word invert w) k = xorb (bit src (64 * e + k)) invert.
Proof.
  intros Hwf Hw Hk. rewrite (bit_at _ _ _ _ Hk Hw). destruct invert; cbn [source_word].
  - rewrite tb_not64, (proj2 (Nat.ltb_lt _ _) Hk), xorb_true_r. reflexivity.
  - symmetry. apply xorb_false_r.
Qed.

Lemma word_source_word invert w : word w → word (source_word invert w).
Proof. destruct invert; cbn; auto with kuzu. Qed.

(** A window is zero exactly when none of the bits it reads is set. *)
Lemma window_zero src e w invert m s d num :
  wf src → src !! e = Some w → s + num ≤ 64 →
  window (source_word invert w) m s d num →
  (m =? 0)%Z = negb (any_bit src invert (64 * e + s) num).
Proof.
  intros Hwf Hw Hnum [_ Hm]. destruct (any_bit src invert (64 * e + s) num) eqn:Hany; cbn.
  - apply any_bit_true in Hany as (j & Hj & Hb). apply Z.eqb_neq. intros ->.
    specialize (Hm (j - 64 * e - s + d)). rewrite tb_zero in Hm.
    replace (j - 64 * e - s + d - d + s) with (j - 64 * e) in Hm by lia.
    rewrite (source_word_bit src e w invert) in Hm by (assumption || lia).
    replace (64 * e + (j - 64 * e)) with j in Hm by lia. rewrite Hb in Hm. revert Hm. bits; discriminate.
  - apply Z.eqb_eq, tb_ext. intros k. rewrite Hm, tb_zero.
    destruct ((d <=? k) && (k <? d + num)) eqn:Hk; [|reflexivity].
    apply andb_prop in Hk as [H1%Nat.leb_le H2%Nat.ltb_lt].
    rewrite (source_word_bit src e w invert) by (assumption || lia).
    destruct (xorb (bit src (64 * e + (k - d + s))) invert) eqn:Hx; [|reflexivity].
    exfalso. rewrite <- not_true_iff_false, any_bit_true in Hany. apply Hany.
    eexists. split; [|exact Hx]. lia.
Qed.

(** Writing a window replaces [num] bits of one entry. *)
Lemma write_bits_becomes src se w invert dst de m s d num :
  wf src → wf dst → src !! se = Some w → de < length dst → s + num ≤ 64 → d + num ≤ 64 →
  d < 64 → window (source_word invert w) m s d num →
  ∃ dst', write_bits dst de d num m = Ok dst' ∧
    becomes dst dst' (λ i,
      if (64 * de + d <=? i) && (i <? 64 * de + d + num)
      then xorb (bit src (i - (64 * de + d) + (64 * se + s))) invert else bit dst i).
Proof.
  intros Hsrc Hdst Hw Hde Hs Hd Hd64 [Hmw Hm]. unfold write_bits.
  rewrite load_LOWER, outcome_bind_Ok by lia.
  destruct (load_ok dst de Hde) as (o & Ho & _). assert (word o) by eauto with kuzu.
  set (f := λ w, Z.land w (not64 (shl64 (Z.ones (Z.of_nat num)) d))).
  rewrite (update_entry_ok _ _ f _ Ho), outcome_bind_Ok.
  assert (Hfinal : (if (m =? 0)%Z then Ok (<[de:=f o]> dst)
                    else update_entry (<[de:=f o]> dst) de (λ w, Z.lor w m))
                   = update_entry dst de (λ w, Z.lor (f w) m)).
  { rewrite (update_entry_ok _ _ (λ w, Z.lor (f w) m) _ Ho).
    destruct (Z.eqb_spec m 0) as [->|_]; [rewrite Z.lor_0_r; reflexivity|].
    rewrite (update_entry_ok _ _ _ (f o)) by (apply list_lookup_insert_eq, Hde).
    rewrite list_insert_insert_eq. reflexivity. }
  rewrite Hfinal. clear Hfinal.
  eapply update_entry_becomes; [exact Hdst|exact Ho|unfold f; auto with kuzu| |].
  - intros k Hk. rewrite tb_lor, Hm, (bit_at _ _ _ _ Hk Ho). unfold f.
    destruct ((d <=? k) && (k <? d + num)) eqn:Hin.
    + apply andb_prop in Hin as [H1%Nat.leb_le H2%Nat.ltb_lt].
      rewrite (source_word_bit src se w invert) by (assumption || lia).
      rewrite (proj2 (Nat.leb_le _ _)), (proj2 (Nat.ltb_lt _ _)) by lia. cbn [andb].
      replace (64 * de + k - (64 * de + d) + (64 * se + s)) with (64 * se + (k - d + s)) by lia.
      bits.
    + rewrite andb_false_l, orb_false_r. revert Hin. bits; discriminate.
  - intros i Hne. destruct ((64 * de + d <=? i) && (i <? 64 * de + d + num)) eqn:Hin; [|reflexivity].
    apply andb_prop in Hin as [H1%Nat.leb_le H2%Nat.ltb_lt]. destruct Hne.
    replace i with (64 * de + (i - 64 * de)) by lia. apply entry_bit. lia.
Qed.

(** Bit [i] of the destination after [n] bits were copied. *)
Definition copied (src dst : list Z) (so d n : nat) (invert : bool) (i : nat) : bool :=
  if (d <=? i) && (i <? d + n) then xorb (bit src (i - d + so)) invert else bit dst i.

Lemma becomes_trans ws1 ws2 ws3 f g :
  becomes ws1 ws2 f → becomes ws2 ws3 g → becomes ws1 ws3 g.
Proof. intros (? & ? & _) (? & ? & ?). split_and!; [assumption|congruence|assumption]. Qed.

Lemma becomes_ext ws ws' f g : (∀ i, f i = g i) → becomes ws ws' f → becomes ws ws' g.
Proof. intros H (? & ? & Hb). split_and!; try assumption. intros i. rewrite Hb. apply H. Qed.

Lemma becomes_refl ws : wf ws → becomes ws ws (bit ws).
Proof. intros H. split_and!; [exact H|reflexivity|reflexivity]. Qed.

(** Copying [m] bits after [n] bits is copying [n + m] bits. *)
Lemma copied_app src dst dst' so d n m invert i :
  (∀ j, bit dst' j = copied src dst so d n invert j) →
  copied src dst' (so + n) (d + n) m invert i = copied src dst so d (n + m) invert i.
Proof.
  intros H. unfold copied at 1. rewrite H. unfold copied.
  destruct (Nat.leb_spec (d + n) i), (Nat.ltb_spec i (d + n + m)), (Nat.leb_spec d i),
    (Nat.ltb_spec i (d + n)), (Nat.ltb_spec i (d + (n + m))); cbn [andb]; try lia; try reflexivity.
  do 2 f_equal. lia.
Qed.

Section CopyLoop.
Context (src dst0 : list Z) (so d0 n : nat) (invert : bool).
Context (Hsrc : wf src) (Hdst : wf dst0).
Context (Hso : so + n ≤ 64 * length src) (Hdo : d0 + n ≤ 64 * length dst0).

(** The invariant of the loop. *)
Definition copy_inv (st : CopyState) : Prop :=
  bitPos st ≤ n ∧
  (bitPos st < n →
     64 * srcNullEntryPos st + srcNullBitPos st = so + bitPos st ∧ srcNullBitPos st < 64 ∧
     64 * dstNullEntryPos st + dstNullBitPos st = d0 + bitPos st ∧ dstNullBitPos st < 64) ∧
  becomes dst0 (dstEntries st) (copied src dst0 so d0 (bitPos st) invert) ∧
  hasNullInSrcNullMask st = any_bit src invert so (bitPos st).

(** Writing the window of an iteration establishes the invariant of the next one, whatever the
    branch that computed the new positions. *)
Lemma copy_inv_write st w m num se sb de db :
  copy_inv st → bitPos st < n → src !! srcNullEntryPos st = Some w →
  srcNullBitPos st + num ≤ 64 → dstNullBitPos st + num ≤ 64 → bitPos st + num ≤ n →
  window (source_word invert w) m (srcNullBitPos st) (dstNullBitPos st) num →
  (bitPos st + num < n →
     64 * se + sb = so + (bitPos st + num) ∧ sb < 64 ∧
     64 * de + db = d0 + (bitPos st + num) ∧ db < 64) →
  ∃ dst', write_bits (dstEntries st) (dstNullEntryPos st) (dstNullBitPos st) num m = Ok dst' ∧
    copy_inv (mkCopyState (bitPos st + num) se sb de db dst'
                (if (m =? 0)%Z then hasNullInSrcNullMask st else true)).
Proof.
  intros (Hle & Hpos & Hbecomes & Hany) Hlt Hw Hs Hd Hnum Hwin Hnext.
  destruct (Hpos Hlt) as (Hse & Hsb & Hde & Hdb). destruct Hbecomes as (Hwf & Hlen & Hbits).
  destruct (write_bits_becomes src (srcNullEntryPos st) w invert (dstEntries st)
    (dstNullEntryPos st) m (srcNullBitPos st) (dstNullBitPos st) num)
    as (dst' & -> & Hwrite); try assumption; [lia|].
  exists dst'. split; [reflexivity|]. split_and!; cbn [bitPos srcNullEntryPos srcNullBitPos dstNullEntryPos dstNullBitPos dstEntries
    hasNullInSrcNullMask]; [exact Hnum|exact Hnext| |].
  - apply (becomes_ext _ _ (copied src (dstEntries st) (so + bitPos st) (d0 + bitPos st) num invert)).
    { intros i. apply copied_app. exact Hbits. }
    apply (becomes_trans _ _ _ _ _ (conj Hwf (conj Hlen Hbits))).
    apply (becomes_ext _ _ _ _ (λ i, eq_refl)). rewrite <- Hse, <- Hde. exact Hwrite.
  - rewrite any_bit_app, <- Hse, <- Hany.
    rewrite (window_zero src _ _ invert _ _ _ _ Hsrc Hw Hs Hwin).
    destruct (any_bit src invert _ num); cbn; [symmetry; apply orb_true_r|symmetry; apply orb_false_r].
Qed.

Lemma copy_step_inv st :
  copy_inv st → bitPos st < n →
  ∃ st', copy_step src n invert st = Ok st' ∧ copy_inv st' ∧ bitPos st < bitPos st'.
Proof.
  intros Hinv Hlt. pose proof Hinv as (Hle & Hpos & _ & _).
  destruct (Hpos Hlt) as (Hse & Hsb & Hde & Hdb). unfold copy_step.
  destruct (load_ok src (srcNullEntryPos st)) as (w & Hw & ->); [lia|].
  assert (Hword : word (source_word invert w)) by (apply word_source_word; eauto with kuzu).
  rewrite outcome_bind_Ok. change (if invert then not64 w else w) with (source_word invert w).
  set (s := srcNullBitPos st) in *. set (d := dstNullBitPos st) in *.
  unfold NUM_BITS_PER_NULL_ENTRY.
  destruct (Nat.ltb_spec d s) as [Hds|Hds]; [|destruct (Nat.ltb_spec s d) as [Hsd|Hsd]].
  - set (num := Nat.min (64 - s) (n - bitPos st)).
    destruct (aligned_left_window (source_word invert w) s d num) as (m & -> & Hwin);
      [assumption|lia|lia|].
    destruct (copy_inv_write st w m num (S (srcNullEntryPos st)) 0 (dstNullEntryPos st) (d + num))
      as (dst' & Hwr & Hst'); try assumption; try lia.
    rewrite outcome_bind_Ok. fold d in Hwr. rewrite Hwr, outcome_bind_Ok.
    eexists. split_and!; [reflexivity|exact Hst'|cbn; lia].
  - set (num := Nat.min (64 - d) (n - bitPos st)).
    destruct (aligned_right_window (source_word invert w) s d num) as (m & -> & Hwin);
      [assumption|lia|lia|].
    destruct (copy_inv_write st w m num (srcNullEntryPos st) (s + num) (S (dstNullEntryPos st)) 0)
      as (dst' & Hwr & Hst'); try assumption; try lia.
    rewrite outcome_bind_Ok. fold d in Hwr. rewrite Hwr, outcome_bind_Ok.
    eexists. split_and!; [reflexivity|exact Hst'|cbn; lia].
  - set (num := Nat.min (64 - d) (n - bitPos st)).
    destruct (aligned_same_window (source_word invert w) s num) as (m & Hm & Hwin);
      [assumption|lia|].
    assert (Heq : s = d) by lia.
    assert (Hm' : aligned_same (source_word invert w) s d num = Ok m)
      by (rewrite <- Heq; exact Hm).
    assert (Hwin' : window (source_word invert w) m s d num) by (rewrite <- Heq; exact Hwin).
    rewrite Hm'.
    destruct (copy_inv_write st w m num (S (srcNullEntryPos st)) 0 (S (dstNullEntryPos st)) 0)
      as (dst' & Hwr & Hst'); try assumption; try lia.
    rewrite outcome_bind_Ok. fold d in Hwr. rewrite Hwr, outcome_bind_Ok.
    eexists. split_and!; [reflexivity|exact Hst'|cbn; lia].
Qed.

Lemma copy_loop_inv fuel st :
  copy_inv st → n - bitPos st ≤ fuel →
  ∃ st', copy_loop fuel src n invert st = Ok st' ∧ copy_inv st' ∧ bitPos st' = n.
Proof.
  revert st. induction fuel as [|fuel IH]; intros st Hinv Hfuel; cbn [copy_loop];
    destruct (Nat.ltb_spec (bitPos st) n) as [Hlt|Hge].
  - lia.
  - exists st. split_and!; [reflexivity|exact Hinv|]. destruct Hinv as [? _]. lia.
  - destruct (copy_step_inv st Hinv Hlt) as (st1 & -> & Hinv1 & Hprog). apply IH; [exact Hinv1|lia].
  - exists st. split_and!; [reflexivity|exact Hinv|]. destruct Hinv as [? _]. lia.
Qed.

Lemma copyUnaligned_copies :
  ∃ dst', copyUnaligned src so dst0 d0 n invert = Ok (dst', any_bit src invert so n) ∧
    becomes dst0 dst' (copied src dst0 so d0 n invert).
Proof.
  unfold copyUnaligned. rewrite !getNullEntryAndBitPos_eq.
  destruct (copy_loop_inv n (mkCopyState 0 (so / 64) (so mod 64) (d0 / 64) (d0 mod 64) dst0 false))
    as (st & -> & (_ & _ & Hb & Hany) & Hn); [|cbn; lia|].
  - pose proof (Nat.div_mod_eq so 64). pose proof (Nat.div_mod_eq d0 64).
    pose proof (Nat.mod_upper_bound so 64). pose proof (Nat.mod_upper_bound d0 64).
    split_and!; cbn [bitPos srcNullEntryPos srcNullBitPos dstNullEntryPos dstNullBitPos dstEntries
    hasNullInSrcNullMask]; [lia|lia| |reflexivity].
    apply (becomes_ext _ _ (bit dst0)); [|apply becomes_refl, Hdst].
    intros i. unfold copied. bits.
  - rewrite outcome_bind_Ok, Hany, Hn. rewrite Hn in Hb. eexists. split; [reflexivity|exact Hb].
Qed.
End CopyLoop.

(** ** Bytes *)

Lemma byte_position i k : k < 8 → (8 * i + k) / 64 = i / 8 ∧ (8 * i + k) mod 64 = 8 * (i mod 8) + k.
Proof.
  intros Hk. pose proof (Nat.div_mod_eq i 8). pose proof (Nat.mod_upper_bound i 8).
  replace (8 * i + k) with (64 * (i / 8) + (8 * (i mod 8) + k)) by lia. apply entry_bit. lia.
Qed.

Lemma tb_255 k : tb 255 k = (k <? 8).
Proof. exact (tb_ones 8 k). Qed.

#[export] Hint Rewrite tb_255 : kuzu.

Lemma load_byte_bits ws i :
  wf ws → i < 8 * length ws →
  ∃ b, load_byte ws i = Ok b ∧ word b ∧ ∀ k, tb b k = (k <? 8) && bit ws (8 * i + k).
Proof.
  intros Hwf Hi. unfold load_byte.
  destruct (load_ok ws (i / 8)) as (w & Hw & ->); [apply Nat.Div0.div_lt_upper_bound; exact Hi|].
  assert (word w) by eauto with kuzu. eexists. split_and!; [reflexivity|auto with kuzu|].
  intros k. rewrite tb_land, tb_shr64, tb_255, andb_comm.
  destruct (Nat.ltb_spec k 8) as [Hk|]; [|reflexivity]. cbn [andb]. unfold bit.
  destruct (byte_position i k Hk) as [-> ->]. rewrite Hw. f_equal. lia.
Qed.

Lemma store_byte_bits ws i b :
  wf ws → word b → i < 8 * length ws → (∀ k, 8 ≤ k → tb b k = false) →
  ∃ ws', store_byte ws i b = Ok ws' ∧
    becomes ws ws' (λ j, if (8 * i <=? j) && (j <? 8 * i + 8) then tb b (j - 8 * i) else bit ws j).
Proof.
  intros Hwf Hb Hi Hsmall. unfold store_byte.
  destruct (load_ok ws (i / 8)) as (w & Hw & _); [apply Nat.Div0.div_lt_upper_bound; exact Hi|].
  assert (word w) by eauto with kuzu. pose proof (Nat.div_mod_eq i 8) as Hdm.
  pose proof (Nat.mod_upper_bound i 8 ltac:(lia)) as Hmod.
  eapply update_entry_becomes; [exact Hwf|exact Hw|auto with kuzu| |].
  - intros k Hk. rewrite (bit_at _ _ _ _ Hk Hw). set (q := i / 8) in *. set (r := i mod 8) in *.
    destruct (decide (8 * r ≤ k < 8 * r + 8)) as [Hin|Hout].
    + rewrite (proj2 (Nat.leb_le _ _)), (proj2 (Nat.ltb_lt _ _)) by lia. cbn [andb].
      replace (64 * q + k - 8 * i) with (k - 8 * r) by lia. bits.
    + replace ((8 * i <=? 64 * q + k) && (64 * q + k <? 8 * i + 8)) with false by bits.
      autorewrite with kuzu.
      destruct (Nat.leb_spec (8 * r) k); [rewrite (Hsmall (k - 8 * r)) by lia|]; bits.
  - intros j Hne. destruct ((8 * i <=? j) && (j <? 8 * i + 8)) eqn:Hin; [|reflexivity].
    apply andb_prop in Hin as [H1%Nat.leb_le H2%Nat.ltb_lt]. destruct Hne.
    replace j with (8 * i + (j - 8 * i)) by lia. apply byte_position. lia.
Qed.

Lemma memcpy_copies src sb dst db n :
  wf src → wf dst → sb + n ≤ 8 * length src → db + n ≤ 8 * length dst →
  ∃ dst', memcpy src sb dst db n = Ok dst' ∧
    becomes dst dst' (copied src dst (8 * sb) (8 * db) (8 * n) false).
Proof.
  intros Hsrc. revert sb dst db. induction n as [|n IH]; intros sb dst db Hdst Hs Hd.
  - exists dst. split; [reflexivity|].
    apply (becomes_ext _ _ (bit dst)); [|apply becomes_refl, Hdst]. intros i. unfold copied. bits.
  - cbn [memcpy].
    destruct (load_byte_bits src sb Hsrc) as (b & -> & Hb & Hbits); [lia|]. rewrite outcome_bind_Ok.
    destruct (store_byte_bits dst db b) as (dst1 & -> & Hb1); try assumption; [lia| |].
    { intros k Hk. rewrite Hbits. bits. }
    rewrite outcome_bind_Ok.
    assert (Hc : becomes dst dst1 (copied src dst (8 * sb) (8 * db) 8 false)).
    { revert Hb1. apply becomes_ext. intros j. unfold copied.
      destruct ((8 * db <=? j) && (j <? 8 * db + 8)) eqn:Hin; [|reflexivity].
      apply andb_prop in Hin as [H1%Nat.leb_le H2%Nat.ltb_lt]. rewrite Hbits, xorb_false_r.
      rewrite (proj2 (Nat.ltb_lt _ _)) by lia. cbn [andb]. f_equal. lia. }
    destruct (IH (S sb) dst1 (S db)) as (dst2 & -> & H2); [apply Hc|lia| |].
    { destruct Hc as (_ & -> & _). lia. }
    exists dst2. split; [reflexivity|]. apply (becomes_trans _ _ _ _ _ Hc).
    revert H2. apply becomes_ext. intros j.
    replace (8 * S sb) with (8 * sb + 8) by lia. replace (8 * S db) with (8 * db + 8) by lia.
    replace (8 * S n) with (8 + 8 * n) by lia. apply copied_app. apply Hc.
Qed.

Lemma any_byte_any_bit src sb n :
  wf src → sb + n ≤ 8 * length src → any_byte src sb n = Ok (any_bit src false (8 * sb) (8 * n)).
Proof.
  intros Hsrc. revert sb. induction n as [|n IH]; intros sb Hs; [reflexivity|]. cbn [any_byte].
  destruct (load_byte_bits src sb Hsrc) as (b & -> & Hb & Hbits); [lia|]. rewrite outcome_bind_Ok.
  replace (8 * S n) with (8 + 8 * n) by lia. rewrite any_bit_app.
  assert (Hzero : (b =? 0)%Z = negb (any_bit src false (8 * sb) 8)).
  { destruct (any_bit src false (8 * sb) 8) eqn:Hany; cbn.
    - apply any_bit_true in Hany as (j & Hj & Hx). apply Z.eqb_neq. intros ->.
      specialize (Hbits (j - 8 * sb)). rewrite tb_zero in Hbits.
      rewrite xorb_false_r in Hx. rewrite (proj2 (Nat.ltb_lt _ _)) in Hbits by lia.
      replace (8 * sb + (j - 8 * sb)) with j in Hbits by lia. rewrite Hx in Hbits. discriminate.
    - apply Z.eqb_eq, tb_ext. intros k. rewrite Hbits, tb_zero.
      destruct (Nat.ltb_spec k 8) as [Hk|]; [|reflexivity]. cbn [andb].
      destruct (bit src (8 * sb + k)) eqn:Hx; [|reflexivity].
      exfalso. rewrite <- not_true_iff_false, any_bit_true in Hany. apply Hany.
      exists (8 * sb + k). rewrite Hx. split; [lia|reflexivity]. }
  rewrite Hzero. destruct (any_bit src false (8 * sb) 8); cbn [negb orb]; [reflexivity|].
  rewrite IH by lia. do 2 f_equal. lia.
Qed.

(** ** Copying bits at any offsets *)

Lemma copy_bits_copies src so dst d n invert any :
  wf dst → so + n ≤ 64 * length src → d + n ≤ 64 * length dst →
  (Z.of_nat (so + n) ≤ 2 ^ 32)%Z → (Z.of_nat (d + n) ≤ 2 ^ 32)%Z →
  ∃ dst', copy_bits src so dst d n invert any = Ok (dst', any || any_bit src false so n) ∧
    becomes dst dst' (copied src dst so d n invert).
Proof.
  revert so dst d any. induction n as [|n IH]; intros so dst d any Hdst Hs Hd Hs32 Hd32.
  - exists dst. cbn [copy_bits]. split; [rewrite orb_false_r; reflexivity|].
    apply (becomes_ext _ _ (bit dst)); [|apply becomes_refl, Hdst]. intros i. unfold copied. bits.
  - cbn [copy_bits]. rewrite isNullEntry_bit, outcome_bind_Ok by lia.
    destruct (setNullEntry_bit dst d (xorb (bit src so) invert)) as (dst1 & -> & Hb1);
      [exact Hdst|lia|lia|]. rewrite outcome_bind_Ok.
    assert (Hc : becomes dst dst1 (copied src dst so d 1 invert)).
    { revert Hb1. apply becomes_ext. intros j. unfold copied.
      destruct (Nat.eqb_spec j d) as [->|Hne]; [rewrite Nat.sub_diag|]; bits. }
    destruct (IH (S so) dst1 (S d) (orb any (bit src so))) as (dst2 & -> & H2);
      [apply Hc|lia| |lia|lia|].
    { destruct Hc as (_ & -> & _). lia. }
    exists dst2. split.
    + do 2 f_equal. rewrite <- orb_assoc. f_equal. unfold any_bit. cbn [seq existsb].
      rewrite xorb_false_r. reflexivity.
    + apply (becomes_trans _ _ _ _ _ Hc). revert H2. apply becomes_ext. intros j.
      rewrite <- (Nat.add_1_r so), <- (Nat.add_1_r d). apply (copied_app _ _ _ _ _ 1), Hc.
Qed.

(** After the bits up to the first byte boundary both offsets are multiples of eight. *)
Lemma first_byte_aligned so d :
  so mod 8 = d mod 8 →
  let n1 := if so =? 0 then 0 else 8 - so mod 8 in
  n1 ≤ 8 ∧ 8 * ((so + n1) / 8) = so + n1 ∧ 8 * ((d + n1) / 8) = d + n1.
Proof.
  intros Halign. pose proof (Nat.div_mod_eq so 8). pose proof (Nat.div_mod_eq d 8).
  pose proof (Nat.mod_upper_bound so 8 ltac:(lia)).
  destruct (Nat.eqb_spec so 0) as [->|Hne]; cbv zeta.
  - rewrite !Nat.add_0_r. cbn in *. lia.
  - replace (so + (8 - so mod 8)) with ((so / 8 + 1) * 8) by lia.
    replace (d + (8 - so mod 8)) with ((d / 8 + 1) * 8) by lia. rewrite !Nat.div_mul by lia. lia.
Qed.

Section CopyNullMask.
Context (src : list Z) (so : nat) (dst : list Z) (d n : nat).
Context (Hsrc : wf src) (Hdst : wf dst).
Context (Hso : so + n ≤ 64 * length src) (Hdo : d + n ≤ 64 * length dst).

Lemma copy_aligned_copies :
  so mod 8 = d mod 8 → 8 ≤ n →
  ∃ dst', copy_aligned src so dst d n = Ok (dst', any_bit src false so n) ∧
    becomes dst dst' (copied src dst so d n false).
Proof.
  intros Halign Hn8. unfold copy_aligned.
  set (n1 := if so =? 0 then 0 else 8 - so mod 8). set (n2 := (n - n1) / 8).
  pose proof (Nat.div_mod_eq (n - n1) 8) as Hn. fold n2 in Hn.
  pose proof (Nat.mod_upper_bound (n - n1) 8 ltac:(lia)) as Hnm.
  assert (Hn1 : n1 ≤ 8 ∧ 8 * ((so + n1) / 8) = so + n1 ∧ 8 * ((d + n1) / 8) = d + n1)
    by (apply first_byte_aligned; exact Halign).
  destruct Hn1 as (Hn18 & Hsb & Hdb).
  assert (Hfirst : ∃ dst1,
    (if so =? 0 then Ok (dst, false) else copyUnaligned src so dst d n1 false)
      = Ok (dst1, any_bit src false so n1) ∧ becomes dst dst1 (copied src dst so d n1 false)).
  { unfold n1. destruct (so =? 0).
    - exists dst. split; [reflexivity|].
      apply (becomes_ext _ _ (bit dst)); [|apply becomes_refl, Hdst]. intros i. unfold copied. bits.
    - apply copyUnaligned_copies; auto; lia. }
  destruct Hfirst as (dst1 & -> & H1). rewrite outcome_bind_Ok.
  pose proof H1 as (Hwf1 & Hlen1 & Hbits1).
  destruct (memcpy_copies src ((so + n1) / 8) dst1 ((d + n1) / 8) n2) as (dst2 & -> & H2);
    [assumption|assumption|lia|lia|].
  rewrite outcome_bind_Ok, any_byte_any_bit, outcome_bind_Ok by (assumption || lia).
  rewrite Hsb, Hdb in *.
  assert (H12 : becomes dst dst2 (copied src dst so d (n1 + 8 * n2) false)).
  { apply (becomes_trans _ _ _ _ _ H1). revert H2. apply becomes_ext. intros i.
    apply copied_app, Hbits1. }
  pose proof H12 as (Hwf2 & Hlen2 & Hbits2).
  rewrite (orb_comm (any_bit src false (so + n1) _)), <- any_bit_app.
  replace (n - n1 - n2 * 8) with (n - (n1 + 8 * n2)) by lia. rewrite (Nat.mul_comm n2 8).
  destruct (Nat.ltb_spec 0 (n - (n1 + 8 * n2))) as [Hlast|Hlast].
  - destruct (copyUnaligned_copies src dst2 (so + (n1 + 8 * n2)) (d + (n1 + 8 * n2))
      (n - (n1 + 8 * n2)) false) as (dst3 & -> & H3); auto; [lia|lia|].
    rewrite outcome_bind_Ok, orb_comm, <- any_bit_app.
    replace (n1 + 8 * n2 + (n - (n1 + 8 * n2))) with n by lia.
    exists dst3. split; [reflexivity|]. apply (becomes_trans _ _ _ _ _ H12).
    revert H3. apply becomes_ext. intros i. rewrite (copied_app _ _ _ _ _ _ _ _ _ Hbits2).
    f_equal. lia.
  - assert (Heq : n1 + 8 * n2 = n) by lia. rewrite Heq in *. exists dst2. auto.
Qed.
End CopyNullMask.

(** ** Setting a range *)

Lemma tb_ALL_NULL k : tb ALL_NULL_ENTRY k = (k <? 64).
Proof. exact (tb_ones 64 k). Qed.

Lemma word_fill (isNull : bool) : word (if isNull then ALL_NULL_ENTRY else NO_NULL_ENTRY).
Proof. destruct isNull; split; vm_compute; congruence. Qed.

Lemma tb_fill (isNull : bool) k :
  k < 64 → tb (if isNull then ALL_NULL_ENTRY else NO_NULL_ENTRY) k = isNull.
Proof.
  intros Hk. destruct isNull; [|apply tb_zero]. rewrite tb_ALL_NULL. apply Nat.ltb_lt, Hk.
Qed.

(** The entries strictly between the first and the last one. *)
Lemma fill_entries_becomes ws a b (isNull : bool) :
  wf ws → a ≤ b ≤ length ws →
  becomes ws (write_range a (b - a) (if isNull then ALL_NULL_ENTRY else NO_NULL_ENTRY) ws)
    (λ i, if (a <=? i / 64) && (i / 64 <? b) then isNull else bit ws i).
Proof.
  intros Hwf Hab. split_and!; [|apply length_write_range|].
  - apply Forall_lookup. intros e w. rewrite lookup_write_range by lia.
    destruct (decide _); [intros [= <-]; apply word_fill|eauto with kuzu].
  - intros i. unfold bit at 1. rewrite lookup_write_range by lia.
    destruct (decide (a ≤ i / 64 < a + (b - a))) as [Hin|Hout].
    + rewrite (proj2 (Nat.leb_le _ _)), (proj2 (Nat.ltb_lt _ _)) by lia.
      apply tb_fill, Nat.mod_upper_bound. lia.
    + fold (bit ws i). destruct (Nat.leb_spec a (i / 64)), (Nat.ltb_spec (i / 64) b); try reflexivity.
      lia.
Qed.

(** An entry updated so that the bits of a range of it become [v] and the others stay. *)
Definition entry_range_set (w w' : Z) (a b : nat) (v : bool) : Prop :=
  word w' ∧ ∀ k, k < 64 → tb w' k = if (a <=? k) && (k <? b) then v else tb w k.

Lemma set_entry_range ws e f w a b v :
  wf ws → ws !! e = Some w → b ≤ 64 → entry_range_set w (f w) a b v →
  ∃ ws', update_entry ws e f = Ok ws' ∧
    becomes ws ws' (λ i, if (64 * e + a <=? i) && (i <? 64 * e + b) then v else bit ws i).
Proof.
  intros Hwf Hw Hb [Hword Hbits].
  eapply update_entry_becomes; [exact Hwf|exact Hw|exact Hword| |].
  - intros k Hk. rewrite Hbits, (bit_at _ _ _ _ Hk Hw) by exact Hk. bits.
  - intros i Hne. destruct ((64 * e + a <=? i) && (i <? 64 * e + b)) eqn:Hin; [|reflexivity].
    apply andb_prop in Hin as [H1%Nat.leb_le H2%Nat.ltb_lt]. destruct Hne.
    replace i with (64 * e + (i - 64 * e)) by lia. apply entry_bit. lia.
Qed.

Section SetNullRange.
Context (w : Z) (Hw : word w).

Lemma set_inner_true a b :
  a ≤ 64 → b ≤ 64 →
  entry_range_set w (Z.lor w (Z.land (not64 (Z.ones (Z.of_nat a)))
                                     (not64 (not64 (Z.ones (Z.of_nat b)))))) a b true.
Proof. intros Ha Hb. split; [auto with kuzu|]. intros k Hk. bits. Qed.

Lemma set_inner_false a b :
  a ≤ 64 → b ≤ 64 →
  entry_range_set w (Z.land w (Z.lor (Z.ones (Z.of_nat a)) (not64 (Z.ones (Z.of_nat b))))) a b false.
Proof. intros Ha Hb. split; [auto with kuzu|]. intros k Hk. bits. Qed.

Lemma set_upper_true a :
  a ≤ 64 → entry_range_set w (Z.lor w (not64 (Z.ones (Z.of_nat a)))) a 64 true.
Proof. intros Ha. split; [auto with kuzu|]. intros k Hk. bits. Qed.

Lemma set_upper_false a :
  a ≤ 64 → entry_range_set w (Z.land w (Z.ones (Z.of_nat a))) a 64 false.
Proof. intros Ha. split; [auto with kuzu|]. intros k Hk. bits. Qed.

Lemma set_lower_true b :
  b ≤ 64 → entry_range_set w (Z.lor w (Z.ones (Z.of_nat b))) 0 b true.
Proof. intros Hb. split; [auto with kuzu|]. intros k Hk. bits. Qed.

Lemma set_lower_false b :
  b ≤ 64 → entry_range_set w (Z.land w (not64 (Z.ones (Z.of_nat b)))) 0 b false.
Proof. intros Hb. split; [auto with kuzu|]. intros k Hk. bits. Qed.
End SetNullRange.

(** What setting a range means. *)
Definition range_set (ws : list Z) (offset n : nat) (v : bool) (i : nat) : bool :=
  if (offset <=? i) && (i <? offset + n) then v else bit ws i.

(** The three pieces of a range that spans several entries. *)
Lemma range_pieces ws ws1 ws2 (v : bool) fe fb le lb i :
  fe < le → fb < 64 → lb < 64 →
  bit ws1 i = (if (fe + 1 <=? i / 64) && (i / 64 <? le) then v else bit ws i) →
  bit ws2 i = (if (64 * fe + fb <=? i) && (i <? 64 * fe + 64) then v else bit ws1 i) →
  (if (64 * le + 0 <=? i) && (i <? 64 * le + lb) then v else bit ws2 i)
    = range_set ws (64 * fe + fb) (64 * le + lb - (64 * fe + fb)) v i.
Proof.
  intros Hlt Hfb Hlb H1 H2. rewrite H2, H1. unfold range_set.
  pose proof (Nat.div_mod_eq i 64) as Hdm. pose proof (Nat.mod_upper_bound i 64 ltac:(lia)) as Hm.
  replace (64 * fe + fb + (64 * le + lb - (64 * fe + fb))) with (64 * le + lb) by lia.
  destruct ((64 * fe + fb <=? i) && (i <? 64 * le + lb)) eqn:Hin.
  - apply andb_prop in Hin as [Ha%Nat.leb_le Hb%Nat.ltb_lt]. bits.
  - apply andb_false_iff in Hin as [Ha%Nat.leb_gt|Hb%Nat.ltb_ge]; bits.
Qed.

(** The range within one entry. *)
Lemma set_within_entry ws e a b (v : bool) :
  wf ws → e < length ws → a ≤ 64 → b ≤ 64 → a ≤ b →
  ∃ ws', (if v then update_entry ws e (λ w, Z.lor w (Z.land (not64 (Z.ones (Z.of_nat a)))
                                             (not64 (not64 (Z.ones (Z.of_nat b))))))
          else update_entry ws e (λ w, Z.land w (Z.lor (Z.ones (Z.of_nat a))
                                                   (not64 (Z.ones (Z.of_nat b)))))) = Ok ws' ∧
    becomes ws ws' (range_set ws (64 * e + a) (64 * e + b - (64 * e + a)) v).
Proof.
  intros Hwf He Ha Hb Hab. destruct (load_ok ws e He) as (w & Hw & _).
  assert (word w) by eauto with kuzu. unfold range_set.
  replace (64 * e + a + (64 * e + b - (64 * e + a))) with (64 * e + b) by lia.
  destruct v.
  - apply (set_entry_range _ _ _ w); auto using set_inner_true.
  - apply (set_entry_range _ _ _ w); auto using set_inner_false.
Qed.

(** From the first position to the end of its entry, then the start of the last entry. *)
Lemma set_first_entry ws e a (v : bool) :
  wf ws → e < length ws → a ≤ 64 →
  ∃ ws', update_entry ws e (λ w, if v then Z.lor w (not64 (Z.ones (Z.of_nat a)))
                                 else Z.land w (Z.ones (Z.of_nat a))) = Ok ws' ∧
    becomes ws ws' (λ i, if (64 * e + a <=? i) && (i <? 64 * e + 64) then v else bit ws i).
Proof.
  intros Hwf He Ha. destruct (load_ok ws e He) as (w & Hw & _). assert (word w) by eauto with kuzu.
  apply (set_entry_range _ _ _ w); [assumption|assumption|lia|].
  destruct v; auto using set_upper_true, set_upper_false.
Qed.

Lemma set_last_entry ws e b (v : bool) :
  wf ws → b ≤ 64 → (0 < b → e < length ws) →
  ∃ ws', (if 0 <? b then update_entry ws e (λ w, if v then Z.lor w (Z.ones (Z.of_nat b))
                                 else Z.land w (not64 (Z.ones (Z.of_nat b)))) else Ok ws) = Ok ws' ∧
    becomes ws ws' (λ i, if (64 * e + 0 <=? i) && (i <? 64 * e + b) then v else bit ws i).
Proof.
  intros Hwf Hb He. destruct (Nat.ltb_spec 0 b) as [Hpos|Hzero].
  - destruct (load_ok ws e (He Hpos)) as (w & Hw & _). assert (word w) by eauto with kuzu.
    apply (set_entry_range _ _ _ w); [assumption|assumption|lia|].
    destruct v; auto using set_lower_true, set_lower_false.
  - exists ws. split; [reflexivity|].
    apply (becomes_ext _ _ (bit ws)); [|apply becomes_refl, Hwf]. intros i. bits.
Qed.

Lemma fill_middle ws fe le (v : bool) :
  wf ws → le ≤ length ws →
  ∃ ws1,
    (if fe + 1 <? le then
       if le <=? length ws then
         Ok (write_range (fe + 1) (le - (fe + 1)) (if v then ALL_NULL_ENTRY else NO_NULL_ENTRY) ws)
       else Throw out_of_range
     else Ok ws) = Ok ws1 ∧
    becomes ws ws1 (λ i, if (fe + 1 <=? i / 64) && (i / 64 <? le) then v else bit ws i).
Proof.
  intros Hwf Hle. destruct (Nat.ltb_spec (fe + 1) le) as [Hgap|Hnogap].
  - rewrite (proj2 (Nat.leb_le _ _)) by exact Hle. eexists. split; [reflexivity|].
    apply fill_entries_becomes; [exact Hwf|lia].
  - exists ws. split; [reflexivity|].
    apply (becomes_ext _ _ (bit ws)); [|apply becomes_refl, Hwf]. intros i. bits.
Qed.

Lemma setNullRange_becomes ws offset n v :
  wf ws → offset + n ≤ 64 * length ws →
  ∃ ws', setNullRange ws offset n v = Ok ws' ∧ becomes ws ws' (range_set ws offset n v).
Proof.
  intros Hwf Hlen. unfold setNullRange. destruct (Nat.eqb_spec n 0) as [->|Hn].
  { exists ws. split; [reflexivity|].
    apply (becomes_ext _ _ (bit ws)); [|apply becomes_refl, Hwf].
    intros i. unfold range_set. bits. }
  rewrite !getNullEntryAndBitPos_eq.
  pose proof (Nat.div_mod_eq offset 64) as Hf. pose proof (Nat.div_mod_eq (offset + n) 64) as Hl.
  pose proof (Nat.mod_upper_bound offset 64 ltac:(lia)) as Hfb.
  pose proof (Nat.mod_upper_bound (offset + n) 64 ltac:(lia)) as Hlb.
  set (fe := offset / 64) in *. set (fb := offset mod 64) in *.
  set (le := (offset + n) / 64) in *. set (lb := (offset + n) mod 64) in *.
  assert (Hgoal : range_set ws offset n v
                  = range_set ws (64 * fe + fb) (64 * le + lb - (64 * fe + fb)) v)
    by (f_equal; lia).
  rewrite Hgoal. clear Hgoal. clearbody fe fb le lb.
  unfold NUM_BITS_PER_NULL_ENTRY.
  destruct (fill_middle ws fe le v Hwf ltac:(lia)) as (ws1 & -> & H1).
  pose proof H1 as (Hwf1 & Hlen1 & Hbits1).
  rewrite outcome_bind_Ok, !load_LOWER, load_HIGH, !outcome_bind_Ok by lia.
  replace (64 - (64 - lb)) with lb by lia.
  destruct (Nat.eqb_spec fe le) as [Heq|Hne].
  - destruct (set_within_entry ws1 fe fb lb v) as (ws' & -> & H2); [assumption|lia..|].
    exists ws'. split; [reflexivity|]. apply (becomes_trans _ _ _ _ _ H1). revert H2.
    rewrite <- Heq. apply becomes_ext. intros i. unfold range_set. rewrite Hbits1. bits.
  - destruct (set_first_entry ws1 fe fb v) as (ws2 & Hu2 & H2); [assumption|lia|lia|].
    pose proof H2 as (Hwf2 & Hlen2 & Hbits2).
    destruct (set_last_entry ws2 le lb v) as (ws3 & Hu3 & H3); [assumption|lia|lia|].
    exists ws3. split.
    + destruct v; rewrite Hu2, outcome_bind_Ok; exact Hu3.
    + apply (becomes_trans _ _ _ _ _ H1), (becomes_trans _ _ _ _ _ H2). revert H3.
      apply becomes_ext. intros i. apply range_pieces with (ws1 := ws1); auto. lia.
Qed.
