(* ===== verification/NullMaskTheorems.v ===== *)
(** * The theorems about null masks

    Copying, ranges and minimum/maximum on raw entries, and the class [NullMask] as a list of
    booleans together with the meaning of its [mayContainNulls] flag. *)

From stdpp Require Import base numbers list strings.
From Stdlib Require Import ZArith Lia.
From S2P Require Import Prelude NullMask NullMaskSpec.
Import NullMask.

(** ** Minimum and maximum *)

Definition all_bit (ws : list Z) (start n : nat) : bool := forallb (bit ws) (seq start n).

Lemma all_bit_app ws start n m :
  all_bit ws start (n + m) = all_bit ws start n && all_bit ws (start + n) m.
Proof. unfold all_bit. rewrite seq_app, forallb_app. reflexivity. Qed.

Lemma all_bit_true ws start n :
  all_bit ws start n = true ↔ ∀ j, start ≤ j < start + n → bit ws j = true.
Proof.
  unfold all_bit. rewrite forallb_forall. split; intros H j Hj; apply H.
  - apply in_seq. exact Hj.
  - apply in_seq in Hj. exact Hj.
Qed.

Lemma any_bit_false ws start n :
  any_bit ws false start n = false ↔ ∀ j, start ≤ j < start + n → bit ws j = false.
Proof.
  rewrite <- not_true_iff_false, any_bit_true. split.
  - intros H j Hj. apply not_true_iff_false. intros Hb. apply H. exists j.
    rewrite Hb. split; [exact Hj|reflexivity].
  - intros H (j & Hj & Hb). rewrite (H j Hj) in Hb. discriminate.
Qed.

Lemma none_not_all ws start n : 0 < n → any_bit ws false start n = false → all_bit ws start n = false.
Proof.
  intros Hn Hany. apply not_true_iff_false. intros Hall.
  rewrite any_bit_false in Hany. rewrite all_bit_true in Hall.
  specialize (Hany start ltac:(lia)). specialize (Hall start ltac:(lia)). congruence.
Qed.

Lemma all_some ws start n : 0 < n → all_bit ws start n = true → any_bit ws false start n = true.
Proof.
  intros Hn Hall. destruct (any_bit ws false start n) eqn:Hany; [reflexivity|].
  apply none_not_all in Hany; [congruence|exact Hn].
Qed.

Section Masked.
Context (ws : list Z) (e : nat) (w mask : Z) (a b : nat).
Context (Hw : ws !! e = Some w) (Hb : b ≤ 64).
Context (Hmask : ∀ k, tb mask k = (a <=? k) && (k <? b)).

(** A masked entry is zero when no bit of the range is set and the mask when all are. *)
Lemma masked_zero :
  (Z.land w mask =? 0)%Z = negb (any_bit ws false (64 * e + a) (b - a)).
Proof.
  destruct (any_bit ws false (64 * e + a) (b - a)) eqn:Hany; cbn [negb].
  - apply any_bit_true in Hany as (j & Hj & Hx). rewrite xorb_false_r in Hx.
    apply Z.eqb_neq. intros Hz. apply (f_equal (λ x, tb x (j - 64 * e))) in Hz.
    rewrite tb_land, tb_zero, Hmask, <- (bit_at ws e _ w) in Hz by (assumption || lia).
    replace (64 * e + (j - 64 * e)) with j in Hz by lia. rewrite Hx in Hz. revert Hz. bits; discriminate.
  - rewrite any_bit_false in Hany. apply Z.eqb_eq, tb_ext. intros k.
    rewrite tb_land, tb_zero, Hmask.
    destruct (Nat.leb_spec a k), (Nat.ltb_spec k b); cbn [andb]; try apply andb_false_r.
    rewrite <- (bit_at ws e k w), Hany by (assumption || lia). reflexivity.
Qed.

Lemma masked_full : (Z.land w mask =? mask)%Z = all_bit ws (64 * e + a) (b - a).
Proof.
  apply Bool.eq_iff_eq_true. rewrite Z.eqb_eq, all_bit_true. split.
  - intros Heq j Hj. apply (f_equal (λ x, tb x (j - 64 * e))) in Heq.
    rewrite tb_land, Hmask, <- (bit_at ws e _ w) in Heq by (assumption || lia).
    replace (64 * e + (j - 64 * e)) with j in Heq by lia. revert Heq. bits; auto.
  - intros Hall. apply tb_ext. intros k. rewrite tb_land, Hmask.
    destruct (Nat.leb_spec a k), (Nat.ltb_spec k b); cbn [andb]; try apply andb_false_r.
    rewrite <- (bit_at ws e k w), Hall by (assumption || lia). reflexivity.
Qed.
End Masked.

Lemma entries_equal_bits ws e n (v : bool) :
  wf ws → e + n ≤ length ws →
  entries_equal ws e n (if v then ALL_NULL_ENTRY else 0%Z)
    = Ok (if v then all_bit ws (64 * e) (64 * n) else negb (any_bit ws false (64 * e) (64 * n))).
Proof.
  intros Hwf. revert e. induction n as [|n IH]; intros e Hlen; [destruct v; reflexivity|].
  cbn [entries_equal]. destruct (load_ok ws e) as (w & Hw & ->); [lia|]. rewrite outcome_bind_Ok.
  assert (Hall : ∀ k, tb ALL_NULL_ENTRY k = (0 <=? k) && (k <? 64)) by (intros k; apply tb_ALL_NULL).
  assert (Hland : Z.land w ALL_NULL_ENTRY = w).
  { apply tb_ext. intros k. rewrite tb_land, tb_ALL_NULL. destruct (Nat.ltb_spec k 64).
    - apply andb_true_r.
    - rewrite (tb_high w) by (eauto with kuzu). reflexivity. }
  pose proof (masked_zero ws e w ALL_NULL_ENTRY 0 64 Hw (le_n _) Hall) as Hz.
  pose proof (masked_full ws e w ALL_NULL_ENTRY 0 64 Hw (le_n _) Hall) as Hf.
  rewrite Hland, Nat.add_0_r in Hz, Hf. cbn [Nat.sub] in Hz, Hf.
  replace (64 * S n) with (64 + 64 * n) by lia. rewrite all_bit_app, any_bit_app.
  replace (64 * e + 64) with (64 * S e) by lia.
  destruct v; [rewrite Hf|rewrite Hz].
  - destruct (all_bit ws (64 * e) 64); cbn [andb]; [apply (IH (S e)); lia|reflexivity].
  - destruct (any_bit ws false (64 * e) 64); cbn [negb orb]; [reflexivity|apply (IH (S e)); lia].
Qed.

Lemma min_max_last_bits ws e n mn mx :
  n < 64 → (0 < n → e < length ws) →
  min_max_last ws e n mn mx
    = Ok (mn && all_bit ws (64 * e) n, mx || any_bit ws false (64 * e) n).
Proof.
  intros Hn He. unfold min_max_last. destruct (Nat.ltb_spec 0 n) as [Hpos|Hz].
  - rewrite load_LOWER, outcome_bind_Ok by lia.
    destruct (load_ok ws e (He Hpos)) as (w & Hw & ->). rewrite outcome_bind_Ok.
    assert (Hm : ∀ k, tb (Z.ones (Z.of_nat n)) k = (0 <=? k) && (k <? n)) by (intros k; apply tb_ones).
    rewrite (masked_zero ws e w _ 0 n Hw ltac:(lia) Hm), (masked_full ws e w _ 0 n Hw ltac:(lia) Hm).
    rewrite Nat.add_0_r, Nat.sub_0_r.
    destruct (any_bit ws false (64 * e) n) eqn:Hany; cbn [negb].
    + destruct (all_bit ws (64 * e) n); rewrite ?andb_true_r, ?andb_false_r, ?orb_true_r; reflexivity.
    + rewrite (none_not_all _ _ _ Hpos Hany), andb_false_r, orb_false_r. reflexivity.
  - replace n with 0 by lia. cbn. rewrite andb_true_r, orb_false_r. reflexivity.
Qed.

Lemma min_max_rest_bits ws e n v :
  wf ws → 64 * e + n ≤ 64 * length ws →
  min_max_rest ws e n v v
    = Ok (v && all_bit ws (64 * e) n, v || any_bit ws false (64 * e) n).
Proof.
  intros Hwf Hlen. unfold min_max_rest, NUM_BITS_PER_NULL_ENTRY.
  pose proof (Nat.div_mod_eq n 64) as Hdm. pose proof (Nat.mod_upper_bound n 64 ltac:(lia)) as Hm.
  set (q := n / 64) in *. set (r := n mod 64) in *.
  rewrite entries_equal_bits, outcome_bind_Ok by (assumption || lia).
  assert (Hall : all_bit ws (64 * e) n = all_bit ws (64 * e) (64 * q) && all_bit ws (64 * (e + q)) r).
  { rewrite Hdm, all_bit_app. do 2 f_equal. lia. }
  assert (Hany : any_bit ws false (64 * e) n
                 = any_bit ws false (64 * e) (64 * q) || any_bit ws false (64 * (e + q)) r).
  { rewrite Hdm, any_bit_app. do 2 f_equal. lia. }
  rewrite Hall, Hany. destruct v; cbn [orb andb].
  - destruct (all_bit ws (64 * e) (64 * q)); cbn [andb]; [|reflexivity].
    rewrite min_max_last_bits by lia. reflexivity.
  - destruct (any_bit ws false (64 * e) (64 * q)); cbn [negb orb]; [reflexivity|].
    rewrite min_max_last_bits by lia. reflexivity.
Qed.

(** ** Counting *)

Lemma count_if_shift (f g : nat → bool) n :
  (∀ k, f (S k) = g k) → count_if f (seq 0 (S n)) = (if f 0 then 1 else 0) + count_if g (seq 0 n).
Proof.
  intros H. rewrite <- cons_seq, <- fmap_S_seq. unfold count_if. cbn [List.filter].
  assert (Hrest : length (List.filter f (S <$> seq 0 n)) = length (List.filter g (seq 0 n))).
  { induction (seq 0 n) as [|k l IH]; [reflexivity|]. cbn [fmap list_fmap List.filter].
    rewrite H. destruct (g k); cbn [length]; rewrite ?IH; reflexivity. }
  destruct (f 0); cbn [length]; rewrite Hrest; reflexivity.
Qed.

Lemma popcount_pos_bits p n :
  (Zpos p < 2 ^ Z.of_nat n)%Z → popcount_pos p = count_if (tb (Zpos p)) (seq 0 n).
Proof.
  revert n. induction p as [p IH|p IH|]; intros [|n] Hn; try (cbn in Hn; lia).
  - rewrite Nat2Z.inj_succ, Z.pow_succ_r in Hn by lia.
    rewrite (count_if_shift _ (tb (Zpos p))); [cbn [popcount_pos]; rewrite (IH n); [reflexivity|lia]|].
    intros k. unfold tb. rewrite Nat2Z.inj_succ. apply (Z.testbit_odd_succ (Zpos p)). lia.
  - rewrite Nat2Z.inj_succ, Z.pow_succ_r in Hn by lia.
    rewrite (count_if_shift _ (tb (Zpos p))); [cbn [popcount_pos]; rewrite (IH n); [reflexivity|lia]|].
    intros k. unfold tb. rewrite Nat2Z.inj_succ. apply (Z.testbit_even_succ (Zpos p)). lia.
  - rewrite (count_if_shift _ (λ _, false)) by (intros [|k]; reflexivity).
    rewrite count_if_false by reflexivity. reflexivity.
Qed.

Lemma popcount_bits w : word w → popcount w = count_if (tb w) (seq 0 64).
Proof.
  intros [H0 H1]. destruct w as [|p|p]; [|apply popcount_pos_bits; exact H1|lia].
  symmetry. apply count_if_false. intros k _. apply tb_zero.
Qed.

(** ** The class as a list of booleans *)

Definition bits_of (ws : list Z) : list bool := bit ws <$> seq 0 (64 * length ws).

Lemma length_bits_of ws : length (bits_of ws) = 64 * length ws.
Proof. unfold bits_of. rewrite length_fmap, length_seq. reflexivity. Qed.

Lemma lookup_bits_of ws i : i < 64 * length ws → bits_of ws !! i = Some (bit ws i).
Proof. intros H. unfold bits_of. rewrite list_lookup_fmap, lookup_seq_lt by exact H. reflexivity. Qed.

Lemma becomes_bits_of ws ws' f : becomes ws ws' f → bits_of ws' = f <$> seq 0 (64 * length ws).
Proof.
  intros (_ & Hlen & Hb). unfold bits_of. rewrite Hlen. apply list_fmap_ext. intros _ i _. apply Hb.
Qed.

(** Two ways to give the bits of a mask agree when they agree at every position. *)
Lemma fmap_seq_eq (f : nat → bool) n l :
  length l = n → (∀ i, i < n → l !! i = Some (f i)) → f <$> seq 0 n = l.
Proof.
  intros Hlen H. apply list_eq_same_length with n; [assumption|rewrite length_fmap; apply length_seq|].
  intros i x y Hi. rewrite list_lookup_fmap, lookup_seq_lt, H by exact Hi. cbn. congruence.
Qed.

Lemma bits_of_cons w ws : bits_of (w :: ws) = (tb w <$> seq 0 64) ++ bits_of ws.
Proof.
  unfold bits_of. cbn [length]. replace (64 * S (length ws)) with (64 + 64 * length ws) by lia.
  rewrite seq_app, fmap_app. apply (f_equal2 (++)); [reflexivity|].
  change (0 + 64) with (64 + 0). rewrite <- (fmap_add_seq 64 0), <- list_fmap_compose.
  apply list_fmap_ext. intros _ i _. unfold compose, bit.
  replace (64 + i) with (i + 1 * 64) by lia.
  rewrite Nat.div_add, Nat.Div0.mod_add, Nat.add_1_r by lia. reflexivity.
Qed.

Lemma count_if_fmap {A B} (f : B → bool) (g : A → B) l :
  count_if f (g <$> l) = count_if (λ x, f (g x)) l.
Proof.
  unfold count_if. induction l as [|x l IH]; [reflexivity|]. cbn [fmap list_fmap List.filter].
  destruct (f (g x)); cbn [length]; rewrite ?IH; reflexivity.
Qed.

Lemma countNulls_bits m : wf (data m) → countNulls m = count_if id (bits_of (data m)).
Proof.
  unfold countNulls. induction (data m) as [|w ws IH]; intros Hwf; [reflexivity|].
  inversion Hwf as [|? ? Hw Hws]; subst. cbn [sum_list_with].
  rewrite bits_of_cons, count_if_app, count_if_fmap, (IH Hws), (popcount_bits w Hw). reflexivity.
Qed.

(** A mask whose flag is cleared has no nulls. *)
Definition sound (m : NullMask) : Prop :=
  wf (data m) ∧ (mayContainNulls m = false → ∀ i, bit (data m) i = false).

(** The operations of the class that change a mask. *)
Inductive mask_op :=
  | OpSetNull (pos : nat) (b : bool)
  | OpSetAllNull
  | OpSetAllNonNull
  | OpSetRange (offset n : nat) (b : bool)
  | OpCopyBits (src : list Z) (srcOffset dstOffset n : nat) (invert : bool)
  | OpCopyFrom (other : NullMask) (srcOffset dstOffset n : nat) (invert : bool)
  | OpResize (capacity : nat)
  | OpOr (other : NullMask).

Definition exec (c : mask_op) : M NullMask (option bool) :=
  match c with
  | OpSetNull pos b => setNull pos b ;; mret None
  | OpSetAllNull => setAllNull ;; mret None
  | OpSetAllNonNull => setAllNonNull ;; mret None
  | OpSetRange offset n b => setNullFromRange offset n b ;; mret None
  | OpCopyBits src so d n invert => r ← copyFromNullBits src so d n invert; mret (Some r)
  | OpCopyFrom other so d n invert => r ← copyFrom other so d n invert; mret (Some r)
  | OpResize capacity => resize capacity ;; mret None
  | OpOr other => or_assign other ;; mret None
  end.

(** The bits a copy reads. *)
Definition source_bits (src : list Z) (so n : nat) (invert : bool) : list bool :=
  (λ i, xorb (bit src i) invert) <$> seq so n.

(** The same operation on the list of bits, and what a copy returns. *)
Definition spec (c : mask_op) (l : list bool) : list bool :=
  match c with
  | OpSetNull pos b => <[pos:=b]> l
  | OpSetAllNull => replicate (length l) true
  | OpSetAllNonNull => replicate (length l) false
  | OpSetRange offset n b => write_range offset n b l
  | OpCopyBits src so d n invert => list_inserts d (source_bits src so n invert) l
  | OpCopyFrom other so d n invert => list_inserts d (source_bits (data other) so n invert) l
  | OpResize capacity => l ++ replicate (64 * entries_for capacity - length l) false
  | OpOr other => zip_with orb l (bits_of (data other))
  end.

Definition spec_result (c : mask_op) : option bool :=
  match c with
  | OpCopyBits src so _ n invert => Some (existsb id (source_bits src so n invert))
  | OpCopyFrom other so _ n invert => Some (existsb id (source_bits (data other) so n invert))
  | _ => None
  end.

(** A copy of a range of a source into a range of the mask. A copy of at most three bits is not
    inverted: see [inverted_copy_of_three_bits]. *)
Definition copy_in_range (src : list Z) (so d n : nat) (invert : bool) (m : NullMask) : Prop :=
  wf src ∧ so + n ≤ 64 * length src ∧ d + n ≤ 64 * length (data m) ∧
  (Z.of_nat (so + n) ≤ 2 ^ 32)%Z ∧ (Z.of_nat (d + n) ≤ 2 ^ 32)%Z ∧ (invert = true → 3 < n).

(** [operator|=] does not touch the flag, so it has to be set already if the other mask may have nulls: see
    [or_assign_keeps_flag]. *)
Definition in_range (c : mask_op) (m : NullMask) : Prop :=
  match c with
  | OpSetNull pos _ => pos < 64 * length (data m) ∧ (Z.of_nat pos < 2 ^ 32)%Z
  | OpSetAllNull | OpSetAllNonNull => True
  | OpSetRange offset n _ => offset + n ≤ 64 * length (data m)
  | OpCopyBits src so d n invert => copy_in_range src so d n invert m
  | OpCopyFrom other so d n invert => sound other ∧ copy_in_range (data other) so d n invert m
  | OpResize capacity => length (data m) ≤ entries_for capacity
  | OpOr other => sound other ∧ length (data other) = length (data m) ∧
      (mayContainNulls m = true ∨ mayContainNulls other = false)
  end.

Lemma copyNullMask_becomes src so dst d n invert :
  wf src → wf dst → so + n ≤ 64 * length src → d + n ≤ 64 * length dst →
  (Z.of_nat (so + n) ≤ 2 ^ 32)%Z → (Z.of_nat (d + n) ≤ 2 ^ 32)%Z →
  ∃ dst' any, copyNullMask src so dst d n invert = Ok (dst', any) ∧
    becomes dst dst' (copied src dst so d n invert) ∧
    ((invert = true → 3 < n) → any = any_bit src invert so n).
Proof.
  intros Hsrc Hdst Hs Hd Hs32 Hd32. unfold copyNullMask. destruct (Nat.leb_spec n 3) as [Hn|Hn].
  - destruct (copy_bits_copies src so dst d n invert false) as (dst' & -> & Hb); auto.
    exists dst', (any_bit src false so n). split_and!; [reflexivity|exact Hb|].
    destruct invert; [intros H; specialize (H eq_refl); lia|reflexivity].
  - destruct (negb invert && (so mod 8 =? d mod 8) && (8 <=? n) && (8 <=? n - so mod 8)) eqn:Hc.
    + apply andb_prop in Hc as [[[Hi%negb_true_iff Ha%Nat.eqb_eq]%andb_prop H8%Nat.leb_le]%andb_prop _].
      rewrite Hi. destruct (copy_aligned_copies src so dst d n) as (dst' & -> & Hb); auto.
      eexists _, _. split_and!; [reflexivity|exact Hb|reflexivity].
    + destruct (copyUnaligned_copies src dst so d n invert) as (dst' & -> & Hb); auto.
      eexists _, _. split_and!; [reflexivity|exact Hb|reflexivity].
Qed.

Section Operations.
Context (m : NullMask) (Hsound : sound m).

Local Abbreviation refines c m' :=
  (exec c m = (Ok (spec_result c), m') ∧ sound m' ∧
   bits_of (data m') = spec c (bits_of (data m)) ∧ length (data m) ≤ length (data m')).

(** An operation that turned the entries into [ws'] refines when the flag still covers its nulls. *)
Lemma becomes_sound ws' f b :
  becomes (data m) ws' f → (b = false → ∀ i, f i = false) → sound (mkNullMask ws' b).
Proof.
  intros (Hwf & _ & Hb) Hf. split; [exact Hwf|]. cbn. intros Hfalse i. rewrite Hb. auto.
Qed.

Lemma setNull_refines pos b :
  in_range (OpSetNull pos b) m → ∃ m', refines (OpSetNull pos b) m'.
Proof.
  destruct Hsound as [Hwf Hflag]. intros [Hpos H32].
  destruct (setNullEntry_bit (data m) pos b Hwf H32 Hpos) as (ws' & Hset & Hb).
  exists (mkNullMask ws' (if b then true else mayContainNulls m)). split_and!.
  - unfold exec, setNull, set_data, set_mayContainNulls, getNumNullBits, NUM_BITS_PER_NULL_ENTRY.
    unfold_M. rewrite to_u32_small by exact H32.
    rewrite (proj2 (Nat.ltb_lt _ _)) by lia. rewrite Hset. destruct b; reflexivity.
  - apply (becomes_sound _ _ _ Hb). destruct b; [discriminate|].
    intros Hm i. rewrite (Hflag Hm). destruct (i =? pos); reflexivity.
  - cbn [data]. rewrite (becomes_bits_of _ _ _ Hb). apply fmap_seq_eq.
    + cbn [data spec mayContainNulls]. rewrite length_insert. apply length_bits_of.
    + intros i Hi. cbn [spec]. destruct (Nat.eqb_spec i pos) as [->|Hne].
      * apply list_lookup_insert_eq. rewrite length_bits_of. exact Hi.
      * rewrite list_lookup_insert_ne by congruence. apply lookup_bits_of, Hi.
  - destruct Hb as (_ & Hlen & _). cbn. lia.
Qed.

Lemma bits_of_replicate n (v : bool) :
  bits_of (replicate n (if v then ALL_NULL_ENTRY else NO_NULL_ENTRY)) = replicate (64 * n) v.
Proof.
  unfold bits_of. rewrite length_replicate. apply fmap_seq_eq; [apply length_replicate|].
  intros i Hi. rewrite lookup_replicate_2 by exact Hi. f_equal. unfold bit.
  rewrite lookup_replicate_2 by (apply entry_in_range, Hi).
  symmetry. apply tb_fill, Nat.mod_upper_bound. lia.
Qed.

Lemma bit_replicate_zero n i : bit (replicate n 0%Z) i = false.
Proof.
  unfold bit. destruct (replicate n 0%Z !! (i / 64)) as [w|] eqn:Hw; [|reflexivity].
  apply lookup_replicate in Hw as [-> _]. apply tb_zero.
Qed.

Lemma setAllNull_refines : ∃ m', refines OpSetAllNull m'.
Proof.
  exists (mkNullMask (replicate (length (data m)) ALL_NULL_ENTRY) true). split_and!.
  - reflexivity.
  - split; [|discriminate]. apply Forall_replicate, (word_fill true).
  - cbn [data spec mayContainNulls]. rewrite length_bits_of. apply (bits_of_replicate _ true).
  - cbn [data spec mayContainNulls]. rewrite length_replicate. lia.
Qed.

Lemma setAllNonNull_refines : ∃ m', refines OpSetAllNonNull m'.
Proof.
  destruct Hsound as [Hwf Hflag]. destruct (mayContainNulls m) eqn:Hm.
  - exists (mkNullMask (replicate (length (data m)) NO_NULL_ENTRY) false). split_and!.
    + unfold exec, setAllNonNull. unfold_M. rewrite Hm. reflexivity.
    + split; [apply Forall_replicate, word_0|]. intros _ i. apply bit_replicate_zero.
    + cbn [data spec mayContainNulls]. rewrite length_bits_of. apply (bits_of_replicate _ false).
    + cbn [data spec mayContainNulls]. rewrite length_replicate. lia.
  - exists m. split_and!; [|exact Hsound| |reflexivity].
    + unfold exec, setAllNonNull. unfold_M. rewrite Hm. reflexivity.
    + cbn [data spec mayContainNulls]. apply fmap_seq_eq; [rewrite length_replicate; apply length_bits_of|].
      intros i Hi. rewrite lookup_replicate_2 by (rewrite length_bits_of; exact Hi).
      rewrite (Hflag eq_refl). reflexivity.
Qed.

Lemma setRange_refines offset n b :
  in_range (OpSetRange offset n b) m → ∃ m', refines (OpSetRange offset n b) m'.
Proof.
  destruct Hsound as [Hwf Hflag]. intros Hlen. cbn in Hlen.
  destruct (setNullRange_becomes (data m) offset n b Hwf Hlen) as (ws' & Hset & Hb).
  exists (mkNullMask ws' (if b then true else mayContainNulls m)). split_and!.
  - unfold exec, setNullFromRange, set_data, set_mayContainNulls, getNumNullBits.
    destruct b; unfold_M; cbn [data]; rewrite (proj2 (Nat.leb_le _ _))
      by (unfold NUM_BITS_PER_NULL_ENTRY; lia); cbv beta iota; cbn [data]; rewrite Hset; reflexivity.
  - apply (becomes_sound _ _ _ Hb). unfold range_set. destruct b; [discriminate|].
    intros Hm i. rewrite (Hflag Hm). destruct (_ && _); reflexivity.
  - cbn [data]. rewrite (becomes_bits_of _ _ _ Hb). apply fmap_seq_eq.
    + cbn [data spec mayContainNulls]. rewrite length_write_range. apply length_bits_of.
    + intros i Hi. cbn [spec]. rewrite lookup_write_range by (rewrite length_bits_of; exact Hlen).
      unfold range_set. rewrite lookup_bits_of by exact Hi.
      destruct (decide (offset ≤ i < offset + n)); bits.
  - destruct Hb as (_ & Hl & _). cbn. lia.
Qed.

Lemma length_source_bits src so n invert : length (source_bits src so n invert) = n.
Proof. unfold source_bits. rewrite length_fmap. apply length_seq. Qed.

Lemma any_source_bits src so n invert :
  existsb id (source_bits src so n invert) = any_bit src invert so n.
Proof.
  unfold source_bits, any_bit. induction (seq so n) as [|x l IH]; [reflexivity|].
  cbn [fmap list_fmap existsb]. rewrite <- IH. reflexivity.
Qed.

(** Copied bits as a splice into the list. *)
Lemma copied_bits_of src so d n invert :
  d + n ≤ 64 * length (data m) →
  copied src (data m) so d n invert <$> seq 0 (64 * length (data m))
    = list_inserts d (source_bits src so n invert) (bits_of (data m)).
Proof.
  intros Hd. apply fmap_seq_eq; [rewrite length_inserts; apply length_bits_of|]. intros i Hi.
  unfold copied. destruct (Nat.leb_spec d i), (Nat.ltb_spec i (d + n)); cbn [andb].
  - rewrite list_lookup_inserts by (rewrite ?length_source_bits, ?length_bits_of; lia).
    unfold source_bits. rewrite list_lookup_fmap, lookup_seq_lt by lia. cbn. do 3 f_equal. lia.
  - rewrite list_lookup_inserts_ge by (rewrite length_source_bits; lia). apply lookup_bits_of, Hi.
  - rewrite list_lookup_inserts_lt by lia. apply lookup_bits_of, Hi.
  - lia.
Qed.

Lemma copyBits_run src so d n invert :
  copy_in_range src so d n invert m →
  ∃ m', copyFromNullBits src so d n invert m = (Ok (any_bit src invert so n), m') ∧ sound m' ∧
    bits_of (data m') = list_inserts d (source_bits src so n invert) (bits_of (data m)) ∧
    length (data m) ≤ length (data m').
Proof.
  destruct Hsound as [Hwf Hflag]. intros (Hsrc & Hs & Hd & Hs32 & Hd32 & Hinv).
  destruct (copyNullMask_becomes src so (data m) d n invert) as (ws' & any & Hcopy & Hb & Hany); auto.
  rewrite (Hany Hinv) in Hcopy. clear any Hany.
  exists (mkNullMask ws' (if any_bit src invert so n then true else mayContainNulls m)). split_and!.
  - unfold copyFromNullBits, set_data, set_mayContainNulls, getNumNullBits. unfold_M.
    rewrite (proj2 (Nat.leb_le _ _)) by (unfold NUM_BITS_PER_NULL_ENTRY; lia).
    cbv beta iota. rewrite Hcopy. cbn [fst snd].
    destruct (any_bit src invert so n); reflexivity.
  - apply (becomes_sound _ _ _ Hb). destruct (any_bit src invert so n) eqn:Hany; [discriminate|].
    intros Hm i. unfold copied.
    destruct ((d <=? i) && (i <? d + n)) eqn:Hin; [|apply (Hflag Hm)].
    apply andb_prop in Hin as [H1%Nat.leb_le H2%Nat.ltb_lt].
    destruct (xorb (bit src (i - d + so)) invert) eqn:Hx; [|reflexivity].
    rewrite <- not_true_iff_false, any_bit_true in Hany. destruct Hany.
    exists (i - d + so). split; [lia|exact Hx].
  - cbn [data]. rewrite (becomes_bits_of _ _ _ Hb). apply copied_bits_of, Hd.
  - destruct Hb as (_ & Hl & _). cbn [data]. lia.
Qed.

Lemma copyBits_refines src so d n invert :
  in_range (OpCopyBits src so d n invert) m → ∃ m', refines (OpCopyBits src so d n invert) m'.
Proof.
  intros Hr. destruct (copyBits_run src so d n invert Hr) as (m' & Hrun & Hrest).
  exists m'. split; [|exact Hrest]. unfold exec, spec_result.
  rewrite (M_bind_ok _ _ _ _ _ Hrun), any_source_bits. reflexivity.
Qed.

Lemma inserts_replicate d n (v : bool) l :
  d + n ≤ length l → list_inserts d (replicate n v) l = write_range d n v l.
Proof.
  intros Hlen. apply list_eq. intros i. rewrite lookup_write_range by exact Hlen.
  destruct (decide (d ≤ i < d + n)) as [Hin|Hout].
  - rewrite list_lookup_inserts by (rewrite ?length_replicate; lia). apply lookup_replicate_2. lia.
  - destruct (Nat.lt_ge_cases i d); [apply list_lookup_inserts_lt; lia|].
    apply list_lookup_inserts_ge. rewrite length_replicate. lia.
Qed.

Lemma copyFrom_refines other so d n invert :
  in_range (OpCopyFrom other so d n invert) m → ∃ m', refines (OpCopyFrom other so d n invert) m'.
Proof.
  intros [[Hwfo Hflago] Hr]. pose proof Hr as (_ & Hs & Hd & _ & _ & Hinv).
  unfold exec, copyFrom, hasNoNullsGuarantee. destruct (mayContainNulls other) eqn:Hmo; cbn [negb].
  - destruct (copyBits_run (data other) so d n invert Hr) as (m' & Hrun & Hrest).
    exists m'. split; [|exact Hrest]. unfold spec_result.
    rewrite (M_bind_ok _ _ _ _ _ Hrun), any_source_bits. reflexivity.
  - assert (Hsrc : source_bits (data other) so n invert = replicate n invert).
    { apply list_eq. intros i. unfold source_bits. rewrite list_lookup_fmap.
      destruct (Nat.lt_ge_cases i n) as [Hi|Hi].
      - rewrite lookup_seq_lt, lookup_replicate_2 by exact Hi. cbn.
        rewrite (Hflago eq_refl). reflexivity.
      - rewrite lookup_seq_ge, lookup_ge_None_2 by (rewrite ?length_replicate; exact Hi). reflexivity. }
    destruct (setRange_refines d n invert Hd) as (m' & Hrun & Hs' & Hbits & Hlen).
    exists m'. unfold spec, spec_result. rewrite Hsrc. split_and!; [|exact Hs'| |exact Hlen].
    + unfold exec, spec_result in Hrun. revert Hrun. unfold mbind, M_bind, mret, M_ret.
      destruct (setNullFromRange d n invert m) as [[[]|e] m1]; [intros [= <-]|discriminate].
      do 3 f_equal. destruct invert, n; try reflexivity; [specialize (Hinv eq_refl); lia|].
      clear. cbn. induction n as [|n IH]; [reflexivity|exact IH].
    + rewrite Hbits. symmetry. apply inserts_replicate. rewrite length_bits_of. exact Hd.
Qed.

Lemma resize_refines capacity :
  in_range (OpResize capacity) m → ∃ m', refines (OpResize capacity) m'.
Proof.
  destruct Hsound as [Hwf Hflag]. intros Hlen. cbn in Hlen.
  set (extra := replicate (entries_for capacity - length (data m)) 0%Z).
  assert (Hbit : ∀ i, bit (data m ++ extra) i = bit (data m) i).
  { intros i. unfold bit. destruct (Nat.lt_ge_cases (i / 64) (length (data m))) as [Hi|Hi].
    - rewrite lookup_app_l by exact Hi. reflexivity.
    - rewrite lookup_app_r, (lookup_ge_None_2 (data m)) by exact Hi. unfold extra.
      destruct (replicate _ _ !! _) as [w|] eqn:Hw; [|reflexivity].
      apply lookup_replicate in Hw as [-> _]. apply tb_zero. }
  exists (mkNullMask (data m ++ extra) (mayContainNulls m)). split_and!.
  - unfold exec, resize, set_data. unfold_M. rewrite (proj2 (Nat.leb_le _ _)) by exact Hlen. reflexivity.
  - split; [apply Forall_app; split; [exact Hwf|apply Forall_replicate, word_0]|].
    cbn [data mayContainNulls]. intros Hm i. rewrite Hbit. auto.
  - cbn [data spec]. unfold bits_of at 1. rewrite length_app. unfold extra at 2.
    rewrite length_replicate. apply fmap_seq_eq.
    + rewrite length_app, length_replicate, length_bits_of. lia.
    + intros i Hi. rewrite Hbit. destruct (Nat.lt_ge_cases i (64 * length (data m))) as [Hlt|Hge].
      * rewrite lookup_app_l by (rewrite length_bits_of; exact Hlt). apply lookup_bits_of, Hlt.
      * rewrite lookup_app_r by (rewrite length_bits_of; exact Hge).
        rewrite length_bits_of, lookup_replicate_2 by lia. f_equal. unfold bit.
        rewrite lookup_ge_None_2; [reflexivity|]. apply Nat.div_le_lower_bound; lia.
  - cbn [data]. rewrite length_app. lia.
Qed.
Lemma or_becomes ws ws' :
  wf ws → wf ws' → length ws' = length ws → becomes ws (zip_with Z.lor ws ws') (λ i, bit ws i || bit ws' i).
Proof.
  intros Hw Hw' Hlen. split_and!.
  - apply Forall_lookup. intros i w (a & b & -> & Ha & Hb)%lookup_zip_with_Some.
    apply word_lor; [exact (Forall_lookup_1 _ _ _ _ Hw Ha)|exact (Forall_lookup_1 _ _ _ _ Hw' Hb)].
  - rewrite length_zip_with. lia.
  - intros i. unfold bit. rewrite lookup_zip_with.
    destruct (ws !! (i / 64)) as [a|] eqn:Ha, (ws' !! (i / 64)) as [b|] eqn:Hb; cbn; [apply tb_lor|..|reflexivity].
    + apply lookup_lt_Some in Ha. apply lookup_ge_None in Hb. lia.
    + apply lookup_lt_Some in Hb. apply lookup_ge_None in Ha. lia.
Qed.

Lemma or_refines other : in_range (OpOr other) m → ∃ m', refines (OpOr other) m'.
Proof.
  destruct Hsound as [Hwf Hflag]. intros ([Hwf' Hflag'] & Hlen & Hcov).
  pose proof (or_becomes _ _ Hwf Hwf' Hlen) as Hb.
  exists (mkNullMask (zip_with Z.lor (data m) (data other)) (mayContainNulls m)). split_and!.
  - unfold exec, or_assign, set_data. unfold_M. rewrite (proj2 (Nat.eqb_eq _ _) Hlen). reflexivity.
  - apply (becomes_sound _ _ _ Hb). intros Hm i. rewrite (Hflag Hm), Hflag'; [reflexivity|].
    destruct Hcov as [Hc|Hc]; [congruence|exact Hc].
  - cbn [data]. rewrite (becomes_bits_of _ _ _ Hb). apply fmap_seq_eq.
    + cbn [spec]. rewrite length_zip_with, !length_bits_of, Hlen. lia.
    + intros i Hi. cbn [spec]. rewrite lookup_zip_with, !lookup_bits_of by (rewrite ?Hlen; exact Hi). reflexivity.
  - destruct Hb as (_ & Hl & _). cbn [data]. lia.
Qed.

End Operations.

(** ** The theorems *)

(** C37. Copying [n] bits between two arrays of at most 2^32 bits at any two offsets - bit by bit for at most three,
    byte-wise when the offsets are aligned to each other, and by shifted 64-bit windows otherwise -
    terminates, reads and writes only inside the arrays and gives exactly what copying bit by bit
    gives: position [i] of the destination reads as the (inverted) source bit when it is in the
    target range and as before when it is not. It returns whether a set bit was copied, except for
    inverted copies of at most three bits. *)
Theorem copyNullMask_copies src so dst d n invert :
  wf src → wf dst → (Z.of_nat (64 * length src) ≤ 2 ^ 32)%Z → (Z.of_nat (64 * length dst) ≤ 2 ^ 32)%Z →
  so + n ≤ 64 * length src → d + n ≤ 64 * length dst →
  ∃ dst' any,
    copyNullMask src so dst d n invert = Ok (dst', any) ∧
    length dst' = length dst ∧
    (∀ i, i < 64 * length dst →
       isNullEntry dst' i =
         (if (d <=? i) && (i <? d + n)
          then b ← isNullEntry src (so + (i - d)); Ok (xorb b invert)
          else isNullEntry dst i)) ∧
    ((invert = true → 3 < n) →
     any = existsb (λ j, xorb (bit src (so + j)) invert) (seq 0 n)).
Proof.
  intros Hsrc Hdst H32s H32d Hs Hd.
  destruct (copyNullMask_becomes src so dst d n invert) as (dst' & any & Hrun & Hb & Hany); auto; try lia.
  destruct Hb as (Hwf & Hlen & Hbits). exists dst', any. split_and!; [exact Hrun|exact Hlen| |].
  - intros i Hi. rewrite (isNullEntry_bit dst'), (isNullEntry_bit dst), Hbits by lia. unfold copied.
    destruct ((d <=? i) && (i <? d + n)) eqn:Hin; [|reflexivity].
    apply andb_prop in Hin as [H1%Nat.leb_le H2%Nat.ltb_lt].
    rewrite isNullEntry_bit, outcome_bind_Ok, (Nat.add_comm so) by lia. reflexivity.
  - intros H. rewrite (Hany H). unfold any_bit. rewrite <- (Nat.add_0_r so) at 1.
    rewrite <- fmap_add_seq. clear. induction (seq 0 n) as [|x l IH]; [reflexivity|].
    cbn [fmap list_fmap existsb]. rewrite <- IH. reflexivity.
Qed.

Lemma copyNullMask_copies_witness :
  ∃ dst' any, copyNullMask [0xF0F0; 0x3]%Z 5 [0; 0]%Z 61 61 true = Ok (dst', any) ∧ any = true.
Proof.
  destruct (copyNullMask_copies [0xF0F0; 0x3]%Z 5 [0; 0]%Z 61 61 true) as (dst' & any & H & _ & _ & Hany).
  - repeat constructor; vm_compute; congruence.
  - repeat constructor; vm_compute; congruence.
  - vm_compute. congruence.
  - vm_compute. congruence.
  - apply Nat.leb_le. vm_compute. reflexivity.
  - apply Nat.leb_le. vm_compute. reflexivity.
  - exists dst', any. split; [exact H|]. rewrite Hany by (intros _; lia). vm_compute. reflexivity.
Defined.

(** The three ways a range can lie in the entries. *)
Section GetMinMax.
Context (ws : list Z) (e o n : nat) (w : Z).
Context (Hwf : wf ws) (Hn : 0 < n) (Ho : o < 64) (Hlen : 64 * e + o + n ≤ 64 * length ws).
Context (Hw : ws !! e = Some w) (Hload : load ws e = Ok w).

Local Abbreviation min_max := (Ok (all_bit ws (64 * e + o) n, any_bit ws false (64 * e + o) n)).

Lemma tb_high_mask k : tb (not64 (Z.ones (Z.of_nat (64 - (64 - o))))) k = (o <=? k) && (k <? 64).
Proof. bits. Qed.

Lemma getMinMax_offset : (64 * e + o) / 64 = e ∧ (64 * e + o) mod 64 = o.
Proof. apply entry_bit, Ho. Qed.

Lemma getMinMax_within : o + n ≤ 64 → getMinMax ws (64 * e + o) n = min_max.
Proof.
  intros Hin. unfold getMinMax, NUM_BITS_PER_NULL_ENTRY. destruct getMinMax_offset as [-> ->].
  rewrite (proj2 (Nat.leb_le _ _)) by exact Hin.
  rewrite load_HIGH, load_LOWER, Hload, !outcome_bind_Ok by lia.
  assert (Hmask : ∀ k, tb (Z.land (not64 (Z.ones (Z.of_nat (64 - (64 - o)))))
                             (Z.ones (Z.of_nat (o + n)))) k = (o <=? k) && (k <? o + n))
    by (intros k; bits).
  rewrite (masked_zero ws e w _ o (o + n) Hw Hin Hmask), (masked_full ws e w _ o (o + n) Hw Hin Hmask).
  replace (o + n - o) with n by lia. f_equal.
  destruct (any_bit ws false (64 * e + o) n) eqn:Hany; cbn [negb].
  - destruct (all_bit ws (64 * e + o) n); reflexivity.
  - rewrite (none_not_all _ _ _ Hn Hany). reflexivity.
Qed.

Lemma getMinMax_spanning : 64 < o + n → 0 < o → getMinMax ws (64 * e + o) n = min_max.
Proof.
  intros Hout Hpos. unfold getMinMax, NUM_BITS_PER_NULL_ENTRY. destruct getMinMax_offset as [-> ->].
  rewrite (proj2 (Nat.leb_gt _ _)), (proj2 (Nat.ltb_lt _ _)) by assumption.
  rewrite load_HIGH, Hload, !outcome_bind_Ok by lia.
  rewrite (masked_zero ws e w _ o 64 Hw (le_n _) tb_high_mask),
    (masked_full ws e w _ o 64 Hw (le_n _) tb_high_mask).
  replace n with ((64 - o) + (n - (64 - o))) at 3 4 by lia. rewrite all_bit_app, any_bit_app.
  replace (64 * e + o + (64 - o)) with (64 * S e) by lia.
  destruct (any_bit ws false (64 * e + o) (64 - o)) eqn:Hany; cbn [negb orb].
  - destruct (all_bit ws (64 * e + o) (64 - o)); cbn [andb]; [|reflexivity].
    rewrite min_max_rest_bits by (assumption || lia). reflexivity.
  - rewrite (none_not_all ws (64 * e + o) (64 - o) ltac:(lia) Hany), min_max_rest_bits
      by (assumption || lia). reflexivity.
Qed.

Lemma getMinMax_entries : 64 < o + n → o = 0 → getMinMax ws (64 * e + o) n = min_max.
Proof.
  intros Hout Hzero. unfold getMinMax, NUM_BITS_PER_NULL_ENTRY. destruct getMinMax_offset as [-> ->].
  rewrite (proj2 (Nat.leb_gt _ _)), (proj2 (Nat.ltb_ge _ _)) by lia.
  assert (Hfirst : isNullEntry (drop e ws) 0 = Ok (bit ws (64 * e))).
  { rewrite isNullEntry_bit by (rewrite ?length_drop; lia). f_equal. unfold bit.
    rewrite lookup_drop. rewrite (Nat.mul_comm 64), Nat.div_mul, Nat.Div0.mod_mul by lia.
    rewrite Nat.add_0_r. reflexivity. }
  rewrite Hfirst, outcome_bind_Ok, min_max_rest_bits, Hzero, Nat.add_0_r by (assumption || lia).
  do 2 f_equal.
  - destruct (all_bit ws (64 * e) n) eqn:Hall; [|apply andb_false_r].
    rewrite all_bit_true in Hall. rewrite Hall by lia. reflexivity.
  - destruct (any_bit ws false (64 * e) n) eqn:Hany; [apply orb_true_r|].
    rewrite any_bit_false in Hany. rewrite Hany by lia. reflexivity.
Qed.
End GetMinMax.

(** [getMinMax] of a non-empty range inside the array answers, for any alignment of the range
    to entries, whether all its bits are set and whether some bit is set. *)
Theorem getMinMax_exact ws offset n :
  wf ws → 0 < n → offset + n ≤ 64 * length ws →
  getMinMax ws offset n
    = Ok (forallb (bit ws) (seq offset n), existsb (bit ws) (seq offset n)).
Proof.
  intros Hwf Hn Hlen.
  assert (Hspec : existsb (bit ws) (seq offset n) = any_bit ws false offset n).
  { unfold any_bit. clear. induction (seq offset n) as [|x l IH]; [reflexivity|].
    cbn [existsb]. rewrite IH, xorb_false_r. reflexivity. }
  rewrite Hspec. fold (all_bit ws offset n). clear Hspec.
  pose proof (Nat.mod_upper_bound offset 64 ltac:(lia)) as Hm.
  pose proof (Nat.div_mod_eq offset 64) as Hdm. rewrite Hdm.
  destruct (load_ok ws (offset / 64)) as (w & Hw & Hload); [apply entry_in_range; lia|].
  destruct (Nat.le_gt_cases (offset mod 64 + n) 64) as [Hin|Hout].
  { apply (getMinMax_within ws _ _ n w); assumption || lia. }
  destruct (Nat.eq_0_gt_0_cases (offset mod 64)) as [Hzero|Hpos].
  - apply getMinMax_entries; assumption || lia.
  - apply (getMinMax_spanning ws _ _ n w); assumption || lia.
Qed.

Lemma getMinMax_exact_witness :
  getMinMax [18446744073709551615; 7]%Z 60 7 = Ok (true, true).
Proof.
  rewrite getMinMax_exact; [reflexivity| |lia|cbn; lia].
  repeat constructor; vm_compute; congruence.
Defined.

(** C38. The operations of the class that change a mask (setting a bit, all bits or a range, copying from
    another mask or its bits, resizing, [operator|=]), called inside the mask's range and below 2^32 bits,
    succeed (no assertion fails, no access is out of range) and act on the bits as the same operation on a
    list of booleans, with the result a copy returns; and a cleared [mayContainNulls] flag keeps its promise
    that no value is null. Reading a bit and counting nulls agree with the list. Two uses break the promise
    of the flag and are left out: an inverted copy of at most three bits, and [operator|=] of a mask that may
    have nulls onto one whose flag is cleared. *)
Theorem nullmask_refines (c : mask_op) (m : NullMask) :
  sound m → in_range c m →
  ∃ m', exec c m = (Ok (spec_result c), m') ∧
    sound m' ∧
    bits_of (data m') = spec c (bits_of (data m)) ∧
    countNulls m' = count_if id (spec c (bits_of (data m))) ∧
    (hasNoNullsGuarantee m' = true → Forall (λ b, b = false) (spec c (bits_of (data m)))) ∧
    (∀ i, i < 64 * length (data m') → (Z.of_nat i < 2 ^ 32)%Z →
       isNull i m' = from_option Ok (Throw out_of_range) (spec c (bits_of (data m)) !! i)).
Proof.
  intros Hsound Hr.
  assert (H : ∃ m', exec c m = (Ok (spec_result c), m') ∧ sound m' ∧
                    bits_of (data m') = spec c (bits_of (data m)) ∧ length (data m) ≤ length (data m')).
  { destruct c; [apply setNull_refines|apply setAllNull_refines|apply setAllNonNull_refines
      |apply setRange_refines|apply copyBits_refines|apply copyFrom_refines|apply resize_refines|apply or_refines];
      assumption. }
  destruct H as (m' & Hrun & [Hwf Hflag] & Hbits & _). exists m'.
  split_and!; [exact Hrun|split; assumption|exact Hbits| | |]; rewrite <- Hbits.
  - apply countNulls_bits, Hwf.
  - intros Hno%negb_true_iff. apply Forall_fmap, Forall_true. intros i. apply (Hflag Hno).
  - intros i Hi H32. rewrite lookup_bits_of by exact Hi. unfold isNull, getNumNullBits.
    rewrite to_u32_small by exact H32.
    rewrite (proj2 (Nat.ltb_lt _ _)) by (unfold NUM_BITS_PER_NULL_ENTRY; lia).
    apply isNullEntry_bit; assumption.
Qed.

Lemma nullmask_refines_witness :
  ∃ m', exec (OpSetRange 60 10 true) (NullMask_new 128) = (Ok None, m') ∧ countNulls m' = 10.
Proof.
  destruct (nullmask_refines (OpSetRange 60 10 true) (NullMask_new 128)) as (m' & H & _ & _ & Hc & _).
  - split; [repeat constructor; vm_compute; congruence|]. intros _ i. apply bit_replicate_zero.
  - apply Nat.leb_le. vm_compute. reflexivity.
  - exists m'. split; [exact H|]. rewrite Hc. vm_compute. reflexivity.
Defined.

(** ** What the class does not guarantee *)

(** An inverted copy of at most three bits looks at the source bits before inversion: it writes a
    null, returns [false] and leaves the flag cleared. *)
Lemma inverted_copy_of_three_bits :
  let m := state_of (copyFromNullBits [0%Z] 0 0 1 true) (NullMask_new 64) in
  result_of (copyFromNullBits [0%Z] 0 0 1 true) (NullMask_new 64) = Ok false ∧
  isNull 0 m = Ok true ∧ hasNoNullsGuarantee m = true.
Proof. vm_compute. auto. Qed.

(** [operator|=] adds nulls without setting the flag. *)
Lemma or_assign_keeps_flag :
  let m := state_of (or_assign (NullMask_of_data [1%Z] true)) (NullMask_new 64) in
  isNull 0 m = Ok true ∧ hasNoNullsGuarantee m = true.
Proof. vm_compute. auto. Qed.

(** [getNumNullEntries] gives one entry too many for every positive multiple of 64. *)
Lemma getNumNullEntries_overcounts : getNumNullEntries 64 = 2%Z ∧ getNumNullEntries 128 = 3%Z.
Proof. vm_compute. auto. Qed.
