(* ===== verification/Date.v ===== *)
(** * Dates

    [common::date_t] and [common::Date] (common/types/date_t.h, date_t.cpp), [DateToStringCast] and
    [NumericHelper::FormatUnsigned] (common/types/cast_helpers.h): the number of days since
    1970-01-01 as a 32-bit integer, its year, month and day by tables over a 400-year cycle, its
    text, and adding an interval. Divisions and remainders are those of C++ (towards zero). A read
    outside a table and a signed overflow are undefined behaviour and throw in the model.

    The calendar is in DateSpec, the theorems in DateTheorems. *)

From stdpp Require Import base numbers list strings.
From Stdlib Require Import ZArith Lia Ascii.
From Stdlib Require String.
From S2P Require Import Prelude.

Module Date.

(** ** Constants *)

Definition NORMAL_DAYS : list Z :=
  ([0; 31; 28; 31; 30; 31; 30; 31; 31; 30; 31; 30; 31])%Z.

Definition LEAP_DAYS : list Z :=
  ([0; 31; 29; 31; 30; 31; 30; 31; 31; 30; 31; 30; 31])%Z.

Definition CUMULATIVE_LEAP_DAYS : list Z :=
  ([0; 31; 60; 91; 121; 152; 182; 213; 244; 274; 305; 335; 366])%Z.

Definition CUMULATIVE_DAYS : list Z :=
  ([0; 31; 59; 90; 120; 151; 181; 212; 243; 273; 304; 334; 365])%Z.

Definition MONTH_PER_DAY_OF_YEAR : list Z :=
  ([1; 1; 1; 1; 1; 1; 1; 1; 1; 1; 1; 1; 1; 1; 1; 1; 1; 1; 1; 1; 1; 1; 1; 1; 1; 1; 1; 1; 1; 1; 1;
    2; 2; 2; 2; 2; 2; 2; 2; 2; 2; 2; 2; 2; 2; 2; 2; 2; 2; 2; 2; 2; 2; 2; 2; 2; 2; 2; 2; 3; 3; 3;
    3; 3; 3; 3; 3; 3; 3; 3; 3; 3; 3; 3; 3; 3; 3; 3; 3; 3; 3; 3; 3; 3; 3; 3; 3; 3; 3; 3; 4; 4; 4;
    4; 4; 4; 4; 4; 4; 4; 4; 4; 4; 4; 4; 4; 4; 4; 4; 4; 4; 4; 4; 4; 4; 4; 4; 4; 4; 4; 5; 5; 5; 5;
    5; 5; 5; 5; 5; 5; 5; 5; 5; 5; 5; 5; 5; 5; 5; 5; 5; 5; 5; 5; 5; 5; 5; 5; 5; 5; 5; 6; 6; 6; 6;
    6; 6; 6; 6; 6; 6; 6; 6; 6; 6; 6; 6; 6; 6; 6; 6; 6; 6; 6; 6; 6; 6; 6; 6; 6; 6; 7; 7; 7; 7; 7;
    7; 7; 7; 7; 7; 7; 7; 7; 7; 7; 7; 7; 7; 7; 7; 7; 7; 7; 7; 7; 7; 7; 7; 7; 7; 7; 8; 8; 8; 8; 8;
    8; 8; 8; 8; 8; 8; 8; 8; 8; 8; 8; 8; 8; 8; 8; 8; 8; 8; 8; 8; 8; 8; 8; 8; 8; 8; 9; 9; 9; 9; 9;
    9; 9; 9; 9; 9; 9; 9; 9; 9; 9; 9; 9; 9; 9; 9; 9; 9; 9; 9; 9; 9; 9; 9; 9; 9; 10; 10; 10; 10;
    10; 10; 10; 10; 10; 10; 10; 10; 10; 10; 10; 10; 10; 10; 10; 10; 10; 10; 10; 10; 10; 10; 10;
    10; 10; 10; 10; 11; 11; 11; 11; 11; 11; 11; 11; 11; 11; 11; 11; 11; 11; 11; 11; 11; 11; 11;
    11; 11; 11; 11; 11; 11; 11; 11; 11; 11; 11; 12; 12; 12; 12; 12; 12; 12; 12; 12; 12; 12; 12;
    12; 12; 12; 12; 12; 12; 12; 12; 12; 12; 12; 12; 12; 12; 12; 12; 12; 12; 12])%Z.

Definition LEAP_MONTH_PER_DAY_OF_YEAR : list Z :=
  ([1; 1; 1; 1; 1; 1; 1; 1; 1; 1; 1; 1; 1; 1; 1; 1; 1; 1; 1; 1; 1; 1; 1; 1; 1; 1; 1; 1; 1; 1; 1;
    2; 2; 2; 2; 2; 2; 2; 2; 2; 2; 2; 2; 2; 2; 2; 2; 2; 2; 2; 2; 2; 2; 2; 2; 2; 2; 2; 2; 2; 3; 3;
    3; 3; 3; 3; 3; 3; 3; 3; 3; 3; 3; 3; 3; 3; 3; 3; 3; 3; 3; 3; 3; 3; 3; 3; 3; 3; 3; 3; 3; 4; 4;
    4; 4; 4; 4; 4; 4; 4; 4; 4; 4; 4; 4; 4; 4; 4; 4; 4; 4; 4; 4; 4; 4; 4; 4; 4; 4; 4; 4; 5; 5; 5;
    5; 5; 5; 5; 5; 5; 5; 5; 5; 5; 5; 5; 5; 5; 5; 5; 5; 5; 5; 5; 5; 5; 5; 5; 5; 5; 5; 5; 6; 6; 6;
    6; 6; 6; 6; 6; 6; 6; 6; 6; 6; 6; 6; 6; 6; 6; 6; 6; 6; 6; 6; 6; 6; 6; 6; 6; 6; 6; 7; 7; 7; 7;
    7; 7; 7; 7; 7; 7; 7; 7; 7; 7; 7; 7; 7; 7; 7; 7; 7; 7; 7; 7; 7; 7; 7; 7; 7; 7; 7; 8; 8; 8; 8;
    8; 8; 8; 8; 8; 8; 8; 8; 8; 8; 8; 8; 8; 8; 8; 8; 8; 8; 8; 8; 8; 8; 8; 8; 8; 8; 8; 9; 9; 9; 9;
    9; 9; 9; 9; 9; 9; 9; 9; 9; 9; 9; 9; 9; 9; 9; 9; 9; 9; 9; 9; 9; 9; 9; 9; 9; 9; 10; 10; 10; 10;
    10; 10; 10; 10; 10; 10; 10; 10; 10; 10; 10; 10; 10; 10; 10; 10; 10; 10; 10; 10; 10; 10; 10;
    10; 10; 10; 10; 11; 11; 11; 11; 11; 11; 11; 11; 11; 11; 11; 11; 11; 11; 11; 11; 11; 11; 11;
    11; 11; 11; 11; 11; 11; 11; 11; 11; 11; 11; 12; 12; 12; 12; 12; 12; 12; 12; 12; 12; 12; 12;
    12; 12; 12; 12; 12; 12; 12; 12; 12; 12; 12; 12; 12; 12; 12; 12; 12; 12; 12])%Z.

Definition CUMULATIVE_YEAR_DAYS : list Z :=
  ([0; 365; 730; 1096; 1461; 1826; 2191; 2557; 2922; 3287; 3652; 4018; 4383; 4748; 5113; 5479;
    5844; 6209; 6574; 6940; 7305; 7670; 8035; 8401; 8766; 9131; 9496; 9862; 10227; 10592; 10957;
    11323; 11688; 12053; 12418; 12784; 13149; 13514; 13879; 14245; 14610; 14975; 15340; 15706;
    16071; 16436; 16801; 17167; 17532; 17897; 18262; 18628; 18993; 19358; 19723; 20089; 20454;
    20819; 21184; 21550; 21915; 22280; 22645; 23011; 23376; 23741; 24106; 24472; 24837; 25202;
    25567; 25933; 26298; 26663; 27028; 27394; 27759; 28124; 28489; 28855; 29220; 29585; 29950;
    30316; 30681; 31046; 31411; 31777; 32142; 32507; 32872; 33238; 33603; 33968; 34333; 34699;
    35064; 35429; 35794; 36160; 36525; 36890; 37255; 37621; 37986; 38351; 38716; 39082; 39447;
    39812; 40177; 40543; 40908; 41273; 41638; 42004; 42369; 42734; 43099; 43465; 43830; 44195;
    44560; 44926; 45291; 45656; 46021; 46387; 46752; 47117; 47482; 47847; 48212; 48577; 48942;
    49308; 49673; 50038; 50403; 50769; 51134; 51499; 51864; 52230; 52595; 52960; 53325; 53691;
    54056; 54421; 54786; 55152; 55517; 55882; 56247; 56613; 56978; 57343; 57708; 58074; 58439;
    58804; 59169; 59535; 59900; 60265; 60630; 60996; 61361; 61726; 62091; 62457; 62822; 63187;
    63552; 63918; 64283; 64648; 65013; 65379; 65744; 66109; 66474; 66840; 67205; 67570; 67935;
    68301; 68666; 69031; 69396; 69762; 70127; 70492; 70857; 71223; 71588; 71953; 72318; 72684;
    73049; 73414; 73779; 74145; 74510; 74875; 75240; 75606; 75971; 76336; 76701; 77067; 77432;
    77797; 78162; 78528; 78893; 79258; 79623; 79989; 80354; 80719; 81084; 81450; 81815; 82180;
    82545; 82911; 83276; 83641; 84006; 84371; 84736; 85101; 85466; 85832; 86197; 86562; 86927;
    87293; 87658; 88023; 88388; 88754; 89119; 89484; 89849; 90215; 90580; 90945; 91310; 91676;
    92041; 92406; 92771; 93137; 93502; 93867; 94232; 94598; 94963; 95328; 95693; 96059; 96424;
    96789; 97154; 97520; 97885; 98250; 98615; 98981; 99346; 99711; 100076; 100442; 100807;
    101172; 101537; 101903; 102268; 102633; 102998; 103364; 103729; 104094; 104459; 104825;
    105190; 105555; 105920; 106286; 106651; 107016; 107381; 107747; 108112; 108477; 108842;
    109208; 109573; 109938; 110303; 110669; 111034; 111399; 111764; 112130; 112495; 112860;
    113225; 113591; 113956; 114321; 114686; 115052; 115417; 115782; 116147; 116513; 116878;
    117243; 117608; 117974; 118339; 118704; 119069; 119435; 119800; 120165; 120530; 120895;
    121260; 121625; 121990; 122356; 122721; 123086; 123451; 123817; 124182; 124547; 124912;
    125278; 125643; 126008; 126373; 126739; 127104; 127469; 127834; 128200; 128565; 128930;
    129295; 129661; 130026; 130391; 130756; 131122; 131487; 131852; 132217; 132583; 132948;
    133313; 133678; 134044; 134409; 134774; 135139; 135505; 135870; 136235; 136600; 136966;
    137331; 137696; 138061; 138427; 138792; 139157; 139522; 139888; 140253; 140618; 140983;
    141349; 141714; 142079; 142444; 142810; 143175; 143540; 143905; 144271; 144636; 145001;
    145366; 145732; 146097])%Z.

Definition MIN_YEAR : Z := (-290307)%Z.
Definition MAX_YEAR : Z := 294247%Z.
Definition EPOCH_YEAR : Z := 1970%Z.
Definition YEAR_INTERVAL : Z := 400%Z.
Definition DAYS_PER_YEAR_INTERVAL : Z := 146097%Z.
Definition MONTHS_PER_YEAR : Z := 12%Z.
Definition MONTHS_PER_QUARTER : Z := 3%Z.
Definition MICROS_PER_DAY : Z := 86400000000%Z.
Definition NANOS_PER_MICRO : Z := 1000%Z.

(** A read of a table. *)
Definition table_at (t : list Z) (i : Z) : outcome Z :=
  match (if (0 <=? i)%Z then t !! Z.to_nat i else None) with
  | Some x => Ok x
  | None => Throw (UndefinedBehaviour "access past the end of an array")
  end.

(** Signed arithmetic of a width: overflow is undefined. *)
Definition is_int (w x : Z) : Prop := (- 2 ^ (w - 1) ≤ x < 2 ^ (w - 1))%Z.

Definition signed (w x : Z) : outcome Z :=
  if ((- 2 ^ (w - 1) <=? x) && (x <? 2 ^ (w - 1)))%Z then Ok x
  else Throw (UndefinedBehaviour "signed integer overflow").

(** ** The calendar *)

Definition isLeapYear (year : Z) : bool :=
  (Z.rem year 4 =? 0)%Z && (negb (Z.rem year 100 =? 0)%Z || (Z.rem year 400 =? 0)%Z).

Definition isValid (year month day : Z) : outcome bool :=
  if ((month <? 1) || (12 <? month))%Z then Ok false
  else if ((year <? MIN_YEAR) || (MAX_YEAR <? year))%Z then Ok false
  else if (day <? 1)%Z then Ok false
  else
    last ← table_at (if isLeapYear year then LEAP_DAYS else NORMAL_DAYS) month;
    Ok (day <=? last)%Z.

Definition monthDays (year month : Z) : outcome Z :=
  ku_assert_o ((1 <=? month) && (month <=? 12))%Z ;;
  table_at (if isLeapYear year then LEAP_DAYS else NORMAL_DAYS) month.

Definition out_of_fuel : exn := InternalException "out of fuel".

(** The loops that move a day or a year into the cycle that starts at the epoch: [while (x < low)]
    and [while (x >= high)], stepping [x] by one amount and [y] by another. *)
Fixpoint raise_loop (fuel : nat) (low dx dy x y : Z) : outcome (Z * Z) :=
  if (x <? low)%Z then
    match fuel with
    | 0 => Throw out_of_fuel
    | S fuel' => raise_loop fuel' low dx dy (x + dx)%Z (y - dy)%Z
    end
  else Ok (x, y).

Fixpoint lower_loop (fuel : nat) (high dx dy x y : Z) : outcome (Z * Z) :=
  if (high <=? x)%Z then
    match fuel with
    | 0 => Throw out_of_fuel
    | S fuel' => lower_loop fuel' high dx dy (x - dx)%Z (y + dy)%Z
    end
  else Ok (x, y).

(** Each iteration moves [x] by one interval, so its distance to the bound is fuel enough. *)
Definition normalize (low interval dy x y : Z) : outcome (Z * Z) :=
  xy ← raise_loop (Z.to_nat ((low - x) / interval + 1)) low interval dy x y;
  lower_loop (Z.to_nat ((fst xy - low) / interval)) (low + interval) interval dy (fst xy) (snd xy).

(** [while (n < CUMULATIVE_YEAR_DAYS[year_offset]) { year_offset--; KU_ASSERT(year_offset >= 0); }] *)
Fixpoint year_search (n : Z) (year_offset : nat) : outcome Z :=
  c ← table_at CUMULATIVE_YEAR_DAYS (Z.of_nat year_offset);
  if (n <? c)%Z then
    match year_offset with
    | 0 => Throw assert_failure
    | S year_offset' => year_search n year_offset'
    end
  else Ok (Z.of_nat year_offset).

(** The day in the cycle, the year and the year in the cycle. *)
Definition extractYearOffset (n : Z) : outcome (Z * Z * Z) :=
  ny ← normalize 0 DAYS_PER_YEAR_INTERVAL YEAR_INTERVAL n EPOCH_YEAR;
  let '(n', year) := ny in
  year_offset ← year_search n' (Z.to_nat (Z.quot n' 365));
  c ← table_at CUMULATIVE_YEAR_DAYS year_offset;
  ku_assert_o (c <=? n')%Z ;;
  Ok (n', (year + year_offset)%Z, year_offset).

Definition convert (days : Z) : outcome (Z * Z * Z) :=
  e ← extractYearOffset days;
  let '(n, out_year, year_offset) := e in
  first ← table_at CUMULATIVE_YEAR_DAYS year_offset;
  let day_of_year := (n - first)%Z in
  ku_assert_o ((0 <=? day_of_year) && (day_of_year <=? 365))%Z ;;
  next ← table_at CUMULATIVE_YEAR_DAYS (year_offset + 1);
  let is_leap_year := (next - first =? 366)%Z in
  out_month ← table_at (if is_leap_year then LEAP_MONTH_PER_DAY_OF_YEAR else MONTH_PER_DAY_OF_YEAR)
                day_of_year;
  before ← table_at (if is_leap_year then CUMULATIVE_LEAP_DAYS else CUMULATIVE_DAYS) (out_month - 1);
  let out_day := (day_of_year - before + 1)%Z in
  last ← table_at (if is_leap_year then LEAP_DAYS else NORMAL_DAYS) out_month;
  ku_assert_o ((0 <? out_day) && (out_day <=? last))%Z ;;
  ku_assert_o ((0 <? out_month) && (out_month <=? 12))%Z ;;
  valid ← isValid out_year out_month out_day;
  ku_assert_o valid ;;
  Ok (out_year, out_month, out_day).

Definition fromDate (year month day : Z) : outcome Z :=
  valid ← isValid year month day;
  if valid : bool then
    yn ← normalize EPOCH_YEAR YEAR_INTERVAL DAYS_PER_YEAR_INTERVAL year 0;
    let '(year', n) := yn in
    year_days ← table_at CUMULATIVE_YEAR_DAYS (year' - EPOCH_YEAR);
    month_days ← table_at (if isLeapYear year' then CUMULATIVE_LEAP_DAYS else CUMULATIVE_DAYS)
                   (month - 1);
    Ok (n + year_days + month_days + (day - 1))%Z
  else Throw (ConversionException "Date out of range").

(** ** Arithmetic *)

Record interval_t := mkInterval { months : Z; idays : Z; micros : Z }.

Definition add_int (days day : Z) : outcome Z := signed 32 (days + day)%Z.
Definition sub_int (days day : Z) : outcome Z := signed 32 (days - day)%Z.

(** The months of [operator+(interval_t)]: the same day of the month, or its last day. *)
Definition add_months (days months : Z) : outcome Z :=
  ymd ← convert days;
  let '(year0, month0, day) := ymd in
  let year_diff := Z.quot months MONTHS_PER_YEAR in
  let year1 := (year0 + year_diff)%Z in
  let month1 := (month0 + (months - year_diff * MONTHS_PER_YEAR))%Z in
  let '(year, month) :=
    (if MONTHS_PER_YEAR <? month1 then (year1 + 1, month1 - MONTHS_PER_YEAR)
     else if month1 <=? 0 then (year1 - 1, month1 + MONTHS_PER_YEAR)
     else (year1, month1))%Z in
  maxDayInMonth ← monthDays year month;
  fromDate year month (if (maxDayInMonth <? day)%Z then maxDayInMonth else day).

Definition add_interval (days : Z) (interval : interval_t) : outcome Z :=
  result ← (if (months interval =? 0)%Z then Ok days else add_months days (months interval))
           : outcome Z;
  result1 ← (if (idays interval =? 0)%Z then Ok result else signed 32 (result + idays interval)%Z)
            : outcome Z;
  if (micros interval =? 0)%Z then Ok result1
  else signed 32 (result1 + Z.quot (micros interval) MICROS_PER_DAY)%Z.

Definition sub_interval (days : Z) (interval : interval_t) : outcome Z :=
  m ← signed 32 (- months interval)%Z;
  d ← signed 32 (- idays interval)%Z;
  u ← signed 64 (- micros interval)%Z;
  add_interval days (mkInterval m d u).

Definition sub_date (days rhs : Z) : outcome Z := signed 32 (days - rhs)%Z.

(** ** Parts of a date *)

Inductive DatePartSpecifier :=
  | YEAR | MONTH | DAY | DECADE | CENTURY | MILLENNIUM | QUARTER
  | MICROSECOND | MILLISECOND | SECOND | MINUTE | HOUR | WEEK.

Definition getDatePart (specifier : DatePartSpecifier) (date : Z) : outcome Z :=
  ymd ← convert date;
  let '(year, month, day) := ymd in
  match specifier with
  | YEAR => e ← extractYearOffset date; Ok (snd (fst e))
  | MONTH => Ok month
  | DAY => Ok day
  | DECADE => Ok (Z.quot year 10)
  | CENTURY => Ok (if 0 <? year then Z.quot (year - 1) 100 + 1 else Z.quot year 100 - 1)%Z
  | MILLENNIUM => Ok (if 0 <? year then Z.quot (year - 1) 1000 + 1 else Z.quot year 1000 - 1)%Z
  | QUARTER => Ok (Z.quot (month - 1) MONTHS_PER_QUARTER + 1)%Z
  | _ => Ok 0%Z
  end.

Definition trunc (specifier : DatePartSpecifier) (date : Z) : outcome Z :=
  match specifier with
  | YEAR => y ← getDatePart YEAR date; fromDate y 1 1
  | MONTH => y ← getDatePart YEAR date; m ← getDatePart MONTH date; fromDate y m 1
  | DAY => Ok date
  | DECADE => y ← getDatePart YEAR date; fromDate (Z.quot y 10 * 10)%Z 1 1
  | CENTURY => y ← getDatePart YEAR date; fromDate (Z.quot y 100 * 100)%Z 1 1
  | MILLENNIUM => y ← getDatePart YEAR date; fromDate (Z.quot y 1000 * 1000)%Z 1 1
  | QUARTER =>
      ymd ← convert date;
      let '(year, month, _) := ymd in
      fromDate year (1 + Z.quot (month - 1) 3 * 3)%Z 1
  | _ => Ok date
  end.

Definition getLastDay (date : Z) : outcome Z :=
  ymd ← convert date;
  let '(year, month, _) := ymd in
  d ← fromDate (year + Z.quot month 12)%Z (Z.rem month 12 + 1)%Z 1;
  sub_int d 1.

Definition dayNames : list string :=
  ["Sunday"; "Monday"; "Tuesday"; "Wednesday"; "Thursday"; "Friday"; "Saturday"]%string.

Definition getDayName (date : Z) : outcome string :=
  let i := Z.rem (if date <? 0 then 7 - Z.rem (- date + 3) 7 else Z.rem (date + 3) 7 + 1)%Z 7 in
  match dayNames !! Z.to_nat i with
  | Some name => Ok name
  | None => Throw (UndefinedBehaviour "access past the end of an array")
  end.

Definition monthNames : list string :=
  ["January"; "February"; "March"; "April"; "May"; "June"; "July"; "August"; "September";
   "October"; "November"; "December"]%string.

Definition getMonthName (date : Z) : outcome string :=
  ymd ← convert date;
  let '(_, month, _) := ymd in
  match monthNames !! Z.to_nat (month - 1) with
  | Some name => Ok name
  | None => Throw (UndefinedBehaviour "access past the end of an array")
  end.

Definition getEpochNanoSeconds (date : Z) : outcome Z :=
  signed 64 (date * (MICROS_PER_DAY * NANOS_PER_MICRO))%Z.

(** ** Text *)

Definition digits : list ascii := String.list_ascii_of_string
  ("0001020304050607080910111213141516171819"
   ++ "2021222324252627282930313233343536373839"
   ++ "4041424344454647484950515253545556575859"
   ++ "6061626364656667686970717273747576777879"
   ++ "8081828384858687888990919293949596979899")%string.

Definition BC_SUFFIX : list ascii := String.list_ascii_of_string " (BC)".

Definition char_of_digit (d : Z) : ascii := ascii_of_N (Z.to_N (48 + d)).
Definition digit_of_char (c : ascii) : Z := (Z.of_N (N_of_ascii c) - 48)%Z.

Definition CharacterIsDigit (c : ascii) : bool :=
  ((48 <=? N_of_ascii c) && (N_of_ascii c <=? 57))%N.

Definition isSpace (c : ascii) : bool :=
  let n := N_of_ascii c in ((n =? 32) || ((9 <=? n) && (n <=? 13)))%N.

Definition digit_at (i : Z) : outcome ascii :=
  match digits !! Z.to_nat i with
  | Some c => Ok c
  | None => Throw (UndefinedBehaviour "access past the end of an array")
  end.

(** [FormatUnsigned] writes backwards from [ptr]; [acc] is what has been written. A 32-bit value
    takes at most five pairs of digits. *)
Fixpoint FormatUnsigned (fuel : nat) (value : Z) (acc : list ascii) : outcome (list ascii) :=
  if (100 <=? value)%Z then
    match fuel with
    | 0 => Throw out_of_fuel
    | S fuel' =>
      let index := (Z.rem value 100 * 2)%Z in
      lo ← digit_at (index + 1);
      hi ← digit_at index;
      FormatUnsigned fuel' (Z.quot value 100) (hi :: lo :: acc)
    end
  else if (value <? 10)%Z then Ok (char_of_digit value :: acc)
  else
    lo ← digit_at (value * 2 + 1);
    hi ← digit_at (value * 2);
    Ok (hi :: lo :: acc).

(** [DateToStringCast::Length]: the printed year, its length and whether the suffix is added. *)
Definition Length (year : Z) : Z * nat * bool :=
  let addBC := (year <=? 0)%Z in
  let y := if addBC then (- year + 1)%Z else year in
  let extra (bound : Z) := if (bound <=? y)%Z then 1 else 0 in
  (y, 4 + extra 10000%Z + extra 100000%Z + extra 1000000%Z + extra 10000000%Z, addBC).

Definition format_two_digits (x : Z) : outcome (list ascii) :=
  if (x <? 10)%Z then Ok ["0"%char; char_of_digit x]
  else
    hi ← digit_at (x * 2);
    lo ← digit_at (x * 2 + 1);
    Ok [hi; lo].

(** [DateToStringCast::Format] into a buffer of the computed length. *)
Definition Format (year month day : Z) (yearLength : nat) (addBC : bool) : outcome (list ascii) :=
  y ← FormatUnsigned 5 year [];
  if length y <=? yearLength then
    m ← format_two_digits month;
    d ← format_two_digits day;
    Ok (replicate (yearLength - length y) "0"%char ++ y ++ ["-"%char] ++ m ++ ["-"%char] ++ d
        ++ (if addBC then BC_SUFFIX else []))
  else Throw (UndefinedBehaviour "write before the start of the buffer").

Definition toString (date : Z) : outcome (list ascii) :=
  ymd ← convert date;
  let '(year, month, day) := ymd in
  let '(y, yearLength, addBC) := Length year in
  Format y month day yearLength addBC.

(** The parsers take the characters of the buffer from the current position on and return what is
    left of them. *)
Definition parseDoubleDigit (rest : list ascii) : option (Z * list ascii) :=
  match rest with
  | c :: rest1 =>
      if CharacterIsDigit c then
        let result := digit_of_char c in
        match rest1 with
        | c2 :: rest2 => if CharacterIsDigit c2
                         then Some ((digit_of_char c2 + result * 10)%Z, rest2)
                         else Some (result, rest1)
        | [] => Some (result, rest1)
        end
      else None
  | [] => None
  end.

Fixpoint skip_spaces (rest : list ascii) : list ascii :=
  match rest with
  | c :: rest' => if isSpace c then skip_spaces rest' else rest
  | [] => []
  end.

(** The loop over the digits of the year, which stops early at a year that is too big. *)
Fixpoint parse_year (rest : list ascii) (year : Z) : Z * list ascii :=
  match rest with
  | c :: rest' =>
      if CharacterIsDigit c then
        let year' := (digit_of_char c + year * 10)%Z in
        if (MAX_YEAR <? year')%Z then (year', rest) else parse_year rest' year'
      else (year, rest)
  | [] => (year, [])
  end.

Definition is_separator (c : ascii) : bool :=
  bool_decide (c = " "%char) || bool_decide (c = "-"%char) || bool_decide (c = "/"%char)
  || bool_decide (c = ascii_of_nat 92).

(** The result of [tryConvertDate] with the rest of the buffer, [None] for [false]. *)
Definition tryConvertDate (buf : list ascii) (allowTrailing : bool) : option (Z * list ascii) :=
  match skip_spaces buf with
  | [] => None
  | (c :: _) as rest0 =>
    if CharacterIsDigit c then
      match parse_year rest0 0 with
      | (_, []) => None
      | (year, sep :: rest1) =>
        if is_separator sep then
          match parseDoubleDigit rest1 with
          | None => None
          | Some (month, rest2) =>
            if length rest2 <=? 1 then None else
            match rest2 with
            | [] => None
            | c2 :: rest3 =>
              if bool_decide (c2 = sep) then
                match parseDoubleDigit rest3 with
                | None => None
                | Some (day, rest4) =>
                  let rest5 := skip_spaces rest4 in
                  if (0 <? length rest5) && negb allowTrailing then None
                  else match fromDate year month day with
                       | Ok date => Some (date, rest5)
                       | Throw _ => None
                       end
                end
              else None
            end
          end
        else None
      end
    else None
  end.

Definition fromCString (str : list ascii) : outcome Z :=
  match tryConvertDate str false with
  | Some (date, _) => Ok date
  | None => Throw (ConversionException "Error occurred during parsing date.")
  end.

End Date.
