(* ===== verification/DateSpec.v ===== *)
(** * The calendar of dates

    The proleptic Gregorian calendar by its rules (lengths of months, leap years, days before a
    year), and that the tables and loops of Date implement it: the days before a year and a month, the
    400-year interval, the search for the year, the digits of a number. *)

From stdpp Require Import base numbers list strings.
From Stdlib Require Import ZArith Lia Ascii.
From S2P Require Import Prelude Date.
Import Date.

Open Scope Z_scope.

(** ** The rules *)

(** The leap years up to and including a year, and the days from the epoch to its first day. *)
Definition leaps (y : Z) : Z := y / 4 - y / 100 + y / 400.
Definition year_start (y : Z) : Z := 365 * (y - 1970) + (leaps (y - 1) - leaps 1969).

Definition month_length (leap : bool) (m : Z) : Z :=
  if m =? 2 then (if leap then 29 else 28)
  else if (m =? 4) || (m =? 6) || (m =? 9) || (m =? 11) then 30
  else 31.

(** The days of the year before a month. *)
Definition month_start (leap : bool) (m : Z) : Z :=
  foldr (λ k acc, month_length leap (Z.of_nat k) + acc) 0 (seq 1 (Z.to_nat (m - 1))).

Definition ordinal (y m d : Z) : Z := year_start y + month_start (isLeapYear y) m + (d - 1).

Definition civil (y m d : Z) : Prop :=
  1 ≤ m ≤ 12 ∧ 1 ≤ d ≤ month_length (isLeapYear y) m.

(** A date the program accepts. *)
Definition valid_date (y m d : Z) : bool :=
  (1 <=? m) && (m <=? 12) && (1 <=? d) && (d <=? month_length (isLeapYear y) m)
  && (MIN_YEAR <=? y) && (y <=? MAX_YEAR).

(** The first and the last day the program accepts. *)
Definition FIRST_DAY : Z := year_start MIN_YEAR.
Definition LAST_DAY : Z := year_start (MAX_YEAR + 1) - 1.

(** ** Leap years *)

Lemma rem_zero_mod y k : 0 < k → (Z.rem y k =? 0) = (y mod k =? 0).
Proof.
  intros Hk. apply Bool.eq_iff_eq_true. rewrite !Z.eqb_eq.
  rewrite Z.rem_divide, Z.mod_divide by lia. reflexivity.
Qed.

Lemma isLeapYear_mod y :
  isLeapYear y = (y mod 4 =? 0) && (negb (y mod 100 =? 0) || (y mod 400 =? 0)).
Proof. unfold isLeapYear. rewrite !rem_zero_mod by lia. reflexivity. Qed.

Lemma div_pred y k : 0 < k → (y - 1) / k = y / k - (if y mod k =? 0 then 1 else 0).
Proof.
  intros Hk. pose proof (Z.div_mod y k ltac:(lia)) as H. pose proof (Z.mod_pos_bound y k Hk) as Hm.
  destruct (Z.eqb_spec (y mod k) 0) as [Hz|Hz].
  - symmetry. apply (Z.div_unique _ _ _ (k - 1)); [left; lia|lia].
  - symmetry. apply (Z.div_unique _ _ _ (y mod k - 1)); [left; lia|lia].
Qed.

Lemma year_start_succ y : year_start (y + 1) = year_start y + (if isLeapYear y then 366 else 365).
Proof.
  unfold year_start, leaps. replace (y + 1 - 1) with y by lia. rewrite !div_pred by lia.
  rewrite isLeapYear_mod.
  assert (H4 : y mod 100 = 0 → y mod 4 = 0).
  { rewrite !Z.mod_divide by lia. intros [z ->]. exists (z * 25). lia. }
  assert (H100 : y mod 400 = 0 → y mod 100 = 0).
  { rewrite !Z.mod_divide by lia. intros [z ->]. exists (z * 4). lia. }
  destruct (Z.eqb_spec (y mod 4) 0), (Z.eqb_spec (y mod 100) 0), (Z.eqb_spec (y mod 400) 0);
    cbn [andb orb negb]; try tauto; clear; lia.
Qed.

Lemma year_start_mono y k : 0 ≤ k → year_start y + 365 * k ≤ year_start (y + k).
Proof.
  revert k. apply natlike_ind; [replace (y + 0) with y by lia; lia|].
  intros k Hk IH. unfold Z.succ. rewrite Z.add_assoc, year_start_succ.
  destruct (isLeapYear (y + k)); lia.
Qed.

Lemma isLeapYear_cycle y k : isLeapYear (y + 400 * k) = isLeapYear y.
Proof.
  rewrite !isLeapYear_mod.
  replace (y + 400 * k) with (y + (100 * k) * 4) at 1 by lia.
  replace (y + 400 * k) with (y + (4 * k) * 100) at 1 by lia.
  replace (y + 400 * k) with (y + k * 400) at 1 by lia.
  rewrite !Z_mod_plus_full. reflexivity.
Qed.

Lemma year_start_cycle y k : year_start (y + 400 * k) = year_start y + 146097 * k.
Proof.
  unfold year_start, leaps.
  replace (y + 400 * k - 1) with (y - 1 + (100 * k) * 4) at 1 by lia.
  replace (y + 400 * k - 1) with (y - 1 + (4 * k) * 100) at 1 by lia.
  replace (y + 400 * k - 1) with (y - 1 + k * 400) at 1 by lia.
  rewrite !Z_div_plus_full by lia. lia.
Qed.

(** ** The tables *)

Lemma YEAR_DAYS_table :
  CUMULATIVE_YEAR_DAYS = map (λ i, year_start (1970 + Z.of_nat i)) (seq 0 401).
Proof. vm_compute. reflexivity. Qed.

Definition month_lengths (leap : bool) : list Z := if leap then LEAP_DAYS else NORMAL_DAYS.
Definition month_starts (leap : bool) : list Z :=
  if leap then CUMULATIVE_LEAP_DAYS else CUMULATIVE_DAYS.
Definition day_months (leap : bool) : list Z :=
  if leap then LEAP_MONTH_PER_DAY_OF_YEAR else MONTH_PER_DAY_OF_YEAR.

Lemma table_at_ok t i x : 0 ≤ i → t !! Z.to_nat i = Some x → table_at t i = Ok x.
Proof.
  intros Hi Hx. unfold table_at. rewrite (proj2 (Z.leb_le _ _)), Hx by exact Hi. reflexivity.
Qed.

Lemma table_at_map (f : nat → Z) n i :
  0 ≤ i < Z.of_nat n → table_at (map f (seq 0 n)) i = Ok (f (Z.to_nat i)).
Proof.
  intros Hi. apply table_at_ok; [lia|]. rewrite list_lookup_fmap, lookup_seq_lt by lia. reflexivity.
Qed.

Lemma year_days_at i : 0 ≤ i ≤ 400 → table_at CUMULATIVE_YEAR_DAYS i = Ok (year_start (1970 + i)).
Proof.
  intros Hi. rewrite YEAR_DAYS_table, (table_at_map (λ i, year_start (1970 + Z.of_nat i))) by lia.
  rewrite Z2Nat.id by lia. reflexivity.
Qed.

(** Case analysis on a month. *)
Lemma month_cases (P : Z → Prop) :
  P 1 → P 2 → P 3 → P 4 → P 5 → P 6 → P 7 → P 8 → P 9 → P 10 → P 11 → P 12 →
  ∀ m, 1 ≤ m ≤ 12 → P m.
Proof.
  intros H1 H2 H3 H4 H5 H6 H7 H8 H9 H10 H11 H12 m Hm.
  assert (Hc : m = 1 ∨ m = 2 ∨ m = 3 ∨ m = 4 ∨ m = 5 ∨ m = 6 ∨ m = 7 ∨ m = 8 ∨ m = 9 ∨ m = 10 ∨
               m = 11 ∨ m = 12) by lia.
  destruct Hc as [->|[->|[->|[->|[->|[->|[->|[->|[->|[->|[->| ->]]]]]]]]]]]; assumption.
Qed.

Lemma month_length_at leap m :
  1 ≤ m ≤ 12 → table_at (month_lengths leap) m = Ok (month_length leap m).
Proof.
  revert m. apply month_cases; destruct leap; reflexivity.
Qed.

Lemma month_start_at leap m :
  1 ≤ m ≤ 12 → table_at (month_starts leap) (m - 1) = Ok (month_start leap m).
Proof. revert m. apply month_cases; destruct leap; reflexivity. Qed.

Lemma month_start_succ leap m :
  1 ≤ m ≤ 12 → month_start leap (m + 1) = month_start leap m + month_length leap m.
Proof. revert m. apply month_cases; destruct leap; reflexivity. Qed.

Definition year_length (leap : bool) : Z := if leap then 366 else 365.

(** The month tables, entry by entry. *)
Definition day_month_ok (leap : bool) (i : nat) (m : Z) : bool :=
  (1 <=? m) && (m <=? 12) && (month_start leap m <=? Z.of_nat i)
  && (Z.of_nat i <? month_start leap m + month_length leap m).

Fixpoint day_months_ok (leap : bool) (i : nat) (l : list Z) : bool :=
  match l with
  | [] => true
  | m :: l' => day_month_ok leap i m && day_months_ok leap (S i) l'
  end.

Lemma day_months_ok_lookup leap i l j m :
  day_months_ok leap i l = true → l !! j = Some m → day_month_ok leap (i + j) m = true.
Proof.
  revert i j. induction l as [|x l IH]; intros i [|j] Hl Hj; try discriminate; cbn in Hl, Hj;
    apply andb_prop in Hl as [Hx Hl].
  - injection Hj as ->. rewrite Nat.add_0_r. exact Hx.
  - rewrite <- Nat.add_succ_comm. apply IH; assumption.
Qed.

Lemma day_month_at leap i :
  0 ≤ i < year_length leap →
  ∃ m, table_at (day_months leap) i = Ok m ∧ 1 ≤ m ≤ 12 ∧
       month_start leap m ≤ i < month_start leap m + month_length leap m.
Proof.
  intros Hi.
  assert (Hlen : length (day_months leap) = Z.to_nat (year_length leap)) by (destruct leap; reflexivity).
  assert (Hok : day_months_ok leap 0 (day_months leap) = true) by (destruct leap; vm_compute; reflexivity).
  destruct (lookup_lt_is_Some_2 (day_months leap) (Z.to_nat i)) as [m Hm]; [lia|].
  exists m. split; [apply table_at_ok; [lia|exact Hm]|].
  pose proof (day_months_ok_lookup _ _ _ _ _ Hok Hm) as H. unfold day_month_ok in H.
  rewrite Nat.add_0_l, Z2Nat.id, !andb_true_iff, !Z.leb_le, Z.ltb_lt in H by lia. lia.
Qed.

(** ** The loops *)

Lemma raise_loop_ok fuel low dx dy x y k :
  0 < dx → 0 ≤ k ≤ Z.of_nat fuel → low ≤ x + k * dx → (0 < k → x + (k - 1) * dx < low) →
  raise_loop fuel low dx dy x y = Ok (x + k * dx, y - k * dy).
Proof.
  intros Hdx. revert x y k. induction fuel as [|fuel IH]; intros x y k Hk Hge Hlt; cbn [raise_loop].
  - replace k with 0 in * by lia. rewrite (proj2 (Z.ltb_ge _ _)) by lia. do 2 f_equal; lia.
  - destruct (Z.ltb_spec x low) as [Hx|Hx].
    + destruct (Z.eq_dec k 0) as [->|Hk0]; [lia|].
      rewrite (IH _ _ (k - 1)); [do 2 f_equal; lia|lia|lia|].
      intros Hk1. specialize (Hlt ltac:(lia)). lia.
    + destruct (Z.eq_dec k 0) as [->|Hk0]; [do 2 f_equal; lia|].
      specialize (Hlt ltac:(lia)). nia.
Qed.

Lemma lower_loop_ok fuel high dx dy x y k :
  0 < dx → 0 ≤ k ≤ Z.of_nat fuel → x - k * dx < high → (0 < k → high ≤ x - (k - 1) * dx) →
  lower_loop fuel high dx dy x y = Ok (x - k * dx, y + k * dy).
Proof.
  intros Hdx. revert x y k. induction fuel as [|fuel IH]; intros x y k Hk Hlt Hge; cbn [lower_loop].
  - replace k with 0 in * by lia. rewrite (proj2 (Z.leb_gt _ _)) by lia. do 2 f_equal; lia.
  - destruct (Z.leb_spec high x) as [Hx|Hx].
    + destruct (Z.eq_dec k 0) as [->|Hk0]; [lia|].
      rewrite (IH _ _ (k - 1)); [do 2 f_equal; lia|lia|lia|].
      intros Hk1. specialize (Hge ltac:(lia)). lia.
    + destruct (Z.eq_dec k 0) as [->|Hk0]; [do 2 f_equal; lia|].
      specialize (Hge ltac:(lia)). nia.
Qed.

(** Together the loops compute a remainder and a quotient. *)
Lemma normalize_ok low interval dy x y :
  0 < interval →
  normalize low interval dy x y
    = Ok (low + (x - low) mod interval, y + (x - low) / interval * dy).
Proof.
  intros Hi. unfold normalize.
  pose proof (Z.div_mod (x - low) interval ltac:(lia)) as Hdm.
  pose proof (Z.mod_pos_bound (x - low) interval Hi) as Hr.
  set (q := (x - low) / interval) in *. set (r := (x - low) mod interval) in *. clearbody q r.
  destruct (Z.lt_ge_cases x low) as [Hx|Hx].
  - rewrite (raise_loop_ok _ _ _ _ _ _ (- q)); [|exact Hi| |lia|lia].
    + rewrite outcome_bind_Ok. cbn [fst snd]. rewrite (lower_loop_ok _ _ _ _ _ _ 0); [|lia..].
      do 2 f_equal; lia.
    + split; [nia|]. rewrite Z2Nat.id by (assert (0 ≤ (low - x) / interval) by (apply Z.div_pos; lia); lia).
      pose proof (Z.div_mod (low - x) interval ltac:(lia)).
      pose proof (Z.mod_pos_bound (low - x) interval Hi). nia.
  - rewrite (raise_loop_ok _ _ _ _ _ _ 0) by lia. rewrite outcome_bind_Ok. cbn [fst snd].
    replace (x + 0 * interval) with x by lia.
    assert (Hq : 0 ≤ q) by nia.
    rewrite (lower_loop_ok _ _ _ _ _ _ q); [do 2 f_equal; lia|exact Hi| |lia|nia].
    rewrite Z2Nat.id by (apply Z.div_pos; lia). split; [exact Hq|].
    apply Z.div_le_lower_bound; nia.
Qed.

Lemma year_search_ok n i :
  0 ≤ n → (i ≤ 400)%nat → n < year_start (1970 + Z.of_nat i + 1) →
  ∃ j, year_search n i = Ok j ∧ 0 ≤ j ≤ Z.of_nat i ∧
       year_start (1970 + j) ≤ n < year_start (1970 + j + 1).
Proof.
  intros Hn. induction i as [|i IH]; intros Hi Hlt; cbn [year_search];
    rewrite year_days_at, outcome_bind_Ok by lia.
  - destruct (Z.ltb_spec n (year_start (1970 + Z.of_nat 0))) as [Hx|Hx].
    + change (year_start (1970 + Z.of_nat 0)) with 0 in Hx. lia.
    + exists (Z.of_nat 0). split_and!; try reflexivity; assumption.
  - destruct (Z.ltb_spec n (year_start (1970 + Z.of_nat (S i)))) as [Hx|Hx].
    + destruct IH as (j & Hj & Hr & Hy); [lia| |exists j; split_and!; [exact Hj|lia..]].
      replace (1970 + Z.of_nat i + 1) with (1970 + Z.of_nat (S i)) by lia. exact Hx.
    + exists (Z.of_nat (S i)). split_and!; try reflexivity; try lia; assumption.
Qed.

Lemma extractYearOffset_ok n :
  ∃ i, extractYearOffset n
         = Ok (n mod 146097, 1970 + n / 146097 * 400 + i, i) ∧ 0 ≤ i < 400 ∧
       year_start (1970 + i) ≤ n mod 146097 < year_start (1970 + i + 1).
Proof.
  unfold extractYearOffset, DAYS_PER_YEAR_INTERVAL, YEAR_INTERVAL, EPOCH_YEAR.
  rewrite normalize_ok, outcome_bind_Ok, Z.sub_0_r, Z.add_0_l by lia. cbv beta iota.
  pose proof (Z.mod_pos_bound n 146097 ltac:(lia)) as Hr. set (r := n mod 146097) in *.
  rewrite Z.quot_div_nonneg by lia.
  pose proof (Z.div_mod r 365 ltac:(lia)) as Hdm. pose proof (Z.mod_pos_bound r 365 ltac:(lia)) as Hm.
  assert (Hq : 0 ≤ r / 365 ≤ 400) by lia.
  assert (Hup : r < year_start (1970 + Z.of_nat (Z.to_nat (r / 365)) + 1)).
  { rewrite Z2Nat.id, <- Z.add_assoc by lia.
    pose proof (year_start_mono 1970 (r / 365 + 1) ltac:(lia)) as H.
    change (year_start 1970) with 0 in H. lia. }
  destruct (year_search_ok r (Z.to_nat (r / 365))) as (i & -> & Hi & Hy); [lia|lia|exact Hup|].
  rewrite Z2Nat.id in Hi by lia.
  assert (Hi400 : i < 400).
  { destruct (Z.lt_ge_cases i 400) as [|Hge]; [assumption|]. replace i with 400 in Hy by lia.
    change (year_start (1970 + 400)) with 146097 in Hy. lia. }
  rewrite outcome_bind_Ok, year_days_at, outcome_bind_Ok by lia.
  rewrite (proj2 (Z.leb_le _ _)) by lia. exists i. split_and!; try lia. reflexivity.
Qed.

(** ** Conversions *)

Lemma isValid_ok y m d : isValid y m d = Ok (valid_date y m d).
Proof.
  unfold isValid, valid_date. fold (month_lengths (isLeapYear y)).
  destruct (Z.ltb_spec m 1), (Z.ltb_spec 12 m), (Z.leb_spec 1 m), (Z.leb_spec m 12); cbn [orb andb];
    try lia; try reflexivity.
  rewrite month_length_at, outcome_bind_Ok by lia.
  destruct (Z.ltb_spec y MIN_YEAR), (Z.ltb_spec MAX_YEAR y), (Z.leb_spec MIN_YEAR y),
    (Z.leb_spec y MAX_YEAR), (Z.ltb_spec d 1), (Z.leb_spec 1 d);
    cbn [orb andb]; rewrite ?andb_false_r, ?andb_true_r; try lia; reflexivity.
Qed.

Lemma valid_date_civil y m d :
  valid_date y m d = true ↔ civil y m d ∧ MIN_YEAR ≤ y ≤ MAX_YEAR.
Proof. unfold valid_date, civil. rewrite !andb_true_iff, !Z.leb_le. tauto. Qed.

Lemma valid_date_in_year y m d :
  civil y m d → valid_date y m d = (MIN_YEAR <=? y) && (y <=? MAX_YEAR).
Proof.
  intros [Hm Hd]. unfold valid_date. rewrite !(proj2 (Z.leb_le _ _)) by lia. reflexivity.
Qed.

(** Every day has a date of the calendar, which [convert] finds. *)
Lemma convert_ok n :
  ∃ y m d, civil y m d ∧ ordinal y m d = n ∧
    convert n = if (MIN_YEAR <=? y) && (y <=? MAX_YEAR) then Ok (y, m, d) else Throw assert_failure.
Proof.
  destruct (extractYearOffset_ok n) as (i & He & Hi & Hy).
  pose proof (Z.div_mod n 146097 ltac:(lia)) as Hdm.
  set (q := n / 146097) in *. set (r := n mod 146097) in *. clearbody q r.
  set (y := 1970 + q * 400 + i) in *.
  assert (Hleap : isLeapYear (1970 + i) = isLeapYear y).
  { unfold y. rewrite <- (isLeapYear_cycle (1970 + i) q). f_equal. lia. }
  pose proof (year_start_succ (1970 + i)) as Hsucc. rewrite Hleap in Hsucc.
  set (leap := isLeapYear y) in *.
  assert (Hdoy : 0 ≤ r - year_start (1970 + i) < year_length leap) by (unfold year_length; lia).
  destruct (day_month_at leap _ Hdoy) as (m & Hm & Hm12 & Hmr).
  set (doy := r - year_start (1970 + i)) in *.
  exists y, m, (doy - month_start leap m + 1).
  assert (Hcivil : civil y m (doy - month_start leap m + 1)) by (split; [exact Hm12|fold leap; lia]).
  split_and!; [exact Hcivil| |].
  - unfold ordinal. fold leap. unfold y.
    replace (1970 + q * 400 + i) with (1970 + i + 400 * q) by lia. rewrite year_start_cycle. lia.
  - unfold convert. rewrite He, outcome_bind_Ok. cbv beta iota.
    rewrite (year_days_at i), outcome_bind_Ok by lia. fold doy.
    replace ((0 <=? doy) && (doy <=? 365)) with true
      by (symmetry; rewrite andb_true_iff, !Z.leb_le; unfold year_length in Hdoy; destruct leap; lia).
    cbn [ku_assert_o]. rewrite outcome_bind_Ok, (year_days_at (i + 1)), outcome_bind_Ok by lia.
    replace (year_start (1970 + (i + 1)) - year_start (1970 + i) =? 366) with leap
      by (rewrite Z.add_assoc, Hsucc; destruct leap; symmetry; [apply Z.eqb_eq|apply Z.eqb_neq]; lia).
    fold (day_months leap) (month_starts leap) (month_lengths leap).
    rewrite Hm, outcome_bind_Ok, month_start_at, outcome_bind_Ok, month_length_at, outcome_bind_Ok
      by exact Hm12.
    rewrite !(proj2 (Z.ltb_lt _ _)), !(proj2 (Z.leb_le _ _)) by lia. cbn [andb ku_assert_o].
    rewrite !outcome_bind_Ok, isValid_ok, outcome_bind_Ok, (valid_date_in_year _ _ _ Hcivil).
    destruct (_ && _); reflexivity.
Qed.

Lemma fromDate_ok y m d :
  fromDate y m d = if valid_date y m d then Ok (ordinal y m d)
                   else Throw (ConversionException "Date out of range").
Proof.
  unfold fromDate. rewrite isValid_ok, outcome_bind_Ok. destruct (valid_date y m d) eqn:Hv; [|reflexivity].
  apply valid_date_civil in Hv as [[Hm Hd] Hy].
  unfold EPOCH_YEAR, YEAR_INTERVAL, DAYS_PER_YEAR_INTERVAL.
  rewrite normalize_ok, outcome_bind_Ok by lia. cbv beta iota.
  pose proof (Z.div_mod (y - 1970) 400 ltac:(lia)) as Hdm.
  pose proof (Z.mod_pos_bound (y - 1970) 400 ltac:(lia)) as Hr.
  set (q := (y - 1970) / 400) in *. set (r := (y - 1970) mod 400) in *. clearbody q r.
  replace (1970 + r - 1970) with r by lia. rewrite year_days_at, outcome_bind_Ok by lia.
  replace (isLeapYear (1970 + r)) with (isLeapYear y)
    by (rewrite <- (isLeapYear_cycle (1970 + r) q); f_equal; lia).
  fold (month_starts (isLeapYear y)). rewrite month_start_at, outcome_bind_Ok by exact Hm.
  f_equal. unfold ordinal. replace y with (1970 + r + 400 * q) at 2 by lia.
  rewrite year_start_cycle. lia.
Qed.

(** ** A day has one date *)

Lemma year_start_le y y' : y ≤ y' → year_start y ≤ year_start y'.
Proof.
  intros H. pose proof (year_start_mono y (y' - y) ltac:(lia)) as Hm.
  replace (y + (y' - y)) with y' in Hm by lia. lia.
Qed.

Lemma month_start_nonneg leap m : 1 ≤ m ≤ 12 → 0 ≤ month_start leap m.
Proof. revert m. apply month_cases; destruct leap; vm_compute; discriminate. Qed.

Lemma month_start_mono leap m m' :
  1 ≤ m ≤ 12 → 1 ≤ m' ≤ 12 → m < m' → month_start leap m + month_length leap m ≤ month_start leap m'.
Proof.
  intros Hm Hm'. revert m' Hm'. revert m Hm.
  apply (month_cases (λ m, ∀ m', 1 ≤ m' ≤ 12 → m < m' →
    month_start leap m + month_length leap m ≤ month_start leap m')).
  all: match goal with |- ∀ m', _ → @?P m' => apply (month_cases P) end.
  all: intros H; try (exfalso; clear - H; lia); destruct leap; vm_compute; discriminate.
Qed.

Lemma ordinal_in_year y m d :
  civil y m d → year_start y ≤ ordinal y m d < year_start (y + 1).
Proof.
  intros [Hm Hd]. unfold ordinal. rewrite year_start_succ. set (leap := isLeapYear y) in *.
  pose proof (month_start_nonneg leap m Hm).
  assert (Hend : month_start leap m + month_length leap m ≤ year_length leap).
  { clear - Hm. clearbody leap. revert m Hm. apply month_cases; destruct leap; vm_compute; discriminate. }
  unfold year_length in Hend. destruct leap; lia.
Qed.

Lemma ordinal_inj y m d y' m' d' :
  civil y m d → civil y' m' d' → ordinal y m d = ordinal y' m' d' → (y, m, d) = (y', m', d').
Proof.
  intros H H' Heq. pose proof (ordinal_in_year _ _ _ H) as Hr. pose proof (ordinal_in_year _ _ _ H') as Hr'.
  assert (Hy : y = y').
  { destruct (Z.lt_trichotomy y y') as [Hlt|[|Hlt]]; [|assumption|].
    - pose proof (year_start_le (y + 1) y' ltac:(lia)). lia.
    - pose proof (year_start_le (y' + 1) y ltac:(lia)). lia. }
  subst y'. destruct H as [Hm Hd], H' as [Hm' Hd']. unfold ordinal in Heq.
  set (leap := isLeapYear y) in *. clearbody leap.
  assert (Hmm : m = m').
  { destruct (Z.lt_trichotomy m m') as [Hlt|[|Hlt]]; [|assumption|].
    - pose proof (month_start_mono leap m m' Hm Hm' Hlt). lia.
    - pose proof (month_start_mono leap m' m Hm' Hm Hlt). lia. }
  subst m'. do 2 f_equal. lia.
Qed.

Lemma convert_fromDate y m d : valid_date y m d = true → convert (ordinal y m d) = Ok (y, m, d).
Proof.
  intros Hv. apply valid_date_civil in Hv as [Hc Hy].
  destruct (convert_ok (ordinal y m d)) as (y' & m' & d' & Hc' & Heq & ->).
  pose proof (ordinal_inj _ _ _ _ _ _ Hc' Hc Heq) as Hinj. injection Hinj as -> -> ->.
  rewrite !(proj2 (Z.leb_le _ _)) by lia. reflexivity.
Qed.

(** [convert] and [fromDate] are inverse to each other. *)
Lemma convert_iff y m d n : convert n = Ok (y, m, d) ↔ valid_date y m d = true ∧ ordinal y m d = n.
Proof.
  split.
  - destruct (convert_ok n) as (y' & m' & d' & Hc & Heq & ->).
    destruct ((MIN_YEAR <=? y') && (y' <=? MAX_YEAR)) eqn:Hy; [|discriminate].
    intros [= <- <- <-]. rewrite (valid_date_in_year _ _ _ Hc). auto.
  - intros [Hv <-]. apply convert_fromDate, Hv.
Qed.

(** ** Text *)

(** The value of a string of digits after the digits of [acc]. *)
Definition decimal (acc : Z) (l : list ascii) : Z := foldl (λ a c, digit_of_char c + a * 10) acc l.

Definition all_digits (l : list ascii) : Prop := Forall (λ c, CharacterIsDigit c = true) l.

Lemma digit_cases (P : Z → Prop) :
  P 0 → P 1 → P 2 → P 3 → P 4 → P 5 → P 6 → P 7 → P 8 → P 9 → ∀ d, 0 ≤ d < 10 → P d.
Proof.
  intros H0 H1 H2 H3 H4 H5 H6 H7 H8 H9 d Hd.
  assert (Hc : d = 0 ∨ d = 1 ∨ d = 2 ∨ d = 3 ∨ d = 4 ∨ d = 5 ∨ d = 6 ∨ d = 7 ∨ d = 8 ∨ d = 9) by lia.
  destruct Hc as [->|[->|[->|[->|[->|[->|[->|[->|[->| ->]]]]]]]]]; assumption.
Qed.

Lemma char_of_digit_ok d :
  0 ≤ d < 10 → CharacterIsDigit (char_of_digit d) = true ∧ digit_of_char (char_of_digit d) = d.
Proof. revert d. apply digit_cases; split; reflexivity. Qed.

Lemma digits_table :
  digits = concat (map (λ x, [char_of_digit (Z.of_nat x / 10); char_of_digit (Z.of_nat x mod 10)])
                       (seq 0 100)).
Proof. vm_compute. reflexivity. Qed.

Lemma lookup_pairs {A} (f g : nat → A) n x :
  (x < n)%nat →
  concat (map (λ x, [f x; g x]) (seq 0 n)) !! (2 * x)%nat = Some (f x) ∧
  concat (map (λ x, [f x; g x]) (seq 0 n)) !! (2 * x + 1)%nat = Some (g x).
Proof.
  assert (H : ∀ n s x, (x < n)%nat →
    concat (map (λ x, [f x; g x]) (seq s n)) !! (2 * x)%nat = Some (f (s + x)%nat) ∧
    concat (map (λ x, [f x; g x]) (seq s n)) !! (2 * x + 1)%nat = Some (g (s + x)%nat)).
  { clear. induction n as [|n IH]; intros s x Hx; [lia|]. cbn [seq map concat app].
    destruct x as [|x]; [rewrite Nat.add_0_r; split; reflexivity|].
    replace (2 * S x)%nat with (S (S (2 * x)))%nat by lia. rewrite <- Nat.add_succ_comm.
    apply (IH (S s) x). lia. }
  intros Hx. exact (H n 0%nat x Hx).
Qed.

Lemma digit_at_pair x :
  0 ≤ x < 100 →
  digit_at (x * 2) = Ok (char_of_digit (x / 10)) ∧ digit_at (x * 2 + 1) = Ok (char_of_digit (x mod 10)).
Proof.
  intros Hx. unfold digit_at. rewrite digits_table.
  destruct (lookup_pairs (λ x, char_of_digit (Z.of_nat x / 10)) (λ x, char_of_digit (Z.of_nat x mod 10))
    100 (Z.to_nat x)) as [H1 H2]; [lia|].
  replace (Z.to_nat (x * 2)) with (2 * Z.to_nat x)%nat by lia.
  replace (Z.to_nat (x * 2 + 1)) with (2 * Z.to_nat x + 1)%nat by lia.
  rewrite H1, H2, Z2Nat.id by lia. split; reflexivity.
Qed.

Lemma two_digits_ok x :
  0 ≤ x < 100 → 0 ≤ x / 10 < 10 ∧ 0 ≤ x mod 10 < 10 ∧ x / 10 * 10 + x mod 10 = x.
Proof. intros Hx. Z.to_euclidean_division_equations. lia. Qed.

(** [l] is the decimal text of [v], without superfluous digits. *)
Definition prints (v : Z) (l : list ascii) : Prop :=
  all_digits l ∧ l ≠ [] ∧ decimal 0 l = v ∧ ∀ k, 1 ≤ k → v < 10 ^ k → Z.of_nat (length l) ≤ k.

Lemma prints_digit v : 0 ≤ v < 10 → prints v [char_of_digit v].
Proof.
  intros Hv. destruct (char_of_digit_ok v Hv) as [D V].
  split_and!; [repeat constructor; exact D|discriminate|cbn; rewrite V; lia|cbn; lia].
Qed.

Lemma prints_two_digits v :
  10 ≤ v < 100 → prints v [char_of_digit (v / 10); char_of_digit (v mod 10)].
Proof.
  intros Hv. destruct (two_digits_ok v ltac:(lia)) as (Hhi & Hlo & Hsum).
  destruct (char_of_digit_ok _ Hhi) as [Dh Vh], (char_of_digit_ok _ Hlo) as [Dl Vl].
  split_and!; [repeat constructor; assumption|discriminate|cbn; rewrite Vh, Vl; lia|].
  intros k Hk Hlt. destruct (Z.lt_ge_cases k 2) as [Hlt2|]; [|cbn; lia].
  replace k with 1 in Hlt by lia. lia.
Qed.

(** Appending a pair of digits. *)
Lemma prints_pair v l :
  100 ≤ v → prints (v / 100) l →
  prints v (l ++ [char_of_digit (v mod 100 / 10); char_of_digit (v mod 100 mod 10)]).
Proof.
  intros Hv (Hd & Hne & Hval & Hlen). pose proof (Z.mod_pos_bound v 100 ltac:(lia)) as Hm.
  pose proof (Z.div_mod v 100 ltac:(lia)) as Hdm.
  destruct (two_digits_ok (v mod 100) Hm) as (Hhi & Hlo & Hsum).
  destruct (char_of_digit_ok _ Hhi) as [Dh Vh], (char_of_digit_ok _ Hlo) as [Dl Vl]. split_and!.
  - apply Forall_app. split; [exact Hd|]. repeat constructor; assumption.
  - destruct l; discriminate.
  - unfold decimal in *. rewrite foldl_app, Hval. cbn [foldl]. rewrite Vh, Vl. lia.
  - intros k Hk Hlt. rewrite length_app, Nat2Z.inj_add. cbn [length].
    assert (Hk3 : 3 ≤ k).
    { destruct (Z.lt_ge_cases k 3) as [Hlt3|]; [|assumption].
      assert (10 ^ k ≤ 10 ^ 2) by (apply Z.pow_le_mono_r; lia). lia. }
    assert (Z.of_nat (length l) ≤ k - 2); [|lia]. apply Hlen; [lia|].
    apply Z.div_lt_upper_bound; [lia|]. change 100 with (10 ^ 2).
    rewrite <- Z.pow_add_r by lia. replace (2 + (k - 2)) with k by lia. exact Hlt.
Qed.

Lemma FormatUnsigned_ok fuel v acc :
  0 ≤ v < 100 ^ (Z.of_nat fuel + 1) →
  ∃ l, FormatUnsigned fuel v acc = Ok (l ++ acc) ∧ prints v l.
Proof.
  revert v acc. induction fuel as [|fuel IH]; intros v acc Hv.
  all: cbn [FormatUnsigned]; destruct (Z.leb_spec 100 v) as [H100|H100].
  1: { cbn in Hv. lia. }
  2: { rewrite Z.rem_mod_nonneg, Z.quot_div_nonneg by lia.
    destruct (digit_at_pair (v mod 100) (Z.mod_pos_bound v 100 ltac:(lia))) as [-> ->].
    rewrite !outcome_bind_Ok.
    destruct (IH (v / 100) (char_of_digit (v mod 100 / 10) :: char_of_digit (v mod 100 mod 10) :: acc))
      as (l & -> & Hl).
    { split; [apply Z.div_pos; lia|]. apply Z.div_lt_upper_bound; [lia|].
      rewrite <- Z.pow_succ_r by lia.
      replace (Z.succ (Z.of_nat fuel + 1)) with (Z.of_nat (S fuel) + 1) by lia. apply Hv. }
    eexists. split; [|apply prints_pair; [exact H100|exact Hl]]. rewrite <- app_assoc. reflexivity. }
  all: destruct (Z.ltb_spec v 10) as [H10|H10].
  1,3: exists [char_of_digit v]; split; [reflexivity|apply prints_digit; lia].
  all: destruct (digit_at_pair v ltac:(lia)) as [-> ->]; rewrite !outcome_bind_Ok;
    eexists [_; _]; split; [reflexivity|apply prints_two_digits; lia].
Qed.

Lemma format_two_digits_ok x :
  0 ≤ x < 100 → format_two_digits x = Ok [char_of_digit (x / 10); char_of_digit (x mod 10)].
Proof.
  intros Hx. unfold format_two_digits. destruct (Z.ltb_spec x 10) as [H|H].
  - rewrite Z.div_small, Z.mod_small by lia. reflexivity.
  - destruct (digit_at_pair x Hx) as [-> ->]. reflexivity.
Qed.

(** The text of a date: a year of at least four digits, two digits for the month and the day. *)
Definition date_text (year : list ascii) (m d : Z) (suffix : list ascii) : list ascii :=
  year ++ ["-"%char; char_of_digit (m / 10); char_of_digit (m mod 10);
           "-"%char; char_of_digit (d / 10); char_of_digit (d mod 10)] ++ suffix.

Lemma decimal_zeros n l : decimal 0 (replicate n "0"%char ++ l) = decimal 0 l.
Proof. induction n as [|n IH]; [reflexivity|exact IH]. Qed.

Lemma Format_ok y m d len addBC :
  0 ≤ y < 10 ^ Z.of_nat len → (4 ≤ len ≤ 8)%nat → 0 ≤ m < 100 → 0 ≤ d < 100 →
  ∃ year, Format y m d len addBC = Ok (date_text year m d (if addBC then BC_SUFFIX else [])) ∧
          all_digits year ∧ year ≠ [] ∧ decimal 0 year = y.
Proof.
  intros Hy Hlen Hm Hd. unfold Format.
  destruct (FormatUnsigned_ok 5 y []) as (l & -> & Hdig & Hne & Hval & Hl).
  { split; [lia|]. apply (Z.lt_le_trans _ (10 ^ Z.of_nat len)); [apply Hy|].
    apply (Z.le_trans _ (10 ^ 8)); [apply Z.pow_le_mono_r; lia|vm_compute; discriminate]. }
  rewrite app_nil_r, outcome_bind_Ok. specialize (Hl (Z.of_nat len) ltac:(lia) (proj2 Hy)).
  rewrite (proj2 (Nat.leb_le _ _)) by lia.
  rewrite !format_two_digits_ok, !outcome_bind_Ok by assumption.
  exists (replicate (len - length l) "0"%char ++ l). split_and!.
  - unfold date_text. rewrite <- !app_assoc. reflexivity.
  - apply Forall_app. split; [apply Forall_replicate; reflexivity|exact Hdig].
  - destruct l; [congruence|]. destruct (replicate _ _); discriminate.
  - rewrite decimal_zeros. exact Hval.
Qed.

(** The length [Length] computes leaves room for the year. *)
Lemma Length_ok y :
  MIN_YEAR ≤ y ≤ MAX_YEAR →
  ∃ len, Length y = (if y <=? 0 then - y + 1 else y, len, y <=? 0) ∧ (4 ≤ len ≤ 8)%nat ∧
         0 ≤ (if y <=? 0 then - y + 1 else y) < 10 ^ Z.of_nat len.
Proof.
  unfold MIN_YEAR, MAX_YEAR. intros Hy. unfold Length.
  set (v := if y <=? 0 then - y + 1 else y).
  assert (Hv : 0 ≤ v < 1000000) by (unfold v; destruct (Z.leb_spec y 0); lia). clearbody v.
  rewrite (proj2 (Z.leb_gt 1000000 v)), (proj2 (Z.leb_gt 10000000 v)) by lia.
  destruct (Z.leb_spec 10000 v), (Z.leb_spec 100000 v); eexists; (split; [reflexivity|]); lia.
Qed.

(** * The theorems about dates

    The two conversions are inverse and are the calendar's; the text of a date reads back; an
    interval adds months in the calendar and days after that. *)

Open Scope Z_scope.

(** ** The range of days *)

Lemma ordinal_range y m d :
  civil y m d →
  ((MIN_YEAR <=? y) && (y <=? MAX_YEAR))
    = ((FIRST_DAY <=? ordinal y m d) && (ordinal y m d <=? LAST_DAY)).
Proof.
  intros Hc. pose proof (ordinal_in_year _ _ _ Hc) as Hy. unfold FIRST_DAY, LAST_DAY.
  apply Bool.eq_iff_eq_true. rewrite !andb_true_iff, !Z.leb_le. split.
  - intros [H1 H2]. pose proof (year_start_le _ _ H1).
    pose proof (year_start_le (y + 1) (MAX_YEAR + 1) ltac:(lia)). lia.
  - intros [H1 H2]. split.
    + destruct (Z.lt_ge_cases y MIN_YEAR) as [Hlt|]; [|assumption].
      pose proof (year_start_le (y + 1) MIN_YEAR ltac:(lia)). lia.
    + destruct (Z.lt_ge_cases MAX_YEAR y) as [Hlt|]; [|assumption].
      pose proof (year_start_le (MAX_YEAR + 1) y ltac:(lia)). lia.
Qed.

(** C39. The conversions between days and dates are the proleptic Gregorian calendar.
    [fromDate] gives every date from year -290307 to 294247 its number of days since 1970-01-01 and
    throws on every other triple; [convert] finds exactly the date of a day, for every integer: the
    normalization loops and the table search end, no table is read out of its bounds, and an
    assertion fails only for the days outside the supported years. *)
Theorem dates_exact y m d n :
  (convert n = Ok (y, m, d) ↔ fromDate y m d = Ok n) ∧
  fromDate y m d = (if valid_date y m d then Ok (ordinal y m d)
                    else Throw (ConversionException "Date out of range")) ∧
  (if (FIRST_DAY <=? n) && (n <=? LAST_DAY)
   then ∃ y' m' d', convert n = Ok (y', m', d') ∧ fromDate y' m' d' = Ok n
   else convert n = Throw assert_failure).
Proof.
  split_and!; [|apply fromDate_ok|].
  - rewrite convert_iff, fromDate_ok. destruct (valid_date y m d) eqn:Hv; [|split; [intros [? _]|]; discriminate].
    split; [intros [_ ->]; reflexivity|]. intros [= Heq]. auto.
  - destruct (convert_ok n) as (y' & m' & d' & Hc & Heq & Hconv).
    rewrite (ordinal_range _ _ _ Hc), Heq in Hconv.
    destruct ((FIRST_DAY <=? n) && (n <=? LAST_DAY)); [|exact Hconv].
    exists y', m', d'. split; [exact Hconv|]. apply convert_iff in Hconv as [Hv _].
    rewrite fromDate_ok, Hv, Heq. reflexivity.
Qed.

Lemma month_length_bounds leap m : 28 ≤ month_length leap m ≤ 31.
Proof.
  unfold month_length. destruct (m =? 2); [destruct leap; lia|].
  destruct ((m =? 4) || (m =? 6) || (m =? 9) || (m =? 11)); lia.
Qed.

(** ** Parsing *)

Lemma digit_nonneg c : CharacterIsDigit c = true → 0 ≤ digit_of_char c ≤ 9.
Proof.
  unfold CharacterIsDigit, digit_of_char. rewrite andb_true_iff, !N.leb_le. lia.
Qed.

Lemma digit_not_space c : CharacterIsDigit c = true → isSpace c = false.
Proof.
  unfold CharacterIsDigit, isSpace. rewrite andb_true_iff, !N.leb_le. intros [H1 H2].
  rewrite (proj2 (N.eqb_neq _ _)), (proj2 (N.leb_gt (N_of_ascii c) 13)) by lia.
  rewrite andb_false_r. reflexivity.
Qed.

Lemma decimal_ge l acc : all_digits l → 0 ≤ acc → acc ≤ decimal acc l.
Proof.
  revert acc. induction l as [|c l IH]; intros acc Hl Hacc; [reflexivity|].
  inversion Hl as [|? ? Hc Hl']; subst. pose proof (digit_nonneg c Hc).
  change (decimal acc (c :: l)) with (decimal (digit_of_char c + acc * 10) l).
  specialize (IH (digit_of_char c + acc * 10) Hl' ltac:(lia)). lia.
Qed.

(** A year that is not too big is read to its end. *)
Lemma parse_year_digits l acc c rest :
  all_digits l → 0 ≤ acc → decimal acc l ≤ MAX_YEAR → CharacterIsDigit c = false →
  parse_year (l ++ c :: rest) acc = (decimal acc l, c :: rest).
Proof.
  intros Hl. revert acc. induction l as [|x l IH]; intros acc Hacc Hmax Hc; cbn [app parse_year].
  - rewrite Hc. reflexivity.
  - inversion Hl as [|? ? Hx Hl']; subst. rewrite Hx. pose proof (digit_nonneg x Hx).
    change (decimal acc (x :: l)) with (decimal (digit_of_char x + acc * 10) l) in *.
    pose proof (decimal_ge l (digit_of_char x + acc * 10) Hl' ltac:(lia)).
    rewrite (proj2 (Z.ltb_ge _ _)) by lia. apply IH; [assumption|lia|assumption|exact Hc].
Qed.

Lemma skip_spaces_all sp rest :
  Forall (λ c, isSpace c = true) sp → skip_spaces (sp ++ rest) = skip_spaces rest.
Proof. induction 1 as [|c sp Hc _ IH]; [reflexivity|]. cbn. rewrite Hc. exact IH. Qed.

Lemma parseDoubleDigit_two x rest :
  0 ≤ x < 100 →
  parseDoubleDigit (char_of_digit (x / 10) :: char_of_digit (x mod 10) :: rest) = Some (x, rest).
Proof.
  intros Hx. destruct (two_digits_ok x Hx) as (Hhi & Hlo & Hsum).
  destruct (char_of_digit_ok _ Hhi) as [Dh Vh], (char_of_digit_ok _ Hlo) as [Dl Vl].
  unfold parseDoubleDigit. rewrite Dh, Dl, Vh, Vl. do 2 f_equal. lia.
Qed.

(** Reading the text of a date, whatever stands around it. *)
Lemma parse_date_text sp year m d tail :
  Forall (λ c, isSpace c = true) sp → all_digits year → year ≠ [] → decimal 0 year ≤ MAX_YEAR →
  0 ≤ m < 100 → 0 ≤ d < 100 →
  fromCString (sp ++ date_text year m d tail)
    = match skip_spaces tail with
      | [] => match fromDate (decimal 0 year) m d with
              | Ok n => Ok n
              | Throw _ => Throw (ConversionException "Error occurred during parsing date.")
              end
      | _ => Throw (ConversionException "Error occurred during parsing date.")
      end.
Proof.
  intros Hsp Hdig Hne Hmax Hm Hd. unfold fromCString, tryConvertDate, date_text.
  rewrite skip_spaces_all by exact Hsp. destruct year as [|c year]; [congruence|].
  assert (Hc : CharacterIsDigit c = true) by (inversion Hdig; assumption).
  cbn [app]. cbn [skip_spaces]. rewrite (digit_not_space c Hc), Hc.
  change (c :: year ++ "-"%char :: ?r) with ((c :: year) ++ "-"%char :: r).
  rewrite (parse_year_digits (c :: year) 0 "-"%char) by (assumption || reflexivity || lia).
  cbv beta iota. change (is_separator "-"%char) with true. cbv iota.
  rewrite parseDoubleDigit_two by exact Hm. cbv beta iota. cbn [length Nat.leb].
  rewrite bool_decide_true by reflexivity.
  rewrite parseDoubleDigit_two by exact Hd. cbv beta iota.
  destruct (skip_spaces tail) as [|c' tail']; cbn [length Nat.ltb Nat.leb negb andb]; [|reflexivity].
  destruct (fromDate (decimal 0 (c :: year)) m d); reflexivity.
Qed.

(** C40. The text of a supported date, printed by [toString] with at least four digits for the year,
    is read back by [fromCString] as the same day, also with white space around it; the text of a
    date before the year 1, which carries the suffix [(BC)], is refused. *)
Theorem date_text_roundtrip n sp1 sp2 :
  FIRST_DAY ≤ n ≤ LAST_DAY →
  Forall (λ c, isSpace c = true) sp1 → Forall (λ c, isSpace c = true) sp2 →
  ∃ text, toString n = Ok text ∧
    fromCString (sp1 ++ text ++ sp2)
      = if year_start 1 <=? n then Ok n
        else Throw (ConversionException "Error occurred during parsing date.").
Proof.
  intros Hn Hsp1 Hsp2. destruct (convert_ok n) as (y & m & d & Hc & Heq & Hconv).
  pose proof (ordinal_range _ _ _ Hc) as Hr. rewrite Heq in Hr.
  rewrite (proj2 (Z.leb_le FIRST_DAY n)), (proj2 (Z.leb_le n LAST_DAY)) in Hr by lia.
  rewrite Hr in Hconv. change (convert n = Ok (y, m, d)) in Hconv.
  apply andb_prop in Hr as [Hy1%Z.leb_le Hy2%Z.leb_le].
  assert (Hmd : 0 ≤ m < 100 ∧ 0 ≤ d < 100).
  { destruct Hc as [Hm Hd]. pose proof (month_length_bounds (isLeapYear y) m). lia. }
  destruct (Length_ok y ltac:(lia)) as (len & Hlen & Hl & Hrange).
  destruct (Format_ok _ m d len (y <=? 0) Hrange Hl (proj1 Hmd) (proj2 Hmd))
    as (year & Hfmt & Hdig & Hne & Hval).
  exists (date_text year m d (if y <=? 0 then BC_SUFFIX else [])). split.
  { unfold toString. rewrite Hconv, outcome_bind_Ok. cbv beta iota. rewrite Hlen. exact Hfmt. }
  assert (Hpos : (year_start 1 <=? n) = negb (y <=? 0)).
  { pose proof (ordinal_in_year _ _ _ Hc) as Hy. rewrite Heq in Hy.
    destruct (Z.leb_spec y 0) as [Hle|Hgt]; cbn [negb]; [apply Z.leb_gt|apply Z.leb_le].
    - pose proof (year_start_le (y + 1) 1 ltac:(lia)). lia.
    - pose proof (year_start_le 1 y ltac:(lia)). lia. }
  unfold date_text. rewrite <- !app_assoc.
  pose proof (parse_date_text sp1 year m d ((if y <=? 0 then BC_SUFFIX else []) ++ sp2)
    Hsp1 Hdig Hne) as Hparse.
  unfold date_text in Hparse. rewrite Hparse; [|destruct (Z.leb_spec y 0); unfold MIN_YEAR, MAX_YEAR in *; lia|apply Hmd..].
  rewrite Hpos. destruct (Z.leb_spec y 0) as [Hle|Hgt]; cbn [negb]; [reflexivity|].
  cbn [app]. rewrite <- (app_nil_r sp2), skip_spaces_all by exact Hsp2. cbn [skip_spaces].
  rewrite Hval, fromDate_ok, (valid_date_in_year _ _ _ Hc), !(proj2 (Z.leb_le _ _)) by assumption.
  cbn [andb]. rewrite Heq. reflexivity.
Qed.

Lemma date_text_roundtrip_witness :
  ∃ text, toString 19782 = Ok text ∧ fromCString (text ++ [" "%char]) = Ok 19782.
Proof.
  destruct (date_text_roundtrip 19782 [] [" "%char]) as (text & Ht & Hp).
  - vm_compute. split; discriminate.
  - constructor.
  - repeat constructor.
  - exists text. split; [exact Ht|exact Hp].
Defined.

(** ** Adding an interval *)

(** The month [k] months after a month of a year. *)
Definition month_after (y m k : Z) : Z * Z :=
  ((12 * y + (m - 1) + k) / 12, (12 * y + (m - 1) + k) mod 12 + 1).

(** The same day of that month, or its last day. *)
Definition date_after (y m d k : Z) : Z * Z * Z :=
  let '(y', m') := month_after y m k in (y', m', Z.min d (month_length (isLeapYear y') m')).

(** The quotient, the remainder and the correction of the code find that month. *)
Lemma month_after_quot y m k :
  1 ≤ m ≤ 12 →
  (let year1 := y + Z.quot k 12 in
   let month1 := m + (k - Z.quot k 12 * 12) in
   if 12 <? month1 then (year1 + 1, month1 - 12)
   else if month1 <=? 0 then (year1 - 1, month1 + 12)
   else (year1, month1)) = month_after y m k.
Proof.
  intros Hm. cbv zeta. pose proof (Z.quot_rem' k 12) as Hqr.
  assert (Hr : -12 < k - Z.quot k 12 * 12 < 12).
  { pose proof (Z.rem_bound_abs k 12 ltac:(lia)). lia. }
  set (q := Z.quot k 12) in *. clearbody q. unfold month_after.
  destruct (Z.ltb_spec 12 (m + (k - q * 12))) as [H12|H12];
    [|destruct (Z.leb_spec (m + (k - q * 12)) 0) as [H0|H0]]; f_equal.
  - apply (Z.div_unique _ _ _ (m - 1 + (k - q * 12) - 12)); lia.
  - rewrite <- (Z.mod_unique _ _ (y + q + 1) (m - 1 + (k - q * 12) - 12)); lia.
  - apply (Z.div_unique _ _ _ (m - 1 + (k - q * 12) + 12)); lia.
  - rewrite <- (Z.mod_unique _ _ (y + q - 1) (m - 1 + (k - q * 12) + 12)); lia.
  - apply (Z.div_unique _ _ _ (m - 1 + (k - q * 12))); lia.
  - rewrite <- (Z.mod_unique _ _ (y + q) (m - 1 + (k - q * 12))); lia.
Qed.

Lemma month_after_month y m k : 1 ≤ snd (month_after y m k) ≤ 12.
Proof. cbn. pose proof (Z.mod_pos_bound (12 * y + (m - 1) + k) 12 ltac:(lia)). lia. Qed.

Lemma monthDays_ok y m : 1 ≤ m ≤ 12 → monthDays y m = Ok (month_length (isLeapYear y) m).
Proof.
  intros Hm. unfold monthDays. rewrite !(proj2 (Z.leb_le _ _)) by lia.
  cbn [andb ku_assert_o]. rewrite outcome_bind_Ok. apply month_length_at, Hm.
Qed.

Lemma add_months_ok n k y m d :
  convert n = Ok (y, m, d) →
  add_months n k = (let '(y', m', d') := date_after y m d k in fromDate y' m' d').
Proof.
  intros Hconv. pose proof Hconv as Hc. apply convert_iff in Hc as [[[Hm Hd] _]%valid_date_civil _].
  unfold add_months, date_after, MONTHS_PER_YEAR. rewrite Hconv, outcome_bind_Ok. cbv beta iota.
  pose proof (month_after_quot y m k Hm) as Hq. cbv zeta in Hq |- *. rewrite Hq.
  pose proof (month_after_month y m k) as Hm'. destruct (month_after y m k) as [y' m']. cbn [snd] in Hm'.
  rewrite monthDays_ok, outcome_bind_Ok by exact Hm'. f_equal.
  destruct (Z.ltb_spec (month_length (isLeapYear y') m') d); lia.
Qed.

Lemma date_after_civil y m d k :
  civil y m d → civil (date_after y m d k).1.1 (date_after y m d k).1.2 (date_after y m d k).2.
Proof.
  intros [Hm Hd]. unfold date_after. pose proof (month_after_month y m k) as Hm'.
  destruct (month_after y m k) as [y' m']. cbn [fst snd] in *.
  pose proof (month_length_bounds (isLeapYear y') m'). split; lia.
Qed.

Lemma supported_day_int32 n : FIRST_DAY ≤ n ≤ LAST_DAY → signed 32 n = Ok n.
Proof.
  intros Hn. assert (Hb : -2147483648 < FIRST_DAY ∧ LAST_DAY < 2147483647) by (split; reflexivity).
  unfold signed. change (2 ^ (32 - 1)) with 2147483648.
  rewrite (proj2 (Z.leb_le _ _)), (proj2 (Z.ltb_lt _ _)) by lia. reflexivity.
Qed.

(** Skipping a zero summand is adding it. *)
Lemma add_nonzero n x :
  signed 32 n = Ok n → (if x =? 0 then Ok n else signed 32 (n + x)) = signed 32 (n + x).
Proof.
  intros Hn. destruct (Z.eqb_spec x 0) as [->|]; [|reflexivity].
  rewrite Z.add_0_r. symmetry. exact Hn.
Qed.

Lemma signed_ok_value w x r : signed w x = Ok r → r = x.
Proof. unfold signed. destruct (_ && _); [intros [= <-]; reflexivity|discriminate]. Qed.

(** Adding an interval to a supported date first moves it by whole months in the calendar - the
    same day of the month, or the last one when the month is shorter, whatever the signs - and fails
    with a conversion error when that leaves the supported years; then it adds the days and the
    whole days of the microseconds, which overflow only where the 32-bit sum does. *)
Theorem add_interval_exact n y m d iv :
  convert n = Ok (y, m, d) →
  add_interval n iv =
    (let '(y', m', d') := date_after y m d (months iv) in
     if valid_date y' m' d' then
       r ← signed 32 (ordinal y' m' d' + idays iv);
       signed 32 (r + Z.quot (micros iv) MICROS_PER_DAY)
     else Throw (ConversionException "Date out of range")).
Proof.
  intros Hconv. pose proof Hconv as [Hv Hord]%convert_iff. pose proof Hv as [Hc Hy]%valid_date_civil.
  unfold add_interval.
  assert (Hbase : (if months iv =? 0 then Ok n else add_months n (months iv))
                  = (let '(y', m', d') := date_after y m d (months iv) in fromDate y' m' d')).
  { destruct (Z.eqb_spec (months iv) 0) as [->|_]; [|apply add_months_ok, Hconv].
    assert (Hsame : date_after y m d 0 = (y, m, d)).
    { unfold date_after, month_after. destruct Hc as [Hm Hd].
      replace (12 * y + (m - 1) + 0) with (m - 1 + y * 12) by lia.
      rewrite Z.div_add, Z_mod_plus_full, Z.div_small, Z.mod_small by lia.
      replace (0 + y) with y by lia. replace (m - 1 + 1) with m by lia. f_equal. lia. }
    rewrite Hsame, fromDate_ok, Hv, Hord. reflexivity. }
  rewrite Hbase. clear Hbase. pose proof (date_after_civil y m d (months iv) Hc) as Hc'.
  destruct (date_after y m d (months iv)) as [[y' m'] d']. cbn [fst snd] in Hc'.
  rewrite fromDate_ok. destruct (valid_date y' m' d') eqn:Hv'; [|reflexivity].
  rewrite outcome_bind_Ok. rewrite (valid_date_in_year _ _ _ Hc'), (ordinal_range _ _ _ Hc') in Hv'.
  apply andb_prop in Hv' as [H1%Z.leb_le H2%Z.leb_le].
  rewrite add_nonzero by (apply supported_day_int32; lia).
  destruct (signed 32 (ordinal y' m' d' + idays iv)) as [r|e] eqn:Hr; [|reflexivity].
  rewrite !outcome_bind_Ok. pose proof (signed_ok_value _ _ _ Hr) as ->.
  destruct (Z.eqb_spec (micros iv) 0) as [->|_]; [|reflexivity].
  cbn [Z.quot Z.quotrem fst]. rewrite Z.add_0_r. symmetry. exact Hr.
Qed.

Lemma add_interval_exact_witness : add_interval 18292 (mkInterval 13 1 0) = Ok 18687.
Proof.
  rewrite (add_interval_exact 18292 2020 1 31); [vm_compute; reflexivity|vm_compute; reflexivity].
Defined.

(** ** Truncation before the year 1 *)

(** [trunc] divides towards zero: the first day of the "decade" of a date in the years -9 to -1 is
    the first of January of the year 0, after the date. *)
Lemma trunc_decade_after_date :
  ∃ n t, fromDate (-5) 6 1 = Ok n ∧ trunc DECADE n = Ok t ∧ n < t.
Proof. exists (ordinal (-5) 6 1), (ordinal 0 1 1). split_and!; vm_compute; reflexivity. Qed.
