(* ===== verification/Int128.v ===== *)
(** * 128-bit integers

    common/types/int128_t.{h,cpp} and uint128_t.{h,cpp}: integers of two 64-bit halves, their arithmetic with its overflow checks, long division, shifts, bits,
    comparisons, casts and decimal digits. What the source compiles for compilers without a 128-bit type is here too. Casts from and to floating point are not. *)

From stdpp Require Import base numbers list strings pretty.
From Stdlib Require Import ZArith Lia.
From S2P Require Import Prelude Date.

#[local] Open Scope Z_scope.

(** ** Machine integers *)

Definition INT64_MIN : Z := - 2 ^ 63.
Definition INT64_MAX : Z := 2 ^ 63 - 1.
Definition UINT64_MAX : Z := 2 ^ 64 - 1.

(** The value of the lower bits as a signed integer. *)
Definition swrap (w x : Z) : Z := (x + 2 ^ (w - 1)) mod 2 ^ w - 2 ^ (w - 1).
(** A signed operation on 64 bits. *)
Definition s64 (x : Z) : outcome Z := Date.signed 64 x.
(** [std::countl_zero] *)
Definition countl_zero (x : Z) : Z := if x =? 0 then 64 else 63 - Z.log2 x.
(** [1ULL << bit] *)
Definition one_shl (bit : Z) : Z := uwrap 64 (Z.shiftl 1 bit).
Definition digit (d : Z) : string := String (Ascii.ascii_of_nat (48 + Z.to_nat d)) EmptyString.

(** The products of 32-bit pieces of two values, most significant first, put together again: the multiplication without a 128-bit type. The products with
    bits of [mask] above bit 96, or a sum with bits of [carry_mask], are overflows. *)
Section Limbs.
Variables (mask carry_mask : Z).
Definition limbs (hi lo : Z) : Z * Z * Z * Z := (Z.shiftr hi 32, Z.land hi (2 ^ 32 - 1), Z.shiftr lo 32, Z.land lo (2 ^ 32 - 1)).
Definition lo32 (x : Z) : Z := Z.land x (2 ^ 32 - 1).
Definition multiply_limbs (top bottom : Z * Z * Z * Z) : option (Z * Z) :=
  let '(t0, t1, t2, t3) := top in
  let '(b0, b1, b2, b3) := bottom in
  let p (x y : Z) := uwrap 64 (x * y) in
  if negb (p t0 b0 =? 0) || negb (p t0 b1 =? 0) || negb (p t0 b2 =? 0) || negb (p t1 b0 =? 0) || negb (p t2 b0 =? 0) || negb (p t1 b1 =? 0) then None
  else if negb (Z.land (p t0 b3) mask =? 0) || negb (Z.land (p t1 b2) mask =? 0) || negb (Z.land (p t2 b1) mask =? 0) || negb (Z.land (p t3 b0) mask =? 0) then None
  else
    let add (x y : Z) := uwrap 64 (x + y) in
    let fourth32 := lo32 (p t3 b3) in
    let third32 := add (lo32 (p t3 b2)) (Z.shiftr (p t3 b3) 32) in
    let second32 := add (lo32 (p t3 b1)) (Z.shiftr (p t3 b2) 32) in
    let first32 := add (lo32 (p t3 b0)) (Z.shiftr (p t3 b1) 32) in
    let third32 := add third32 (lo32 (p t2 b3)) in
    let second32 := add second32 (add (lo32 (p t2 b2)) (Z.shiftr (p t2 b3) 32)) in
    let first32 := add first32 (add (lo32 (p t2 b1)) (Z.shiftr (p t2 b2) 32)) in
    let second32 := add second32 (lo32 (p t1 b3)) in
    let first32 := add first32 (add (lo32 (p t1 b2)) (Z.shiftr (p t1 b3) 32)) in
    let first32 := add first32 (lo32 (p t0 b3)) in
    let third32 := add third32 (Z.shiftr fourth32 32) in
    let second32 := add second32 (Z.shiftr third32 32) in
    let first32 := add first32 (Z.shiftr second32 32) in
    if negb (Z.land first32 carry_mask =? 0) then None
    else
      let fourth32 := lo32 fourth32 in
      let third32 := lo32 third32 in
      let second32 := lo32 second32 in
      let first32 := lo32 first32 in
      Some (Z.lor (uwrap 64 (Z.shiftl third32 32)) fourth32, Z.lor (uwrap 64 (Z.shiftl first32 32)) second32).
End Limbs.

(** ** Signed *)

Module Int128.

Record int128_t := MkInt128 { low : Z; high : Z }.
#[global] Instance int128_eq_dec : EqDecision int128_t.
Proof. solve_decision. Defined.

(** [tryCastToTemplate]: the conversion of an integer of at most 64 bits. *)
Definition castTo (value : Z) : int128_t := MkInt128 (uwrap 64 value) (if value <? 0 then -1 else 0).

Definition positiveInt128BitsAmount (input : int128_t) : Z :=
  if negb (high input =? 0) then uwrap 8 (128 - countl_zero (uwrap 64 (high input))) else uwrap 8 (64 - countl_zero (low input)).
Definition positiveInt128IsBitSet (input : int128_t) (bit : Z) : bool :=
  if bit <? 64 then negb (Z.land (low input) (one_shl bit) =? 0) else negb (Z.land (uwrap 64 (high input)) (one_shl (bit - 64)) =? 0).
Definition positiveInt128LeftShift (lhs : int128_t) (amount : Z) : int128_t :=
  MkInt128 (uwrap 64 (Z.shiftl (low lhs) amount)) (swrap 64 (Z.shiftl (high lhs) amount + Z.shiftr (low lhs) (64 - amount))).

Fixpoint divModPositive_loop (i : nat) (lhs : int128_t) (rhs : Z) (result : int128_t) (remainder : Z) : outcome (int128_t * Z) :=
  match i with
  | O => Ok (result, remainder)
  | S i' =>
      let result := positiveInt128LeftShift result 1 in
      let remainder := uwrap 64 (Z.shiftl remainder 1) in
      let remainder := if positiveInt128IsBitSet lhs (Z.of_nat i') then uwrap 64 (remainder + 1) else remainder in
      if rhs <=? remainder then
        let remainder := remainder - rhs in
        let l := uwrap 64 (low result + 1) in
        h ← (if l =? 0 then s64 (high result + 1) else Ok (high result));
        divModPositive_loop i' lhs rhs (MkInt128 l h) remainder
      else divModPositive_loop i' lhs rhs result remainder
  end.
Definition divModPositive (lhs : int128_t) (rhs : Z) : outcome (int128_t * Z) :=
  divModPositive_loop (Z.to_nat (positiveInt128BitsAmount lhs)) lhs rhs (castTo 0) 0.

Definition cannot_negate : exn := OverflowException "INT128 is out of range: cannot negate INT128_MIN".
Definition negateInPlace (input : int128_t) : outcome int128_t :=
  if (high input =? INT64_MIN) && (low input =? 0) then Throw cannot_negate
  else
    let l := uwrap 64 (UINT64_MAX + 1 - low input) in
    a ← s64 (- high input);
    b ← s64 (a - 1);
    c ← s64 (b + if l =? 0 then 1 else 0);
    Ok (MkInt128 l c).

Definition negate (input : int128_t) : outcome int128_t := negateInPlace input.

(** The digits that the loop puts before [result]; 128 bits have at most 39. *)
Fixpoint toString_loop (fuel : nat) (input : int128_t) (result : string) : outcome string :=
  if negb (high input =? 0) || negb (low input =? 0) then
    match fuel with
    | O => Throw (UndefinedBehaviour "the loop does not end")
    | S fuel' => '(q, r) ← divModPositive input 10; toString_loop fuel' q (digit r +:+ result)
    end
  else Ok result.
Definition digits (input : int128_t) : outcome string :=
  s ← toString_loop 40 input "";
  Ok (if String.eqb s "" then "0" else s).
(** The operand of the first branch is [INT128_MIN], whose tenth is positive: the recursive call takes the last branch. *)
Definition toString (input : int128_t) : outcome string :=
  if (high input =? INT64_MIN) && (low input =? 0) then
    '(quotient, remainder) ← divModPositive input 10;
    s ← digits quotient;
    Ok ("-" +:+ (s +:+ digit remainder))
  else if high input <? 0 then
    n ← negateInPlace input;
    s ← digits n;
    Ok ("-" +:+ s)
  else digits input.

(** Whether there is no overflow, and the left operand afterwards. *)
Definition addInPlace (lhs rhs : int128_t) : outcome (bool * int128_t) :=
  let lhsPositive := 0 <=? high lhs in
  let rhsPositive := 0 <=? high rhs in
  let overflow := if uwrap 64 (low lhs + low rhs) <? low lhs then 1 else 0 in
  limit ← (if 0 <=? high rhs then a ← s64 (INT64_MAX - high rhs); s64 (a - overflow) else a ← s64 (INT64_MIN - high rhs); s64 (a - overflow));
  if (if 0 <=? high rhs then limit <? high lhs else high lhs <? limit) then Ok (false, lhs)
  else
    a ← s64 (high lhs + high rhs);
    h ← s64 (a + overflow);
    let r := MkInt128 (uwrap 64 (low lhs + low rhs)) h in
    Ok (negb (lhsPositive && rhsPositive && (high r =? INT64_MIN) && (low r =? 0)), r).

Definition subInPlace (lhs rhs : int128_t) : outcome (bool * int128_t) :=
  let underflow := if low lhs <? uwrap 64 (low lhs - low rhs) then 1 else 0 in
  out ← (if 0 <=? high rhs then a ← s64 (INT64_MIN + high rhs); b ← s64 (a + underflow); Ok (high lhs <? b)
         else if INT64_MIN <? high lhs then c ← s64 (high lhs - 1); a ← s64 (INT64_MAX + high rhs); b ← s64 (a + underflow); Ok (b <=? c)
         else Ok false);
  if (out : bool) then Ok (false, lhs)
  else
    a ← s64 (high lhs - high rhs);
    h ← s64 (a - underflow);
    let r := MkInt128 (uwrap 64 (low lhs - low rhs)) h in
    Ok (negb ((high r =? INT64_MIN) && (low r =? 0)), r).

Definition Add (lhs rhs : int128_t) : outcome int128_t :=
  '(ok, r) ← addInPlace lhs rhs; if (ok : bool) then Ok r else Throw (OverflowException "INT128 is out of range: cannot add.").
Definition Sub (lhs rhs : int128_t) : outcome int128_t :=
  '(ok, r) ← subInPlace lhs rhs; if (ok : bool) then Ok r else Throw (OverflowException "INT128 is out of range: cannot subtract.").

(** [operator+=] *)
Definition add_assign (lhs rhs : int128_t) : outcome int128_t :=
  '(ok, r) ← addInPlace lhs rhs; if (ok : bool) then Ok r else Throw (OverflowException "INT128 is out of range: cannot add in place.").

(** The factors without their signs, and whether the product is negative. *)
Definition magnitudes (lhs rhs : int128_t) : outcome (int128_t * int128_t * bool) :=
  let lhs_negative := high lhs <? 0 in
  let rhs_negative := high rhs <? 0 in
  l ← (if lhs_negative then negateInPlace lhs else Ok lhs);
  r ← (if rhs_negative then negateInPlace rhs else Ok rhs);
  Ok (l, r, xorb lhs_negative rhs_negative).
Definition with_sign (negative : bool) (r : int128_t) : outcome (bool * int128_t) := r' ← (if negative then negateInPlace r else Ok r); Ok (true, r').
(** With a 128-bit type. *)
Definition tryMultiply (lhs rhs result : int128_t) : outcome (bool * int128_t) :=
  '(l, r, negative) ← magnitudes lhs rhs;
  let left := uwrap 128 (low l + Z.shiftl (high l) 64) in
  let right := uwrap 128 (low r + Z.shiftl (high r) 64) in
  if 2 ^ 128 <=? left * right then Ok (false, result)
  else
    let h := uwrap 64 (Z.shiftr (left * right) 64) in
    if negb (Z.land h (2 ^ 63) =? 0) then Ok (false, result)
    else with_sign negative (MkInt128 (Z.land (left * right) UINT64_MAX) (swrap 64 h)).
(** Without one. *)
Definition tryMultiply_portable (lhs rhs result : int128_t) : outcome (bool * int128_t) :=
  '(l, r, negative) ← magnitudes lhs rhs;
  match multiply_limbs (2 ^ 64 - 2 ^ 31) (2 ^ 56 - 2 ^ 31) (limbs (uwrap 64 (high l)) (low l)) (limbs (uwrap 64 (high r)) (low r)) with
  | None => Ok (false, result)
  | Some (lo, hi) => with_sign negative (MkInt128 lo (swrap 64 hi))
  end.
Definition Mul (lhs rhs : int128_t) : outcome int128_t :=
  '(ok, r) ← tryMultiply lhs rhs (castTo 0); if (ok : bool) then Ok r else Throw (OverflowException "INT128 is out of range: cannot multiply.").

Definition equals (lhs rhs : int128_t) : bool := (low lhs =? low rhs) && (high lhs =? high rhs).
Definition notEquals (lhs rhs : int128_t) : bool := negb (low lhs =? low rhs) || negb (high lhs =? high rhs).
Definition greaterThan (lhs rhs : int128_t) : bool := (high rhs <? high lhs) || ((high lhs =? high rhs) && (low rhs <? low lhs)).
Definition greaterThanOrEquals (lhs rhs : int128_t) : bool := (high rhs <? high lhs) || ((high lhs =? high rhs) && (low rhs <=? low lhs)).
Definition lessThan (lhs rhs : int128_t) : bool := (high lhs <? high rhs) || ((high lhs =? high rhs) && (low lhs <? low rhs)).
Definition lessThanOrEquals (lhs rhs : int128_t) : bool := (high lhs <? high rhs) || ((high lhs =? high rhs) && (low lhs <=? low rhs)).

Fixpoint divMod_loop (x : nat) (lhs rhs div_result remainder : int128_t) : outcome (int128_t * int128_t) :=
  match x with
  | O => Ok (div_result, remainder)
  | S x' =>
      let div_result := positiveInt128LeftShift div_result 1 in
      let remainder := positiveInt128LeftShift remainder 1 in
      remainder ← (if positiveInt128IsBitSet lhs (Z.of_nat x') then '(_, r) ← addInPlace remainder (castTo 1); Ok r else Ok remainder);
      if greaterThanOrEquals remainder rhs then
        remainder ← Sub remainder rhs;
        '(_, div_result) ← addInPlace div_result (castTo 1);
        divMod_loop x' lhs rhs div_result remainder
      else divMod_loop x' lhs rhs div_result remainder
  end.
Definition divMod (lhs rhs : int128_t) : outcome (int128_t * int128_t) :=
  let lhs_negative := high lhs <? 0 in
  let rhs_negative := high rhs <? 0 in
  l ← (if lhs_negative then negateInPlace lhs else Ok lhs);
  r ← (if rhs_negative then negateInPlace rhs else Ok rhs);
  '(div_result, remainder) ← divMod_loop (Z.to_nat (positiveInt128BitsAmount l)) l r (castTo 0) (castTo 0);
  div_result ← (if xorb lhs_negative rhs_negative then negateInPlace div_result else Ok div_result);
  remainder ← (if lhs_negative then negateInPlace remainder else Ok remainder);
  Ok (div_result, remainder).
Definition Div (lhs rhs : int128_t) : outcome int128_t :=
  if (high rhs =? 0) && (low rhs =? 0) then Throw (RuntimeException "Divide by zero.") else '(q, _) ← divMod lhs rhs; Ok q.
Definition Mod (lhs rhs : int128_t) : outcome int128_t :=
  if (high rhs =? 0) && (low rhs =? 0) then Throw (RuntimeException "Modulo by zero.") else '(_, r) ← divMod lhs rhs; Ok r.

Definition Xor (lhs rhs : int128_t) : int128_t := MkInt128 (Z.lxor (low lhs) (low rhs)) (Z.lxor (high lhs) (high rhs)).
Definition BinaryAnd (lhs rhs : int128_t) : int128_t := MkInt128 (Z.land (low lhs) (low rhs)) (Z.land (high lhs) (high rhs)).
Definition BinaryOr (lhs rhs : int128_t) : int128_t := MkInt128 (Z.lor (low lhs) (low rhs)) (Z.lor (high lhs) (high rhs)).
Definition BinaryNot (val : int128_t) : int128_t := MkInt128 (uwrap 64 (Z.lnot (low val))) (Z.lnot (high val)).

(** A shift of a 64-bit operand by its width or more is undefined. *)
Definition shift64 {A} (amount : Z) (x : A) : outcome A := if (0 <=? amount) && (amount <? 64) then Ok x else Throw (UndefinedBehaviour "shift by the width of the operand or more").
Definition LeftShift (lhs : int128_t) (amount : Z) : outcome int128_t :=
  if 64 <=? amount then shift64 (amount - 64) (MkInt128 0 (swrap 64 (Z.shiftl (low lhs) (amount - 64))))
  else if amount =? 0 then Ok lhs
  else shift64 amount (MkInt128 (uwrap 64 (Z.shiftl (low lhs) amount)) (Z.lor (swrap 64 (Z.shiftl (high lhs) amount)) (swrap 64 (Z.shiftr (low lhs) (64 - amount))))).
Definition RightShift (lhs : int128_t) (amount : Z) : outcome int128_t :=
  if 64 <=? amount then shift64 (amount - 64) (MkInt128 (uwrap 64 (Z.shiftr (high lhs) (amount - 64))) (Z.shiftr (high lhs) 63))
  else if amount =? 0 then Ok lhs
  else shift64 amount (MkInt128 (Z.lor (Z.shiftr (low lhs) amount) (uwrap 64 (Z.shiftl (high lhs) (64 - amount)))) (Z.shiftr (high lhs) amount)).

(** [TryCastInt128Template] for an integer type with this maximum. *)
Definition tryCast (SIGNED : bool) (maximum : Z) (input : int128_t) : outcome (option Z) :=
  if high input =? 0 then Ok (if low input <=? maximum then Some (low input) else None)
  else if high input =? -1 then
    if negb SIGNED then s ← toString input; Throw (OverflowException ("Cast failed. Cannot cast " +:+ s +:+ " to unsigned type."))
    else Ok (if UINT64_MAX - maximum <=? low input then Some (- (UINT64_MAX - low input) - 1) else None)
  else Ok None.
(** [NarrowCast] to an unsigned type of this width; a signed one has the same bits. *)
Definition NarrowCast (w : Z) (input : int128_t) : Z := uwrap w (low input).
End Int128.

(** ** Unsigned *)

Module UInt128.

Record uint128_t := MkUInt128 { low : Z; high : Z }.
#[global] Instance uint128_eq_dec : EqDecision uint128_t.
Proof. solve_decision. Defined.

Definition castTo (value : Z) : outcome uint128_t := if value <? 0 then Throw (OverflowException "Cannot cast negative value to UINT128.") else Ok (MkUInt128 (uwrap 64 value) 0).
Definition zero : uint128_t := MkUInt128 0 0.
Definition one : uint128_t := MkUInt128 1 0.

Definition uint128BitsAmount (input : uint128_t) : Z :=
  if negb (high input =? 0) then uwrap 8 (128 - countl_zero (high input)) else uwrap 8 (64 - countl_zero (low input)).
Definition uint128IsBitSet (input : uint128_t) (bit : Z) : bool :=
  if bit <? 64 then negb (Z.land (low input) (one_shl bit) =? 0) else negb (Z.land (high input) (one_shl (bit - 64)) =? 0).
Definition uint128LeftShift (lhs : uint128_t) (amount : Z) : uint128_t :=
  MkUInt128 (uwrap 64 (Z.shiftl (low lhs) amount)) (uwrap 64 (Z.shiftl (high lhs) amount + Z.shiftr (low lhs) (64 - amount))).

Fixpoint divModPositive_loop (i : nat) (lhs : uint128_t) (rhs : Z) (result : uint128_t) (remainder : Z) : uint128_t * Z :=
  match i with
  | O => (result, remainder)
  | S i' =>
      let result := uint128LeftShift result 1 in
      let remainder := uwrap 64 (Z.shiftl remainder 1) in
      let remainder := if uint128IsBitSet lhs (Z.of_nat i') then uwrap 64 (remainder + 1) else remainder in
      if rhs <=? remainder then
        let remainder := remainder - rhs in
        let l := uwrap 64 (low result + 1) in
        let h := if l =? 0 then uwrap 64 (high result + 1) else high result in
        divModPositive_loop i' lhs rhs (MkUInt128 l h) remainder
      else divModPositive_loop i' lhs rhs result remainder
  end.
Definition divModPositive (lhs : uint128_t) (rhs : Z) : uint128_t * Z := divModPositive_loop (Z.to_nat (uint128BitsAmount lhs)) lhs rhs zero 0.

Definition negateInPlace (input : uint128_t) : uint128_t :=
  let l := uwrap 64 (UINT64_MAX + 1 - low input) in
  MkUInt128 l (uwrap 64 (- high input - 1 + if l =? 0 then 1 else 0)).

Definition negate (input : uint128_t) : uint128_t := negateInPlace input.

Fixpoint toString_loop (fuel : nat) (input : uint128_t) (result : string) : outcome string :=
  if negb (high input =? 0) || negb (low input =? 0) then
    match fuel with
    | O => Throw (UndefinedBehaviour "the loop does not end")
    | S fuel' => let '(q, r) := divModPositive input 10 in toString_loop fuel' q (digit r +:+ result)
    end
  else Ok result.
Definition toString (input : uint128_t) : outcome string :=
  s ← toString_loop 40 input "";
  Ok (if String.eqb s "" then "0" else s).

Definition lessThan (lhs rhs : uint128_t) : bool := (high lhs <? high rhs) || ((high lhs =? high rhs) && (low lhs <? low rhs)).
Definition lessThanOrEquals (lhs rhs : uint128_t) : bool := (high lhs <? high rhs) || ((high lhs =? high rhs) && (low lhs <=? low rhs)).
Definition greaterThan (lhs rhs : uint128_t) : bool := (high rhs <? high lhs) || ((high lhs =? high rhs) && (low rhs <? low lhs)).
Definition greaterThanOrEquals (lhs rhs : uint128_t) : bool := (high rhs <? high lhs) || ((high lhs =? high rhs) && (low rhs <=? low lhs)).
Definition equals (lhs rhs : uint128_t) : bool := (low lhs =? low rhs) && (high lhs =? high rhs).
Definition notEquals (lhs rhs : uint128_t) : bool := negb (low lhs =? low rhs) || negb (high lhs =? high rhs).

Definition addInPlace (lhs rhs : uint128_t) : bool * uint128_t :=
  let overflow := if uwrap 64 (low lhs + low rhs) <? low lhs then 1 else 0 in
  if (uwrap 64 (UINT64_MAX - high rhs - overflow) <? high lhs) || ((high rhs =? UINT64_MAX) && negb (uwrap 64 (high lhs + overflow) =? 0)) then (false, lhs)
  else (true, MkUInt128 (uwrap 64 (low lhs + low rhs)) (uwrap 64 (high lhs + high rhs + overflow))).
Definition subInPlace (lhs rhs : uint128_t) : bool * uint128_t :=
  if lessThan lhs rhs then (false, lhs)
  else
    let underflow := if low lhs <? uwrap 64 (low lhs - low rhs) then 1 else 0 in
    (true, MkUInt128 (uwrap 64 (low lhs - low rhs)) (uwrap 64 (high lhs - high rhs - underflow))).
Definition Add (lhs rhs : uint128_t) : outcome uint128_t :=
  let '(ok, r) := addInPlace lhs rhs in if (ok : bool) then Ok r else Throw (OverflowException "UINT128 is out of range: cannot add.").
Definition Sub (lhs rhs : uint128_t) : outcome uint128_t :=
  let '(ok, r) := subInPlace lhs rhs in if (ok : bool) then Ok r else Throw (OverflowException "UINT128 is out of range: cannot subtract.").

Definition add_assign (lhs rhs : uint128_t) : outcome uint128_t :=
  let '(ok, r) := addInPlace lhs rhs in if (ok : bool) then Ok r else Throw (OverflowException "UINT128 is out of range: cannot add in place.").

Definition tryMultiply (lhs rhs result : uint128_t) : bool * uint128_t :=
  let left := uwrap 128 (low lhs + Z.shiftl (high lhs) 64) in
  let right := uwrap 128 (low rhs + Z.shiftl (high rhs) 64) in
  if 2 ^ 128 <=? left * right then (false, result)
  else (true, MkUInt128 (Z.land (left * right) UINT64_MAX) (uwrap 64 (Z.shiftr (left * right) 64))).
Definition tryMultiply_portable (lhs rhs result : uint128_t) : bool * uint128_t :=
  match multiply_limbs (2 ^ 64 - 2 ^ 32) (2 ^ 56 - 2 ^ 32) (limbs (high lhs) (low lhs)) (limbs (high rhs) (low rhs)) with
  | None => (false, result)
  | Some (lo, hi) => (true, MkUInt128 lo hi)
  end.
Definition Mul (lhs rhs : uint128_t) : outcome uint128_t :=
  let '(ok, r) := tryMultiply lhs rhs zero in if (ok : bool) then Ok r else Throw (OverflowException "UINT128 is out of range: cannot multiply.").

Fixpoint divMod_loop (x : nat) (lhs rhs div_result remainder : uint128_t) : outcome (uint128_t * uint128_t) :=
  match x with
  | O => Ok (div_result, remainder)
  | S x' =>
      let div_result := uint128LeftShift div_result 1 in
      let remainder := uint128LeftShift remainder 1 in
      let remainder := if uint128IsBitSet lhs (Z.of_nat x') then (addInPlace remainder one).2 else remainder in
      if greaterThanOrEquals remainder rhs then
        remainder ← Sub remainder rhs;
        divMod_loop x' lhs rhs (addInPlace div_result one).2 remainder
      else divMod_loop x' lhs rhs div_result remainder
  end.
Definition divMod (lhs rhs : uint128_t) : outcome (uint128_t * uint128_t) := divMod_loop (Z.to_nat (uint128BitsAmount lhs)) lhs rhs zero zero.
Definition Div (lhs rhs : uint128_t) : outcome uint128_t :=
  if (high rhs =? 0) && (low rhs =? 0) then Throw (RuntimeException "Divide by zero.") else '(q, _) ← divMod lhs rhs; Ok q.
Definition Mod (lhs rhs : uint128_t) : outcome uint128_t :=
  if (high rhs =? 0) && (low rhs =? 0) then Throw (RuntimeException "Modulo by zero.") else '(_, r) ← divMod lhs rhs; Ok r.

Definition Xor (lhs rhs : uint128_t) : uint128_t := MkUInt128 (Z.lxor (low lhs) (low rhs)) (Z.lxor (high lhs) (high rhs)).
Definition BinaryAnd (lhs rhs : uint128_t) : uint128_t := MkUInt128 (Z.land (low lhs) (low rhs)) (Z.land (high lhs) (high rhs)).
Definition BinaryOr (lhs rhs : uint128_t) : uint128_t := MkUInt128 (Z.lor (low lhs) (low rhs)) (Z.lor (high lhs) (high rhs)).
Definition BinaryNot (val : uint128_t) : uint128_t := MkUInt128 (uwrap 64 (Z.lnot (low val))) (uwrap 64 (Z.lnot (high val))).
Definition LeftShift (lhs : uint128_t) (amount : Z) : outcome uint128_t :=
  if 64 <=? amount then Int128.shift64 (amount - 64) (MkUInt128 0 (uwrap 64 (Z.shiftl (low lhs) (amount - 64))))
  else if amount =? 0 then Ok lhs
  else Int128.shift64 amount (MkUInt128 (uwrap 64 (Z.shiftl (low lhs) amount)) (Z.lor (uwrap 64 (Z.shiftl (high lhs) amount)) (Z.shiftr (low lhs) (64 - amount)))).
Definition RightShift (lhs : uint128_t) (amount : Z) : outcome uint128_t :=
  if 64 <=? amount then Int128.shift64 (amount - 64) (MkUInt128 (Z.shiftr (high lhs) (amount - 64)) 0)
  else if amount =? 0 then Ok lhs
  else Int128.shift64 amount (MkUInt128 (Z.lor (Z.shiftr (low lhs) amount) (uwrap 64 (Z.shiftl (high lhs) (64 - amount)))) (Z.shiftr (high lhs) amount)).

Definition tryCast (maximum : Z) (input : uint128_t) : option Z := if (high input =? 0) && (low input <=? maximum) then Some (low input) else None.
Definition NarrowCast (w : Z) (input : uint128_t) : Z := uwrap w (low input).

(** Between the two. *)
Definition toSigned (input : uint128_t) : option Int128.int128_t := if INT64_MAX <? high input then None else Some (Int128.MkInt128 (low input) (high input)).
Definition ofSigned (input : Int128.int128_t) : option uint128_t := if Int128.high input <? 0 then None else Some (MkUInt128 (Int128.low input) (uwrap 64 (Int128.high input))).
(** [uint128_t::operator int128_t] and [int128_t::operator uint128_t] *)
Definition to_int128 (input : uint128_t) : outcome Int128.int128_t :=
  match toSigned input with Some r => Ok r | None => s ← toString input; Throw (OverflowException ("Value " +:+ s +:+ " is not within INT128 range.")) end.
Definition to_uint128 (input : Int128.int128_t) : outcome uint128_t :=
  match ofSigned input with Some r => Ok r | None => s ← Int128.toString input; Throw (OverflowException ("Cannot cast negative INT128 value " +:+ s +:+ " to UINT128")) end.
End UInt128.
