(* ===== verification/Int128Spec.v ===== *)
(** * What 128-bit integers stand for

    The value of two halves, and what the steps of the arithmetic do to it: carries, shifts by one, bits, and one step of long division. *)

From stdpp Require Import base numbers list strings pretty.
From Stdlib Require Import ZArith Lia.
From S2P Require Import Prelude Date Int128.

#[local] Open Scope Z_scope.

(** Arithmetic with 64-bit constants. *)
Ltac consts :=
  unfold INT64_MIN, INT64_MAX, UINT64_MAX in *; change (2 ^ 128) with 340282366920938463463374607431768211456 in *; change (2 ^ 127) with 170141183460469231731687303715884105728 in *;
  change (2 ^ 64) with 18446744073709551616 in *; change (2 ^ 63) with 9223372036854775808 in *; change (2 ^ 32) with 4294967296 in *; change (2 ^ 31) with 2147483648 in *.
Ltac arith := consts; try (Z.div_mod_to_equations; lia).

Lemma s64_ok x : - 2 ^ 63 ≤ x < 2 ^ 63 → s64 x = Ok x.
Proof. intros H. unfold s64, Date.signed. change (64 - 1) with 63. rewrite (proj2 (Z.leb_le _ _)), (proj2 (Z.ltb_lt _ _)) by lia. reflexivity. Qed.
Lemma s64_out x : x < - 2 ^ 63 ∨ 2 ^ 63 ≤ x → s64 x = Throw (UndefinedBehaviour "signed integer overflow").
Proof. intros H. unfold s64, Date.signed. change (64 - 1) with 63. destruct (Z.leb_spec (- 2 ^ 63) x), (Z.ltb_spec x (2 ^ 63)); try lia; reflexivity. Qed.

Lemma swrap_small x : - 2 ^ 63 ≤ x < 2 ^ 63 → swrap 64 x = x.
Proof. intros H. unfold swrap. change (64 - 1) with 63. rewrite Z.mod_small by arith. lia. Qed.

(** ** Bits *)

Lemma one_shl_pow i : 0 ≤ i < 64 → one_shl i = 2 ^ i.
Proof. intros Hi. unfold one_shl. rewrite Z.shiftl_1_l. apply uwrap_small. split; [apply Z.pow_nonneg; lia|apply Z.pow_lt_mono_r; lia]. Qed.

Lemma land_pow2 a i : 0 ≤ i → negb (Z.land a (2 ^ i) =? 0) = Z.testbit a i.
Proof.
  intros Hi. destruct (Z.testbit a i) eqn:Hb.
  - apply negb_true_iff, Z.eqb_neq. intros E. assert (Ht : Z.testbit (Z.land a (2 ^ i)) i = true) by (rewrite Z.land_spec, Hb, Z.pow2_bits_true by exact Hi; reflexivity). rewrite E, Z.bits_0 in Ht. discriminate Ht.
  - apply negb_false_iff, Z.eqb_eq. apply Z.bits_inj'. intros j Hj. rewrite Z.bits_0, Z.land_spec. destruct (decide (j = i)) as [->|Hne]; [rewrite Hb; reflexivity|]. rewrite Z.pow2_bits_false by congruence. apply andb_false_r.
Qed.

Lemma testbit_halves l h i : 0 ≤ l < 2 ^ 64 → 0 ≤ i → Z.testbit (h * 2 ^ 64 + l) i = if i <? 64 then Z.testbit l i else Z.testbit h (i - 64).
Proof.
  intros Hl Hi. destruct (Z.ltb_spec i 64) as [Hlt|Hge].
  - rewrite <- (Z.mod_pow2_bits_low _ 64 i) by lia. rewrite Z.add_comm, Z.mod_add, Z.mod_small by lia. reflexivity.
  - replace i with (i - 64 + 64) at 1 by lia. rewrite <- (Z.div_pow2_bits (h * 2 ^ 64 + l) 64 (i - 64)) by lia. rewrite Z.div_add_l, Z.div_small, Z.add_0_r by lia. reflexivity.
Qed.

(** The value without its lowest bits, one bit more at a time. *)
Lemma prefix_step z (i : nat) : z / 2 ^ Z.of_nat i = 2 * (z / 2 ^ Z.of_nat (S i)) + Z.b2z (Z.testbit z (Z.of_nat i)).
Proof.
  rewrite Nat2Z.inj_succ, Z.pow_succ_r by lia. rewrite (Z.mul_comm 2 (2 ^ _)), <- (Z.div_div z (2 ^ Z.of_nat i) 2) by lia. rewrite Z.testbit_odd, Z.shiftr_div_pow2 by lia. rewrite <- (Z.div2_div (z / _)). apply Z.div2_odd.
Qed.
Lemma prefix_le z (i : nat) : 0 ≤ z → 0 ≤ z / 2 ^ Z.of_nat i ≤ z.
Proof. intros Hz. split; [apply Z.div_pos; lia|]. apply Z.div_le_upper_bound; [lia|]. assert (1 ≤ 2 ^ Z.of_nat i) by (apply (Z.pow_le_mono_r 2 0); lia). nia. Qed.

Lemma divide_step P b B : 0 < B → 0 ≤ b ≤ 1 → 0 ≤ P →
  let r := 2 * (P mod B) + b in
  if B <=? r then (2 * P + b) / B = 2 * (P / B) + 1 ∧ (2 * P + b) mod B = r - B else (2 * P + b) / B = 2 * (P / B) ∧ (2 * P + b) mod B = r.
Proof.
  intros HB Hb HP r. pose proof (Z.div_mod P B ltac:(lia)) as E. pose proof (Z.mod_pos_bound P B HB) as Hr. unfold r. destruct (Z.leb_spec B (2 * (P mod B) + b)) as [Hle|Hlt].
  - split; symmetry; [apply (Z.div_unique _ _ _ (2 * (P mod B) + b - B))|apply (Z.mod_unique _ _ (2 * (P / B) + 1))]; lia.
  - split; symmetry; [apply (Z.div_unique _ _ _ (2 * (P mod B) + b))|apply (Z.mod_unique _ _ (2 * (P / B)))]; lia.
Qed.

Lemma countl_zero_spec x : 0 ≤ x < 2 ^ 64 → 0 ≤ countl_zero x ≤ 64 ∧ x < 2 ^ (64 - countl_zero x).
Proof.
  intros Hx. unfold countl_zero. destruct (Z.eqb_spec x 0) as [->|Hne]; [split; [lia|reflexivity]|]. pose proof (Z.log2_spec x ltac:(lia)) as [H1 H2]. pose proof (Z.log2_nonneg x). assert (Z.log2 x < 64) by (apply Z.log2_lt_pow2; lia). split; [lia|]. replace (64 - (63 - Z.log2 x)) with (Z.succ (Z.log2 x)) by lia. exact H2.
Qed.

(** ** Multiplication in pieces *)

Ltac pows := repeat match goal with |- context [2 ^ Z.pos ?n] => let v := eval vm_compute in (2 ^ Z.pos n) in change (2 ^ Z.pos n) with v | H : context [2 ^ Z.pos ?n] |- _ => let v := eval vm_compute in (2 ^ Z.pos n) in change (2 ^ Z.pos n) with v in H end; change (2 ^ 0) with 1 in *.


Lemma land_top w k p : 0 ≤ k ≤ w → 0 ≤ p < 2 ^ w → negb (Z.land p (2 ^ w - 2 ^ k) =? 0) = (2 ^ k <=? p).
Proof.
  intros Hk Hp. assert (Hpow : 0 < 2 ^ k) by (apply Z.pow_pos_nonneg; lia). assert (E : Z.land p (2 ^ w - 2 ^ k) = p / 2 ^ k * 2 ^ k).
  { replace (2 ^ w - 2 ^ k) with (Z.shiftl (Z.ones (w - k)) k) by (rewrite Z.shiftl_mul_pow2, Z.ones_equiv, <- Z.sub_1_r, Z.mul_sub_distr_r, <- Z.pow_add_r by lia; f_equal; [f_equal; lia|lia]).
    rewrite <- Z.shiftr_div_pow2, <- Z.shiftl_mul_pow2 by lia. apply Z.bits_inj'. intros j Hj. rewrite Z.land_spec, !Z.shiftl_spec by lia. destruct (Z.ltb_spec j k) as [Hlt|Hge].
    - rewrite !(Z.testbit_neg_r _ (j - k)) by lia. apply andb_false_r.
    - rewrite Z.shiftr_spec by lia. replace (j - k + k) with j by lia. destruct (Z.ltb_spec j w) as [Hw|Hw]; [rewrite Z.ones_spec_low by lia; apply andb_true_r|]. rewrite Z.ones_spec_high by lia. rewrite andb_false_r. symmetry. destruct (decide (p = 0)) as [->|Hne]; [apply Z.bits_0|]. apply Z.bits_above_log2; [lia|]. assert (Z.log2 p < w) by (apply Z.log2_lt_pow2; lia). lia. }
  rewrite E. destruct (Z.leb_spec (2 ^ k) p) as [Hle|Hlt]; [apply negb_true_iff, Z.eqb_neq|apply negb_false_iff, Z.eqb_eq].
  - assert (1 ≤ p / 2 ^ k) by (apply Z.div_le_lower_bound; lia). nia.
  - rewrite Z.div_small by lia. reflexivity.
Qed.

Lemma lo32_mod x : lo32 x = x mod 2 ^ 32.
Proof. unfold lo32. change (2 ^ 32 - 1) with (Z.ones 32). apply Z.land_ones. lia. Qed.
Lemma hi32_div x : Z.shiftr x 32 = x / 2 ^ 32.
Proof. apply Z.shiftr_div_pow2. lia. Qed.
Lemma lor_halves a b : 0 ≤ b < 2 ^ 32 → 0 ≤ a < 2 ^ 32 → Z.lor (uwrap 64 (Z.shiftl a 32)) b = a * 2 ^ 32 + b.
Proof.
  intros Hb Ha. rewrite Z.shiftl_mul_pow2, uwrap_small by (consts; lia). rewrite <- (Z.shiftl_mul_pow2 a 32) by lia. apply Z.bits_inj'. intros j Hj. rewrite Z.lor_spec, Z.shiftl_spec by lia. rewrite Z.shiftl_mul_pow2 by lia. destruct (Z.ltb_spec j 32) as [Hlt|Hge].
  - rewrite (Z.testbit_neg_r a) by lia. cbn [orb]. rewrite <- (Z.mod_pow2_bits_low (a * 2 ^ 32 + b) 32 j) by lia. rewrite Z.add_comm, Z.mod_add, Z.mod_small by lia. reflexivity.
  - assert (Eb : Z.testbit b j = false). { destruct (decide (b = 0)) as [->|Hne]; [apply Z.bits_0|]. apply Z.bits_above_log2; [lia|]. assert (Z.log2 b < 32) by (apply Z.log2_lt_pow2; lia). lia. }
    rewrite Eb, orb_false_r. replace j with (j - 32 + 32) at 2 by lia. rewrite <- (Z.div_pow2_bits _ 32 (j - 32)) by lia. rewrite Z.div_add_l, Z.div_small, Z.add_0_r by lia. reflexivity.
Qed.

Definition is_limb (x : Z) : Prop := 0 ≤ x < 2 ^ 32.
Definition of_limbs (t : Z * Z * Z * Z) : Z := let '(t0, t1, t2, t3) := t in t0 * 2 ^ 96 + t1 * 2 ^ 64 + t2 * 2 ^ 32 + t3.

Lemma limb_product x y : is_limb x → is_limb y → 0 ≤ x * y ≤ (2 ^ 32 - 1) * (2 ^ 32 - 1) ∧ uwrap 64 (x * y) = x * y.
Proof. unfold is_limb. intros Hx Hy. assert (H : 0 ≤ x * y ≤ (2 ^ 32 - 1) * (2 ^ 32 - 1)) by nia. split; [exact H|]. apply uwrap_small. consts. lia. Qed.

(** A product as two pieces. *)
Lemma pieces p : 0 ≤ p ≤ (2 ^ 32 - 1) * (2 ^ 32 - 1) → ∃ h l, lo32 p = l ∧ Z.shiftr p 32 = h ∧ p = h * 2 ^ 32 + l ∧ 0 ≤ l < 2 ^ 32 ∧ 0 ≤ h < 2 ^ 32.
Proof. intros Hp. exists (p / 2 ^ 32), (p mod 2 ^ 32). rewrite lo32_mod, hi32_div. split_and!; try reflexivity; arith. Qed.

(** The sums of the pieces, for products that are linear unknowns. *)
Lemma sum_limbs (K p33 p32 p31 p30 p23 p22 p21 p13 p12 p03 : Z) (S := p33 + (p32 + p23) * 2 ^ 32 + (p31 + p22 + p13) * 2 ^ 64 + (p30 + p21 + p12 + p03) * 2 ^ 96) (m := (2 ^ 32 - 1) * (2 ^ 32 - 1)) :
  K ≤ 2 ^ 32 → 0 ≤ p33 ≤ m → 0 ≤ p32 ≤ m → 0 ≤ p31 ≤ m → 0 ≤ p23 ≤ m → 0 ≤ p22 ≤ m → 0 ≤ p13 ≤ m → 0 ≤ p30 < K → 0 ≤ p21 < K → 0 ≤ p12 < K → 0 ≤ p03 < K →
  let add (x y : Z) := uwrap 64 (x + y) in
  let fourth32 := lo32 p33 in
  let third32 := add (add (add (lo32 p32) (Z.shiftr p33 32)) (lo32 p23)) (Z.shiftr fourth32 32) in
  let second32 := add (add (add (add (lo32 p31) (Z.shiftr p32 32)) (add (lo32 p22) (Z.shiftr p23 32))) (lo32 p13)) (Z.shiftr third32 32) in
  let first32 := add (add (add (add (add (lo32 p30) (Z.shiftr p31 32)) (add (lo32 p21) (Z.shiftr p22 32))) (add (lo32 p12) (Z.shiftr p13 32))) (lo32 p03)) (Z.shiftr second32 32) in
  0 ≤ first32 < 2 ^ 56 ∧ S = lo32 fourth32 + lo32 third32 * 2 ^ 32 + lo32 second32 * 2 ^ 64 + first32 * 2 ^ 96.
Proof.
  intros HK B1 B2 B3 B4 B5 B6 B7 B8 B9 B10. unfold S, m in *. clear S m.
  destruct (pieces p33 B1) as (h33 & l33 & -> & -> & E33 & L33 & H33). destruct (pieces p32 B2) as (h32 & l32 & -> & -> & E32 & L32 & H32). destruct (pieces p31 B3) as (h31 & l31 & -> & -> & E31 & L31 & H31).
  destruct (pieces p23 B4) as (h23 & l23 & -> & -> & E23 & L23 & H23). destruct (pieces p22 B5) as (h22 & l22 & -> & -> & E22 & L22 & H22). destruct (pieces p13 B6) as (h13 & l13 & -> & -> & E13 & L13 & H13).
  rewrite !lo32_mod, (Z.mod_small p30), (Z.mod_small p21), (Z.mod_small p12), (Z.mod_small p03), (Z.mod_small l33) by (consts; lia). rewrite !hi32_div, (Z.div_small l33) by (consts; lia). cbn zeta. change (2 ^ 96) with 79228162514264337593543950336. change (2 ^ 56) with 72057594037927936. consts.
  rewrite (uwrap_small 64 (l32 + h33)), (uwrap_small 64 (l32 + h33 + l23)), (uwrap_small 64 (l32 + h33 + l23 + 0)) by (consts; lia). set (third := l32 + h33 + l23 + 0). assert (Ht : 0 ≤ third / 4294967296 < 4294967296) by (unfold third; Z.div_mod_to_equations; lia).
  rewrite (uwrap_small 64 (l31 + h32)), (uwrap_small 64 (l22 + h23)), (uwrap_small 64 (l31 + h32 + _)), (uwrap_small 64 (_ + l13)), (uwrap_small 64 (_ + third / _)) by (consts; lia). set (second := l31 + h32 + (l22 + h23) + l13 + third / 4294967296). assert (Hs : 0 ≤ second / 4294967296 < 4294967296) by (unfold second; Z.div_mod_to_equations; lia).
  rewrite (uwrap_small 64 (p30 + h31)), (uwrap_small 64 (p21 + h22)), (uwrap_small 64 (p30 + h31 + _)), (uwrap_small 64 (p12 + h13)), (uwrap_small 64 (_ + (p12 + h13))), (uwrap_small 64 (_ + p03)), (uwrap_small 64 (_ + second / _)) by (consts; lia).
  pose proof (Z.div_mod third 4294967296 ltac:(lia)) as D1. pose proof (Z.div_mod second 4294967296 ltac:(lia)) as D2. assert (Et : third = l32 + h33 + l23 + 0) by reflexivity. assert (Es : second = l31 + h32 + (l22 + h23) + l13 + third / 4294967296) by reflexivity.
  clearbody second. clearbody third. generalize dependent (third / 4294967296). generalize dependent (third mod 4294967296). generalize dependent (second / 4294967296). generalize dependent (second mod 4294967296). intros. subst. lia.
Qed.

Lemma multiply_limbs_value k t0 t1 t2 t3 b0 b1 b2 b3 (x := of_limbs (t0, t1, t2, t3)) (y := of_limbs (b0, b1, b2, b3)) :
  k = 31 ∨ k = 32 → is_limb t0 → is_limb t1 → is_limb t2 → is_limb t3 → is_limb b0 → is_limb b1 → is_limb b2 → is_limb b3 →
  multiply_limbs (2 ^ 64 - 2 ^ k) (2 ^ 56 - 2 ^ k) (t0, t1, t2, t3) (b0, b1, b2, b3) = if x * y <? 2 ^ k * 2 ^ 96 then Some (x * y mod 2 ^ 64, x * y / 2 ^ 64) else None.
Proof.
  intros Hk T0 T1 T2 T3 B0 B1 B2 B3. assert (HK : 0 < 2 ^ k ≤ 2 ^ 32) by (destruct Hk as [-> | ->]; consts; lia).
  assert (Hxy : x * y = t0 * b0 * 2 ^ 192 + t0 * b1 * 2 ^ 160 + t0 * b2 * 2 ^ 128 + t0 * b3 * 2 ^ 96 + t1 * b0 * 2 ^ 160 + t1 * b1 * 2 ^ 128 + t1 * b2 * 2 ^ 96 + t1 * b3 * 2 ^ 64 + t2 * b0 * 2 ^ 128 + t2 * b1 * 2 ^ 96 + t2 * b2 * 2 ^ 64 + t2 * b3 * 2 ^ 32 + t3 * b0 * 2 ^ 96 + t3 * b1 * 2 ^ 64 + t3 * b2 * 2 ^ 32 + t3 * b3 * 2 ^ 0) by (unfold x, y, of_limbs; ring).
  clearbody x y. unfold multiply_limbs.
  destruct (limb_product t0 b0 T0 B0) as [L00 ->]. destruct (limb_product t0 b1 T0 B1) as [L01 ->]. destruct (limb_product t0 b2 T0 B2) as [L02 ->]. destruct (limb_product t0 b3 T0 B3) as [L03 ->].
  destruct (limb_product t1 b0 T1 B0) as [L10 ->]. destruct (limb_product t1 b1 T1 B1) as [L11 ->]. destruct (limb_product t1 b2 T1 B2) as [L12 ->]. destruct (limb_product t1 b3 T1 B3) as [L13 ->].
  destruct (limb_product t2 b0 T2 B0) as [L20 ->]. destruct (limb_product t2 b1 T2 B1) as [L21 ->]. destruct (limb_product t2 b2 T2 B2) as [L22 ->]. destruct (limb_product t2 b3 T2 B3) as [L23 ->].
  destruct (limb_product t3 b0 T3 B0) as [L30 ->]. destruct (limb_product t3 b1 T3 B1) as [L31 ->]. destruct (limb_product t3 b2 T3 B2) as [L32 ->]. destruct (limb_product t3 b3 T3 B3) as [L33 ->].
  generalize dependent (t0 * b0). intros p00. generalize dependent (t0 * b1). intros p01. generalize dependent (t0 * b2). intros p02. generalize dependent (t0 * b3). intros p03.
  generalize dependent (t1 * b0). intros p10. generalize dependent (t1 * b1). intros p11. generalize dependent (t1 * b2). intros p12. generalize dependent (t1 * b3). intros p13.
  generalize dependent (t2 * b0). intros p20. generalize dependent (t2 * b1). intros p21. generalize dependent (t2 * b2). intros p22. generalize dependent (t2 * b3). intros p23.
  generalize dependent (t3 * b0). intros p30. generalize dependent (t3 * b1). intros p31. generalize dependent (t3 * b2). intros p32. generalize dependent (t3 * b3). intros p33.
  intros L33 L32 L31 L30 L23 L22 L21 L20 L13 L12 L11 L10 L03 L02 L01 Hxy L00. generalize dependent (x * y). intros S Hxy. assert (Hm : (2 ^ 32 - 1) * (2 ^ 32 - 1) < 2 ^ 64) by reflexivity. assert (Hk' : 0 ≤ k ≤ 56) by lia.
  destruct (negb (p00 =? 0) || _ || _ || _ || _ || _) eqn:E1.
  - rewrite !orb_true_iff, !negb_true_iff, !Z.eqb_neq in E1. rewrite (proj2 (Z.ltb_ge _ _)); [reflexivity|]. clear Hk'. pows. nia.
  - rewrite !orb_false_iff, !negb_false_iff, !Z.eqb_eq in E1. destruct E1 as [[[[[E00 E01] E02] E10] E20] E11]. subst p00 p01 p02 p10 p20 p11. rewrite !(land_top 64) by lia. destruct ((2 ^ k <=? p03) || _ || _ || _) eqn:E2.
    + rewrite !orb_true_iff, !Z.leb_le in E2. rewrite (proj2 (Z.ltb_ge _ _)); [reflexivity|]. clear Hk'. pows. lia.
    + rewrite !orb_false_iff, !Z.leb_gt in E2. destruct E2 as [[[E03 E12] E21] E30].
      destruct (sum_limbs (2 ^ k) p33 p32 p31 p30 p23 p22 p21 p13 p12 p03) as [Hf HS]; try lia. cbn zeta in Hf, HS. set (third := uwrap 64 (_ + Z.shiftr (lo32 p33) 32)) in *. set (second := uwrap 64 (_ + Z.shiftr third 32)) in *. set (first := uwrap 64 (_ + Z.shiftr second 32)) in *.
      rewrite (land_top 56) by lia. pose proof (lo32_mod first) as Mf. pose proof (lo32_mod second) as Ms. pose proof (lo32_mod third) as Mt. pose proof (lo32_mod (lo32 p33)) as M4.
      assert (R : ∀ z, 0 ≤ z mod 2 ^ 32 < 2 ^ 32) by (intros z; apply Z.mod_pos_bound; lia). rewrite !lor_halves by (rewrite ?Mf, ?Ms, ?Mt, ?M4; apply R). pose proof (R first) as Rf. pose proof (R second) as Rs. pose proof (R third) as Rt. pose proof (R (lo32 p33)) as R4. rewrite <- Mf, <- Ms, <- Mt, <- M4 in *.
      assert (ES : S = lo32 (lo32 p33) + lo32 third * 2 ^ 32 + lo32 second * 2 ^ 64 + first * 2 ^ 96) by (rewrite <- HS, Hxy; ring). clear HS Hxy.
      destruct (Z.leb_spec (2 ^ k) first) as [Hle|Hlt]; [rewrite (proj2 (Z.ltb_ge _ _)) by (clear - Hle ES Rs Rt R4; pows; nia); reflexivity|]. rewrite (proj2 (Z.ltb_lt _ _)) by (clear - Hlt ES Rs Rt R4; pows; nia). assert (Ef : lo32 first = first) by (rewrite Mf; apply Z.mod_small; lia). rewrite Ef, ES. clear - Rs Rt R4. do 2 f_equal; pows; Z.div_mod_to_equations; lia.
Qed.

Lemma limbs_ok hi lo : 0 ≤ hi < 2 ^ 64 → 0 ≤ lo < 2 ^ 64 →
  ∃ t0 t1 t2 t3, limbs hi lo = (t0, t1, t2, t3) ∧ is_limb t0 ∧ is_limb t1 ∧ is_limb t2 ∧ is_limb t3 ∧ of_limbs (t0, t1, t2, t3) = hi * 2 ^ 64 + lo.
Proof.
  intros Hh Hl. exists (hi / 2 ^ 32), (hi mod 2 ^ 32), (lo / 2 ^ 32), (lo mod 2 ^ 32). unfold limbs, is_limb, of_limbs. change (2 ^ 32 - 1) with (Z.ones 32). rewrite !Z.land_ones, !Z.shiftr_div_pow2 by lia. split_and!; try reflexivity; pows; Z.div_mod_to_equations; lia.
Qed.

Lemma multiply_value k h l h' l' (x := h * 2 ^ 64 + l) (y := h' * 2 ^ 64 + l') : k = 31 ∨ k = 32 → 0 ≤ h < 2 ^ 64 → 0 ≤ l < 2 ^ 64 → 0 ≤ h' < 2 ^ 64 → 0 ≤ l' < 2 ^ 64 →
  multiply_limbs (2 ^ 64 - 2 ^ k) (2 ^ 56 - 2 ^ k) (limbs h l) (limbs h' l') = if x * y <? 2 ^ k * 2 ^ 96 then Some (x * y mod 2 ^ 64, x * y / 2 ^ 64) else None.
Proof.
  intros Hk H1 H2 H3 H4. destruct (limbs_ok h l H1 H2) as (t0 & t1 & t2 & t3 & -> & T0 & T1 & T2 & T3 & Ex). destruct (limbs_ok h' l' H3 H4) as (b0 & b1 & b2 & b3 & -> & B0 & B1 & B2 & B3 & Ey). unfold x, y. rewrite <- Ex, <- Ey. apply multiply_limbs_value; assumption.
Qed.

(** ** Decimal digits *)

Definition digits_of (z : Z) (s : string) : string := pretty_N_go (Z.to_N z) s.

Lemma digit_char r : 0 ≤ r < 10 → digit r = String (pretty_N_char (Z.to_N r)) EmptyString.
Proof. intros Hr. assert (H : r = 0 ∨ r = 1 ∨ r = 2 ∨ r = 3 ∨ r = 4 ∨ r = 5 ∨ r = 6 ∨ r = 7 ∨ r = 8 ∨ r = 9) by lia. destruct H as [-> |[-> |[-> |[-> |[-> |[-> |[-> |[-> |[-> | ->]]]]]]]]]; reflexivity. Qed.

Lemma digits_step z s : 0 < z → digits_of z s = digits_of (z / 10) (digit (z mod 10) +:+ s).
Proof.
  intros Hz. unfold digits_of. rewrite pretty_N_go_step by lia. rewrite digit_char by (apply Z.mod_pos_bound; lia). rewrite Z2N.inj_div, Z2N.inj_mod by lia. reflexivity.
Qed.
Lemma digits_not_empty z c s : 0 ≤ z → digits_of z (String c s) ≠ "".
Proof.
  intros Hz. revert c s. induction (Z.lt_wf 0 z) as [z _ IH]. intros c s. destruct (decide (z = 0)) as [->|Hne]; [discriminate|]. rewrite digits_step by lia. rewrite digit_char by (apply Z.mod_pos_bound; lia). apply IH; [split; [apply Z.div_pos; lia|apply Z.div_lt; lia]|apply Z.div_pos; lia].
Qed.
Lemma digits_pretty z : 0 ≤ z → (if String.eqb (digits_of z "") "" then "0" else digits_of z "") = pretty z.
Proof.
  intros Hz. destruct (decide (z = 0)) as [->|Hne]; [reflexivity|]. assert (E : digits_of z "" ≠ "") by (rewrite digits_step by lia; rewrite digit_char by (apply Z.mod_pos_bound; lia); apply digits_not_empty, Z.div_pos; lia).
  apply String.eqb_neq in E. rewrite E. destruct z as [|p|p]; [contradiction| |lia]. reflexivity.
Qed.

(** ** Unsigned *)

Module UInt128Spec.
Import UInt128.
Definition value (x : uint128_t) : Z := high x * 2 ^ 64 + low x.
Definition well_formed (x : uint128_t) : Prop := 0 ≤ low x < 2 ^ 64 ∧ 0 ≤ high x < 2 ^ 64.
Definition of_Z (z : Z) : uint128_t := MkUInt128 (z mod 2 ^ 64) (z / 2 ^ 64).

Lemma u_value_of_Z z : value (of_Z z) = z.
Proof. unfold value, of_Z. cbn [high low]. rewrite Z.mul_comm. symmetry. apply Z.div_mod. lia. Qed.
Lemma u_of_Z_value x : well_formed x → of_Z (value x) = x.
Proof. intros [Hl Hh]. destruct x as [l h]. unfold of_Z, value. cbn [low high] in *. f_equal; arith. Qed.
Lemma u_of_Z_wf z : 0 ≤ z < 2 ^ 128 → well_formed (of_Z z).
Proof. intros Hz. unfold well_formed, of_Z. cbn [low high]. split; arith. Qed.
Lemma u_value_range x : well_formed x → 0 ≤ value x < 2 ^ 128.
Proof. intros [Hl Hh]. unfold value. arith. Qed.

(** Every well-formed integer is that of its value. *)
Lemma by_value (P : uint128_t → Prop) : (∀ z, 0 ≤ z < 2 ^ 128 → P (of_Z z)) → ∀ x, well_formed x → P x.
Proof. intros H x Hx. rewrite <- (u_of_Z_value x Hx). apply H, u_value_range, Hx. Qed.

Lemma u_shift1 z : 0 ≤ z → 2 * z < 2 ^ 128 → uint128LeftShift (of_Z z) 1 = of_Z (2 * z).
Proof. intros H0 Hz. unfold uint128LeftShift, of_Z, uwrap. cbn [low high]. rewrite !Z.shiftl_mul_pow2, Z.shiftr_div_pow2 by lia. change (64 - 1) with 63. change (2 ^ 1) with 2. f_equal; arith. Qed.

Lemma u_bit z i : 0 ≤ z < 2 ^ 128 → 0 ≤ i < 128 → uint128IsBitSet (of_Z z) i = Z.testbit z i.
Proof.
  intros Hz Hi. rewrite <- (u_value_of_Z z) at 2. unfold value. destruct (u_of_Z_wf z Hz) as [Hl _]. rewrite testbit_halves by (assumption || lia). unfold uint128IsBitSet. destruct (Z.ltb_spec i 64); rewrite one_shl_pow, land_pow2 by lia; reflexivity.
Qed.

Lemma u_bits_amount z : 0 ≤ z < 2 ^ 128 → 0 ≤ uint128BitsAmount (of_Z z) ≤ 128 ∧ z < 2 ^ uint128BitsAmount (of_Z z).
Proof.
  intros Hz. destruct (u_of_Z_wf z Hz) as [Hl Hh]. unfold uint128BitsAmount. pose proof (u_value_of_Z z) as Hv. unfold value in Hv. destruct (Z.eqb_spec (high (of_Z z)) 0) as [E|E]; cbn [negb].
  - destruct (countl_zero_spec _ Hl) as [H1 H2]. rewrite uwrap_small by (change (2 ^ 8) with 256; lia). split; [lia|]. rewrite E in Hv. lia.
  - destruct (countl_zero_spec _ Hh) as [H1 H2]. rewrite uwrap_small by (change (2 ^ 8) with 256; lia). split; [lia|]. replace (128 - countl_zero (high (of_Z z))) with (64 - countl_zero (high (of_Z z)) + 64) by lia. rewrite Z.pow_add_r by lia. nia.
Qed.

Lemma ge_value x y : well_formed x → well_formed y → greaterThanOrEquals x y = (value y <=? value x).
Proof.
  intros [Hx1 Hx2] [Hy1 Hy2]. unfold greaterThanOrEquals, value. destruct (Z.leb_spec (high y * 2 ^ 64 + low y) (high x * 2 ^ 64 + low x)); [apply orb_true_iff|apply orb_false_iff];
    rewrite ?andb_true_iff, ?andb_false_iff, ?Z.ltb_lt, ?Z.leb_le, ?Z.eqb_eq, ?Z.ltb_ge, ?Z.leb_gt, ?Z.eqb_neq; arith.
Qed.
Lemma lt_value x y : well_formed x → well_formed y → lessThan x y = (value x <? value y).
Proof.
  intros [Hx1 Hx2] [Hy1 Hy2]. unfold lessThan, value. destruct (Z.ltb_spec (high x * 2 ^ 64 + low x) (high y * 2 ^ 64 + low y)); [apply orb_true_iff|apply orb_false_iff];
    rewrite ?andb_true_iff, ?andb_false_iff, ?Z.ltb_lt, ?Z.leb_le, ?Z.eqb_eq, ?Z.ltb_ge, ?Z.leb_gt, ?Z.eqb_neq; arith.
Qed.

(** *** Sums *)

Lemma carry l l' : 0 ≤ l < 2 ^ 64 → 0 ≤ l' < 2 ^ 64 → (uwrap 64 (l + l') <? l) = (2 ^ 64 <=? l + l').
Proof. intros Hl Hl'. unfold uwrap. destruct (Z.leb_spec (2 ^ 64) (l + l')); [apply Z.ltb_lt|apply Z.ltb_ge]; arith. Qed.
Lemma borrow l l' : 0 ≤ l < 2 ^ 64 → 0 ≤ l' < 2 ^ 64 → (l <? uwrap 64 (l - l')) = (l <? l').
Proof. intros Hl Hl'. unfold uwrap. destruct (Z.ltb_spec l l'); [apply Z.ltb_lt|apply Z.ltb_ge]; arith. Qed.

(** Two large values whose sum is taken for one that fits. *)
Definition unnoticed (x y : uint128_t) : bool := (high x =? UINT64_MAX) && (high y =? UINT64_MAX) && (2 ^ 64 <=? low x + low y).

Lemma u_addInPlace_value x y : well_formed x → well_formed y →
  addInPlace x y = if value x + value y <? 2 ^ 128 then (true, of_Z (value x + value y)) else if unnoticed x y then (true, of_Z (value x + value y - 2 ^ 128)) else (false, x).
Proof.
  intros [Hx1 Hx2] [Hy1 Hy2]. unfold addInPlace, unnoticed, of_Z, value. rewrite carry by assumption. destruct x as [l h], y as [l' h']. cbn [low high] in *. unfold uwrap.
  destruct (Z.leb_spec (2 ^ 64) (l + l')), (Z.eqb_spec h' UINT64_MAX), (Z.eqb_spec h UINT64_MAX); cbn [andb orb negb]; 
    (destruct (Z.ltb_spec (h * 2 ^ 64 + l + (h' * 2 ^ 64 + l')) (2 ^ 128));
     repeat match goal with |- context [?a <? ?b] => destruct (Z.ltb_spec a b) | |- context [negb (?a =? ?b)] => destruct (Z.eqb_spec a b); cbn [negb orb andb] end; cbn [orb]; try solve [exfalso; arith]; f_equal; try (f_equal; arith)).
Qed.

Lemma u_subInPlace_value x y : well_formed x → well_formed y → subInPlace x y = if value x <? value y then (false, x) else (true, of_Z (value x - value y)).
Proof.
  intros Hx Hy. unfold subInPlace. rewrite lt_value by assumption. destruct Hx as [Hx1 Hx2], Hy as [Hy1 Hy2]. rewrite borrow by assumption. unfold of_Z, value, uwrap. destruct (Z.ltb_spec (high x * 2 ^ 64 + low x) (high y * 2 ^ 64 + low y)); [reflexivity|].
  destruct (Z.ltb_spec (low x) (low y)); f_equal; f_equal; arith.
Qed.

Lemma increment z : 0 ≤ z → z + 1 < 2 ^ 128 → (addInPlace (of_Z z) one).2 = of_Z (z + 1).
Proof. intros H0 Hz. rewrite u_addInPlace_value by (apply u_of_Z_wf || split; cbn; arith; lia). rewrite u_value_of_Z. change (value one) with 1. rewrite (proj2 (Z.ltb_lt _ _)) by exact Hz. reflexivity. Qed.

(** *** Long division *)

Section Division.
Variables (A B : Z).
Hypothesis A_ok : 0 ≤ A < 2 ^ 128.
Hypothesis B_ok : 0 < B < 2 ^ 128.
Abbreviation P i := (A / 2 ^ Z.of_nat i).

Lemma u_quotient_range i : 0 ≤ P i / B ≤ P i ∧ P i ≤ A.
Proof. pose proof (prefix_le A i ltac:(lia)). split; [split; [apply Z.div_pos; lia|apply Z.div_le_upper_bound; nia]|lia]. Qed.

Lemma u_divMod_loop_run i : (i ≤ 128)%nat → divMod_loop i (of_Z A) (of_Z B) (of_Z (P i / B)) (of_Z (P i mod B)) = Ok (of_Z (A / B), of_Z (A mod B)).
Proof.
  induction i as [|i IH]; intros Hi; cbn [divMod_loop]; [change (2 ^ Z.of_nat 0) with 1; rewrite Z.div_1_r; reflexivity|]. pose proof (prefix_step A i) as Hs. pose proof (u_quotient_range (S i)) as Hq. pose proof (u_quotient_range i) as Hq'. pose proof (Z.mod_pos_bound (P (S i)) B ltac:(lia)) as Hr. pose proof (Z.mod_le (P (S i)) B ltac:(lia) ltac:(lia)) as Hm.
  rewrite u_bit by lia. set (b := Z.testbit A (Z.of_nat i)) in *. assert (Hb : 0 ≤ Z.b2z b ≤ 1) by (destruct b; cbn; lia). rewrite !u_shift1 by (lia || nia).
  assert (Er : (if b then (addInPlace (of_Z (2 * (P (S i) mod B))) one).2 else of_Z (2 * (P (S i) mod B))) = of_Z (2 * (P (S i) mod B) + Z.b2z b)) by (destruct b; cbn [Z.b2z] in *; [apply increment; lia|f_equal; lia]). rewrite Er.
  rewrite ge_value by (apply u_of_Z_wf; lia). rewrite !u_value_of_Z. pose proof (divide_step (P (S i)) (Z.b2z b) B ltac:(lia) Hb ltac:(lia)) as Hd. cbn zeta in Hd. rewrite <- Hs in Hd. destruct (Z.leb_spec B (2 * (P (S i) mod B) + Z.b2z b)) as [Hle|Hlt]; destruct Hd as [E1 E2].
  - unfold Sub. rewrite u_subInPlace_value by (apply u_of_Z_wf; lia). rewrite !u_value_of_Z, (proj2 (Z.ltb_ge _ _)) by lia. cbn [mbind outcome_bind]. rewrite increment by lia. rewrite <- E1, <- E2. apply IH. lia.
  - rewrite <- E1, <- E2. apply IH. lia.
Qed.

Lemma u_divMod_value : divMod (of_Z A) (of_Z B) = Ok (of_Z (A / B), of_Z (A mod B)).
Proof.
  unfold divMod. destruct (u_bits_amount A A_ok) as [H1 H2]. set (i := Z.to_nat (uint128BitsAmount (of_Z A))). assert (Hi : Z.of_nat i = uint128BitsAmount (of_Z A)) by lia. rewrite <- (u_divMod_loop_run i) by lia. rewrite Hi, (Z.div_small A) by lia. rewrite Z.div_0_l, Z.mod_0_l by lia. reflexivity.
Qed.

Lemma u_divModPositive_loop_run i : B ≤ 2 ^ 63 → (i ≤ 128)%nat → divModPositive_loop i (of_Z A) B (of_Z (P i / B)) (P i mod B) = (of_Z (A / B), A mod B).
Proof.
  intros HB. induction i as [|i IH]; intros Hi; cbn [divModPositive_loop]; [change (2 ^ Z.of_nat 0) with 1; rewrite Z.div_1_r; reflexivity|]. pose proof (prefix_step A i) as Hs. pose proof (u_quotient_range (S i)) as Hq. pose proof (u_quotient_range i) as Hq'. pose proof (Z.mod_pos_bound (P (S i)) B ltac:(lia)) as Hr.
  rewrite u_bit by lia. set (b := Z.testbit A (Z.of_nat i)) in *. assert (Hb : 0 ≤ Z.b2z b ≤ 1) by (destruct b; cbn; lia). rewrite u_shift1 by (lia || nia). rewrite Z.shiftl_mul_pow2 by lia. change (2 ^ 1) with 2. rewrite (uwrap_small 64 (P (S i) mod B * 2)) by lia.
  assert (Er : (if b then uwrap 64 (P (S i) mod B * 2 + 1) else P (S i) mod B * 2) = 2 * (P (S i) mod B) + Z.b2z b) by (destruct b; cbn [Z.b2z]; [rewrite uwrap_small by lia; lia|lia]). rewrite Er.
  pose proof (divide_step (P (S i)) (Z.b2z b) B ltac:(lia) Hb ltac:(lia)) as Hd. cbn zeta in Hd. rewrite <- Hs in Hd. destruct (Z.leb_spec B (2 * (P (S i) mod B) + Z.b2z b)) as [Hle|Hlt]; destruct Hd as [E1 E2].
  - set (q := P (S i) / B) in *. assert (El : uwrap 64 (low (of_Z (2 * q)) + 1) = low (of_Z (2 * q + 1)) ∧ low (of_Z (2 * q + 1)) ≠ 0 ∧ high (of_Z (2 * q)) = high (of_Z (2 * q + 1))) by (unfold uwrap, of_Z; cbn [low high]; clear; split_and!; arith). destruct El as (-> & El & ->). rewrite (proj2 (Z.eqb_neq _ _) El).
    change (MkUInt128 (low (of_Z (2 * q + 1))) (high (of_Z (2 * q + 1)))) with (of_Z (2 * q + 1)). rewrite <- E1, <- E2. apply IH. lia.
  - rewrite <- E1, <- E2. apply IH. lia.
Qed.

Lemma u_divModPositive_value : B ≤ 2 ^ 63 → divModPositive (of_Z A) B = (of_Z (A / B), A mod B).
Proof.
  intros HB. unfold divModPositive. destruct (u_bits_amount A A_ok) as [H1 H2]. set (i := Z.to_nat (uint128BitsAmount (of_Z A))). assert (Hi : Z.of_nat i = uint128BitsAmount (of_Z A)) by lia. rewrite <- (u_divModPositive_loop_run i) by lia. rewrite Hi, (Z.div_small A) by lia. rewrite Z.div_0_l, Z.mod_0_l by lia. reflexivity.
Qed.
End Division.

(** *** Products *)

Lemma u_tryMultiply_value x y r : well_formed x → well_formed y → tryMultiply x y r = if value x * value y <? 2 ^ 128 then (true, of_Z (value x * value y)) else (false, r).
Proof.
  intros Hx Hy. pose proof (u_value_range x Hx). pose proof (u_value_range y Hy). unfold tryMultiply. rewrite !Z.shiftl_mul_pow2 by lia. rewrite (Z.add_comm (low x)), (Z.add_comm (low y)). fold (value x) (value y). rewrite !uwrap_small by lia. rewrite Z.leb_antisym. destruct (Z.ltb_spec (value x * value y) (2 ^ 128)); cbn [negb]; [|reflexivity].
  unfold of_Z. change UINT64_MAX with (Z.ones 64). rewrite Z.land_ones, Z.shiftr_div_pow2 by lia. rewrite uwrap_small; [reflexivity|]. assert (0 ≤ value x * value y) by nia. pows. Z.div_mod_to_equations; lia.
Qed.
Lemma tryMultiply_portable_value x y r : well_formed x → well_formed y → tryMultiply_portable x y r = if value x * value y <? 2 ^ 128 then (true, of_Z (value x * value y)) else (false, r).
Proof. intros [Hx1 Hx2] [Hy1 Hy2]. unfold tryMultiply_portable. rewrite multiply_value by (assumption || lia). fold (value x) (value y). change (2 ^ 32 * 2 ^ 96) with (2 ^ 128). destruct (value x * value y <? 2 ^ 128); reflexivity. Qed.

(** *** Digits *)

Lemma u_of_Z_zero z : 0 ≤ z < 2 ^ 128 → negb (high (of_Z z) =? 0) || negb (low (of_Z z) =? 0) = negb (z =? 0).
Proof. intros Hz. unfold of_Z. cbn [high low]. destruct (Z.eqb_spec z 0) as [->|Hne]; [reflexivity|]. cbn [negb]. apply orb_true_iff. rewrite !negb_true_iff, !Z.eqb_neq. arith. Qed.

Lemma u_toString_loop_value fuel : ∀ z s, 0 ≤ z < 2 ^ 128 → z < 10 ^ Z.of_nat fuel → toString_loop fuel (of_Z z) s = Ok (digits_of z s).
Proof.
  induction fuel as [|fuel IH]; intros z s Hz Hf; cbn [toString_loop]; rewrite u_of_Z_zero by exact Hz.
  - assert (z = 0) as -> by (change (10 ^ Z.of_nat 0) with 1 in Hf; lia). reflexivity.
  - destruct (Z.eqb_spec z 0) as [->|Hne]; [reflexivity|]. cbn [negb]. rewrite u_divModPositive_value by (consts; lia). rewrite (digits_step z) by lia. rewrite Nat2Z.inj_succ, Z.pow_succ_r in Hf by lia. apply IH; [consts; Z.div_mod_to_equations; lia|]. apply Z.div_lt_upper_bound; lia.
Qed.

Lemma u_toString_value z : 0 ≤ z < 2 ^ 128 → toString (of_Z z) = Ok (pretty z).
Proof. intros Hz. unfold toString. rewrite u_toString_loop_value by (exact Hz || (pows; cbn; lia)). cbn [mbind outcome_bind]. rewrite digits_pretty by lia. reflexivity. Qed.
End UInt128Spec.

(** ** Signed *)

Module Int128Spec.
Import Int128.
Definition value (x : int128_t) : Z := high x * 2 ^ 64 + low x.
Definition well_formed (x : int128_t) : Prop := 0 ≤ low x < 2 ^ 64 ∧ - 2 ^ 63 ≤ high x < 2 ^ 63.
Definition of_Z (z : Z) : int128_t := MkInt128 (z mod 2 ^ 64) (z / 2 ^ 64).
Definition in_range (z : Z) : bool := (- 2 ^ 127 <=? z) && (z <? 2 ^ 127).

Lemma in_range_spec z : in_range z = true ↔ - 2 ^ 127 ≤ z < 2 ^ 127.
Proof. unfold in_range. rewrite andb_true_iff, Z.leb_le, Z.ltb_lt. reflexivity. Qed.
Lemma value_of_Z z : value (of_Z z) = z.
Proof. unfold value, of_Z. cbn [high low]. rewrite Z.mul_comm. symmetry. apply Z.div_mod. lia. Qed.
Lemma of_Z_value x : well_formed x → of_Z (value x) = x.
Proof. intros [Hl Hh]. destruct x as [l h]. unfold of_Z, value. cbn [low high] in *. f_equal; arith. Qed.
Lemma of_Z_wf z : - 2 ^ 127 ≤ z < 2 ^ 127 → well_formed (of_Z z).
Proof. intros Hz. unfold well_formed, of_Z. cbn [low high]. split; arith. Qed.
Lemma value_range x : well_formed x → - 2 ^ 127 ≤ value x < 2 ^ 127.
Proof. intros [Hl Hh]. unfold value. arith. Qed.
Lemma sign x : well_formed x → (high x <? 0) = (value x <? 0).
Proof. intros [Hl Hh]. unfold value. destruct (Z.ltb_spec (high x) 0); symmetry; [apply Z.ltb_lt|apply Z.ltb_ge]; arith. Qed.
Lemma is_min x : well_formed x → (high x =? INT64_MIN) && (low x =? 0) = (value x =? - 2 ^ 127).
Proof. intros [Hl Hh]. unfold value. destruct (Z.eqb_spec (high x * 2 ^ 64 + low x) (- 2 ^ 127)); [apply andb_true_iff|apply andb_false_iff]; rewrite ?Z.eqb_eq, ?Z.eqb_neq; arith. Qed.

(** *** Sums *)

Definition undefined {A} : outcome A := Throw (UndefinedBehaviour "signed integer overflow").
(** The high halves are added before the carry, which can leave their range. *)
Definition add_undefined (x y : int128_t) : bool := (high y <? 0) && (2 ^ 64 <=? low x + low y) && (high x + high y =? - 2 ^ 63 - 1).
Definition sub_undefined (x y : int128_t) : bool := (high y <? 0) && (low x <? low y) && (high x - high y =? 2 ^ 63).

Ltac step64 e := first [rewrite (s64_ok e) by arith | rewrite (s64_out e) by arith]; cbn [mbind outcome_bind].
Ltac run64 := repeat match goal with |- (s64 ?e ≫= _) ≫= _ = _ => step64 e | |- s64 ?e ≫= _ = _ => step64 e end.
Ltac cases := repeat match goal with
  | |- context [?a <? ?b] => destruct (Z.ltb_spec a b); cbn [andb orb negb] | |- context [?a <=? ?b] => destruct (Z.leb_spec a b); cbn [andb orb negb] | |- context [?a =? ?b] => destruct (Z.eqb_spec a b); cbn [andb orb negb] end.

Lemma addInPlace_value x y : well_formed x → well_formed y →
  addInPlace x y = if add_undefined x y then undefined else if in_range (value x + value y) then Ok (true, of_Z (value x + value y)) else Ok (false, x).
Proof.
  intros [Hx1 Hx2] [Hy1 Hy2]. unfold addInPlace, add_undefined, in_range, of_Z, value. rewrite UInt128Spec.carry by assumption. destruct x as [l h], y as [l' h']. cbn [low high] in *. unfold uwrap.
  assert (Hno : h + h' = - 2 ^ 63 - 1 → (h' <? 0) = true) by (intros E; apply Z.ltb_lt; consts; lia).
  destruct (Z.leb_spec 0 h') as [Hs|Hs], (Z.leb_spec (2 ^ 64) (l + l')) as [Hc|Hc]; [rewrite (proj2 (Z.ltb_ge h' 0)) by lia|rewrite (proj2 (Z.ltb_ge h' 0)) by lia|rewrite (proj2 (Z.ltb_lt h' 0)) by lia|rewrite (proj2 (Z.ltb_lt h' 0)) by lia]; cbn [andb]; run64;
    (match goal with |- context [if ?c then Ok (false, _) else _] => destruct (c : bool) eqn:Ho end; [apply Z.ltb_lt in Ho|apply Z.ltb_ge in Ho]).
  all: cases; try solve [exfalso; arith]; run64; cases; try solve [exfalso; arith]; try reflexivity; do 2 f_equal; f_equal; arith.
Qed.

Lemma subInPlace_value x y (d := value x - value y) : well_formed x → well_formed y →
  subInPlace x y = if sub_undefined x y then undefined else if in_range d then Ok (negb (d =? - 2 ^ 127), of_Z d) else Ok (false, x).
Proof.
  intros [Hx1 Hx2] [Hy1 Hy2]. unfold d. clear d. unfold subInPlace, sub_undefined, in_range, of_Z, value. rewrite UInt128Spec.borrow by assumption. destruct x as [l h], y as [l' h']. cbn [low high] in *. unfold uwrap.
  destruct (Z.leb_spec 0 h') as [Hs|Hs], (Z.ltb_spec l l') as [Hc|Hc]; [rewrite (proj2 (Z.ltb_ge h' 0)) by lia|rewrite (proj2 (Z.ltb_ge h' 0)) by lia|rewrite (proj2 (Z.ltb_lt h' 0)) by lia|rewrite (proj2 (Z.ltb_lt h' 0)) by lia]; cbn [andb]; run64.
  all: try (destruct (Z.ltb_spec INT64_MIN h); cbn [mbind outcome_bind]; run64).
  all: match goal with |- (if ?c then Ok (false, _) else _) = _ => destruct (c : bool) eqn:Ho; [first [apply Z.ltb_lt in Ho|apply Z.leb_le in Ho|idtac]|first [apply Z.ltb_ge in Ho|apply Z.leb_gt in Ho|idtac]] | _ => idtac end.
  all: cases; try solve [exfalso; arith]; run64; cases; try solve [exfalso; arith]; try reflexivity; do 2 f_equal; f_equal; arith.
Qed.

Lemma negateInPlace_value x : well_formed x →
  negateInPlace x = if value x =? - 2 ^ 127 then Throw cannot_negate else if high x =? INT64_MIN then undefined else Ok (of_Z (- value x)).
Proof.
  intros Hw. unfold negateInPlace. rewrite is_min by exact Hw. destruct Hw as [Hl Hh]. destruct (Z.eqb_spec (value x) (- 2 ^ 127)) as [E|E]; [reflexivity|]. unfold value in *. destruct x as [l h]. cbn [low high] in *. unfold of_Z, uwrap. destruct (Z.eqb_spec h INT64_MIN) as [->|Hne].
  - rewrite s64_out by arith. reflexivity.
  - run64. destruct (Z.eqb_spec ((UINT64_MAX + 1 - l) mod 2 ^ 64) 0); run64; f_equal; f_equal; arith.
Qed.
Lemma negate_ok z : - 2 ^ 63 * 2 ^ 64 + 2 ^ 64 ≤ z < 2 ^ 127 → negateInPlace (of_Z z) = Ok (of_Z (- z)).
Proof.
  intros Hz. rewrite negateInPlace_value by (apply of_Z_wf; consts; lia). rewrite value_of_Z, (proj2 (Z.eqb_neq _ _)), (proj2 (Z.eqb_neq _ _)) by (unfold of_Z; cbn [high]; arith). reflexivity.
Qed.

(** *** Order *)

Ltac by_halves := 
  unfold value; repeat match goal with H : well_formed _ |- _ => destruct H end;
  match goal with |- _ = (?a <=? ?b) => destruct (Z.leb_spec a b) | |- _ = (?a <? ?b) => destruct (Z.ltb_spec a b) | |- _ = (?a =? ?b) => destruct (Z.eqb_spec a b) | |- _ = negb (?a =? ?b) => destruct (Z.eqb_spec a b); cbn [negb] end;
  rewrite ?orb_true_iff, ?orb_false_iff, ?andb_true_iff, ?andb_false_iff, ?negb_true_iff, ?negb_false_iff, ?Z.ltb_lt, ?Z.leb_le, ?Z.eqb_eq, ?Z.ltb_ge, ?Z.leb_gt, ?Z.eqb_neq; arith.

Lemma compare_value x y : well_formed x → well_formed y →
  equals x y = (value x =? value y) ∧ notEquals x y = negb (value x =? value y) ∧ lessThan x y = (value x <? value y) ∧ lessThanOrEquals x y = (value x <=? value y) ∧ greaterThan x y = (value y <? value x) ∧ greaterThanOrEquals x y = (value y <=? value x).
Proof. intros Hx Hy. split_and!; unfold equals, notEquals, lessThan, lessThanOrEquals, greaterThan, greaterThanOrEquals; by_halves. Qed.

(** *** Long division of values that are not negative *)

Lemma shift1 z : 0 ≤ z → 2 * z < 2 ^ 127 → positiveInt128LeftShift (of_Z z) 1 = of_Z (2 * z).
Proof.
  intros H0 Hz. unfold positiveInt128LeftShift, of_Z, uwrap. cbn [low high]. rewrite !Z.shiftl_mul_pow2, Z.shiftr_div_pow2 by lia. change (64 - 1) with 63. change (2 ^ 1) with 2. rewrite swrap_small by arith. f_equal; arith.
Qed.

Lemma high_range z : 0 ≤ z < 2 ^ 127 → 0 ≤ z / 2 ^ 64 < 2 ^ 63.
Proof. intros Hz. arith. Qed.
Lemma high_unsigned z : 0 ≤ z < 2 ^ 127 → uwrap 64 (z / 2 ^ 64) = z / 2 ^ 64.
Proof. intros Hz. pose proof (high_range z Hz). apply uwrap_small. consts. lia. Qed.

Lemma bit z i : 0 ≤ z < 2 ^ 127 → 0 ≤ i < 128 → positiveInt128IsBitSet (of_Z z) i = Z.testbit z i.
Proof.
  intros Hz Hi. rewrite <- (UInt128Spec.u_bit z i) by (consts; lia). unfold positiveInt128IsBitSet, UInt128.uint128IsBitSet, of_Z, UInt128Spec.of_Z. cbn [low high UInt128.low UInt128.high]. rewrite high_unsigned by exact Hz. reflexivity.
Qed.
Lemma bits_amount z : 0 ≤ z < 2 ^ 127 → 0 ≤ positiveInt128BitsAmount (of_Z z) ≤ 128 ∧ z < 2 ^ positiveInt128BitsAmount (of_Z z).
Proof.
  intros Hz. assert (E : positiveInt128BitsAmount (of_Z z) = UInt128.uint128BitsAmount (UInt128Spec.of_Z z)).
  { unfold positiveInt128BitsAmount, UInt128.uint128BitsAmount, of_Z, UInt128Spec.of_Z. cbn [low high UInt128.low UInt128.high]. rewrite high_unsigned by exact Hz. reflexivity. }
  rewrite E. apply UInt128Spec.u_bits_amount. consts. lia.
Qed.

Lemma add_one z : 0 ≤ z → z + 1 < 2 ^ 127 → addInPlace (of_Z z) (castTo 1) = Ok (true, of_Z (z + 1)).
Proof.
  intros H0 Hz. rewrite addInPlace_value by (apply of_Z_wf || split; cbn; consts; lia). rewrite value_of_Z. change (value (castTo 1)) with 1. unfold add_undefined. change (high (castTo 1) <? 0) with false. cbn [andb]. rewrite (proj2 (in_range_spec _)) by (consts; lia). reflexivity.
Qed.
Lemma sub_positive a b : 0 ≤ b ≤ a → a < 2 ^ 127 → Sub (of_Z a) (of_Z b) = Ok (of_Z (a - b)).
Proof.
  intros Hb Ha. unfold Sub. rewrite subInPlace_value by (apply of_Z_wf; consts; lia). rewrite !value_of_Z. unfold sub_undefined. rewrite sign by (apply of_Z_wf; consts; lia). rewrite value_of_Z, (proj2 (Z.ltb_ge _ _)) by lia. cbn [andb]. rewrite (proj2 (in_range_spec _)), (proj2 (Z.eqb_neq _ _)) by (consts; lia). reflexivity.
Qed.

Section Division.
Variables (A B : Z).
Hypothesis A_ok : 0 ≤ A < 2 ^ 127.
Hypothesis B_ok : 0 < B < 2 ^ 127.
Abbreviation P i := (A / 2 ^ Z.of_nat i).

Lemma quotient_range i : 0 ≤ P i / B ≤ P i ∧ P i ≤ A.
Proof. pose proof (prefix_le A i ltac:(lia)). split; [split; [apply Z.div_pos; lia|apply Z.div_le_upper_bound; nia]|lia]. Qed.

Lemma divMod_loop_run i : (i ≤ 128)%nat → divMod_loop i (of_Z A) (of_Z B) (of_Z (P i / B)) (of_Z (P i mod B)) = Ok (of_Z (A / B), of_Z (A mod B)).
Proof.
  induction i as [|i IH]; intros Hi; cbn [divMod_loop]; [change (2 ^ Z.of_nat 0) with 1; rewrite Z.div_1_r; reflexivity|]. pose proof (prefix_step A i) as Hs. pose proof (quotient_range (S i)) as Hq. pose proof (quotient_range i) as Hq'. pose proof (Z.mod_pos_bound (P (S i)) B ltac:(lia)) as Hr. pose proof (Z.mod_le (P (S i)) B ltac:(lia) ltac:(lia)) as Hm.
  rewrite bit by lia. set (b := Z.testbit A (Z.of_nat i)) in *. assert (Hb : 0 ≤ Z.b2z b ≤ 1) by (destruct b; cbn; lia). rewrite !shift1 by (lia || nia).
  assert (Er : (if b then '(_, r) ← addInPlace (of_Z (2 * (P (S i) mod B))) (castTo 1); Ok r else Ok (of_Z (2 * (P (S i) mod B)))) = Ok (of_Z (2 * (P (S i) mod B) + Z.b2z b))) by (destruct b; cbn [Z.b2z] in *; [rewrite add_one by lia; reflexivity|do 2 f_equal; lia]). rewrite Er. cbn [mbind outcome_bind].
  destruct (compare_value (of_Z (2 * (P (S i) mod B) + Z.b2z b)) (of_Z B)) as (_ & _ & _ & _ & _ & ->); [apply of_Z_wf; lia..|]. rewrite !value_of_Z. pose proof (divide_step (P (S i)) (Z.b2z b) B ltac:(lia) Hb ltac:(lia)) as Hd. cbn zeta in Hd. rewrite <- Hs in Hd. destruct (Z.leb_spec B (2 * (P (S i) mod B) + Z.b2z b)) as [Hle|Hlt]; destruct Hd as [E1 E2].
  - rewrite sub_positive by lia. cbn [mbind outcome_bind]. rewrite add_one by lia. rewrite <- E1, <- E2. apply IH. lia.
  - rewrite <- E1, <- E2. apply IH. lia.
Qed.

Lemma divMod_positive : divMod_loop (Z.to_nat (positiveInt128BitsAmount (of_Z A))) (of_Z A) (of_Z B) (castTo 0) (castTo 0) = Ok (of_Z (A / B), of_Z (A mod B)).
Proof.
  destruct (bits_amount A A_ok) as [H1 H2]. set (i := Z.to_nat (positiveInt128BitsAmount (of_Z A))). assert (Hi : Z.of_nat i = positiveInt128BitsAmount (of_Z A)) by lia. rewrite <- (divMod_loop_run i) by lia. rewrite Hi, (Z.div_small A) by lia. rewrite Z.div_0_l, Z.mod_0_l by lia. reflexivity.
Qed.

Lemma divModPositive_loop_run i : B ≤ 2 ^ 63 → (i ≤ 128)%nat → divModPositive_loop i (of_Z A) B (of_Z (P i / B)) (P i mod B) = Ok (of_Z (A / B), A mod B).
Proof.
  intros HB. induction i as [|i IH]; intros Hi; cbn [divModPositive_loop]; [change (2 ^ Z.of_nat 0) with 1; rewrite Z.div_1_r; reflexivity|]. pose proof (prefix_step A i) as Hs. pose proof (quotient_range (S i)) as Hq. pose proof (quotient_range i) as Hq'. pose proof (Z.mod_pos_bound (P (S i)) B ltac:(lia)) as Hr.
  rewrite bit by lia. set (b := Z.testbit A (Z.of_nat i)) in *. assert (Hb : 0 ≤ Z.b2z b ≤ 1) by (destruct b; cbn; lia). rewrite shift1 by (lia || nia). rewrite Z.shiftl_mul_pow2 by lia. change (2 ^ 1) with 2. rewrite (uwrap_small 64 (P (S i) mod B * 2)) by (consts; lia).
  assert (Er : (if b then uwrap 64 (P (S i) mod B * 2 + 1) else P (S i) mod B * 2) = 2 * (P (S i) mod B) + Z.b2z b) by (destruct b; cbn [Z.b2z]; [rewrite uwrap_small by (consts; lia); lia|lia]). rewrite Er.
  pose proof (divide_step (P (S i)) (Z.b2z b) B ltac:(lia) Hb ltac:(lia)) as Hd. cbn zeta in Hd. rewrite <- Hs in Hd. destruct (Z.leb_spec B (2 * (P (S i) mod B) + Z.b2z b)) as [Hle|Hlt]; destruct Hd as [E1 E2].
  - set (q := P (S i) / B) in *. assert (El : uwrap 64 (low (of_Z (2 * q)) + 1) = low (of_Z (2 * q + 1)) ∧ low (of_Z (2 * q + 1)) ≠ 0 ∧ high (of_Z (2 * q)) = high (of_Z (2 * q + 1))) by (unfold uwrap, of_Z; cbn [low high]; clear; split_and!; arith). destruct El as (-> & El & ->). rewrite (proj2 (Z.eqb_neq _ _) El). cbn [mbind outcome_bind].
    change (MkInt128 (low (of_Z (2 * q + 1))) (high (of_Z (2 * q + 1)))) with (of_Z (2 * q + 1)). rewrite <- E1, <- E2. apply IH. lia.
  - rewrite <- E1, <- E2. apply IH. lia.
Qed.
Lemma divModPositive_value : B ≤ 2 ^ 63 → divModPositive (of_Z A) B = Ok (of_Z (A / B), A mod B).
Proof.
  intros HB. unfold divModPositive. destruct (bits_amount A A_ok) as [H1 H2]. set (i := Z.to_nat (positiveInt128BitsAmount (of_Z A))). assert (Hi : Z.of_nat i = positiveInt128BitsAmount (of_Z A)) by lia. rewrite <- (divModPositive_loop_run i) by lia. rewrite Hi, (Z.div_small A) by lia. rewrite Z.div_0_l, Z.mod_0_l by lia. reflexivity.
Qed.
End Division.
End Int128Spec.
