(* ===== verification/Int128Theorems.v ===== *)
(** * Theorems of 128-bit integers

    Every operation against the integers: exact, or the exception the code means, or where C++ leaves it undefined. *)

From stdpp Require Import base numbers list strings pretty.
From Stdlib Require Import ZArith Lia.
From S2P Require Import Prelude Date Int128 Int128Spec.

#[local] Open Scope Z_scope.

(** ** Disjoint bits *)

Lemma lor_disjoint a b k : 0 ≤ k → 0 ≤ b < 2 ^ k → Z.lor (a * 2 ^ k) b = a * 2 ^ k + b.
Proof.
  intros Hk Hb. assert (Hp : 0 < 2 ^ k) by lia. apply Z.bits_inj'. intros j Hj. rewrite Z.lor_spec. destruct (Z.ltb_spec j k) as [Hlt|Hge].
  - rewrite Z.mul_pow2_bits_low by lia. rewrite <- (Z.mod_pow2_bits_low (a * 2 ^ k + b) k j) by lia. rewrite Z.add_comm, Z.mod_add, Z.mod_small by lia. reflexivity.
  - assert (Eb : Z.testbit b j = false) by (destruct (decide (b = 0)) as [->|Hne]; [apply Z.bits_0|]; apply Z.bits_above_log2; [lia|]; assert (Z.log2 b < k) by (apply Z.log2_lt_pow2; lia); lia).
    rewrite Eb, orb_false_r. replace j with (j - k + k) by lia. rewrite <- !(Z.div_pow2_bits _ k (j - k)) by lia. rewrite Z.div_mul, Z.div_add_l, Z.div_small, Z.add_0_r by lia. reflexivity.
Qed.

Lemma land_halves (f : Z → Z → Z) (g : bool → bool → bool) a b : (∀ x y i, Z.testbit (f x y) i = g (Z.testbit x i) (Z.testbit y i)) → (∀ x y n, 0 ≤ n → Z.shiftr (f x y) n = f (Z.shiftr x n) (Z.shiftr y n)) → g false false = false →
  f (a mod 2 ^ 64) (b mod 2 ^ 64) = f a b mod 2 ^ 64 ∧ f (a / 2 ^ 64) (b / 2 ^ 64) = f a b / 2 ^ 64.
Proof.
  intros Hf Hs Hg. rewrite <- !Z.shiftr_div_pow2, Hs by lia. split; [|reflexivity]. apply Z.bits_inj'. intros i Hi. rewrite Hf. destruct (Z.ltb_spec i 64); [rewrite !Z.mod_pow2_bits_low by lia; rewrite Hf; reflexivity|rewrite !Z.mod_pow2_bits_high by lia; exact Hg].
Qed.

(** ** Wrapping *)

Lemma swrap_unique w x r q : 0 < w → - 2 ^ (w - 1) ≤ r < 2 ^ (w - 1) → x = r + 2 ^ w * q → swrap w x = r.
Proof.
  intros Hw Hr ->. assert (E : 2 ^ w = 2 * 2 ^ (w - 1)) by (rewrite <- Z.pow_succ_r by lia; f_equal; lia). unfold swrap. replace (r + 2 ^ w * q + 2 ^ (w - 1)) with (r + 2 ^ (w - 1) + q * 2 ^ w) by ring. rewrite Z.mod_add by lia. rewrite Z.mod_small by lia. lia.
Qed.
Lemma swrap_spec w x : 0 < w → - 2 ^ (w - 1) ≤ swrap w x < 2 ^ (w - 1) ∧ ∃ q, x = swrap w x + 2 ^ w * q.
Proof.
  intros Hw. assert (E : 2 ^ w = 2 * 2 ^ (w - 1)) by (rewrite <- Z.pow_succ_r by lia; f_equal; lia). assert (Hp : 0 < 2 ^ (w - 1)) by (apply Z.pow_pos_nonneg; lia). unfold swrap. pose proof (Z.mod_pos_bound (x + 2 ^ (w - 1)) (2 ^ w) ltac:(lia)). split; [lia|].
  exists ((x + 2 ^ (w - 1)) / 2 ^ w). pose proof (Z.div_mod (x + 2 ^ (w - 1)) (2 ^ w) ltac:(lia)). lia.
Qed.

(** What is shifted over the boundary of the halves. *)
Lemma shift_over l h n : 0 ≤ l < 2 ^ 64 → 0 < n < 64 → (h * 2 ^ 64 + l) * 2 ^ n / 2 ^ 64 = h * 2 ^ n + l / 2 ^ (64 - n) ∧ (h * 2 ^ 64 + l) * 2 ^ n mod 2 ^ 64 = l * 2 ^ n mod 2 ^ 64 ∧ 0 ≤ l / 2 ^ (64 - n) < 2 ^ n.
Proof.
  intros Hl Hn. assert (E : 2 ^ 64 = 2 ^ (64 - n) * 2 ^ n) by (rewrite <- Z.pow_add_r by lia; f_equal; lia). assert (Hp : 0 < 2 ^ n) by (apply Z.pow_pos_nonneg; lia). assert (Hp' : 0 < 2 ^ (64 - n)) by (apply Z.pow_pos_nonneg; lia). replace ((h * 2 ^ 64 + l) * 2 ^ n) with (h * 2 ^ n * 2 ^ 64 + l * 2 ^ n) by ring. split_and!.
  - rewrite Z.div_add_l by lia. f_equal. rewrite E. apply Z.div_mul_cancel_r; lia.
  - rewrite Z.add_comm, Z.mod_add by lia. reflexivity.
  - apply Z.div_pos; lia.
  - apply Z.div_lt_upper_bound; lia.
Qed.
Lemma shift_back l h n : 0 ≤ l < 2 ^ 64 → 0 < n < 64 →
  (h * 2 ^ 64 + l) / 2 ^ n = h * 2 ^ (64 - n) + l / 2 ^ n ∧ (h * 2 ^ 64 + l) / 2 ^ n / 2 ^ 64 = h / 2 ^ n ∧ (h * 2 ^ 64 + l) / 2 ^ n mod 2 ^ 64 = h * 2 ^ (64 - n) mod 2 ^ 64 + l / 2 ^ n ∧ 0 ≤ l / 2 ^ n < 2 ^ (64 - n) ∧ ∃ m, h * 2 ^ (64 - n) mod 2 ^ 64 = m * 2 ^ (64 - n).
Proof.
  intros Hl Hn. assert (E : 2 ^ 64 = 2 ^ (64 - n) * 2 ^ n) by (rewrite <- Z.pow_add_r by lia; f_equal; lia). assert (Hp : 0 < 2 ^ n) by (apply Z.pow_pos_nonneg; lia). assert (Hp' : 0 < 2 ^ (64 - n)) by (apply Z.pow_pos_nonneg; lia). assert (Hc : 0 ≤ l / 2 ^ n < 2 ^ (64 - n)) by (split; [apply Z.div_pos; lia|apply Z.div_lt_upper_bound; lia]).
  assert (E1 : (h * 2 ^ 64 + l) / 2 ^ n = h * 2 ^ (64 - n) + l / 2 ^ n) by (rewrite E; replace (h * (2 ^ (64 - n) * 2 ^ n) + l) with (h * 2 ^ (64 - n) * 2 ^ n + l) by ring; apply Z.div_add_l; lia).
  assert (Em : h * 2 ^ (64 - n) mod 2 ^ 64 = h mod 2 ^ n * 2 ^ (64 - n)) by (rewrite E, (Z.mul_comm (2 ^ (64 - n)) (2 ^ n)); apply Z.mul_mod_distr_r; lia). pose proof (Z.mod_pos_bound h (2 ^ n) Hp) as Hm. pose proof (Z.div_mod h (2 ^ n) ltac:(lia)) as Hd.
  assert (Hb : 0 ≤ h mod 2 ^ n * 2 ^ (64 - n) + l / 2 ^ n < 2 ^ 64) by (rewrite E; generalize dependent (2 ^ (64 - n)); generalize dependent (2 ^ n); intros; nia). assert (Eq : h * 2 ^ (64 - n) + l / 2 ^ n = 2 ^ 64 * (h / 2 ^ n) + (h mod 2 ^ n * 2 ^ (64 - n) + l / 2 ^ n)) by (rewrite Hd at 1; rewrite E; ring).
  split; [exact E1|]. rewrite E1. split; [|split; [|split; [exact Hc|eauto]]]; rewrite ?Em; symmetry; [exact (Z.div_unique _ _ _ _ (or_introl Hb) Eq)|exact (Z.mod_unique _ _ _ _ (or_introl Hb) Eq)].
Qed.

Module Int128Theorems.
Import Int128 Int128Spec.

(** *** Signs *)

(** Values whose negation is defined. *)
Definition negatable (x : int128_t) : Prop := - 2 ^ 127 + 2 ^ 64 ≤ value x.

Lemma magnitude x : well_formed x → negatable x → (if high x <? 0 then negateInPlace x else Ok x) = Ok (of_Z (Z.abs (value x))).
Proof.
  intros Hx Hn. unfold negatable in Hn. pose proof (value_range x Hx). rewrite sign by exact Hx. destruct (Z.ltb_spec (value x) 0); [rewrite Z.abs_neq by lia; rewrite <- (of_Z_value x Hx) at 1; apply negate_ok; consts; lia|rewrite Z.abs_eq by lia; rewrite (of_Z_value x Hx); reflexivity].
Qed.

Lemma signed_result (negative : bool) z : 0 ≤ z < 2 ^ 127 → (if negative then negateInPlace (of_Z z) else Ok (of_Z z)) = Ok (of_Z (if negative then - z else z)).
Proof. intros Hz. destruct negative; [apply negate_ok; consts; lia|reflexivity]. Qed.

(** The other values cannot be negated. *)
Lemma not_negatable x : well_formed x → ¬ negatable x → ∃ e, (if high x <? 0 then negateInPlace x else Ok x) = Throw e ∧ (e = cannot_negate ∨ e = UndefinedBehaviour "signed integer overflow").
Proof.
  intros Hx Hn. unfold negatable in Hn. rewrite negateInPlace_value by exact Hx. rewrite sign by exact Hx. pose proof Hx as [Hl Hh]. unfold value in *. rewrite (proj2 (Z.ltb_lt _ _)) by (consts; lia). destruct (_ =? - 2 ^ 127); [eauto|]. rewrite (proj2 (Z.eqb_eq _ _)) by (consts; lia). unfold undefined. eauto.
Qed.

Lemma magnitudes_value x y : well_formed x → well_formed y →
  (∃ e, magnitudes x y = Throw e ∧ (¬ negatable x ∨ ¬ negatable y) ∧ (e = cannot_negate ∨ e = UndefinedBehaviour "signed integer overflow")) ∨
  negatable x ∧ negatable y ∧ magnitudes x y = Ok (of_Z (Z.abs (value x)), of_Z (Z.abs (value y)), xorb (value x <? 0) (value y <? 0)).
Proof.
  intros Hx Hy. unfold magnitudes. destruct (Z.le_decidable (- 2 ^ 127 + 2 ^ 64) (value x)) as [Nx|Nx]; [rewrite (magnitude x Hx Nx)|destruct (not_negatable x Hx Nx) as (e & -> & He); left; exists e; auto]. cbn [mbind outcome_bind].
  destruct (Z.le_decidable (- 2 ^ 127 + 2 ^ 64) (value y)) as [Ny|Ny]; [rewrite (magnitude y Hy Ny)|destruct (not_negatable y Hy Ny) as (e & -> & He); left; exists e; auto]. cbn [mbind outcome_bind]. right. rewrite !sign by assumption. auto.
Qed.

Lemma abs_range x : well_formed x → negatable x → 0 ≤ Z.abs (value x) < 2 ^ 127.
Proof. intros Hx Hn. unfold negatable in Hn. pose proof (value_range x Hx). consts. lia. Qed.

(** *** Products *)

Lemma product_value A B negative r : 0 ≤ A < 2 ^ 127 → 0 ≤ B < 2 ^ 127 →
  (let left := uwrap 128 (low (of_Z A) + Z.shiftl (high (of_Z A)) 64) in
   let right := uwrap 128 (low (of_Z B) + Z.shiftl (high (of_Z B)) 64) in
   if 2 ^ 128 <=? left * right then Ok (false, r)
   else
     let h := uwrap 64 (Z.shiftr (left * right) 64) in
     if negb (Z.land h (2 ^ 63) =? 0) then Ok (false, r)
     else with_sign negative (MkInt128 (Z.land (left * right) UINT64_MAX) (swrap 64 h))) = if A * B <? 2 ^ 127 then Ok (true, of_Z (if negative then - (A * B) else A * B)) else Ok (false, r).
Proof.
  intros HA HB. cbn zeta. rewrite !Z.shiftl_mul_pow2 by lia. assert (E : ∀ z, low (of_Z z) + high (of_Z z) * 2 ^ 64 = z) by (intros z; rewrite <- (value_of_Z z) at 3; unfold value; lia). rewrite !E. assert (Hp : 0 ≤ A * B) by nia. rewrite (uwrap_small 128 A), (uwrap_small 128 B) by (consts; lia).
  destruct (Z.leb_spec (2 ^ 128) (A * B)) as [H|H]; [rewrite (proj2 (Z.ltb_ge _ _)) by (consts; lia); reflexivity|]. rewrite Z.shiftr_div_pow2 by lia. set (h := A * B / 2 ^ 64). assert (Hh : 0 ≤ h < 2 ^ 64) by (unfold h; arith). rewrite (uwrap_small 64 h) by exact Hh. rewrite land_pow2 by lia.
  assert (Ht : Z.testbit h 63 = (2 ^ 63 <=? h)). { rewrite Z.testbit_odd, Z.shiftr_div_pow2 by lia. destruct (Z.leb_spec (2 ^ 63) h); [replace (h / 2 ^ 63) with 1 by arith; reflexivity|rewrite Z.div_small by lia; reflexivity]. }
  rewrite Ht. destruct (Z.leb_spec (2 ^ 63) h) as [H1|H1]; [rewrite (proj2 (Z.ltb_ge _ _)) by (unfold h in H1; arith); reflexivity|]. rewrite (proj2 (Z.ltb_lt _ _)) by (unfold h in H1; arith). change UINT64_MAX with (Z.ones 64). rewrite Z.land_ones, swrap_small by (consts; lia).
  change (MkInt128 (A * B mod 2 ^ 64) h) with (of_Z (A * B)). unfold with_sign. rewrite signed_result by (unfold h in H1; arith). reflexivity.
Qed.

Lemma signed_product a b : (if xorb (a <? 0) (b <? 0) then - (Z.abs a * Z.abs b) else Z.abs a * Z.abs b) = a * b.
Proof. destruct (Z.ltb_spec a 0), (Z.ltb_spec b 0); cbn [xorb]; first [rewrite (Z.abs_neq a) by lia|rewrite (Z.abs_eq a) by lia]; first [rewrite (Z.abs_neq b) by lia|rewrite (Z.abs_eq b) by lia]; ring. Qed.

Lemma tryMultiply_value x y r : well_formed x → well_formed y → negatable x → negatable y → tryMultiply x y r = if Z.abs (value x * value y) <? 2 ^ 127 then Ok (true, of_Z (value x * value y)) else Ok (false, r).
Proof.
  intros Hx Hy Nx Ny. unfold tryMultiply. destruct (magnitudes_value x y Hx Hy) as [(e & _ & [H|H] & _)|(_ & _ & E)]; [contradiction..|]. rewrite E. cbn [mbind outcome_bind]. rewrite product_value by (apply abs_range; assumption). rewrite signed_product, Z.abs_mul. reflexivity.
Qed.

(** *** Quotients *)

Lemma divMod_value x y : well_formed x → well_formed y → negatable x → negatable y → value y ≠ 0 → divMod x y = Ok (of_Z (Z.quot (value x) (value y)), of_Z (Z.rem (value x) (value y))).
Proof.
  intros Hx Hy Nx Ny Hne. pose proof (abs_range x Hx Nx) as Rx. pose proof (abs_range y Hy Ny) as Ry. unfold divMod. rewrite (magnitude x Hx Nx), (magnitude y Hy Ny). cbn [mbind outcome_bind]. rewrite divMod_positive by lia. cbn [mbind outcome_bind]. rewrite !sign by assumption.
  assert (Hq : 0 ≤ Z.abs (value x) / Z.abs (value y) < 2 ^ 127) by (split; [apply Z.div_pos; lia|]; apply Z.div_lt_upper_bound; nia). assert (Hr : 0 ≤ Z.abs (value x) mod Z.abs (value y) < 2 ^ 127) by (pose proof (Z.mod_pos_bound (Z.abs (value x)) (Z.abs (value y)) ltac:(lia)); lia).
  rewrite !signed_result by assumption. cbn [mbind outcome_bind]. rewrite (Z.quot_div (value x)), (Z.rem_mod (value x)) by exact Hne. do 2 f_equal; f_equal.
  - destruct (Z.ltb_spec (value x) 0), (Z.ltb_spec (value y) 0); cbn [xorb]; [rewrite !Z.sgn_neg by lia|rewrite (Z.sgn_neg (value x)), (Z.sgn_pos (value y)) by lia|rewrite (Z.sgn_neg (value y)) by lia|rewrite (Z.sgn_pos (value y)) by lia]; try lia; (destruct (decide (value x = 0)) as [E|E]; [rewrite E; reflexivity|rewrite Z.sgn_pos by lia; lia]).
  - destruct (Z.ltb_spec (value x) 0); [rewrite Z.sgn_neg by lia; lia|]. destruct (decide (value x = 0)) as [E|E]; [rewrite E; reflexivity|rewrite Z.sgn_pos by lia; lia].
Qed.

Lemma divMod_throws x y : well_formed x → well_formed y → ¬ negatable x ∨ ¬ negatable y → ∃ e, divMod x y = Throw e ∧ (e = cannot_negate ∨ e = UndefinedBehaviour "signed integer overflow").
Proof.
  intros Hx Hy [N|N]; unfold divMod; [destruct (not_negatable x Hx N) as (e & -> & He); exists e; auto|]. destruct (Z.le_decidable (- 2 ^ 127 + 2 ^ 64) (value x)) as [Nx|Nx]; [rewrite (magnitude x Hx Nx)|destruct (not_negatable x Hx Nx) as (e & -> & He); exists e; auto].
  cbn [mbind outcome_bind]. destruct (not_negatable y Hy N) as (e & -> & He). exists e. auto.
Qed.

(** *** Multiplication in pieces *)

Lemma pieces_product A B negative r : 0 ≤ A < 2 ^ 127 → 0 ≤ B < 2 ^ 127 →
  match multiply_limbs (2 ^ 64 - 2 ^ 31) (2 ^ 56 - 2 ^ 31) (limbs (uwrap 64 (high (of_Z A))) (low (of_Z A))) (limbs (uwrap 64 (high (of_Z B))) (low (of_Z B))) with
  | None => Ok (false, r)
  | Some (lo, hi) => with_sign negative (MkInt128 lo (swrap 64 hi))
  end = if A * B <? 2 ^ 127 then Ok (true, of_Z (if negative then - (A * B) else A * B)) else Ok (false, r).
Proof.
  intros HA HB. assert (Hp : 0 ≤ A * B) by nia. cbn [high low of_Z]. rewrite !high_unsigned by assumption. pose proof (high_range A HA). pose proof (high_range B HB). pose proof (Z.mod_pos_bound A (2 ^ 64) ltac:(lia)). pose proof (Z.mod_pos_bound B (2 ^ 64) ltac:(lia)).
  rewrite multiply_value by (auto; consts; lia). assert (E : ∀ z, z / 2 ^ 64 * 2 ^ 64 + z mod 2 ^ 64 = z) by (intros z; pose proof (Z.div_mod z (2 ^ 64) ltac:(lia)); lia). rewrite !E. change (2 ^ 31 * 2 ^ 96) with (2 ^ 127). destruct (Z.ltb_spec (A * B) (2 ^ 127)) as [H3|H3]; [|reflexivity].
  rewrite swrap_small by (pose proof (high_range (A * B) ltac:(lia)); consts; lia). change (MkInt128 (A * B mod 2 ^ 64) (A * B / 2 ^ 64)) with (of_Z (A * B)). unfold with_sign. rewrite signed_result by lia. reflexivity.
Qed.

Lemma portable_same x y r : well_formed x → well_formed y → tryMultiply_portable x y r = tryMultiply x y r.
Proof.
  intros Hx Hy. unfold tryMultiply_portable, tryMultiply. destruct (magnitudes_value x y Hx Hy) as [(e & E & _)|(Nx & Ny & E)]; rewrite E; [reflexivity|]. cbn [mbind outcome_bind]. rewrite product_value, pieces_product by (apply abs_range; assumption). reflexivity.
Qed.

(** *** Digits *)

Lemma of_Z_zero z : negb (high (of_Z z) =? 0) || negb (low (of_Z z) =? 0) = negb (z =? 0).
Proof. unfold of_Z. cbn [high low]. destruct (Z.eqb_spec z 0) as [->|Hne]; [reflexivity|]. cbn [negb]. apply orb_true_iff. rewrite !negb_true_iff, !Z.eqb_neq. arith. Qed.

Lemma toString_loop_value fuel : ∀ z s, 0 ≤ z < 2 ^ 127 → z < 10 ^ Z.of_nat fuel → toString_loop fuel (of_Z z) s = Ok (digits_of z s).
Proof.
  induction fuel as [|fuel IH]; intros z s Hz Hf; cbn [toString_loop]; rewrite of_Z_zero.
  - assert (z = 0) as -> by (change (10 ^ Z.of_nat 0) with 1 in Hf; lia). reflexivity.
  - destruct (Z.eqb_spec z 0) as [->|Hne]; [reflexivity|]. cbn [negb]. rewrite divModPositive_value by (consts; lia). cbn [mbind outcome_bind]. rewrite (digits_step z) by lia. rewrite Nat2Z.inj_succ, Z.pow_succ_r in Hf by lia. apply IH; [consts; Z.div_mod_to_equations; lia|]. apply Z.div_lt_upper_bound; lia.
Qed.
Lemma digits_value z : 0 ≤ z < 2 ^ 127 → digits (of_Z z) = Ok (pretty z).
Proof. intros Hz. unfold digits. rewrite toString_loop_value by (exact Hz || (pows; cbn; lia)). cbn [mbind outcome_bind]. rewrite digits_pretty by lia. reflexivity. Qed.

Lemma pretty_negative z : z < 0 → pretty z = "-" +:+ pretty (- z).
Proof. destruct z; [lia|lia|reflexivity]. Qed.

Lemma toString_value x : well_formed x → toString x = if bool_decide (value x = - 2 ^ 127 ∨ - 2 ^ 127 + 2 ^ 64 ≤ value x) then Ok (pretty (value x)) else undefined.
Proof.
  intros Hx. unfold toString. rewrite is_min, sign by exact Hx. pose proof (value_range x Hx) as Hr. destruct (Z.eqb_spec (value x) (- 2 ^ 127)) as [E|E].
  - rewrite bool_decide_eq_true_2 by auto. rewrite <- (of_Z_value x Hx), value_of_Z, E. vm_compute. reflexivity.
  - destruct (Z.ltb_spec (value x) 0) as [Hn|Hn].
    + destruct (Z.le_decidable (- 2 ^ 127 + 2 ^ 64) (value x)) as [N|N].
      * rewrite bool_decide_eq_true_2 by auto. rewrite <- (of_Z_value x Hx) at 1. rewrite negate_ok by (consts; lia). cbn [mbind outcome_bind]. rewrite digits_value by (consts; lia). rewrite (pretty_negative (value x)) by exact Hn. reflexivity.
      * rewrite bool_decide_eq_false_2 by tauto. rewrite negateInPlace_value by exact Hx. rewrite (proj2 (Z.eqb_neq _ _) E). pose proof Hx as [Hl Hh]. rewrite (proj2 (Z.eqb_eq _ _)) by (unfold value in *; consts; lia). reflexivity.
    + rewrite bool_decide_eq_true_2 by (consts; lia). rewrite <- (of_Z_value x Hx) at 1. apply digits_value. lia.
Qed.

(** *** Bits *)

Lemma bits_value a b : BinaryAnd (of_Z a) (of_Z b) = of_Z (Z.land a b) ∧ BinaryOr (of_Z a) (of_Z b) = of_Z (Z.lor a b) ∧ Xor (of_Z a) (of_Z b) = of_Z (Z.lxor a b) ∧ BinaryNot (of_Z a) = of_Z (Z.lnot a).
Proof.
  unfold BinaryAnd, BinaryOr, Xor, BinaryNot, of_Z. cbn [low high].
  destruct (land_halves Z.land andb a b) as [-> ->]; [apply Z.land_spec|intros; apply Z.shiftr_land|reflexivity|]. destruct (land_halves Z.lor orb a b) as [-> ->]; [apply Z.lor_spec|intros; apply Z.shiftr_lor|reflexivity|]. destruct (land_halves Z.lxor xorb a b) as [-> ->]; [apply Z.lxor_spec|intros; apply Z.shiftr_lxor|reflexivity|].
  split_and!; try reflexivity. unfold uwrap, Z.lnot. f_equal; arith.
Qed.

(** *** Shifts *)

Lemma swrap_halves w : of_Z (swrap 128 w) = MkInt128 (w mod 2 ^ 64) (swrap 64 (w / 2 ^ 64)).
Proof. unfold of_Z, swrap. change (128 - 1) with 127. change (64 - 1) with 63. f_equal; arith. Qed.

Lemma leftShift_value z n : - 2 ^ 127 ≤ z < 2 ^ 127 → 0 ≤ n < 128 → LeftShift (of_Z z) n = Ok (of_Z (swrap 128 (z * 2 ^ n))).
Proof.
  intros Hz Hn. unfold LeftShift, shift64. rewrite swrap_halves. destruct (of_Z_wf z Hz) as [Hl Hh]. pose proof (value_of_Z z) as Ev. unfold value in Ev. set (l := low (of_Z z)) in *. set (h := high (of_Z z)) in *. destruct (Z.leb_spec 64 n) as [Hge|Hlt].
  - rewrite (proj2 (Z.leb_le _ _)), (proj2 (Z.ltb_lt _ _)) by lia. cbn [andb]. rewrite Z.shiftl_mul_pow2 by lia. assert (E : z * 2 ^ n = z * 2 ^ (n - 64) * 2 ^ 64) by (rewrite <- Z.mul_assoc, <- Z.pow_add_r by lia; do 2 f_equal; lia). rewrite E, Z.mod_mul, Z.div_mul by lia. do 2 f_equal.
    destruct (swrap_spec 64 (l * 2 ^ (n - 64)) ltac:(lia)) as [Hr [q Hq]]. symmetry. apply (swrap_unique 64 _ _ (q + h * 2 ^ (n - 64))); [lia|exact Hr|]. rewrite <- Ev. rewrite Z.mul_add_distr_r, Hq at 1. ring.
  - destruct (Z.eqb_spec n 0) as [->|Hne].
    + rewrite Z.mul_1_r. rewrite <- swrap_halves. f_equal. f_equal. symmetry. apply (swrap_unique 128 _ _ 0); [lia|exact Hz|lia].
    + rewrite (proj2 (Z.leb_le _ _)), (proj2 (Z.ltb_lt _ _)) by lia. cbn [andb]. rewrite !Z.shiftl_mul_pow2, Z.shiftr_div_pow2 by lia. destruct (shift_over l h n Hl ltac:(lia)) as (E1 & E2 & E3). rewrite Ev in E1, E2. rewrite E1, E2. do 2 f_equal.
      destruct (swrap_spec (64 - n) h ltac:(lia)) as [Hr [q Hq]]. assert (E : 2 ^ 64 = 2 ^ (64 - n) * 2 ^ n) by (rewrite <- Z.pow_add_r by lia; f_equal; lia). assert (E' : 2 ^ 63 = 2 ^ (64 - n - 1) * 2 ^ n) by (rewrite <- Z.pow_add_r by lia; f_equal; lia). assert (Hp : 0 < 2 ^ n) by (apply Z.pow_pos_nonneg; lia).
      assert (Hpn : 2 ^ n ≤ 2 ^ 63) by (apply Z.pow_le_mono_r; lia). rewrite (swrap_small (l / 2 ^ (64 - n))) by lia. set (m := swrap (64 - n) h) in *. change (64 - 1) with 63.
      rewrite (swrap_unique 64 (h * 2 ^ n) (m * 2 ^ n) q) by (try lia; change (64 - 1) with 63; nia). rewrite lor_disjoint by lia. symmetry. apply (swrap_unique 64 _ _ q); [lia|change (64 - 1) with 63; nia|nia].
Qed.

Lemma rightShift_value z n : - 2 ^ 127 ≤ z < 2 ^ 127 → 0 ≤ n < 128 → RightShift (of_Z z) n = Ok (of_Z (z / 2 ^ n)).
Proof.
  intros Hz Hn. unfold RightShift, shift64. destruct (of_Z_wf z Hz) as [Hl Hh]. pose proof (value_of_Z z) as Ev. unfold value in Ev. set (l := low (of_Z z)) in *. set (h := high (of_Z z)) in *. destruct (Z.leb_spec 64 n) as [Hge|Hlt].
  - rewrite (proj2 (Z.leb_le _ _)), (proj2 (Z.ltb_lt _ _)) by lia. cbn [andb]. rewrite !Z.shiftr_div_pow2 by lia. assert (Hp : 0 < 2 ^ (n - 64)) by (apply Z.pow_pos_nonneg; lia). assert (E : z / 2 ^ n = h / 2 ^ (n - 64)) by (replace n with (64 + (n - 64)) at 1 by lia; rewrite Z.pow_add_r, <- Z.div_div by lia; f_equal; rewrite <- Ev, Z.div_add_l, Z.div_small by lia; lia).
    rewrite E. unfold of_Z. do 2 f_equal. assert (Hq : - 2 ^ 63 ≤ h / 2 ^ (n - 64) < 2 ^ 63) by (pose proof (Z.div_mod h (2 ^ (n - 64)) ltac:(lia)); pose proof (Z.mod_pos_bound h (2 ^ (n - 64)) Hp); nia). assert (Hs : (h < 0 ↔ h / 2 ^ (n - 64) < 0)) by (pose proof (Z.div_mod h (2 ^ (n - 64)) ltac:(lia)); pose proof (Z.mod_pos_bound h (2 ^ (n - 64)) Hp); nia).
    generalize dependent (h / 2 ^ (n - 64)). intros q _ Hq Hs. arith.
  - destruct (Z.eqb_spec n 0) as [->|Hne]; [rewrite Z.div_1_r; reflexivity|]. rewrite (proj2 (Z.leb_le _ _)), (proj2 (Z.ltb_lt _ _)) by lia. cbn [andb]. rewrite Z.shiftl_mul_pow2, !Z.shiftr_div_pow2 by lia. destruct (shift_back l h n Hl ltac:(lia)) as (_ & E2 & E3 & E4 & m & Em). rewrite Ev in E2, E3. unfold of_Z at 1. rewrite E2, E3. unfold uwrap. rewrite Em. rewrite Z.lor_comm, lor_disjoint by lia. reflexivity.
Qed.

(** *** Casts *)

Lemma castTo_value z : - 2 ^ 63 ≤ z < 2 ^ 64 → castTo z = of_Z z.
Proof. intros Hz. unfold castTo, of_Z, uwrap. f_equal. destruct (Z.ltb_spec z 0); arith. Qed.

(** To an integer type with this maximum. *)
Lemma tryCast_signed m x : well_formed x → 0 ≤ m < 2 ^ 63 → tryCast true m x = Ok (if (- m - 1 <=? value x) && (value x <=? m) then Some (value x) else None).
Proof.
  intros [Hl Hh] Hm. unfold tryCast, value. destruct x as [l h]. cbn [low high negb] in *. destruct (Z.eqb_spec h 0) as [->|H0]; [|destruct (Z.eqb_spec h (-1)) as [->|H1]]; f_equal; 
    repeat match goal with |- context [?a <=? ?b] => destruct (Z.leb_spec a b); cbn [andb] end; try solve [exfalso; arith]; try reflexivity; f_equal; arith.
Qed.
Lemma tryCast_unsigned m x : well_formed x → 0 ≤ m < 2 ^ 64 →
  tryCast false m x = if (- 2 ^ 64 <=? value x) && (value x <? 0) then Throw (OverflowException ("Cast failed. Cannot cast " +:+ pretty (value x) +:+ " to unsigned type.")) else Ok (if (0 <=? value x) && (value x <=? m) then Some (value x) else None).
Proof.
  intros Hx Hm. unfold tryCast. rewrite toString_value by exact Hx. pose proof Hx as [Hl Hh]. cbn [negb]. destruct (Z.eqb_spec (high x) 0) as [E0|H0]; [|destruct (Z.eqb_spec (high x) (-1)) as [E1|H1]].
  - assert (Ev : value x = low x) by (unfold value; rewrite E0; lia). rewrite Ev. rewrite (proj2 (Z.ltb_ge _ 0)), andb_false_r, (proj2 (Z.leb_le 0 _)) by lia. reflexivity.
  - assert (Hv : - 2 ^ 64 ≤ value x < 0) by (unfold value; rewrite E1; lia). rewrite (proj2 (Z.leb_le (- 2 ^ 64) _)), (proj2 (Z.ltb_lt _ 0)) by lia. rewrite bool_decide_eq_true_2 by (consts; lia). reflexivity.
  - assert (Hv : value x < - 2 ^ 64 ∨ 2 ^ 64 ≤ value x) by (unfold value; consts; lia). destruct (Z.leb_spec (- 2 ^ 64) (value x)), (Z.ltb_spec (value x) 0), (Z.leb_spec 0 (value x)), (Z.leb_spec (value x) m); try lia; reflexivity.
Qed.

(** ** The theorems *)

(** C34. Adding and subtracting 128-bit integers is exact or throws, and throws exactly when the result does not fit, or is the least value in a subtraction. It is undefined when the
    sum or difference of the high halves alone does not fit although the result does. *)
Theorem int128_sums_exact x y (s := value x + value y) (d := value x - value y) : well_formed x → well_formed y →
  Add x y = (if add_undefined x y then undefined else if in_range s then Ok (of_Z s) else Throw (OverflowException "INT128 is out of range: cannot add.")) ∧
  Sub x y = (if sub_undefined x y then undefined else if in_range d && negb (d =? - 2 ^ 127) then Ok (of_Z d) else Throw (OverflowException "INT128 is out of range: cannot subtract.")).
Proof.
  intros Hx Hy. unfold s, d, Add, Sub. rewrite addInPlace_value, subInPlace_value by assumption. split.
  - destruct (add_undefined x y); [reflexivity|]. destruct (in_range _); reflexivity.
  - destruct (sub_undefined x y); [reflexivity|]. destruct (in_range _); [|reflexivity]. cbn [andb]. destruct (negb _); reflexivity.
Qed.

Lemma is_zero x : well_formed x → (high x =? 0) && (low x =? 0) = (value x =? 0).
Proof. intros [Hl Hh]. unfold value. destruct (Z.eqb_spec (high x * 2 ^ 64 + low x) 0); [apply andb_true_iff|apply andb_false_iff]; rewrite ?Z.eqb_eq, ?Z.eqb_neq; arith. Qed.

(** C35. Products, quotients and remainders of 128-bit integers are exact, quotients towards zero, or throw: a product when its magnitude does not fit, a division when the divisor is zero. This holds
    of operands from [- 2 ^ 127 + 2 ^ 64] on, whose negation is defined. *)
Theorem int128_products_exact x y : well_formed x → well_formed y → negatable x → negatable y →
  Mul x y = (if Z.abs (value x * value y) <? 2 ^ 127 then Ok (of_Z (value x * value y)) else Throw (OverflowException "INT128 is out of range: cannot multiply.")) ∧
  Div x y = (if value y =? 0 then Throw (RuntimeException "Divide by zero.") else Ok (of_Z (Z.quot (value x) (value y)))) ∧
  Mod x y = (if value y =? 0 then Throw (RuntimeException "Modulo by zero.") else Ok (of_Z (Z.rem (value x) (value y)))).
Proof.
  intros Hx Hy Nx Ny. unfold Mul, Div, Mod. rewrite tryMultiply_value, !is_zero by assumption. split; [destruct (_ <? _); reflexivity|]. destruct (Z.eqb_spec (value y) 0) as [E|E]; [auto|]. rewrite divMod_value by assumption. auto.
Qed.

(** The operands it leaves out: the least value and those whose negation overflows. *)
Lemma int128_extremes x y : well_formed x → well_formed y → ¬ negatable x ∨ ¬ negatable y → value y ≠ 0 →
  ∃ e e', (e = cannot_negate ∨ e = UndefinedBehaviour "signed integer overflow") ∧ Mul x y = Throw e ∧ (e' = cannot_negate ∨ e' = UndefinedBehaviour "signed integer overflow") ∧ Div x y = Throw e' ∧ Mod x y = Throw e'.
Proof.
  intros Hx Hy Hn Hne. unfold Mul, Div, Mod, tryMultiply. rewrite !is_zero, (proj2 (Z.eqb_neq _ _) Hne) by assumption. destruct (magnitudes_value x y Hx Hy) as [(e & E & _ & He)|(Nx & Ny & _)]; [|tauto]. rewrite E. destruct (divMod_throws x y Hx Hy Hn) as (e' & -> & He'). exists e, e'. auto.
Qed.

(** The multiplication in 32-bit pieces, for compilers without a 128-bit type, gives what the other one gives: same result, same overflows, signed and unsigned. *)
Theorem portable_multiply_same x y r x' y' r' : well_formed x → well_formed y → UInt128Spec.well_formed x' → UInt128Spec.well_formed y' →
  tryMultiply_portable x y r = tryMultiply x y r ∧ UInt128.tryMultiply_portable x' y' r' = UInt128.tryMultiply x' y' r'.
Proof. intros Hx Hy Hx' Hy'. split; [exact (portable_same x y r Hx Hy)|]. rewrite UInt128Spec.tryMultiply_portable_value, UInt128Spec.u_tryMultiply_value by assumption. reflexivity. Qed.

(** Bit operations, shifts by less than the width and comparisons of 128-bit integers are those of integers in two's complement, and text is the decimal number (undefined for the values whose
    negation is). *)
Theorem int128_bits_and_text x y n : well_formed x → well_formed y → 0 ≤ n < 128 →
  BinaryAnd x y = of_Z (Z.land (value x) (value y)) ∧ BinaryOr x y = of_Z (Z.lor (value x) (value y)) ∧ Xor x y = of_Z (Z.lxor (value x) (value y)) ∧ BinaryNot x = of_Z (Z.lnot (value x)) ∧
  LeftShift x n = Ok (of_Z (swrap 128 (value x * 2 ^ n))) ∧ RightShift x n = Ok (of_Z (value x / 2 ^ n)) ∧
  lessThan x y = (value x <? value y) ∧ lessThanOrEquals x y = (value x <=? value y) ∧ equals x y = (value x =? value y) ∧
  toString x = (if bool_decide (value x = - 2 ^ 127 ∨ negatable x) then Ok (pretty (value x)) else undefined).
Proof.
  intros Hx Hy Hn. pose proof (value_range x Hx). destruct (bits_value (value x) (value y)) as (B1 & B2 & B3 & B4). rewrite (of_Z_value x Hx) in B1, B2, B3, B4. rewrite (of_Z_value y Hy) in B1, B2, B3. pose proof (leftShift_value (value x) n ltac:(lia) Hn) as S1. pose proof (rightShift_value (value x) n ltac:(lia) Hn) as S2. rewrite (of_Z_value x Hx) in S1, S2.
  destruct (compare_value x y Hx Hy) as (C1 & _ & C3 & C4 & _ & _). split_and!; try assumption. exact (toString_value x Hx).
Qed.

(** The bit operations stay within 128 bits. *)
Lemma range_shift k z : 0 ≤ k → - 2 ^ k ≤ z < 2 ^ k ↔ Z.shiftr z k = 0 ∨ Z.shiftr z k = -1.
Proof. intros Hk. assert (Hp : 0 < 2 ^ k) by (apply Z.pow_pos_nonneg; lia). rewrite Z.shiftr_div_pow2 by exact Hk. pose proof (Z.div_mod z (2 ^ k) ltac:(lia)). pose proof (Z.mod_pos_bound z (2 ^ k) Hp). nia. Qed.
Lemma bit_range (f : Z → Z → Z) a b : (∀ x y n, 0 ≤ n → Z.shiftr (f x y) n = f (Z.shiftr x n) (Z.shiftr y n)) → (∀ u v, u = 0 ∨ u = -1 → v = 0 ∨ v = -1 → f u v = 0 ∨ f u v = -1) → - 2 ^ 127 ≤ a < 2 ^ 127 → - 2 ^ 127 ≤ b < 2 ^ 127 → - 2 ^ 127 ≤ f a b < 2 ^ 127.
Proof. intros Hs Hf Ha Hb. apply range_shift; [lia|]. rewrite Hs by lia. apply Hf; apply range_shift; (lia || assumption). Qed.

Lemma bits_typed x y : well_formed x → well_formed y → well_formed (BinaryAnd x y) ∧ well_formed (BinaryOr x y) ∧ well_formed (Xor x y) ∧ well_formed (BinaryNot x).
Proof.
  intros Hx Hy. pose proof (value_range x Hx). pose proof (value_range y Hy). rewrite <- (of_Z_value x Hx), <- (of_Z_value y Hy). destruct (bits_value (value x) (value y)) as (-> & -> & -> & ->). 
  split_and!; apply of_Z_wf; [apply bit_range| apply bit_range|apply bit_range|unfold Z.lnot; lia]; try assumption; try (intros; first [apply Z.shiftr_land|apply Z.shiftr_lor|apply Z.shiftr_lxor]); intros u v [-> | ->] [-> | ->]; auto.
Qed.

(** *** At values *)

Ltac wf := vm_compute; split; split; congruence.
Lemma int128_sums_exact_witness : Add (of_Z (2 ^ 127 - 2)) (of_Z 1) = Ok (of_Z (2 ^ 127 - 1)) ∧ Sub (of_Z (- 5)) (of_Z (2 ^ 127 - 1)) = Throw (OverflowException "INT128 is out of range: cannot subtract.").
Proof.
  split; [rewrite (proj1 (int128_sums_exact (of_Z (2 ^ 127 - 2)) (of_Z 1) ltac:(wf) ltac:(wf)))|rewrite (proj2 (int128_sums_exact (of_Z (- 5)) (of_Z (2 ^ 127 - 1)) ltac:(wf) ltac:(wf)))]; vm_compute; reflexivity.
Defined.
Lemma int128_products_exact_witness : Mul (of_Z (- 10 ^ 20)) (of_Z (10 ^ 18)) = Ok (of_Z (- 10 ^ 38)) ∧ Div (of_Z (- 10 ^ 20)) (of_Z 0) = Throw (RuntimeException "Divide by zero.").
Proof.
  split; [rewrite (proj1 (int128_products_exact (of_Z (- 10 ^ 20)) (of_Z (10 ^ 18)) ltac:(wf) ltac:(wf) ltac:(vm_compute; congruence) ltac:(vm_compute; congruence)))|
    rewrite (proj1 (proj2 (int128_products_exact (of_Z (- 10 ^ 20)) (of_Z 0) ltac:(wf) ltac:(wf) ltac:(vm_compute; congruence) ltac:(vm_compute; congruence))))]; vm_compute; reflexivity.
Defined.
Lemma portable_multiply_same_witness : tryMultiply_portable (of_Z (- 10 ^ 20)) (of_Z (10 ^ 18)) (of_Z 0) = Ok (true, of_Z (- 10 ^ 38)).
Proof. rewrite (proj1 (portable_multiply_same (of_Z (- 10 ^ 20)) (of_Z (10 ^ 18)) (of_Z 0) UInt128.one UInt128.one UInt128.one ltac:(wf) ltac:(wf) ltac:(wf) ltac:(wf))). vm_compute. reflexivity. Defined.
Lemma int128_bits_and_text_witness : BinaryAnd (of_Z (- 1)) (of_Z (2 ^ 70 + 5)) = of_Z (2 ^ 70 + 5) ∧ toString (of_Z (- 1)) = Ok "-1".
Proof.
  pose proof (int128_bits_and_text (of_Z (- 1)) (of_Z (2 ^ 70 + 5)) 9 ltac:(wf) ltac:(wf) ltac:(lia)) as H. split; [exact (proj1 H)|]. rewrite (proj2 (proj2 (proj2 (proj2 (proj2 (proj2 (proj2 (proj2 (proj2 H))))))))). vm_compute. reflexivity.
Defined.
(** *** What the code does at the ends of the range *)

(** A difference that is the least value is refused, although a sum may be it. *)
Theorem sub_refuses_least : Sub (of_Z (- 2 ^ 127 + 1)) (of_Z 1) = Throw (OverflowException "INT128 is out of range: cannot subtract.") ∧ Add (of_Z (- 2 ^ 127)) (of_Z 0) = Ok (of_Z (- 2 ^ 127)).
Proof. vm_compute. auto. Qed.
(** Sums and differences that fit are undefined when their high halves overflow before the carry. *)
Theorem sums_overflow_before_carry : Add (of_Z (- 2 ^ 127 + 1)) (of_Z (- 1)) = undefined ∧ Sub (of_Z ((2 ^ 63 - 1) * 2 ^ 64)) (of_Z (- 1)) = undefined.
Proof. vm_compute. auto. Qed.
(** The negation of a value whose high half is the least one is undefined, and with it products, quotients and text. *)
Theorem negate_overflows : negateInPlace (of_Z (- 2 ^ 127 + 1)) = undefined ∧ Mul (of_Z (- 2 ^ 127 + 1)) (of_Z 1) = undefined ∧ toString (of_Z (- 2 ^ 127 + 1)) = undefined ∧ Div (of_Z (- 2 ^ 127)) (of_Z 1) = Throw cannot_negate.
Proof. vm_compute. auto. Qed.
End Int128Theorems.

Module UInt128Theorems.
Import UInt128 UInt128Spec.

Lemma u_bits_value a b : BinaryAnd (of_Z a) (of_Z b) = of_Z (Z.land a b) ∧ BinaryOr (of_Z a) (of_Z b) = of_Z (Z.lor a b) ∧ Xor (of_Z a) (of_Z b) = of_Z (Z.lxor a b).
Proof.
  unfold BinaryAnd, BinaryOr, Xor, of_Z. cbn [low high].
  destruct (land_halves Z.land andb a b) as [-> ->]; [apply Z.land_spec|intros; apply Z.shiftr_land|reflexivity|]. destruct (land_halves Z.lor orb a b) as [-> ->]; [apply Z.lor_spec|intros; apply Z.shiftr_lor|reflexivity|]. destruct (land_halves Z.lxor xorb a b) as [-> ->]; [apply Z.lxor_spec|intros; apply Z.shiftr_lxor|reflexivity|]. auto.
Qed.

Lemma not_value x : well_formed x → BinaryNot x = of_Z (2 ^ 128 - 1 - value x) ∧ negateInPlace x = of_Z ((- value x) mod 2 ^ 128).
Proof.
  intros [Hl Hh]. unfold BinaryNot, negateInPlace, of_Z, value, uwrap, Z.lnot. destruct x as [l h]. cbn [low high] in *. split; [f_equal; arith|]. assert (El : (UINT64_MAX + 1 - l) mod 2 ^ 64 = (- (h * 2 ^ 64 + l)) mod 2 ^ 128 mod 2 ^ 64) by arith. rewrite El. f_equal. destruct (Z.eqb_spec ((- (h * 2 ^ 64 + l)) mod 2 ^ 128 mod 2 ^ 64) 0); arith.
Qed.

Lemma mod_halves w : 0 ≤ w → of_Z (w mod 2 ^ 128) = MkUInt128 (w mod 2 ^ 64) (w / 2 ^ 64 mod 2 ^ 64).
Proof. intros Hw. unfold of_Z. f_equal; arith. Qed.

Lemma u_leftShift_value z n : 0 ≤ z < 2 ^ 128 → 0 ≤ n < 128 → LeftShift (of_Z z) n = Ok (of_Z ((z * 2 ^ n) mod 2 ^ 128)).
Proof.
  intros Hz Hn. assert (Hp : 0 < 2 ^ n) by (apply Z.pow_pos_nonneg; lia). unfold LeftShift, Int128.shift64, uwrap. rewrite mod_halves by nia. destruct (u_of_Z_wf z Hz) as [Hl Hh]. pose proof (u_value_of_Z z) as Ev. unfold value in Ev. set (l := low (of_Z z)) in *. set (h := high (of_Z z)) in *. destruct (Z.leb_spec 64 n) as [Hge|Hlt].
  - rewrite (proj2 (Z.leb_le _ _)), (proj2 (Z.ltb_lt _ _)) by lia. cbn [andb]. rewrite Z.shiftl_mul_pow2 by lia. assert (E : z * 2 ^ n = z * 2 ^ (n - 64) * 2 ^ 64) by (rewrite <- Z.mul_assoc, <- Z.pow_add_r by lia; do 2 f_equal; lia). rewrite E, Z.mod_mul, Z.div_mul by lia. do 2 f_equal.
    rewrite <- Ev. replace ((h * 2 ^ 64 + l) * 2 ^ (n - 64)) with (l * 2 ^ (n - 64) + h * 2 ^ (n - 64) * 2 ^ 64) by ring. rewrite Z.mod_add by lia. reflexivity.
  - destruct (Z.eqb_spec n 0) as [->|Hne].
    + rewrite Z.mul_1_r. rewrite <- mod_halves, Z.mod_small by lia. reflexivity.
    + rewrite (proj2 (Z.leb_le _ _)), (proj2 (Z.ltb_lt _ _)) by lia. cbn [andb]. rewrite !Z.shiftl_mul_pow2, Z.shiftr_div_pow2 by lia. destruct (shift_over l h n Hl ltac:(lia)) as (E1 & E2 & E3). rewrite Ev in E1, E2. rewrite E1, E2. do 2 f_equal.
      assert (E : 2 ^ 64 = 2 ^ (64 - n) * 2 ^ n) by (rewrite <- Z.pow_add_r by lia; f_equal; lia). assert (Hp' : 0 < 2 ^ (64 - n)) by (apply Z.pow_pos_nonneg; lia).
      assert (Em : h * 2 ^ n mod 2 ^ 64 = h mod 2 ^ (64 - n) * 2 ^ n) by (rewrite E; apply Z.mul_mod_distr_r; lia). rewrite Em, lor_disjoint by lia. pose proof (Z.mod_pos_bound h (2 ^ (64 - n)) Hp') as Hm. pose proof (Z.div_mod h (2 ^ (64 - n)) ltac:(lia)) as Hd.
      apply (Z.mod_unique _ _ (h / 2 ^ (64 - n))); [left; rewrite E; generalize dependent (2 ^ (64 - n)); generalize dependent (2 ^ n); intros; nia|]. rewrite E. rewrite Hd at 1. ring.
Qed.

Lemma u_rightShift_value z n : 0 ≤ z < 2 ^ 128 → 0 ≤ n < 128 → RightShift (of_Z z) n = Ok (of_Z (z / 2 ^ n)).
Proof.
  intros Hz Hn. unfold RightShift, Int128.shift64. destruct (u_of_Z_wf z Hz) as [Hl Hh]. pose proof (u_value_of_Z z) as Ev. unfold value in Ev. set (l := low (of_Z z)) in *. set (h := high (of_Z z)) in *. destruct (Z.leb_spec 64 n) as [Hge|Hlt].
  - rewrite (proj2 (Z.leb_le _ _)), (proj2 (Z.ltb_lt _ _)) by lia. cbn [andb]. rewrite !Z.shiftr_div_pow2 by lia. assert (Hp : 0 < 2 ^ (n - 64)) by (apply Z.pow_pos_nonneg; lia). assert (E : z / 2 ^ n = h / 2 ^ (n - 64)) by (replace n with (64 + (n - 64)) at 1 by lia; rewrite Z.pow_add_r, <- Z.div_div by lia; f_equal; rewrite <- Ev, Z.div_add_l, Z.div_small by lia; lia).
    rewrite E. assert (Hq : 0 ≤ h / 2 ^ (n - 64) < 2 ^ 64) by (split; [apply Z.div_pos; lia|apply Z.div_lt_upper_bound; nia]). unfold of_Z. rewrite (Z.mod_small _ _ Hq), (Z.div_small _ _ Hq). reflexivity.
  - destruct (Z.eqb_spec n 0) as [->|Hne]; [rewrite Z.div_1_r; reflexivity|]. rewrite (proj2 (Z.leb_le _ _)), (proj2 (Z.ltb_lt _ _)) by lia. cbn [andb]. rewrite Z.shiftl_mul_pow2, !Z.shiftr_div_pow2 by lia. destruct (shift_back l h n Hl ltac:(lia)) as (_ & E2 & E3 & E4 & m & Em). rewrite Ev in E2, E3. unfold of_Z at 1. rewrite E2, E3. unfold uwrap. rewrite Em. rewrite Z.lor_comm, lor_disjoint by lia. reflexivity.
Qed.

Lemma u_is_zero x : well_formed x → (high x =? 0) && (low x =? 0) = (value x =? 0).
Proof. intros [Hl Hh]. unfold value. destruct (Z.eqb_spec (high x * 2 ^ 64 + low x) 0); [apply andb_true_iff|apply andb_false_iff]; rewrite ?Z.eqb_eq, ?Z.eqb_neq; arith. Qed.

(** Between signed and unsigned. *)
Lemma toSigned_value x : well_formed x → toSigned x = if value x <? 2 ^ 127 then Some (Int128Spec.of_Z (value x)) else None.
Proof.
  intros [Hl Hh]. unfold toSigned, Int128Spec.of_Z, value. destruct x as [l h]. cbn [low high] in *. destruct (Z.ltb_spec INT64_MAX h), (Z.ltb_spec (h * 2 ^ 64 + l) (2 ^ 127)); try solve [exfalso; arith]; [reflexivity|]. do 2 f_equal; arith.
Qed.
Lemma ofSigned_value x : Int128Spec.well_formed x → ofSigned x = if Int128Spec.value x <? 0 then None else Some (of_Z (Int128Spec.value x)).
Proof.
  intros Hx. unfold ofSigned. rewrite Int128Spec.sign by exact Hx. destruct Hx as [Hl Hh]. unfold of_Z, uwrap, Int128Spec.value in *. destruct x as [l h]. cbn [Int128.low Int128.high] in *. destruct (Z.ltb_spec (h * 2 ^ 64 + l) 0); [reflexivity|]. do 2 f_equal; arith.
Qed.

(** A signed 128-bit integer that is not negative comes back from its conversion to an unsigned one, an unsigned one below [2 ^ 127] from its conversion to a signed one; the
    others are refused with their decimal number. *)
Theorem int128_conversions x y : Int128Spec.well_formed x → well_formed y →
  (to_uint128 x ≫= to_int128) = (if 0 <=? Int128Spec.value x then Ok x else if bool_decide (Int128Spec.value x = - 2 ^ 127 ∨ Int128Theorems.negatable x) then Throw (OverflowException ("Cannot cast negative INT128 value " +:+ pretty (Int128Spec.value x) +:+ " to UINT128")) else Int128Spec.undefined) ∧
  (to_int128 y ≫= to_uint128) = (if value y <? 2 ^ 127 then Ok y else Throw (OverflowException ("Value " +:+ pretty (value y) +:+ " is not within INT128 range."))).
Proof.
  intros Hx Hy. pose proof (Int128Spec.value_range x Hx) as Rx. pose proof (u_value_range y Hy) as Ry. unfold to_uint128, to_int128. rewrite ofSigned_value, toSigned_value by assumption. split.
  - rewrite Z.ltb_antisym. destruct (Z.leb_spec 0 (Int128Spec.value x)) as [H|H]; cbn [negb mbind outcome_bind].
    + rewrite toSigned_value by (apply u_of_Z_wf; consts; lia). rewrite u_value_of_Z, (proj2 (Z.ltb_lt _ _)) by lia. rewrite Int128Spec.of_Z_value by exact Hx. reflexivity.
    + rewrite Int128Theorems.toString_value by exact Hx. unfold Int128Theorems.negatable. destruct (bool_decide _); reflexivity.
  - destruct (Z.ltb_spec (value y) (2 ^ 127)) as [H|H]; cbn [mbind outcome_bind].
    + rewrite ofSigned_value by (apply Int128Spec.of_Z_wf; consts; lia). rewrite Int128Spec.value_of_Z, (proj2 (Z.ltb_ge _ _)) by lia. rewrite u_of_Z_value by exact Hy. reflexivity.
    + rewrite <- (u_of_Z_value y Hy) at 1. rewrite u_toString_value by exact Ry. reflexivity.
Qed.

(** C36. Arithmetic of unsigned 128-bit integers is exact or throws, and throws exactly when the result is not one; only the sum of two values that both end in the last
    [2 ^ 64] wraps around when the low halves carry. Text is the decimal number, and shifts by less than the width and conversions to signed ones are those of the values. *)
Theorem uint128_exact x y n (s := value x + value y) : well_formed x → well_formed y → 0 ≤ n < 128 →
  Add x y = (if s <? 2 ^ 128 then Ok (of_Z s) else if unnoticed x y then Ok (of_Z (s - 2 ^ 128)) else Throw (OverflowException "UINT128 is out of range: cannot add.")) ∧
  Sub x y = (if value x <? value y then Throw (OverflowException "UINT128 is out of range: cannot subtract.") else Ok (of_Z (value x - value y))) ∧
  Mul x y = (if value x * value y <? 2 ^ 128 then Ok (of_Z (value x * value y)) else Throw (OverflowException "UINT128 is out of range: cannot multiply.")) ∧
  Div x y = (if value y =? 0 then Throw (RuntimeException "Divide by zero.") else Ok (of_Z (value x / value y))) ∧
  Mod x y = (if value y =? 0 then Throw (RuntimeException "Modulo by zero.") else Ok (of_Z (value x mod value y))) ∧
  LeftShift x n = Ok (of_Z ((value x * 2 ^ n) mod 2 ^ 128)) ∧ RightShift x n = Ok (of_Z (value x / 2 ^ n)) ∧ toString x = Ok (pretty (value x)) ∧
  toSigned x = (if value x <? 2 ^ 127 then Some (Int128Spec.of_Z (value x)) else None).
Proof.
  intros Hx Hy Hn. pose proof (u_value_range x Hx) as Rx. pose proof (u_value_range y Hy) as Ry. pose proof (u_leftShift_value (value x) n Rx Hn) as S1. pose proof (u_rightShift_value (value x) n Rx Hn) as S2. pose proof (u_toString_value (value x) Rx) as T. rewrite (u_of_Z_value x Hx) in S1, S2, T. pose proof (toSigned_value x Hx) as Q.
  unfold s, Add, Sub, Mul, Div, Mod. rewrite u_addInPlace_value, u_subInPlace_value, u_tryMultiply_value, !u_is_zero by assumption. split_and!; try assumption; [destruct (value x + value y <? 2 ^ 128); [|destruct (unnoticed x y)]; reflexivity|destruct (value x <? value y); reflexivity|destruct (value x * value y <? 2 ^ 128); reflexivity|..]; (destruct (Z.eqb_spec (value y) 0) as [E|E]; [reflexivity|]); pose proof (u_divMod_value (value x) (value y) Rx ltac:(lia)) as D; rewrite (u_of_Z_value x Hx), (u_of_Z_value y Hy) in D; rewrite D; reflexivity.
Qed.

(** The witnesses. *)
Abbreviation max128 := (2 ^ 128 - 1).
Lemma uint128_exact_witness : Add (of_Z max128) (of_Z 1) = Throw (OverflowException "UINT128 is out of range: cannot add.") ∧ Div (of_Z max128) (of_Z 10) = Ok (of_Z 34028236692093846346337460743176821145) ∧ Sub (of_Z 1) (of_Z 2) = Throw (OverflowException "UINT128 is out of range: cannot subtract.").
Proof.
  split_and!.
  - rewrite (proj1 (uint128_exact (of_Z max128) (of_Z 1) 3 ltac:(vm_compute; split; split; congruence) ltac:(vm_compute; split; split; congruence) ltac:(lia))). vm_compute. reflexivity.
  - rewrite (proj1 (proj2 (proj2 (proj2 (uint128_exact (of_Z max128) (of_Z 10) 3 ltac:(vm_compute; split; split; congruence) ltac:(vm_compute; split; split; congruence) ltac:(lia)))))). vm_compute. reflexivity.
  - rewrite (proj1 (proj2 (uint128_exact (of_Z 1) (of_Z 2) 3 ltac:(vm_compute; split; split; congruence) ltac:(vm_compute; split; split; congruence) ltac:(lia)))). vm_compute. reflexivity.
Defined.
Lemma int128_conversions_witness : (to_uint128 (Int128Spec.of_Z (2 ^ 100)) ≫= to_int128) = Ok (Int128Spec.of_Z (2 ^ 100)).
Proof. rewrite (proj1 (int128_conversions (Int128Spec.of_Z (2 ^ 100)) (of_Z 0) ltac:(vm_compute; split; split; congruence) ltac:(vm_compute; split; split; congruence))). vm_compute. reflexivity. Defined.

(** *** What the code does at the end of the range *)

(** The sum of the greatest value and itself is not refused. *)
Theorem uint128_add_wraps : Add (of_Z max128) (of_Z max128) = Ok (of_Z (2 ^ 128 - 2)).
Proof. vm_compute. reflexivity. Qed.
End UInt128Theorems.
