(* ===== verification/Bitpacking.v ===== *)
(** * Bit packing of integers

    storage/compression/bitpacking_utils.cpp, bitpacking_int128.cpp, sign_extend.h and [IntegerBitpacking] of storage/compression/compression.{h,cpp}: values of a column
    stored with the bits they need, one after the other in a page, read and written one by one or 32 at a time. The packing of 32 values of up to 64 bits is
    that of third_party/fastpfor ([FastPForLib]). A page is a list of bytes; values in memory are lists of their unsigned representations. *)

From stdpp Require Import base numbers list strings.
From Stdlib Require Import ZArith Lia.
From S2P Require Import Prelude Serializer NullMask Date Int128.
Import Serializer.

#[local] Open Scope Z_scope.

Module BitpackingUtils.

Definition past_end : exn := UndefinedBehaviour "access past the end of a buffer".

(** The [i]-th word of [cb] bits of a buffer. *)
Definition load_word (cb : Z) (buf : list Z) (i : Z) : outcome Z :=
  let n := Z.to_nat (cb / 8) in
  let pos := (Z.to_nat i * n)%nat in
  if (pos + n <=? length buf)%nat then Ok (le_value (take n (drop pos buf))) else Throw past_end.
Definition store_word (cb : Z) (buf : list Z) (i x : Z) : outcome (list Z) :=
  let n := Z.to_nat (cb / 8) in
  let pos := (Z.to_nat i * n)%nat in
  if (pos + n <=? length buf)%nat then Ok (take pos buf ++ le_bytes n x ++ drop (pos + n) buf) else Throw past_end.

(** What packing needs of [UncompressedType]. *)
Class UncompressedType (U : Type) := {
  sizeBits : Z;
  of_word : Z → U;
  to_word : Z → U → Z;
  u_shl : U → Z → outcome U;
  u_shr : U → Z → outcome U;
  u_and : U → U → U;
  u_or : U → U → U;
  all1sMaskForLeastSignificantBits : Z → outcome U;
}.
Arguments sizeBits U {_} : assert.

(** Unsigned machine integers of [w] bits; those below 32 bits are shifted as [int]. *)
Definition shift_ok (w n : Z) : bool := (0 <=? n) && (n <? Z.max 32 w).
Definition shift_undefined : exn := UndefinedBehaviour "shift by the width of the operand or more".
Definition machine (w : Z) : UncompressedType Z := {|
  sizeBits := w;
  of_word := uwrap w;
  to_word := uwrap;
  u_shl x n := if shift_ok w n then Ok (uwrap w (Z.shiftl x n)) else Throw shift_undefined;
  u_shr x n := if shift_ok w n then Ok (Z.shiftr x n) else Throw shift_undefined;
  u_and := Z.land;
  u_or := Z.lor;
  all1sMaskForLeastSignificantBits numBits :=
    ku_assert_o (numBits <=? 64);;
    if numBits =? w then Ok (2 ^ w - 1) else if shift_ok w numBits then Ok (uwrap w (Z.shiftl 1 numBits - 1)) else Throw shift_undefined |}.

(** [int128_t], with its own operators; the number of bits to discard is passed as an [int]. *)
#[export] Instance int128 : UncompressedType Int128.int128_t := {|
  sizeBits := 128;
  of_word := Int128.castTo;
  to_word := Int128.NarrowCast;
  u_shl := Int128.LeftShift;
  u_shr := Int128.RightShift;
  u_and := Int128.BinaryAnd;
  u_or := Int128.BinaryOr;
  all1sMaskForLeastSignificantBits numBits :=
    top ← Int128.LeftShift (Int128.castTo 1) 127;
    Int128.RightShift (Int128.BinaryNot top) (swrap 32 (127 - numBits)) |}.

Section Packing.
Context (U : Type) `{!UncompressedType U}.

(** [sizeof(CompressedType) * 8] *)
Definition sizeOfCompressedTypeBits : Z := if 32 <=? sizeBits U then 32 else 8.
Local Abbreviation cb := sizeOfCompressedTypeBits.

Fixpoint unpackSingleField (compressed_field : nat) (buf : list Z) (in_ shiftRight : Z) : outcome U :=
  match compressed_field with
  | O => x ← load_word cb buf in_; u_shr (of_word x) shiftRight
  | S f =>
      out ← unpackSingleField f buf in_ shiftRight;
      let shift := Z.of_nat compressed_field * cb - shiftRight in
      ku_assert_o (shift <? sizeBits U);;
      x ← load_word cb buf (in_ + Z.of_nat compressed_field);
      y ← u_shl (of_word x) shift;
      Ok (u_or out y)
  end.

(** The last field that a value of this many bits reaches, from the first bit of its first field on. *)
Definition lastField (bits : Z) : nat :=
  if bits <=? cb then 0
  else if (cb <? bits) && (bits <=? 2 * cb) then 1
  else if (2 * cb <? bits) && (bits <=? 3 * cb) then 2
  else if (3 * cb <? bits) && (bits <=? 4 * cb) then 3
  else 4.

Definition unpackSingleValueInPlace (buf : list Z) (in_ delta shiftRight : Z) : outcome U :=
  out ← unpackSingleField (lastField (delta + shiftRight)) buf in_ shiftRight;
  mask ← all1sMaskForLeastSignificantBits delta;
  Ok (u_and out mask).

Definition setValueForBitsMatchingMask (shiftRight : bool) (out : Z) (unshiftedValue unshiftedMask : U) (shift : Z) : outcome Z :=
  v ← (if shiftRight then u_shr (u_and unshiftedValue unshiftedMask) shift else u_shl (u_and unshiftedValue unshiftedMask) shift);
  m ← (if shiftRight then u_shr unshiftedMask shift else u_shl unshiftedMask shift);
  let valueToSet := to_word cb v in
  let mask := to_word cb m in
  let bitsToSet := Z.land valueToSet mask in
  let bitsToClear := uwrap cb (Z.lor (Z.lnot mask) valueToSet) in
  Ok (Z.land (Z.lor out bitsToSet) bitsToClear).

Fixpoint packSingleField (compressed_field : nat) (v : U) (buf : list Z) (out shiftLeft : Z) (mask : U) : outcome (list Z) :=
  match compressed_field with
  | O =>
      x ← load_word cb buf out;
      y ← setValueForBitsMatchingMask false x v mask shiftLeft;
      store_word cb buf out y
  | S f =>
      buf ← packSingleField f v buf out shiftLeft mask;
      let shift := Z.of_nat compressed_field * cb - shiftLeft in
      ku_assert_o (shift <? sizeBits U);;
      x ← load_word cb buf (out + Z.of_nat compressed_field);
      y ← setValueForBitsMatchingMask true x v mask shift;
      store_word cb buf (out + Z.of_nat compressed_field) y
  end.
Definition packSingleImpl (v : U) (buf : list Z) (out delta shiftLeft : Z) (mask : U) : outcome (list Z) :=
  packSingleField (lastField (delta + shiftLeft)) v buf out shiftLeft mask.

Definition unpackSingle (src : list Z) (bitWidth srcOffset : Z) : outcome U :=
  let srcBufferOffset := srcOffset * bitWidth / cb in
  let shiftRight := (srcOffset * bitWidth) mod cb in
  unpackSingleValueInPlace src srcBufferOffset bitWidth shiftRight.
Definition packSingle (src : U) (dst : list Z) (bitWidth dstOffset : Z) : outcome (list Z) :=
  let dstBufferOffset := dstOffset * bitWidth / cb in
  let shiftLeft := (dstOffset * bitWidth) mod cb in
  mask ← all1sMaskForLeastSignificantBits bitWidth;
  packSingleImpl src dst dstBufferOffset bitWidth shiftLeft mask.
End Packing.
Arguments unpackSingleField {U _}.
Arguments unpackSingleValueInPlace {U _}.
Arguments setValueForBitsMatchingMask {U _}.
Arguments packSingleField {U _}.
Arguments packSingleImpl {U _}.
Arguments unpackSingle {U _}.
Arguments packSingle {U _}.
End BitpackingUtils.

(** The value loops of the packers. *)
Fixpoint foldM {A B} (f : B → A → outcome B) (l : list A) (b : B) : outcome B :=
  match l with [] => Ok b | a :: l' => b' ← f b a; foldM f l' b' end.
Fixpoint mapO {A B} (f : A → outcome B) (l : list A) : outcome (list B) :=
  match l with [] => Ok [] | a :: l' => b ← f a; bs ← mapO f l'; Ok (b :: bs) end.

Module Int128Packer.
Import BitpackingUtils.

Definition CHUNK_SIZE : nat := 32.

(** [in + offset] for words. *)
Definition words_from (buf : list Z) (offset : Z) : list Z := drop (4 * Z.to_nat offset) buf.
Definition or_word (buf : list Z) (i shift : Z) (out : Int128.int128_t) : outcome Int128.int128_t :=
  x ← load_word 32 buf i;
  y ← Int128.LeftShift (Int128.castTo x) shift;
  Ok (Int128.BinaryOr out y).

Definition unpackLast (in_ : list Z) (delta : Z) : outcome Int128.int128_t :=
  let SHIFT := (delta * 31) mod 32 in
  x ← load_word 32 in_ 0;
  let out := Int128.castTo (Z.shiftr x SHIFT) in
  out ← (if 32 <? delta then or_word in_ 1 (32 - SHIFT) out else Ok out);
  out ← (if 64 <? delta then or_word in_ 2 (64 - SHIFT) out else Ok out);
  if 96 <? delta then or_word in_ 3 (96 - SHIFT) out else Ok out.

Definition unpackDelta0 : list Int128.int128_t := replicate CHUNK_SIZE (Int128.castTo 0).
(** A value of [n] words. *)
Definition unpackWords (n : nat) (in_ : list Z) (i : nat) : outcome Int128.int128_t :=
  let OFFSET := Z.of_nat (i * n) in
  x ← load_word 32 in_ OFFSET;
  foldM (λ out j, or_word in_ (OFFSET + Z.of_nat j) (32 * Z.of_nat j) out) (seq 1 (n - 1)) (Int128.castTo x).
Definition unpackDelta (n : nat) (in_ : list Z) : outcome (list Int128.int128_t) := mapO (unpackWords n in_) (seq 0 CHUNK_SIZE).
Definition unpackDelta32 := unpackDelta 1.
Definition unpackDelta64 := unpackDelta 2.
Definition unpackDelta96 := unpackDelta 3.
Definition unpackDelta128 := unpackDelta 4.

Definition packWord (n : nat) (v : Int128.int128_t) (i : nat) (out : list Z) (j : nat) : outcome (list Z) :=
  x ← (if decide (j = 0%nat) then Ok v else Int128.RightShift v (32 * Z.of_nat j));
  store_word 32 out (Z.of_nat (n * i + j)) (Int128.NarrowCast 32 x).
Definition packDelta (n : nat) (in_ : list Int128.int128_t) (out : list Z) : outcome (list Z) :=
  foldM (λ out '(i, v), foldM (packWord n v i) (seq 0 n) out) (imap pair in_) out.
Definition packDelta32 := packDelta 1.
Definition packDelta64 := packDelta 2.
Definition packDelta96 := packDelta 3.
Definition packDelta128 := packDelta 4.

(** [in_] has [CHUNK_SIZE] values. *)
Definition pack (in_ : list Int128.int128_t) (out : list Z) (width : Z) : outcome (list Z) :=
  ku_assert_o (width <=? 128);;
  if width =? 0 then Ok out
  else if width =? 32 then packDelta32 in_ out
  else if width =? 64 then packDelta64 in_ out
  else if width =? 96 then packDelta96 in_ out
  else if width =? 128 then packDelta128 in_ out
  else foldM (λ out '(oindex, v), packSingle v out width (Z.of_nat oindex)) (imap pair in_) out.
Definition unpack (in_ : list Z) (width : Z) : outcome (list Int128.int128_t) :=
  ku_assert_o (width <=? 128);;
  if width =? 0 then Ok unpackDelta0
  else if width =? 32 then unpackDelta32 in_
  else if width =? 64 then unpackDelta64 in_
  else if width =? 96 then unpackDelta96 in_
  else if width =? 128 then unpackDelta128 in_
  else
    out ← mapO (λ oindex, unpackSingle in_ width (Z.of_nat oindex)) (seq 0 (CHUNK_SIZE - 1));
    last ← unpackLast (words_from in_ ((Z.of_nat CHUNK_SIZE - 1) * width / 32)) width;
    Ok (out ++ [last]).
End Int128Packer.

(** ** The packing library *)

(** third_party/fastpfor: as many values as a word has bits are packed at a time, four times 8, two times 16 or once 32, into words of 8, 16 or 32 bits; 64-bit values go into words of
    32 bits. Pointers are indices of words; the templates' [DELTA] is the width, [OINDEX] the value. *)
Module FastPForLib.
Import BitpackingUtils.

Definition invalid_width : exn := LogicError "Invalid bit width for bitpacking".

Section Words.
Context (W : Z).

(** [unpack_single_out] to a word of the same size: the value and the word that is reached. *)
Definition unpack_single_out (DELTA SHR : Z) (buf : list Z) (in_ : Z) : outcome (Z * Z) :=
  x ← load_word W buf in_;
  if DELTA + SHR <? W then Ok (Z.shiftr x SHR mod 2 ^ DELTA, in_)
  else
    let NEXT_SHR := SHR + DELTA - W in
    y ← load_word W buf (in_ + 1);
    Ok (Z.lor (Z.shiftr x SHR) (uwrap W (Z.shiftl (y mod 2 ^ NEXT_SHR) (W - SHR))), in_ + 1).
Definition unpack_last (DELTA SHIFT : Z) (buf : list Z) (in_ : Z) : outcome Z :=
  x ← load_word W buf in_;
  Ok (Z.shiftr x SHIFT).

(** [pack_single_in] of a word of the same size: the buffer and the word that is reached. *)
Definition pack_single_in (DELTA SHL MASK v : Z) (buf : list Z) (out : Z) : outcome (list Z * Z) :=
  if DELTA + SHL <? W then
    buf ← (if SHL =? 0 then store_word W buf out (Z.land v MASK) else x ← load_word W buf out; store_word W buf out (Z.lor x (uwrap W (Z.shiftl (Z.land v MASK) SHL))));
    Ok (buf, out)
  else
    x ← load_word W buf out;
    buf ← store_word W buf out (Z.lor x (uwrap W (Z.shiftl v SHL)));
    buf ← (if W <? DELTA + SHL then store_word W buf (out + 1) (Z.shiftr (Z.land v MASK) (W - SHL)) else Ok buf);
    Ok (buf, out + 1).
Definition pack_last (DELTA SHIFT v : Z) (buf : list Z) (out : Z) : outcome (list Z) :=
  x ← load_word W buf out;
  store_word W buf out (Z.lor x (uwrap W (Z.shiftl v SHIFT))).
End Words.

(** The same for 64-bit values, in words of 32 bits. *)
Definition unpack_single_out64 (DELTA SHR : Z) (buf : list Z) (in_ : Z) : outcome (Z * Z) :=
  x ← load_word 32 buf in_;
  if DELTA + SHR <? 32 then Ok (Z.shiftr x SHR mod 2 ^ DELTA, in_)
  else if DELTA + SHR <? 64 then
    let out := Z.shiftr x SHR in
    out ← (if 32 <? DELTA + SHR then y ← load_word 32 buf (in_ + 1); Ok (Z.lor out (uwrap 64 (Z.shiftl (y mod 2 ^ (SHR + DELTA - 32)) (32 - SHR)))) else Ok out);
    Ok (out, in_ + 1)
  else
    y ← load_word 32 buf (in_ + 1);
    let out := Z.lor (Z.shiftr x SHR) (uwrap 64 (Z.shiftl y (32 - SHR))) in
    out ← (if 64 <? DELTA + SHR then z ← load_word 32 buf (in_ + 2); Ok (Z.lor out (uwrap 64 (Z.shiftl (z mod 2 ^ (DELTA + SHR - 64)) (64 - SHR)))) else Ok out);
    Ok (out, in_ + 2).
Definition unpack_last64 (DELTA SHIFT : Z) (buf : list Z) (in_ : Z) : outcome Z :=
  x ← load_word 32 buf in_;
  let out := Z.shiftr x SHIFT in
  if 32 <? DELTA then y ← load_word 32 buf (in_ + 1); Ok (Z.lor out (uwrap 64 (Z.shiftl y (32 - SHIFT)))) else Ok out.

Definition pack_single_in64 (DELTA SHL MASK v : Z) (buf : list Z) (out : Z) : outcome (list Z * Z) :=
  if DELTA + SHL <? 64 then
    buf ← (if SHL =? 0 then store_word 32 buf out (uwrap 32 (Z.land v MASK)) else x ← load_word 32 buf out; store_word 32 buf out (uwrap 32 (Z.lor x (uwrap 64 (Z.shiftl (Z.land v MASK) SHL)))));
    if DELTA + SHL <? 32 then Ok (buf, out)
    else
      buf ← (if 32 <? DELTA + SHL then store_word 32 buf (out + 1) (uwrap 32 (Z.shiftr (Z.land v MASK) (32 - SHL))) else Ok buf);
      Ok (buf, out + 1)
  else
    x ← load_word 32 buf out;
    buf ← store_word 32 buf out (uwrap 32 (Z.lor x (uwrap 64 (Z.shiftl v SHL))));
    buf ← store_word 32 buf (out + 1) (uwrap 32 (Z.shiftr (Z.land v MASK) (32 - SHL)));
    buf ← (if 64 <? DELTA + SHL then store_word 32 buf (out + 2) (uwrap 32 (Z.shiftr (Z.land v MASK) (64 - SHL))) else Ok buf);
    Ok (buf, out + 2).
Definition pack_last64 (DELTA SHIFT v : Z) (buf : list Z) (out : Z) : outcome (list Z) :=
  x ← load_word 32 buf out;
  buf ← store_word 32 buf out (uwrap 32 (Z.lor x (uwrap 64 (Z.shiftl v SHIFT))));
  if 32 <? DELTA then store_word 32 buf (out + 1) (uwrap 32 (Z.shiftr v (32 - SHIFT))) else Ok buf.

(** [Unroller8], [Unroller16] and [Unroller], from the value [OINDEX] on: [left] values and the last one, which is at most the end of a word. *)
Section Unroller.
Context (W DELTA : Z).
Context (single_out : Z → list Z → Z → outcome (Z * Z)) (last_out : Z → list Z → Z → outcome Z).
Fixpoint Unpack (left : nat) (OINDEX : Z) (buf : list Z) (in_ : Z) : outcome (list Z) :=
  match left with
  | O => x ← last_out ((DELTA * OINDEX) mod W) buf in_; Ok [x]
  | S left' => '(x, in_) ← single_out ((DELTA * OINDEX) mod W) buf in_; rest ← Unpack left' (OINDEX + 1) buf in_; Ok (x :: rest)
  end.

Context (single_in : Z → Z → list Z → Z → outcome (list Z * Z)) (last_in : Z → Z → list Z → Z → outcome (list Z)).
(** [in_] has the values from [OINDEX] on. *)
Fixpoint Pack (OINDEX : Z) (in_ : list Z) (buf : list Z) (out : Z) : outcome (list Z) :=
  match in_ with
  | [] => Ok buf
  | [v] => last_in ((DELTA * OINDEX) mod W) v buf out
  | v :: in_' => '(buf, out) ← single_in ((DELTA * OINDEX) mod W) v buf out; Pack (OINDEX + 1) in_' buf out
  end.
End Unroller.

(** The widths that have loops of their own. *)
Definition unpack_fields (W DELTA : Z) (buf : list Z) (in_ : Z) : outcome (list Z) :=
  words ← mapO (λ outer, x ← load_word W buf (in_ + outer); Ok (map (λ k, Z.shiftr x (k * DELTA) mod 2 ^ DELTA) (seqZ 0 (W / DELTA)))) (seqZ 0 DELTA);
  Ok (concat words).
Definition unpack_copy (W : Z) (buf : list Z) (in_ : Z) : outcome (list Z) := mapO (λ k, load_word W buf (in_ + k)) (seqZ 0 W).
Definition unpack_pairs (buf : list Z) (in_ : Z) : outcome (list Z) :=
  mapO (λ k, x ← load_word 32 buf (in_ + k * 2); y ← load_word 32 buf (in_ + (k * 2 + 1)); Ok (Z.lor x (uwrap 64 (Z.shiftl y 32)))) (seqZ 0 32).
Definition pack_copy (W : Z) (vs : list Z) (buf : list Z) (out : Z) : outcome (list Z) :=
  foldM (λ buf '(k, v), store_word W buf (out + Z.of_nat k) (uwrap W v)) (imap pair vs) buf.
Definition pack_pairs (vs : list Z) (buf : list Z) (out : Z) : outcome (list Z) :=
  foldM (λ buf '(k, v), buf ← store_word 32 buf (out + 2 * Z.of_nat k) (uwrap 32 v); store_word 32 buf (out + (2 * Z.of_nat k + 1)) (uwrap 32 (Z.shiftr v 32))) (imap pair vs) buf.

(** The values of one word each: [fastunpack_quarter], [fastunpack_half] and [fastunpack] of 32-bit values. *)
Definition fastunpack_words (W : Z) (buf : list Z) (in_ bit : Z) : outcome (list Z) :=
  if bit =? 0 then Ok (replicate (Z.to_nat W) 0)
  else if bit =? W then unpack_copy W buf in_
  else if (0 <? bit) && (bit <? W) then
    if (bit =? 4) || (bit =? 8) || (bit =? 16) then unpack_fields W bit buf in_
    else Unpack W bit (unpack_single_out W bit) (unpack_last W bit) (Z.to_nat W - 1) 0 buf in_
  else Throw invalid_width.
Definition fastpack_words (W : Z) (vs buf : list Z) (out bit : Z) : outcome (list Z) :=
  if bit =? 0 then Ok buf
  else if bit =? W then pack_copy W vs buf out
  else if (0 <? bit) && (bit <? W) then Pack W bit (λ s, pack_single_in W bit s (2 ^ bit - 1)) (pack_last W bit) 0 vs buf out
  else Throw invalid_width.
Definition fastunpack64 (buf : list Z) (in_ bit : Z) : outcome (list Z) :=
  if bit =? 0 then Ok (replicate 32 0)
  else if bit =? 64 then unpack_pairs buf in_
  else if bit =? 32 then unpack_copy 32 buf in_
  else if (0 <? bit) && (bit <? 64) then
    if (bit =? 4) || (bit =? 8) || (bit =? 16) then unpack_fields 32 bit buf in_
    else Unpack 32 bit (unpack_single_out64 bit) (unpack_last64 bit) 31 0 buf in_
  else Throw invalid_width.
Definition fastpack64 (vs buf : list Z) (out bit : Z) : outcome (list Z) :=
  if bit =? 0 then Ok buf
  else if bit =? 64 then pack_pairs vs buf out
  else if bit =? 32 then pack_copy 32 vs buf out
  else if (0 <? bit) && (bit <? 64) then Pack 32 bit (λ s, pack_single_in64 bit s (2 ^ bit - 1)) (pack_last64 bit) 0 vs buf out
  else Throw invalid_width.

(** 32 values of 8, 16, 32 or 64 bits. *)
Definition fastunpack (sz : Z) (buf : list Z) (bit : Z) : outcome (list Z) :=
  if sz =? 64 then fastunpack64 buf 0 bit
  else parts ← mapO (λ i, fastunpack_words sz buf (i * bit) bit) (seqZ 0 (32 / sz)); Ok (concat parts).
Definition fastpack (sz : Z) (vs buf : list Z) (bit : Z) : outcome (list Z) :=
  if sz =? 64 then fastpack64 vs buf 0 bit
  else foldM (λ buf i, fastpack_words sz (take (Z.to_nat sz) (drop (Z.to_nat (i * sz)) vs)) buf (i * bit) bit) (seqZ 0 (32 / sz)) buf.
End FastPForLib.

(** ** Values of statistics *)

Module StorageValue.

(** The integer types of columns, of up to 64 bits. *)
Record IntType := MkIntType { size : Z; is_signed : bool }.
Definition int8_t := MkIntType 8 true.
Definition int16_t := MkIntType 16 true.
Definition int32_t := MkIntType 32 true.
Definition int64_t := MkIntType 64 true.
Definition uint8_t := MkIntType 8 false.
Definition uint16_t := MkIntType 16 false.
Definition uint32_t := MkIntType 32 false.
Definition uint64_t := MkIntType 64 false.

(** Conversions between a type and its unsigned type, modulo the size. *)
Definition as_T (t : IntType) (x : Z) : Z := if is_signed t then swrap (size t) x else uwrap (size t) x.
Definition as_U (t : IntType) (x : Z) : Z := uwrap (size t) x.

(** An operator of the type: below 32 bits it is one of [int], signed overflow is undefined, unsigned values wrap. *)
Definition arith (t : IntType) (x : Z) : outcome Z :=
  if is_signed t then if size t <? 32 then Ok x else Date.signed (size t) x else Ok (uwrap (size t) x).

(** The union: its bits as a 128-bit integer. *)
Definition StorageValue := Int128.int128_t.
Definition StorageValue_of (value : Z) : StorageValue := Int128.MkInt128 (uwrap 64 value) 0.
Definition get (t : IntType) (v : StorageValue) : Z :=
  if is_signed t then swrap (size t) (swrap 64 (Int128.low v)) else uwrap (size t) (Int128.low v).

Inductive CompressionType := UNCOMPRESSED | INTEGER_BITPACKING | BOOLEAN_BITPACKING | CONSTANT | ALP.
#[export] Instance CompressionType_eq_dec : EqDecision CompressionType.
Proof. solve_decision. Defined.

(** The parameters of float compression. *)
Record ALPMetadata := MkALPMetadata { exp : Z; fac : Z; exceptionCount : Z; exceptionCapacity : Z }.

#[warnings="-register-all"]
Inductive CompressionMetadata := MkMetadata { min : StorageValue; max : StorageValue; compression : CompressionType; extraMetadata : option ALPMetadata; children : list CompressionMetadata }.
(** The constructor. *)
Definition MkCompressionMetadata (min max : StorageValue) (compression : CompressionType) : CompressionMetadata := MkMetadata min max compression None [].

(** [getTypedMinMax]; the loop keeps the first of equal values, as [std::minmax_element] keeps one of them. *)
Fixpoint typed_min_max (t : IntType) (nullMask : option NullMask.NullMask) (data : list Z) (pos : nat) (acc : option (Z * Z)) : outcome (option (Z * Z)) :=
  match data with
  | [] => Ok acc
  | x :: data' =>
      null ← (match nullMask with Some m => NullMask.isNull pos m | None => Ok false end);
      let acc := if (null : bool) then acc else match acc with None => Some (x, x) | Some (mn, mx) => Some (if x <? mn then x else mn, if mx <? x then x else mx) end in
      typed_min_max t nullMask data' (S pos) acc
  end.
Definition getTypedMinMax (t : IntType) (data : list Z) (nullMask : option NullMask.NullMask) (nullMaskOffset : nat) : outcome (option (StorageValue * StorageValue)) :=
  ku_assert_o (0 <? Z.of_nat (length data));;
  let mask := match nullMask with Some m => if NullMask.hasNoNullsGuarantee m then None else Some m | None => None end in
  r ← typed_min_max t mask data nullMaskOffset None;
  Ok (match r with Some (mn, mx) => Some (StorageValue_of mn, StorageValue_of mx) | None => None end).
End StorageValue.

(** ** Packed pages of integers *)

Module IntegerBitpacking.
Import BitpackingUtils StorageValue.

Definition CHUNK_SIZE : nat := 32.

Record BitpackInfo := MkBitpackInfo { bitWidth : Z; hasNegative : bool; offset : Z }.

Definition bit_width (x : Z) : Z := if x =? 0 then 0 else Z.log2 x + 1.

Section Type_.
Context (t : IntType).

(** [std::abs] is that of [int] below 32 bits. *)
Definition abs (value : Z) : outcome Z :=
  if is_signed t then x ← (if size t <? 32 then Ok (Z.abs value) else Date.signed (size t) (Z.abs value)); Ok (as_T t x) else Ok value.

Definition getPackingInfo (metadata : CompressionMetadata) : outcome BitpackInfo :=
  let mx := get t (max metadata) in
  let mn := get t (min metadata) in
  let width x := bit_width (as_U t x) in
  let by_magnitude (negative : bool) :=
    a ← abs mn;
    b ← abs mx;
    Ok (MkBitpackInfo (uwrap 8 (width (Z.max a b) + if negative then 1 else 0)) negative 0) in
  if (0 <? mn) && (0 <? mx) then
    d ← arith t (mx - mn);
    if width d <? width mx then Ok (MkBitpackInfo (width d) false mn) else by_magnitude false
  else if (mn <? 0) && (mx <? 0) then
    d ← arith t (mn - mx);
    if width d <? width mx then Ok (MkBitpackInfo (uwrap 8 (width d + 1)) true mx) else by_magnitude true
  else by_magnitude (mn <? 0).

Definition canUpdateInPlace (values : list Z) (metadata : CompressionMetadata) (nullMask : option NullMask.NullMask) (nullMaskOffset : nat) : outcome bool :=
  info ← getPackingInfo metadata;
  mm ← getTypedMinMax t values nullMask nullMaskOffset;
  match mm with
  | None => Ok true
  | Some (mn, mx) =>
      let newMetadata := MkCompressionMetadata (StorageValue_of (Z.min (get t (min metadata)) (get t mn))) (StorageValue_of (Z.max (get t (max metadata)) (get t mx))) (compression metadata) in
      newInfo ← getPackingInfo newMetadata;
      Ok ((bitWidth info =? bitWidth newInfo) && Bool.eqb (hasNegative info) (hasNegative newInfo) && (offset info =? offset newInfo))
  end.

Definition numValues (dataSize : Z) (info : BitpackInfo) : Z := if bitWidth info =? 0 then UINT64_MAX else uwrap 64 (dataSize * 8) / bitWidth info.

(** [SignExtend] of one value. *)
Definition SignExtend (value width : Z) : outcome Z :=
  ku_assert_o (width <? size t);;
  let mask := as_T t (Z.shiftl 1 (width - 1)) in
  andMask ← @all1sMaskForLeastSignificantBits Z (machine (size t)) width;
  let value := as_T t (Z.land value andMask) in
  result ← arith t (Z.lxor value mask - mask);
  Ok (as_U t result).

Definition copyValuesToTempChunkWithOffset (src : list Z) (info : BitpackInfo) : outcome (list Z) :=
  mapO (λ x, d ← arith t (as_T t x - offset info); Ok (as_U t d)) src.

Fixpoint packPartialChunk (src : list Z) (dst : list Z) (posInDst : Z) (info : BitpackInfo) : outcome (list Z) :=
  match src with
  | [] => Ok dst
  | x :: src' => dst ← @packSingle Z (machine (size t)) x dst (bitWidth info) posInDst; packPartialChunk src' dst (posInDst + 1) info
  end.
Definition setPartialChunkInPlace (src : list Z) (dst : list Z) (posInDst : Z) (header : BitpackInfo) : outcome (list Z) :=
  tmp ← copyValuesToTempChunkWithOffset src header;
  packPartialChunk tmp dst posInDst header.

(** [buffer + n] for what follows. *)
Definition from_byte (buf : list Z) (n : Z) (f : list Z → outcome (list Z)) : outcome (list Z) :=
  let k := Z.to_nat n in
  r ← f (drop k buf);
  Ok (take k buf ++ r).
Definition pack_chunk (chunk dst : list Z) (n : Z) (info : BitpackInfo) : outcome (list Z) := from_byte dst n (λ d, FastPForLib.fastpack (size t) chunk d (bitWidth info)).

Fixpoint in_chunks (count : nat) (src dst : list Z) (dstIndex : Z) (header : BitpackInfo) : outcome (list Z) :=
  match count with
  | O => Ok dst
  | S count' =>
      chunk ← copyValuesToTempChunkWithOffset (take CHUNK_SIZE src) header;
      dst ← pack_chunk chunk dst (dstIndex * bitWidth header / 8) header;
      in_chunks count' (drop CHUNK_SIZE src) dst (dstIndex + Z.of_nat CHUNK_SIZE) header
  end.

(** Every value may be null or stored with the packing of the page: what the assertion of the checked build counts. *)
Fixpoint all_updatable (src : list Z) (pos : nat) (metadata : CompressionMetadata) (nullMask : option NullMask.NullMask) : outcome bool :=
  match src with
  | [] => Ok true
  | x :: src' =>
      null ← (match nullMask with Some m => NullMask.isNull pos m | None => Ok false end);
      ok ← (if (null : bool) then Ok true else canUpdateInPlace [as_T t x] metadata None 0);
      rest ← all_updatable src' (S pos) metadata nullMask;
      Ok (ok && rest)
  end.

(** [src] starts at [posInSrc] and has [numValues] values. *)
Definition setValuesFromUncompressed (src : list Z) (posInSrc : nat) (dst : list Z) (posInDst : Z) (metadata : CompressionMetadata) (nullMask : option NullMask.NullMask) : outcome (list Z) :=
  let chunkSize := Z.of_nat CHUNK_SIZE in
  let n := Z.of_nat (length src) in
  header ← getPackingInfo metadata;
  ok ← all_updatable src posInSrc metadata nullMask;
  ku_assert_o ok;;
  let valuesInFirstChunk := Z.min (chunkSize - posInDst mod chunkSize) n in
  let partial := valuesInFirstChunk <? chunkSize in
  let first := if partial then Z.to_nat valuesInFirstChunk else 0%nat in
  dst ← (if partial then setPartialChunkInPlace (take first src) dst posInDst header else Ok dst);
  let rest := drop first src in
  let dstIndex := posInDst + Z.of_nat first in
  let count := (length rest / CHUNK_SIZE)%nat in
  dst ← in_chunks count rest dst dstIndex header;
  let last := drop (count * CHUNK_SIZE) rest in
  if (0 <? length last)%nat then setPartialChunkInPlace last dst (dstIndex + Z.of_nat (count * CHUNK_SIZE)) header else Ok dst.

(** What reading does to a value after it is unpacked. *)
Definition restore (info : BitpackInfo) (out : Z) : outcome Z :=
  out ← (if hasNegative info && (0 <? bitWidth info) then SignExtend out (bitWidth info) else Ok out);
  if offset info =? 0 then Ok out else x ← arith t (as_T t out + offset info); Ok (as_U t x).

Definition getValues (chunkStart : list Z) (pos numValuesToRead : nat) (header : BitpackInfo) : outcome (list Z) :=
  ku_assert_o (pos + numValuesToRead <=? CHUNK_SIZE)%nat;;
  mapO (λ i, out ← @unpackSingle Z (machine (size t)) chunkStart (bitWidth header) (Z.of_nat i); restore header out) (seq pos numValuesToRead).

Definition getChunkStart (buffer : list Z) (pos width : Z) : list Z := drop (Z.to_nat (pos / Z.of_nat CHUNK_SIZE * width * Z.of_nat CHUNK_SIZE / 8)) buffer.

Fixpoint full_chunks (count : nat) (srcCursor : list Z) (info : BitpackInfo) : outcome (list Z * list Z) :=
  match count with
  | O => Ok ([], srcCursor)
  | S count' =>
      unpacked ← FastPForLib.fastunpack (size t) srcCursor (bitWidth info);
      values ← mapO (restore info) unpacked;
      '(rest, cursor) ← full_chunks count' (drop (Z.to_nat (Z.of_nat CHUNK_SIZE / 8 * bitWidth info)) srcCursor) info;
      Ok (values ++ rest, cursor)
  end.

(** The values that are written to the destination, from [dstOffset] on. *)
Definition decompressFromPage (src : list Z) (srcOffset numValues : Z) (metadata : CompressionMetadata) : outcome (list Z) :=
  let chunkSize := Z.of_nat CHUNK_SIZE in
  info ← getPackingInfo metadata;
  let srcCursor := getChunkStart src srcOffset (bitWidth info) in
  let valuesInFirstChunk := Z.min (chunkSize - srcOffset mod chunkSize) numValues in
  let bytesPerChunk := chunkSize / 8 * bitWidth info in
  let partial := valuesInFirstChunk <? chunkSize in
  first ← (if partial then getValues srcCursor (Z.to_nat (srcOffset mod chunkSize)) (Z.to_nat valuesInFirstChunk) info else Ok []);
  if partial && (numValues =? valuesInFirstChunk) then Ok first
  else
    let srcCursor := if partial then drop (Z.to_nat bytesPerChunk) srcCursor else srcCursor in
    let remaining := if partial then numValues - valuesInFirstChunk else numValues in
    '(middle, srcCursor) ← full_chunks (Z.to_nat (remaining / chunkSize)) srcCursor info;
    last ← (if 0 <? remaining mod chunkSize then getValues srcCursor 0 (Z.to_nat (remaining mod chunkSize)) info else Ok []);
    Ok (first ++ middle ++ last).

(** [Uncompressed::compressNextPage] for values of this size. *)
Definition copyNextPage (src : list Z) (numValuesRemaining : Z) (dst : list Z) (dstBufferSize : Z) : outcome (list Z * list Z * Z) :=
  let numBytesPerValue := size t / 8 in
  let n := Z.min numValuesRemaining (dstBufferSize / numBytesPerValue) in
  let sizeToCopy := n * numBytesPerValue in
  ku_assert_o (sizeToCopy <=? dstBufferSize);;
  Ok ((take (Z.to_nat n) src ≫= le_bytes (Z.to_nat numBytesPerValue)) ++ drop (Z.to_nat sizeToCopy) dst, drop (Z.to_nat n) src, sizeToCopy).

Fixpoint compress_chunks (count : nat) (src dst : list Z) (i : Z) (info : BitpackInfo) : outcome (list Z) :=
  match count with
  | O => Ok dst
  | S count' =>
      chunk ← (if offset info =? 0 then Ok (take CHUNK_SIZE src) else copyValuesToTempChunkWithOffset (take CHUNK_SIZE src) info);
      dst ← pack_chunk chunk dst (i * bitWidth info / 8) info;
      compress_chunks count' (drop CHUNK_SIZE src) dst (i + Z.of_nat CHUNK_SIZE) info
  end.

(** The page, the values that are left and the bytes used. *)
Definition compressNextPage (src : list Z) (numValuesRemaining : Z) (dst : list Z) (dstBufferSize : Z) (metadata : CompressionMetadata) : outcome (list Z * list Z * Z) :=
  if decide (compression metadata = UNCOMPRESSED) then copyNextPage src numValuesRemaining dst dstBufferSize
  else
    ku_assert_o (bool_decide (compression metadata = INTEGER_BITPACKING));;
    info ← getPackingInfo metadata;
    if bitWidth info =? 0 then Ok (dst, src, 0)
    else
      let numValuesToCompress := Z.min numValuesRemaining (numValues dstBufferSize info) in
      let sizeToCompress := numValuesToCompress * bitWidth info / 8 + (if (numValuesToCompress * bitWidth info) mod 8 =? 0 then 0 else 1) in
      ku_assert_o (Z.of_nat CHUNK_SIZE <=? dstBufferSize);;
      ku_assert_o (sizeToCompress <=? dstBufferSize);;
      let n := Z.to_nat numValuesToCompress in
      let count := (n / CHUNK_SIZE)%nat in
      let lastFullChunkEnd := (count * CHUNK_SIZE)%nat in
      dst ← compress_chunks count src dst 0 info;
      let last := take (n - lastFullChunkEnd) (drop lastFullChunkEnd src) in
      dst ← (if (0 <? length last)%nat then
               last ← (if offset info =? 0 then Ok last else copyValuesToTempChunkWithOffset last info);
               from_byte dst (Z.of_nat lastFullChunkEnd * bitWidth info / 8) (λ d, packPartialChunk last d 0 info)
             else Ok dst);
      Ok (dst, drop n src, sizeToCompress).
End Type_.
End IntegerBitpacking.
