(* ===== verification/BitpackingSpec.v ===== *)
(** * The bits of a packed buffer

    A buffer as the number its bytes make, the interface that an integer type has to packing with its instances, and what packing and unpacking one value do to
    the bits. *)

From stdpp Require Import base numbers list strings.
From Stdlib Require Import ZArith Lia.
From S2P Require Import Prelude Serializer NullMask Date Int128 Int128Spec Int128Theorems Bitpacking.
Import Serializer BitpackingUtils.

#[local] Open Scope Z_scope.

(** ** Bits of integers *)

Lemma bit_mod x n j : 0 ≤ n → 0 ≤ j → Z.testbit (x mod 2 ^ n) j = (j <? n) && Z.testbit x j.
Proof. intros Hn Hj. destruct (Z.ltb_spec j n); [apply Z.mod_pow2_bits_low; lia|apply Z.mod_pow2_bits_high; lia]. Qed.
Lemma bit_div x n j : 0 ≤ n → 0 ≤ j → Z.testbit (x / 2 ^ n) j = Z.testbit x (j + n).
Proof. intros Hn Hj. apply Z.div_pow2_bits; lia. Qed.
Lemma bit_mul x n j : 0 ≤ n → 0 ≤ j → Z.testbit (x * 2 ^ n) j = (n <=? j) && Z.testbit x (j - n).
Proof. intros Hn Hj. destruct (Z.leb_spec n j); [rewrite Z.mul_pow2_bits by lia; reflexivity|apply Z.mul_pow2_bits_low; lia]. Qed.
Lemma bit_ones n j : 0 ≤ n → 0 ≤ j → Z.testbit (2 ^ n - 1) j = (j <? n).
Proof. intros Hn Hj. rewrite Z.sub_1_r, <- Z.ones_equiv. destruct (Z.ltb_spec j n); [apply Z.ones_spec_low; lia|apply Z.ones_spec_high; lia]. Qed.
Lemma bit_above x n j : 0 ≤ x < 2 ^ n → 0 ≤ n ≤ j → Z.testbit x j = false.
Proof. intros Hx Hj. rewrite <- (Z.mod_small x (2 ^ n)) by exact Hx. apply Z.mod_pow2_bits_high. lia. Qed.
Lemma bits_equal n x y : 0 ≤ n → 0 ≤ x < 2 ^ n → 0 ≤ y < 2 ^ n → (∀ j, 0 ≤ j < n → Z.testbit x j = Z.testbit y j) → x = y.
Proof. intros Hn Hx Hy H. apply Z.bits_inj'. intros j Hj. destruct (Z.ltb_spec j n); [apply H; lia|]. rewrite !(bit_above _ n) by lia. reflexivity. Qed.
Lemma bits_range n x : 0 ≤ n → 0 ≤ x → (∀ j, n ≤ j → Z.testbit x j = false) → x < 2 ^ n.
Proof.
  intros Hn Hx H. destruct (Z.ltb_spec x (2 ^ n)); [assumption|]. assert (Hx0 : 0 < x) by (assert (0 < 2 ^ n) by (apply Z.pow_pos_nonneg; lia); lia). pose proof (Z.bit_log2 x Hx0) as Hb. assert (n ≤ Z.log2 x) by (apply Z.log2_le_pow2; lia). rewrite H in Hb by lia. discriminate Hb.
Qed.

(** ** Buffers as numbers *)

Definition bytes_ok (buf : list Z) : Prop := Forall (λ b, 0 ≤ b < 256) buf.
Definition bits_of (buf : list Z) : Z := 8 * Z.of_nat (length buf).
(** The bit at a position of the buffer. *)
Definition bit (buf : list Z) (j : Z) : bool := Z.testbit (le_value buf) j.
(** The value of [w] bits from a position on. *)
Definition slice (buf : list Z) (p w : Z) : Z := (le_value buf / 2 ^ p) mod 2 ^ w.

Lemma pow_256 n : 256 ^ Z.of_nat n = 2 ^ (8 * Z.of_nat n).
Proof. rewrite Z.pow_mul_r by lia. reflexivity. Qed.
Lemma le_value_range buf : bytes_ok buf → 0 ≤ le_value buf < 2 ^ bits_of buf.
Proof.
  unfold bits_of. intros H. induction H as [|b buf Hb _ IH]; [cbn; lia|]. cbn [le_value length]. replace (8 * Z.of_nat (S (length buf))) with (8 * Z.of_nat (length buf) + 8) by lia. rewrite Z.pow_add_r by lia. change (2 ^ 8) with 256. lia.
Qed.
Lemma le_value_app a b : bytes_ok a → le_value (a ++ b) = le_value a + 2 ^ bits_of a * le_value b.
Proof.
  unfold bits_of. intros H. induction H as [|x a Hx _ IH]; [cbn; lia|]. cbn [app le_value length]. rewrite IH. replace (8 * Z.of_nat (S (length a))) with (8 * Z.of_nat (length a) + 8) by lia. rewrite Z.pow_add_r by lia. change (2 ^ 8) with 256. lia.
Qed.
Lemma bit_app a b j : bytes_ok a → bytes_ok b → 0 ≤ j → bit (a ++ b) j = if j <? bits_of a then bit a j else bit b (j - bits_of a).
Proof.
  intros Ha Hb Hj. unfold bit. rewrite le_value_app by exact Ha. pose proof (le_value_range a Ha) as R. assert (H8 : 0 ≤ bits_of a) by (unfold bits_of; lia). destruct (Z.ltb_spec j (bits_of a)) as [Hlt|Hge].
  - rewrite <- (Z.mod_pow2_bits_low _ (bits_of a) j) by lia. rewrite (Z.mul_comm (2 ^ _)), Z.mod_add, Z.mod_small by lia. reflexivity.
  - replace j with (j - bits_of a + bits_of a) at 1 by lia. rewrite <- Z.div_pow2_bits by lia. rewrite (Z.mul_comm (2 ^ _)), Z.div_add, Z.div_small by lia. reflexivity.
Qed.
Lemma bit_above_buf buf j : bytes_ok buf → bits_of buf ≤ j → bit buf j = false.
Proof. intros H Hj. apply (bit_above _ (bits_of buf)); [apply le_value_range, H|unfold bits_of in *; lia]. Qed.
Lemma bits_of_app a b : bits_of (a ++ b) = bits_of a + bits_of b.
Proof. unfold bits_of. rewrite length_app. lia. Qed.
Lemma bit_take_drop buf n j : bytes_ok buf → (n ≤ length buf)%nat → 0 ≤ j → bit (take n buf) j = (j <? 8 * Z.of_nat n) && bit buf j ∧ bit (drop n buf) j = bit buf (j + 8 * Z.of_nat n).
Proof.
  intros H Hn Hj. assert (Ht : bytes_ok (take n buf)) by (apply Forall_take, H). assert (Hd : bytes_ok (drop n buf)) by (apply Forall_drop, H). assert (E : bits_of (take n buf) = 8 * Z.of_nat n) by (unfold bits_of; rewrite length_take; lia).
  rewrite <- (take_drop n buf) at 2 4. rewrite !bit_app, E by (assumption || lia). split.
  - destruct (Z.ltb_spec j (8 * Z.of_nat n)); [reflexivity|]. apply bit_above_buf; [exact Ht|lia].
  - rewrite (proj2 (Z.ltb_ge _ _)) by lia. f_equal. lia.
Qed.
Lemma bit_slice buf p w j : 0 ≤ p → 0 ≤ w → 0 ≤ j → Z.testbit (slice buf p w) j = (j <? w) && bit buf (p + j).
Proof. intros Hp Hw Hj. unfold slice. rewrite bit_mod, bit_div by lia. unfold bit. rewrite (Z.add_comm j). reflexivity. Qed.
Lemma slice_range buf p w : 0 ≤ w → 0 ≤ slice buf p w < 2 ^ w.
Proof. intros Hw. apply Z.mod_pos_bound. apply Z.pow_pos_nonneg; lia. Qed.
Lemma slice_unique buf p w x : 0 ≤ p → 0 ≤ w → 0 ≤ x < 2 ^ w → (∀ j, 0 ≤ j < w → Z.testbit x j = bit buf (p + j)) → slice buf p w = x.
Proof. intros Hp Hw Hx H. apply (bits_equal w); [lia|apply slice_range; lia|exact Hx|]. intros j Hj. rewrite bit_slice, (proj2 (Z.ltb_lt _ _)) by lia. symmetry. apply H. exact Hj. Qed.
Lemma slice_same buf buf' p w : 0 ≤ p → 0 ≤ w → (∀ j, p ≤ j < p + w → bit buf' j = bit buf j) → slice buf' p w = slice buf p w.
Proof. intros Hp Hw H. apply slice_unique; [lia|lia|apply slice_range; lia|]. intros j Hj. rewrite bit_slice, (proj2 (Z.ltb_lt _ _)) by lia. symmetry. apply H. lia. Qed.

(** *** Words *)

Definition word_size (cb : Z) : Prop := cb = 8 ∨ cb = 16 ∨ cb = 32.

Lemma word_pos cb i : word_size cb → 0 ≤ i → 8 * Z.of_nat (Z.to_nat i * Z.to_nat (cb / 8)) = i * cb ∧ 8 * Z.of_nat (Z.to_nat (cb / 8)) = cb.
Proof. intros [-> | [-> | ->]] Hi; rewrite Nat2Z.inj_mul, Z2Nat.id by lia; [change (Z.to_nat (8 / 8)) with 1%nat|change (Z.to_nat (16 / 8)) with 2%nat|change (Z.to_nat (32 / 8)) with 4%nat]; lia. Qed.

Lemma load_word_bits cb buf i : word_size cb → bytes_ok buf → 0 ≤ i → (i + 1) * cb ≤ bits_of buf → load_word cb buf i = Ok (slice buf (i * cb) cb).
Proof.
  intros Hcb Hb Hi Hr. destruct (word_pos cb i Hcb Hi) as [E1 E2]. unfold load_word. set (n := Z.to_nat (cb / 8)) in *. set (pos := (Z.to_nat i * n)%nat) in *. assert (Hc : 0 < cb) by (destruct Hcb as [-> | [-> | ->]]; lia). assert (Hlen : (pos + n ≤ length buf)%nat) by (unfold bits_of in Hr; lia).
  rewrite (proj2 (Nat.leb_le _ _) Hlen). f_equal. symmetry. assert (Hd : bytes_ok (drop pos buf)) by (apply Forall_drop, Hb). assert (Hn : (n ≤ length (drop pos buf))%nat) by (rewrite length_drop; lia). apply slice_unique; [lia|lia| |].
  - rewrite <- E2. replace (8 * Z.of_nat n) with (bits_of (take n (drop pos buf))) by (unfold bits_of; rewrite length_take; lia). apply le_value_range, Forall_take, Hd.
  - intros j Hj. change (Z.testbit (le_value (take n (drop pos buf))) j) with (bit (take n (drop pos buf)) j). rewrite (proj1 (bit_take_drop _ n j Hd Hn ltac:(lia))), (proj2 (bit_take_drop buf pos j Hb ltac:(lia) ltac:(lia))). rewrite (proj2 (Z.ltb_lt _ _)) by lia. cbn [andb]. f_equal. lia.
Qed.

Lemma bytes_ok_le n x : bytes_ok (le_bytes n x).
Proof. revert x. induction n as [|n IH]; intros x; [constructor|]. cbn [le_bytes]. constructor; [apply Z.mod_pos_bound; lia|apply IH]. Qed.

Lemma store_word_bits cb buf i x : word_size cb → bytes_ok buf → 0 ≤ i → (i + 1) * cb ≤ bits_of buf → 0 ≤ x < 2 ^ cb →
  ∃ buf', store_word cb buf i x = Ok buf' ∧ length buf' = length buf ∧ bytes_ok buf' ∧ ∀ j, 0 ≤ j → bit buf' j = if (i * cb <=? j) && (j <? (i + 1) * cb) then Z.testbit x (j - i * cb) else bit buf j.
Proof.
  intros Hcb Hb Hi Hr Hx. destruct (word_pos cb i Hcb Hi) as [E1 E2]. unfold store_word. set (n := Z.to_nat (cb / 8)) in *. set (pos := (Z.to_nat i * n)%nat) in *. assert (Hc : 0 < cb) by (destruct Hcb as [-> | [-> | ->]]; lia). assert (Hlen : (pos + n ≤ length buf)%nat) by (unfold bits_of in Hr; lia).
  rewrite (proj2 (Nat.leb_le _ _) Hlen). assert (Ht : bytes_ok (take pos buf)) by (apply Forall_take, Hb). assert (Hl : bytes_ok (le_bytes n x)) by apply bytes_ok_le. assert (Hd : bytes_ok (drop (pos + n) buf)) by (apply Forall_drop, Hb).
  eexists. split; [reflexivity|]. split; [rewrite !length_app, length_take, length_drop, length_le_bytes; lia|]. split; [apply Forall_app; split; [exact Ht|apply Forall_app; split; assumption]|]. intros j Hj. assert (Et : bits_of (take pos buf) = i * cb) by (unfold bits_of; rewrite length_take; lia). assert (El : bits_of (le_bytes n x) = cb) by (unfold bits_of; rewrite length_le_bytes; lia).
  rewrite bit_app by (try apply Forall_app; auto). rewrite Et. destruct (Z.ltb_spec j (i * cb)) as [H1|H1].
  - rewrite (proj2 (Z.leb_gt _ _)) by lia. cbn [andb]. rewrite (proj1 (bit_take_drop buf pos j Hb ltac:(lia) Hj)). rewrite (proj2 (Z.ltb_lt _ _)) by lia. reflexivity.
  - rewrite (proj2 (Z.leb_le _ _)) by lia. cbn [andb]. rewrite bit_app, El by (assumption || lia). destruct (Z.ltb_spec j ((i + 1) * cb)) as [H2|H2].
    + rewrite (proj2 (Z.ltb_lt _ _)) by lia. unfold bit. rewrite le_value_bytes; [reflexivity|]. rewrite pow_256, E2. exact Hx.
    + rewrite (proj2 (Z.ltb_ge _ _)) by lia. rewrite (proj2 (bit_take_drop buf (pos + n) (j - i * cb - cb) Hb ltac:(lia) ltac:(lia))). f_equal. lia.
Qed.

(** ** What packing relies on *)

(** A value stands for its bits; values and masks of at most [maxWidth] bits can be shifted and made. *)
Class UncompressedOk (U : Type) `{!UncompressedType U} := {
  pattern : U → Z;
  valid : U → Prop;
  maxWidth : Z;
  size_ok : 8 ≤ sizeBits U ≤ 4 * sizeOfCompressedTypeBits U ∧ sizeOfCompressedTypeBits U ≤ maxWidth ≤ sizeBits U;
  pattern_range u : valid u → 0 ≤ pattern u < 2 ^ sizeBits U;
  of_word_ok x : 0 ≤ x < 2 ^ sizeOfCompressedTypeBits U → valid (of_word x) ∧ pattern (of_word x) = x;
  to_word_ok u : valid u → to_word (sizeOfCompressedTypeBits U) u = pattern u mod 2 ^ sizeOfCompressedTypeBits U;
  u_shl_ok u n : valid u → 0 ≤ n < sizeBits U → ∃ r, u_shl u n = Ok r ∧ valid r ∧ pattern r = (pattern u * 2 ^ n) mod 2 ^ sizeBits U;
  u_shr_ok u n : valid u → 0 ≤ n < sizeBits U → pattern u < 2 ^ maxWidth → ∃ r, u_shr u n = Ok r ∧ valid r ∧ pattern r = pattern u / 2 ^ n;
  u_and_ok u v : valid u → valid v → valid (u_and u v) ∧ pattern (u_and u v) = Z.land (pattern u) (pattern v);
  u_or_ok u v : valid u → valid v → valid (u_or u v) ∧ pattern (u_or u v) = Z.lor (pattern u) (pattern v);
  mask_ok w : 0 ≤ w ≤ maxWidth → ∃ m, all1sMaskForLeastSignificantBits w = Ok m ∧ valid m ∧ pattern m = 2 ^ w - 1;
}.
Arguments maxWidth U {_ _} : assert.

(** *** Machine integers *)

Lemma land_range n x y : 0 ≤ n → 0 ≤ x < 2 ^ n → 0 ≤ y → 0 ≤ Z.land x y < 2 ^ n.
Proof. intros Hn Hx Hy. split; [apply Z.land_nonneg; lia|]. apply bits_range; [lia|apply Z.land_nonneg; lia|]. intros j Hj. rewrite Z.land_spec, (bit_above x n) by lia. reflexivity. Qed.
Lemma lor_range n x y : 0 ≤ n → 0 ≤ x < 2 ^ n → 0 ≤ y < 2 ^ n → 0 ≤ Z.lor x y < 2 ^ n.
Proof. intros Hn Hx Hy. split; [apply Z.lor_nonneg; lia|]. apply bits_range; [lia|apply Z.lor_nonneg; lia|]. intros j Hj. rewrite Z.lor_spec, (bit_above x n), (bit_above y n) by lia. reflexivity. Qed.

Definition machine_width (w : Z) : Prop := w = 8 ∨ w = 16 ∨ w = 32 ∨ w = 64.

#[refine] Definition machine_ok (w : Z) (Hw : machine_width w) : @UncompressedOk Z (machine w) := {| pattern := id; valid x := 0 ≤ x < 2 ^ w; maxWidth := w |}.
Proof.
  all: unfold sizeOfCompressedTypeBits; cbn [sizeBits of_word to_word u_shl u_shr u_and u_or all1sMaskForLeastSignificantBits machine]; unfold id; assert (Hw8 : 8 ≤ w ≤ 64) by (destruct Hw as [-> | [-> | [-> | ->]]]; lia).
  - destruct Hw as [-> | [-> | [-> | ->]]]; cbn; lia.
  - intros u Hu. exact Hu.
  - intros x Hx. assert (Hp : 2 ^ (if 32 <=? w then 32 else 8) ≤ 2 ^ w) by (apply Z.pow_le_mono_r; [lia|destruct Hw as [-> | [-> | [-> | ->]]]; cbn; lia]). rewrite uwrap_small by lia. split; [lia|reflexivity].
  - intros u Hu. reflexivity.
  - intros u n Hu Hn. unfold shift_ok. rewrite (proj2 (Z.leb_le _ _)), (proj2 (Z.ltb_lt _ _)) by lia. cbn [andb]. eexists. split; [reflexivity|]. rewrite Z.shiftl_mul_pow2 by lia. split; [apply Z.mod_pos_bound, Z.pow_pos_nonneg; lia|reflexivity].
  - intros u n Hu Hn _. unfold shift_ok. rewrite (proj2 (Z.leb_le _ _)), (proj2 (Z.ltb_lt _ _)) by lia. cbn [andb]. eexists. split; [reflexivity|]. rewrite Z.shiftr_div_pow2 by lia. split; [|reflexivity]. assert (0 < 2 ^ n) by (apply Z.pow_pos_nonneg; lia). split; [apply Z.div_pos; lia|]. apply Z.div_lt_upper_bound; nia.
  - intros u v Hu Hv. split; [|reflexivity]. apply land_range; lia.
  - intros u v Hu Hv. split; [|reflexivity]. apply lor_range; lia.
  - intros n Hn. assert (Hp : 0 < 2 ^ n) by (apply Z.pow_pos_nonneg; lia). unfold ku_assert_o. rewrite (proj2 (Z.leb_le n 64)) by (destruct Hw as [-> | [-> | [-> | ->]]]; lia). cbn [mbind outcome_bind]. destruct (Z.eqb_spec n w) as [->|Hne].
    + eexists. split; [reflexivity|]. split; [lia|reflexivity].
    + unfold shift_ok. rewrite (proj2 (Z.leb_le 0 _)), (proj2 (Z.ltb_lt _ _)) by lia. cbn [andb]. rewrite Z.shiftl_1_l. assert (2 ^ n < 2 ^ w) by (apply Z.pow_lt_mono_r; lia). rewrite uwrap_small by lia. eexists. split; [reflexivity|]. split; [lia|reflexivity].
Defined.

(** *** 128-bit integers *)

Lemma pattern_high v : Int128Spec.well_formed v → Int128Spec.value v mod 2 ^ 128 < 2 ^ 127 → Int128Spec.value v mod 2 ^ 128 = Int128Spec.value v.
Proof. intros Hv H. pose proof (Int128Spec.value_range v Hv). destruct (Z.ltb_spec (Int128Spec.value v) 0); [exfalso|]; arith. Qed.

Lemma mod_bits (f : Z → Z → Z) (g : bool → bool → bool) a b n : 0 ≤ n → (∀ x y i, Z.testbit (f x y) i = g (Z.testbit x i) (Z.testbit y i)) → g false false = false → f a b mod 2 ^ n = f (a mod 2 ^ n) (b mod 2 ^ n).
Proof. intros Hn Hf Hg. apply Z.bits_inj'. intros j Hj. rewrite Hf, !bit_mod, Hf by lia. destruct (j <? n); [reflexivity|]. rewrite !andb_false_l. symmetry. exact Hg. Qed.

Lemma int128_mask w : 0 ≤ w ≤ 127 → @all1sMaskForLeastSignificantBits _ int128 w = Ok (Int128Spec.of_Z (2 ^ w - 1)).
Proof.
  intros Hw. cbn [all1sMaskForLeastSignificantBits int128]. change (Int128.LeftShift (Int128.castTo 1) 127) with (Ok (Int128.MkInt128 0 (- 2 ^ 63))). cbn [mbind outcome_bind]. change (Int128.BinaryNot (Int128.MkInt128 0 (- 2 ^ 63))) with (Int128Spec.of_Z (2 ^ 127 - 1)).
  assert (E : swrap 32 (127 - w) = 127 - w) by (apply (swrap_unique 32 _ _ 0); [lia|cbn; lia|lia]). rewrite E, Int128Theorems.rightShift_value by (consts; lia). f_equal. f_equal. assert (Ep : 2 ^ 127 = 2 ^ (127 - w) * 2 ^ w) by (rewrite <- Z.pow_add_r by lia; f_equal; lia). assert (Hp : 0 < 2 ^ (127 - w)) by (apply Z.pow_pos_nonneg; lia).
  rewrite Ep. symmetry. apply (Z.div_unique _ _ _ (2 ^ (127 - w) - 1)); [lia|ring].
Qed.

#[export, refine] Instance int128_ok : UncompressedOk Int128.int128_t := {| pattern v := Int128Spec.value v mod 2 ^ 128; valid := Int128Spec.well_formed; maxWidth := 127 |}.
Proof.
  all: unfold sizeOfCompressedTypeBits; cbn [sizeBits of_word to_word u_shl u_shr u_and u_or int128]; change (if 32 <=? 128 then 32 else 8) with 32.
  - lia.
  - intros u Hu. apply Z.mod_pos_bound. lia.
  - intros x Hx. rewrite Int128Theorems.castTo_value by (consts; lia). split; [apply Int128Spec.of_Z_wf; consts; lia|]. rewrite Int128Spec.value_of_Z. apply Z.mod_small. consts. lia.
  - intros [l h] Hu. unfold Int128.NarrowCast, uwrap, Int128Spec.value. cbn [Int128.low Int128.high]. arith.
  - intros u n Hu Hn. pose proof (Int128Spec.value_range u Hu) as Hv. pose proof (Int128Theorems.leftShift_value (Int128Spec.value u) n Hv Hn) as E. rewrite (Int128Spec.of_Z_value u Hu) in E. rewrite E. eexists. split; [reflexivity|]. destruct (swrap_spec 128 (Int128Spec.value u * 2 ^ n) ltac:(lia)) as [Hr [q Hq]]. split; [apply Int128Spec.of_Z_wf; exact Hr|]. rewrite Int128Spec.value_of_Z. rewrite Z.mul_mod_idemp_l by lia. rewrite Hq at 2. rewrite (Z.mul_comm (2 ^ 128) q), Z.mod_add by lia. reflexivity.
  - intros u n Hu Hn Hp. rewrite (pattern_high u Hu Hp). pose proof (Int128Spec.value_range u Hu) as Hv. pose proof (Int128Theorems.rightShift_value (Int128Spec.value u) n Hv Hn) as E. rewrite (Int128Spec.of_Z_value u Hu) in E. rewrite E. assert (H0 : 0 ≤ Int128Spec.value u) by (rewrite <- (pattern_high u Hu Hp); apply Z.mod_pos_bound; lia). eexists. split; [reflexivity|]. assert (0 < 2 ^ n) by (apply Z.pow_pos_nonneg; lia). assert (Hd : 0 ≤ Int128Spec.value u / 2 ^ n < 2 ^ 127) by (split; [apply Z.div_pos; lia|apply Z.div_lt_upper_bound; nia]). split; [apply Int128Spec.of_Z_wf; consts; lia|]. rewrite Int128Spec.value_of_Z. apply Z.mod_small. consts. lia.
  - intros u v Hu Hv. split; [apply (Int128Theorems.bits_typed u v Hu Hv)|]. destruct (Int128Theorems.bits_value (Int128Spec.value u) (Int128Spec.value v)) as (E & _). rewrite !Int128Spec.of_Z_value in E by assumption. rewrite E, Int128Spec.value_of_Z. apply (mod_bits _ andb); [lia|intros; apply Z.land_spec|reflexivity].
  - intros u v Hu Hv. split; [apply (Int128Theorems.bits_typed u v Hu Hv)|]. destruct (Int128Theorems.bits_value (Int128Spec.value u) (Int128Spec.value v)) as (_ & E & _). rewrite !Int128Spec.of_Z_value in E by assumption. rewrite E, Int128Spec.value_of_Z. apply (mod_bits _ orb); [lia|intros; apply Z.lor_spec|reflexivity].
  - intros w Hw. exists (Int128Spec.of_Z (2 ^ w - 1)). split; [apply int128_mask; lia|]. assert (2 ^ w ≤ 2 ^ 127) by (apply Z.pow_le_mono_r; lia). assert (0 < 2 ^ w) by (apply Z.pow_pos_nonneg; lia). split; [apply Int128Spec.of_Z_wf; consts; lia|]. rewrite Int128Spec.value_of_Z. apply Z.mod_small. consts. lia.
Defined.

(** ** One value *)

Section OneValue.
Context {U : Type} {UT : UncompressedType U} {UO : UncompressedOk U}.
Local Abbreviation cb := (@sizeOfCompressedTypeBits U UT).

Lemma cb_ok : word_size cb ∧ 0 < cb.
Proof. unfold word_size, sizeOfCompressedTypeBits. destruct (32 <=? sizeBits U); lia. Qed.

(** The fields that a value reaches are enough and none is past its end. *)
Lemma lastField_spec bits : 0 ≤ bits ≤ 5 * cb → bits ≤ (Z.of_nat (lastField U bits) + 1) * cb ∧ (lastField U bits = 0%nat ∨ Z.of_nat (lastField U bits) * cb < bits).
Proof.
  destruct cb_ok as [_ Hc]. intros Hb. unfold lastField. destruct (Z.leb_spec bits cb); [lia|]. destruct (Z.ltb_spec cb bits); [|lia]. destruct (Z.leb_spec bits (2 * cb)); cbn [andb]; [lia|]. destruct (Z.ltb_spec (2 * cb) bits); [|lia]. destruct (Z.leb_spec bits (3 * cb)); cbn [andb]; [lia|]. destruct (Z.ltb_spec (3 * cb) bits); [|lia]. destruct (Z.leb_spec bits (4 * cb)); cbn [andb]; lia.
Qed.

(** The words that a value at [p] touches are in the buffer. *)
Definition in_buffer (buf : list Z) (p w : Z) : Prop := (p / cb + Z.of_nat (lastField U (w + p mod cb)) + 1) * cb ≤ bits_of buf.

Lemma unpackSingleField_bits k : ∀ buf i s, bytes_ok buf → 0 ≤ i → 0 ≤ s < cb → (i + Z.of_nat k + 1) * cb ≤ bits_of buf → Z.of_nat k * cb - s < sizeBits U →
  ∃ u, unpackSingleField k buf i s = Ok u ∧ valid u ∧ ∀ j, 0 ≤ j < sizeBits U → Z.testbit (pattern u) j = (j + s <? (Z.of_nat k + 1) * cb) && bit buf (i * cb + s + j).
Proof.
  destruct cb_ok as [Hcb Hc]. destruct size_ok as [Hs Hm]. induction k as [|k IH]; intros buf i s Hb Hi Hsh Hr Hk; cbn [unpackSingleField].
  - rewrite load_word_bits by (assumption || lia). cbn [mbind outcome_bind]. pose proof (slice_range buf (i * cb) cb ltac:(lia)) as R. destruct (of_word_ok _ R) as [V E]. destruct (u_shr_ok _ s V ltac:(lia)) as (u & Eu & Vu & Pu); [rewrite E; assert (2 ^ cb ≤ 2 ^ maxWidth U) by (apply Z.pow_le_mono_r; lia); lia|].
    exists u. split; [exact Eu|]. split; [exact Vu|]. intros j Hj. rewrite Pu, E, bit_div, bit_slice by lia. rewrite Z.mul_1_l. f_equal. f_equal. lia.
  - destruct (IH buf i s Hb Hi Hsh ltac:(lia) ltac:(lia)) as (u & Eu & Vu & Bu). rewrite Eu. cbn [mbind outcome_bind]. unfold ku_assert_o. rewrite (proj2 (Z.ltb_lt _ _)) by lia. cbn [mbind outcome_bind]. rewrite load_word_bits by (assumption || lia). cbn [mbind outcome_bind].
    set (i' := i + Z.of_nat (S k)) in *. pose proof (slice_range buf (i' * cb) cb ltac:(lia)) as R. destruct (of_word_ok _ R) as [V E]. destruct (u_shl_ok _ (Z.of_nat (S k) * cb - s) V ltac:(lia)) as (y & Ey & Vy & Py). rewrite Ey. cbn [mbind outcome_bind]. destruct (u_or_ok u y Vu Vy) as [Vo Po]. eexists. split; [reflexivity|]. split; [exact Vo|]. intros j Hj.
    rewrite Po, Z.lor_spec, Bu, Py, bit_mod, bit_mul, E by lia. rewrite (proj2 (Z.ltb_lt j _)) by lia. cbn [andb]. destruct (Z.leb_spec (Z.of_nat (S k) * cb - s) j) as [H1|H1].
    + rewrite bit_slice by lia. rewrite (proj2 (Z.ltb_ge (j + s) _)) by lia. cbn [andb orb]. replace (i' * cb + (j - (Z.of_nat (S k) * cb - s))) with (i * cb + s + j) by (unfold i'; lia). f_equal. destruct (Z.ltb_spec (j - (Z.of_nat (S k) * cb - s)) cb), (Z.ltb_spec (j + s) ((Z.of_nat (S k) + 1) * cb)); try reflexivity; lia.
    + cbn [andb]. rewrite orb_false_r. rewrite (proj2 (Z.ltb_lt (j + s) ((Z.of_nat k + 1) * cb))), (proj2 (Z.ltb_lt (j + s) _)) by lia. reflexivity.
Qed.

Theorem unpackSingle_bits buf w off : bytes_ok buf → 0 ≤ w ≤ maxWidth U → 0 ≤ off → in_buffer buf (off * w) w → ∃ u, unpackSingle buf w off = Ok u ∧ valid u ∧ pattern u = slice buf (off * w) w.
Proof.
  destruct cb_ok as [Hcb Hc]. destruct size_ok as [Hs Hm]. intros Hb Hw Ho Hin. unfold unpackSingle, unpackSingleValueInPlace. set (p := off * w) in *. assert (Hp : 0 ≤ p) by (unfold p; nia). pose proof (Z.mod_pos_bound p cb Hc) as Hsh. assert (Hd : 0 ≤ p / cb) by (apply Z.div_pos; lia). pose proof (Z.div_mod p cb ltac:(lia)) as Ep. unfold in_buffer in Hin.
  destruct (lastField_spec (w + p mod cb) ltac:(lia)) as [L1 L2]. set (k := lastField U (w + p mod cb)) in *. destruct (unpackSingleField_bits k buf (p / cb) (p mod cb) Hb Hd Hsh ltac:(lia)) as (u & Eu & Vu & Bu); [destruct L2 as [-> | L2]; lia|]. rewrite Eu. cbn [mbind outcome_bind].
  destruct (mask_ok w Hw) as (m & Em & Vm & Pm). rewrite Em. cbn [mbind outcome_bind]. destruct (u_and_ok u m Vu Vm) as [Va Pa]. eexists. split; [reflexivity|]. split; [exact Va|]. symmetry. apply slice_unique; [lia|lia| |].
  - rewrite Pa, Pm, Z.land_comm. assert (0 < 2 ^ w) by (apply Z.pow_pos_nonneg; lia). pose proof (pattern_range u Vu). apply land_range; lia.
  - intros j Hj. rewrite Pa, Pm, Z.land_spec, bit_ones, Bu by lia. rewrite (proj2 (Z.ltb_lt j w)), (proj2 (Z.ltb_lt _ _)), andb_true_r by lia. cbn [andb]. f_equal. lia.
Qed.

(** A word with the bits of the mask replaced. *)
Lemma set_bits_word x v m j n : 0 ≤ n → 0 ≤ j < n → Z.testbit (Z.land (Z.lor x (Z.land v m)) (uwrap n (Z.lor (Z.lnot m) v))) j = if Z.testbit m j then Z.testbit v j else Z.testbit x j.
Proof. intros Hn Hj. unfold uwrap. rewrite Z.land_spec, Z.lor_spec, Z.land_spec, bit_mod, Z.lor_spec, Z.lnot_spec by lia. rewrite (proj2 (Z.ltb_lt j n)) by lia. destruct (Z.testbit x j), (Z.testbit v j), (Z.testbit m j); reflexivity. Qed.

Lemma setValue_bits (right : bool) x v m w shift : 0 ≤ x < 2 ^ cb → valid v → valid m → 0 ≤ w ≤ maxWidth U → pattern m = 2 ^ w - 1 → 0 ≤ shift < sizeBits U → (right = false → shift < cb) →
  ∃ y, setValueForBitsMatchingMask right x v m shift = Ok y ∧ 0 ≤ y < 2 ^ cb ∧
    ∀ j, 0 ≤ j < cb → Z.testbit y j = if (if right then j + shift <? w else (shift <=? j) && (j <? shift + w)) then Z.testbit (pattern v) (if right then j + shift else j - shift) else Z.testbit x j.
Proof.
  destruct cb_ok as [Hcb Hc]. destruct size_ok as [Hs Hm']. intros Hx Vv Vm Hw Pm Hsh Hleft. unfold setValueForBitsMatchingMask. destruct (u_and_ok v m Vv Vm) as [Va Pa]. assert (Hpw : 0 < 2 ^ w ≤ 2 ^ maxWidth U) by (split; [apply Z.pow_pos_nonneg; lia|apply Z.pow_le_mono_r; lia]). assert (Ra : 0 ≤ pattern (u_and v m) < 2 ^ w) by (rewrite Pa, Z.land_comm, Pm; pose proof (pattern_range v Vv); apply land_range; lia).
  assert (Hrange : ∀ a b c, 0 ≤ b → Z.land (Z.lor x (Z.land a b)) (uwrap cb c) < 2 ^ cb ∧ 0 ≤ Z.land (Z.lor x (Z.land a b)) (uwrap cb c)).
  { intros a b c Hb. assert (H1 : 0 ≤ uwrap cb c < 2 ^ cb) by (apply Z.mod_pos_bound, Z.pow_pos_nonneg; lia). rewrite Z.land_comm. assert (0 ≤ Z.land a b) by (apply Z.land_nonneg; lia). assert (0 ≤ Z.lor x (Z.land a b)) by (apply Z.lor_nonneg; lia). pose proof (land_range cb (uwrap cb c) (Z.lor x (Z.land a b)) ltac:(lia) H1). lia. }
  destruct right.
  - destruct (u_shr_ok _ shift Va ltac:(lia)) as (a & Ea & Vsa & Psa); [lia|]. destruct (u_shr_ok m shift Vm ltac:(lia)) as (b & Eb & Vb & Pb); [lia|]. rewrite Ea, Eb. cbn [mbind outcome_bind]. rewrite !to_word_ok by assumption. eexists. split; [reflexivity|]. split; [apply and_comm, Hrange, Z.mod_pos_bound, Z.pow_pos_nonneg; lia|]. intros j Hj. rewrite set_bits_word by lia. rewrite !bit_mod, Pb, Psa, !bit_div, Pm, bit_ones, Pa, Z.land_spec, Pm, bit_ones by lia. rewrite (proj2 (Z.ltb_lt j cb)) by lia. cbn [andb].
    destruct (j + shift <? w); [apply andb_true_r|reflexivity].
  - destruct (u_shl_ok _ shift Va ltac:(lia)) as (a & Ea & Vsa & Psa). destruct (u_shl_ok m shift Vm ltac:(lia)) as (b & Eb & Vb & Pb). rewrite Ea, Eb. cbn [mbind outcome_bind]. rewrite !to_word_ok by assumption. eexists. split; [reflexivity|]. split; [apply and_comm, Hrange, Z.mod_pos_bound, Z.pow_pos_nonneg; lia|]. intros j Hj. rewrite set_bits_word by lia. specialize (Hleft eq_refl). rewrite !bit_mod, Pb, Psa, !bit_mod, !bit_mul by lia. rewrite (proj2 (Z.ltb_lt j cb)), (proj2 (Z.ltb_lt j (sizeBits U))) by lia. cbn [andb].
    destruct (Z.leb_spec shift j); cbn [andb]; [|reflexivity]. rewrite Pm, bit_ones, Pa, Z.land_spec, Pm, bit_ones by lia. replace (j - shift <? w) with (j <? shift + w) by (destruct (Z.ltb_spec j (shift + w)), (Z.ltb_spec (j - shift) w); try reflexivity; lia). destruct (j <? shift + w); [apply andb_true_r|reflexivity].
Qed.

Lemma packSingleField_bits k : ∀ buf v m i s w, bytes_ok buf → valid v → valid m → 0 ≤ w ≤ maxWidth U → pattern m = 2 ^ w - 1 → 0 ≤ i → 0 ≤ s < cb → (i + Z.of_nat k + 1) * cb ≤ bits_of buf → Z.of_nat k * cb - s < sizeBits U →
  ∃ buf', packSingleField k v buf i s m = Ok buf' ∧ length buf' = length buf ∧ bytes_ok buf' ∧
    ∀ j, 0 ≤ j → bit buf' j = if (i * cb + s <=? j) && (j <? i * cb + s + w) && (j <? (i + Z.of_nat k + 1) * cb) then Z.testbit (pattern v) (j - (i * cb + s)) else bit buf j.
Proof.
  destruct cb_ok as [Hcb Hc]. destruct size_ok as [Hsz Hm']. induction k as [|k IH]; intros buf v m i s w Hb Vv Vm Hw Pm Hi Hsh Hr Hk; cbn [packSingleField].
  - rewrite load_word_bits by (assumption || lia). cbn [mbind outcome_bind]. pose proof (slice_range buf (i * cb) cb ltac:(lia)) as R. destruct (setValue_bits false (slice buf (i * cb) cb) v m w s R Vv Vm Hw Pm ltac:(lia) ltac:(lia)) as (y & Ey & Ry & By). rewrite Ey. cbn [mbind outcome_bind].
    destruct (store_word_bits cb buf i y Hcb Hb Hi ltac:(lia) Ry) as (buf' & Es & Hl & Hb' & Bb). exists buf'. split; [exact Es|]. split; [exact Hl|]. split; [exact Hb'|]. intros j Hj. rewrite Bb by exact Hj. rewrite Z.add_0_r. destruct (Z.ltb_spec j ((i + 1) * cb)) as [H2|H2]; [|rewrite !andb_false_r; reflexivity]. rewrite !andb_true_r.
    destruct (Z.leb_spec (i * cb) j) as [H1|H1]; [|rewrite (proj2 (Z.leb_gt _ _)) by lia; reflexivity]. rewrite By by lia. rewrite bit_slice by lia. rewrite (proj2 (Z.ltb_lt (j - i * cb) cb)) by lia. cbn [andb]. replace (i * cb + (j - i * cb)) with j by lia. replace (j - i * cb - s) with (j - (i * cb + s)) by lia.
    destruct (Z.leb_spec s (j - i * cb)), (Z.ltb_spec (j - i * cb) (s + w)), (Z.leb_spec (i * cb + s) j), (Z.ltb_spec j (i * cb + s + w)); try reflexivity; lia.
  - destruct (IH buf v m i s w Hb Vv Vm Hw Pm Hi Hsh ltac:(lia) ltac:(lia)) as (buf1 & E1 & Hl1 & Hb1 & B1). rewrite E1. cbn [mbind outcome_bind]. unfold ku_assert_o. rewrite (proj2 (Z.ltb_lt _ _)) by lia. cbn [mbind outcome_bind]. assert (Eb : bits_of buf1 = bits_of buf) by (unfold bits_of; lia). set (i' := i + Z.of_nat (S k)) in *. assert (Hkc : 0 ≤ Z.of_nat k * cb) by nia. assert (Hd : 0 ≤ Z.of_nat (S k) * cb - s) by lia. set (d := Z.of_nat (S k) * cb - s) in *.
    rewrite load_word_bits by (assumption || lia). cbn [mbind outcome_bind]. pose proof (slice_range buf1 (i' * cb) cb ltac:(lia)) as R. destruct (setValue_bits true (slice buf1 (i' * cb) cb) v m w d R Vv Vm Hw Pm ltac:(lia) ltac:(discriminate)) as (y & Ey & Ry & By). rewrite Ey. cbn [mbind outcome_bind].
    destruct (store_word_bits cb buf1 i' y Hcb Hb1 ltac:(lia) ltac:(lia) Ry) as (buf' & Es & Hl & Hb' & Bb). exists buf'. split; [exact Es|]. split; [lia|]. split; [exact Hb'|]. intros j Hj. rewrite Bb by exact Hj. change (i + Z.of_nat (S k) + 1) with (i' + 1). destruct (Z.leb_spec (i' * cb) j) as [H1|H1]; cbn [andb].
    + destruct (Z.ltb_spec j ((i' + 1) * cb)) as [H2|H2].
      * rewrite By by lia. rewrite bit_slice by lia. rewrite (proj2 (Z.ltb_lt (j - i' * cb) cb)) by lia. cbn [andb]. replace (i' * cb + (j - i' * cb)) with j by lia. replace (j - i' * cb + d) with (j - (i * cb + s)) by (unfold i', d; lia). rewrite B1 by exact Hj. rewrite (proj2 (Z.ltb_ge j ((i + Z.of_nat k + 1) * cb))) by (unfold i' in H1; lia). rewrite andb_false_r, andb_true_r. rewrite (proj2 (Z.leb_le (i * cb + s) j)) by (unfold i' in H1; lia). cbn [andb].
        destruct (Z.ltb_spec (j - (i * cb + s)) w), (Z.ltb_spec j (i * cb + s + w)); try reflexivity; lia.
      * rewrite B1 by exact Hj. rewrite (proj2 (Z.ltb_ge j ((i + Z.of_nat k + 1) * cb))) by (unfold i' in H2; lia). rewrite !andb_false_r. reflexivity.
    + rewrite B1 by exact Hj. rewrite (proj2 (Z.ltb_lt j ((i + Z.of_nat k + 1) * cb))), (proj2 (Z.ltb_lt j ((i' + 1) * cb))) by (unfold i' in *; lia). reflexivity.
Qed.

Theorem packSingle_bits buf v w off : bytes_ok buf → valid v → 0 ≤ w ≤ maxWidth U → 0 ≤ off → in_buffer buf (off * w) w →
  ∃ buf', packSingle v buf w off = Ok buf' ∧ length buf' = length buf ∧ bytes_ok buf' ∧ ∀ j, 0 ≤ j → bit buf' j = if (off * w <=? j) && (j <? off * w + w) then Z.testbit (pattern v) (j - off * w) else bit buf j.
Proof.
  destruct cb_ok as [Hcb Hc]. destruct size_ok as [Hs Hm]. intros Hb Vv Hw Ho Hin. unfold packSingle, packSingleImpl. destruct (mask_ok w Hw) as (m & Em & Vm & Pm). rewrite Em. cbn [mbind outcome_bind]. set (p := off * w) in *. assert (Hp : 0 ≤ p) by (unfold p; nia). pose proof (Z.mod_pos_bound p cb Hc) as Hsh. assert (Hd : 0 ≤ p / cb) by (apply Z.div_pos; lia). pose proof (Z.div_mod p cb ltac:(lia)) as Ep. unfold in_buffer in Hin.
  destruct (lastField_spec (w + p mod cb) ltac:(lia)) as [L1 L2]. set (k := lastField U (w + p mod cb)) in *. destruct (packSingleField_bits k buf v m (p / cb) (p mod cb) w Hb Vv Vm Hw Pm Hd Hsh ltac:(lia)) as (buf' & E & Hl & Hb' & B); [destruct L2 as [-> | L2]; lia|]. exists buf'. split; [exact E|]. split; [exact Hl|]. split; [exact Hb'|]. intros j Hj. rewrite B by exact Hj. replace (p / cb * cb + p mod cb) with p by lia.
  destruct (Z.leb_spec p j), (Z.ltb_spec j (p + w)), (Z.ltb_spec j ((p / cb + Z.of_nat k + 1) * cb)); cbn [andb]; try reflexivity; lia.
Qed.
End OneValue.

Lemma in_buffer_of {U} {UT : UncompressedType U} {UO : UncompressedOk U} buf off w : 0 ≤ off → 0 ≤ w ≤ maxWidth U → off * w + w ≤ bits_of buf → (sizeOfCompressedTypeBits U | bits_of buf) → 0 < bits_of buf → @in_buffer U UT buf (off * w) w.
Proof.
  intros Ho Hw Hr [q Hq] H0. destruct (@cb_ok U UT) as [_ Hc]. destruct (@size_ok U UT UO) as [Hs Hm]. unfold in_buffer. set (cb := sizeOfCompressedTypeBits U) in *. set (p := off * w) in *. assert (Hp : 0 ≤ p) by (unfold p; nia). pose proof (Z.mod_pos_bound p cb Hc) as Hsh. pose proof (Z.div_mod p cb ltac:(lia)) as Ep. assert (H5 : 0 ≤ w + p mod cb ≤ 5 * cb) by lia. pose proof (@lastField_spec U UT (w + p mod cb) H5) as [_ L2]. fold cb in L2. set (k := lastField U (w + p mod cb)) in *.
  rewrite Hq in *. apply Z.mul_le_mono_nonneg_r; [lia|]. assert (p / cb + Z.of_nat k < q); [|lia]. apply (Z.mul_lt_mono_pos_r cb); [lia|]. destruct L2 as [-> | L2]; [|lia]. destruct (decide (w = 0)) as [->|Hne]; [|lia]. assert (p = 0) as Ep0 by (unfold p; lia). rewrite Ep0, Z.div_0_l by lia. lia.
Qed.

(** ** Many values *)

Lemma mapO_app {A B} (f : A → outcome B) l1 l2 : mapO f (l1 ++ l2) = x ← mapO f l1; y ← mapO f l2; Ok (x ++ y).
Proof.
  induction l1 as [|a l1 IH]; cbn [mapO app mbind outcome_bind]; [destruct (mapO f l2); reflexivity|]. destruct (f a); cbn [mbind outcome_bind]; [|reflexivity]. rewrite IH. destruct (mapO f l1); cbn [mbind outcome_bind]; [|reflexivity]. destruct (mapO f l2); reflexivity.
Qed.
Lemma mapO_ext {A B} (f g : A → outcome B) l : (∀ a, a ∈ l → f a = g a) → mapO f l = mapO g l.
Proof. induction l as [|a l IH]; intros H; [reflexivity|]. cbn [mapO]. rewrite H by left. rewrite IH by (intros; apply H; right; assumption). reflexivity. Qed.
Lemma mapO_map {A B C} (f : B → outcome C) (g : A → B) l : mapO f (map g l) = mapO (λ a, f (g a)) l.
Proof. induction l as [|a l IH]; [reflexivity|]. cbn [mapO map]. rewrite IH. reflexivity. Qed.
Lemma mapO_ok {A B} (f : A → outcome B) (g : A → B) l : (∀ a, a ∈ l → f a = Ok (g a)) → mapO f l = Ok (map g l).
Proof. induction l as [|a l IH]; intros H; [reflexivity|]. cbn [mapO map]. rewrite H by left. rewrite IH by (intros; apply H; right; assumption). reflexivity. Qed.

(** The values of a list at positions from [pos] on. *)
Definition from_pos (pos : Z) (vs : list Z) (i : Z) : option Z := if i <? pos then None else vs !! Z.to_nat (i - pos).

(** [buf'] is [buf] with values of [w] bits from [pos] on. *)
Record writes (buf buf' : list Z) (w pos : Z) (vs : list Z) : Prop := {
  writes_length : length buf' = length buf;
  writes_bytes : bytes_ok buf';
  writes_bits i j : 0 ≤ i → 0 ≤ j < w → bit buf' (i * w + j) = match from_pos pos vs i with Some v => Z.testbit v j | None => bit buf (i * w + j) end }.

Lemma writes_slice buf buf' w pos vs i : writes buf buf' w pos vs → 0 ≤ w → 0 ≤ i → slice buf' (i * w) w = match from_pos pos vs i with Some v => v mod 2 ^ w | None => slice buf (i * w) w end.
Proof.
  intros [_ _ H] Hw Hi. assert (Hp : 0 ≤ i * w) by nia. apply slice_unique; [lia|lia| |].
  - destruct (from_pos pos vs i); [apply Z.mod_pos_bound, Z.pow_pos_nonneg; lia|apply slice_range; lia].
  - intros j Hj. rewrite H by lia. destruct (from_pos pos vs i); [rewrite bit_mod, (proj2 (Z.ltb_lt _ _)) by lia; reflexivity|]. rewrite bit_slice, (proj2 (Z.ltb_lt _ _)) by lia. reflexivity.
Qed.

Lemma writes_nil buf w pos : bytes_ok buf → writes buf buf w pos [].
Proof. intros Hb. split; [reflexivity|exact Hb|]. intros i j Hi Hj. unfold from_pos. destruct (i <? pos); reflexivity. Qed.

Lemma writes_app buf buf1 buf2 w pos vs1 vs2 : writes buf buf1 w pos vs1 → writes buf1 buf2 w (pos + Z.of_nat (length vs1)) vs2 → writes buf buf2 w pos (vs1 ++ vs2).
Proof.
  intros [L1 _ B1] [L2 Hb B2]. split; [lia|exact Hb|]. intros i j Hi Hj. rewrite B2 by assumption. unfold from_pos in *. specialize (B1 i j Hi Hj). destruct (Z.ltb_spec i (pos + Z.of_nat (length vs1))) as [H|H].
  - rewrite B1. destruct (Z.ltb_spec i pos); [reflexivity|]. rewrite lookup_app_l by lia. reflexivity.
  - rewrite (proj2 (Z.ltb_ge i pos)) by lia. rewrite lookup_app_r by lia. replace (Z.to_nat (i - pos) - length vs1)%nat with (Z.to_nat (i - (pos + Z.of_nat (length vs1)))) by lia. destruct (vs2 !! _); [reflexivity|]. rewrite B1, (proj2 (Z.ltb_ge i pos)) by lia. rewrite lookup_ge_None_2 by lia. reflexivity.
Qed.

(** Values written behind a byte are written in the buffer, when the byte starts a value. *)
Lemma writes_from_byte buf n d w base vs : bytes_ok buf → (n ≤ length buf)%nat → 0 ≤ base → 8 * Z.of_nat n = base * w → 0 < w → writes (drop n buf) d w 0 vs → writes buf (take n buf ++ d) w base vs.
Proof.
  intros Hb Hn Hbase E Hw [L Hd B]. assert (Ht : bytes_ok (take n buf)) by (apply Forall_take, Hb). assert (Et : bits_of (take n buf) = base * w) by (unfold bits_of; rewrite length_take; lia). split.
  - rewrite length_app, length_take, L, length_drop. lia.
  - apply Forall_app. split; assumption.
  - intros i j Hi Hj. rewrite bit_app, Et by (assumption || nia). unfold from_pos. destruct (Z.ltb_spec (i * w + j) (base * w)) as [H|H].
    + rewrite (proj2 (Z.ltb_lt i base)) by nia. rewrite (proj1 (bit_take_drop buf n (i * w + j) Hb Hn ltac:(nia))), (proj2 (Z.ltb_lt _ _)) by lia. reflexivity.
    + assert (Hib : base ≤ i) by nia. rewrite (proj2 (Z.ltb_ge i base)) by lia. replace (i * w + j - base * w) with ((i - base) * w + j) by lia. rewrite B by lia. unfold from_pos. rewrite (proj2 (Z.ltb_ge _ 0)), Z.sub_0_r by lia. destruct (vs !! Z.to_nat (i - base)); [reflexivity|].
      rewrite (proj2 (bit_take_drop buf n ((i - base) * w + j) Hb Hn ltac:(nia))). f_equal. lia.
Qed.
Lemma bits_slice_drop buf n p w : bytes_ok buf → (n ≤ length buf)%nat → 0 ≤ p → 0 ≤ w → slice (drop n buf) p w = slice buf (8 * Z.of_nat n + p) w.
Proof. intros Hb Hn Hp Hw. symmetry. apply slice_unique; [lia|lia|apply slice_range; lia|]. intros j Hj. rewrite bit_slice, (proj2 (Z.ltb_lt _ _)) by lia. cbn [andb]. rewrite (proj2 (bit_take_drop buf n (p + j) Hb Hn ltac:(lia))). f_equal. lia. Qed.

(** Packing one value writes it. *)
Lemma packSingle_writes {U} {UT : UncompressedType U} {UO : UncompressedOk U} buf v w off : bytes_ok buf → valid v → 0 < w ≤ maxWidth U → 0 ≤ off → off * w + w ≤ bits_of buf → (sizeOfCompressedTypeBits U | bits_of buf) → ∃ buf', packSingle v buf w off = Ok buf' ∧ writes buf buf' w off [pattern v].
Proof.
  intros Hb Hv Hw Ho Hr Hd. destruct (packSingle_bits buf v w off Hb Hv ltac:(lia) Ho) as (buf' & E & L & Hb' & B); [apply in_buffer_of; (assumption || nia)|]. exists buf'. split; [exact E|]. split; [exact L|exact Hb'|]. intros i j Hi Hj. rewrite B by nia. unfold from_pos. destruct (Z.ltb_spec i off) as [H|H]; [rewrite (proj2 (Z.leb_gt _ _)) by nia; reflexivity|].
  rewrite (proj2 (Z.leb_le _ _)) by nia. cbn [andb]. destruct (decide (i = off)) as [->|Hne].
  - rewrite (proj2 (Z.ltb_lt _ _)) by lia. rewrite Z.sub_diag. cbn. f_equal. lia.
  - rewrite (proj2 (Z.ltb_ge _ _)) by nia. rewrite lookup_ge_None_2 by (cbn; lia). reflexivity.
Qed.
