(* ===== verification/FastPForSpec.v ===== *)
(** * What the packing library does

    third_party/fastpfor, as the compression of integers calls it: unpacking gives the bits of each of 32 values, packing writes them one after the other and leaves the other bits of the
    buffer alone, for every width up to that of the values, through the cases of a value inside a word, across words and in the last word. *)

From stdpp Require Import base numbers list strings.
From Stdlib Require Import ZArith Lia.
From S2P Require Import Prelude Serializer NullMask Date Int128 Int128Spec Int128Theorems Bitpacking BitpackingSpec.
Import Serializer BitpackingUtils.

#[local] Open Scope Z_scope.

Import FastPForLib.

(** ** Reading *)

Lemma bit_shl x n j : 0 ≤ n → 0 ≤ j → Z.testbit (Z.shiftl x n) j = (n <=? j) && Z.testbit x (j - n).
Proof. intros Hn Hj. rewrite Z.shiftl_mul_pow2 by exact Hn. apply bit_mul; assumption. Qed.
Lemma slice_intro buf p w x : 0 ≤ p → 0 ≤ w → (∀ j, 0 ≤ j → Z.testbit x j = (j <? w) && bit buf (p + j)) → x = slice buf p w.
Proof. intros Hp Hw H. apply Z.bits_inj'. intros j Hj. rewrite H, bit_slice by lia. reflexivity. Qed.

(** Bits of shifted and cut words, by cases on where they are. *)
Ltac zcases := repeat match goal with
  | |- context [?a <? ?b] => destruct (Z.ltb_spec a b)
  | |- context [?a <=? ?b] => destruct (Z.leb_spec a b)
  end; cbn [andb orb]; try lia.
Ltac word_bits := unfold uwrap; repeat (first [rewrite Z.lor_spec|rewrite Z.land_spec|rewrite bit_mod by lia|rewrite bit_shl by lia|rewrite Z.shiftr_spec by lia|rewrite bit_slice by lia|rewrite bit_ones by lia]; zcases).

(** A value before the last: its bits, and the word where the next one starts. *)
Definition reads_single (W DELTA : Z) (single_out : Z → list Z → Z → outcome (Z * Z)) : Prop := ∀ buf k r n,
  bytes_ok buf → 0 ≤ k → 0 ≤ r < W → n * W ≤ bits_of buf → k * W + r + DELTA < n * W →
  ∃ k' r', single_out r buf k = Ok (slice buf (k * W + r) DELTA, k') ∧ k' * W + r' = k * W + r + DELTA ∧ 0 ≤ k' ∧ 0 ≤ r' < W.
Definition reads_last (W DELTA : Z) (last_out : Z → list Z → Z → outcome Z) : Prop := ∀ buf k r n,
  bytes_ok buf → 0 ≤ k → 0 ≤ r < W → n * W ≤ bits_of buf → k * W + r + DELTA = n * W → last_out r buf k = Ok (slice buf (k * W + r) DELTA).

Lemma unpack_single_out_reads W DELTA : word_size W → 0 < DELTA < W → reads_single W DELTA (unpack_single_out W DELTA).
Proof.
  intros HW HD buf k r n Hb Hk Hr Hn Hlt. unfold unpack_single_out. assert (k + 1 ≤ n) by nia. assert ((k + 1) * W ≤ n * W) by nia. assert (0 ≤ k * W) by nia. rewrite (load_word_bits W buf k) by (try assumption; lia). cbn [mbind outcome_bind]. destruct (Z.ltb_spec (DELTA + r) W).
  - exists k, (r + DELTA). split_and!; try lia. f_equal. f_equal. apply slice_intro; [nia|lia|]. intros j Hj. word_bits; f_equal; lia.
  - assert (k + 2 ≤ n) by nia. assert ((k + 2) * W ≤ n * W) by nia. rewrite load_word_bits by (try assumption; lia). cbn [mbind outcome_bind]. exists (k + 1), (r + DELTA - W). split_and!; try lia. f_equal. f_equal. apply slice_intro; [nia|lia|]. intros j Hj. word_bits; rewrite ?orb_false_r; f_equal; lia.
Qed.

Lemma unpack_last_reads W DELTA : word_size W → 0 < DELTA < W → reads_last W DELTA (unpack_last W DELTA).
Proof.
  intros HW HD buf k r n Hb Hk Hr Hn He. unfold unpack_last. assert (r + DELTA = (n - k) * W) by lia. assert (n - k = 1) by nia. assert (r + DELTA = W) by nia. assert (k + 1 ≤ n) by lia. assert ((k + 1) * W ≤ n * W) by nia. assert (0 ≤ k * W) by nia. rewrite load_word_bits by (try assumption; lia). cbn [mbind outcome_bind]. f_equal. apply slice_intro; [nia|lia|].
  intros j Hj. word_bits; f_equal; lia.
Qed.

Lemma unpack_single_out64_reads DELTA : 0 < DELTA < 64 → DELTA ≠ 32 → reads_single 32 DELTA (unpack_single_out64 DELTA).
Proof.
  intros HD Hne buf k r n Hb Hk Hr Hn Hlt. assert (H32 : word_size 32) by (unfold word_size; lia). unfold unpack_single_out64. rewrite (load_word_bits 32 buf k) by (try assumption; lia). cbn [mbind outcome_bind]. destruct (Z.ltb_spec (DELTA + r) 32); [|destruct (Z.ltb_spec (DELTA + r) 64)].
  - exists k, (r + DELTA). split_and!; try lia. f_equal. f_equal. apply slice_intro; [lia|lia|]. intros j Hj. word_bits; f_equal; lia.
  - exists (k + 1), (r + DELTA - 32). split_and!; try lia. destruct (Z.ltb_spec 32 (DELTA + r)); [rewrite load_word_bits by (try assumption; lia)|]; cbn [mbind outcome_bind]; f_equal; f_equal; apply slice_intro; try lia; intros j Hj; word_bits; rewrite ?orb_false_r; f_equal; lia.
  - exists (k + 2), (r + DELTA - 64). split_and!; try lia. rewrite (load_word_bits 32 buf (k + 1)) by (try assumption; lia). cbn [mbind outcome_bind]. destruct (Z.ltb_spec 64 (DELTA + r)); [rewrite load_word_bits by (try assumption; lia)|]; cbn [mbind outcome_bind]; f_equal; f_equal; apply slice_intro; try lia; intros j Hj; word_bits; rewrite ?orb_false_r; f_equal; lia.
Qed.
Lemma unpack_last64_reads DELTA : 0 < DELTA < 64 → DELTA ≠ 32 → reads_last 32 DELTA (unpack_last64 DELTA).
Proof.
  intros HD Hne buf k r n Hb Hk Hr Hn He. assert (H32 : word_size 32) by (unfold word_size; lia). unfold unpack_last64. rewrite (load_word_bits 32 buf k) by (try assumption; lia). cbn [mbind outcome_bind].
  destruct (Z.ltb_spec 32 DELTA); [rewrite load_word_bits by (try assumption; lia)|]; cbn [mbind outcome_bind]; f_equal; apply slice_intro; try lia; intros j Hj; word_bits; rewrite ?orb_false_r; f_equal; lia.
Qed.

Lemma seqZ_S m n : 0 ≤ n → seqZ m (n + 1) = m :: seqZ (m + 1) n.
Proof. intros Hn. rewrite seqZ_cons by lia. f_equal. f_equal; lia. Qed.

Lemma Unpack_reads W DELTA single_out last_out : 0 < W → 0 < DELTA → reads_single W DELTA single_out → reads_last W DELTA last_out →
  ∀ left o s k r n buf, bytes_ok buf → 0 ≤ k → 0 ≤ r < W → n * W ≤ bits_of buf → k * W + r = s * W + DELTA * o → s * W + DELTA * (o + Z.of_nat left + 1) = n * W →
  Unpack W DELTA single_out last_out left o buf k = Ok (map (λ i, slice buf (s * W + i * DELTA) DELTA) (seqZ o (Z.of_nat left + 1))).
Proof.
  intros HW HD Hs Hl. induction left as [|left IH]; intros o s k r n buf Hb Hk Hr Hn Hp He; cbn [Unpack].
  all: assert (Em : (DELTA * o) mod W = r) by (symmetry; apply (Z.mod_unique_pos _ _ (k - s)); lia); rewrite Em.
  - rewrite (Hl buf k r n) by (assumption || lia). cbn [mbind outcome_bind]. change (Z.of_nat 0 + 1) with (0 + 1). rewrite (seqZ_S o 0) by lia. cbn [map]. replace (s * W + o * DELTA) with (k * W + r) by lia. reflexivity.
  - destruct (Hs buf k r n) as (k' & r' & E & Ep & Hk' & Hr'); try assumption; [assert (0 ≤ DELTA * Z.of_nat left) by nia; rewrite Nat2Z.inj_succ in He; lia|]. rewrite E. cbn [mbind outcome_bind]. rewrite (IH (o + 1) s k' r' n buf) by (assumption || lia). cbn [mbind outcome_bind]. rewrite (Nat2Z.inj_succ left), <- Z.add_1_r, (seqZ_S o) by lia. cbn [map]. replace (s * W + o * DELTA) with (k * W + r) by lia. reflexivity.
Qed.

(** The loops over words whose values do not cross them. *)
Lemma map_blocks {A} (g : Z → A) c : 0 ≤ c → ∀ d, 0 ≤ d → concat (map (λ o, map (λ k, g (o * c + k)) (seqZ 0 c)) (seqZ 0 d)) = map g (seqZ 0 (d * c)).
Proof.
  intros Hc. apply natlike_ind; [reflexivity|]. intros d Hd IH. rewrite Z.mul_succ_l, <- Z.add_1_r. rewrite (seqZ_app 0 d 1), (seqZ_app 0 (d * c) c), !map_app, concat_app, IH by nia. f_equal. cbn [seqZ map concat]. change (seqZ (0 + d) 1) with [0 + (0 + d)]. cbn [map concat]. rewrite app_nil_r. rewrite <- (Z.add_0_r (0 + d * c)), <- fmap_add_seqZ. rewrite map_map. apply map_ext. intros k. f_equal; lia.
Qed.
Lemma mapO_all {A B} (f : A → outcome B) g l : (∀ x, x ∈ l → f x = Ok (g x)) → mapO f l = Ok (map g l).
Proof. induction l as [|a l IH]; intros H; [reflexivity|]. cbn [mapO map]. rewrite (H a) by left. cbn [mbind outcome_bind]. rewrite IH; [reflexivity|]. intros x Hx. apply H. right. exact Hx. Qed.

Lemma unpack_fields_reads W DELTA c buf s : word_size W → 0 < DELTA → 0 < c → W = c * DELTA → bytes_ok buf → 0 ≤ s → (s + DELTA) * W ≤ bits_of buf →
  unpack_fields W DELTA buf s = Ok (map (λ i, slice buf (s * W + i * DELTA) DELTA) (seqZ 0 W)).
Proof.
  intros HW HD Hc Ec Hb Hs Hr. unfold unpack_fields. rewrite (mapO_all _ (λ o, map (λ k, slice buf (s * W + (o * c + k) * DELTA) DELTA) (seqZ 0 c))).
  - cbn [mbind outcome_bind]. rewrite (map_blocks (λ i, slice buf (s * W + i * DELTA) DELTA)) by lia. do 3 f_equal. lia.
  - intros o Ho. apply elem_of_seqZ in Ho. rewrite load_word_bits by (try assumption; nia). cbn [mbind outcome_bind]. f_equal. replace (W / DELTA) with c by (apply Z.div_unique_exact; lia). apply map_ext_in. intros k Hin. apply list_elem_of_In, elem_of_seqZ in Hin.
    apply slice_intro; [nia|lia|]. intros j Hj. assert (k * DELTA + DELTA ≤ W) by nia. assert (0 ≤ (s + o) * W) by nia. assert (0 ≤ k * DELTA) by nia. word_bits; f_equal; lia.
Qed.
Lemma unpack_copy_reads W buf s : word_size W → bytes_ok buf → 0 ≤ s → (s + W) * W ≤ bits_of buf → unpack_copy W buf s = Ok (map (λ i, slice buf (s * W + i * W) W) (seqZ 0 W)).
Proof. intros HW Hb Hs Hr. apply mapO_all. intros k Hk. apply elem_of_seqZ in Hk. rewrite load_word_bits by (try assumption; nia). do 2 f_equal. lia. Qed.
Lemma unpack_pairs_reads buf : bytes_ok buf → 32 * 64 ≤ bits_of buf → unpack_pairs buf 0 = Ok (map (λ i, slice buf (i * 64) 64) (seqZ 0 32)).
Proof.
  intros Hb Hr. assert (H32 : word_size 32) by (unfold word_size; lia). apply mapO_all. intros k Hk. apply elem_of_seqZ in Hk. rewrite (load_word_bits 32 buf (0 + k * 2)) by (try assumption; lia). cbn [mbind outcome_bind]. rewrite load_word_bits by (try assumption; lia). cbn [mbind outcome_bind]. f_equal.
  apply slice_intro; [lia|lia|]. intros j Hj. word_bits; rewrite ?orb_false_r; f_equal; lia.
Qed.

Lemma seqZ_shift {A} (g : Z → A) m n : map (λ j, g (m + j)) (seqZ 0 n) = map g (seqZ m n).
Proof. transitivity (map g (seqZ (m + 0) n)); [rewrite <- fmap_add_seqZ, map_map; reflexivity|rewrite Z.add_0_r; reflexivity]. Qed.
Lemma no_bits buf (f : Z → Z) n : map (λ j, slice buf (f j) 0) (seqZ 0 n) = replicate (Z.to_nat n) 0.
Proof. rewrite <- (length_seqZ 0 n). apply (const_fmap (λ j, slice buf (f j) 0) (seqZ 0 n) 0). intros _ j _. exact (Z.mod_1_r (le_value buf / 2 ^ f j)). Qed.
Lemma word_fields W w : word_size W → 0 < w < W → w = 4 ∨ w = 8 ∨ w = 16 → ∃ c, 0 < c ∧ W = c * w.
Proof. intros HW Hw H. exists (W / w). destruct HW as [-> | [-> | ->]], H as [-> | [-> | ->]]; vm_compute; (split; congruence) || lia. Qed.
Lemma is_field w : (w =? 4) || (w =? 8) || (w =? 16) = true ↔ w = 4 ∨ w = 8 ∨ w = 16.
Proof. rewrite !orb_true_iff, !Z.eqb_eq. tauto. Qed.

Lemma fastunpack_words_reads W buf i w : word_size W → bytes_ok buf → 0 ≤ i → 0 ≤ w ≤ W → (i + 1) * W * w ≤ bits_of buf →
  fastunpack_words W buf (i * w) w = Ok (map (λ j, slice buf (j * w) w) (seqZ (i * W) W)).
Proof.
  intros HW Hb Hi Hw Hr. assert (HW0 : 0 < W) by (destruct HW as [-> | [-> | ->]]; lia). rewrite <- (seqZ_shift (λ j, slice buf (j * w) w)). unfold fastunpack_words. destruct (Z.eqb_spec w 0) as [->|H0].
  { rewrite (no_bits buf (λ j, (i * W + j) * 0)). reflexivity. }
  replace (map (λ j, slice buf ((i * W + j) * w) w) (seqZ 0 W)) with (map (λ j, slice buf (i * w * W + j * w) w) (seqZ 0 W)) by (apply map_ext; intros j; f_equal; lia).
  destruct (Z.eqb_spec w W) as [->|HnW]; [apply unpack_copy_reads; try assumption; nia|]. rewrite (proj2 (Z.ltb_lt 0 w)), (proj2 (Z.ltb_lt w W)) by lia. cbn [andb].
  destruct ((w =? 4) || (w =? 8) || (w =? 16)) eqn:E.
  - apply is_field in E. destruct (word_fields W w HW ltac:(lia) E) as (c & Hc & Ec). apply (unpack_fields_reads W w c); try assumption; nia.
  - rewrite (Unpack_reads W w _ _ HW0 ltac:(lia) (unpack_single_out_reads W w HW ltac:(lia)) (unpack_last_reads W w HW ltac:(lia)) _ 0 (i * w) (i * w) 0 ((i + 1) * w)); try assumption; try lia; try nia. do 3 f_equal. lia.
Qed.

Lemma fastunpack64_reads buf w : bytes_ok buf → 0 ≤ w ≤ 64 → 32 * w ≤ bits_of buf → fastunpack64 buf 0 w = Ok (map (λ j, slice buf (j * w) w) (seqZ 0 32)).
Proof.
  intros Hb Hw Hr. assert (H32 : word_size 32) by (unfold word_size; lia). unfold fastunpack64. destruct (Z.eqb_spec w 0) as [->|H0].
  { rewrite (no_bits buf (λ j, j * 0)). reflexivity. }
  destruct (Z.eqb_spec w 64) as [->|H64]; [apply unpack_pairs_reads; assumption|]. destruct (Z.eqb_spec w 32) as [->|Hn]; [apply (unpack_copy_reads 32 buf 0); try assumption; lia|].
  rewrite (proj2 (Z.ltb_lt 0 w)), (proj2 (Z.ltb_lt w 64)) by lia. cbn [andb]. destruct ((w =? 4) || (w =? 8) || (w =? 16)) eqn:E.
  - apply is_field in E. destruct (word_fields 32 w H32 ltac:(lia) E) as (c & Hc & Ec). apply (unpack_fields_reads 32 w c buf 0); try assumption; lia.
  - apply (Unpack_reads 32 w _ _ ltac:(lia) ltac:(lia) (unpack_single_out64_reads w ltac:(lia) Hn) (unpack_last64_reads w ltac:(lia) Hn) 31 0 0 0 0 w); try assumption; lia.
Qed.

Lemma machine_cases sz : machine_width sz → sz = 64 ∨ (sz ≠ 64 ∧ word_size sz ∧ sz * (32 / sz) = 32).
Proof. unfold machine_width, word_size. intros [-> | [-> | [-> | ->]]]; [right|right|right|left; reflexivity]; vm_compute; (split_and!; [discriminate|tauto|reflexivity]). Qed.

Lemma fastunpack_reads sz buf w : machine_width sz → bytes_ok buf → 0 ≤ w ≤ sz → 32 * w ≤ bits_of buf → fastunpack sz buf w = Ok (map (λ i, slice buf (i * w) w) (seqZ 0 32)).
Proof.
  intros Hsz Hb Hw Hr. unfold fastunpack. destruct (machine_cases sz Hsz) as [->|(Hn & HW & E)]; [apply fastunpack64_reads; assumption|]. rewrite (proj2 (Z.eqb_neq _ _) Hn).
  assert (0 < sz) by (destruct HW as [-> | [-> | ->]]; lia). rewrite (mapO_all _ (λ i, map (λ k, slice buf ((i * sz + k) * w) w) (seqZ 0 sz))).
  - cbn [mbind outcome_bind]. rewrite (map_blocks (λ i, slice buf (i * w) w)) by lia. do 3 f_equal. lia.
  - intros i Hi. apply elem_of_seqZ in Hi. rewrite fastunpack_words_reads; try assumption; [|lia|]. { rewrite <- (seqZ_shift (λ j, slice buf (j * w) w)). reflexivity. }
    assert ((i + 1) * sz ≤ 32) by nia. nia.
Qed.

(** ** Writing *)

(** The bits from [a] to [e] of the buffer are those of [f]; the others are as before. *)
Definition filled (buf buf' : list Z) (a e : Z) (f : Z → bool) : Prop :=
  length buf' = length buf ∧ bytes_ok buf' ∧ ∀ b, 0 ≤ b → bit buf' b = if (a <=? b) && (b <? e) then f (b - a) else bit buf b.
(** The bits of [f] up to [p] followed by those of a value. *)
Definition extend (p DELTA v : Z) (f : Z → bool) (j : Z) : bool := if j <? p then f j else (j <? p + DELTA) && Z.testbit v (j - p).

Lemma filled_store W buf buf1 a e e' k x f f' : word_size W → filled buf buf1 a e f → 0 ≤ a ≤ k * W → k * W ≤ e → 0 ≤ k → (k + 1) * W ≤ bits_of buf → 0 ≤ x < 2 ^ W → e' = Z.max e ((k + 1) * W) →
  (∀ b, a ≤ b < e' → f' (b - a) = if (k * W <=? b) && (b <? (k + 1) * W) then Z.testbit x (b - k * W) else f (b - a)) →
  ∃ buf2, store_word W buf1 k x = Ok buf2 ∧ filled buf buf2 a e' f'.
Proof.
  intros HW (L & Hb & B) Ha He Hk Hr Hx -> Hf. destruct (store_word_bits W buf1 k x HW Hb Hk) as (buf2 & E & L2 & Hb2 & B2); [unfold bits_of in *; rewrite L; exact Hr|exact Hx|]. exists buf2. split; [exact E|]. split; [lia|]. split; [exact Hb2|]. intros b Hbb.
  rewrite B2, B by exact Hbb. destruct (Z.leb_spec a b), (Z.ltb_spec b (Z.max e ((k + 1) * W))); cbn [andb]; [rewrite Hf by lia|..]; zcases; reflexivity.
Qed.
Lemma filled_load W buf buf1 a e k f : word_size W → filled buf buf1 a e f → 0 ≤ k → 0 ≤ a ≤ k * W → (k + 1) * W ≤ e → (k + 1) * W ≤ bits_of buf →
  ∃ x, load_word W buf1 k = Ok x ∧ 0 ≤ x < 2 ^ W ∧ ∀ b, k * W ≤ b < (k + 1) * W → Z.testbit x (b - k * W) = f (b - a).
Proof.
  intros HW (L & Hb & B) Hk Ha He Hr. assert (0 < W) by (destruct HW as [-> | [-> | ->]]; lia). exists (slice buf1 (k * W) W). split; [apply load_word_bits; try assumption; unfold bits_of in *; rewrite L; exact Hr|]. split; [apply slice_range; lia|]. intros b Hb'.
  rewrite bit_slice by lia. rewrite (proj2 (Z.ltb_lt _ _)) by lia. cbn [andb]. rewrite B by lia. replace (k * W + (b - k * W)) with b by lia. rewrite (proj2 (Z.leb_le a b)), (proj2 (Z.ltb_lt b e)) by lia. reflexivity.
Qed.

Lemma land_mask_range v w n : 0 ≤ v → 0 ≤ w ≤ n → 0 ≤ Z.land v (2 ^ w - 1) < 2 ^ n.
Proof. intros Hv Hw. rewrite Z.sub_1_r, <- Z.ones_equiv, Z.land_ones by lia. pose proof (Z.mod_pos_bound v (2 ^ w) ltac:(apply Z.pow_pos_nonneg; lia)). assert (2 ^ w ≤ 2 ^ n) by (apply Z.pow_le_mono_r; lia). lia. Qed.
Lemma uwrap_range n x : 0 ≤ n → 0 ≤ uwrap n x < 2 ^ n.
Proof. intros Hn. apply Z.mod_pos_bound, Z.pow_pos_nonneg; lia. Qed.
Lemma shiftr_range x s n : 0 ≤ s → 0 ≤ x < 2 ^ n → 0 ≤ Z.shiftr x s < 2 ^ n.
Proof. intros Hs Hx. rewrite Z.shiftr_div_pow2 by exact Hs. assert (0 < 2 ^ s) by (apply Z.pow_pos_nonneg; lia). split; [apply Z.div_pos; lia|]. apply Z.div_lt_upper_bound; nia. Qed.

(** Where the words written so far end. *)
Abbreviation word_end W k r := (k * W + (if r =? 0 then 0 else W)).

Definition packs_single (W DELTA : Z) (single_in : Z → Z → list Z → Z → outcome (list Z * Z)) : Prop := ∀ buf buf1 a k r v f n,
  0 ≤ v → 0 ≤ a ≤ k * W → 0 ≤ k → 0 ≤ r < W → filled buf buf1 a (word_end W k r) f → (∀ j, k * W + r - a ≤ j → f j = false) → n * W ≤ bits_of buf → k * W + r + DELTA < n * W →
  ∃ buf2 k' r', single_in r v buf1 k = Ok (buf2, k') ∧ k' * W + r' = k * W + r + DELTA ∧ 0 ≤ r' < W ∧ k ≤ k' ∧ filled buf buf2 a (word_end W k' r') (extend (k * W + r - a) DELTA v f).
Definition packs_last (W DELTA : Z) (last_in : Z → Z → list Z → Z → outcome (list Z)) : Prop := ∀ buf buf1 a k r v f n,
  0 ≤ v → 0 ≤ a ≤ k * W → 0 ≤ k → 0 ≤ r < W → filled buf buf1 a (word_end W k r) f → (∀ j, k * W + r - a ≤ j → f j = false) → n * W ≤ bits_of buf → k * W + r + DELTA = n * W →
  ∃ buf2, last_in r v buf1 k = Ok buf2 ∧ filled buf buf2 a (n * W) (extend (k * W + r - a) DELTA v f).

(** A word that gets its first bits. *)
Lemma store_fresh W buf buf1 a k x f f' : word_size W → filled buf buf1 a (k * W) f → 0 ≤ a ≤ k * W → 0 ≤ k → (k + 1) * W ≤ bits_of buf → 0 ≤ x < 2 ^ W →
  (∀ b, a ≤ b < k * W → f' (b - a) = f (b - a)) → (∀ b, k * W ≤ b < (k + 1) * W → f' (b - a) = Z.testbit x (b - k * W)) → ∃ buf2, store_word W buf1 k x = Ok buf2 ∧ filled buf buf2 a ((k + 1) * W) f'.
Proof.
  intros HW HF Ha Hk Hr Hx H1 H2. assert (0 < W) by (destruct HW as [-> | [-> | ->]]; lia). apply (filled_store W buf buf1 a (k * W) _ k x f); try assumption; try lia. intros b Hb. destruct (Z.leb_spec (k * W) b); zcases; [apply H2|apply H1]; lia.
Qed.
(** A word that has bits already. *)
Lemma store_more W buf buf1 a k y f f' : word_size W → filled buf buf1 a ((k + 1) * W) f → 0 ≤ a ≤ k * W → 0 ≤ k → (k + 1) * W ≤ bits_of buf → 0 ≤ y < 2 ^ W →
  (∀ b, a ≤ b < k * W → f' (b - a) = f (b - a)) → (∀ b, k * W ≤ b < (k + 1) * W → f' (b - a) = f (b - a) || Z.testbit y (b - k * W)) →
  ∃ x buf2, load_word W buf1 k = Ok x ∧ 0 ≤ x < 2 ^ W ∧ store_word W buf1 k (Z.lor x y) = Ok buf2 ∧ filled buf buf2 a ((k + 1) * W) f'.
Proof.
  intros HW HF Ha Hk Hr Hy H1 H2. assert (0 < W) by (destruct HW as [-> | [-> | ->]]; lia). destruct (filled_load W buf buf1 a ((k + 1) * W) k f) as (x & Ex & Rx & Bx); try assumption; try lia. exists x.
  destruct (filled_store W buf buf1 a ((k + 1) * W) ((k + 1) * W) k (Z.lor x y) f f') as (buf2 & E & F); try assumption; try lia; [apply lor_range; lia| |exists buf2; auto]. intros b Hb. rewrite Z.lor_spec. destruct (Z.leb_spec (k * W) b); zcases; [rewrite Bx by lia; apply H2; lia|apply H1; lia].
Qed.

(** The new bits of a word against those of [extend]. *)
Ltac new_bits Hf := intros b' Hb'; unfold extend; zcases; word_bits; rewrite ?Hf by lia; rewrite ?andb_true_r, ?andb_false_r, ?orb_false_r, ?orb_false_l; try reflexivity; try (f_equal; lia).

Lemma pack_single_in_packs W DELTA : word_size W → 0 < DELTA < W → packs_single W DELTA (λ r, pack_single_in W DELTA r (2 ^ DELTA - 1)).
Proof.
  intros HW HD buf buf1 a k r v f n Hv Ha Hk Hr HF Hf Hn Hlt. unfold pack_single_in. assert (k + 1 ≤ n) by nia. assert ((k + 1) * W ≤ n * W) by nia. assert (EW : k * W + W = (k + 1) * W) by lia. set (m := Z.land v (2 ^ DELTA - 1)). set (f' := extend (k * W + r - a) DELTA v f).
  assert (Rm : 0 ≤ m < 2 ^ W) by (apply land_mask_range; lia). destruct (Z.ltb_spec (DELTA + r) W).
  - assert (Er : word_end W k (r + DELTA) = (k + 1) * W) by (rewrite (proj2 (Z.eqb_neq (r + DELTA) 0)) by lia; exact EW). destruct (Z.eqb_spec r 0) as [->|Hr0].
    + destruct (store_fresh W buf buf1 a k m f f') as (buf2 & E & F); try assumption; [rewrite Z.add_0_r in HF; exact HF|lia|unfold f'; new_bits Hf|unfold f', m; new_bits Hf|]. exists buf2, k, (0 + DELTA). rewrite E, Er. split_and!; try assumption; try lia. reflexivity.
    + destruct (store_more W buf buf1 a k (uwrap W (Z.shiftl m r)) f f') as (x & buf2 & Ex & _ & E & F); try assumption; [rewrite <- EW; exact HF|lia|apply uwrap_range; lia|unfold f'; new_bits Hf|unfold f', m; new_bits Hf|].
      exists buf2, k, (r + DELTA). rewrite Ex, Er. cbn [mbind outcome_bind]. rewrite E. split_and!; try assumption; try lia. reflexivity.
  - rewrite (proj2 (Z.eqb_neq r 0)) in HF by lia. assert (k + 2 ≤ n) by nia. assert ((k + 2) * W ≤ n * W) by nia.
    destruct (store_more W buf buf1 a k (uwrap W (Z.shiftl v r)) f f') as (x & buf2 & Ex & _ & E & F); try assumption; [rewrite <- EW; exact HF|lia|apply uwrap_range; lia|unfold f'; new_bits Hf|unfold f'; new_bits Hf|]. rewrite Ex. cbn [mbind outcome_bind]. rewrite E. cbn [mbind outcome_bind].
    destruct (Z.ltb_spec W (DELTA + r)).
    + destruct (store_fresh W buf buf2 a (k + 1) (Z.shiftr m (W - r)) f' f') as (buf3 & E3 & F3); try assumption; try lia; [apply shiftr_range; [lia|exact Rm]|reflexivity|unfold f', m; new_bits Hf|]. exists buf3, (k + 1), (r + DELTA - W). rewrite E3. rewrite (proj2 (Z.eqb_neq (r + DELTA - W) 0)) by lia. replace ((k + 1) * W + W) with ((k + 1 + 1) * W) by lia. split_and!; try assumption; try lia. reflexivity.
    + exists buf2, (k + 1), 0. cbn [mbind outcome_bind Z.eqb]. rewrite Z.add_0_r. split_and!; try assumption; try lia. reflexivity.
Qed.
Lemma pack_last_packs W DELTA : word_size W → 0 < DELTA < W → packs_last W DELTA (pack_last W DELTA).
Proof.
  intros HW HD buf buf1 a k r v f n Hv Ha Hk Hr HF Hf Hn He. unfold pack_last. assert (r + DELTA = (n - k) * W) by lia. assert (n - k = 1) by nia. replace n with (k + 1) in * by lia. set (f' := extend (k * W + r - a) DELTA v f).
  rewrite (proj2 (Z.eqb_neq r 0)) in HF by lia. destruct (store_more W buf buf1 a k (uwrap W (Z.shiftl v r)) f f') as (x & buf2 & Ex & _ & E & F); try assumption; [replace ((k + 1) * W) with (k * W + W) by lia; exact HF|apply uwrap_range; lia|unfold f'; new_bits Hf|unfold f'; new_bits Hf|].
  exists buf2. rewrite Ex. split; [exact E|exact F].
Qed.

Lemma uwrap_lor x y : 0 ≤ x < 2 ^ 32 → uwrap 32 (Z.lor x (uwrap 64 y)) = Z.lor x (uwrap 32 y).
Proof. intros Hx. apply Z.bits_inj'. intros j Hj. unfold uwrap. rewrite bit_mod, !Z.lor_spec, !bit_mod by lia. destruct (Z.ltb_spec j 32), (Z.ltb_spec j 64); cbn [andb]; try lia; try reflexivity. all: rewrite ?(bit_above x 32) by lia; reflexivity. Qed.

Lemma pack_single_in64_packs DELTA : 0 < DELTA < 64 → DELTA ≠ 32 → packs_single 32 DELTA (λ r, pack_single_in64 DELTA r (2 ^ DELTA - 1)).
Proof.
  intros HD Hne buf buf1 a k r v f n Hv Ha Hk Hr HF Hf Hn Hlt. assert (H32 : word_size 32) by (unfold word_size; lia). unfold pack_single_in64. assert (EW : k * 32 + 32 = (k + 1) * 32) by lia. set (m := Z.land v (2 ^ DELTA - 1)). set (f' := extend (k * 32 + r - a) DELTA v f).
  destruct (Z.ltb_spec (DELTA + r) 64).
  - assert (G : ∃ buf2, (if r =? 0 then store_word 32 buf1 k (uwrap 32 m) else x ← load_word 32 buf1 k; store_word 32 buf1 k (uwrap 32 (Z.lor x (uwrap 64 (Z.shiftl m r))))) = Ok buf2 ∧ filled buf buf2 a ((k + 1) * 32) f').
    { destruct (Z.eqb_spec r 0) as [->|Hr0].
      - apply (store_fresh 32 buf buf1 a k _ f); try assumption; [rewrite Z.add_0_r in HF; exact HF|lia|apply uwrap_range; lia|unfold f'; new_bits Hf|unfold f', m; new_bits Hf].
      - destruct (store_more 32 buf buf1 a k (uwrap 32 (Z.shiftl m r)) f f') as (x & buf2 & Ex & Rx & E & F); try assumption; [rewrite <- EW; exact HF|lia|apply uwrap_range; lia|unfold f'; new_bits Hf|unfold f', m; new_bits Hf|]. exists buf2. rewrite Ex. cbn [mbind outcome_bind]. rewrite uwrap_lor by exact Rx. split; assumption. }
    destruct G as (buf2 & E & F). rewrite E. cbn [mbind outcome_bind]. destruct (Z.ltb_spec (DELTA + r) 32); [|destruct (Z.ltb_spec 32 (DELTA + r))].
    + exists buf2, k, (r + DELTA). rewrite (proj2 (Z.eqb_neq (r + DELTA) 0)), EW by lia. split_and!; try assumption; try lia. reflexivity.
    + destruct (store_fresh 32 buf buf2 a (k + 1) (uwrap 32 (Z.shiftr m (32 - r))) f' f') as (buf3 & E3 & F3); try assumption; try lia; [apply uwrap_range; lia|reflexivity|unfold f', m; new_bits Hf|]. exists buf3, (k + 1), (r + DELTA - 32). rewrite E3. rewrite (proj2 (Z.eqb_neq (r + DELTA - 32) 0)) by lia. replace ((k + 1) * 32 + 32) with ((k + 1 + 1) * 32) by lia. split_and!; try assumption; try lia. reflexivity.
    + exists buf2, (k + 1), 0. cbn [mbind outcome_bind Z.eqb]. rewrite Z.add_0_r. split_and!; try assumption; try lia. reflexivity.
  - rewrite (proj2 (Z.eqb_neq r 0)) in HF by lia. destruct (store_more 32 buf buf1 a k (uwrap 32 (Z.shiftl v r)) f f') as (x & buf2 & Ex & Rx & E & F); try assumption; [rewrite <- EW; exact HF|lia|apply uwrap_range; lia|unfold f'; new_bits Hf|unfold f'; new_bits Hf|]. rewrite Ex. cbn [mbind outcome_bind]. rewrite uwrap_lor, E by exact Rx. cbn [mbind outcome_bind].
    destruct (store_fresh 32 buf buf2 a (k + 1) (uwrap 32 (Z.shiftr m (32 - r))) f' f') as (buf3 & E3 & F3); try assumption; try lia; [apply uwrap_range; lia|reflexivity|unfold f', m; new_bits Hf|]. rewrite E3. cbn [mbind outcome_bind]. replace (k + 1 + 1) with (k + 2) in F3 by lia. destruct (Z.ltb_spec 64 (DELTA + r)).
    + destruct (store_fresh 32 buf buf3 a (k + 2) (uwrap 32 (Z.shiftr m (64 - r))) f' f') as (buf4 & E4 & F4); try assumption; try lia; [apply uwrap_range; lia|reflexivity|unfold f', m; new_bits Hf|]. exists buf4, (k + 2), (r + DELTA - 64). rewrite E4. rewrite (proj2 (Z.eqb_neq (r + DELTA - 64) 0)) by lia. replace ((k + 2) * 32 + 32) with ((k + 2 + 1) * 32) by lia. split_and!; try assumption; try lia. reflexivity.
    + exists buf3, (k + 2), 0. cbn [mbind outcome_bind Z.eqb]. rewrite Z.add_0_r. split_and!; try assumption; try lia. reflexivity.
Qed.
Lemma pack_last64_packs DELTA : 0 < DELTA < 64 → DELTA ≠ 32 → packs_last 32 DELTA (pack_last64 DELTA).
Proof.
  intros HD Hne buf buf1 a k r v f n Hv Ha Hk Hr HF Hf Hn He. assert (H32 : word_size 32) by (unfold word_size; lia). unfold pack_last64. set (f' := extend (k * 32 + r - a) DELTA v f). rewrite (proj2 (Z.eqb_neq r 0)) in HF by lia.
  destruct (store_more 32 buf buf1 a k (uwrap 32 (Z.shiftl v r)) f f') as (x & buf2 & Ex & Rx & E & F); try assumption; [replace ((k + 1) * 32) with (k * 32 + 32) by lia; exact HF|lia|apply uwrap_range; lia|unfold f'; new_bits Hf|unfold f'; new_bits Hf|]. rewrite Ex. cbn [mbind outcome_bind]. rewrite uwrap_lor, E by exact Rx. cbn [mbind outcome_bind]. destruct (Z.ltb_spec 32 DELTA).
  - replace n with (k + 1 + 1) in * by lia. apply (store_fresh 32 buf buf2 a (k + 1) _ f'); try assumption; try lia; [apply uwrap_range; lia|reflexivity|unfold f'; new_bits Hf].
  - replace n with (k + 1) in * by lia. exists buf2. split; [reflexivity|exact F].
Qed.

(** The bits of values one after the other, from [p] on. *)
Fixpoint layout (DELTA : Z) (vs : list Z) (p : Z) (f : Z → bool) : Z → bool :=
  match vs with [] => f | v :: vs' => layout DELTA vs' (p + DELTA) (extend p DELTA v f) end.
Lemma layout_before DELTA vs : 0 < DELTA → ∀ p f q, q < p → layout DELTA vs p f q = f q.
Proof. intros HD. induction vs as [|v vs IH]; intros p f q Hq; [reflexivity|]. cbn [layout]. rewrite IH by lia. unfold extend. rewrite (proj2 (Z.ltb_lt _ _)) by lia. reflexivity. Qed.
Lemma layout_bit DELTA vs : 0 < DELTA → ∀ p f i j, 0 ≤ i < Z.of_nat (length vs) → 0 ≤ j < DELTA → layout DELTA vs p f (p + i * DELTA + j) = match vs !! Z.to_nat i with Some v => Z.testbit v j | None => false end.
Proof.
  intros HD. induction vs as [|v vs IH]; intros p f i j Hi Hj; [cbn in Hi; lia|]. cbn [layout length] in *. destruct (decide (i = 0)) as [->|Hne].
  - rewrite layout_before by lia. unfold extend. rewrite (proj2 (Z.ltb_ge _ _)), (proj2 (Z.ltb_lt _ _)) by lia. cbn. f_equal. lia.
  - replace (p + i * DELTA + j) with (p + DELTA + (i - 1) * DELTA + j) by lia. rewrite IH by lia. replace (Z.to_nat i) with (S (Z.to_nat (i - 1))) by lia. reflexivity.
Qed.
Lemma extend_after p DELTA v f q : 0 < DELTA → p + DELTA ≤ q → extend p DELTA v f q = false.
Proof. intros HD H. unfold extend. rewrite !(proj2 (Z.ltb_ge _ _)) by lia. reflexivity. Qed.

Lemma Pack_fills W DELTA single_in last_in : 0 < W → 0 < DELTA → packs_single W DELTA single_in → packs_last W DELTA last_in →
  ∀ vs o s k r n f buf buf1, vs ≠ [] → Forall (λ v, 0 ≤ v) vs → 0 ≤ s ≤ k → 0 ≤ r < W → filled buf buf1 (s * W) (word_end W k r) f → (∀ j, k * W + r - s * W ≤ j → f j = false) →
  n * W ≤ bits_of buf → k * W + r = s * W + DELTA * o → s * W + DELTA * (o + Z.of_nat (length vs)) = n * W →
  ∃ buf2, Pack W DELTA single_in last_in o vs buf1 k = Ok buf2 ∧ filled buf buf2 (s * W) (n * W) (layout DELTA vs (DELTA * o) f).
Proof.
  intros HW HD Hs Hl. induction vs as [|v vs IH]; intros o s k r n f buf buf1 Hne Hv Hk Hr HF Hf Hn Hp He; [contradiction|]. inversion Hv as [|? ? Hv1 Hv2]; subst.
  assert (Em : (DELTA * o) mod W = r) by (symmetry; apply (Z.mod_unique_pos _ _ (k - s)); lia). assert (Ea : k * W + r - s * W = DELTA * o) by lia. assert (Ha : 0 ≤ s * W ≤ k * W) by nia. cbn [Pack]. rewrite Em. destruct vs as [|v' vs].
  - destruct (Hl buf buf1 (s * W) k r v f n) as (buf2 & E & F); try assumption; [lia|cbn [length] in He; lia|]. exists buf2. rewrite Ea in F. split; [exact E|exact F].
  - destruct (Hs buf buf1 (s * W) k r v f n) as (buf2 & k' & r' & E & Ep & Hr' & Hk' & F); try assumption; [lia|cbn [length] in He; rewrite !Nat2Z.inj_succ in He; nia|]. rewrite E. cbn [mbind outcome_bind]. rewrite Ea in F.
    destruct (IH (o + 1) s k' r' n (extend (DELTA * o) DELTA v f) buf buf2) as (buf3 & E3 & F3); try assumption; try lia; [discriminate|intros j Hj; apply extend_after; lia|cbn [length] in *; lia|]. exists buf3. split; [exact E3|]. cbn [layout] in *. replace (DELTA * o + DELTA) with (DELTA * (o + 1)) by lia. exact F3.
Qed.

Lemma filled_writes buf buf' w i0 vs : 0 < w → 0 ≤ i0 → filled buf buf' (i0 * w) ((i0 + Z.of_nat (length vs)) * w) (layout w vs 0 (λ _, false)) → writes buf buf' w i0 vs.
Proof.
  intros Hw Hi0 (L & Hb & B). split; [exact L|exact Hb|]. intros i j Hi Hj. rewrite B by nia. unfold from_pos. destruct (Z.ltb_spec i i0) as [H|H]; [rewrite (proj2 (Z.leb_gt _ _)) by nia; reflexivity|]. rewrite (proj2 (Z.leb_le _ _)) by nia. cbn [andb].
  destruct (Z.ltb_spec i (i0 + Z.of_nat (length vs))) as [H'|H'].
  - rewrite (proj2 (Z.ltb_lt _ _)) by nia. replace (i * w + j - i0 * w) with (0 + (i - i0) * w + j) by lia. rewrite layout_bit by lia. destruct (vs !! Z.to_nat (i - i0)) eqn:E; [reflexivity|]. apply lookup_ge_None in E. lia.
  - rewrite (proj2 (Z.ltb_ge _ _)) by nia. rewrite lookup_ge_None_2 by lia. reflexivity.
Qed.

(** Values in words of their own. *)
Lemma each_writes (step : list Z → nat * Z → outcome (list Z)) w i0 : 0 < w → (∀ buf k v, bytes_ok buf → (i0 + Z.of_nat k + 1) * w ≤ bits_of buf → ∃ buf', step buf (k, v) = Ok buf' ∧ writes buf buf' w (i0 + Z.of_nat k) [v]) →
  ∀ vs k buf, bytes_ok buf → (i0 + Z.of_nat k + Z.of_nat (length vs)) * w ≤ bits_of buf → ∃ buf', foldM step (imap (λ j v, (k + j, v)%nat) vs) buf = Ok buf' ∧ writes buf buf' w (i0 + Z.of_nat k) vs.
Proof.
  intros Hw Hstep. induction vs as [|v vs IH]; intros k buf Hb Hr; [exists buf; split; [reflexivity|apply writes_nil, Hb]|]. cbn [imap foldM length] in *. destruct (Hstep buf (k + 0)%nat v Hb ltac:(nia)) as (b1 & E1 & W1). rewrite E1. cbn [mbind outcome_bind].
  pose proof (writes_length _ _ _ _ _ W1) as L. destruct (IH (S k) b1 (writes_bytes _ _ _ _ _ W1)) as (b2 & E2 & W2); [unfold bits_of in *; rewrite L; nia|]. exists b2. split; [rewrite <- E2; f_equal; apply imap_ext; intros j x _; cbn; f_equal; lia|].
  apply (writes_app _ b1 _ _ _ [v]); [replace (Z.of_nat k) with (Z.of_nat (k + 0)) by lia; exact W1|]. cbn [length]. replace (i0 + Z.of_nat k + Z.of_nat 1) with (i0 + Z.of_nat (S k)) by lia. exact W2.
Qed.

Lemma bits_writes buf buf' w i v : 0 < w → 0 ≤ i → length buf' = length buf → bytes_ok buf' → (∀ b, 0 ≤ b → bit buf' b = if (i * w <=? b) && (b <? (i + 1) * w) then Z.testbit v (b - i * w) else bit buf b) → writes buf buf' w i [v].
Proof.
  intros Hw Hi L Hb B. split; [exact L|exact Hb|]. intros q j Hq Hj. rewrite B by nia. unfold from_pos. destruct (Z.ltb_spec q i); [rewrite (proj2 (Z.leb_gt _ _)) by nia; reflexivity|]. rewrite (proj2 (Z.leb_le _ _)) by nia. cbn [andb]. destruct (decide (q = i)) as [->|Hn].
  - rewrite (proj2 (Z.ltb_lt _ _)) by nia. rewrite Z.sub_diag. cbn. f_equal. lia.
  - rewrite (proj2 (Z.ltb_ge _ _)) by nia. rewrite lookup_ge_None_2 by (cbn; lia). reflexivity.
Qed.

Lemma pack_copy_writes W vs buf out : word_size W → bytes_ok buf → 0 ≤ out → (out + Z.of_nat (length vs)) * W ≤ bits_of buf → ∃ buf', pack_copy W vs buf out = Ok buf' ∧ writes buf buf' W out vs.
Proof.
  intros HW Hb Ho Hr. assert (H0 : 0 < W) by (destruct HW as [-> | [-> | ->]]; lia). destruct (each_writes (λ buf '(k, v), store_word W buf (out + Z.of_nat k) (uwrap W v)) W out H0) with (vs := vs) (k := 0%nat) (buf := buf) as (buf' & E & Wr); [|exact Hb|lia|exists buf'; rewrite Z.add_0_r in Wr; split; [exact E|exact Wr]].
  intros b k v Hb' Hr'. destruct (store_word_bits W b (out + Z.of_nat k) (uwrap W v) HW Hb' ltac:(lia) Hr' (uwrap_range W v ltac:(lia))) as (b' & E & L & B' & Hbit). exists b'. split; [exact E|]. apply bits_writes; try assumption; [lia|]. intros j Hj. rewrite Hbit by exact Hj. zcases; try reflexivity. unfold uwrap. rewrite bit_mod, (proj2 (Z.ltb_lt _ _)) by lia. reflexivity.
Qed.
Lemma pack_pairs_writes vs buf : bytes_ok buf → Z.of_nat (length vs) * 64 ≤ bits_of buf → ∃ buf', pack_pairs vs buf 0 = Ok buf' ∧ writes buf buf' 64 0 vs.
Proof.
  intros Hb Hr. assert (H32 : word_size 32) by (unfold word_size; lia). apply (each_writes (λ buf '(k, v), buf ← store_word 32 buf (0 + 2 * Z.of_nat k) (uwrap 32 v); store_word 32 buf (0 + (2 * Z.of_nat k + 1)) (uwrap 32 (Z.shiftr v 32))) 64 0 ltac:(lia)) with (k := 0%nat); [|exact Hb|lia].
  intros b k v Hb' Hr'. destruct (store_word_bits 32 b (0 + 2 * Z.of_nat k) (uwrap 32 v) H32 Hb' ltac:(lia) ltac:(lia) (uwrap_range 32 v ltac:(lia))) as (b1 & E1 & L1 & B1 & X1). rewrite E1. cbn [mbind outcome_bind].
  destruct (store_word_bits 32 b1 (0 + (2 * Z.of_nat k + 1)) (uwrap 32 (Z.shiftr v 32)) H32 B1 ltac:(lia) ltac:(unfold bits_of in *; lia) (uwrap_range 32 _ ltac:(lia))) as (b2 & E2 & L2 & B2 & X2). exists b2. split; [exact E2|]. apply bits_writes; try assumption; try lia. intros j Hj. rewrite X2, X1 by exact Hj.
  unfold uwrap. zcases; try reflexivity; rewrite bit_mod by lia; rewrite (proj2 (Z.ltb_lt _ _)) by lia; cbn [andb]; rewrite ?Z.shiftr_spec by lia; f_equal; lia.
Qed.

Lemma fastpack_words_writes W vs buf i w : word_size W → length vs = Z.to_nat W → Forall (λ v, 0 ≤ v) vs → bytes_ok buf → 0 ≤ i → 0 < w ≤ W → (i + 1) * W * w ≤ bits_of buf →
  ∃ buf', fastpack_words W vs buf (i * w) w = Ok buf' ∧ writes buf buf' w (i * W) vs.
Proof.
  intros HW Hl Hv Hb Hi Hw Hr. assert (H0 : 0 < W) by (destruct HW as [-> | [-> | ->]]; lia). unfold fastpack_words. rewrite (proj2 (Z.eqb_neq w 0)) by lia. destruct (Z.eqb_spec w W) as [->|Hn]; [apply pack_copy_writes; try assumption; [nia|rewrite Hl, Z2Nat.id by lia; nia]|].
  rewrite (proj2 (Z.ltb_lt 0 w)), (proj2 (Z.ltb_lt w W)) by lia. cbn [andb].
  destruct (Pack_fills W w _ _ H0 ltac:(lia) (pack_single_in_packs W w HW ltac:(lia)) (pack_last_packs W w HW ltac:(lia)) vs 0 (i * w) (i * w) 0 ((i + 1) * w) (λ _, false) buf buf) as (buf' & E & F); try assumption; try lia; try nia; [intros ->; cbn in Hl; lia| |].
  - split; [reflexivity|]. split; [exact Hb|]. intros b Hb'. cbn [Z.eqb]. zcases; reflexivity.
  - exists buf'. split; [exact E|]. apply filled_writes; [lia|nia|]. rewrite Hl, Z2Nat.id by lia. replace (i * W * w) with (i * w * W) by lia. replace ((i * W + W) * w) with ((i + 1) * w * W) by lia. rewrite Z.mul_0_r in F. exact F.
Qed.

Lemma fastpack64_writes vs buf w : length vs = 32%nat → Forall (λ v, 0 ≤ v) vs → bytes_ok buf → 0 < w ≤ 64 → 32 * w ≤ bits_of buf → ∃ buf', fastpack64 vs buf 0 w = Ok buf' ∧ writes buf buf' w 0 vs.
Proof.
  intros Hl Hv Hb Hw Hr. assert (H32 : word_size 32) by (unfold word_size; lia). unfold fastpack64. rewrite (proj2 (Z.eqb_neq w 0)) by lia. destruct (Z.eqb_spec w 64) as [->|Hn]; [apply pack_pairs_writes; [exact Hb|rewrite Hl; lia]|]. destruct (Z.eqb_spec w 32) as [->|H3]; [apply pack_copy_writes; try assumption; rewrite ?Hl; lia|].
  rewrite (proj2 (Z.ltb_lt 0 w)), (proj2 (Z.ltb_lt w 64)) by lia. cbn [andb].
  destruct (Pack_fills 32 w _ _ ltac:(lia) ltac:(lia) (pack_single_in64_packs w ltac:(lia) H3) (pack_last64_packs w ltac:(lia) H3) vs 0 0 0 0 w (λ _, false) buf buf) as (buf' & E & F); try assumption; try lia; [intros ->; cbn in Hl; lia| |].
  - split; [reflexivity|]. split; [exact Hb|]. intros b Hb'. cbn [Z.eqb]. zcases; reflexivity.
  - exists buf'. split; [exact E|]. apply filled_writes; [lia|lia|]. rewrite Hl. replace ((0 + Z.of_nat 32) * w) with (w * 32) by lia. rewrite Z.mul_0_r in F. exact F.
Qed.

(** ** What the library does with 32 values: [w] bits of each, one after the other *)

Lemma parts_write W vs w : word_size W → Forall (λ v, 0 ≤ v) vs → 0 < w ≤ W →
  ∀ (m : nat) i buf, 0 ≤ i → bytes_ok buf → (i + Z.of_nat m) * W ≤ Z.of_nat (length vs) → Z.of_nat (length vs) * w ≤ bits_of buf →
  ∃ buf', foldM (λ buf i, fastpack_words W (take (Z.to_nat W) (drop (Z.to_nat (i * W)) vs)) buf (i * w) w) (seqZ i (Z.of_nat m)) buf = Ok buf' ∧ writes buf buf' w (i * W) (take (m * Z.to_nat W) (drop (Z.to_nat (i * W)) vs)).
Proof.
  intros HW Hv Hw. assert (H0 : 0 < W) by (destruct HW as [-> | [-> | ->]]; lia). induction m as [|m IH]; intros i buf Hi Hb Hl Hr; [exists buf; split; [reflexivity|rewrite take_0; apply writes_nil, Hb]|]. rewrite Nat2Z.inj_succ, <- Z.add_1_r, (seqZ_S i) by lia. cbn [foldM].
  assert (Lp : length (take (Z.to_nat W) (drop (Z.to_nat (i * W)) vs)) = Z.to_nat W) by (rewrite length_take, length_drop; nia). destruct (fastpack_words_writes W (take (Z.to_nat W) (drop (Z.to_nat (i * W)) vs)) buf i w) as (b1 & E1 & W1); try assumption; [apply Forall_take, Forall_drop, Hv|nia|]. rewrite E1. cbn [mbind outcome_bind].
  pose proof (writes_length _ _ _ _ _ W1) as L. destruct (IH (i + 1) b1) as (b2 & E2 & W2); [lia|exact (writes_bytes _ _ _ _ _ W1)|lia|unfold bits_of in *; lia|]. exists b2. split; [exact E2|]. replace (S m * Z.to_nat W)%nat with (Z.to_nat W + m * Z.to_nat W)%nat by lia. rewrite <- take_take_drop. apply (writes_app _ b1); [exact W1|].
  rewrite Lp, drop_drop, Z2Nat.id by lia. replace (Z.to_nat (i * W) + Z.to_nat W)%nat with (Z.to_nat ((i + 1) * W)) by nia. replace (i * W + W) with ((i + 1) * W) by lia. exact W2.
Qed.

Lemma fastpack_writes sz vs buf w : machine_width sz → length vs = 32%nat → Forall (λ v, 0 ≤ v) vs → bytes_ok buf → 0 < w ≤ sz → 32 * w ≤ bits_of buf → ∃ buf', fastpack sz vs buf w = Ok buf' ∧ writes buf buf' w 0 vs.
Proof.
  intros Hsz Hl Hv Hb Hw Hr. unfold fastpack. destruct (machine_cases sz Hsz) as [->|(Hn & HW & E)]; [apply fastpack64_writes; assumption|]. rewrite (proj2 (Z.eqb_neq _ _) Hn). assert (0 < sz) by (destruct HW as [-> | [-> | ->]]; lia). assert (0 ≤ 32 / sz) by (apply Z.div_pos; lia).
  destruct (parts_write sz vs w HW Hv Hw (Z.to_nat (32 / sz)) 0 buf) as (buf' & Ef & Wr); [lia|exact Hb|rewrite Hl, Z2Nat.id by lia; lia|rewrite Hl; exact Hr|]. rewrite Z2Nat.id in Ef by lia. exists buf'. split; [exact Ef|]. rewrite drop_0, take_ge in Wr by (rewrite Hl; nia). exact Wr.
Qed.
Lemma fastpack_nothing sz vs buf : machine_width sz → fastpack sz vs buf 0 = Ok buf.
Proof. intros [-> | [-> | [-> | ->]]]; reflexivity. Qed.
