(* ===== verification/BitpackingTheorems.v ===== *)
(** * Theorems of bit packing

    Pages of packed integers against lists of values, with the packing library of FastPForSpec; then 128-bit integers, and what goes wrong. *)

From stdpp Require Import base numbers list strings.
From Stdlib Require Import ZArith Lia.
From S2P Require Import Prelude Serializer NullMask Date Int128 Int128Spec Int128Theorems Bitpacking BitpackingSpec FastPForSpec.
Import Serializer BitpackingUtils StorageValue IntegerBitpacking.

#[local] Open Scope Z_scope.

Lemma seqZ_nat pos n : seqZ (Z.of_nat pos) (Z.of_nat n) = map Z.of_nat (seq pos n).
Proof.
  unfold seqZ. rewrite Nat2Z.id. revert pos. induction n as [|n IH]; intros pos; [reflexivity|]. cbn [seq map fmap list_fmap]. rewrite Z.add_0_l. f_equal. rewrite <- (IH (S pos)). rewrite <- fmap_S_seq, <- list_fmap_compose. apply list_fmap_ext. intros i x _. cbn. lia.
Qed.

Lemma mapO_app_inv {A B} (f : A → outcome B) l1 l2 r : mapO f (l1 ++ l2) = Ok r → ∃ r1 r2, mapO f l1 = Ok r1 ∧ mapO f l2 = Ok r2 ∧ r = r1 ++ r2.
Proof. rewrite mapO_app. destruct (mapO f l1) as [r1|]; [|discriminate]. destruct (mapO f l2) as [r2|]; [|discriminate]. cbn. intros H. injection H as <-. eauto. Qed.
Lemma mapO_length {A B} (f : A → outcome B) l r : mapO f l = Ok r → length r = length l.
Proof. revert r. induction l as [|a l IH]; intros r; cbn [mapO]; [intros H; injection H as <-; reflexivity|]. destruct (f a); [|discriminate]. destruct (mapO f l) as [r'|]; [|discriminate]. cbn. intros H. injection H as <-. cbn. rewrite (IH r' eq_refl). reflexivity. Qed.
Lemma mapO_forall {A B} (f : A → outcome B) (P : B → Prop) l r : (∀ a b, f a = Ok b → P b) → mapO f l = Ok r → Forall P r.
Proof. intros Hf. revert r. induction l as [|a l IH]; intros r; cbn [mapO]; [intros H; injection H as <-; constructor|]. destruct (f a) eqn:E; [|discriminate]. destruct (mapO f l) as [r'|]; [|discriminate]. cbn. intros H. injection H as <-. constructor; eauto. Qed.
Lemma mapO_lookup {A B} (f : A → outcome B) l r i a : mapO f l = Ok r → l !! i = Some a → ∃ b, f a = Ok b ∧ r !! i = Some b.
Proof.
  revert r i. induction l as [|x l IH]; intros r i H Hi; [discriminate Hi|]. cbn [mapO] in H. destruct (f x) as [b|] eqn:E; [|discriminate H]. destruct (mapO f l) as [r'|]; [|discriminate H]. cbn in H. injection H as <-. destruct i as [|i]; cbn in *; [injection Hi as <-; eauto|]. apply (IH r' i eq_refl Hi).
Qed.

Section IntegerPages.
Context (t : IntType) (t_ok : machine_width (size t)).
Local Abbreviation sz := (size t).
Local Instance machine_t : UncompressedType Z := machine sz.
Local Instance machine_t_ok : UncompressedOk Z := machine_ok sz t_ok.

Lemma sz_range : 8 ≤ sz ≤ 64.
Proof. destruct t_ok as [-> | [-> | [-> | ->]]]; lia. Qed.

(** A page whose size is a number of words. *)
Definition page_ok (page : list Z) : Prop := bytes_ok page ∧ (32 | bits_of page) ∧ 0 < bits_of page.

Lemma word_divides page : (32 | bits_of page) → (sizeOfCompressedTypeBits Z | bits_of page).
Proof. intros [q Hq]. unfold sizeOfCompressedTypeBits. destruct (32 <=? sizeBits Z); [exists q; exact Hq|exists (4 * q); lia]. Qed.

(** *** Reading *)

Lemma drop_page page n : page_ok page → 8 * Z.of_nat n < bits_of page → (4 | Z.of_nat n) → page_ok (drop n page) ∧ bits_of (drop n page) = bits_of page - 8 * Z.of_nat n.
Proof.
  intros (Hb & [q Hq] & Hpos) Hn [k Hk]. assert (E : bits_of (drop n page) = bits_of page - 8 * Z.of_nat n) by (unfold bits_of in *; rewrite length_drop; lia). split; [|exact E]. split; [apply Forall_drop, Hb|]. rewrite E. split; [exists (q - k); lia|lia].
Qed.

Lemma getValues_reads cursor pos n info : page_ok cursor → 0 ≤ bitWidth info ≤ sz → (pos + n ≤ 32)%nat → Z.of_nat (pos + n) * bitWidth info ≤ bits_of cursor →
  getValues t cursor pos n info = mapO (λ i, restore t info (slice cursor (i * bitWidth info) (bitWidth info))) (seqZ (Z.of_nat pos) (Z.of_nat n)).
Proof.
  intros (Hb & Hd & Hpos) Hw Hn Hr. unfold getValues, ku_assert_o. rewrite (proj2 (Nat.leb_le _ _)) by (unfold CHUNK_SIZE; lia). cbn [mbind outcome_bind]. rewrite seqZ_nat, mapO_map. apply mapO_ext. intros i Hi. apply elem_of_seq in Hi. destruct (@unpackSingle_bits Z machine_t machine_t_ok cursor (bitWidth info) (Z.of_nat i) Hb Hw ltac:(lia)) as (u & E & _ & P); [apply (@in_buffer_of Z machine_t machine_t_ok); [lia|exact Hw|nia|apply word_divides, Hd|exact Hpos]|]. change (pattern u) with u in P. subst u. change (@unpackSingle Z (machine sz)) with (@unpackSingle Z machine_t). rewrite E. reflexivity.
Qed.

(** The value at a position, as it is read. *)
Definition read (info : BitpackInfo) (page : list Z) (i : Z) : outcome Z := restore t info (slice page (i * bitWidth info) (bitWidth info)).

Lemma read_drop info page k i : bytes_ok page → 0 ≤ bitWidth info → 0 ≤ k → 0 ≤ i → k * 32 * bitWidth info ≤ bits_of page → read info (drop (Z.to_nat (4 * bitWidth info * k)) page) i = read info page (32 * k + i).
Proof. intros Hb Hw Hk Hi Hr. unfold read. assert (0 ≤ bitWidth info * k) by nia. unfold bits_of in Hr. rewrite bits_slice_drop by (try assumption; nia). do 2 f_equal. rewrite Z2Nat.id by nia. nia. Qed.

Lemma mapO_shift info page k pos n : bytes_ok page → 0 ≤ bitWidth info → 0 ≤ k → 0 ≤ pos → k * 32 * bitWidth info ≤ bits_of page →
  mapO (read info (drop (Z.to_nat (4 * bitWidth info * k)) page)) (seqZ pos n) = mapO (read info page) (seqZ (32 * k + pos) n).
Proof. intros Hb Hw Hk Hp Hr. rewrite <- (fmap_add_seqZ (32 * k) pos n). change (Z.add (32 * k) <$> seqZ pos n) with (map (Z.add (32 * k)) (seqZ pos n)). rewrite mapO_map. apply mapO_ext. intros i Hi. apply elem_of_seqZ in Hi. apply read_drop; (assumption || lia). Qed.

Lemma full_chunks_reads count : ∀ cursor info, bytes_ok cursor → 0 ≤ bitWidth info ≤ sz → Z.of_nat count * 32 * bitWidth info ≤ bits_of cursor →
  full_chunks t count cursor info = vs ← mapO (read info cursor) (seqZ 0 (32 * Z.of_nat count)); Ok (vs, drop (Z.to_nat (4 * bitWidth info * Z.of_nat count)) cursor).
Proof.
  induction count as [|count IH]; intros cursor info Hb Hw Hr; cbn [full_chunks]; [rewrite Z.mul_0_r; reflexivity|]. pose proof (fastunpack_reads sz cursor (bitWidth info) t_ok Hb Hw ltac:(nia)) as Ef. rewrite Ef. cbn [mbind outcome_bind]. rewrite mapO_map. change (Z.of_nat CHUNK_SIZE / 8) with 4.
  replace (32 * Z.of_nat (S count)) with (32 + 32 * Z.of_nat count) by lia. rewrite seqZ_app by lia. rewrite mapO_app. change (mapO (λ a, restore t info (slice cursor (a * bitWidth info) (bitWidth info)))) with (mapO (read info cursor)). destruct (mapO (read info cursor) (seqZ 0 32)) as [vs|e]; cbn [mbind outcome_bind]; [|reflexivity].
  assert (Ed : drop (Z.to_nat (4 * bitWidth info)) cursor = drop (Z.to_nat (4 * bitWidth info * 1)) cursor) by (rewrite Z.mul_1_r; reflexivity). rewrite Ed. set (c1 := drop (Z.to_nat (4 * bitWidth info * 1)) cursor). assert (Hbits : bits_of c1 = bits_of cursor - 32 * bitWidth info) by (unfold c1, bits_of in *; rewrite length_drop; nia). rewrite IH; [|apply Forall_drop, Hb|exact Hw|nia].
  unfold c1. rewrite (mapO_shift info cursor 1 0) by (assumption || nia). change (32 * 1 + 0) with (0 + 32). destruct (mapO (read info cursor) (seqZ (0 + 32) (32 * Z.of_nat count))); cbn [mbind outcome_bind]; [|reflexivity]. rewrite drop_drop. do 3 f_equal. nia.
Qed.

Lemma aligned_reads cursor n info : bytes_ok cursor → (32 | bits_of cursor) → 0 < bits_of cursor ∨ n = 0 → 0 ≤ bitWidth info ≤ sz → 0 ≤ n → n * bitWidth info ≤ bits_of cursor →
  ('(middle, srcCursor) ← full_chunks t (Z.to_nat (n / 32)) cursor info; last ← (if 0 <? n mod 32 then getValues t srcCursor 0 (Z.to_nat (n mod 32)) info else Ok []); Ok (middle ++ last)) = mapO (read info cursor) (seqZ 0 n).
Proof.
  intros Hb Hd Hne Hw Hn Hr. pose proof (Z.div_mod n 32 ltac:(lia)) as E. pose proof (Z.mod_pos_bound n 32 ltac:(lia)) as Hm. assert (Hq : 0 ≤ n / 32) by (apply Z.div_pos; lia). rewrite full_chunks_reads by (try assumption; nia). rewrite Z2Nat.id by lia. replace (seqZ 0 n) with (seqZ 0 (32 * (n / 32) + n mod 32)) by (f_equal; lia). rewrite seqZ_app by lia. rewrite mapO_app. destruct (mapO (read info cursor) (seqZ 0 (32 * (n / 32)))) as [vs|e]; cbn [mbind outcome_bind]; [|reflexivity].
  destruct (Z.ltb_spec 0 (n mod 32)) as [H1|H1]; [|replace (n mod 32) with 0 by lia; reflexivity]. set (k := Z.to_nat (4 * bitWidth info * (n / 32))). assert (Hk : Z.of_nat k = 4 * bitWidth info * (n / 32)) by (unfold k; nia). destruct Hne as [Hne|Hne]; [|lia].
  destruct (drop_page cursor k) as [Hp Eb]; [split_and!; assumption|destruct (decide (bitWidth info = 0)) as [E0|E0]; [rewrite Hk, E0; lia|nia]|exists (bitWidth info * (n / 32)); lia|]. rewrite getValues_reads by (try assumption; try lia; nia). change (Z.of_nat 0) with 0. rewrite Z2Nat.id by lia. change (mapO (λ i, restore t info (slice (drop k cursor) (i * bitWidth info) (bitWidth info)))) with (mapO (read info (drop k cursor))).
  unfold k. rewrite mapO_shift by (try assumption; try lia; nia). rewrite Z.add_0_r, Z.add_0_l. reflexivity.
Qed.

Lemma chunk_start page off w : 0 ≤ off → 0 ≤ w → getChunkStart page off w = drop (Z.to_nat (4 * w * (off / 32))) page.
Proof. intros Ho Hw. unfold getChunkStart. change (Z.of_nat CHUNK_SIZE) with 32. do 2 f_equal. replace (off / 32 * w * 32) with (4 * w * (off / 32) * 8) by ring. apply Z.div_mul. lia. Qed.

(** Reading a range reads each value of it. *)
Lemma decompress_reads page off n meta info : getPackingInfo t meta = Ok info → page_ok page → 0 ≤ bitWidth info ≤ sz → 0 ≤ off → 0 ≤ n → (off + n) * bitWidth info ≤ bits_of page →
  decompressFromPage t page off n meta = mapO (read info page) (seqZ off n).
Proof.
  intros Hi (Hb & Hd & Hpos) Hw Ho Hn Hr. unfold decompressFromPage. rewrite Hi. cbn [mbind outcome_bind]. change (Z.of_nat CHUNK_SIZE) with 32. rewrite chunk_start by lia. pose proof (Z.div_mod off 32 ltac:(lia)) as Eo. pose proof (Z.mod_pos_bound off 32 ltac:(lia)) as Hm. set (c := off / 32) in *. assert (Hc : 0 ≤ c) by (unfold c; apply Z.div_pos; lia). set (w := bitWidth info) in *. set (v1 := Z.min (32 - off mod 32) n).
  assert (Hcur : ∀ k, 0 ≤ k → k * 32 * w ≤ bits_of page → bytes_ok (drop (Z.to_nat (4 * w * k)) page) ∧ (32 | bits_of (drop (Z.to_nat (4 * w * k)) page)) ∧ bits_of (drop (Z.to_nat (4 * w * k)) page) = bits_of page - 32 * w * k).
  { intros k Hk Hkr. assert (E : bits_of (drop (Z.to_nat (4 * w * k)) page) = bits_of page - 32 * w * k) by (unfold bits_of in *; rewrite length_drop; nia). split; [apply Forall_drop, Hb|]. rewrite E. split; [|reflexivity]. destruct Hd as [q Hq]. exists (q - w * k). lia. }
  destruct (Hcur c Hc ltac:(nia)) as (Cb & Cd & Ce). set (cursor := drop (Z.to_nat (4 * w * c)) page) in *. destruct (Z.ltb_spec v1 32) as [Hv|Hv]; cbn [andb].
  - assert (Hne : n = 0 ∨ 0 < bits_of cursor) by (destruct (decide (n = 0)); [auto|right]; destruct (decide (w = 0)) as [E0|E0]; [rewrite Ce, E0; lia|rewrite Ce; nia]). assert (E1 : getValues t cursor (Z.to_nat (off mod 32)) (Z.to_nat v1) info = mapO (read info page) (seqZ off v1)).
    { destruct Hne as [-> | Hne]; [unfold v1; rewrite Z.min_r by lia; unfold getValues, ku_assert_o; rewrite (proj2 (Nat.leb_le _ _)) by (unfold CHUNK_SIZE; cbn; lia); reflexivity|]. rewrite getValues_reads by (try split_and!; try assumption; try lia; fold w; unfold v1 in *; nia). rewrite !Z2Nat.id by lia. change (mapO (λ i, restore t info (slice cursor (i * bitWidth info) (bitWidth info)))) with (mapO (read info cursor)).
      unfold cursor. unfold w. rewrite mapO_shift by (try assumption; fold w; try lia; nia). do 2 f_equal. lia. }
    rewrite E1. destruct (Z.eqb_spec n v1) as [En|En]; [rewrite En; destruct (mapO _ _); reflexivity|]. assert (Ev : v1 = 32 - off mod 32) by lia. replace (seqZ off n) with (seqZ off (v1 + (n - v1))) by (f_equal; lia). rewrite seqZ_app by lia. rewrite mapO_app. destruct (mapO (read info page) (seqZ off v1)) as [vs|e]; cbn [mbind outcome_bind]; [|reflexivity].
    change (32 / 8 * w) with (4 * w). unfold cursor. rewrite drop_drop. replace (Z.to_nat (4 * w * c) + Z.to_nat (4 * w))%nat with (Z.to_nat (4 * w * (c + 1))) by nia. destruct (Hcur (c + 1) ltac:(lia) ltac:(nia)) as (Db & Dd & De). pose proof (aligned_reads (drop (Z.to_nat (4 * w * (c + 1))) page) (n - v1) info Db Dd) as A. rewrite De in A. specialize (A ltac:(destruct (decide (w = 0)) as [E0|E0]; [rewrite E0; lia|nia]) Hw ltac:(lia) ltac:(fold w; nia)).
    unfold w in A at 2. rewrite mapO_shift in A by (try assumption; fold w; try lia; nia). replace (off + v1) with (32 * (c + 1) + 0) by lia. fold w in A. rewrite <- A. destruct (full_chunks t _ _ info) as [[middle cur]|e]; cbn [mbind outcome_bind]; [|reflexivity]. destruct (if 0 <? (n - v1) mod 32 then _ else _); reflexivity.
  - assert (Ho0 : off mod 32 = 0) by lia. pose proof (aligned_reads cursor n info Cb Cd) as A. rewrite Ce in A. specialize (A ltac:(destruct (decide (w = 0)) as [E0|E0]; [rewrite E0; lia|nia]) Hw Hn ltac:(fold w; nia)). unfold cursor, w in A. rewrite mapO_shift in A by (try assumption; fold w; try lia; nia). fold w in A. fold cursor in A. replace (32 * c + 0) with off in A by lia. rewrite <- A. cbn [mbind outcome_bind].
    destruct (full_chunks t _ _ info) as [[middle cur]|e]; cbn [mbind outcome_bind]; [|reflexivity]. destruct (if 0 <? n mod 32 then _ else _); reflexivity.
Qed.

(** *** Which values a packing keeps *)

Definition in_type (v : Z) : Prop := if is_signed t then - 2 ^ (sz - 1) ≤ v < 2 ^ (sz - 1) else 0 ≤ v < 2 ^ sz.

Lemma sz_pow : 2 ^ sz = 2 * 2 ^ (sz - 1) ∧ 0 < 2 ^ (sz - 1) ∧ 2 ^ sz ≤ 2 ^ 64.
Proof. pose proof sz_range. split; [rewrite <- Z.pow_succ_r by lia; f_equal; lia|]. split; [apply Z.pow_pos_nonneg; lia|apply Z.pow_le_mono_r; lia]. Qed.

Lemma as_T_id v : in_type v → as_T t v = v.
Proof. pose proof sz_range. pose proof sz_pow as (E & Hp & _). unfold in_type, as_T. destruct (is_signed t); intros Hv; [apply (swrap_unique sz _ _ 0); lia|apply uwrap_small; exact Hv]. Qed.
Lemma as_T_type x : in_type (as_T t x).
Proof. pose proof sz_range. unfold in_type, as_T. destruct (is_signed t); [apply (swrap_spec sz x); lia|apply Z.mod_pos_bound, Z.pow_pos_nonneg; lia]. Qed.
Lemma as_T_U v : in_type v → as_T t (as_U t v) = v.
Proof.
  pose proof sz_range. pose proof sz_pow as (E & Hp & _). unfold in_type, as_T, as_U, uwrap. destruct (is_signed t); intros Hv.
  - apply (swrap_unique sz _ _ (- (v / 2 ^ sz))); [lia|exact Hv|]. pose proof (Z.div_mod v (2 ^ sz) ltac:(lia)). lia.
  - unfold uwrap. rewrite Z.mod_mod by lia. apply Z.mod_small. exact Hv.
Qed.
Lemma as_U_range x : 0 ≤ as_U t x < 2 ^ sz.
Proof. pose proof sz_range. apply Z.mod_pos_bound, Z.pow_pos_nonneg; lia. Qed.
Lemma get_of v : in_type v → get t (StorageValue_of v) = v.
Proof.
  pose proof sz_range. pose proof sz_pow as (E & Hp & Hle). intros Hv. pose proof (as_T_id v Hv) as Ha. unfold get, StorageValue_of, as_T in *. cbn [Int128.low]. unfold in_type in Hv. destruct (is_signed t).
  - rewrite (swrap_unique 64 (uwrap 64 v) v (- (v / 2 ^ 64))); [exact Ha|lia| |].
    + assert (2 ^ (sz - 1) ≤ 2 ^ (64 - 1)) by (apply Z.pow_le_mono_r; lia). lia.
    + unfold uwrap. pose proof (Z.div_mod v (2 ^ 64) ltac:(lia)). lia.
  - rewrite (uwrap_small 64) by lia. exact Ha.
Qed.
Lemma get_type v : in_type (get t v).
Proof. unfold get. pose proof (as_T_type (swrap 64 (Int128.low v))) as A. pose proof (as_T_type (Int128.low v)) as B. unfold as_T in *. unfold in_type in *. destruct (is_signed t); assumption. Qed.

Lemma arith_ok v : in_type v → arith t v = Ok v.
Proof.
  unfold arith, in_type. destruct (is_signed t); intros Hv; [|rewrite uwrap_small by exact Hv; reflexivity]. destruct (sz <? 32); [reflexivity|]. unfold Date.signed. rewrite (proj2 (Z.leb_le _ _)), (proj2 (Z.ltb_lt _ _)) by lia. reflexivity.
Qed.

Lemma bit_width_spec x : 0 ≤ x → 0 ≤ bit_width x ∧ x < 2 ^ bit_width x.
Proof. intros Hx. unfold bit_width. destruct (Z.eqb_spec x 0) as [->|Hne]; [split; [lia|reflexivity]|]. pose proof (Z.log2_nonneg x). pose proof (Z.log2_spec x ltac:(lia)). rewrite Z.add_1_r. split; lia. Qed.
Lemma bit_width_le x n : 0 ≤ n → 0 ≤ x < 2 ^ n → bit_width x ≤ n.
Proof. intros Hn Hx. unfold bit_width. destruct (Z.eqb_spec x 0); [lia|]. assert (Z.log2 x < n) by (apply Z.log2_lt_pow2; lia). lia. Qed.
Lemma bit_width_ge x n : 0 < n → 2 ^ (n - 1) ≤ x → n ≤ bit_width x.
Proof. intros Hn Hx. assert (0 < 2 ^ (n - 1)) by (apply Z.pow_pos_nonneg; lia). unfold bit_width. rewrite (proj2 (Z.eqb_neq x 0)) by lia. assert (n - 1 ≤ Z.log2 x) by (apply Z.log2_le_pow2; lia). lia. Qed.

Lemma lxor_top x w : 0 < w → 0 ≤ x < 2 ^ w → Z.lxor x (2 ^ (w - 1)) = if x <? 2 ^ (w - 1) then x + 2 ^ (w - 1) else x - 2 ^ (w - 1).
Proof.
  intros Hw Hx. assert (E : 2 ^ w = 2 * 2 ^ (w - 1)) by (rewrite <- Z.pow_succ_r by lia; f_equal; lia). assert (A : ∀ y, 0 ≤ y < 2 ^ (w - 1) → y + 2 ^ (w - 1) = Z.lxor y (2 ^ (w - 1))).
  { intros y Hy. apply Z.add_nocarry_lxor. apply Z.bits_inj'. intros j Hj. rewrite Z.land_spec, Z.bits_0, Z.pow2_bits_eqb by lia. destruct (Z.eqb_spec (w - 1) j) as [<-|Hne]; [|apply andb_false_r]. rewrite (bit_above y (w - 1)) by lia. reflexivity. }
  destruct (Z.ltb_spec x (2 ^ (w - 1))); [symmetry; apply A; lia|]. rewrite <- (Z.sub_add (2 ^ (w - 1)) x) at 1. rewrite A, Z.lxor_assoc, Z.lxor_nilpotent, Z.lxor_0_r by lia. reflexivity.
Qed.

Lemma sign_extend_ok v w : is_signed t = true → 0 < w < sz → - 2 ^ (w - 1) ≤ v < 2 ^ (w - 1) → SignExtend t (v mod 2 ^ w) w = Ok (as_U t v).
Proof.
  intros Hs Hw Hv. pose proof sz_range. assert (E : 2 ^ w = 2 * 2 ^ (w - 1)) by (rewrite <- Z.pow_succ_r by lia; f_equal; lia). assert (Hle : 2 ^ w ≤ 2 ^ (sz - 1)) by (apply Z.pow_le_mono_r; lia). assert (Hp : 0 < 2 ^ (w - 1)) by (apply Z.pow_pos_nonneg; lia). pose proof (Z.mod_pos_bound v (2 ^ w) ltac:(lia)) as Hx.
  unfold SignExtend, ku_assert_o. rewrite (proj2 (Z.ltb_lt _ _)) by lia. cbn [mbind outcome_bind]. destruct (@mask_ok Z machine_t machine_t_ok w) as (m & Em & _ & Pm); [change (maxWidth Z) with sz; lia|]. change (pattern m) with m in Pm. subst m. change (@all1sMaskForLeastSignificantBits Z (machine sz)) with (@all1sMaskForLeastSignificantBits Z machine_t). rewrite Em. cbn [mbind outcome_bind].
  replace (2 ^ w - 1) with (Z.ones w) by (rewrite Z.ones_equiv; lia). rewrite Z.land_ones, Z.mod_mod, Z.shiftl_1_l by lia. rewrite !as_T_id by (unfold in_type; rewrite Hs; lia). rewrite lxor_top by lia. assert (Er : (if v mod 2 ^ w <? 2 ^ (w - 1) then v mod 2 ^ w + 2 ^ (w - 1) else v mod 2 ^ w - 2 ^ (w - 1)) - 2 ^ (w - 1) = v).
  { destruct (Z.ltb_spec v 0) as [Hn|Hn]; [assert (Em' : v mod 2 ^ w = v + 2 ^ w) by (symmetry; apply (Z.mod_unique v _ (-1)); lia)|assert (Em' : v mod 2 ^ w = v) by (apply Z.mod_small; lia)]; rewrite Em'; [rewrite (proj2 (Z.ltb_ge _ _)) by lia|rewrite (proj2 (Z.ltb_lt _ _)) by lia]; lia. }
  rewrite Er. rewrite arith_ok by (unfold in_type; rewrite Hs; lia). reflexivity.
Qed.

Definition least_free (mn : Z) : Prop := is_signed t = true → - 2 ^ (sz - 1) < mn.

Lemma in_type_nonneg v : in_type v → 0 ≤ v → as_U t v = v ∧ v < 2 ^ sz.
Proof. pose proof sz_pow as (E & Hp & _). unfold in_type, as_U. intros Hv H0'. destruct (is_signed t); rewrite uwrap_small by lia; lia. Qed.
Lemma in_type_neg v : in_type v → v < 0 → is_signed t = true ∧ as_U t v = v + 2 ^ sz ∧ - 2 ^ (sz - 1) ≤ v.
Proof. pose proof sz_pow as (E & Hp & _). unfold in_type, as_U, uwrap. intros Hv Hn. destruct (is_signed t); [|lia]. split; [reflexivity|]. split; [symmetry; apply (Z.mod_unique v _ (-1)); lia|lia]. Qed.

Lemma abs_ok v : in_type v → least_free v → abs t v = Ok (Z.abs v) ∧ in_type (Z.abs v).
Proof.
  pose proof sz_pow as (E & Hp & _). intros Hv Hl. assert (Ha : in_type (Z.abs v)) by (unfold in_type, least_free in *; destruct (is_signed t); [specialize (Hl eq_refl); lia|lia]). split; [|exact Ha]. unfold abs. destruct (is_signed t) eqn:Hs; [|unfold in_type in Hv; rewrite Hs in Hv; rewrite Z.abs_eq by lia; reflexivity].
  assert (Ei : (if sz <? 32 then Ok (Z.abs v) else Date.signed sz (Z.abs v)) = Ok (Z.abs v)) by (destruct (sz <? 32); [reflexivity|]; unfold Date.signed, in_type in *; rewrite Hs in Ha; rewrite (proj2 (Z.leb_le _ _)), (proj2 (Z.ltb_lt _ _)) by lia; reflexivity). rewrite Ei. cbn [mbind outcome_bind]. rewrite as_T_id by exact Ha. reflexivity.
Qed.

Lemma width_bound v : in_type v → 0 ≤ v → 0 ≤ bit_width (as_U t v) ≤ 64 ∧ v < 2 ^ bit_width (as_U t v).
Proof. pose proof sz_range. pose proof sz_pow as (_ & _ & Hle). intros Hv H0'. destruct (in_type_nonneg v Hv H0') as [-> Hlt]. pose proof (bit_width_spec v H0') as [A B]. split; [split; [exact A|apply bit_width_le; lia]|exact B]. Qed.

Lemma packing_cases meta info (mn := get t (min meta)) (mx := get t (max meta)) : getPackingInfo t meta = Ok info → mn ≤ mx → least_free mn →
  (0 < mn ∧ info = MkBitpackInfo (bit_width (mx - mn)) false mn) ∨ (mn = mx ∧ mn < 0 ∧ info = MkBitpackInfo 1 true mx) ∨
  (mn < 0 ∧ info = MkBitpackInfo (bit_width (Z.max (Z.abs mn) (Z.abs mx)) + 1) true 0) ∨ (0 ≤ mn ∧ info = MkBitpackInfo (bit_width mx) false 0).
Proof.
  pose proof sz_range. pose proof sz_pow as (Ep & Hp & Hle). intros Hi Hmm Hl. pose proof (get_type (min meta)) as Tn. pose proof (get_type (max meta)) as Tx. fold mn in Tn. fold mx in Tx. unfold getPackingInfo in Hi. fold mn mx in Hi. assert (Hlx : least_free mx) by (unfold least_free in *; intros Hs; specialize (Hl Hs); lia). destruct (abs_ok mn Tn Hl) as [An Bn]. destruct (abs_ok mx Tx Hlx) as [Ax Bx].
  assert (Bm : in_type (Z.max (Z.abs mn) (Z.abs mx))) by (destruct (Z.max_spec (Z.abs mn) (Z.abs mx)) as [[_ ->] | [_ ->]]; assumption). pose proof (width_bound _ Bm ltac:(lia)) as [Wm _]. destruct (in_type_nonneg _ Bm ltac:(lia)) as [Em _]. rewrite Em in Wm. rewrite An, Ax in Hi. cbn [mbind outcome_bind] in Hi. rewrite Em in Hi. assert (U8 : ∀ x, 0 ≤ x ≤ 65 → uwrap 8 x = x) by (intros x Hx; apply uwrap_small; cbn; lia). 
  destruct (Z.ltb_spec 0 mn) as [Hn|Hn].
  - rewrite (proj2 (Z.ltb_lt 0 mx)) in Hi by lia. cbn [andb] in Hi. assert (Td : in_type (mx - mn)) by (unfold in_type in *; destruct (is_signed t); lia). rewrite arith_ok in Hi by exact Td. cbn [mbind outcome_bind] in Hi. destruct (in_type_nonneg _ Td ltac:(lia)) as [Ed _]. rewrite Ed in Hi. destruct (_ <? _); injection Hi as <-; [left; auto|]. right; right; right. split; [lia|]. rewrite Z.add_0_r, U8 by lia. f_equal. f_equal. lia.
  - cbn [andb] in Hi. destruct (Z.ltb_spec mn 0) as [Hn0|Hn0]; cbn [andb] in Hi.
    + destruct (Z.ltb_spec mx 0) as [Hx0|Hx0]; [|injection Hi as <-; right; right; left; split; [lia|]; rewrite U8 by lia; reflexivity]. destruct (in_type_neg mn Tn Hn0) as (Hs & _ & Rn). assert (Td : in_type (mn - mx)) by (unfold in_type in *; rewrite Hs in *; lia). rewrite arith_ok in Hi by exact Td. cbn [mbind outcome_bind] in Hi. destruct (in_type_neg mx Tx Hx0) as (_ & Ex & Rx). destruct (decide (mn = mx)) as [Eq|Ne].
      * destruct (bit_width (as_U t (mn - mx)) <? bit_width (as_U t mx)) eqn:Hw; injection Hi as <-; [|right; right; left; split; [lia|]; rewrite U8 by lia; reflexivity]. right; left. split; [exact Eq|]. split; [exact Hn0|]. rewrite Eq, Z.sub_diag. reflexivity.
      * destruct (in_type_neg (mn - mx) Td ltac:(lia)) as (_ & Ed & Rd). assert (bit_width (as_U t mx) ≤ sz) by (apply bit_width_le; [lia|apply as_U_range]). assert (sz ≤ bit_width (as_U t (mn - mx))) by (apply bit_width_ge; [lia|rewrite Ed; lia]). rewrite (proj2 (Z.ltb_ge _ _)) in Hi by lia. injection Hi as <-. right; right; left. split; [lia|]. rewrite U8 by lia. reflexivity.
    + injection Hi as <-. right; right; right. split; [lia|]. rewrite Z.add_0_r, U8 by lia. f_equal. f_equal. lia.
Qed.

(** Every value between minimum and maximum is kept. *)
Lemma packing_exact meta info v : getPackingInfo t meta = Ok info → least_free (get t (min meta)) → bitWidth info < sz → get t (min meta) ≤ v ≤ get t (max meta) →
  ∃ d, arith t (v - offset info) = Ok d ∧ restore t info (as_U t d mod 2 ^ bitWidth info) = Ok (as_U t v).
Proof.
  pose proof sz_range. pose proof sz_pow as (Ep & Hp & Hle). intros Hi Hl Hw Hv. pose proof (get_type (min meta)) as Tn. pose proof (get_type (max meta)) as Tx. pose proof (packing_cases meta info Hi ltac:(lia) Hl) as Hc. cbv zeta in Hc. set (mn := get t (min meta)) in *. set (mx := get t (max meta)) in *. assert (Tv : in_type v) by (unfold in_type in *; destruct (is_signed t); lia).
  destruct Hc as [(Hn & ->) | [(Eq & Hn & ->) | [(Hn & ->) | (Hn & ->)]]]; cbn [offset bitWidth] in *.
  - assert (Td : in_type (v - mn)) by (unfold in_type in *; destruct (is_signed t); lia). exists (v - mn). split; [apply arith_ok, Td|]. destruct (in_type_nonneg _ Td ltac:(lia)) as [-> _]. pose proof (bit_width_spec (mx - mn) ltac:(lia)) as [_ Hb]. rewrite Z.mod_small by lia. unfold restore. cbn [hasNegative andb bitWidth offset mbind outcome_bind]. rewrite (proj2 (Z.eqb_neq mn 0)) by lia. rewrite as_T_id by exact Td. replace (v - mn + mn) with v by lia. rewrite arith_ok by exact Tv. reflexivity.
  - assert (Ev : v = mx) by lia. destruct (in_type_neg mn Tn Hn) as (Hs & _). exists 0. rewrite Ev, Z.sub_diag. assert (T0 : in_type 0) by (unfold in_type; rewrite Hs; lia). split; [apply arith_ok, T0|]. destruct (in_type_nonneg 0 T0 ltac:(lia)) as [-> _]. unfold restore. cbn [hasNegative andb bitWidth offset]. change (0 <? 1) with true. cbv iota. change (0 mod 2 ^ 1) with (0 mod 2 ^ 1). rewrite sign_extend_ok by (try exact Hs; try lia). cbn [mbind outcome_bind]. rewrite (proj2 (Z.eqb_neq mx 0)) by lia. rewrite as_T_U by exact T0. rewrite Z.add_0_l, arith_ok by exact Tx. reflexivity.
  - destruct (in_type_neg mn Tn Hn) as (Hs & _). exists v. rewrite Z.sub_0_r. split; [apply arith_ok, Tv|]. set (M := Z.max (Z.abs mn) (Z.abs mx)) in *. pose proof (bit_width_spec M ltac:(lia)) as [H0' Hb]. set (w := bit_width M) in *. unfold restore. cbn [hasNegative andb bitWidth offset]. rewrite (proj2 (Z.ltb_lt 0 (w + 1))) by lia. assert (Eu : as_U t v mod 2 ^ (w + 1) = v mod 2 ^ (w + 1)) by (unfold as_U, uwrap; apply Z.mod_mod_divide; exists (2 ^ (sz - (w + 1))); rewrite <- Z.pow_add_r by lia; f_equal; lia). rewrite Eu, sign_extend_ok by (try exact Hs; try lia; replace (w + 1 - 1) with w by lia; lia). reflexivity.
  - exists v. rewrite Z.sub_0_r. split; [apply arith_ok, Tv|]. destruct (in_type_nonneg v Tv ltac:(lia)) as [-> _]. pose proof (bit_width_spec mx ltac:(lia)) as [_ Hb]. rewrite Z.mod_small by lia. reflexivity.
Qed.

Lemma packing_width meta info : getPackingInfo t meta = Ok info → 0 ≤ bitWidth info.
Proof.
  unfold getPackingInfo. assert (B : ∀ x, 0 ≤ bit_width (as_U t x)) by (intros x; apply bit_width_spec, as_U_range). assert (Hu : ∀ x, 0 ≤ uwrap 8 x) by (intros x; apply Z.mod_pos_bound; lia).
  repeat match goal with |- context [if ?b then _ else _] => destruct b | |- context [arith t ?x] => destruct (arith t x); cbn [mbind outcome_bind] | |- context [abs t ?x] => destruct (abs t x); cbn [mbind outcome_bind] end; intros Hi; try discriminate Hi; injection Hi as <-; cbn [bitWidth]; auto.
Qed.

(** *** Writing *)

Definition pattern_ok (x : Z) : Prop := 0 ≤ x < 2 ^ sz.
(** What is packed for a value. *)
Definition encode (info : BitpackInfo) (x : Z) : outcome Z := d ← arith t (as_T t x - offset info); Ok (as_U t d).

Lemma encode_range info x e : encode info x = Ok e → pattern_ok e.
Proof. unfold encode. destruct (arith t _); [|discriminate]. cbn. intros H'. injection H' as <-. apply as_U_range. Qed.
Lemma as_U_T x : pattern_ok x → as_U t (as_T t x) = x.
Proof.
  pose proof sz_range. pose proof sz_pow as (E & Hp & _). unfold pattern_ok, as_U, as_T. intros Hx. destruct (is_signed t).
  - destruct (swrap_spec sz x ltac:(lia)) as [_ [q Hq]]. unfold uwrap. replace (swrap sz x) with (x + - q * 2 ^ sz) by lia. rewrite Z.mod_add by lia. apply Z.mod_small. lia.
  - rewrite !uwrap_small by (rewrite ?uwrap_small; lia). reflexivity.
Qed.
Lemma encode_zero info x : offset info = 0 → pattern_ok x → encode info x = Ok x.
Proof. intros Ho Hx. unfold encode. rewrite Ho, Z.sub_0_r, arith_ok by apply as_T_type. cbn. rewrite as_U_T by exact Hx. reflexivity. Qed.

Lemma packPartialChunk_writes src : ∀ dst pos info, Forall pattern_ok src → bytes_ok dst → (32 | bits_of dst) → 0 < bitWidth info ≤ sz → 0 ≤ pos → (pos + Z.of_nat (length src)) * bitWidth info ≤ bits_of dst →
  ∃ dst', packPartialChunk t src dst pos info = Ok dst' ∧ writes dst dst' (bitWidth info) pos src.
Proof.
  induction src as [|x src IH]; intros dst pos info Hs Hb Hd Hw Hp Hr; cbn [packPartialChunk]; [exists dst; split; [reflexivity|apply writes_nil, Hb]|]. inversion Hs as [|? ? Hx Hs' E1]; subst. cbn [length] in Hr.
  destruct (@packSingle_writes Z machine_t machine_t_ok dst x (bitWidth info) pos Hb Hx Hw Hp ltac:(nia) (word_divides dst Hd)) as (d1 & E1 & W1). change (@packSingle Z (machine sz)) with (@packSingle Z machine_t). rewrite E1. cbn [mbind outcome_bind]. pose proof (writes_length _ _ _ _ _ W1) as L1. assert (Eb : bits_of d1 = bits_of dst) by (unfold bits_of; lia).
  destruct (IH d1 (pos + 1) info Hs' (writes_bytes _ _ _ _ _ W1) ltac:(rewrite Eb; exact Hd) Hw ltac:(lia) ltac:(rewrite Eb; nia)) as (d2 & E2 & W2). exists d2. split; [exact E2|]. exact (writes_app _ _ _ _ _ [x] src W1 W2).
Qed.

Lemma pack_chunk_writes chunk dst idx info : length chunk = 32%nat → Forall pattern_ok chunk → bytes_ok dst → 0 < bitWidth info ≤ sz → 0 ≤ idx → (32 | idx) → (idx + 32) * bitWidth info ≤ bits_of dst →
  ∃ dst', pack_chunk t chunk dst (idx * bitWidth info / 8) info = Ok dst' ∧ writes dst dst' (bitWidth info) idx chunk.
Proof.
  intros Hl Hc Hb Hw Hi [q Hq] Hr. unfold pack_chunk, from_byte. assert (E : idx * bitWidth info / 8 = 4 * q * bitWidth info) by (rewrite Hq; replace (q * 32 * bitWidth info) with (4 * q * bitWidth info * 8) by ring; apply Z.div_mul; lia). rewrite E. assert (Hq0 : 0 ≤ q) by lia. set (n := Z.to_nat (4 * q * bitWidth info)). assert (Hn : Z.of_nat n = 4 * q * bitWidth info) by (unfold n; nia).
  destruct (fastpack_writes sz chunk (drop n dst) (bitWidth info) t_ok Hl) as (d & Ed & Wd); [apply (Forall_impl _ _ _ Hc); intros x Hx; exact (proj1 Hx)|apply Forall_drop, Hb|exact Hw|unfold bits_of in *; rewrite length_drop; nia|].
  rewrite Ed. eexists. split; [reflexivity|]. apply writes_from_byte; [exact Hb|unfold bits_of in Hr; nia|lia|nia|lia|exact Wd].
Qed.

Lemma encode_forall info src es : mapO (encode info) src = Ok es → Forall pattern_ok es.
Proof. apply mapO_forall. intros a b. apply encode_range. Qed.

(** Encoding full chunks one after the other; [enc] is how the loop encodes a chunk. *)
Lemma chunks_write (enc : list Z → outcome (list Z)) (loop : nat → list Z → list Z → Z → BitpackInfo → outcome (list Z)) info :
  (∀ l es, mapO (encode info) l = Ok es → Forall pattern_ok l → enc l = Ok es) → (∀ src dst i, loop 0%nat src dst i info = Ok dst) →
  (∀ count src dst i, loop (S count) src dst i info = chunk ← enc (take 32 src); dst ← pack_chunk t chunk dst (i * bitWidth info / 8) info; loop count (drop 32 src) dst (i + 32) info) → 0 < bitWidth info ≤ sz →
  ∀ count src dst i es, Forall pattern_ok src → (count * 32 ≤ length src)%nat → mapO (encode info) (take (count * 32) src) = Ok es → bytes_ok dst → 0 ≤ i → (32 | i) → (i + 32 * Z.of_nat count) * bitWidth info ≤ bits_of dst → ∃ dst', loop count src dst i info = Ok dst' ∧ writes dst dst' (bitWidth info) i es.
Proof.
  intros Henc H0' HS Hw. induction count as [|count IH]; intros src dst i es Hsrc Hl He Hb Hi Hd Hr; [rewrite H0'; cbn in He; injection He as <-; exists dst; split; [reflexivity|apply writes_nil, Hb]|]. rewrite HS. assert (Et : take (S count * 32) src = take 32 src ++ take (count * 32) (drop 32 src)) by (rewrite take_take_drop; f_equal; lia).
  rewrite Et in He. destruct (mapO_app_inv _ _ _ _ He) as (e1 & e2 & E1 & E2 & ->). rewrite (Henc _ e1 E1 (Forall_take _ _ _ Hsrc)). cbn [mbind outcome_bind]. assert (L1 : length e1 = 32%nat) by (rewrite (mapO_length _ _ _ E1), length_take; lia).
  destruct (pack_chunk_writes e1 dst i info L1 (encode_forall _ _ _ E1) Hb Hw Hi Hd ltac:(nia)) as (d1 & P1 & W1). rewrite P1. cbn [mbind outcome_bind]. pose proof (writes_length _ _ _ _ _ W1) as Ld. destruct (IH (drop 32 src) d1 (i + 32) e2) as (d2 & P2 & W2); [apply Forall_drop, Hsrc|rewrite length_drop; lia|exact E2|exact (writes_bytes _ _ _ _ _ W1)|lia|destruct Hd as [q ->]; exists (q + 1); lia|unfold bits_of in *; rewrite Ld; nia|]. exists d2. split; [exact P2|]. apply (writes_app _ d1); [exact W1|]. rewrite L1. exact W2.
Qed.

Lemma partial_writes src dst pos info es : mapO (encode info) src = Ok es → bytes_ok dst → (32 | bits_of dst) → 0 < bitWidth info ≤ sz → 0 ≤ pos → (pos + Z.of_nat (length src)) * bitWidth info ≤ bits_of dst →
  ∃ dst', setPartialChunkInPlace t src dst pos info = Ok dst' ∧ writes dst dst' (bitWidth info) pos es.
Proof.
  intros He Hb Hd Hw Hp Hr. unfold setPartialChunkInPlace, copyValuesToTempChunkWithOffset. change (λ x, d ← arith t (as_T t x - offset info); Ok (as_U t d)) with (encode info). rewrite He. cbn [mbind outcome_bind]. apply packPartialChunk_writes; try assumption; [exact (encode_forall _ _ _ He)|]. rewrite (mapO_length _ _ _ He). exact Hr.
Qed.

Lemma mapO_split {A B} (f : A → outcome B) n l es : mapO f l = Ok es → mapO f (take n l) = Ok (take n es) ∧ mapO f (drop n l) = Ok (drop n es).
Proof.
  intros H'. rewrite <- (take_drop n l) in H'. destruct (mapO_app_inv _ _ _ _ H') as (e1 & e2 & E1 & E2 & ->). pose proof (mapO_length _ _ _ E1) as L1. pose proof (mapO_length _ _ _ E2) as L2. rewrite length_take in L1. rewrite length_drop in L2. split; [rewrite E1|rewrite E2]; f_equal.
  - destruct (decide (n ≤ length l)%nat); [rewrite take_app_le by lia; rewrite take_ge by lia; reflexivity|]. assert (e2 = []) as -> by (apply nil_length_inv; lia). rewrite app_nil_r, take_ge by lia. reflexivity.
  - destruct (decide (n ≤ length l)%nat); [rewrite drop_app_ge by lia; replace (n - length e1)%nat with 0%nat by lia; reflexivity|]. assert (e2 = []) as -> by (apply nil_length_inv; lia). rewrite app_nil_r, drop_ge by lia. reflexivity.
Qed.

(** Updating writes the encoded values. *)
Lemma setValues_writes src posInSrc dst pos meta info es : getPackingInfo t meta = Ok info → all_updatable t src posInSrc meta None = Ok true → Forall pattern_ok src → mapO (encode info) src = Ok es → bytes_ok dst → (32 | bits_of dst) → 0 < bitWidth info ≤ sz → 0 ≤ pos → (pos + Z.of_nat (length src)) * bitWidth info ≤ bits_of dst →
  ∃ dst', setValuesFromUncompressed t src posInSrc dst pos meta None = Ok dst' ∧ writes dst dst' (bitWidth info) pos es.
Proof.
  intros Hi Hu Hs He Hb Hd Hw Hp Hr. unfold setValuesFromUncompressed. rewrite Hi. cbn [mbind outcome_bind]. rewrite Hu. cbn [mbind outcome_bind ku_assert_o]. change (Z.of_nat CHUNK_SIZE) with 32. unfold CHUNK_SIZE. pose proof (Z.mod_pos_bound pos 32 ltac:(lia)) as Hm. pose proof (Z.div_mod pos 32 ltac:(lia)) as Ep. pose proof (mapO_length _ _ _ He) as Le. set (w := bitWidth info) in *.
  set (v1 := Z.min (32 - pos mod 32) (Z.of_nat (length src))). set (first := if v1 <? 32 then Z.to_nat v1 else 0%nat). assert (Hf : (first ≤ length src)%nat) by (unfold first; destruct (v1 <? 32); lia). destruct (mapO_split _ first _ _ He) as [He1 He2].
  assert (P1 : ∃ d1, (if v1 <? 32 then setPartialChunkInPlace t (take first src) dst pos info else Ok dst) = Ok d1 ∧ writes dst d1 w pos (take first es)).
  { destruct (Z.ltb_spec v1 32) as [Hv|Hv]; [apply partial_writes; try assumption; rewrite length_take; fold w; nia|]. exists dst. split; [reflexivity|]. unfold first. apply writes_nil, Hb. }
  destruct P1 as (d1 & E1 & W1). rewrite E1. cbn [mbind outcome_bind]. pose proof (writes_length _ _ _ _ _ W1) as L1. pose proof (writes_bytes _ _ _ _ _ W1) as B1. assert (Eb1 : bits_of d1 = bits_of dst) by (unfold bits_of; lia). set (rest := drop first src) in *. assert (Lr : length rest = (length src - first)%nat) by (unfold rest; apply length_drop). set (count := (length rest / 32)%nat).
  assert (Hcount : (count * 32 ≤ length rest < count * 32 + 32)%nat) by (unfold count; pose proof (Nat.div_mod (length rest) 32 ltac:(lia)); pose proof (Nat.mod_upper_bound (length rest) 32 ltac:(lia)); lia). destruct (mapO_split _ (count * 32) _ _ He2) as [He3 He4].
  assert (Hal : count = 0%nat ∨ (32 | pos + Z.of_nat first)).
  { destruct (decide (count = 0%nat)) as [E0|E0]; [left; exact E0|right]. unfold first in *. destruct (Z.ltb_spec v1 32) as [Hv|Hv]; [|exists (pos / 32); lia]. destruct (decide (v1 = Z.of_nat (length src))) as [E2|E2]; [lia|]. exists (pos / 32 + 1). lia. }
  assert (P2 : ∃ d2, in_chunks t count rest d1 (pos + Z.of_nat first) info = Ok d2 ∧ writes d1 d2 w (pos + Z.of_nat first) (take (count * 32) (drop first es))).
  { destruct Hal as [E0|Hal]; [rewrite E0; exists d1; split; [reflexivity|apply writes_nil, B1]|]. apply (chunks_write (λ l, copyValuesToTempChunkWithOffset t l info) (in_chunks t) info); try assumption; try lia; try (intros; reflexivity); [intros l es' Hl _; exact Hl|apply Forall_drop, Hs|fold w; rewrite Eb1; nia]. }
  destruct P2 as (d2 & E2 & W2). rewrite E2. cbn [mbind outcome_bind]. pose proof (writes_length _ _ _ _ _ W2) as L2. pose proof (writes_bytes _ _ _ _ _ W2) as B2. assert (Eb2 : bits_of d2 = bits_of dst) by (unfold bits_of in *; lia).
  assert (P3 : ∃ d3, (if (0 <? length (drop (count * 32) rest))%nat then setPartialChunkInPlace t (drop (count * 32) rest) d2 (pos + Z.of_nat first + Z.of_nat (count * 32)) info else Ok d2) = Ok d3 ∧ writes d2 d3 w (pos + Z.of_nat first + Z.of_nat (count * 32)) (drop (count * 32) (drop first es))).
  { destruct (Nat.ltb_spec 0 (length (drop (count * 32) rest))) as [H1|H1]; [apply partial_writes; try assumption; try lia; [rewrite Eb2; exact Hd|rewrite length_drop, Eb2; fold w; nia]|]. exists d2. split; [reflexivity|]. rewrite (nil_length_inv (drop (count * 32) (drop first es))) by (rewrite !length_drop; rewrite length_drop in H1; lia). apply writes_nil, B2. }
  destruct P3 as (d3 & E3 & W3). exists d3. split; [exact E3|]. rewrite <- (take_drop first es). apply (writes_app _ d1); [exact W1|]. rewrite length_take, Nat.min_l by lia. rewrite <- (take_drop (count * 32) (drop first es)). apply (writes_app _ d2); [exact W2|]. rewrite length_take, length_drop, Nat.min_l by lia. exact W3.
Qed.

(** Compressing writes as many encoded values as fit. *)
Lemma compress_writes src dst dstSize meta info es (w := bitWidth info) (n := Z.to_nat (Z.min (Z.of_nat (length src)) (dstSize * 8 / w))) :
  compression meta = INTEGER_BITPACKING → getPackingInfo t meta = Ok info → 0 < w ≤ sz → Forall pattern_ok src → mapO (encode info) (take n src) = Ok es → bytes_ok dst → (32 | bits_of dst) → 32 ≤ dstSize < 2 ^ 60 → dstSize * 8 ≤ bits_of dst →
  ∃ dst', compressNextPage t src (Z.of_nat (length src)) dst dstSize meta = Ok (dst', drop n src, (Z.of_nat n * w + 7) / 8) ∧ writes dst dst' w 0 es.
Proof.
  intros Hc Hi Hw Hs He Hb Hd Hsz Hr. unfold compressNextPage. rewrite Hc. rewrite decide_False by discriminate. rewrite bool_decide_eq_true_2 by reflexivity. cbn [ku_assert_o mbind outcome_bind]. rewrite Hi. cbn [mbind outcome_bind]. fold w. rewrite (proj2 (Z.eqb_neq w 0)) by lia. unfold numValues. fold w. rewrite (proj2 (Z.eqb_neq w 0)) by lia. unfold uwrap. rewrite (Z.mod_small (dstSize * 8)) by (change (2 ^ 64) with (2 ^ 60 * 16); lia).
  assert (Hcap : 0 ≤ dstSize * 8 / w ∧ dstSize * 8 / w * w ≤ dstSize * 8) by (split; [apply Z.div_pos; lia|pose proof (Z.div_mod (dstSize * 8) w ltac:(lia)); pose proof (Z.mod_pos_bound (dstSize * 8) w ltac:(lia)); lia]). set (m := Z.min (Z.of_nat (length src)) (dstSize * 8 / w)) in *. assert (Hm : 0 ≤ m ≤ Z.of_nat (length src)) by lia. assert (En : Z.of_nat n = m) by (unfold n; lia). rewrite <- En.
  assert (Hbits : Z.of_nat n * w ≤ dstSize * 8) by (rewrite En; nia). assert (Esize : Z.of_nat n * w / 8 + (if (Z.of_nat n * w) mod 8 =? 0 then 0 else 1) = (Z.of_nat n * w + 7) / 8) by (generalize (Z.of_nat n * w); intros x; destruct (Z.eqb_spec (x mod 8) 0); Z.div_mod_to_equations; lia). rewrite Esize. change (Z.of_nat CHUNK_SIZE) with 32. unfold ku_assert_o at 1. rewrite (proj2 (Z.leb_le 32 _)) by lia. cbn [mbind outcome_bind]. unfold ku_assert_o. rewrite (proj2 (Z.leb_le _ dstSize)) by (apply Z.lt_succ_r, Z.div_lt_upper_bound; lia). cbn [mbind outcome_bind]. rewrite Nat2Z.id. unfold CHUNK_SIZE.
  set (count := (n / 32)%nat). assert (Hcount : (count * 32 ≤ n < count * 32 + 32)%nat) by (unfold count; pose proof (Nat.div_mod n 32 ltac:(lia)); pose proof (Nat.mod_upper_bound n 32 ltac:(lia)); lia). assert (Hn : (n ≤ length src)%nat) by lia. destruct (mapO_split _ (count * 32) _ _ He) as [He1 He2]. rewrite take_take, Nat.min_l in He1 by lia.
  assert (Henc : ∀ l es', mapO (encode info) l = Ok es' → Forall pattern_ok l → (if offset info =? 0 then Ok l else copyValuesToTempChunkWithOffset t l info) = Ok es').
  { intros l es' Hl Hp. destruct (Z.eqb_spec (offset info) 0) as [E0|E0]; [|exact Hl]. rewrite <- Hl. rewrite (mapO_ok _ id l); [rewrite map_id; reflexivity|]. intros x Hx. apply encode_zero; [exact E0|]. rewrite Forall_forall in Hp. apply Hp, Hx. }
  destruct (chunks_write (λ l, if offset info =? 0 then Ok l else copyValuesToTempChunkWithOffset t l info) (compress_chunks t) info Henc ltac:(reflexivity) ltac:(reflexivity) Hw count src dst 0 _ Hs ltac:(lia) He1 Hb ltac:(lia) ltac:(exists 0; lia) ltac:(fold w; nia)) as (d1 & E1 & W1). rewrite E1. cbn [mbind outcome_bind]. pose proof (writes_length _ _ _ _ _ W1) as L1. pose proof (writes_bytes _ _ _ _ _ W1) as B1. assert (Eb1 : bits_of d1 = bits_of dst) by (unfold bits_of; lia).
  rewrite <- skipn_firstn_comm in *. set (last := drop (count * 32) (take n src)) in *. assert (Ll : length last = (n - count * 32)%nat) by (unfold last; rewrite length_drop, length_take; lia). pose proof (mapO_length _ _ _ He) as Le. rewrite length_take, Nat.min_l in Le by lia.
  assert (P2 : ∃ d2, (if (0 <? length last)%nat then last ← (if offset info =? 0 then Ok last else copyValuesToTempChunkWithOffset t last info); from_byte d1 (Z.of_nat (count * 32) * w / 8) (λ d, packPartialChunk t last d 0 info) else Ok d1) = Ok d2 ∧ writes d1 d2 w (Z.of_nat (count * 32)) (drop (count * 32) es)).
  { destruct (Nat.ltb_spec 0 (length last)) as [H1|H1]; [|exists d1; split; [reflexivity|]; rewrite (nil_length_inv (drop (count * 32) es)) by (rewrite length_drop; lia); apply writes_nil, B1]. rewrite (Henc last _ He2) by (unfold last; apply Forall_drop, Forall_take, Hs). cbn [mbind outcome_bind]. set (b := Z.of_nat (count * 32) * w / 8). assert (E : b = 4 * Z.of_nat count * w) by (unfold b; replace (Z.of_nat (count * 32) * w) with (4 * Z.of_nat count * w * 8) by lia; apply Z.div_mul; lia).
    set (k := Z.to_nat b). assert (Hk : Z.of_nat k = 4 * Z.of_nat count * w) by (unfold k; nia). assert (Ed : bits_of (drop k d1) = bits_of dst - 8 * Z.of_nat k) by (unfold bits_of in *; rewrite length_drop; nia). destruct (packPartialChunk_writes (drop (count * 32) es) (drop k d1) 0 info) as (d & Pd & Wd); [apply Forall_drop, (encode_forall _ _ _ He)|apply Forall_drop, B1|rewrite Ed; destruct Hd as [q Hq]; exists (q - Z.of_nat count * w); lia|exact Hw|lia|rewrite length_drop, Ed; fold w; nia|].
    unfold from_byte. fold k. rewrite Pd. cbn [mbind outcome_bind]. eexists. split; [reflexivity|]. apply writes_from_byte; [exact B1|unfold bits_of in *; nia|lia|nia|lia|exact Wd]. }
  destruct P2 as (d2 & E2 & W2). rewrite E2. cbn [mbind outcome_bind]. exists d2. split; [reflexivity|]. rewrite <- (take_drop (count * 32) es). apply (writes_app _ d1); [exact W1|]. rewrite length_take, Nat.min_l by lia. exact W2.
Qed.

(** *** Reading what was written *)

(** The packing stores a value and gives it back. *)
Definition keeps (info : BitpackInfo) (v : Z) : Prop := encode info (as_U t v) = Ok (as_U t (v - offset info)) ∧ restore t info (as_U t (v - offset info) mod 2 ^ bitWidth info) = Ok (as_U t v).

Lemma arith_as_U x d : arith t x = Ok d → as_U t d = as_U t x.
Proof.
  unfold arith. destruct (is_signed t); [|intros H'; injection H' as <-; apply Z.mod_mod; pose proof sz_pow; lia]. destruct (sz <? 32); [intros H'; injection H' as <-; reflexivity|]. unfold Date.signed. destruct (_ && _); [intros H'; injection H' as <-; reflexivity|discriminate].
Qed.
Lemma in_range_kept meta info v : getPackingInfo t meta = Ok info → least_free (get t (min meta)) → bitWidth info < sz → get t (min meta) ≤ v ≤ get t (max meta) → keeps info v.
Proof.
  intros Hi Hl Hw Hv. pose proof (get_type (min meta)) as Tn. pose proof (get_type (max meta)) as Tx. assert (Tv : in_type v) by (unfold in_type in *; destruct (is_signed t); lia). destruct (packing_exact meta info v Hi Hl Hw Hv) as (d & Ed & Er). rewrite (arith_as_U _ _ Ed) in Er. split; [|exact Er]. unfold encode. rewrite as_T_U by exact Tv. rewrite Ed. cbn. rewrite (arith_as_U _ _ Ed). reflexivity.
Qed.

Lemma encode_kept info vs : Forall (keeps info) vs → mapO (encode info) (map (as_U t) vs) = Ok (map (λ v, as_U t (v - offset info)) vs).
Proof. intros H'. rewrite mapO_map. apply mapO_ok. intros v Hv. rewrite Forall_forall in H'. apply (H' v Hv). Qed.

Lemma read_written info page page' pos vs i : writes page page' (bitWidth info) pos (map (λ v, as_U t (v - offset info)) vs) → Forall (keeps info) vs → 0 ≤ bitWidth info → 0 ≤ i →
  read info page' i = match from_pos pos (map (as_U t) vs) i with Some x => Ok x | None => read info page i end.
Proof.
  intros W Hk Hw Hi. unfold read. rewrite (writes_slice _ _ _ _ _ i W Hw Hi). unfold from_pos. destruct (i <? pos); [reflexivity|]. rewrite !list_lookup_fmap. destruct (vs !! Z.to_nat (i - pos)) as [v|] eqn:E; [|reflexivity]. cbn [fmap option_fmap option_map]. rewrite Forall_forall in Hk. apply (Hk v). apply list_elem_of_lookup. eauto.
Qed.

Lemma map_seqZ_slice (l : list Z) off m : (off + m ≤ length l)%nat → map (λ i, default 0 (l !! Z.to_nat i)) (seqZ (Z.of_nat off) (Z.of_nat m)) = take m (drop off l).
Proof.
  intros Hl. rewrite seqZ_nat. apply list_eq. intros i. rewrite !list_lookup_fmap. destruct (decide (i < m)%nat) as [Hi|Hi]; [rewrite lookup_take_lt, lookup_drop by exact Hi|rewrite lookup_take_ge, lookup_seq_ge by lia; reflexivity]. rewrite lookup_seq_lt by exact Hi. cbn [fmap option_fmap option_map]. rewrite Nat2Z.id. destruct (lookup_lt_is_Some_2 l (off + i)) as [x Hx]; [lia|]. rewrite Hx. reflexivity.
Qed.

Lemma all_updatable_ok vs pos meta : Forall (λ v, in_type v ∧ canUpdateInPlace t [v] meta None 0 = Ok true) vs → all_updatable t (map (as_U t) vs) pos meta None = Ok true.
Proof.
  intros H'. revert pos. induction H' as [|v vs [Tv Hv] _ IH]; intros pos; [reflexivity|]. cbn [map all_updatable mbind outcome_bind]. rewrite as_T_U by exact Tv. rewrite Hv. cbn [mbind outcome_bind]. rewrite IH. reflexivity.
Qed.

Lemma as_U_forall vs : Forall pattern_ok (map (as_U t) vs).
Proof. induction vs; constructor; [apply as_U_range|assumption]. Qed.

(** What the check before an update promises: the packing keeps the values. *)
Lemma updatable_kept meta info v : getPackingInfo t meta = Ok info → bitWidth info < sz → in_type v → least_free (Z.min (get t (min meta)) v) → canUpdateInPlace t [v] meta None 0 = Ok true → keeps info v.
Proof.
  intros Hi Hw Tv Hl Hu. unfold canUpdateInPlace in Hu. rewrite Hi in Hu. change (getTypedMinMax t [v] None 0) with (@Ok (option (StorageValue * StorageValue)) (Some (StorageValue_of v, StorageValue_of v))) in Hu. cbn [mbind outcome_bind] in Hu. rewrite !get_of in Hu by exact Tv. set (meta' := MkCompressionMetadata _ _ _) in Hu. destruct (getPackingInfo t meta') as [info'|] eqn:Hi'; [|discriminate Hu]. cbn [mbind outcome_bind] in Hu. injection Hu as Hu. rewrite !andb_true_iff, !Z.eqb_eq in Hu. destruct Hu as [[H1 H2] H3]. apply Bool.eqb_prop in H2.
  assert (info = info') as -> by (destruct info, info'; cbn in *; congruence). pose proof (get_type (min meta)) as Tn. pose proof (get_type (max meta)) as Tx. assert (T1 : in_type (Z.min (get t (min meta)) v)) by (destruct (Z.min_spec (get t (min meta)) v) as [[_ ->] | [_ ->]]; assumption). assert (T2 : in_type (Z.max (get t (max meta)) v)) by (destruct (Z.max_spec (get t (max meta)) v) as [[_ ->] | [_ ->]]; assumption).
  apply (in_range_kept meta'); [exact Hi'|unfold meta'; cbn [min MkCompressionMetadata]; rewrite get_of by exact T1; exact Hl|exact Hw|]. unfold meta'. cbn [min max MkCompressionMetadata]. rewrite !get_of by assumption. lia.
Qed.

(** ** The theorems *)

(** C31. Compressing a page of integers stores as many values as fit, and reading any range of it gives those values back, for values between the minimum and the maximum that the packing is chosen by and
    a minimum above the least value of the type. *)
Theorem bitpacking_roundtrip vs page pageSize meta info (n := Z.to_nat (Z.min (Z.of_nat (length vs)) (pageSize * 8 / bitWidth info))) :
  compression meta = INTEGER_BITPACKING → getPackingInfo t meta = Ok info → 0 < bitWidth info < sz → least_free (get t (min meta)) → Forall (λ v, get t (min meta) ≤ v ≤ get t (max meta)) vs → page_ok page → 32 ≤ pageSize < 2 ^ 60 → pageSize * 8 ≤ bits_of page →
  ∃ page', compressNextPage t (map (as_U t) vs) (Z.of_nat (length vs)) page pageSize meta = Ok (page', map (as_U t) (drop n vs), (Z.of_nat n * bitWidth info + 7) / 8) ∧ length page' = length page ∧
    ∀ off m, (off + m ≤ n)%nat → decompressFromPage t page' (Z.of_nat off) (Z.of_nat m) meta = Ok (map (as_U t) (take m (drop off vs))).
Proof.
  intros Hc Hi Hw Hl Hv (Hb & Hd & Hpos) Hsz Hr. assert (Hk : Forall (keeps info) vs) by (eapply Forall_impl; [exact Hv|]; intros v Hv'; apply (in_range_kept meta); (assumption || lia)). assert (Hkn : Forall (keeps info) (take n vs)) by (apply Forall_take, Hk). destruct (compress_writes (map (as_U t) vs) page pageSize meta info (map (λ v, as_U t (v - offset info)) (take n vs))) as (page' & E & W); try assumption; try lia; [apply as_U_forall|rewrite length_fmap; fold n; rewrite <- fmap_take; apply encode_kept, Hkn|].
  rewrite length_fmap in E. fold n in E. exists page'. rewrite E, <- fmap_drop. split; [reflexivity|]. pose proof (writes_length _ _ _ _ _ W) as L. split; [exact L|]. intros off m Hom. assert (Hcap : 0 ≤ pageSize * 8 / bitWidth info ∧ pageSize * 8 / bitWidth info * bitWidth info ≤ pageSize * 8) by (split; [apply Z.div_pos; lia|pose proof (Z.div_mod (pageSize * 8) (bitWidth info) ltac:(lia)); pose proof (Z.mod_pos_bound (pageSize * 8) (bitWidth info) ltac:(lia)); lia]).
  assert (Hn : (n ≤ length vs)%nat) by (unfold n; lia). assert (Hnb : Z.of_nat n * bitWidth info ≤ bits_of page) by (unfold n; nia). assert (Eb : bits_of page' = bits_of page) by (unfold bits_of; lia). rewrite (decompress_reads page' _ _ meta info Hi) by (try split_and!; try exact (writes_bytes _ _ _ _ _ W); rewrite ?Eb; try assumption; try lia; nia).
  rewrite (mapO_ok _ (λ i, default 0 (map (as_U t) vs !! Z.to_nat i))).
  - rewrite map_seqZ_slice by (rewrite length_fmap; lia). rewrite <- fmap_drop, <- fmap_take. reflexivity.
  - intros i Hin. apply elem_of_seqZ in Hin. rewrite (read_written info page page' 0 (take n vs) i W Hkn) by lia. unfold from_pos. rewrite (proj2 (Z.ltb_ge i 0)) by lia. rewrite Z.sub_0_r. rewrite !list_lookup_fmap, lookup_take_lt by lia. destruct (lookup_lt_is_Some_2 vs (Z.to_nat i)) as [v Ev]; [lia|]. rewrite Ev. reflexivity.
Qed.

(** C32. Updating values in place changes them and no other: reading any range afterwards gives the new values where they were written and what was read before elsewhere. The values passed the check
    that the packing of the page need not change, and neither they nor the minimum of the page are the least value of a signed type: see [least_value_update_lost]. *)
Theorem bitpacking_update vs posInSrc page pos meta info : getPackingInfo t meta = Ok info → 0 < bitWidth info < sz →
  Forall (λ v, in_type v ∧ least_free (Z.min (get t (min meta)) v) ∧ canUpdateInPlace t [v] meta None 0 = Ok true) vs → page_ok page → 0 ≤ pos → (pos + Z.of_nat (length vs)) * bitWidth info ≤ bits_of page →
  ∃ page', setValuesFromUncompressed t (map (as_U t) vs) posInSrc page pos meta None = Ok page' ∧ length page' = length page ∧
    ∀ off m old, 0 ≤ off → 0 ≤ m → (off + m) * bitWidth info ≤ bits_of page → decompressFromPage t page off m meta = Ok old →
      ∃ new, decompressFromPage t page' off m meta = Ok new ∧ ∀ k, Z.of_nat k < m → new !! k = match from_pos pos (map (as_U t) vs) (off + Z.of_nat k) with Some x => Some x | None => old !! k end.
Proof.
  intros Hi Hw Hv (Hb & Hd & Hpos) Hp Hr. assert (Hk : Forall (keeps info) vs) by (eapply Forall_impl; [exact Hv|]; intros v (Tv & Hl & Hu); apply (updatable_kept meta); (assumption || lia)). assert (Hu : all_updatable t (map (as_U t) vs) posInSrc meta None = Ok true) by (apply all_updatable_ok; eapply Forall_impl; [exact Hv|]; intros v (Tv & _ & Hu); auto).
  destruct (setValues_writes (map (as_U t) vs) posInSrc page pos meta info _ Hi Hu (as_U_forall vs) (encode_kept info vs Hk) Hb Hd ltac:(lia) Hp ltac:(rewrite length_fmap; exact Hr)) as (page' & E & W). exists page'. pose proof (writes_length _ _ _ _ _ W) as L. split; [exact E|]. split; [exact L|]. intros off m old Ho Hm Hom Hold. assert (Eb : bits_of page' = bits_of page) by (unfold bits_of; lia).
  rewrite (decompress_reads page _ _ meta info Hi) in Hold by (try split_and!; try assumption; lia). rewrite (decompress_reads page' _ _ meta info Hi) by (try split_and!; try exact (writes_bytes _ _ _ _ _ W); rewrite ?Eb; (assumption || lia)).
  set (new := map (λ k, default 0 (match from_pos pos (map (as_U t) vs) (off + Z.of_nat k) with Some x => Some x | None => old !! k end)) (seq 0 (Z.to_nat m))). exists new. pose proof (mapO_length _ _ _ Hold) as Lo. rewrite length_seqZ in Lo. assert (Es : seqZ off m = map (λ k, off + Z.of_nat k) (seq 0 (Z.to_nat m))) by (unfold seqZ; apply list_fmap_ext; intros; lia).
  assert (Hlook : ∀ k, (k < Z.to_nat m)%nat → ∃ x, match from_pos pos (map (as_U t) vs) (off + Z.of_nat k) with Some x => Some x | None => old !! k end = Some x ∧ read info page' (off + Z.of_nat k) = Ok x).
  { intros k Hkm. rewrite (read_written info page page' pos vs _ W Hk) by lia. destruct (from_pos pos _ _) as [x|]; [eauto|]. destruct (mapO_lookup _ _ _ k (off + Z.of_nat k) Hold) as (b & Eb' & Lb); [apply lookup_seqZ; lia|]. eauto. }
  split.
  - rewrite Es, mapO_map. unfold new. apply mapO_ok. intros k Hin. apply elem_of_seq in Hin. destruct (Hlook k ltac:(lia)) as (x & E1 & E2). rewrite E1, E2. reflexivity.
  - intros k Hkm. destruct (Hlook k ltac:(lia)) as (x & E1 & _). unfold new. rewrite list_lookup_fmap, lookup_seq_lt by lia. change (0 + k)%nat with k. cbn [fmap option_fmap option_map]. rewrite E1. reflexivity.
Qed.
End IntegerPages.

(** ** Concrete pages *)

Definition packed_metadata (mn mx : Z) : CompressionMetadata := MkCompressionMetadata (StorageValue_of mn) (StorageValue_of mx) INTEGER_BITPACKING.
Definition page256 : list Z := replicate 256 7.
Definition values70 : list Z := map (λ i, Z.of_nat i * 7 - 100) (seq 0 70).
Lemma page256_ok : page_ok page256.
Proof. split; [apply Forall_replicate; lia|]. split; [exists 64; reflexivity|reflexivity]. Qed.
Lemma int16_width : machine_width (size int16_t).
Proof. vm_compute. tauto. Qed.

Lemma bitpacking_roundtrip_witness : ∃ page', compressNextPage int16_t (map (as_U int16_t) values70) 70 page256 256 (packed_metadata (-100) 383) = Ok (page', [], 88) ∧
  decompressFromPage int16_t page' 3 60 (packed_metadata (-100) 383) = Ok (map (as_U int16_t) (take 60 (drop 3 values70))).
Proof.
  destruct (bitpacking_roundtrip int16_t int16_width values70 page256 256 (packed_metadata (-100) 383) (MkBitpackInfo 10 true 0)) as (page' & E & _ & R).
  - reflexivity.
  - vm_compute. reflexivity.
  - cbn. lia.
  - intros _. vm_compute. reflexivity.
  - apply (bool_decide_unpack _). vm_compute. exact I.
  - apply page256_ok.
  - lia.
  - vm_compute. discriminate.
  - exists page'. split; [exact E|]. apply (R 3%nat 60%nat). vm_compute. lia.
Defined.

Lemma bitpacking_update_witness : ∃ page', setValuesFromUncompressed int16_t (map (as_U int16_t) (replicate 45 9)) 0 page256 10 (packed_metadata (-100) 383) None = Ok page' ∧
  ∀ old, decompressFromPage int16_t page256 5 60 (packed_metadata (-100) 383) = Ok old → ∃ new, decompressFromPage int16_t page' 5 60 (packed_metadata (-100) 383) = Ok new ∧ new !! 4%nat = old !! 4%nat ∧ new !! 5%nat = Some 9.
Proof.
  destruct (bitpacking_update int16_t int16_width (replicate 45 9) 0 page256 10 (packed_metadata (-100) 383) (MkBitpackInfo 10 true 0)) as (page' & E & _ & R).
  - vm_compute. reflexivity.
  - cbn. lia.
  - apply Forall_replicate. split; [vm_compute; split; [discriminate|reflexivity]|]. split; [intros _; vm_compute; reflexivity|vm_compute; reflexivity].
  - apply page256_ok.
  - lia.
  - vm_compute. discriminate.
  - exists page'. split; [exact E|]. intros old Ho. destruct (R 5 60 old ltac:(lia) ltac:(lia) ltac:(vm_compute; discriminate) Ho) as (new & En & Hn). exists new. split; [exact En|]. rewrite (Hn 4%nat), (Hn 5%nat) by lia. split; reflexivity.
Defined.

(** ** What the packing gets wrong *)

(** With the least value of a short type as the minimum, the width is that of the maximum alone, and values are lost. *)
Lemma least_value_lost : getPackingInfo int8_t (packed_metadata (-128) 5) = Ok (MkBitpackInfo 4 true 0) ∧
  (x ← compressNextPage int8_t (map (as_U int8_t) [-128; -100; 5]) 3 page256 256 (packed_metadata (-128) 5); r ← decompressFromPage int8_t (fst (fst x)) 0 3 (packed_metadata (-128) 5); Ok (map (as_T int8_t) r)) = Ok [0; -4; 5].
Proof. split; vm_compute; reflexivity. Qed.
(** An update to the least value passes the check that the packing need not change, and is lost. *)
Lemma least_value_update_lost : canUpdateInPlace int8_t [-128] (packed_metadata (-3) 5) None 0 = Ok true ∧
  (page ← setValuesFromUncompressed int8_t (map (as_U int8_t) [-128]) 0 page256 0 (packed_metadata (-3) 5) None; r ← decompressFromPage int8_t page 0 1 (packed_metadata (-3) 5); Ok (map (as_T int8_t) r)) = Ok [0].
Proof. split; vm_compute; reflexivity. Qed.
(** For the wider types the absolute value is not defined. *)
Lemma least_value_undefined : ∃ e, getPackingInfo int64_t (packed_metadata (- 2 ^ 63) 5) = Throw e.
Proof. eexists. vm_compute. reflexivity. Qed.
(** A page of unsigned bytes read as one of signed bytes. *)
Lemma unsigned_bytes_misread : getPackingInfo uint8_t (packed_metadata 100 200) = Ok (MkBitpackInfo 7 false 100) ∧ getPackingInfo int8_t (packed_metadata 100 200) ≠ Ok (MkBitpackInfo 7 false 100) ∧
  (x ← compressNextPage uint8_t [100; 150; 200] 3 page256 256 (packed_metadata 100 200); decompressFromPage int8_t (fst (fst x)) 0 3 (packed_metadata 100 200)) ≠ Ok [100; 150; 200].
Proof. split; [vm_compute; reflexivity|]. split; vm_compute; discriminate. Qed.
(** Values below zero are not stored as differences. *)
Lemma negative_not_offset : getPackingInfo int32_t (packed_metadata (-1000) (-990)) = Ok (MkBitpackInfo 11 true 0) ∧ getPackingInfo int32_t (packed_metadata 990 1000) = Ok (MkBitpackInfo 4 false 990).
Proof. split; vm_compute; reflexivity. Qed.

(** ** 128-bit integers *)

Module Int128PackerTheorems.
Import Int128Packer.
Local Abbreviation int128_t := Int128.int128_t.
Local Abbreviation well_formed := Int128Spec.well_formed.
Local Abbreviation bits128 v := (@pattern int128_t int128 int128_ok v).

Lemma foldM_app {A B} (f : B → A → outcome B) l1 l2 b : foldM f (l1 ++ l2) b = foldM f l1 b ≫= foldM f l2.
Proof. revert b. induction l1 as [|a l1 IH]; intros b; cbn [foldM app]; [reflexivity|]. destruct (f b a); [apply IH|reflexivity]. Qed.

Lemma words_fit buf k : (32 | bits_of buf) → bytes_ok buf → 0 ≤ k → 32 * (k + 1) ≤ bits_of buf → load_word 32 buf k = Ok (slice buf (k * 32) 32).
Proof. intros _ Hb Hk Hr. apply load_word_bits; [right; right; reflexivity|exact Hb|lia|lia]. Qed.

Lemma or_word_bits buf i s out : bytes_ok buf → 0 ≤ i → 32 * (i + 1) ≤ bits_of buf → 0 ≤ s < 128 → well_formed out →
  ∃ r, or_word buf i s out = Ok r ∧ well_formed r ∧ ∀ b, 0 ≤ b < 128 → Z.testbit (bits128 r) b = Z.testbit (bits128 out) b || ((s <=? b) && (b <? s + 32) && bit buf (i * 32 + (b - s))).
Proof.
  intros Hb Hi Hr Hs Ho. unfold or_word. rewrite load_word_bits by (try (right; right; reflexivity); try assumption; lia). cbn [mbind outcome_bind]. pose proof (slice_range buf (i * 32) 32 ltac:(lia)) as R. destruct (@of_word_ok _ _ int128_ok _ R) as [V E]. destruct (@u_shl_ok _ _ int128_ok _ s V Hs) as (y & Ey & Vy & Py). change (Int128.LeftShift (Int128.castTo (slice buf (i * 32) 32)) s) with (u_shl (of_word (slice buf (i * 32) 32) : int128_t) s). rewrite Ey. cbn [mbind outcome_bind].
  destruct (@u_or_ok _ _ int128_ok out y Ho Vy) as [Vo Po]. eexists. split; [reflexivity|]. split; [exact Vo|]. intros b Hbb. change (Int128.BinaryOr out y) with (u_or out y). rewrite Po, Z.lor_spec, Py. change (sizeBits int128_t) with 128. rewrite bit_mod, bit_mul, E by lia. rewrite (proj2 (Z.ltb_lt b 128)) by lia. cbn [andb]. f_equal. destruct (Z.leb_spec s b); cbn [andb]; [|reflexivity]. rewrite bit_slice by lia. destruct (Z.ltb_spec (b - s) 32), (Z.ltb_spec b (s + 32)); try lia; reflexivity.
Qed.

Lemma castTo_bits x : 0 ≤ x < 2 ^ 32 → well_formed (Int128.castTo x) ∧ bits128 (Int128.castTo x) = x.
Proof. intros Hx. exact (@of_word_ok _ _ int128_ok x Hx). Qed.

(** *** Whole words *)

Lemma unpackWords_bits (n : nat) buf (i : nat) : (0 < n ≤ 4)%nat → bytes_ok buf → 32 * (Z.of_nat (i * n) + Z.of_nat n) ≤ bits_of buf →
  ∃ r, unpackWords n buf i = Ok r ∧ well_formed r ∧ bits128 r = slice buf (Z.of_nat i * (32 * Z.of_nat n)) (32 * Z.of_nat n).
Proof.
  intros Hn Hb Hr. unfold unpackWords. rewrite load_word_bits by (try (right; right; reflexivity); try assumption; lia). cbn [mbind outcome_bind]. set (p := Z.of_nat (i * n)) in *. pose proof (slice_range buf (p * 32) 32 ltac:(lia)) as R. destruct (castTo_bits _ R) as [V E].
  assert (G : ∀ k, (k < n)%nat → ∃ r, foldM (λ out j, or_word buf (p + Z.of_nat j) (32 * Z.of_nat j) out) (seq 1 k) (Int128.castTo (slice buf (p * 32) 32)) = Ok r ∧ well_formed r ∧ ∀ b, 0 ≤ b < 128 → Z.testbit (bits128 r) b = (b <? 32 * Z.of_nat (S k)) && bit buf (p * 32 + b)).
  { induction k as [|k IH]; intros Hk; [eexists; split; [reflexivity|]; split; [exact V|]; intros b Hbb; rewrite E, bit_slice by lia; reflexivity|]. destruct (IH ltac:(lia)) as (r & Er & Vr & Br). rewrite seq_S, foldM_app, Er. cbn [foldM mbind outcome_bind]. destruct (or_word_bits buf (p + Z.of_nat (1 + k)) (32 * Z.of_nat (1 + k)) r Hb ltac:(lia) ltac:(lia) ltac:(lia) Vr) as (r' & Er' & Vr' & Br'). rewrite Er'. cbn [mbind outcome_bind]. exists r'. split; [reflexivity|]. split; [exact Vr'|]. intros b Hbb. rewrite Br', Br by exact Hbb.
    replace ((p + Z.of_nat (1 + k)) * 32 + (b - 32 * Z.of_nat (1 + k))) with (p * 32 + b) by lia. destruct (Z.ltb_spec b (32 * Z.of_nat (S k))), (Z.ltb_spec b (32 * Z.of_nat (S (S k)))), (Z.leb_spec (32 * Z.of_nat (1 + k)) b), (Z.ltb_spec b (32 * Z.of_nat (1 + k) + 32)); try lia; cbn [andb orb]; rewrite ?orb_false_r; reflexivity. }
  destruct (G (n - 1)%nat ltac:(lia)) as (r & Er & Vr & Br). exists r. split; [exact Er|]. split; [exact Vr|]. symmetry. pose proof (@pattern_range _ _ int128_ok r Vr) as Rr. change (sizeBits int128_t) with 128 in Rr. replace (S (n - 1)) with n in Br by lia. replace (Z.of_nat i * (32 * Z.of_nat n)) with (p * 32) by (unfold p; lia). apply slice_unique; [lia|lia| |].
  - split; [apply Rr|]. apply bits_range; [lia|apply Rr|]. intros b Hbb. destruct (Z.ltb_spec b 128); [|apply (bit_above _ 128); [exact Rr|lia]]. rewrite Br by lia. rewrite (proj2 (Z.ltb_ge _ _)) by lia. reflexivity.
  - intros b Hbb. rewrite Br by lia. rewrite (proj2 (Z.ltb_lt _ _)) by lia. reflexivity.
Qed.

Lemma word_of v (j : nat) k : well_formed v → (j < 4)%nat → 0 ≤ k < 32 → ∃ x, (if decide (j = 0%nat) then Ok v else Int128.RightShift v (32 * Z.of_nat j)) = Ok x ∧ Z.testbit (Int128.NarrowCast 32 x) k = Z.testbit (bits128 v) (32 * Z.of_nat j + k).
Proof.
  intros Hv Hj Hk. pose proof (Int128Spec.value_range v Hv) as Rv. assert (T : ∀ x, well_formed x → Z.testbit (Int128.NarrowCast 32 x) k = Z.testbit (Int128Spec.value x) k).
  { intros x Hx. pose proof (@to_word_ok _ _ int128_ok x Hx) as Et. change (to_word (sizeOfCompressedTypeBits int128_t) x) with (Int128.NarrowCast 32 x) in Et. rewrite Et. change (sizeOfCompressedTypeBits int128_t) with 32. cbn [pattern int128_ok]. rewrite !bit_mod by lia. rewrite (proj2 (Z.ltb_lt k 32)), (proj2 (Z.ltb_lt k 128)) by lia. reflexivity. }
  assert (P : Z.testbit (bits128 v) (32 * Z.of_nat j + k) = Z.testbit (Int128Spec.value v) (32 * Z.of_nat j + k)) by (cbn [pattern int128_ok]; rewrite bit_mod, (proj2 (Z.ltb_lt _ 128)) by lia; reflexivity). rewrite P. destruct (decide (j = 0%nat)) as [->|Hne]; [exists v; split; [reflexivity|]; rewrite T by exact Hv; reflexivity|].
  pose proof (Int128Theorems.rightShift_value (Int128Spec.value v) (32 * Z.of_nat j) Rv ltac:(lia)) as E. rewrite (Int128Spec.of_Z_value v Hv) in E. eexists. split; [exact E|]. assert (Hp : 0 < 2 ^ (32 * Z.of_nat j)) by (apply Z.pow_pos_nonneg; lia). assert (Hd : - 2 ^ 127 ≤ Int128Spec.value v / 2 ^ (32 * Z.of_nat j) < 2 ^ 127) by (pose proof (Z.div_mod (Int128Spec.value v) (2 ^ (32 * Z.of_nat j)) ltac:(lia)); pose proof (Z.mod_pos_bound (Int128Spec.value v) (2 ^ (32 * Z.of_nat j)) Hp); nia).
  rewrite T by (apply Int128Spec.of_Z_wf; exact Hd). rewrite Int128Spec.value_of_Z, bit_div by lia. f_equal. lia.
Qed.

Lemma packWord_bits (n : nat) v (i j : nat) buf : (j < n ≤ 4)%nat → well_formed v → bytes_ok buf → 32 * (Z.of_nat (n * i) + Z.of_nat n) ≤ bits_of buf →
  ∃ buf', packWord n v i buf j = Ok buf' ∧ length buf' = length buf ∧ bytes_ok buf' ∧ ∀ b, 0 ≤ b → bit buf' b = if (32 * Z.of_nat (n * i + j) <=? b) && (b <? 32 * Z.of_nat (n * i + j) + 32) then Z.testbit (bits128 v) (b - 32 * Z.of_nat (n * i)) else bit buf b.
Proof.
  intros Hj Hv Hb Hr. unfold packWord. destruct (word_of v j 0 Hv ltac:(lia) ltac:(lia)) as (x & Ex & _). rewrite Ex. cbn [mbind outcome_bind]. assert (Rx : 0 ≤ Int128.NarrowCast 32 x < 2 ^ 32) by (apply Z.mod_pos_bound; lia).
  destruct (store_word_bits 32 buf (Z.of_nat (n * i + j)) _ ltac:(right; right; reflexivity) Hb ltac:(lia) ltac:(lia) Rx) as (buf' & E & L & Hb' & B). exists buf'. split; [exact E|]. split; [exact L|]. split; [exact Hb'|]. intros b Hbb. rewrite B by exact Hbb. rewrite (Z.mul_comm (Z.of_nat (n * i + j)) 32), (Z.mul_comm (Z.of_nat (n * i + j) + 1) 32), Z.mul_add_distr_l. change (32 * 1) with 32. destruct (Z.leb_spec (32 * Z.of_nat (n * i + j)) b) as [H1|H1]; cbn [andb]; [|reflexivity]. destruct (Z.ltb_spec b (32 * Z.of_nat (n * i + j) + 32)) as [H2|H2]; [|reflexivity].
  destruct (word_of v j (b - 32 * Z.of_nat (n * i + j)) Hv ltac:(lia) ltac:(lia)) as (x' & Ex' & Bx). rewrite Ex in Ex'. injection Ex' as <-. rewrite Bx. f_equal. lia.
Qed.

Lemma packWords_writes (n : nat) v (i : nat) buf : (0 < n ≤ 4)%nat → well_formed v → bytes_ok buf → 32 * (Z.of_nat (n * i) + Z.of_nat n) ≤ bits_of buf →
  ∃ buf', foldM (packWord n v i) (seq 0 n) buf = Ok buf' ∧ writes buf buf' (32 * Z.of_nat n) (Z.of_nat i) [bits128 v].
Proof.
  intros Hn Hv Hb Hr. assert (G : ∀ k, (k ≤ n)%nat → ∃ buf', foldM (packWord n v i) (seq 0 k) buf = Ok buf' ∧ length buf' = length buf ∧ bytes_ok buf' ∧ ∀ b, 0 ≤ b → bit buf' b = if (32 * Z.of_nat (n * i) <=? b) && (b <? 32 * Z.of_nat (n * i + k)) then Z.testbit (bits128 v) (b - 32 * Z.of_nat (n * i)) else bit buf b).
  { induction k as [|k IH]; intros Hk; [exists buf; split_and!; [reflexivity|reflexivity|exact Hb|]; intros b Hbb; destruct (Z.leb_spec (32 * Z.of_nat (n * i)) b), (Z.ltb_spec b (32 * Z.of_nat (n * i + 0))); try lia; reflexivity|]. destruct (IH ltac:(lia)) as (b1 & E1 & L1 & Hb1 & B1). rewrite seq_S, foldM_app, E1. cbn [foldM mbind outcome_bind]. destruct (packWord_bits n v i k b1 ltac:(lia) Hv Hb1 ltac:(unfold bits_of in *; lia)) as (b2 & E2 & L2 & Hb2 & B2). change (0 + k)%nat with k. rewrite E2. exists b2. split; [reflexivity|]. split; [lia|]. split; [exact Hb2|]. intros b Hbb. rewrite B2, B1 by exact Hbb.
    destruct (Z.leb_spec (32 * Z.of_nat (n * i + k)) b), (Z.ltb_spec b (32 * Z.of_nat (n * i + k) + 32)), (Z.leb_spec (32 * Z.of_nat (n * i)) b), (Z.ltb_spec b (32 * Z.of_nat (n * i + k))), (Z.ltb_spec b (32 * Z.of_nat (n * i + S k))); try lia; reflexivity. }
  destruct (G n ltac:(lia)) as (b' & E & L & Hb' & B). exists b'. split; [exact E|]. split; [exact L|exact Hb'|]. intros q j Hq Hj. rewrite B by nia. unfold from_pos. destruct (Z.ltb_spec q (Z.of_nat i)) as [H1|H1]; [rewrite (proj2 (Z.leb_gt _ _)) by nia; reflexivity|]. rewrite (proj2 (Z.leb_le _ _)) by nia. cbn [andb]. destruct (decide (q = Z.of_nat i)) as [->|Hne].
  - rewrite (proj2 (Z.ltb_lt _ _)) by nia. rewrite Z.sub_diag. cbn. f_equal. lia.
  - rewrite (proj2 (Z.ltb_ge _ _)) by nia. rewrite lookup_ge_None_2 by (cbn; lia). reflexivity.
Qed.

(** A loop over the values, each written at its position. *)
Lemma values_write (f : list Z → nat * int128_t → outcome (list Z)) w : (∀ buf i v, well_formed v → bytes_ok buf → (32 | bits_of buf) → (Z.of_nat i + 1) * w ≤ bits_of buf → ∃ buf', f buf (i, v) = Ok buf' ∧ writes buf buf' w (Z.of_nat i) [bits128 v]) → 0 < w →
  ∀ vs i buf, Forall well_formed vs → bytes_ok buf → (32 | bits_of buf) → (Z.of_nat i + Z.of_nat (length vs)) * w ≤ bits_of buf → ∃ buf', foldM f (imap (λ k v, (i + k, v)%nat) vs) buf = Ok buf' ∧ writes buf buf' w (Z.of_nat i) (map (λ v, bits128 v) vs).
Proof.
  intros Hf Hw. induction vs as [|v vs IH]; intros i buf Hv Hb Hd Hr; [exists buf; split; [reflexivity|apply writes_nil, Hb]|]. inversion Hv as [|? ? Hv1 Hv2]; subst. cbn [imap foldM length] in *. destruct (Hf buf (i + 0)%nat v Hv1 Hb Hd ltac:(nia)) as (b1 & E1 & W1). rewrite E1. cbn [mbind outcome_bind]. rewrite Nat.add_0_r in W1. pose proof (writes_length _ _ _ _ _ W1) as L1. assert (Eb : bits_of b1 = bits_of buf) by (unfold bits_of; lia).
  destruct (IH (S i) b1 Hv2 (writes_bytes _ _ _ _ _ W1) ltac:(rewrite Eb; exact Hd) ltac:(rewrite Eb; nia)) as (b2 & E2 & W2). exists b2. split; [rewrite <- E2; f_equal; apply imap_ext; intros k x _; cbn; f_equal; lia|]. apply (writes_app _ b1 _ _ _ [bits128 v]); [exact W1|]. replace (Z.of_nat i + Z.of_nat (length [bits128 v])) with (Z.of_nat (S i)) by (cbn; lia). exact W2.
Qed.

Lemma width_cases w : 0 < w ≤ 128 → (∃ n : nat, (0 < n ≤ 4)%nat ∧ w = 32 * Z.of_nat n) ∨ (w ≠ 32 ∧ w ≠ 64 ∧ w ≠ 96 ∧ w ≠ 128 ∧ w < 128 ∧ w mod 32 ≠ 0).
Proof.
  intros Hw. destruct (decide (w mod 32 = 0)) as [E|E]; [left|right].
  - exists (Z.to_nat (w / 32)). pose proof (Z.div_mod w 32 ltac:(lia)). assert (0 ≤ w / 32 ≤ 4) by (split; [apply Z.div_pos; lia|apply Z.div_le_upper_bound; lia]). lia.
  - split_and!; try (intros ->; apply E; reflexivity); [|exact E]. destruct (decide (w = 128)) as [->|]; [exfalso; apply E; reflexivity|lia].
Qed.

Lemma pack_writes vs buf w : length vs = 32%nat → Forall well_formed vs → bytes_ok buf → (32 | bits_of buf) → 0 < w ≤ 128 → 32 * w ≤ bits_of buf → ∃ buf', pack vs buf w = Ok buf' ∧ writes buf buf' w 0 (map (λ v, bits128 v) vs).
Proof.
  intros Hl Hv Hb Hd Hw Hr. unfold pack, ku_assert_o. rewrite (proj2 (Z.leb_le w 128)) by lia. cbn [mbind outcome_bind]. rewrite (proj2 (Z.eqb_neq w 0)) by lia. destruct (width_cases w Hw) as [(n & Hn & En)|(N1 & N2 & N3 & N4 & Hlt & _)].
  - assert (Ep : ∃ buf', packDelta n vs buf = Ok buf' ∧ writes buf buf' w 0 (map (λ v, bits128 v) vs)).
    { unfold packDelta. apply (values_write (λ out '(i, v), foldM (packWord n v i) (seq 0 n) out) w) with (i := 0%nat); [|lia|exact Hv|exact Hb|exact Hd|lia]. intros b i v Hv' Hb' _ Hr'. rewrite En. apply packWords_writes; (assumption || lia). }
    assert (H4 : n = 1%nat ∨ n = 2%nat ∨ n = 3%nat ∨ n = 4%nat) by lia. rewrite En. destruct H4 as [-> | [-> | [-> | ->]]]; cbn; rewrite En in Ep; exact Ep.
  - rewrite (proj2 (Z.eqb_neq w 32)), (proj2 (Z.eqb_neq w 64)), (proj2 (Z.eqb_neq w 96)), (proj2 (Z.eqb_neq w 128)) by assumption. apply (values_write (λ out '(oindex, v), packSingle v out w (Z.of_nat oindex)) w) with (i := 0%nat); [|lia|exact Hv|exact Hb|exact Hd|lia]. intros b i v Hv' Hb' Hd' Hr'. apply (@packSingle_writes _ _ int128_ok); [exact Hb'|exact Hv'|change (maxWidth int128_t) with 127; lia|lia|lia|exact Hd'].
Qed.

Lemma unpackLast_bits buf w : bytes_ok buf → 0 < w < 128 → w mod 32 ≠ 0 → 31 * w mod 32 + w ≤ bits_of buf → ∃ r, unpackLast buf w = Ok r ∧ well_formed r ∧ bits128 r = slice buf (31 * w mod 32) w.
Proof.
  intros Hb Hw Hnz Hr. unfold unpackLast. rewrite (Z.mul_comm w 31). set (s := 31 * w mod 32) in *. assert (Hs : 0 < s < 32 ∧ ∃ q, s + w = 32 * q) by (unfold s; split; [|exists (32 * w / 32 - 31 * w / 32)]; Z.div_mod_to_equations; lia). destruct Hs as [Hs [q Hq]]. rewrite load_word_bits by (try (right; right; reflexivity); try assumption; lia). cbn [mbind outcome_bind]. pose proof (slice_range buf (0 * 32) 32 ltac:(lia)) as R. set (x := slice buf (0 * 32) 32) in *.
  assert (Rx : 0 ≤ Z.shiftr x s < 2 ^ 32) by (rewrite Z.shiftr_div_pow2 by lia; assert (0 < 2 ^ s) by (apply Z.pow_pos_nonneg; lia); split; [apply Z.div_pos; lia|apply Z.div_lt_upper_bound; nia]). destruct (castTo_bits _ Rx) as [V E].
  assert (B0 : ∀ b, 0 ≤ b < 128 → Z.testbit (bits128 (Int128.castTo (Z.shiftr x s))) b = (b <? 32 - s) && bit buf (s + b)) by (intros b Hbb; rewrite E, Z.shiftr_spec by lia; unfold x; rewrite bit_slice by lia; destruct (Z.ltb_spec (b + s) 32), (Z.ltb_spec b (32 - s)); try lia; cbn [andb]; try reflexivity; f_equal; lia).
  assert (G : ∀ k lim out, 1 ≤ k ≤ 3 → lim = 32 * k → well_formed out → (∀ b, 0 ≤ b < 128 → Z.testbit (bits128 out) b = (b <? Z.min w (32 * k - s)) && bit buf (s + b)) →
    ∃ r, (if lim <? w then or_word buf k (lim - s) out else Ok out) = Ok r ∧ well_formed r ∧ ∀ b, 0 ≤ b < 128 → Z.testbit (bits128 r) b = (b <? Z.min w (32 * (k + 1) - s)) && bit buf (s + b)).
  { intros k lim out Hk -> Vo Bo. destruct (Z.ltb_spec (32 * k) w) as [H1|H1].
    - destruct (or_word_bits buf k (32 * k - s) out Hb ltac:(lia) ltac:(lia) ltac:(lia) Vo) as (r & Er & Vr & Br). exists r. split; [exact Er|]. split; [exact Vr|]. intros b Hbb. rewrite Br, Bo by exact Hbb. replace (k * 32 + (b - (32 * k - s))) with (s + b) by lia. destruct (Z.ltb_spec b (Z.min w (32 * k - s))), (Z.leb_spec (32 * k - s) b), (Z.ltb_spec b (32 * k - s + 32)), (Z.ltb_spec b (Z.min w (32 * (k + 1) - s))); try lia; cbn [andb orb]; rewrite ?orb_false_r; reflexivity.
    - exists out. split; [reflexivity|]. split; [exact Vo|]. intros b Hbb. rewrite Bo by exact Hbb. replace (Z.min w (32 * k - s)) with (Z.min w (32 * (k + 1) - s)) by lia. reflexivity. }
  replace (32 - s) with (Z.min w (32 * 1 - s)) in B0 by lia. destruct (G 1 32 _ ltac:(lia) eq_refl V B0) as (r1 & E1 & V1 & B1). rewrite E1. cbn [mbind outcome_bind]. destruct (G 2 64 r1 ltac:(lia) eq_refl V1 B1) as (r2 & E2 & V2 & B2). rewrite E2. cbn [mbind outcome_bind]. destruct (G 3 96 r2 ltac:(lia) eq_refl V2 B2) as (r3 & E3 & V3 & B3). rewrite E3. exists r3. split; [reflexivity|]. split; [exact V3|]. symmetry. pose proof (@pattern_range _ _ int128_ok r3 V3) as Rr. change (sizeBits int128_t) with 128 in Rr. replace (Z.min w (32 * (3 + 1) - s)) with w in B3 by lia. apply slice_unique; [lia|lia| |].
  - split; [apply Rr|]. apply bits_range; [lia|apply Rr|]. intros b Hbb. destruct (Z.ltb_spec b 128); [|apply (bit_above _ 128); [exact Rr|lia]]. rewrite B3 by lia. rewrite (proj2 (Z.ltb_ge _ _)) by lia. reflexivity.
  - intros b Hbb. rewrite B3 by lia. rewrite (proj2 (Z.ltb_lt _ _)) by lia. reflexivity.
Qed.

Lemma unpack_reads buf w : bytes_ok buf → (32 | bits_of buf) → 0 < w ≤ 128 → 32 * w ≤ bits_of buf → ∃ vs, unpack buf w = Ok vs ∧ Forall well_formed vs ∧ map (λ v, bits128 v) vs = map (λ i, slice buf (Z.of_nat i * w) w) (seq 0 32).
Proof.
  intros Hb Hd Hw Hr. unfold unpack, ku_assert_o. rewrite (proj2 (Z.leb_le w 128)) by lia. cbn [mbind outcome_bind]. rewrite (proj2 (Z.eqb_neq w 0)) by lia.
  assert (Gen : ∀ (f : nat → outcome int128_t) l, (∀ i, i ∈ l → ∃ v, f i = Ok v ∧ well_formed v ∧ bits128 v = slice buf (Z.of_nat i * w) w) → ∃ vs, mapO f l = Ok vs ∧ Forall well_formed vs ∧ map (λ v, bits128 v) vs = map (λ i, slice buf (Z.of_nat i * w) w) l).
  { intros f l. induction l as [|a l IH]; intros Hl; [exists []; split_and!; [reflexivity|constructor|reflexivity]|]. destruct (Hl a ltac:(left)) as (v & Ev & Vv & Bv). destruct IH as (vs & Evs & Vvs & Bvs); [intros i Hi; apply Hl; right; exact Hi|]. exists (v :: vs). cbn [mapO map]. rewrite Ev. cbn [mbind outcome_bind]. rewrite Evs. split_and!; [reflexivity|constructor; assumption|rewrite Bv, Bvs; reflexivity]. }
  destruct (width_cases w Hw) as [(n & Hn & En)|(N1 & N2 & N3 & N4 & Hlt & Hnz)].
  - assert (Ep : ∃ vs, unpackDelta n buf = Ok vs ∧ Forall well_formed vs ∧ map (λ v, bits128 v) vs = map (λ i, slice buf (Z.of_nat i * w) w) (seq 0 32)) by (apply Gen; intros i Hi; apply elem_of_seq in Hi; unfold CHUNK_SIZE in Hi; rewrite En; apply unpackWords_bits; [exact Hn|exact Hb|nia]). assert (H4 : n = 1%nat ∨ n = 2%nat ∨ n = 3%nat ∨ n = 4%nat) by lia. rewrite En in Ep |- *. destruct H4 as [-> | [-> | [-> | ->]]]; cbn [Z.eqb]; exact Ep.
  - rewrite (proj2 (Z.eqb_neq w 32)), (proj2 (Z.eqb_neq w 64)), (proj2 (Z.eqb_neq w 96)), (proj2 (Z.eqb_neq w 128)) by assumption. destruct (Gen (λ oindex, unpackSingle buf w (Z.of_nat oindex)) (seq 0 31)) as (vs & Evs & Vvs & Bvs).
    { intros i Hi. apply elem_of_seq in Hi. apply (@unpackSingle_bits _ _ int128_ok); [exact Hb|change (maxWidth int128_t) with 127; lia|lia|]. apply (@in_buffer_of _ _ int128_ok); [lia|change (maxWidth int128_t) with 127; lia|nia|exact Hd|lia]. }
    unfold CHUNK_SIZE. change (32 - 1)%nat with 31%nat. rewrite Evs. cbn [mbind outcome_bind]. change (Z.of_nat 32 - 1) with 31. unfold words_from. set (k := 31 * w / 32). assert (Hk : 0 ≤ k ∧ 31 * w = 32 * k + 31 * w mod 32) by (unfold k; split; [apply Z.div_pos; lia|apply Z.div_mod; lia]). destruct Hk as [Hk Ek]. pose proof (Z.mod_pos_bound (31 * w) 32 ltac:(lia)) as Hm.
    assert (Hn4 : Z.of_nat (4 * Z.to_nat k) = 4 * k) by lia. assert (Hlen : (4 * Z.to_nat k ≤ length buf)%nat) by (unfold bits_of in Hr; lia). destruct (unpackLast_bits (drop (4 * Z.to_nat k) buf) w) as (r & Er & Vr & Br); [apply Forall_drop, Hb|lia|exact Hnz|unfold bits_of in *; rewrite length_drop; lia|]. rewrite Er. cbn [mbind outcome_bind]. eexists. split; [reflexivity|]. split; [apply Forall_app; split; [exact Vvs|constructor; [exact Vr|constructor]]|].
    rewrite map_app, Bvs. change (seq 0 32) with (seq 0 31 ++ [31%nat]). rewrite map_app. f_equal. cbn [map]. f_equal. rewrite Br, bits_slice_drop by (try assumption; lia). f_equal. lia.
Qed.

Lemma writes_outside buf buf' w vs b : writes buf buf' w 0 vs → 0 < w → Z.of_nat (length vs) * w ≤ b → bit buf' b = bit buf b.
Proof.
  intros W Hw Hb. pose proof (Z.div_mod b w ltac:(lia)) as E. pose proof (Z.mod_pos_bound b w Hw) as Hm. rewrite E, (Z.mul_comm w). rewrite (writes_bits _ _ _ _ _ W) by nia. unfold from_pos. rewrite (proj2 (Z.ltb_ge _ 0)) by nia. rewrite lookup_ge_None_2 by nia. reflexivity.
Qed.

(** Unpacked after packing: the low bits of each value. *)
Definition low_bits (w : Z) (v v' : int128_t) : Prop := well_formed v' ∧ Int128Spec.value v' mod 2 ^ 128 = Int128Spec.value v mod 2 ^ w.

Lemma low_bits_fit w v v' : 0 ≤ w ≤ 127 → well_formed v → 0 ≤ Int128Spec.value v < 2 ^ w → low_bits w v v' → v' = v.
Proof.
  intros Hw Hv Hr [Hv' E]. rewrite (Z.mod_small _ (2 ^ w)) in E by exact Hr. assert (2 ^ w ≤ 2 ^ 127) by (apply Z.pow_le_mono_r; lia). pose proof (Int128Spec.value_range v' Hv') as R. rewrite <- (Int128Spec.of_Z_value v Hv), <- (Int128Spec.of_Z_value v' Hv'). f_equal. rewrite <- E. change (2 ^ 128) with (2 * 2 ^ 127) in *. destruct (Z.ltb_spec (Int128Spec.value v') 0); [|rewrite Z.mod_small by lia; reflexivity].
  exfalso. rewrite Z.mod_eq in E by lia. assert (Int128Spec.value v' / (2 * 2 ^ 127) = -1) as Hq by (symmetry; apply (Z.div_unique _ _ _ (Int128Spec.value v' + 2 * 2 ^ 127)); lia). rewrite Hq in E. lia.
Qed.

Lemma values_read buf buf' w vs vs' : writes buf buf' w 0 (map (λ v, bits128 v) vs) → 0 < w ≤ 128 → length vs = 32%nat → Forall well_formed vs' → map (λ v, bits128 v) vs' = map (λ i, slice buf' (Z.of_nat i * w) w) (seq 0 32) → Forall2 (low_bits w) vs vs'.
Proof.
  intros W Hw Hl Hv' E. assert (L' : length vs' = 32%nat) by (apply (f_equal length) in E; rewrite !length_fmap, length_seq in E; exact E). apply Forall2_same_length_lookup_2; [lia|]. intros i v v' Ei Ei'. pose proof (lookup_lt_Some _ _ _ Ei) as Hi. split; [exact (proj1 (Forall_lookup _ _) Hv' i v' Ei')|].
  apply (f_equal (lookup i)) in E. rewrite !list_lookup_fmap, Ei', lookup_seq_lt in E by lia. cbn [fmap option_fmap option_map] in E. injection E as E. cbn [pattern int128_ok] in E. change (2 ^ 128) with (Z.pow 2 128). rewrite E. change (0 + i)%nat with i. rewrite (writes_slice _ _ _ _ _ (Z.of_nat i) W) by lia. unfold from_pos. rewrite (proj2 (Z.ltb_ge _ 0)) by lia. rewrite list_lookup_fmap. replace (Z.to_nat (Z.of_nat i - 0)) with i by lia. rewrite Ei. cbn [fmap option_fmap option_map pattern int128_ok].
  apply Z.mod_mod_divide. exists (2 ^ (128 - w)). rewrite <- Z.pow_add_r by lia. f_equal. lia.
Qed.

Lemma read_packed vs buf w : length vs = 32%nat → Forall well_formed vs → bytes_ok buf → (32 | bits_of buf) → 0 ≤ w ≤ 128 → 32 * w ≤ bits_of buf →
  ∃ buf' vs', pack vs buf w = Ok buf' ∧ length buf' = length buf ∧ (∀ b, 32 * w ≤ b → bit buf' b = bit buf b) ∧ unpack buf' w = Ok vs' ∧ Forall2 (low_bits w) vs vs'.
Proof.
  intros Hl Hv Hb Hd Hw Hr. destruct (decide (w = 0)) as [->|Hne].
  - exists buf, unpackDelta0. split_and!; try reflexivity. apply Forall2_same_length_lookup_2; [exact Hl|]. intros i v v' _ E. apply lookup_replicate in E as [-> _]. split; [apply (castTo_bits 0); lia|]. rewrite Z.mod_1_r. reflexivity.
  - destruct (pack_writes vs buf w) as (buf' & E & W); try assumption; [lia|]. pose proof (writes_length _ _ _ _ _ W) as L. destruct (unpack_reads buf' w) as (vs' & E' & Hv' & Ev); [exact (writes_bytes _ _ _ _ _ W)|unfold bits_of in *; rewrite L; exact Hd|lia|unfold bits_of in *; lia|]. exists buf', vs'. split_and!; [exact E|exact L| |exact E'|apply (values_read buf buf'); (assumption || lia)]. intros b Hbb. apply (writes_outside _ _ w _ _ W); [lia|]. rewrite length_fmap, Hl. lia.
Qed.

(** C33. Packing 32 values of 128 bits and unpacking them gives the low bits of each, and the values themselves when they fit the width; bits behind the packed ones are untouched. *)
Theorem int128_pack_roundtrip vs buf w : length vs = 32%nat → Forall well_formed vs → bytes_ok buf → (32 | bits_of buf) → 0 ≤ w ≤ 128 → 32 * w ≤ bits_of buf →
  ∃ buf' vs', pack vs buf w = Ok buf' ∧ unpack buf' w = Ok vs' ∧ length buf' = length buf ∧ (∀ b, 32 * w ≤ b → bit buf' b = bit buf b) ∧ Forall2 (low_bits w) vs vs' ∧ (w < 128 → Forall (λ v, 0 ≤ Int128Spec.value v < 2 ^ w) vs → vs' = vs).
Proof.
  intros Hl Hv Hb Hd Hw Hr. destruct (read_packed vs buf w) as (buf' & vs' & E & L & Hk & E' & F); try assumption. exists buf', vs'. split_and!; try assumption. intros Hlt Hf. clear - F Hf Hv Hw Hlt. induction F as [|v v' vs vs' Hvv F IH]; [reflexivity|]. inversion Hf; subst. inversion Hv; subst. f_equal; [apply (low_bits_fit w); (assumption || lia)|apply IH; assumption].
Qed.

Definition values32 : list int128_t := map (λ i, Int128Spec.of_Z (Z.of_nat i * 100000000000000000007 + 5)) (seq 0 32).
Lemma int128_pack_roundtrip_witness : ∃ buf', pack values32 (replicate 600 3) 75 = Ok buf' ∧ unpack buf' 75 = Ok values32.
Proof.
  destruct (int128_pack_roundtrip values32 (replicate 600 3) 75) as (buf' & vs' & E & E' & _ & _ & _ & F).
  - reflexivity.
  - unfold Int128Spec.well_formed. apply (bool_decide_unpack _). vm_compute. exact I.
  - unfold bytes_ok. apply Forall_replicate. lia.
  - exists 150. reflexivity.
  - lia.
  - vm_compute. discriminate.
  - exists buf'. split; [exact E|]. rewrite E'. rewrite F; [reflexivity|lia|]. apply (bool_decide_unpack _). vm_compute. exact I.
Defined.
End Int128PackerTheorems.
