(* ===== verification/BufferedFile.v ===== *)
(** * Files and the buffered reader and writer

    common/file_system/local_file_system.cpp as the operating system performs it, and
    common/serializer/buffered_file.{h,cpp} on top. A file remembers what is durable and the
    operations since the last sync, so that later files can say what a power failure leaves. *)

From stdpp Require Import base numbers list strings.
From Stdlib Require Import ZArith Lia.
From S2P Require Import Prelude.

(** [n] bytes of [l] from position [o]. *)
Definition slice {A} (o n : nat) (l : list A) : list A := take n (drop o l).

Module FileInfo.

(** What changes a file: [pwrite] and [ftruncate]. *)
Inductive fileop : Type :=
  | Write (offset : nat) (data : list Z)
  | Truncate (size : nat).

(** The file grown to [n] bytes with zeros, if it is shorter. *)
Definition pad (n : nat) (c : list Z) : list Z := c ++ replicate (n - length c) 0%Z.

Definition apply_op (c : list Z) (o : fileop) : list Z :=
  match o with
  | Write _ [] => c
  | Write offset data => take offset (pad offset c) ++ data ++ drop (offset + length data) c
  | Truncate size => take size (pad size c)
  end.

Record FileInfo := MkFileInfo { durable : list Z; pending : list fileop }.

(** What the file holds for every reader. *)
Definition contents (f : FileInfo) : list Z := fold_left apply_op (pending f) (durable f).

Definition getFileSize (f : FileInfo) : nat := length (contents f).
Definition do_op (o : fileop) (f : FileInfo) : FileInfo := MkFileInfo (durable f) (pending f ++ [o]).

(** [LocalFileSystem::writeFile]; a write of nothing makes no system call. *)
Definition writeFile (data : list Z) (offset : nat) (f : FileInfo) : FileInfo :=
  match data with [] => f | _ => do_op (Write offset data) f end.
(** [LocalFileSystem::truncate] *)
Definition truncate (size : nat) (f : FileInfo) : FileInfo := do_op (Truncate size) f.
(** [LocalFileSystem::syncFile] *)
Definition syncFile (f : FileInfo) : FileInfo := MkFileInfo (contents f) [].
(** A file just created. *)
Definition empty_file : FileInfo := MkFileInfo [] [].

Section Reading.
(** Whether the build checks assertions, and what [n] bytes of the destination held before. *)
Context (checked : bool) (junk : nat → list Z).

(** [LocalFileSystem::readFromFile]: a short read is accepted when it ends at the end of the file. *)
Definition readFromFile (size offset : nat) (c : list Z) : outcome (list Z) :=
  if checked && negb (offset + size <=? length c) then Throw assert_failure
  else
    let bytes := slice offset size c in
    if negb (length bytes =? size) && negb (length c =? offset + length bytes)
    then Throw (IOException "Cannot read from file")
    else Ok (bytes ++ junk (size - length bytes)).
End Reading.

(** ** Lemmas *)

Lemma contents_do_op o f : contents (do_op o f) = apply_op (contents f) o.
Proof. unfold contents, do_op. cbn. rewrite fold_left_app. reflexivity. Qed.

Lemma contents_truncate n f : contents (truncate n f) = take n (pad n (contents f)).
Proof. apply contents_do_op. Qed.

Lemma contents_writeFile data off f :
  contents (writeFile data off f) = apply_op (contents f) (Write off data).
Proof. destruct data; [reflexivity|]. apply contents_do_op. Qed.

Lemma contents_syncFile f : contents (syncFile f) = contents f.
Proof. reflexivity. Qed.

Lemma pad_short n c : n ≤ length c → pad n c = c.
Proof. intros H. unfold pad. replace (n - length c) with 0 by lia. apply app_nil_r. Qed.

Lemma length_pad n c : length (pad n c) = Nat.max n (length c).
Proof. unfold pad. rewrite length_app, length_replicate. lia. Qed.

(** A write inside or at the end of the file. *)
Lemma apply_write off data c :
  off ≤ length c → apply_op c (Write off data) = take off c ++ data ++ drop (off + length data) c.
Proof.
  intros H. destruct data as [|b data]; cbn [apply_op].
  - cbn [length app]. rewrite Nat.add_0_r, take_drop. reflexivity.
  - rewrite pad_short by exact H. reflexivity.
Qed.

Lemma apply_append data c : apply_op c (Write (length c) data) = c ++ data.
Proof.
  rewrite apply_write by lia. rewrite firstn_all, (drop_ge c) by lia. rewrite app_nil_r. reflexivity.
Qed.

Lemma length_apply_write off data c :
  off ≤ length c → length (apply_op c (Write off data)) = Nat.max (length c) (off + length data).
Proof.
  intros H. rewrite apply_write by exact H. rewrite !length_app, length_take, length_drop. lia.
Qed.

End FileInfo.
Import FileInfo.

(** ** Slices *)

Lemma length_slice {A} o n (l : list A) : o + n ≤ length l → length (slice o n l) = n.
Proof. intros H. unfold slice. rewrite length_take, length_drop. lia. Qed.

Lemma slice_split {A} o n1 n2 (l : list A) : slice o (n1 + n2) l = slice o n1 l ++ slice (o + n1) n2 l.
Proof.
  unfold slice. rewrite <- drop_drop. rewrite (firstn_skipn_comm n2 n1 (drop o l)).
  rewrite <- (take_drop n1 (take (n1 + n2) (drop o l))) at 1. f_equal.
  rewrite take_take. f_equal. lia.
Qed.

Lemma slice_take {A} o n k (l : list A) : n ≤ k → take n (slice o k l) = slice o n l.
Proof. intros H. unfold slice. rewrite take_take. f_equal. lia. Qed.

Lemma slice_drop {A} o n k (l : list A) : drop k (slice o n l) = slice (o + k) (n - k) l.
Proof. unfold slice. rewrite skipn_firstn_comm, drop_drop. reflexivity. Qed.

Lemma slice_app_mid {A} (pre mid post : list A) :
  slice (length pre) (length mid) (pre ++ mid ++ post) = mid.
Proof. unfold slice. rewrite drop_app_length, take_app_length. reflexivity. Qed.

Lemma slice_0 {A} n (l : list A) : slice 0 n l = take n l.
Proof. reflexivity. Qed.

Lemma slice_all {A} (l : list A) : slice 0 (length l) l = l.
Proof. unfold slice. cbn [drop]. apply firstn_all. Qed.

Module BufferedFile.

Definition BUFFER_SIZE : nat := KUZU_PAGE_SIZE.
#[global] Arguments BUFFER_SIZE : simpl never.

(** [memcpy(buffer + off, data, length data)] *)
Definition memcpy (off : nat) (data buffer : list Z) : list Z :=
  take off buffer ++ data ++ drop (off + length data) buffer.

(** ** BufferedFileWriter *)

Record BufferedFileWriter := MkBufferedFileWriter {
  wbuffer : list Z;
  wfileOffset : nat;
  wbufferOffset : nat;
  wfileInfo : FileInfo;
}.

(** The constructor; [make_unique] zeroes the buffer. *)
Definition BufferedFileWriter_new (f : FileInfo) : BufferedFileWriter :=
  MkBufferedFileWriter (replicate BUFFER_SIZE 0%Z) 0 0 f.

(** [BufferedFileWriter::flush], which the destructor also runs. *)
Definition flush (w : BufferedFileWriter) : BufferedFileWriter :=
  if wbufferOffset w =? 0 then w
  else MkBufferedFileWriter (replicate BUFFER_SIZE 0%Z) (wfileOffset w + wbufferOffset w) 0
         (writeFile (take (wbufferOffset w) (wbuffer w)) (wfileOffset w) (wfileInfo w)).

(** [BufferedFileWriter::write] *)
Definition write (data : list Z) (w : BufferedFileWriter) : BufferedFileWriter :=
  let size := length data in
  if BUFFER_SIZE <? size then
    let w := flush w in
    MkBufferedFileWriter (wbuffer w) (wfileOffset w + size) (wbufferOffset w)
      (writeFile data (wfileOffset w) (wfileInfo w))
  else if wbufferOffset w + size <=? BUFFER_SIZE then
    MkBufferedFileWriter (memcpy (wbufferOffset w) data (wbuffer w)) (wfileOffset w)
      (wbufferOffset w + size) (wfileInfo w)
  else
    let toCopy := BUFFER_SIZE - wbufferOffset w in
    let w := flush (MkBufferedFileWriter (memcpy (wbufferOffset w) (take toCopy data) (wbuffer w))
                      (wfileOffset w) (wbufferOffset w + toCopy) (wfileInfo w)) in
    let remaining := size - toCopy in
    MkBufferedFileWriter (memcpy 0 (take remaining (drop toCopy data)) (wbuffer w)) (wfileOffset w)
      (wbufferOffset w + remaining) (wfileInfo w).

(** [setFileOffset], [resetOffsets], [clear], [sync], [getSize] *)
Definition setFileOffset (off : nat) (w : BufferedFileWriter) : BufferedFileWriter :=
  MkBufferedFileWriter (wbuffer w) off (wbufferOffset w) (wfileInfo w).
Definition resetOffsets (w : BufferedFileWriter) : BufferedFileWriter :=
  MkBufferedFileWriter (wbuffer w) 0 0 (wfileInfo w).
Definition writer_clear (w : BufferedFileWriter) : BufferedFileWriter :=
  resetOffsets (MkBufferedFileWriter (wbuffer w) (wfileOffset w) (wbufferOffset w)
    (truncate 0 (wfileInfo w))).
Definition sync (w : BufferedFileWriter) : BufferedFileWriter :=
  MkBufferedFileWriter (wbuffer w) (wfileOffset w) (wbufferOffset w) (syncFile (wfileInfo w)).
Definition writer_getSize (w : BufferedFileWriter) : nat :=
  getFileSize (wfileInfo w) + wbufferOffset w.

Definition write_all (ds : list (list Z)) (w : BufferedFileWriter) : BufferedFileWriter :=
  fold_left (λ w d, write d w) ds w.

(** ** BufferedFileReader

    A read past the end of the buffer copies whatever bytes the buffer holds there; once the offset
    is past the end, [bufferSize - bufferOffset] wraps around and the copy is undefined. *)

Record BufferedFileReader := MkBufferedFileReader {
  rbuffer : list Z;
  rfileOffset : nat;
  rbufferOffset : nat;
  rfile : list Z;
  rfileSize : nat;
  rbufferSize : nat;
}.

Definition past_end : exn := RuntimeException "Reading past the end of the file".

Section Reader.
Context (checked : bool) (junk : nat → list Z).

(** [BufferedFileReader::readNextPage] *)
Definition readNextPage : M BufferedFileReader unit := λ r,
  if rfileSize r <=? rfileOffset r then (Throw past_end, r)
  else
    let bufferSize := Nat.min (rfileSize r - rfileOffset r) BUFFER_SIZE in
    match readFromFile checked junk bufferSize (rfileOffset r) (rfile r) with
    | Ok bytes =>
        (Ok tt, MkBufferedFileReader (memcpy 0 bytes (rbuffer r)) (rfileOffset r + bufferSize) 0
                  (rfile r) (rfileSize r) bufferSize)
    | Throw e =>
        (Throw e, MkBufferedFileReader (rbuffer r) (rfileOffset r) (rbufferOffset r)
                    (rfile r) (rfileSize r) bufferSize)
    end.

(** The constructor, which reads the first page. *)
Definition BufferedFileReader_new (c : list Z) : outcome BufferedFileReader :=
  match readNextPage (MkBufferedFileReader (replicate BUFFER_SIZE 0%Z) 0 0 c (length c) 0) with
  | (Ok _, r) => Ok r
  | (Throw e, _) => Throw e
  end.

(** [BufferedFileReader::read] *)
Definition reader_read (size : nat) : M BufferedFileReader (list Z) := λ r,
  if BUFFER_SIZE <? size then
    let off := rfileOffset r - rbufferSize r + rbufferOffset r in
    match readFromFile checked junk size off (rfile r) with
    | Ok bytes =>
        (Ok bytes, MkBufferedFileReader (rbuffer r) (off + size) (rbufferSize r) (rfile r)
                     (rfileSize r) (rbufferSize r))
    | Throw e =>
        (Throw e, MkBufferedFileReader (rbuffer r) off (rbufferOffset r) (rfile r) (rfileSize r)
                    (rbufferSize r))
    end
  else if rbufferOffset r + size <=? rbufferSize r then
    (Ok (slice (rbufferOffset r) size (rbuffer r)),
     MkBufferedFileReader (rbuffer r) (rfileOffset r) (rbufferOffset r + size) (rfile r)
       (rfileSize r) (rbufferSize r))
  else if rbufferSize r <? rbufferOffset r then
    (Throw (UndefinedBehaviour "memcpy of bufferSize - bufferOffset bytes"), r)
  else
    let toCopy := rbufferSize r - rbufferOffset r in
    let front := slice (rbufferOffset r) toCopy (rbuffer r) in
    match readNextPage (MkBufferedFileReader (rbuffer r) (rfileOffset r) (rbufferOffset r + toCopy)
                          (rfile r) (rfileSize r) (rbufferSize r)) with
    | (Ok _, r) =>
        let remaining := size - toCopy in
        (Ok (front ++ slice 0 remaining (rbuffer r)),
         MkBufferedFileReader (rbuffer r) (rfileOffset r) (rbufferOffset r + remaining) (rfile r)
           (rfileSize r) (rbufferSize r))
    | (Throw e, r) => (Throw e, r)
    end.

(** [finished], [getReadOffset], [resetReadOffset] *)
Definition reader_finished (r : BufferedFileReader) : bool :=
  (rbufferSize r <=? rbufferOffset r) && (rfileSize r <=? rfileOffset r).
Definition reader_getReadOffset (r : BufferedFileReader) : nat :=
  rfileOffset r - rbufferSize r + rbufferOffset r.
Definition resetReadOffset (off : nat) (r : BufferedFileReader) : BufferedFileReader :=
  MkBufferedFileReader (rbuffer r) off 0 (rfile r) (rfileSize r) 0.
End Reader.

(** ** The writer appends *)

Record appending (w : BufferedFileWriter) : Prop := {
  app_buffer : length (wbuffer w) = BUFFER_SIZE;
  app_offset : wbufferOffset w ≤ BUFFER_SIZE;
  app_end : wfileOffset w = length (contents (wfileInfo w));
}.

(** The bytes of the file and the buffer. *)
Definition written (w : BufferedFileWriter) : list Z :=
  contents (wfileInfo w) ++ take (wbufferOffset w) (wbuffer w).

Lemma length_memcpy off data buffer :
  off + length data ≤ length buffer → length (memcpy off data buffer) = length buffer.
Proof. intros H. unfold memcpy. rewrite !length_app, length_take, length_drop. lia. Qed.

Lemma take_memcpy off data buffer :
  off ≤ length buffer → take (off + length data) (memcpy off data buffer) = take off buffer ++ data.
Proof.
  intros H. unfold memcpy. rewrite (app_assoc (take off buffer)).
  apply take_app_length'. rewrite length_app, length_take. lia.
Qed.

Lemma flush_appends w :
  appending w →
  appending (flush w) ∧ contents (wfileInfo (flush w)) = written w ∧ wbufferOffset (flush w) = 0.
Proof.
  intros [Hb Ho He]. unfold flush, written. destruct (Nat.eqb_spec (wbufferOffset w) 0) as [H0|H0].
  - rewrite H0. cbn [take]. rewrite app_nil_r. repeat split; assumption.
  - cbn [wfileInfo wbufferOffset]. rewrite contents_writeFile, He, apply_append.
    split; [|split; reflexivity].
    split; cbn [wbuffer wbufferOffset wfileOffset wfileInfo]; [apply length_replicate|lia|].
    rewrite contents_writeFile, apply_append, length_app, length_take, Hb. lia.
Qed.

Lemma written_flush w : appending w → written (flush w) = written w.
Proof.
  intros H. destruct (flush_appends w H) as (_ & Hc & H0). unfold written at 1.
  rewrite H0, Hc. apply app_nil_r.
Qed.

(** Copying into the buffer where the data fits. *)
Lemma fill_buffer w data :
  appending w → wbufferOffset w + length data ≤ BUFFER_SIZE →
  let w' := MkBufferedFileWriter (memcpy (wbufferOffset w) data (wbuffer w)) (wfileOffset w)
              (wbufferOffset w + length data) (wfileInfo w) in
  appending w' ∧ written w' = written w ++ data.
Proof.
  intros [Hb Ho He] Hlen. split; [split; cbn; [rewrite length_memcpy; lia|lia|exact He]|].
  unfold written. cbn. rewrite take_memcpy by lia. apply app_assoc.
Qed.

Lemma buffered_write_appends data w : appending w → appending (write data w) ∧ written (write data w) = written w ++ data.
Proof.
  intros H. unfold write. destruct (Nat.ltb_spec BUFFER_SIZE (length data)) as [Hbig|Hsmall].
  - destruct (flush_appends w H) as ([Hb Ho He] & Hc & H0). cbn zeta.
    rewrite Hc in He. split.
    + split; cbn [wbuffer wbufferOffset wfileOffset wfileInfo]; [assumption..|].
      rewrite contents_writeFile, He, Hc, apply_append, length_app. reflexivity.
    + unfold written at 1. cbn. rewrite contents_writeFile, He, Hc, apply_append, H0. apply app_nil_r.
  - destruct (Nat.leb_spec (wbufferOffset w + length data) BUFFER_SIZE) as [Hfit|Hcross].
    + apply (fill_buffer w data H Hfit).
    + cbn zeta. set (toCopy := BUFFER_SIZE - wbufferOffset w).
      pose proof (app_offset w H) as Ho.
      assert (Hl : length (take toCopy data) = toCopy) by (rewrite length_take; unfold toCopy; lia).
      destruct (fill_buffer w (take toCopy data) H ltac:(rewrite Hl; unfold toCopy; lia)) as [Ha Hw].
      rewrite Hl in Ha, Hw. set (w1 := MkBufferedFileWriter _ _ _ _) in *.
      destruct (flush_appends w1 Ha) as (Hf & _ & H0).
      assert (Hr : length (drop toCopy data) = length data - toCopy) by apply length_drop.
      destruct (fill_buffer (flush w1) (drop toCopy data) Hf) as [Hf2 Hw2].
      { rewrite H0, Hr. unfold toCopy. lia. }
      rewrite H0, Hr in Hf2, Hw2. rewrite H0, (take_ge (drop _ _)) by lia. split; [exact Hf2|].
      rewrite Hw2, (written_flush w1 Ha), Hw, <- app_assoc, take_drop. reflexivity.
Qed.

Lemma buffered_write_all_appends ds w :
  appending w → appending (write_all ds w) ∧ written (write_all ds w) = written w ++ concat ds.
Proof.
  revert w. induction ds as [|d ds IH]; intros w H; cbn [write_all fold_left concat].
  - rewrite app_nil_r. split; [exact H|reflexivity].
  - destruct (buffered_write_appends d w H) as [Ha Hw]. destruct (IH _ Ha) as [Ha2 Hw2].
    split; [exact Ha2|]. unfold write_all in Hw2. rewrite Hw2, Hw, <- app_assoc. reflexivity.
Qed.

(** A new writer that is set to the end of the file. *)
Lemma appending_new f : appending (setFileOffset (getFileSize f) (BufferedFileWriter_new f)).
Proof. split; cbn; [apply length_replicate|lia|reflexivity]. Qed.

Lemma written_new off f : written (setFileOffset off (BufferedFileWriter_new f)) = contents f.
Proof. unfold written. cbn. apply app_nil_r. Qed.

(** ** The reader reads the file *)

(** The reader stands at offset [o]: what it has buffered and not yet read are the next bytes. *)
Record at_offset (c : list Z) (o : nat) (r : BufferedFileReader) : Prop := {
  at_file : rfile r = c;
  at_size : rfileSize r = length c;
  at_buffer : length (rbuffer r) = BUFFER_SIZE;
  at_bounds : rbufferOffset r ≤ rbufferSize r ∧ rbufferSize r ≤ BUFFER_SIZE ∧
              rbufferSize r ≤ rfileOffset r ∧ rfileOffset r ≤ length c;
  at_bytes : slice (rbufferOffset r) (rbufferSize r - rbufferOffset r) (rbuffer r) =
             slice o (rbufferSize r - rbufferOffset r) c;
  at_pos : o = rfileOffset r - rbufferSize r + rbufferOffset r;
}.

Ltac rcbn := cbn [rbuffer rfileOffset rbufferOffset rfile rfileSize rbufferSize].

Section ReaderLemmas.
Context (checked : bool) (junk : nat → list Z) (junk0 : junk 0 = []).

Lemma readFromFile_in size off c :
  off + size ≤ length c → readFromFile checked junk size off c = Ok (slice off size c).
Proof.
  intros H. unfold readFromFile. rewrite (proj2 (Nat.leb_le _ _) H), andb_false_r.
  rewrite (length_slice off size c H), Nat.eqb_refl, Nat.sub_diag, junk0. cbn. rewrite app_nil_r. reflexivity.
Qed.

Lemma slice_memcpy_0 n data buffer : n ≤ length data → slice 0 n (memcpy 0 data buffer) = take n data.
Proof. intros H. unfold slice, memcpy. rewrite drop_0, take_0. cbn [app]. apply take_app_le, H. Qed.

(** Loading the next page when there is one. *)
Lemma readNextPage_in c r :
  rfile r = c → rfileSize r = length c → length (rbuffer r) = BUFFER_SIZE → rfileOffset r < length c →
  ∃ r', readNextPage checked junk r = (Ok tt, r') ∧ at_offset c (rfileOffset r) r' ∧
        rbufferOffset r' = 0 ∧ rbufferSize r' = Nat.min (length c - rfileOffset r) BUFFER_SIZE.
Proof.
  intros Hf Hs Hb Hlt. unfold readNextPage. rewrite Hs, Hf, (proj2 (Nat.leb_gt _ _) Hlt).
  set (n := Nat.min _ _). rewrite readFromFile_in by (unfold n; lia). eexists. split; [reflexivity|].
  assert (Hl : length (slice (rfileOffset r) n c) = n) by (apply length_slice; unfold n; lia).
  split; [|split; reflexivity]. split; rcbn; [reflexivity..|rewrite length_memcpy; rewrite ?Hl; unfold n; lia| | |lia].
  - repeat split; unfold n; lia.
  - rewrite Nat.sub_0_r, slice_memcpy_0 by lia. apply take_ge. lia.
Qed.

Lemma at_reset c o r :
  rfile r = c → rfileSize r = length c → length (rbuffer r) = BUFFER_SIZE → o ≤ length c →
  at_offset c o (resetReadOffset o r).
Proof. intros. unfold resetReadOffset. split; rcbn; try assumption; [lia|reflexivity|lia]. Qed.

Lemma reader_new_at c :
  c ≠ [] → ∃ r, BufferedFileReader_new checked junk c = Ok r ∧ at_offset c 0 r ∧
                (length c ≤ BUFFER_SIZE → rfileOffset r = length c).
Proof.
  intros Hne. unfold BufferedFileReader_new.
  destruct (readNextPage_in c (MkBufferedFileReader (replicate BUFFER_SIZE 0%Z) 0 0 c (length c) 0)) as (r & Hr & Hat & H0 & Hsz).
  { reflexivity. } { reflexivity. } { apply length_replicate. } { destruct c; [contradiction|]. cbn. lia. }
  rewrite Hr. exists r. cbn [rfileOffset] in Hat, Hsz. split; [reflexivity|]. split; [exact Hat|].
  intros Hle. destruct Hat as [_ _ _ Hbd _ Hp]. lia.
Qed.

Lemma at_buffered c o r n :
  at_offset c o r → n ≤ rbufferSize r - rbufferOffset r →
  slice (rbufferOffset r) n (rbuffer r) = slice o n c.
Proof.
  intros Hat Hn. rewrite <- (slice_take _ n _ (rbuffer r) Hn), (at_bytes c o r Hat).
  apply slice_take, Hn.
Qed.

(** A read inside the file returns its bytes and moves on, across pages and past the buffer. *)
Lemma read_in_range c o n r :
  at_offset c o r → o + n ≤ length c →
  ∃ r', reader_read checked junk n r = (Ok (slice o n c), r') ∧ at_offset c (o + n) r' ∧
        (rfileOffset r = length c → rfileOffset r' = length c).
Proof.
  intros Hat Hn. pose proof Hat as [Hf Hs Hb Hbd Hby Hp]. unfold reader_read.
  destruct (Nat.ltb_spec BUFFER_SIZE n) as [Hbig|Hsmall].
  - rewrite Hf, <- Hp, readFromFile_in by exact Hn. eexists. split; [reflexivity|].
    split; [|rcbn; lia]. split; rcbn; [reflexivity|assumption..|lia| |lia].
    rewrite Nat.sub_diag. reflexivity.
  - destruct (Nat.leb_spec (rbufferOffset r + n) (rbufferSize r)) as [Hfit|Hcross].
    + rewrite (at_buffered c o r n Hat) by lia. eexists. split; [reflexivity|].
      split; [|rcbn; auto]. split; rcbn; [assumption..|lia| |lia].
      replace (rbufferSize r - (rbufferOffset r + n)) with (rbufferSize r - rbufferOffset r - n) by lia.
      rewrite <- (slice_drop (rbufferOffset r)), Hby, slice_drop. reflexivity.
    + rewrite (proj2 (Nat.ltb_ge _ _) (proj1 Hbd)). cbn zeta.
      set (toCopy := rbufferSize r - rbufferOffset r).
      destruct (readNextPage_in c (MkBufferedFileReader (rbuffer r) (rfileOffset r) (rbufferOffset r + toCopy)
                  (rfile r) (rfileSize r) (rbufferSize r)) Hf Hs Hb) as (r1 & Hr1 & Hat1 & H0 & Hsz).
      { rcbn. unfold toCopy in *. lia. }
      rewrite Hr1. cbn [rfileOffset] in Hat1, Hsz. pose proof Hat1 as [Hf1 Hs1 Hb1 Hbd1 Hby1 Hp1].
      assert (Hrem : n - toCopy ≤ rbufferSize r1) by (rewrite Hsz; unfold toCopy in *; lia).
      rewrite (at_buffered c o r toCopy Hat) by reflexivity.
      pose proof (at_buffered c _ r1 (n - toCopy) Hat1 ltac:(lia)) as Hrest. rewrite H0 in Hrest.
      rewrite Hrest. eexists. split.
      { f_equal. f_equal. replace (rfileOffset r) with (o + toCopy) by (unfold toCopy; lia).
        rewrite <- slice_split. f_equal. unfold toCopy in *. lia. }
      split; [|rcbn; lia].
      split; rcbn; [assumption..|lia| |unfold toCopy in *; lia].
      rewrite H0 in *. cbn [Nat.add].
      replace (o + n) with (rfileOffset r + (n - toCopy)) by (unfold toCopy in *; lia).
      rewrite Nat.sub_0_r in Hby1.
      rewrite <- (slice_drop (rfileOffset r) (rbufferSize r1)), <- Hby1, slice_drop. reflexivity.
Qed.

Lemma finished_at c o r : at_offset c o r → reader_finished r = (length c <=? o).
Proof.
  intros [Hf Hs Hb Hbd Hby Hp]. unfold reader_finished. rewrite Hs.
  destruct (Nat.leb_spec (rbufferSize r) (rbufferOffset r)), (Nat.leb_spec (length c) (rfileOffset r)),
    (Nat.leb_spec (length c) o); cbn; reflexivity || lia.
Qed.

Lemma getReadOffset_at c o r : at_offset c o r → reader_getReadOffset r = o.
Proof. intros H. symmetry. apply (at_pos c o r H). Qed.

(** With the end of the file buffered, a read past the end is refused. *)
Lemma read_past_end c o n r :
  checked = true → at_offset c o r → rfileOffset r = length c → length c < o + n →
  ∃ e r', reader_read checked junk n r = (Throw e, r') ∧ catchable e = true.
Proof.
  intros Hc Hat Hend Hn. destruct Hat as [Hf Hs Hb Hbd Hby Hp]. unfold reader_read.
  destruct (Nat.ltb_spec BUFFER_SIZE n) as [Hbig|Hsmall].
  - unfold readFromFile. rewrite Hc, Hf, <- Hp, (proj2 (Nat.leb_gt _ _) Hn). cbn. eauto.
  - rewrite (proj2 (Nat.leb_gt _ _)) by lia. rewrite (proj2 (Nat.ltb_ge _ _) (proj1 Hbd)).
    unfold readNextPage. cbn [rfileSize rfileOffset]. rewrite (proj2 (Nat.leb_le _ _)) by lia.
    eexists _, _. split; reflexivity.
Qed.

(** Reading a sequence of values of known sizes. *)
Fixpoint read_all (sizes : list nat) : M BufferedFileReader (list (list Z)) :=
  match sizes with
  | [] => mret []
  | n :: sizes' => d ← reader_read checked junk n; ds ← read_all sizes'; mret (d :: ds)
  end.

Lemma read_all_in_range ds c o r :
  at_offset c o r → slice o (length (concat ds)) c = concat ds → o + length (concat ds) ≤ length c →
  ∃ r', read_all (map length ds) r = (Ok ds, r') ∧ at_offset c (o + length (concat ds)) r'.
Proof.
  revert o r. induction ds as [|d ds IH]; intros o r Hat Hsl Hlen; cbn [map read_all concat] in *.
  - exists r. cbn. rewrite Nat.add_0_r. split; [reflexivity|exact Hat].
  - rewrite length_app in *. rewrite slice_split in Hsl.
    apply app_inj_1 in Hsl as [Hd Hds]; [|rewrite length_slice by lia; reflexivity].
    destruct (read_in_range c o (length d) r Hat ltac:(lia)) as (r1 & Hr1 & Hat1 & _). rewrite Hd in Hr1.
    destruct (IH _ _ Hat1 Hds ltac:(lia)) as (r2 & Hr2 & Hat2). exists r2.
    rewrite (M_bind_ok _ _ _ _ _ Hr1), (M_bind_ok _ _ _ _ _ Hr2), Nat.add_assoc. split; [reflexivity|exact Hat2].
Qed.
End ReaderLemmas.

(** C26. What a buffered writer appends to a file, in pieces of any size, a buffered reader set to the
    old end of the file reads back piece by piece, whatever the pages and buffers they straddle; the
    file is its old contents and the pieces, and after the last piece the reader is at its end. *)
Theorem buffered_file_roundtrip checked junk (Hjunk : junk 0 = []) f ds :
  concat ds ≠ [] →
  let w := flush (write_all ds (setFileOffset (getFileSize f) (BufferedFileWriter_new f))) in
  contents (wfileInfo w) = contents f ++ concat ds ∧
  ∃ r r',
    BufferedFileReader_new checked junk (contents (wfileInfo w)) = Ok r ∧
    read_all checked junk (map length ds) (resetReadOffset (getFileSize f) r) = (Ok ds, r') ∧
    reader_finished r' = true ∧ reader_getReadOffset r' = getFileSize (wfileInfo w).
Proof.
  intros Hne w. destruct (buffered_write_all_appends ds _ (appending_new f)) as [Ha Hw].
  destruct (flush_appends _ Ha) as (_ & Hc & _). fold w in Hc. rewrite Hw, written_new in Hc.
  split; [exact Hc|]. unfold getFileSize at 2. rewrite Hc.
  destruct (reader_new_at checked junk Hjunk (contents f ++ concat ds)) as (r & Hr & Hat & _).
  { destruct (contents f), (concat ds); cbn; congruence. }
  destruct Hat as [Hf Hs Hb _ _ _].
  pose proof (at_reset _ (getFileSize f) r Hf Hs Hb ltac:(unfold getFileSize; rewrite length_app; lia)) as Hat.
  destruct (read_all_in_range checked junk Hjunk ds _ _ _ Hat) as (r' & Hr' & Hat').
  { unfold getFileSize. rewrite <- (app_nil_r (concat ds)) at 2. apply slice_app_mid. }
  { unfold getFileSize. rewrite length_app. lia. }
  exists r, r'. split; [exact Hr|]. split; [exact Hr'|].
  rewrite (finished_at _ _ _ Hat'), (getReadOffset_at _ _ _ Hat'). unfold getFileSize.
  rewrite length_app. split; [apply Nat.leb_le; lia|reflexivity].
Qed.

Lemma buffered_file_roundtrip_witness :
  let f := MkFileInfo [1; 2; 3]%Z [] in
  let ds := [replicate 4090 7%Z; replicate 10 8%Z; [9%Z]] in
  contents (wfileInfo (flush (write_all ds (setFileOffset (getFileSize f) (BufferedFileWriter_new f)))))
    = contents f ++ concat ds.
Proof.
  intros f ds. apply (buffered_file_roundtrip true (λ n, replicate n 0%Z) eq_refl f ds). discriminate.
Defined.

(** A read that runs from the last full page over the end of a short one is not refused: it returns
    bytes the file does not have, and the read after it is undefined. *)
Lemma torn_read_undetected :
  let c := replicate 4106 1%Z in
  match BufferedFileReader_new true (λ n, replicate n 0%Z) c with
  | Ok r =>
      match (reader_read true (λ n, replicate n 0%Z) 4090 ;;
             reader_read true (λ n, replicate n 0%Z) 100) r with
      | (Ok bytes, r') =>
          length c < 4090 + 100 ∧ bytes = replicate 100 1%Z ∧
          result_of (reader_read true (λ n, replicate n 0%Z) 1) r' =
            Throw (UndefinedBehaviour "memcpy of bufferSize - bufferOffset bytes")
      | _ => False
      end
  | Throw _ => False
  end.
Proof. vm_compute. repeat split. lia. Qed.

End BufferedFile.
