(* ===== verification/WalRecord.v ===== *)
(** * Records of the write-ahead log

    storage/wal/wal_record.{h,cpp}. A deserializer is a program that asks its reader for bytes: the
    inductive [reading] is that program, so that the same record decoder runs over a list of
    bytes, over a buffered file and over a reader that keeps a checksum. A serializer is the list of
    writes it hands to its writer. Catalog entries, property definitions and value vectors are
    payloads with their own serializers, the class [Persisted]. *)

From stdpp Require Import base numbers list strings.
From Stdlib Require Import ZArith Lia Ascii.
From Stdlib Require String.
From S2P Require Import Prelude Serializer.
Import Serializer.

(** ** Deserializers as programs *)

Inductive reading (A : Type) : Type :=
  | Done (a : A)
  | Fails (e : exn)
  | Read (n : nat) (k : list Z → reading A).
Arguments Done {A} a.
Arguments Fails {A} e.
Arguments Read {A} n k.

#[global] Instance reading_ret : MRet reading := λ A a, Done a.
#[global] Instance reading_bind : MBind reading := λ A B f,
  fix bind (p : reading A) : reading B :=
    match p with
    | Done a => f a
    | Fails e => Fails e
    | Read n k => Read n (λ bs, bind (k bs))
    end.

(** Running a program with a reader's [read]. *)
Fixpoint run {R A} (rd : nat → M R (list Z)) (p : reading A) : M R A :=
  match p with
  | Done a => mret a
  | Fails e => raise e
  | Read n k => λ r, match rd n r with
                     | (Ok bs, r') => run rd (k bs) r'
                     | (Throw e, r') => (Throw e, r')
                     end
  end.

(** Over a list of bytes. *)
Definition stream {A} (p : reading A) : M (list Z) A := run read_bytes p.

(** What a program does on a list of bytes; [Starved] when the bytes run out. *)
Inductive parsed (A : Type) : Type :=
  | Parsed (a : A) (rest : list Z)
  | Failed (e : exn)
  | Starved.
Arguments Parsed {A} a rest.
Arguments Failed {A} e.
Arguments Starved {A}.

Fixpoint parse {A} (p : reading A) (s : list Z) : parsed A :=
  match p with
  | Done a => Parsed a s
  | Fails e => Failed e
  | Read n k => if n <=? length s then parse (k (take n s)) (drop n s) else Starved
  end.

(** [Deserializer::deserializeValue] of unsigned integers, strings, flags, and
    [validateDebuggingInfo], as programs. *)
Definition r_value (n : nat) : reading Z := Read n (λ bs, Done (le_value bs)).
Definition r_bool : reading bool := x ← r_value 1; mret (negb (x =? 0)%Z).
Definition r_string : reading string :=
  n ← r_value 8;
  Read (Z.to_nat n) (λ bs, Done (String.string_of_list_ascii (map ascii_of_byte bs))).
Definition r_debug (dbg : bool) (expected : string) : reading unit :=
  if dbg then s ← r_string; if String.eqb s expected then Done tt else Fails assert_failure
  else Done tt.

Fixpoint r_many {A} (n : nat) (p : reading A) : reading (list A) :=
  match n with
  | 0 => mret []
  | S n' => x ← p; xs ← r_many n' p; mret (x :: xs)
  end.

(** [Serializer::serializeValue] and [writeDebuggingInfo], as the writes they make. *)
Definition w_value (n : nat) (x : Z) : list (list Z) := [serializeValue n x].
Definition w_bool (b : bool) : list (list Z) := [serializeBool b].
Definition w_string (s : string) : list (list Z) :=
  [serializeValue 8 (Z.of_nat (String.length s)); map byte_of_ascii (String.list_ascii_of_string s)].
Definition w_debug (dbg : bool) (s : string) : list (list Z) := if dbg then w_string s else [].

(** ** Lemmas on programs *)

Lemma run_bind {R A B} (rd : nat → M R (list Z)) (p : reading A) (f : A → reading B) r :
  run rd (p ≫= f) r = (run rd p ≫= λ a, run rd (f a)) r.
Proof.
  revert r. induction p as [a|e|n k IH]; intros r; [reflexivity..|].
  cbn. unfold mbind, M_bind. cbn. destruct (rd n r) as [[bs|e] r']; [|reflexivity].
  specialize (IH bs r'). unfold mbind, M_bind in IH. exact IH.
Qed.

Lemma stream_parse {A} (p : reading A) s a rest :
  stream p s = (Ok a, rest) ↔ parse p s = Parsed a rest.
Proof.
  unfold stream. revert s. induction p as [b|e|n k IH]; intros s; cbn.
  - split; intros H; inversion H; reflexivity.
  - split; intros H; discriminate H.
  - unfold read_bytes, get_state, put_state, raise, mbind, M_bind, mret, M_ret.
    destruct (n <=? length s); [apply IH|]. split; intros H; discriminate H.
Qed.

(** More bytes do not change what a program has read. *)
Lemma parse_extend {A} (p : reading A) s x :
  match parse p s with
  | Parsed a rest => parse p (s ++ x) = Parsed a (rest ++ x)
  | Failed e => parse p (s ++ x) = Failed e
  | Starved => True
  end.
Proof.
  revert s. induction p as [b|e|n k IH]; intros s; cbn; [reflexivity..|].
  destruct (Nat.leb_spec n (length s)) as [Hle|Hgt]; [|exact I].
  rewrite (proj2 (Nat.leb_le _ _)) by (rewrite length_app; lia).
  rewrite take_app_le, drop_app_le by lia. apply IH.
Qed.

(** A program that decodes [bs] starves on every strict prefix of it. *)
Lemma decodes_prefix_starves {A} (p : reading A) bs a pre x :
  decodes (stream p) bs a → bs = pre ++ x → x ≠ [] → parse p pre = Starved.
Proof.
  intros Hd -> Hx. pose proof (parse_extend p pre x) as He. specialize (Hd []).
  rewrite app_nil_r in Hd. apply stream_parse in Hd.
  destruct (parse p pre) as [b rest|e|]; [|congruence|reflexivity].
  rewrite Hd in He. injection He as _ Hr. symmetry in Hr. apply app_eq_nil in Hr as [_ ->]. contradiction.
Qed.

Lemma decodes_ext {A} (m m' : M (list Z) A) bs a : (∀ s, m s = m' s) → decodes m' bs a → decodes m bs a.
Proof. intros He Hd rest. rewrite He. apply Hd. Qed.

Lemma decodes_Done {A} (a : A) : decodes (stream (Done a)) [] a.
Proof. apply decodes_ret. Qed.

Lemma decodes_seq {A B} (p : reading A) (f : A → reading B) ws1 ws2 a b :
  decodes (stream p) (concat ws1) a → decodes (stream (f a)) (concat ws2) b →
  decodes (stream (p ≫= f)) (concat (ws1 ++ ws2)) b.
Proof.
  intros Hp Hf. rewrite concat_app. apply (decodes_ext _ (stream p ≫= λ a, stream (f a))).
  - intros s. apply run_bind.
  - eapply decodes_bind; eassumption.
Qed.

Lemma decodes_last {A B} (p : reading A) (f : A → B) ws a :
  decodes (stream p) (concat ws) a → decodes (stream (x ← p; mret (f x))) (concat ws) (f a).
Proof. intros Hp. rewrite <- (app_nil_r ws). eapply decodes_seq; [exact Hp|apply decodes_Done]. Qed.

Lemma decodes_r_value n x :
  (0 ≤ x < 256 ^ Z.of_nat n)%Z → decodes (stream (r_value n)) (concat (w_value n x)) x.
Proof.
  intros Hx. cbn [w_value concat]. rewrite app_nil_r. apply (decodes_ext _ (deserializeValue n)).
  - intros s. unfold stream, deserializeValue. cbn. unfold mbind, M_bind.
    destruct (read_bytes n s) as [[bs|e] s']; reflexivity.
  - apply decodes_value, Hx.
Qed.

Lemma decodes_r_bool b : decodes (stream r_bool) (concat (w_bool b)) b.
Proof.
  unfold r_bool, w_bool, serializeBool.
  replace b with (negb ((if b then 1 else 0) =? 0)%Z) at 2 by (destruct b; reflexivity).
  apply (decodes_last (r_value 1) (λ x, negb (x =? 0)%Z) (w_value 1 (if b then 1 else 0)%Z)), decodes_r_value.
  destruct b; cbn; lia.
Qed.

Lemma decodes_r_string s :
  is_u64 (Z.of_nat (String.length s)) → decodes (stream r_string) (concat (w_string s)) s.
Proof.
  intros Hs. apply (decodes_ext _ deserializeString).
  - intros b. unfold stream, deserializeString, deserializeValue, r_string. cbn. unfold mbind, M_bind.
    destruct (read_bytes 8 b) as [[bs|e] b1]; [|reflexivity]. cbn.
    destruct (read_bytes _ b1) as [[bs2|e] b2]; reflexivity.
  - cbn [w_string concat]. rewrite app_nil_r. apply decodes_string, Hs.
Qed.

Lemma decodes_r_debug dbg s :
  is_u64 (Z.of_nat (String.length s)) → decodes (stream (r_debug dbg s)) (concat (w_debug dbg s)) tt.
Proof.
  intros Hs. destruct dbg; [|apply decodes_Done]. cbn [r_debug w_debug].
  rewrite <- (app_nil_r (w_string s)). eapply decodes_seq; [apply decodes_r_string, Hs|].
  rewrite String.eqb_refl. apply decodes_Done.
Qed.

Lemma decodes_r_many {A} (p : reading A) (w : A → list (list Z)) l :
  Forall (λ x, decodes (stream p) (concat (w x)) x) l →
  decodes (stream (r_many (length l) p)) (concat (l ≫= w)) l.
Proof.
  induction 1 as [|x l Hx Hl IH]; [apply decodes_Done|]. cbn [length r_many].
  change ((x :: l) ≫= w) with (w x ++ (l ≫= w)).
  eapply decodes_seq; [exact Hx|]. apply (decodes_last (r_many (length l) p) (λ xs, x :: xs)), IH.
Qed.

Lemma decodes_end {A B} (p : reading A) (f : A → reading B) ws a b :
  decodes (stream p) (concat ws) a → f a = Done b → decodes (stream (p ≫= f)) (concat ws) b.
Proof.
  intros Hp Hf. rewrite <- (app_nil_r ws). eapply decodes_seq; [exact Hp|]. rewrite Hf. apply decodes_Done.
Qed.

(** What a type of payload promises. *)
Class Persisted (A : Type) := {
  p_write : bool → A → list (list Z);
  p_read : bool → reading A;
  p_valid : A → Prop;
  p_decodes : ∀ dbg a, p_valid a → decodes (stream (p_read dbg)) (concat (p_write dbg a)) a;
}.

Create HintDb wal discriminated.
#[export] Hint Resolve decodes_r_value decodes_r_bool decodes_r_string decodes_r_debug decodes_Done
  p_decodes : wal.

Definition ku_unreachable : exn := InternalException "KU_UNREACHABLE".

(** Reads back one field, then the next. *)
Ltac read_field :=
  first
    [ apply decodes_r_debug; vm_compute; split; [discriminate|reflexivity]
    | apply decodes_r_bool
    | apply decodes_r_value; assumption
    | apply decodes_r_value; vm_compute; split; [discriminate|reflexivity]
    | apply decodes_r_string; assumption
    | apply p_decodes; assumption ].
Ltac read_fields :=
  repeat first
    [ apply decodes_Done
    | eapply decodes_seq; [read_field|]
    | eapply decodes_end; [read_field|reflexivity] ].

Module Wal.

(** [WALRecordType], as its codes. *)
Definition INVALID_RECORD : Z := 0.
Definition BEGIN_TRANSACTION_RECORD : Z := 1.
Definition COMMIT_RECORD : Z := 2.
Definition COPY_TABLE_RECORD : Z := 13.
Definition CREATE_CATALOG_ENTRY_RECORD : Z := 14.
Definition DROP_CATALOG_ENTRY_RECORD : Z := 16.
Definition ALTER_TABLE_ENTRY_RECORD : Z := 17.
Definition UPDATE_SEQUENCE_RECORD : Z := 18.
Definition TABLE_INSERTION_RECORD : Z := 30.
Definition NODE_DELETION_RECORD : Z := 31.
Definition NODE_UPDATE_RECORD : Z := 32.
Definition REL_DELETION_RECORD : Z := 33.
Definition REL_DETACH_DELETE_RECORD : Z := 34.
Definition REL_UPDATE_RECORD : Z := 35.
Definition LOAD_EXTENSION_RECORD : Z := 100.
Definition CHECKPOINT_RECORD : Z := 254.

(** [AlterType], as its codes. *)
Definition ALTER_RENAME : Z := 0.
Definition ALTER_ADD_PROPERTY : Z := 10.
Definition ALTER_DROP_PROPERTY : Z := 11.
Definition ALTER_RENAME_PROPERTY : Z := 12.
Definition ALTER_ADD_FROM_TO_CONNECTION : Z := 13.
Definition ALTER_DROP_FROM_TO_CONNECTION : Z := 14.
Definition ALTER_COMMENT : Z := 201.

Section Records.
(** Catalog entries, property definitions, value vectors. *)
Context {C P V : Type} `{!Persisted C} `{!Persisted P} `{!Persisted V}.

(** [BoundExtraAlterInfo] with the [AlterType] it belongs to. *)
Inductive ExtraAlterInfo : Type :=
  | AddProperty (propertyDefinition : P)
  | DropProperty (propertyName : string)
  | RenameProperty (newName oldName : string)
  | Comment (comment : string)
  | Rename (newName : string)
  | AddFromToConnection (fromTableID toTableID : Z)
  | DropFromToConnection (fromTableID toTableID : Z).

Inductive WALRecord : Type :=
  | BeginTransactionRecord
  | CommitRecord
  | CheckpointRecord
  | CreateCatalogEntryRecord (catalogEntry : C) (isInternal : bool)
  | CopyTableRecord (tableID : Z)
  | DropCatalogEntryRecord (entryID entryType : Z)
  | AlterTableEntryRecord (tableName : string) (extraInfo : ExtraAlterInfo)
  | UpdateSequenceRecord (sequenceID kCount : Z)
  | TableInsertionRecord (tableID tableType numRows : Z) (vectors : list V)
  | NodeDeletionRecord (tableID nodeOffset : Z) (pkVector : V)
  | NodeUpdateRecord (tableID columnID nodeOffset : Z) (propertyVector : V)
  | RelDeletionRecord (tableID : Z) (srcNodeIDVector dstNodeIDVector relIDVector : V)
  | RelDetachDeleteRecord (tableID direction : Z) (srcNodeIDVector : V)
  | RelUpdateRecord (tableID columnID : Z)
      (srcNodeIDVector dstNodeIDVector relIDVector propertyVector : V)
  | LoadExtensionRecord (path : string).

Definition type (r : WALRecord) : Z :=
  match r with
  | BeginTransactionRecord => BEGIN_TRANSACTION_RECORD
  | CommitRecord => COMMIT_RECORD
  | CheckpointRecord => CHECKPOINT_RECORD
  | CreateCatalogEntryRecord _ _ => CREATE_CATALOG_ENTRY_RECORD
  | CopyTableRecord _ => COPY_TABLE_RECORD
  | DropCatalogEntryRecord _ _ => DROP_CATALOG_ENTRY_RECORD
  | AlterTableEntryRecord _ _ => ALTER_TABLE_ENTRY_RECORD
  | UpdateSequenceRecord _ _ => UPDATE_SEQUENCE_RECORD
  | TableInsertionRecord _ _ _ _ => TABLE_INSERTION_RECORD
  | NodeDeletionRecord _ _ _ => NODE_DELETION_RECORD
  | NodeUpdateRecord _ _ _ _ => NODE_UPDATE_RECORD
  | RelDeletionRecord _ _ _ _ => REL_DELETION_RECORD
  | RelDetachDeleteRecord _ _ _ => REL_DETACH_DELETE_RECORD
  | RelUpdateRecord _ _ _ _ _ _ => REL_UPDATE_RECORD
  | LoadExtensionRecord _ => LOAD_EXTENSION_RECORD
  end.

(** [AlterType] of an alteration. *)
Definition alterType (info : ExtraAlterInfo) : Z :=
  match info with
  | AddProperty _ => ALTER_ADD_PROPERTY
  | DropProperty _ => ALTER_DROP_PROPERTY
  | RenameProperty _ _ => ALTER_RENAME_PROPERTY
  | Comment _ => ALTER_COMMENT
  | Rename _ => ALTER_RENAME
  | AddFromToConnection _ _ => ALTER_ADD_FROM_TO_CONNECTION
  | DropFromToConnection _ _ => ALTER_DROP_FROM_TO_CONNECTION
  end.

(** [serializeAlterExtraInfo] *)
Definition serializeAlterExtraInfo (dbg : bool) (tableName : string) (info : ExtraAlterInfo) :
    list (list Z) :=
  w_value 1 (alterType info) ++ w_string tableName ++
  match info with
  | AddProperty d => p_write dbg d
  | DropProperty n => w_string n
  | RenameProperty newName oldName => w_string newName ++ w_string oldName
  | Comment c => w_string c
  | Rename newName => w_string newName
  | AddFromToConnection from to => w_value 8 from ++ w_value 8 to
  | DropFromToConnection from to => w_value 8 from ++ w_value 8 to
  end.

(** The part of [deserializeAlterRecord] that reads what the type asks for. *)
Definition deserializeExtraInfo (dbg : bool) (alterType : Z) : reading ExtraAlterInfo :=
  if (alterType =? ALTER_ADD_PROPERTY)%Z then d ← p_read dbg; mret (AddProperty d)
  else if (alterType =? ALTER_DROP_PROPERTY)%Z then n ← r_string; mret (DropProperty n)
  else if (alterType =? ALTER_RENAME_PROPERTY)%Z then
    newName ← r_string; oldName ← r_string; mret (RenameProperty newName oldName)
  else if (alterType =? ALTER_COMMENT)%Z then c ← r_string; mret (Comment c)
  else if (alterType =? ALTER_RENAME)%Z then newName ← r_string; mret (Rename newName)
  else if (alterType =? ALTER_ADD_FROM_TO_CONNECTION)%Z then
    from ← r_value 8; to ← r_value 8; mret (AddFromToConnection from to)
  else if (alterType =? ALTER_DROP_FROM_TO_CONNECTION)%Z then
    from ← r_value 8; to ← r_value 8; mret (DropFromToConnection from to)
  else Fails ku_unreachable.

(** [deserializeAlterRecord] *)
Definition deserializeAlterRecord (dbg : bool) : reading WALRecord :=
  alterType ← r_value 1;
  tableName ← r_string;
  info ← deserializeExtraInfo dbg alterType;
  mret (AlterTableEntryRecord tableName info).

(** The [serialize] of the records, behind that of the base class. *)
Definition serializeCreateCatalogEntry (dbg : bool) (e : C) (isInternal : bool) : list (list Z) :=
  p_write dbg e ++ w_bool isInternal.
Definition serializeCopyTable (tableID : Z) : list (list Z) :=
  w_value 8 tableID.
Definition serializeDropCatalogEntry (entryID entryType : Z) : list (list Z) :=
  w_value 8 entryID ++ w_value 1 entryType.
Definition serializeUpdateSequence (sequenceID kCount : Z) : list (list Z) :=
  w_value 8 sequenceID ++ w_value 8 kCount.
Definition serializeLoadExtension (dbg : bool) (path : string) : list (list Z) :=
  w_debug dbg "path" ++ w_string path.
Definition serializeTableInsertion (dbg : bool) (tableID tableType numRows : Z) (vectors : list V) : list (list Z) :=
  w_debug dbg "table_id" ++ w_value 8 tableID ++
  w_debug dbg "table_type" ++ w_value 1 tableType ++
  w_debug dbg "num_rows" ++ w_value 8 numRows ++
  w_debug dbg "num_vectors" ++ w_value 4 (Z.of_nat (length vectors)) ++
  (vectors ≫= p_write dbg).
Definition serializeNodeDeletion (dbg : bool) (tableID nodeOffset : Z) (pkVector : V) : list (list Z) :=
  w_debug dbg "table_id" ++ w_value 8 tableID ++
  w_debug dbg "node_offset" ++ w_value 8 nodeOffset ++
  w_debug dbg "pk_vector" ++ p_write dbg pkVector.
Definition serializeNodeUpdate (dbg : bool) (tableID columnID nodeOffset : Z) (propertyVector : V) : list (list Z) :=
  w_debug dbg "table_id" ++ w_value 8 tableID ++
  w_debug dbg "column_id" ++ w_value 4 columnID ++
  w_debug dbg "node_offset" ++ w_value 8 nodeOffset ++
  w_debug dbg "property_vector" ++ p_write dbg propertyVector.
Definition serializeRelDeletion (dbg : bool) (tableID : Z) (srcNodeIDVector dstNodeIDVector relIDVector : V) : list (list Z) :=
  w_debug dbg "table_id" ++ w_value 8 tableID ++
  w_debug dbg "src_node_vector" ++ p_write dbg srcNodeIDVector ++
  w_debug dbg "dst_node_vector" ++ p_write dbg dstNodeIDVector ++
  w_debug dbg "rel_id_vector" ++ p_write dbg relIDVector.
Definition serializeRelDetachDelete (dbg : bool) (tableID direction : Z) (srcNodeIDVector : V) : list (list Z) :=
  w_debug dbg "table_id" ++ w_value 8 tableID ++
  w_debug dbg "direction" ++ w_value 1 direction ++
  w_debug dbg "src_node_vector" ++ p_write dbg srcNodeIDVector.
Definition serializeRelUpdate (dbg : bool) (tableID columnID : Z) (srcNodeIDVector dstNodeIDVector relIDVector propertyVector : V) : list (list Z) :=
  w_debug dbg "table_id" ++ w_value 8 tableID ++
  w_debug dbg "column_id" ++ w_value 4 columnID ++
  w_debug dbg "src_node_vector" ++ p_write dbg srcNodeIDVector ++
  w_debug dbg "dst_node_vector" ++ p_write dbg dstNodeIDVector ++
  w_debug dbg "rel_id_vector" ++ p_write dbg relIDVector ++
  w_debug dbg "property_vector" ++ p_write dbg propertyVector.

(** [WALRecord::serialize] of the base class, and then that of the record. *)
Definition serialize (dbg : bool) (r : WALRecord) : list (list Z) :=
  w_debug dbg "type" ++ w_value 1 (type r) ++
  match r with
  | BeginTransactionRecord | CommitRecord | CheckpointRecord => []
  | CreateCatalogEntryRecord e isInternal => serializeCreateCatalogEntry dbg e isInternal
  | CopyTableRecord tableID => serializeCopyTable tableID
  | DropCatalogEntryRecord entryID entryType => serializeDropCatalogEntry entryID entryType
  | AlterTableEntryRecord tableName info => serializeAlterExtraInfo dbg tableName info
  | UpdateSequenceRecord sequenceID kCount => serializeUpdateSequence sequenceID kCount
  | TableInsertionRecord tableID tableType numRows vectors => serializeTableInsertion dbg tableID tableType numRows vectors
  | NodeDeletionRecord tableID nodeOffset pkVector => serializeNodeDeletion dbg tableID nodeOffset pkVector
  | NodeUpdateRecord tableID columnID nodeOffset propertyVector => serializeNodeUpdate dbg tableID columnID nodeOffset propertyVector
  | RelDeletionRecord tableID srcNodeIDVector dstNodeIDVector relIDVector => serializeRelDeletion dbg tableID srcNodeIDVector dstNodeIDVector relIDVector
  | RelDetachDeleteRecord tableID direction srcNodeIDVector => serializeRelDetachDelete dbg tableID direction srcNodeIDVector
  | RelUpdateRecord tableID columnID srcNodeIDVector dstNodeIDVector relIDVector propertyVector => serializeRelUpdate dbg tableID columnID srcNodeIDVector dstNodeIDVector relIDVector propertyVector
  | LoadExtensionRecord path => serializeLoadExtension dbg path
  end.

(** The bodies of the records' [deserialize], one per record type. *)
Definition deserializeTableInsertion (dbg : bool) : reading WALRecord :=
  r_debug dbg "table_id" ;;
  tableID ← r_value 8;
  r_debug dbg "table_type" ;;
  tableType ← r_value 1;
  r_debug dbg "num_rows" ;;
  numRows ← r_value 8;
  r_debug dbg "num_vectors" ;;
  numVectors ← r_value 4;
  vectors ← r_many (Z.to_nat numVectors) (p_read dbg);
  mret (TableInsertionRecord tableID tableType numRows vectors).

Definition deserializeNodeDeletion (dbg : bool) : reading WALRecord :=
  r_debug dbg "table_id" ;;
  tableID ← r_value 8;
  r_debug dbg "node_offset" ;;
  nodeOffset ← r_value 8;
  r_debug dbg "pk_vector" ;;
  pkVector ← p_read dbg;
  mret (NodeDeletionRecord tableID nodeOffset pkVector).

Definition deserializeNodeUpdate (dbg : bool) : reading WALRecord :=
  r_debug dbg "table_id" ;;
  tableID ← r_value 8;
  r_debug dbg "column_id" ;;
  columnID ← r_value 4;
  r_debug dbg "node_offset" ;;
  nodeOffset ← r_value 8;
  r_debug dbg "property_vector" ;;
  propertyVector ← p_read dbg;
  mret (NodeUpdateRecord tableID columnID nodeOffset propertyVector).

Definition deserializeRelDeletion (dbg : bool) : reading WALRecord :=
  r_debug dbg "table_id" ;;
  tableID ← r_value 8;
  r_debug dbg "src_node_vector" ;;
  srcNodeIDVector ← p_read dbg;
  r_debug dbg "dst_node_vector" ;;
  dstNodeIDVector ← p_read dbg;
  r_debug dbg "rel_id_vector" ;;
  relIDVector ← p_read dbg;
  mret (RelDeletionRecord tableID srcNodeIDVector dstNodeIDVector relIDVector).

Definition deserializeRelDetachDelete (dbg : bool) : reading WALRecord :=
  r_debug dbg "table_id" ;;
  tableID ← r_value 8;
  r_debug dbg "direction" ;;
  direction ← r_value 1;
  r_debug dbg "src_node_vector" ;;
  srcNodeIDVector ← p_read dbg;
  mret (RelDetachDeleteRecord tableID direction srcNodeIDVector).

Definition deserializeRelUpdate (dbg : bool) : reading WALRecord :=
  r_debug dbg "table_id" ;;
  tableID ← r_value 8;
  r_debug dbg "column_id" ;;
  columnID ← r_value 4;
  r_debug dbg "src_node_vector" ;;
  srcNodeIDVector ← p_read dbg;
  r_debug dbg "dst_node_vector" ;;
  dstNodeIDVector ← p_read dbg;
  r_debug dbg "rel_id_vector" ;;
  relIDVector ← p_read dbg;
  r_debug dbg "property_vector" ;;
  propertyVector ← p_read dbg;
  mret (RelUpdateRecord tableID columnID srcNodeIDVector dstNodeIDVector relIDVector propertyVector).

(** [WALRecord::deserialize] between [onObjectBegin] and [onObjectEnd]: the switch on the type. *)
Definition deserializeBody (dbg : bool) (type : Z) : reading WALRecord :=
  if (type =? BEGIN_TRANSACTION_RECORD)%Z then mret BeginTransactionRecord
  else if (type =? COMMIT_RECORD)%Z then mret CommitRecord
  else if (type =? CREATE_CATALOG_ENTRY_RECORD)%Z then
    e ← p_read dbg; isInternal ← r_bool; mret (CreateCatalogEntryRecord e isInternal)
  else if (type =? DROP_CATALOG_ENTRY_RECORD)%Z then
    entryID ← r_value 8; entryType ← r_value 1; mret (DropCatalogEntryRecord entryID entryType)
  else if (type =? ALTER_TABLE_ENTRY_RECORD)%Z then deserializeAlterRecord dbg
  else if (type =? TABLE_INSERTION_RECORD)%Z then deserializeTableInsertion dbg
  else if (type =? NODE_DELETION_RECORD)%Z then deserializeNodeDeletion dbg
  else if (type =? NODE_UPDATE_RECORD)%Z then deserializeNodeUpdate dbg
  else if (type =? REL_DELETION_RECORD)%Z then deserializeRelDeletion dbg
  else if (type =? REL_DETACH_DELETE_RECORD)%Z then deserializeRelDetachDelete dbg
  else if (type =? REL_UPDATE_RECORD)%Z then deserializeRelUpdate dbg
  else if (type =? COPY_TABLE_RECORD)%Z then tableID ← r_value 8; mret (CopyTableRecord tableID)
  else if (type =? CHECKPOINT_RECORD)%Z then mret CheckpointRecord
  else if (type =? UPDATE_SEQUENCE_RECORD)%Z then
    sequenceID ← r_value 8; kCount ← r_value 8; mret (UpdateSequenceRecord sequenceID kCount)
  else if (type =? LOAD_EXTENSION_RECORD)%Z then
    r_debug dbg "path" ;; path ← r_string; mret (LoadExtensionRecord path)
  else if (type =? INVALID_RECORD)%Z then
    Fails (RuntimeException "Corrupted wal file. Read out invalid WAL record type.")
  else Fails ku_unreachable.

Definition deserialize (dbg : bool) : reading WALRecord :=
  r_debug dbg "type" ;;
  type ← r_value 1;
  deserializeBody dbg type.

(** ** Records the writer can hold

    Fields within their width, payloads their codec covers. *)

Definition u8 (x : Z) : Prop := (0 ≤ x < 2 ^ 8)%Z.
Definition u32 (x : Z) : Prop := (0 ≤ x < 2 ^ 32)%Z.
Definition u128 (x : Z) : Prop := (0 ≤ x < 2 ^ 128)%Z.
Definition str_ok (s : string) : Prop := is_u64 (Z.of_nat (String.length s)).

Definition info_valid (info : ExtraAlterInfo) : Prop :=
  match info with
  | AddProperty d => p_valid d
  | DropProperty n | Comment n | Rename n => str_ok n
  | RenameProperty a b => str_ok a ∧ str_ok b
  | AddFromToConnection a b | DropFromToConnection a b => is_u64 a ∧ is_u64 b
  end.

Definition valid (r : WALRecord) : Prop :=
  match r with
  | BeginTransactionRecord | CommitRecord | CheckpointRecord => True
  | CreateCatalogEntryRecord e _ => p_valid e
  | CopyTableRecord t => is_u64 t
  | DropCatalogEntryRecord i t => is_u64 i ∧ u8 t
  | AlterTableEntryRecord n info => str_ok n ∧ info_valid info
  | UpdateSequenceRecord i k => is_u64 i ∧ is_u64 k
  | TableInsertionRecord t ty n vs =>
      is_u64 t ∧ u8 ty ∧ is_u64 n ∧ u32 (Z.of_nat (length vs)) ∧ Forall p_valid vs
  | NodeDeletionRecord t o v => is_u64 t ∧ is_u64 o ∧ p_valid v
  | NodeUpdateRecord t c o v => is_u64 t ∧ u32 c ∧ is_u64 o ∧ p_valid v
  | RelDeletionRecord t a b c => is_u64 t ∧ p_valid a ∧ p_valid b ∧ p_valid c
  | RelDetachDeleteRecord t d a => is_u64 t ∧ u8 d ∧ p_valid a
  | RelUpdateRecord t c a b d e =>
      is_u64 t ∧ u32 c ∧ p_valid a ∧ p_valid b ∧ p_valid d ∧ p_valid e
  | LoadExtensionRecord p => str_ok p
  end.

(** The bytes of a record. *)
Definition record_bytes (dbg : bool) (r : WALRecord) : list Z := concat (serialize dbg r).

Ltac split_conj := repeat match goal with H : _ ∧ _ |- _ => destruct H end.

(** Evaluates the switch on a known code. *)
Ltac eval_codes :=
  repeat match goal with |- context [Z.eqb ?a ?b] =>
    let v := eval vm_compute in (Z.eqb a b) in change (Z.eqb a b) with v end; cbv iota.

Lemma decodes_alter dbg tableName info :
  str_ok tableName → info_valid info →
  decodes (stream (deserializeAlterRecord dbg)) (concat (serializeAlterExtraInfo dbg tableName info))
    (AlterTableEntryRecord tableName info).
Proof.
  intros Hn Hi. unfold deserializeAlterRecord, serializeAlterExtraInfo.
  destruct info; cbn [info_valid] in Hi; split_conj;
    (eapply decodes_seq; [read_field|]; eapply decodes_seq; [read_field|];
     eapply decodes_end; [|reflexivity]; unfold deserializeExtraInfo; cbn [alterType]; eval_codes; read_fields).
Qed.

Lemma decodes_insertion dbg tableID tableType numRows vectors :
  valid (TableInsertionRecord tableID tableType numRows vectors) →
  decodes (stream (deserializeTableInsertion dbg))
    (concat (w_debug dbg "table_id" ++ w_value 8 tableID ++
             w_debug dbg "table_type" ++ w_value 1 tableType ++
             w_debug dbg "num_rows" ++ w_value 8 numRows ++
             w_debug dbg "num_vectors" ++ w_value 4 (Z.of_nat (length vectors)) ++
             (vectors ≫= p_write dbg)))
    (TableInsertionRecord tableID tableType numRows vectors).
Proof.
  intros (Ht & Hty & Hn & Hl & Hv). unfold deserializeTableInsertion.
  do 8 (eapply decodes_seq; [read_field|]). rewrite Nat2Z.id.
  eapply decodes_end; [|reflexivity]. apply decodes_r_many.
  eapply Forall_impl; [exact Hv|]. intros v Hvv. apply p_decodes, Hvv.
Qed.

(** Every record reads back from its bytes. *)
Lemma decodes_record dbg r : valid r → decodes (stream (deserialize dbg)) (record_bytes dbg r) r.
Proof.
  intros Hv. unfold deserialize, record_bytes, serialize, serializeCreateCatalogEntry, serializeCopyTable, serializeDropCatalogEntry, serializeUpdateSequence, serializeLoadExtension, serializeTableInsertion, serializeNodeDeletion, serializeNodeUpdate, serializeRelDeletion, serializeRelDetachDelete, serializeRelUpdate.
  eapply decodes_seq; [read_field|].
  destruct r; cbn [type]; (eapply decodes_seq; [read_field|]);
    unfold deserializeBody; eval_codes;
    lazymatch goal with
    | |- decodes (stream (deserializeAlterRecord _)) _ _ => apply decodes_alter; apply Hv
    | |- decodes (stream (deserializeTableInsertion _)) _ _ => apply decodes_insertion, Hv
    | _ => cbn [valid] in Hv; split_conj;
           unfold deserializeNodeDeletion, deserializeNodeUpdate, deserializeRelDeletion,
             deserializeRelDetachDelete, deserializeRelUpdate; read_fields
    end.
Qed.

(** A record has a type byte. *)
Lemma record_nonempty dbg r : 0 < length (record_bytes dbg r).
Proof.
  unfold record_bytes, serialize. rewrite concat_app, length_app.
  rewrite concat_app, length_app. cbn. lia.
Qed.
End Records.

Arguments ExtraAlterInfo : clear implicits.
Arguments WALRecord : clear implicits.
End Wal.
