(* ===== verification/WalWriter.v ===== *)
(** * Writing the write-ahead log

    common/checksum.cpp, storage/wal/checksum_writer.{h,cpp}, storage/wal/local_wal.{h,cpp} and
    storage/wal/wal.{h,cpp}. A transaction collects its records in a local log in memory; committing
    appends that log to the WAL file and syncs it. With checksums, each record is followed by the
    checksum of its bytes. *)

From stdpp Require Import base numbers list strings.
From Stdlib Require Import ZArith Lia.
From S2P Require Import Prelude Serializer InMemFile BufferedFile WalRecord.
Import Serializer FileInfo Wal.

(** ** common/checksum.cpp *)

Module Checksum.
#[local] Open Scope Z_scope.

Definition mul64 (a b : Z) : Z := uwrap 64 (a * b).

(** [checksum(uint64_t)] *)
Definition checksum64 (x : Z) : Z := mul64 x 0xbf58476d1ce4e5b9.

Definition M : Z := 0xc6a4a7935bd1e995.
Definition SEED : Z := 0xe17a1465.
Definition R : Z := 47.

(** The loop of [checksumRemainder] over blocks of eight bytes. *)
Fixpoint remainder_blocks (n : nat) (data : list Z) (h : Z) : Z :=
  match n with
  | O => h
  | S n' =>
      let k := mul64 (le_value (take 8 data)) M in
      let k := mul64 (Z.lxor k (Z.shiftr k R)) M in
      remainder_blocks n' (drop 8 data) (mul64 (Z.lxor h k) M)
  end.

(** The fall-through switch on the last bytes. *)
Definition remainder_tail (data8 : list Z) (h : Z) : Z :=
  match data8 with
  | [] => h
  | _ => mul64 (Z.lxor h (le_value data8)) M
  end.

(** [checksumRemainder] *)
Definition checksumRemainder (data : list Z) : Z :=
  let h := Z.lxor SEED (mul64 (Z.of_nat (length data)) M) in
  let n_blocks := (length data / 8)%nat in
  let h := remainder_blocks n_blocks data h in
  let h := remainder_tail (drop (8 * n_blocks) data) h in
  let h := Z.lxor h (Z.shiftr h R) in
  let h := mul64 h M in
  Z.lxor h (Z.shiftr h R).

(** The loop of [checksum(uint8_t*, size_t)]. *)
Fixpoint checksum_words (n : nat) (buffer : list Z) (result : Z) : Z :=
  match n with
  | O => result
  | S n' => checksum_words n' (drop 8 buffer) (Z.lxor result (checksum64 (le_value (take 8 buffer))))
  end.

(** [checksum(uint8_t*, size_t)] *)
Definition checksum (buffer : list Z) : Z :=
  let n := (length buffer / 8)%nat in
  let result := checksum_words n buffer 5381 in
  let rest := drop (8 * n) buffer in
  if (0 <? length rest)%nat then Z.lxor result (checksumRemainder rest) else result.
End Checksum.

(** ** Writers *)

(** [common::Writer], with the bytes it has been given so far. *)
Class Writer (W : Type) := {
  wr_write : list Z → W → W;
  wr_clear : W → W;
  wr_getSize : W → nat;
  wr_ok : W → Prop;
  wr_bytes : W → list Z;
  wr_write_ok : ∀ d w, wr_ok w → wr_ok (wr_write d w) ∧ wr_bytes (wr_write d w) = wr_bytes w ++ d;
}.

Module WalWriter.

(** [INITIAL_BUFFER_SIZE] *)
Definition INITIAL_BUFFER_SIZE : nat := KUZU_PAGE_SIZE.
#[global] Arguments INITIAL_BUFFER_SIZE : simpl never.

(** [std::bit_ceil] *)
Definition bit_ceil (n : nat) : nat := 2 ^ Nat.log2_up n.

(** *** ChecksumWriter *)

Record ChecksumWriter (W : Type) := MkChecksumWriter {
  outputSerializer : W;
  currentEntrySize : option nat;
  entryBuffer : list Z;
}.
#[global] Arguments MkChecksumWriter {W}.
#[global] Arguments outputSerializer {W}.
#[global] Arguments currentEntrySize {W}.
#[global] Arguments entryBuffer {W}.

(** The writer a log uses: the plain one, or the one with checksums over it. *)
Inductive LogWriter (W : Type) : Type :=
  | PlainWriter (w : W)
  | ChecksummedWriter (c : ChecksumWriter W).
Arguments PlainWriter {W}.
Arguments ChecksummedWriter {W}.

Section ChecksumWriter.
(** What [n] bytes of a fresh, uninitialized buffer hold. *)
Context (blank : nat → list Z).
Context {W : Type} `{!Writer W}.

Definition ChecksumWriter_new (w : W) : ChecksumWriter W :=
  MkChecksumWriter w None (blank INITIAL_BUFFER_SIZE).

(** [resizeBufferIfNeeded]: the new buffer does not take over the bytes of the old one. *)
Definition resizeBufferIfNeeded (buffer : list Z) (requestedSize : nat) : list Z :=
  if length buffer <? requestedSize then blank (bit_ceil requestedSize) else buffer.

(** [ChecksumWriter::write] *)
Definition checksum_write (data : list Z) (c : ChecksumWriter W) : ChecksumWriter W :=
  match currentEntrySize c with
  | Some n =>
      let buffer := resizeBufferIfNeeded (entryBuffer c) (n + length data) in
      MkChecksumWriter (outputSerializer c) (Some (n + length data))
        (BufferedFile.memcpy n data buffer)
  | None => MkChecksumWriter (wr_write data (outputSerializer c)) None (entryBuffer c)
  end.

(** [ChecksumWriter::onObjectEnd] *)
Definition checksum_end (c : ChecksumWriter W) : outcome (ChecksumWriter W) :=
  match currentEntrySize c with
  | None => Throw assert_failure
  | Some n =>
      let entry := take n (entryBuffer c) in
      let out := wr_write entry (outputSerializer c) in
      let out := wr_write (serializeValue 8 (Checksum.checksum entry)) out in
      Ok (MkChecksumWriter out None (entryBuffer c))
  end.

(** The virtual calls on the log's writer. *)
Definition log_write (data : list Z) (l : LogWriter W) : LogWriter W :=
  match l with
  | PlainWriter w => PlainWriter (wr_write data w)
  | ChecksummedWriter c => ChecksummedWriter (checksum_write data c)
  end.
Definition onObjectBegin (l : LogWriter W) : LogWriter W :=
  match l with
  | PlainWriter w => PlainWriter w
  | ChecksummedWriter c => ChecksummedWriter (MkChecksumWriter (outputSerializer c) (Some 0) (entryBuffer c))
  end.
Definition onObjectEnd (l : LogWriter W) : outcome (LogWriter W) :=
  match l with
  | PlainWriter w => Ok (PlainWriter w)
  | ChecksummedWriter c => c ← checksum_end c; Ok (ChecksummedWriter c)
  end.
Definition log_clear (l : LogWriter W) : LogWriter W :=
  match l with
  | PlainWriter w => PlainWriter (wr_clear w)
  | ChecksummedWriter c => ChecksummedWriter (MkChecksumWriter (wr_clear (outputSerializer c)) None (entryBuffer c))
  end.
Definition log_getSize (l : LogWriter W) : nat :=
  match l with
  | PlainWriter w => wr_getSize w
  | ChecksummedWriter c => default 0 (currentEntrySize c) + wr_getSize (outputSerializer c)
  end.

(** The writer at the bottom, and changing it. *)
Definition base (l : LogWriter W) : W :=
  match l with PlainWriter w => w | ChecksummedWriter c => outputSerializer c end.
Definition on_base (f : W → W) (l : LogWriter W) : LogWriter W :=
  match l with
  | PlainWriter w => PlainWriter (f w)
  | ChecksummedWriter c => ChecksummedWriter (MkChecksumWriter (f (outputSerializer c)) (currentEntrySize c) (entryBuffer c))
  end.

Definition LogWriter_new (enableChecksums : bool) (w : W) : LogWriter W :=
  if enableChecksums then ChecksummedWriter (ChecksumWriter_new w) else PlainWriter w.

(** The writes of one object between [onObjectBegin] and [onObjectEnd]. *)
Definition log_object (ws : list (list Z)) (l : LogWriter W) : outcome (LogWriter W) :=
  onObjectEnd (fold_left (λ l d, log_write d l) ws (onObjectBegin l)).

Context {C P V : Type} `{!Persisted C} `{!Persisted P} `{!Persisted V}.

(** [LocalWAL::addNewWALRecord] and [WAL::addNewWALRecordNoLock] *)
Definition addNewWALRecord (dbg : bool) (r : WALRecord C P V) (l : LogWriter W) : outcome (LogWriter W) :=
  ku_assert_o (negb (type r =? INVALID_RECORD)%Z) ;;
  log_object (serialize dbg r) l.
End ChecksumWriter.

(** ** LocalWAL *)

Definition InMemFile_Writer (blank : nat → list Z) (Hblank : length (blank KUZU_PAGE_SIZE) = KUZU_PAGE_SIZE) :
    Writer InMemFile.InMemFileWriter := {|
  wr_write := InMemFile.write (blank KUZU_PAGE_SIZE);
  wr_clear := InMemFile.clear;
  wr_getSize := InMemFile.getSize;
  wr_ok := InMemFile.wf;
  wr_bytes := InMemFile.flush;
  wr_write_ok d w H := InMemFile.write_appends (blank KUZU_PAGE_SIZE) Hblank d w H;
|}.

#[global] Instance BufferedFile_Writer : Writer BufferedFile.BufferedFileWriter := {|
  wr_write := BufferedFile.write;
  wr_clear := BufferedFile.writer_clear;
  wr_getSize := BufferedFile.writer_getSize;
  wr_ok := BufferedFile.appending;
  wr_bytes := BufferedFile.written;
  wr_write_ok d w H := BufferedFile.buffered_write_appends d w H;
|}.

Section Logs.
(** The build's debugging information, fresh buffers, and the payloads of records. *)
Context (dbg : bool) (blank : nat → list Z) (Hblank : ∀ n, length (blank n) = n).
Context {C P V : Type} `{!Persisted C} `{!Persisted P} `{!Persisted V}.

#[local] Instance in_mem : Writer InMemFile.InMemFileWriter := InMemFile_Writer blank (Hblank _).

Definition LocalWAL : Type := LogWriter InMemFile.InMemFileWriter.

Definition LocalWAL_new (enableChecksums : bool) : LocalWAL :=
  LogWriter_new blank enableChecksums InMemFile.InMemFileWriter_new.

Definition log_record (r : WALRecord C P V) (l : LocalWAL) : outcome LocalWAL :=
  addNewWALRecord blank dbg r l.

Definition logBeginTransaction : LocalWAL → outcome LocalWAL := log_record BeginTransactionRecord.
Definition logCommit : LocalWAL → outcome LocalWAL := log_record CommitRecord.
Definition logCreateCatalogEntryRecord (e : C) (isInternal : bool) : LocalWAL → outcome LocalWAL :=
  log_record (CreateCatalogEntryRecord e isInternal).
Definition logDropCatalogEntryRecord (tableID type : Z) : LocalWAL → outcome LocalWAL :=
  log_record (DropCatalogEntryRecord tableID type).
Definition logAlterCatalogEntryRecord (tableName : string) (info : ExtraAlterInfo P) :
    LocalWAL → outcome LocalWAL := log_record (AlterTableEntryRecord tableName info).
Definition logTableInsertion (tableID tableType numRows : Z) (vectors : list V) :
    LocalWAL → outcome LocalWAL := log_record (TableInsertionRecord tableID tableType numRows vectors).
Definition logNodeDeletion (tableID nodeOffset : Z) (pkVector : V) : LocalWAL → outcome LocalWAL :=
  log_record (NodeDeletionRecord tableID nodeOffset pkVector).
Definition logNodeUpdate (tableID columnID nodeOffset : Z) (propertyVector : V) :
    LocalWAL → outcome LocalWAL := log_record (NodeUpdateRecord tableID columnID nodeOffset propertyVector).
Definition logRelDelete (tableID : Z) (src dst rel : V) : LocalWAL → outcome LocalWAL :=
  log_record (RelDeletionRecord tableID src dst rel).
Definition logRelDetachDelete (tableID direction : Z) (src : V) : LocalWAL → outcome LocalWAL :=
  log_record (RelDetachDeleteRecord tableID direction src).
Definition logRelUpdate (tableID columnID : Z) (src dst rel property : V) : LocalWAL → outcome LocalWAL :=
  log_record (RelUpdateRecord tableID columnID src dst rel property).
Definition logUpdateSequenceRecord (sequenceID kCount : Z) : LocalWAL → outcome LocalWAL :=
  log_record (UpdateSequenceRecord sequenceID kCount).
Definition logLoadExtension (path : string) : LocalWAL → outcome LocalWAL :=
  log_record (LoadExtensionRecord path).

(** [LocalWAL::clear], [LocalWAL::getSize] *)
Definition local_clear (l : LocalWAL) : LocalWAL := log_clear l.
Definition local_getSize (l : LocalWAL) : nat := log_getSize l.

(** Logging records one after the other. *)
Definition log_records (rs : list (WALRecord C P V)) (l : LocalWAL) : outcome LocalWAL :=
  fold_left (λ o r, l ← o; log_record r l) rs (Ok l).

(** ** WAL

    The file is in the writer while there is one, else [file], [None] when it does not exist. *)

Record WAL := MkWAL {
  inMemory : bool;
  readOnly : bool;
  enableChecksums : bool;
  file : option FileInfo;
  serializer : option (LogWriter BufferedFile.BufferedFileWriter);
}.

Definition wal_file (w : WAL) : option FileInfo :=
  match serializer w with
  | Some l => Some (BufferedFile.wfileInfo (base l))
  | None => file w
  end.

(** [WAL::writeHeader] *)
Definition writeHeader (databaseID : Z) (enableChecksums : bool)
    (l : LogWriter BufferedFile.BufferedFileWriter) : outcome (LogWriter BufferedFile.BufferedFileWriter) :=
  log_object blank [serializeValue 16 databaseID; serializeBool enableChecksums] l.

(** [WAL::initWriter] *)
Definition initWriter (databaseID : Z) (w : WAL) :
    outcome (LogWriter BufferedFile.BufferedFileWriter) :=
  match serializer w with
  | Some l => Ok l
  | None =>
      let fileInfo := default empty_file (file w) in
      let l := LogWriter_new blank (enableChecksums w) (BufferedFile.BufferedFileWriter_new fileInfo) in
      l ← (if getFileSize fileInfo =? 0 then writeHeader databaseID (enableChecksums w) l else Ok l);
      Ok (on_base (BufferedFile.setFileOffset (getFileSize fileInfo)) l)
  end.

(** [WAL::flushAndSyncNoLock] *)
Definition flushAndSyncNoLock (l : LogWriter BufferedFile.BufferedFileWriter) :
    LogWriter BufferedFile.BufferedFileWriter :=
  on_base BufferedFile.sync (on_base BufferedFile.flush l).

Definition set_serializer (l : LogWriter BufferedFile.BufferedFileWriter) (w : WAL) : WAL :=
  MkWAL (inMemory w) (readOnly w) (enableChecksums w) None (Some l).

(** The writes of [InMemFileWriter::flush(Writer&)]. *)
Fixpoint flush_writes (ps : list (list Z)) (off : nat) : list (list Z) :=
  match ps with
  | [] => []
  | [p] => [take off p]
  | p :: ps' => take KUZU_PAGE_SIZE p :: flush_writes ps' off
  end.

(** [WAL::logCommittedWAL] *)
Definition logCommittedWAL (databaseID : Z) (localWAL : LocalWAL) : M WAL unit := λ w,
  if readOnly w then (Throw assert_failure, w)
  else if inMemory w || (local_getSize localWAL =? 0) then (Ok tt, w)
  else
    match initWriter databaseID w with
    | Throw e => (Throw e, w)
    | Ok l =>
        let m := base localWAL in
        let l := fold_left (λ l d, log_write blank d l)
                   (flush_writes (InMemFile.pages m) (InMemFile.pageOffset m)) l in
        (Ok tt, set_serializer (flushAndSyncNoLock l) w)
    end.

(** [WAL::logAndFlushCheckpoint] *)
Definition logAndFlushCheckpoint (databaseID : Z) : M WAL unit := λ w,
  match initWriter databaseID w with
  | Throw e => (Throw e, w)
  | Ok l =>
      if inMemory w then (Throw assert_failure, set_serializer l w)
      else
        match addNewWALRecord blank dbg (CheckpointRecord : WALRecord C P V) l with
        | Throw e => (Throw e, set_serializer l w)
        | Ok l => (Ok tt, set_serializer (flushAndSyncNoLock l) w)
        end
  end.

(** [WAL::clear], [WAL::reset], [WAL::getFileSize] *)
Definition wal_clear : M WAL unit := λ w,
  match serializer w with
  | None => (Throw (UndefinedBehaviour "null serializer"), w)
  | Some l => (Ok tt, set_serializer (log_clear l) w)
  end.
Definition wal_reset : M WAL unit := λ w,
  let removed := MkWAL (inMemory w) (readOnly w) (enableChecksums w) None None in
  match serializer w with
  | None => (Ok tt, removed)
  | Some l =>
      if BufferedFile.wbufferOffset (base l) =? 0 then (Ok tt, removed)
      else (Throw (UndefinedBehaviour "flush into a closed file"), w)
  end.
Definition wal_getFileSize (w : WAL) : outcome nat :=
  match serializer w with
  | None => Throw (UndefinedBehaviour "null serializer")
  | Some l => Ok (log_getSize l)
  end.
End Logs.

(** ** What reaches the writer *)

(** The bytes of an object in the log. *)
Definition frame (enableChecksums : bool) (bs : list Z) : list Z :=
  bs ++ if enableChecksums then serializeValue 8 (Checksum.checksum bs) else [].

Section ObjectLemmas.
Context (blank : nat → list Z) {W : Type} `{!Writer W}.

Definition checksummed (l : LogWriter W) : bool :=
  match l with PlainWriter _ => false | ChecksummedWriter _ => true end.

(** No object is open, and the buffer has at least its initial size. *)
Definition idle (l : LogWriter W) : Prop :=
  wr_ok (base l) ∧
  match l with
  | PlainWriter _ => True
  | ChecksummedWriter c => currentEntrySize c = None ∧ INITIAL_BUFFER_SIZE ≤ length (entryBuffer c)
  end.

Lemma checksummed_on_base f (l : LogWriter W) : checksummed (on_base f l) = checksummed l.
Proof. destruct l; reflexivity. Qed.

Lemma base_on_base f (l : LogWriter W) : base (on_base f l) = f (base l).
Proof. destruct l; reflexivity. Qed.

Lemma idle_on_base f (l : LogWriter W) : idle l → wr_ok (f (base l)) → idle (on_base f l).
Proof. intros [_ Hi] Hok. destruct l; split; assumption. Qed.

Lemma wr_write_all ds (w : W) :
  wr_ok w → wr_ok (fold_left (λ w d, wr_write d w) ds w) ∧
  wr_bytes (fold_left (λ w d, wr_write d w) ds w) = wr_bytes w ++ concat ds.
Proof.
  revert w. induction ds as [|d ds IH]; intros w Hw; cbn [fold_left concat].
  - rewrite app_nil_r. split; [exact Hw|reflexivity].
  - destruct (wr_write_ok d w Hw) as [H1 H2]. destruct (IH _ H1) as [H3 H4].
    split; [exact H3|]. rewrite H4, H2, app_assoc. reflexivity.
Qed.

(** Between objects, writes go through to the writer below. *)
Lemma log_write_through ds (l : LogWriter W) :
  idle l → fold_left (λ l d, log_write blank d l) ds l = on_base (fold_left (λ w d, wr_write d w) ds) l.
Proof.
  revert l. induction ds as [|d ds IH]; intros l Hi; cbn [fold_left].
  - destruct l as [w|[w n b]]; reflexivity.
  - destruct l as [w|[w n b]].
    + apply (IH (PlainWriter (wr_write d w))). split; [apply wr_write_ok, Hi|exact I].
    + destruct Hi as [Hok [Hn Hb]]. cbn [base outputSerializer currentEntrySize entryBuffer] in *. subst n.
      apply (IH (ChecksummedWriter (MkChecksumWriter (wr_write d w) None b))).
      split; [apply wr_write_ok, Hok|split; [reflexivity|exact Hb]].
Qed.

Lemma memcpy_prefix n data buffer :
  n ≤ length buffer → take (n + length data) (BufferedFile.memcpy n data buffer) = take n buffer ++ data.
Proof. apply BufferedFile.take_memcpy. Qed.

(** Writes of an object that fits the buffer collect there. *)
Lemma checksum_collects ds w n b :
  n + length (concat ds) ≤ length b →
  ∃ b', fold_left (λ l d, log_write blank d l) ds (ChecksummedWriter (MkChecksumWriter w (Some n) b)) =
          ChecksummedWriter (MkChecksumWriter w (Some (n + length (concat ds))) b') ∧
        length b' = length b ∧ take (n + length (concat ds)) b' = take n b ++ concat ds.
Proof.
  revert n b. induction ds as [|d ds IH]; intros n b Hlen; cbn [fold_left concat] in *.
  - exists b. cbn [length]. rewrite Nat.add_0_r, app_nil_r. auto.
  - rewrite length_app in *. unfold log_write at 2, checksum_write.
    cbn [currentEntrySize outputSerializer entryBuffer].
    unfold resizeBufferIfNeeded. rewrite (proj2 (Nat.ltb_ge _ _)) by lia.
    assert (Hl : length (BufferedFile.memcpy n d b) = length b) by (apply BufferedFile.length_memcpy; lia).
    destruct (IH (n + length d) (BufferedFile.memcpy n d b)) as (b' & Hf & Hb & Ht); [rewrite Hl; lia|].
    exists b'. rewrite Nat.add_assoc. split; [exact Hf|]. split; [congruence|].
    rewrite Ht, memcpy_prefix, <- app_assoc by lia. reflexivity.
Qed.

Lemma plain_writes ds (w : W) :
  fold_left (λ l d, log_write blank d l) ds (PlainWriter w) = PlainWriter (fold_left (λ w d, wr_write d w) ds w).
Proof. revert w. induction ds as [|d ds IH]; intros w; [reflexivity|]. apply IH. Qed.

(** An object of at most a page reaches the writer below as the writes of its frame. *)
Lemma log_object_writes ws (l : LogWriter W) :
  idle l → (checksummed l = true → length (concat ws) ≤ INITIAL_BUFFER_SIZE) →
  ∃ l' ds, log_object blank ws l = Ok l' ∧ idle l' ∧ checksummed l' = checksummed l ∧
           base l' = fold_left (λ w d, wr_write d w) ds (base l) ∧
           concat ds = frame (checksummed l) (concat ws).
Proof.
  intros [Hok Hi] Hsmall. unfold log_object. destruct l as [w|[w n b]].
  - cbn [onObjectBegin onObjectEnd base] in *. rewrite plain_writes. eexists _, ws. split; [reflexivity|].
    destruct (wr_write_all ws w Hok) as [H1 H2]. split; [split; [exact H1|exact I]|].
    split; [reflexivity|]. split; [reflexivity|]. unfold frame. cbn. rewrite app_nil_r. reflexivity.
  - cbn [base outputSerializer currentEntrySize entryBuffer] in *. destruct Hi as [-> Hb].
    cbn [onObjectBegin outputSerializer entryBuffer].
    destruct (checksum_collects ws w 0 b) as (b' & Hf & Hl & Ht); [specialize (Hsmall eq_refl); lia|].
    rewrite take_0 in Ht. rewrite Hf. cbn [Nat.add app] in *.
    cbn [onObjectEnd checksum_end currentEntrySize entryBuffer outputSerializer].
    rewrite Ht. cbn zeta. rewrite outcome_bind_Ok.
    eexists _, [concat ws; serializeValue 8 (Checksum.checksum (concat ws))]. split; [reflexivity|].
    cbn [base outputSerializer checksummed fold_left concat].
    split; [|split; [reflexivity|]; split; [reflexivity|]; unfold frame; rewrite app_nil_r; reflexivity].
    split; [|split; [reflexivity|cbn; lia]]. apply wr_write_ok, wr_write_ok, Hok.
Qed.

Lemma log_object_frames ws (l : LogWriter W) :
  idle l → (checksummed l = true → length (concat ws) ≤ INITIAL_BUFFER_SIZE) →
  ∃ l', log_object blank ws l = Ok l' ∧ idle l' ∧ checksummed l' = checksummed l ∧
        wr_bytes (base l') = wr_bytes (base l) ++ frame (checksummed l) (concat ws).
Proof.
  intros Hi Hs. destruct (log_object_writes ws l Hi Hs) as (l' & ds & H1 & H2 & H3 & H4 & H5).
  exists l'. split; [exact H1|]. split; [exact H2|]. split; [exact H3|].
  rewrite H4, <- H5. apply wr_write_all, Hi.
Qed.

Context {C P V : Type} `{!Persisted C} `{!Persisted P} `{!Persisted V}.

Lemma addNewWALRecord_frames dbg (r : WALRecord C P V) (l : LogWriter W) :
  idle l → (checksummed l = true → length (record_bytes dbg r) ≤ INITIAL_BUFFER_SIZE) →
  ∃ l', addNewWALRecord blank dbg r l = Ok l' ∧ idle l' ∧ checksummed l' = checksummed l ∧
        wr_bytes (base l') = wr_bytes (base l) ++ frame (checksummed l) (record_bytes dbg r).
Proof.
  intros Hi Hs. unfold addNewWALRecord. replace (type r =? INVALID_RECORD)%Z with false by (destruct r; reflexivity).
  apply log_object_frames; assumption.
Qed.

Lemma idle_new (ec : bool) (w : W) : (∀ n, length (blank n) = n) → wr_ok w → idle (LogWriter_new blank ec w).
Proof.
  intros Hb Hw. destruct ec; split; try exact Hw; [|exact I].
  split; [reflexivity|]. cbn. rewrite Hb. lia.
Qed.

Lemma checksummed_new (ec : bool) (w : W) : checksummed (LogWriter_new blank ec w) = ec.
Proof. destruct ec; reflexivity. Qed.

Lemma base_new (ec : bool) (w : W) : base (LogWriter_new blank ec w) = w.
Proof. destruct ec; reflexivity. Qed.
End ObjectLemmas.

(** ** What reaches the file *)

Section LogLemmas.
Context (dbg : bool) (blank : nat → list Z) (Hblank : ∀ n, length (blank n) = n).
Context {C P V : Type} `{!Persisted C} `{!Persisted P} `{!Persisted V}.
#[local] Existing Instance BufferedFile_Writer.

(** A record whose bytes fit the checksum buffer, where there is one. *)
Definition fits (ec : bool) (r : WALRecord C P V) : Prop :=
  ec = true → length (record_bytes dbg r) ≤ INITIAL_BUFFER_SIZE.

Definition record_frame (ec : bool) (r : WALRecord C P V) : list Z := frame ec (record_bytes dbg r).
Definition header_frame (ec : bool) (databaseID : Z) : list Z :=
  frame ec (serializeValue 16 databaseID ++ serializeBool ec).

Definition wal_bytes (w : WAL) : list Z :=
  match wal_file w with Some f => contents f | None => [] end.

(** The bytes of a log that starts with a header. *)
Definition with_header (ec : bool) (databaseID : Z) (bs : list Z) : list Z :=
  match bs with [] => header_frame ec databaseID | _ => bs end.

(** Between operations the writer is idle, its buffer flushed, and the file has a header. *)
Definition wal_ok (w : WAL) : Prop :=
  match serializer w with
  | None => True
  | Some l => idle l ∧ checksummed l = enableChecksums w ∧ BufferedFile.wbufferOffset (base l) = 0 ∧
              contents (BufferedFile.wfileInfo (base l)) ≠ []
  end.

Lemma log_records_frames rs l :
  @idle _ (in_mem blank Hblank) l → Forall (fits (checksummed l)) rs →
  ∃ l', log_records dbg blank Hblank rs l = Ok l' ∧ @idle _ (in_mem blank Hblank) l' ∧
        checksummed l' = checksummed l ∧
        InMemFile.flush (base l') = InMemFile.flush (base l) ++ concat (map (record_frame (checksummed l)) rs).
Proof.
  intros Hi Hf. revert l Hi Hf. unfold log_records. induction rs as [|r rs IH]; intros l Hi Hf.
  - exists l. cbn. rewrite app_nil_r. auto.
  - apply Forall_cons in Hf as [Hr Hf]. cbn [fold_left map concat]. rewrite outcome_bind_Ok.
    destruct (addNewWALRecord_frames (Writer0 := in_mem blank Hblank) blank dbg r l Hi Hr) as (l1 & H1 & Hi1 & Hc1 & Hb1).
    unfold log_record at 2. rewrite H1. rewrite <- Hc1 in Hf |- *.
    destruct (IH l1 Hi1 Hf) as (l2 & H2 & Hi2 & Hc2 & Hb2). exists l2.
    split; [exact H2|]. split; [exact Hi2|]. split; [congruence|].
    rewrite Hb2. cbn in Hb1. rewrite Hb1, Hc1, <- app_assoc. reflexivity.
Qed.

Lemma flush_writes_concat ps off : concat (flush_writes ps off) = InMemFile.flush_pages ps off.
Proof.
  induction ps as [|p ps IH]; [reflexivity|]. destruct ps as [|q ps]; [apply app_nil_r|].
  change (concat (flush_writes (p :: q :: ps) off)) with
    (take KUZU_PAGE_SIZE p ++ concat (flush_writes (q :: ps) off)). rewrite IH. reflexivity.
Qed.

Lemma with_header_ne ec db bs : with_header ec db bs ≠ [].
Proof. destruct bs; [|discriminate]. cbn [with_header]. unfold header_frame, frame. discriminate. Qed.

Lemma header_small ec db :
  length (concat [serializeValue 16 db; serializeBool ec]) ≤ INITIAL_BUFFER_SIZE.
Proof.
  cbn [concat]. rewrite !length_app. unfold serializeBool, serializeValue. rewrite !length_le_bytes.
  cbn [length Nat.add]. apply Nat.leb_le. vm_compute. reflexivity.
Qed.

Lemma wal_bytes_open w l :
  serializer w = Some l → BufferedFile.wbufferOffset (base l) = 0 →
  wal_bytes w = BufferedFile.written (base l).
Proof.
  intros Hs H0. unfold wal_bytes, wal_file, BufferedFile.written. rewrite Hs, H0, take_0. symmetry. apply app_nil_r.
Qed.

Lemma setFileOffset_same (l : BufferedFile.BufferedFileWriter) off :
  off = BufferedFile.wfileOffset l → BufferedFile.setFileOffset off l = l.
Proof. intros ->. destruct l. reflexivity. Qed.

(** Writing an object of at most a page into an empty buffer does not touch the file. *)
Lemma write_small d w :
  BufferedFile.wbufferOffset w + length d ≤ BufferedFile.BUFFER_SIZE →
  BufferedFile.wfileOffset (BufferedFile.write d w) = BufferedFile.wfileOffset w ∧
  BufferedFile.wbufferOffset (BufferedFile.write d w) = BufferedFile.wbufferOffset w + length d ∧
  BufferedFile.wfileInfo (BufferedFile.write d w) = BufferedFile.wfileInfo w.
Proof.
  intros H. unfold BufferedFile.write. rewrite (proj2 (Nat.ltb_ge _ _)) by lia.
  rewrite (proj2 (Nat.leb_le _ _)) by lia. cbn. auto.
Qed.

Lemma writes_small ds w :
  BufferedFile.wbufferOffset w + length (concat ds) ≤ BufferedFile.BUFFER_SIZE →
  BufferedFile.wfileOffset (fold_left (λ w d, BufferedFile.write d w) ds w) = BufferedFile.wfileOffset w.
Proof.
  revert w. induction ds as [|d ds IH]; intros w H; [reflexivity|]. cbn [fold_left concat] in *.
  rewrite length_app in H. destruct (write_small d w) as (H1 & H2 & _); [lia|].
  rewrite IH, H1; [reflexivity|]. rewrite H2. lia.
Qed.

Lemma frame_header_small ec db : length (header_frame ec db) ≤ BufferedFile.BUFFER_SIZE.
Proof.
  unfold header_frame, frame. rewrite !length_app. unfold serializeBool, serializeValue. rewrite !length_le_bytes.
  transitivity 25; [destruct ec; rewrite ?length_le_bytes; cbn; lia|]. apply Nat.leb_le. vm_compute. reflexivity.
Qed.

(** A new writer on an empty file, after [writeHeader]. *)
Lemma open_empty f ec db :
  contents f = [] →
  ∃ l, writeHeader blank db ec (LogWriter_new blank ec (BufferedFile.BufferedFileWriter_new f)) = Ok l ∧
       let l' := on_base (BufferedFile.setFileOffset (getFileSize f)) l in
       idle l' ∧ checksummed l' = ec ∧ BufferedFile.written (base l') = header_frame ec db.
Proof.
  intros Hnil. assert (H0 : getFileSize f = 0) by (unfold getFileSize; rewrite Hnil; reflexivity).
  assert (Ha : BufferedFile.appending (BufferedFile.BufferedFileWriter_new f)).
  { pose proof (BufferedFile.appending_new f) as Ha. rewrite H0 in Ha. exact Ha. }
  destruct (log_object_writes blank [serializeValue 16 db; serializeBool ec]
    (LogWriter_new blank ec (BufferedFile.BufferedFileWriter_new f))) as (l & ds & H1 & Hi & Hc & Hbase & Hds).
  { apply idle_new; [exact Hblank|exact Ha]. } { intros _. apply header_small. }
  rewrite checksummed_new in Hc, Hds. rewrite base_new in Hbase. exists l. split; [exact H1|].
  assert (Hfr : concat ds = header_frame ec db) by (rewrite Hds; unfold header_frame; cbn [concat]; rewrite app_nil_r; reflexivity).
  assert (Hsame : BufferedFile.setFileOffset (getFileSize f) (base l) = base l).
  { apply setFileOffset_same. rewrite H0, Hbase. cbn [wr_write BufferedFile_Writer].
    rewrite writes_small; [reflexivity|]. rewrite Hfr. cbn. apply frame_header_small. }
  cbn zeta. rewrite checksummed_on_base, base_on_base, Hsame.
  split; [apply idle_on_base; [exact Hi|rewrite Hsame; apply Hi]|]. split; [exact Hc|].
  rewrite Hbase. destruct (wr_write_all (Writer0 := BufferedFile_Writer) ds _ Ha) as [_ Hw].
  cbn [wr_bytes wr_write BufferedFile_Writer] in Hw |- *. rewrite Hw, Hfr.
  unfold BufferedFile.written. cbn. rewrite Hnil. reflexivity.
Qed.

(** A new writer at the end of a file that has bytes. *)
Lemma open_nonempty f ec :
  let l := on_base (BufferedFile.setFileOffset (getFileSize f))
             (LogWriter_new blank ec (BufferedFile.BufferedFileWriter_new f)) in
  idle l ∧ checksummed l = ec ∧ BufferedFile.written (base l) = contents f.
Proof.
  cbn zeta. rewrite checksummed_on_base, checksummed_new, base_on_base, base_new, BufferedFile.written_new.
  split; [|split; reflexivity].
  destruct ec; (split; [apply BufferedFile.appending_new|]); [|exact I].
  split; [reflexivity|]. cbn. rewrite Hblank. lia.
Qed.

(** [initWriter] opens the log at its end, with a header if it is empty. *)
Lemma initWriter_opens db w :
  wal_ok w →
  ∃ l, initWriter blank db w = Ok l ∧ idle l ∧ checksummed l = enableChecksums w ∧
       BufferedFile.written (base l) = with_header (enableChecksums w) db (wal_bytes w).
Proof.
  intros Hok. unfold initWriter. destruct (serializer w) as [l|] eqn:Hs.
  - unfold wal_ok in Hok. rewrite Hs in Hok. destruct Hok as (Hi & Hc & H0 & Hne). exists l.
    rewrite (wal_bytes_open w l Hs H0). repeat split; try assumption; try apply Hi.
    unfold BufferedFile.written. rewrite H0, take_0, app_nil_r. destruct (contents _); [contradiction|reflexivity].
  - set (f := default empty_file (file w)).
    replace (wal_bytes w) with (contents f)
      by (unfold wal_bytes, wal_file, f; rewrite Hs; destruct (file w); reflexivity).
    destruct (Nat.eqb_spec (getFileSize f) 0) as [H0|H0]; cbn zeta.
    + assert (Hnil : contents f = []) by (apply nil_length_inv; exact H0). rewrite Hnil.
      destruct (open_empty f (enableChecksums w) db Hnil) as (l & H1 & Hl). rewrite H1, outcome_bind_Ok.
      eexists. split; [reflexivity|exact Hl].
    + rewrite outcome_bind_Ok. eexists. split; [reflexivity|]. unfold getFileSize in H0.
      destruct (open_nonempty f (enableChecksums w)) as (H1 & H2 & H3). rewrite H3.
      split; [exact H1|]. split; [exact H2|]. destruct (contents f); [cbn in H0; lia|reflexivity].
Qed.

(** Flushing and syncing makes what was written the durable contents of the file. *)
Lemma flushAndSync_durable l w bs :
  idle l → checksummed l = enableChecksums w → BufferedFile.written (base l) = bs → bs ≠ [] →
  let w' := set_serializer (flushAndSyncNoLock l) w in
  wal_ok w' ∧ wal_file w' = Some (MkFileInfo bs []).
Proof.
  intros Hi Hc Hb Hne. destruct (BufferedFile.flush_appends (base l) (proj1 Hi)) as (Ha & Hf & H0).
  assert (Hi' : idle (flushAndSyncNoLock l)).
  { unfold flushAndSyncNoLock. apply idle_on_base; [apply idle_on_base; [exact Hi|exact Ha]|].
    rewrite base_on_base. destruct Ha as [A1 A2 A3]. split; [exact A1|exact A2|exact A3]. }
  cbn zeta. unfold wal_ok, wal_file. cbn [serializer set_serializer enableChecksums].
  unfold flushAndSyncNoLock in *. rewrite !checksummed_on_base, !base_on_base in *.
  cbn [BufferedFile.sync BufferedFile.wfileInfo BufferedFile.wbufferOffset].
  rewrite contents_syncFile. unfold syncFile. rewrite Hf, Hb. split; [|reflexivity].
  split; [exact Hi'|]. split; [exact Hc|]. split; [exact H0|exact Hne].
Qed.

(** The frames of a local log with the records [rs]. *)
Lemma local_log rs ec :
  Forall (fits ec) rs →
  ∃ lw, log_records dbg blank Hblank rs (LocalWAL_new blank ec) = Ok lw ∧
        InMemFile.wf (base lw) ∧ local_getSize blank Hblank lw = length (concat (map (record_frame ec) rs)) ∧
        concat (flush_writes (InMemFile.pages (base lw)) (InMemFile.pageOffset (base lw))) =
          concat (map (record_frame ec) rs).
Proof.
  intros Hf. unfold LocalWAL_new.
  destruct (log_records_frames rs (LogWriter_new blank ec InMemFile.InMemFileWriter_new)) as (lw & H1 & Hi & Hc & Hb).
  { apply (@idle_new blank _ (in_mem blank Hblank)); [exact Hblank|apply InMemFile.writer_wf_new]. }
  { rewrite checksummed_new. exact Hf. }
  rewrite checksummed_new in Hc, Hb. rewrite base_new in Hb.
  change (InMemFile.flush InMemFile.InMemFileWriter_new) with (@nil Z) in Hb. cbn [app] in Hb.
  exists lw. split; [exact H1|]. split; [apply Hi|]. rewrite flush_writes_concat.
  change (InMemFile.flush_pages (InMemFile.pages (base lw)) (InMemFile.pageOffset (base lw))) with (InMemFile.flush (base lw)).
  split; [|exact Hb]. rewrite <- Hb. destruct Hi as [Hwf Hi].
  rewrite (proj1 (InMemFile.flush_length (base lw) Hwf)). unfold local_getSize, log_getSize.
  destruct lw as [m|c]; cbn [base] in *; [reflexivity|]. destruct Hi as [-> _]. reflexivity.
Qed.

Lemma record_frames_ne ec rs : rs ≠ [] → concat (map (record_frame ec) rs) ≠ [].
Proof.
  intros Hne Heq. destruct rs as [|r rs]; [contradiction|]. cbn [map concat] in Heq.
  apply app_eq_nil in Heq as [Heq _]. unfold record_frame, frame in Heq. apply app_eq_nil in Heq as [Heq _].
  pose proof (record_nonempty dbg r) as Hr. rewrite Heq in Hr. cbn in Hr. lia.
Qed.

Lemma commit_appends db w rs :
  wal_ok w → readOnly w = false → inMemory w = false → rs ≠ [] → Forall (fits (enableChecksums w)) rs →
  ∃ lw w', log_records dbg blank Hblank rs (LocalWAL_new blank (enableChecksums w)) = Ok lw ∧
    logCommittedWAL blank Hblank db lw w = (Ok tt, w') ∧ wal_ok w' ∧
    enableChecksums w' = enableChecksums w ∧ readOnly w' = false ∧ inMemory w' = false ∧
    wal_file w' = Some (MkFileInfo
      (with_header (enableChecksums w) db (wal_bytes w) ++ concat (map (record_frame (enableChecksums w)) rs)) []).
Proof.
  intros Hok Hro Him Hne Hfit. destruct (local_log rs (enableChecksums w) Hfit) as (lw & Hlog & Hwf & Hsz & Hfl).
  exists lw. unfold logCommittedWAL. rewrite Hro, Him. cbn [orb].
  pose proof (record_frames_ne (enableChecksums w) rs Hne) as Hfne.
  replace (local_getSize blank Hblank lw =? 0) with false.
  2:{ symmetry. apply Nat.eqb_neq. rewrite Hsz. intros H. apply nil_length_inv in H. contradiction. }
  destruct (initWriter_opens db w Hok) as (l & Hl & Hi & Hc & Hb). rewrite Hl. eexists. split; [exact Hlog|].
  split; [reflexivity|]. rewrite (log_write_through blank _ l Hi).
  destruct (wr_write_all (flush_writes (InMemFile.pages (base lw)) (InMemFile.pageOffset (base lw)))
              (base l) (proj1 Hi)) as [Hw1 Hw2].
  destruct (flushAndSync_durable (on_base (fold_left (λ w d, wr_write d w)
      (flush_writes (InMemFile.pages (base lw)) (InMemFile.pageOffset (base lw)))) l) w
      (with_header (enableChecksums w) db (wal_bytes w) ++ concat (map (record_frame (enableChecksums w)) rs))) as [H1 H2].
  - apply idle_on_base; [exact Hi|exact Hw1].
  - rewrite checksummed_on_base. exact Hc.
  - rewrite base_on_base. cbn [wr_bytes BufferedFile_Writer] in Hw2. rewrite Hw2, Hb, Hfl. reflexivity.
  - intros H. apply app_eq_nil in H as [_ H]. contradiction.
  - split; [exact H1|]. auto.
Qed.

Lemma checkpoint_record_small : length (record_bytes dbg (CheckpointRecord : WALRecord C P V)) ≤ INITIAL_BUFFER_SIZE.
Proof. apply Nat.leb_le. destruct dbg; vm_compute; reflexivity. Qed.

Lemma checkpoint_appends db w :
  wal_ok w → inMemory w = false →
  ∃ w', logAndFlushCheckpoint (C := C) (P := P) (V := V) dbg blank db w = (Ok tt, w') ∧ wal_ok w' ∧
    enableChecksums w' = enableChecksums w ∧
    wal_file w' = Some (MkFileInfo
      (with_header (enableChecksums w) db (wal_bytes w) ++
       record_frame (enableChecksums w) CheckpointRecord) []).
Proof.
  intros Hok Him. unfold logAndFlushCheckpoint.
  destruct (initWriter_opens db w Hok) as (l & Hl & Hi & Hc & Hb). rewrite Hl, Him.
  destruct (addNewWALRecord_frames blank dbg (CheckpointRecord : WALRecord C P V) l Hi) as (l' & H1 & Hi' & Hc' & Hb').
  { intros _. apply checkpoint_record_small. }
  rewrite H1. eexists. split; [reflexivity|]. rewrite Hc in Hb', Hc'.
  destruct (flushAndSync_durable l' w _ Hi' Hc' eq_refl) as [H2 H3].
  - cbn [wr_bytes BufferedFile_Writer] in Hb'. rewrite Hb', Hb. intros H. apply app_eq_nil in H as [H _].
    exact (with_header_ne _ _ _ H).
  - split; [exact H2|]. split; [reflexivity|]. rewrite H3. cbn [wr_bytes BufferedFile_Writer] in Hb'.
    rewrite Hb', Hb. reflexivity.
Qed.

End LogLemmas.

End WalWriter.
