(* ===== verification/WalReplay.v ===== *)
(** * Reading the write-ahead log back

    storage/wal/checksum_reader.{h,cpp} and the parts of storage/wal/wal_replayer.{h,cpp} that read:
    the dry run that finds the last committed record and the loop that replays records into an engine.
    The theorems say that, after any crash that leaves a prefix of what was written, the dry run
    stops exactly after the last commit, and that the records up to there are replayed, in order. *)

From stdpp Require Import base numbers list strings.
From Stdlib Require Import ZArith Lia.
From S2P Require Import Prelude Serializer InMemFile BufferedFile WalRecord WalWriter.
Import Serializer FileInfo BufferedFile Wal WalWriter.

Module WalReplay.

(** ** ChecksumReader *)

Record ChecksumReader := MkChecksumReader {
  deserializer : BufferedFileReader;
  readEntrySize : option nat;
  readBuffer : list Z;
}.

(** The reader the replayer uses: [BufferedFileReader] or [ChecksumReader]. *)
Inductive LogReader : Type :=
  | PlainReader (r : BufferedFileReader)
  | ChecksummedReader (c : ChecksumReader).

Definition checksum_mismatch : exn :=
  StorageException "Checksum verification failed, the WAL file is corrupted.".

Section Reader.
Context (checked : bool) (junk blank : nat → list Z).

Definition on_deserializer {A} (m : M BufferedFileReader A) : M ChecksumReader A := λ c,
  let '(o, r) := m (deserializer c) in (o, MkChecksumReader r (readEntrySize c) (readBuffer c)).

(** [ChecksumReader::read] *)
Definition checksum_read (size : nat) : M ChecksumReader (list Z) :=
  data ← on_deserializer (reader_read checked junk size);
  modify (λ c,
    match readEntrySize c with
    | Some n =>
        let buffer := resizeBufferIfNeeded blank (readBuffer c) (n + size) in
        MkChecksumReader (deserializer c) (Some (n + size)) (memcpy n data buffer)
    | None => c
    end) ;;
  mret data.

(** [ChecksumReader::onObjectBegin], [onObjectEnd] *)
Definition checksum_begin : M ChecksumReader unit :=
  modify (λ c, MkChecksumReader (deserializer c) (Some 0) (readBuffer c)).
Definition checksum_end : M ChecksumReader unit :=
  c ← get_state;
  match readEntrySize c with
  | None => raise assert_failure
  | Some n =>
      let computedChecksum := Checksum.checksum (take n (readBuffer c)) in
      storedChecksum ← on_deserializer (reader_read checked junk 8);
      if negb (le_value storedChecksum =? computedChecksum)%Z then raise checksum_mismatch
      else modify (λ c, MkChecksumReader (deserializer c) None (readBuffer c))
  end.

(** The virtual calls on the log's reader. *)
Definition on_plain {A} (m : M BufferedFileReader A) (r : BufferedFileReader) : outcome A * LogReader :=
  let '(o, r') := m r in (o, PlainReader r').
Definition on_checksummed {A} (m : M ChecksumReader A) (c : ChecksumReader) : outcome A * LogReader :=
  let '(o, c') := m c in (o, ChecksummedReader c').

Definition log_read (size : nat) : M LogReader (list Z) := λ l,
  match l with
  | PlainReader r => on_plain (reader_read checked junk size) r
  | ChecksummedReader c => on_checksummed (checksum_read size) c
  end.
Definition log_begin : M LogReader unit := λ l,
  match l with
  | PlainReader r => (Ok tt, PlainReader r)
  | ChecksummedReader c => on_checksummed checksum_begin c
  end.
Definition log_end : M LogReader unit := λ l,
  match l with
  | PlainReader r => (Ok tt, PlainReader r)
  | ChecksummedReader c => on_checksummed checksum_end c
  end.
Definition file_reader (l : LogReader) : BufferedFileReader :=
  match l with PlainReader r => r | ChecksummedReader c => deserializer c end.
Definition log_finished (l : LogReader) : bool := reader_finished (file_reader l).
(** [getReadOffset] of wal_replayer.cpp. *)
Definition getReadOffset (l : LogReader) : nat := reader_getReadOffset (file_reader l).

(** [initDeserializer] *)
Definition initDeserializer (enableChecksums : bool) (c : list Z) : outcome LogReader :=
  r ← BufferedFileReader_new checked junk c;
  Ok (if enableChecksums then ChecksummedReader (MkChecksumReader r None (blank INITIAL_BUFFER_SIZE))
      else PlainReader r).

(** Reading one object between [onObjectBegin] and [onObjectEnd]; [check] runs before the end. *)
Definition read_object {A} (p : reading A) (check : A → outcome unit) : M LogReader A :=
  log_begin ;;
  a ← run log_read p;
  observe (λ _, check a) ;;
  log_end ;;
  mret a.

(** ** The dry run *)

(** [readWALHeader] *)
Definition readWALHeader : reading (Z * bool) :=
  databaseID ← r_value 16;
  enableChecksumsBytes ← r_value 1;
  mret (databaseID, negb (enableChecksumsBytes =? 0)%Z).

Definition config_mismatch : exn := RuntimeException
  "The database you are trying to open was serialized with a different enableChecksums.".

(** [checkWALHeader] *)
Definition checkWALHeader (enableChecksums : bool) (header : Z * bool) : outcome unit :=
  if eqb enableChecksums header.2 then Ok tt else Throw config_mismatch.

Context (dbg : bool) {C P V : Type} `{!Persisted C} `{!Persisted P} `{!Persisted V}.

(** [WALRecord::deserialize] *)
Definition read_record : M LogReader (WALRecord C P V) := read_object (deserialize dbg) (λ _, Ok tt).

Definition out_of_fuel : exn := UndefinedBehaviour "no more rounds".

(** The loop of [WALReplayer::dryReplay]; what it has found survives an exception. *)
Fixpoint dry_loop (fuel : nat) (l : LogReader) (finishedDeserializing : bool) (info : nat * bool) :
    outcome unit * (nat * bool) :=
  if finishedDeserializing then (Ok tt, info)
  else
    match fuel with
    | 0 => (Throw out_of_fuel, info)
    | S fuel' =>
        match read_record l with
        | (Throw e, _) => (Throw e, info)
        | (Ok walRecord, l') =>
            let finished := log_finished l' in
            match walRecord with
            | CheckpointRecord =>
                if checked && negb finished then (Throw assert_failure, info)
                else dry_loop fuel' l' true (getReadOffset l', true)
            | CommitRecord => dry_loop fuel' l' finished (getReadOffset l', info.2)
            | _ => dry_loop fuel' l' finished info
            end
        end
    end.

(** [WALReplayer::dryReplay]: the offset after the last commit, and whether the log ends with a
    checkpoint. Each record has at least one byte, so as many rounds as bytes do. *)
Definition dryReplay (throwOnWalReplayFailure enableChecksums : bool) (c : list Z) :
    outcome (nat * bool) :=
  let '(o, info) :=
    match initDeserializer enableChecksums c with
    | Throw e => (Throw e, (0, false))
    | Ok l =>
        match read_object readWALHeader (checkWALHeader enableChecksums) l with
        | (Throw e, _) => (Throw e, (0, false))
        | (Ok _, l) => dry_loop (S (length c)) l (log_finished l) (0, false)
        end
    end in
  match o with
  | Ok _ => Ok info
  | Throw e => if throwOnWalReplayFailure || negb (catchable e) then Throw e else Ok info
  end.
End Reader.

(** ** Checksums are 64-bit values *)

Lemma lxor_u64 a b : is_u64 a → is_u64 b → is_u64 (Z.lxor a b).
Proof.
  intros [Ha1 Ha2] [Hb1 Hb2]. assert (H0 : (0 ≤ Z.lxor a b)%Z) by (apply Z.lxor_nonneg; tauto).
  split; [exact H0|]. destruct (Z.eq_dec (Z.lxor a b) 0) as [->|Hne]; [lia|].
  apply Z.log2_lt_pow2; [lia|]. eapply Z.le_lt_trans; [apply Z.log2_lxor; lia|].
  apply Z.max_lub_lt.
  - destruct (Z.eq_dec a 0) as [->|Hn]; [cbn; lia|]. apply Z.log2_lt_pow2; lia.
  - destruct (Z.eq_dec b 0) as [->|Hn]; [cbn; lia|]. apply Z.log2_lt_pow2; lia.
Qed.

Lemma mul64_u64 a b : is_u64 (Checksum.mul64 a b).
Proof. apply Z.mod_pos_bound. lia. Qed.

Lemma shiftr_u64 a n : (0 ≤ n)%Z → is_u64 a → is_u64 (Z.shiftr a n).
Proof.
  intros Hn [H1 H2]. rewrite Z.shiftr_div_pow2 by exact Hn. assert (0 < 2 ^ n)%Z by (apply Z.pow_pos_nonneg; lia).
  split; [apply Z.div_pos; lia|]. apply Z.div_lt_upper_bound; [lia|]. nia.
Qed.

Lemma checksumRemainder_u64 bs : is_u64 (Checksum.checksumRemainder bs).
Proof. unfold Checksum.checksumRemainder. cbn zeta. apply lxor_u64; [|apply shiftr_u64; [unfold Checksum.R; lia|]]; apply mul64_u64. Qed.

Lemma checksum_words_u64 n bs h : is_u64 h → is_u64 (Checksum.checksum_words n bs h).
Proof.
  revert bs h. induction n as [|n IH]; intros bs h Hh; cbn [Checksum.checksum_words]; [exact Hh|].
  apply IH, lxor_u64; [exact Hh|apply mul64_u64].
Qed.

Lemma checksum_u64 bs : is_u64 (Checksum.checksum bs).
Proof.
  unfold Checksum.checksum. cbn zeta. assert (H : is_u64 5381) by (unfold is_u64; lia).
  destruct (0 <? _); [apply lxor_u64; [|apply checksumRemainder_u64]|]; apply checksum_words_u64, H.
Qed.

(** ** Programs over a reader *)

Section Programs.
Context {R : Type} (rd : nat → M R (list Z)) (c : list Z) (I : nat → R → Prop) (L : nat).
(** Reads up to [L] are the bytes of the file. *)
Context (HL : L ≤ length c).
Context (Hrd : ∀ o n r, I o r → o + n ≤ L → ∃ r', rd n r = (Ok (slice o n c), r') ∧ I (o + n) r').

Lemma run_parsed {A} (p : reading A) o m a rest r :
  I o r → o + m ≤ L → parse p (slice o m c) = Parsed a rest →
  length rest ≤ m ∧ ∃ r', run rd p r = (Ok a, r') ∧ I (o + (m - length rest)) r'.
Proof.
  revert o m r. induction p as [b|e|n k IH]; intros o m r Hi Hm Hp; cbn [parse] in Hp.
  - injection Hp as <- <-. rewrite length_slice by lia. split; [lia|]. exists r.
    rewrite Nat.sub_diag, Nat.add_0_r. split; [reflexivity|exact Hi].
  - discriminate.
  - rewrite length_slice in Hp by lia. destruct (Nat.leb_spec n m) as [Hn|Hn]; [|discriminate].
    destruct (Hrd o n r Hi ltac:(lia)) as (r1 & Hr1 & Hi1).
    rewrite slice_take in Hp by exact Hn. rewrite slice_drop in Hp.
    destruct (IH (slice o n c) (o + n) (m - n) r1 Hi1 ltac:(lia) Hp) as (Hlen & r2 & Hr2 & Hi2). split; [lia|].
    exists r2. cbn [run]. rewrite Hr1. split; [exact Hr2|].
    replace (o + (m - length rest)) with (o + n + (m - n - length rest)) by lia. exact Hi2.
Qed.

Lemma run_decodes {A} (p : reading A) o bs a r :
  I o r → decodes (stream p) bs a → slice o (length bs) c = bs → o + length bs ≤ L →
  ∃ r', run rd p r = (Ok a, r') ∧ I (o + length bs) r'.
Proof.
  intros Hi Hd Hs Hl. specialize (Hd []). rewrite app_nil_r in Hd. apply stream_parse in Hd.
  destruct (run_parsed p o (length bs) a [] r Hi Hl) as (_ & r' & Hr & Hi'); [rewrite Hs; exact Hd|].
  exists r'. cbn [length] in Hi'. rewrite Nat.sub_0_r in Hi'. split; assumption.
Qed.

(** Where reads past the end are refused, a program that starves is. *)
Context (Hend : ∀ o n r, I o r → L < o + n → ∃ e r', rd n r = (Throw e, r') ∧ catchable e = true).

Lemma run_starved {A} (p : reading A) o m r :
  I o r → o + m = L → parse p (slice o m c) = Starved →
  ∃ e r', run rd p r = (Throw e, r') ∧ catchable e = true.
Proof.
  revert o m r. induction p as [b|e|n k IH]; intros o m r Hi Hm Hp; cbn [parse] in Hp; [discriminate..|].
  rewrite length_slice in Hp by lia. cbn [run]. destruct (Nat.leb_spec n m) as [Hn|Hn].
  - destruct (Hrd o n r Hi ltac:(lia)) as (r1 & Hr1 & Hi1). rewrite Hr1.
    rewrite slice_take in Hp by exact Hn. rewrite slice_drop in Hp.
    apply (IH _ (o + n) (m - n) r1 Hi1); [lia|exact Hp].
  - destruct (Hend o n r Hi ltac:(lia)) as (e & r1 & Hr1 & He). rewrite Hr1. eauto.
Qed.
End Programs.

(** ** Objects of a log *)

Section Objects.
Context (checked : bool) (junk blank : nat → list Z) (junk0 : junk 0 = []).
Context (Hblank : ∀ n, length (blank n) = n).
(** The file, whether checksums are on, and whether the end of the file is known to be buffered. *)
Context (c : list Z) (ec ended : bool).

Definition base_at (o : nat) (r : BufferedFileReader) : Prop :=
  at_offset c o r ∧ (ended = true → rfileOffset r = length c).

(** The reader stands between objects, at offset [o]. *)
Definition reader_at (o : nat) (l : LogReader) : Prop :=
  match l with
  | PlainReader r => ec = false ∧ base_at o r
  | ChecksummedReader cr =>
      ec = true ∧ base_at o (deserializer cr) ∧ INITIAL_BUFFER_SIZE ≤ length (readBuffer cr)
  end.

(** The reader stands at offset [o] in an object that began at [o0]. *)
Definition in_object (o0 o : nat) (l : LogReader) : Prop :=
  reader_at o l ∧ o0 ≤ o ∧
  match l with
  | PlainReader _ => True
  | ChecksummedReader cr =>
      readEntrySize cr = Some (o - o0) ∧ take (o - o0) (readBuffer cr) = slice o0 (o - o0) c
  end.

(** Objects have at most a page when there are checksums. *)
Definition object_limit (o0 : nat) : nat :=
  if ec then Nat.min (length c) (o0 + INITIAL_BUFFER_SIZE) else length c.

Lemma base_read o n r :
  base_at o r → o + n ≤ length c →
  ∃ r', reader_read checked junk n r = (Ok (slice o n c), r') ∧ base_at (o + n) r'.
Proof.
  intros [Ha He] Hn. destruct (read_in_range checked junk junk0 c o n r Ha Hn) as (r' & Hr & Ha' & He').
  exists r'. split; [exact Hr|]. split; [exact Ha'|]. auto.
Qed.

Lemma take_snoc_slice (b : list Z) o0 o n :
  o0 ≤ o → o + n ≤ length c → o + n - o0 ≤ length b → take (o - o0) b = slice o0 (o - o0) c →
  take (o + n - o0) (memcpy (o - o0) (slice o n c) b) = slice o0 (o + n - o0) c.
Proof.
  intros Ho Hn Hb Ht. replace (o + n - o0) with (o - o0 + length (slice o n c)) by (rewrite length_slice; lia).
  rewrite take_memcpy, Ht by lia. rewrite length_slice by exact Hn. rewrite slice_split.
  f_equal. f_equal. lia.
Qed.

Lemma object_read_in o0 o n l :
  in_object o0 o l → o + n ≤ object_limit o0 →
  ∃ l', log_read checked junk blank n l = (Ok (slice o n c), l') ∧ in_object o0 (o + n) l'.
Proof.
  intros (Hat & Ho & Hent) Hn. unfold object_limit in Hn. destruct l as [r|cr].
  - destruct Hat as [Hec Hb]. rewrite Hec in Hn. destruct (base_read o n r Hb Hn) as (r' & Hr & Hb').
    exists (PlainReader r'). unfold log_read, on_plain. rewrite Hr. split; [reflexivity|].
    split; [split; [exact Hec|exact Hb']|split; [lia|exact I]].
  - destruct Hat as (Hec & Hb & Hlen). rewrite Hec in Hn. destruct Hent as [Hsz Ht].
    destruct (base_read o n _ Hb ltac:(lia)) as (r' & Hr & Hb').
    unfold log_read, on_checksummed, checksum_read, on_deserializer. unfold_M. rewrite Hr, Hsz.
    cbn [deserializer readEntrySize readBuffer]. eexists. split; [reflexivity|].
    unfold resizeBufferIfNeeded. rewrite (proj2 (Nat.ltb_ge _ _)) by lia.
    assert (Hlm : length (memcpy (o - o0) (slice o n c) (readBuffer cr)) = length (readBuffer cr)).
    { apply length_memcpy. rewrite length_slice; lia. }
    split; [|split; [lia|]].
    + cbn [reader_at deserializer readBuffer]. rewrite Hlm. auto.
    + cbn [readEntrySize readBuffer]. split; [f_equal; lia|]. apply take_snoc_slice; [lia..|exact Ht].
Qed.

Lemma object_begin o l :
  reader_at o l → ∃ l', log_begin l = (Ok tt, l') ∧ in_object o o l'.
Proof.
  intros Hat. destruct l as [r|cr]; (eexists; split; [reflexivity|]); (split; [exact Hat|split; [lia|]]); [exact I|].
  cbn [readEntrySize readBuffer]. rewrite Nat.sub_diag. split; reflexivity.
Qed.

(** The checksum after the object is the one of its bytes. *)
Lemma object_end o0 bs l :
  in_object o0 (o0 + length bs) l → slice o0 (length (frame ec bs)) c = frame ec bs →
  o0 + length (frame ec bs) ≤ length c →
  ∃ l', log_end checked junk l = (Ok tt, l') ∧ reader_at (o0 + length (frame ec bs)) l'.
Proof.
  intros (Hat & _ & Hent) Hs Hlen. unfold frame in *. rewrite length_app in *. destruct l as [r|cr].
  - destruct Hat as [Hec Hb]. exists (PlainReader r). rewrite Hec. cbn [length]. rewrite Nat.add_0_r.
    split; [reflexivity|]. split; [exact Hec|exact Hb].
  - destruct Hat as (Hec & Hb & Hlb). rewrite Hec in Hs, Hlen |- *. destruct Hent as [Hsz Ht].
    replace (o0 + length bs - o0) with (length bs) in * by lia.
    assert (H8 : length (serializeValue 8 (Checksum.checksum bs)) = 8) by apply length_le_bytes.
    rewrite H8 in *. rewrite slice_split in Hs.
    apply app_inj_1 in Hs as [Hs1 Hs2]; [|rewrite length_slice; lia].
    destruct (base_read _ 8 _ Hb ltac:(lia)) as (r' & Hr & Hb').
    unfold log_end, on_checksummed, checksum_end, on_deserializer. unfold_M. rewrite Hsz. unfold_M.
    rewrite Hr, Hs2, Ht, Hs1. unfold serializeValue. rewrite le_value_bytes by apply checksum_u64.
    rewrite Z.eqb_refl. eexists. split; [reflexivity|].
    split; [exact Hec|]. rewrite Nat.add_assoc. split; [exact Hb'|exact Hlb].
Qed.

(** The bytes of an object that is in the file whole are read back. *)
Lemma object_bytes {A} (p : reading A) o bs a l :
  reader_at o l → decodes (stream p) bs a → (ec = true → length bs ≤ INITIAL_BUFFER_SIZE) →
  slice o (length (frame ec bs)) c = frame ec bs → o + length (frame ec bs) ≤ length c →
  ∃ l', (log_begin ;; run (log_read checked junk blank) p) l = (Ok a, l') ∧ in_object o (o + length bs) l'.
Proof.
  intros Hat Hd Hsm Hs Hlen. destruct (object_begin o l Hat) as (l1 & H1 & Hin).
  assert (Hfl : length bs ≤ length (frame ec bs)) by (unfold frame; rewrite length_app; lia).
  destruct (run_decodes (log_read checked junk blank) c (in_object o) (object_limit o)) with (p := p) (o := o) (bs := bs) (a := a) (r := l1)
    as (l2 & H2 & Hin2); try assumption.
  - unfold object_limit. destruct ec; lia.
  - intros o1 n r Hi Hn. apply object_read_in; assumption.
  - rewrite <- (slice_take o (length bs) _ c Hfl), Hs. unfold frame. apply take_app_length.
  - unfold object_limit. destruct ec; [specialize (Hsm eq_refl)|]; lia.
  - exists l2. rewrite (M_bind_ok _ _ _ _ _ H1). split; assumption.
Qed.

(** An object that is in the file whole is read back. *)
Lemma object_whole {A} (p : reading A) check o bs a l :
  reader_at o l → decodes (stream p) bs a → check a = Ok tt →
  (ec = true → length bs ≤ INITIAL_BUFFER_SIZE) →
  slice o (length (frame ec bs)) c = frame ec bs → o + length (frame ec bs) ≤ length c →
  ∃ l', read_object checked junk blank p check l = (Ok a, l') ∧ reader_at (o + length (frame ec bs)) l'.
Proof.
  intros Hat Hd Hc Hsm Hs Hlen. destruct (object_bytes p o bs a l Hat Hd Hsm Hs Hlen) as (l2 & H2 & Hin2).
  destruct (object_end o bs l2 Hin2 Hs Hlen) as (l3 & H3 & Hat3). exists l3. split; [|exact Hat3].
  unfold read_object. rewrite <- M_bind_assoc, (M_bind_ok _ _ _ _ _ H2).
  rewrite (M_bind_ok (observe (λ _ : LogReader, check a)) _ l2 tt l2) by (unfold observe; rewrite Hc; reflexivity).
  rewrite (M_bind_ok _ _ _ _ _ H3). reflexivity.
Qed.

(** *** Torn objects *)

Section Torn.
Context (Hchecked : checked = true) (Hended : ended = true).

Lemma base_past_end o n r :
  base_at o r → length c < o + n →
  ∃ e r', reader_read checked junk n r = (Throw e, r') ∧ catchable e = true.
Proof. intros [Ha He] Hn. apply (read_past_end checked junk c o n r Hchecked Ha (He Hended) Hn). Qed.

Lemma object_past_end o0 o n l :
  in_object o0 o l → length c < o + n →
  ∃ e l', log_read checked junk blank n l = (Throw e, l') ∧ catchable e = true.
Proof.
  intros (Hat & _ & _) Hn. destruct l as [r|cr].
  - destruct (base_past_end o n r (proj2 Hat) Hn) as (e & r' & Hr & He).
    unfold log_read, on_plain. rewrite Hr. eauto.
  - destruct (base_past_end o n _ (proj1 (proj2 Hat)) Hn) as (e & r' & Hr & He).
    unfold log_read, on_checksummed, checksum_read, on_deserializer. unfold_M. rewrite Hr. eauto.
Qed.

Lemma object_end_past o0 o l :
  ec = true → in_object o0 o l → length c < o + 8 →
  ∃ e l', log_end checked junk l = (Throw e, l') ∧ catchable e = true.
Proof.
  intros Hec (Hat & _ & Hent) Hn. destruct l as [r|cr]; [destruct Hat as [Hec' _]; congruence|].
  destruct (base_past_end o 8 _ (proj1 (proj2 Hat)) Hn) as (e & r' & Hr & He).
  unfold log_end, on_checksummed, checksum_end, on_deserializer. unfold_M. rewrite (proj1 Hent). unfold_M.
  rewrite Hr. eauto.
Qed.

(** The file breaks off in the bytes of an object. *)
Lemma torn_body {A} (p : reading A) check o bs a l x :
  reader_at o l → decodes (stream p) bs a → (ec = true → length bs ≤ INITIAL_BUFFER_SIZE) →
  o ≤ length c → bs = drop o c ++ x → x ≠ [] →
  ∃ e l', read_object checked junk blank p check l = (Throw e, l') ∧ catchable e = true.
Proof.
  intros Hat Hd Hsm Ho Hb Hx. destruct (object_begin o l Hat) as (l1 & H1 & Hin).
  assert (Hlen : length bs = length c - o + length x) by (rewrite Hb, length_app, length_drop; reflexivity).
  destruct (run_starved (log_read checked junk blank) c (in_object o) (length c)) with (p := p) (o := o) (m := length c - o) (r := l1)
    as (e & l2 & H2 & He); try assumption; try lia.
  - intros o1 n r Hi Hn. apply object_read_in; [exact Hi|]. unfold object_limit.
    destruct ec; [specialize (Hsm eq_refl)|]; lia.
  - intros o1 n r Hi Hn. apply (object_past_end o o1 n r Hi Hn).
  - replace (slice o (length c - o) c) with (drop o c)
      by (unfold slice; symmetry; apply take_ge; rewrite length_drop; lia).
    exact (decodes_prefix_starves p bs a (drop o c) x Hd Hb Hx).
  - exists e, l2. unfold read_object. rewrite (M_bind_ok _ _ _ _ _ H1), (M_bind_throw _ _ _ _ _ H2). auto.
Qed.

(** The file breaks off in the checksum of an object. *)
Lemma torn_checksum {A} (p : reading A) check o bs a l :
  ec = true → reader_at o l → decodes (stream p) bs a → (∀ e, check a = Throw e → catchable e = true) →
  length bs ≤ INITIAL_BUFFER_SIZE → slice o (length bs) c = bs →
  o + length bs ≤ length c < o + length bs + 8 →
  ∃ e l', read_object checked junk blank p check l = (Throw e, l') ∧ catchable e = true.
Proof.
  intros Hec Hat Hd Hck Hsm Hs Hl. destruct (object_begin o l Hat) as (l1 & H1 & Hin).
  destruct (run_decodes (log_read checked junk blank) c (in_object o) (object_limit o)) with (p := p) (o := o) (bs := bs) (a := a) (r := l1)
    as (l2 & H2 & Hin2); try assumption.
  - unfold object_limit. destruct ec; lia.
  - intros o1 n r Hi Hn. apply object_read_in; assumption.
  - unfold object_limit. rewrite Hec. lia.
  - unfold read_object. rewrite (M_bind_ok _ _ _ _ _ H1), (M_bind_ok _ _ _ _ _ H2).
    destruct (check a) as [[]|e] eqn:Hca.
    + rewrite (M_bind_ok (observe (λ _ : LogReader, Ok tt)) _ l2 tt l2) by reflexivity.
      destruct (object_end_past o _ l2 Hec Hin2 (proj2 Hl)) as (e & l3 & H3 & He).
      rewrite (M_bind_throw _ _ _ _ _ H3). eauto.
    + rewrite (M_bind_throw (observe (λ _ : LogReader, Throw e)) _ l2 e l2) by reflexivity. eauto.
Qed.

(** An object the file breaks off in is refused. *)
Lemma object_torn {A} (p : reading A) check o bs a l x :
  reader_at o l → decodes (stream p) bs a → (∀ e, check a = Throw e → catchable e = true) →
  (ec = true → length bs ≤ INITIAL_BUFFER_SIZE) →
  o ≤ length c → frame ec bs = drop o c ++ x → x ≠ [] →
  ∃ e l', read_object checked junk blank p check l = (Throw e, l') ∧ catchable e = true.
Proof.
  intros Hat Hd Hck Hsm Ho Hfr Hx. pose proof (f_equal length Hfr) as Hlen.
  unfold frame in Hfr, Hlen. rewrite !length_app, length_drop in Hlen.
  assert (Hxl : 0 < length x) by (destruct x; [contradiction|cbn; lia]).
  destruct (Nat.lt_ge_cases (length c - o) (length bs)) as [Hlt|Hge].
  - apply (torn_body p check o bs a l (drop (length c - o) bs)); try assumption.
    + rewrite <- (take_drop (length c - o) bs) at 1. f_equal. apply (f_equal (take (length c - o))) in Hfr.
      rewrite take_app_le in Hfr by lia. rewrite Hfr. apply take_app_length'. symmetry. apply length_drop.
    + intros Hnil. apply (f_equal length) in Hnil. rewrite length_drop in Hnil. cbn in Hnil. lia.
  - destruct ec eqn:Hec; [|cbn in Hlen; lia].
    unfold serializeValue in Hlen. rewrite length_le_bytes in Hlen.
    apply (torn_checksum p check o bs a l); try assumption; [apply Hsm; reflexivity| |lia].
    apply (f_equal (take (length bs))) in Hfr. rewrite take_app_length, take_app_le in Hfr by (rewrite length_drop; lia).
    symmetry. exact Hfr.
Qed.
End Torn.
End Objects.

(** ** What the dry run finds *)

Section DryRun.
Context (checked : bool) (junk blank : nat → list Z) (junk0 : junk 0 = []).
Context (Hblank : ∀ n, length (blank n) = n).
Context (dbg : bool) {C P V : Type} `{!Persisted C} `{!Persisted P} `{!Persisted V}.
Context (ec : bool) (db : Z) (Hdb : u128 db).
Implicit Types (rs : list (WALRecord C P V)) (c : list Z).

Definition frames rs : list Z := concat (map (record_frame dbg ec) rs).

(** Records a log can hold: their bytes read back, and fit the checksum buffer. *)
Definition loggable (r : WALRecord C P V) : Prop := valid r ∧ fits dbg ec r.

Definition is_commit (r : WALRecord C P V) : bool := match r with CommitRecord => true | _ => false end.
Definition is_checkpoint (r : WALRecord C P V) : bool := match r with CheckpointRecord => true | _ => false end.

(** The records up to the last commit. *)
Fixpoint committed rs : list (WALRecord C P V) :=
  match rs with
  | [] => []
  | r :: rs' =>
      match committed rs' with
      | [] => if is_commit r then [r] else []
      | l => r :: l
      end
  end.

(** The offset after the last commit, [acc] when there is none. *)
Definition commit_offset (acc o : nat) rs : nat :=
  match committed rs with [] => acc | l => o + length (frames l) end.

Lemma commit_offset_cons acc o r rs :
  commit_offset acc o (r :: rs) =
    commit_offset (if is_commit r then o + length (record_frame dbg ec r) else acc)
      (o + length (record_frame dbg ec r)) rs.
Proof.
  unfold commit_offset. cbn [committed]. destruct (committed rs) as [|r' l].
  - destruct (is_commit r); [|reflexivity]. unfold frames. cbn. rewrite app_nil_r. reflexivity.
  - unfold frames. cbn [map concat]. rewrite length_app. lia.
Qed.

Lemma log_finished_at c ended o l : reader_at c ec ended o l → log_finished l = (length c <=? o).
Proof. destruct l as [r|cr]; intros Ha; [destruct Ha as [_ [Ha _]]|destruct Ha as [_ [[Ha _] _]]]; apply (finished_at c o _ Ha). Qed.

Lemma getReadOffset_reader c ended o l : reader_at c ec ended o l → getReadOffset l = o.
Proof. destruct l as [r|cr]; intros Ha; [destruct Ha as [_ [Ha _]]|destruct Ha as [_ [[Ha _] _]]]; apply (getReadOffset_at c o _ Ha). Qed.

Lemma read_record_whole c ended o l r :
  reader_at c ec ended o l → loggable r →
  slice o (length (record_frame dbg ec r)) c = record_frame dbg ec r →
  o + length (record_frame dbg ec r) ≤ length c →
  ∃ l', read_record checked junk blank dbg l = (Ok r, l') ∧ reader_at c ec ended (o + length (record_frame dbg ec r)) l'.
Proof.
  intros Hat [Hv Hf] Hs Hl. unfold read_record, record_frame in *.
  apply object_whole; try assumption; [apply decodes_record, Hv|reflexivity].
Qed.

Lemma frame_pos (r : WALRecord C P V) : 0 < length (record_frame dbg ec r).
Proof. unfold record_frame, frame. rewrite length_app. pose proof (record_nonempty dbg r). lia. Qed.

#[local] Abbreviation the_loop := (dry_loop (C := C) (P := P) (V := V) checked junk blank dbg).
#[local] Abbreviation the_dry_run := (dryReplay (C := C) (P := P) (V := V) checked junk blank dbg).

(** The loop runs over records that are there whole. *)
Lemma dry_loop_records c ended rs o l fuel acc :
  reader_at c ec ended o l → Forall loggable rs → Forall (λ r, is_checkpoint r = false) rs →
  slice o (length (frames rs)) c = frames rs → o + length (frames rs) ≤ length c → length rs ≤ fuel →
  ∃ l', the_loop fuel l (log_finished l) (acc, false) =
          the_loop (fuel - length rs) l' (log_finished l') (commit_offset acc o rs, false) ∧
        reader_at c ec ended (o + length (frames rs)) l'.
Proof.
  revert o l fuel acc. induction rs as [|r rs IH]; intros o l fuel acc Hat Hlog Hck Hs Hlen Hfuel.
  - exists l. cbn [length frames map concat]. rewrite Nat.sub_0_r, Nat.add_0_r. split; [reflexivity|exact Hat].
  - apply Forall_cons in Hlog as [Hr Hlog]. apply Forall_cons in Hck as [Hkr Hck].
    unfold frames in *. cbn [map concat] in *. rewrite length_app in *. rewrite slice_split in Hs.
    pose proof (frame_pos r) as Hpos. destruct fuel as [|fuel]; [cbn in Hfuel; lia|].
    apply app_inj_1 in Hs as [Hs1 Hs2]; [|rewrite length_slice; lia].
    destruct (read_record_whole c ended o l r Hat Hr Hs1 ltac:(lia)) as (l1 & H1 & Hat1).
    rewrite (log_finished_at c ended o l Hat), (proj2 (Nat.leb_gt _ _)) by lia.
    destruct (IH _ l1 fuel (if is_commit r then o + length (record_frame dbg ec r) else acc)
                Hat1 Hlog Hck Hs2 ltac:(lia) ltac:(cbn in Hfuel; lia)) as (l2 & H2 & Hat2).
    exists l2. rewrite commit_offset_cons. cbn [length Nat.sub]. rewrite Nat.add_assoc. split; [|exact Hat2].
    rewrite <- H2. cbn [dry_loop]. rewrite H1. rewrite (getReadOffset_reader c ended _ l1 Hat1).
    destruct r; try reflexivity. discriminate.
Qed.

Lemma decodes_header : decodes (stream readWALHeader) (serializeValue 16 db ++ serializeBool ec) (db, ec).
Proof.
  replace (serializeValue 16 db ++ serializeBool ec) with
    (concat (w_value 16 db ++ w_value 1 (if ec then 1 else 0)%Z)) by (cbn [w_value concat app]; rewrite app_nil_r; reflexivity).
  unfold readWALHeader. eapply decodes_seq; [apply decodes_r_value, Hdb|].
  eapply decodes_end; [apply decodes_r_value; destruct ec; cbn; lia|]. destruct ec; reflexivity.
Qed.

Lemma header_fits : length (serializeValue 16 db ++ serializeBool ec) ≤ INITIAL_BUFFER_SIZE.
Proof.
  pose proof (header_small ec db) as H. cbn [concat] in H. rewrite app_nil_r in H. exact H.
Qed.

Lemma check_header_ok : checkWALHeader ec (db, ec) = Ok tt.
Proof. destruct ec; reflexivity. Qed.

Lemma init_reader c :
  c ≠ [] → ∃ l, initDeserializer checked junk blank ec c = Ok l ∧
                reader_at c ec (length c <=? BUFFER_SIZE) 0 l.
Proof.
  intros Hne. destruct (reader_new_at checked junk junk0 c Hne) as (r & Hr & Hat & Hend).
  unfold initDeserializer. rewrite Hr, outcome_bind_Ok. eexists. split; [reflexivity|].
  assert (Hb : base_at c (length c <=? BUFFER_SIZE) 0 r).
  { split; [exact Hat|]. intros H. zbool. apply Hend, H. }
  destruct ec; (split; [reflexivity|]); [|exact Hb]. cbn. rewrite Hblank. auto.
Qed.

Lemma frames_count rs : length rs ≤ length (frames rs).
Proof.
  unfold frames. induction rs as [|r rs IH]; cbn; [lia|]. rewrite length_app. pose proof (frame_pos r). lia.
Qed.

Lemma header_frame_ne : header_frame ec db ≠ [].
Proof. unfold header_frame, frame. discriminate. Qed.

(** The dry run up to the tail of a log. *)
Lemma dry_run_prefix rs tail t :
  let c := header_frame ec db ++ frames rs ++ tail in
  Forall loggable rs → Forall (λ r, is_checkpoint r = false) rs →
  ∃ l fuel,
    reader_at c ec (length c <=? BUFFER_SIZE) (length (header_frame ec db ++ frames rs)) l ∧
    the_dry_run t ec c =
      let '(o, info) := the_loop (S fuel) l (log_finished l)
                          (commit_offset 0 (length (header_frame ec db)) rs, false) in
      match o with Ok _ => Ok info | Throw e => if t || negb (catchable e) then Throw e else Ok info end.
Proof.
  intros c Hlog Hck. set (h := header_frame ec db).
  destruct (init_reader c) as (l0 & H0 & Hat0).
  { unfold c. pose proof header_frame_ne. destruct (header_frame ec db); [contradiction|discriminate]. }
  destruct (object_whole checked junk blank junk0 c ec (length c <=? BUFFER_SIZE) readWALHeader (checkWALHeader ec)
              0 (serializeValue 16 db ++ serializeBool ec) (db, ec) l0) as (l1 & H1 & Hat1);
    try assumption; try apply decodes_header; try apply check_header_ok; try (intros _; apply header_fits).
  { fold (header_frame ec db). unfold slice, c. cbn [drop]. apply take_app_length. }
  { fold (header_frame ec db). unfold c. rewrite length_app. lia. }
  fold (header_frame ec db) in Hat1. fold h in Hat1. cbn [Nat.add] in Hat1.
  pose proof (frames_count rs) as Hcount.
  assert (Hlc : length c = length h + (length (frames rs) + length tail)) by (unfold c; rewrite !length_app; reflexivity).
  destruct (dry_loop_records c _ rs (length h) l1 (S (length c)) 0 Hat1 Hlog Hck) as (l2 & H2 & Hat2).
  { unfold c, h. apply slice_app_mid. } { lia. } { lia. }
  exists l2, (length c - length rs). rewrite length_app. split; [exact Hat2|].
  unfold dryReplay. rewrite H0, H1, H2. rewrite Nat.sub_succ_l by lia. reflexivity.
Qed.

Lemma dry_run_clean rs t :
  Forall loggable rs → Forall (λ r, is_checkpoint r = false) rs →
  the_dry_run t ec (header_frame ec db ++ frames rs) =
    Ok (commit_offset 0 (length (header_frame ec db)) rs, false).
Proof.
  intros Hlog Hck. destruct (dry_run_prefix rs [] t Hlog Hck) as (l & fuel & Hat & Hrun).
  rewrite app_nil_r in Hat, Hrun. rewrite Hrun, (log_finished_at _ _ _ _ Hat), (proj2 (Nat.leb_le _ _)) by lia.
  reflexivity.
Qed.

Lemma dry_run_checkpoint rs t :
  Forall loggable rs → Forall (λ r, is_checkpoint r = false) rs →
  let c := header_frame ec db ++ frames rs ++ record_frame dbg ec (CheckpointRecord : WALRecord C P V) in
  the_dry_run t ec c = Ok (length c, true).
Proof.
  intros Hlog Hck c. set (k := record_frame dbg ec (CheckpointRecord : WALRecord C P V)) in *.
  destruct (dry_run_prefix rs k t Hlog Hck) as (l & fuel & Hat & Hrun). fold c in Hat, Hrun. rewrite Hrun.
  pose proof (frame_pos (CheckpointRecord : WALRecord C P V)) as Hpos. fold k in Hpos.
  assert (Hlc : length c = length (header_frame ec db ++ frames rs) + length k)
    by (unfold c; rewrite !length_app; lia).
  rewrite (log_finished_at _ _ _ _ Hat), (proj2 (Nat.leb_gt _ _)) by lia.
  destruct (read_record_whole c _ _ l (CheckpointRecord : WALRecord C P V) Hat) as (l' & H1 & Hat1).
  { split; [exact I|]. intros _. apply checkpoint_record_small. }
  { fold k. replace c with ((header_frame ec db ++ frames rs) ++ k ++ [])
      by (unfold c; rewrite app_nil_r, <- app_assoc; reflexivity). apply slice_app_mid. }
  { fold k. lia. }
  fold k in Hat1. cbn [dry_loop]. rewrite H1, (log_finished_at _ _ _ _ Hat1), (getReadOffset_reader _ _ _ _ Hat1).
  rewrite (proj2 (Nat.leb_le _ _)) by lia. rewrite andb_false_r. destruct fuel; rewrite <- Hlc; reflexivity.
Qed.

(** The loop stops at a record the log breaks off in. *)
Lemma dry_loop_torn c o l fuel info r x :
  reader_at c ec (length c <=? BUFFER_SIZE) o l → loggable r → record_frame dbg ec r = drop o c ++ x →
  x ≠ [] → o < length c → checked = true → length c ≤ BUFFER_SIZE →
  ∃ e, the_loop (S fuel) l (log_finished l) info = (Throw e, info) ∧ catchable e = true.
Proof.
  intros Hat [Hv Hf] Hfr Hx Ho Hch Hpage. rewrite (log_finished_at _ _ _ _ Hat), (proj2 (Nat.leb_gt _ _)) by lia.
  destruct (object_torn checked junk blank junk0 c ec (length c <=? BUFFER_SIZE) Hch
              (proj2 (Nat.leb_le _ _) Hpage) (deserialize dbg) (λ _ : WALRecord C P V, Ok tt) o (record_bytes dbg r) r l x Hat)
    as (e & l' & H1 & He); try assumption; [apply decodes_record, Hv|discriminate|lia|].
  exists e. cbn [dry_loop]. unfold read_record. rewrite H1. auto.
Qed.

(** The log breaks off in a record, or in the header. *)
Lemma dry_run_torn rs r tail x :
  let c := header_frame ec db ++ frames rs ++ tail in
  Forall loggable rs → Forall (λ r, is_checkpoint r = false) rs → loggable r →
  record_frame dbg ec r = tail ++ x → tail ≠ [] → x ≠ [] → checked = true → length c ≤ BUFFER_SIZE →
  the_dry_run false ec c = Ok (commit_offset 0 (length (header_frame ec db)) rs, false) ∧
  is_ok (the_dry_run true ec c) = false.
Proof.
  intros c Hlog Hck Hr Hfr Ht Hx Hch Hpage.
  assert (Hlc : length (header_frame ec db ++ frames rs) < length c).
  { unfold c. rewrite !length_app. destruct tail; [contradiction|cbn; lia]. }
  replace tail with (drop (length (header_frame ec db ++ frames rs)) c) in Hfr
    by (unfold c; rewrite app_assoc; apply drop_app_length).
  split.
  - destruct (dry_run_prefix rs tail false Hlog Hck) as (l & fuel & Hat & Hrun). fold c in Hat, Hrun. rewrite Hrun.
    destruct (dry_loop_torn c _ l fuel (commit_offset 0 (length (header_frame ec db)) rs, false) r x Hat Hr Hfr Hx Hlc Hch Hpage)
      as (e & He & Hc). rewrite He, Hc. reflexivity.
  - destruct (dry_run_prefix rs tail true Hlog Hck) as (l & fuel & Hat & Hrun). fold c in Hat, Hrun. rewrite Hrun.
    destruct (dry_loop_torn c _ l fuel (commit_offset 0 (length (header_frame ec db)) rs, false) r x Hat Hr Hfr Hx Hlc Hch Hpage)
      as (e & He & Hc). rewrite He. reflexivity.
Qed.

Lemma dry_run_torn_header c x :
  header_frame ec db = c ++ x → c ≠ [] → x ≠ [] → checked = true →
  the_dry_run false ec c = Ok (0, false).
Proof.
  intros Hfr Hc Hx Hch. destruct (init_reader c Hc) as (l & H0 & Hat). unfold dryReplay. rewrite H0.
  assert (Hle : length c ≤ BUFFER_SIZE).
  { pose proof (frame_header_small ec db) as H. rewrite Hfr, length_app in H. lia. }
  destruct (object_torn checked junk blank junk0 c ec (length c <=? BUFFER_SIZE) Hch (proj2 (Nat.leb_le _ _) Hle)
              readWALHeader (checkWALHeader ec) 0 _ (db, ec) l x Hat decodes_header) as (e & l' & H1 & He);
    try assumption; [|intros _; apply header_fits|lia|].
  { rewrite check_header_ok. discriminate. }
  rewrite H1, He. reflexivity.
Qed.
End DryRun.

(** ** Replaying *)

(** What replaying a record does to the rest of the system: the transaction context of the recovering
    connection, the catalog, the tables, sequences and extensions. *)
Class ReplayEngine (T C P V : Type) := {
  beginRecoveryTransaction : M T unit;
  commitTransaction : M T unit;
  rollbackTransaction : M T unit;
  hasActiveTransaction : T → bool;
  getOrInitDatabaseID : M T Z;
  replayCreateCatalogEntryRecord : C → bool → M T unit;
  replayDropCatalogEntryRecord : Z → Z → M T unit;
  replayAlterTableEntryRecord : string → ExtraAlterInfo P → M T unit;
  replayNodeTableInsertRecord : Z → Z → list V → M T unit;
  replayRelTableInsertRecord : Z → Z → list V → M T unit;
  replayNodeDeletionRecord : Z → Z → V → M T unit;
  replayNodeUpdateRecord : Z → Z → Z → V → M T unit;
  replayRelDeletionRecord : Z → V → V → V → M T unit;
  replayRelDetachDeletionRecord : Z → Z → V → M T unit;
  replayRelUpdateRecord : Z → Z → V → V → V → V → M T unit;
  replayUpdateSequenceRecord : Z → Z → M T unit;
  replayLoadExtensionRecord : string → M T unit;
}.

Definition NODE_TABLE : Z := 1.
Definition REL_TABLE : Z := 2.

Definition foreign_file : exn := RuntimeException "Database ID for temporary file does not match the current database.".

(** [FileDBIDUtils::verifyDatabaseID] *)
Definition verifyDatabaseID (expected databaseID : Z) : outcome unit :=
  if negb (expected =? databaseID)%Z then Throw foreign_file else Ok tt.

Section Replay.
Context (checked : bool) (junk blank : nat → list Z).
Context (dbg : bool) {T C P V : Type} `{!Persisted C} `{!Persisted P} `{!Persisted V}.
Context `{!ReplayEngine T C P V}.

(** [WALReplayer::replayTableInsertionRecord] *)
Definition replayTableInsertionRecord (tableID tableType numRows : Z) (vectors : list V) : M T unit :=
  if (tableType =? NODE_TABLE)%Z then replayNodeTableInsertRecord tableID numRows vectors
  else if (tableType =? REL_TABLE)%Z then replayRelTableInsertRecord tableID numRows vectors
  else raise (RuntimeException "Invalid table type for insertion replay in WAL record.").

(** [WALReplayer::replayWALRecord]; replaying a copied table does nothing. *)
Definition replayWALRecord (walRecord : WALRecord C P V) : M T unit :=
  match walRecord with
  | BeginTransactionRecord => beginRecoveryTransaction
  | CommitRecord => commitTransaction
  | CreateCatalogEntryRecord e isInternal => replayCreateCatalogEntryRecord e isInternal
  | DropCatalogEntryRecord entryID entryType => replayDropCatalogEntryRecord entryID entryType
  | AlterTableEntryRecord tableName info => replayAlterTableEntryRecord tableName info
  | TableInsertionRecord tableID tableType numRows vectors =>
      replayTableInsertionRecord tableID tableType numRows vectors
  | NodeDeletionRecord tableID nodeOffset pk => replayNodeDeletionRecord tableID nodeOffset pk
  | NodeUpdateRecord tableID columnID nodeOffset v => replayNodeUpdateRecord tableID columnID nodeOffset v
  | RelDeletionRecord tableID src dst rel => replayRelDeletionRecord tableID src dst rel
  | RelDetachDeleteRecord tableID direction src => replayRelDetachDeletionRecord tableID direction src
  | RelUpdateRecord tableID columnID src dst rel v => replayRelUpdateRecord tableID columnID src dst rel v
  | CopyTableRecord _ => mret tt
  | UpdateSequenceRecord sequenceID kCount => replayUpdateSequenceRecord sequenceID kCount
  | LoadExtensionRecord path => replayLoadExtensionRecord path
  | CheckpointRecord => raise ku_unreachable
  end.

(** The loop of [WALReplayer::replay] up to the offset the dry run has found. *)
Fixpoint replay_loop (fuel offsetDeserialized : nat) (l : LogReader) : M T unit :=
  if negb (getReadOffset l <? offsetDeserialized) then mret tt
  else
    match fuel with
    | 0 => raise out_of_fuel
    | S fuel' =>
        ku_assert (negb (checked && log_finished l)) ;;
        match read_record checked junk blank dbg l with
        | (Throw e, _) => raise e
        | (Ok walRecord, l') => replayWALRecord walRecord ;; replay_loop fuel' offsetDeserialized l'
        end
    end.

(** The part of [WALReplayer::replay] that replays the log, after the checkpoint has been read. *)
Definition replay_log (enableChecksums : bool) (offsetDeserialized : nat) (c : list Z) : M T unit :=
  l ← observe (λ _, initDeserializer checked junk blank enableChecksums c);
  if 0 <? offsetDeserialized then
    match (log_begin ;; run (log_read checked junk blank) readWALHeader) l with
    | (Throw e, _) => raise e
    | (Ok header, l) =>
        databaseID ← getOrInitDatabaseID;
        observe (λ _, verifyDatabaseID databaseID header.1) ;;
        match log_end checked junk l with
        | (Throw e, _) => raise e
        | (Ok _, l) => replay_loop (S (length c)) offsetDeserialized l
        end
    end
  else replay_loop (S (length c)) offsetDeserialized l.
End Replay.

(** ** What is replayed *)

Section ReplayLemmas.
Context (checked : bool) (junk blank : nat → list Z) (junk0 : junk 0 = []).
Context (Hblank : ∀ n, length (blank n) = n).
Context (dbg : bool) {T C P V : Type} `{!Persisted C} `{!Persisted P} `{!Persisted V}.
Context `{!ReplayEngine T C P V}.
Context (ec : bool) (db : Z) (Hdb : u128 db).
Implicit Types (rs : list (WALRecord C P V)).

Lemma committed_prefix rs : ∃ rest, rs = committed rs ++ rest.
Proof.
  induction rs as [|r rs (rest & Heq)]; [exists []; reflexivity|]. cbn [committed].
  destruct (committed rs) as [|r' l] eqn:Hc.
  - destruct (is_commit r); [exists rs|exists (r :: rs)]; reflexivity.
  - exists rest. cbn. f_equal. exact Heq.
Qed.

Lemma replay_loop_records c ended rs o l fuel t :
  reader_at c ec ended o l → Forall (loggable dbg ec) rs →
  slice o (length (frames dbg ec rs)) c = frames dbg ec rs → o + length (frames dbg ec rs) ≤ length c →
  length rs ≤ fuel →
  replay_loop checked junk blank dbg fuel (o + length (frames dbg ec rs)) l t = for_each rs replayWALRecord t.
Proof.
  remember (o + length (frames dbg ec rs)) as stop eqn:Hstop. revert o l fuel t Hstop.
  induction rs as [|r rs IH]; intros o l fuel t Hstop Hat Hlog Hs Hlen Hfuel.
  - cbn in Hstop. destruct fuel; cbn [replay_loop];
      rewrite (getReadOffset_reader _ _ _ _ _ Hat), (proj2 (Nat.ltb_ge _ _)) by lia; reflexivity.
  - apply Forall_cons in Hlog as [Hr Hlog]. unfold frames in *. cbn [map concat] in *.
    rewrite length_app in *. rewrite slice_split in Hs. pose proof (frame_pos dbg ec r) as Hpos.
    destruct fuel as [|fuel]; [cbn in Hfuel; lia|].
    apply app_inj_1 in Hs as [Hs1 Hs2]; [|rewrite length_slice; lia].
    destruct (read_record_whole checked junk blank junk0 dbg ec c ended o l r Hat Hr Hs1 ltac:(lia)) as (l1 & H1 & Hat1).
    cbn [replay_loop for_each]. rewrite (getReadOffset_reader _ _ _ _ _ Hat), (proj2 (Nat.ltb_lt _ _)) by lia.
    rewrite (log_finished_at _ _ _ _ _ Hat), (proj2 (Nat.leb_gt _ _)) by lia. rewrite andb_false_r. cbn [negb].
    rewrite (M_bind_ok (ku_assert true) _ t tt t) by reflexivity. rewrite H1. unfold mbind, M_bind.
    destruct (replayWALRecord r t) as [[[]|e] t']; [|reflexivity].
    apply (IH (o + length (record_frame dbg ec r))); [lia|exact Hat1|exact Hlog|exact Hs2|lia|cbn in Hfuel; lia].
Qed.

(** Replaying up to the offset the dry run gives replays the committed records, for the right database. *)
Lemma replay_log_exact rs tail t :
  let c := header_frame ec db ++ frames dbg ec rs ++ tail in
  Forall (loggable dbg ec) rs →
  replay_log checked junk blank dbg ec (commit_offset dbg ec 0 (length (header_frame ec db)) rs) c t =
    (match committed rs with
     | [] => mret tt
     | _ => databaseID ← getOrInitDatabaseID;
            observe (λ _, verifyDatabaseID databaseID db) ;;
            for_each (committed rs) replayWALRecord
     end) t.
Proof.
  intros c Hlog. set (h := header_frame ec db).
  assert (Hne : c ≠ []).
  { unfold c. pose proof (header_frame_ne ec db). destruct (header_frame ec db); [contradiction|discriminate]. }
  destruct (init_reader checked junk blank junk0 Hblank ec c Hne) as (l0 & H0 & Hat0).
  unfold replay_log. rewrite (M_bind_ok _ _ t l0 t) by (unfold observe; rewrite H0; reflexivity).
  destruct (committed_prefix rs) as (rest & Hrest). unfold commit_offset.
  destruct (committed rs) as [|r0 rs0] eqn:Hc.
  - reflexivity.
  - rewrite <- Hc in *. rewrite Hrest in Hlog. apply Forall_app in Hlog as [Hlog _].
    assert (Hc' : c = h ++ frames dbg ec (committed rs) ++ (frames dbg ec rest ++ tail)).
    { unfold c, h. f_equal. rewrite Hrest at 1. unfold frames. rewrite map_app, concat_app, <- app_assoc. reflexivity. }
    assert (Hlen : length c = length h + (length (frames dbg ec (committed rs)) + length (frames dbg ec rest ++ tail)))
      by (rewrite Hc', !length_app; lia).
    assert (Hpos : 0 < length h) by (pose proof (header_frame_ne ec db); unfold h; destruct (header_frame ec db); [contradiction|cbn; lia]).
    rewrite (proj2 (Nat.ltb_lt _ _)) by lia.
    assert (Hsh : slice 0 (length h) c = h) by (rewrite Hc'; apply (slice_app_mid [])).
    destruct (object_bytes checked junk blank junk0 c ec _ readWALHeader 0
                (serializeValue 16 db ++ serializeBool ec) (db, ec) l0 Hat0 (decodes_header ec db Hdb)
                (λ _, header_fits ec db) Hsh ltac:(fold (header_frame ec db); fold h; lia)) as (l1 & H1 & Hin).
    rewrite H1. unfold mbind at 1 3, M_bind at 1 3. destruct (getOrInitDatabaseID t) as [[id|e] t1]; [|reflexivity].
    unfold mbind, M_bind, observe. cbn [fst]. destruct (verifyDatabaseID id db); [|reflexivity].
    destruct (object_end checked junk junk0 c ec _ 0 _ l1 Hin Hsh ltac:(fold (header_frame ec db); fold h; lia)) as (l2 & H2 & Hat2).
    rewrite H2. apply (replay_loop_records c (length c <=? BUFFER_SIZE) (committed rs) (length h) l2); try assumption.
    + rewrite Hc'. apply slice_app_mid.
    + lia.
    + pose proof (frames_count dbg ec (committed rs)). lia.
Qed.
End ReplayLemmas.
End WalReplay.
