(* ===== verification/WalTheorems.v ===== *)
(** * The write-ahead log keeps committed transactions

    The records of committed transactions are durable in the order of the commits, the dry run finds
    where the last of them ends in whatever a crash leaves of the file, and exactly they are replayed.
    Two lemmas show where the code falls short of that: records larger than the checksum buffer, and a
    log opened with the other checksum setting. *)

From stdpp Require Import base numbers list strings.
From Stdlib Require Import ZArith Lia Ascii.
From Stdlib Require String.
From S2P Require Import Prelude Serializer InMemFile BufferedFile WalRecord WalWriter WalReplay.
Import Serializer FileInfo BufferedFile Wal WalWriter WalReplay.

Section Logs.
Context (checked : bool) (junk blank : nat → list Z) (junk0 : junk 0 = []).
Context (Hblank : ∀ n, length (blank n) = n).
Context (dbg : bool) {T C P V : Type} `{!Persisted C} `{!Persisted P} `{!Persisted V}.
Context `{!ReplayEngine T C P V}.
Implicit Types (rs : list (WALRecord C P V)) (txns : list (list (WALRecord C P V))).

(** A transaction logs its records and commits: [logBeginTransaction], the records, [logCommit] and
    [logCommittedWAL]. *)
Definition commit_txn (db : Z) (txn : list (WALRecord C P V)) : M WAL unit := λ w,
  match log_records dbg blank Hblank txn (LocalWAL_new blank (enableChecksums w)) with
  | Throw e => (Throw e, w)
  | Ok lw => logCommittedWAL blank Hblank db lw w
  end.

(** A transaction's records: they begin and end as they must and have no other commit or checkpoint. *)
Definition is_marker (r : WALRecord C P V) : bool :=
  is_commit r || is_checkpoint r.
Definition transaction (ec : bool) (txn : list (WALRecord C P V)) : Prop :=
  ∃ body, txn = BeginTransactionRecord :: body ++ [CommitRecord] ∧
          Forall (loggable dbg ec) body ∧ Forall (λ r, is_marker r = false) body.

Lemma frames_app ec rs1 rs2 : frames dbg ec (rs1 ++ rs2) = frames dbg ec rs1 ++ frames dbg ec rs2.
Proof. unfold frames. rewrite map_app. apply concat_app. Qed.

Lemma loggable_markers ec :
  loggable dbg ec (BeginTransactionRecord : WALRecord C P V) ∧ loggable dbg ec (CommitRecord : WALRecord C P V).
Proof.
  split; (split; [exact I|]); intros _; apply Nat.leb_le; destruct dbg; vm_compute; reflexivity.
Qed.

Lemma transaction_loggable ec txn :
  transaction ec txn →
  txn ≠ [] ∧ Forall (loggable dbg ec) txn ∧ Forall (λ r, is_checkpoint r = false) txn.
Proof.
  intros (body & -> & Hl & Hm). destruct (loggable_markers ec) as [Hb Hc]. split; [discriminate|].
  split.
  - apply Forall_cons. split; [exact Hb|]. apply Forall_app. split; [exact Hl|]. apply Forall_singleton. exact Hc.
  - apply Forall_cons. split; [reflexivity|]. apply Forall_app. split; [|apply Forall_singleton; reflexivity].
    eapply Forall_impl; [exact Hm|]. intros r Hr. apply orb_false_iff in Hr. apply Hr.
Qed.

Lemma transactions_loggable ec txns :
  Forall (transaction ec) txns →
  Forall (loggable dbg ec) (concat txns) ∧ Forall (λ r, is_checkpoint r = false) (concat txns).
Proof.
  induction 1 as [|txn txns Ht _ [IH1 IH2]]; [split; constructor|].
  destruct (transaction_loggable ec txn Ht) as (_ & H1 & H2). cbn. split; apply Forall_app; auto.
Qed.

Lemma commit_txns db txns w :
  wal_ok w → readOnly w = false → inMemory w = false → Forall (transaction (enableChecksums w)) txns →
  ∃ w', for_each txns (commit_txn db) w = (Ok tt, w') ∧ wal_ok w' ∧
    (txns ≠ [] → wal_file w' = Some (MkFileInfo
       (with_header (enableChecksums w) db (wal_bytes w) ++ frames dbg (enableChecksums w) (concat txns)) [])).
Proof.
  intros Hok Hro Him Ht. revert w Hok Hro Him Ht. induction txns as [|txn txns IH]; intros w Hok Hro Him Ht.
  - exists w. split; [reflexivity|]. split; [exact Hok|]. contradiction.
  - apply Forall_cons in Ht as [Hx Ht]. destruct (transaction_loggable _ _ Hx) as (Hne & Hl & _).
    destruct (commit_appends dbg blank Hblank db w txn Hok Hro Him Hne) as (lw & w1 & H1 & H2 & Hok1 & Hec & Hro1 & Him1 & Hf1).
    { eapply Forall_impl; [exact Hl|]. intros r Hr. apply Hr. }
    assert (Hc1 : commit_txn db txn w = (Ok tt, w1)) by (unfold commit_txn; rewrite H1; exact H2).
    rewrite (for_each_cons_ok _ _ _ _ w1 Hc1). rewrite <- Hec in Ht.
    destruct (IH w1 Hok1 Hro1 Him1 Ht) as (w2 & H3 & Hok2 & Hf2). exists w2. split; [exact H3|]. split; [exact Hok2|].
    intros _. cbn [concat]. rewrite frames_app, app_assoc. destruct txns as [|txn2 txns].
    + cbn [for_each concat] in *. injection H3 as <-. rewrite app_nil_r. exact Hf1.
    + rewrite Hf2 by discriminate. rewrite Hec. do 2 f_equal. f_equal. unfold wal_bytes. rewrite Hf1.
      cbn [contents pending durable fold_left].
      pose proof (with_header_ne (enableChecksums w) db (match wal_file w with Some f => contents f | None => [] end)) as Hwh.
      unfold frames at 1. fold (wal_bytes w) in *. destruct (with_header _ _ (wal_bytes w)); [contradiction|reflexivity].
Qed.

Lemma committed_app_commit rs1 rs2 : committed (rs1 ++ CommitRecord :: rs2) = rs1 ++ CommitRecord :: committed rs2.
Proof.
  induction rs1 as [|r rs1 IH]; cbn [app committed].
  - destruct (committed rs2); reflexivity.
  - rewrite IH. destruct rs1; reflexivity.
Qed.

Lemma committed_none rs : Forall (λ r, is_commit r = false) rs → committed rs = [].
Proof. induction 1 as [|r rs Hr _ IH]; [reflexivity|]. cbn. rewrite IH, Hr. reflexivity. Qed.

(** The committed records are those of the transactions, whatever uncommitted records follow. *)
Lemma committed_txns ec txns rest :
  Forall (transaction ec) txns → Forall (λ r, is_commit r = false) rest →
  committed (concat txns ++ rest) = concat txns.
Proof.
  intros Ht Hr. induction Ht as [|txn txns (body & -> & _) _ IH]; [apply committed_none, Hr|].
  cbn [concat].
  replace (((BeginTransactionRecord :: body ++ [CommitRecord]) ++ concat txns) ++ rest)
    with ((BeginTransactionRecord :: body) ++ CommitRecord :: (concat txns ++ rest))
    by (cbn; rewrite <- !app_assoc; reflexivity).
  rewrite committed_app_commit, IH. cbn. rewrite <- app_assoc. reflexivity.
Qed.

Lemma prefix_split ec rs k :
  k < length (frames dbg ec rs) →
  ∃ rs1 r rs2 tail x,
    rs = rs1 ++ r :: rs2 ∧ take k (frames dbg ec rs) = frames dbg ec rs1 ++ tail ∧
    record_frame dbg ec r = tail ++ x ∧ x ≠ [].
Proof.
  revert k. induction rs as [|r rs IH]; intros k Hk; [cbn in Hk; lia|].
  change (frames dbg ec (r :: rs)) with (record_frame dbg ec r ++ frames dbg ec rs) in *. rewrite length_app in Hk.
  destruct (Nat.lt_ge_cases k (length (record_frame dbg ec r))) as [Hlt|Hge].
  - exists [], r, rs, (take k (record_frame dbg ec r)), (drop k (record_frame dbg ec r)).
    split; [reflexivity|]. split; [apply take_app_le; lia|]. split; [symmetry; apply take_drop|].
    intros Hnil. apply (f_equal length) in Hnil. rewrite length_drop in Hnil. cbn in Hnil. lia.
  - destruct (IH (k - length (record_frame dbg ec r)) ltac:(lia)) as (rs1 & r1 & rs2 & tail & x & -> & Ht & Hr & Hx).
    exists (r :: rs1), r1, rs2, tail, x. split; [reflexivity|]. split; [|split; assumption].
    rewrite take_app_ge by lia. rewrite Ht. unfold frames. cbn. rewrite app_assoc. reflexivity.
Qed.

(** What is replayed of a log with the committed transactions [txns]. *)
Definition replays (db : Z) (txns : list (list (WALRecord C P V))) : M T unit :=
  match txns with
  | [] => mret tt
  | _ => databaseID ← getOrInitDatabaseID;
         observe (λ _, verifyDatabaseID databaseID db) ;;
         for_each (concat txns) replayWALRecord
  end.

(** Where the last transaction of the log ends. *)
Definition log_end_offset (ec : bool) (db : Z) (txns : list (list (WALRecord C P V))) : nat :=
  match txns with [] => 0 | _ => length (header_frame ec db ++ frames dbg ec (concat txns)) end.

Lemma commit_offset_txns ec db txns rest :
  Forall (transaction ec) txns → Forall (λ r, is_commit r = false) rest →
  commit_offset dbg ec 0 (length (header_frame ec db)) (concat txns ++ rest) = log_end_offset ec db txns.
Proof.
  intros Ht Hr. unfold commit_offset, log_end_offset. rewrite (committed_txns ec txns rest Ht Hr).
  destruct Ht as [|txn txns (body & -> & _) _]; [reflexivity|]. cbn [concat app]. rewrite length_app. reflexivity.
Qed.

Lemma replay_txns ec db (Hdb : u128 db) txns rest tail t :
  Forall (transaction ec) txns → Forall (loggable dbg ec) rest → Forall (λ r, is_commit r = false) rest →
  replay_log checked junk blank dbg ec (log_end_offset ec db txns)
    (header_frame ec db ++ frames dbg ec (concat txns ++ rest) ++ tail) t = replays db txns t.
Proof.
  intros Ht Hl Hr. rewrite <- (commit_offset_txns ec db txns rest Ht Hr).
  rewrite (replay_log_exact checked junk blank junk0 Hblank dbg ec db Hdb).
  - rewrite (committed_txns ec txns rest Ht Hr). unfold replays.
    destruct Ht as [|txn txns (body & -> & _) _]; reflexivity.
  - apply Forall_app. split; [apply (transactions_loggable ec txns Ht)|exact Hl].
Qed.

(** The records of a transaction before the one its log breaks off in. *)
Lemma transaction_prefix ec txn rs1 r rs2 :
  transaction ec txn → txn = rs1 ++ r :: rs2 →
  Forall (loggable dbg ec) rs1 ∧ Forall (λ r, is_checkpoint r = false) rs1 ∧
  Forall (λ r, is_commit r = false) rs1 ∧ loggable dbg ec r.
Proof.
  intros Ht Heq. destruct (transaction_loggable ec txn Ht) as (_ & Hl & Hk). rewrite Heq in Hl, Hk.
  apply Forall_app in Hl as [Hl1 Hl2]. apply Forall_cons in Hl2 as [Hl2 _]. apply Forall_app in Hk as [Hk _].
  split; [exact Hl1|]. split; [exact Hk|]. split; [|exact Hl2].
  destruct Ht as (body & Htx & _ & Hm). rewrite Htx in Heq.
  assert (Hpre : rs1 `prefix_of` BeginTransactionRecord :: body).
  { destruct (exists_last (l := r :: rs2) ltac:(discriminate)) as (front & lastr & Hlast).
    rewrite Hlast, app_assoc in Heq. change (BeginTransactionRecord :: body ++ [CommitRecord])
      with ((BeginTransactionRecord :: body) ++ [CommitRecord]) in Heq.
    apply app_inj_tail in Heq as [Heq _]. exists front. exact Heq. }
  destruct Hpre as (more & Hmore).
  assert (Hc : Forall (λ r, is_commit r = false) (BeginTransactionRecord :: body)).
  { constructor; [reflexivity|]. eapply Forall_impl; [exact Hm|]. intros q Hq. apply orb_false_iff in Hq. apply Hq. }
  rewrite Hmore in Hc. apply Forall_app in Hc. apply Hc.
Qed.

(** C5. The log keeps what is committed. When transactions whose records each fit 4096 bytes if checksums are on
    (otherwise see [large_record_lost]) commit one after the other over a log on disk that holds earlier ones
    (or does not exist yet), every commit returns, and afterwards the file is the
    header and the records of all the transactions in the order of the commits, all of it synced; the
    dry run of a later recovery reads to its end, and the recovery replays exactly these records in this
    order, after checking that the log belongs to the database. *)
Theorem committed_transactions_recovered ec db (Hdb : u128 db) old txns w :
  wal_ok w → readOnly w = false → inMemory w = false → enableChecksums w = ec →
  wal_bytes w = match old with [] => [] | _ => header_frame ec db ++ frames dbg ec (concat old) end →
  Forall (transaction ec) old → Forall (transaction ec) txns → txns ≠ [] →
  let c := header_frame ec db ++ frames dbg ec (concat (old ++ txns)) in
  ∃ w', for_each txns (commit_txn db) w = (Ok tt, w') ∧ wal_ok w' ∧ wal_file w' = Some (MkFileInfo c []) ∧
    (∀ throwOnFailure, dryReplay (C := C) (P := P) (V := V) checked junk blank dbg throwOnFailure ec c = Ok (length c, false)) ∧
    ∀ t, replay_log checked junk blank dbg ec (length c) c t = replays db (old ++ txns) t.
Proof.
  intros Hok Hro Him Hec Hb Ho Ht Hne c. subst ec.
  destruct (commit_txns db txns w Hok Hro Him Ht) as (w' & H1 & H2 & H3). specialize (H3 Hne).
  assert (Hall : Forall (transaction (enableChecksums w)) (old ++ txns)) by (apply Forall_app; auto).
  assert (Hc : with_header (enableChecksums w) db (wal_bytes w) ++ frames dbg (enableChecksums w) (concat txns) = c).
  { unfold c. rewrite concat_app, frames_app, Hb. destruct old as [|o old]; [reflexivity|].
    pose proof (header_frame_ne (enableChecksums w) db) as Hh. rewrite app_assoc.
    destruct (header_frame (enableChecksums w) db); [contradiction|reflexivity]. }
  rewrite Hc in H3. exists w'. split; [exact H1|]. split; [exact H2|]. split; [exact H3|].
  destruct (transactions_loggable _ _ Hall) as [Hl Hk].
  assert (Hend : log_end_offset (enableChecksums w) db (old ++ txns) = length c).
  { unfold log_end_offset, c. destruct (old ++ txns) eqn:Heq; [|reflexivity].
    apply app_eq_nil in Heq as [_ Heq]. contradiction. }
  split.
  - intros t. unfold c. rewrite (dry_run_clean checked junk blank junk0 Hblank dbg _ db Hdb _ t Hl Hk).
    rewrite <- (app_nil_r (concat (old ++ txns))) at 1.
    rewrite (commit_offset_txns _ db (old ++ txns) [] Hall (Forall_nil_2 _)), Hend. reflexivity.
  - intros t. pose proof (replay_txns _ db Hdb (old ++ txns) [] [] t Hall (Forall_nil_2 _) (Forall_nil_2 _)) as Hr.
    rewrite !app_nil_r, Hend in Hr. exact Hr.
Qed.

(** C19. A crash while a transaction is being appended to a log that fits one buffer of 4096 bytes leaves a
    prefix of its records. However many bytes of them are there, the dry run of a build that checks
    assertions, without [throwOnWalReplayFailure], stops after the last committed transaction, and the recovery replays exactly the committed ones;
    a log that breaks off inside the header holds none. In a longer log a record torn at the end of a buffer
    may go undetected: see [torn_read_undetected]. *)
Theorem torn_log_recovers ec db (Hdb : u128 db) txns next k :
  checked = true → Forall (transaction ec) txns → transaction ec next → k < length (frames dbg ec next) →
  let c := header_frame ec db ++ frames dbg ec (concat txns) ++ take k (frames dbg ec next) in
  length c ≤ BUFFER_SIZE →
  dryReplay (C := C) (P := P) (V := V) checked junk blank dbg false ec c = Ok (log_end_offset ec db txns, false) ∧
  (∀ t, replay_log checked junk blank dbg ec (log_end_offset ec db txns) c t = replays db txns t) ∧
  (∀ n, 0 < n < length (header_frame ec db) →
     dryReplay (C := C) (P := P) (V := V) checked junk blank dbg false ec (take n (header_frame ec db)) = Ok (0, false)).
Proof.
  intros Hch Ht Hn Hk c Hpage.
  destruct (prefix_split ec next k Hk) as (rs1 & r & rs2 & tail & x & Heq & Htake & Hr & Hx).
  destruct (transaction_prefix ec next rs1 r rs2 Hn Heq) as (Hl1 & Hk1 & Hc1 & Hlr).
  destruct (transactions_loggable ec txns Ht) as [Hl Hkt].
  assert (Hc : c = header_frame ec db ++ frames dbg ec (concat txns ++ rs1) ++ tail)
    by (unfold c; rewrite Htake, frames_app, <- app_assoc; reflexivity).
  assert (Hall : Forall (loggable dbg ec) (concat txns ++ rs1)) by (apply Forall_app; auto).
  assert (Hnk : Forall (λ r, is_checkpoint r = false) (concat txns ++ rs1)) by (apply Forall_app; auto).
  split; [|split].
  - rewrite Hc in *. rewrite <- (commit_offset_txns ec db txns rs1 Ht Hc1). destruct (decide (tail = [])) as [->|Htail].
    + rewrite app_nil_r. apply dry_run_clean; assumption.
    + apply (dry_run_torn checked junk blank junk0 Hblank dbg ec db Hdb _ r tail x); assumption.
  - intros t. rewrite Hc. apply replay_txns; assumption.
  - intros n Hnn. apply (dry_run_torn_header checked junk blank junk0 Hblank dbg ec db Hdb _ (drop n (header_frame ec db)));
      [symmetry; apply take_drop| | |exact Hch]; intros Hnil; apply (f_equal length) in Hnil;
      rewrite ?length_take, ?length_drop in Hnil; change (length (@nil Z)) with 0 in Hnil; lia.
Qed.
End Logs.

(** ** Sample instances *)

Definition zeros (n : nat) : list Z := replicate n 0%Z.

Lemma zeros_length n : length (zeros n) = n.
Proof. apply length_replicate. Qed.

(** Payloads that are unsigned 64-bit integers. *)
#[global] Instance Persisted_u64 : Persisted Z := {|
  p_write _ x := w_value 8 x;
  p_read _ := r_value 8;
  p_valid := is_u64;
  p_decodes _ x H := decodes_r_value 8 x H;
|}.

(** An engine that notes the types of the records replayed into it; its database is number 1. *)
Definition note (x : Z) : M (list Z) unit := modify (λ l, l ++ [x]).
#[global] Instance Noting : ReplayEngine (list Z) Z Z Z := {|
  beginRecoveryTransaction := note BEGIN_TRANSACTION_RECORD;
  commitTransaction := note COMMIT_RECORD;
  rollbackTransaction := mret tt;
  hasActiveTransaction _ := false;
  getOrInitDatabaseID := mret 1%Z;
  replayCreateCatalogEntryRecord _ _ := note CREATE_CATALOG_ENTRY_RECORD;
  replayDropCatalogEntryRecord _ _ := note DROP_CATALOG_ENTRY_RECORD;
  replayAlterTableEntryRecord _ _ := note ALTER_TABLE_ENTRY_RECORD;
  replayNodeTableInsertRecord _ _ _ := note TABLE_INSERTION_RECORD;
  replayRelTableInsertRecord _ _ _ := note TABLE_INSERTION_RECORD;
  replayNodeDeletionRecord _ _ _ := note NODE_DELETION_RECORD;
  replayNodeUpdateRecord _ _ _ _ := note NODE_UPDATE_RECORD;
  replayRelDeletionRecord _ _ _ _ := note REL_DELETION_RECORD;
  replayRelDetachDeletionRecord _ _ _ := note REL_DETACH_DELETE_RECORD;
  replayRelUpdateRecord _ _ _ _ _ _ := note REL_UPDATE_RECORD;
  replayUpdateSequenceRecord _ _ := note UPDATE_SEQUENCE_RECORD;
  replayLoadExtensionRecord _ := note LOAD_EXTENSION_RECORD;
|}.

Definition sample_txn (k : Z) : list (WALRecord Z Z Z) :=
  [BeginTransactionRecord; UpdateSequenceRecord k 7; NodeUpdateRecord 1 2 3 9%Z; CommitRecord].

Lemma sample_transaction k : (0 ≤ k < 10)%Z → transaction false true (sample_txn k).
Proof.
  intros Hk. exists [UpdateSequenceRecord k 7; NodeUpdateRecord 1 2 3 9%Z]. split; [reflexivity|].
  assert (Hs : ∀ r : WALRecord Z Z Z, length (record_bytes false r) ≤ 100 → fits false true r).
  { intros r Hr _. eapply Nat.le_trans; [exact Hr|]. apply Nat.leb_le. reflexivity. }
  split; repeat (apply Forall_cons; split); try apply Forall_nil_2; try reflexivity;
    (split; [|apply Hs; cbn; lia]); cbn; unfold is_u64, u32; lia.
Qed.

Definition fresh_wal : WAL := MkWAL false false true None None.

Lemma committed_transactions_recovered_witness :
  ∃ w', for_each [sample_txn 4; sample_txn 5] (commit_txn zeros zeros_length false 1) fresh_wal = (Ok tt, w') ∧
    wal_file w' = Some (MkFileInfo (header_frame true 1 ++ frames false true (concat [sample_txn 4; sample_txn 5])) []).
Proof.
  destruct (committed_transactions_recovered true zeros zeros eq_refl zeros_length false (T := list Z)
    true 1 ltac:(unfold u128; lia) [] [sample_txn 4; sample_txn 5] fresh_wal I eq_refl eq_refl eq_refl eq_refl)
    as (w' & H1 & _ & H2 & _).
  - apply Forall_nil_2.
  - repeat (apply Forall_cons; split); try apply Forall_nil_2; apply sample_transaction; lia.
  - discriminate.
  - exists w'. split; [exact H1|exact H2].
Defined.

Lemma torn_log_recovers_witness :
  let c := header_frame true 1 ++ frames false true (concat [sample_txn 4]) ++ take 40 (frames false true (sample_txn 5)) in
  dryReplay (C := Z) (P := Z) (V := Z) true zeros zeros false false true c =
    Ok (log_end_offset false true 1 [sample_txn 4], false).
Proof.
  intros c.
  assert (H1 : Forall (transaction false true) [sample_txn 4]) by (apply Forall_singleton, sample_transaction; lia).
  assert (H2 : transaction false true (sample_txn 5)) by (apply sample_transaction; lia).
  assert (H3 : 40 < length (frames false true (sample_txn 5))) by (apply Nat.ltb_lt; vm_compute; reflexivity).
  assert (H4 : length c ≤ BUFFER_SIZE) by (apply Nat.leb_le; vm_compute; reflexivity).
  exact (proj1 (torn_log_recovers true zeros zeros eq_refl zeros_length false (T := list Z)
    true 1 ltac:(unfold u128; lia) [sample_txn 4] (sample_txn 5) 40 eq_refl H1 H2 H3 H4)).
Defined.

(** ** Where committed transactions are lost *)

Fixpoint letters (n : nat) : string :=
  match n with 0 => EmptyString | S n' => String "a"%char (letters n') end.

(** A record larger than the checksum buffer: the buffer is replaced by a fresh one in the middle of the
    record, whose first bytes are lost. The commit succeeds, but a recovery does not read the record
    back: it fails, or drops the committed transaction. *)
Lemma large_record_lost :
  let txn := [BeginTransactionRecord; LoadExtensionRecord (letters 5000); CommitRecord] : list (WALRecord Z Z Z) in
  match commit_txn zeros zeros_length false 1 txn fresh_wal with
  | (Ok _, w) =>
      is_ok (dryReplay (C := Z) (P := Z) (V := Z) true zeros zeros false true true (wal_bytes w)) = false ∧
      dryReplay (C := Z) (P := Z) (V := Z) true zeros zeros false false true (wal_bytes w) = Ok (0, false)
  | _ => False
  end.
Proof. vm_compute. split; reflexivity. Qed.

(** A log opened with the other setting of [enableChecksums]: without [throwOnWalReplayFailure] the
    mismatch is taken for a torn log, and no committed transaction is found. *)
Lemma checksum_setting_drops_log :
  match commit_txn zeros zeros_length false 1 (sample_txn 4) fresh_wal with
  | (Ok _, w) =>
      dryReplay (C := Z) (P := Z) (V := Z) true zeros zeros false true false (wal_bytes w) = Throw config_mismatch ∧
      dryReplay (C := Z) (P := Z) (V := Z) true zeros zeros false false false (wal_bytes w) = Ok (0, false)
  | _ => False
  end.
Proof. vm_compute. split; reflexivity. Qed.
