(* ===== verification/ShadowFile.v ===== *)
(** * The database header and the shadow file

    storage/database_header.{h,cpp}, storage/storage_version_info.{h,cpp}, storage/shadow_file.{h,cpp}
    and storage/shadow_utils.cpp. A checkpoint does not change pages of the data file in place: it
    changes copies of them in the shadow file, which are copied over the originals once the log says
    that they are complete. The shadow file is a header page, the shadow pages, and the list of the
    pages they shadow. *)

From stdpp Require Import base numbers list gmap strings.
From Stdlib Require Import ZArith Lia Ascii.
From Stdlib Require String.
From S2P Require Import Prelude Serializer InMemFile BufferedFile WalRecord WalWriter WalReplay.
Import Serializer FileInfo BufferedFile.

Abbreviation PAGE := KUZU_PAGE_SIZE.

(** Page [i] of a file. *)
Definition page (i : nat) (c : list Z) : list Z := slice (i * PAGE) PAGE c.

(** ** DatabaseHeader *)

Module DatabaseHeader.

(** [StorageVersionInfo::getStorageVersionInfo] *)
Definition storageVersionInfo : list (string * Z) :=
  [("0.11.1", 39); ("0.11.0", 39); ("0.10.0", 38); ("0.9.0", 37); ("0.8.0", 36);
   ("0.7.1.1", 35); ("0.7.0", 34); ("0.6.0.6", 33); ("0.6.0.5", 32); ("0.6.0.2", 31);
   ("0.6.0.1", 31); ("0.6.0", 28); ("0.5.0", 28); ("0.4.2", 27); ("0.4.1", 27);
   ("0.4.0", 27); ("0.3.2", 26); ("0.3.1", 26); ("0.3.0", 26); ("0.2.1", 25);
   ("0.2.0", 25); ("0.1.0", 24); ("0.0.12.3", 24); ("0.0.12.2", 24); ("0.0.12.1", 24);
   ("0.0.12", 23); ("0.0.11", 23); ("0.0.10", 23); ("0.0.9", 23); ("0.0.8", 17);
   ("0.0.7", 15); ("0.0.6", 9); ("0.0.5", 8); ("0.0.4", 7); ("0.0.3", 1)]%Z%string.

(** [StorageVersionInfo::getStorageVersion] of a build with the version [cmakeVersion]. *)
Definition getStorageVersion (cmakeVersion : string) : Z :=
  match List.find (λ e, String.eqb e.1 cmakeVersion) storageVersionInfo with
  | Some e => e.2
  | None => fold_left (λ m e, Z.max m e.2) storageVersionInfo 0%Z
  end.

(** [StorageVersionInfo::MAGIC_BYTES] *)
Definition MAGIC_BYTES : list Z := map byte_of_ascii (String.list_ascii_of_string "KUZU").

Record PageRange := MkPageRange { startPageIdx : Z; numPages : Z }.
Record DatabaseHeader := MkDatabaseHeader {
  catalogPageRange : PageRange;
  metadataPageRange : PageRange;
  databaseID : Z;
}.

Definition INVALID_PAGE_IDX : Z := 4294967295.

(** [DatabaseHeader::createInitialHeader]; [uuid] is what the random engine gives. *)
Definition createInitialHeader (uuid : Z) : DatabaseHeader :=
  MkDatabaseHeader (MkPageRange INVALID_PAGE_IDX 0) (MkPageRange INVALID_PAGE_IDX 0) uuid.

Section Header.
Context (dbg : bool) (cmakeVersion : string).

(** [writeMagicBytes] *)
Definition writeMagicBytes : list (list Z) :=
  w_debug dbg "magic" ++ (MAGIC_BYTES ≫= w_value 1).

(** [DatabaseHeader::serialize] *)
Definition serialize (h : DatabaseHeader) : list (list Z) :=
  writeMagicBytes ++
  w_debug dbg "storage_version" ++ w_value 8 (getStorageVersion cmakeVersion) ++
  w_debug dbg "catalog" ++
  w_value 4 (startPageIdx (catalogPageRange h)) ++ w_value 4 (numPages (catalogPageRange h)) ++
  w_debug dbg "metadata" ++
  w_value 4 (startPageIdx (metadataPageRange h)) ++ w_value 4 (numPages (metadataPageRange h)) ++
  w_debug dbg "databaseID" ++ w_value 16 (databaseID h).

Definition not_a_database : exn :=
  RuntimeException "Unable to open database. The file is not a valid Kuzu database file!".
Definition other_version : exn :=
  RuntimeException "Trying to read a database file with a different version.".

(** [validateMagicBytes] *)
Definition validateMagicBytes : reading unit :=
  r_debug dbg "magic" ;;
  magicBytes ← r_many (length MAGIC_BYTES) (r_value 1);
  if bool_decide (magicBytes = MAGIC_BYTES) then Done tt else Fails not_a_database.

(** [validateStorageVersion] *)
Definition validateStorageVersion : reading unit :=
  r_debug dbg "storage_version" ;;
  savedStorageVersion ← r_value 8;
  if (savedStorageVersion =? getStorageVersion cmakeVersion)%Z then Done tt else Fails other_version.

(** [DatabaseHeader::deserialize] *)
Definition deserialize : reading DatabaseHeader :=
  validateMagicBytes ;;
  validateStorageVersion ;;
  r_debug dbg "catalog" ;;
  catalogStart ← r_value 4;
  catalogNum ← r_value 4;
  r_debug dbg "metadata" ;;
  metaStart ← r_value 4;
  metaNum ← r_value 4;
  r_debug dbg "databaseID" ;;
  id ← r_value 16;
  mret (MkDatabaseHeader (MkPageRange catalogStart catalogNum) (MkPageRange metaStart metaNum) id).

Context (checked : bool) (junk : nat → list Z).

(** [DatabaseHeader::readDatabaseHeader] *)
Definition readDatabaseHeader (c : list Z) : outcome (option DatabaseHeader) :=
  if length c <? PAGE then Ok None
  else
    r ← BufferedFileReader_new checked junk c;
    match run (reader_read checked junk) deserialize r with
    | (Ok h, _) => Ok (Some h)
    | (Throw (RuntimeException _), _) => Ok None
    | (Throw e, _) => Throw e
    end.
End Header.

(** *** A header reads back *)

Definition range_ok (r : PageRange) : Prop := Wal.u32 (startPageIdx r) ∧ Wal.u32 (numPages r).
Definition header_ok (h : DatabaseHeader) : Prop :=
  range_ok (catalogPageRange h) ∧ range_ok (metadataPageRange h) ∧ Wal.u128 (databaseID h).

Lemma storage_version_u64 v : is_u64 (getStorageVersion v).
Proof.
  unfold getStorageVersion. destruct (List.find _ _) as [e|] eqn:Hf.
  - apply List.find_some in Hf as [Hin _].
    assert (Hall : Forall (λ e, (0 ≤ e.2 < 100)%Z) storageVersionInfo) by (repeat constructor; cbn; lia).
    rewrite Forall_forall in Hall. specialize (Hall e (proj2 (list_elem_of_In _ _) Hin)). unfold is_u64. lia.
  - vm_compute. split; [discriminate|reflexivity].
Qed.

Lemma decodes_magic dbg :
  decodes (stream (validateMagicBytes dbg)) (concat (writeMagicBytes dbg)) tt.
Proof.
  unfold validateMagicBytes, writeMagicBytes.
  eapply decodes_seq; [apply decodes_r_debug; vm_compute; split; [discriminate|reflexivity]|].
  eapply decodes_end; [apply decodes_r_many|rewrite bool_decide_true by reflexivity; reflexivity].
  repeat constructor; apply decodes_r_value; vm_compute; split; discriminate || reflexivity.
Qed.

Lemma decodes_version dbg v :
  decodes (stream (validateStorageVersion dbg v))
    (concat (w_debug dbg "storage_version" ++ w_value 8 (getStorageVersion v))) tt.
Proof.
  unfold validateStorageVersion.
  eapply decodes_seq; [apply decodes_r_debug; vm_compute; split; [discriminate|reflexivity]|].
  eapply decodes_end; [apply decodes_r_value, storage_version_u64|]. rewrite Z.eqb_refl. reflexivity.
Qed.

Lemma decodes_db_header dbg v h :
  header_ok h → decodes (stream (deserialize dbg v)) (concat (serialize dbg v h)) h.
Proof.
  intros ([Hc1 Hc2] & [Hm1 Hm2] & Hid). unfold deserialize, serialize.
  eapply decodes_seq; [apply decodes_magic|]. rewrite (app_assoc (w_debug dbg "storage_version")).
  eapply decodes_seq; [apply decodes_version|]. destruct h as [[cs cn] [ms mn] id].
  cbn [catalogPageRange metadataPageRange databaseID startPageIdx numPages] in *. read_fields.
Qed.

(** The length of a header does not depend on what it says. *)
Lemma header_length dbg v h : length (concat (serialize dbg v h)) ≤ 256.
Proof.
  destruct h as [[cs cn] [ms mn] id]. unfold serialize.
  rewrite !concat_app, !length_app. cbn [startPageIdx numPages catalogPageRange metadataPageRange databaseID w_value concat].
  rewrite !app_nil_r. unfold serializeValue. rewrite !length_le_bytes.
  destruct dbg; vm_compute length; lia.
Qed.
End DatabaseHeader.

(** ** ShadowFile *)

Module ShadowFile.

Record ShadowPageRecord := MkShadowPageRecord { originalFileIdx : nat; originalPageIdx : nat }.

#[global] Instance ShadowPageRecord_eq_dec : EqDecision ShadowPageRecord.
Proof. solve_decision. Defined.

(** [ShadowPageRecord::serialize], [deserialize] *)
Definition record_serialize (r : ShadowPageRecord) : list (list Z) :=
  w_value 4 (Z.of_nat (originalFileIdx r)) ++ w_value 4 (Z.of_nat (originalPageIdx r)).
Definition record_deserialize : reading ShadowPageRecord :=
  f ← r_value 4;
  p ← r_value 4;
  mret (MkShadowPageRecord (Z.to_nat f) (Z.to_nat p)).

(** The shadow file's handle: its number of pages and the dirty pages in frames. A page that is not
    dirty in a frame is the one on disk. *)
Record FileHandle := MkFileHandle { fh_numPages : nat; fh_frames : gmap nat (list Z) }.

Record ShadowFile := MkShadowFile {
  shadowingFH : option FileHandle;
  shadowFileInfo : option FileInfo;
  shadowPagesMap : gmap nat (gmap nat nat);
  shadowPageRecords : list ShadowPageRecord;
}.

Definition ShadowFile_new : ShadowFile := MkShadowFile None None ∅ [].

Definition no_handle : exn := UndefinedBehaviour "null shadowingFH".

Definition set_handle (fh : FileHandle) (s : ShadowFile) : ShadowFile :=
  MkShadowFile (Some fh) (shadowFileInfo s) (shadowPagesMap s) (shadowPageRecords s).
Definition set_file (f : FileInfo) (s : ShadowFile) : ShadowFile :=
  MkShadowFile (shadowingFH s) (Some f) (shadowPagesMap s) (shadowPageRecords s).
Definition the_file (s : ShadowFile) : FileInfo := default empty_file (shadowFileInfo s).

(** [ShadowFile::hasShadowPage] *)
Definition hasShadowPage (originalFile originalPage : nat) (s : ShadowFile) : bool :=
  match shadowPagesMap s !! originalFile with
  | Some m => bool_decide (is_Some (m !! originalPage))
  | None => false
  end.

(** [ShadowFile::clearShadowPage]: the record of the page stays. *)
Definition clearShadowPage (originalFile originalPage : nat) (s : ShadowFile) : ShadowFile :=
  match shadowPagesMap s !! originalFile with
  | Some m =>
      if hasShadowPage originalFile originalPage s then
        let m' := delete originalPage m in
        MkShadowFile (shadowingFH s) (shadowFileInfo s)
          (if bool_decide (m' = ∅) then delete originalFile (shadowPagesMap s)
           else <[originalFile := m']> (shadowPagesMap s)) (shadowPageRecords s)
      else s
  | None => s
  end.

(** [ShadowFile::getShadowPage] *)
Definition getShadowPage (originalFile originalPage : nat) (s : ShadowFile) : outcome nat :=
  match shadowPagesMap s !! originalFile with
  | Some m => match m !! originalPage with Some p => Ok p | None => Throw assert_failure end
  | None => Throw assert_failure
  end.

(** [ShadowFile::getOrCreateShadowingFH]: a new file gets a page for the header. *)
Definition getOrCreateShadowingFH (s : ShadowFile) : FileHandle * ShadowFile :=
  match shadowingFH s with
  | Some fh => (fh, s)
  | None =>
      let f := the_file s in
      let n := (getFileSize f + (PAGE - 1)) / PAGE in
      let fh := MkFileHandle (if n =? 0 then 1 else n) ∅ in
      (fh, set_handle fh (set_file f s))
  end.

Definition no_frame_group : exn := BufferManagerException "No more frame groups can be added to the allocator.".
Definition no_memory : exn :=
  BufferManagerException "Unable to allocate memory! The buffer pool is full and no memory could be freed!".

(** [ShadowFile::getOrCreateShadowPage]; [granted] is whether the buffer manager has a frame group for a new
    page. *)
Definition getOrCreateShadowPage_asking (granted : bool) (originalFile originalPage : nat) : M ShadowFile nat := λ s,
  if hasShadowPage originalFile originalPage s then (getShadowPage originalFile originalPage s, s)
  else
    let '(fh, s) := getOrCreateShadowingFH s in
    if negb granted then (Throw no_frame_group, s)
    else
      let shadowPageIdx := fh_numPages fh in
      (Ok shadowPageIdx,
       MkShadowFile (Some (MkFileHandle (S shadowPageIdx) (fh_frames fh))) (shadowFileInfo s)
         (<[originalFile := <[originalPage := shadowPageIdx]> (default ∅ (shadowPagesMap s !! originalFile))]>
            (shadowPagesMap s))
         (shadowPageRecords s ++ [MkShadowPageRecord originalFile originalPage])).
Definition getOrCreateShadowPage : nat → nat → M ShadowFile nat := getOrCreateShadowPage_asking true.

(** A shadow page as a pin that reads it gives it. *)
Definition shadow_page (idx : nat) (s : ShadowFile) : list Z :=
  match shadowingFH s with
  | Some fh => match fh_frames fh !! idx with Some c => c | None => page idx (contents (the_file s)) end
  | None => page idx (contents (the_file s))
  end.

(** Setting the frame of a page, dirty. *)
Definition set_frame (idx : nat) (c : list Z) (s : ShadowFile) : ShadowFile :=
  match shadowingFH s with
  | Some fh => set_handle (MkFileHandle (fh_numPages fh) (<[idx := c]> (fh_frames fh))) s
  | None => s
  end.

(** The buffer manager may write a dirty page to the file and drop its frame at any time. *)
Definition evict (idx : nat) (s : ShadowFile) : ShadowFile :=
  match shadowingFH s with
  | Some fh =>
      match fh_frames fh !! idx with
      | Some c => set_handle (MkFileHandle (fh_numPages fh) (delete idx (fh_frames fh)))
                    (set_file (writeFile c (idx * PAGE) (the_file s)) s)
      | None => s
      end
  | None => s
  end.

Section Operations.
(** What a frame that is pinned without reading holds. *)
Context (stale : list Z).

(** [ShadowUtils::createShadowVersionIfNecessaryAndPinPage]: [data] is the file of the originals. The buffer
    manager may refuse the frame group of a new page, and the memory to pin the page, which is then
    registered already. *)
Definition createShadowVersionIfNecessaryAndPinPage_asking (groupGranted pinGranted : bool) (originalFile originalPage : nat)
    (skipReadingOriginalPage : bool) (data : list Z) : M ShadowFile nat :=
  s ← get_state;
  let has := hasShadowPage originalFile originalPage s in
  shadowPage ← getOrCreateShadowPage_asking groupGranted originalFile originalPage;
  (if pinGranted then mret tt else raise no_memory) ;;
  modify (λ s, set_frame shadowPage
    (if has then shadow_page shadowPage s
     else if skipReadingOriginalPage then stale else page originalPage data) s) ;;
  mret shadowPage.
Definition createShadowVersionIfNecessaryAndPinPage : nat → nat → bool → list Z → M ShadowFile nat :=
  createShadowVersionIfNecessaryAndPinPage_asking true true.

(** [ShadowUtils::updatePage] *)
Definition updatePage_asking (groupGranted pinGranted : bool) (originalFile originalPage : nat) (skipReadingOriginalPage : bool)
    (data : list Z) (updateOp : list Z → list Z) : M ShadowFile unit :=
  shadowPage ← createShadowVersionIfNecessaryAndPinPage_asking groupGranted pinGranted originalFile originalPage
    skipReadingOriginalPage data;
  modify (λ s, set_frame shadowPage (updateOp (shadow_page shadowPage s)) s).
Definition updatePage : nat → nat → bool → list Z → (list Z → list Z) → M ShadowFile unit := updatePage_asking true true.
End Operations.

(** [ShadowUtils::getFileHandleAndPhysicalPageIdxToPin] of the checkpoint transaction, as the page it reads. *)
Definition checkpoint_view (originalFile : nat) (data : list Z) (s : ShadowFile) (p : nat) : list Z :=
  if hasShadowPage originalFile p s then
    match getShadowPage originalFile p s with
    | Ok idx => shadow_page idx s
    | Throw _ => []
    end
  else page p data.

(** [ShadowUtils::readShadowVersionOfPage] *)
Definition readShadowVersionOfPage (originalFile originalPage : nat) (s : ShadowFile) : outcome (list Z) :=
  idx ← getShadowPage originalFile originalPage s;
  Ok (shadow_page idx s).

Section Disk.
Context (checked : bool) (junk : nat → list Z).
(** The padding bytes of [ShadowFileHeader]. *)
Context (padding : list Z).

(** The header page of [ShadowFile::flushAll]. *)
Definition header_page (databaseID : Z) (numShadowPages : nat) : list Z :=
  let header := serializeValue 16 databaseID ++ serializeValue 4 (Z.of_nat numShadowPages) ++ padding in
  header ++ replicate (PAGE - length header) 0%Z.

(** [FileHandle::flushAllDirtyPagesInFrames] *)
Definition flushAllDirtyPagesInFrames (fh : FileHandle) (f : FileInfo) : FileInfo :=
  fold_left (λ f pageIdx,
    match fh_frames fh !! pageIdx with
    | Some c => writeFile c (pageIdx * PAGE) f
    | None => f
    end) (seq 0 (fh_numPages fh)) f.

(** [Serializer::serializeVector] of the records. *)
Definition records_serialize (rs : list ShadowPageRecord) : list (list Z) :=
  w_value 8 (Z.of_nat (length rs)) ++ (rs ≫= record_serialize).

(** [ShadowFile::flushAll] before the sync at its end. *)
Definition flushAll_unsynced (databaseID : Z) (s : ShadowFile) : outcome ShadowFile :=
  match shadowingFH s with
  | None => Throw assert_failure
  | Some fh =>
      let f := writeFile (header_page databaseID (length (shadowPageRecords s))) 0 (the_file s) in
      let f := flushAllDirtyPagesInFrames fh f in
      let w := setFileOffset (fh_numPages fh * PAGE) (BufferedFileWriter_new f) in
      if checked && negb (length (shadowPageRecords s) + 1 =? fh_numPages fh) then Throw assert_failure
      else
        let w := flush (write_all (records_serialize (shadowPageRecords s)) w) in
        Ok (set_handle (MkFileHandle (fh_numPages fh) ∅) (set_file (wfileInfo w) s))
  end.

(** [ShadowFile::flushAll] *)
Definition flushAll (databaseID : Z) (s : ShadowFile) : outcome ShadowFile :=
  s ← flushAll_unsynced databaseID s;
  Ok (set_file (syncFile (the_file s)) s).

(** The loop of [applyShadowPages] and of [replayShadowPageRecords]: pages of the shadow file [c] from
    [idx] on over the originals. *)
Fixpoint apply_pages (c : list Z) (idx : nat) (rs : list ShadowPageRecord) : M FileInfo unit := λ data,
  match rs with
  | [] => (Ok tt, data)
  | r :: rs' =>
      match readFromFile checked junk PAGE (idx * PAGE) c with
      | Throw e => (Throw e, data)
      | Ok bytes => apply_pages c (S idx) rs' (writeFile bytes (originalPageIdx r * PAGE) data)
      end
  end.

(** [ShadowFile::applyShadowPages]; page 0 of the shadow file is the header. *)
Definition applyShadowPages (s : ShadowFile) : M FileInfo unit := λ data,
  match shadowingFH s with
  | None => (Throw assert_failure, data)
  | Some _ =>
      match apply_pages (contents (the_file s)) 1 (shadowPageRecords s) data with
      | (Ok _, data) => (Ok tt, syncFile data)
      | (Throw e, data) => (Throw e, data)
      end
  end.

(** [ShadowFile::clear], [ShadowFile::reset] *)
Definition shadow_clear (s : ShadowFile) : outcome ShadowFile :=
  match shadowingFH s with
  | None => Throw assert_failure
  | Some _ => Ok (MkShadowFile (Some (MkFileHandle 1 ∅)) (Some (truncate 0 (the_file s))) ∅ [])
  end.
Definition shadow_reset (s : ShadowFile) : outcome ShadowFile :=
  match shadowingFH s with
  | None => Throw no_handle
  | Some _ => Ok (MkShadowFile None None (shadowPagesMap s) (shadowPageRecords s))
  end.

Context (dbg : bool) (cmakeVersion : string).

(** [getOldDatabaseID] *)
Definition getOldDatabaseID (data : list Z) : outcome Z :=
  h ← DatabaseHeader.readDatabaseHeader dbg cmakeVersion checked junk data;
  match h with
  | Some h => Ok (DatabaseHeader.databaseID h)
  | None => Throw (InternalException "Found a shadow file but no valid database header.")
  end.

(** [Deserializer::deserializeVector] of records. *)
Definition records_deserialize : reading (list ShadowPageRecord) :=
  n ← r_value 8;
  r_many (Z.to_nat n) record_deserialize.

Definition replay_read_only : exn :=
  RuntimeException "Couldn't replay shadow pages under read-only mode.".

(** [ShadowFile::replayShadowPageRecords]; a missing shadow file cannot be opened. *)
Definition replayShadowPageRecords (readOnly : bool) (shadow : option FileInfo) : M FileInfo unit := λ data,
  if readOnly then (Throw replay_read_only, data)
  else
    match shadow with
    | None => (Throw (IOException "Cannot open file"), data)
    | Some f =>
        let c := contents f in
        let read :=
          headerPage ← readFromFile checked junk PAGE 0 c;
          let databaseID := le_value (take 16 headerPage) in
          let numShadowPages := Z.to_nat (le_value (slice 16 4 headerPage)) in
          oldDatabaseID ← getOldDatabaseID (contents data);
          WalReplay.verifyDatabaseID oldDatabaseID databaseID ;;
          reader ← BufferedFileReader_new checked junk c;
          (run (reader_read checked junk) records_deserialize
             (resetReadOffset ((numShadowPages + 1) * PAGE) reader)).1 in
        match read with
        | Throw e => (Throw e, data)
        | Ok records => apply_pages c 1 records data
        end
    end.
End Disk.
End ShadowFile.
