(* ===== verification/ShadowSpec.v ===== *)
(** * What the shadow file holds

    The bytes of a file as a function, so that writes in any order and number can be compared; the
    invariant of a shadow file, that every operation keeps it, that updating a page changes the
    checkpoint's view of that page only, and what flushing and applying leave on disk. *)

From stdpp Require Import base numbers list gmap strings.
From Stdlib Require Import ZArith Lia.
From S2P Require Import Prelude Serializer InMemFile BufferedFile WalRecord WalWriter WalReplay ShadowFile.
Import Serializer FileInfo BufferedFile ShadowFile.

(** ** Files as functions *)

(** The byte at position [i], zero past the end. *)
Definition get (i : nat) (c : list Z) : Z := nth i c 0%Z.

Lemma list_eq_get (c c' : list Z) : length c = length c' → (∀ i, i < length c → get i c = get i c') → c = c'.
Proof. intros Hl Hg. apply (nth_ext c c' 0%Z 0%Z Hl). exact Hg. Qed.

Lemma get_past i c : length c ≤ i → get i c = 0%Z.
Proof. apply nth_overflow. Qed.

Lemma get_app i c1 c2 : get i (c1 ++ c2) = if i <? length c1 then get i c1 else get (i - length c1) c2.
Proof.
  unfold get. destruct (Nat.ltb_spec i (length c1)); [apply app_nth1|apply app_nth2]; lia.
Qed.

Lemma get_take i n c : get i (take n c) = if i <? n then get i c else 0%Z.
Proof.
  unfold get. destruct (Nat.ltb_spec i n) as [H|H].
  - rewrite <- (take_drop n c) at 2. destruct (Nat.lt_ge_cases i (length c)) as [Hc|Hc].
    + rewrite app_nth1; [reflexivity|]. rewrite length_take. lia.
    + rewrite !nth_overflow; [reflexivity|rewrite take_drop; lia|rewrite length_take; lia].
  - apply nth_overflow. rewrite length_take. lia.
Qed.

Lemma get_drop i n c : get i (drop n c) = get (n + i) c.
Proof.
  unfold get. destruct (Nat.lt_ge_cases n (length c)) as [H|H].
  - rewrite <- (take_drop n c) at 2. rewrite app_nth2; [|rewrite length_take; lia].
    f_equal. rewrite length_take. lia.
  - rewrite drop_ge by lia. rewrite !nth_overflow; [reflexivity|lia|cbn; lia].
Qed.

Lemma get_replicate i n : get i (replicate n 0%Z) = 0%Z.
Proof. revert i. induction n as [|n IH]; intros [|i]; try reflexivity. apply IH. Qed.

Lemma get_pad i n c : get i (pad n c) = get i c.
Proof.
  unfold pad. rewrite get_app. destruct (Nat.ltb_spec i (length c)); [reflexivity|].
  rewrite (get_past i c) by lia. apply get_replicate.
Qed.

Lemma get_write i off d c :
  get i (apply_op c (Write off d)) = if (off <=? i) && (i <? off + length d) then get (i - off) d else get i c.
Proof.
  destruct d as [|b d].
  - cbn [apply_op length]. destruct (Nat.leb_spec off i), (Nat.ltb_spec i (off + 0)); reflexivity || lia.
  - set (data := b :: d). change (apply_op c (Write off data)) with
      (take off (pad off c) ++ data ++ drop (off + length data) c).
    assert (Hl : length (take off (pad off c)) = off) by (rewrite length_take, length_pad; lia).
    rewrite !get_app, Hl, get_take, get_drop, get_pad.
    destruct (Nat.leb_spec off i), (Nat.ltb_spec i off), (Nat.ltb_spec (i - off) (length data)),
      (Nat.ltb_spec i (off + length data)); cbn [andb]; try lia; try reflexivity. f_equal. lia.
Qed.

Lemma length_write off d c :
  length (apply_op c (Write off d)) = if length d =? 0 then length c else Nat.max (length c) (off + length d).
Proof.
  destruct d as [|b d]; [reflexivity|]. set (data := b :: d).
  change (apply_op c (Write off data)) with (take off (pad off c) ++ data ++ drop (off + length data) c).
  rewrite !length_app, length_take, length_pad, length_drop. cbn [length Nat.eqb data]. fold data. lia.
Qed.

(** ** Sequences of writes *)

Definition is_write (o : fileop) : Prop := match o with Write _ _ => True | Truncate _ => False end.
Definition covers (i : nat) (o : fileop) : bool :=
  match o with Write off d => (off <=? i) && (i <? off + length d) | Truncate _ => false end.
Definition op_end (o : fileop) : nat :=
  match o with Write off d => if length d =? 0 then 0 else off + length d | Truncate _ => 0 end.
Definition ops_end (ops : list fileop) : nat := fold_right (λ o m, Nat.max (op_end o) m) 0 ops.

Lemma length_writes ops c :
  Forall is_write ops → length (fold_left apply_op ops c) = Nat.max (length c) (ops_end ops).
Proof.
  intros H. revert c. induction H as [|o ops Ho _ IH]; intros c; cbn [fold_left ops_end fold_right]; [lia|].
  rewrite IH. destruct o as [off d|]; [|contradiction]. rewrite length_write. cbn [op_end].
  unfold ops_end. destruct (length d =? 0); lia.
Qed.

Lemma get_writes_uncovered ops c i :
  Forall is_write ops → forallb (λ o, negb (covers i o)) ops = true → get i (fold_left apply_op ops c) = get i c.
Proof.
  intros H. revert c. induction H as [|o ops Ho _ IH]; intros c Hc; [reflexivity|].
  cbn [forallb] in Hc. apply andb_true_iff in Hc as [H1 H2]. cbn [fold_left]. rewrite IH by exact H2.
  destruct o as [off d|]; [|contradiction]. rewrite get_write. cbn [covers] in H1.
  apply negb_true_iff in H1. rewrite H1. reflexivity.
Qed.

(** A covered byte comes from the writes, whatever was there before. *)
Lemma get_writes_covered ops c c' i :
  Forall is_write ops → forallb (λ o, negb (covers i o)) ops = false →
  get i (fold_left apply_op ops c) = get i (fold_left apply_op ops c').
Proof.
  intros H. revert c c'. induction H as [|o ops Ho Hops IH]; intros c c' Hc; [discriminate|].
  cbn [forallb fold_left] in *. destruct (forallb (λ o, negb (covers i o)) ops) eqn:Hrest; [|apply IH; exact eq_refl || exact Hrest].
  rewrite andb_true_r in Hc. apply negb_false_iff in Hc.
  rewrite !get_writes_uncovered by assumption. destruct o as [off d|]; [|contradiction].
  rewrite !get_write. cbn [covers] in Hc. rewrite Hc. reflexivity.
Qed.

Lemma ops_end_sublist sub ops : sub `sublist_of` ops → ops_end sub ≤ ops_end ops.
Proof. induction 1; cbn; unfold ops_end in *; cbn; lia. Qed.

(** Doing all writes after some of them have been done gives what doing all of them gives. *)
Lemma writes_absorb ops sub c :
  Forall is_write ops → sub `sublist_of` ops →
  fold_left apply_op ops (fold_left apply_op sub c) = fold_left apply_op ops c.
Proof.
  intros Hw Hs. assert (Hsw : Forall is_write sub).
  { rewrite Forall_forall in Hw |- *. intros o Ho. apply Hw. eapply sublist_subseteq; [exact Hs|exact Ho]. }
  apply list_eq_get.
  - rewrite !length_writes by assumption. pose proof (ops_end_sublist sub ops Hs). lia.
  - intros i _. destruct (forallb (λ o, negb (covers i o)) ops) eqn:Hc.
    + rewrite !(get_writes_uncovered ops) by assumption. apply get_writes_uncovered; [exact Hsw|].
      apply forallb_forall. intros o Ho. rewrite forallb_forall in Hc. apply Hc.
      apply list_elem_of_In. eapply sublist_subseteq; [exact Hs|]. apply list_elem_of_In, Ho.
    + apply get_writes_covered; assumption.
Qed.

(** ** Pages *)

Lemma length_page i c : (i + 1) * PAGE ≤ length c → length (page i c) = PAGE.
Proof. intros H. apply length_slice. lia. Qed.

Lemma get_slice j o n c : get j (slice o n c) = if j <? n then get (o + j) c else 0%Z.
Proof. unfold slice. rewrite get_take, get_drop. reflexivity. Qed.

(** A write of a whole page. *)
Lemma page_write_same q d c : length d = PAGE → page q (apply_op c (Write (q * PAGE) d)) = d.
Proof.
  intros Hd. pose proof InMemFile.page_pos as Hp. assert (Hl : (q + 1) * PAGE ≤ length (apply_op c (Write (q * PAGE) d))).
  { rewrite length_write, Hd. destruct (Nat.eqb_spec PAGE 0); lia. }
  apply list_eq_get; [rewrite length_page by exact Hl; lia|]. intros j Hj. rewrite length_page in Hj by exact Hl.
  unfold page. rewrite get_slice, get_write, Hd, (proj2 (Nat.ltb_lt _ _) Hj).
  rewrite (proj2 (Nat.leb_le _ _)), (proj2 (Nat.ltb_lt _ _)) by lia. cbn. f_equal. lia.
Qed.

Lemma page_write_other p q d c :
  p ≠ q → length d = PAGE → (p + 1) * PAGE ≤ length c →
  page p (apply_op c (Write (q * PAGE) d)) = page p c.
Proof.
  intros Hpq Hd Hl. pose proof InMemFile.page_pos as Hp. assert (Hl' : (p + 1) * PAGE ≤ length (apply_op c (Write (q * PAGE) d))).
  { rewrite length_write. destruct (length d =? 0); lia. }
  apply list_eq_get; [rewrite !length_page by assumption; reflexivity|].
  intros j Hj. rewrite length_page in Hj by exact Hl'. unfold page. rewrite !get_slice, get_write, Hd.
  rewrite (proj2 (Nat.ltb_lt _ _) Hj).
  destruct (Nat.leb_spec (q * PAGE) (p * PAGE + j)), (Nat.ltb_spec (p * PAGE + j) (q * PAGE + PAGE)); cbn; try reflexivity.
  exfalso. apply Hpq. nia.
Qed.

(** A file of [k] pages is the concatenation of its pages. *)
Lemma pages_concat k c : length c = k * PAGE → c = concat (map (λ i, page i c) (seq 0 k)).
Proof.
  intros Hl. assert (H : ∀ n o, concat (map (λ i, page i c) (seq o n)) = slice (o * PAGE) (n * PAGE) c).
  { induction n as [|n IH]; intros o; [reflexivity|]. cbn [seq map concat]. rewrite IH.
    change (S n * PAGE) with (PAGE + n * PAGE). rewrite slice_split. f_equal. f_equal. lia. }
  rewrite H, <- Hl. symmetry. apply slice_all.
Qed.

(** ** The invariant *)

Section Shadow.
(** The index of the data file; no other file is shadowed. *)
Context (fidx : nat).

Definition shadow_of (s : ShadowFile) (p : nat) : option nat :=
  match shadowPagesMap s !! fidx with Some m => m !! p | None => None end.

(** The handle has the header page and a page per record; a shadow page is in a frame or on disk, the
    page [k], if it is not 0, apart. *)
Definition handle_ok (k : nat) (s : ShadowFile) : Prop :=
  match shadowingFH s with
  | None => shadowPageRecords s = [] ∧ shadowFileInfo s = None
  | Some fh =>
      fh_numPages fh = S (length (shadowPageRecords s)) ∧
      length (contents (the_file s)) ≤ fh_numPages fh * PAGE ∧
      (∀ idx c, fh_frames fh !! idx = Some c → 1 ≤ idx < fh_numPages fh ∧ length c = PAGE) ∧
      (∀ idx, 1 ≤ idx < fh_numPages fh → idx ≠ k → fh_frames fh !! idx = None →
              (idx + 1) * PAGE ≤ length (contents (the_file s)))
  end.

(** The map and the records agree: record [i] is of the page whose shadow is page [S i]. *)
Record inv_except (k : nat) (s : ShadowFile) : Prop := {
  inv_map : ∀ p idx, shadow_of s p = Some idx ↔
    ∃ i, idx = S i ∧ shadowPageRecords s !! i = Some (MkShadowPageRecord fidx p);
  inv_files : Forall (λ r, originalFileIdx r = fidx) (shadowPageRecords s);
  inv_handle : handle_ok k s;
}.
Abbreviation inv := (inv_except 0).

Lemma hasShadowPage_iff p s : hasShadowPage fidx p s = match shadow_of s p with Some _ => true | None => false end.
Proof.
  unfold hasShadowPage, shadow_of. destruct (shadowPagesMap s !! fidx) as [m|]; [|reflexivity].
  destruct (m !! p); [rewrite bool_decide_true|rewrite bool_decide_false]; try reflexivity; [eauto|]. intros [? ?]. discriminate.
Qed.

Lemma getShadowPage_iff p s idx : shadow_of s p = Some idx → getShadowPage fidx p s = Ok idx.
Proof. unfold shadow_of, getShadowPage. destruct (shadowPagesMap s !! fidx) as [m|]; [|discriminate]. intros ->. reflexivity. Qed.

Lemma checkpoint_view_eq data s p :
  checkpoint_view fidx data s p = match shadow_of s p with Some idx => shadow_page idx s | None => page p data end.
Proof.
  unfold checkpoint_view. rewrite hasShadowPage_iff. destruct (shadow_of s p) as [idx|] eqn:H; [|reflexivity].
  rewrite (getShadowPage_iff p s idx H). reflexivity.
Qed.

Lemma shadow_inv_new : inv ShadowFile_new.
Proof.
  split; [|constructor|split; reflexivity]. intros p idx. unfold shadow_of. cbn. rewrite lookup_empty.
  split; [discriminate|]. intros (i & _ & H). rewrite lookup_nil in H. discriminate.
Qed.

Lemma shadow_bound k s p idx : inv_except k s → shadow_of s p = Some idx → 1 ≤ idx ≤ length (shadowPageRecords s).
Proof.
  intros Hi H. apply (inv_map k s Hi) in H as (i & -> & Hr). apply lookup_lt_Some in Hr. lia.
Qed.

Lemma shadow_handle k s p idx :
  inv_except k s → shadow_of s p = Some idx →
  ∃ fh, shadowingFH s = Some fh ∧ 1 ≤ idx < fh_numPages fh.
Proof.
  intros Hi H. pose proof (shadow_bound k s p idx Hi H) as Hb. pose proof (inv_handle k s Hi) as Hh.
  unfold handle_ok in Hh. destruct (shadowingFH s) as [fh|]; [|destruct Hh as [Hr _]; rewrite Hr in Hb; cbn in Hb; lia].
  exists fh. split; [reflexivity|]. destruct Hh as [-> _]. lia.
Qed.

Lemma length_shadow_page s idx :
  inv s → 1 ≤ idx ≤ length (shadowPageRecords s) → length (shadow_page idx s) = PAGE.
Proof.
  intros Hi Hb. pose proof (inv_handle 0 s Hi) as Hh. unfold handle_ok in Hh. unfold shadow_page.
  destruct (shadowingFH s) as [fh|]; [|destruct Hh as [Hr _]; rewrite Hr in Hb; cbn in Hb; lia].
  destruct Hh as (Hn & _ & Hf & Hd). destruct (fh_frames fh !! idx) as [c|] eqn:Hc; [apply (Hf idx c Hc)|].
  apply length_page, Hd; [lia|lia|exact Hc].
Qed.

(** *** Frames *)

Lemma shadow_page_set_frame s fh idx c j :
  shadowingFH s = Some fh → shadow_page j (set_frame idx c s) = if decide (j = idx) then c else shadow_page j s.
Proof.
  intros Hf. unfold set_frame, shadow_page. rewrite Hf. cbn [shadowingFH set_handle fh_frames].
  destruct (decide (j = idx)) as [->|Hne]; [rewrite lookup_insert_eq; reflexivity|].
  rewrite lookup_insert_ne by congruence. reflexivity.
Qed.

Lemma set_frame_inv k s fh idx c :
  inv_except k s → (k = 0 ∨ k = idx) → shadowingFH s = Some fh → 1 ≤ idx < fh_numPages fh → length c = PAGE →
  inv (set_frame idx c s).
Proof.
  intros [Hm Hfs Hh] Hk Hf Hidx Hc. unfold set_frame. rewrite Hf. split; [exact Hm|exact Hfs|].
  unfold handle_ok in *. rewrite Hf in Hh. cbn [shadowingFH set_handle fh_numPages fh_frames].
  destruct Hh as (Hn & Hl & Hfr & Hd). split; [exact Hn|]. split; [exact Hl|]. split.
  - intros j cj. destruct (decide (j = idx)) as [->|Hne].
    + rewrite lookup_insert_eq. intros [= <-]. auto.
    + rewrite lookup_insert_ne by congruence. apply Hfr.
  - intros j Hj _. destruct (decide (j = idx)) as [->|Hne]; [rewrite lookup_insert_eq; discriminate|].
    rewrite lookup_insert_ne by congruence. intros Hnone. apply Hd; [exact Hj|lia|exact Hnone].
Qed.

(** Evicting a frame does not change the page. *)
Lemma evict_inv idx s : inv s → inv (evict idx s) ∧ ∀ data p, checkpoint_view fidx data (evict idx s) p = checkpoint_view fidx data s p.
Proof.
  intros Hi. unfold evict. destruct (shadowingFH s) as [fh|] eqn:Hf; [|auto].
  destruct (fh_frames fh !! idx) as [c|] eqn:Hc; [|auto].
  destruct Hi as [Hm Hfs Hh]. unfold handle_ok in Hh. rewrite Hf in Hh. destruct Hh as (Hn & Hl & Hfr & Hd).
  destruct (Hfr idx c Hc) as [Hidx Hlc]. pose proof InMemFile.page_pos as Hp.
  assert (Hlen : length (apply_op (contents (the_file s)) (Write (idx * PAGE) c)) = Nat.max (length (contents (the_file s))) (idx * PAGE + PAGE)).
  { rewrite length_write, Hlc. destruct (Nat.eqb_spec PAGE 0); [lia|reflexivity]. }
  set (s' := set_handle _ _).
  assert (Hfile : contents (the_file s') = apply_op (contents (the_file s)) (Write (idx * PAGE) c)) by apply contents_writeFile.
  split.
  - split; [exact Hm|exact Hfs|]. unfold handle_ok. rewrite Hfile, Hlen.
    cbn [s' shadowingFH set_handle set_file fh_numPages fh_frames shadowPageRecords].
    split; [exact Hn|]. split; [nia|]. split.
    + intros j cj Hj. apply lookup_delete_Some in Hj as [_ Hj]. apply Hfr, Hj.
    + intros j Hj Hj0 Hnone. destruct (decide (j = idx)) as [->|Hne]; [lia|].
      rewrite lookup_delete_ne in Hnone by congruence. specialize (Hd j Hj Hj0 Hnone). lia.
  - intros data p. rewrite !checkpoint_view_eq. change (shadow_of s' p) with (shadow_of s p).
    destruct (shadow_of s p) as [j|] eqn:Hs; [|reflexivity].
    unfold shadow_page. rewrite Hf, Hfile. cbn [s' shadowingFH set_handle fh_frames].
    destruct (decide (j = idx)) as [->|Hne].
    + rewrite lookup_delete_eq, Hc. apply page_write_same, Hlc.
    + rewrite lookup_delete_ne by congruence. destruct (fh_frames fh !! j) eqn:Hj; [reflexivity|].
      apply page_write_other; [exact Hne|exact Hlc|].
      assert (Hb : 1 ≤ j < fh_numPages fh).
      { apply Hm in Hs as (i & -> & Hr). apply lookup_lt_Some in Hr. lia. }
      apply Hd; [exact Hb|lia|exact Hj].
Qed.

(** *** Updating a page *)

Lemma open_handle s :
  inv s →
  ∃ fh s0, getOrCreateShadowingFH s = (fh, s0) ∧ fh_numPages fh = S (length (shadowPageRecords s)) ∧
    shadowingFH s0 = Some fh ∧ shadowPagesMap s0 = shadowPagesMap s ∧
    shadowPageRecords s0 = shadowPageRecords s ∧ (∀ j, shadow_page j s0 = shadow_page j s) ∧ handle_ok 0 s0.
Proof.
  intros Hi. pose proof (inv_handle 0 s Hi) as Hh. unfold getOrCreateShadowingFH.
  destruct (shadowingFH s) as [fh|] eqn:Hf.
  - exists fh, s. split_and!; try reflexivity; [|exact Hf|exact Hh]. unfold handle_ok in Hh. rewrite Hf in Hh. apply Hh.
  - unfold handle_ok in Hh. rewrite Hf in Hh. destruct Hh as [Hr Hnf].
    assert (H0 : getFileSize (the_file s) = 0) by (unfold the_file; rewrite Hnf; reflexivity).
    rewrite H0, (Nat.div_small (0 + _)) by (pose proof InMemFile.page_pos; lia). cbn [Nat.eqb].
    eexists _, _. split; [reflexivity|]. rewrite Hr. split_and!; try reflexivity; [exact Hr| |].
    + intros j. unfold shadow_page. rewrite Hf. cbn [shadowingFH set_handle fh_frames]. rewrite lookup_empty. reflexivity.
    + unfold handle_ok. cbn [shadowingFH set_handle fh_numPages fh_frames shadowPageRecords set_file]. rewrite Hr.
      split; [reflexivity|]. split.
      * change (length (contents (the_file s)) ≤ 1 * PAGE). unfold getFileSize in H0. lia.
      * split; [intros idx c; rewrite lookup_empty; discriminate|]. intros idx Hb. lia.
Qed.

(** The map and the records with one page more. *)
Lemma extend_map s p (s1 : ShadowFile) :
  inv s → shadow_of s p = None →
  shadowPageRecords s1 = shadowPageRecords s ++ [MkShadowPageRecord fidx p] →
  (∀ q, shadow_of s1 q = if decide (q = p) then Some (S (length (shadowPageRecords s))) else shadow_of s q) →
  ∀ q idx, shadow_of s1 q = Some idx ↔
    ∃ i, idx = S i ∧ shadowPageRecords s1 !! i = Some (MkShadowPageRecord fidx q).
Proof.
  intros Hi Hnone Hr Hsh q idx. rewrite Hsh, Hr. destruct (decide (q = p)) as [->|Hq].
  - split.
    + intros [= <-]. exists (length (shadowPageRecords s)). split; [reflexivity|]. apply list_lookup_middle. reflexivity.
    + intros (i & -> & Hri). apply lookup_app_Some in Hri as [Hri|[Hge Hri]].
      * exfalso. assert (shadow_of s p = Some (S i)) by (apply (inv_map 0 s Hi); eauto). congruence.
      * apply lookup_lt_Some in Hri. cbn in Hri. do 2 f_equal. lia.
  - rewrite (inv_map 0 s Hi q idx). split; intros (i & -> & Hri); exists i; (split; [reflexivity|]).
    + apply lookup_app_l_Some, Hri.
    + apply lookup_app_Some in Hri as [Hri|[Hge Hri]]; [exact Hri|].
      apply list_lookup_singleton_Some in Hri as [_ Hri]. injection Hri as <-. contradiction.
Qed.

(** A page without a shadow gets the next page of the shadow file. *)
Lemma create_shadow s p :
  inv s → shadow_of s p = None →
  let k := S (length (shadowPageRecords s)) in
  ∃ s1 fh, getOrCreateShadowPage fidx p s = (Ok k, s1) ∧ inv_except k s1 ∧
    shadowingFH s1 = Some fh ∧ 1 ≤ k < fh_numPages fh ∧
    shadowPageRecords s1 = shadowPageRecords s ++ [MkShadowPageRecord fidx p] ∧
    (∀ q, shadow_of s1 q = if decide (q = p) then Some k else shadow_of s q) ∧
    (∀ j, shadow_page j s1 = shadow_page j s).
Proof.
  intros Hi Hnone k. unfold getOrCreateShadowPage, getOrCreateShadowPage_asking. rewrite hasShadowPage_iff, Hnone.
  destruct (open_handle s Hi) as (fh & s0 & Hfh & Hn & Hf0 & Hm0 & Hr0 & Hp0 & Hh0). rewrite Hfh, Hn.
  fold k in Hn |- *. set (s1 := MkShadowFile _ _ _ _).
  assert (Hsh : ∀ q, shadow_of s1 q = if decide (q = p) then Some k else shadow_of s q).
  { intros q. unfold shadow_of, s1. cbn [shadowPagesMap]. rewrite lookup_insert_eq, Hm0. destruct (decide (q = p)) as [->|Hq].
    - apply lookup_insert_eq.
    - rewrite lookup_insert_ne by congruence. destruct (shadowPagesMap s !! fidx); [reflexivity|apply lookup_empty]. }
  assert (Hr1 : shadowPageRecords s1 = shadowPageRecords s ++ [MkShadowPageRecord fidx p])
    by (cbn [s1 shadowPageRecords]; rewrite Hr0; reflexivity).
  exists s1, (MkFileHandle (S k) (fh_frames fh)). split; [reflexivity|].
  split; [|split; [reflexivity|split; [cbn; lia|split; [exact Hr1|split; [exact Hsh|]]]]].
  - split; [apply (extend_map s p s1 Hi Hnone Hr1 Hsh)| |].
    + rewrite Hr1. apply Forall_app. split; [apply (inv_files 0 s Hi)|]. repeat constructor.
    + unfold handle_ok in *. rewrite Hf0 in Hh0. destruct Hh0 as (_ & Hl & Hfr & Hd). rewrite Hr1.
      change (the_file s1) with (the_file s0). cbn [s1 shadowingFH fh_numPages fh_frames]. rewrite Hn in *.
      split; [rewrite length_app; cbn; unfold k; lia|]. split; [nia|]. split.
      * intros idx c Hc. destruct (Hfr idx c Hc). lia.
      * intros idx Hb Hne Hnone'. apply Hd; [lia|lia|exact Hnone'].
  - intros j. rewrite <- Hp0. unfold shadow_page. rewrite Hf0. reflexivity.
Qed.

Lemma shadow_inj k s p q idx : inv_except k s → shadow_of s p = Some idx → shadow_of s q = Some idx → p = q.
Proof.
  intros Hi Hp Hq. apply (inv_map k s Hi) in Hp as (i & -> & Hp). apply (inv_map k s Hi) in Hq as (j & [= <-] & Hq).
  rewrite Hp in Hq. injection Hq. auto.
Qed.

Lemma shadow_of_set_frame s idx c q : shadow_of (set_frame idx c s) q = shadow_of s q.
Proof. unfold set_frame. destruct (shadowingFH s); reflexivity. Qed.

(** Setting the frame of the shadow of [p]. *)
Lemma set_page_spec k s p idx c :
  inv_except k s → (k = 0 ∨ k = idx) → shadow_of s p = Some idx → length c = PAGE →
  inv (set_frame idx c s) ∧ shadow_page idx (set_frame idx c s) = c ∧
  (∀ q j, q ≠ p → shadow_of s q = Some j → shadow_page j (set_frame idx c s) = shadow_page j s).
Proof.
  intros Hi Hk Hs Hc. destruct (shadow_handle k s p idx Hi Hs) as (fh & Hf & Hb).
  split; [apply (set_frame_inv k s fh idx c Hi Hk Hf Hb Hc)|]. split.
  - rewrite (shadow_page_set_frame s fh) by exact Hf. rewrite decide_True by reflexivity. reflexivity.
  - intros q j Hq Hj. rewrite (shadow_page_set_frame s fh) by exact Hf. rewrite decide_False; [reflexivity|].
    intros ->. apply Hq. apply (shadow_inj k s q p idx Hi Hj Hs).
Qed.

Section Update.
Context (stale : list Z) (Hstale : length stale = PAGE).

(** What an update starts from: the checkpoint's view, or a stale frame where it does not read. *)
Definition update_base (s : ShadowFile) (data : list Z) (p : nat) (skip : bool) : list Z :=
  match shadow_of s p with
  | Some idx => shadow_page idx s
  | None => if skip then stale else page p data
  end.

Definition readable (s : ShadowFile) (data : list Z) (p : nat) (skip : bool) : Prop :=
  skip = true ∨ shadow_of s p ≠ None ∨ (p + 1) * PAGE ≤ length data.

Lemma length_update_base s data p skip : inv s → readable s data p skip → length (update_base s data p skip) = PAGE.
Proof.
  intros Hi Hr. unfold update_base. destruct (shadow_of s p) as [idx|] eqn:Hs.
  - apply (length_shadow_page s idx Hi), (shadow_bound 0 s p idx Hi Hs).
  - destruct skip; [exact Hstale|]. apply length_page. destruct Hr as [Hr|[Hr|Hr]]; [discriminate|contradiction|exact Hr].
Qed.

(** [createShadowVersionIfNecessaryAndPinPage] *)
Lemma pin_spec s p skip data :
  inv s → readable s data p skip →
  ∃ idx s1, createShadowVersionIfNecessaryAndPinPage stale fidx p skip data s = (Ok idx, s1) ∧ inv s1 ∧
    shadow_of s1 p = Some idx ∧ shadow_page idx s1 = update_base s data p skip ∧
    (∀ q, q ≠ p → shadow_of s1 q = shadow_of s q) ∧
    (∀ q j, q ≠ p → shadow_of s q = Some j → shadow_page j s1 = shadow_page j s).
Proof.
  intros Hi Hr. pose proof (length_update_base s data p skip Hi Hr) as Hlen.
  unfold createShadowVersionIfNecessaryAndPinPage, createShadowVersionIfNecessaryAndPinPage_asking. unfold_M.
  fold getOrCreateShadowPage. rewrite hasShadowPage_iff. unfold update_base in *.
  destruct (shadow_of s p) as [idx|] eqn:Hs.
  - assert (Hget : getOrCreateShadowPage fidx p s = (Ok idx, s)).
    { unfold getOrCreateShadowPage, getOrCreateShadowPage_asking. rewrite hasShadowPage_iff, Hs, (getShadowPage_iff p s idx Hs). reflexivity. }
    rewrite Hget. destruct (set_page_spec 0 s p idx _ Hi (or_introl eq_refl) Hs Hlen) as (H1 & H2 & H3).
    eexists _, _. split; [reflexivity|]. split; [exact H1|]. rewrite shadow_of_set_frame. split; [exact Hs|].
    split; [exact H2|]. split; [intros q _; apply shadow_of_set_frame|exact H3].
  - destruct (create_shadow s p Hi Hs) as (s1 & fh & Hget & Hi1 & _ & _ & _ & Hsh & Hp1). rewrite Hget.
    set (k := S (length (shadowPageRecords s))) in *.
    assert (Hs1 : shadow_of s1 p = Some k) by (rewrite Hsh, decide_True by reflexivity; reflexivity).
    destruct (set_page_spec k s1 p k _ Hi1 (or_intror eq_refl) Hs1 Hlen) as (H1 & H2 & H3).
    eexists _, _. split; [reflexivity|]. split; [exact H1|]. rewrite shadow_of_set_frame. split; [exact Hs1|].
    split; [exact H2|]. split.
    + intros q Hq. rewrite shadow_of_set_frame, Hsh, decide_False by exact Hq. reflexivity.
    + intros q j Hq Hj. rewrite <- (Hp1 j). apply (H3 q j Hq). rewrite Hsh, decide_False by exact Hq. exact Hj.
Qed.

(** Updating a page changes the checkpoint's view of it by the update and of no other page. *)
Lemma updatePage_spec s p skip data op :
  inv s → (∀ c, length c = PAGE → length (op c) = PAGE) → readable s data p skip →
  ∃ s', updatePage stale fidx p skip data op s = (Ok tt, s') ∧ inv s' ∧
    checkpoint_view fidx data s' p = op (update_base s data p skip) ∧
    (∀ q, q ≠ p → checkpoint_view fidx data s' q = checkpoint_view fidx data s q) ∧
    (∀ q, shadow_of s' q ≠ None ↔ q = p ∨ shadow_of s q ≠ None).
Proof.
  intros Hi Hop Hr. destruct (pin_spec s p skip data Hi Hr) as (idx & s1 & Hpin & Hi1 & Hs1 & Hb1 & Hsh1 & Hp1).
  unfold updatePage, updatePage_asking. fold (createShadowVersionIfNecessaryAndPinPage stale). rewrite (M_bind_ok _ _ _ _ _ Hpin). unfold modify. rewrite Hb1.
  pose proof (Hop _ (length_update_base s data p skip Hi Hr)) as Hlen.
  destruct (set_page_spec 0 s1 p idx _ Hi1 (or_introl eq_refl) Hs1 Hlen) as (H1 & H2 & H3).
  eexists. split; [reflexivity|]. split; [exact H1|]. split; [|split].
  - rewrite checkpoint_view_eq, shadow_of_set_frame, Hs1. exact H2.
  - intros q Hq. rewrite !checkpoint_view_eq, shadow_of_set_frame, (Hsh1 q Hq).
    destruct (shadow_of s q) as [j|] eqn:Hj; [|reflexivity].
    rewrite (H3 q j Hq) by (rewrite Hsh1 by exact Hq; exact Hj). apply (Hp1 q j Hq Hj).
  - intros q. rewrite shadow_of_set_frame. destruct (decide (q = p)) as [->|Hq].
    + rewrite Hs1. split; [auto|discriminate].
    + rewrite (Hsh1 q Hq). split; [auto|]. intros [?|?]; [contradiction|assumption].
Qed.
End Update.

(** *** Flushing *)

Definition flush_frames (frames : gmap nat (list Z)) (l : list nat) (f : FileInfo) : FileInfo :=
  fold_left (λ f pageIdx, match frames !! pageIdx with
                          | Some c => writeFile c (pageIdx * PAGE) f
                          | None => f
                          end) l f.

Lemma flush_frames_spec frames l f :
  NoDup l → (∀ idx c, frames !! idx = Some c → length c = PAGE) →
  let c' := contents (flush_frames frames l f) in
  length (contents f) ≤ length c' ∧
  (∀ m, length (contents f) ≤ m * PAGE → (∀ idx, idx ∈ l → idx < m) → length c' ≤ m * PAGE) ∧
  (∀ idx c, idx ∈ l → frames !! idx = Some c → (idx + 1) * PAGE ≤ length c' ∧ page idx c' = c) ∧
  (∀ idx, (idx ∉ l ∨ frames !! idx = None) → (idx + 1) * PAGE ≤ length (contents f) →
          page idx c' = page idx (contents f)).
Proof.
  intros Hnd Hfr. revert f. induction Hnd as [|i l Hni Hnd IH]; intros f.
  - change (flush_frames frames [] f) with f. split_and!; [lia|auto| |auto]. intros idx c Hin. apply elem_of_nil in Hin. contradiction.
  - change (flush_frames frames (i :: l) f) with
      (flush_frames frames l (match frames !! i with Some c => writeFile c (i * PAGE) f | None => f end)).
    destruct (frames !! i) as [c|] eqn:Hi.
    + destruct (IH (writeFile c (i * PAGE) f)) as (H1 & H2 & H3 & H4). rewrite contents_writeFile in *.
      pose proof (Hfr i c Hi) as Hlc. pose proof InMemFile.page_pos as Hpp.
      assert (Hlen : length (apply_op (contents f) (Write (i * PAGE) c)) = Nat.max (length (contents f)) (i * PAGE + PAGE))
        by (rewrite length_write, Hlc; destruct (Nat.eqb_spec PAGE 0); [lia|reflexivity]).
      rewrite Hlen in *. split_and!; [lia| | |].
      * intros m Hm Hall. apply H2; [|intros idx Hin; apply Hall; right; exact Hin].
        specialize (Hall i ltac:(left)). nia.
      * intros idx c' Hin Hc'. apply elem_of_cons in Hin as [->|Hin]; [|apply H3; assumption].
        rewrite Hi in Hc'. injection Hc' as <-. split; [lia|].
        rewrite H4; [apply page_write_same, Hlc|left; exact Hni|lia].
      * intros idx Hor Hb. assert (Hne : idx ≠ i) by (intros ->; destruct Hor as [Hor|Hor]; [apply Hor; left|congruence]).
        rewrite H4; [apply page_write_other; assumption| |lia].
        destruct Hor as [Hor|Hor]; [left; intros Hin; apply Hor; right; exact Hin|right; exact Hor].
    + destruct (IH f) as (H1 & H2 & H3 & H4). split_and!; [exact H1| | |].
      * intros m Hm Hall. apply H2; [exact Hm|]. intros idx Hin. apply Hall. right. exact Hin.
      * intros idx c' Hin Hc'. apply elem_of_cons in Hin as [->|Hin]; [congruence|]. apply H3; assumption.
      * intros idx Hor Hb. apply H4; [|exact Hb].
        destruct Hor as [Hor|Hor]; [left; intros Hin; apply Hor; right; exact Hin|right; exact Hor].
Qed.

Section Flush.
Context (checked : bool) (padding : list Z) (Hpadding : length padding = 4).

Lemma length_header_page db n : length (header_page padding db n) = PAGE.
Proof.
  unfold header_page. rewrite length_app, length_replicate.
  assert (H : length (serializeValue 16 db ++ serializeValue 4 (Z.of_nat n) ++ padding) ≤ PAGE).
  { rewrite !length_app. unfold serializeValue. rewrite !length_le_bytes, Hpadding. apply Nat.leb_le. vm_compute. reflexivity. }
  lia.
Qed.

(** The shadow pages in the order of the records. *)
Definition shadow_pages (s : ShadowFile) : list (list Z) :=
  map (λ idx, shadow_page idx s) (seq 1 (length (shadowPageRecords s))).

(** The bytes of a complete shadow file. *)
Definition shadow_image (db : Z) (s : ShadowFile) : list Z :=
  header_page padding db (length (shadowPageRecords s)) ++ concat (shadow_pages s) ++
  concat (records_serialize (shadowPageRecords s)).

(** The header and the dirty pages written: all pages are on disk. *)
Lemma flush_pages_contents db s fh :
  inv s → shadowingFH s = Some fh →
  contents (flushAllDirtyPagesInFrames fh
    (writeFile (header_page padding db (length (shadowPageRecords s))) 0 (the_file s))) =
  header_page padding db (length (shadowPageRecords s)) ++ concat (shadow_pages s).
Proof.
  intros Hi Hf. pose proof (inv_handle 0 s Hi) as Hh. unfold handle_ok in Hh. rewrite Hf in Hh.
  destruct Hh as (Hn & Hl & Hfr & Hd). set (n := length (shadowPageRecords s)) in *. pose proof InMemFile.page_pos as Hpp.
  set (h := header_page padding db n). pose proof (length_header_page db n) as Hlh. fold h in Hlh.
  destruct (flush_frames_spec (fh_frames fh) (seq 0 (fh_numPages fh)) (writeFile h 0 (the_file s))) as (H1 & H2 & H3 & H4).
  { apply NoDup_seq. } { intros idx c Hc. apply (Hfr idx c Hc). }
  change (flush_frames _ _ _) with (flushAllDirtyPagesInFrames fh (writeFile h 0 (the_file s))) in *.
  set (c' := contents (flushAllDirtyPagesInFrames fh (writeFile h 0 (the_file s)))) in *.
  rewrite contents_writeFile in *.
  assert (Hlw : length (apply_op (contents (the_file s)) (Write 0 h)) = Nat.max (length (contents (the_file s))) PAGE)
    by (rewrite length_write, Hlh; destruct (Nat.eqb_spec PAGE 0); [lia|reflexivity]).
  rewrite Hlw in *. rewrite Hn in *.
  assert (Hpage : ∀ idx, 1 ≤ idx < S n → (idx + 1) * PAGE ≤ length c' ∧ page idx c' = shadow_page idx s).
  { intros idx Hidx. unfold shadow_page. rewrite Hf. destruct (fh_frames fh !! idx) as [c|] eqn:Hc.
    - apply H3; [apply elem_of_seq; lia|exact Hc].
    - specialize (Hd idx Hidx ltac:(lia) Hc). split; [lia|]. rewrite H4; [|right; exact Hc|lia].
      apply (page_write_other idx 0); [lia|exact Hlh|exact Hd]. }
  assert (H0 : page 0 c' = h).
  { rewrite H4; [apply (page_write_same 0 h (contents (the_file s)) Hlh)| |lia].
    right. destruct (fh_frames fh !! 0) as [c|] eqn:Hc; [destruct (Hfr 0 c Hc); lia|reflexivity]. }
  assert (Hlen : length c' = S n * PAGE).
  { apply Nat.le_antisymm; [apply H2; [lia|]; intros idx Hin; apply elem_of_seq in Hin; lia|].
    destruct n as [|n']; [lia|]. destruct (Hpage (S n') ltac:(lia)) as [Hlast _]. lia. }
  rewrite (pages_concat (S n) c' Hlen). cbn [seq map concat]. rewrite H0. f_equal. unfold shadow_pages. fold n.
  f_equal. apply map_ext_in. intros idx Hin. apply in_seq in Hin. apply Hpage. lia.
Qed.

Lemma length_shadow_pages s : inv s → length (concat (shadow_pages s)) = length (shadowPageRecords s) * PAGE.
Proof.
  intros Hi. unfold shadow_pages.
  assert (H : ∀ l, (∀ idx, In idx l → 1 ≤ idx ≤ length (shadowPageRecords s)) →
    length (concat (map (λ idx, shadow_page idx s) l)) = length l * PAGE).
  { induction l as [|i l IH]; intros Hl; [reflexivity|]. cbn [map concat length]. rewrite length_app, IH.
    - rewrite (length_shadow_page s i Hi) by (apply Hl; left; reflexivity). lia.
    - intros idx Hin. apply Hl. right. exact Hin. }
  rewrite H; [rewrite length_seq; reflexivity|]. intros idx Hin. apply in_seq in Hin. lia.
Qed.

(** [flushAll] leaves the complete shadow file on disk, synced. *)
Lemma flushAll_image db s fh :
  inv s → shadowingFH s = Some fh →
  ∃ s1, flushAll_unsynced checked padding db s = Ok s1 ∧ contents (the_file s1) = shadow_image db s ∧
    shadowPageRecords s1 = shadowPageRecords s ∧ shadowPagesMap s1 = shadowPagesMap s ∧
    shadowingFH s1 = Some (MkFileHandle (fh_numPages fh) ∅) ∧
    flushAll checked padding db s = Ok (set_file (MkFileInfo (shadow_image db s) []) s1).
Proof.
  intros Hi Hf. pose proof (flush_pages_contents db s fh Hi Hf) as Hc. unfold flushAll, flushAll_unsynced. rewrite Hf.
  pose proof (inv_handle 0 s Hi) as Hh. unfold handle_ok in Hh. rewrite Hf in Hh. destruct Hh as (Hn & _).
  rewrite Nat.add_1_r, <- Hn, Nat.eqb_refl, andb_false_r, outcome_bind_Ok.
  set (f1 := flushAllDirtyPagesInFrames fh _) in *.
  assert (Hoff : fh_numPages fh * PAGE = getFileSize f1).
  { unfold getFileSize. rewrite Hc, length_app, length_header_page, (length_shadow_pages s Hi). rewrite Hn. lia. }
  rewrite Hoff. destruct (buffered_write_all_appends (records_serialize (shadowPageRecords s)) _ (appending_new f1)) as [Ha Hw].
  destruct (flush_appends _ Ha) as (_ & Hfl & _). rewrite Hw, written_new, Hc, <- app_assoc in Hfl.
  set (s1 := set_handle (MkFileHandle (fh_numPages fh) ∅) _).
  assert (Hfile : contents (the_file s1) = shadow_image db s) by exact Hfl.
  exists s1. split; [reflexivity|]. split; [exact Hfile|]. split_and!; try reflexivity.
  unfold syncFile. rewrite Hfile. reflexivity.
Qed.
End Flush.
End Shadow.
