(* ===== verification/ShadowTheorems.v ===== *)
(** * The shadow file refines a memory of pages

    What a checkpoint sees through the shadow file, while it updates pages and the buffer manager evicts
    frames, is what a memory of pages without files would give it; the data file is not touched. *)

From stdpp Require Import base numbers list gmap strings.
From Stdlib Require Import ZArith Lia.
From S2P Require Import Prelude Serializer InMemFile BufferedFile WalRecord WalWriter WalReplay ShadowFile ShadowSpec.
Import Serializer FileInfo BufferedFile ShadowFile.

(** What happens to shadow pages during a checkpoint. *)
Inductive cmd : Type :=
  | Update (p : nat) (skipReadingOriginalPage : bool) (op : list Z → list Z)
  | Evict (idx : nat).

(** The abstract memory: a page per number. *)
Definition memory : Type := nat → list Z.
Definition step_memory (m : memory) (c : cmd) : memory :=
  match c with
  | Update p _ op => λ q, if decide (q = p) then op (m p) else m q
  | Evict _ => m
  end.

Section Refinement.
Context (fidx : nat) (stale : list Z) (Hstale : length stale = PAGE).

Definition step_shadow (data : list Z) (c : cmd) : M ShadowFile unit :=
  match c with
  | Update p skip op => updatePage stale fidx p skip data op
  | Evict idx => modify (evict idx)
  end.

(** Updates keep the size of a page; one that does not read the original writes the whole page, and one
    that does is of a page of the data file. *)
Definition cmd_ok (data : list Z) (c : cmd) : Prop :=
  match c with
  | Update p skip op =>
      (∀ c, length c = PAGE → length (op c) = PAGE) ∧
      if skip then ∀ c c', op c = op c' else (p + 1) * PAGE ≤ length data
  | Evict _ => True
  end.

Lemma step_refines data s c :
  inv_except fidx 0 s → cmd_ok data c →
  ∃ s', step_shadow data c s = (Ok tt, s') ∧ inv_except fidx 0 s' ∧
    ∀ p, checkpoint_view fidx data s' p = step_memory (checkpoint_view fidx data s) c p.
Proof.
  intros Hi Hok. destruct c as [p skip op|idx].
  - destruct Hok as [Hop Hsk]. destruct (updatePage_spec fidx stale Hstale s p skip data op Hi Hop) as (s' & Hu & Hi' & Hp & Hq & _).
    { destruct skip; [left; reflexivity|right; right; exact Hsk]. }
    exists s'. split; [exact Hu|]. split; [exact Hi'|]. intros q. cbn [step_memory]. destruct (decide (q = p)) as [->|Hne]; [|apply Hq, Hne].
    rewrite Hp. destruct skip; [apply Hsk|]. f_equal. unfold update_base. rewrite checkpoint_view_eq.
    destruct (shadow_of fidx s p); reflexivity.
  - destruct (evict_inv fidx idx s Hi) as [H1 H2]. exists (evict idx s). split; [reflexivity|]. split; [exact H1|]. intros p. apply H2.
Qed.

Lemma step_memory_ext m m' c : (∀ p, m p = m' p) → ∀ p, step_memory m c p = step_memory m' c p.
Proof. intros H p. destruct c as [q skip op|idx]; cbn [step_memory]; [|apply H]. destruct (decide _); [f_equal|]; apply H. Qed.

Lemma steps_memory_ext cs m m' : (∀ p, m p = m' p) → ∀ p, fold_left step_memory cs m p = fold_left step_memory cs m' p.
Proof. revert m m'. induction cs as [|c cs IH]; intros m m' H; [exact H|]. apply IH, step_memory_ext, H. Qed.

(** C25. The shadow file refines a memory of pages. Any sequence of page updates, with frames evicted in
    between at will, returns and leaves a well-formed shadow file, through which every page is seen as
    the same updates on a memory of pages would leave it, starting from what was seen before. An update that
    does not read the original overwrites the whole page, updates keep the length of a page, and the buffer
    manager grants the requests (otherwise see [refused_group_harmless] and [refused_pin_leaves_page]). *)
Theorem shadow_refines_memory data s cs :
  inv_except fidx 0 s → Forall (cmd_ok data) cs →
  ∃ s', for_each cs (step_shadow data) s = (Ok tt, s') ∧ inv_except fidx 0 s' ∧
    ∀ p, checkpoint_view fidx data s' p = fold_left step_memory cs (checkpoint_view fidx data s) p.
Proof.
  intros Hi Hcs. revert s Hi. induction Hcs as [|c cs Hc _ IH]; intros s Hi.
  - exists s. split; [reflexivity|]. auto.
  - destruct (step_refines data s c Hi Hc) as (s1 & H1 & Hi1 & Hv1). destruct (IH s1 Hi1) as (s2 & H2 & Hi2 & Hv2).
    exists s2. rewrite (for_each_cons_ok _ _ _ _ s1 H1). split; [exact H2|]. split; [exact Hi2|].
    intros p. rewrite Hv2. cbn [fold_left]. apply steps_memory_ext, Hv1.
Qed.
End Refinement.

(** A page with its first byte set. *)
Definition poke (b : Z) (c : list Z) : list Z := match c with [] => [] | _ :: c' => b :: c' end.
Definition two_pages : list Z := replicate (2 * PAGE) 7%Z.

Lemma shadow_refines_memory_witness :
  let cs := [Update 1 false (poke 8); Evict 1; Update 0 true (λ _, replicate PAGE 3%Z); Update 1 false (poke 9)] in
  ∃ s', for_each cs (step_shadow 0 (replicate PAGE 0%Z) two_pages) ShadowFile_new = (Ok tt, s') ∧
    checkpoint_view 0 two_pages s' 1 = poke 9 (replicate PAGE 7%Z) ∧
    checkpoint_view 0 two_pages s' 0 = replicate PAGE 3%Z.
Proof.
  intros cs.
  assert (Hcs : Forall (cmd_ok two_pages) cs).
  { repeat constructor; cbn [cmd_ok]; auto using length_replicate;
      try (intros [|x c] Hl; exact Hl); apply Nat.leb_le; vm_compute; reflexivity. }
  destruct (shadow_refines_memory 0 (replicate PAGE 0%Z) (length_replicate _ _) two_pages ShadowFile_new cs (shadow_inv_new 0) Hcs)
    as (s' & H1 & _ & H2).
  exists s'. split; [exact H1|]. split; rewrite H2; vm_compute; reflexivity.
Defined.

(** * Applying shadow pages

    Copying the shadow pages over the originals, at the end of a checkpoint and again in a recovery:
    which writes are made, that the data file then has the pages as the checkpoint saw them, and that
    a recovery reads a complete shadow file back. *)

(** The writes of [apply_pages]. *)
Fixpoint apply_ops (c : list Z) (idx : nat) (rs : list ShadowPageRecord) : list fileop :=
  match rs with
  | [] => []
  | r :: rs' => Write (originalPageIdx r * PAGE) (page idx c) :: apply_ops c (S idx) rs'
  end.

Section Apply.
Context (checked : bool) (junk : nat → list Z) (junk0 : junk 0 = []).

Lemma apply_pages_writes c idx rs data :
  (idx + length rs) * PAGE ≤ length c →
  apply_pages checked junk c idx rs data =
    (Ok tt, MkFileInfo (durable data) (pending data ++ apply_ops c idx rs)).
Proof.
  revert idx data. induction rs as [|r rs IH]; intros idx data Hl; cbn [apply_pages apply_ops length] in *.
  - rewrite app_nil_r. destruct data. reflexivity.
  - pose proof InMemFile.page_pos as Hp. rewrite (readFromFile_in checked junk junk0) by nia.
    rewrite IH by nia. unfold page.
    assert (Hlen : length (slice (idx * PAGE) PAGE c) = PAGE) by (apply length_slice; nia).
    unfold writeFile. destruct (slice (idx * PAGE) PAGE c) as [|b bs] eqn:Hs; [cbn in Hlen; lia|].
    cbn [do_op durable pending]. rewrite <- app_assoc. reflexivity.
Qed.

Lemma apply_ops_writes c idx rs : Forall is_write (apply_ops c idx rs).
Proof. revert idx. induction rs as [|r rs IH]; intros idx; constructor; [exact I|apply IH]. Qed.

(** *** The pages after applying *)

Lemma page_of_image hd ps rest idx :
  length hd = PAGE → Forall (λ p, length p = PAGE) ps → idx < length ps →
  page (S idx) (hd ++ concat ps ++ rest) = nth idx ps [].
Proof.
  intros Hh Hps. revert hd idx Hh. induction Hps as [|p ps Hp Hps IH]; intros hd idx Hh Hidx; [cbn in Hidx; lia|].
  cbn [concat]. rewrite <- app_assoc. destruct idx as [|idx].
  - cbn [nth]. unfold page. replace (1 * PAGE) with (length hd) by lia. rewrite <- Hp. apply slice_app_mid.
  - cbn [nth length] in *. rewrite <- (IH p idx Hp ltac:(lia)). unfold page, slice.
    replace (S (S idx) * PAGE) with (length hd + S idx * PAGE) by lia. rewrite <- drop_drop, drop_app_length. reflexivity.
Qed.

(** Writing pages at distinct places. *)
Lemma pages_after_apply c idx rs d :
  NoDup (map originalPageIdx rs) → (idx + length rs) * PAGE ≤ length c →
  (∀ i r, rs !! i = Some r → page (originalPageIdx r) (fold_left apply_op (apply_ops c idx rs) d) = page (idx + i) c) ∧
  (∀ p, p ∉ map originalPageIdx rs → (p + 1) * PAGE ≤ length d →
        page p (fold_left apply_op (apply_ops c idx rs) d) = page p d).
Proof.
  revert idx d. induction rs as [|r rs IH]; intros idx d Hnd Hl; cbn [apply_ops fold_left map length] in *.
  - split; [intros i r Hr; rewrite lookup_nil in Hr; discriminate|reflexivity].
  - apply NoDup_cons in Hnd as [Hni Hnd]. pose proof InMemFile.page_pos as Hpp.
    assert (Hlp : length (page idx c) = PAGE) by (apply length_page; nia).
    set (d1 := apply_op d (Write (originalPageIdx r * PAGE) (page idx c))).
    assert (Hd1 : length d1 = Nat.max (length d) (originalPageIdx r * PAGE + PAGE))
      by (unfold d1; rewrite length_write, Hlp; destruct (Nat.eqb_spec PAGE 0); [lia|reflexivity]).
    destruct (IH (S idx) d1 Hnd ltac:(lia)) as [H1 H2]. split.
    + intros [|i] q Hq; cbn in Hq.
      * injection Hq as <-. rewrite Nat.add_0_r, H2; [apply page_write_same, Hlp|exact Hni|lia].
      * rewrite <- Nat.add_succ_comm. apply H1, Hq.
    + intros p Hp Hb. apply not_elem_of_cons in Hp as [Hne Hp]. rewrite H2; [|exact Hp|lia].
      apply page_write_other; [congruence|exact Hlp|exact Hb].
Qed.
End Apply.

Section Header.
Context (checked : bool) (junk : nat → list Z) (junk0 : junk 0 = []) (dbg : bool) (cmakeVersion : string).

Lemma run_reader {A} (p : reading A) c o bs a r :
  at_offset c o r → decodes (stream p) bs a → slice o (length bs) c = bs → o + length bs ≤ length c →
  ∃ r', run (reader_read checked junk) p r = (Ok a, r') ∧ at_offset c (o + length bs) r'.
Proof.
  intros Hat Hd Hs Hl.
  apply (WalReplay.run_decodes (reader_read checked junk) c (at_offset c) (length c)); try assumption; try lia.
  intros o1 n r1 Ha Hn. destruct (read_in_range checked junk junk0 c o1 n r1 Ha Hn) as (r2 & H1 & H2 & _). eauto.
Qed.

(** The header at the start of a file is read back. *)
Lemma readDatabaseHeader_ok h c rest :
  DatabaseHeader.header_ok h → c = concat (DatabaseHeader.serialize dbg cmakeVersion h) ++ rest → PAGE ≤ length c →
  DatabaseHeader.readDatabaseHeader dbg cmakeVersion checked junk c = Ok (Some h).
Proof.
  intros Hok Hc Hl. unfold DatabaseHeader.readDatabaseHeader.
  rewrite (proj2 (Nat.ltb_ge _ _)) by exact Hl. pose proof InMemFile.page_pos as Hpp.
  destruct (reader_new_at checked junk junk0 c) as (r & Hr & Hat & _); [intros ->; cbn in Hl; lia|].
  rewrite Hr, outcome_bind_Ok.
  destruct (run_reader (DatabaseHeader.deserialize dbg cmakeVersion) c 0 _ h r Hat
              (DatabaseHeader.decodes_db_header dbg cmakeVersion h Hok)) as (r' & Hrun & _).
  - rewrite Hc. apply (slice_app_mid []).
  - rewrite Hc, length_app. lia.
  - rewrite Hrun. reflexivity.
Qed.
End Header.

Section Image.
Context (checked : bool) (junk : nat → list Z) (junk0 : junk 0 = []).
Context (fidx : nat) (padding : list Z) (Hpadding : length padding = 4) (db : Z) (Hdb : Wal.u128 db).
Implicit Types s : ShadowFile.

(** Indexes as the records can hold them. *)
Definition record_ok (r : ShadowPageRecord) : Prop :=
  Wal.u32 (Z.of_nat (originalFileIdx r)) ∧ Wal.u32 (Z.of_nat (originalPageIdx r)).
Definition records_ok s : Prop :=
  Forall record_ok (shadowPageRecords s) ∧ Wal.u32 (Z.of_nat (length (shadowPageRecords s))).

(** Record [i] is of the page whose shadow is page [S i]. *)
Lemma record_shadow s i r :
  inv_except fidx 0 s → shadowPageRecords s !! i = Some r → shadow_of fidx s (originalPageIdx r) = Some (S i).
Proof.
  intros Hi Hr. apply (inv_map fidx 0 s Hi). exists i. split; [reflexivity|]. rewrite Hr. f_equal.
  pose proof (proj1 (Forall_lookup _ _) (inv_files fidx 0 s Hi) i r Hr) as Hf. cbn in Hf. destruct r. cbn in *. congruence.
Qed.

Lemma shadow_pages_length s : length (shadow_pages s) = length (shadowPageRecords s).
Proof. unfold shadow_pages. rewrite length_map. apply length_seq. Qed.

Lemma shadow_pages_ok s : inv_except fidx 0 s → Forall (λ p, length p = PAGE) (shadow_pages s).
Proof.
  intros Hi. unfold shadow_pages. apply Forall_forall. intros p Hp. apply list_elem_of_In, in_map_iff in Hp as (idx & <- & Hin).
  apply in_seq in Hin. apply (length_shadow_page fidx s idx Hi). lia.
Qed.

Lemma image_page s idx :
  inv_except fidx 0 s → 1 ≤ idx ≤ length (shadowPageRecords s) → page idx (shadow_image padding db s) = shadow_page idx s.
Proof.
  intros Hi Hb. destruct idx as [|idx]; [lia|]. unfold shadow_image.
  rewrite page_of_image; [|apply length_header_page, Hpadding|apply shadow_pages_ok, Hi|rewrite shadow_pages_length; lia].
  unfold shadow_pages. rewrite (nth_indep _ [] (shadow_page 0 s)) by (rewrite length_map, length_seq; lia).
  rewrite (map_nth (λ idx, shadow_page idx s)), seq_nth by lia. reflexivity.
Qed.

Lemma length_image s :
  inv_except fidx 0 s →
  length (shadow_image padding db s) =
    S (length (shadowPageRecords s)) * PAGE + length (concat (records_serialize (shadowPageRecords s))).
Proof.
  intros Hi. unfold shadow_image. rewrite !length_app, (length_header_page padding Hpadding), (length_shadow_pages fidx padding Hpadding) by exact Hi. lia.
Qed.

Lemma decodes_records s :
  records_ok s →
  decodes (stream records_deserialize) (concat (records_serialize (shadowPageRecords s))) (shadowPageRecords s).
Proof.
  intros [Hr Hn]. unfold records_deserialize, records_serialize.
  eapply decodes_seq; [apply decodes_r_value; unfold Wal.u32 in Hn; split; [lia|]; eapply Z.lt_trans; [apply Hn|]; reflexivity|].
  rewrite Nat2Z.id. apply decodes_r_many. eapply Forall_impl; [exact Hr|].
  intros [f p] [Hf Hp]. cbn [originalFileIdx originalPageIdx] in *. unfold record_deserialize, record_serialize.
  cbn [originalFileIdx originalPageIdx]. eapply decodes_seq; [apply decodes_r_value, Hf|].
  eapply decodes_end; [apply decodes_r_value, Hp|]. rewrite !Nat2Z.id. reflexivity.
Qed.

(** The database a data file belongs to, by its header. *)
Context (dbg : bool) (cmakeVersion : string).
Definition has_db_header (c : list Z) : Prop :=
  ∃ h rest, DatabaseHeader.header_ok h ∧ DatabaseHeader.databaseID h = db ∧
            c = concat (DatabaseHeader.serialize dbg cmakeVersion h) ++ rest ∧ PAGE ≤ length c.

Lemma getOldDatabaseID_ok c : has_db_header c → getOldDatabaseID checked junk dbg cmakeVersion c = Ok db.
Proof.
  intros (h & rest & Hok & Hid & Hc & Hl). unfold getOldDatabaseID.
  rewrite (readDatabaseHeader_ok checked junk junk0 dbg cmakeVersion h c rest Hok Hc Hl), outcome_bind_Ok, Hid. reflexivity.
Qed.

(** A recovery reads a complete shadow file back and applies its pages. *)
Lemma replay_image s data :
  inv_except fidx 0 s → records_ok s → has_db_header (contents data) →
  replayShadowPageRecords checked junk dbg cmakeVersion false (Some (MkFileInfo (shadow_image padding db s) [])) data =
    (Ok tt, MkFileInfo (durable data)
              (pending data ++ apply_ops (shadow_image padding db s) 1 (shadowPageRecords s))).
Proof.
  intros Hi Hr Hh. unfold replayShadowPageRecords. set (c := shadow_image padding db s).
  change (contents (MkFileInfo c [])) with c. pose proof (length_image s Hi) as Hlc. fold c in Hlc.
  pose proof InMemFile.page_pos as Hpp. set (n := length (shadowPageRecords s)) in *.
  rewrite (readFromFile_in checked junk junk0) by lia. rewrite outcome_bind_Ok.
  assert (Hhd : slice 0 PAGE c = header_page padding db n).
  { unfold c, shadow_image. fold n. rewrite <- (length_header_page padding Hpadding db n) at 1. apply (slice_app_mid []). }
  rewrite Hhd. assert (H16 : take 16 (header_page padding db n) = serializeValue 16 db).
  { unfold header_page. cbn zeta. rewrite <- !app_assoc. apply take_app_length'. symmetry. apply length_le_bytes. }
  assert (H4 : slice 16 4 (header_page padding db n) = serializeValue 4 (Z.of_nat n)).
  { unfold header_page. cbn zeta. rewrite <- !app_assoc.
    pose proof (length_le_bytes 16 db : length (serializeValue 16 db) = 16) as Ha.
    pose proof (length_le_bytes 4 (Z.of_nat n) : length (serializeValue 4 (Z.of_nat n)) = 4) as Hb.
    revert Ha Hb. generalize (serializeValue 16 db) (serializeValue 4 (Z.of_nat n)). intros a b Ha Hb.
    rewrite <- Ha at 1. rewrite <- Hb at 1. apply slice_app_mid. }
  rewrite H16, H4. unfold serializeValue. rewrite !le_value_bytes by (exact Hdb || apply (proj2 Hr)). rewrite Nat2Z.id.
  rewrite (getOldDatabaseID_ok _ Hh), outcome_bind_Ok. unfold WalReplay.verifyDatabaseID. rewrite Z.eqb_refl. cbn [negb].
  rewrite outcome_bind_Ok. destruct (reader_new_at checked junk junk0 c) as (r & Hrd & [Hf Hs Hb _ _ _] & _).
  { intros Hnil. rewrite Hnil in Hlc. cbn in Hlc. lia. }
  rewrite Hrd, outcome_bind_Ok.
  pose proof (at_reset c ((n + 1) * PAGE) r Hf Hs Hb ltac:(lia)) as Hat.
  destruct (run_reader checked junk junk0 records_deserialize c _ _ _ _ Hat (decodes_records s Hr)) as (r' & Hrun & _).
  - unfold c, shadow_image. rewrite (app_assoc (header_page _ _ _)).
    replace ((n + 1) * PAGE) with (length (header_page padding db (length (shadowPageRecords s)) ++ concat (shadow_pages s)))
      by (rewrite length_app, (length_header_page padding Hpadding), (length_shadow_pages fidx padding Hpadding) by exact Hi; fold n; lia).
    rewrite <- (app_nil_r (concat (records_serialize _))) at 2. apply slice_app_mid.
  - lia.
  - rewrite Hrun. cbn [fst]. rewrite (apply_pages_writes checked junk junk0) by (fold n; lia). reflexivity.
Qed.
End Image.

(** ** Refused requests *)

(** A frame group that is refused changes nothing that the checkpoint sees. *)
Lemma refused_group_harmless stale fidx data p q skip pin op s :
  hasShadowPage fidx p s = false →
  ∃ s', updatePage_asking stale false pin fidx p skip data op s = (Throw no_frame_group, s') ∧
    shadowPagesMap s' = shadowPagesMap s ∧ shadowPageRecords s' = shadowPageRecords s ∧ hasShadowPage fidx q s' = hasShadowPage fidx q s.
Proof.
  intros Hn. unfold updatePage_asking, createShadowVersionIfNecessaryAndPinPage_asking, getOrCreateShadowPage_asking, getOrCreateShadowingFH.
  unfold_M. rewrite Hn. destruct (shadowingFH s); eexists; (split; [reflexivity|]); auto.
Qed.

(** A pin that is refused leaves the new shadow page registered without the contents of the original, and the
    checkpoint reads it in place of the original. *)
Lemma refused_pin_leaves_page :
  let data := replicate PAGE 1%Z in
  let '(r, s) := updatePage_asking [] true false 0 0 false data id ShadowFile_new in
  r = Throw no_memory ∧ hasShadowPage 0 0 s = true ∧ shadowPageRecords s = [MkShadowPageRecord 0 0] ∧
  checkpoint_view 0 data ShadowFile_new 0 = data ∧ checkpoint_view 0 data s 0 = [].
Proof. vm_compute. split_and!; reflexivity. Qed.
