(* ===== verification/Recovery.v ===== *)
(** * Checkpoints and recovery

    The end of storage/checkpointer.cpp, [Checkpointer::logCheckpointAndApplyShadowPages], which
    writes the shadow file, logs the checkpoint, applies the shadow pages and clears both files, and
    [Checkpointer::readCheckpoint], [StorageManager::initDataFileHandle] and the whole of
    [WALReplayer::replay], which run when a database is opened. A file that is not there is [None]. *)

From stdpp Require Import base numbers list gmap strings.
From Stdlib Require Import ZArith Lia.
From S2P Require Import Prelude Serializer InMemFile BufferedFile WalRecord WalWriter WalReplay WalTheorems ShadowFile.
Import Serializer FileInfo BufferedFile Wal WalWriter WalReplay ShadowFile.

(** ** What is on disk *)

Record Disk := MkDisk {
  dataFile : FileInfo;
  walFile : option FileInfo;
  shadowOnDisk : option FileInfo;
}.

(** What the rest of the system does when a database is opened; the log's part of it is
    [ReplayEngine]. *)
Class CheckpointEngine (T : Type) := {
  (** [PageManager::allocatePage] of the header page *)
  reserveHeaderPage : M T unit;
  (** [StorageManager::getOrInitDatabaseHeader], [setDatabaseHeader] *)
  getOrInitDatabaseHeader : M T DatabaseHeader.DatabaseHeader;
  setDatabaseHeader : DatabaseHeader.DatabaseHeader → M T unit;
  (** [Catalog::deserialize], and [StorageManager::deserialize] with [PageManager::deserialize], from
      an offset of a file on *)
  deserializeCatalog : list Z → Z → M T unit;
  deserializeStorage : list Z → Z → M T unit;
  (** [ExtensionManager::autoLoadLinkedExtensions] *)
  autoLoadLinkedExtensions : M T unit;
}.

Module Recovery.
Section Recovery.
Context (checked : bool) (junk blank : nat → list Z) (padding : list Z).
Context (dbg : bool) (cmakeVersion : string).
Context {T C P V : Type} `{!Persisted C} `{!Persisted P} `{!Persisted V}.
Context `{!ReplayEngine T C P V} `{!CheckpointEngine T}.

(** The database being opened: its files and its memory. *)
Definition Db : Type := Disk * T.

Definition in_memory {A} (m : M T A) : M Db A := λ '(d, t), let '(o, t') := m t in (o, (d, t')).
Definition on_data (m : M FileInfo unit) : M Db unit := λ '(d, t),
  let '(o, f) := m (dataFile d) in (o, (MkDisk f (walFile d) (shadowOnDisk d), t)).
Definition set_wal (f : option FileInfo) : M Db unit :=
  modify (λ '(d, t), (MkDisk (dataFile d) f (shadowOnDisk d), t)).
Definition set_shadow (f : option FileInfo) : M Db unit :=
  modify (λ '(d, t), (MkDisk (dataFile d) (walFile d) f, t)).

(** [FileHandle::getNumPages] of a file just opened. *)
Definition getNumPages (f : FileInfo) : nat := (getFileSize f + (PAGE - 1)) / PAGE.

(** ** Reading the checkpoint *)

(** [StorageManager::initDataFileHandle] of a database on disk. *)
Definition initDataFileHandle (readOnly : bool) : M Db unit := λ s,
  if (getNumPages (dataFile s.1) =? 0) && negb readOnly then
    (in_memory reserveHeaderPage ;;
     initialHeader ← in_memory getOrInitDatabaseHeader;
     let bytes := concat (DatabaseHeader.serialize dbg cmakeVersion initialHeader) in
     on_data (λ f, (Ok tt, syncFile (writeFile (bytes ++ blank (PAGE - length bytes)) 0 f))) : M Db unit) s
  else (Ok tt, s).

(** The second [Checkpointer::readCheckpoint]. *)
Definition readCheckpoint_file (c : list Z) : M T unit :=
  reader ← observe (λ _, BufferedFileReader_new checked junk c);
  match run (reader_read checked junk) (DatabaseHeader.deserialize dbg cmakeVersion) reader with
  | (Throw e, _) => raise e
  | (Ok currentHeader, _) =>
      let catalogStart := DatabaseHeader.startPageIdx (DatabaseHeader.catalogPageRange currentHeader) in
      let metadataStart := DatabaseHeader.startPageIdx (DatabaseHeader.metadataPageRange currentHeader) in
      (if (catalogStart =? DatabaseHeader.INVALID_PAGE_IDX)%Z then mret tt
       else deserializeCatalog c (catalogStart * Z.of_nat PAGE) ;;
            deserializeStorage c (metadataStart * Z.of_nat PAGE)) ;;
      setDatabaseHeader currentHeader
  end.

(** [Checkpointer::readCheckpoint] *)
Definition readCheckpoint (readOnly : bool) : M Db unit :=
  initDataFileHandle readOnly ;;
  s ← get_state;
  (if 0 <? getNumPages (dataFile s.1) then in_memory (readCheckpoint_file (contents (dataFile s.1))) else mret tt) ;;
  in_memory autoLoadLinkedExtensions.

(** ** Recovering *)

(** [WALReplayer::removeFileIfExists] of the shadow file, and [removeWALAndShadowFiles] *)
Definition removeShadowFile (readOnly : bool) : M Db unit :=
  if readOnly then mret tt else set_shadow None.
Definition removeWALAndShadowFiles (readOnly : bool) : M Db unit :=
  removeShadowFile readOnly ;;
  (if readOnly then mret tt else set_wal None).

(** [WALReplayer::syncWALFile], [truncateWALFile] *)
Definition syncWALFile (readOnly : bool) (f : FileInfo) : M Db unit :=
  if readOnly then mret tt else set_wal (Some (syncFile f)).
Definition truncateWALFile (readOnly : bool) (f : FileInfo) (size : nat) : M Db unit :=
  if readOnly then mret tt
  else if size <? getFileSize f then set_wal (Some (syncFile (truncate size f))) else mret tt.

(** The handler of [WALReplayer::replay]: an exception rolls an active transaction back. *)
Definition rolling_back (m : M Db unit) : M Db unit := λ s,
  match m s with
  | (Ok _, s') => (Ok tt, s')
  | (Throw e, s') =>
      if catchable e && hasActiveTransaction s'.2 then (in_memory rollbackTransaction ;; raise e : M Db unit) s'
      else (Throw e, s')
  end.

(** [WALReplayer::replay] *)
Definition replay (throwOnWalReplayFailure enableChecksums readOnly : bool) : M Db unit := λ s,
  match walFile s.1 with
  | None => (removeShadowFile readOnly ;; readCheckpoint readOnly : M Db unit) s
  | Some f =>
      if getFileSize f =? 0 then (removeWALAndShadowFiles readOnly ;; readCheckpoint readOnly : M Db unit) s
      else
        (syncWALFile readOnly f ;;
         rolling_back (
           info ← observe (λ _, dryReplay (C := C) (P := P) (V := V) checked junk blank dbg
                                  throwOnWalReplayFailure enableChecksums (contents f));
           let offsetDeserialized := fst info in
           let isLastRecordCheckpoint := snd info in
           if (isLastRecordCheckpoint : bool) then
             on_data (replayShadowPageRecords checked junk dbg cmakeVersion readOnly (shadowOnDisk s.1)) ;;
             removeWALAndShadowFiles readOnly ;;
             readCheckpoint readOnly
           else
             removeShadowFile readOnly ;;
             readCheckpoint readOnly ;;
             in_memory (replay_log checked junk blank dbg enableChecksums offsetDeserialized (contents f)) ;;
             truncateWALFile readOnly f offsetDeserialized) : M Db unit) s
  end.

(** ** Checkpointing *)

(** The files of an open database. *)
Record Live := MkLive { lv_data : FileInfo; lv_wal : WAL; lv_shadow : ShadowFile }.

Definition on_wal (m : M WAL unit) : M Live unit := λ l,
  let '(o, w) := m (lv_wal l) in (o, MkLive (lv_data l) w (lv_shadow l)).
Definition on_shadow (f : ShadowFile → outcome ShadowFile) : M Live unit := λ l,
  match f (lv_shadow l) with
  | Ok s => (Ok tt, MkLive (lv_data l) (lv_wal l) s)
  | Throw e => (Throw e, l)
  end.
Definition on_originals (m : ShadowFile → M FileInfo unit) : M Live unit := λ l,
  let '(o, f) := m (lv_shadow l) (lv_data l) in (o, MkLive f (lv_wal l) (lv_shadow l)).

(** [Checkpointer::writeDatabaseHeader], its part on the shadow file *)
Definition writeDatabaseHeader (stale : list Z) (fidx : nat) (header : DatabaseHeader.DatabaseHeader) : M Live unit := λ l,
  let bytes := concat (DatabaseHeader.serialize dbg cmakeVersion header) in
  match updatePage stale fidx 0 true (contents (lv_data l)) (λ _, bytes ++ blank (PAGE - length bytes)) (lv_shadow l) with
  | (o, s) => (o, MkLive (lv_data l) (lv_wal l) s)
  end.

(** [Checkpointer::logCheckpointAndApplyShadowPages] *)
Definition logCheckpointAndApplyShadowPages (databaseID : Z) : M Live unit :=
  on_shadow (flushAll checked padding databaseID) ;;
  on_wal (logAndFlushCheckpoint (C := C) (P := P) (V := V) dbg blank databaseID) ;;
  on_originals (applyShadowPages checked junk) ;;
  on_wal wal_clear ;;
  on_shadow shadow_clear.

(** The resets at the end of [Checkpointer::writeCheckpoint]. *)
Definition resetFiles : M Live unit := on_wal wal_reset ;; on_shadow shadow_reset.

(** [Checkpointer::canAutoCheckpoint]; [localSize] is the size of the transaction's own log. *)
Definition canAutoCheckpoint (inMemory autoCheckpoint isRecovery : bool) (checkpointThreshold localSize : nat)
    (w : WAL) : outcome bool :=
  if inMemory then Ok false
  else if negb autoCheckpoint then Ok false
  else if isRecovery then Ok false
  else
    size ← wal_getFileSize w;
    Ok (checkpointThreshold <? localSize + size).
End Recovery.
End Recovery.
