(* ===== verification/RecoverySpec.v ===== *)
(** * Crashes during a checkpoint

    A crash is a power failure: of the writes and truncations made since the last sync of a file, any
    may be missing (each is done as a whole or not at all), and a file never synced may be missing.
    The steps of a checkpoint with the states between them are those of
    [logCheckpointAndApplyShadowPages], split where it syncs. *)

From stdpp Require Import base numbers list gmap strings.
From Stdlib Require Import ZArith Lia.
From S2P Require Import Prelude Serializer InMemFile BufferedFile WalRecord WalWriter WalReplay WalTheorems ShadowFile ShadowSpec ShadowTheorems Recovery.
Import Serializer FileInfo BufferedFile Wal WalWriter WalReplay ShadowFile Recovery.

(** ** Power failures *)

Inductive file_after : option FileInfo → option FileInfo → Prop :=
  | no_file : file_after None None
  | file_kept f sub : sub `sublist_of` pending f →
      file_after (Some f) (Some (MkFileInfo (fold_left apply_op sub (durable f)) []))
  | file_lost f : durable f = [] → file_after (Some f) None.

Definition power_failure (d d' : Disk) : Prop :=
  file_after (Some (dataFile d)) (Some (dataFile d')) ∧
  file_after (walFile d) (walFile d') ∧ file_after (shadowOnDisk d) (shadowOnDisk d').

(** A process that dies leaves the files as every reader sees them. *)
Lemma file_after_process f : file_after (Some f) (Some (MkFileInfo (contents f) [])).
Proof. apply file_kept. reflexivity. Qed.

Lemma file_after_synced c o : c ≠ [] → file_after (Some (MkFileInfo c [])) o → o = Some (MkFileInfo c []).
Proof.
  intros Hne H. inversion H as [|f sub Hs|f Hd]; subst; [|contradiction].
  cbn in Hs. apply sublist_nil_r in Hs as ->. reflexivity.
Qed.

Lemma file_after_one c op o :
  file_after (Some (MkFileInfo c [op])) o →
  (c = [] ∧ o = None) ∨ o = Some (MkFileInfo c []) ∨ o = Some (MkFileInfo (apply_op c op) []).
Proof.
  intros H. inversion H as [|f sub Hs|f Hd]; subst; [|left; split; [exact Hd|reflexivity]].
  cbn in Hs. right. inversion Hs as [|x l k Hn|x l k Hn]; subst; apply sublist_nil_r in Hn as ->; [right|left]; reflexivity.
Qed.

(** ** The steps of a checkpoint *)

Section Steps.
Context (checked : bool) (junk blank : nat → list Z) (padding : list Z) (dbg : bool).
Context {C P V : Type} `{!Persisted C} `{!Persisted P} `{!Persisted V}.

(** [logAndFlushCheckpoint] before its sync. *)
Definition logCheckpoint_unsynced (databaseID : Z) : M WAL unit := λ w,
  match initWriter blank databaseID w with
  | Throw e => (Throw e, w)
  | Ok l =>
      if inMemory w then (Throw assert_failure, set_serializer l w)
      else
        match addNewWALRecord blank dbg (CheckpointRecord : WALRecord C P V) l with
        | Throw e => (Throw e, set_serializer l w)
        | Ok l => (Ok tt, set_serializer (on_base BufferedFile.flush l) w)
        end
  end.
Definition sync_wal : M WAL unit := modify (λ w,
  match serializer w with Some l => set_serializer (on_base BufferedFile.sync l) w | None => w end).
Definition sync_shadow (s : ShadowFile) : outcome ShadowFile := Ok (set_file (syncFile (the_file s)) s).
Definition apply_unsynced (s : ShadowFile) : M FileInfo unit := λ data,
  match shadowingFH s with
  | None => (Throw assert_failure, data)
  | Some _ => apply_pages checked junk (contents (the_file s)) 1 (shadowPageRecords s) data
  end.

Definition checkpoint_steps (databaseID : Z) : list (M Live unit) :=
  [ on_shadow (flushAll_unsynced checked padding databaseID);
    on_shadow sync_shadow;
    on_wal (logCheckpoint_unsynced databaseID);
    on_wal sync_wal;
    on_originals apply_unsynced;
    on_originals (λ _, modify syncFile);
    on_wal wal_clear;
    on_shadow shadow_clear ].

Definition do_steps (ms : list (M Live unit)) : M Live unit := for_each ms id.

Lemma do_steps_cons m ms l : do_steps (m :: ms) l = (m ;; do_steps ms) l.
Proof. reflexivity. Qed.

Lemma split_flush databaseID l :
  (on_shadow (flushAll_unsynced checked padding databaseID) ;; on_shadow sync_shadow) l =
  on_shadow (flushAll checked padding databaseID) l.
Proof. unfold on_shadow, flushAll. unfold_M. destruct (flushAll_unsynced _ _ _ _); reflexivity. Qed.

Lemma split_log databaseID l :
  (on_wal (logCheckpoint_unsynced databaseID) ;; on_wal sync_wal) l =
  on_wal (logAndFlushCheckpoint (C := C) (P := P) (V := V) dbg blank databaseID) l.
Proof.
  unfold on_wal, logCheckpoint_unsynced, logAndFlushCheckpoint, sync_wal. unfold_M.
  destruct (initWriter _ _ _) as [w|]; [|reflexivity]. destruct (inMemory _); [reflexivity|].
  destruct (addNewWALRecord _ _ _ _) as [w'|]; reflexivity.
Qed.

Lemma split_apply l :
  (on_originals apply_unsynced ;; on_originals (λ _, modify syncFile)) l = on_originals (applyShadowPages checked junk) l.
Proof.
  unfold on_originals, apply_unsynced, applyShadowPages. unfold_M. destruct (shadowingFH _) as [fh|]; [|reflexivity].
  destruct (apply_pages _ _ _ _ _ _) as [[[]|e] data]; reflexivity.
Qed.

Lemma fuse (a b m k : M Live unit) l : (∀ l, (a ;; b) l = m l) → (a ;; (b ;; k)) l = (m ;; k) l.
Proof.
  intros H. specialize (H l). unfold mbind, M_bind in *. rewrite <- H. destruct (a l) as [[[]|e] l']; reflexivity.
Qed.

Lemma M_bind_ext (a b k : M Live unit) m l : (∀ l, k l = b l) → m l = (a ;; k) l → m l = (a ;; b) l.
Proof. intros H ->. unfold mbind, M_bind. destruct (a l) as [[[]|e] l']; [apply H|reflexivity]. Qed.

(** The steps are the checkpoint. *)
Lemma steps_are_checkpoint databaseID l :
  do_steps (checkpoint_steps databaseID) l =
  logCheckpointAndApplyShadowPages (C := C) (P := P) (V := V) checked junk blank padding dbg databaseID l.
Proof.
  unfold logCheckpointAndApplyShadowPages. eapply M_bind_ext; [|apply fuse, split_flush]. clear l. intros l.
  eapply M_bind_ext; [|apply fuse, split_log]. clear l. intros l.
  eapply M_bind_ext; [|apply fuse, split_apply]. clear l. intros l.
  unfold id. cbn [for_each]. unfold_M. destruct (on_wal _ _) as [[[]|e] l1]; [|reflexivity].
  destruct (on_shadow _ _) as [[[]|e] l2]; reflexivity.
Qed.
End Steps.

(** ** The write of the checkpoint record *)

Section LogPending.
Context (blank : nat → list Z) (Hblank : ∀ n, length (blank n) = n) (dbg : bool).
Context {C P V : Type} `{!Persisted C} `{!Persisted P} `{!Persisted V}.
#[local] Existing Instance BufferedFile_Writer.

(** Writes that fit the buffer stay there. *)
Lemma writes_buffered ds w :
  wbufferOffset w + length (concat ds) ≤ BUFFER_SIZE →
  wbufferOffset (fold_left (λ w d, wr_write d w) ds w) = wbufferOffset w + length (concat ds) ∧
  wfileInfo (fold_left (λ w d, wr_write d w) ds w) = wfileInfo w.
Proof.
  revert w. induction ds as [|d ds IH]; intros w H; cbn [fold_left concat] in *; [cbn; auto|].
  rewrite length_app in *. destruct (write_small d w) as (_ & H2 & H3); [lia|].
  cbn [wr_write BufferedFile_Writer] in *. destruct (IH (write d w)) as [H4 H5]; [rewrite H2; lia|].
  rewrite H4, H5, H2, H3. split; [lia|reflexivity].
Qed.

Lemma header_frame_length ec db : length (header_frame ec db) ≤ 25.
Proof.
  unfold header_frame, frame. rewrite !length_app. unfold serializeBool, serializeValue. rewrite !length_le_bytes.
  destruct ec; rewrite ?length_le_bytes; cbn; lia.
Qed.

(** [initWriter] leaves the file alone; a header is in the buffer. *)
Lemma initWriter_buffered db w l :
  wal_ok w → initWriter blank db w = Ok l →
  wfileInfo (base l) = default empty_file (wal_file w) ∧ wbufferOffset (base l) ≤ 25.
Proof.
  intros Hok. unfold initWriter, wal_file. unfold wal_ok in Hok. destruct (serializer w) as [l0|].
  - intros [= <-]. destruct Hok as (_ & _ & -> & _). split; [reflexivity|lia].
  - cbn zeta. set (f := default empty_file (file w)). set (ec := enableChecksums w). destruct (Nat.eqb_spec (getFileSize f) 0) as [H0|H0].
    + assert (Hidle : idle (LogWriter_new blank ec (BufferedFileWriter_new f))).
      { apply idle_new; [exact Hblank|]. pose proof (appending_new f) as Ha. rewrite H0 in Ha. exact Ha. }
      destruct (log_object_writes blank [serializeValue 16 db; serializeBool ec] _ Hidle) as (l1 & ds & H1 & _ & _ & Hb & Hds).
      { intros _. apply header_small. }
      unfold writeHeader. rewrite H1, outcome_bind_Ok. intros [= <-]. rewrite base_on_base, Hb, base_new.
      rewrite checksummed_new in Hds. cbn [concat] in Hds. rewrite app_nil_r in Hds.
      pose proof (header_frame_length ec db) as Hlen. unfold header_frame in Hlen. rewrite <- Hds in Hlen.
      destruct (writes_buffered ds (BufferedFileWriter_new f)) as [H2 H3].
      { cbn [wbufferOffset BufferedFileWriter_new Nat.add]. eapply Nat.le_trans; [exact Hlen|]. apply Nat.leb_le. reflexivity. }
      cbn [setFileOffset wfileInfo wbufferOffset]. rewrite H2, H3. split; [reflexivity|exact Hlen].
    + rewrite outcome_bind_Ok. intros [= <-]. rewrite base_on_base, base_new. split; [reflexivity|cbn; lia].
Qed.

Lemma flush_one w :
  0 < wbufferOffset w → appending w →
  ∃ d, wfileInfo (flush w) = MkFileInfo (durable (wfileInfo w)) (pending (wfileInfo w) ++ [Write (wfileOffset w) d]).
Proof.
  intros H0 Ha. unfold flush. replace (wbufferOffset w =? 0) with false by (symmetry; apply Nat.eqb_neq; lia).
  cbn [wfileInfo]. exists (take (wbufferOffset w) (wbuffer w)). unfold writeFile.
  destruct (take _ _) eqn:Ht; [|reflexivity]. apply (f_equal length) in Ht. rewrite length_take in Ht.
  destruct Ha as [Hb Hle _]. cbn [length] in Ht. lia.
Qed.

Definition k_frame (ec : bool) : list Z := record_frame dbg ec (CheckpointRecord : WALRecord C P V).

Lemma k_frame_length ec : 0 < length (k_frame ec) ≤ 64.
Proof.
  unfold k_frame, record_frame, frame. rewrite length_app.
  assert (H : 0 < length (record_bytes dbg (CheckpointRecord : WALRecord C P V)) ≤ 56) by (destruct dbg; cbn; lia).
  destruct ec; unfold serializeValue; rewrite ?length_le_bytes; cbn [length]; lia.
Qed.

(** The log with the checkpoint record. *)
Definition with_checkpoint (db : Z) (w : WAL) : list Z :=
  with_header (enableChecksums w) db (wal_bytes w) ++ k_frame (enableChecksums w).

(** The header, if there is none yet, and the record are one write. *)
Lemma log_one_write db w :
  wal_ok w → inMemory w = false → (∀ f, wal_file w = Some f → pending f = []) →
  ∃ w1 off d, logCheckpoint_unsynced (C := C) (P := P) (V := V) blank dbg db w = (Ok tt, w1) ∧
    wal_file w1 = Some (MkFileInfo (wal_bytes w) [Write off d]) ∧
    apply_op (wal_bytes w) (Write off d) = with_checkpoint db w ∧
    ∃ w2, sync_wal w1 = (Ok tt, w2) ∧ wal_ok w2 ∧ wal_file w2 = Some (MkFileInfo (with_checkpoint db w) []).
Proof.
  intros Hok Him Hsync. destruct (initWriter_opens blank Hblank db w Hok) as (l & Hl & Hi & Hc & Hb).
  destruct (initWriter_buffered db w l Hok Hl) as [Hf H25]. unfold logCheckpoint_unsynced. rewrite Hl, Him.
  unfold addNewWALRecord. rewrite (eq_refl : (type (CheckpointRecord : WALRecord C P V) =? INVALID_RECORD)%Z = false).
  destruct (log_object_writes blank (serialize dbg (CheckpointRecord : WALRecord C P V)) l Hi) as (l' & ds & H1 & Hi' & Hc' & Hbase & Hds).
  { intros _. apply checkpoint_record_small. }
  rewrite H1. rewrite Hc in Hc', Hds. change (concat ds = k_frame (enableChecksums w)) in Hds.
  pose proof (k_frame_length (enableChecksums w)) as Hk.
  destruct (writes_buffered ds (base l)) as [H2 H3].
  { rewrite Hds. transitivity 89; [lia|]. apply Nat.leb_le. reflexivity. }
  rewrite <- Hbase, ?Hds in *. destruct (flush_one (base l') ltac:(lia) (proj1 Hi')) as (d & Hd).
  destruct (wr_write_all ds (base l) (proj1 Hi)) as [_ Hw]. rewrite <- Hbase in Hw. cbn [wr_bytes BufferedFile_Writer] in Hw.
  assert (Hwr : written (base l') = with_checkpoint db w) by (rewrite Hw, Hb, Hds; reflexivity).
  destruct (flush_appends (base l') (proj1 Hi')) as (_ & Hcf & _). rewrite Hwr in Hcf.
  assert (Hfile : wfileInfo (base l') = MkFileInfo (wal_bytes w) []).
  { rewrite H3, Hf. unfold wal_bytes. destruct (wal_file w) as [f|]; [|reflexivity].
    cbn. unfold contents. specialize (Hsync f eq_refl). destruct f as [c p]. cbn in *. rewrite Hsync. reflexivity. }
  rewrite Hd, Hfile in Hcf. rewrite Hfile in Hd. cbn [durable pending app] in Hd, Hcf.
  eexists _, (wfileOffset (base l')), d. split; [reflexivity|].
  split; [unfold wal_file; cbn [serializer set_serializer]; rewrite base_on_base; f_equal; exact Hd|].
  split; [exact Hcf|]. eexists. split; [reflexivity|].
  apply (flushAndSync_durable l' w (with_checkpoint db w) Hi' Hc' Hwr).
  intros H. apply app_eq_nil in H as [H _]. exact (with_header_ne _ _ _ H).
Qed.
End LogPending.

(** ** What a recovery does *)

Section Recover.
Context (checked : bool) (junk blank : nat → list Z) (junk0 : junk 0 = []).
Context (Hblank : ∀ n, length (blank n) = n).
Context (dbg : bool) (cmakeVersion : string).
Context {T C P V : Type} `{!Persisted C} `{!Persisted P} `{!Persisted V}.
Context `{!ReplayEngine T C P V} `{!CheckpointEngine T}.
Context (throwOnFailure ec : bool) (db : Z) (Hdb : u128 db).
Implicit Types (txns : list (list (WALRecord C P V))) (t : T) (s : ShadowFile).

(** Loading the database from a data file. *)
Definition load (c : list Z) : M T unit :=
  readCheckpoint_file checked junk dbg cmakeVersion c ;; autoLoadLinkedExtensions.

(** Opening the database for writing. *)
Definition recover : M (Db (T := T)) unit :=
  replay (C := C) (P := P) (V := V) checked junk blank dbg cmakeVersion throwOnFailure ec false.

(** The log of committed transactions. *)
Definition log_of txns : list Z :=
  match txns with [] => [] | _ => header_frame ec db ++ frames dbg ec (concat txns) end.

Lemma log_nonempty bs : (length (header_frame ec db ++ bs) =? 0) = false.
Proof. apply Nat.eqb_neq. pose proof (header_frame_ne ec db). destruct (header_frame ec db); [contradiction|discriminate]. Qed.

Lemma with_header_log txns : with_header ec db (log_of txns) = header_frame ec db ++ frames dbg ec (concat txns).
Proof.
  destruct txns as [|txn txns]; [unfold frames; cbn; rewrite app_nil_r; reflexivity|].
  unfold log_of. pose proof (header_frame_ne ec db) as Hne. destruct (header_frame ec db); [contradiction|reflexivity].
Qed.

Lemma readCheckpoint_load d t t' :
  PAGE ≤ length (contents (dataFile d)) → load (contents (dataFile d)) t = (Ok tt, t') →
  readCheckpoint checked junk blank dbg cmakeVersion false (d, t) = (Ok tt, (d, t')).
Proof.
  intros Hl Hload. pose proof InMemFile.page_pos as Hpp.
  assert (Hn : 0 < getNumPages (dataFile d)).
  { unfold getNumPages, getFileSize. apply Nat.div_str_pos. lia. }
  unfold readCheckpoint, initDataFileHandle. unfold_M. cbn [fst].
  replace (getNumPages (dataFile d) =? 0) with false by (symmetry; apply Nat.eqb_neq; lia). cbn [andb fst].
  rewrite (proj2 (Nat.ltb_lt _ _) Hn). unfold load in Hload. unfold_M. unfold mbind, M_bind in Hload.
  unfold in_memory. destruct (readCheckpoint_file _ _ _ _ _ t) as [[[]|e] t1]; [|discriminate]. rewrite Hload. reflexivity.
Qed.

(** Where the log has the committed transactions and no checkpoint, a recovery loads the data file and
    replays them; the shadow file is dropped. *)
Lemma recover_log d t t0 txns :
  Forall (transaction dbg ec) txns → PAGE ≤ length (contents (dataFile d)) →
  match walFile d with Some f => contents f = log_of txns | None => txns = [] end →
  (load (contents (dataFile d)) ;; replays db txns) t = (Ok tt, t0) →
  ∃ d', recover (d, t) = (Ok tt, (d', t0)) ∧ dataFile d' = dataFile d ∧ shadowOnDisk d' = None.
Proof.
  intros Ht Hl Hw Hrun. unfold mbind, M_bind in Hrun.
  destruct (load (contents (dataFile d)) t) as [[[]|e] t1] eqn:Hload; [|discriminate].
  unfold recover, replay. cbn [fst]. destruct d as [data [f|] sh]; cbn [walFile dataFile] in *.
  - destruct txns as [|txn txns].
    + cbn in Hw. injection Hrun as <-. unfold getFileSize at 1. rewrite Hw. cbn [length Nat.eqb].
      unfold removeWALAndShadowFiles, removeShadowFile, set_shadow, set_wal. unfold_M. cbn [dataFile walFile shadowOnDisk].
      rewrite (readCheckpoint_load (MkDisk data None None) t t1) by assumption. eauto.
    + set (all := txn :: txns) in *. assert (Hall : log_of all = header_frame ec db ++ frames dbg ec (concat all)) by reflexivity.
      assert (Hend : log_end_offset dbg ec db all = length (log_of all)) by reflexivity.
      unfold getFileSize at 1. rewrite Hw, Hall, log_nonempty, <- Hall.
      destruct (transactions_loggable dbg ec all Ht) as [Hlog Hk].
      unfold syncWALFile, set_wal, rolling_back, removeShadowFile, set_shadow. unfold_M. cbn [dataFile walFile shadowOnDisk].
      pose proof (dry_run_clean checked junk blank junk0 Hblank dbg ec db Hdb _ throwOnFailure Hlog Hk) as Hdry.
      pose proof (commit_offset_txns dbg ec db all [] Ht (Forall_nil_2 _)) as Hoff. rewrite app_nil_r in Hoff.
      rewrite Hoff in Hdry. rewrite Hall, Hdry. cbn [fst snd].
      rewrite (readCheckpoint_load (MkDisk data _ None) t t1) by assumption.
      pose proof (replay_txns checked junk blank junk0 Hblank dbg ec db Hdb all [] [] t1 Ht (Forall_nil_2 _) (Forall_nil_2 _)) as Hr.
      rewrite !app_nil_r in Hr. unfold in_memory. rewrite Hr, Hrun.
      unfold truncateWALFile, getFileSize. rewrite Hw, Hend, Nat.ltb_irrefl. unfold_M. eauto.
  - subst txns. injection Hrun as <-. unfold removeShadowFile, set_shadow. unfold_M. cbn [dataFile walFile shadowOnDisk].
    rewrite (readCheckpoint_load (MkDisk data None None) t t1) by assumption. eauto.
Qed.

(** *** The database header while pages are applied *)

Context (fidx : nat).

(** A page that starts with a header of this database. *)
Definition header_page_of (c : list Z) : Prop :=
  ∃ h rest, DatabaseHeader.header_ok h ∧ DatabaseHeader.databaseID h = db ∧
            c = concat (DatabaseHeader.serialize dbg cmakeVersion h) ++ rest.

Lemma has_header_page c : has_db_header db dbg cmakeVersion c ↔ PAGE ≤ length c ∧ header_page_of (page 0 c).
Proof.
  assert (H256 : 256 ≤ PAGE) by (apply Nat.leb_le; vm_compute; reflexivity). split.
  - intros (h & rest & H1 & H2 & Hc & Hl). split; [exact Hl|].
    exists h, (take (PAGE - length (concat (DatabaseHeader.serialize dbg cmakeVersion h))) rest).
    split; [exact H1|]. split; [exact H2|]. pose proof (DatabaseHeader.header_length dbg cmakeVersion h) as Hh.
    unfold page, slice. rewrite Nat.mul_0_l, drop_0, Hc, take_app. f_equal. apply take_ge. lia.
  - intros [Hl (h & rest & H1 & H2 & Hp)]. exists h, (rest ++ drop PAGE c). split; [exact H1|]. split; [exact H2|].
    split; [|exact Hl]. rewrite app_assoc, <- Hp. unfold page, slice. rewrite Nat.mul_0_l, drop_0, take_drop. reflexivity.
Qed.

(** Every page is the one from before or one of those written. *)
Lemma page_after_writes ops c p :
  Forall (λ o, ∃ q d, o = Write (q * PAGE) d ∧ length d = PAGE) ops → (p + 1) * PAGE ≤ length c →
  (p + 1) * PAGE ≤ length (fold_left apply_op ops c) ∧
  (page p (fold_left apply_op ops c) = page p c ∨
   ∃ d, Write (p * PAGE) d ∈ ops ∧ page p (fold_left apply_op ops c) = d).
Proof.
  intros H. revert c. induction H as [|o ops (q & d & -> & Hd) _ IH]; intros c Hl; [cbn; auto|].
  cbn [fold_left]. set (c1 := apply_op c (Write (q * PAGE) d)).
  assert (Hl1 : (p + 1) * PAGE ≤ length c1) by (unfold c1; rewrite length_write; destruct (length d =? 0); lia).
  destruct (IH c1 Hl1) as [H1 [H2|(e & Hin & H2)]]; (split; [exact H1|]).
  - rewrite H2. destruct (decide (p = q)) as [->|Hne].
    + right. exists d. split; [left|]. apply page_write_same, Hd.
    + left. apply page_write_other; assumption.
  - right. exists e. split; [right; exact Hin|exact H2].
Qed.

Lemma apply_ops_pages c idx rs :
  (idx + length rs) * PAGE ≤ length c →
  Forall (λ o, ∃ q d, o = Write (q * PAGE) d ∧ length d = PAGE) (apply_ops c idx rs) ∧
  ∀ q d, Write (q * PAGE) d ∈ apply_ops c idx rs → ∃ i r, rs !! i = Some r ∧ originalPageIdx r = q ∧ d = page (idx + i) c.
Proof.
  pose proof InMemFile.page_pos as Hpp. revert idx. induction rs as [|r rs IH]; intros idx Hl; cbn [apply_ops length] in *.
  - split; [constructor|]. intros q d Hin. apply elem_of_nil in Hin. contradiction.
  - destruct (IH (S idx) ltac:(lia)) as [H1 H2]. split.
    + constructor; [|exact H1]. exists (originalPageIdx r), (page idx c). split; [reflexivity|]. apply length_page. nia.
    + intros q d Hin. apply elem_of_cons in Hin as [[= Hq ->]|Hin].
      * exists 0, r. split; [reflexivity|]. split; [|f_equal; lia]. apply Nat.mul_cancel_r in Hq; [symmetry; exact Hq|lia].
      * destruct (H2 q d Hin) as (i & r' & Hr & Hq & ->). exists (S i), r'. split; [exact Hr|]. split; [exact Hq|]. f_equal. lia.
Qed.

Context (padding : list Z) (Hpadding : length padding = 4).

Definition image s : list Z := shadow_image padding db s.
Definition page_ops s : list fileop := apply_ops (image s) 1 (shadowPageRecords s).

(** The shadow of the header page, if there is one, has a header of this database. *)
Definition shadow_header_ok s : Prop :=
  ∀ idx, shadow_of fidx s 0 = Some idx → header_page_of (shadow_page idx s).

Lemma image_holds s : inv_except fidx 0 s → (1 + length (shadowPageRecords s)) * PAGE ≤ length (image s).
Proof. intros Hi. unfold image. rewrite (length_image fidx padding Hpadding db s Hi). lia. Qed.

Lemma header_kept s sub D0 :
  inv_except fidx 0 s → shadow_header_ok s → has_db_header db dbg cmakeVersion D0 → sub `sublist_of` page_ops s →
  has_db_header db dbg cmakeVersion (fold_left apply_op sub D0).
Proof.
  intros Hi Hs Hh Hsub. apply has_header_page in Hh as [Hl Hh]. pose proof (image_holds s Hi) as Him.
  destruct (apply_ops_pages _ 1 _ Him) as [Hw Hin].
  assert (Hwsub : Forall (λ o, ∃ q d, o = Write (q * PAGE) d ∧ length d = PAGE) sub).
  { rewrite Forall_forall in Hw |- *. intros o Ho. apply Hw. eapply sublist_subseteq; [exact Hsub|exact Ho]. }
  destruct (page_after_writes sub D0 0 Hwsub ltac:(lia)) as [Hl' [Hp|(d & Hd & Hp)]]; apply has_header_page.
  - rewrite Hp. split; [lia|exact Hh].
  - split; [lia|]. rewrite Hp. destruct (Hin 0 d) as (i & r & Hr & Hq & ->).
    { eapply sublist_subseteq; [exact Hsub|exact Hd]. }
    pose proof (lookup_lt_Some _ _ _ Hr) as Hlt.
    unfold image. rewrite (image_page fidx padding Hpadding db s (1 + i) Hi) by lia. apply Hs.
    pose proof (record_shadow fidx s i r Hi Hr) as Hsh. rewrite Hq in Hsh. exact Hsh.
Qed.

(** Where the log ends with a checkpoint and the shadow file is complete, a recovery applies all of its
    pages, whichever of them were applied before, and removes both files. *)
Lemma recover_checkpoint s D0 sub txns sh w t t1 :
  Forall (transaction dbg ec) txns → inv_except fidx 0 s → records_ok s → shadow_header_ok s →
  has_db_header db dbg cmakeVersion D0 → sub `sublist_of` page_ops s →
  contents w = header_frame ec db ++ frames dbg ec (concat txns) ++ record_frame dbg ec (CheckpointRecord : WALRecord C P V) →
  sh = MkFileInfo (image s) [] →
  let D1 := fold_left apply_op (page_ops s) D0 in
  load D1 t = (Ok tt, t1) →
  ∃ d', recover (MkDisk (MkFileInfo (fold_left apply_op sub D0) []) (Some w) (Some sh), t) = (Ok tt, (d', t1)) ∧
    contents (dataFile d') = D1 ∧ walFile d' = None ∧ shadowOnDisk d' = None ∧ durable (dataFile d') = fold_left apply_op sub D0.
Proof.
  intros Ht Hi Hr Hsh Hh Hsub Hw -> D1 Hload. destruct (transactions_loggable dbg ec txns Ht) as [Hlog Hk].
  pose proof (header_kept s sub D0 Hi Hsh Hh Hsub) as Hh1.
  unfold recover, replay. cbn [fst walFile]. unfold getFileSize. rewrite Hw.
  rewrite log_nonempty.
  pose proof (dry_run_checkpoint checked junk blank junk0 Hblank dbg ec db Hdb _ throwOnFailure Hlog Hk) as Hdry.
  unfold syncWALFile, set_wal, rolling_back, removeWALAndShadowFiles, removeShadowFile, set_shadow, set_wal. unfold_M.
  cbn [dataFile walFile shadowOnDisk]. rewrite Hdry. cbn [fst snd shadowOnDisk]. unfold on_data. cbn [dataFile walFile shadowOnDisk].
  pose proof (replay_image checked junk junk0 fidx padding Hpadding db Hdb dbg cmakeVersion s
    (MkFileInfo (fold_left apply_op sub D0) []) Hi Hr Hh1) as Hrep. fold (image s) in Hrep. rewrite Hrep.
  cbn [durable pending app dataFile walFile shadowOnDisk]. fold (page_ops s).
  set (data1 := MkFileInfo (fold_left apply_op sub D0) (page_ops s)).
  assert (Hc : contents data1 = D1) by (apply (writes_absorb (page_ops s) sub D0); [apply apply_ops_writes|exact Hsub]).
  assert (HL : PAGE ≤ length D1).
  { destruct Hh as (_ & _ & _ & _ & _ & Hl0). unfold D1. rewrite length_writes by apply apply_ops_writes. lia. }
  rewrite (readCheckpoint_load (MkDisk data1 None None) t t1); [|cbn [dataFile]; rewrite Hc; assumption..].
  eexists. split; [reflexivity|]. auto.
Qed.
End Recover.
