(* ===== verification/RecoveryTheorems.v ===== *)
(** * A checkpoint is atomic

    Whenever the power fails during a checkpoint, a recovery gives the database as it was before (the
    data file as it was and the committed transactions replayed) or as the checkpoint leaves it, and
    nothing in between. The lemmas at the end show where the guarantees stop. *)

From stdpp Require Import base numbers list gmap strings.
From Stdlib Require Import ZArith Lia.
From S2P Require Import Prelude Serializer InMemFile BufferedFile WalRecord WalWriter WalReplay WalTheorems ShadowFile ShadowSpec ShadowTheorems Recovery RecoverySpec.
Import Serializer FileInfo BufferedFile Wal WalWriter WalReplay ShadowFile Recovery.

Definition disk_of (l : Live) : Disk :=
  MkDisk (lv_data l) (wal_file (lv_wal l)) (shadowFileInfo (lv_shadow l)).

Section Atomic.
Context (checked : bool) (junk blank : nat → list Z) (junk0 : junk 0 = []).
Context (Hblank : ∀ n, length (blank n) = n) (padding : list Z) (Hpadding : length padding = 4).
Context (dbg : bool) (cmakeVersion : string).
Context {T C P V : Type} `{!Persisted C} `{!Persisted P} `{!Persisted V}.
Context `{!ReplayEngine T C P V} `{!CheckpointEngine T}.
Context (throwOnFailure ec : bool) (db : Z) (Hdb : u128 db) (fidx : nat).
Implicit Types (txns : list (list (WALRecord C P V))) (t : T) (s : ShadowFile).

Abbreviation the_load := (load (T := T) checked junk dbg cmakeVersion).
Abbreviation the_recovery :=
  (recover (C := C) (P := P) (V := V) checked junk blank dbg cmakeVersion throwOnFailure ec).
Abbreviation the_steps := (checkpoint_steps (C := C) (P := P) (V := V) checked junk blank padding dbg db).

(** A database ready for the end of a checkpoint: the shadow pages are made (one of them, if at all,
    with the header), the log has the committed transactions and is synced, and so is the data file. *)
Record ready (l : Live) txns : Prop := {
  rd_inv : inv_except fidx 0 (lv_shadow l);
  rd_handle : is_Some (shadowingFH (lv_shadow l));
  rd_records : records_ok (lv_shadow l);
  rd_header : shadow_header_ok dbg cmakeVersion db fidx (lv_shadow l);
  rd_wal : wal_ok (lv_wal l) ∧ inMemory (lv_wal l) = false ∧ enableChecksums (lv_wal l) = ec;
  rd_log : wal_bytes (lv_wal l) = log_of dbg ec db txns ∧ Forall (transaction dbg ec) txns;
  rd_log_synced : ∀ f, wal_file (lv_wal l) = Some f → pending f = [];
  rd_data : pending (lv_data l) = [] ∧ has_db_header db dbg cmakeVersion (durable (lv_data l));
}.

(** The data file after the checkpoint. *)
Definition after (l : Live) : list Z :=
  fold_left apply_op (page_ops db padding (lv_shadow l)) (contents (lv_data l)).

Lemma records_nodup s : inv_except fidx 0 s → NoDup (map originalPageIdx (shadowPageRecords s)).
Proof.
  intros Hi. apply NoDup_alt. intros i j p Hp Hq.
  assert (H : ∀ k, map originalPageIdx (shadowPageRecords s) !! k = Some p → shadow_of fidx s p = Some (S k)).
  { intros k Hk. rewrite list_lookup_fmap in Hk. destruct (shadowPageRecords s !! k) as [r|] eqn:Hr; [|discriminate].
    injection Hk as <-. apply (record_shadow fidx s k r Hi Hr). }
  apply H in Hp. apply H in Hq. congruence.
Qed.

(** Every page of the data file is then as the checkpoint saw it. *)
Lemma after_view l txns p :
  ready l txns → shadow_of fidx (lv_shadow l) p ≠ None ∨ (p + 1) * PAGE ≤ length (contents (lv_data l)) →
  page p (after l) = checkpoint_view fidx (contents (lv_data l)) (lv_shadow l) p.
Proof.
  intros [Hi _ _ _ _ _ _ _] Hp. set (s := lv_shadow l) in *. rewrite checkpoint_view_eq.
  destruct (pages_after_apply (image db padding s) 1 (shadowPageRecords s) (contents (lv_data l))
    (records_nodup s Hi) (image_holds db fidx padding Hpadding s Hi)) as [H1 H2].
  destruct (shadow_of fidx s p) as [idx|] eqn:Hs.
  - pose proof (shadow_bound fidx 0 s p idx Hi Hs) as Hb. pose proof Hs as Hs'.
    apply (inv_map fidx 0 s Hi) in Hs' as (i & -> & Hr). specialize (H1 i _ Hr). cbn [originalPageIdx] in H1.
    change (1 + i) with (S i) in H1. unfold after. fold s. etransitivity; [exact H1|].
    apply (image_page fidx padding Hpadding db s (S i) Hi Hb).
  - destruct Hp as [Hp|Hp]; [contradiction|]. apply H2; [|exact Hp]. intros Hin.
    apply list_elem_of_fmap in Hin as (r & -> & Hin). apply list_elem_of_lookup in Hin as [i Hr].
    pose proof (record_shadow fidx s i r Hi Hr). congruence.
Qed.

(** *** The states between the steps *)

Fixpoint chain (ms : list (M Live unit)) (l : Live) (ls : list Live) : Prop :=
  match ms, ls with
  | m :: ms, l' :: ls => m l = (Ok tt, l') ∧ chain ms l' ls
  | [], [] => True
  | _, _ => False
  end.

Lemma chain_length ms l ls : chain ms l ls → length ls = length ms.
Proof.
  revert l ls. induction ms as [|m ms IH]; intros l [|l' ls] Hc; cbn in *; try contradiction; [reflexivity|].
  f_equal. apply (IH l'), Hc.
Qed.

Lemma chain_steps ms l ls k :
  chain ms l ls → k ≤ length ms → do_steps (take k ms) l = (Ok tt, nth k (l :: ls) l).
Proof.
  revert l ls k. induction ms as [|m ms IH]; intros l ls k Hc Hk; destruct k as [|k]; try reflexivity; [cbn in Hk; lia|].
  destruct ls as [|l' ls]; [contradiction|]. destruct Hc as [Hm Hc]. unfold do_steps in *. cbn [take].
  rewrite (for_each_cons_ok _ _ _ _ l' Hm). rewrite (IH l' ls k Hc) by (cbn in Hk; lia).
  pose proof (chain_length ms l' ls Hc) as Hlen. f_equal. change (nth (S k) (l :: l' :: ls) l) with (nth k (l' :: ls) l).
  apply nth_indep. cbn in *. lia.
Qed.

(** What the files are after each step. *)
Lemma checkpoint_states l txns :
  ready l txns →
  let D0 := contents (lv_data l) in
  let ops := page_ops db padding (lv_shadow l) in
  let img := Some (MkFileInfo (image db padding (lv_shadow l)) []) in
  let K := with_checkpoint (C := C) (P := P) (V := V) dbg db (lv_wal l) in
  let old := log_of dbg ec db txns in
  ∃ l1 l2 l3 l4 l5 l6 l7 off d,
    chain (take 7 the_steps) l [l1; l2; l3; l4; l5; l6; l7] ∧ apply_op old (Write off d) = K ∧
    disk_of l1 = MkDisk (lv_data l) (wal_file (lv_wal l)) (shadowFileInfo (lv_shadow l1)) ∧
    disk_of l2 = MkDisk (lv_data l) (wal_file (lv_wal l)) img ∧
    disk_of l3 = MkDisk (lv_data l) (Some (MkFileInfo old [Write off d])) img ∧
    disk_of l4 = MkDisk (lv_data l) (Some (MkFileInfo K [])) img ∧
    disk_of l5 = MkDisk (MkFileInfo D0 ops) (Some (MkFileInfo K [])) img ∧
    disk_of l6 = MkDisk (MkFileInfo (after l) []) (Some (MkFileInfo K [])) img ∧
    disk_of l7 = MkDisk (MkFileInfo (after l) []) (Some (MkFileInfo K [Truncate 0])) img ∧
    is_Some (shadowingFH (lv_shadow l7)) ∧
    ∃ lw, serializer (lv_wal l7) = Some lw ∧ wbufferOffset (base lw) = 0.
Proof.
  intros [Hi [fh Hfh] Hr Hh (Hw & Him & Hec) [Hlog Htx] Hls [Hp Hdb0]]. destruct l as [data w s].
  cbn [lv_data lv_wal lv_shadow] in *. cbn zeta.
  destruct (flushAll_image fidx checked padding Hpadding db s fh Hi Hfh) as (s1 & Hfl & Hc1 & Hr1 & _ & Hfh1 & _).
  destruct (log_one_write blank Hblank dbg (C := C) (P := P) (V := V) db w Hw Him Hls) as (w1 & off & d & Hl1 & Hf1 & Ha & w2 & Hl2 & Hok2 & Hf2).
  set (s2 := set_file (MkFileInfo (image db padding s) []) s1).
  assert (Hsync : sync_shadow s1 = Ok s2) by (unfold sync_shadow, syncFile; rewrite Hc1; reflexivity).
  assert (Hd0 : data = MkFileInfo (contents data) []) by (destruct data as [c p]; cbn in *; subst p; reflexivity).
  set (data1 := MkFileInfo (contents data) (page_ops db padding s)).
  assert (Happ : apply_unsynced checked junk s2 data = (Ok tt, data1)).
  { unfold apply_unsynced. cbn [s2 shadowingFH set_file]. rewrite Hfh1.
    change (the_file s2) with (MkFileInfo (image db padding s) []).
    change (shadowPageRecords s2) with (shadowPageRecords s1). rewrite Hr1.
    change (contents (MkFileInfo (image db padding s) [])) with (image db padding s).
    rewrite (apply_pages_writes checked junk junk0) by apply (image_holds db fidx padding Hpadding s Hi).
    rewrite Hp. rewrite Hd0 at 1. reflexivity. }
  assert (Hser : ∃ lw, serializer w2 = Some lw ∧ wfileInfo (base lw) = MkFileInfo (with_checkpoint (C := C) (P := P) (V := V) dbg db w) []).
  { unfold wal_file in Hf2. destruct (serializer w2) as [lw|] eqn:Hs; [exists lw; split; [reflexivity|congruence]|].
    unfold sync_wal, modify in Hl2. injection Hl2 as <-. unfold wal_file in Hf1. destruct (serializer w1) as [lw|]; [discriminate|]. congruence. }
  destruct Hser as (lw & Hlw & Hflw). rewrite Hlog in Hf1, Ha.
  exists (MkLive data w s1), (MkLive data w s2), (MkLive data w1 s2), (MkLive data w2 s2), (MkLive data1 w2 s2),
    (MkLive (syncFile data1) w2 s2), (MkLive (syncFile data1) (set_serializer (log_clear lw) w2) s2), off, d.
  split; [|split; [exact Ha|]].
  - cbn [chain take checkpoint_steps]. unfold on_shadow, on_wal, on_originals. cbn [lv_shadow lv_wal lv_data].
    rewrite Hfl, Hsync, Hl1, Hl2, Happ. unfold wal_clear. rewrite Hlw. repeat split.
  - unfold disk_of. cbn [lv_shadow lv_wal lv_data]. rewrite Hf1, Hf2.
    repeat split; try reflexivity;
      [|exists (MkFileHandle (fh_numPages fh) ∅); exact Hfh1
       |eexists; split; [reflexivity|]; destruct lw; reflexivity].
    unfold wal_file. cbn [serializer set_serializer]. f_equal. f_equal. destruct lw as [bw|cw]; cbn [log_clear on_base base] in *; [|]; cbn; unfold truncate, do_op; rewrite Hflw; reflexivity.
Qed.

(** *** Recovering from what is left *)

Definition before_state l txns t t0 : Prop := (the_load (contents (lv_data l)) ;; replays db txns) t = (Ok tt, t0).
Definition recovers_before l t t0 d : Prop :=
  ∃ d', the_recovery (d, t) = (Ok tt, (d', t0)) ∧ contents (dataFile d') = contents (lv_data l).
Definition recovers_after l t t1 d : Prop :=
  ∃ d', the_recovery (d, t) = (Ok tt, (d', t1)) ∧ contents (dataFile d') = after l.

Lemma crash_before l txns t t0 d :
  ready l txns → before_state l txns t t0 → file_after (Some (lv_data l)) (Some (dataFile d)) →
  match walFile d with Some f => contents f = log_of dbg ec db txns | None => txns = [] end →
  recovers_before l t t0 d.
Proof.
  intros [_ _ _ _ _ [_ Htx] _ [Hp (h & rest & _ & _ & _ & Hl)]] H0 Hd Hw.
  assert (Hdata : lv_data l = dataFile d).
  { destruct (lv_data l) as [c p]. cbn in Hp, Hl. subst p.
    apply file_after_synced in Hd; [congruence|]. intros ->. pose proof InMemFile.page_pos. cbn in Hl. lia. }
  unfold recovers_before. rewrite Hdata.
  destruct (recover_log checked junk blank junk0 Hblank dbg cmakeVersion throwOnFailure ec db Hdb d t t0 txns Htx)
    as (d' & H1 & H2 & _).
  - rewrite <- Hdata. unfold contents. rewrite Hp. exact Hl.
  - exact Hw.
  - rewrite <- Hdata. exact H0.
  - exists d'. rewrite H2. auto.
Qed.

(** A log that was synced is there after a power failure. *)
Lemma log_kept l txns wf :
  ready l txns → file_after (wal_file (lv_wal l)) wf →
  match wf with Some f => contents f = log_of dbg ec db txns | None => txns = [] end.
Proof.
  intros [_ _ _ _ _ [Hlog _] Hs _] Hf. unfold wal_bytes in Hlog.
  assert (Hnil : [] = log_of dbg ec db txns → txns = []).
  { destruct txns as [|txn txns]; [reflexivity|]. cbn [log_of]. pose proof (header_frame_ne ec db).
    destruct (header_frame ec db); [contradiction|discriminate]. }
  inversion Hf as [Hn|f sub Hsub Hfw|f Hd Hfw]; subst.
  - rewrite <- Hn in Hlog. apply Hnil, Hlog.
  - rewrite <- Hfw in Hlog. specialize (Hs f (eq_sym Hfw)). rewrite Hs in Hsub. apply sublist_nil_r in Hsub as ->.
    rewrite <- Hlog. unfold contents. rewrite Hs. reflexivity.
  - rewrite <- Hfw in Hlog. specialize (Hs f (eq_sym Hfw)). apply Hnil. rewrite <- Hlog. unfold contents. rewrite Hs, Hd. reflexivity.
Qed.

Abbreviation the_K l := (with_checkpoint (C := C) (P := P) (V := V) dbg db (lv_wal l)).
Abbreviation the_image l := (MkFileInfo (image db padding (lv_shadow l)) []).

Lemma K_frames l txns :
  ready l txns →
  the_K l = header_frame ec db ++ frames dbg ec (concat txns) ++ record_frame dbg ec (CheckpointRecord : WALRecord C P V).
Proof.
  intros [_ _ _ _ (_ & _ & Hec) [Hlog _] _ _]. unfold with_checkpoint. rewrite Hec, Hlog, with_header_log, <- app_assoc. reflexivity.
Qed.

Lemma crash_after l txns t t1 d sub wf :
  ready l txns → the_load (after l) t = (Ok tt, t1) → sub `sublist_of` page_ops db padding (lv_shadow l) →
  contents wf = the_K l →
  d = MkDisk (MkFileInfo (fold_left apply_op sub (contents (lv_data l))) []) (Some wf) (Some (the_image l)) →
  recovers_after l t t1 d.
Proof.
  intros Hrd H1 Hsub Hwf ->. pose proof (K_frames l txns Hrd) as HK. destruct Hrd as [Hi _ Hr Hh _ [_ Htx] _ [Hp Hdb0]].
  destruct (recover_checkpoint checked junk blank junk0 Hblank dbg cmakeVersion throwOnFailure ec db Hdb fidx padding Hpadding
    (lv_shadow l) (contents (lv_data l)) sub txns (the_image l) wf t t1 Htx Hi Hr Hh) as (d' & H2 & H3 & _).
  - unfold contents. rewrite Hp. exact Hdb0.
  - exact Hsub.
  - rewrite Hwf. exact HK.
  - reflexivity.
  - exact H1.
  - exists d'. auto.
Qed.

Lemma K_ne l : the_K l ≠ [].
Proof. unfold with_checkpoint. intros H. apply app_eq_nil in H as [H _]. exact (with_header_ne _ _ _ H). Qed.

Lemma image_ne l txns : ready l txns → image db padding (lv_shadow l) ≠ [].
Proof.
  intros Hrd H. pose proof (image_holds db fidx padding Hpadding (lv_shadow l) (rd_inv l txns Hrd)) as Hl.
  rewrite H in Hl. pose proof InMemFile.page_pos. cbn in Hl. lia.
Qed.

Lemma data_synced l txns : ready l txns → lv_data l = MkFileInfo (contents (lv_data l)) [] ∧ contents (lv_data l) ≠ [] ∧ after l ≠ [].
Proof.
  intros [_ _ _ _ _ _ _ [Hp (h & rest & _ & _ & _ & Hl)]]. pose proof InMemFile.page_pos as Hpp.
  unfold after, contents. rewrite Hp. cbn. split; [destruct (lv_data l); cbn in *; subst; reflexivity|].
  split; [intros H; rewrite H in Hl; cbn in Hl; lia|]. intros H. apply (f_equal length) in H.
  rewrite length_writes in H by apply apply_ops_writes. cbn in H. lia.
Qed.

Lemma data_kept l txns d : ready l txns → file_after (Some (lv_data l)) (Some (dataFile d)) → dataFile d = MkFileInfo (contents (lv_data l)) [].
Proof.
  intros Hrd Hd. destruct (data_synced l txns Hrd) as (Heq & Hne & _). rewrite Heq in Hd.
  apply file_after_synced in Hd; [congruence|exact Hne].
Qed.

(** The log may have been truncated already, once the pages are applied. *)
Lemma crash_cleared l txns t t1 d :
  ready l txns → the_load (after l) t = (Ok tt, t1) → dataFile d = MkFileInfo (after l) [] →
  (∃ f, walFile d = Some f ∧ contents f = []) ∨ walFile d = None → recovers_after l t t1 d.
Proof.
  intros Hrd H1 Hd Hw. pose proof (rd_data l txns Hrd) as [Hp (h & rest & _ & _ & _ & Hl)].
  destruct (recover_log checked junk blank junk0 Hblank dbg cmakeVersion throwOnFailure ec db Hdb d t t1 []) as (d' & H2 & H3 & _).
  - constructor.
  - rewrite Hd. unfold contents, after. cbn. rewrite length_writes by apply apply_ops_writes. unfold contents. rewrite Hp. cbn. lia.
  - destruct Hw as [(f & -> & Hf)| ->]; [exact Hf|reflexivity].
  - rewrite Hd. unfold mbind, M_bind. change (contents (MkFileInfo (after l) [])) with (after l). rewrite H1. reflexivity.
  - exists d'. split; [exact H2|]. rewrite H3, Hd. reflexivity.
Qed.

(** The power fails before the checkpoint is logged, or while it is. *)
Lemma crash_early l txns t t0 d sh :
  ready l txns → before_state l txns t t0 →
  power_failure (MkDisk (lv_data l) (wal_file (lv_wal l)) sh) d → recovers_before l t t0 d.
Proof.
  intros Hrd H0 (Hd & Hw & Hs). apply (crash_before l txns t t0 d Hrd H0 Hd). exact (log_kept l txns _ Hrd Hw).
Qed.

Lemma crash_logging l txns t t0 t1 d off bs :
  ready l txns → before_state l txns t t0 → the_load (after l) t = (Ok tt, t1) →
  apply_op (log_of dbg ec db txns) (Write off bs) = the_K l →
  power_failure (MkDisk (lv_data l) (Some (MkFileInfo (log_of dbg ec db txns) [Write off bs])) (Some (the_image l))) d →
  recovers_before l t t0 d ∨ recovers_after l t t1 d.
Proof.
  intros Hrd H0 H1 HK (Hd & Hw & Hs). cbn [dataFile walFile shadowOnDisk] in *.
  apply file_after_one in Hw as [[Hn Hw]|[Hw|Hw]].
  - left. apply (crash_before l txns t t0 d Hrd H0 Hd). rewrite Hw.
    destruct txns as [|txn txns]; [reflexivity|]. cbn [log_of] in Hn. apply app_eq_nil in Hn as [Hn _].
    exfalso. exact (header_frame_ne ec db Hn).
  - left. apply (crash_before l txns t t0 d Hrd H0 Hd). rewrite Hw. reflexivity.
  - right. apply file_after_synced in Hs; [|apply (image_ne l txns Hrd)].
    apply (crash_after l txns t t1 d [] (MkFileInfo (the_K l) []) Hrd H1 (sublist_nil_l _) eq_refl).
    pose proof (data_kept l txns d Hrd Hd) as Hdd. destruct d as [dd dw ds]. cbn [dataFile walFile shadowOnDisk] in *.
    rewrite Hdd, Hw, Hs, HK. reflexivity.
Qed.

(** The power fails while the pages are applied. *)
Lemma crash_applying l txns t t1 d data :
  ready l txns → the_load (after l) t = (Ok tt, t1) →
  (data = lv_data l ∨ data = MkFileInfo (contents (lv_data l)) (page_ops db padding (lv_shadow l)) ∨ data = MkFileInfo (after l) []) →
  power_failure (MkDisk data (Some (MkFileInfo (the_K l) [])) (Some (the_image l))) d → recovers_after l t t1 d.
Proof.
  intros Hrd H1 Hdata (Hd & Hw & Hs). cbn [dataFile walFile shadowOnDisk] in *.
  apply file_after_synced in Hw; [|apply K_ne]. apply file_after_synced in Hs; [|apply (image_ne l txns Hrd)].
  destruct (data_synced l txns Hrd) as (_ & Hne & Hane).
  assert (Hsub : ∃ sub, sub `sublist_of` page_ops db padding (lv_shadow l) ∧
            dataFile d = MkFileInfo (fold_left apply_op sub (contents (lv_data l))) []).
  { destruct Hdata as [->|[->| ->]].
    - exists []. split; [apply sublist_nil_l|]. exact (data_kept l txns d Hrd Hd).
    - inversion Hd as [|f sub Hsub|]; subst. exists sub. split; [exact Hsub|congruence].
    - exists (page_ops db padding (lv_shadow l)). split; [reflexivity|].
      apply file_after_synced in Hd; [|exact Hane]. injection Hd as Hd. exact Hd. }
  destruct Hsub as (sub & Hsub & Hdd). apply (crash_after l txns t t1 d sub (MkFileInfo (the_K l) []) Hrd H1 Hsub eq_refl).
  destruct d as [dd dw ds]. cbn in *. congruence.
Qed.

(** C1. The end of a checkpoint is atomic under power failures. Let the shadow pages be made, the log hold whole
    committed transactions (of records that fit a page when they are checksummed), and let the data file and
    the log be synced: pages the checkpoint has written to the data file past the shadow file, as it does for
    columns, and has not synced are not covered. Let the engine load the old file, replay the transactions
    and load the new file. Of the steps of
    [logCheckpointAndApplyShadowPages], up to the truncation of the log, each returns; and if the power
    fails after any of them, so that any of the writes since the last sync of each file may be missing,
    then opening the database succeeds and gives either the state before the checkpoint (the data file
    unchanged, with the committed transactions replayed) or the state after it (every page as the
    checkpoint saw it): the former while the shadow file is written, the latter once the checkpoint
    record is durable, whichever pages had been applied. *)
Theorem checkpoint_crash_atomic l txns t t0 t1 :
  ready l txns → before_state l txns t t0 → the_load (after l) t = (Ok tt, t1) →
  do_steps the_steps l =
    logCheckpointAndApplyShadowPages (C := C) (P := P) (V := V) checked junk blank padding dbg db l ∧
  (∀ p, shadow_of fidx (lv_shadow l) p ≠ None ∨ (p + 1) * PAGE ≤ length (contents (lv_data l)) →
        page p (after l) = checkpoint_view fidx (contents (lv_data l)) (lv_shadow l) p) ∧
  ∀ k, k ≤ 7 → ∃ l', do_steps (take k the_steps) l = (Ok tt, l') ∧
    ∀ d, power_failure (disk_of l') d →
      (k ≤ 3 ∧ recovers_before l t t0 d) ∨ (3 ≤ k ∧ recovers_after l t t1 d).
Proof.
  intros Hrd H0 H1. split; [apply steps_are_checkpoint|]. split; [intros p; apply (after_view l txns p Hrd)|].
  intros k Hk. destruct (checkpoint_states l txns Hrd) as
    (l1 & l2 & l3 & l4 & l5 & l6 & l7 & off & bs & Hch & HK & E1 & E2 & E3 & E4 & E5 & E6 & E7 & _).
  pose proof (chain_steps _ _ _ k Hch Hk) as Hdo. rewrite take_take, Nat.min_l in Hdo by exact Hk.
  eexists. split; [exact Hdo|]. intros d Hpf. clear Hch Hdo.
  destruct k as [|[|[|[|[|[|[|[|k]]]]]]]]; cbn [nth] in Hpf; [..|lia].
  - left. split; [lia|]. exact (crash_early l txns t t0 d _ Hrd H0 Hpf).
  - left. split; [lia|]. rewrite E1 in Hpf. exact (crash_early l txns t t0 d _ Hrd H0 Hpf).
  - left. split; [lia|]. rewrite E2 in Hpf. exact (crash_early l txns t t0 d _ Hrd H0 Hpf).
  - rewrite E3 in Hpf. destruct (crash_logging l txns t t0 t1 d off bs Hrd H0 H1 HK Hpf); [left|right]; auto with lia.
  - right. split; [lia|]. rewrite E4 in Hpf. exact (crash_applying l txns t t1 d _ Hrd H1 (or_introl eq_refl) Hpf).
  - right. split; [lia|]. rewrite E5 in Hpf. exact (crash_applying l txns t t1 d _ Hrd H1 (or_intror (or_introl eq_refl)) Hpf).
  - right. split; [lia|]. rewrite E6 in Hpf. exact (crash_applying l txns t t1 d _ Hrd H1 (or_intror (or_intror eq_refl)) Hpf).
  - right. split; [lia|]. rewrite E7 in Hpf. destruct Hpf as (Hd & Hw & Hs). cbn [dataFile walFile shadowOnDisk] in *.
    destruct (data_synced l txns Hrd) as (_ & _ & Hane).
    apply file_after_one in Hw as [[Hn _]|[Hw|Hw]]; [destruct (K_ne l Hn)| |].
    + eapply (crash_applying l txns t t1 d (MkFileInfo (after l) [])); auto. split; [exact Hd|]. rewrite Hw.
      split; [exact (file_after_process (MkFileInfo (the_K l) []))|exact Hs].
    + apply (crash_cleared l txns t t1 d Hrd H1); [|left; rewrite Hw; eexists; split; reflexivity].
      apply file_after_synced in Hd; [congruence|exact Hane].
Qed.

(** *** The whole checkpoint *)

(** [writeDatabaseHeader] gives the header page a shadow with the header and changes no other page. *)
Lemma writeDatabaseHeader_ok stale h l :
  length stale = PAGE → inv_except fidx 0 (lv_shadow l) → DatabaseHeader.header_ok h → DatabaseHeader.databaseID h = db →
  ∃ s', writeDatabaseHeader blank dbg cmakeVersion stale fidx h l = (Ok tt, MkLive (lv_data l) (lv_wal l) s') ∧
    inv_except fidx 0 s' ∧ is_Some (shadowingFH s') ∧ shadow_header_ok dbg cmakeVersion db fidx s' ∧
    (∀ q, q ≠ 0 → checkpoint_view fidx (contents (lv_data l)) s' q = checkpoint_view fidx (contents (lv_data l)) (lv_shadow l) q) ∧
    (∀ q, shadow_of fidx (lv_shadow l) q ≠ None → shadow_of fidx s' q ≠ None) ∧
    (∃ rest, checkpoint_view fidx (contents (lv_data l)) s' 0 = concat (DatabaseHeader.serialize dbg cmakeVersion h) ++ rest) ∧
    shadow_of fidx s' 0 ≠ None.
Proof.
  intros Hst Hi Hok Hid. unfold writeDatabaseHeader. set (bytes := concat _). pose proof InMemFile.page_pos as Hpp.
  assert (Hl : length (bytes ++ blank (PAGE - length bytes)) = PAGE).
  { rewrite length_app, Hblank. pose proof (DatabaseHeader.header_length dbg cmakeVersion h) as Hh. fold bytes in Hh.
    assert (256 ≤ PAGE) by (apply Nat.leb_le; vm_compute; reflexivity). lia. }
  destruct (updatePage_spec fidx stale Hst (lv_shadow l) 0 true (contents (lv_data l)) (λ _, bytes ++ blank (PAGE - length bytes)) Hi)
    as (s' & Hu & Hi' & Hv & Hq & Hs); [intros _ _; exact Hl|left; reflexivity|].
  rewrite Hu. exists s'. split; [reflexivity|]. split; [exact Hi'|].
  destruct (shadow_of fidx s' 0) as [idx|] eqn:Hsh; [|exfalso; apply (proj2 (Hs 0)); [left; reflexivity|exact Hsh]].
  split; [destruct (shadow_handle fidx 0 s' 0 idx Hi' Hsh) as (fh & -> & _); eauto|].
  split; [|split; [exact Hq|split; [intros q Hn; apply Hs; right; exact Hn|split; [eexists; exact Hv|discriminate]]]].
  intros idx' Hidx. rewrite checkpoint_view_eq, Hsh in Hv. rewrite ?Hsh in Hidx. injection Hidx as <-. rewrite Hv.
  exists h, (blank (PAGE - length bytes)). auto.
Qed.

Lemma cleared_inv f : inv_except fidx 0 (MkShadowFile (Some (MkFileHandle 1 ∅)) (Some (truncate 0 f)) ∅ []).
Proof.
  split; [|constructor|].
  - intros p idx. unfold shadow_of. cbn. rewrite lookup_empty. split; [discriminate|]. intros (i & _ & H). rewrite lookup_nil in H. discriminate.
  - unfold handle_ok. cbn [shadowingFH shadowPageRecords fh_numPages fh_frames]. split; [reflexivity|].
    change (the_file _) with (truncate 0 f). rewrite contents_truncate, length_take. split; [lia|].
    split; [intros idx c H; rewrite lookup_empty in H; discriminate|]. intros; lia.
Qed.

Lemma steps_cleared l l1 l2 l3 l4 l5 l6 l7 fh :
  chain (take 7 the_steps) l [l1; l2; l3; l4; l5; l6; l7] → shadowingFH (lv_shadow l7) = Some fh →
  ∃ l8, logCheckpointAndApplyShadowPages (C := C) (P := P) (V := V) checked junk blank padding dbg db l = (Ok tt, l8) ∧
    l8 = MkLive (lv_data l7) (lv_wal l7)
           (MkShadowFile (Some (MkFileHandle 1 ∅)) (Some (truncate 0 (the_file (lv_shadow l7)))) ∅ []).
Proof.
  intros Hch Hfh. set (l8 := MkLive _ _ _). exists l8. split; [|reflexivity]. rewrite <- steps_are_checkpoint.
  assert (Hstep : on_shadow shadow_clear l7 = (Ok tt, l8)) by (unfold on_shadow, shadow_clear; rewrite Hfh; reflexivity).
  change (do_steps (take 7 the_steps ++ [on_shadow shadow_clear]) l = (Ok tt, l8)). unfold do_steps. rewrite for_each_app.
  pose proof (chain_steps _ _ _ 7 Hch ltac:(cbn; lia)) as Hdo. rewrite take_ge in Hdo by (cbn; lia).
  rewrite (M_bind_ok _ _ _ _ _ Hdo). cbn [nth]. exact (for_each_cons_ok (on_shadow shadow_clear) [] id _ l8 Hstep).
Qed.

(** A checkpoint completes: from a database ready for it, [logCheckpointAndApplyShadowPages]
    returns with the data file synced and every page of it as the checkpoint saw it, and with the log
    and the shadow file empty; the resets at the end of [writeCheckpoint] then remove both files, and
    opening the database gives what loading the new data file gives. *)
Lemma checkpoint_completes l txns t t1 :
  ready l txns → the_load (after l) t = (Ok tt, t1) →
  ∃ l' l'', logCheckpointAndApplyShadowPages (C := C) (P := P) (V := V) checked junk blank padding dbg db l = (Ok tt, l') ∧
    lv_data l' = MkFileInfo (after l) [] ∧
    (∀ p, shadow_of fidx (lv_shadow l) p ≠ None ∨ (p + 1) * PAGE ≤ length (contents (lv_data l)) →
          page p (after l) = checkpoint_view fidx (contents (lv_data l)) (lv_shadow l) p) ∧
    wal_bytes (lv_wal l') = [] ∧ shadowPageRecords (lv_shadow l') = [] ∧ inv_except fidx 0 (lv_shadow l') ∧
    resetFiles l' = (Ok tt, l'') ∧ disk_of l'' = MkDisk (MkFileInfo (after l) []) None None ∧
    recovers_after l t t1 (disk_of l') ∧ recovers_after l t t1 (disk_of l'').
Proof.
  intros Hrd H1. destruct (checkpoint_states l txns Hrd) as
    (l1 & l2 & l3 & l4 & l5 & l6 & l7 & off & bs & Hch & _ & _ & _ & _ & _ & _ & _ & E7 & [fh Hfh] & lw & Hlw & Hbuf).
  destruct (steps_cleared l l1 l2 l3 l4 l5 l6 l7 fh Hch Hfh) as (l8 & Hrun & H8).
  exists l8, (MkLive (lv_data l7) (MkWAL (inMemory (lv_wal l7)) (readOnly (lv_wal l7))
    (enableChecksums (lv_wal l7)) None None) (MkShadowFile None None ∅ [])).
  destruct l7 as [data7 w7 s7]. unfold disk_of in E7. cbn [lv_data lv_wal lv_shadow] in *. injection E7 as Hd7 Hw7 Hs7. subst l8.
  cbn [lv_data lv_wal lv_shadow]. split; [exact Hrun|]. split; [exact Hd7|].
  split; [intros p; apply (after_view l txns p Hrd)|].
  split; [unfold wal_bytes; rewrite Hw7; reflexivity|]. split; [reflexivity|].
  split; [apply cleared_inv|]. split; [|split; [cbn [disk_of lv_data lv_wal lv_shadow]; unfold disk_of; cbn; rewrite Hd7; reflexivity|split]].
  - unfold resetFiles, on_wal, on_shadow, wal_reset. unfold_M. cbn [lv_wal lv_data lv_shadow]. rewrite Hlw, Hbuf. reflexivity.
  - apply (crash_cleared l txns t t1 _ Hrd H1); [exact Hd7|left]. unfold disk_of. cbn [walFile lv_wal]. rewrite Hw7.
    eexists. split; reflexivity.
  - apply (crash_cleared l txns t t1 _ Hrd H1); [exact Hd7|right; reflexivity].
Qed.

(** *** A new database *)

(** The header page a new database gets. *)
Definition first_page (h : DatabaseHeader.DatabaseHeader) : list Z :=
  let bytes := concat (DatabaseHeader.serialize dbg cmakeVersion h) in bytes ++ blank (PAGE - length bytes).

Lemma length_first_page h : length (first_page h) = PAGE.
Proof.
  clear Hpadding Hdb. unfold first_page. rewrite length_app, Hblank. pose proof (DatabaseHeader.header_length dbg cmakeVersion h) as Hh.
  assert (256 ≤ PAGE) by (apply Nat.leb_le; vm_compute; reflexivity). lia.
Qed.

(** A new database can be opened again. Opening a database that has no file yet reserves the first
    page, makes a header, and leaves the file with that page, synced, whatever was left of a shadow
    file; reading the header of the file gives the header that was made, and after a power failure
    opening the database loads that same page and changes nothing. *)
Theorem new_database_reopens t ta tb tc t2 t3 sh h :
  reserveHeaderPage t = (Ok tt, ta) → getOrInitDatabaseHeader ta = (Ok h, tb) → DatabaseHeader.header_ok h →
  the_load (first_page h) tb = (Ok tt, tc) → the_load (first_page h) t2 = (Ok tt, t3) →
  let d1 := MkDisk (MkFileInfo (first_page h) []) None None in
  the_recovery (MkDisk empty_file None sh, t) = (Ok tt, (d1, tc)) ∧
  DatabaseHeader.readDatabaseHeader dbg cmakeVersion checked junk (first_page h) = Ok (Some h) ∧
  ∀ d, power_failure d1 d → the_recovery (d, t2) = (Ok tt, (d1, t3)).
Proof.
  clear Hpadding Hdb. intros Ht1 Ht2 Hh Hl1 Hl2 d1. pose proof (length_first_page h) as Hlp. pose proof InMemFile.page_pos as Hpp.
  assert (Hne : first_page h ≠ []) by (intros H; rewrite H in Hlp; cbn [length] in Hlp; lia).
  assert (Hfile : syncFile (writeFile (first_page h) 0 empty_file) = MkFileInfo (first_page h) []).
  { unfold syncFile. rewrite contents_writeFile. f_equal. exact (apply_append (first_page h) []). }
  assert (Hre : ∀ t t', the_load (first_page h) t = (Ok tt, t') → the_recovery (d1, t) = (Ok tt, (d1, t'))).
  { intros u u' Hu. unfold recover, replay, removeShadowFile, set_shadow. unfold_M. cbn [d1 fst walFile dataFile].
    apply (readCheckpoint_load checked junk blank dbg cmakeVersion d1 u u'); [|exact Hu]. cbn. rewrite Hlp. lia. }
  split; [|split].
  - unfold recover, replay, removeShadowFile, set_shadow. unfold_M. cbn [fst walFile dataFile].
    unfold readCheckpoint, initDataFileHandle. unfold_M. cbn [fst dataFile].
    replace (getNumPages empty_file =? 0) with true by (vm_compute; reflexivity).
    unfold in_memory. cbn [andb negb]. rewrite Ht1, Ht2. unfold on_data. fold (first_page h).
    cbn [dataFile walFile shadowOnDisk fst snd]. fold (first_page h). rewrite Hfile.
    change (contents (MkFileInfo (first_page h) [])) with (first_page h).
    assert (Hn : 0 < getNumPages (MkFileInfo (first_page h) [])).
    { unfold getNumPages, getFileSize. apply Nat.div_str_pos. cbn [contents pending durable fold_left]. rewrite Hlp. lia. }
    rewrite (proj2 (Nat.ltb_lt _ _) Hn). unfold load in Hl1. unfold mbind, M_bind in Hl1.
    destruct (readCheckpoint_file _ _ _ _ _ tb) as [[[]|e] u]; [|discriminate]. rewrite Hl1. reflexivity.
  - apply (readDatabaseHeader_ok checked junk junk0 dbg cmakeVersion h _ (blank (PAGE - length (concat (DatabaseHeader.serialize dbg cmakeVersion h)))) Hh eq_refl).
    change (PAGE ≤ length (first_page h)). lia.
  - intros d (Hd & Hw & Hs). destruct d as [dd dw ds]. cbn [d1 dataFile walFile shadowOnDisk] in *.
    inversion Hw; subst. inversion Hs; subst. apply file_after_synced in Hd; [|exact Hne]. injection Hd as ->. apply Hre, Hl2.
Qed.

(** *** Where the guarantees stop *)

(** The pages a recovery applies are not synced when it removes the log and the shadow file: a power
    failure after a successful open may take the database back to the data file of before, without
    the log. *)
Lemma recovery_not_durable l txns t t1 :
  ready l txns → the_load (after l) t = (Ok tt, t1) →
  ∃ d', the_recovery (MkDisk (lv_data l) (Some (MkFileInfo (the_K l) [])) (Some (the_image l)), t) = (Ok tt, (d', t1)) ∧
        power_failure d' (MkDisk (lv_data l) None None).
Proof.
  intros Hrd H1. destruct (data_synced l txns Hrd) as (Hd & _ & _). pose proof (K_frames l txns Hrd) as HK.
  destruct Hrd as [Hi _ Hr Hh _ [_ Htx] _ [Hp Hdb0]].
  destruct (recover_checkpoint checked junk blank junk0 Hblank dbg cmakeVersion throwOnFailure ec db Hdb fidx padding Hpadding
    (lv_shadow l) (contents (lv_data l)) [] txns (the_image l) (MkFileInfo (the_K l) []) t t1 Htx Hi Hr Hh)
    as (d' & H2 & _ & H4 & H5 & H6).
  - unfold contents. rewrite Hp. exact Hdb0.
  - apply sublist_nil_l.
  - exact HK.
  - reflexivity.
  - exact H1.
  - exists d'. cbn [fold_left] in *. rewrite <- Hd in H2. split; [exact H2|]. split; [|rewrite H4, H5; split; constructor].
    cbn [dataFile]. rewrite Hd, <- H6. exact (file_kept (dataFile d') [] (sublist_nil_l _)).
Qed.

Lemma recover_refused l txns t data sh e :
  ready l txns → hasActiveTransaction (C := C) (P := P) (V := V) t = false →
  replayShadowPageRecords checked junk dbg cmakeVersion false sh data = (Throw e, data) →
  (the_recovery (MkDisk data (Some (MkFileInfo (the_K l) [])) sh, t)).1 = Throw e.
Proof.
  intros Hrd Ha He. pose proof (K_frames l txns Hrd) as HK. destruct Hrd as [_ _ _ _ _ [_ Htx] _ _].
  destruct (transactions_loggable dbg ec txns Htx) as [Hl Hk]. unfold recover, replay. cbn [fst walFile]. unfold getFileSize.
  change (contents (MkFileInfo (the_K l) [])) with (the_K l). rewrite HK, log_nonempty.
  pose proof (dry_run_checkpoint checked junk blank junk0 Hblank dbg ec db Hdb _ throwOnFailure Hl Hk) as Hdry.
  unfold syncWALFile, set_wal, rolling_back. unfold_M. cbn [dataFile walFile shadowOnDisk]. rewrite Hdry.
  cbn [fst snd shadowOnDisk]. unfold on_data. cbn [dataFile walFile shadowOnDisk]. rewrite He. cbn [snd]. rewrite Ha, andb_false_r. reflexivity.
Qed.

(** A recovery removes the shadow file before the log: a crash in between leaves a log that ends with a
    checkpoint, which no later open accepts. *)
Lemma shadow_removed_first l txns t :
  ready l txns → hasActiveTransaction (C := C) (P := P) (V := V) t = false →
  (the_recovery (MkDisk (MkFileInfo (after l) []) (Some (MkFileInfo (the_K l) [])) None, t)).1 = Throw (IOException "Cannot open file").
Proof. intros Hrd Ha. apply (recover_refused l txns); [exact Hrd|exact Ha|reflexivity]. Qed.

(** The checkpoint truncates the log and the shadow file without a sync in between: a power failure may
    undo the first and keep the second. A checked build then refuses to open the database. *)
Lemma truncations_unordered l txns t :
  checked = true → ready l txns → hasActiveTransaction (C := C) (P := P) (V := V) t = false →
  ∃ l' d, logCheckpointAndApplyShadowPages (C := C) (P := P) (V := V) checked junk blank padding dbg db l = (Ok tt, l') ∧
    power_failure (disk_of l') d ∧ (the_recovery (d, t)).1 = Throw assert_failure.
Proof.
  intros Hch Hrd Ha. destruct (checkpoint_states l txns Hrd) as
    (l1 & l2 & l3 & l4 & l5 & l6 & l7 & off & bs & Hcn & _ & _ & _ & _ & _ & _ & _ & E7 & [fh Hfh] & _).
  destruct (steps_cleared l l1 l2 l3 l4 l5 l6 l7 fh Hcn Hfh) as (l8 & Hrun & H8).
  exists l8, (MkDisk (MkFileInfo (after l) []) (Some (MkFileInfo (the_K l) [])) (Some empty_file)).
  split; [exact Hrun|]. unfold disk_of in E7. injection E7 as Hd7 Hw7 Hs7. split.
  - rewrite H8. unfold disk_of, power_failure. cbn [lv_data lv_wal lv_shadow dataFile walFile shadowOnDisk shadowFileInfo].
    rewrite Hd7, Hw7. split; [exact (file_after_process (MkFileInfo (after l) []))|]. split.
    + exact (file_kept (MkFileInfo (the_K l) [Truncate 0]) [] (sublist_nil_l _)).
    + unfold the_file. rewrite Hs7. exact (file_after_process (truncate 0 (the_image l))).
  - apply (recover_refused l txns); [exact Hrd|exact Ha|]. unfold replayShadowPageRecords, readFromFile. rewrite Hch. reflexivity.
Qed.
End Atomic.

(** ** A sample database *)

(** An engine that notes what is loaded into it. *)
#[global] Instance Noting_checkpoint : CheckpointEngine (list Z) := {|
  reserveHeaderPage := note 100;
  getOrInitDatabaseHeader := note 101 ;; mret (DatabaseHeader.createInitialHeader 1);
  setDatabaseHeader h := note (102 + DatabaseHeader.databaseID h);
  deserializeCatalog _ o := note o;
  deserializeStorage _ o := note o;
  autoLoadLinkedExtensions := note 104;
|}.

Definition sample_header (catalogStart : Z) : DatabaseHeader.DatabaseHeader :=
  DatabaseHeader.MkDatabaseHeader (DatabaseHeader.MkPageRange catalogStart 1) (DatabaseHeader.MkPageRange 2 1) 1.

Definition header_bytes (h : DatabaseHeader.DatabaseHeader) : list Z :=
  let bytes := concat (DatabaseHeader.serialize false "0.11.0" h) in bytes ++ zeros (PAGE - length bytes).

Definition sample_start : Live :=
  MkLive (MkFileInfo (header_bytes (DatabaseHeader.createInitialHeader 1)) [])
    (MkWAL false false true (Some (MkFileInfo (log_of false true 1 [sample_txn 4]) [])) None) ShadowFile_new.

Definition sample_live : Live :=
  snd (writeDatabaseHeader zeros false "0.11.0" (zeros PAGE) 0 (sample_header 1) sample_start).

Lemma header_ok_sample : DatabaseHeader.header_ok (sample_header 1).
Proof. repeat split; cbn; unfold u32, u128; lia. Qed.

Lemma sample_ready : ready false "0.11.0" true 1 0 sample_live [sample_txn 4].
Proof.
  destruct (writeDatabaseHeader_ok zeros zeros_length (zeros 4) eq_refl false "0.11.0" 1 0 (zeros PAGE) (sample_header 1) sample_start
    (zeros_length _) (shadow_inv_new 0) header_ok_sample eq_refl) as (s' & Hw & Hi & Hfh & Hh & _).
  assert (Hl : sample_live = MkLive (lv_data sample_start) (lv_wal sample_start) s') by (unfold sample_live; rewrite Hw; reflexivity).
  assert (Hrec : shadowPageRecords (lv_shadow sample_live) = [MkShadowPageRecord 0 0]) by (vm_compute; reflexivity).
  rewrite Hl in *. cbn [lv_shadow] in Hrec. split; cbn [lv_data lv_wal lv_shadow]; try assumption.
  - unfold records_ok. rewrite Hrec. split; [repeat constructor; cbn; lia|cbn; unfold u32; lia].
  - split; [exact I|]. split; reflexivity.
  - split; [reflexivity|]. apply Forall_singleton, sample_transaction. lia.
  - intros f [= <-]. reflexivity.
  - split; [reflexivity|]. exists (DatabaseHeader.createInitialHeader 1), (zeros (PAGE - 44)). split; [|split; [reflexivity|]].
    + repeat split; cbn; unfold u32, u128, DatabaseHeader.INVALID_PAGE_IDX; lia.
    + split; [reflexivity|apply Nat.leb_le; vm_compute; reflexivity].
Qed.

Definition sample_before : list Z :=
  snd ((load true zeros false "0.11.0" (contents (lv_data sample_live)) ;; replays 1 [sample_txn 4]) []).
Definition sample_after : list Z := snd (load true zeros false "0.11.0" (after (zeros 4) 1 sample_live) []).

Lemma sample_before_state : before_state true zeros false "0.11.0" 1 sample_live [sample_txn 4] [] sample_before.
Proof. vm_compute. reflexivity. Qed.

Lemma sample_after_state : load true zeros false "0.11.0" (after (zeros 4) 1 sample_live) [] = (Ok tt, sample_after).
Proof. vm_compute. reflexivity. Qed.

(** The states differ: the catalog has moved to another page. *)
Lemma sample_states_differ : sample_before ≠ sample_after.
Proof. vm_compute. discriminate. Qed.

Lemma checkpoint_crash_atomic_witness :
  ∃ l', do_steps (take 5 (checkpoint_steps (C := Z) (P := Z) (V := Z) true zeros zeros (zeros 4) false 1)) sample_live = (Ok tt, l') ∧
    ∀ d, power_failure (disk_of l') d →
      recovers_after (C := Z) (P := Z) (V := Z) true zeros zeros (zeros 4) false "0.11.0" false true 1 sample_live [] sample_after d.
Proof.
  destruct (checkpoint_crash_atomic true zeros zeros eq_refl zeros_length (zeros 4) eq_refl false "0.11.0" false true 1
    ltac:(unfold u128; lia) 0 sample_live [sample_txn 4] [] sample_before sample_after
    sample_ready sample_before_state sample_after_state) as (_ & _ & H).
  destruct (H 5 ltac:(lia)) as (l' & Hdo & Hpf). exists l'. split; [exact Hdo|].
  intros d Hd. destruct (Hpf d Hd) as [[Hk _]|[_ Hr]]; [lia|exact Hr].
Defined.

Lemma new_database_reopens_witness :
  let h := DatabaseHeader.createInitialHeader 1 in
  ∃ t, recover (C := Z) (P := Z) (V := Z) true zeros zeros false "0.11.0" true true (MkDisk empty_file None None, []) =
    (Ok tt, (MkDisk (MkFileInfo (first_page zeros false "0.11.0" h) []) None None, t)).
Proof.
  intros h. eexists.
  assert (Hh : DatabaseHeader.header_ok h) by (repeat split; cbn; unfold u32, u128, DatabaseHeader.INVALID_PAGE_IDX; lia).
  refine (proj1 (new_database_reopens true zeros zeros eq_refl zeros_length false "0.11.0" (T := list Z) (C := Z) (P := Z) (V := Z)
    true true [] [100%Z] [100; 101]%Z _ [] _ None h eq_refl eq_refl Hh _ _)); vm_compute; reflexivity.
Defined.
