(* ===== verification/Checkpointer.v ===== *)
(** * The checkpointer

    The rest of storage/checkpointer.cpp: where a checkpoint puts the catalog and the metadata
    ([serializeCatalog], [serializeMetadata], [serializeCatalogAndMetadata]) and the whole of
    [writeCheckpoint]; the parts of common/serializer/in_mem_file_writer.cpp that copy the pages of a
    writer to shadow pages, and the page ranges of storage/database_header.cpp. The bytes of the
    catalog and of the tables, and what the tables themselves change in pages, are the engine's part. *)

From stdpp Require Import base numbers list gmap strings.
From Stdlib Require Import ZArith Lia.
From S2P Require Import Prelude Serializer InMemFile FreeSpace BufferedFile WalRecord WalWriter WalReplay ShadowFile Recovery.
Import Serializer FileInfo BufferedFile ShadowFile Recovery.

Module Checkpointer.

(** The files of an open database and the page manager of its data file. *)
Record Ckpt := MkCkpt { ck_live : Live; ck_pages : FreeSpace.PageManager }.

Definition on_pages {A} (m : M FreeSpace.PageManager A) : M Ckpt A := λ c,
  let '(o, pm) := m (ck_pages c) in (o, MkCkpt (ck_live c) pm).
Definition on_live {A} (m : M Live A) : M Ckpt A := λ c,
  let '(o, l) := m (ck_live c) in (o, MkCkpt l (ck_pages c)).
Definition on_shadow_file {A} (m : list Z → M ShadowFile A) : M Ckpt A := λ c,
  let l := ck_live c in
  let '(o, s) := m (contents (lv_data l)) (lv_shadow l) in
  (o, MkCkpt (MkLive (lv_data l) (lv_wal l) s) (ck_pages c)).

Section Checkpointer.
(** The file index of the data file, what an unread frame and a fresh buffer hold. *)
Context (fidx : nat) (stale : list Z) (blank : nat → list Z).

(** *** [InMemFileWriter::flush] to shadow pages *)

(** The pages [ps] from page [pageIdx] on. *)
Fixpoint write_pages (data : list Z) (pageIdx : nat) (ps : list (list Z)) : M ShadowFile unit :=
  match ps with
  | [] => mret tt
  | p :: ps' =>
      updatePage stale fidx pageIdx true data (λ _, p) ;;
      write_pages data (S pageIdx) ps'
  end.

(** [InMemFileWriter::flush(PageRange, FileHandle*, ShadowFile&)]; every page is written as a new one. *)
Definition flush_range (w : InMemFile.InMemFileWriter) (allocatedPageRange : FreeSpace.PageRange) (data : list Z) :
    M ShadowFile unit :=
  let numPagesToWrite := InMemFile.getNumPagesToFlush w in
  let start := FreeSpace.startPageIdx allocatedPageRange in
  ku_assert (numPagesToWrite <=? FreeSpace.numPages allocatedPageRange) ;;
  write_pages data start (InMemFile.pages w) ;;
  write_pages data (start + numPagesToWrite)
    (replicate (FreeSpace.numPages allocatedPageRange - numPagesToWrite) (replicate PAGE 0%Z)).

(** [InMemFileWriter::flush(PageAllocator&, ShadowFile&)] *)
Definition flush_allocating (w : InMemFile.InMemFileWriter) : M Ckpt FreeSpace.PageRange :=
  pageRange ← on_pages (FreeSpace.allocatePageRange (InMemFile.getNumPagesToFlush w));
  on_shadow_file (flush_range w pageRange) ;;
  mret pageRange.

(** *** The catalog and the metadata *)

Context (dbg : bool).

(** [Checkpointer::serializeCatalog]; [catalogBytes] are the writes of [Catalog::serialize]. *)
Definition serializeCatalog (catalogBytes : list (list Z)) : M Ckpt FreeSpace.PageRange :=
  flush_allocating (InMemFile.write_all (blank PAGE) catalogBytes InMemFile.InMemFileWriter_new).

(** [Checkpointer::serializeMetadata]; [storageBytes] are the writes of [StorageManager::serialize]. *)
Definition serializeMetadata (storageBytes : list (list Z)) : M Ckpt FreeSpace.PageRange :=
  let metadataWriter := InMemFile.write_all (blank PAGE) storageBytes InMemFile.InMemFileWriter_new in
  pagesForPageManager ← observe (λ c, FreeSpace.getMaxNumPagesForSerialization (FreeSpace.store (ck_pages c)).1);
  allocatedPages ← on_pages (FreeSpace.allocatePageRange (InMemFile.getNumPagesToFlush metadataWriter + pagesForPageManager));
  items ← observe (λ c, FreeSpace.serializeInternal (FreeSpace.store (ck_pages c)).1);
  on_shadow_file (flush_range
    (InMemFile.write_all (blank PAGE) (map (FreeSpace.item_bytes dbg) items) metadataWriter) allocatedPages) ;;
  mret allocatedPages.

(** Page ranges as the header has them. *)
Definition to_header (r : FreeSpace.PageRange) : DatabaseHeader.PageRange :=
  DatabaseHeader.MkPageRange (Z.of_nat (FreeSpace.startPageIdx r)) (Z.of_nat (FreeSpace.numPages r)).
Definition of_header (r : DatabaseHeader.PageRange) : FreeSpace.PageRange :=
  FreeSpace.MkPageRange (Z.to_nat (DatabaseHeader.startPageIdx r)) (Z.to_nat (DatabaseHeader.numPages r)).
Definition is_invalid (r : DatabaseHeader.PageRange) : bool :=
  (DatabaseHeader.startPageIdx r =? DatabaseHeader.INVALID_PAGE_IDX)%Z.

(** [DatabaseHeader::updateCatalogPageRange] *)
Definition updateCatalogPageRange (newPageRange : FreeSpace.PageRange) (h : DatabaseHeader.DatabaseHeader) :
    M Ckpt DatabaseHeader.DatabaseHeader :=
  (if negb (is_invalid (DatabaseHeader.catalogPageRange h))
   then on_pages (FreeSpace.freePageRange (of_header (DatabaseHeader.catalogPageRange h))) else mret tt) ;;
  mret (DatabaseHeader.MkDatabaseHeader (to_header newPageRange) (DatabaseHeader.metadataPageRange h) (DatabaseHeader.databaseID h)).

(** [DatabaseHeader::freeMetadataPageRange] *)
Definition freeMetadataPageRange (h : DatabaseHeader.DatabaseHeader) : M Ckpt unit :=
  if negb (is_invalid (DatabaseHeader.metadataPageRange h))
  then on_pages (FreeSpace.freePageRange (of_header (DatabaseHeader.metadataPageRange h))) else mret tt.

(** [PageManager::changedSinceLastCheckpoint], [resetVersion] *)
Definition changedSinceLastCheckpoint (pm : FreeSpace.PageManager) : bool := negb (FreeSpace.version pm =? 0).
Definition resetVersion : M FreeSpace.PageManager unit := modify (λ pm, FreeSpace.MkPageManager (FreeSpace.store pm) 0).

(** [Checkpointer::serializeCatalogAndMetadata]; [catalogChanged] is [Catalog::changedSinceLastCheckpoint]. *)
Definition serializeCatalogAndMetadata (catalogChanged hasStorageChanges : bool) (catalogBytes storageBytes : list (list Z))
    (databaseHeader : DatabaseHeader.DatabaseHeader) : M Ckpt DatabaseHeader.DatabaseHeader :=
  databaseHeader ←
    (if is_invalid (DatabaseHeader.catalogPageRange databaseHeader) || catalogChanged
     then range ← serializeCatalog catalogBytes; updateCatalogPageRange range databaseHeader
     else mret databaseHeader);
  c ← get_state;
  if is_invalid (DatabaseHeader.metadataPageRange databaseHeader) || hasStorageChanges || catalogChanged ||
     changedSinceLastCheckpoint (ck_pages c)
  then
    freeMetadataPageRange databaseHeader ;;
    range ← serializeMetadata storageBytes;
    mret (DatabaseHeader.MkDatabaseHeader (DatabaseHeader.catalogPageRange databaseHeader) (to_header range)
            (DatabaseHeader.databaseID databaseHeader))
  else mret databaseHeader.

(** *** The whole checkpoint *)

Context (checked : bool) (junk : nat → list Z) (padding : list Z) (cmakeVersion : string).
Context {C P V : Type} `{!Persisted C} `{!Persisted P} `{!Persisted V}.

(** [Checkpointer::writeCheckpoint] of a database on disk, up to the call that logs the checkpoint;
    [checkpointStorage] is what the tables do. *)
Definition prepareCheckpoint (checkpointStorage : M Ckpt bool) (catalogChanged : bool)
    (catalogBytes storageBytes : list (list Z)) (databaseHeader : DatabaseHeader.DatabaseHeader) :
    M Ckpt DatabaseHeader.DatabaseHeader :=
  hasStorageChanges ← checkpointStorage;
  databaseHeader ← serializeCatalogAndMetadata catalogChanged hasStorageChanges catalogBytes storageBytes databaseHeader;
  on_live (writeDatabaseHeader blank dbg cmakeVersion stale fidx databaseHeader) ;;
  mret databaseHeader.

(** [Checkpointer::writeCheckpoint]; of [StorageManager::finalizeCheckpoint] the page manager's part. *)
Definition writeCheckpoint (isInMemory : bool) (checkpointStorage : M Ckpt bool) (catalogChanged : bool)
    (catalogBytes storageBytes : list (list Z)) (databaseHeader : DatabaseHeader.DatabaseHeader) :
    M Ckpt DatabaseHeader.DatabaseHeader :=
  if isInMemory then mret databaseHeader
  else
    databaseHeader ← prepareCheckpoint checkpointStorage catalogChanged catalogBytes storageBytes databaseHeader;
    on_live (logCheckpointAndApplyShadowPages (C := C) (P := P) (V := V) checked junk blank padding dbg
               (DatabaseHeader.databaseID databaseHeader)) ;;
    on_pages FreeSpace.pm_finalizeCheckpoint ;;
    on_pages resetVersion ;;
    on_live resetFiles ;;
    mret databaseHeader.
End Checkpointer.
End Checkpointer.
