(* ===== verification/CheckpointerSpec.v ===== *)
(** * What a checkpoint writes is what a recovery reads

    Pages of a writer reach shadow pages, the pages allocated for the catalog and for the metadata are
    fresh and enough, and after the checkpoint the data file has the serialized bytes where its header
    says they are. *)

From stdpp Require Import base numbers list gmap strings.
From Stdlib Require Import ZArith Lia.
From S2P Require Import Prelude Serializer InMemFile FreeSpace FreeSpaceSpec FreeSpaceTheorems FreeSpacePersist BufferedFile WalRecord WalWriter WalReplay WalTheorems ShadowFile ShadowSpec ShadowTheorems Recovery RecoverySpec RecoveryTheorems Checkpointer.
Import Serializer FileInfo BufferedFile ShadowFile Recovery Checkpointer.

(** The pages of a range. *)
Abbreviation range_pages r := (seq (FreeSpace.startPageIdx r) (FreeSpace.numPages r)).

(** A run of pages of a file is a slice of it. *)
Lemma pages_slice c n o : concat (map (λ i, page i c) (seq o n)) = slice (o * PAGE) (n * PAGE) c.
Proof.
  revert o. induction n as [|n IH]; intros o; [reflexivity|]. cbn [seq map concat]. rewrite IH.
  change (S n * PAGE) with (PAGE + n * PAGE). rewrite slice_split. f_equal. f_equal. lia.
Qed.

Section Flush.
Context (fidx : nat) (stale : list Z) (Hstale : length stale = PAGE) (data : list Z).
Abbreviation view := (checkpoint_view fidx data).
Implicit Types s : ShadowFile.

(** What writing [ps] from page [start] on does to the view. *)
Record written_to (start : nat) (ps : list (list Z)) s s' : Prop := {
  wt_inv : inv_except fidx 0 s';
  wt_pages : ∀ i p, ps !! i = Some p → view s' (start + i) = p;
  wt_shadow : ∀ q, shadow_of fidx s' q ≠ None ↔ shadow_of fidx s q ≠ None ∨ start ≤ q < start + length ps;
  wt_others : ∀ q, ¬ (start ≤ q < start + length ps) → view s' q = view s q;
}.

Lemma write_pages_ok start ps s :
  inv_except fidx 0 s → Forall (λ p, length p = PAGE) ps →
  ∃ s', write_pages fidx stale data start ps s = (Ok tt, s') ∧ written_to start ps s s'.
Proof.
  intros Hi Hps. revert start s Hi. induction Hps as [|p ps Hp Hps IH]; intros start s Hi.
  - exists s. split; [reflexivity|]. split; [exact Hi|intros i p H; rewrite lookup_nil in H; discriminate| |reflexivity].
    intros q. cbn [length]. split; [auto|]. intros [H|H]; [exact H|lia].
  - destruct (updatePage_spec fidx stale Hstale s start true data (λ _, p) Hi) as (s1 & Hu & Hi1 & Hv & Hq & Hs);
      [intros _ _; exact Hp|left; reflexivity|].
    destruct (IH (S start) s1 Hi1) as (s2 & Hw & [Hi2 Hp2 Hs2 Ho2]). exists s2. cbn [write_pages].
    rewrite (M_bind_ok _ _ _ _ _ Hu). split; [exact Hw|]. split; [exact Hi2| | |].
    + intros [|i] p' Hp'; cbn in Hp'.
      * injection Hp' as <-. rewrite Nat.add_0_r, Ho2 by lia. exact Hv.
      * rewrite Nat.add_succ_r. apply (Hp2 i p' Hp').
    + intros q. cbn [length]. rewrite Hs2, Hs. split; [intros [[->|H]|H]|intros [H|H]]; [right; lia|left; exact H|right; lia|auto|].
      destruct (decide (q = start)) as [->|Hne]; [auto|right; lia].
    + intros q Hq'. cbn [length] in Hq'. rewrite Ho2 by lia. apply Hq. lia.
Qed.

(** [flush_range]: the pages of the writer and then zeros. *)
Lemma flush_range_ok w r s :
  inv_except fidx 0 s → InMemFile.wf w → InMemFile.getNumPagesToFlush w ≤ FreeSpace.numPages r →
  ∃ s', flush_range fidx stale w r data s = (Ok tt, s') ∧
    written_to (FreeSpace.startPageIdx r)
      (InMemFile.pages w ++ replicate (FreeSpace.numPages r - length (InMemFile.pages w)) (replicate PAGE 0%Z)) s s'.
Proof.
  intros Hi Hwf Hn. unfold flush_range, InMemFile.getNumPagesToFlush in *. set (n := length (InMemFile.pages w)) in *.
  destruct (write_pages_ok (FreeSpace.startPageIdx r) (InMemFile.pages w) s Hi (InMemFile.wf_pages w Hwf)) as (s1 & H1 & [Hi1 Hp1 Hs1 Ho1]).
  destruct (write_pages_ok (FreeSpace.startPageIdx r + n) (replicate (FreeSpace.numPages r - n) (replicate PAGE 0%Z)) s1 Hi1)
    as (s2 & H2 & [Hi2 Hp2 Hs2 Ho2]); [apply Forall_replicate, length_replicate|].
  exists s2. split.
  - unfold ku_assert. rewrite (proj2 (Nat.leb_le _ _) Hn). cbn [mret]. unfold mbind at 1, M_bind at 1, mret, M_ret.
    rewrite (M_bind_ok _ _ _ _ _ H1). exact H2.
  - rewrite length_replicate in *. split; [exact Hi2| | |].
    + intros i p Hip. destruct (Nat.lt_ge_cases i n) as [Hlt|Hge].
      * rewrite lookup_app_l in Hip by exact Hlt. rewrite Ho2 by lia. apply (Hp1 i p Hip).
      * rewrite lookup_app_r in Hip by exact Hge. specialize (Hp2 (i - n) p Hip). rewrite <- Hp2. f_equal. lia.
    + intros q. rewrite Hs2, Hs1, length_app, length_replicate. fold n. split; [intros [[H|H]|H]|intros [H|H]]; [auto|right; lia|right; lia|auto|].
      destruct (Nat.lt_ge_cases q (FreeSpace.startPageIdx r + n)); [left; right; lia|right; lia].
    + intros q Hq. rewrite length_app, length_replicate in Hq. fold n in Hq. rewrite Ho2 by lia. apply Ho1. fold n. lia.
Qed.

Lemma map_view_seq s start ps :
  (∀ i p, ps !! i = Some p → view s (start + i) = p) → map (view s) (seq start (length ps)) = ps.
Proof.
  revert start. induction ps as [|p ps IH]; intros start H; [reflexivity|]. cbn [length seq map].
  rewrite <- (H 0 p eq_refl), Nat.add_0_r. f_equal. apply IH. intros i q Hq. rewrite Nat.add_succ_comm. apply (H (S i) q Hq).
Qed.

Lemma flush_prefix w : InMemFile.wf w → ∃ rest, concat (InMemFile.pages w) = InMemFile.flush w ++ rest.
Proof.
  intros Hwf. unfold InMemFile.flush. destruct (decide (InMemFile.pages w = [])) as [->|Hne]; [exists []; reflexivity|].
  destruct (InMemFile.pages_snoc w Hne) as (front & lastp & Heq). pose proof (InMemFile.wf_pages w Hwf) as Hp.
  rewrite Heq in *. apply Forall_app in Hp as [Hp _]. rewrite InMemFile.flush_pages_snoc by exact Hp.
  exists (drop (InMemFile.pageOffset w) lastp). rewrite concat_app. cbn [concat]. rewrite app_nil_r, <- app_assoc, take_drop. reflexivity.
Qed.

End Flush.

(** ** The pages of the free space manager *)

Section FreeSpaceSize.
Import FreeSpace.

Definition tracked_ranges (pm : PageManager) : list PageRange :=
  entries (store pm).1 ++ uncheckpointedFreePageRanges (store pm).1.

(** Allocating pages does not add to the ranges that are serialized. *)
Lemma allocate_fewer n pm owned r pm' :
  pm_inv pm owned → allocatePageRange n pm = (Ok r, pm') → length (tracked_ranges pm') ≤ length (tracked_ranges pm).
Proof.
  intros Hinv Hrun. destruct pm as [[fsm fh] ver]. unfold tracked_ranges. rewrite !length_app.
  assert (Hnone : popFreePages n fsm = (Ok None, fsm) → (store pm').1 = fsm).
  { intros Hp. revert Hrun. unfold allocatePageRange, on_store, on_manager, on_file. unfold_M. cbn [store]. rewrite Hp. cbn [store].
    destruct (addNewPages n fh) as [[start|e] fh']; [|discriminate]. cbn [store snd].
    unfold ku_assert. destruct (_ <=? _); [|discriminate]. intros [= _ <-]. reflexivity. }
  destruct (decide (n = 0)) as [->|Hn]; [rewrite (Hnone eq_refl); reflexivity|].
  destruct (popFreePages_ok fsm n (pi_ok _ _ Hinv) (pm_inv_nodup_free _ _ Hinv)) as
    [[Hp _]|(e & rest & m' & Hp & Hent & Hne & _ & _ & Hent' & Hrest)]; [lia|rewrite (Hnone Hp); reflexivity|].
  unfold allocatePageRange, on_store, on_manager, bump in Hrun. revert Hrun. unfold_M. cbn [store]. rewrite Hp.
  intros [= _ <-]. cbn [store fst]. destruct Hrest as [-> _]. apply Permutation_length in Hent, Hent'.
  rewrite Hent, Hent', length_app. cbn [length]. unfold remainder. destruct (n <? numPages e); cbn [length]; lia.
Qed.

Lemma length_header_items dbg n : length (header_items n ≫= item_bytes dbg) = length (header_items 0 ≫= item_bytes dbg).
Proof. cbn [header_items mbind list_bind item_bytes]. rewrite !length_app. reflexivity. Qed.

Lemma length_entries l : length (l ≫= entry_bytes) = 8 * length l.
Proof.
  induction l as [|r l IH]; [reflexivity|]. change ((r :: l) ≫= entry_bytes) with (entry_bytes r ++ (l ≫= entry_bytes)).
  rewrite length_app, IH. unfold entry_bytes, serializeValue. rewrite length_app, !length_le_bytes. cbn [length]. lia.
Qed.

(** The estimate made before an allocation is enough for what is serialized after it. *)
Lemma estimate_enough n pm owned r pm' dbg :
  pm_inv pm owned → pm_inv pm' (range_pages r ++ owned) → allocatePageRange n pm = (Ok r, pm') →
  ∃ p items, getMaxNumPagesForSerialization (store pm).1 = Ok p ∧ serializeInternal (store pm').1 = Ok items ∧
    serialize dbg (store pm').1 = Ok (concat (map (item_bytes dbg) items)) ∧
    length (concat (map (item_bytes dbg) items)) ≤ PAGE * p.
Proof.
  intros Hinv Hinv' Hrun. destruct (estimate_bounds (store pm).1 (pi_ok _ _ Hinv)) as (p & Hp & Hb).
  destruct (Hb dbg) as (bs & Hs & Hlen). rewrite serialize_ok in Hs by apply (pi_ok _ _ Hinv). apply Ok_inj in Hs.
  destruct (serializeInternal (store pm').1) as [items|e] eqn:Hi;
    [|rewrite serializeInternal_ok in Hi by apply (pi_ok _ _ Hinv'); discriminate].
  exists p, items. split; [exact Hp|]. split; [reflexivity|].
  assert (Hser : serialize dbg (store pm').1 = Ok (concat (map (item_bytes dbg) items))).
  { unfold serialize. rewrite Hi, outcome_bind_Ok. f_equal. clear. induction items as [|i items IH]; [reflexivity|]. cbn. f_equal. exact IH. }
  split; [exact Hser|]. rewrite serialize_ok in Hser by apply (pi_ok _ _ Hinv'). apply Ok_inj in Hser. rewrite <- Hser.
  pose proof (allocate_fewer n pm owned r pm' Hinv Hrun) as Hf. unfold tracked_ranges in Hf.
  rewrite <- Hs, length_app, length_entries, length_header_items in Hlen. rewrite length_app, length_entries, length_header_items. lia.
Qed.
End FreeSpaceSize.

(** ** The catalog and the metadata *)

Section Metadata.
Context (fidx : nat) (stale : list Z) (Hstale : length stale = PAGE).
Context (blank : nat → list Z) (Hblank : ∀ n, length (blank n) = n) (dbg : bool) (data : list Z).
Abbreviation view := (checkpoint_view fidx data).
Abbreviation shadow c := (lv_shadow (ck_live c)).

(** The state of a checkpoint over the data file [data], with the pages [owned] in use; the buffer manager
    grants every request, there are at most [j] ranges of free pages, and the file can still take [k] pages. *)
Record ck_ok (c : Ckpt) (owned : list nat) (j k : nat) : Prop := {
  ck_data : contents (lv_data (ck_live c)) = data;
  ck_inv : inv_except fidx 0 (shadow c);
  ck_pm : pm_inv (ck_pages c) owned;
  ck_granted : FreeSpace.bmAnswers (FreeSpace.store (ck_pages c)).2 = [] ∧ FreeSpaceSpec.frames_ok (FreeSpace.store (ck_pages c)).2;
  ck_ranges : length (tracked_ranges (ck_pages c)) ≤ j;
  ck_room : FreeSpaceSpec.numbers_left (file_pages (ck_pages c) + k);
}.

Lemma ck_ok_less c owned j k j' k' : j ≤ j' → k' ≤ k → ck_ok c owned j k → ck_ok c owned j' k'.
Proof.
  intros Hj Hk [H1 H2 H3 H4 H5 H6]. split; try assumption; [lia|].
  eapply FreeSpaceSpec.numbers_left_le; [|exact H6]. lia.
Qed.

(** Pages are allocated out of the room. *)
Lemma ck_allocate n c owned j k :
  ck_ok c owned j (n + k) →
  ∃ r pm, FreeSpace.allocatePageRange n (ck_pages c) = (Ok r, pm) ∧ FreeSpace.numPages r = n ∧
    ck_ok (MkCkpt (ck_live c) pm) (range_pages r ++ owned) j k.
Proof.
  intros [Hd Hi Hpm [Ha Hf] Hj Hroom].
  destruct (allocate_ok n (ck_pages c) owned Hpm) as (r & pm & m & Hrun & ((_ & _ & Hans) & Hgrow & Hfr) & Hn & Hpm' & Hm);
    [eapply FreeSpaceSpec.numbers_left_le; [|exact Hroom]; lia|exact Ha|].
  exists r, pm. split; [exact Hrun|]. split; [exact Hn|]. split; cbn [ck_live ck_pages]; try assumption.
  - split; [apply Hans, Ha|apply Hfr; assumption].
  - pose proof (allocate_fewer _ _ _ _ _ Hpm Hrun). lia.
  - eapply FreeSpaceSpec.numbers_left_le; [|exact Hroom]. rewrite Hgrow. destruct Hm as [-> |[-> _]]; lia.
Qed.

(** What an operation that writes only pages outside [owned] keeps. *)
Record extends (owned : list nat) (c c' : Ckpt) : Prop := {
  ex_files : lv_data (ck_live c') = lv_data (ck_live c) ∧ lv_wal (ck_live c') = lv_wal (ck_live c);
  ex_view : ∀ q, q ∈ owned → view (shadow c') q = view (shadow c) q;
  ex_shadow : ∀ q, shadow_of fidx (shadow c) q ≠ None → shadow_of fidx (shadow c') q ≠ None;
}.

Lemma extends_trans owned owned' c1 c2 c3 :
  extends owned c1 c2 → extends owned' c2 c3 → (∀ q, q ∈ owned → q ∈ owned') → extends owned c1 c3.
Proof.
  intros [[H1 H2] H3 H4] [[H5 H6] H7 H8] Hsub. split; [split; congruence| |auto].
  intros q Hq. rewrite H7 by (apply Hsub, Hq). apply H3, Hq.
Qed.

Lemma extends_refl owned c : extends owned c c.
Proof. split; auto. Qed.

Lemma extends_mono owned owned' c c' : extends (owned' ++ owned) c c' → extends owned c c'.
Proof. intros [H1 H2 H3]. split; [exact H1| |exact H3]. intros q Hq. apply H2, elem_of_app. right. exact Hq. Qed.

(** Writing a writer's pages into a range just allocated. *)
Lemma flush_allocated w r c owned j k :
  ck_ok c (range_pages r ++ owned) j k → InMemFile.wf w → InMemFile.getNumPagesToFlush w ≤ FreeSpace.numPages r →
  ∃ c', on_shadow_file (flush_range fidx stale w r) c = (Ok tt, c') ∧ ck_ok c' (range_pages r ++ owned) j k ∧
    ck_pages c' = ck_pages c ∧ extends owned c c' ∧
    ∃ n rest, n ≤ FreeSpace.numPages r ∧ concat (map (view (shadow c')) (seq (FreeSpace.startPageIdx r) n)) = InMemFile.flush w ++ rest ∧
      ∀ q, FreeSpace.startPageIdx r ≤ q < FreeSpace.startPageIdx r + n → shadow_of fidx (shadow c') q ≠ None.
Proof.
  intros [Hd Hi Hpm Hg Hj Hroom] Hwf Hn. unfold on_shadow_file. rewrite Hd.
  destruct (flush_range_ok fidx stale Hstale data w r (shadow c) Hi Hwf Hn) as (s' & Hrun & Hw). rewrite Hrun.
  eexists. split; [reflexivity|]. set (c' := MkCkpt _ _). pose proof Hw as [Hi' Hp Hs Ho]. rewrite length_app, length_replicate in *.
  assert (Hlen : length (InMemFile.pages w) + (FreeSpace.numPages r - length (InMemFile.pages w)) = FreeSpace.numPages r)
    by (unfold InMemFile.getNumPagesToFlush in Hn; lia). rewrite Hlen in *.
  split; [split; [exact Hd|exact Hi'|exact Hpm|exact Hg|exact Hj|exact Hroom]|]. split; [reflexivity|]. split.
  - split; [split; reflexivity| |intros q Hq; apply Hs; left; exact Hq].
    intros q Hq. apply Ho. intros Hin. apply pm_inv_nodup, NoDup_app in Hpm as (Hnd & _ & _). apply NoDup_app in Hnd as (_ & Hdis & _).
    apply (Hdis q); [apply elem_of_seq; lia|exact Hq].
  - destruct (flush_prefix w Hwf) as (rest & Hrest). exists (length (InMemFile.pages w)), rest. split; [lia|]. split.
    + rewrite (map_view_seq fidx data); [exact Hrest|]. intros i p Hip. apply Hp, lookup_app_l_Some, Hip.
    + intros q Hq. apply Hs. right. lia.
Qed.

(** The bytes [bs] are at the start of the range [r], which the checkpoint has written. *)
Definition located (c : Ckpt) (r : FreeSpace.PageRange) (bs : list Z) : Prop :=
  ∃ n rest, n ≤ FreeSpace.numPages r ∧ concat (map (view (shadow c)) (seq (FreeSpace.startPageIdx r) n)) = bs ++ rest ∧
    ∀ q, FreeSpace.startPageIdx r ≤ q < FreeSpace.startPageIdx r + n → shadow_of fidx (shadow c) q ≠ None.

Lemma located_kept owned c c' r bs :
  located c r bs → extends owned c c' → (∀ q, q ∈ range_pages r → q ∈ owned) → located c' r bs.
Proof.
  clear Hstale. intros (n & rest & Hn & Hb & Hsh) [_ Hv Hs] Hin. exists n, rest. split; [exact Hn|]. split; [|intros q Hq; apply Hs, Hsh, Hq].
  rewrite <- Hb. f_equal. apply map_ext_in. intros q Hq. apply in_seq in Hq. apply Hv, Hin, elem_of_seq. lia.
Qed.

Lemma writer_fits w : InMemFile.wf w → length (InMemFile.flush w) ≤ PAGE * InMemFile.getNumPagesToFlush w.
Proof.
  intros Hwf. destruct (InMemFile.flush_length w Hwf) as [_ Hl]. pose proof (InMemFile.wf_offset w Hwf) as Ho.
  unfold InMemFile.getNumPagesToFlush. unfold InMemFile.flush in *. destruct (InMemFile.pages w) as [|q qs]; [cbn; lia|].
  destruct Hl as [Hl|Hl]; [discriminate|]. rewrite Hl. cbn [length]. rewrite Nat.sub_succ, Nat.sub_0_r. lia.
Qed.

Lemma new_writer ws :
  let w := InMemFile.write_all (blank PAGE) ws InMemFile.InMemFileWriter_new in
  InMemFile.wf w ∧ InMemFile.flush w = concat ws.
Proof. apply (InMemFile.write_all_appends (blank PAGE) (Hblank PAGE) ws _ InMemFile.writer_wf_new). Qed.

Lemma observe_ok {A} (f : Ckpt → outcome A) a c : f c = Ok a → observe f c = (Ok a, c).
Proof. intros H. unfold observe. rewrite H. reflexivity. Qed.

Lemma on_pages_ok {A} (m : M FreeSpace.PageManager A) a pm c :
  m (ck_pages c) = (Ok a, pm) → on_pages m c = (Ok a, MkCkpt (ck_live c) pm).
Proof. intros H. unfold on_pages. rewrite H. reflexivity. Qed.

(** The pages the bytes [ws] take. *)
Definition writer_pages (ws : list (list Z)) : nat :=
  InMemFile.getNumPagesToFlush (InMemFile.write_all (blank PAGE) ws InMemFile.InMemFileWriter_new).

Lemma serializeCatalog_ok ws c owned j k :
  ck_ok c owned j (writer_pages ws + k) →
  ∃ r c', serializeCatalog fidx stale blank ws c = (Ok r, c') ∧ ck_ok c' (range_pages r ++ owned) j k ∧
    extends owned c c' ∧ located c' r (concat ws).
Proof.
  intros Hok0. unfold serializeCatalog, flush_allocating. destruct (new_writer ws) as [Hwf Hfl]. cbn zeta in Hwf, Hfl.
  destruct (ck_allocate _ _ _ _ _ Hok0) as (r & pm & Ha & Hn & Hok1). unfold writer_pages in Ha, Hn.
  set (w := InMemFile.write_all _ _ _) in *.
  rewrite (M_bind_ok _ _ _ _ _ (on_pages_ok _ _ _ c Ha)).
  destruct (flush_allocated w r (MkCkpt (ck_live c) pm) owned j k Hok1 Hwf ltac:(lia)) as (c' & Hrun & Hok & _ & Hex & Hloc).
  rewrite (M_bind_ok _ _ _ _ _ Hrun). exists r, c'. split; [reflexivity|]. split; [exact Hok|].
  rewrite <- Hfl. split; [|exact Hloc]. destruct Hex as [H1 H2 H3]. split; assumption.
Qed.

Lemma serializeMetadata_ok ws c owned j :
  ck_ok c owned j (writer_pages ws + (5 + 2 * j)) →
  ∃ r c' fbs, serializeMetadata fidx stale blank dbg ws c = (Ok r, c') ∧ ck_ok c' (range_pages r ++ owned) j 0 ∧
    extends owned c c' ∧ FreeSpace.serialize dbg (FreeSpace.store (ck_pages c')).1 = Ok fbs ∧ located c' r (concat ws ++ fbs).
Proof.
  intros Hok0. unfold serializeMetadata. destruct (new_writer ws) as [Hwf Hfl]. cbn zeta in Hwf, Hfl |- *.
  pose proof (ck_pm _ _ _ _ Hok0) as Hpm. pose proof (ck_ranges _ _ _ _ Hok0) as Hj. unfold writer_pages in Hok0.
  set (w := InMemFile.write_all _ ws _) in *.
  destruct (estimate_bounds (FreeSpace.store (ck_pages c)).1 (pi_ok _ _ Hpm)) as (p & Hp & _).
  pose proof (estimate_small _ _ (pi_ok _ _ Hpm) Hp) as Hsmall. unfold tracked_ranges in Hj.
  destruct (ck_allocate (InMemFile.getNumPagesToFlush w + p) c owned j 0) as (r & pm & Ha & Hn & Hok1);
    [eapply ck_ok_less; [| |exact Hok0]; lia|].
  pose proof (ck_pm _ _ _ _ Hok1) as Hpm'. cbn [ck_pages] in Hpm'.
  destruct (estimate_enough _ (ck_pages c) owned r pm dbg Hpm Hpm' Ha) as (p' & items & Hp' & Hit & Hser & Hlen).
  rewrite Hp in Hp'. injection Hp' as <-.
  rewrite (M_bind_ok _ _ _ _ _ (observe_ok _ _ c Hp)), (M_bind_ok _ _ _ _ _ (on_pages_ok _ _ _ c Ha)).
  rewrite (M_bind_ok _ _ _ _ _ (observe_ok _ _ (MkCkpt (ck_live c) pm) Hit)).
  destruct (InMemFile.write_all_appends (blank PAGE) (Hblank PAGE) (map (FreeSpace.item_bytes dbg) items) w Hwf) as [Hwf2 Hfl2].
  set (w2 := InMemFile.write_all _ _ w) in *.
  destruct (flush_allocated w2 r (MkCkpt (ck_live c) pm) owned j 0 Hok1 Hwf2) as (c' & Hrun & Hok & Hpg & Hex & Hloc).
  { rewrite Hn. apply InMemFile.pages_bound; [exact Hwf2|]. rewrite Hfl2, length_app, Nat.mul_add_distr_l.
    apply Nat.add_le_mono; [|exact Hlen]. apply writer_fits, Hwf. }
  rewrite (M_bind_ok _ _ _ _ _ Hrun). eexists r, c', _. split; [reflexivity|]. split; [exact Hok|].
  split; [destruct Hex as [H1 H2 H3]; split; assumption|]. rewrite Hpg. split; [exact Hser|].
  rewrite <- Hfl, <- Hfl2. exact Hloc.
Qed.

(** *** The page ranges of the header *)

Definition old_pages (r : DatabaseHeader.PageRange) : list nat := if is_invalid r then [] else range_pages (of_header r).
Definition old_ok (r : DatabaseHeader.PageRange) : Prop := is_invalid r = false → 0 < FreeSpace.numPages (of_header r).

Lemma pm_inv_perm pm o o' : o ≡ₚ o' → pm_inv pm o → pm_inv pm o'.
Proof. intros Hp [H1 H2 H3]. split; [exact H1|exact H2|]. rewrite <- Hp. exact H3. Qed.

Lemma ck_ok_perm c o o' j k : o ≡ₚ o' → ck_ok c o j k → ck_ok c o' j k.
Proof. intros Hp [H1 H2 H3]. split; try assumption. exact (pm_inv_perm _ _ _ Hp H3). Qed.

(** Freeing the pages of an old range, if there is one. *)
Lemma free_old r c owned j k :
  old_ok r → ck_ok c (old_pages r ++ owned) j k →
  ∃ c', (if negb (is_invalid r) then on_pages (FreeSpace.freePageRange (of_header r)) else mret tt) c = (Ok tt, c') ∧
    ck_ok c' owned (S j) k ∧ ck_live c' = ck_live c.
Proof.
  intros Hr [Hd Hi Hpm Hg Hj Hroom]. unfold old_pages in Hpm. destruct (is_invalid r) eqn:Hv; cbn [negb].
  - exists c. split; [reflexivity|]. split; [split; try assumption; lia|reflexivity].
  - destruct (free_ok (of_header r) (ck_pages c) _ owned Hpm (Hr Hv)) as (pm & Hf & Hpm'); [reflexivity|].
    rewrite (on_pages_ok _ _ _ c Hf). eexists. split; [reflexivity|]. split; [|reflexivity].
    destruct c as [l [[fsm fh] ver]]. injection Hf as <-. split; try assumption.
    change (length (FreeSpaceSpec.entries fsm ++ FreeSpace.uncheckpointedFreePageRanges fsm) ≤ j) in Hj.
    change (length (FreeSpaceSpec.entries fsm ++ FreeSpace.uncheckpointedFreePageRanges fsm ++ [of_header r]) ≤ S j).
    rewrite !length_app in *. cbn [length]. lia.
Qed.

Lemma extends_live owned c c' : ck_live c' = ck_live c → extends owned c c'.
Proof. intros H. split; rewrite ?H; auto. Qed.

(** The first half of [serializeCatalogAndMetadata]. *)
Lemma catalog_half catalogChanged ws h c owned j k :
  old_ok (DatabaseHeader.catalogPageRange h) →
  ck_ok c (old_pages (DatabaseHeader.catalogPageRange h) ++ owned) j (writer_pages ws + k) →
  ∃ h' c' cp,
    (if is_invalid (DatabaseHeader.catalogPageRange h) || catalogChanged
     then range ← serializeCatalog fidx stale blank ws; updateCatalogPageRange range h else mret h) c = (Ok h', c') ∧
    ck_ok c' (cp ++ owned) (S j) k ∧ extends owned c c' ∧
    DatabaseHeader.metadataPageRange h' = DatabaseHeader.metadataPageRange h ∧ DatabaseHeader.databaseID h' = DatabaseHeader.databaseID h ∧
    ((∃ r, cp = range_pages r ∧ DatabaseHeader.catalogPageRange h' = to_header r ∧ located c' r (concat ws)) ∨
     (catalogChanged = false ∧ h' = h ∧ c' = c ∧ cp = old_pages (DatabaseHeader.catalogPageRange h))).
Proof.
  intros Hr Hok. destruct (is_invalid _ || catalogChanged) eqn:Hb.
  - destruct (serializeCatalog_ok ws c _ j k Hok) as (r & c1 & Hrun & Hok1 & Hex1 & Hloc). rewrite (M_bind_ok _ _ _ _ _ Hrun).
    unfold updateCatalogPageRange.
    destruct (free_old (DatabaseHeader.catalogPageRange h) c1 (range_pages r ++ owned) j k Hr) as (c2 & Hf & Hok2 & Hlive).
    { eapply ck_ok_perm; [|exact Hok1]. apply Permutation_app_swap_app. }
    rewrite (M_bind_ok _ _ _ _ _ Hf). eexists _, c2, (range_pages r). split; [reflexivity|]. split; [exact Hok2|].
    pose proof (extends_live (range_pages r ++ owned) c1 c2 Hlive) as Hex2. split.
    { eapply extends_trans; [|exact Hex2|intros q Hq; apply elem_of_app; right; exact Hq].
      exact (extends_mono _ _ _ _ Hex1). }
    split; [reflexivity|]. split; [reflexivity|]. left. exists r. split; [reflexivity|]. split; [reflexivity|].
    apply (located_kept _ c1 c2 r _ Hloc Hex2). intros q Hq. apply elem_of_app. left. exact Hq.
  - apply orb_false_iff in Hb as [_ Hc]. exists h, c, (old_pages (DatabaseHeader.catalogPageRange h)).
    split; [reflexivity|]. split; [eapply ck_ok_less; [| |exact Hok]; lia|]. split; [apply extends_refl|]. auto 10.
Qed.

(** The second half. *)
Lemma metadata_half ws h c owned j :
  old_ok (DatabaseHeader.metadataPageRange h) →
  ck_ok c (old_pages (DatabaseHeader.metadataPageRange h) ++ owned) j (writer_pages ws + (5 + 2 * S j)) →
  ∃ r c' fbs,
    (freeMetadataPageRange h ;; serializeMetadata fidx stale blank dbg ws) c = (Ok r, c') ∧
    ck_ok c' (range_pages r ++ owned) (S j) 0 ∧ extends owned c c' ∧
    FreeSpace.serialize dbg (FreeSpace.store (ck_pages c')).1 = Ok fbs ∧ located c' r (concat ws ++ fbs).
Proof.
  intros Hr Hok. destruct (free_old (DatabaseHeader.metadataPageRange h) c owned _ _ Hr Hok) as (c1 & Hf & Hok1 & Hlive).
  unfold freeMetadataPageRange. rewrite (M_bind_ok _ _ _ _ _ Hf).
  destruct (serializeMetadata_ok ws c1 owned _ Hok1) as (r & c2 & fbs & Hrun & Hok2 & Hex & Hser & Hloc).
  exists r, c2, fbs. split; [exact Hrun|]. split; [exact Hok2|]. split; [|auto].
  eapply extends_trans; [apply (extends_live owned c c1 Hlive)|exact Hex|auto].
Qed.

(** Where the catalog and the metadata are afterwards. *)
Definition catalog_placed (catalogChanged : bool) ws h c h' c' cp : Prop :=
  (∃ r, cp = range_pages r ∧ DatabaseHeader.catalogPageRange h' = to_header r ∧ located c' r (concat ws)) ∨
  (catalogChanged = false ∧ DatabaseHeader.catalogPageRange h' = DatabaseHeader.catalogPageRange h ∧
   cp = old_pages (DatabaseHeader.catalogPageRange h) ∧ ∀ q, q ∈ cp → view (shadow c') q = view (shadow c) q).
Definition metadata_placed (catalogChanged hasStorageChanges : bool) ws h c h' c' mp : Prop :=
  (∃ r fbs, mp = range_pages r ∧ DatabaseHeader.metadataPageRange h' = to_header r ∧
     FreeSpace.serialize dbg (FreeSpace.store (ck_pages c')).1 = Ok fbs ∧ located c' r (concat ws ++ fbs)) ∨
  (catalogChanged = false ∧ hasStorageChanges = false ∧ FreeSpace.version (ck_pages c') = 0 ∧
   DatabaseHeader.metadataPageRange h' = DatabaseHeader.metadataPageRange h ∧
   mp = old_pages (DatabaseHeader.metadataPageRange h) ∧ ∀ q, q ∈ mp → view (shadow c') q = view (shadow c) q).

(** The pages a header names for a range just allocated. *)
Lemma old_pages_new r c owned j k : ck_ok c (range_pages r ++ owned) j k → old_pages (to_header r) = range_pages r.
Proof.
  clear Hstale Hblank. intros Hok. assert (Hof : of_header (to_header r) = r) by (destruct r; unfold of_header, to_header; cbn; rewrite !Nat2Z.id; reflexivity).
  unfold old_pages. destruct (is_invalid _) eqn:Hv; [|rewrite Hof; reflexivity].
  unfold is_invalid in Hv. cbn [to_header DatabaseHeader.startPageIdx] in Hv. apply Z.eqb_eq in Hv.
  destruct (FreeSpace.numPages r) as [|n] eqn:Hn; [reflexivity|exfalso].
  assert (Hin : FreeSpace.startPageIdx r ∈ seq 0 (file_pages (ck_pages c))).
  { rewrite <- (pi_pages _ _ (ck_pm _ _ _ _ Hok)). apply elem_of_app. left. apply elem_of_app. left. apply elem_of_seq. lia. }
  apply elem_of_seq in Hin. pose proof (ck_room _ _ _ _ Hok) as Hroom. unfold FreeSpaceSpec.numbers_left in Hroom.
  unfold DatabaseHeader.INVALID_PAGE_IDX in Hv. lia.
Qed.

Lemma placed_pages catalogChanged hasStorageChanges cws sws h c h' c' cp mp owned j k :
  catalog_placed catalogChanged cws h c h' c' cp → metadata_placed catalogChanged hasStorageChanges sws h c h' c' mp →
  ck_ok c' (cp ++ mp ++ owned) j k →
  cp = old_pages (DatabaseHeader.catalogPageRange h') ∧ mp = old_pages (DatabaseHeader.metadataPageRange h').
Proof.
  intros Hcat Hmeta Hok. split.
  - destruct Hcat as [(r & -> & -> & _)|(_ & -> & -> & _)]; [|reflexivity]. symmetry. exact (old_pages_new _ _ _ _ _ Hok).
  - destruct Hmeta as [(r & fbs & -> & -> & _)|(_ & _ & _ & -> & -> & _)]; [|reflexivity]. symmetry.
    eapply (old_pages_new r c' (cp ++ owned)), ck_ok_perm; [|exact Hok]. apply Permutation_app_swap_app.
Qed.

Lemma catalog_placed_kept catalogChanged ws h c h' c1 c2 cp owned :
  catalog_placed catalogChanged ws h c h' c1 cp → extends owned c1 c2 → (∀ q, q ∈ cp → q ∈ owned) →
  catalog_placed catalogChanged ws h c h' c2 cp.
Proof.
  intros [(r & -> & Hr & Hloc)|(H1 & H2 & H3 & Hv)] Hex Hin; [left|right].
  - exists r. split; [reflexivity|]. split; [exact Hr|]. exact (located_kept owned c1 c2 r _ Hloc Hex Hin).
  - split; [exact H1|]. split; [exact H2|]. split; [exact H3|]. intros q Hq. rewrite (ex_view _ _ _ Hex) by (apply Hin, Hq). apply Hv, Hq.
Qed.

Lemma metadata_placed_kept catalogChanged hasStorageChanges ws h c h' c1 c2 mp owned :
  metadata_placed catalogChanged hasStorageChanges ws h c h' c1 mp → extends owned c1 c2 → ck_pages c2 = ck_pages c1 →
  (∀ q, q ∈ mp → q ∈ owned) → metadata_placed catalogChanged hasStorageChanges ws h c h' c2 mp.
Proof.
  intros [(r & fbs & -> & Hr & Hs & Hloc)|(H1 & H2 & H3 & H4 & H5 & Hv)] Hex Hpg Hin; [left|right]; rewrite ?Hpg.
  - exists r, fbs. split; [reflexivity|]. split; [exact Hr|]. split; [exact Hs|]. exact (located_kept owned c1 c2 r _ Hloc Hex Hin).
  - split_and!; try assumption. intros q Hq. rewrite (ex_view _ _ _ Hex) by (apply Hin, Hq). apply Hv, Hq.
Qed.

(** The pages a checkpoint may add to the file: those of the catalog and of the tables, and at most five and
    two for each range of free pages, the two ranges of the old header included. *)
Definition pages_to_come (cws sws : list (list Z)) (c : Ckpt) : nat :=
  writer_pages cws + (writer_pages sws + (5 + 2 * S (S (length (tracked_ranges (ck_pages c)))))).

Lemma serializeCatalogAndMetadata_ok catalogChanged hasStorageChanges cws sws h c owned :
  old_ok (DatabaseHeader.catalogPageRange h) → old_ok (DatabaseHeader.metadataPageRange h) →
  ck_ok c (old_pages (DatabaseHeader.catalogPageRange h) ++ old_pages (DatabaseHeader.metadataPageRange h) ++ owned)
    (length (tracked_ranges (ck_pages c))) (pages_to_come cws sws c) →
  ∃ h' c' cp mp j,
    serializeCatalogAndMetadata fidx stale blank dbg catalogChanged hasStorageChanges cws sws h c = (Ok h', c') ∧
    ck_ok c' (cp ++ mp ++ owned) j 0 ∧ extends owned c c' ∧ DatabaseHeader.databaseID h' = DatabaseHeader.databaseID h ∧
    catalog_placed catalogChanged cws h c h' c' cp ∧ metadata_placed catalogChanged hasStorageChanges sws h c h' c' mp.
Proof.
  intros Hrc Hrm Hok.
  destruct (catalog_half catalogChanged cws h c _ _ _ Hrc Hok) as (h1 & c1 & cp & Hrun1 & Hok1 & Hex1 & Hm1 & Hid1 & Hcat).
  unfold serializeCatalogAndMetadata. rewrite (M_bind_ok _ _ _ _ _ Hrun1).
  rewrite (M_bind_ok get_state _ c1 c1 c1 eq_refl). destruct (_ || _ || _ || _) eqn:Hb.
  - destruct (metadata_half sws h1 c1 (cp ++ owned) (S (length (tracked_ranges (ck_pages c))))) as (r & c2 & fbs & Hrun2 & Hok2 & Hex2 & Hser & Hloc).
    { rewrite Hm1. exact Hrm. }
    { rewrite Hm1. eapply ck_ok_perm; [|exact Hok1]. apply Permutation_app_swap_app. }
    eexists (DatabaseHeader.MkDatabaseHeader (DatabaseHeader.catalogPageRange h1) (to_header r) (DatabaseHeader.databaseID h1)), c2, cp, (range_pages r), _.
    split; [|split; [|split; [|split; [exact Hid1|split]]]].
    + unfold mbind, M_bind in Hrun2 |- *. destruct (freeMetadataPageRange h1 c1) as [[[]|e] c1']; [|discriminate]. rewrite Hrun2. reflexivity.
    + eapply ck_ok_perm; [|exact Hok2]. apply Permutation_app_swap_app.
    + eapply extends_trans; [|exact Hex2|intros q Hq; apply elem_of_app; right; exact Hq].
      exact (extends_mono _ _ _ _ Hex1).
    + destruct Hcat as [(rc & -> & Hrc' & Hloc')|(Hch & -> & -> & ->)].
      * left. exists rc. split; [reflexivity|]. split; [exact Hrc'|]. apply (located_kept _ c1 c2 rc _ Hloc' Hex2).
        intros q Hq. apply elem_of_app. left. exact Hq.
      * right. split; [exact Hch|]. split; [reflexivity|]. split; [reflexivity|]. intros q Hq. apply (ex_view _ _ _ Hex2), elem_of_app. left. exact Hq.
    + left. exists r, fbs. auto.
  - apply orb_false_iff in Hb as [Hb Hv]. apply orb_false_iff in Hb as [Hb Hc]. apply orb_false_iff in Hb as [_ Hs].
    unfold changedSinceLastCheckpoint in Hv. apply negb_false_iff, Nat.eqb_eq in Hv.
    eexists h1, c1, cp, (old_pages (DatabaseHeader.metadataPageRange h)), _. split; [reflexivity|].
    split; [eapply ck_ok_less; [reflexivity| |exact Hok1]; lia|].
    split; [exact (extends_mono _ _ _ _ Hex1)|].
    split; [exact Hid1|]. split.
    + destruct Hcat as [(rc & -> & Hrc' & Hloc')|(Hch & -> & -> & ->)]; [left; exists rc; auto|right; auto].
    + right. split; [exact Hc|]. split; [exact Hs|]. split; [exact Hv|]. split; [exact Hm1|]. split; [reflexivity|].
      intros q Hq. apply (ex_view _ _ _ Hex1), elem_of_app. left. exact Hq.
Qed.
End Metadata.

(** * A checkpoint can be read back

    The whole of [Checkpointer::writeCheckpoint]: the page manager, the writers of the catalog and of the
    metadata, the shadow file, the header, the log and the recovery together. *)

Import Serializer FileInfo BufferedFile Wal WalWriter WalReplay ShadowFile Recovery Checkpointer.

Section Checkpoint.
Context (checked : bool) (junk blank : nat → list Z) (junk0 : junk 0 = []).
Context (Hblank : ∀ n, length (blank n) = n) (padding : list Z) (Hpadding : length padding = 4).
Context (fidx : nat) (stale : list Z) (Hstale : length stale = PAGE).
Context (dbg : bool) (cmakeVersion : string).
Context {T C P V : Type} `{!Persisted C} `{!Persisted P} `{!Persisted V}.
Context `{!ReplayEngine T C P V} `{!CheckpointEngine T}.
Context (throwOnFailure ec : bool) (db : Z) (Hdb : u128 db).
Implicit Types (txns : list (list (WALRecord C P V))) (t : T) (l : Live).

Abbreviation the_ready := (ready (C := C) (P := P) (V := V) dbg cmakeVersion ec db fidx).
Abbreviation the_file l := (after padding db l).

(** Bytes on shadow pages are in the data file afterwards. *)
Lemma located_after l txns c r bs :
  the_ready l txns → ck_live c = l → located fidx (contents (lv_data l)) c r bs →
  slice (FreeSpace.startPageIdx r * PAGE) (length bs) (the_file l) = bs.
Proof.
  intros Hrd <- (n & rest & _ & Hb & Hsh). set (l := ck_live c) in *.
  assert (Hp : map (checkpoint_view fidx (contents (lv_data l)) (lv_shadow l)) (seq (FreeSpace.startPageIdx r) n) =
               map (λ i, page i (the_file l)) (seq (FreeSpace.startPageIdx r) n)).
  { apply map_ext_in. intros q Hq. apply in_seq in Hq. symmetry.
    apply (after_view padding Hpadding dbg cmakeVersion ec db fidx l txns q Hrd). left. apply Hsh. lia. }
  rewrite Hp, pages_slice in Hb.
  assert (Hle : length bs ≤ n * PAGE).
  { apply (f_equal length) in Hb. rewrite length_app in Hb. unfold slice in Hb. rewrite length_take in Hb. lia. }
  rewrite <- (slice_take (FreeSpace.startPageIdx r * PAGE) (length bs) (n * PAGE)) by exact Hle. rewrite Hb. apply take_app_length.
Qed.

(** *** Up to the log record *)

(** An open database before a checkpoint writes its catalog and metadata: the tables have made their
    shadow pages, [h] is the header in memory, the header page and the ranges of [h] are in use, the buffer
    manager grants the requests to come and page numbers are left. *)
Record checkpointing (cws sws : list (list Z)) (c : Ckpt) (h : DatabaseHeader.DatabaseHeader) (owned : list nat) txns : Prop := {
  ckp_pages : ck_ok fidx (contents (lv_data (ck_live c))) c
    (old_pages (DatabaseHeader.catalogPageRange h) ++ old_pages (DatabaseHeader.metadataPageRange h) ++ owned)
    (length (tracked_ranges (ck_pages c))) (pages_to_come blank cws sws c);
  ckp_header : 0 ∈ owned ∧ DatabaseHeader.databaseID h = db;
  ckp_ranges : old_ok (DatabaseHeader.catalogPageRange h) ∧ old_ok (DatabaseHeader.metadataPageRange h);
  ckp_wal : wal_ok (lv_wal (ck_live c)) ∧ inMemory (lv_wal (ck_live c)) = false ∧ enableChecksums (lv_wal (ck_live c)) = ec;
  ckp_log : wal_bytes (lv_wal (ck_live c)) = log_of dbg ec db txns ∧ Forall (transaction dbg ec) txns;
  ckp_log_synced : ∀ f, wal_file (lv_wal (ck_live c)) = Some f → pending f = [];
  ckp_data : pending (lv_data (ck_live c)) = [] ∧ has_db_header db dbg cmakeVersion (durable (lv_data (ck_live c)));
}.

Lemma prepare_ok c0 c1 hasStorageChanges catalogChanged cws sws h owned txns checkpointStorage :
  checkpointStorage c0 = (Ok hasStorageChanges, c1) → checkpointing cws sws c1 h owned txns →
  (∀ h' c', serializeCatalogAndMetadata fidx stale blank dbg catalogChanged hasStorageChanges cws sws h c1 = (Ok h', c') →
            DatabaseHeader.header_ok h') →
  ∃ h' c2 c' cp mp j,
    serializeCatalogAndMetadata fidx stale blank dbg catalogChanged hasStorageChanges cws sws h c1 = (Ok h', c2) ∧
    prepareCheckpoint fidx stale blank dbg cmakeVersion checkpointStorage catalogChanged cws sws h c0 = (Ok h', c') ∧
    (records_ok (lv_shadow (ck_live c')) → the_ready (ck_live c') txns) ∧
    DatabaseHeader.header_ok h' ∧ DatabaseHeader.databaseID h' = db ∧
    ck_ok fidx (contents (lv_data (ck_live c1))) c' (cp ++ mp ++ owned) j 0 ∧ lv_data (ck_live c') = lv_data (ck_live c1) ∧
    (shadow_of fidx (lv_shadow (ck_live c')) 0 ≠ None ∧
     ∃ rest, checkpoint_view fidx (contents (lv_data (ck_live c'))) (lv_shadow (ck_live c')) 0 =
             concat (DatabaseHeader.serialize dbg cmakeVersion h') ++ rest) ∧
    catalog_placed fidx (contents (lv_data (ck_live c1))) catalogChanged cws h c1 h' c' cp ∧
    metadata_placed fidx dbg (contents (lv_data (ck_live c1))) catalogChanged hasStorageChanges sws h c1 h' c' mp.
Proof.
  intros Hst [Hok [H0 Hid] [Hrc Hrm] Hwal Hlog Hsync Hdata] Hu.
  destruct (serializeCatalogAndMetadata_ok fidx stale Hstale blank Hblank dbg _ catalogChanged hasStorageChanges cws sws h c1 owned Hrc Hrm Hok)
    as (h' & c2 & cp & mp & j & Hrun & [Hd2 Hi2 Hpm2 Hg2 Hj2 Hroom2] & Hex & Hid' & Hcat & Hmeta).
  specialize (Hu h' c2 Hrun). rewrite Hid in Hid'. destruct (ex_files _ _ _ _ _ Hex) as [Hfd Hfw].
  destruct (writeDatabaseHeader_ok blank Hblank padding Hpadding dbg cmakeVersion db fidx stale h' (ck_live c2) Hstale Hi2 Hu Hid')
    as (s' & Hwh & Hi' & Hfh & Hsh & Hv & Hs & Hpage0 & Hs0).
  set (c' := MkCkpt (MkLive (lv_data (ck_live c2)) (lv_wal (ck_live c2)) s') (ck_pages c2)).
  assert (Hne : ∀ q, q ∈ cp ++ mp → q ≠ 0).
  { intros q Hq ->. apply pm_inv_nodup, NoDup_app in Hpm2 as (Hnd & _ & _). rewrite app_assoc in Hnd.
    apply NoDup_app in Hnd as (_ & Hdis & _). exact (Hdis 0 Hq H0). }
  assert (Hex' : extends fidx (contents (lv_data (ck_live c1))) (cp ++ mp) c2 c').
  { split; [split; reflexivity| |exact Hs]. intros q Hq. rewrite <- Hd2. apply Hv, Hne, Hq. }
  exists h', c2, c', cp, mp, j. split; [exact Hrun|]. split.
  { unfold prepareCheckpoint. rewrite (M_bind_ok _ _ _ _ _ Hst), (M_bind_ok _ _ _ _ _ Hrun). unfold on_live. unfold_M. rewrite Hwh. reflexivity. }
  split; [|split; [exact Hu|split; [exact Hid'|split; [split; assumption|split; [exact Hfd|split; [split; [exact Hs0|exact Hpage0]|split]]]]]].
  - intros Hrec. split; cbn [c' ck_live lv_data lv_wal lv_shadow]; rewrite ?Hfd, ?Hfw; assumption.
  - eapply catalog_placed_kept; [exact Hcat|exact Hex'|]. intros q Hq. apply elem_of_app. left. exact Hq.
  - eapply metadata_placed_kept; [exact Hmeta|exact Hex'|reflexivity|]. intros q Hq. apply elem_of_app. right. exact Hq.
Qed.

(** *** The whole checkpoint *)

(** The bytes [bs] are in the file [c], on the pages of [r]. *)
Definition stored (c : list Z) (r : DatabaseHeader.PageRange) (bs : list Z) : Prop :=
  slice (Z.to_nat (DatabaseHeader.startPageIdx r) * PAGE) (length bs) c = bs.

Lemma placed_stored l txns c r bs :
  the_ready l txns → ck_live c = l → located fidx (contents (lv_data l)) c r bs → stored (the_file l) (to_header r) bs.
Proof.
  intros Hrd Hl Hloc. unfold stored. cbn [to_header DatabaseHeader.startPageIdx]. rewrite Nat2Z.id.
  exact (located_after l txns c r bs Hrd Hl Hloc).
Qed.

Lemma header_stored l txns h :
  the_ready l txns → DatabaseHeader.header_ok h → shadow_of fidx (lv_shadow l) 0 ≠ None →
  (∃ rest, checkpoint_view fidx (contents (lv_data l)) (lv_shadow l) 0 = concat (DatabaseHeader.serialize dbg cmakeVersion h) ++ rest) →
  DatabaseHeader.readDatabaseHeader dbg cmakeVersion checked junk (the_file l) = Ok (Some h).
Proof.
  intros Hrd Hh Hs (rest & Hv). rewrite <- (after_view padding Hpadding dbg cmakeVersion ec db fidx l txns 0 Hrd (or_introl Hs)) in Hv.
  apply (readDatabaseHeader_ok checked junk junk0 dbg cmakeVersion h _ (rest ++ drop PAGE (the_file l)) Hh).
  - rewrite app_assoc, <- Hv. unfold page, slice. rewrite Nat.mul_0_l, drop_0, take_drop. reflexivity.
  - destruct (rd_data _ _ _ _ _ _ _ Hrd) as [Hp (_ & _ & _ & _ & _ & Hl)]. unfold after.
    rewrite length_writes by apply apply_ops_writes. unfold contents. rewrite Hp. cbn. lia.
Qed.

(** C18. A checkpoint that is not interrupted can be read back. Let the tables have done their part without
    leaving unsynced writes in the data file (column pages are written past the shadow file, and a checkpoint
    that wrote some is not covered), and let the log be synced and hold only whole transactions of records
    that fit a page when they are checksummed, the buffer manager grant every request, page numbers be left
    for what is written, the shadow records and the header have numbers of 32 bits, and the engine load the
    file that results. Then [writeCheckpoint] returns a new header and leaves the data file synced and
    the log and the shadow file removed. The file starts with that header; if the catalog has changed since
    the last checkpoint, its serialized bytes are on the pages the header names, otherwise its range is as
    before; if anything has changed, the bytes of the tables and of the free space manager, as it was after
    the pages for them had been taken from it, are on the pages the header names for the metadata. The pages
    the header names for the two and the pages in use before are disjoint and not free, no page is lost, and
    opening the database loads exactly this file. *)
Theorem write_checkpoint_reads_back c0 c1 hasStorageChanges catalogChanged cws sws h owned txns checkpointStorage t t1 :
  checkpointStorage c0 = (Ok hasStorageChanges, c1) → checkpointing cws sws c1 h owned txns →
  (∀ h' c', serializeCatalogAndMetadata fidx stale blank dbg catalogChanged hasStorageChanges cws sws h c1 = (Ok h', c') →
            DatabaseHeader.header_ok h') →
  (∀ h' c', prepareCheckpoint fidx stale blank dbg cmakeVersion checkpointStorage catalogChanged cws sws h c0 = (Ok h', c') →
            records_ok (lv_shadow (ck_live c')) ∧ load checked junk dbg cmakeVersion (the_file (ck_live c')) t = (Ok tt, t1)) →
  ∃ h' c' file st,
    writeCheckpoint (C := C) (P := P) (V := V) fidx stale blank dbg checked junk padding cmakeVersion false
      checkpointStorage catalogChanged cws sws h c0 = (Ok h', c') ∧
    disk_of (ck_live c') = MkDisk (MkFileInfo file []) None None ∧
    DatabaseHeader.readDatabaseHeader dbg cmakeVersion checked junk file = Ok (Some h') ∧
    (stored file (DatabaseHeader.catalogPageRange h') (concat cws) ∨
     (catalogChanged = false ∧ DatabaseHeader.catalogPageRange h' = DatabaseHeader.catalogPageRange h)) ∧
    ((∃ fbs, FreeSpace.serialize dbg st.1 = Ok fbs ∧ stored file (DatabaseHeader.metadataPageRange h') (concat sws ++ fbs)) ∨
     (catalogChanged = false ∧ hasStorageChanges = false ∧
      DatabaseHeader.metadataPageRange h' = DatabaseHeader.metadataPageRange h)) ∧
    pm_inv (ck_pages c') (old_pages (DatabaseHeader.catalogPageRange h') ++ old_pages (DatabaseHeader.metadataPageRange h') ++ owned) ∧
    FreeSpace.version (ck_pages c') = 0 ∧
    FreeSpaceSpec.checkpointed st (FreeSpace.store (ck_pages c')) ∧
    ∃ d, recover (C := C) (P := P) (V := V) checked junk blank dbg cmakeVersion throwOnFailure ec (disk_of (ck_live c'), t) = (Ok tt, (d, t1)) ∧
      contents (dataFile d) = file.
Proof.
  intros Hst Hck Hu Hrec.
  destruct (prepare_ok c0 c1 _ _ _ _ _ _ _ _ Hst Hck Hu) as (h' & c2 & c' & cp & mp & j & Hser & Hrun & Hready & Hh & Hid & Hok & Hfd & [Hs0 Hpage0] & Hcat & Hmeta).
  edestruct placed_pages as [E1 E2]; [exact Hcat|exact Hmeta|exact Hok|]. subst cp mp.
  destruct (Hrec h' c' Hrun) as [Hro Hload]. specialize (Hready Hro).
  destruct (checkpoint_completes checked junk blank junk0 Hblank padding Hpadding dbg cmakeVersion throwOnFailure ec db Hdb fidx
    (ck_live c') txns t t1 Hready Hload) as (l1 & l2 & Hlog & _ & _ & _ & _ & _ & Hreset & Hdisk & _ & Hrecover).
  destruct (checkpoint_ok (ck_pages c') _ (ck_pm _ _ _ _ _ _ Hok)) as (res & pm & Hfin & Hres & Hcp).
  rewrite (Hres (proj2 (ck_granted _ _ _ _ _ _ Hok))) in Hfin, Hcp. destruct (Hcp eq_refl) as [Hpm' Hcpd].
  exists h', (MkCkpt l2 (FreeSpace.MkPageManager (FreeSpace.store pm) 0)), (the_file (ck_live c')), (FreeSpace.store (ck_pages c')).
  cbn [ck_live ck_pages FreeSpace.store FreeSpace.version]. rewrite <- Hfd in Hcat, Hmeta. split_and!.
  - unfold writeCheckpoint. rewrite (M_bind_ok _ _ _ _ _ Hrun), Hid.
    unfold on_live, on_pages, resetVersion. unfold_M. rewrite Hlog. cbn [ck_live ck_pages]. rewrite Hfin. cbn [ck_live ck_pages modify].
    rewrite Hreset. reflexivity.
  - exact Hdisk.
  - exact (header_stored _ txns h' Hready Hh Hs0 Hpage0).
  - destruct Hcat as [(r & _ & -> & Hloc)|(Hc & Hr & _)]; [left|right; auto].
    exact (placed_stored _ txns c' r _ Hready eq_refl Hloc).
  - destruct Hmeta as [(r & fbs & _ & -> & Hs & Hloc)|(Hc & Hh' & _ & Hr & _)]; [left|right; auto].
    exists fbs. split; [exact Hs|]. exact (placed_stored _ txns c' r _ Hready eq_refl Hloc).
  - destruct Hpm' as [H1 H2 H3]. split; assumption.
  - reflexivity.
  - exact Hcpd.
  - exact Hrecover.
Qed.
End Checkpoint.

(** ** A sample checkpoint *)

(** The first checkpoint of a database, with the header page in use and a transaction in the log. *)
Definition sample_ckpt : Ckpt :=
  MkCkpt sample_start (FreeSpace.MkPageManager (FreeSpace.FreeSpaceManager_new, FreeSpace.MkFileHandle 1 1024 1 false [] []) 0).

(** Tables that report a change and make no pages. *)
Definition sample_tables : M Ckpt bool := mret true.

Definition sample_new_header : DatabaseHeader.DatabaseHeader :=
  DatabaseHeader.MkDatabaseHeader (DatabaseHeader.MkPageRange 1 1) (DatabaseHeader.MkPageRange 2 2) 1.

Abbreviation sample_serialize :=
  (serializeCatalogAndMetadata 0 (zeros PAGE) zeros false false true [[1; 2; 3]]%Z [[4; 5]]%Z (DatabaseHeader.createInitialHeader 1)).
Abbreviation sample_prepare :=
  (prepareCheckpoint 0 (zeros PAGE) zeros false "0.11.0" sample_tables false [[1; 2; 3]]%Z [[4; 5]]%Z (DatabaseHeader.createInitialHeader 1)).
Definition sample_prepared : Ckpt := snd (sample_prepare sample_ckpt).

Lemma sample_serialized : fst (sample_serialize sample_ckpt) = Ok sample_new_header.
Proof. vm_compute. reflexivity. Qed.

Lemma sample_records : shadowPageRecords (lv_shadow (ck_live sample_prepared)) =
  map (MkShadowPageRecord 0) [1; 2; 3; 0].
Proof. vm_compute. reflexivity. Qed.

Definition sample_loaded : list Z := snd (load true zeros false "0.11.0" (after (zeros 4) 1 (ck_live sample_prepared)) []).
Lemma sample_load : load true zeros false "0.11.0" (after (zeros 4) 1 (ck_live sample_prepared)) [] = (Ok tt, sample_loaded).
Proof. vm_compute. reflexivity. Qed.

Lemma sample_checkpointing :
  checkpointing zeros 0 false "0.11.0" true 1 [[1; 2; 3]]%Z [[4; 5]]%Z sample_ckpt (DatabaseHeader.createInitialHeader 1) [0] [sample_txn 4].
Proof.
  split; cbn [sample_ckpt ck_live ck_pages sample_start lv_data lv_wal].
  - split; [reflexivity|apply (shadow_inv_new 0)| | |reflexivity|vm_compute; discriminate].
    + split; cbn; [|constructor|reflexivity].
      split; [intros k l H; cbn in H; rewrite lookup_nil in H; discriminate|reflexivity].
    + split; [reflexivity|]. split; vm_compute; [reflexivity|lia].
  - split; [apply list_elem_of_here|reflexivity].
  - split; intros H; discriminate H.
  - split; [exact I|]. split; reflexivity.
  - split; [reflexivity|]. apply Forall_singleton, sample_transaction. lia.
  - intros f [= <-]. reflexivity.
  - exact (rd_data _ _ _ _ _ _ _ sample_ready).
Qed.

Lemma write_checkpoint_reads_back_witness :
  ∃ h' c' file, writeCheckpoint (C := Z) (P := Z) (V := Z) 0 (zeros PAGE) zeros false true zeros (zeros 4) "0.11.0" false
      sample_tables false [[1; 2; 3]]%Z [[4; 5]]%Z (DatabaseHeader.createInitialHeader 1) sample_ckpt = (Ok h', c') ∧
    disk_of (ck_live c') = MkDisk (MkFileInfo file []) None None ∧
    DatabaseHeader.readDatabaseHeader false "0.11.0" true zeros file = Ok (Some h').
Proof.
  destruct (write_checkpoint_reads_back true zeros zeros eq_refl zeros_length (zeros 4) eq_refl 0 (zeros PAGE) (zeros_length _)
    false "0.11.0" (C := Z) (P := Z) (V := Z) false true 1 ltac:(unfold u128; lia) sample_ckpt sample_ckpt true false
    [[1; 2; 3]]%Z [[4; 5]]%Z (DatabaseHeader.createInitialHeader 1) [0] [sample_txn 4] sample_tables [] sample_loaded
    (eq_refl : sample_tables sample_ckpt = (Ok true, sample_ckpt)) sample_checkpointing) as (h' & c' & file & st & H1 & H2 & H3 & _).
  - intros h' c' H. pose proof sample_serialized as Hs. rewrite H in Hs. injection Hs as ->.
    repeat split; cbn; unfold u32, u128; lia.
  - intros h' c' H. assert (Hc : c' = sample_prepared) by (unfold sample_prepared; rewrite H; reflexivity). subst c'.
    split; [|exact sample_load]. unfold records_ok. rewrite sample_records. split; [repeat constructor; cbn; unfold u32; lia|cbn; unfold u32; lia].
  - exists h', c', file. auto.
Defined.
