(* ===== verification/PageState.v ===== *)
(** * Page states of the buffer manager

    storage/buffer_manager/page_state.h: the state, the dirty bit and the version of a page in one
    64-bit word. The state is in the highest byte, the dirty bit below it, and the version in the lowest
    55 bits. *)

From stdpp Require Import base numbers list strings.
From Stdlib Require Import ZArith Lia.
From S2P Require Import Prelude.
#[local] Open Scope Z_scope.

Module PageState.

Definition DIRTY_MASK : Z := 0x0080000000000000.
Definition STATE_MASK : Z := 0xFF00000000000000.
Definition VERSION_MASK : Z := 0x00FFFFFFFFFFFFFF.
Definition NUM_BITS_TO_SHIFT_FOR_STATE : Z := 56.
Definition UNLOCKED : Z := 0.
Definition LOCKED : Z := 1.
Definition MARKED : Z := 2.
Definition EVICTED : Z := 3.

(** A state in its place; the shifts are of [uint64_t]. *)
Definition state_bits (state : Z) : Z := uwrap 64 (Z.shiftl state NUM_BITS_TO_SHIFT_FOR_STATE).
Definition without_state (stateAndVersion : Z) : Z := Z.shiftr (uwrap 64 (Z.shiftl stateAndVersion 8)) 8.

Definition PageState_new : Z := state_bits EVICTED.
Definition getState (stateAndVersion : Z) : Z :=
  Z.shiftr (Z.land stateAndVersion STATE_MASK) NUM_BITS_TO_SHIFT_FOR_STATE.
Definition getVersion (stateAndVersion : Z) : Z := Z.land stateAndVersion VERSION_MASK.
Definition updateStateWithSameVersion (oldStateAndVersion newState : Z) : Z :=
  Z.lor (without_state oldStateAndVersion) (state_bits newState).
Definition updateStateAndIncrementVersion (oldStateAndVersion newState : Z) : Z :=
  Z.lor (uwrap 64 (without_state oldStateAndVersion + 1)) (state_bits newState).
Definition isDirty (stateAndVersion : Z) : bool := negb (Z.land stateAndVersion DIRTY_MASK =? 0).

(** Operations on the atomic word of a page: one compare-and-swap, or a load and a store. *)
Definition compare_exchange_strong (expected desired : Z) : M Z bool := λ w,
  if w =? expected then (Ok true, desired) else (Ok false, w).
Definition tryLock (oldStateAndVersion : Z) : M Z bool :=
  compare_exchange_strong oldStateAndVersion (updateStateWithSameVersion oldStateAndVersion LOCKED).
Definition tryMark (oldStateAndVersion : Z) : M Z bool :=
  compare_exchange_strong oldStateAndVersion (updateStateWithSameVersion oldStateAndVersion MARKED).
Definition tryClearMark (oldStateAndVersion : Z) : M Z bool :=
  ku_assert (getState oldStateAndVersion =? MARKED) ;;
  compare_exchange_strong oldStateAndVersion (updateStateWithSameVersion oldStateAndVersion UNLOCKED).
Definition unlock : M Z unit := modify (λ w, updateStateAndIncrementVersion w UNLOCKED).
Definition unlockUnchanged : M Z unit := modify (λ w, updateStateWithSameVersion w UNLOCKED).
Definition setDirty : M Z unit :=
  w ← get_state; ku_assert (getState w =? LOCKED) ;; modify (λ w, Z.lor w DIRTY_MASK).
Definition clearDirtyWithoutLock : M Z unit := modify (λ w, Z.land w (uwrap 64 (Z.lnot DIRTY_MASK))).
Definition clearDirty : M Z unit :=
  w ← get_state; ku_assert (getState w =? LOCKED) ;; clearDirtyWithoutLock.
Definition resetToEvicted : M Z unit := put_state PageState_new.

(** [spinLock] on a page no other thread changes: the first attempt decides, and if it fails no later
    one can succeed, for the expected word stays the same. *)
Definition spinLock (oldStateAndVersion : Z) : M Z unit :=
  tryLock oldStateAndVersion ≫= λ b : bool,
  if b then mret tt else raise (UndefinedBehaviour "the loop does not end").

(** ** The fields of a word *)

Definition pack (state : Z) (dirty : bool) (version : Z) : Z := state * 2 ^ 56 + Z.b2z dirty * 2 ^ 55 + version.
Definition is_version (v : Z) : Prop := 0 ≤ v < 2 ^ 55.
Definition is_state (st : Z) : Prop := 0 ≤ st < 2 ^ 8.

Lemma b2z_range d : 0 ≤ Z.b2z d ≤ 1.
Proof. destruct d; cbn; lia. Qed.

Lemma pack_low d v : is_version v → 0 ≤ Z.b2z d * 2 ^ 55 + v < 2 ^ 56.
Proof. unfold is_version. pose proof (b2z_range d). lia. Qed.

Lemma pack_range st d v : is_state st → is_version v → 0 ≤ pack st d v < 2 ^ 64.
Proof. unfold is_state, pack. intros Hs Hv. pose proof (pack_low d v Hv). lia. Qed.

Lemma pack_mod st d v : is_version v → pack st d v mod 2 ^ 56 = Z.b2z d * 2 ^ 55 + v.
Proof.
  intros Hv. unfold pack. rewrite <- Z.add_assoc, Z.add_comm, Z_mod_plus_full.
  apply Z.mod_small. apply (pack_low d v Hv).
Qed.

Lemma pack_div st d v : is_version v → pack st d v / 2 ^ 56 = st.
Proof.
  intros Hv. unfold pack. rewrite <- Z.add_assoc, Z.add_comm, Z_div_plus_full by lia.
  rewrite (Z.div_small (Z.b2z d * 2 ^ 55 + v)) by apply (pack_low d v Hv). lia.
Qed.

Lemma pack_inj st d v st' d' v' :
  is_version v → is_version v' → pack st d v = pack st' d' v' → st = st' ∧ d = d' ∧ v = v'.
Proof.
  intros Hv Hv' H. pose proof (f_equal (λ x, x / 2 ^ 56) H) as Hs. pose proof (f_equal (λ x, x mod 2 ^ 56) H) as Hm.
  cbn beta in Hs, Hm. rewrite !pack_div in Hs by assumption. rewrite !pack_mod in Hm by assumption.
  split; [exact Hs|]. unfold is_version in *. destruct d, d'; cbn [Z.b2z] in Hm; auto; try lia; split; reflexivity || lia.
Qed.

Lemma getState_pack st d v : is_state st → is_version v → getState (pack st d v) = st.
Proof.
  intros Hs Hv. unfold getState, STATE_MASK, NUM_BITS_TO_SHIFT_FOR_STATE. rewrite Z.shiftr_land.
  change (Z.shiftr 0xFF00000000000000 56) with (Z.ones 8). rewrite Z.land_ones, Z.shiftr_div_pow2, pack_div by (assumption || lia).
  apply Z.mod_small, Hs.
Qed.

Lemma without_state_mod w : 0 ≤ w → without_state w = w mod 2 ^ 56.
Proof.
  intros Hw. unfold without_state, uwrap. rewrite Z.shiftl_mul_pow2, Z.shiftr_div_pow2 by lia.
  replace (2 ^ 64) with (2 ^ 56 * 2 ^ 8) by lia. rewrite Zmult_mod_distr_r, Z.div_mul by lia. reflexivity.
Qed.

Lemma state_bits_eq st : is_state st → state_bits st = st * 2 ^ 56.
Proof.
  intros Hs. unfold state_bits, NUM_BITS_TO_SHIFT_FOR_STATE. rewrite Z.shiftl_mul_pow2 by lia.
  apply uwrap_small. unfold is_state in Hs. lia.
Qed.

(** A number below 2^56 and a state share no bit. *)
Lemma lor_state low st : 0 ≤ low < 2 ^ 56 → 0 ≤ st → Z.lor low (st * 2 ^ 56) = st * 2 ^ 56 + low.
Proof.
  intros Hl Hs. rewrite (Z.add_comm (st * 2 ^ 56)).
  assert (Hand : Z.land low (st * 2 ^ 56) = 0).
  { apply Z.bits_inj'. intros n Hn. rewrite Z.land_spec, Z.bits_0. destruct (Z.lt_ge_cases n 56) as [Hlt|Hge].
    - rewrite Z.mul_pow2_bits_low by lia. apply andb_false_r.
    - replace low with (low mod 2 ^ 56) by (apply Z.mod_small; lia). rewrite Z.mod_pow2_bits_high by lia. reflexivity. }
  rewrite Z.add_nocarry_lxor by exact Hand. symmetry. apply Z.lxor_lor, Hand.
Qed.

Lemma updateStateWithSameVersion_pack st d v st' :
  is_state st → is_state st' → is_version v → updateStateWithSameVersion (pack st d v) st' = pack st' d v.
Proof.
  intros Hs Hs' Hv. unfold updateStateWithSameVersion. rewrite without_state_mod by apply (pack_range st d v Hs Hv).
  rewrite state_bits_eq, pack_mod, lor_state by (assumption || apply (pack_low d v Hv) || apply Hs'). unfold pack. lia.
Qed.

(** The version grows by one, unless it would overflow into the dirty bit. *)
Lemma updateStateAndIncrementVersion_pack st d v st' :
  is_state st → is_state st' → is_version v → is_version (v + 1) →
  updateStateAndIncrementVersion (pack st d v) st' = pack st' d (v + 1).
Proof.
  intros Hs Hs' Hv Hv'. unfold updateStateAndIncrementVersion. rewrite without_state_mod by apply (pack_range st d v Hs Hv).
  pose proof (pack_low d _ Hv') as Hl.
  rewrite pack_mod, uwrap_small, state_bits_eq, <- Z.add_assoc, lor_state by (assumption || lia || apply Hs'). unfold pack. lia.
Qed.

Lemma testbit_dirty st d v : is_version v → Z.testbit (pack st d v) 55 = d.
Proof.
  intros Hv. apply Bool.eq_iff_eq_true. rewrite Z.testbit_true by lia.
  assert (H : pack st d v / 2 ^ 55 = st * 2 + Z.b2z d).
  { unfold pack. replace (st * 2 ^ 56 + Z.b2z d * 2 ^ 55 + v) with (v + (st * 2 + Z.b2z d) * 2 ^ 55) by lia.
    rewrite Z_div_plus_full by lia. rewrite Z.div_small by exact Hv. lia. }
  rewrite H, (Z.add_comm (st * 2)), Z_mod_plus_full. destruct d; split; intros E; (reflexivity || discriminate E).
Qed.

Lemma isDirty_pack st d v : is_version v → isDirty (pack st d v) = d.
Proof.
  intros Hv. unfold isDirty, DIRTY_MASK. change 0x0080000000000000 with (2 ^ 55).
  rewrite <- (testbit_dirty st d v Hv) at 2. apply Bool.eq_iff_eq_true. rewrite negb_true_iff, Z.eqb_neq. split.
  - intros H. apply Bool.not_false_is_true. intros Hb. apply H. apply Z.bits_inj'. intros n Hn.
    rewrite Z.land_spec, Z.bits_0. destruct (Z.eq_dec n 55) as [->|Hne]; [rewrite Hb; reflexivity|].
    rewrite Z.pow2_bits_false by lia. apply andb_false_r.
  - intros Hb H. apply (f_equal (λ x, Z.testbit x 55)) in H. rewrite Z.land_spec, Hb in H. discriminate H.
Qed.

Lemma setDirty_pack st d v : is_version v → Z.lor (pack st d v) DIRTY_MASK = pack st true v.
Proof.
  intros Hv. unfold DIRTY_MASK. change 0x0080000000000000 with (2 ^ 55). destruct d.
  - apply Z.bits_inj'. intros n Hn. rewrite Z.lor_spec. destruct (Z.eq_dec n 55) as [->|Hne].
    + rewrite testbit_dirty by exact Hv. reflexivity.
    + rewrite Z.pow2_bits_false by lia. apply orb_false_r.
  - assert (Hand : Z.land (pack st false v) (2 ^ 55) = 0).
    { apply Z.bits_inj'. intros n Hn. rewrite Z.land_spec, Z.bits_0. destruct (Z.eq_dec n 55) as [->|Hne].
      - rewrite testbit_dirty by exact Hv. reflexivity.
      - rewrite Z.pow2_bits_false by lia. apply andb_false_r. }
    rewrite <- Z.lxor_lor, <- Z.add_nocarry_lxor by exact Hand. unfold pack. cbn [Z.b2z]. lia.
Qed.

Lemma clearDirty_pack st d v :
  is_state st → is_version v → Z.land (pack st d v) (uwrap 64 (Z.lnot DIRTY_MASK)) = pack st false v.
Proof.
  intros Hs Hv. apply Z.bits_inj'. intros n Hn. rewrite Z.land_spec. unfold uwrap.
  destruct (Z.lt_ge_cases n 64) as [Hlt|Hge].
  - rewrite Z.mod_pow2_bits_low, Z.lnot_spec by lia. unfold DIRTY_MASK. change 0x0080000000000000 with (2 ^ 55).
    destruct (Z.eq_dec n 55) as [->|Hne].
    + rewrite !testbit_dirty by exact Hv. rewrite Z.pow2_bits_true by lia. apply andb_false_r.
    + rewrite Z.pow2_bits_false by lia. cbn [negb]. rewrite andb_true_r. destruct d; [|reflexivity].
      rewrite <- (setDirty_pack st false v Hv). unfold DIRTY_MASK. change 0x0080000000000000 with (2 ^ 55).
      rewrite Z.lor_spec, Z.pow2_bits_false by lia. apply orb_false_r.
  - rewrite Z.mod_pow2_bits_high, andb_false_r by lia. symmetry.
    rewrite <- (Z.mod_small (pack st false v) (2 ^ 64)) by apply (pack_range st false v Hs Hv).
    apply Z.mod_pow2_bits_high. lia.
Qed.

Lemma PageState_new_pack : PageState_new = pack EVICTED false 0.
Proof. reflexivity. Qed.

End PageState.
