(* ===== verification/PageProtocol.v ===== *)
(** * Threads on one page of the buffer manager

    [BufferManager::pin], [unpin], [optimisticRead] and the eviction of a page
    (storage/buffer_manager/buffer_manager.cpp), with every access to the shared word, to the frame and to
    the file as a step of its own: any number of threads, in any interleaving. A thread that
    reserves memory for its page evicts other pages first; here evictions are calls of any thread at any
    time. Atomic accesses are sequentially consistent. *)

From stdpp Require Import base numbers list strings.
From Stdlib Require Import ZArith Lia.
From S2P Require Import Prelude PageState.

Module PageProtocol.
Import PageState.

(** The word of the page, its frame, its bytes in the file, and how often it has been evicted; nothing
    reads the last field. *)
Record Shared := MkShared { word : Z; frame : list Z; disk : list Z; evictions : nat }.

Definition set_word (w : Z) (s : Shared) : Shared := MkShared w (frame s) (disk s) (evictions s).
Definition set_frame (f : list Z) (s : Shared) : Shared := MkShared (word s) f (disk s) (evictions s).
Definition set_disk (d : list Z) (s : Shared) : Shared := MkShared (word s) (frame s) d (evictions s).

(** Byte [p] of a page. *)
Definition byte (p : nat) (page : list Z) : Z := default 0%Z (page !! p).

(** Why a page is pinned: for a caller, with or without reading it from the file, or for an optimistic read
    of some bytes. *)
Inductive Why : Type :=
  | Caller (read : bool)
  | Reader (ps : list nat).

(** Where a thread is. [wrote] tells whether the frame
    may differ from the file because of this thread; the number in [Reading] is the count of evictions
    when the word was loaded. *)
Inductive Pc : Type :=
  | Idle
  (* pin *)
  | PinLoad (why : Why)
  | PinTry (currStateAndVersion : Z) (why : Why)
  | PinClaim (why : Why)
  | PinRefused
  | PinClear (why : Why)
  | PinRead (i : nat) (why : Why)
  | PinInsert (wrote : bool) (why : Why)
  | Abandoned (wrote : bool) (why : Why)
  | Pinned (wrote : bool) (why : Why)
  (* unpin *)
  | UnpinStore (loaded : Z) (why : Why)
  (* optimisticRead *)
  | ReadLoad (ps : list nat)
  | ReadClearMark (currStateAndVersion : Z) (ps : list nat)
  | Reading (currStateAndVersion : Z) (since : nat) (got : list (nat * Z)) (ps : list nat)
  | ReadDone (got : list (nat * Z)) (since : nat)
  (* evictPages, tryEvictPage *)
  | EvictLook
  | EvictMark (pageStateAndVersion : Z)
  | EvictLoad
  | EvictTry (currStateAndVersion : Z)
  | EvictCheck
  | EvictUnlock (loaded : Z)
  | EvictFlush
  | EvictClear
  | EvictRelease
  | EvictReset
  (* a failed assertion *)
  | Failed.

(** What a thread does next: start a call, go on, go on after a refusal (no memory to reserve, no place
    in the eviction queue, another candidate in its place), or what the caller does to a page it has
    pinned. *)
Inductive Label : Type :=
  | CallPin (read : bool)
  | CallRead (ps : list nat)
  | CallEvict
  | Run
  | Refuse
  | WriteByte (i : nat) (v : Z)
  | SetDirty
  | Unpin
  | Return.

(** [EvictionCandidate::isEvictable], [isSecondChanceEvictable] *)
Definition isEvictable (w : Z) : bool := (getState w =? MARKED)%Z.
Definition isSecondChanceEvictable (w : Z) : bool := (getState w =? UNLOCKED)%Z.

(** The loop of [pin] up to its compare-and-swap. *)
Definition pin_load (why : Why) (s : Shared) : Pc :=
  let state := getState (word s) in
  if (state =? EVICTED)%Z || (state =? UNLOCKED)%Z || (state =? MARKED)%Z then PinTry (word s) why
  else if (state =? LOCKED)%Z then PinLoad why
  else Failed.

(** The switch of [optimisticRead]. *)
Definition read_load (ps : list nat) (s : Shared) : Pc :=
  let state := getState (word s) in
  if (state =? UNLOCKED)%Z then Reading (word s) (evictions s) [] ps
  else if (state =? MARKED)%Z then ReadClearMark (word s) ps
  else if (state =? EVICTED)%Z then PinLoad (Reader ps)
  else ReadLoad ps.

(** An operation on the word; a failed assertion ends the thread. *)
Definition on_word {A} (m : M Z A) (k : A → Pc) (s : Shared) : Shared * Pc :=
  match m (word s) with
  | (Ok a, w) => (set_word w s, k a)
  | (Throw _, w) => (set_word w s, Failed)
  end.

Definition step (l : Label) (s : Shared) (pc : Pc) : option (Shared * Pc) :=
  match pc, l with
  | Idle, CallPin read => Some (s, PinLoad (Caller read))
  | Idle, CallRead ps => Some (s, ReadLoad ps)
  | Idle, CallEvict => Some (s, EvictLook)
  | PinLoad why, Run => Some (s, pin_load why s)
  | PinTry w why, Run =>
      Some (on_word (tryLock w) (λ locked,
        if negb locked then PinLoad why
        else if (getState w =? EVICTED)%Z then PinClaim why else Pinned false why) s)
  | PinClaim why, Run => Some (s, PinClear why)
  | PinClaim why, Refuse => Some (s, PinRefused)
  | PinRefused, Run => Some (on_word resetToEvicted (λ _, Idle) s)
  | PinClear why, Run =>
      Some (on_word clearDirty (λ _, match why with Caller false => PinInsert true why | _ => PinRead 0 why end) s)
  | PinRead i why, Run =>
      if i <? length (disk s) then Some (set_frame (<[i := byte i (disk s)]> (frame s)) s, PinRead (S i) why)
      else Some (s, PinInsert false why)
  | PinInsert wrote why, Run => Some (s, Pinned wrote why)
  | PinInsert wrote why, Refuse => Some (s, Abandoned wrote why)
  | Pinned _ (Caller read), WriteByte i v => Some (set_frame (<[i := v]> (frame s)) s, Pinned true (Caller read))
  | Pinned wrote (Caller read), SetDirty => Some (on_word setDirty (λ _, Pinned wrote (Caller read)) s)
  | Pinned _ (Caller read), Unpin => Some (s, UnpinStore (word s) (Caller read))
  | Pinned _ (Reader ps), Run => Some (s, UnpinStore (word s) (Reader ps))
  | UnpinStore w why, Run =>
      Some (set_word (updateStateAndIncrementVersion w UNLOCKED) s,
            match why with Caller _ => Idle | Reader ps => ReadLoad ps end)
  | ReadLoad ps, Run => Some (s, read_load ps s)
  | ReadClearMark w ps, Run => Some (on_word (tryClearMark w) (λ _, ReadLoad ps) s)
  | Reading w e got (p :: ps), Run => Some (s, Reading w e (got ++ [(p, byte p (frame s))]) ps)
  | Reading w e got [], Run => Some (s, if (word s =? w)%Z then ReadDone got e else ReadLoad (got.*1))
  | ReadDone _ _, Return => Some (s, Idle)
  | EvictLook, Run =>
      Some (s, if isEvictable (word s) then EvictLoad
               else if isSecondChanceEvictable (word s) then EvictMark (word s) else Idle)
  | EvictMark w, Run => Some (on_word (tryMark w) (λ _, Idle) s)
  | EvictLoad, Run => Some (s, if isEvictable (word s) then EvictTry (word s) else Idle)
  | EvictTry w, Run => Some (on_word (tryLock w) (λ locked : bool, if locked then EvictCheck else Idle) s)
  | EvictCheck, Run => Some (s, EvictFlush)
  | EvictCheck, Refuse => Some (s, EvictUnlock (word s))
  | EvictUnlock w, Run => Some (set_word (updateStateWithSameVersion w UNLOCKED) s, Idle)
  | EvictFlush, Run => Some (if isDirty (word s) then (set_disk (frame s) s, EvictClear) else (s, EvictRelease))
  | EvictClear, Run => Some (on_word clearDirtyWithoutLock (λ _, EvictRelease) s)
  | EvictRelease, Run => Some (set_frame (replicate (length (frame s)) 0%Z) s, EvictReset)
  | EvictReset, Run => Some (MkShared PageState_new (frame s) (disk s) (S (evictions s)), Idle)
  | _, _ => None
  end.

(** Threads by their number. *)
Definition Config : Type := Shared * list Pc.

Definition exec (t : nat) (l : Label) (c : Config) : option Config :=
  match c.2 !! t with
  | None => None
  | Some pc =>
      match step l c.1 pc with
      | None => None
      | Some (s', pc') => Some (s', <[t := pc']> c.2)
      end
  end.

(** What the comment above [pin] asks of a caller: to stay within the page, and to set the page dirty
    if it wrote to the frame. *)
Definition legal_step (s : Shared) (pc : Pc) (l : Label) : bool :=
  match pc, l with
  | Pinned _ (Caller _), WriteByte i _ => i <? length (frame s)
  | Pinned true (Caller _), Unpin => isDirty (word s)
  | _, _ => true
  end.
Definition legal (t : nat) (l : Label) (c : Config) : bool :=
  match c.2 !! t with Some pc => legal_step c.1 pc l | None => true end.

Fixpoint run (tr : list (nat * Label)) (c : Config) : option Config :=
  match tr with
  | [] => Some c
  | (t, l) :: tr' => exec t l c ≫= run tr'
  end.

Fixpoint legal_run (tr : list (nat * Label)) (c : Config) : bool :=
  match tr with
  | [] => true
  | (t, l) :: tr' => legal t l c && match exec t l c with Some c' => legal_run tr' c' | None => true end
  end.

(** A page that is not in memory, and [n] threads. *)
Definition initial (n : nat) (page : list Z) (old : list Z) : Config :=
  (MkShared PageState_new old page 0, replicate n Idle).

(** ** The thread that holds the page *)

(** What the holder of the page is at; [None] for the other threads. *)
Inductive Phase : Type :=
  | Claimed
  | Copying (i : nat)
  | Held (wrote : bool)
  | Unlocking (loaded : Z)
  | Evicting
  | UnlockingSame (loaded : Z)
  | Written
  | Flushed
  | Released.

Definition for_caller (why : Why) : bool := match why with Caller _ => true | Reader _ => false end.
Definition phase (pc : Pc) : option Phase :=
  match pc with
  | PinClaim _ | PinClear _ | PinRefused => Some Claimed
  | PinRead i _ => Some (Copying i)
  | PinInsert wrote why | Pinned wrote why | Abandoned wrote why => Some (Held (wrote && for_caller why))
  | UnpinStore w _ => Some (Unlocking w)
  | EvictCheck | EvictFlush => Some Evicting
  | EvictUnlock w => Some (UnlockingSame w)
  | EvictClear => Some Written
  | EvictRelease => Some Flushed
  | EvictReset => Some Released
  | _ => None
  end.

Definition holders (c : Config) : list Phase := omap phase c.2.

(** The page as its readers and writers mean it: in the frame, or else in the file. *)
Definition content_of (s : Shared) (hs : list Phase) : list Z :=
  match hs with
  | [Claimed] | [Copying _] | [Released] => disk s
  | [] => if (getState (word s) =? EVICTED)%Z then disk s else frame s
  | _ => frame s
  end.
Definition content (c : Config) : list Z := content_of c.1 (holders c).

(** What a step of a thread does to the page. *)
Definition page_step (s : Shared) (pc : Pc) (l : Label) (page : list Z) : list Z :=
  match pc, l with
  | Pinned _ (Caller _), WriteByte i v => <[i := v]> page
  | PinClear (Caller false), Run => frame s
  | _, _ => page
  end.

End PageProtocol.
