(* ===== verification/PageSpec.v ===== *)
(** * Invariants of the page protocol

    Who holds a page and what its word says ([lock_ok]), where the frame and the file agree
    ([content_ok]), and what an optimistic reader can rely on ([reader_ok]); every step of every thread
    keeps them. *)

From stdpp Require Import base numbers list strings.
From Stdlib Require Import ZArith Lia.
From S2P Require Import Prelude PageState PageProtocol.
Import PageState PageProtocol.

(** ** The lock *)

#[local] Opaque updateStateWithSameVersion updateStateAndIncrementVersion getState isDirty pack PageState_new.

Definition is_lock_state (st : Z) : Prop := (0 ≤ st < 4)%Z.

Definition word_ok (ph : Phase) (w : Z) (d : bool) (v : Z) : Prop :=
  match ph with
  | Claimed | Copying _ => d = false ∧ v = 0%Z
  | Unlocking w' | UnlockingSame w' => w' = w
  | Flushed | Released => d = false
  | _ => True
  end.

(** The word after at most [n] steps, and who holds the page. *)
Definition lock_ok (n : Z) (w : Z) (hs : list Phase) : Prop :=
  ∃ st d v, w = pack st d v ∧ (0 ≤ v ≤ n)%Z ∧ is_lock_state st ∧
    match hs with
    | [] => st ≠ LOCKED ∧ (st = EVICTED → d = false ∧ v = 0%Z)
    | [ph] => st = LOCKED ∧ word_ok ph w d v
    | _ => False
    end.

(** What a thread remembers. *)
Definition local_ok (pc : Pc) : Prop :=
  match pc with
  | PinTry w _ => getState w ≠ LOCKED
  | ReadClearMark w _ | EvictTry w => getState w = MARKED
  | EvictMark w => getState w = UNLOCKED
  | Reading w _ _ _ => getState w = UNLOCKED
  | Failed => False
  | _ => True
  end.

Lemma lock_state_ok st : is_lock_state st → is_state st.
Proof. unfold is_lock_state, is_state. lia. Qed.

Lemma lock_ok_mono n n' w hs : (n ≤ n')%Z → lock_ok n w hs → lock_ok n' w hs.
Proof. intros Hn (st & d & v & H1 & H2 & H3 & H4). exists st, d, v. split; [exact H1|]. split; [lia|]. auto. Qed.

Lemma lock_ok_fields n w hs :
  (n < 2 ^ 55)%Z → lock_ok n w hs →
  ∃ st d v, w = pack st d v ∧ (0 ≤ v ≤ n)%Z ∧ is_version v ∧ is_lock_state st ∧ getState w = st ∧ isDirty w = d.
Proof.
  intros Hn (st & d & v & -> & Hv & Hst & _). exists st, d, v. assert (Hv' : is_version v) by (unfold is_version; lia).
  split_and!; try reflexivity; try lia; try assumption.
  - apply getState_pack; [apply lock_state_ok, Hst|exact Hv'].
  - apply isDirty_pack, Hv'.
Qed.

(** One thread's holding changes, the other threads' do not. *)
Lemma holders_split pcs t pc :
  pcs !! t = Some pc →
  ∃ l1 l2, omap phase pcs = l1 ++ option_list (phase pc) ++ l2 ∧
    ∀ pc', omap phase (<[t := pc']> pcs) = l1 ++ option_list (phase pc') ++ l2.
Proof.
  intros Ht. pose proof (take_drop_middle pcs t pc Ht) as Heq. pose proof (lookup_lt_Some _ _ _ Ht) as Hlt.
  assert (Ho : ∀ x l2, omap phase (x :: l2) = option_list (phase x) ++ omap phase l2).
  { intros x l2. cbn. destruct (phase x); reflexivity. }
  assert (Happ : ∀ l1 l2 : list Pc, omap phase (l1 ++ l2) = omap phase l1 ++ omap phase l2).
  { intros l1 l2. induction l1 as [|x l1 IH]; [reflexivity|]. cbn. rewrite IH. destruct (phase x); reflexivity. }
  exists (omap phase (take t pcs)), (omap phase (drop (S t) pcs)). split.
  - rewrite <- Heq at 1. rewrite Happ, Ho. reflexivity.
  - intros pc'. rewrite insert_take_drop by exact Hlt. rewrite Happ, Ho. reflexivity.
Qed.

(** A compare-and-swap on a page that the expected word says is not locked. *)
Lemma not_locked_free n w hs :
  (n < 2 ^ 55)%Z → lock_ok n w hs → getState w ≠ LOCKED → hs = [].
Proof.
  intros Hn Hl Hs. destruct (lock_ok_fields n w hs Hn Hl) as (st & d & v & Hw & _ & Hv & Hst & Hg & _).
  destruct Hl as (st' & d' & v' & Hw' & Hv' & Hst' & Hh). rewrite Hw in Hw'.
  apply pack_inj in Hw' as (<- & <- & <-); [|exact Hv|unfold is_version; lia].
  destruct hs as [|ph [|? ?]]; [reflexivity| |contradiction]. destruct Hh as [-> _]. rewrite Hg in Hs. contradiction.
Qed.

(** The holder alone is the holder. *)
Lemma lock_ok_holder n w l1 ph l2 : lock_ok n w (l1 ++ [ph] ++ l2) → l1 = [] ∧ l2 = [].
Proof.
  intros (st & d & v & _ & _ & _ & H). destruct l1 as [|x l1].
  - destruct l2 as [|y l2]; [auto|contradiction].
  - destruct l1; contradiction.
Qed.

Lemma lock_ok_locked n w ph :
  (n < 2 ^ 55)%Z → lock_ok n w [ph] →
  ∃ d v, w = pack LOCKED d v ∧ (0 ≤ v ≤ n)%Z ∧ is_version v ∧ word_ok ph w d v ∧ isDirty w = d ∧ getState w = LOCKED.
Proof.
  intros Hn (st & d & v & -> & Hv & Hst & -> & Hw). exists d, v. assert (Hv' : is_version v) by (unfold is_version; lia).
  split_and!; try reflexivity; try lia; try assumption; [apply isDirty_pack, Hv'|].
  apply getState_pack; [apply lock_state_ok, Hst|exact Hv'].
Qed.

Lemma lock_ok_free n w :
  (n < 2 ^ 55)%Z → lock_ok n w [] →
  ∃ st d v, w = pack st d v ∧ (0 ≤ v ≤ n)%Z ∧ is_version v ∧ is_lock_state st ∧ st ≠ LOCKED ∧
    (st = EVICTED → d = false ∧ v = 0%Z) ∧ isDirty w = d ∧ getState w = st.
Proof.
  intros Hn (st & d & v & -> & Hv & Hst & Hl & Hw). exists st, d, v. assert (Hv' : is_version v) by (unfold is_version; lia).
  split_and!; try reflexivity; try lia; try assumption; [apply isDirty_pack, Hv'|].
  apply getState_pack; [apply lock_state_ok, Hst|exact Hv'].
Qed.

(** Changing the state of a free page. *)
Lemma retag n w st' :
  (n < 2 ^ 55)%Z → lock_ok n w [] → is_lock_state st' →
  ∃ d v, updateStateWithSameVersion w st' = pack st' d v ∧ (0 ≤ v ≤ n)%Z ∧ is_version v ∧ isDirty w = d ∧
    (getState w = EVICTED → d = false ∧ v = 0%Z) ∧ w = pack (getState w) d v.
Proof.
  intros Hn Hl Hst'. destruct (lock_ok_free n w Hn Hl) as (st & d & v & -> & Hv & Hv' & Hst & Hne & He & Hd & Hg).
  exists d, v. rewrite updateStateWithSameVersion_pack by auto using lock_state_ok. rewrite Hg.
  split_and!; try reflexivity; try lia; try assumption; try exact He.
Qed.

Lemma acquire n w ph :
  (n < 2 ^ 55)%Z → lock_ok n w [] →
  (getState w = EVICTED → ph = Claimed) → (getState w ≠ EVICTED → ph = Held false ∨ ph = Evicting) →
  lock_ok n (updateStateWithSameVersion w LOCKED) [ph].
Proof.
  intros Hn Hl H1 H2. destruct (retag n w LOCKED Hn Hl) as (d & v & Hw & Hv & Hv' & Hd & He & _); [unfold is_lock_state, LOCKED; lia|].
  exists LOCKED, d, v. split; [exact Hw|]. split; [exact Hv|]. split; [unfold is_lock_state, LOCKED; lia|]. split; [reflexivity|].
  destruct (decide (getState w = EVICTED)) as [E|E]; [rewrite (H1 E); exact (He E)|].
  destruct (H2 E) as [->| ->]; exact I.
Qed.

Lemma retag_free n w st' :
  (n < 2 ^ 55)%Z → lock_ok n w [] → getState w ≠ EVICTED → st' = UNLOCKED ∨ st' = MARKED →
  lock_ok n (updateStateWithSameVersion w st') [].
Proof.
  intros Hn Hl Hne Hst. assert (Hst' : is_lock_state st') by (unfold is_lock_state, UNLOCKED, MARKED in *; lia).
  destruct (retag n w st' Hn Hl Hst') as (d & v & Hw & Hv & _). exists st', d, v.
  split; [exact Hw|]. split; [exact Hv|]. split; [exact Hst'|]. unfold LOCKED, EVICTED, UNLOCKED, MARKED in *. split; lia.
Qed.

(** A compare-and-swap with a word whose state is not locked: it fails, or the page was free. *)
Lemma cas_cases n s hs w desired :
  (n < 2 ^ 55)%Z → lock_ok n (word s) hs → getState w ≠ LOCKED →
  (compare_exchange_strong w desired (word s) = (Ok false, word s)) ∨
  (compare_exchange_strong w desired (word s) = (Ok true, desired) ∧ word s = w ∧ hs = []).
Proof.
  intros Hn Hl Hw. unfold compare_exchange_strong. destruct (Z.eqb_spec (word s) w) as [E|E]; [right|left; reflexivity].
  split; [reflexivity|]. split; [exact E|]. apply (not_locked_free n (word s) hs Hn Hl). rewrite E. exact Hw.
Qed.

Lemma app_nil_middle {A} (l1 l2 : list A) : l1 ++ [] ++ l2 = [] → l1 = [] ∧ l2 = [].
Proof. intros H. apply app_eq_nil in H. exact H. Qed.

Lemma pin_load_local why s : (∃ st, getState (word s) = st ∧ is_lock_state st) → local_ok (pin_load why s) ∧ phase (pin_load why s) = None.
Proof.
  intros (st & Hg & Hst). unfold pin_load. rewrite Hg. unfold is_lock_state, EVICTED, UNLOCKED, MARKED, LOCKED in *.
  destruct (st =? 3)%Z eqn:E3; [cbn; rewrite Hg; split; [unfold LOCKED; lia|reflexivity]|].
  destruct (st =? 0)%Z eqn:E0; [cbn; rewrite Hg; split; [unfold LOCKED; lia|reflexivity]|].
  destruct (st =? 2)%Z eqn:E2; [cbn; rewrite Hg; split; [unfold LOCKED; lia|reflexivity]|].
  destruct (st =? 1)%Z eqn:E1; [split; [exact I|reflexivity]|]. lia.
Qed.

Lemma read_load_local ps s : local_ok (read_load ps s) ∧ phase (read_load ps s) = None.
Proof.
  unfold read_load. destruct (getState (word s) =? UNLOCKED)%Z eqn:E; [apply Z.eqb_eq in E; split; [exact E|reflexivity]|].
  destruct (getState (word s) =? MARKED)%Z eqn:E2; [apply Z.eqb_eq in E2; split; [exact E2|reflexivity]|].
  destruct (getState (word s) =? EVICTED)%Z; split; exact I || reflexivity.
Qed.

(** A step of a thread that does not hold the page: nothing shared changes, the thread takes the page, or
    it marks the page or clears its mark. *)
Inductive other_step (s : Shared) (hs : list Phase) : Shared → Pc → Prop :=
  | OtherLocal pc' : phase pc' = None → local_ok pc' → other_step s hs s pc'
  | OtherAcquire pc' ph :
      hs = [] → phase pc' = Some ph → local_ok pc' →
      (getState (word s) = EVICTED → ph = Claimed) → (getState (word s) ≠ EVICTED → ph = Held false ∨ ph = Evicting) →
      other_step s hs (set_word (updateStateWithSameVersion (word s) LOCKED) s) pc'
  | OtherRetag pc' st' :
      hs = [] → phase pc' = None → local_ok pc' → getState (word s) ≠ EVICTED → st' = UNLOCKED ∨ st' = MARKED →
      other_step s hs (set_word (updateStateWithSameVersion (word s) st') s) pc'.

Lemma set_word_same s : set_word (word s) s = s.
Proof. destruct s; reflexivity. Qed.

Lemma other_retag n s hs w st' s' pc' k :
  (n < 2 ^ 55)%Z → lock_ok n (word s) hs → getState w ≠ LOCKED → getState w ≠ EVICTED → st' = UNLOCKED ∨ st' = MARKED →
  on_word (compare_exchange_strong w (updateStateWithSameVersion w st')) (λ _, k) s = (s', pc') →
  phase k = None → local_ok k → other_step s hs s' pc'.
Proof.
  intros Hn Hl Hw Hne Hst Hstep Hk Hok. unfold on_word in Hstep.
  destruct (cas_cases n s hs w (updateStateWithSameVersion w st') Hn Hl Hw) as [E|(E & Ew & Eh)]; rewrite E in Hstep; injection Hstep as <- <-.
  - rewrite set_word_same. apply OtherLocal; assumption.
  - rewrite <- Ew in *. apply OtherRetag; assumption.
Qed.

Lemma other_lock n s hs w s' pc' k yes :
  (n < 2 ^ 55)%Z → lock_ok n (word s) hs → getState w ≠ LOCKED →
  on_word (tryLock w) (λ locked : bool, if locked then yes else k) s = (s', pc') →
  phase k = None → local_ok k → local_ok yes →
  (∃ ph, phase yes = Some ph ∧ (getState w = EVICTED → ph = Claimed) ∧ (getState w ≠ EVICTED → ph = Held false ∨ ph = Evicting)) →
  other_step s hs s' pc'.
Proof.
  intros Hn Hl Hw Hstep Hk Hok Hyes (ph & Hph & H1 & H2). unfold on_word, tryLock in Hstep.
  destruct (cas_cases n s hs w (updateStateWithSameVersion w LOCKED) Hn Hl Hw) as [E|(E & Ew & Eh)]; rewrite E in Hstep; injection Hstep as <- <-.
  - rewrite set_word_same. apply OtherLocal; assumption.
  - rewrite <- Ew in *. apply (OtherAcquire s hs yes ph); assumption.
Qed.

Lemma step_other n l s pc s' pc' hs :
  (n < 2 ^ 55)%Z → phase pc = None → lock_ok n (word s) hs → local_ok pc → step l s pc = Some (s', pc') → other_step s hs s' pc'.
Proof.
  intros Hn Hph Hl Hloc Hstep.
  destruct pc; try discriminate Hph; destruct l; try discriminate Hstep; try (destruct ps; discriminate Hstep); cbn [step] in Hstep.
  - injection Hstep as <- <-. apply OtherLocal; [reflexivity|exact I].
  - injection Hstep as <- <-. apply OtherLocal; [reflexivity|exact I].
  - injection Hstep as <- <-. apply OtherLocal; [reflexivity|exact I].
  - injection Hstep as <- <-. destruct (lock_ok_fields _ _ _ Hn Hl) as (st & _ & _ & _ & _ & _ & Hst & Hg & _).
    destruct (pin_load_local why s) as [H1 H2]; [eauto|]. apply OtherLocal; assumption.
  - apply (other_lock n s hs currStateAndVersion s' pc' (PinLoad why)
      (if (getState currStateAndVersion =? EVICTED)%Z then PinClaim why else Pinned false why) Hn Hl Hloc).
    + injection Hstep as Hs. rewrite <- Hs. unfold on_word, tryLock, compare_exchange_strong. destruct (word s =? currStateAndVersion)%Z; reflexivity.
    + reflexivity.
    + exact I.
    + destruct (getState currStateAndVersion =? EVICTED)%Z; exact I.
    + destruct (Z.eqb_spec (getState currStateAndVersion) EVICTED); eexists; (split; [reflexivity|]); split; auto; contradiction.
  - injection Hstep as <- <-. destruct (read_load_local ps s) as [H1 H2]. apply OtherLocal; assumption.
  - cbn [local_ok] in Hloc. apply (other_retag n s hs currStateAndVersion UNLOCKED s' pc' (ReadLoad ps) Hn Hl); try (rewrite Hloc; discriminate); try exact I; auto.
    injection Hstep as Hs. rewrite <- Hs. unfold on_word, tryClearMark. rewrite (proj2 (Z.eqb_eq _ _) Hloc). reflexivity.
  - destruct ps as [|p ps]; injection Hstep as <- <-; [destruct (word s =? currStateAndVersion)%Z|]; apply OtherLocal; try reflexivity; (exact I || exact Hloc).
  - injection Hstep as <- <-. apply OtherLocal; [reflexivity|exact I].
  - injection Hstep as <- <-. unfold isEvictable, isSecondChanceEvictable. destruct (getState (word s) =? MARKED)%Z; [apply OtherLocal; [reflexivity|exact I]|].
    destruct (Z.eqb_spec (getState (word s)) UNLOCKED) as [E|E]; apply OtherLocal; try reflexivity; (exact E || exact I).
  - cbn [local_ok] in Hloc. apply (other_retag n s hs pageStateAndVersion MARKED s' pc' Idle Hn Hl); try (rewrite Hloc; discriminate); try exact I; auto.
    injection Hstep as Hs. exact Hs.
  - injection Hstep as <- <-. unfold isEvictable. destruct (Z.eqb_spec (getState (word s)) MARKED) as [E|E]; apply OtherLocal; try reflexivity; (exact E || exact I).
  - cbn [local_ok] in Hloc. apply (other_lock n s hs currStateAndVersion s' pc' Idle EvictCheck Hn Hl); try (rewrite Hloc; discriminate); try exact I; auto.
    + injection Hstep as Hs. exact Hs.
    + exists Evicting. rewrite Hloc. split; [reflexivity|]. split; [discriminate|auto].
Qed.

Lemma step_lock_other n l s pc s' pc' l1 l2 :
  (n + 1 < 2 ^ 55)%Z → phase pc = None → lock_ok n (word s) (l1 ++ [] ++ l2) → local_ok pc → step l s pc = Some (s', pc') →
  lock_ok (n + 1) (word s') (l1 ++ option_list (phase pc') ++ l2) ∧ local_ok pc'.
Proof.
  intros Hn Hph Hl Hloc Hstep. apply (lock_ok_mono n (n + 1)) in Hl; [|lia].
  destruct (step_other (n + 1) l s pc s' pc' _ Hn Hph Hl Hloc Hstep) as [pc2 H1 H2|pc2 ph Eh Hph' H2 H3 H4|pc2 st' Eh H1 H2 H3 H4].
  - rewrite H1. split; assumption.
  - destruct (app_nil_middle _ _ Eh) as [-> ->]. rewrite Hph'. split; [apply acquire; assumption|exact H2].
  - destruct (app_nil_middle _ _ Eh) as [-> ->]. rewrite H1. split; [apply retag_free; assumption|exact H2].
Qed.

(** *** What the holder does *)

(** The page stays locked with the same word. *)
Lemma hold n w ph ph' :
  lock_ok n w [ph] → (∀ d v, w = pack LOCKED d v → word_ok ph w d v → word_ok ph' w d v) → lock_ok n w [ph'].
Proof.
  intros (st & d & v & Hw & Hv & Hst & -> & Hok) H. exists LOCKED, d, v. split_and!; try lia; try assumption; try reflexivity. apply (H d v Hw Hok).
Qed.

Lemma release n w w' :
  (n + 1 < 2 ^ 55)%Z → lock_ok n w [Unlocking w'] → lock_ok (n + 1) (updateStateAndIncrementVersion w' UNLOCKED) [].
Proof.
  intros Hn Hl. destruct (lock_ok_locked n w _ ltac:(lia) Hl) as (d & v & Hw & Hv & Hv' & Hok & _). cbn [word_ok] in Hok. subst w'.
  exists UNLOCKED, d, (v + 1)%Z. rewrite Hw. split.
  - apply updateStateAndIncrementVersion_pack; unfold is_state, is_version, LOCKED, UNLOCKED in *; lia.
  - unfold is_lock_state, UNLOCKED, LOCKED, EVICTED. split; [lia|]. split; [lia|]. split; [lia|lia].
Qed.

Lemma release_same n w w' :
  (n < 2 ^ 55)%Z → lock_ok n w [UnlockingSame w'] → lock_ok n (updateStateWithSameVersion w' UNLOCKED) [].
Proof.
  intros Hn Hl. destruct (lock_ok_locked n w _ Hn Hl) as (d & v & Hw & Hv & Hv' & Hok & _). cbn [word_ok] in Hok. subst w'.
  exists UNLOCKED, d, v. rewrite Hw. split.
  - apply updateStateWithSameVersion_pack; unfold is_state, LOCKED, UNLOCKED; try lia. exact Hv'.
  - unfold is_lock_state, UNLOCKED, LOCKED, EVICTED. split; [lia|]. split; [lia|]. split; [lia|lia].
Qed.

Lemma reset_free n : (0 ≤ n)%Z → lock_ok n PageState_new [].
Proof.
  intros Hn. exists EVICTED, false, 0%Z. rewrite PageState_new_pack. unfold is_lock_state, EVICTED, LOCKED.
  split; [reflexivity|]. split; [lia|]. split; [lia|]. split; [lia|auto].
Qed.

(** The dirty bit of a locked page. *)
Lemma clear_dirty n w ph :
  (n < 2 ^ 55)%Z → lock_ok n w [ph] →
  ∃ d v, w = pack LOCKED d v ∧ is_version v ∧ isDirty w = d ∧ clearDirty w = (Ok tt, pack LOCKED false v) ∧
    clearDirtyWithoutLock w = (Ok tt, pack LOCKED false v) ∧ setDirty w = (Ok tt, pack LOCKED true v) ∧
    word_ok ph w d v ∧ ∀ ph' d', word_ok ph' (pack LOCKED d' v) d' v → lock_ok n (pack LOCKED d' v) [ph'].
Proof.
  intros Hn Hl. destruct (lock_ok_locked n w ph Hn Hl) as (d & v & Hw & Hv & Hv' & Hok & Hd & Hg). exists d, v.
  assert (Hc : clearDirtyWithoutLock w = (Ok tt, pack LOCKED false v)).
  { unfold clearDirtyWithoutLock, modify. rewrite Hw, clearDirty_pack; [reflexivity|unfold is_state, LOCKED; lia|exact Hv']. }
  split; [exact Hw|]. split; [exact Hv'|]. split; [exact Hd|]. split; [|split; [exact Hc|split; [|split; [exact Hok|]]]].
  - unfold clearDirty. unfold_M. rewrite Hg. exact Hc.
  - unfold setDirty. unfold_M. rewrite Hg, Z.eqb_refl. cbv beta iota. rewrite Hw, setDirty_pack by exact Hv'. reflexivity.
  - intros ph' d' H. exists LOCKED, d', v. split_and!; try lia; try reflexivity; [unfold is_lock_state, LOCKED; lia|exact H].
Qed.

Lemma step_lock_holder n l s pc s' pc' ph :
  (n + 1 < 2 ^ 55)%Z → (0 ≤ n)%Z → phase pc = Some ph → lock_ok n (word s) [ph] → step l s pc = Some (s', pc') →
  lock_ok (n + 1) (word s') (option_list (phase pc')) ∧ local_ok pc'.
Proof.
  intros Hn H0 Hph Hl Hstep. pose proof (lock_ok_mono n (n + 1) (word s) [ph] ltac:(lia) Hl) as Hl'.
  destruct (clear_dirty (n + 1) (word s) ph Hn Hl') as (d & v & Hw & _ & Hdirty & Hcd & Hcl & Hset & Hok & Hmk).
  destruct pc; try discriminate Hph; injection Hph as <-; destruct l; try discriminate Hstep;
    try (destruct why; discriminate Hstep); cbn [step] in Hstep.
  - injection Hstep as <- <-. split; [exact Hl'|exact I].
  - injection Hstep as <- <-. split; [exact Hl'|exact I].
  - injection Hstep as <- <-. split; [apply reset_free; lia|exact I].
  - unfold on_word in Hstep. rewrite Hcd in Hstep. injection Hstep as <- <-. cbn [word_ok] in Hok. destruct Hok as [_ ->].
    destruct why as [[|]|ps]; (split; [|exact I]); apply Hmk; (split; reflexivity) || exact I.
  - destruct (i <? length (disk s)); injection Hstep as <- <-; (split; [|exact I]); apply (hold _ _ _ _ Hl'); intros d' v' _ H; exact H || exact I.
  - injection Hstep as <- <-. split; [exact Hl'|exact I].
  - injection Hstep as <- <-. split; [exact Hl'|exact I].
  - destruct why as [r|ps]; [discriminate Hstep|]. injection Hstep as <- <-. split; [|exact I]. apply (hold _ _ _ _ Hl'). reflexivity.
  - destruct why as [r|ps]; [|discriminate Hstep]. injection Hstep as <- <-. split; [|exact I]. apply (hold _ _ _ _ Hl'). intros; exact I.
  - destruct why as [r|ps]; [|discriminate Hstep]. unfold on_word in Hstep. rewrite Hset in Hstep. injection Hstep as <- <-.
    split; [|exact I]. apply Hmk. exact I.
  - destruct why as [r|ps]; [|discriminate Hstep]. injection Hstep as <- <-. split; [|exact I]. apply (hold _ _ _ _ Hl'). reflexivity.
  - injection Hstep as <- <-. pose proof (release n (word s) loaded Hn Hl) as Hr. destruct why; (split; [exact Hr|exact I]).
  - injection Hstep as <- <-. split; [exact Hl'|exact I].
  - injection Hstep as <- <-. split; [|exact I]. apply (hold _ _ _ _ Hl'). reflexivity.
  - injection Hstep as <- <-. split; [|exact I]. exact (release_same (n + 1) (word s) loaded Hn Hl').
  - rewrite Hdirty in Hstep. destruct d; injection Hstep as <- <-; (split; [|exact I]).
    + apply (hold _ _ _ _ Hl'). intros; exact I.
    + rewrite Hw. apply Hmk. reflexivity.
  - unfold on_word in Hstep. rewrite Hcl in Hstep. injection Hstep as <- <-. split; [|exact I]. apply Hmk. reflexivity.
  - injection Hstep as <- <-. split; [|exact I]. apply (hold _ _ _ _ Hl'). intros d' v' _ H; exact H.
  - injection Hstep as <- <-. split; [apply reset_free; lia|exact I].
Qed.

(** *** Every execution *)

Definition lock_inv (n : Z) (c : Config) : Prop := lock_ok n (word c.1) (holders c) ∧ Forall local_ok c.2.

Lemma exec_inv t l c c' :
  exec t l c = Some c' →
  ∃ pc s' pc', c.2 !! t = Some pc ∧ step l c.1 pc = Some (s', pc') ∧ c' = (s', <[t := pc']> c.2).
Proof.
  unfold exec. destruct (c.2 !! t) as [pc|] eqn:Ht; [|discriminate]. destruct (step l c.1 pc) as [[s' pc']|] eqn:Hs; [|discriminate].
  intros [= <-]. exists pc, s', pc'. auto.
Qed.

Lemma step_lock n l s pc s' pc' l1 l2 :
  (n + 1 < 2 ^ 55)%Z → (0 ≤ n)%Z → lock_ok n (word s) (l1 ++ option_list (phase pc) ++ l2) → local_ok pc →
  step l s pc = Some (s', pc') → lock_ok (n + 1) (word s') (l1 ++ option_list (phase pc') ++ l2) ∧ local_ok pc'.
Proof.
  intros Hn H0 Hl Hloc Hstep. destruct (phase pc) as [ph|] eqn:Hph; cbn [option_list] in Hl.
  - destruct (lock_ok_holder n (word s) l1 ph l2 Hl) as [-> ->]. cbn [app] in *. rewrite app_nil_r.
    exact (step_lock_holder n l s pc s' pc' ph Hn H0 Hph Hl Hstep).
  - exact (step_lock_other n l s pc s' pc' l1 l2 Hn Hph Hl Hloc Hstep).
Qed.

Lemma exec_lock n t l c c' :
  (n + 1 < 2 ^ 55)%Z → (0 ≤ n)%Z → lock_inv n c → exec t l c = Some c' → lock_inv (n + 1) c'.
Proof.
  intros Hn H0 [Hl Hloc] (pc & s' & pc' & Ht & Hstep & ->)%exec_inv.
  destruct (holders_split c.2 t pc Ht) as (l1 & l2 & Hh & Hh'). unfold holders in Hl. rewrite Hh in Hl.
  destruct (step_lock n l c.1 pc s' pc' l1 l2 Hn H0 Hl) as [H1 H2]; [|exact Hstep|].
  - rewrite Forall_lookup in Hloc. exact (Hloc t pc Ht).
  - split; [unfold holders; cbn [fst snd]; rewrite Hh'; exact H1|]. apply Forall_insert; assumption.
Qed.

Lemma initial_lock n page old : lock_inv 0 (initial n page old).
Proof.
  split; [|apply Forall_replicate; exact I]. unfold holders. cbn [initial fst snd word].
  replace (omap phase (replicate n Idle)) with (@nil Phase); [apply reset_free; lia|]. induction n; [reflexivity|exact IHn].
Qed.

(** ** The page *)

Definition version (w : Z) : Z := (w mod 2 ^ 55)%Z.

Lemma version_pack st d v : is_version v → version (pack st d v) = v.
Proof.
  intros Hv. unfold version. unfold is_version in Hv.
  replace (pack st d v) with (v + (st * 2 + Z.b2z d) * 2 ^ 55)%Z by (change (pack st d v) with (st * 2 ^ 56 + Z.b2z d * 2 ^ 55 + v)%Z; lia).
  rewrite Z_mod_plus_full. apply Z.mod_small, Hv.
Qed.

(** Where the frame and the file agree. *)
Definition content_ok (s : Shared) (hs : list Phase) : Prop :=
  length (frame s) = length (disk s) ∧
  match hs with
  | [] => getState (word s) ≠ EVICTED → isDirty (word s) = false → frame s = disk s
  | [Copying i] => take i (frame s) = take i (disk s)
  | [Held wrote] => wrote = false → isDirty (word s) = false → frame s = disk s
  | [Unlocking _] | [UnlockingSame _] | [Evicting] => isDirty (word s) = false → frame s = disk s
  | [Written] | [Flushed] => frame s = disk s
  | _ => True
  end.

(** Whether the page is in its frame, and whether its holder keeps it as it is. *)
Definition resident (s : Shared) (hs : list Phase) : Prop :=
  match hs with
  | [Claimed] | [Copying _] => False
  | [] => getState (word s) ≠ EVICTED
  | _ => True
  end.
Definition stable (hs : list Phase) : Prop :=
  match hs with
  | [] | [Evicting] | [UnlockingSame _] | [Written] | [Flushed] => True
  | _ => False
  end.

(** What a reader has got since the page was last loaded. *)
Definition reader_ok (s : Shared) (hs : list Phase) (w : Z) (since : nat) (got : list (nat * Z)) : Prop :=
  since ≤ evictions s ∧
  (evictions s = since → resident s hs ∧ (version w ≤ version (word s))%Z ∧
     (version (word s) = version w → stable hs → got = map (λ p, (p, byte p (frame s))) got.*1)).

Definition readers_kept (s : Shared) (hs : list Phase) (s' : Shared) (hs' : list Phase) : Prop :=
  ∀ w e got, reader_ok s hs w e got → reader_ok s' hs' w e got.

Lemma readers_mono s hs s' hs' :
  evictions s' = evictions s → (resident s hs → resident s' hs') →
  (resident s hs → (version (word s) ≤ version (word s'))%Z) →
  (resident s hs → version (word s') = version (word s) → stable hs' → stable hs ∧ frame s' = frame s) →
  readers_kept s hs s' hs'.
Proof.
  intros He Hr Hv Hf w e got [H1 H2]. rewrite <- He in *. split; [exact H1|]. intros E. destruct (H2 E) as (H3 & H4 & H5).
  specialize (Hv H3). split; [exact (Hr H3)|]. split; [lia|]. intros Ev Hst.
  assert (Ev' : version (word s') = version (word s)) by lia. destruct (Hf H3 Ev' Hst) as [Hst' Hfr]. rewrite Hfr.
  apply H5; [lia|exact Hst'].
Qed.

Lemma readers_gone s hs s' hs' : evictions s' = evictions s → ¬ resident s hs → readers_kept s hs s' hs'.
Proof. intros He Hr. apply readers_mono; [exact He| | |]; intros H; contradiction. Qed.

Lemma readers_same s hs : readers_kept s hs s hs.
Proof. intros w e got H. exact H. Qed.

(** What one step does to the page, seen by everyone. *)
Record page_kept (s : Shared) (hs : list Phase) (s' : Shared) (hs' : list Phase) (page' : list Z) : Prop := {
  pk_ok : content_ok s' hs';
  pk_content : content_of s' hs' = page';
  pk_readers : readers_kept s hs s' hs';
}.

Lemma page_same s hs : content_ok s hs → page_kept s hs s hs (content_of s hs).
Proof. intros H. split; [exact H|reflexivity|apply readers_same]. Qed.

(** A new state keeps the dirty bit and the version. *)
Lemma retag_keeps n w st' :
  (n < 2 ^ 55)%Z → lock_ok n w [] → is_lock_state st' →
  getState (updateStateWithSameVersion w st') = st' ∧ isDirty (updateStateWithSameVersion w st') = isDirty w ∧
  version (updateStateWithSameVersion w st') = version w.
Proof.
  intros Hn Hl Hst. destruct (retag n w st' Hn Hl Hst) as (d & v & -> & Hv & Hv' & Hd & _ & Hw).
  rewrite getState_pack, isDirty_pack, version_pack by auto using lock_state_ok. rewrite Hd. split; [reflexivity|]. split; [reflexivity|].
  rewrite Hw, version_pack by exact Hv'. reflexivity.
Qed.

Lemma page_acquire n s ph :
  (n < 2 ^ 55)%Z → lock_ok n (word s) [] → content_ok s [] →
  (getState (word s) = EVICTED → ph = Claimed) → (getState (word s) ≠ EVICTED → ph = Held false ∨ ph = Evicting) →
  page_kept s [] (set_word (updateStateWithSameVersion (word s) LOCKED) s) [ph] (content_of s []).
Proof.
  intros Hn Hl [Hlen Hc] H1 H2.
  destruct (retag_keeps n (word s) LOCKED Hn Hl ltac:(unfold is_lock_state, LOCKED; lia)) as (_ & Hd & Hv).
  destruct (Z.eq_dec (getState (word s)) EVICTED) as [E|E].
  - rewrite (H1 E). split; [split; [exact Hlen|exact I]| |].
    + cbn [content_of]. rewrite E. reflexivity.
    + apply readers_gone; [reflexivity|]. intros Hr. exact (Hr E).
  - assert (Hcf : content_of s [] = frame s) by (cbn [content_of]; rewrite (proj2 (Z.eqb_neq _ _) E); reflexivity).
    rewrite Hcf. destruct (H2 E) as [->| ->]; (split; [split; [exact Hlen|]|reflexivity|apply readers_mono; [reflexivity|intros; exact I| |]]);
      cbn [word set_word frame disk]; rewrite ?Hd, ?Hv; auto; try lia; intros; try split; auto; contradiction.
Qed.

Lemma page_retag n s st' :
  (n < 2 ^ 55)%Z → lock_ok n (word s) [] → content_ok s [] → getState (word s) ≠ EVICTED → st' = UNLOCKED ∨ st' = MARKED →
  page_kept s [] (set_word (updateStateWithSameVersion (word s) st') s) [] (content_of s []).
Proof.
  intros Hn Hl [Hlen Hc] Hne Hst.
  destruct (retag_keeps n (word s) st' Hn Hl ltac:(unfold is_lock_state, UNLOCKED, MARKED in *; lia)) as (Hg & Hd & Hv).
  assert (Hne' : st' ≠ EVICTED) by (unfold UNLOCKED, MARKED, EVICTED in *; lia).
  split.
  - split; [exact Hlen|]. cbn [word set_word frame disk]. rewrite Hd. intros _. exact (Hc Hne).
  - cbn [content_of word set_word frame disk]. rewrite Hg, (proj2 (Z.eqb_neq _ _) Hne), (proj2 (Z.eqb_neq _ _) Hne'). reflexivity.
  - apply readers_mono; [reflexivity| | |]; cbn [resident word set_word]; rewrite ?Hg, ?Hv; auto; lia.
Qed.

Lemma step_page_other n l s pc s' pc' l1 l2 :
  (n < 2 ^ 55)%Z → phase pc = None → lock_ok n (word s) (l1 ++ [] ++ l2) → local_ok pc → content_ok s (l1 ++ [] ++ l2) →
  step l s pc = Some (s', pc') →
  page_kept s (l1 ++ [] ++ l2) s' (l1 ++ option_list (phase pc') ++ l2) (content_of s (l1 ++ [] ++ l2)).
Proof.
  intros Hn Hph Hl Hloc Hc Hstep.
  destruct (step_other n l s pc s' pc' _ Hn Hph Hl Hloc Hstep) as [pc2 H1 H2|pc2 ph Eh Hph' H2 H3 H4|pc2 st' Eh H1 H2 H3 H4].
  - rewrite H1. apply page_same, Hc.
  - destruct (app_nil_middle _ _ Eh) as [-> ->]. rewrite Hph'. apply (page_acquire n); assumption.
  - destruct (app_nil_middle _ _ Eh) as [-> ->]. rewrite H1. apply (page_retag n); assumption.
Qed.

(** Steps of the holder that leave word, frame and file alone. *)
Lemma page_hold s ph ph' :
  content_ok s [ph] → (content_ok s [ph] → content_ok s [ph']) → content_of s [ph'] = content_of s [ph] →
  (resident s [ph] → resident s [ph']) → (stable [ph'] → stable [ph]) →
  page_kept s [ph] s [ph'] (content_of s [ph]).
Proof.
  intros Hc Hc' Hp Hr Hst. split; [exact (Hc' Hc)|exact Hp|]. apply readers_mono; [reflexivity|exact Hr|lia|].
  intros _ _ H. split; [exact (Hst H)|reflexivity].
Qed.

(** The page goes back to the free pages with a new word. *)
Lemma page_release s w' ph :
  content_ok s [ph] → (isDirty (word s) = false → frame s = disk s) → content_of s [ph] = frame s →
  getState w' ≠ EVICTED → isDirty w' = isDirty (word s) → (version (word s) ≤ version w')%Z →
  (version w' = version (word s) → stable [ph]) → page_kept s [ph] (set_word w' s) [] (content_of s [ph]).
Proof.
  intros [Hlen _] Hc Hp Hg Hd Hv Hst. rewrite Hp. split.
  - split; [exact Hlen|]. cbn [word set_word frame disk]. rewrite Hd. intros _. exact Hc.
  - cbn [content_of word set_word frame disk]. rewrite (proj2 (Z.eqb_neq _ _) Hg). reflexivity.
  - apply readers_mono; [reflexivity|intros _; exact Hg|intros _; exact Hv|]. intros _ E _. split; [exact (Hst E)|reflexivity].
Qed.

Lemma released_word n w w' :
  (n + 1 < 2 ^ 55)%Z → lock_ok n w [Unlocking w'] →
  getState (updateStateAndIncrementVersion w' UNLOCKED) = UNLOCKED ∧
  isDirty (updateStateAndIncrementVersion w' UNLOCKED) = isDirty w ∧
  version (updateStateAndIncrementVersion w' UNLOCKED) = (version w + 1)%Z.
Proof.
  intros Hn Hl. destruct (lock_ok_locked n w _ ltac:(lia) Hl) as (d & v & Hw & Hv & Hv' & Hok & Hd & _). cbn [word_ok] in Hok. subst w'.
  assert (Hv1 : is_version (v + 1)) by (unfold is_version in *; lia). rewrite Hd, Hw.
  rewrite updateStateAndIncrementVersion_pack by (assumption || (unfold is_state, LOCKED, UNLOCKED; lia)).
  rewrite getState_pack, isDirty_pack, !version_pack by (assumption || (unfold is_state, UNLOCKED; lia)). auto.
Qed.

Lemma released_same_word n w w' :
  (n < 2 ^ 55)%Z → lock_ok n w [UnlockingSame w'] →
  getState (updateStateWithSameVersion w' UNLOCKED) = UNLOCKED ∧
  isDirty (updateStateWithSameVersion w' UNLOCKED) = isDirty w ∧ version (updateStateWithSameVersion w' UNLOCKED) = version w.
Proof.
  intros Hn Hl. destruct (lock_ok_locked n w _ Hn Hl) as (d & v & Hw & Hv & Hv' & Hok & Hd & _). cbn [word_ok] in Hok. subst w'.
  rewrite Hd, Hw. rewrite updateStateWithSameVersion_pack by (assumption || (unfold is_state, LOCKED, UNLOCKED; lia)).
  rewrite getState_pack, isDirty_pack, !version_pack by (assumption || (unfold is_state, UNLOCKED; lia)). auto.
Qed.

(** Copying one more byte of the file. *)
Lemma copy_byte f d i :
  length f = length d → i < length d → take i f = take i d → take (S i) (<[i := byte i d]> f) = take (S i) d.
Proof.
  intros Hl Hi Ht. destruct (lookup_lt_is_Some_2 d i Hi) as [x Hx]. unfold byte. rewrite Hx. cbn [default id].
  rewrite (take_S_r d i x Hx), (take_S_r _ i x) by (apply list_lookup_insert_eq; lia). rewrite take_insert_ge by lia. rewrite Ht. reflexivity.
Qed.

Lemma getState_new : getState PageState_new = EVICTED.
Proof. rewrite PageState_new_pack. apply getState_pack; unfold is_state, is_version, EVICTED; lia. Qed.

(** The page is not in memory any more. *)
Lemma page_reset s ph e :
  content_ok s [ph] → content_of s [ph] = disk s → (e = evictions s ∧ ¬ resident s [ph]) ∨ e = S (evictions s) →
  page_kept s [ph] (MkShared PageState_new (frame s) (disk s) e) [] (content_of s [ph]).
Proof.
  intros [Hlen _] Hp He. rewrite Hp. split.
  - split; [exact Hlen|]. cbn [word]. rewrite getState_new. contradiction.
  - cbn [content_of word disk frame]. rewrite getState_new. reflexivity.
  - destruct He as [[-> Hr]| ->]; [apply readers_gone; [reflexivity|exact Hr]|].
    intros w e got [H1 _]. split; cbn [evictions]; [lia|]. intros E. lia.
Qed.

(** A locked page gets another dirty bit. *)
Lemma page_rebit s ph ph' d0 d v :
  word s = pack LOCKED d0 v → is_version v →
  content_ok (set_word (pack LOCKED d v) s) [ph'] → content_of s [ph'] = content_of s [ph] →
  (resident s [ph] → resident s [ph'] ∧ (stable [ph'] → stable [ph])) →
  page_kept s [ph] (set_word (pack LOCKED d v) s) [ph'] (content_of s [ph]).
Proof.
  intros Hw Hv Hc Hp Hr. split; [exact Hc| |].
  - rewrite <- Hp. destruct ph'; reflexivity.
  - apply readers_mono; [reflexivity| |intros _; cbn [word set_word]; rewrite Hw, !version_pack by exact Hv; lia|].
    + intros H. destruct (Hr H) as [H' _]. destruct ph'; exact H'.
    + intros H _ Hst. split; [apply (Hr H), Hst|reflexivity].
Qed.

(** The frame of a page that readers cannot rely on changes. *)
Lemma page_write s ph ph' f :
  content_ok (set_frame f s) [ph'] → (resident s [ph] → resident s [ph']) → ¬ stable [ph'] →
  page_kept s [ph] (set_frame f s) [ph'] (content_of (set_frame f s) [ph']).
Proof.
  intros Hc Hr Hst. split; [exact Hc|reflexivity|]. apply readers_mono; [reflexivity| |intros _; cbn [word set_frame]; lia|].
  - intros H. specialize (Hr H). destruct ph'; exact Hr.
  - intros _ _ H. contradiction.
Qed.

Lemma step_page_holder n l s pc s' pc' ph :
  (n + 1 < 2 ^ 55)%Z → phase pc = Some ph → lock_ok n (word s) [ph] → content_ok s [ph] → legal_step s pc l = true →
  step l s pc = Some (s', pc') → page_kept s [ph] s' (option_list (phase pc')) (page_step s pc l (content_of s [ph])).
Proof.
  intros Hn Hph Hl Hc Hlegal Hstep. pose proof (page_same _ _ Hc) as Hsame. pose proof Hc as [Hlen Hco].
  destruct (clear_dirty n (word s) ph ltac:(lia) Hl) as (d & v & Hw & Hv & Hdirty & Hcd & Hcl & Hset & Hok & _).
  destruct pc; try discriminate Hph; injection Hph as <-; destruct l; try discriminate Hstep;
    try (destruct why; discriminate Hstep); cbn [step] in Hstep.
  - injection Hstep as <- <-. exact Hsame.
  - injection Hstep as <- <-. exact Hsame.
  - injection Hstep as <- <-. apply (page_reset s Claimed (evictions s) Hc eq_refl). left. split; [reflexivity|exact id].
  - unfold on_word in Hstep. rewrite Hcd in Hstep. injection Hstep as <- <-. destruct why as [[|]|ps].
    + apply (page_rebit s Claimed (Copying 0) d); auto. split; [exact Hlen|reflexivity].
    + split; [split; [exact Hlen|discriminate]|reflexivity|]. apply readers_gone; [reflexivity|exact id].
    + apply (page_rebit s Claimed (Copying 0) d); auto. split; [exact Hlen|reflexivity].
  - destruct (Nat.ltb_spec i (length (disk s))) as [Hi|Hi]; injection Hstep as <- <-.
    + apply (page_write s (Copying i) (Copying (S i))); [|auto|exact id]. split; cbn [frame disk set_frame].
      * rewrite length_insert. exact Hlen.
      * apply copy_byte; assumption.
    + cbn [word_ok] in Hok. rewrite !take_ge in Hco by lia. split; [split; [exact Hlen|intros _ _; exact Hco]|exact Hco|].
      apply readers_gone; [reflexivity|exact id].
  - injection Hstep as <- <-. exact Hsame.
  - injection Hstep as <- <-. exact Hsame.
  - destruct why as [r|ps]; [discriminate Hstep|]. injection Hstep as <- <-.
    apply page_hold; auto. intros _. rewrite andb_false_r in Hco. split; [exact Hlen|apply Hco; reflexivity].
  - destruct why as [r|ps]; [|discriminate Hstep]. injection Hstep as <- <-.
    apply (page_write s (Held _) (Held true)); [|auto|exact id]. split; cbn [frame disk set_frame]; [rewrite length_insert; exact Hlen|discriminate].
  - destruct why as [r|ps]; [|discriminate Hstep]. unfold on_word in Hstep. rewrite Hset in Hstep. injection Hstep as <- <-.
    apply (page_rebit s _ _ d); auto. split; [exact Hlen|]. cbn [word set_word]. rewrite isDirty_pack by exact Hv. discriminate.
  - destruct why as [r|ps]; [|discriminate Hstep]. injection Hstep as <- <-. cbn [legal_step] in Hlegal.
    apply page_hold; auto. intros _. split; [exact Hlen|]. destruct wrote; [rewrite Hlegal; discriminate|apply Hco; reflexivity].
  - injection Hstep as <- <-. destruct (released_word n (word s) loaded Hn Hl) as (Hg & Hd & Hvv).
    replace (option_list (phase match why with Caller _ => Idle | Reader ps => ReadLoad ps end)) with (@nil Phase) by (destruct why; reflexivity).
    apply page_release; auto; rewrite ?Hg, ?Hvv; try discriminate; lia.
  - injection Hstep as <- <-. exact Hsame.
  - injection Hstep as <- <-. apply page_hold; auto.
  - injection Hstep as <- <-. destruct (released_same_word n (word s) loaded ltac:(lia) Hl) as (Hg & Hd & Hvv).
    apply page_release; auto; rewrite ?Hg, ?Hvv; try discriminate; try lia. intros _. exact I.
  - rewrite Hdirty in *. destruct d; injection Hstep as <- <-.
    + split; [split; reflexivity|reflexivity|]. apply readers_mono; auto; try (intros; cbn; lia).
    + apply page_hold; auto. intros _. split; [exact Hlen|apply Hco; reflexivity].
  - unfold on_word in Hstep. rewrite Hcl in Hstep. injection Hstep as <- <-. apply (page_rebit s Written Flushed d); auto.
  - injection Hstep as <- <-. split; [split; cbn [frame disk set_frame]; [rewrite length_replicate; exact Hlen|exact I]|cbn; symmetry; exact Hco|].
    apply readers_mono; auto; try (intros; cbn; lia). intros _ _ H. contradiction.
  - injection Hstep as <- <-. apply (page_reset s Released (S (evictions s)) Hc eq_refl). right. reflexivity.
Qed.

