(* ===== verification/PageTheorems.v ===== *)
(** * Pages under concurrent access

    The theorems on [pin], [unpin], [optimisticRead] and eviction, for any number of threads and every
    interleaving of fewer than 2^55 steps (the version has 55 bits). *)

From stdpp Require Import base numbers list strings.
From Stdlib Require Import ZArith Lia.
From S2P Require Import Prelude PageState PageProtocol PageSpec.
Import PageState PageProtocol.

#[local] Opaque updateStateWithSameVersion updateStateAndIncrementVersion getState isDirty pack PageState_new.

(** ** Invariants of executions *)

Record page_inv (n : Z) (c : Config) : Prop := {
  pv_lock : lock_inv n c;
  pv_content : content_ok c.1 (holders c);
  pv_readers : ∀ t w e got ps, c.2 !! t = Some (Reading w e got ps) → reader_ok c.1 (holders c) w e got;
}.

(** A thread that begins to read, or reads one more byte. *)
Lemma reader_starts n l s pc s' w e got ps l1 l2 :
  (n < 2 ^ 55)%Z → lock_ok n (word s) (l1 ++ option_list (phase pc) ++ l2) → step l s pc = Some (s', Reading w e got ps) →
  (∀ w e got ps, pc = Reading w e got ps → reader_ok s (l1 ++ option_list (phase pc) ++ l2) w e got) →
  s' = s ∧ phase pc = None ∧ reader_ok s (l1 ++ l2) w e got.
Proof.
  intros Hn Hl Hstep Hr. destruct pc; destruct l; try discriminate Hstep; cbn [step] in Hstep;
    unfold on_word, pin_load, read_load in Hstep; repeat case_match; try discriminate Hstep; injection Hstep as <- <- <- <- <-.
  - split; [reflexivity|]. split; [reflexivity|]. cbn [phase option_list app] in Hl. apply Z.eqb_eq in H.
    assert (Hh : l1 ++ l2 = []) by (apply (not_locked_free n (word s) _ Hn Hl); rewrite H; discriminate).
    rewrite Hh. split; [lia|]. intros _. split; [cbn; rewrite H; discriminate|]. split; [lia|]. intros _ _. reflexivity.
  - split; [reflexivity|]. split; [reflexivity|]. specialize (Hr _ _ _ _ eq_refl). cbn [phase option_list app] in Hr.
    destruct Hr as [H1 H2]. split; [exact H1|]. intros E. destruct (H2 E) as (H3 & H4 & H5). split; [exact H3|]. split; [exact H4|].
    intros Ev Hst. rewrite fmap_app, map_app, <- (H5 Ev Hst). reflexivity.
Qed.

Lemma exec_page n t l c c' :
  (n + 1 < 2 ^ 55)%Z → (0 ≤ n)%Z → page_inv n c → legal t l c = true → exec t l c = Some c' →
  page_inv (n + 1) c' ∧
  ∃ pc, c.2 !! t = Some pc ∧ content c' = page_step c.1 pc l (content c).
Proof.
  intros Hn H0 [Hlock Hc Hr] Hlegal He. pose proof (exec_lock n t l c c' Hn H0 Hlock He) as Hlock'.
  apply exec_inv in He as (pc & s' & pc' & Ht & Hstep & ->). destruct Hlock as [Hl Hloc].
  destruct (holders_split c.2 t pc Ht) as (l1 & l2 & Hh & Hh'). unfold legal in Hlegal. rewrite Ht in Hlegal.
  assert (Hpk : page_kept c.1 (l1 ++ option_list (phase pc) ++ l2) s' (l1 ++ option_list (phase pc') ++ l2)
                  (page_step c.1 pc l (content_of c.1 (l1 ++ option_list (phase pc) ++ l2)))).
  { unfold holders in Hl, Hc. rewrite Hh in Hl, Hc. destruct (phase pc) as [ph|] eqn:Hph.
    - destruct (lock_ok_holder n _ l1 ph l2 Hl) as [-> ->]. cbn [app] in *. rewrite !app_nil_r.
      exact (step_page_holder n l c.1 pc s' pc' ph Hn Hph Hl Hc Hlegal Hstep).
    - change (option_list (@None Phase)) with (@nil Phase) in *. replace (page_step c.1 pc l (content_of c.1 (l1 ++ [] ++ l2))) with (content_of c.1 (l1 ++ [] ++ l2))
        by (destruct pc; try discriminate Hph; reflexivity).
      apply (step_page_other n l c.1 pc); auto; [lia|]. rewrite Forall_lookup in Hloc. exact (Hloc t pc Ht). }
  unfold holders in *. destruct Hpk as [H1 H2 H3]. split; [split|].
  - exact Hlock'.
  - unfold holders. cbn [fst snd]. rewrite Hh'. exact H1.
  - intros u w e got ps Hu. unfold holders. cbn [fst snd] in *. rewrite Hh'. destruct (decide (u = t)) as [->|Hne].
    + rewrite list_lookup_insert_eq in Hu by (apply lookup_lt_Some in Ht; exact Ht). injection Hu as ->.
      rewrite Hh in Hl. destruct (reader_starts n l c.1 pc s' w e got ps l1 l2 ltac:(lia) Hl Hstep) as (-> & Hph & Hok).
      { intros w0 e0 got0 ps0 ->. rewrite <- Hh. exact (Hr t _ _ _ _ Ht). }
      exact Hok.
    + rewrite list_lookup_insert_ne in Hu by congruence. apply H3. rewrite <- Hh. exact (Hr u w e got ps Hu).
  - exists pc. split; [exact Ht|]. unfold content, holders. cbn [fst snd]. rewrite Hh', Hh. exact H2.
Qed.

Lemma initial_page n page old : length old = length page → page_inv 0 (initial n page old).
Proof.
  intros Hlen. assert (Hh : holders (initial n page old) = []).
  { unfold holders. cbn [initial snd]. induction n; [reflexivity|exact IHn]. }
  split; [apply initial_lock| |].
  - rewrite Hh. split; [exact Hlen|]. cbn [initial fst word]. rewrite getState_new. contradiction.
  - intros t w e got ps H. cbn [initial snd] in H. apply lookup_replicate in H as [H _]. discriminate.
Qed.

Lemma run_lock tr : ∀ n c c',
  (0 ≤ n)%Z → (n + Z.of_nat (length tr) < 2 ^ 55)%Z → lock_inv n c → run tr c = Some c' → lock_inv (n + Z.of_nat (length tr)) c'.
Proof.
  induction tr as [|[t l] tr IH]; intros n c c' H0 Hn Hi Hr; cbn [run length] in *.
  - injection Hr as <-. rewrite Z.add_0_r. exact Hi.
  - destruct (exec t l c) as [c1|] eqn:He; [|discriminate]. cbn in Hr.
    pose proof (exec_lock n t l c c1 ltac:(lia) H0 Hi He) as H1.
    replace (n + Z.of_nat (S (length tr)))%Z with (n + 1 + Z.of_nat (length tr))%Z by lia.
    apply (IH (n + 1)%Z c1 c'); auto; lia.
Qed.

Lemma run_page tr : ∀ n c c',
  (0 ≤ n)%Z → (n + Z.of_nat (length tr) < 2 ^ 55)%Z → page_inv n c → legal_run tr c = true → run tr c = Some c' →
  page_inv (n + Z.of_nat (length tr)) c'.
Proof.
  induction tr as [|[t l] tr IH]; intros n c c' H0 Hn Hi Hl Hr; cbn [run length legal_run] in *.
  - injection Hr as <-. rewrite Z.add_0_r. exact Hi.
  - apply andb_true_iff in Hl as [Hl Hl']. destruct (exec t l c) as [c1|] eqn:He; [|discriminate]. cbn in Hr.
    destruct (exec_page n t l c c1 ltac:(lia) H0 Hi Hl He) as [H1 _].
    replace (n + Z.of_nat (S (length tr)))%Z with (n + 1 + Z.of_nat (length tr))%Z by lia.
    apply (IH (n + 1)%Z c1 c'); auto; lia.
Qed.

(** ** Mutual exclusion *)

(** Two threads at places that hold the page are the same thread. *)
Lemma holder_unique c t u pc1 pc2 :
  length (holders c) ≤ 1 → c.2 !! t = Some pc1 → c.2 !! u = Some pc2 → phase pc1 ≠ None → phase pc2 ≠ None → t = u.
Proof.
  intros Hh Ht Hu H1 H2. destruct (decide (t = u)) as [|Hne]; [assumption|exfalso].
  destruct (holders_split c.2 t pc1 Ht) as (l1 & l2 & Hs & Hs'). specialize (Hs' Idle). cbn [phase option_list app] in Hs'.
  destruct (phase pc1) as [ph1|]; [|contradiction]. unfold holders in Hh. rewrite Hs, !length_app in Hh. cbn [option_list length] in Hh.
  assert (Hin : ∃ ph2, ph2 ∈ omap phase (<[t := Idle]> c.2)).
  { destruct (phase pc2) as [ph2|] eqn:Hp; [|contradiction]. exists ph2. apply list_elem_of_omap. exists pc2. split; [|exact Hp].
    apply (list_elem_of_lookup_2 _ u). rewrite list_lookup_insert_ne by exact Hne. exact Hu. }
  destruct Hin as (ph2 & Hin). rewrite Hs' in Hin. destruct l1, l2; cbn in *; try lia. inversion Hin.
Qed.

(** C15. Pages are locked exclusively. In every execution of threads that pin, unpin, optimistically read
    and evict a page, with any interleaving of their accesses, at most one thread is between locking
    and unlocking the page, the word of the page says LOCKED exactly then, and no assertion of the
    code fails. *)
Theorem page_lock_exclusive n page old tr c :
  (Z.of_nat (length tr) < 2 ^ 55)%Z → run tr (initial n page old) = Some c →
  (∀ t u pc1 pc2, c.2 !! t = Some pc1 → c.2 !! u = Some pc2 → phase pc1 ≠ None → phase pc2 ≠ None → t = u) ∧
  (getState (word c.1) = LOCKED ↔ ∃ t pc, c.2 !! t = Some pc ∧ phase pc ≠ None) ∧
  (∀ t, c.2 !! t ≠ Some Failed).
Proof.
  intros Hn Hr. destruct (run_lock tr 0 _ c ltac:(lia) ltac:(lia) (initial_lock n page old) Hr) as [Hl Hloc].
  assert (Hb : (0 + Z.of_nat (length tr) < 2 ^ 55)%Z) by lia.
  assert (Hlen : length (holders c) ≤ 1).
  { destruct Hl as (st & d & v & _ & _ & _ & H). destruct (holders c) as [|? [|? ?]]; cbn; try lia; contradiction. }
  split; [intros t u pc1 pc2; apply holder_unique, Hlen|]. split.
  - split.
    + intros Hg. destruct (holders c) as [|ph hs] eqn:Hh.
      * destruct (lock_ok_free _ _ Hb Hl) as (st & d & v & _ & _ & _ & _ & Hne & _ & _ & Hst). congruence.
      * assert (Hin : ph ∈ holders c) by (rewrite Hh; left). apply list_elem_of_omap in Hin as (pc & Hin & Hp).
        apply list_elem_of_lookup in Hin as [t Ht]. exists t, pc. split; [exact Ht|congruence].
    + intros (t & pc & Ht & Hp). destruct (Z.eq_dec (getState (word c.1)) LOCKED) as [|Hne]; [assumption|exfalso].
      pose proof (not_locked_free _ _ _ Hb Hl Hne) as Hh. destruct (phase pc) as [ph|] eqn:E; [|contradiction].
      assert (Hin : ph ∈ holders c) by (apply list_elem_of_omap; exists pc; split; [apply (list_elem_of_lookup_2 _ t), Ht|exact E]).
      rewrite Hh in Hin. inversion Hin.
  - intros t Ht. rewrite Forall_lookup in Hloc. exact (Hloc t Failed Ht).
Qed.

(** The execution of two threads on a page of two bytes: one writes them, unpins the page and evicts it,
    the other reads it meanwhile. *)
Definition pin_page (t : nat) : list (nat * Label) := (t, CallPin true) :: replicate 8 (t, Run).
Definition write_page (t : nat) (a b : Z) : list (nat * Label) := [(t, WriteByte 0 a); (t, WriteByte 1 b); (t, SetDirty); (t, Unpin); (t, Run)].
Definition evict_page (t : nat) : list (nat * Label) := (t, CallEvict) :: replicate 2 (t, Run) ++ (t, CallEvict) :: replicate 8 (t, Run).
Definition sample_trace : list (nat * Label) :=
  pin_page 1 ++ write_page 1 10 20 ++ [(0, CallRead [0; 1]); (0, Run); (0, Run)].

Lemma page_lock_exclusive_witness :
  ∃ c, run sample_trace (initial 2 [1; 2]%Z [0; 0]%Z) = Some c ∧ ∀ t, c.2 !! t ≠ Some Failed.
Proof.
  destruct (run sample_trace (initial 2 [1; 2]%Z [0; 0]%Z)) as [c|] eqn:Hr; [|vm_compute in Hr; discriminate Hr].
  exists c. split; [reflexivity|]. refine (proj2 (proj2 (page_lock_exclusive 2 [1; 2]%Z [0; 0]%Z sample_trace c _ Hr))).
  vm_compute. reflexivity.
Defined.

(** ** A page as a memory cell *)

(** The bytes a read was called for. *)
Definition asked (pc : Pc) : option (list nat) :=
  match pc with
  | ReadLoad ps | ReadClearMark _ ps => Some ps
  | Reading _ _ got ps => Some (got.*1 ++ ps)
  | ReadDone got _ => Some got.*1
  | PinLoad (Reader ps) | PinTry _ (Reader ps) | PinClaim (Reader ps) | PinClear (Reader ps)
  | PinRead _ (Reader ps) | PinInsert _ (Reader ps) | Pinned _ (Reader ps) | UnpinStore _ (Reader ps) => Some ps
  | _ => None
  end.

Lemma step_asked n l s pc s' pc' hs ps :
  (n < 2 ^ 55)%Z → lock_ok n (word s) hs → local_ok pc' → step l s pc = Some (s', pc') → asked pc = Some ps →
  asked pc' = Some ps ∨ (l = Return ∧ pc' = Idle) ∨ (l = Refuse ∧ (pc' = PinRefused ∨ phase pc' ≠ None)).
Proof.
  intros Hn Hl Hloc Hstep Ha. destruct pc; try discriminate Ha; destruct l; try discriminate Hstep; cbn [step] in Hstep;
    unfold on_word, pin_load, read_load in Hstep; repeat case_match; try discriminate Hstep; try discriminate Ha;
    injection Hstep as <- <-; try contradiction; subst; cbn [asked] in *; auto;
    try (rewrite app_nil_r in Ha; auto); try (right; right; split; [reflexivity|]; auto; right; discriminate).
  left. rewrite fmap_app, <- app_assoc. exact Ha.
Qed.

(** A read that returns has read the page. *)
Lemma reader_done n l c c' t pc s' got since :
  (n < 2 ^ 55)%Z → page_inv n c → c.2 !! t = Some pc → step l c.1 pc = Some (s', ReadDone got since) →
  c' = (s', <[t := ReadDone got since]> c.2) → evictions c'.1 = since → got = map (λ p, (p, byte p (content c'))) got.*1.
Proof.
  intros Hn [[Hl Hloc] Hc Hr] Ht Hstep Heq Hs.
  assert (Hpc : pc = Reading (word c.1) since got [] ∧ s' = c.1).
  { destruct pc; destruct l; try discriminate Hstep; cbn [step] in Hstep; unfold on_word, pin_load, read_load in Hstep;
      repeat case_match; try discriminate Hstep; injection Hstep as <- <- <-. apply Z.eqb_eq in H0. subst. auto. }
  destruct Hpc as [-> ->]. rewrite Forall_lookup in Hloc. pose proof (Hloc t _ Ht) as Hst. cbn [local_ok] in Hst.
  assert (Hh : holders c = []) by (apply (not_locked_free n (word c.1) _ Hn Hl); rewrite Hst; discriminate).
  destruct (Hr t _ _ _ _ Ht) as [_ H2]. subst c'. cbn [fst] in Hs. destruct (H2 Hs) as (_ & _ & H3). rewrite Hh in H3.
  assert (Hcont : content (c.1, <[t := ReadDone got since]> c.2) = frame c.1); [|rewrite Hcont; apply H3; [reflexivity|exact I]].
  destruct (holders_split c.2 t _ Ht) as (l1 & l2 & Hhs & Hhs'). unfold content, holders in *. cbn [fst snd]. rewrite Hhs'.
  cbn [phase option_list] in Hhs. cbn [phase option_list]. rewrite <- Hhs, Hh. cbn [content_of]. rewrite Hst. reflexivity.
Qed.

(** C3. A page is a memory cell. In an execution in which the callers keep to the rules (they write within
    the page and set it dirty before they unpin it), the content of the page - what is in its frame,
    or in the file when it is not in memory - starts as the file's and changes only when the thread
    that has pinned the page writes to it, or pins it without reading it. A thread that has pinned the
    page sees the content in the frame, and an optimistic read that returns without the page having
    been evicted meanwhile returns bytes of the content at this moment. Evictions and reloads lose
    nothing. *)
Theorem page_refines_memory n page old tr c t l c' :
  length old = length page → (Z.of_nat (length tr) + 1 < 2 ^ 55)%Z →
  legal_run tr (initial n page old) = true → run tr (initial n page old) = Some c →
  legal t l c = true → exec t l c = Some c' →
  content (initial n page old) = page ∧
  ∃ pc pc', c.2 !! t = Some pc ∧ c'.2 !! t = Some pc' ∧
    content c' = page_step c.1 pc l (content c) ∧
    (∀ u wrote why, c'.2 !! u = Some (Pinned wrote why) → frame c'.1 = content c') ∧
    (∀ ps, asked pc = Some ps → asked pc' = Some ps ∨ l = Return ∨ l = Refuse) ∧
    (∀ got since, pc' = ReadDone got since → evictions c'.1 = since → got = map (λ p, (p, byte p (content c'))) got.*1).
Proof.
  intros Hlen Hn Hlr Hr Hl He. pose proof (initial_page n page old Hlen) as Hi.
  pose proof (run_page tr 0 _ c ltac:(lia) ltac:(lia) Hi Hlr Hr) as Hc. set (m := (0 + Z.of_nat (length tr))%Z) in *.
  assert (Hm : (m + 1 < 2 ^ 55)%Z) by lia. destruct (exec_page m t l c c' Hm ltac:(lia) Hc Hl He) as [Hc' (pc & Ht & Hcont)].
  split.
  { unfold content, holders. cbn [initial fst snd]. replace (omap phase (replicate n Idle)) with (@nil Phase).
    - cbn [content_of word]. rewrite getState_new. reflexivity.
    - clear. induction n; [reflexivity|assumption]. }
  pose proof He as (pc0 & s' & pc' & Ht0 & Hstep & Heq)%exec_inv. rewrite Ht in Ht0. injection Ht0 as <-.
  assert (Ht' : c'.2 !! t = Some pc').
  { rewrite Heq. apply list_lookup_insert_eq. apply lookup_lt_Some in Ht. exact Ht. }
  destruct (pv_lock _ _ Hc') as [Hlock' Hloc'].
  exists pc, pc'. split; [exact Ht|]. split; [exact Ht'|]. split; [exact Hcont|]. split; [|split].
  - intros u wrote why Hu. unfold content. destruct (holders_split c'.2 u _ Hu) as (l1 & l2 & Hh & _).
    unfold holders in *. rewrite Hh in *. destruct (lock_ok_holder _ _ _ _ _ Hlock') as [-> ->]. reflexivity.
  - intros ps Ha. rewrite Forall_lookup in Hloc'. destruct (pv_lock _ _ Hc) as [Hlock _].
    destruct (step_asked m l c.1 pc s' pc' _ ps ltac:(lia) Hlock (Hloc' t pc' Ht') Hstep Ha) as [H|[[H _]|[H _]]]; auto.
  - intros got since -> Hs. apply (reader_done m l c c' t pc s' got since); auto; lia.
Qed.

Lemma page_refines_memory_witness :
  ∃ c', run (sample_trace ++ [(0, Run); (0, Run)]) (initial 2 [1; 2]%Z [0; 0]%Z) = Some c' ∧
    c'.2 !! 0 = Some (ReadDone [(0, 10%Z); (1, 20%Z)] 0) ∧ content c' = [10; 20]%Z.
Proof.
  destruct (run (sample_trace ++ [(0, Run)]) (initial 2 [1; 2]%Z [0; 0]%Z)) as [c|] eqn:Hr; [|vm_compute in Hr; discriminate Hr].
  destruct (exec 0 Run c) as [c'|] eqn:He; [|vm_compute in Hr; injection Hr as <-; discriminate He].
  exists c'. assert (Hc' : run (sample_trace ++ [(0, Run); (0, Run)]) (initial 2 [1; 2]%Z [0; 0]%Z) = Some c').
  { vm_compute in Hr. injection Hr as <-. rewrite <- He. vm_compute. reflexivity. }
  split; [exact Hc'|].
  destruct (page_refines_memory 2 [1; 2]%Z [0; 0]%Z (sample_trace ++ [(0, Run)]) c 0 Run c') as [_ (pc & pc' & H1 & H2 & H3 & _)];
    [reflexivity|vm_compute; reflexivity|vm_compute; reflexivity|exact Hr| |exact He|].
  - vm_compute in Hr. injection Hr as <-. reflexivity.
  - rewrite H3. vm_compute in Hc'. injection Hc' as <-. split; [reflexivity|].
    vm_compute in Hr. injection Hr as <-. vm_compute in H1. injection H1 as <-. vm_compute. reflexivity.
Defined.

(** The condition on evictions is needed: evicting a page sets its version back to 0, so after the page is
    loaded and written again its word can be the one a reader saw before. The read then returns bytes
    of both contents. *)
Lemma read_across_eviction_torn :
  ∃ tr c, legal_run tr (initial 2 [1; 2]%Z [0; 0]%Z) = true ∧ run tr (initial 2 [1; 2]%Z [0; 0]%Z) = Some c ∧
    c.2 !! 0 = Some (ReadDone [(0, 10%Z); (1, 40%Z)] 0) ∧ content c = [30; 40]%Z.
Proof.
  exists (sample_trace ++ evict_page 1 ++ pin_page 1 ++ write_page 1 30 40 ++ [(0, Run); (0, Run)]).
  eexists. split; [vm_compute; reflexivity|]. split; [vm_compute; reflexivity|]. split; reflexivity.
Qed.

(** ** A thread that runs alone *)

(** The steps of one thread. *)
Fixpoint solo (k : nat) (s : Shared) (pc : Pc) : option (Shared * Pc) :=
  match k with
  | 0 => Some (s, pc)
  | S k' => match step Run s pc with Some (s', pc') => solo k' s' pc' | None => None end
  end.

Lemma solo_run k : ∀ s pc s' pc' t pcs,
  solo k s pc = Some (s', pc') → pcs !! t = Some pc → run (replicate k (t, Run)) (s, pcs) = Some (s', <[t := pc']> pcs).
Proof.
  induction k as [|k IH]; intros s pc s' pc' t pcs Hs Ht; cbn [solo replicate run] in *.
  - injection Hs as <- <-. rewrite list_insert_id by exact Ht. reflexivity.
  - unfold exec. cbn [fst snd]. rewrite Ht. destruct (step Run s pc) as [[s1 pc1]|]; [|discriminate]. cbn.
    rewrite (IH s1 pc1 s' pc' t (<[t := pc1]> pcs) Hs) by (apply list_lookup_insert_eq; apply lookup_lt_Some in Ht; exact Ht).
    rewrite list_insert_insert_eq. reflexivity.
Qed.

Lemma solo_trans j k s pc s1 pc1 s2 pc2 :
  solo j s pc = Some (s1, pc1) → solo k s1 pc1 = Some (s2, pc2) → solo (j + k) s pc = Some (s2, pc2).
Proof.
  revert s pc. induction j as [|j IH]; intros s pc H1 H2; cbn [solo Nat.add] in *.
  - injection H1 as -> ->. exact H2.
  - destruct (step Run s pc) as [[s' pc']|]; [|discriminate]. exact (IH s' pc' H1 H2).
Qed.

Lemma solo_reading s e got ps :
  solo (S (length ps)) s (Reading (word s) e got ps) = Some (s, ReadDone (got ++ map (λ p, (p, byte p (frame s))) ps) e).
Proof.
  revert got. induction ps as [|p ps IH]; intros got; cbn [length solo step map].
  - rewrite Z.eqb_refl, app_nil_r. reflexivity.
  - specialize (IH (got ++ [(p, byte p (frame s))])). cbn [solo step] in IH. rewrite <- app_assoc in IH. exact IH.
Qed.

Lemma solo_read_unlocked s ps :
  getState (word s) = UNLOCKED →
  solo (S (S (length ps))) s (ReadLoad ps) = Some (s, ReadDone (map (λ p, (p, byte p (frame s))) ps) (evictions s)).
Proof.
  intros Hg. change (S (S (length ps))) with (1 + S (length ps)). eapply solo_trans; [|apply (solo_reading s (evictions s) [] ps)].
  cbn [solo step]. unfold read_load. rewrite Hg. reflexivity.
Qed.

(** The page is read from the file, byte by byte. *)
Lemma solo_copy k : ∀ s i why,
  length (frame s) = length (disk s) → take i (frame s) = take i (disk s) → i + k = length (disk s) →
  solo (S k) s (PinRead i why) = Some (set_frame (disk s) s, PinInsert false why).
Proof.
  induction k as [|k IH]; intros s i why Hl Ht Hi.
  - cbn [solo step]. rewrite (proj2 (Nat.ltb_ge _ _)) by lia. rewrite !take_ge in Ht by lia. rewrite <- Ht. destruct s; reflexivity.
  - change (S (S k)) with (1 + S k). eapply (solo_trans 1).
    + cbn [solo step]. rewrite (proj2 (Nat.ltb_lt _ _)) by lia. reflexivity.
    + rewrite (IH (set_frame (<[i := byte i (disk s)]> (frame s)) s) (S i) why); cbn [frame disk set_frame]; [reflexivity| | |lia].
      * rewrite length_insert. exact Hl.
      * apply copy_byte; [exact Hl|lia|exact Ht].
Qed.

(** Loading a page that is not in memory, for any reason that reads it. *)
Lemma solo_load s why :
  word s = pack EVICTED false 0 → length (frame s) = length (disk s) → (∀ b, why = Caller b → b = true) →
  solo (6 + length (disk s)) s (PinLoad why) = Some (set_word (pack LOCKED false 0) (set_frame (disk s) s), Pinned false why).
Proof.
  intros Hw Hl Hwhy. assert (Hs : ∀ st, is_lock_state st → is_state st) by exact lock_state_ok.
  assert (H0 : is_version 0) by (unfold is_version; lia).
  assert (He : is_state EVICTED) by (unfold is_state, EVICTED; lia). assert (HL : is_state LOCKED) by (unfold is_state, LOCKED; lia).
  assert (Hg : getState (word s) = EVICTED) by (rewrite Hw; apply getState_pack; assumption).
  set (s1 := set_word (pack LOCKED false 0) s).
  assert (H1 : solo 4 s (PinLoad why) = Some (s1, PinRead 0 why)).
  { cbn [solo step]. unfold pin_load. rewrite Hg. cbn [orb Z.eqb EVICTED Pos.eqb solo step]. unfold on_word, tryLock, compare_exchange_strong.
    rewrite Z.eqb_refl, Hg. cbn [negb Z.eqb EVICTED Pos.eqb step]. rewrite Hw, updateStateWithSameVersion_pack by assumption.
    unfold on_word, clearDirty, clearDirtyWithoutLock. cbn [word set_word]. unfold_M. rewrite getState_pack, Z.eqb_refl by assumption. cbv beta iota.
    rewrite clearDirty_pack by assumption. destruct why as [[|]|ps]; [reflexivity| |reflexivity]. specialize (Hwhy false eq_refl). discriminate. }
  pose proof (solo_copy (length (disk s1)) s1 0 why Hl eq_refl eq_refl) as H2. cbn [disk set_word s1] in H2.
  change (6 + length (disk s)) with (4 + (1 + (1 + length (disk s)))). apply (solo_trans 4 _ _ _ _ _ _ _ H1).
  replace (1 + (1 + length (disk s))) with (S (length (disk s)) + 1) by lia. apply (solo_trans _ 1 _ _ _ _ _ _ H2). reflexivity.
Qed.

Lemma solo_read n s ps :
  (n < 2 ^ 55)%Z → lock_ok n (word s) [] → content_ok s [] →
  ∃ k s', solo k s (ReadLoad ps) = Some (s', ReadDone (map (λ p, (p, byte p (content_of s []))) ps) (evictions s')) ∧
    content_of s' [] = content_of s [].
Proof.
  intros Hn Hl [Hlen _]. destruct (lock_ok_free n (word s) Hn Hl) as (st & d & v & Hw & _ & Hv & Hst & Hne & He & _ & Hg).
  cbn [content_of]. rewrite Hg. assert (Hcases : st = UNLOCKED ∨ st = MARKED ∨ st = EVICTED).
  { unfold is_lock_state, LOCKED, UNLOCKED, MARKED, EVICTED in *. lia. }
  destruct Hcases as [->|[->| ->]].
  - eexists _, s. split; [apply solo_read_unlocked, Hg|]. rewrite Hg. reflexivity.
  - destruct (retag_keeps n (word s) UNLOCKED Hn Hl ltac:(unfold is_lock_state, UNLOCKED; lia)) as (Hg' & _ & _).
    set (s1 := set_word (updateStateWithSameVersion (word s) UNLOCKED) s).
    exists (2 + S (S (length ps))), s1. split.
    + eapply (solo_trans 2); [|apply (solo_read_unlocked s1 ps Hg')].
      cbn [solo step]. unfold read_load. rewrite Hg. cbn [Z.eqb UNLOCKED MARKED Pos.eqb]. cbn [solo step]. unfold on_word, tryClearMark.
      rewrite Hg. unfold_M. unfold compare_exchange_strong. rewrite !Z.eqb_refl. reflexivity.
    + cbn [s1 word set_word frame disk]. rewrite Hg'. reflexivity.
  - destruct (He eq_refl) as [-> ->]. set (s1 := set_word (pack UNLOCKED false 1) (set_frame (disk s) s)).
    assert (Hg1 : getState (word s1) = UNLOCKED) by (apply getState_pack; unfold is_state, is_version, UNLOCKED; lia).
    exists (1 + (6 + length (disk s) + (2 + S (S (length ps))))), s1. split.
    + eapply (solo_trans 1); [cbn [solo step]; unfold read_load; rewrite Hg; reflexivity|].
      eapply solo_trans; [apply (solo_load s (Reader ps) Hw Hlen); intros b H; discriminate H|].
      eapply (solo_trans 2); [|apply (solo_read_unlocked s1 ps Hg1)]. cbn [solo step word set_word].
      rewrite updateStateAndIncrementVersion_pack by (unfold is_state, is_version, LOCKED, UNLOCKED; lia). reflexivity.
    + rewrite Hg1. reflexivity.
Qed.

(** C21. A reader makes progress on its own. From every reachable state in which no thread holds the page
    (whatever other threads are in the middle of), a thread that calls [optimisticRead] and runs
    without interference returns after finitely many steps, with the bytes it asked for, provided that
    memory can be reserved when the page has to be loaded; reading does not change the page. *)
Theorem read_returns_alone n page old tr c t ps :
  length old = length page → (Z.of_nat (length tr) < 2 ^ 55)%Z →
  legal_run tr (initial n page old) = true → run tr (initial n page old) = Some c →
  holders c = [] → c.2 !! t = Some Idle →
  ∃ k c' since, run ((t, CallRead ps) :: replicate k (t, Run)) c = Some c' ∧
    c'.2 !! t = Some (ReadDone (map (λ p, (p, byte p (content c))) ps) since) ∧ content c' = content c.
Proof.
  intros Hlen Hn Hlr Hr Hh Ht. pose proof (initial_page n page old Hlen) as Hi.
  destruct (run_page tr 0 _ c ltac:(lia) ltac:(lia) Hi Hlr Hr) as [[Hl _] Hc _]. rewrite Hh in *.
  destruct (solo_read (0 + Z.of_nat (length tr)) c.1 ps ltac:(lia) Hl Hc) as (k & s' & Hsolo & Hcont). destruct c as [s pcs]. cbn [fst snd] in *.
  assert (Htl : t < length pcs) by (apply lookup_lt_Some in Ht; exact Ht).
  assert (Hsame : ∀ pc, phase pc = None → omap phase (<[t := pc]> pcs) = []).
  { intros pc Hp. destruct (holders_split pcs t Idle Ht) as (l1 & l2 & H1 & H2). rewrite H2, Hp. unfold holders in Hh. cbn [snd] in Hh.
    rewrite Hh in H1. symmetry. exact H1. }
  eexists k, (s', <[t := ReadDone _ _]> pcs), _. split; [|split].
  - cbn [run]. unfold exec. cbn [fst snd]. rewrite Ht. cbn [step]. cbn [mbind option_bind].
    rewrite (solo_run k s (ReadLoad ps) s' _ t (<[t := ReadLoad ps]> pcs) Hsolo) by (apply list_lookup_insert_eq; exact Htl).
    rewrite list_insert_insert_eq. reflexivity.
  - cbn [snd]. rewrite list_lookup_insert_eq by exact Htl. unfold content. cbn [fst]. rewrite Hh. reflexivity.
  - unfold content, holders in *. cbn [fst snd] in *. rewrite Hsame, Hh by reflexivity. exact Hcont.
Qed.

Lemma read_returns_alone_witness :
  ∃ c k c' since, run (pin_page 1 ++ write_page 1 10 20 ++ evict_page 1) (initial 2 [1; 2]%Z [0; 0]%Z) = Some c ∧
    run ((0, CallRead [1]) :: replicate k (0, Run)) c = Some c' ∧ c'.2 !! 0 = Some (ReadDone [(1, 20%Z)] since).
Proof.
  destruct (run (pin_page 1 ++ write_page 1 10 20 ++ evict_page 1) (initial 2 [1; 2]%Z [0; 0]%Z)) as [c|] eqn:Hr;
    [|vm_compute in Hr; discriminate Hr].
  exists c. destruct (read_returns_alone 2 [1; 2]%Z [0; 0]%Z (pin_page 1 ++ write_page 1 10 20 ++ evict_page 1) c 0 [1])
    as (k & c' & since & H1 & H2 & _); [reflexivity|vm_compute; reflexivity|vm_compute; reflexivity|exact Hr| | |].
  - vm_compute in Hr. injection Hr as <-. reflexivity.
  - vm_compute in Hr. injection Hr as <-. reflexivity.
  - exists k, c', since. split; [reflexivity|]. split; [exact H1|]. rewrite H2. vm_compute in Hr. injection Hr as <-. vm_compute. reflexivity.
Defined.
