(* ===== verification/BufferManager.v ===== *)
(** * The buffer manager

    storage/buffer_manager/buffer_manager.{h,cpp}, storage/buffer_manager/vm_region.cpp and the pages of
    storage/file_handle.{h,cpp}: which pages are in memory, in which frames, what memory they take and
    which of them make room for others. One thread at a time; the accesses of several threads to one
    page are in [PageProtocol]. *)

From stdpp Require Import base numbers list gmap strings.
From Stdlib Require Import ZArith Lia.
From S2P Require Import Prelude PageState PageProtocol BufferedFile.
Import FileInfo.

(** ** The queue of eviction candidates *)

Module EvictionQueue.

Definition INVALID_IDX : Z := 4294967295%Z.

Record EvictionCandidate := MkCandidate { fileIdx : Z; pageIdx : Z }.
#[global] Instance candidate_eq_dec : EqDecision EvictionCandidate.
Proof. solve_decision. Defined.

Definition EMPTY : EvictionCandidate := MkCandidate INVALID_IDX INVALID_IDX.
Definition BATCH_SIZE : nat := 64.

Record EvictionQueue := MkQueue {
  insertCursor : Z;
  evictionCursor : Z;
  size : nat;
  capacity : nat;
  data : list EvictionCandidate;
}.

(** The capacity is rounded up to a multiple of the batch size. *)
Definition EvictionQueue_new (requested : nat) : EvictionQueue :=
  let capacity := requested + (BATCH_SIZE - requested mod BATCH_SIZE) in
  MkQueue 0 0 0 capacity (replicate capacity EMPTY).

(** The slot of a cursor; cursors are [uint64_t]. *)
Definition slot (cursor : Z) (q : EvictionQueue) : nat := Z.to_nat (cursor mod Z.of_nat (capacity q)).

(** [EvictionQueue::insert]; the compare-and-swap does not fail spuriously. The cursor passes every slot
    within twice the capacity, also when it wraps around. *)
Fixpoint insert_loop (fuel : nat) (candidate : EvictionCandidate) (q : EvictionQueue) : option bool * EvictionQueue :=
  if size q <? capacity q then
    match fuel with
    | 0 => (None, q)
    | S fuel' =>
        let i := slot (insertCursor q) q in
        let q := MkQueue (uwrap 64 (insertCursor q + 1)) (evictionCursor q) (size q) (capacity q) (data q) in
        match data q !! i with
        | Some c =>
            if decide (c = EMPTY)
            then (Some true, MkQueue (insertCursor q) (evictionCursor q) (S (size q)) (capacity q) (<[i := candidate]> (data q)))
            else insert_loop fuel' candidate q
        | None => (None, q)
        end
    end
  else (Some false, q).
Definition insert (fileIndex pageIndex : Z) : M EvictionQueue bool := λ q,
  match insert_loop (2 * capacity q) (MkCandidate fileIndex pageIndex) q with
  | (Some b, q') => (Ok b, q')
  | (None, q') => (Throw (UndefinedBehaviour "the loop does not end"), q')
  end.

(** [EvictionQueue::next]: the first slot of the next batch. *)
Definition next : M EvictionQueue nat := λ q,
  let q := MkQueue (insertCursor q) (uwrap 64 (evictionCursor q + Z.of_nat BATCH_SIZE)) (size q) (capacity q) (data q) in
  (Ok (slot (evictionCursor q) q), q).

(** [EvictionQueue::clear] *)
Definition clear (i : nat) : M EvictionQueue unit := λ q,
  match data q !! i with
  | None => (Throw (UndefinedBehaviour "no such slot"), q)
  | Some c =>
      if decide (c = EMPTY) then (Throw assert_failure, q)
      else (Ok tt, MkQueue (insertCursor q) (evictionCursor q) (size q - 1) (capacity q) (<[i := EMPTY]> (data q)))
  end.
End EvictionQueue.

Module BufferManager.
Import PageState EvictionQueue.

(** ** Frames *)

(** [TEMP_PAGE_SIZE_LOG2], [TEMP_PAGE_SIZE], [StorageConstants::PAGE_GROUP_SIZE_LOG2] *)
Definition TEMP_PAGE_SIZE_LOG2 : Z := 18%Z.
Definition TEMP_PAGE_SIZE : nat := Z.to_nat (2 ^ 18).
Definition PAGE_GROUP_SIZE_LOG2 : Z := 10%Z.
Definition PAGE_GROUP_SIZE : nat := Z.to_nat (2 ^ 10).
#[global] Arguments TEMP_PAGE_SIZE : simpl never.
#[global] Arguments PAGE_GROUP_SIZE : simpl never.

(** A region of virtual memory: frames of one size, in groups; a frame that is not in [memory] is all
    zeros and takes no memory. *)
Record VMRegion := MkVMRegion {
  frameSize : Z;
  numFrameGroups : nat;
  maxNumFrameGroups : nat;
  memory : gmap nat (list Z);
}.

Definition VMRegion_new (frameSize maxRegionSize : Z) : VMRegion :=
  let numBytesForFrameGroup := (frameSize * 2 ^ PAGE_GROUP_SIZE_LOG2)%Z in
  MkVMRegion frameSize 0 (Z.to_nat ((maxRegionSize + numBytesForFrameGroup - 1) / numBytesForFrameGroup)) ∅.

Definition addNewFrameGroup : M VMRegion nat := λ r,
  if maxNumFrameGroups r <=? numFrameGroups r
  then (Throw (BufferManagerException "No more frame groups can be added to the allocator."), r)
  else (Ok (numFrameGroups r), MkVMRegion (frameSize r) (S (numFrameGroups r)) (maxNumFrameGroups r) (memory r)).

(** [VMRegion::getFrame] as the bytes there; [releaseFrame] gives the memory back. *)
Definition frame_bytes (frameIdx : nat) (r : VMRegion) : list Z := default (replicate (Z.to_nat (frameSize r)) 0%Z) (memory r !! frameIdx).
Definition write_frame (frameIdx : nat) (bytes : list Z) (r : VMRegion) : VMRegion :=
  MkVMRegion (frameSize r) (numFrameGroups r) (maxNumFrameGroups r) (<[frameIdx := bytes]> (memory r)).
Definition releaseFrame (frameIdx : nat) (r : VMRegion) : VMRegion :=
  MkVMRegion (frameSize r) (numFrameGroups r) (maxNumFrameGroups r) (delete frameIdx (memory r)).

(** ** Files *)

Record FileHandle := MkFileHandle {
  isLargePaged : bool;
  isNewTmpFile : bool;
  numPages : nat;
  pageCapacity : nat;
  pageStates : list Z;
  frameGroupIdxes : list nat;
  fileInfo : FileInfo;
}.

Definition isInMemoryMode (fh : FileHandle) : bool := negb (isLargePaged fh) && isNewTmpFile fh.
Definition getPageSize (fh : FileHandle) : nat := if isLargePaged fh then TEMP_PAGE_SIZE else KUZU_PAGE_SIZE.
(** [FileHandle::getPageSizeClass]: whether the frames are of the region for temporary pages. *)
Definition isTempPage (fh : FileHandle) : bool := isNewTmpFile fh && isLargePaged fh.
Definition getNumPageGroups (fh : FileHandle) : nat := (numPages fh + PAGE_GROUP_SIZE - 1) / PAGE_GROUP_SIZE.

(** [FileHandle::getFrameIdx] *)
Definition getFrameIdx (pageIdx : nat) (fh : FileHandle) : outcome nat :=
  ku_assert_o (pageIdx <? pageCapacity fh) ;;
  match frameGroupIdxes fh !! Z.to_nat (Z.shiftr (Z.of_nat pageIdx) PAGE_GROUP_SIZE_LOG2) with
  | None => Throw (UndefinedBehaviour "no such frame group")
  | Some group =>
      Ok (Z.to_nat (Z.lor (Z.shiftl (Z.of_nat group) PAGE_GROUP_SIZE_LOG2)
                          (Z.land (Z.of_nat pageIdx) (2 ^ PAGE_GROUP_SIZE_LOG2 - 1))))
  end.

(** ** The state *)

Record BufferManager := MkBufferManager {
  bufferPoolSize : Z;
  evictionQueue : EvictionQueue;
  usedMemory : Z;
  nonEvictableMemory : Z;
  regularRegion : VMRegion;
  tempRegion : VMRegion;
  fileHandles : list FileHandle;
}.

(** [BufferManager::verifySizeParams] and the constructor; an [EvictionCandidate] has 8 bytes. *)
Definition verifySizeParams (bufferPoolSize maxDBSize : Z) : outcome unit :=
  if (bufferPoolSize <? Z.of_nat KUZU_PAGE_SIZE)%Z
  then Throw (BufferManagerException "The given buffer pool size should be at least 4096 bytes.")
  else if (maxDBSize <? 2 * Z.of_nat KUZU_PAGE_SIZE * Z.of_nat PAGE_GROUP_SIZE)%Z
  then Throw (BufferManagerException "The given max db size should be at least 8388608 bytes.")
  else if negb (Z.land maxDBSize (maxDBSize - 1) =? 0)%Z
  then Throw (BufferManagerException "The given max db size should be a power of 2.")
  else Ok tt.

Definition BufferManager_new (poolSize maxDBSize : Z) : outcome BufferManager :=
  let q := EvictionQueue_new (Z.to_nat (poolSize / Z.of_nat KUZU_PAGE_SIZE)) in
  verifySizeParams poolSize maxDBSize ;;
  Ok (MkBufferManager poolSize q (Z.of_nat (capacity q * 8)) 0
        (VMRegion_new (Z.of_nat KUZU_PAGE_SIZE) maxDBSize) (VMRegion_new (2 ^ TEMP_PAGE_SIZE_LOG2) poolSize) []).

Definition set_queue (q : EvictionQueue) (b : BufferManager) : BufferManager :=
  MkBufferManager (bufferPoolSize b) q (usedMemory b) (nonEvictableMemory b) (regularRegion b) (tempRegion b) (fileHandles b).
Definition set_used (u : Z) (b : BufferManager) : BufferManager :=
  MkBufferManager (bufferPoolSize b) (evictionQueue b) u (nonEvictableMemory b) (regularRegion b) (tempRegion b) (fileHandles b).
Definition set_nonEvictable (u : Z) (b : BufferManager) : BufferManager :=
  MkBufferManager (bufferPoolSize b) (evictionQueue b) (usedMemory b) u (regularRegion b) (tempRegion b) (fileHandles b).
Definition set_handles (fhs : list FileHandle) (b : BufferManager) : BufferManager :=
  MkBufferManager (bufferPoolSize b) (evictionQueue b) (usedMemory b) (nonEvictableMemory b) (regularRegion b) (tempRegion b) fhs.
Definition set_pageStates (l : list Z) (fh : FileHandle) : FileHandle :=
  MkFileHandle (isLargePaged fh) (isNewTmpFile fh) (numPages fh) (pageCapacity fh) l (frameGroupIdxes fh) (fileInfo fh).
Definition set_fileInfo (i : FileInfo) (fh : FileHandle) : FileHandle :=
  MkFileHandle (isLargePaged fh) (isNewTmpFile fh) (numPages fh) (pageCapacity fh) (pageStates fh) (frameGroupIdxes fh) i.
Definition region (temp : bool) (b : BufferManager) : VMRegion := if temp then tempRegion b else regularRegion b.
Definition set_region (temp : bool) (r : VMRegion) (b : BufferManager) : BufferManager :=
  if temp
  then MkBufferManager (bufferPoolSize b) (evictionQueue b) (usedMemory b) (nonEvictableMemory b) (regularRegion b) r (fileHandles b)
  else MkBufferManager (bufferPoolSize b) (evictionQueue b) (usedMemory b) (nonEvictableMemory b) r (tempRegion b) (fileHandles b).

(** A file, the word of a page, the queue: operations on them as operations of the manager. *)
Definition get_handle (f : nat) : M BufferManager FileHandle :=
  observe (λ b, match fileHandles b !! f with Some fh => Ok fh | None => Throw (UndefinedBehaviour "no such file") end).
Definition set_handle (f : nat) (fh : FileHandle) : M BufferManager unit :=
  modify (λ b, set_handles (<[f := fh]> (fileHandles b)) b).
Definition on_state {A} (f p : nat) (m : M Z A) : M BufferManager A :=
  fh ← get_handle f;
  match pageStates fh !! p with
  | None => raise (UndefinedBehaviour "no such page")
  | Some w =>
      let '(o, w') := m w in
      set_handle f (set_pageStates (<[p := w']> (pageStates fh)) fh) ;;
      match o with Ok a => mret a | Throw e => raise e end
  end.
Definition on_queue {A} (m : M EvictionQueue A) : M BufferManager A := λ b,
  let '(o, q) := m (evictionQueue b) in (o, set_queue q b).

(** [BufferManager::getFrame], and writing to it. *)
Definition getFrame (f p : nat) : M BufferManager (list Z) :=
  fh ← get_handle f;
  match getFrameIdx p fh with
  | Throw e => raise e
  | Ok i => observe (λ b, Ok (frame_bytes i (region (isTempPage fh) b)))
  end.
Definition on_frame (f p : nat) (g : nat → VMRegion → VMRegion) : M BufferManager unit :=
  fh ← get_handle f;
  match getFrameIdx p fh with
  | Throw e => raise e
  | Ok i => modify (λ b, set_region (isTempPage fh) (g i (region (isTempPage fh) b)) b)
  end.
Definition setFrame (f p : nat) (bytes : list Z) : M BufferManager unit := on_frame f p (λ i, write_frame i bytes).
Definition releaseFrameForPage (f p : nat) : M BufferManager unit := on_frame f p releaseFrame.

Definition freeUsedMemory (n : Z) : M BufferManager unit :=
  b ← get_state;
  ku_assert (n <=? usedMemory b)%Z ;;
  modify (λ b, set_used (uwrap 64 (usedMemory b - n)) b).

Section Operations.
(** Whether the build checks assertions when it reads a file. *)
Context (checked : bool).
(** [Spiller::claimNextGroup], if there is a spiller: the memory it claimed and the memory that has become
    evictable. *)
Context (spiller : option (M BufferManager (Z * Z))).

(** ** Eviction *)

(** [FileHandle::flushPageIfDirtyWithoutLock] *)
Definition flushPageIfDirtyWithoutLock (f p : nat) : M BufferManager unit :=
  fh ← get_handle f;
  w ← on_state f p get_state;
  if negb (isInMemoryMode fh) && isDirty w then
    ku_assert (p <? numPages fh) ;;
    bytes ← getFrame f p;
    set_handle f (set_fileInfo (writeFile bytes (p * getPageSize fh) (fileInfo fh)) fh) ;;
    on_state f p clearDirtyWithoutLock
  else mret tt.

(** [BufferManager::tryEvictPage] on slot [i] of the queue. *)
Definition tryEvictPage (i : nat) : M BufferManager Z :=
  b ← get_state;
  match data (evictionQueue b) !! i with
  | None => raise (UndefinedBehaviour "no such slot")
  | Some candidate =>
      if (pageIdx candidate =? INVALID_IDX)%Z then mret 0%Z
      else
        let f := Z.to_nat (fileIdx candidate) in
        let p := Z.to_nat (pageIdx candidate) in
        currStateAndVersion ← on_state f p get_state;
        if negb (PageProtocol.isEvictable currStateAndVersion) then mret 0%Z
        else
          on_state f p (tryLock currStateAndVersion) ≫= λ locked : bool,
          if negb locked then mret 0%Z
          else
            fh ← get_handle f;
            if isInMemoryMode fh then mret 0%Z
            else
              flushPageIfDirtyWithoutLock f p ;;
              releaseFrameForPage f p ;;
              on_state f p resetToEvicted ;;
              on_queue (clear i) ;;
              mret (Z.of_nat (getPageSize fh))
  end.

(** [BufferManager::evictPages]: one candidate, one batch, the loop over batches. *)
Definition scan_slot (i : nat) : M BufferManager bool :=
  b ← get_state;
  match data (evictionQueue b) !! i with
  | None => raise (UndefinedBehaviour "no such slot")
  | Some candidate =>
      if decide (candidate = EMPTY) then mret false
      else
        ku_assert (fileIdx candidate <? Z.of_nat (length (fileHandles b)))%Z ;;
        let f := Z.to_nat (fileIdx candidate) in
        let p := Z.to_nat (pageIdx candidate) in
        pageStateAndVersion ← on_state f p get_state;
        if PageProtocol.isEvictable pageStateAndVersion then mret true
        else
          (if PageProtocol.isSecondChanceEvictable pageStateAndVersion
           then on_state f p (tryMark pageStateAndVersion) ;; mret tt else mret tt) ;;
          mret false
  end.

Fixpoint scan_slots (slots : list nat) : M BufferManager (list nat) :=
  match slots with
  | [] => mret []
  | i :: slots' =>
      evictable ← scan_slot i;
      rest ← scan_slots slots';
      mret (if evictable : bool then i :: rest else rest)
  end.

Fixpoint evict_loop (fuel : nat) (startCursor failureLimit : Z) : M BufferManager (list nat) :=
  cursor ← observe (λ b, Ok (evictionCursor (evictionQueue b)));
  if (uwrap 64 (cursor - startCursor) <? failureLimit)%Z then
    match fuel with
    | 0 => raise (UndefinedBehaviour "the loop does not end")
    | S fuel' =>
        start ← on_queue next;
        candidates ← scan_slots (seq start BATCH_SIZE);
        match candidates with
        | [] => evict_loop fuel' startCursor failureLimit
        | _ => mret candidates
        end
    end
  else mret [].

Fixpoint evict_all (slots : list nat) : M BufferManager Z :=
  match slots with
  | [] => mret 0%Z
  | i :: slots' =>
      n ← tryEvictPage i;
      m ← evict_all slots';
      mret (uwrap 64 (n + m))
  end.

(** Twice the capacity is two rounds over the queue, in batches. *)
Definition evictPages : M BufferManager Z :=
  b ← get_state;
  let q := evictionQueue b in
  candidates ← evict_loop (2 * capacity q / BATCH_SIZE) (evictionCursor q) (Z.of_nat (2 * capacity q));
  evict_all candidates.

(** [BufferManager::removeEvictedCandidates] *)
Definition remove_slot (i : nat) : M BufferManager unit :=
  b ← get_state;
  match data (evictionQueue b) !! i with
  | None => raise (UndefinedBehaviour "no such slot")
  | Some candidate =>
      if decide (candidate = EMPTY) then mret tt
      else
        ku_assert (fileIdx candidate <? Z.of_nat (length (fileHandles b)))%Z ;;
        w ← on_state (Z.to_nat (fileIdx candidate)) (Z.to_nat (pageIdx candidate)) get_state;
        if (getState w =? EVICTED)%Z then on_queue (clear i) else mret tt
  end.
Fixpoint remove_loop (fuel : nat) (startCursor : Z) : M BufferManager unit :=
  q ← observe (λ b, Ok (evictionQueue b));
  if (uwrap 64 (evictionCursor q - startCursor) <? Z.of_nat (capacity q))%Z then
    match fuel with
    | 0 => raise (UndefinedBehaviour "the loop does not end")
    | S fuel' =>
        start ← on_queue next;
        for_each (seq start BATCH_SIZE) remove_slot ;;
        remove_loop fuel' startCursor
    end
  else mret tt.
Definition removeEvictedCandidates : M BufferManager unit :=
  q ← observe (λ b, Ok (evictionQueue b));
  remove_loop (capacity q / BATCH_SIZE) (evictionCursor q).

(** ** Reserving memory *)

(** [needMoreMemory] *)
Definition needMoreMemory (sizeToReserve totalClaimedMemory : Z) (b : BufferManager) : bool :=
  (totalClaimedMemory <? sizeToReserve)%Z && (uwrap 64 (bufferPoolSize b - totalClaimedMemory) <? usedMemory b)%Z.

(** The loop of [BufferManager::reserve]; the result is whether there is enough memory, what has been claimed
    and what of it was not evictable. Every round that claims memory takes a candidate from the queue, and
    the third round that does not is the last. *)
Fixpoint reserve_loop (fuel : nat) (sizeToReserve totalClaimedMemory nonEvictableClaimedMemory : Z) (failedCount : nat) :
    M BufferManager (bool * Z * Z) :=
  b ← get_state;
  if needMoreMemory sizeToReserve totalClaimedMemory b then
    match fuel with
    | 0 => raise (UndefinedBehaviour "the loop does not end")
    | S fuel' =>
        claimed ←
          match spiller with
          | Some claimNextGroup =>
              if (Z.quot (bufferPoolSize b) 2 <? uwrap 64 (usedMemory b - nonEvictableMemory b))%Z
              then memoryClaimed ← evictPages; mret (memoryClaimed, nonEvictableClaimedMemory)
              else
                '(memoryClaimed, nowEvictableMemory) ← claimNextGroup;
                modify (λ b, set_nonEvictable (uwrap 64 (nonEvictableMemory b - nowEvictableMemory)) b) ;;
                let nonEvictable := uwrap 64 (nonEvictableClaimedMemory + memoryClaimed) in
                if (memoryClaimed =? 0)%Z || (0 <? nowEvictableMemory)%Z
                then memoryClaimed ← evictPages; mret (memoryClaimed, nonEvictable)
                else mret (memoryClaimed, nonEvictable)
          | None => memoryClaimed ← evictPages; mret (memoryClaimed, nonEvictableClaimedMemory)
          end;
        let '(memoryClaimed, nonEvictable) := claimed in
        b ← get_state;
        if (memoryClaimed =? 0)%Z && needMoreMemory sizeToReserve totalClaimedMemory b && negb (failedCount <? 2)
        then mret (false, totalClaimedMemory, nonEvictable)
        else
          let failedCount := if (memoryClaimed =? 0)%Z && needMoreMemory sizeToReserve totalClaimedMemory b then S failedCount else failedCount in
          reserve_loop fuel' sizeToReserve (uwrap 64 (totalClaimedMemory + memoryClaimed)) nonEvictable failedCount
    end
  else mret (true, totalClaimedMemory, nonEvictableClaimedMemory).

(** [BufferManager::reserve] *)
Definition reserve (sizeToReserve : Z) : M BufferManager bool :=
  modify (λ b, set_used (uwrap 64 (usedMemory b + sizeToReserve)) b) ;;
  b ← get_state;
  r ← reserve_loop (size (evictionQueue b) + 4) sizeToReserve 0 0 0;
  let '(enough, totalClaimedMemory, nonEvictableClaimedMemory) := r in
  if enough : bool then
    (if (0 <? totalClaimedMemory)%Z
     then freeUsedMemory totalClaimedMemory ;;
          modify (λ b, set_nonEvictable (uwrap 64 (nonEvictableMemory b - nonEvictableClaimedMemory)) b)
     else mret tt) ;;
    mret true
  else
    freeUsedMemory (uwrap 64 (sizeToReserve + totalClaimedMemory)) ;;
    modify (λ b, set_nonEvictable (uwrap 64 (nonEvictableMemory b - nonEvictableClaimedMemory)) b) ;;
    mret false.

(** ** Pages in frames *)

(** [FileHandle::readPageFromDisk]; the frame keeps what a short read leaves. *)
Definition readPageFromDisk (f p : nat) : M BufferManager unit :=
  fh ← get_handle f;
  ku_assert (negb (isInMemoryMode fh)) ;;
  ku_assert (p <? numPages fh) ;;
  old ← getFrame f p;
  match readFromFile checked (λ n, drop (getPageSize fh - n) old) (getPageSize fh) (p * getPageSize fh) (contents (fileInfo fh)) with
  | Ok bytes => setFrame f p bytes
  | Throw e => raise e
  end.

(** [BufferManager::cachePageIntoFrame], [claimAFrame] *)
Definition cachePageIntoFrame (f p : nat) (readPage : bool) : M BufferManager unit :=
  on_state f p clearDirty ;;
  if readPage then readPageFromDisk f p else mret tt.
Definition claimAFrame (f p : nat) (readPage : bool) : M BufferManager bool :=
  fh ← get_handle f;
  enough ← reserve (Z.of_nat (getPageSize fh));
  if enough : bool then cachePageIntoFrame f p readPage ;; mret true else mret false.

Definition no_memory : exn :=
  BufferManagerException "Unable to allocate memory! The buffer pool is full and no memory could be freed!".
Definition queue_full : exn := BufferManagerException "Eviction queue is full! This should be impossible.".

(** [BufferManager::pin] of one thread; it waits for ever for a page that is locked. *)
Definition pin (f p : nat) (readPage : bool) : M BufferManager (list Z) :=
  w ← on_state f p get_state;
  if (getState w =? EVICTED)%Z then
    on_state f p (tryLock w) ;;
    enough ← claimAFrame f p readPage;
    if enough : bool then
      inserted ← on_queue (insert (Z.of_nat f) (Z.of_nat p));
      if inserted : bool then getFrame f p else raise queue_full
    else on_state f p resetToEvicted ;; raise no_memory
  else if (getState w =? UNLOCKED)%Z || (getState w =? MARKED)%Z then
    on_state f p (tryLock w) ;;
    getFrame f p
  else raise (UndefinedBehaviour "the loop does not end").

(** [BufferManager::unpin] *)
Definition unpin (f p : nat) : M BufferManager unit := on_state f p unlock.

(** [BufferManager::optimisticRead] of one thread: the bytes it reads. *)
Definition optimisticRead (f p : nat) : M BufferManager (list Z) :=
  w ← on_state f p get_state;
  if (getState w =? UNLOCKED)%Z then getFrame f p
  else if (getState w =? MARKED)%Z then on_state f p (tryClearMark w) ;; getFrame f p
  else if (getState w =? EVICTED)%Z then pin f p true ;; unpin f p ;; getFrame f p
  else raise (UndefinedBehaviour "the loop does not end").

(** [BufferManager::removePageFromFrame] *)
Definition removePageFromFrame (f p : nat) (shouldFlush : bool) : M BufferManager unit :=
  fh ← get_handle f;
  w ← on_state f p get_state;
  if (getState w =? EVICTED)%Z then mret tt
  else
    on_state f p (spinLock w) ;;
    (if shouldFlush then flushPageIfDirtyWithoutLock f p else mret tt) ;;
    releaseFrameForPage f p ;;
    freeUsedMemory (Z.of_nat (getPageSize fh)) ;;
    on_state f p resetToEvicted.
(** [BufferManager::removePageFromFrameIfNecessary], [removeFilePagesFromFrames] *)
Definition removePageFromFrameIfNecessary (f p : nat) : M BufferManager unit :=
  fh ← get_handle f;
  if numPages fh <=? p then mret tt else removePageFromFrame f p false.
Definition removeFilePagesFromFrames (f : nat) : M BufferManager unit :=
  fh ← get_handle f;
  for_each (seq 0 (numPages fh)) (λ p, removePageFromFrame f p false).

(** [BufferManager::updateFrameIfPageIsInFrameWithoutLock] *)
Definition updateFrameIfPageIsInFrameWithoutLock (f p : nat) (newPage : list Z) : M BufferManager unit :=
  b ← get_state;
  ku_assert (f <? length (fileHandles b)) ;;
  w ← on_state f p get_state;
  if negb (getState w =? EVICTED)%Z then setFrame f p newPage else mret tt.

(** ** Pages of a file *)

Definition set_pages (n cap : nat) (states : list Z) (groups : list nat) (fh : FileHandle) : FileHandle :=
  MkFileHandle (isLargePaged fh) (isNewTmpFile fh) n cap states groups (fileInfo fh).

(** [FileHandle::addNewPageGroupWithoutLock]; the vector of page states grows by a block. *)
Definition addNewPageGroupWithoutLock (f : nat) : M BufferManager unit :=
  fh ← get_handle f;
  set_handle f (set_pages (numPages fh) (pageCapacity fh + PAGE_GROUP_SIZE)
    (pageStates fh ++ replicate (pageCapacity fh + PAGE_GROUP_SIZE - length (pageStates fh)) PageState_new) (frameGroupIdxes fh) fh) ;;
  group ← (λ b, let '(o, r) := addNewFrameGroup (region (isTempPage fh) b) in (o, set_region (isTempPage fh) r b) : outcome nat * BufferManager);
  fh ← get_handle f;
  set_handle f (set_pages (numPages fh) (pageCapacity fh) (pageStates fh) (frameGroupIdxes fh ++ [group]) fh).

(** [FileHandle::addNewPageWithoutLock], [addNewPages] *)
Definition addNewPageWithoutLock (f : nat) : M BufferManager nat :=
  fh ← get_handle f;
  (if numPages fh =? pageCapacity fh then addNewPageGroupWithoutLock f else mret tt) ;;
  on_state f (numPages fh) resetToEvicted ;;
  fh' ← get_handle f;
  set_handle f (set_pages (S (numPages fh')) (pageCapacity fh') (pageStates fh') (frameGroupIdxes fh') fh') ;;
  (if isInMemoryMode fh then pin f (numPages fh) false ;; mret tt else mret tt) ;;
  mret (numPages fh).
Definition addNewPages (f numNewPages : nat) : M BufferManager nat :=
  fh ← get_handle f;
  for_each (seq 0 numNewPages) (λ _, addNewPageWithoutLock f ;; mret tt) ;;
  mret (numPages fh).

(** [FileHandle::pinPage], [optimisticReadPage], [unpinPage], [setLockedPageDirty] *)
Definition pinPage (f p : nat) (readPage : bool) : M BufferManager (list Z) :=
  fh ← get_handle f;
  if isInMemoryMode fh then getFrame f p else pin f p readPage.
Definition optimisticReadPage (f p : nat) : M BufferManager (list Z) :=
  fh ← get_handle f;
  if isInMemoryMode fh then
    w ← on_state f p get_state;
    ku_assert (getState w =? LOCKED)%Z ;;
    getFrame f p
  else optimisticRead f p.
Definition unpinPage (f p : nat) : M BufferManager unit := unpin f p.
Definition setLockedPageDirty (f p : nat) : M BufferManager unit :=
  fh ← get_handle f;
  ku_assert (p <? numPages fh) ;;
  on_state f p setDirty.

(** [FileHandle::removePageIdxAndTruncateIfNecessary]; the page states keep their memory. *)
Definition removePageIdxAndTruncateIfNecessary (f p : nat) : M BufferManager unit :=
  fh ← get_handle f;
  if numPages fh <=? p then mret tt
  else
    let fh1 := set_pages p (pageCapacity fh) (pageStates fh) (frameGroupIdxes fh) fh in
    let numPageGroups := getNumPageGroups fh1 in
    if numPageGroups =? length (frameGroupIdxes fh) then set_handle f fh1
    else
      set_handle f fh1 ;;
      ku_assert (numPageGroups <? length (frameGroupIdxes fh)) ;;
      set_handle f (set_pages p (numPageGroups * PAGE_GROUP_SIZE) (pageStates fh) (take numPageGroups (frameGroupIdxes fh)) fh).

(** [FileHandle::flushAllDirtyPagesInFrames] *)
Definition flushAllDirtyPagesInFrames (f : nat) : M BufferManager unit :=
  fh ← get_handle f;
  for_each (seq 0 (numPages fh)) (λ p, flushPageIfDirtyWithoutLock f p).

(** [FileHandle::writePagesToFile] of a file on disk *)
Definition writePagesToFile (f : nat) (buffer : list Z) (startPageIdx : nat) : M BufferManager unit :=
  fh ← get_handle f;
  set_handle f (set_fileInfo (writeFile buffer (startPageIdx * getPageSize fh) (fileInfo fh)) fh).
End Operations.

(** [FileHandle::FileHandle] of a file on disk, and [BufferManager::getFileHandle]; the page states exist for whole
    page groups. *)
Fixpoint add_frame_groups (n : nat) (temp : bool) : M BufferManager (list nat) :=
  match n with
  | 0 => mret []
  | S n' =>
      group ← (λ b, let '(o, r) := addNewFrameGroup (region temp b) in (o, set_region temp r b) : outcome nat * BufferManager);
      rest ← add_frame_groups n' temp;
      mret (group :: rest)
  end.
Definition getFileHandle (large tmp : bool) (info : FileInfo) : M BufferManager nat :=
  let fh := MkFileHandle large tmp 0 0 [] [] info in
  let numPages := if tmp then 0 else (getFileSize info + getPageSize fh - 1) / getPageSize fh in
  let numPageGroups := (numPages + PAGE_GROUP_SIZE - 1) / PAGE_GROUP_SIZE in
  let pageCapacity := numPageGroups * PAGE_GROUP_SIZE in
  groups ← add_frame_groups numPageGroups (isTempPage fh);
  b ← get_state;
  put_state (set_handles (fileHandles b ++ [MkFileHandle large tmp numPages pageCapacity (replicate pageCapacity PageState_new) groups info]) b) ;;
  mret (length (fileHandles b)).
End BufferManager.
