(* ===== verification/BufferSpec.v ===== *)
(** * Invariants of the buffer manager

    The queue holds as many candidates as it says, every page in memory has a frame, and the memory in use is
    the memory of the pages that are loaded and what has been reserved besides. *)

From stdpp Require Import base numbers list gmap strings.
From Stdlib Require Import ZArith Lia.
From S2P Require Import Prelude PageState PageProtocol PageSpec BufferedFile BufferManager.
Import FileInfo PageState EvictionQueue BufferManager.

#[local] Opaque updateStateWithSameVersion updateStateAndIncrementVersion getState isDirty pack PageState_new.

(** ** Sums and counts over lists *)

Lemma sum_with_insert {A} (g : A → nat) l i x y :
  l !! i = Some x → sum_list_with g (<[i := y]> l) + g x = sum_list_with g l + g y.
Proof.
  revert i. induction l as [|a l IH]; intros [|i] H; [discriminate H|discriminate H| |].
  - injection H as ->. change (<[0 := y]> (x :: l)) with (y :: l). cbn [sum_list_with]. lia.
  - specialize (IH i H). change (<[S i := y]> (a :: l)) with (a :: <[i := y]> l). cbn [sum_list_with]. lia.
Qed.

Lemma sum_with_ge {A} (g : A → nat) l i x : l !! i = Some x → g x ≤ sum_list_with g l.
Proof.
  revert i. induction l as [|a l IH]; intros [|i] H; cbn in *; [discriminate|discriminate| |].
  - injection H as ->. lia.
  - specialize (IH i H). lia.
Qed.

(** ** The queue *)

Definition occupied (c : EvictionCandidate) : nat := if decide (c = EMPTY) then 0 else 1.

Record queue_ok (q : EvictionQueue) : Prop := {
  qo_length : length (data q) = capacity q;
  qo_pos : 0 < capacity q;
  qo_batch : (capacity q) mod BATCH_SIZE = 0;
  qo_size : size q = sum_list_with occupied (data q);
  qo_insert : (0 ≤ insertCursor q < 2 ^ 64)%Z;
  qo_evict : (0 ≤ evictionCursor q)%Z ∧ (evictionCursor q mod Z.of_nat BATCH_SIZE = 0)%Z;
}.

Lemma slot_lt cursor q : 0 < capacity q → slot cursor q < capacity q.
Proof.
  intros H. unfold slot. pose proof (Z.mod_pos_bound cursor (Z.of_nat (capacity q)) ltac:(lia)). lia.
Qed.

Lemma queue_new_ok n : queue_ok (EvictionQueue_new n).
Proof.
  unfold EvictionQueue_new. assert (Hm : n mod BATCH_SIZE < BATCH_SIZE) by (apply Nat.mod_upper_bound; discriminate).
  pose proof (Nat.div_mod_eq n BATCH_SIZE) as Hd.
  split; cbn [data capacity size insertCursor evictionCursor]; try (split; (lia || reflexivity)).
  - apply length_replicate.
  - lia.
  - replace (n + (BATCH_SIZE - n mod BATCH_SIZE)) with ((n / BATCH_SIZE + 1) * BATCH_SIZE) by (unfold BATCH_SIZE in *; lia).
    apply Nat.Div0.mod_mul.
  - generalize (n + (BATCH_SIZE - n mod BATCH_SIZE)). intros k. induction k as [|k IH]; [reflexivity|]. cbn. exact IH.
Qed.

(** Among [n] slots fewer than [n] of which are occupied, one is empty. *)
Lemma empty_slot l : sum_list_with occupied l < length l → ∃ i : nat, l !! i = Some EMPTY.
Proof.
  induction l as [|c l IH]; intros H; cbn in H; [lia|]. unfold occupied in H at 1. destruct (decide (c = EMPTY)) as [->|Hc].
  - exists 0. reflexivity.
  - destruct IH as [i Hi]; [lia|]. exists (S i). exact Hi.
Qed.

Lemma occupied_le l : sum_list_with occupied l ≤ length l.
Proof. induction l as [|c l IH]; cbn; [lia|]. unfold occupied at 1. destruct (decide (c = EMPTY)); lia. Qed.

(** The distance of the cursor to a slot, not counting a wrap-around of the cursor. *)
Definition distance (i : nat) (cursor : Z) (q : EvictionQueue) : Z := ((Z.of_nat i - cursor) mod Z.of_nat (capacity q))%Z.

Lemma distance_zero i cursor q : i < capacity q → distance i cursor q = 0%Z → slot cursor q = i.
Proof.
  intros Hi H. unfold distance, slot in *. apply Z.mod_divide in H as [k Hk]; [|lia].
  replace cursor with (Z.of_nat i + (- k) * Z.of_nat (capacity q))%Z by lia. rewrite Z_mod_plus_full, Z.mod_small by lia. lia.
Qed.

Lemma distance_next i cursor q :
  0 < capacity q → (0 < distance i cursor q)%Z → distance i (cursor + 1) q = (distance i cursor q - 1)%Z.
Proof.
  intros Hc H. unfold distance in *. pose proof (Z.mod_pos_bound (Z.of_nat i - cursor) (Z.of_nat (capacity q)) ltac:(lia)) as Hb.
  replace (Z.of_nat i - (cursor + 1))%Z with (Z.of_nat i - cursor - 1)%Z by lia.
  rewrite <- Zminus_mod_idemp_l. apply Z.mod_small. lia.
Qed.

Lemma distance_lt i cursor q : 0 < capacity q → (0 ≤ distance i cursor q < Z.of_nat (capacity q))%Z.
Proof. intros H. apply Z.mod_pos_bound. lia. Qed.

(** The rounds until the cursor reaches an empty slot. *)
Definition rounds (i : nat) (cursor : Z) (q : EvictionQueue) : Z :=
  if (distance i cursor q <? 2 ^ 64 - cursor)%Z then (distance i cursor q + 1)%Z else (2 ^ 64 - cursor + Z.of_nat (capacity q))%Z.

Lemma rounds_next i q q' :
  capacity q' = capacity q → 0 < capacity q → (Z.of_nat (capacity q) < 2 ^ 64)%Z → (0 ≤ insertCursor q < 2 ^ 64)%Z →
  (0 < distance i (insertCursor q) q)%Z → insertCursor q' = uwrap 64 (insertCursor q + 1) →
  (rounds i (insertCursor q') q' ≤ rounds i (insertCursor q) q - 1)%Z.
Proof.
  intros Hc Hp Hb Hi Hd Hn. pose proof (distance_lt i (insertCursor q) q Hp) as Hlt.
  assert (Heq : ∀ c, distance i c q' = distance i c q) by (intros c; unfold distance; rewrite Hc; reflexivity).
  unfold rounds. rewrite !Heq, Hc, Hn. destruct (Z.eq_dec (insertCursor q + 1) (2 ^ 64)) as [E|E].
  - rewrite E. change (uwrap 64 (2 ^ 64)) with 0%Z. pose proof (distance_lt i 0 q Hp) as H0.
    rewrite (proj2 (Z.ltb_lt (distance i 0 q) _)) by lia. destruct (Z.ltb_spec (distance i (insertCursor q) q) (2 ^ 64 - insertCursor q)); lia.
  - rewrite uwrap_small by lia. rewrite distance_next by assumption.
    destruct (Z.ltb_spec (distance i (insertCursor q) q) (2 ^ 64 - insertCursor q)) as [H|H].
    + rewrite (proj2 (Z.ltb_lt _ _)) by lia. lia.
    + rewrite (proj2 (Z.ltb_ge _ _)) by lia. lia.
Qed.

Lemma insert_loop_ok fuel : ∀ c q e,
  length (data q) = capacity q → 0 < capacity q → (Z.of_nat (capacity q) < 2 ^ 64)%Z → (0 ≤ insertCursor q < 2 ^ 64)%Z →
  size q < capacity q → data q !! e = Some EMPTY → (rounds e (insertCursor q) q ≤ Z.of_nat fuel)%Z →
  ∃ i cur, insert_loop fuel c q = (Some true, MkQueue cur (evictionCursor q) (S (size q)) (capacity q) (<[i := c]> (data q))) ∧
    data q !! i = Some EMPTY ∧ (0 ≤ cur < 2 ^ 64)%Z.
Proof.
  induction fuel as [|fuel IH]; intros c q e Hl Hp Hb Hi Hs He Hr.
  - exfalso. pose proof (distance_lt e (insertCursor q) q Hp). unfold rounds in Hr. destruct (_ <? _)%Z; lia.
  - cbn [insert_loop]. rewrite (proj2 (Nat.ltb_lt _ _) Hs). cbn zeta.
    pose proof (slot_lt (insertCursor q) q Hp) as Hslot.
    destruct (lookup_lt_is_Some_2 (data q) (slot (insertCursor q) q)) as [x Hx]; [lia|]. cbn [data]. rewrite Hx.
    assert (Hu : (0 ≤ uwrap 64 (insertCursor q + 1) < 2 ^ 64)%Z) by (apply Z.mod_pos_bound; lia).
    destruct (decide (x = EMPTY)) as [->|Hne]; [eexists _, _; split; [reflexivity|auto]|].
    set (q1 := MkQueue _ _ _ _ _). destruct (IH c q1 e) as (i & cur & H1 & H2 & H3); try assumption.
    + assert (He' : e < capacity q) by (rewrite <- Hl; apply lookup_lt_Some in He; exact He).
      assert (Hd : (0 < distance e (insertCursor q) q)%Z).
      { pose proof (distance_lt e (insertCursor q) q Hp). destruct (Z.eq_dec (distance e (insertCursor q) q) 0) as [E|E]; [|lia].
        apply (distance_zero e (insertCursor q) q He') in E. rewrite E in Hx. congruence. }
      pose proof (rounds_next e q q1 eq_refl Hp Hb Hi Hd eq_refl) as Hn. cbn [insertCursor] in Hn. lia.
    + exists i, cur. split; [exact H1|]. split; assumption.
Qed.

Lemma insert_ok f p q :
  queue_ok q → (Z.of_nat (capacity q) < 2 ^ 64)%Z → MkCandidate f p ≠ EMPTY → size q < capacity q →
  ∃ i q', insert f p q = (Ok true, q') ∧ data q !! i = Some EMPTY ∧ data q' = <[i := MkCandidate f p]> (data q) ∧
    capacity q' = capacity q ∧ size q' = S (size q) ∧ evictionCursor q' = evictionCursor q ∧ queue_ok q'.
Proof.
  intros [H1 H2 H3 H4 H5 H6] Hb Hc Hs. destruct (empty_slot (data q)) as [e He]; [lia|].
  destruct (insert_loop_ok (2 * capacity q) (MkCandidate f p) q e H1 H2 Hb H5 Hs He) as (i & cur & Hr & Hi & Hcur).
  { pose proof (distance_lt e (insertCursor q) q H2). unfold rounds. destruct (Z.ltb_spec (distance e (insertCursor q) q) (2 ^ 64 - insertCursor q)); lia. }
  unfold insert. rewrite Hr. exists i. eexists. split; [reflexivity|]. split; [exact Hi|]. split_and!; try reflexivity.
  split; cbn [data capacity size insertCursor evictionCursor]; try assumption.
  - rewrite length_insert. exact H1.
  - pose proof (sum_with_insert occupied (data q) i EMPTY (MkCandidate f p) Hi) as Hsum.
    unfold occupied in Hsum at 2 4. rewrite (decide_True (P := EMPTY = EMPTY)) in Hsum by reflexivity. rewrite decide_False in Hsum by exact Hc. lia.
Qed.

Lemma insert_full f p q : capacity q ≤ size q → insert f p q = (Ok false, q).
Proof.
  intros H. unfold insert. assert (Hl : ∀ n, insert_loop n (MkCandidate f p) q = (Some false, q)); [|rewrite Hl; reflexivity].
  intros n. destruct n; cbn [insert_loop]; rewrite (proj2 (Nat.ltb_ge _ _) H); reflexivity.
Qed.

Lemma clear_ok i c q :
  queue_ok q → data q !! i = Some c → c ≠ EMPTY →
  ∃ q', clear i q = (Ok tt, q') ∧ data q' = <[i := EMPTY]> (data q) ∧ capacity q' = capacity q ∧ S (size q') = size q ∧
    evictionCursor q' = evictionCursor q ∧ queue_ok q'.
Proof.
  intros [H1 H2 H3 H4 H5 H6] Hi Hc. unfold clear. rewrite Hi, decide_False by exact Hc. eexists. split; [reflexivity|].
  pose proof (sum_with_insert occupied (data q) i c EMPTY Hi) as Hsum. pose proof (sum_with_ge occupied (data q) i c Hi) as Hge.
  assert (Hc1 : occupied c = 1) by (unfold occupied; rewrite decide_False by exact Hc; reflexivity).
  assert (He0 : occupied EMPTY = 0) by reflexivity. rewrite Hc1, He0 in Hsum.
  split; [reflexivity|]. split; [reflexivity|]. split; [cbn [size]; lia|]. split; [reflexivity|].
  split; cbn [data capacity size insertCursor evictionCursor]; try assumption.
  - rewrite length_insert. exact H1.
  - lia.
Qed.

(** ** Pages in memory *)

Definition loaded (w : Z) : nat := if (getState w =? EVICTED)%Z then 0 else 1.
Definition handle_bytes (fh : FileHandle) : nat := sum_list_with loaded (pageStates fh) * getPageSize fh.
Definition loaded_bytes (b : BufferManager) : nat := sum_list_with handle_bytes (fileHandles b).

Section Versions.
(** No version is above [N]. *)
Context (N : Z) (HN : (0 ≤ N)%Z).

Definition valid_word (w : Z) : Prop := ∃ st d v, w = pack st d v ∧ is_version v ∧ is_lock_state st ∧ (v ≤ N)%Z.

Record handle_ok (fh : FileHandle) : Prop := {
  ho_words : Forall valid_word (pageStates fh);
  ho_loaded : ∀ p w, pageStates fh !! p = Some w → getState w ≠ EVICTED → p < numPages fh;
  ho_pages : numPages fh ≤ pageCapacity fh;
  ho_groups : pageCapacity fh ≤ PAGE_GROUP_SIZE * length (frameGroupIdxes fh);
  ho_states : pageCapacity fh ≤ length (pageStates fh);
  (** Pages of a database in memory stay pinned. *)
  ho_memory : isInMemoryMode fh = true → ∀ p w, pageStates fh !! p = Some w → getState w = LOCKED ∨ getState w = EVICTED;
}.

Definition word_at (b : BufferManager) (f p : nat) : option Z :=
  match fileHandles b !! f with Some fh => pageStates fh !! p | None => None end.

Record manager_ok (b : BufferManager) : Prop := {
  bo_queue : queue_ok (evictionQueue b);
  bo_capacity : (2 * Z.of_nat (capacity (evictionQueue b)) < 2 ^ 64)%Z;
  bo_handles : Forall handle_ok (fileHandles b);
  bo_candidates : ∀ i c, data (evictionQueue b) !! i = Some c → c ≠ EMPTY →
    ∃ f p w, c = MkCandidate (Z.of_nat f) (Z.of_nat p) ∧ word_at b f p = Some w ∧ Z.of_nat p ≠ INVALID_IDX;
}.

(** The manager with another word of a page. *)
Definition set_word_at (f p : nat) (w : Z) (b : BufferManager) : BufferManager :=
  match fileHandles b !! f with
  | Some fh => set_handles (<[f := set_pageStates (<[p := w]> (pageStates fh)) fh]> (fileHandles b)) b
  | None => b
  end.

Lemma word_at_inv b f p w : word_at b f p = Some w → ∃ fh, fileHandles b !! f = Some fh ∧ pageStates fh !! p = Some w.
Proof. unfold word_at. destruct (fileHandles b !! f) as [fh|]; [eauto|discriminate]. Qed.

Lemma set_handles_same f fh b : fileHandles b !! f = Some fh → set_handles (<[f := fh]> (fileHandles b)) b = b.
Proof. intros H. rewrite list_insert_id by exact H. destruct b; reflexivity. Qed.

Lemma on_state_run {A} f p (m : M Z A) b w o w' :
  word_at b f p = Some w → m w = (o, w') → on_state f p m b = (o, set_word_at f p w' b).
Proof.
  intros (fh & Hf & Hp)%word_at_inv Hm. unfold on_state, get_handle, set_handle, set_word_at. unfold_M. rewrite Hf, Hp, Hm.
  destruct o; reflexivity.
Qed.

Lemma set_word_at_same f p w b : word_at b f p = Some w → set_word_at f p w b = b.
Proof.
  intros (fh & Hf & Hp)%word_at_inv. unfold set_word_at. rewrite Hf. rewrite (list_insert_id (pageStates fh)) by exact Hp.
  replace (set_pageStates (pageStates fh) fh) with fh by (destruct fh; reflexivity). apply set_handles_same, Hf.
Qed.

Lemma on_state_get f p b w : word_at b f p = Some w → on_state f p get_state b = (Ok w, b).
Proof. intros H. rewrite (on_state_run f p get_state b w (Ok w) w H eq_refl), set_word_at_same by exact H. reflexivity. Qed.

Lemma word_at_set f p w b f' p' w0 :
  word_at b f p = Some w0 → word_at (set_word_at f p w b) f' p' = if decide (f' = f ∧ p' = p) then Some w else word_at b f' p'.
Proof.
  intros (fh & Hf & Hp)%word_at_inv. unfold set_word_at. rewrite Hf. unfold word_at. cbn [fileHandles set_handles].
  destruct (decide (f' = f)) as [->|Hne].
  - rewrite list_lookup_insert_eq by (apply lookup_lt_Some in Hf; exact Hf). cbn [pageStates set_pageStates]. rewrite Hf.
    destruct (decide (p' = p)) as [->|Hnp].
    + rewrite list_lookup_insert_eq by (apply lookup_lt_Some in Hp; exact Hp). rewrite decide_True by auto. reflexivity.
    + rewrite list_lookup_insert_ne by congruence. rewrite decide_False by (intros [_ H]; contradiction). reflexivity.
  - rewrite list_lookup_insert_ne by congruence. rewrite decide_False by (intros [H _]; contradiction). reflexivity.
Qed.

Lemma handle_set_word f p w b fh :
  fileHandles b !! f = Some fh → fileHandles (set_word_at f p w b) !! f = Some (set_pageStates (<[p := w]> (pageStates fh)) fh).
Proof.
  intros Hf. unfold set_word_at. rewrite Hf. cbn [fileHandles set_handles]. apply list_lookup_insert_eq. apply lookup_lt_Some in Hf. exact Hf.
Qed.

Lemma handle_ok_set fh p w :
  handle_ok fh → valid_word w → (getState w ≠ EVICTED → p < numPages fh) →
  (isInMemoryMode fh = true → getState w = LOCKED ∨ getState w = EVICTED) →
  handle_ok (set_pageStates (<[p := w]> (pageStates fh)) fh).
Proof.
  intros [H1 H2 H3 H4 H6 H5] Hw Hp Hm. split; cbn [pageStates set_pageStates numPages pageCapacity frameGroupIdxes]; try assumption.
  - apply Forall_insert; assumption.
  - intros p' w' Hl Hs. apply list_lookup_insert_Some in Hl as [(-> & -> & _)|[_ Hl]]; [exact (Hp Hs)|exact (H2 p' w' Hl Hs)].
  - rewrite length_insert. exact H6.
  - intros Hmem p' w' Hl. apply list_lookup_insert_Some in Hl as [(-> & -> & _)|[_ Hl]]; [exact (Hm Hmem)|exact (H5 Hmem p' w' Hl)].
Qed.

(** Changing a word keeps the invariant and changes the memory of loaded pages accordingly. *)
Lemma manager_ok_set b f p w w' fh :
  manager_ok b → fileHandles b !! f = Some fh → pageStates fh !! p = Some w → valid_word w' →
  (getState w' ≠ EVICTED → p < numPages fh) →
  (isInMemoryMode fh = true → getState w' = LOCKED ∨ getState w' = EVICTED) →
  manager_ok (set_word_at f p w' b) ∧
  loaded_bytes (set_word_at f p w' b) + loaded w * getPageSize fh = loaded_bytes b + loaded w' * getPageSize fh.
Proof.
  intros [H1 H2 H3 H4] Hf Hp Hv Hl Hm. unfold set_word_at. rewrite Hf. split.
  - split; cbn [evictionQueue set_handles fileHandles]; try assumption.
    + apply Forall_insert; [exact H3|]. apply handle_ok_set; try assumption. rewrite Forall_lookup in H3. exact (H3 f fh Hf).
    + intros i c Hi Hc. destruct (H4 i c Hi Hc) as (f' & p' & w0 & -> & Hw0 & Hne).
      assert (Hwa : word_at b f p = Some w) by (unfold word_at; rewrite Hf; exact Hp).
      pose proof (word_at_set f p w' b f' p' w Hwa) as Hs. unfold set_word_at in Hs. rewrite Hf in Hs.
      destruct (decide (f' = f ∧ p' = p)); eauto 10. rewrite <- Hs in Hw0. eauto 10.
  - unfold loaded_bytes. cbn [fileHandles set_handles].
    pose proof (sum_with_insert handle_bytes (fileHandles b) f fh (set_pageStates (<[p := w']> (pageStates fh)) fh) Hf) as Hs.
    unfold handle_bytes in Hs at 2 4. cbn [pageStates set_pageStates] in Hs. change (getPageSize (set_pageStates _ fh)) with (getPageSize fh) in Hs.
    pose proof (sum_with_insert loaded (pageStates fh) p w w' Hp) as Hs2. nia.
Qed.

(** ** Managers that differ in frames and files only *)

Definition static_of (fh : FileHandle) : bool * bool * nat * nat * list nat :=
  (isLargePaged fh, isNewTmpFile fh, numPages fh, pageCapacity fh, frameGroupIdxes fh).

Record same (b b' : BufferManager) : Prop := {
  sm_static : map static_of (fileHandles b') = map static_of (fileHandles b);
  sm_words : ∀ f p, word_at b' f p = word_at b f p;
  sm_queue : evictionQueue b' = evictionQueue b;
  sm_used : usedMemory b' = usedMemory b;
  sm_pool : bufferPoolSize b' = bufferPoolSize b;
  sm_non : nonEvictableMemory b' = nonEvictableMemory b;
}.

#[global] Instance same_equiv : Equivalence same.
Proof.
  split.
  - intros b. split; reflexivity.
  - intros b b' [H1 H2 H3 H4 H5 H6]. split; congruence.
  - intros b b1 b2 [H1 H2 H3 H4 H5 H6] [G1 G2 G3 G4 G5 G6]. split; congruence.
Qed.

Lemma same_handle b b' f fh :
  same b b' → fileHandles b !! f = Some fh → ∃ fh', fileHandles b' !! f = Some fh' ∧ static_of fh' = static_of fh ∧ pageStates fh' = pageStates fh.
Proof.
  intros [H1 H2 _ _ _ _] Hf. pose proof (f_equal (λ l, l !! f) H1) as Hs. cbn beta in Hs. rewrite !list_lookup_fmap, Hf in Hs.
  destruct (fileHandles b' !! f) as [fh'|] eqn:Hf'; [|discriminate]. injection Hs as Hs. exists fh'. split; [reflexivity|]. split; [unfold static_of; congruence|].
  apply list_eq. intros p. specialize (H2 f p). unfold word_at in H2. rewrite Hf, Hf' in H2. exact H2.
Qed.

Lemma static_page_size fh fh' : static_of fh' = static_of fh → getPageSize fh' = getPageSize fh ∧ isInMemoryMode fh' = isInMemoryMode fh.
Proof. unfold static_of, getPageSize, isInMemoryMode. intros [= -> -> _ _ _]. auto. Qed.

Lemma same_bytes b b' : same b b' → loaded_bytes b' = loaded_bytes b.
Proof.
  intros Hs. unfold loaded_bytes. assert (Hl : length (fileHandles b') = length (fileHandles b)).
  { pose proof (f_equal length (sm_static _ _ Hs)) as H. rewrite !length_map in H. exact H. }
  assert (H : map handle_bytes (fileHandles b') = map handle_bytes (fileHandles b)).
  { apply list_eq. intros f. rewrite !list_lookup_fmap. destruct (fileHandles b !! f) as [fh|] eqn:Hf.
    - destruct (same_handle b b' f fh Hs Hf) as (fh' & -> & H1 & H2). cbn. unfold handle_bytes. rewrite H2, (proj1 (static_page_size _ _ H1)). reflexivity.
    - apply lookup_ge_None in Hf. rewrite (proj2 (lookup_ge_None _ _)) by lia. reflexivity. }
  assert (Hm : ∀ l, sum_list_with handle_bytes l = sum_list (map handle_bytes l)) by (induction l; cbn; congruence). rewrite !Hm, H. reflexivity.
Qed.

Lemma same_ok b b' : same b b' → manager_ok b → manager_ok b'.
Proof.
  intros Hs [H1 H2 H3 H4]. split; rewrite ?(sm_queue _ _ Hs); try assumption.
  - apply Forall_lookup. intros f fh' Hf'. symmetry in Hs. destruct (same_handle b' b f fh' Hs Hf') as (fh & Hf & Hst & Hw).
    rewrite Forall_lookup in H3. destruct (H3 f fh Hf) as [G1 G2 G3 G4 G6 G5]. rewrite Hw in *. pose proof (static_page_size _ _ Hst) as [_ Hm].
    unfold static_of in Hst. injection Hst as E1 E2 E3 E4 E5. split; rewrite <- ?E3, <- ?E4, <- ?E5, <- ?Hm; assumption.
  - intros i c Hi Hc. destruct (H4 i c Hi Hc) as (f & p & w & H5 & H6 & H7). exists f, p, w. rewrite (sm_words _ _ Hs). auto.
Qed.

(** Changing one word. *)
Lemma set_word_at_queue f p w b :
  evictionQueue (set_word_at f p w b) = evictionQueue b ∧ usedMemory (set_word_at f p w b) = usedMemory b ∧
  bufferPoolSize (set_word_at f p w b) = bufferPoolSize b ∧ nonEvictableMemory (set_word_at f p w b) = nonEvictableMemory b ∧
  map static_of (fileHandles (set_word_at f p w b)) = map static_of (fileHandles b).
Proof.
  unfold set_word_at. destruct (fileHandles b !! f) as [fh|] eqn:Hf; split_and!; try reflexivity. cbn [fileHandles set_handles].
  rewrite list_fmap_insert. apply list_insert_id. rewrite list_lookup_fmap, Hf. reflexivity.
Qed.

Lemma same_by b b' f p w w0 :
  word_at b f p = Some w0 → map static_of (fileHandles b') = map static_of (fileHandles b) →
  (∀ f' p', word_at b' f' p' = if decide (f' = f ∧ p' = p) then Some w else word_at b f' p') →
  evictionQueue b' = evictionQueue b → usedMemory b' = usedMemory b → bufferPoolSize b' = bufferPoolSize b →
  nonEvictableMemory b' = nonEvictableMemory b → same (set_word_at f p w b) b'.
Proof.
  intros H0 H1 H2 H3 H4 H5 H6. destruct (set_word_at_queue f p w b) as (G1 & G2 & G3 & G4 & G5). split; try congruence.
  intros f' p'. rewrite H2, (word_at_set f p w b f' p' w0 H0). reflexivity.
Qed.

Lemma same_set b b' f p w w0 : same b b' → word_at b f p = Some w0 → same (set_word_at f p w b) (set_word_at f p w b').
Proof.
  intros Hs H0. destruct (set_word_at_queue f p w b') as (G1 & G2 & G3 & G4 & G5). destruct Hs as [S1 S2 S3 S4 S5 S6].
  apply (same_by b _ f p w w0 H0); try congruence. intros f' p'. rewrite (word_at_set f p w b' f' p' w0) by (rewrite S2; exact H0). rewrite S2. reflexivity.
Qed.

Lemma same_set_set b f p w1 w2 w0 : word_at b f p = Some w0 → same (set_word_at f p w2 b) (set_word_at f p w2 (set_word_at f p w1 b)).
Proof.
  intros H0. destruct (set_word_at_queue f p w1 b) as (G1 & G2 & G3 & G4 & G5).
  destruct (set_word_at_queue f p w2 (set_word_at f p w1 b)) as (E1 & E2 & E3 & E4 & E5).
  pose proof (word_at_set f p w1 b f p w0 H0) as H1. rewrite decide_True in H1 by auto.
  apply (same_by b _ f p w2 w0 H0); try congruence. intros f' p'. rewrite (word_at_set f p w2 _ f' p' w1 H1), (word_at_set f p w1 b f' p' w0 H0).
  destruct (decide (f' = f ∧ p' = p)); reflexivity.
Qed.

Lemma same_region t r b : same b (set_region t r b).
Proof. destruct t; split; reflexivity. Qed.

Lemma same_file f fh i b : fileHandles b !! f = Some fh → same b (set_handles (<[f := set_fileInfo i fh]> (fileHandles b)) b).
Proof.
  intros Hf. split; try reflexivity; cbn [fileHandles set_handles].
  - rewrite list_fmap_insert. apply list_insert_id. rewrite list_lookup_fmap, Hf. reflexivity.
  - intros f' p. unfold word_at. cbn [fileHandles set_handles]. destruct (decide (f' = f)) as [->|Hne].
    + rewrite list_lookup_insert_eq by (apply lookup_lt_Some in Hf; exact Hf). rewrite Hf. reflexivity.
    + rewrite list_lookup_insert_ne by congruence. reflexivity.
Qed.

(** ** Frames *)

Lemma getFrameIdx_ok fh p : handle_ok fh → p < numPages fh → ∃ i, getFrameIdx p fh = Ok i.
Proof.
  intros [_ _ H3 H4 _ _] Hp. unfold getFrameIdx. rewrite (proj2 (Nat.ltb_lt p (pageCapacity fh))) by lia. unfold ku_assert_o. rewrite outcome_bind_Ok.
  unfold PAGE_GROUP_SIZE_LOG2. rewrite Z.shiftr_div_pow2 by lia.
  destruct (lookup_lt_is_Some_2 (frameGroupIdxes fh) (Z.to_nat (Z.of_nat p / 2 ^ 10))) as [g ->]; [|eauto].
  assert (Z.of_nat p / 2 ^ 10 < Z.of_nat (length (frameGroupIdxes fh)))%Z; [|lia].
  apply Z.div_lt_upper_bound; [lia|]. change PAGE_GROUP_SIZE with (Z.to_nat (2 ^ 10)) in H4. lia.
Qed.

Lemma manager_handle b f fh : manager_ok b → fileHandles b !! f = Some fh → handle_ok fh.
Proof. intros [_ _ H _] Hf. rewrite Forall_lookup in H. exact (H f fh Hf). Qed.

Lemma getFrame_ok b f p fh :
  manager_ok b → fileHandles b !! f = Some fh → p < numPages fh → ∃ bytes, getFrame f p b = (Ok bytes, b).
Proof.
  intros Hok Hf Hp. destruct (getFrameIdx_ok fh p (manager_handle b f fh Hok Hf) Hp) as [i Hi].
  unfold getFrame, get_handle. unfold_M. rewrite Hf, Hi. eauto.
Qed.

Lemma on_frame_ok b f p fh g :
  manager_ok b → fileHandles b !! f = Some fh → p < numPages fh → ∃ b', on_frame f p g b = (Ok tt, b') ∧ same b b'.
Proof.
  intros Hok Hf Hp. destruct (getFrameIdx_ok fh p (manager_handle b f fh Hok Hf) Hp) as [i Hi].
  unfold on_frame, get_handle. unfold_M. rewrite Hf, Hi. eexists. split; [reflexivity|]. apply same_region.
Qed.

(** *** Words *)

Lemma valid_fields w : valid_word w → ∃ st d v, w = pack st d v ∧ is_version v ∧ is_lock_state st ∧ getState w = st ∧ isDirty w = d.
Proof.
  intros (st & d & v & -> & Hv & Hst & Hb). exists st, d, v. split_and!; try reflexivity; try assumption.
  - apply getState_pack; [apply lock_state_ok, Hst|exact Hv].
  - apply isDirty_pack, Hv.
Qed.

Lemma valid_retag w st' : valid_word w → is_lock_state st' → valid_word (updateStateWithSameVersion w st') ∧ getState (updateStateWithSameVersion w st') = st'.
Proof.
  intros (st & d & v & -> & Hv & Hst & Hb) Hst'. rewrite updateStateWithSameVersion_pack by auto using lock_state_ok.
  split; [exists st', d, v; auto|]. apply getState_pack; auto using lock_state_ok.
Qed.

Lemma valid_clear w : valid_word w → ∃ w', clearDirtyWithoutLock w = (Ok tt, w') ∧ valid_word w' ∧ getState w' = getState w.
Proof.
  intros (st & d & v & -> & Hv & Hst & Hb). unfold clearDirtyWithoutLock, modify. rewrite clearDirty_pack by auto using lock_state_ok.
  eexists. split; [reflexivity|]. split; [exists st, false, v; auto|]. rewrite !getState_pack by auto using lock_state_ok. reflexivity.
Qed.

Lemma valid_new : valid_word PageState_new.
Proof. exists EVICTED, false, 0%Z. rewrite PageState_new_pack. split; [reflexivity|]. unfold is_version, is_lock_state, EVICTED. lia. Qed.

Lemma manager_word b f p w fh :
  manager_ok b → fileHandles b !! f = Some fh → pageStates fh !! p = Some w → valid_word w.
Proof. intros Hok Hf Hp. destruct (manager_handle b f fh Hok Hf) as [H _ _ _ _ _]. rewrite Forall_lookup in H. exact (H p w Hp). Qed.

(** *** Writing a page back *)

Lemma flush_ok b f p w :
  manager_ok b → word_at b f p = Some w → (∀ fh, fileHandles b !! f = Some fh → p < numPages fh) →
  ∃ b' w', flushPageIfDirtyWithoutLock f p b = (Ok tt, b') ∧ same (set_word_at f p w' b) b' ∧ valid_word w' ∧ getState w' = getState w.
Proof.
  intros Hok Hw Hpage. pose proof (word_at_inv b f p w Hw) as (fh & Hf & Hp). pose proof (Hpage fh Hf) as Hn. pose proof (manager_word b f p w fh Hok Hf Hp) as Hv.
  unfold flushPageIfDirtyWithoutLock. rewrite (M_bind_ok (get_handle f) _ b fh b) by (unfold get_handle; unfold_M; rewrite Hf; reflexivity).
  rewrite (M_bind_ok _ _ _ _ _ (on_state_get f p b w Hw)). destruct (negb (isInMemoryMode fh) && isDirty w).
  - unfold ku_assert. rewrite (proj2 (Nat.ltb_lt _ _) Hn). rewrite (M_bind_ok (mret tt) _ b tt b eq_refl).
    destruct (getFrame_ok b f p fh Hok Hf Hn) as (bytes & Hb). rewrite (M_bind_ok _ _ _ _ _ Hb).
    set (i := writeFile bytes (p * getPageSize fh) (fileInfo fh)).
    rewrite (M_bind_ok _ _ b tt (set_handles (<[f := set_fileInfo i fh]> (fileHandles b)) b) eq_refl).
    set (b1 := set_handles _ b). pose proof (same_file f fh i b Hf) as Hs. fold b1 in Hs.
    destruct (valid_clear w Hv) as (w' & Hc & Hv' & Hg').
    rewrite (on_state_run f p clearDirtyWithoutLock b1 w (Ok tt) w') by (rewrite ?(sm_words _ _ Hs); assumption).
    exists (set_word_at f p w' b1), w'. split; [reflexivity|]. split; [apply (same_set b b1 f p w' w Hs Hw)|]. auto.
  - exists b, w. split; [reflexivity|]. split; [rewrite set_word_at_same by exact Hw; reflexivity|]. auto.
Qed.

(** ** Evicting one page *)

Definition not_evicted (w : Z) : Prop := getState w ≠ EVICTED.

Lemma evict_one b f p w fh i :
  manager_ok b → word_at b f p = Some w → getState w = MARKED → fileHandles b !! f = Some fh →
  data (evictionQueue b) !! i = Some (MkCandidate (Z.of_nat f) (Z.of_nat p)) → Z.of_nat p ≠ INVALID_IDX →
  ∃ b1 q', tryEvictPage i b = (Ok (Z.of_nat (getPageSize fh)), set_queue q' b1) ∧ same (set_word_at f p PageState_new b) b1 ∧
    clear i (evictionQueue b) = (Ok tt, q').
Proof.
  intros Hok Hw Hg Hf Hi Hne. pose proof (word_at_inv b f p w Hw) as (fh0 & Hf0 & Hp). rewrite Hf in Hf0. injection Hf0 as <-.
  pose proof (manager_word b f p w fh Hok Hf Hp) as Hv. pose proof (manager_handle b f fh Hok Hf) as Hfh.
  pose proof (ho_loaded fh Hfh p w Hp ltac:(rewrite Hg; discriminate)) as Hn.
  assert (Hmem : isInMemoryMode fh = false).
  { destruct (isInMemoryMode fh) eqn:E; [|reflexivity]. destruct (ho_memory fh Hfh E p w Hp) as [H|H]; rewrite Hg in H; discriminate H. }
  destruct (valid_retag w LOCKED Hv ltac:(unfold is_lock_state, LOCKED; lia)) as [Hv1 Hg1]. set (w1 := updateStateWithSameVersion w LOCKED) in *.
  destruct (manager_ok_set b f p w w1 fh Hok Hf Hp Hv1 (λ _, Hn) ltac:(rewrite Hmem; discriminate)) as [Hok1 _].
  set (b1 := set_word_at f p w1 b) in *. pose proof (handle_set_word f p w1 b fh Hf) as Hf1. fold b1 in Hf1.
  pose proof (word_at_set f p w1 b f p w Hw) as Hw1. rewrite decide_True in Hw1 by auto. fold b1 in Hw1.
  destruct (flush_ok b1 f p w1 Hok1 Hw1) as (b2 & w2 & Hfl & Hs2 & Hv2 & Hg2); [intros fh' Hf'; rewrite Hf1 in Hf'; injection Hf' as <-; exact Hn|].
  destruct (manager_ok_set b1 f p w1 w2 _ Hok1 Hf1 ltac:(apply list_lookup_insert_eq; apply lookup_lt_Some in Hp; exact Hp) Hv2 (λ _, Hn)) as [Hok2' _].
  { rewrite Hg2, Hg1. auto. }
  pose proof (same_ok _ _ Hs2 Hok2') as Hok2.
  destruct (same_handle _ b2 f _ Hs2 (handle_set_word f p w2 b1 _ Hf1)) as (fh2 & Hf2 & Hst2 & Hps2).
  assert (Hn2 : p < numPages fh2) by (unfold static_of in Hst2; injection Hst2 as _ _ -> _ _; exact Hn).
  destruct (on_frame_ok b2 f p fh2 releaseFrame Hok2 Hf2 Hn2) as (b3 & Hrel & Hs3).
  assert (Hw3 : word_at b3 f p = Some w2).
  { rewrite (sm_words _ _ Hs3), (sm_words _ _ Hs2), (word_at_set f p w2 b1 f p w1 Hw1). rewrite decide_True by auto. reflexivity. }
  set (b4 := set_word_at f p PageState_new b3).
  assert (Hs4 : same (set_word_at f p PageState_new b) b4).
  { etransitivity; [apply (same_set_set b f p w1 PageState_new w Hw)|]. fold b1.
    etransitivity; [apply (same_set_set b1 f p w2 PageState_new w1 Hw1)|]. apply (same_set _ b3 f p PageState_new w2).
    - etransitivity; [exact Hs2|exact Hs3].
    - rewrite (word_at_set f p w2 b1 f p w1 Hw1), decide_True by auto. reflexivity. }
  destruct (clear_ok i _ _ (bo_queue _ Hok) Hi) as (q' & Hcl & _).
  { intros E. injection E as _ E. apply Hne. exact E. }
  exists b4, q'. split; [|split; [exact Hs4|exact Hcl]].
  unfold tryEvictPage. rewrite (M_bind_ok get_state _ b b b eq_refl), Hi. cbn [pageIdx fileIdx]. rewrite (proj2 (Z.eqb_neq _ _) Hne), !Nat2Z.id.
  rewrite (M_bind_ok _ _ _ _ _ (on_state_get f p b w Hw)). unfold PageProtocol.isEvictable. rewrite Hg. cbn [negb Z.eqb MARKED Pos.eqb].
  rewrite (M_bind_ok _ _ b true b1) by (apply (on_state_run f p (tryLock w) b w (Ok true) w1 Hw); unfold tryLock, compare_exchange_strong; rewrite Z.eqb_refl; reflexivity).
  cbn [negb]. rewrite (M_bind_ok (get_handle f) _ b1 _ b1) by (unfold get_handle; unfold_M; rewrite Hf1; reflexivity).
  change (isInMemoryMode (set_pageStates _ fh)) with (isInMemoryMode fh). rewrite Hmem.
  rewrite (M_bind_ok _ _ _ _ _ Hfl), (M_bind_ok _ _ _ _ _ Hrel).
  rewrite (M_bind_ok _ _ _ _ _ (on_state_run f p resetToEvicted b3 w2 (Ok tt) PageState_new Hw3 eq_refl)). fold b4.
  unfold on_queue. unfold_M. rewrite (sm_queue _ _ Hs4), (proj1 (set_word_at_queue f p PageState_new b)), Hcl. reflexivity.
Qed.

(** ** What evicting pages keeps *)

(** A candidate whose page is unlocked or marked, and one whose page is marked. *)
Definition open_slot (b : BufferManager) (i : nat) : Prop :=
  ∃ f p w, data (evictionQueue b) !! i = Some (MkCandidate (Z.of_nat f) (Z.of_nat p)) ∧ MkCandidate (Z.of_nat f) (Z.of_nat p) ≠ EMPTY ∧
    word_at b f p = Some w ∧ (getState w = UNLOCKED ∨ getState w = MARKED).
Definition ready_slot (b : BufferManager) (i : nat) : Prop :=
  ∃ f p w, data (evictionQueue b) !! i = Some (MkCandidate (Z.of_nat f) (Z.of_nat p)) ∧ MkCandidate (Z.of_nat f) (Z.of_nat p) ≠ EMPTY ∧
    word_at b f p = Some w ∧ getState w = MARKED.

(** [n] bytes of loaded pages have been evicted. *)
Record kept (b b' : BufferManager) (n : nat) : Prop := {
  kp_ok : manager_ok b';
  kp_used : usedMemory b' = usedMemory b;
  kp_pool : bufferPoolSize b' = bufferPoolSize b;
  kp_bytes : loaded_bytes b' + n = loaded_bytes b;
  kp_static : map static_of (fileHandles b') = map static_of (fileHandles b);
  kp_capacity : capacity (evictionQueue b') = capacity (evictionQueue b);
  kp_size : size (evictionQueue b') + (if n =? 0 then 0 else 1) ≤ size (evictionQueue b);
  kp_locked : ∀ f p w, word_at b f p = Some w → getState w = LOCKED → word_at b' f p = Some w;
  kp_words : ∀ f p w, word_at b f p = Some w → ∃ w', word_at b' f p = Some w' ∧ (getState w = EVICTED → getState w' = EVICTED);
  kp_open : ∀ i, open_slot b' i → open_slot b i;
}.

Lemma kept_refl b : manager_ok b → kept b b 0.
Proof. intros H. split; try reflexivity; try assumption; auto; cbn; try lia. intros f p w Hw. eauto. Qed.

Lemma kept_trans b b1 b2 n m : kept b b1 n → kept b1 b2 m → kept b b2 (n + m).
Proof.
  intros [A1 A2 A3 A5 A6 A7 A8 A9 A10 A11] [B1 B2 B3 B5 B6 B7 B8 B9 B10 B11]. split; try congruence; try assumption; try lia.
  - destruct (Nat.eqb_spec n 0), (Nat.eqb_spec m 0), (Nat.eqb_spec (n + m) 0); lia.
  - intros f p w Hw Hg. apply B9; [|exact Hg]. apply A9; assumption.
  - intros f p w Hw. destruct (A10 f p w Hw) as (w1 & Hw1 & H1). destruct (B10 f p w1 Hw1) as (w2 & Hw2 & H2). exists w2. auto.
  - auto.
Qed.

Lemma set_queue_ok q b :
  manager_ok b → queue_ok q → capacity q = capacity (evictionQueue b) →
  (∀ i c, data q !! i = Some c → c ≠ EMPTY → ∃ j, data (evictionQueue b) !! j = Some c) → manager_ok (set_queue q b).
Proof.
  intros [H1 H2 H3 H4] Hq Hc Hd. split; cbn [evictionQueue set_queue fileHandles]; try assumption.
  - rewrite Hc. exact H2.
  - intros i c Hi Hne. destruct (Hd i c Hi Hne) as [j Hj]. exact (H4 j c Hj Hne).
Qed.

Lemma loaded_of w : (getState w ≠ EVICTED → loaded w = 1) ∧ (getState w = EVICTED → loaded w = 0).
Proof. unfold loaded. destruct (Z.eqb_spec (getState w) EVICTED); split; intros; auto; contradiction. Qed.

Lemma page_size_pos fh : 0 < getPageSize fh.
Proof. unfold getPageSize. destruct (isLargePaged fh); apply Nat.ltb_lt; vm_compute; reflexivity. Qed.

Lemma evict_one_kept b f p w fh i b1 q' :
  manager_ok b → word_at b f p = Some w → getState w = MARKED → fileHandles b !! f = Some fh →
  data (evictionQueue b) !! i = Some (MkCandidate (Z.of_nat f) (Z.of_nat p)) → Z.of_nat p ≠ INVALID_IDX →
  same (set_word_at f p PageState_new b) b1 → clear i (evictionQueue b) = (Ok tt, q') →
  kept b (set_queue q' b1) (getPageSize fh).
Proof.
  intros Hok Hw Hg Hf Hi Hne Hs Hcl. pose proof (word_at_inv b f p w Hw) as (fh0 & Hf0 & Hp). rewrite Hf in Hf0. injection Hf0 as <-.
  destruct (manager_ok_set b f p w PageState_new fh Hok Hf Hp valid_new) as [Hok1 Hbytes]; [rewrite getState_new; contradiction|rewrite getState_new; auto|].
  destruct (set_word_at_queue f p PageState_new b) as (Gq & Gu & Gp & Gn & Gs).
  destruct (clear_ok i _ _ (bo_queue _ Hok) Hi) as (q2 & Hcl2 & Hd & Hcap & Hsz & _ & Hqok).
  { intros E. injection E as _ E. apply Hne. exact E. }
  rewrite Hcl in Hcl2. injection Hcl2 as <-.
  split; cbn [usedMemory bufferPoolSize nonEvictableMemory evictionQueue fileHandles set_queue].
  - apply set_queue_ok; [exact (same_ok _ _ Hs Hok1)|exact Hqok|rewrite (sm_queue _ _ Hs); congruence|].
    intros j c Hj Hc. rewrite (sm_queue _ _ Hs), Gq. rewrite Hd in Hj. apply list_lookup_insert_Some in Hj as [(_ & <- & _)|[_ Hj]]; [contradiction|eauto].
  - rewrite (sm_used _ _ Hs). exact Gu.
  - rewrite (sm_pool _ _ Hs). exact Gp.
  - change (loaded_bytes (set_queue q' b1)) with (loaded_bytes b1). rewrite (same_bytes _ _ Hs).
    rewrite (proj1 (loaded_of w)), (proj2 (loaded_of PageState_new) getState_new) in Hbytes by (rewrite Hg; discriminate). lia.
  - rewrite (sm_static _ _ Hs). exact Gs.
  - exact Hcap.
  - pose proof (page_size_pos fh). destruct (Nat.eqb_spec (getPageSize fh) 0); lia.
  - intros f' p' w' Hw' Hg'. change (word_at (set_queue q' b1) f' p') with (word_at b1 f' p').
    rewrite (sm_words _ _ Hs), (word_at_set f p PageState_new b f' p' w Hw). destruct (decide (f' = f ∧ p' = p)) as [[-> ->]|_]; [|exact Hw'].
    rewrite Hw in Hw'. injection Hw' as <-. rewrite Hg in Hg'. discriminate Hg'.
  - intros f' p' w' Hw'. change (word_at (set_queue q' b1) f' p') with (word_at b1 f' p').
    rewrite (sm_words _ _ Hs), (word_at_set f p PageState_new b f' p' w Hw). destruct (decide (f' = f ∧ p' = p)); eauto.
  - intros j (f' & p' & w' & H1 & H2 & H3 & H4). cbn [evictionQueue set_queue] in H1. rewrite Hd in H1.
    change (word_at (set_queue q' b1) f' p') with (word_at b1 f' p') in H3.
    rewrite (sm_words _ _ Hs), (word_at_set f p PageState_new b f' p' w Hw) in H3.
    apply list_lookup_insert_Some in H1 as [(_ & E & _)|[_ H1]]; [exfalso; apply H2; symmetry; exact E|]. exists f', p'.
    destruct (decide (f' = f ∧ p' = p)) as [[-> ->]|_]; [exists w; auto|exists w'; auto].
Qed.

(** [tryEvictPage]: a marked page is evicted, any other left alone. *)
Lemma tryEvictPage_ok b i c :
  manager_ok b → data (evictionQueue b) !! i = Some c →
  ∃ n b', tryEvictPage i b = (Ok (Z.of_nat n), b') ∧ kept b b' n ∧ n ≤ TEMP_PAGE_SIZE ∧
    evictionCursor (evictionQueue b') = evictionCursor (evictionQueue b) ∧
    (∀ f p w, c ≠ EMPTY → c = MkCandidate (Z.of_nat f) (Z.of_nat p) → word_at b f p = Some w → getState w = MARKED → 0 < n).
Proof.
  intros Hok Hi. destruct (decide (c = EMPTY)) as [->|Hc].
  - exists 0, b. split; [|split; [apply kept_refl, Hok|split; [lia|split; [reflexivity|]]]].
    + unfold tryEvictPage. rewrite (M_bind_ok get_state _ b b b eq_refl), Hi. reflexivity.
    + intros f p w Hne. contradiction.
  - destruct (bo_candidates b Hok i c Hi Hc) as (f & p & w & -> & Hw & Hne). pose proof (word_at_inv b f p w Hw) as (fh & Hf & Hp).
    destruct (Z.eq_dec (getState w) MARKED) as [Hg|Hg].
    + destruct (evict_one b f p w fh i Hok Hw Hg Hf Hi Hne) as (b1 & q' & Hrun & Hs & Hcl).
      exists (getPageSize fh), (set_queue q' b1). split; [exact Hrun|]. split; [exact (evict_one_kept b f p w fh i b1 q' Hok Hw Hg Hf Hi Hne Hs Hcl)|].
      split; [unfold getPageSize; destruct (isLargePaged fh); apply Nat.leb_le; vm_compute; reflexivity|].
      split; [|intros; apply page_size_pos]. cbn [evictionQueue set_queue].
      destruct (clear_ok i _ _ (bo_queue _ Hok) Hi Hc) as (q2 & Hcl2 & _ & _ & _ & Hcur & _). congruence.
    + exists 0, b. split; [|split; [apply kept_refl, Hok|split; [lia|split; [reflexivity|]]]].
      * unfold tryEvictPage. rewrite (M_bind_ok get_state _ b b b eq_refl), Hi. cbn [pageIdx fileIdx]. rewrite (proj2 (Z.eqb_neq _ _) Hne), !Nat2Z.id.
        rewrite (M_bind_ok _ _ _ _ _ (on_state_get f p b w Hw)). unfold PageProtocol.isEvictable. rewrite (proj2 (Z.eqb_neq _ _) Hg). reflexivity.
      * intros f' p' w' _ E Hw' Hg'. injection E as E1 E2. apply Nat2Z.inj in E1, E2. subst f' p'. rewrite Hw in Hw'. injection Hw' as <-. contradiction.
Qed.

(** ** Looking for pages to evict *)

(** Scanning only marks pages. *)
Record scanned (b b' : BufferManager) : Prop := {
  sc_kept : kept b b' 0;
  sc_data : data (evictionQueue b') = data (evictionQueue b);
  sc_words : ∀ f p w, word_at b f p = Some w → ∃ w', word_at b' f p = Some w' ∧
    (getState w = MARKED → getState w' = MARKED) ∧ (getState w = UNLOCKED → getState w' = UNLOCKED ∨ getState w' = MARKED);
}.

Lemma scanned_refl b : manager_ok b → scanned b b.
Proof. intros H. split; [apply kept_refl, H|reflexivity|]. intros f p w Hw. exists w. auto. Qed.

Lemma scanned_trans b b1 b2 : scanned b b1 → scanned b1 b2 → scanned b b2.
Proof.
  intros [A1 A2 A3] [B1 B2 B3]. split; [exact (kept_trans _ _ _ 0 0 A1 B1)|congruence|].
  intros f p w Hw. destruct (A3 f p w Hw) as (w1 & Hw1 & H1 & H2). destruct (B3 f p w1 Hw1) as (w2 & Hw2 & H3 & H4).
  exists w2. split; [exact Hw2|]. split; [auto|]. intros H. destruct (H2 H); auto.
Qed.

Lemma scanned_ready b b' i : scanned b b' → ready_slot b i → ready_slot b' i.
Proof.
  intros [_ Hd Hw] (f & p & w & H1 & H2 & H3 & H4). destruct (Hw f p w H3) as (w' & H5 & H6 & _). exists f, p, w'. rewrite Hd. auto.
Qed.

Lemma scanned_open b b' i : scanned b b' → open_slot b i → open_slot b' i.
Proof.
  intros [_ Hd Hw] (f & p & w & H1 & H2 & H3 & H4). destruct (Hw f p w H3) as (w' & H5 & H6 & H7). exists f, p, w'. rewrite Hd. destruct H4; auto 10.
Qed.

Lemma open_ready b i f p w :
  open_slot b i → data (evictionQueue b) !! i = Some (MkCandidate (Z.of_nat f) (Z.of_nat p)) → word_at b f p = Some w →
  getState w = UNLOCKED ∨ getState w = MARKED.
Proof.
  intros (f' & p' & w' & H1 & _ & H3 & H4) Hd Hw. rewrite H1 in Hd. injection Hd as E1 E2. apply Nat2Z.inj in E1, E2. subst. congruence.
Qed.

(** Marking the page of a candidate. *)
Lemma mark_scanned b f p w :
  manager_ok b → word_at b f p = Some w → getState w = UNLOCKED →
  scanned b (set_word_at f p (updateStateWithSameVersion w MARKED) b).
Proof.
  intros Hok Hw Hg. pose proof (word_at_inv b f p w Hw) as (fh & Hf & Hp). pose proof (manager_word b f p w fh Hok Hf Hp) as Hv.
  destruct (valid_retag w MARKED Hv ltac:(unfold is_lock_state, MARKED; lia)) as [Hv1 Hg1]. set (w1 := updateStateWithSameVersion w MARKED) in *.
  pose proof (manager_handle b f fh Hok Hf) as Hfh.
  destruct (manager_ok_set b f p w w1 fh Hok Hf Hp Hv1) as [Hok1 Hbytes].
  { intros _. apply (ho_loaded fh Hfh p w Hp). rewrite Hg. discriminate. }
  { intros Hm. destruct (ho_memory fh Hfh Hm p w Hp) as [H|H]; rewrite Hg in H; discriminate H. }
  destruct (set_word_at_queue f p w1 b) as (Gq & Gu & Gp & Gn & Gs).
  rewrite !(proj1 (loaded_of _)) in Hbytes by (rewrite ?Hg, ?Hg1; discriminate).
  split; [split; rewrite ?Gq; auto; cbn [Nat.eqb]; try lia| |].
  - intros f' p' w' Hw' Hg'. rewrite (word_at_set f p w1 b f' p' w Hw). destruct (decide (f' = f ∧ p' = p)) as [[-> ->]|_]; [|exact Hw'].
    rewrite Hw in Hw'. injection Hw' as <-. rewrite Hg in Hg'. discriminate Hg'.
  - intros f' p' w' Hw'. rewrite (word_at_set f p w1 b f' p' w Hw). destruct (decide (f' = f ∧ p' = p)) as [[-> ->]|_]; [|eauto].
    rewrite Hw in Hw'. injection Hw' as <-. exists w1. split; [reflexivity|]. rewrite Hg. discriminate.
  - intros i (f' & p' & w' & H1 & H2 & H3 & H4). rewrite Gq in H1. rewrite (word_at_set f p w1 b f' p' w Hw) in H3. exists f', p'.
    destruct (decide (f' = f ∧ p' = p)) as [[-> ->]|_]; [exists w; auto|exists w'; auto].
  - rewrite Gq. reflexivity.
  - intros f' p' w' Hw'. rewrite (word_at_set f p w1 b f' p' w Hw). destruct (decide (f' = f ∧ p' = p)) as [[-> ->]|_].
    + exists w1. auto.
    + exists w'. auto.
Qed.

Lemma scan_slot_ok b i :
  manager_ok b → i < capacity (evictionQueue b) →
  ∃ ev b', scan_slot i b = (Ok ev, b') ∧ scanned b b' ∧ evictionQueue b' = evictionQueue b ∧
    (if ev : bool then ready_slot b i else ¬ ready_slot b i ∧ (open_slot b i → ready_slot b' i)).
Proof.
  intros Hok Hi. destruct (lookup_lt_is_Some_2 (data (evictionQueue b)) i) as [c Hc]; [rewrite (qo_length _ (bo_queue _ Hok)); exact Hi|].
  unfold scan_slot. rewrite (M_bind_ok get_state _ b b b eq_refl), Hc. destruct (decide (c = EMPTY)) as [->|Hne].
  { exists false, b. split; [reflexivity|]. split; [apply scanned_refl, Hok|]. split; [reflexivity|].
    split; intros (f & p & w & H1 & H2 & _); exfalso; apply H2; congruence. }
  destruct (bo_candidates b Hok i c Hc Hne) as (f & p & w & -> & Hw & _). cbn [fileIdx pageIdx]. rewrite !Nat2Z.id.
  pose proof (word_at_inv b f p w Hw) as (fh & Hf & Hp). apply lookup_lt_Some in Hf as Hlt.
  unfold ku_assert. rewrite (proj2 (Z.ltb_lt _ _)) by lia. rewrite (M_bind_ok (mret tt) _ b tt b eq_refl).
  rewrite (M_bind_ok _ _ _ _ _ (on_state_get f p b w Hw)). unfold PageProtocol.isEvictable, PageProtocol.isSecondChanceEvictable.
  destruct (Z.eqb_spec (getState w) MARKED) as [Hg|Hg].
  { exists true, b. split; [reflexivity|]. split; [apply scanned_refl, Hok|]. split; [reflexivity|]. exists f, p, w. auto. }
  assert (Hnr : ¬ ready_slot b i).
  { intros (f' & p' & w' & H1 & _ & H3 & H4). rewrite Hc in H1. injection H1 as E1 E2. apply Nat2Z.inj in E1, E2. subst. congruence. }
  destruct (Z.eqb_spec (getState w) UNLOCKED) as [Hu|Hu].
  - pose proof (mark_scanned b f p w Hok Hw Hu) as Hs. set (w1 := updateStateWithSameVersion w MARKED) in *. set (b1 := set_word_at f p w1 b) in *.
    exists false, b1. split; [|split; [exact Hs|split; [apply set_word_at_queue|split; [exact Hnr|]]]].
    + rewrite (M_bind_ok _ _ b tt b1); [reflexivity|].
      rewrite (M_bind_ok _ _ b true b1); [reflexivity|]. apply (on_state_run f p (tryMark w) b w (Ok true) w1 Hw).
      unfold tryMark, compare_exchange_strong. rewrite Z.eqb_refl. reflexivity.
    + intros _. exists f, p, w1. rewrite (sc_data _ _ Hs). split; [exact Hc|]. split; [exact Hne|].
      split; [unfold b1; rewrite (word_at_set f p w1 b f p w Hw), decide_True by auto; reflexivity|].
      pose proof (word_at_inv b f p w Hw) as (fh' & Hf' & Hp'). apply (valid_retag w MARKED (manager_word b f p w fh' Hok Hf' Hp')).
      unfold is_lock_state, MARKED. lia.
  - exists false, b. split; [reflexivity|]. split; [apply scanned_refl, Hok|]. split; [reflexivity|]. split; [exact Hnr|].
    intros Ho. destruct (open_ready b i f p w Ho Hc Hw); contradiction.
Qed.

Lemma scan_slots_ok slots : ∀ b,
  manager_ok b → Forall (λ i, i < capacity (evictionQueue b)) slots →
  ∃ found b', scan_slots slots b = (Ok found, b') ∧ scanned b b' ∧ evictionQueue b' = evictionQueue b ∧ length found ≤ length slots ∧
    Forall (ready_slot b') found ∧ Forall (λ i, i < capacity (evictionQueue b)) found ∧
    (found = [] → ∀ i, i ∈ slots → ¬ ready_slot b i ∧ (open_slot b i → ready_slot b' i)).
Proof.
  induction slots as [|i slots IH]; intros b Hok Hall.
  - exists [], b. split; [reflexivity|]. split; [apply scanned_refl, Hok|]. split; [reflexivity|]. split; [reflexivity|]. split; [constructor|]. split; [constructor|].
    intros _ i Hi. inversion Hi.
  - apply Forall_cons in Hall as [Hi Hall]. destruct (scan_slot_ok b i Hok Hi) as (ev & b1 & H1 & Hs1 & Hq1 & Hev).
    destruct (IH b1 (kp_ok _ _ _ (sc_kept _ _ Hs1))) as (found & b2 & H2 & Hs2 & Hq2 & Hlen & Hr & Hc & Hno).
    { rewrite (kp_capacity _ _ _ (sc_kept _ _ Hs1)). exact Hall. }
    cbn [scan_slots]. rewrite (M_bind_ok _ _ _ _ _ H1), (M_bind_ok _ _ _ _ _ H2).
    rewrite (kp_capacity _ _ _ (sc_kept _ _ Hs1)) in Hc. pose proof (scanned_trans _ _ _ Hs1 Hs2) as Hs.
    exists (if ev then i :: found else found), b2. split; [reflexivity|]. split; [exact Hs|]. split; [congruence|]. destruct ev; cbn [length].
    + split; [lia|]. split; [constructor; [exact (scanned_ready _ _ _ Hs Hev)|exact Hr]|]. split; [constructor; assumption|]. discriminate.
    + split; [lia|]. split; [exact Hr|]. split; [exact Hc|]. intros E j Hj. apply elem_of_cons in Hj as [->|Hj].
      * destruct Hev as [Hn Ho]. split; [exact Hn|]. intros H. exact (scanned_ready _ _ _ Hs2 (Ho H)).
      * destruct (Hno E j Hj) as [Hn Ho]. split; [intros H; exact (Hn (scanned_ready _ _ _ Hs1 H))|].
        intros H. exact (Ho (scanned_open _ _ _ Hs1 H)).
Qed.

(** *** Batches *)

Abbreviation BATCH := (Z.of_nat BATCH_SIZE).

Lemma batch_in_range x cap :
  0 < cap → cap mod BATCH_SIZE = 0 → (0 ≤ x)%Z → (x mod BATCH = 0)%Z → Z.to_nat (x mod Z.of_nat cap) + BATCH_SIZE ≤ cap.
Proof.
  intros Hc Hm Hx Hb. apply Z.mod_divide in Hb as [k Hk]; [|discriminate].
  assert (Hd : (∃ m, Z.of_nat cap = m * BATCH)%Z).
  { exists (Z.of_nat (cap / BATCH_SIZE)). pose proof (Nat.div_mod_eq cap BATCH_SIZE). unfold BATCH_SIZE in *. lia. }
  destruct Hd as [m Hm']. assert (Hmp : (0 < m)%Z) by (unfold BATCH_SIZE in *; lia).
  rewrite Hm', Hk, (Z.mul_comm k), (Z.mul_comm m), Zmult_mod_distr_l.
  pose proof (Z.mod_pos_bound k m Hmp). unfold BATCH_SIZE in *. lia.
Qed.

(** Batch [j] from the cursor on. *)
Definition batch_start (q : EvictionQueue) (j : nat) : nat :=
  Z.to_nat ((evictionCursor q + BATCH * Z.of_nat j) mod Z.of_nat (capacity q)).
Definition in_batch (q : EvictionQueue) (j i : nat) : Prop := batch_start q j ≤ i < batch_start q j + BATCH_SIZE.

Lemma queue_next_ok q :
  queue_ok q → (evictionCursor q + BATCH < 2 ^ 64)%Z →
  ∃ q', next q = (Ok (batch_start q 1), q') ∧ queue_ok q' ∧ data q' = data q ∧ capacity q' = capacity q ∧ size q' = size q ∧
    evictionCursor q' = (evictionCursor q + BATCH)%Z ∧ batch_start q 1 + BATCH_SIZE ≤ capacity q.
Proof.
  intros [H1 H2 H3 H4 H5 [H6 H7]] Hb. unfold next. rewrite uwrap_small by (unfold BATCH_SIZE in *; lia). cbn zeta.
  assert (Hmod : ((evictionCursor q + BATCH) mod BATCH = 0)%Z).
  { rewrite <- (Z.mul_1_l BATCH) at 1. rewrite Z_mod_plus_full. exact H7. }
  eexists. split; [reflexivity|]. split; [|split_and!; try reflexivity].
  - split; cbn [data capacity size insertCursor evictionCursor]; try assumption. split; [unfold BATCH_SIZE; lia|exact Hmod].
  - unfold batch_start. rewrite Z.mul_1_r. apply batch_in_range; try assumption. unfold BATCH_SIZE. lia.
Qed.

Lemma advance_scanned b q' :
  manager_ok b → queue_ok q' → data q' = data (evictionQueue b) → capacity q' = capacity (evictionQueue b) →
  size q' = size (evictionQueue b) → scanned b (set_queue q' b).
Proof.
  intros Hok Hq Hd Hc Hs. assert (Hok' : manager_ok (set_queue q' b)).
  { apply set_queue_ok; try assumption. intros i c Hi _. rewrite Hd in Hi. eauto. }
  split; [split; try reflexivity; try assumption; cbn [evictionQueue set_queue Nat.eqb]|exact Hd|].
  - change (loaded_bytes (set_queue q' b)) with (loaded_bytes b). lia.
  - lia.
  - intros f p w Hw _. exact Hw.
  - intros f p w Hw. exists w. auto.
  - intros i (f & p & w & H1 & H2 & H3 & H4). cbn [evictionQueue set_queue] in H1. rewrite Hd in H1. exists f, p, w. auto.
  - intros f p w Hw. exists w. auto.
Qed.

Lemma in_batch_later q q' j i :
  capacity q' = capacity q → evictionCursor q' = (evictionCursor q + BATCH)%Z → in_batch q (S j) i → in_batch q' j i.
Proof.
  intros Hc He. unfold in_batch, batch_start. rewrite Hc, He.
  replace (evictionCursor q + BATCH + BATCH * Z.of_nat j)%Z with (evictionCursor q + BATCH * Z.of_nat (S j))%Z by lia. auto.
Qed.

(** A batch without candidates, and then the rest. *)
Lemma batch_passed fuel b b2 i j :
  scanned b b2 → capacity (evictionQueue b2) = capacity (evictionQueue b) →
  evictionCursor (evictionQueue b2) = (evictionCursor (evictionQueue b) + BATCH)%Z →
  (∀ i, in_batch (evictionQueue b) 1 i → ¬ ready_slot b i ∧ (open_slot b i → ready_slot b2 i)) →
  (∀ i j, 1 ≤ j ≤ fuel → in_batch (evictionQueue b2) j i →
     ¬ ready_slot b2 i ∧ (open_slot b2 i → ∀ k, j < k ≤ fuel → ¬ in_batch (evictionQueue b2) k i)) →
  1 ≤ j ≤ S fuel → in_batch (evictionQueue b) j i →
  ¬ ready_slot b i ∧ (open_slot b i → ∀ k, j < k ≤ S fuel → ¬ in_batch (evictionQueue b) k i).
Proof.
  intros Hs Hc He H1 Hrest Hj Hin. destruct (decide (j = 1)) as [->|Hne].
  - destruct (H1 i Hin) as [Hn Ho]. split; [exact Hn|]. intros Hopen k Hk Hin2. destruct k as [|k]; [lia|].
    apply (in_batch_later _ (evictionQueue b2)) in Hin2; [|exact Hc|exact He]. destruct (Hrest i k ltac:(lia) Hin2) as [Hn2 _].
    exact (Hn2 (Ho Hopen)).
  - destruct j as [|j]; [lia|]. apply (in_batch_later _ (evictionQueue b2)) in Hin; [|exact Hc|exact He].
    destruct (Hrest i j ltac:(lia) Hin) as [Hn2 Ho2]. split; [intros H; exact (Hn2 (scanned_ready _ _ _ Hs H))|].
    intros Hopen k Hk Hin2. destruct k as [|k]; [lia|]. apply (in_batch_later _ (evictionQueue b2)) in Hin2; [|exact Hc|exact He].
    exact (Ho2 (scanned_open _ _ _ Hs Hopen) k ltac:(lia) Hin2).
Qed.

(** The loop of [evictPages] ends, and it finds a candidate if a marked page is in one of its batches, or an
    unlocked one in two of them. *)
Lemma evict_loop_ok fuel : ∀ b start limit,
  manager_ok b → (0 ≤ start)%Z → (start + limit + BATCH < 2 ^ 64)%Z →
  (evictionCursor (evictionQueue b) + BATCH * Z.of_nat fuel = start + limit)%Z → (start ≤ evictionCursor (evictionQueue b))%Z →
  ∃ found b', evict_loop fuel start limit b = (Ok found, b') ∧ scanned b b' ∧ length found ≤ BATCH_SIZE ∧
    Forall (ready_slot b') found ∧ Forall (λ i, i < capacity (evictionQueue b)) found ∧
    (evictionCursor (evictionQueue b') ≤ start + limit)%Z ∧
    (found = [] → ∀ i j, 1 ≤ j ≤ fuel → in_batch (evictionQueue b) j i →
       ¬ ready_slot b i ∧ (open_slot b i → ∀ k, j < k ≤ fuel → ¬ in_batch (evictionQueue b) k i)).
Proof.
  induction fuel as [|fuel IH]; intros b start limit Hok H0 Hlim Hcur Hle.
  - exists [], b. split.
    + cbn [evict_loop]. unfold observe. unfold_M. rewrite uwrap_small by lia. rewrite (proj2 (Z.ltb_ge _ _)) by lia. reflexivity.
    + split; [apply scanned_refl, Hok|]. split; [cbn; lia|]. split; [constructor|]. split; [constructor|]. split; [lia|]. intros _ i j Hj. lia.
  - cbn [evict_loop]. unfold BATCH_SIZE in Hcur, Hlim.
    rewrite (M_bind_ok (observe (λ b, Ok (evictionCursor (evictionQueue b)))) _ b _ b eq_refl). rewrite uwrap_small by lia.
    rewrite (proj2 (Z.ltb_lt _ _)) by lia.
    destruct (queue_next_ok (evictionQueue b) (bo_queue _ Hok)) as (q1 & Hn & Hq1 & Hd1 & Hc1 & Hs1 & He1 & Hb1); [unfold BATCH_SIZE; lia|].
    pose proof (advance_scanned b q1 Hok Hq1 Hd1 Hc1 Hs1) as Hsc1. set (b1 := set_queue q1 b) in *.
    rewrite (M_bind_ok (on_queue next) _ b (batch_start (evictionQueue b) 1) b1) by (unfold on_queue; rewrite Hn; reflexivity).
    destruct (scan_slots_ok (seq (batch_start (evictionQueue b) 1) BATCH_SIZE) b1 (kp_ok _ _ _ (sc_kept _ _ Hsc1))) as
      (found & b2 & Hrun & Hsc2 & Hq2 & Hlen & Hready & Hrange & Hnone).
    { apply Forall_seq. intros i Hi. cbn [b1 evictionQueue set_queue]. rewrite Hc1. lia. }
    rewrite (M_bind_ok _ _ _ _ _ Hrun). pose proof (scanned_trans _ _ _ Hsc1 Hsc2) as Hsc.
    rewrite length_seq in Hlen. cbn [b1 evictionQueue set_queue] in Hrange. rewrite Hc1 in Hrange.
    change (evictionQueue b1) with q1 in Hq2. destruct found as [|i0 found].
    + destruct (IH b2 start limit (kp_ok _ _ _ (sc_kept _ _ Hsc)) H0) as (found & b3 & Hrun3 & Hsc3 & Hlen3 & Hready3 & Hrange3 & Hcur3 & Hnone3);
        [unfold BATCH_SIZE; lia|rewrite Hq2, He1; unfold BATCH_SIZE; lia|rewrite Hq2, He1; unfold BATCH_SIZE; lia|].
      exists found, b3. split; [exact Hrun3|]. split; [exact (scanned_trans _ _ _ Hsc Hsc3)|]. split; [exact Hlen3|]. split; [exact Hready3|].
      split; [rewrite Hq2, Hc1 in Hrange3; exact Hrange3|]. split; [exact Hcur3|]. intros E i j Hj Hin.
      apply (batch_passed fuel b b2 i j Hsc); try assumption; try (rewrite Hq2; assumption); [|intros i' j'; apply (Hnone3 E)].
      intros i' Hi'. destruct (Hnone eq_refl i') as [Hn1 Ho1]; [apply elem_of_seq; unfold in_batch in Hi'; lia|].
      split; [intros H; exact (Hn1 (scanned_ready _ _ _ Hsc1 H))|intros H; exact (Ho1 (scanned_open _ _ _ Hsc1 H))].
    + exists (i0 :: found), b2. split; [reflexivity|]. split; [exact Hsc|]. split; [exact Hlen|]. split; [exact Hready|]. split; [exact Hrange|].
      split; [rewrite Hq2, He1; unfold BATCH_SIZE; lia|]. discriminate.
Qed.

(** ** Evicting pages *)

Lemma temp_page_size : Z.of_nat TEMP_PAGE_SIZE = (2 ^ 18)%Z.
Proof. unfold TEMP_PAGE_SIZE. lia. Qed.

Lemma evict_all_ok slots : ∀ b,
  manager_ok b → Forall (λ i, i < capacity (evictionQueue b)) slots → length slots ≤ BATCH_SIZE →
  ∃ n b', evict_all slots b = (Ok (Z.of_nat n), b') ∧ kept b b' n ∧ n ≤ length slots * TEMP_PAGE_SIZE ∧
    evictionCursor (evictionQueue b') = evictionCursor (evictionQueue b) ∧
    (∀ i, head slots = Some i → ready_slot b i → 0 < n).
Proof.
  pose proof temp_page_size as HT. induction slots as [|i slots IH]; intros b Hok Hall Hlen.
  - exists 0, b. split; [reflexivity|]. split; [apply kept_refl, Hok|]. split; [lia|]. split; [reflexivity|]. discriminate.
  - apply Forall_cons in Hall as [Hi Hall]. cbn [length] in Hlen.
    destruct (lookup_lt_is_Some_2 (data (evictionQueue b)) i) as [c Hc]; [rewrite (qo_length _ (bo_queue _ Hok)); exact Hi|].
    destruct (tryEvictPage_ok b i c Hok Hc) as (n & b1 & H1 & Hk1 & Hn & Hcur1 & Hpos).
    destruct (IH b1 (kp_ok _ _ _ Hk1)) as (m & b2 & H2 & Hk2 & Hm & Hcur2 & _); [rewrite (kp_capacity _ _ _ Hk1); exact Hall|lia|].
    exists (n + m), b2. cbn [evict_all]. rewrite (M_bind_ok _ _ _ _ _ H1), (M_bind_ok _ _ _ _ _ H2). split.
    + unfold mret, M_ret. rewrite uwrap_small; [f_equal; f_equal; lia|]. unfold BATCH_SIZE in Hlen. nia.
    + split; [exact (kept_trans _ _ _ _ _ Hk1 Hk2)|]. cbn [length]. split; [lia|]. split; [congruence|].
      intros i' [= <-] (f & p & w & Hd & Hne & Hw & Hg). rewrite Hc in Hd. injection Hd as ->. specialize (Hpos f p w Hne eq_refl Hw Hg). lia.
Qed.

(** Every slot is in one of the batches of one round over the queue. *)
Lemma slot_in_round q i :
  queue_ok q → i < capacity q → ∃ j, 1 ≤ j ≤ capacity q / BATCH_SIZE ∧ in_batch q j i ∧ in_batch q (j + capacity q / BATCH_SIZE) i.
Proof.
  intros [H1 H2 H3 H4 H5 [H6 H7]] Hi. set (m := capacity q / BATCH_SIZE).
  assert (Hcap : Z.of_nat (capacity q) = (BATCH * Z.of_nat m)%Z).
  { unfold m. pose proof (Nat.div_mod_eq (capacity q) BATCH_SIZE). lia. }
  assert (Hm : 0 < m) by (unfold BATCH_SIZE in *; lia). apply Z.mod_divide in H7 as [k Hk]; [|discriminate].
  assert (Hstart : ∀ j, batch_start q j = Z.to_nat (BATCH * ((k + Z.of_nat j) mod Z.of_nat m))).
  { intros j. unfold batch_start. rewrite Hcap, Hk. replace (k * BATCH + BATCH * Z.of_nat j)%Z with (BATCH * (k + Z.of_nat j))%Z by lia.
    rewrite Zmult_mod_distr_l. reflexivity. }
  set (blk := (Z.of_nat i / BATCH)%Z).
  assert (Hblk : (0 ≤ blk < Z.of_nat m)%Z).
  { unfold blk. split; [apply Z.div_pos; unfold BATCH_SIZE; lia|]. apply Z.div_lt_upper_bound; [unfold BATCH_SIZE; lia|lia]. }
  assert (Hi' : (BATCH * blk ≤ Z.of_nat i < BATCH * blk + BATCH)%Z).
  { unfold blk. pose proof (Z.div_mod (Z.of_nat i) BATCH ltac:(discriminate)). pose proof (Z.mod_pos_bound (Z.of_nat i) BATCH ltac:(reflexivity)). lia. }
  set (j := Z.to_nat ((blk - k - 1) mod Z.of_nat m + 1)). pose proof (Z.mod_pos_bound (blk - k - 1) (Z.of_nat m) ltac:(lia)) as Hj.
  assert (Hjm : ((k + Z.of_nat j) mod Z.of_nat m = blk)%Z).
  { unfold j. rewrite Z2Nat.id by lia. replace (k + ((blk - k - 1) mod Z.of_nat m + 1))%Z with ((k + 1) + (blk - k - 1) mod Z.of_nat m)%Z by lia.
    rewrite Zplus_mod_idemp_r. replace (k + 1 + (blk - k - 1))%Z with blk by lia. apply Z.mod_small, Hblk. }
  exists j. split; [unfold j; lia|]. unfold in_batch. rewrite !Hstart. split.
  - rewrite Hjm. unfold BATCH_SIZE in *. lia.
  - replace (k + Z.of_nat (j + m))%Z with (k + Z.of_nat j + 1 * Z.of_nat m)%Z by lia. rewrite Z_mod_plus_full, Hjm. unfold BATCH_SIZE in *. lia.
Qed.

(** [evictPages] returns what it has evicted, and evicts something if any page of a candidate is unlocked or
    marked. *)
Lemma evictPages_ok b :
  manager_ok b → (evictionCursor (evictionQueue b) + 2 * Z.of_nat (capacity (evictionQueue b)) + BATCH < 2 ^ 64)%Z →
  ∃ n b', evictPages b = (Ok (Z.of_nat n), b') ∧ kept b b' n ∧
    (evictionCursor (evictionQueue b') ≤ evictionCursor (evictionQueue b) + 2 * Z.of_nat (capacity (evictionQueue b)))%Z ∧
    ((∃ i, open_slot b i) → 0 < n).
Proof.
  intros Hok Hb. set (q := evictionQueue b) in *. pose proof (bo_queue _ Hok) as Hq. fold q in Hq.
  assert (Hm : 2 * capacity q / BATCH_SIZE = capacity q / BATCH_SIZE + capacity q / BATCH_SIZE ∧ capacity q = BATCH_SIZE * (capacity q / BATCH_SIZE)).
  { pose proof (Nat.div_mod_eq (capacity q) BATCH_SIZE) as Hd. rewrite (qo_batch _ Hq) in Hd.
    pose proof (Nat.div_mod_eq (2 * capacity q) BATCH_SIZE). pose proof (Nat.mod_upper_bound (2 * capacity q) BATCH_SIZE ltac:(discriminate)).
    unfold BATCH_SIZE in *. lia. }
  destruct Hm as [Hm Hcap]. destruct (qo_evict _ Hq) as [He _].
  destruct (evict_loop_ok (2 * capacity q / BATCH_SIZE) b (evictionCursor q) (Z.of_nat (2 * capacity q)) Hok He) as
    (found & b1 & Hrun & Hsc & Hlen & Hready & Hrange & Hcur & Hnone); [lia|fold q; unfold BATCH_SIZE in *; lia|fold q; lia|].
  destruct (evict_all_ok found b1 (kp_ok _ _ _ (sc_kept _ _ Hsc))) as (n & b2 & Hrun2 & Hk & _ & Hcur2 & Hpos);
    [rewrite (kp_capacity _ _ _ (sc_kept _ _ Hsc)); exact Hrange|exact Hlen|].
  exists n, b2. split; [|split; [exact (kept_trans _ _ _ 0 n (sc_kept _ _ Hsc) Hk)|split; [rewrite Hcur2; lia|]]].
  - unfold evictPages. rewrite (M_bind_ok get_state _ b b b eq_refl). fold q. cbn zeta. rewrite (M_bind_ok _ _ _ _ _ Hrun). exact Hrun2.
  - intros (i & Ho). destruct found as [|i0 found].
    + exfalso. pose proof Ho as (f & p & w & Hd & _). apply lookup_lt_Some in Hd. fold q in Hd. rewrite (qo_length _ Hq) in Hd.
      destruct (slot_in_round q i Hq Hd) as (j & Hj & Hin1 & Hin2).
      destruct (Hnone eq_refl i j ltac:(lia) Hin1) as [_ H]. apply (H Ho (j + capacity q / BATCH_SIZE)); [lia|exact Hin2].
    + apply Forall_cons in Hready as [Hr _]. exact (Hpos i0 eq_refl Hr).
Qed.

End Versions.
