(* ===== verification/BufferAccounting.v ===== *)
(** * Theorems on the buffer manager

    [evictPages] makes progress, [reserve] ends and keeps the memory in use within the pool, and the counter
    [usedMemory] is exact through every sequence of operations, errors included. *)

From stdpp Require Import base numbers list gmap strings.
From Stdlib Require Import ZArith Lia.
From S2P Require Import Prelude PageState PageProtocol PageSpec BufferedFile BufferManager BufferSpec.
Import FileInfo PageState EvictionQueue BufferManager.

#[local] Opaque updateStateWithSameVersion updateStateAndIncrementVersion getState isDirty pack PageState_new.

(** ** Reserving memory *)

(** A spiller that has no group to spill: [Spiller::claimNextGroup] returns an empty result. *)
Definition idle_spiller : M BufferManager (Z * Z) := mret (0%Z, 0%Z).

(** A database in memory or read only has no spiller, another one has; it is idle but while relationships are
    being copied. *)
Class Idle (spiller : option (M BufferManager (Z * Z))) : Prop :=
  idle_cases : spiller = None ∨ spiller = Some idle_spiller.
#[global] Instance idle_none : Idle None.
Proof. left. reflexivity. Qed.
#[global] Instance idle_some : Idle (Some idle_spiller).
Proof. right. reflexivity. Qed.

Section Reserve.
Context (N : Z) (HN : (0 ≤ N)%Z).
Context {spiller : option (M BufferManager (Z * Z))} `{!Idle spiller}.

Abbreviation BATCH := (Z.of_nat BATCH_SIZE).
Abbreviation cursor b := (evictionCursor (evictionQueue b)).
Abbreviation slots b := (capacity (evictionQueue b)).

(** What [n] rounds of [evictPages] add to the cursor at most. *)
Definition advance (n : nat) (b : BufferManager) : Z := (Z.of_nat n * (2 * Z.of_nat (slots b)))%Z.

Lemma needMore_kept size n b b' k :
  kept N b b' k → needMoreMemory size n b' = needMoreMemory size n b.
Proof. intros H. unfold needMoreMemory. rewrite (kp_pool _ _ _ _ H), (kp_used _ _ _ _ H). reflexivity. Qed.

(** One round of the loop of [reserve]: the pages of [evictPages]. *)
Definition claim_round : M BufferManager (Z * Z) :=
  b ← get_state;
  match spiller with
  | Some claimNextGroup =>
      if (Z.quot (bufferPoolSize b) 2 <? uwrap 64 (usedMemory b - nonEvictableMemory b))%Z
      then memoryClaimed ← evictPages; mret (memoryClaimed, 0%Z)
      else
        '(memoryClaimed, nowEvictableMemory) ← claimNextGroup;
        modify (λ b, set_nonEvictable (uwrap 64 (nonEvictableMemory b - nowEvictableMemory)) b) ;;
        let nonEvictable := uwrap 64 (0 + memoryClaimed) in
        if (memoryClaimed =? 0)%Z || (0 <? nowEvictableMemory)%Z
        then memoryClaimed ← evictPages; mret (memoryClaimed, nonEvictable)
        else mret (memoryClaimed, nonEvictable)
  | None => memoryClaimed ← evictPages; mret (memoryClaimed, 0%Z)
  end.

Lemma claim_round_ok b :
  manager_ok N b → (cursor b + 2 * Z.of_nat (slots b) + BATCH < 2 ^ 64)%Z →
  ∃ n b', claim_round b = (Ok (Z.of_nat n, 0%Z), b') ∧ kept N b b' n ∧ (cursor b' ≤ cursor b + 2 * Z.of_nat (slots b))%Z ∧
    ((∃ i, open_slot b i) → 0 < n).
Proof.
  intros Hok Hcur. unfold claim_round. rewrite (M_bind_ok get_state _ b b b eq_refl).
  destruct (evictPages_ok N HN b Hok Hcur) as (n & b1 & Hrun & Hrest).
  destruct idle_cases as [-> | ->].
  - exists n, b1. rewrite (M_bind_ok _ _ _ _ _ Hrun). split; [reflexivity|exact Hrest].
  - destruct (_ <? _)%Z; [exists n, b1; rewrite (M_bind_ok _ _ _ _ _ Hrun); split; [reflexivity|exact Hrest]|].
    set (b0 := set_nonEvictable (uwrap 64 (nonEvictableMemory b - 0)) b).
    assert (Hok0 : manager_ok N b0) by (destruct Hok; split; assumption).
    destruct (evictPages_ok N HN b0 Hok0 Hcur) as (m & b2 & Hrun2 & [K1 K2 K3 K4 K5 K6 K7 K8 K9 K10] & Hc2 & Hp2).
    exists m, b2. split; [|split; [split; assumption|split; assumption]].
    rewrite (M_bind_ok idle_spiller _ b _ b eq_refl). cbn [Z.eqb orb].
    rewrite (M_bind_ok (modify (λ b, set_nonEvictable (uwrap 64 (nonEvictableMemory b - 0)) b)) _ b tt b0 eq_refl), (M_bind_ok _ _ _ _ _ Hrun2). reflexivity.
Qed.

(** The loop of [reserve]: it ends, with enough memory or with nothing left to evict. *)
Lemma reserve_loop_ok fuel : ∀ size total failed b,
  manager_ok N b → failed ≤ 2 → EvictionQueue.size (evictionQueue b) + 3 - failed ≤ fuel →
  (cursor b + advance fuel b + BATCH < 2 ^ 64)%Z → (Z.of_nat total + Z.of_nat (loaded_bytes b) < 2 ^ 64)%Z →
  ∃ r n b', reserve_loop spiller fuel size (Z.of_nat total) 0 failed b = (Ok (r, Z.of_nat (total + n), 0%Z), b') ∧ kept N b b' n ∧
    (cursor b' ≤ cursor b + advance fuel b)%Z ∧
    needMoreMemory size (Z.of_nat (total + n)) b' = negb r ∧ (r = false → ∀ i, ¬ open_slot b' i).
Proof.
  induction fuel as [|fuel IH]; intros size total failed b Hok Hf Hfuel Hcur Hbytes; [lia|].
  cbn [reserve_loop]. rewrite (M_bind_ok get_state _ b b b eq_refl).
  destruct (needMoreMemory size (Z.of_nat total) b) eqn:Hmore.
  2:{ exists true, 0, b. rewrite Nat.add_0_r. split; [reflexivity|]. split; [apply kept_refl, Hok|]. split; [unfold advance; lia|]. split; [exact Hmore|discriminate]. }
  unfold advance in Hcur.
  destruct (claim_round_ok b Hok) as (n & b1 & Hrun & Hk & Hc1 & Hpos); [nia|].
  rewrite (M_bind_ok _ _ b (Z.of_nat n, 0%Z) b1) by exact Hrun.
  rewrite (M_bind_ok get_state _ b1 b1 b1 eq_refl), (needMore_kept size (Z.of_nat total) b b1 n Hk), Hmore, andb_true_r.
  pose proof (kp_bytes _ _ _ _ Hk) as Hb1. pose proof (kp_capacity _ _ _ _ Hk) as Hcap. pose proof (kp_size _ _ _ _ Hk) as Hsz.
  destruct (Z.eqb_spec (Z.of_nat n) 0) as [Hn|Hn]; cbn [andb].
  - destruct (Nat.ltb_spec failed 2) as [Hlt|Hge]; cbn [negb].
    + rewrite Hn, Z.add_0_r, uwrap_small by lia. replace n with 0 in * by lia. cbn [Nat.eqb] in Hsz.
      destruct (IH size total (S failed) b1 (kp_ok _ _ _ _ Hk)) as (r & m & b2 & Hr & Hk2 & Hc2 & Hm & Hno); [lia|lia|unfold advance; nia|lia|].
      exists r, m, b2. split; [exact Hr|]. split; [exact (kept_trans _ _ _ _ 0 m Hk Hk2)|]. split; [unfold advance in *; nia|]. auto.
    + exists false, 0, b1. rewrite Nat.add_0_r. split; [reflexivity|]. replace n with 0 in * by lia. split; [exact Hk|].
      split; [unfold advance; nia|]. split; [rewrite (needMore_kept _ _ _ _ _ Hk); exact Hmore|].
      intros _ i Ho. specialize (Hpos (ex_intro _ i (kp_open _ _ _ _ Hk i Ho))). lia.
  - rewrite uwrap_small by lia. destruct (Nat.eqb_spec n 0); [lia|]. rewrite <- Nat2Z.inj_add.
    destruct (IH size (total + n) failed b1 (kp_ok _ _ _ _ Hk)) as (r & m & b2 & Hr & Hk2 & Hc2 & Hm & Hno); [lia|lia|unfold advance; nia|lia|].
    exists r, (n + m), b2. rewrite Nat.add_assoc. split; [exact Hr|]. split; [exact (kept_trans _ _ _ _ n m Hk Hk2)|].
    split; [unfold advance in *; nia|]. auto.
Qed.

(** The evictions a [reserve] may take. *)
Definition reserve_rounds (b : BufferManager) : nat := EvictionQueue.size (evictionQueue b) + 5.

Lemma set_used_ok u b : manager_ok N b → manager_ok N (set_used u b).
Proof. intros [H1 H2 H3 H4]. split; assumption. Qed.

Lemma freeUsed_ok n b :
  (0 ≤ n ≤ usedMemory b)%Z → (usedMemory b < 2 ^ 64)%Z → freeUsedMemory n b = (Ok tt, set_used (usedMemory b - n) b).
Proof.
  intros H1 H2. unfold freeUsedMemory. rewrite (M_bind_ok get_state _ b b b eq_refl). unfold ku_assert.
  rewrite (proj2 (Z.leb_le _ _)) by lia. rewrite (M_bind_ok (mret tt) _ b tt b eq_refl). unfold modify. rewrite uwrap_small by lia. reflexivity.
Qed.

Lemma loaded_set_used u b : loaded_bytes (set_used u b) = loaded_bytes b.
Proof. reflexivity. Qed.

(** What a manager keeps when [n] bytes of pages are evicted and the memory in use becomes [u]. *)
Record moved (b b' : BufferManager) (n : nat) (u : Z) : Prop := {
  mv_ok : manager_ok N b';
  mv_used : usedMemory b' = u;
  mv_pool : bufferPoolSize b' = bufferPoolSize b;
  mv_bytes : loaded_bytes b' + n = loaded_bytes b;
  mv_static : map static_of (fileHandles b') = map static_of (fileHandles b);
  mv_capacity : slots b' = slots b;
  mv_locked : ∀ f p w, word_at b f p = Some w → getState w = LOCKED → word_at b' f p = Some w;
}.

Lemma kept_moved b b0 b' n u :
  b0 = set_used (usedMemory b0) b → kept N b0 b' n → ∀ x b2, b2 = set_nonEvictable x (set_used u b') → moved b b2 n u.
Proof.
  intros Hb0 [K1 K2 K3 K5 K6 K7 K8 K9 K10 K11] x b2 ->. rewrite Hb0 in *. cbn [bufferPoolSize set_used fileHandles evictionQueue] in *.
  split; cbn [usedMemory bufferPoolSize set_used set_nonEvictable fileHandles evictionQueue]; try assumption; try reflexivity.
  destruct K1; split; assumption.
Qed.

(** [reserve]. [extra] bytes of the pages that are loaded may not be counted as used yet, if they
    cannot be evicted. *)
Lemma reserve_ok size extra b :
  manager_ok N b → (0 ≤ usedMemory b ≤ bufferPoolSize b)%Z → (bufferPoolSize b < 2 ^ 62)%Z →
  (0 ≤ extra ≤ size)%Z → (size ≤ bufferPoolSize b)%Z → (Z.of_nat (loaded_bytes b) ≤ usedMemory b + extra)%Z →
  (∀ u b' n, kept N (set_used u b) b' n → (extra ≤ Z.of_nat (loaded_bytes b'))%Z) → (cursor b + advance (reserve_rounds b) b < 2 ^ 64)%Z →
  ∃ r n b', reserve spiller size b = (Ok r, b') ∧
    moved b b' n (if r : bool then usedMemory b + size - Z.of_nat n else usedMemory b - Z.of_nat n)%Z ∧
    (0 ≤ usedMemory b' ≤ bufferPoolSize b')%Z ∧
    (cursor b' ≤ cursor b + advance (reserve_rounds b) b)%Z ∧
    (r = false → (bufferPoolSize b < usedMemory b + size + Z.of_nat n)%Z ∧ ∀ i, ¬ open_slot b' i).
Proof.
  intros Hok Hu Hp Hx Hs Hl Hextra Hcur. unfold reserve.
  rewrite (M_bind_ok _ _ b tt (set_used (usedMemory b + size) b)) by (unfold modify; rewrite uwrap_small by lia; reflexivity).
  set (b0 := set_used (usedMemory b + size) b). rewrite (M_bind_ok get_state _ b0 b0 b0 eq_refl).
  assert (Hcap : 0 < slots b) by apply (qo_pos _ (bo_queue _ _ Hok)). pose proof (qo_batch _ (bo_queue _ _ Hok)) as Hbatch.
  assert (Hge : BATCH_SIZE ≤ slots b) by (pose proof (Nat.div_mod_eq (slots b) BATCH_SIZE); unfold BATCH_SIZE in *; lia).
  destruct (reserve_loop_ok (EvictionQueue.size (evictionQueue b0) + 4) size 0 0 b0 (set_used_ok _ b Hok)) as
    (r & n & b1 & Hrun & Hk & Hc & Hm & Hno); [lia|lia|unfold advance, reserve_rounds in *; cbn [b0 set_used evictionQueue] in *; nia|change (loaded_bytes b0) with (loaded_bytes b); lia|].
  cbn [Nat.add] in Hrun, Hm. rewrite (M_bind_ok _ _ _ _ _ Hrun). unfold needMoreMemory in Hm.
  pose proof (Hextra _ _ _ Hk) as Hx1.
  pose proof (kp_bytes _ _ _ _ Hk) as Hb. change (loaded_bytes b0) with (loaded_bytes b) in Hb.
  rewrite (kp_pool _ _ _ _ Hk), (kp_used _ _ _ _ Hk) in Hm. cbn [b0 set_used usedMemory bufferPoolSize] in Hm.
  rewrite uwrap_small in Hm by lia. pose proof (kp_used _ _ _ _ Hk) as Hu1. cbn [b0 set_used usedMemory] in Hu1.
  assert (Hc' : (cursor b1 ≤ cursor b + advance (reserve_rounds b) b)%Z)
    by (unfold advance, reserve_rounds in *; cbn [b0 set_used evictionQueue] in Hc; nia).
  pose proof (λ u x, kept_moved b b0 b1 n u eq_refl Hk x _ eq_refl) as Hmv.
  destruct r; cbn [negb] in Hm.
  - apply andb_false_iff in Hm. rewrite !Z.ltb_ge in Hm. destruct (Z.ltb_spec 0 (Z.of_nat n)) as [Hn|Hn].
    + exists true, n. eexists. split; [unfold mbind, M_bind; rewrite freeUsed_ok by lia; reflexivity|].
      rewrite <- Hu1. split; [apply Hmv|]. split; [rewrite (mv_used _ _ _ _ (Hmv _ _)), (mv_pool _ _ _ _ (Hmv _ _)); lia|].
      split; [exact Hc'|discriminate].
    + exists true, n, b1. specialize (Hmv (usedMemory b1) (nonEvictableMemory b1)).
      replace (set_nonEvictable _ _) with b1 in Hmv by (destruct b1; reflexivity).
      replace (usedMemory b + size - Z.of_nat n)%Z with (usedMemory b1) by lia.
      split; [reflexivity|]. split; [exact Hmv|]. split; [rewrite (mv_pool _ _ _ _ Hmv); lia|]. split; [exact Hc'|discriminate].
  - apply andb_true_iff in Hm. rewrite !Z.ltb_lt in Hm. exists false, n. eexists.
    split; [unfold mbind, M_bind; rewrite freeUsed_ok by (rewrite ?uwrap_small; lia); reflexivity|].
    rewrite (uwrap_small 64 (size + Z.of_nat n)) by lia. replace (usedMemory b - Z.of_nat n)%Z with (usedMemory b1 - (size + Z.of_nat n))%Z by lia.
    split; [apply Hmv|]. split; [rewrite (mv_used _ _ _ _ (Hmv _ _)), (mv_pool _ _ _ _ (Hmv _ _)); lia|].
    split; [exact Hc'|split; [lia|exact (Hno eq_refl)]].
Qed.
End Reserve.

(** ** The memory in use, operation by operation *)

(** The memory in use is that of the loaded pages and [R] bytes besides, and within the pool; all files are on
    disk. *)
Record accounted (N R : Z) (b : BufferManager) : Prop := {
  ac_ok : manager_ok N b;
  ac_used : usedMemory b = (R + Z.of_nat (loaded_bytes b))%Z;
  ac_le : (0 ≤ usedMemory b ≤ bufferPoolSize b)%Z;
  ac_pool : (bufferPoolSize b < 2 ^ 62)%Z;
  ac_disk : Forall (λ s, isLargePaged (s : FileHandle) || negb (isNewTmpFile s) = true) (fileHandles b);
}.

(** The same files, the same pool and the same queue, whose cursor moved by at most [k]. *)
Record stays (k : Z) (b b' : BufferManager) : Prop := {
  st_static : map static_of (fileHandles b') = map static_of (fileHandles b);
  st_pool : bufferPoolSize b' = bufferPoolSize b;
  st_slots : capacity (evictionQueue b') = capacity (evictionQueue b);
  st_cursor : (evictionCursor (evictionQueue b') ≤ evictionCursor (evictionQueue b) + k)%Z;
}.

Lemma stays_trans k k' b b1 b2 : stays k b b1 → stays k' b1 b2 → stays (k + k') b b2.
Proof. intros [A1 A2 A3 A4] [B1 B2 B3 B4]. split; try congruence. lia. Qed.

Lemma stays_refl b : stays 0 b b.
Proof. split; try reflexivity. lia. Qed.

#[global] Instance stays_proper k b : Proper (same ==> iff) (stays k b).
Proof.
  intros b1 b2 [S1 S2 S3 S4 S5 S6]. split; intros [A1 A2 A3 A4]; (split; [congruence|congruence| |]); rewrite ?S3 in *; assumption.
Qed.

#[global] Instance word_at_proper : Proper (same ==> eq ==> eq ==> eq) word_at.
Proof. intros b1 b2 [S1 S2 S3 S4 S5 S6] f ? <- p ? <-. symmetry. apply S2. Qed.

Lemma disk_static b b' (P : FileHandle → Prop) :
  (∀ fh fh', static_of fh = static_of fh' → P fh → P fh') →
  map static_of (fileHandles b') = map static_of (fileHandles b) → Forall P (fileHandles b) → Forall P (fileHandles b').
Proof.
  intros HP Hs. rewrite !Forall_lookup. intros H f fh' Hf'. pose proof (f_equal (λ l, l !! f) Hs) as E. cbn beta in E.
  rewrite !list_lookup_fmap, Hf' in E. destruct (fileHandles b !! f) as [fh|] eqn:Hf; [|discriminate]. injection E as E.
  apply (HP fh fh'); [unfold static_of; congruence|exact (H f fh Hf)].
Qed.

Lemma disk_kept b b' :
  map static_of (fileHandles b') = map static_of (fileHandles b) →
  Forall (λ s, isLargePaged (s : FileHandle) || negb (isNewTmpFile s) = true) (fileHandles b) →
  Forall (λ s, isLargePaged (s : FileHandle) || negb (isNewTmpFile s) = true) (fileHandles b').
Proof. apply disk_static. unfold static_of. intros fh fh' [= -> -> _ _ _]. auto. Qed.

Lemma accounted_disk N R b f fh : accounted N R b → fileHandles b !! f = Some fh → isInMemoryMode fh = false.
Proof.
  intros H Hf. pose proof (ac_disk _ _ _ H) as Hd. rewrite Forall_lookup in Hd. specialize (Hd f fh Hf). unfold isInMemoryMode.
  destruct (isLargePaged fh), (isNewTmpFile fh); cbn in *; congruence.
Qed.

Lemma accounted_same N R b b' : same b b' → accounted N R b → accounted N R b'.
Proof.
  intros Hs [H1 H2 H3 H4 H5]. split.
  - exact (same_ok N _ _ Hs H1).
  - rewrite (sm_used _ _ Hs), (same_bytes _ _ Hs). exact H2.
  - rewrite (sm_used _ _ Hs), (sm_pool _ _ Hs). exact H3.
  - rewrite (sm_pool _ _ Hs). exact H4.
  - exact (disk_kept _ _ (sm_static _ _ Hs) H5).
Qed.

#[global] Instance accounted_proper N R : Proper (same ==> iff) (accounted N R).
Proof. intros b b' Hs. split; apply accounted_same; [exact Hs|symmetry; exact Hs]. Qed.

(** A page's word changes. *)
Lemma accounted_set N R b f p w w' fh :
  accounted N R b → fileHandles b !! f = Some fh → word_at b f p = Some w → valid_word N w' →
  (getState w' ≠ EVICTED → p < numPages fh) →
  accounted N (R + (Z.of_nat (loaded w) - Z.of_nat (loaded w')) * Z.of_nat (getPageSize fh)) (set_word_at f p w' b) ∧
  stays 0 b (set_word_at f p w' b).
Proof.
  intros Ha Hf Hw Hv Hp. pose proof (accounted_disk N R b f fh Ha Hf) as Hdisk. destruct Ha as [H1 H2 H3 H4 H5].
  apply word_at_inv in Hw as (fh0 & Hf0 & Hw). rewrite Hf in Hf0. injection Hf0 as <-.
  destruct (manager_ok_set N b f p w w' fh H1 Hf Hw Hv Hp ltac:(rewrite Hdisk; discriminate)) as [Hok Hb].
  destruct (set_word_at_queue f p w' b) as (Gq & Gu & Gp & Gn & Gs). split.
  - split; rewrite ?Gu, ?Gp; try assumption; [nia|]. exact (disk_kept _ _ Gs H5).
  - split; rewrite ?Gq; try assumption; lia.
Qed.

Lemma valid_mono N N' w : (N ≤ N')%Z → valid_word N w → valid_word N' w.
Proof. intros H (st & d & v & H1 & H2 & H3 & H4). exists st, d, v. split_and!; try assumption. lia. Qed.

Lemma manager_mono N N' b : (N ≤ N')%Z → manager_ok N b → manager_ok N' b.
Proof.
  intros H [H1 H2 H3 H4]. split; try assumption. apply (Forall_impl _ _ _ H3). intros fh [G1 G2 G3 G4 G6 G5]. split; try assumption.
  apply (Forall_impl _ _ _ G1). intros w. apply valid_mono, H.
Qed.

Lemma accounted_mono N N' R b : (N ≤ N')%Z → accounted N R b → accounted N' R b.
Proof. intros H [H1 H2 H3 H4 H5]. split; try assumption. exact (manager_mono N N' b H H1). Qed.

(** A page of a file. *)
Definition is_page (f p : nat) (b : BufferManager) : Prop :=
  ∃ fh, fileHandles b !! f = Some fh ∧ p < numPages fh ∧ p < length (pageStates fh) ∧ (Z.of_nat p < INVALID_IDX)%Z.

Lemma is_page_word f p b : is_page f p b → ∃ fh w, fileHandles b !! f = Some fh ∧ word_at b f p = Some w ∧ p < numPages fh ∧ (Z.of_nat p < INVALID_IDX)%Z.
Proof.
  intros (fh & Hf & Hn & Hl & Hi). destruct (lookup_lt_is_Some_2 (pageStates fh) p Hl) as [w Hw]. exists fh, w.
  split; [exact Hf|]. split; [unfold word_at; rewrite Hf; exact Hw|]. auto.
Qed.

Lemma stays_handle k b b' f fh :
  stays k b b' → fileHandles b !! f = Some fh → ∃ fh', fileHandles b' !! f = Some fh' ∧ static_of fh' = static_of fh.
Proof.
  intros Hs Hf. pose proof (f_equal (λ l, l !! f) (st_static _ _ _ Hs)) as E. cbn beta in E. rewrite !list_lookup_fmap, Hf in E.
  destruct (fileHandles b' !! f) as [fh'|]; [|discriminate]. exists fh'. split; [reflexivity|]. cbn in E. congruence.
Qed.

Lemma static_pages fh fh' : static_of fh' = static_of fh → numPages fh' = numPages fh.
Proof. unfold static_of. congruence. Qed.

(** Operations on frames leave everything else. *)
Lemma getFrame_same f p b : ∃ o, getFrame f p b = (o, b).
Proof.
  unfold getFrame, get_handle. unfold_M. destruct (fileHandles b !! f) as [fh|]; [|eauto]. destruct (getFrameIdx p fh); eauto.
Qed.

Lemma on_frame_same f p g b : ∃ o b', on_frame f p g b = (o, b') ∧ same b b'.
Proof.
  unfold on_frame, get_handle. unfold_M. destruct (fileHandles b !! f) as [fh|]; [|exists (Throw (UndefinedBehaviour "no such file")), b; split; reflexivity].
  destruct (getFrameIdx p fh) as [i|e]; [|exists (Throw e), b; split; reflexivity]. eexists _, _. split; [reflexivity|]. apply same_region.
Qed.

Lemma readPageFromDisk_same checked f p b : ∃ o b', readPageFromDisk checked f p b = (o, b') ∧ same b b'.
Proof.
  assert (Hid : ∀ e, ∃ (o : outcome unit) b', (Throw e, b) = (o, b') ∧ same b b') by (intros e; exists (Throw e), b; split; reflexivity).
  unfold readPageFromDisk, get_handle, ku_assert, observe. unfold_M. destruct (fileHandles b !! f) as [fh|]; [|apply Hid].
  destruct (negb (isInMemoryMode fh)); [|apply Hid]. destruct (p <? numPages fh); [|apply Hid].
  unfold mret, M_ret. destruct (getFrame_same f p b) as [[old|e] ->]; [|apply Hid].
  destruct (readFromFile _ _ _ _ _) as [bytes|e]; [apply on_frame_same|apply Hid].
Qed.

Lemma accounted_word N R b f p w : accounted N R b → word_at b f p = Some w → valid_word N w.
Proof. intros Ha (fh & Hf & Hp)%word_at_inv. exact (manager_word N b f p w fh (ac_ok _ _ _ Ha) Hf Hp). Qed.

Lemma same_at f p w b w0 : word_at b f p = Some w0 → word_at (set_word_at f p w b) f p = Some w.
Proof. intros H. rewrite (word_at_set f p w b f p w0 H), decide_True by auto. reflexivity. Qed.

(** Giving a page another state. *)
Lemma accounted_retag N R b f p w st fh :
  accounted N R b → fileHandles b !! f = Some fh → word_at b f p = Some w → is_lock_state st → p < numPages fh →
  let b' := set_word_at f p (updateStateWithSameVersion w st) b in
  let d := (Z.of_nat (loaded w) - (if st =? EVICTED then 0 else 1))%Z in
  accounted N (R + d * Z.of_nat (getPageSize fh)) b' ∧ stays 0 b b' ∧
  ∃ w', word_at b' f p = Some w' ∧ getState w' = st.
Proof.
  intros Ha Hf Hw Hst Hn. cbn zeta. destruct (valid_retag N w st (accounted_word _ _ _ _ _ _ Ha Hw) Hst) as [Hv Hg].
  destruct (accounted_set N R b f p w _ fh Ha Hf Hw Hv (λ _, Hn)) as [H1 H2]. split; [|split; [exact H2|]].
  - replace (if (st =? EVICTED)%Z then 0%Z else 1%Z) with (Z.of_nat (loaded (updateStateWithSameVersion w st)))
      by (unfold loaded; rewrite Hg; destruct (st =? EVICTED)%Z; reflexivity). exact H1.
  - eexists. split; [exact (same_at f p _ b w Hw)|exact Hg].
Qed.

Lemma tryLock_run f p w b :
  word_at b f p = Some w → on_state f p (tryLock w) b = (Ok true, set_word_at f p (updateStateWithSameVersion w LOCKED) b).
Proof.
  intros Hw. apply (on_state_run f p (tryLock w) b w (Ok true) _ Hw). unfold tryLock, compare_exchange_strong. rewrite Z.eqb_refl. reflexivity.
Qed.

(** A page that is locked stays loaded when others are evicted. *)
Lemma locked_bytes N b b' n f p w fh :
  kept N b b' n → fileHandles b !! f = Some fh → word_at b f p = Some w → getState w = LOCKED → getPageSize fh ≤ loaded_bytes b'.
Proof.
  intros Hk Hf Hw Hg. pose proof (kp_locked _ _ _ _ Hk f p w Hw Hg) as Hw'. apply word_at_inv in Hw' as (fh' & Hf' & Hp').
  pose proof (f_equal (λ l, l !! f) (kp_static _ _ _ _ Hk)) as E. cbn beta in E. rewrite !list_lookup_fmap, Hf, Hf' in E.
  assert (Hst : static_of fh' = static_of fh) by (cbn in E; congruence). rewrite <- (proj1 (static_page_size _ _ Hst)).
  pose proof (sum_with_ge handle_bytes (fileHandles b') f fh' Hf') as H1. pose proof (sum_with_ge loaded (pageStates fh') p w Hp') as H2.
  unfold loaded in H2 at 1. rewrite Hg in H2. cbn in H2. unfold handle_bytes in H1 at 1. unfold loaded_bytes. nia.
Qed.

(** [reserve] for a page that has been locked already. *)
Lemma claim_accounted {spiller} `{!Idle spiller} N R b f p w fh :
  (0 ≤ N)%Z → (0 ≤ R)%Z → accounted N (R - Z.of_nat (getPageSize fh)) b → fileHandles b !! f = Some fh → word_at b f p = Some w → getState w = LOCKED →
  (Z.of_nat (getPageSize fh) ≤ bufferPoolSize b)%Z → (evictionCursor (evictionQueue b) + advance (reserve_rounds b) b < 2 ^ 64)%Z →
  ∃ r b', reserve spiller (Z.of_nat (getPageSize fh)) b = (Ok r, b') ∧ stays (advance (reserve_rounds b) b) b b' ∧
    accounted N (if r : bool then R else R - Z.of_nat (getPageSize fh)) b' ∧ word_at b' f p = Some w.
Proof.
  intros HN HR Ha Hf Hw Hg Hp Hcur. pose proof (ac_used _ _ _ Ha) as Hu. pose proof (ac_le _ _ _ Ha) as Hle.
  destruct (reserve_ok N HN (Z.of_nat (getPageSize fh)) (Z.of_nat (getPageSize fh)) b (ac_ok _ _ _ Ha) Hle (ac_pool _ _ _ Ha)) as
    (r & n & b' & Hrun & Hmv & Hle' & Hcur' & _); [lia|exact Hp|lia| |exact Hcur|].
  { intros u b' n Hk. pose proof (locked_bytes N (set_used u b) b' n f p w fh Hk Hf Hw Hg). lia. }
  exists r, b'. split; [exact Hrun|]. destruct Hmv as [M1 M2 M3 M4 M5 M6 M7]. split; [split; assumption|]. split; [|exact (M7 f p w Hw Hg)].
  split; try assumption; [destruct r; lia|rewrite M3; apply (ac_pool _ _ _ Ha)|exact (disk_kept _ _ M5 (ac_disk _ _ _ Ha))].
Qed.

Lemma accounted_eq N R R' b : accounted N R b → R = R' → accounted N R' b.
Proof. intros H <-. exact H. Qed.

(** Clearing or setting the dirty bit, under the lock. *)
Lemma clearDirty_run N R b f p w :
  accounted N R b → is_page f p b → word_at b f p = Some w → getState w = LOCKED →
  ∃ b' w', on_state f p clearDirty b = (Ok tt, b') ∧ accounted N R b' ∧ stays 0 b b' ∧ word_at b' f p = Some w' ∧ getState w' = LOCKED.
Proof.
  intros Ha (fh & w0 & Hf & _ & Hn & _)%is_page_word Hw Hg. destruct (valid_clear N w (accounted_word _ _ _ _ _ _ Ha Hw)) as (w' & Hc & Hv & Hg').
  exists (set_word_at f p w' b), w'. split.
  - apply (on_state_run f p clearDirty b w (Ok tt) w' Hw). unfold clearDirty. rewrite (M_bind_ok get_state _ w w w eq_refl), Hg. exact Hc.
  - destruct (accounted_set N R b f p w w' fh Ha Hf Hw Hv (λ _, Hn)) as [H1 H2]. split; [|split; [exact H2|split; [exact (same_at f p w' b w Hw)|congruence]]].
    apply (accounted_eq _ _ _ _ H1). unfold loaded. rewrite Hg', Hg. lia.
Qed.

Lemma cachePage_accounted N R checked b f p w rd :
  accounted N R b → is_page f p b → word_at b f p = Some w → getState w = LOCKED →
  ∃ o b' w', cachePageIntoFrame checked f p rd b = (o, b') ∧ accounted N R b' ∧ stays 0 b b' ∧ word_at b' f p = Some w' ∧ getState w' = LOCKED.
Proof.
  intros Ha Hp Hw Hg. destruct (clearDirty_run N R b f p w Ha Hp Hw Hg) as (b1 & w1 & Hrun & Ha1 & Hs1 & Hw1 & Hg1).
  unfold cachePageIntoFrame. rewrite (M_bind_ok _ _ _ _ _ Hrun). destruct rd.
  - destruct (readPageFromDisk_same checked f p b1) as (o & b2 & Hr & Hs). exists o, b2, w1. split; [exact Hr|].
    rewrite <- Hs. split; [exact Ha1|]. auto.
  - exists (Ok tt), b1, w1. auto.
Qed.

(** A candidate is added to the queue, if there is room. *)
Lemma insert_accounted N R b f p :
  accounted N R b → is_page f p b →
  ∃ r b', on_queue (insert (Z.of_nat f) (Z.of_nat p)) b = (Ok r, b') ∧ accounted N R b' ∧ stays 0 b b' ∧ (∀ f p, word_at b' f p = word_at b f p) ∧
    (r = false → b' = b ∧ capacity (evictionQueue b) ≤ EvictionQueue.size (evictionQueue b)).
Proof.
  intros Ha (fh & w & Hf & Hw & Hn & Hi)%is_page_word. pose proof Ha as [H1 H2 H3 H4 H5]. unfold on_queue.
  destruct (Nat.lt_ge_cases (EvictionQueue.size (evictionQueue b)) (capacity (evictionQueue b))) as [Hlt|Hge].
  - assert (Hne : MkCandidate (Z.of_nat f) (Z.of_nat p) ≠ EMPTY) by (intros E; injection E as _ E; lia).
    destruct (insert_ok (Z.of_nat f) (Z.of_nat p) _ (bo_queue _ _ H1) ltac:(pose proof (bo_capacity _ _ H1); lia) Hne Hlt) as
      (i & q' & Hrun & Hi0 & Hd & Hc & Hs & He & Hq). rewrite Hrun.
    exists true, (set_queue q' b). split; [reflexivity|]. split; [|split; [split; try reflexivity; try assumption; cbn [evictionQueue set_queue]; lia|split; [reflexivity|discriminate]]].
    split; try assumption. destruct H1 as [G1 G2 G3 G4]. split; cbn [evictionQueue set_queue fileHandles]; try assumption; [rewrite Hc; exact G2|].
    intros j c Hj Hcne. rewrite Hd in Hj. apply list_lookup_insert_Some in Hj as [(_ & <- & _)|[_ Hj]]; [|exact (G4 j c Hj Hcne)].
    exists f, p, w. split; [reflexivity|]. split; [exact Hw|lia].
  - rewrite (insert_full _ _ _ Hge). exists false, b. assert (Hb : set_queue (evictionQueue b) b = b) by (destruct b; reflexivity).
    rewrite Hb. split; [reflexivity|]. split; [exact Ha|]. split; [apply stays_refl|]. auto.
Qed.

Lemma is_page_stays k f p b b' w : is_page f p b → stays k b b' → word_at b' f p = Some w → is_page f p b'.
Proof.
  intros (fh & Hf & Hn & Hl & Hi) Hs (fh1 & Hf1 & Hp1)%word_at_inv. destruct (stays_handle _ _ _ f fh Hs Hf) as (fh' & Hf' & Hst).
  rewrite Hf1 in Hf'. injection Hf' as <-. exists fh1. rewrite (static_pages _ _ Hst). apply lookup_lt_Some in Hp1. auto.
Qed.

(** Giving up a page that could not be loaded. *)
Lemma reset_accounted N R b f p w fh :
  (0 ≤ N)%Z → accounted N R b → fileHandles b !! f = Some fh → word_at b f p = Some w → getState w ≠ EVICTED →
  let b' := set_word_at f p PageState_new b in
  on_state f p resetToEvicted b = (Ok tt, b') ∧ accounted N (R + Z.of_nat (getPageSize fh)) b' ∧ stays 0 b b'.
Proof.
  intros HN Ha Hf Hw Hg. cbn zeta. split; [apply (on_state_run f p resetToEvicted b w (Ok tt) PageState_new Hw eq_refl)|].
  destruct (accounted_set N R b f p w PageState_new fh Ha Hf Hw (valid_new N HN)) as [H1 H2]; [rewrite getState_new; contradiction|].
  split; [|exact H2]. apply (accounted_eq _ _ _ _ H1). rewrite (proj1 (loaded_of w) Hg), (proj2 (loaded_of PageState_new) getState_new). lia.
Qed.

Definition budget (b : BufferManager) : Z := advance (reserve_rounds b) b.

(** A locked page gets a frame, or none. *)
Lemma claimAFrame_accounted {spiller} `{!Idle spiller} N R checked b f p w fh rd :
  (0 ≤ N)%Z → (0 ≤ R)%Z → accounted N (R - Z.of_nat (getPageSize fh)) b → fileHandles b !! f = Some fh → is_page f p b →
  word_at b f p = Some w → getState w = LOCKED →
  (Z.of_nat (getPageSize fh) ≤ bufferPoolSize b)%Z → (evictionCursor (evictionQueue b) + budget b < 2 ^ 64)%Z →
  ∃ o b' w', claimAFrame checked spiller f p rd b = (o, b') ∧ stays (budget b) b b' ∧ word_at b' f p = Some w' ∧ getState w' = LOCKED ∧
    match o with Ok false => accounted N (R - Z.of_nat (getPageSize fh)) b' | _ => accounted N R b' end.
Proof.
  intros HN HR Ha Hf Hpage Hw Hg Hp Hcur. unfold claimAFrame.
  rewrite (M_bind_ok (get_handle f) _ b fh b) by (unfold get_handle, observe; rewrite Hf; reflexivity).
  destruct (claim_accounted N R b f p w fh HN HR Ha Hf Hw Hg Hp Hcur) as (r & b1 & Hrun & Hs1 & Ha1 & Hw1).
  rewrite (M_bind_ok _ _ _ _ _ Hrun). destruct r.
  - destruct (cachePage_accounted N R checked b1 f p w rd Ha1 (is_page_stays _ _ _ _ _ _ Hpage Hs1 Hw1) Hw1 Hg) as (o & b2 & w2 & Hr2 & Ha2 & Hs2 & Hw2 & Hg2).
    exists (match o with Ok _ => Ok true | Throw e => Throw e end), b2, w2. split; [unfold mbind, M_bind; rewrite Hr2; destruct o; reflexivity|].
    pose proof (stays_trans _ _ _ _ _ Hs1 Hs2) as Hs. rewrite Z.add_0_r in Hs. split; [exact Hs|]. split; [exact Hw2|]. split; [exact Hg2|].
    destruct o; exact Ha2.
  - exists (Ok false), b1, w. auto.
Qed.

Lemma budget_set f p w b : budget (set_word_at f p w b) = budget b.
Proof. unfold budget, advance, reserve_rounds. rewrite (proj1 (set_word_at_queue f p w b)). reflexivity. Qed.

(** [pin] of an evicted page. *)
Lemma pin_evicted {spiller} `{!Idle spiller} N R checked b f p w fh rd :
  (0 ≤ N)%Z → (0 ≤ R)%Z → accounted N R b → is_page f p b → fileHandles b !! f = Some fh → word_at b f p = Some w → getState w = EVICTED →
  (Z.of_nat (getPageSize fh) ≤ bufferPoolSize b)%Z → (evictionCursor (evictionQueue b) + budget b < 2 ^ 64)%Z →
  ∃ o b', pin checked spiller f p rd b = (o, b') ∧ accounted N R b' ∧ stays (budget b) b b' ∧
    (∀ bytes, o = Ok bytes → ∃ w', word_at b' f p = Some w' ∧ getState w' = LOCKED).
Proof.
  intros HN HR Ha Hpage Hf Hw Hg Hp Hcur. pose proof Hpage as (fh0 & Hf0 & Hn & _). rewrite Hf in Hf0. injection Hf0 as <-.
  unfold pin. rewrite (M_bind_ok _ _ _ _ _ (on_state_get f p b w Hw)), Hg. cbn [Z.eqb EVICTED Pos.eqb].
  rewrite (M_bind_ok _ _ _ _ _ (tryLock_run f p w b Hw)).
  destruct (accounted_retag N R b f p w LOCKED fh Ha Hf Hw ltac:(unfold is_lock_state, LOCKED; lia) Hn) as (Ha1 & Hs1 & w1 & Hw1 & Hg1).
  set (b1 := set_word_at f p _ b) in *. 
  apply (λ H, accounted_eq _ _ (R - Z.of_nat (getPageSize fh)) _ H) in Ha1; [|rewrite (proj2 (loaded_of w) Hg); cbn [Z.eqb LOCKED EVICTED Z.of_nat Pos.eqb]; lia].
  assert (Hb1 : budget b1 = budget b) by apply budget_set. pose proof (handle_set_word f p (updateStateWithSameVersion w LOCKED) b fh Hf) as Hf1. fold b1 in Hf1.
  set (fh1 := set_pageStates _ fh) in Hf1. change (getPageSize fh) with (getPageSize fh1) in *.
  destruct (claimAFrame_accounted N R checked b1 f p w1 fh1 rd HN HR) as (o & b2 & w2 & Hrun & Hs2 & Hw2 & Hg2 & Ha2);
    [exact Ha1|exact Hf1|exact (is_page_stays _ _ _ _ _ _ Hpage Hs1 Hw1)|exact Hw1|exact Hg1|rewrite (st_pool _ _ _ Hs1); exact Hp| |].
  { rewrite Hb1. pose proof (st_cursor _ _ _ Hs1). lia. }
  pose proof (stays_trans _ _ _ _ _ Hs1 Hs2) as Hs. rewrite Z.add_0_l, Hb1 in Hs.
  destruct o as [[|]|e].
  - rewrite (M_bind_ok _ _ _ _ _ Hrun). destruct (insert_accounted N R b2 f p Ha2 (is_page_stays _ _ _ _ _ _ Hpage Hs Hw2)) as (r & b3 & Hi & Ha3 & Hs3 & Hwd & _).
    rewrite (M_bind_ok _ _ _ _ _ Hi). pose proof (stays_trans _ _ _ _ _ Hs Hs3) as Hst. rewrite Z.add_0_r in Hst.
    destruct r; [destruct (getFrame_same f p b3) as [o ->]; exists o, b3|exists (Throw queue_full), b3; split; [reflexivity|]];
      split_and!; try assumption; try reflexivity; [|discriminate].
    intros bytes _. exists w2. rewrite Hwd. auto.
  - rewrite (M_bind_ok _ _ _ _ _ Hrun). destruct (stays_handle _ _ _ f fh Hs Hf) as (fh2 & Hf2 & Hst2).
    destruct (reset_accounted N _ b2 f p w2 fh2 HN Ha2 Hf2 Hw2 ltac:(rewrite Hg2; discriminate)) as (Hr & Ha3 & Hs3).
    rewrite (M_bind_ok _ _ _ _ _ Hr). exists (Throw no_memory). eexists. split; [reflexivity|].
    split; [apply (accounted_eq _ _ _ _ Ha3); rewrite (proj1 (static_page_size _ _ Hst2)); change (getPageSize fh1) with (getPageSize fh); lia|].
    split; [|discriminate]. pose proof (stays_trans _ _ _ _ _ Hs Hs3) as Hst. rewrite Z.add_0_r in Hst. exact Hst.
  - rewrite (M_bind_throw _ _ _ _ _ Hrun). exists (Throw e), b2. split; [reflexivity|]. split; [exact Ha2|]. split; [exact Hs|]. discriminate.
Qed.

(** The page of an operation fits the pool. *)
Definition fits (f : nat) (b : BufferManager) : Prop :=
  ∀ fh, fileHandles b !! f = Some fh → (Z.of_nat (getPageSize fh) ≤ bufferPoolSize b)%Z.

Lemma budget_pos b : (0 ≤ budget b)%Z.
Proof. unfold budget, advance. lia. Qed.

Lemma stays_budget k b b' : stays 0 b b' → (0 ≤ k)%Z → stays k b b'.
Proof. intros [A1 A2 A3 A4] Hk. split; try assumption. lia. Qed.

Lemma lock_states w N : valid_word N w → getState w = UNLOCKED ∨ getState w = LOCKED ∨ getState w = MARKED ∨ getState w = EVICTED.
Proof.
  intros (st & d & v & _ & _ & Hst & -> & _)%valid_fields. unfold is_lock_state in Hst.
  unfold UNLOCKED, LOCKED, MARKED, EVICTED. lia.
Qed.

Lemma pin_accounted {spiller} `{!Idle spiller} N R checked b f p w rd :
  (0 ≤ N)%Z → (0 ≤ R)%Z → accounted N R b → is_page f p b → fits f b → word_at b f p = Some w → getState w ≠ LOCKED →
  (evictionCursor (evictionQueue b) + budget b < 2 ^ 64)%Z →
  ∃ o b', pin checked spiller f p rd b = (o, b') ∧ accounted N R b' ∧ stays (budget b) b b' ∧
    (∀ bytes, o = Ok bytes → ∃ w', word_at b' f p = Some w' ∧ getState w' = LOCKED).
Proof.
  intros HN HR Ha Hpage Hfits Hw Hg Hcur. pose proof Hpage as (fh & Hf & Hn & _).
  destruct (Z.eq_dec (getState w) EVICTED) as [He|He]; [exact (pin_evicted N R checked b f p w fh rd HN HR Ha Hpage Hf Hw He (Hfits fh Hf) Hcur)|].
  unfold pin. rewrite (M_bind_ok _ _ _ _ _ (on_state_get f p b w Hw)), (proj2 (Z.eqb_neq _ _) He).
  assert (Ho : ((getState w =? UNLOCKED) || (getState w =? MARKED))%Z = true).
  { destruct (lock_states w N (accounted_word _ _ _ _ _ _ Ha Hw)) as [->|[E|[->|E]]]; (reflexivity || contradiction). }
  rewrite Ho, (M_bind_ok _ _ _ _ _ (tryLock_run f p w b Hw)).
  destruct (accounted_retag N R b f p w LOCKED fh Ha Hf Hw ltac:(unfold is_lock_state, LOCKED; lia) Hn) as (Ha1 & Hs1 & w1 & Hw1 & Hg1).
  set (b1 := set_word_at f p _ b) in *. destruct (getFrame_same f p b1) as [o ->]. exists o, b1. split; [reflexivity|].
  split; [apply (accounted_eq _ _ _ _ Ha1); rewrite (proj1 (loaded_of w) He); cbn [Z.eqb LOCKED EVICTED Pos.eqb]; lia|].
  split; [exact (stays_budget _ _ _ Hs1 (budget_pos b))|]. eauto.
Qed.

(** [unpin] of a page that is locked. *)
Lemma unpin_accounted N R b f p w :
  (0 ≤ N)%Z → (N + 1 < 2 ^ 55)%Z → accounted N R b → is_page f p b → word_at b f p = Some w → getState w = LOCKED →
  ∃ b', unpin f p b = (Ok tt, b') ∧ accounted (N + 1) R b' ∧ stays 0 b b'.
Proof.
  intros HN HN1 Ha Hpage Hw Hg. pose proof Hpage as (fh & Hf & Hn & _).
  pose proof (accounted_word _ _ _ _ _ _ Ha Hw) as (st & d & v & -> & Hv & Hst & Hle).
  assert (Hv1 : is_version (v + 1)) by (unfold is_version in *; lia).
  eexists. split; [apply (on_state_run f p unlock b _ (Ok tt) _ Hw eq_refl)|].
  assert (Hstate : is_state UNLOCKED) by (unfold is_state, UNLOCKED; lia).
  rewrite (updateStateAndIncrementVersion_pack st d v UNLOCKED (lock_state_ok _ Hst) Hstate Hv Hv1).
  destruct (accounted_set (N + 1) R b f p (pack st d v) (pack UNLOCKED d (v + 1)) fh) as [H1 H2]; try assumption.
  - apply (accounted_mono N); [lia|exact Ha].
  - exists UNLOCKED, d, (v + 1)%Z. split; [reflexivity|]. split; [exact Hv1|]. unfold is_lock_state, UNLOCKED. lia.
  - auto.
  - split; [|exact H2]. apply (accounted_eq _ _ _ _ H1). rewrite !(proj1 (loaded_of _)); [lia| |rewrite Hg; discriminate].
    rewrite (getState_pack UNLOCKED d (v + 1) Hstate Hv1). discriminate.
Qed.

(** [optimisticRead] *)
Lemma optimisticRead_accounted {spiller} `{!Idle spiller} N R checked b f p w :
  (0 ≤ N)%Z → (N + 1 < 2 ^ 55)%Z → (0 ≤ R)%Z → accounted N R b → is_page f p b → fits f b → word_at b f p = Some w → getState w ≠ LOCKED →
  (evictionCursor (evictionQueue b) + budget b < 2 ^ 64)%Z →
  ∃ o b', optimisticRead checked spiller f p b = (o, b') ∧ accounted (N + 1) R b' ∧ stays (budget b) b b'.
Proof.
  intros HN HN1 HR Ha Hpage Hfits Hw Hg Hcur. unfold optimisticRead. rewrite (M_bind_ok _ _ _ _ _ (on_state_get f p b w Hw)).
  pose proof (accounted_mono N (N + 1) R b ltac:(lia) Ha) as Ham. pose proof (budget_pos b) as Hbud. pose proof Hpage as (fh & Hf & Hn & _).
  destruct (lock_states w N (accounted_word _ _ _ _ _ _ Ha Hw)) as [E|[E|[E|E]]]; [|contradiction| |]; rewrite E; cbn [Z.eqb UNLOCKED MARKED EVICTED Pos.eqb].
  - destruct (getFrame_same f p b) as [o ->]. exists o, b. split; [reflexivity|]. split; [exact Ham|]. exact (stays_budget _ _ _ (stays_refl b) Hbud).
  - rewrite (M_bind_ok _ _ b true (set_word_at f p (updateStateWithSameVersion w UNLOCKED) b)).
    2:{ apply (on_state_run f p (tryClearMark w) b w (Ok true) _ Hw). unfold tryClearMark, compare_exchange_strong. rewrite E. unfold_M. cbn. rewrite Z.eqb_refl. reflexivity. }
    destruct (accounted_retag (N + 1) R b f p w UNLOCKED fh Ham Hf Hw ltac:(unfold is_lock_state, UNLOCKED; lia) Hn) as (Ha1 & Hs1 & _).
    set (b1 := set_word_at f p _ b) in *. destruct (getFrame_same f p b1) as [o ->]. exists o, b1. split; [reflexivity|].
    split; [|exact (stays_budget _ _ _ Hs1 Hbud)]. apply (accounted_eq _ _ _ _ Ha1).
    rewrite (proj1 (loaded_of w)) by (rewrite E; discriminate). cbn [Z.eqb UNLOCKED EVICTED]. lia.
  - destruct (pin_accounted N R checked b f p w true HN HR Ha Hpage Hfits Hw Hg Hcur) as (o & b1 & Hpin & Ha1 & Hs1 & Hok). destruct o as [bytes|e].
    + destruct (Hok bytes eq_refl) as (w1 & Hw1 & Hg1).
      destruct (unpin_accounted N R b1 f p w1 HN HN1 Ha1 (is_page_stays _ _ _ _ _ _ Hpage Hs1 Hw1) Hw1 Hg1) as (b2 & Hun & Ha2 & Hs2).
      rewrite (M_bind_ok _ _ _ _ _ Hpin), (M_bind_ok _ _ _ _ _ Hun). destruct (getFrame_same f p b2) as [o ->]. exists o, b2.
      pose proof (stays_trans _ _ _ _ _ Hs1 Hs2) as Hst. rewrite Z.add_0_r in Hst. auto.
    + rewrite (M_bind_throw _ _ _ _ _ Hpin). exists (Throw e), b1. split; [reflexivity|]. split; [apply (accounted_mono N); [lia|exact Ha1]|exact Hs1].
Qed.

(** [flushPageIfDirtyWithoutLock] *)
Lemma flush_accounted N R b f p w :
  accounted N R b → is_page f p b → word_at b f p = Some w →
  ∃ b' w', flushPageIfDirtyWithoutLock f p b = (Ok tt, b') ∧ accounted N R b' ∧ stays 0 b b' ∧ word_at b' f p = Some w' ∧ getState w' = getState w.
Proof.
  intros Ha Hpage Hw. pose proof Hpage as (fh & Hf & Hn & _).
  destruct (flush_ok N b f p w (ac_ok _ _ _ Ha) Hw) as (b' & w' & Hrun & Hs & Hv & Hg).
  { intros fh' Hf'. rewrite Hf in Hf'. injection Hf' as <-. exact Hn. }
  destruct (accounted_set N R b f p w w' fh Ha Hf Hw Hv (λ _, Hn)) as [H1 H2].
  exists b', w'. split; [exact Hrun|]. rewrite <- Hs. split; [apply (accounted_eq _ _ _ _ H1); unfold loaded; rewrite Hg; lia|].
  split; [exact H2|]. split; [exact (same_at f p w' b w Hw)|exact Hg].
Qed.

(** [removePageFromFrame] *)
Lemma remove_accounted N R b f p w flush :
  (0 ≤ N)%Z → (0 ≤ R)%Z → accounted N R b → is_page f p b → word_at b f p = Some w →
  ∃ b', removePageFromFrame f p flush b = (Ok tt, b') ∧ accounted N R b' ∧ stays 0 b b' ∧
    ∃ w', word_at b' f p = Some w' ∧ getState w' = EVICTED.
Proof.
  intros HN HR Ha Hpage Hw. pose proof Hpage as (fh & Hf & Hn & _). unfold removePageFromFrame.
  rewrite (M_bind_ok (get_handle f) _ b fh b) by (unfold get_handle, observe; rewrite Hf; reflexivity).
  rewrite (M_bind_ok _ _ _ _ _ (on_state_get f p b w Hw)). destruct (Z.eqb_spec (getState w) EVICTED) as [E|E].
  { exists b. split; [reflexivity|]. split; [exact Ha|]. split; [apply stays_refl|]. eauto. }
  destruct (accounted_retag N R b f p w LOCKED fh Ha Hf Hw ltac:(unfold is_lock_state, LOCKED; lia) Hn) as (Ha1 & Hs1 & w1 & Hw1 & Hg1).
  apply (λ H, accounted_eq _ _ R _ H) in Ha1; [|rewrite (proj1 (loaded_of w) E); cbn [Z.eqb LOCKED EVICTED Pos.eqb]; lia].
  rewrite (M_bind_ok _ _ b tt (set_word_at f p (updateStateWithSameVersion w LOCKED) b)).
  2:{ apply (on_state_run f p (spinLock w) b w (Ok tt) _ Hw). unfold spinLock, tryLock, compare_exchange_strong. unfold_M. rewrite Z.eqb_refl. reflexivity. }
  set (b1 := set_word_at f p _ b) in *. pose proof (is_page_stays _ _ _ _ _ _ Hpage Hs1 Hw1) as Hpage1.
  assert (Hfl : ∃ b2 w2, (if flush then flushPageIfDirtyWithoutLock f p else mret tt) b1 = (Ok tt, b2) ∧ accounted N R b2 ∧ stays 0 b1 b2 ∧
    word_at b2 f p = Some w2 ∧ getState w2 = LOCKED).
  { destruct flush; [rewrite <- Hg1; exact (flush_accounted N R b1 f p w1 Ha1 Hpage1 Hw1)|]. exists b1, w1. split_and!; auto using stays_refl. }
  destruct Hfl as (b2 & w2 & Hr2 & Ha2 & Hs2 & Hw2 & Hg2). rewrite (M_bind_ok _ _ _ _ _ Hr2).
  pose proof (stays_trans _ _ _ _ _ Hs1 Hs2) as Hs12. rewrite Z.add_0_l in Hs12. destruct (stays_handle _ _ _ f fh Hs12 Hf) as (fh2 & Hf2 & Hst2).
  destruct (on_frame_ok N b2 f p fh2 releaseFrame (ac_ok _ _ _ Ha2) Hf2 ltac:(rewrite (static_pages _ _ Hst2); exact Hn)) as (b3 & Hr3 & Hs3).
  unfold releaseFrameForPage. rewrite (M_bind_ok _ _ _ _ _ Hr3). rewrite Hs3 in Ha2, Hs12, Hw2.
  assert (Hbytes : getPageSize fh ≤ loaded_bytes b3).
  { destruct (stays_handle _ _ _ f fh Hs12 Hf) as (fh3 & Hf3 & Hst3). rewrite <- (proj1 (static_page_size _ _ Hst3)).
    exact (locked_bytes N b3 b3 0 f p w2 fh3 (kept_refl N b3 (ac_ok _ _ _ Ha2)) Hf3 Hw2 Hg2). }
  pose proof (ac_used _ _ _ Ha2) as Hu. pose proof (ac_le _ _ _ Ha2) as Hle. pose proof (ac_pool _ _ _ Ha2) as Hpool.
  rewrite (M_bind_ok _ _ _ _ _ (freeUsed_ok (Z.of_nat (getPageSize fh)) b3 ltac:(lia) ltac:(lia))). set (b4 := set_used _ b3).
  assert (Ha4 : accounted N (R - Z.of_nat (getPageSize fh)) b4).
  { destruct Ha2 as [A1 A2 A3 A4 A5]. split; try assumption; [apply set_used_ok, A1| |]; cbn [b4 usedMemory set_used bufferPoolSize];
      change (loaded_bytes b4) with (loaded_bytes b3); lia. }
  assert (Hs4 : stays 0 b b4) by (destruct Hs12; split; assumption). destruct (stays_handle _ _ _ f fh Hs4 Hf) as (fh4 & Hf4 & Hst4).
  destruct (reset_accounted N _ b4 f p w2 fh4 HN Ha4 Hf4 Hw2 ltac:(rewrite Hg2; discriminate)) as (Hr & Ha5 & Hs5).
  eexists. split; [exact Hr|]. split; [apply (accounted_eq _ _ _ _ Ha5); rewrite (proj1 (static_page_size _ _ Hst4)); lia|].
  split; [exact (stays_trans 0 0 _ _ _ Hs4 Hs5)|]. exists PageState_new. split; [exact (same_at f p _ b4 w2 Hw2)|exact getState_new].
Qed.

(** [setLockedPageDirty] *)
Lemma setDirty_accounted N R b f p w :
  accounted N R b → is_page f p b → word_at b f p = Some w →
  ∃ o b', setLockedPageDirty f p b = (o, b') ∧ accounted N R b' ∧ stays 0 b b'.
Proof.
  intros Ha Hpage Hw. pose proof Hpage as (fh & Hf & Hn & _). unfold setLockedPageDirty.
  rewrite (M_bind_ok (get_handle f) _ b fh b) by (unfold get_handle, observe; rewrite Hf; reflexivity).
  unfold ku_assert at 1. rewrite (proj2 (Nat.ltb_lt _ _) Hn), (M_bind_ok (mret tt) _ b tt b eq_refl).
  destruct (Z.eqb_spec (getState w) LOCKED) as [E|E].
  - pose proof (accounted_word _ _ _ _ _ _ Ha Hw) as (st & d & v & -> & Hv & Hst & Hle).
    rewrite (on_state_run f p setDirty b _ (Ok tt) (pack st true v) Hw)
      by (unfold setDirty; rewrite (M_bind_ok get_state _ (pack st d v) _ _ eq_refl), E; unfold_M; unfold modify; cbn; rewrite (setDirty_pack st d v Hv); reflexivity).
    destruct (accounted_set N R b f p (pack st d v) (pack st true v) fh Ha Hf Hw) as [H1 H2]; [exists st, true, v; auto|auto|].
    eexists _, _. split; [reflexivity|]. split; [|exact H2]. apply (accounted_eq _ _ _ _ H1). unfold loaded.
    rewrite !(getState_pack st _ v (lock_state_ok _ Hst) Hv). lia.
  - rewrite (on_state_run f p setDirty b w (Throw assert_failure) w Hw)
      by (unfold setDirty; rewrite (M_bind_ok get_state _ w w w eq_refl), (proj2 (Z.eqb_neq _ _) E); reflexivity).
    rewrite set_word_at_same by exact Hw. eexists _, _. split; [reflexivity|]. split; [exact Ha|apply stays_refl].
Qed.

(** ** Files and pages *)

(** A new manager. *)
Lemma accounted_new pool maxDB b :
  BufferManager_new pool maxDB = Ok b → (pool < 2 ^ 62)%Z → accounted 0 (usedMemory b) b ∧ evictionCursor (evictionQueue b) = 0%Z ∧
    capacity (evictionQueue b) ≤ Z.to_nat pool / KUZU_PAGE_SIZE + BATCH_SIZE ∧ bufferPoolSize b = pool ∧ (0 ≤ usedMemory b)%Z.
Proof.
  unfold BufferManager_new, verifySizeParams. set (n := Z.to_nat (pool / Z.of_nat KUZU_PAGE_SIZE)). intros H Hp.
  destruct (Z.ltb_spec pool (Z.of_nat KUZU_PAGE_SIZE)) as [|Hge]; [discriminate H|]. destruct (maxDB <? _)%Z; [discriminate H|].
  destruct (negb _); [discriminate H|]. rewrite outcome_bind_Ok in H. apply (f_equal (λ o, match o with Ok x => x | Throw _ => b end)) in H. cbn beta iota in H. subst b.
  pose proof (queue_new_ok n) as Hq. set (q := EvictionQueue_new n) in *.
  assert (HK : Z.of_nat KUZU_PAGE_SIZE = 4096%Z) by reflexivity. rewrite HK in *.
  assert (Hcap : capacity q ≤ n + BATCH_SIZE) by (unfold q, EvictionQueue_new; cbn [capacity]; lia).
  assert (Hn : (Z.of_nat n * 4096 ≤ pool)%Z).
  { unfold n. rewrite HK, Z2Nat.id by (apply Z.div_pos; lia). pose proof (Z.mul_div_le pool 4096 ltac:(lia)). lia. }
  unfold BATCH_SIZE in Hcap. cbn [usedMemory evictionQueue bufferPoolSize]. split; [|split; [reflexivity|]].
  - split; cbn [usedMemory bufferPoolSize fileHandles]; [|change (loaded_bytes _) with 0; lia|lia|lia|constructor].
    split; cbn [evictionQueue fileHandles]; [exact Hq|lia|constructor|].
    intros i c Hi Hc. unfold q, EvictionQueue_new in Hi. cbn [data] in Hi. apply lookup_replicate in Hi as [-> _]. contradiction.
  - split; [|split; [reflexivity|lia]]. replace (Z.to_nat pool / KUZU_PAGE_SIZE) with n; [unfold BATCH_SIZE; lia|].
    unfold n. rewrite Z2Nat.inj_div by lia. f_equal.
Qed.

(** Another file in the place of one, with the same loaded pages. *)
Lemma accounted_handle N R b f fh fh' :
  accounted N R b → fileHandles b !! f = Some fh → handle_ok N fh' → isInMemoryMode fh' = false → handle_bytes fh' = handle_bytes fh →
  length (pageStates fh) ≤ length (pageStates fh') → accounted N R (set_handles (<[f := fh']> (fileHandles b)) b).
Proof.
  intros [[H1 H2 H3 H4] A2 A3 A4 A5] Hf Hok Hmem Hb Hlen.
  assert (Hbytes : loaded_bytes (set_handles (<[f := fh']> (fileHandles b)) b) = loaded_bytes b).
  { unfold loaded_bytes. cbn [fileHandles set_handles]. pose proof (sum_with_insert handle_bytes (fileHandles b) f fh fh' Hf). lia. }
  split; cbn [usedMemory bufferPoolSize set_handles fileHandles]; rewrite ?Hbytes; try assumption.
  - split; cbn [evictionQueue set_handles fileHandles]; try assumption; [apply Forall_insert; assumption|].
    intros i c Hi Hc. destruct (H4 i c Hi Hc) as (f' & p & w & -> & Hw & Hp). unfold word_at in *. cbn [fileHandles set_handles].
    destruct (decide (f' = f)) as [->|Hne].
    + rewrite Hf in Hw. apply lookup_lt_Some in Hw. destruct (lookup_lt_is_Some_2 (pageStates fh') p ltac:(lia)) as [w' Hw'].
      exists f, p, w'. rewrite list_lookup_insert_eq by (apply lookup_lt_Some in Hf; exact Hf). auto.
    + exists f', p, w. rewrite list_lookup_insert_ne by congruence. auto.
  - apply Forall_insert; [exact A5|]. unfold isInMemoryMode in Hmem. destruct (isLargePaged fh'), (isNewTmpFile fh'); cbn in *; congruence.
Qed.

(** A file more. *)
Lemma accounted_open N R b fh :
  accounted N R b → handle_ok N fh → isInMemoryMode fh = false → handle_bytes fh = 0 →
  accounted N R (set_handles (fileHandles b ++ [fh]) b).
Proof.
  intros [[H1 H2 H3 H4] A2 A3 A4 A5] Hok Hmem Hb.
  assert (Hbytes : loaded_bytes (set_handles (fileHandles b ++ [fh]) b) = loaded_bytes b).
  { unfold loaded_bytes. cbn [fileHandles set_handles]. rewrite sum_list_with_app. cbn. lia. }
  split; cbn [usedMemory bufferPoolSize set_handles fileHandles]; rewrite ?Hbytes; try assumption.
  - split; cbn [evictionQueue set_handles fileHandles]; try assumption; [apply Forall_app; split; [exact H3|apply Forall_singleton, Hok]|].
    intros i c Hi Hc. destruct (H4 i c Hi Hc) as (f' & p & w & -> & Hw & Hp). exists f', p, w. split; [reflexivity|]. split; [|exact Hp].
    unfold word_at in *. cbn [fileHandles set_handles]. destruct (fileHandles b !! f') eqn:E; [|discriminate].
    rewrite (lookup_app_l_Some _ _ _ _ E). exact Hw.
  - apply Forall_app. split; [exact A5|]. apply Forall_singleton. unfold isInMemoryMode in Hmem. destruct (isLargePaged fh), (isNewTmpFile fh); cbn in *; congruence.
Qed.

Lemma accounted_region N R b t r : accounted N R b → accounted N R (set_region t r b).
Proof. apply accounted_same, same_region. Qed.

Lemma add_frame_groups_ok N R n t : ∀ b,
  accounted N R b → ∃ o b', add_frame_groups n t b = (o, b') ∧ accounted N R b' ∧ same b b' ∧ (∀ l, o = Ok l → length l = n).
Proof.
  induction n as [|n IH]; intros b Ha; cbn [add_frame_groups].
  - exists (Ok []), b. split; [reflexivity|]. split; [exact Ha|]. split; [reflexivity|]. intros l [= <-]. reflexivity.
  - unfold mbind, M_bind. destruct (addNewFrameGroup (region t b)) as [o r]. set (b1 := set_region t r b).
    pose proof (same_region t r b) as Hs. fold b1 in Hs. destruct o as [g|e].
    + destruct (IH b1 (accounted_region N R b t r Ha)) as (o & b2 & Hrun & Ha2 & Hs2 & Hl). rewrite Hrun.
      exists (match o with Ok l => Ok (g :: l) | Throw e => Throw e end), b2. split; [destruct o; reflexivity|]. split; [exact Ha2|].
      split; [etransitivity; eassumption|]. destruct o as [l|]; intros l' [= <-]. cbn. f_equal. apply (Hl l eq_refl).
    + exists (Throw e), b1. split; [reflexivity|]. split; [exact (accounted_region N R b t r Ha)|]. split; [exact Hs|]. discriminate.
Qed.

Lemma loaded_fresh n : sum_list_with loaded (replicate n PageState_new) = 0.
Proof. induction n as [|n IH]; [reflexivity|]. cbn [replicate sum_list_with]. rewrite (proj2 (loaded_of PageState_new) getState_new), IH. reflexivity. Qed.

Lemma fresh_words N n : (0 ≤ N)%Z → Forall (valid_word N) (replicate n PageState_new).
Proof. intros HN. apply Forall_replicate, valid_new, HN. Qed.

Lemma groups_cover n : n ≤ (n + PAGE_GROUP_SIZE - 1) / PAGE_GROUP_SIZE * PAGE_GROUP_SIZE.
Proof.
  assert (HG : PAGE_GROUP_SIZE = Z.to_nat (2 ^ 10)) by reflexivity.
  pose proof (Nat.div_mod_eq (n + PAGE_GROUP_SIZE - 1) PAGE_GROUP_SIZE). pose proof (Nat.mod_upper_bound (n + PAGE_GROUP_SIZE - 1) PAGE_GROUP_SIZE ltac:(lia)). nia.
Qed.

(** [getFileHandle] of a file on disk. *)
Lemma getFileHandle_accounted N R b large tmp info :
  (0 ≤ N)%Z → accounted N R b → negb large && tmp = false →
  ∃ o b', getFileHandle large tmp info b = (o, b') ∧ accounted N R b' ∧ evictionQueue b' = evictionQueue b ∧ bufferPoolSize b' = bufferPoolSize b.
Proof.
  intros HN Ha Hdisk. unfold getFileHandle. set (fh0 := MkFileHandle large tmp 0 0 [] [] info).
  set (n := if tmp then 0 else _). set (g := (n + PAGE_GROUP_SIZE - 1) / PAGE_GROUP_SIZE). cbn zeta.
  destruct (add_frame_groups_ok N R g (isTempPage fh0) b Ha) as (o & b1 & Hrun & Ha1 & Hs & Hl). unfold mbind, M_bind. rewrite Hrun.
  destruct o as [groups|e]; [|exists (Throw e), b1; split; [reflexivity|split; [exact Ha1|split; apply Hs]]]. specialize (Hl _ eq_refl).
  eexists _, _. split; [reflexivity|]. split; [|split; apply Hs]. apply accounted_open; try assumption.
  - split; cbn [pageStates numPages pageCapacity frameGroupIdxes]; try (rewrite ?length_replicate; lia).
    + apply fresh_words, HN.
    + intros p w Hw Hg. apply lookup_replicate in Hw as [-> _]. rewrite getState_new in Hg. contradiction.
    + apply groups_cover.
    + unfold isInMemoryMode. cbn [isLargePaged isNewTmpFile]. rewrite Hdisk. discriminate.
  - unfold handle_bytes. cbn [pageStates]. rewrite loaded_fresh. reflexivity.
Qed.

Lemma get_handle_run f b fh : fileHandles b !! f = Some fh → get_handle f b = (Ok fh, b).
Proof. intros H. unfold get_handle, observe. rewrite H. reflexivity. Qed.

(** [addNewPageGroupWithoutLock], if the region has a frame group left. *)
Lemma addNewPageGroup_accounted N R b f fh :
  (0 ≤ N)%Z → accounted N R b → fileHandles b !! f = Some fh →
  numFrameGroups (region (isTempPage fh) b) < maxNumFrameGroups (region (isTempPage fh) b) →
  ∃ b' fh', addNewPageGroupWithoutLock f b = (Ok tt, b') ∧ accounted N R b' ∧ fileHandles b' !! f = Some fh' ∧
    numPages fh' = numPages fh ∧ pageCapacity fh' = pageCapacity fh + PAGE_GROUP_SIZE ∧ isInMemoryMode fh' = isInMemoryMode fh ∧
    evictionQueue b' = evictionQueue b ∧ bufferPoolSize b' = bufferPoolSize b.
Proof.
  intros HN Ha Hf Hroom. set (t := isTempPage fh) in *. set (cap := pageCapacity fh + PAGE_GROUP_SIZE).
  set (states := pageStates fh ++ replicate (cap - length (pageStates fh)) PageState_new).
  set (fh1 := set_pages (numPages fh) cap states (frameGroupIdxes fh) fh).
  set (fh2 := set_pages (numPages fh) cap states (frameGroupIdxes fh ++ [numFrameGroups (region t b)]) fh).
  destruct (addNewFrameGroup (region t b)) as [o r] eqn:Hadd. pose proof Hadd as Hadd0. unfold addNewFrameGroup in Hadd.
  rewrite (proj2 (Nat.leb_gt _ _) Hroom) in Hadd. injection Hadd as <- <-. set (r := MkVMRegion _ _ _ _) in *.
  assert (Hlt : f < length (fileHandles b)) by (apply lookup_lt_Some in Hf; exact Hf).
  pose proof (manager_handle N b f fh (ac_ok _ _ _ Ha) Hf) as [G1 G2 G3 G4 G5 G6]. pose proof (accounted_disk _ _ _ _ _ Ha Hf) as Hmem.
  exists (set_handles (<[f := fh2]> (fileHandles b)) (set_region t r b)), fh2. split.
  { unfold addNewPageGroupWithoutLock. rewrite (M_bind_ok _ _ _ _ _ (get_handle_run f b fh Hf)). fold cap states fh1.
    unfold set_handle. unfold_M. fold t.
    replace (region t (set_handles (<[f:=fh1]> (fileHandles b)) b)) with (region t b) by (destruct t; reflexivity). rewrite Hadd0.
    unfold get_handle, observe. replace (fileHandles (set_region t r (set_handles (<[f:=fh1]> (fileHandles b)) b))) with (<[f:=fh1]> (fileHandles b)) by (destruct t; reflexivity).
    rewrite list_lookup_insert_eq by exact Hlt. change (set_pages (numPages fh1) (pageCapacity fh1) (pageStates fh1) (frameGroupIdxes fh1 ++ [numFrameGroups (region t b)]) fh1) with fh2.
    rewrite list_insert_insert_eq. destruct t; reflexivity. }
  assert (Hf1 : fileHandles (set_region t r b) = fileHandles b) by (destruct t; reflexivity).
  split; [|split; [cbn [fileHandles set_handles]; apply list_lookup_insert_eq, Hlt|split_and!; try reflexivity; destruct t; reflexivity]].
  rewrite <- Hf1 at 1. apply (accounted_handle N R _ f fh fh2 (accounted_region N R b t r Ha)); [rewrite Hf1; exact Hf| |exact Hmem| |].
  - split; cbn [fh2 set_pages pageStates numPages pageCapacity frameGroupIdxes].
    + apply Forall_app. split; [exact G1|apply fresh_words, HN].
    + intros p w Hw Hg. apply lookup_app_Some in Hw as [Hw|[_ Hw]]; [exact (G2 p w Hw Hg)|]. apply lookup_replicate in Hw as [-> _]. rewrite getState_new in Hg. contradiction.
    + lia.
    + rewrite length_app. cbn [length]. unfold cap. lia.
    + unfold states. rewrite length_app, length_replicate. lia.
    + intros E. change (isInMemoryMode fh = true) in E. rewrite Hmem in E. discriminate E.
  - unfold handle_bytes. cbn [fh2 set_pages pageStates]. unfold states. rewrite sum_list_with_app, loaded_fresh, Nat.add_0_r. reflexivity.
  - cbn [fh2 set_pages pageStates]. unfold states. rewrite length_app. lia.
Qed.

(** The new page, once the file has room for it. *)
Lemma addNewPage_tail N R b f fh :
  (0 ≤ N)%Z → accounted N R b → fileHandles b !! f = Some fh → numPages fh < pageCapacity fh →
  ∃ b', (on_state f (numPages fh) resetToEvicted ;;
         (fh' ← get_handle f; set_handle f (set_pages (S (numPages fh')) (pageCapacity fh') (pageStates fh') (frameGroupIdxes fh') fh'))) b = (Ok tt, b') ∧
    accounted N R b' ∧ evictionQueue b' = evictionQueue b ∧ bufferPoolSize b' = bufferPoolSize b.
Proof.
  intros HN Ha Hf Hlt. pose proof (manager_handle N b f fh (ac_ok _ _ _ Ha) Hf) as [G1 G2 G3 G4 G5 G6].
  destruct (lookup_lt_is_Some_2 (pageStates fh) (numPages fh) ltac:(lia)) as [w Hw].
  assert (Hwa : word_at b f (numPages fh) = Some w) by (unfold word_at; rewrite Hf; exact Hw).
  assert (Hg : getState w = EVICTED) by (destruct (Z.eq_dec (getState w) EVICTED) as [E|E]; [exact E|specialize (G2 _ _ Hw E); lia]).
  rewrite (M_bind_ok _ _ _ _ _ (on_state_run f (numPages fh) resetToEvicted b w (Ok tt) PageState_new Hwa eq_refl)).
  destruct (accounted_set N R b f (numPages fh) w PageState_new fh Ha Hf Hwa (valid_new N HN)) as [Ha1 _]; [rewrite getState_new; contradiction|].
  apply (λ H, accounted_eq _ _ R _ H) in Ha1; [|rewrite (proj2 (loaded_of w) Hg), (proj2 (loaded_of PageState_new) getState_new); lia].
  pose proof (handle_set_word f (numPages fh) PageState_new b fh Hf) as Hf1. destruct (set_word_at_queue f (numPages fh) PageState_new b) as (Gq & _ & Gp & _).
  set (b1 := set_word_at _ _ _ b) in *. set (fh1 := set_pageStates _ fh) in Hf1. rewrite (M_bind_ok _ _ _ _ _ (get_handle_run f b1 fh1 Hf1)).
  eexists. split; [reflexivity|]. cbn [evictionQueue bufferPoolSize set_handles]. split; [|auto].
  pose proof (manager_handle N b1 f fh1 (ac_ok _ _ _ Ha1) Hf1) as [E1 E2 E3 E4 E5 E6].
  apply (accounted_handle N R b1 f fh1); try assumption; try reflexivity; [|exact (accounted_disk _ _ _ _ _ Ha1 Hf1)].
  split; cbn [set_pages pageStates numPages pageCapacity frameGroupIdxes]; try assumption.
  intros p w' Hw' Hg'. specialize (E2 p w' Hw' Hg'). lia.
Qed.

Lemma addNewPage_accounted {spiller} `{!Idle spiller} N R checked b f fh :
  (0 ≤ N)%Z → accounted N R b → fileHandles b !! f = Some fh →
  (numPages fh = pageCapacity fh → numFrameGroups (region (isTempPage fh) b) < maxNumFrameGroups (region (isTempPage fh) b)) →
  ∃ b', addNewPageWithoutLock checked spiller f b = (Ok (numPages fh), b') ∧ accounted N R b' ∧
    evictionQueue b' = evictionQueue b ∧ bufferPoolSize b' = bufferPoolSize b.
Proof.
  intros HN Ha Hf Hroom. pose proof (manager_handle N b f fh (ac_ok _ _ _ Ha) Hf) as [_ _ G3 _ _ _].
  pose proof (accounted_disk _ _ _ _ _ Ha Hf) as Hmem. assert (HG : 0 < PAGE_GROUP_SIZE) by (apply Nat.ltb_lt; reflexivity).
  assert (H1 : ∃ b1 fh1, (if numPages fh =? pageCapacity fh then addNewPageGroupWithoutLock f else mret tt) b = (Ok tt, b1) ∧ accounted N R b1 ∧
    fileHandles b1 !! f = Some fh1 ∧ numPages fh1 = numPages fh ∧ numPages fh1 < pageCapacity fh1 ∧
    evictionQueue b1 = evictionQueue b ∧ bufferPoolSize b1 = bufferPoolSize b).
  { destruct (Nat.eqb_spec (numPages fh) (pageCapacity fh)) as [E|E].
    - destruct (addNewPageGroup_accounted N R b f fh HN Ha Hf (Hroom E)) as (b1 & fh1 & Hr & Ha1 & Hf1 & Hn & Hc & _ & Hq & Hp).
      exists b1, fh1. split_and!; try assumption. lia.
    - exists b, fh. split_and!; try assumption; try reflexivity. lia. }
  destruct H1 as (b1 & fh1 & Hr1 & Ha1 & Hf1 & Hn1 & Hlt & Hq1 & Hp1).
  destruct (addNewPage_tail N R b1 f fh1 HN Ha1 Hf1 Hlt) as (b2 & Hr2 & Ha2 & Hq2 & Hp2). rewrite Hn1 in Hr2.
  exists b2. split; [|split; [exact Ha2|split; congruence]]. unfold addNewPageWithoutLock.
  rewrite (M_bind_ok _ _ _ _ _ (get_handle_run f b fh Hf)), (M_bind_ok _ _ _ _ _ Hr1), Hmem.
  revert Hr2. unfold mbind, M_bind. destruct (on_state f (numPages fh) resetToEvicted b1) as [[[]|] c]; [|discriminate].
  destruct (get_handle f c) as [[fh'|] c']; [|discriminate]. intros ->. reflexivity.
Qed.
