(* ===== verification/BufferTheorems.v ===== *)
(** * Theorems on the buffer manager

    [evictPages] makes progress, [reserve] ends and keeps the memory in use within the pool, and the counter
    [usedMemory] is exact through every sequence of operations, errors included. *)

From stdpp Require Import base numbers list gmap strings.
From Stdlib Require Import ZArith Lia.
From S2P Require Import Prelude PageState PageProtocol PageSpec BufferedFile BufferManager BufferSpec BufferAccounting.
Import FileInfo PageState EvictionQueue BufferManager.

#[local] Opaque updateStateWithSameVersion updateStateAndIncrementVersion getState isDirty pack PageState_new.

(** ** Sequences of operations *)

(** The operations of the clients of a buffer manager, with files on disk and one thread. *)
Inductive Op :=
| OpenFile (large tmp : bool) (info : FileInfo)
| AddPage (f : nat)
| Pin (f p : nat) (readPage : bool)
| Unpin (f p : nat)
| Read (f p : nat)
| SetDirty (f p : nat)
| Flush (f p : nat)
| Remove (f p : nat) (shouldFlush : bool)
| Reserve (n : Z)
| Release (n : Z).

(** The manager and the memory its clients have reserved. *)
Definition State : Type := BufferManager * Z.

Definition page_ok (f p : nat) (b : BufferManager) (state : Z → bool) : bool :=
  match fileHandles b !! f with
  | Some fh =>
      (p <? numPages fh) && (Z.of_nat p <? INVALID_IDX)%Z && (Z.of_nat (getPageSize fh) <=? bufferPoolSize b)%Z &&
      match pageStates fh !! p with Some w => state (getState w) | None => false end
  | None => false
  end.

(** What the clients keep to: pages of the file; no page is pinned twice by the one thread, for it would wait for itself;
    only what is pinned is unpinned, and only what is reserved is released. *)
Definition op_legal (op : Op) (s : State) : bool :=
  let b := s.1 in
  match op with
  | OpenFile large tmp _ => large || negb tmp
  | AddPage f =>
      match fileHandles b !! f with
      | Some fh => negb (numPages fh =? pageCapacity fh) ||
          (numFrameGroups (region (isTempPage fh) b) <? maxNumFrameGroups (region (isTempPage fh) b))
      | None => false
      end
  | Pin f p _ | Read f p => page_ok f p b (λ st, negb (st =? LOCKED)%Z)
  | Unpin f p => page_ok f p b (λ st, st =? LOCKED)%Z
  | SetDirty f p | Flush f p | Remove f p _ => page_ok f p b (λ _, true)
  | Reserve n => (0 <=? n)%Z && (n <=? bufferPoolSize b)%Z
  | Release n => (0 <=? n)%Z && (n <=? s.2)%Z
  end.

Section Runs.
Context (checked : bool) (spiller : option (M BufferManager (Z * Z))).

(** An operation that throws leaves what it has done. *)
Definition perform (op : Op) (s : State) : State :=
  let '(b, R) := s in
  match op with
  | OpenFile large tmp info => ((getFileHandle large tmp info b).2, R)
  | AddPage f => ((addNewPageWithoutLock checked spiller f b).2, R)
  | Pin f p readPage => ((pin checked spiller f p readPage b).2, R)
  | Unpin f p => ((unpin f p b).2, R)
  | Read f p => ((optimisticRead checked spiller f p b).2, R)
  | SetDirty f p => ((setLockedPageDirty f p b).2, R)
  | Flush f p => ((flushPageIfDirtyWithoutLock f p b).2, R)
  | Remove f p shouldFlush => ((removePageFromFrame f p shouldFlush b).2, R)
  | Reserve n => let '(o, b') := reserve spiller n b in (b', match o with Ok true => (R + n)%Z | _ => R end)
  | Release n => ((freeUsedMemory n b).2, (R - n)%Z)
  end.

Fixpoint perform_all (ops : list Op) (s : State) : State :=
  match ops with [] => s | op :: ops' => perform_all ops' (perform op s) end.
Fixpoint all_legal (ops : list Op) (s : State) : bool :=
  match ops with [] => true | op :: ops' => op_legal op s && all_legal ops' (perform op s) end.

Context `{!Idle spiller}.

(** What one operation keeps. *)
Record op_kept (N : Z) (s s' : State) : Prop := {
  ok_accounted : accounted (N + 1) s'.2 s'.1;
  ok_reserved : (0 ≤ s'.2)%Z;
  ok_pool : bufferPoolSize s'.1 = bufferPoolSize s.1;
  ok_slots : capacity (evictionQueue s'.1) = capacity (evictionQueue s.1);
  ok_cursor : (evictionCursor (evictionQueue s'.1) ≤ evictionCursor (evictionQueue s.1) + budget s.1)%Z;
}.

Lemma op_kept_stays N k R b b' :
  (0 ≤ R)%Z → accounted (N + 1) R b' → stays k b b' → (k ≤ budget b)%Z → op_kept N (b, R) (b', R).
Proof. intros HR Ha [S1 S2 S3 S4] Hk. split; cbn [fst snd]; try assumption. lia. Qed.

Lemma op_kept_queue N R b b' :
  (0 ≤ R)%Z → accounted (N + 1) R b' → evictionQueue b' = evictionQueue b → bufferPoolSize b' = bufferPoolSize b → op_kept N (b, R) (b', R).
Proof. intros HR Ha Hq Hp. pose proof (budget_pos b). split; cbn [fst snd]; rewrite ?Hq; try assumption; try reflexivity. lia. Qed.

Lemma page_ok_page f p b st : page_ok f p b st = true → ∃ w, is_page f p b ∧ fits f b ∧ word_at b f p = Some w ∧ st (getState w) = true.
Proof.
  unfold page_ok. destruct (fileHandles b !! f) as [fh|] eqn:Hf; [|discriminate]. rewrite !andb_true_iff.
  intros [[[Hn Hi] Hs] Hw]. apply Nat.ltb_lt in Hn. apply Z.ltb_lt in Hi. apply Z.leb_le in Hs.
  destruct (pageStates fh !! p) as [w|] eqn:Hp; [|discriminate]. exists w. split; [exists fh; apply lookup_lt_Some in Hp; auto|].
  split; [intros fh' Hf'; rewrite Hf in Hf'; injection Hf' as <-; exact Hs|]. unfold word_at. rewrite Hf. auto.
Qed.

Lemma reserve_kept N R b n :
  (0 ≤ N)%Z → (0 ≤ R)%Z → accounted N R b → (0 ≤ n ≤ bufferPoolSize b)%Z → (evictionCursor (evictionQueue b) + budget b < 2 ^ 64)%Z →
  op_kept N (b, R) (perform (Reserve n) (b, R)).
Proof.
  intros HN HR Ha Hn Hcur. pose proof (ac_used _ _ _ Ha) as Hu.
  destruct (reserve_ok N HN n 0 b (ac_ok _ _ _ Ha) (ac_le _ _ _ Ha) (ac_pool _ _ _ Ha)) as (r & m & b' & Hrun & Hmv & Hle & Hc & _);
    [lia|lia|lia|intros; lia|exact Hcur|]. cbn [perform]. rewrite Hrun. destruct Hmv as [M1 M2 M3 M4 M5 M6 M7].
  assert (Hd : accounted N (if r then R + n else R) b').
  { split; try assumption; [destruct r; lia|rewrite M3; apply (ac_pool _ _ _ Ha)|exact (disk_kept _ _ M5 (ac_disk _ _ _ Ha))]. }
  destruct r; (split; cbn [fst snd]; [apply (accounted_mono N); [lia|exact Hd]|lia|exact M3|exact M6|exact Hc]).
Qed.

Lemma release_kept N R b n :
  accounted N R b → (0 ≤ n ≤ R)%Z → op_kept N (b, R) (perform (Release n) (b, R)).
Proof.
  intros Ha Hn. pose proof (accounted_mono N (N + 1) R b ltac:(lia) Ha) as [A1 A2 A3 A4 A5]. cbn [perform].
  rewrite freeUsed_ok by lia. pose proof (budget_pos b). split; cbn [fst snd]; try reflexivity; [|lia|cbn [evictionQueue set_used]; lia].
  split; try assumption; [apply set_used_ok, A1| |]; cbn [usedMemory set_used bufferPoolSize]; rewrite ?loaded_set_used; lia.
Qed.

(** Every operation keeps the accounts. *)
Lemma perform_kept N op b R :
  (0 ≤ N)%Z → (N + 1 < 2 ^ 55)%Z → (0 ≤ R)%Z → accounted N R b → (evictionCursor (evictionQueue b) + budget b < 2 ^ 64)%Z →
  op_legal op (b, R) = true → op_kept N (b, R) (perform op (b, R)).
Proof.
  intros HN HN1 HR Ha Hcur Hl. pose proof (λ R b, accounted_mono N (N + 1) R b ltac:(lia)) as Hm. pose proof (budget_pos b) as Hb.
  destruct op as [large tmp info|f|f p rd|f p|f p|f p|f p|f p fl|n|n]; cbn [op_legal fst snd] in Hl;
    try (apply page_ok_page in Hl as (w & Hpage & Hfits & Hw & Hst)); cbn [perform].
  - destruct (getFileHandle_accounted N R b large tmp info HN Ha) as (o & b' & -> & Ha' & Hq & Hp); [destruct large, tmp; (reflexivity || discriminate)|].
    apply op_kept_queue; auto.
  - destruct (fileHandles b !! f) as [fh|] eqn:Hf; [|discriminate].
    destruct (addNewPage_accounted N R checked b f fh HN Ha Hf) as (b' & -> & Ha' & Hq & Hp); [|apply op_kept_queue; auto].
    intros E. rewrite E, Nat.eqb_refl in Hl. apply Nat.ltb_lt. exact Hl.
  - apply negb_true_iff, Z.eqb_neq in Hst. destruct (pin_accounted N R checked b f p w rd HN HR Ha Hpage Hfits Hw Hst Hcur) as (o & b' & -> & Ha' & Hs & _).
    apply (op_kept_stays N (budget b)); auto; lia.
  - apply Z.eqb_eq in Hst. destruct (unpin_accounted N R b f p w HN HN1 Ha Hpage Hw Hst) as (b' & -> & Ha' & Hs). apply (op_kept_stays N 0); auto.
  - apply negb_true_iff, Z.eqb_neq in Hst.
    destruct (optimisticRead_accounted N R checked b f p w HN HN1 HR Ha Hpage Hfits Hw Hst Hcur) as (o & b' & -> & Ha' & Hs).
    apply (op_kept_stays N (budget b)); auto; lia.
  - destruct (setDirty_accounted N R b f p w Ha Hpage Hw) as (o & b' & -> & Ha' & Hs). apply (op_kept_stays N 0); auto.
  - destruct (flush_accounted N R b f p w Ha Hpage Hw) as (b' & w' & -> & Ha' & Hs & _). apply (op_kept_stays N 0); auto.
  - destruct (remove_accounted N R b f p w fl HN HR Ha Hpage Hw) as (b' & -> & Ha' & Hs & _). apply (op_kept_stays N 0); auto.
  - apply andb_true_iff in Hl as [H1%Z.leb_le H2%Z.leb_le]. exact (reserve_kept N R b n HN HR Ha (conj H1 H2) Hcur).
  - apply andb_true_iff in Hl as [H1%Z.leb_le H2%Z.leb_le]. exact (release_kept N R b n Ha (conj H1 H2)).
Qed.

(** The steps of the cursor per operation at most, for a queue of [slots] slots. *)
Definition op_budget (slots : nat) : Z := (Z.of_nat (slots + 5) * (2 * Z.of_nat slots))%Z.

Lemma budget_le N b : manager_ok N b → (budget b ≤ op_budget (capacity (evictionQueue b)))%Z.
Proof.
  intros H. pose proof (qo_size _ (bo_queue _ _ H)) as Hs. pose proof (occupied_le (data (evictionQueue b))) as Ho.
  rewrite (qo_length _ (bo_queue _ _ H)) in Ho. unfold budget, op_budget, advance, reserve_rounds. nia.
Qed.

Lemma perform_all_kept ops : ∀ N b R,
  (0 ≤ N)%Z → (N + Z.of_nat (length ops) < 2 ^ 55)%Z → (0 ≤ R)%Z → accounted N R b →
  (evictionCursor (evictionQueue b) + Z.of_nat (length ops) * op_budget (capacity (evictionQueue b)) < 2 ^ 64)%Z →
  all_legal ops (b, R) = true →
  let s' := perform_all ops (b, R) in
  accounted (N + Z.of_nat (length ops)) s'.2 s'.1 ∧ (0 ≤ s'.2)%Z ∧ bufferPoolSize s'.1 = bufferPoolSize b.
Proof.
  induction ops as [|op ops IH]; intros N b R HN Hlen HR Ha Hcur Hl; cbn [perform_all all_legal length] in *.
  - rewrite Z.add_0_r. auto.
  - apply andb_true_iff in Hl as [Hop Hl]. pose proof (budget_le N b (ac_ok _ _ _ Ha)) as Hb. pose proof (budget_pos b) as Hb0.
    assert (Hop0 : (0 ≤ op_budget (capacity (evictionQueue b)))%Z) by lia.
    destruct (perform_kept N op b R HN ltac:(lia) HR Ha ltac:(nia) Hop) as [K1 K2 K3 K4 K5]. destruct (perform op (b, R)) as [b1 R1]. cbn [fst snd] in *.
    destruct (IH (N + 1)%Z b1 R1 ltac:(lia) ltac:(lia) K2 K1) as (I1 & I2 & I3); [rewrite K4; nia|exact Hl|].
    rewrite I3, K3. replace (N + Z.of_nat (S (length ops)))%Z with (N + 1 + Z.of_nat (length ops))%Z by lia. auto.
Qed.

(** C4. Memory accounting: from its construction on, through every sequence of operations of one thread (opening files,
    adding, pinning, unpinning, reading, dirtying, flushing and removing pages, reserving and releasing memory), and also
    when they throw, without a spiller or with one that has nothing to spill, the memory a buffer manager counts as used is exactly what its pages in memory take, the queue takes
    and the clients have reserved, and it is never more than the buffer pool.
    No file is in memory mode, a page is added only while a frame group for it is left, no page is pinned twice
    and only what is pinned or reserved is given back, a request is at most the pool, and the cursor of the queue stays below 2^64. *)
Theorem memory_accounted pool maxDB b0 ops :
  BufferManager_new pool maxDB = Ok b0 → (pool < 2 ^ 62)%Z → (Z.of_nat (length ops) < 2 ^ 55)%Z →
  (Z.of_nat (length ops) * op_budget (capacity (evictionQueue b0)) < 2 ^ 64)%Z →
  all_legal ops (b0, usedMemory b0) = true →
  let '(b, R) := perform_all ops (b0, usedMemory b0) in
  usedMemory b = (R + Z.of_nat (loaded_bytes b))%Z ∧ (0 ≤ R)%Z ∧ (usedMemory b ≤ pool)%Z.
Proof.
  intros Hnew Hpool Hlen Hcur Hl. destruct (accounted_new pool maxDB b0 Hnew Hpool) as (Ha & Hc & _ & Hp & Hu).
  destruct (perform_all_kept ops 0 b0 (usedMemory b0)) as (K1 & K2 & K3); try assumption; try lia.
  destruct (perform_all ops (b0, usedMemory b0)) as [b R]. cbn [fst snd] in *.
  split; [exact (ac_used _ _ _ K1)|]. split; [exact K2|]. rewrite <- Hp, <- K3. apply (ac_le _ _ _ K1).
Qed.
End Runs.

(** A manager with a pool of eight pages, and a file with ten pages added to it. *)
Definition no_manager : BufferManager := MkBufferManager 0 (EvictionQueue_new 0) 0 0 (VMRegion_new 0 0) (VMRegion_new 0 0) [].
Definition small_manager : BufferManager := match BufferManager_new 32768 8388608 with Ok b => b | Throw _ => no_manager end.
Definition small_ops : list Op :=
  OpenFile false false (MkFileInfo [] []) :: replicate 10 (AddPage 0) ++
  concat (map (λ p, [Pin 0 p false; SetDirty 0 p; Unpin 0 p]) (seq 0 10)) ++
  [Reserve 8192; Read 0 9; Remove 0 9 true; Release 8192; Pin 0 0 true; Flush 0 0].

Lemma memory_accounted_witness :
  let '(b, R) := perform_all false (Some idle_spiller) small_ops (small_manager, usedMemory small_manager) in
  usedMemory b = (R + Z.of_nat (loaded_bytes b))%Z ∧ (0 ≤ R)%Z ∧ (usedMemory b ≤ 32768)%Z.
Proof.
  apply (memory_accounted false (Some idle_spiller) 32768 8388608 small_manager small_ops); [vm_compute; reflexivity|lia|vm_compute; reflexivity|vm_compute; reflexivity|vm_compute; reflexivity].
Defined.

(** ** Making room *)

(** C16. Progress of eviction: [evictPages] returns, in at most two rounds over the queue, and if the page of any candidate is
    unlocked or marked, wherever it is in the queue, then it frees at least a page; what it frees is what the pages it evicted
    took, no locked page is touched, and every page that was evicted stays so. *)
Theorem evictPages_progress N b :
  (0 ≤ N)%Z → manager_ok N b →
  (evictionCursor (evictionQueue b) + 2 * Z.of_nat (capacity (evictionQueue b)) + Z.of_nat BATCH_SIZE < 2 ^ 64)%Z →
  ∃ n b', evictPages b = (Ok (Z.of_nat n), b') ∧ manager_ok N b' ∧ loaded_bytes b' + n = loaded_bytes b ∧
    ((∃ i, open_slot b i) → 0 < n) ∧
    (∀ f p w, word_at b f p = Some w → getState w = LOCKED → word_at b' f p = Some w) ∧
    (∀ f p w, word_at b f p = Some w → getState w = EVICTED → ∃ w', word_at b' f p = Some w' ∧ getState w' = EVICTED).
Proof.
  intros HN Hok Hcur. destruct (evictPages_ok N HN b Hok Hcur) as (n & b' & Hrun & Hk & _ & Hpos).
  exists n, b'. split; [exact Hrun|]. split; [exact (kp_ok _ _ _ _ Hk)|]. split; [exact (kp_bytes _ _ _ _ Hk)|]. split; [exact Hpos|].
  split; [exact (kp_locked _ _ _ _ Hk)|]. intros f p w Hw Hg. destruct (kp_words _ _ _ _ Hk f p w Hw) as (w' & Hw' & H). eauto.
Qed.

(** The manager after some operations, and its invariant. *)
Definition run_small (ops : list Op) : BufferManager := (perform_all false (Some idle_spiller) ops (small_manager, usedMemory small_manager)).1.
Lemma run_small_ok ops :
  (Z.of_nat (length ops) < 2 ^ 40)%Z → all_legal false (Some idle_spiller) ops (small_manager, usedMemory small_manager) = true →
  accounted (Z.of_nat (length ops)) (perform_all false (Some idle_spiller) ops (small_manager, usedMemory small_manager)).2 (run_small ops) ∧
  (0 ≤ (perform_all false (Some idle_spiller) ops (small_manager, usedMemory small_manager)).2)%Z.
Proof.
  intros Hlen Hl. destruct (accounted_new 32768 8388608 small_manager ltac:(vm_compute; reflexivity) ltac:(lia)) as (Ha & Hc & _ & _ & Hu).
  assert (Hcap : op_budget (capacity (evictionQueue small_manager)) = 8832%Z) by (vm_compute; reflexivity).
  destruct (perform_all_kept false (Some idle_spiller) ops 0 small_manager (usedMemory small_manager)) as (K1 & K2 & _); try assumption; try (rewrite ?Hcap; lia). auto.
Qed.

Lemma evictPages_progress_witness : ∃ n b', evictPages (run_small small_ops) = (Ok (Z.of_nat n), b') ∧ 0 < n.
Proof.
  destruct (evictPages_progress (Z.of_nat (length small_ops)) (run_small small_ops)) as (n & b' & H1 & _ & _ & H2 & _).
  - vm_compute. discriminate.
  - apply run_small_ok; vm_compute; reflexivity.
  - vm_compute. reflexivity.
  - exists n, b'. split; [exact H1|]. apply H2. exists 7, 0, 7. eexists. split; [vm_compute; reflexivity|]. split; [discriminate|].
    split; [vm_compute; reflexivity|]. vm_compute. auto.
Defined.

(** C17. Reserving memory: [reserve], without a spiller or with one that has nothing to spill, from a state whose accounts are
    right and whose cursor stays below 2^64, ends for a request of at most the pool; when it succeeds the new memory is counted, less the [n] bytes it
    has evicted, and the pool is not exceeded; when it fails nothing is counted, nothing is left that could be evicted, and
    the request was too large. *)
Theorem reserve_bounded spiller `{!Idle spiller} N R size b :
  (0 ≤ N)%Z → (0 ≤ R)%Z → accounted N R b → (0 ≤ size ≤ bufferPoolSize b)%Z → (evictionCursor (evictionQueue b) + budget b < 2 ^ 64)%Z →
  ∃ (r : bool) n b', reserve spiller size b = (Ok r, b') ∧ loaded_bytes b' + n = loaded_bytes b ∧ (usedMemory b' ≤ bufferPoolSize b)%Z ∧
    if r then usedMemory b' = (usedMemory b + size - Z.of_nat n)%Z
    else usedMemory b' = (usedMemory b - Z.of_nat n)%Z ∧ (∀ i, ¬ open_slot b' i) ∧ (bufferPoolSize b < usedMemory b + size + Z.of_nat n)%Z.
Proof.
  intros HN HR Ha Hs Hcur. pose proof (ac_used _ _ _ Ha) as Hu.
  destruct (reserve_ok N HN size 0 b (ac_ok _ _ _ Ha) (ac_le _ _ _ Ha) (ac_pool _ _ _ Ha)) as (r & n & b' & Hrun & Hmv & Hle & _ & Hno);
    [lia|lia|lia|intros; lia|exact Hcur|]. exists r, n, b'. split; [exact Hrun|]. split; [exact (mv_bytes _ _ _ _ _ Hmv)|].
  split; [rewrite <- (mv_pool _ _ _ _ _ Hmv); lia|]. pose proof (mv_used _ _ _ _ _ Hmv) as Hmu.
  destruct r; [exact Hmu|]. destruct (Hno eq_refl) as [H1 H2]. auto.
Qed.

Lemma reserve_bounded_witness :
  ∃ (r : bool) n b', reserve (Some idle_spiller) 20000 (run_small small_ops) = (Ok r, b') ∧ loaded_bytes b' + n = loaded_bytes (run_small small_ops) ∧
    (usedMemory b' ≤ 32768)%Z.
Proof.
  destruct (run_small_ok small_ops ltac:(vm_compute; reflexivity) ltac:(vm_compute; reflexivity)) as [Ha HR].
  destruct (reserve_bounded (Some idle_spiller) (Z.of_nat (length small_ops)) _ 20000 (run_small small_ops) ltac:(vm_compute; discriminate) HR Ha) as (r & n & b' & H1 & H2 & H3 & _);
    [vm_compute; split; discriminate|vm_compute; reflexivity|]. exists r, n, b'. auto.
Defined.

(** ** What can go wrong *)

(** The sign in [needMoreMemory]: one page of 4096 bytes can be evicted, and with it 29000 bytes would fit the pool of 32768
    (the queue takes 512), but [reserve] evicts the page and still fails. *)
Definition one_page : list Op := [OpenFile false false (MkFileInfo [] []); AddPage 0; Pin 0 0 false; Unpin 0 0].
Lemma reserve_fails_early :
  let '(r, b) := reserve None 29000 (run_small one_page) in
  r = Ok false ∧ loaded_bytes b = 0 ∧ (usedMemory b + 29000 ≤ bufferPoolSize b)%Z.
Proof. vm_compute. split; [reflexivity|]. split; [reflexivity|discriminate]. Qed.

(** Removing a page leaves its candidate in the queue: pinning, unpinning and removing one page often enough fills the queue, and
    the next [pin] fails, with the page left locked and its memory counted. *)
Definition stale_ops : list Op :=
  [OpenFile false false (MkFileInfo [] []); AddPage 0] ++ concat (replicate 64 [Pin 0 0 false; Unpin 0 0; Remove 0 0 false]).
Lemma stale_candidates_fill_queue :
  let '(r, b) := pin false None 0 0 false (run_small stale_ops) in
  r = Throw queue_full ∧ option_map getState (word_at b 0 0) = Some LOCKED ∧ loaded_bytes b = 4096.
Proof. vm_compute. split; [reflexivity|]. split; reflexivity. Qed.

(** A file that asks for a frame group when there is none left counts the pages of the group nevertheless: the next page is added without
    a frame, and using it reads past the end of the frame groups. *)
Definition full_region : BufferManager := set_region false (MkVMRegion 4096 2 2 ∅) (run_small [OpenFile false false (MkFileInfo [] [])]).
Lemma failed_group_is_counted :
  let '(r, b1) := addNewPageWithoutLock false None 0 full_region in
  let '(r2, b2) := addNewPageWithoutLock false None 0 b1 in
  r = Throw (BufferManagerException "No more frame groups can be added to the allocator.") ∧ r2 = Ok 0 ∧
  (pin false None 0 0 false b2).1 = Throw (UndefinedBehaviour "no such frame group").
Proof. vm_compute. split_and!; reflexivity. Qed.
