(* ===== verification/HashSlot.v ===== *)
(** * Slots and headers of the hash index

    storage/index/hash_index_slot.h, hash_index_header.h and hash_index_utils.h, the integer hashes of
    function/hash/hash_functions.h: the slots that hold the entries of a hash index, the level and split
    pointer of linear hashing, and how a hash picks a slot, a fingerprint and an index. *)

From stdpp Require Import base numbers list strings.
From Stdlib Require Import ZArith Lia.
From S2P Require Import Prelude.

Module HashSlot.

(** ** Constants *)

Definition INVALID_OVERFLOW_SLOT_ID : Z := (2 ^ 64 - 1)%Z.
Definition FINGERPRINT_CAPACITY : nat := 20.
Definition SLOT_CAPACITY_BYTES : nat := 256.
Definition NUM_HASH_INDEXES_LOG2 : Z := 8%Z.
Definition NUM_HASH_INDEXES : Z := Z.shiftl 1 NUM_HASH_INDEXES_LOG2.
(** [sizeof(SlotHeader)] *)
Definition SLOT_HEADER_BYTES : nat := 32.

(** ** Hashes *)

(** [murmurhash64], [combineHashScalar] on [uint64_t] *)
Definition murmurhash64 (x : Z) : Z :=
  let x := Z.lxor x (Z.shiftr x 32) in
  let x := uwrap 64 (x * 0xd6e8feb86659fd93) in
  let x := Z.lxor x (Z.shiftr x 32) in
  let x := uwrap 64 (x * 0xd6e8feb86659fd93) in
  Z.lxor x (Z.shiftr x 32).
Definition combineHashScalar (a b : Z) : Z := Z.lxor (uwrap 64 (a * 0xbf58476d1ce4e5b9)) b.

(** [IndexHashable]: a key type with [Hash::operation], and the size of an entry with it, which decides
    how many entries a slot has. *)
Class IndexHashable (K : Type) := {
  key_eq :: EqDecision K;
  key_default : K;
  hash : K → Z;
  entry_bytes : nat;
}.
Class IndexHashableOk (K : Type) `{IndexHashable K} : Prop := {
  hash_range : ∀ k : K, (0 ≤ hash k < 2 ^ 64)%Z;
  entry_fits : 0 < entry_bytes ∧ entry_bytes ≤ SLOT_CAPACITY_BYTES - SLOT_HEADER_BYTES;
}.

(** Integers of at most 8 bytes: converted to [uint64_t] and hashed; the entry is the key, padded to 8 bytes,
    and the offset. *)
#[global] Instance integer_key : IndexHashable Z := {
  key_default := 0%Z;
  hash := λ k, murmurhash64 (uwrap 64 k);
  entry_bytes := 16;
}.

(** ** Slots *)

Section Slots.
Context {K : Type} `{IndexHashable K}.

(** [getSlotCapacity] *)
Definition SLOT_CAPACITY : nat := Nat.min ((SLOT_CAPACITY_BYTES - SLOT_HEADER_BYTES) / entry_bytes) FINGERPRINT_CAPACITY.

Record SlotHeader := MkSlotHeader { fingerprints : list Z; validityMask : Z; nextOvfSlotId : Z }.
Record SlotEntry := MkEntry { key : K; value : Z }.
Record Slot := MkSlot { header : SlotHeader; entries : list SlotEntry }.

Definition SlotHeader_new : SlotHeader := MkSlotHeader (replicate FINGERPRINT_CAPACITY 0%Z) 0 INVALID_OVERFLOW_SLOT_ID.
Definition Slot_new : Slot := MkSlot SlotHeader_new (replicate SLOT_CAPACITY (MkEntry key_default 0)).

Definition isEntryValid (entryPos : nat) (h : SlotHeader) : bool :=
  negb (Z.land (validityMask h) (Z.shiftl 1 (Z.of_nat entryPos)) =? 0)%Z.
Definition setEntryValid (entryPos : nat) (fingerprint : Z) (h : SlotHeader) : SlotHeader :=
  MkSlotHeader (<[entryPos := fingerprint]> (fingerprints h)) (Z.lor (validityMask h) (Z.shiftl 1 (Z.of_nat entryPos))) (nextOvfSlotId h).
Definition setEntryInvalid (entryPos : nat) (h : SlotHeader) : SlotHeader :=
  MkSlotHeader (fingerprints h) (Z.land (validityMask h) (uwrap 32 (Z.lnot (Z.shiftl 1 (Z.of_nat entryPos))))) (nextOvfSlotId h).

(** [std::popcount] and [std::countr_one] of a [uint32_t] *)
Definition popcount (mask : Z) : nat := length (filter (λ i, Is_true (Z.testbit mask (Z.of_nat i))) (seq 0 32)).
Fixpoint countr_one_from (fuel i : nat) (mask : Z) : nat :=
  match fuel with
  | 0 => 0
  | S fuel' => if Z.testbit mask (Z.of_nat i) then S (countr_one_from fuel' (S i) mask) else 0
  end.
Definition countr_one (mask : Z) : nat := countr_one_from 32 0 mask.
Definition numEntries (h : SlotHeader) : nat := popcount (validityMask h).

Definition set_header (h : SlotHeader) (s : Slot) : Slot := MkSlot h (entries s).
Definition set_next (id : Z) (s : Slot) : Slot :=
  set_header (MkSlotHeader (fingerprints (header s)) (validityMask (header s)) id) s.
(** [entries[entryPos] = entry; header.setEntryValid(entryPos, fingerprint)] *)
Definition put_entry (entryPos : nat) (e : SlotEntry) (fingerprint : Z) (s : Slot) : Slot :=
  MkSlot (setEntryValid entryPos fingerprint (header s)) (<[entryPos := e]> (entries s)).
Definition drop_entry (entryPos : nat) (s : Slot) : Slot := set_header (setEntryInvalid entryPos (header s)) s.
End Slots.
#[global] Arguments SlotEntry : clear implicits.
#[global] Arguments Slot : clear implicits.
#[global] Arguments SLOT_CAPACITY K {_} : assert.

(** ** The header of an index *)

Record HashIndexHeader := MkHeader {
  currentLevel : Z;
  levelHashMask : Z;
  higherLevelHashMask : Z;
  nextSplitSlotId : Z;
  headerNumEntries : Z;
  firstFreeOverflowSlotId : Z;
}.
Definition HashIndexHeader_new : HashIndexHeader := MkHeader 1 1 3 0 0 INVALID_OVERFLOW_SLOT_ID.

(** [incrementLevel]: the shifts are of [int]. *)
Definition incrementLevel (h : HashIndexHeader) : HashIndexHeader :=
  let level := (currentLevel h + 1)%Z in
  MkHeader level (Z.shiftl 1 level - 1) (Z.shiftl 1 (level + 1) - 1) 0 (headerNumEntries h) (firstFreeOverflowSlotId h).
Definition incrementNextSplitSlotId (h : HashIndexHeader) : HashIndexHeader :=
  if (nextSplitSlotId h <? Z.shiftl 1 (currentLevel h) - 1)%Z
  then MkHeader (currentLevel h) (levelHashMask h) (higherLevelHashMask h) (nextSplitSlotId h + 1) (headerNumEntries h) (firstFreeOverflowSlotId h)
  else incrementLevel h.

Definition set_nextSplit (n : Z) (h : HashIndexHeader) : HashIndexHeader :=
  MkHeader (currentLevel h) (levelHashMask h) (higherLevelHashMask h) n (headerNumEntries h) (firstFreeOverflowSlotId h).
Definition set_numEntries (n : Z) (h : HashIndexHeader) : HashIndexHeader :=
  MkHeader (currentLevel h) (levelHashMask h) (higherLevelHashMask h) (nextSplitSlotId h) n (firstFreeOverflowSlotId h).
Definition set_firstFree (n : Z) (h : HashIndexHeader) : HashIndexHeader :=
  MkHeader (currentLevel h) (levelHashMask h) (higherLevelHashMask h) (nextSplitSlotId h) (headerNumEntries h) n.

(** [HashIndexHeaderOnDisk]: what is kept of a header, and reading it back. *)
Record HashIndexHeaderOnDisk := MkHeaderOnDisk {
  diskNextSplitSlotId : Z; diskNumEntries : Z; diskFirstFreeOverflowSlotId : Z; diskCurrentLevel : Z;
}.
Definition write (h : HashIndexHeader) : HashIndexHeaderOnDisk :=
  MkHeaderOnDisk (nextSplitSlotId h) (headerNumEntries h) (firstFreeOverflowSlotId h) (uwrap 8 (currentLevel h)).
Definition HashIndexHeader_read (d : HashIndexHeaderOnDisk) : HashIndexHeader :=
  MkHeader (diskCurrentLevel d) (uwrap 64 (Z.shiftl 1 (diskCurrentLevel d)) - 1) (uwrap 64 (Z.shiftl 1 (diskCurrentLevel d + 1)) - 1)
    (diskNextSplitSlotId d) (diskNumEntries d) (diskFirstFreeOverflowSlotId d).

(** ** From hashes to slots *)

Definition getFingerprintForHash (h : Z) : Z := Z.land (Z.shiftr h (64 - NUM_HASH_INDEXES_LOG2 - 8)) 255.
Definition getPrimarySlotIdForHash (hd : HashIndexHeader) (h : Z) : Z :=
  let slotId := Z.land h (levelHashMask hd) in
  if (slotId <? nextSplitSlotId hd)%Z then Z.land h (higherLevelHashMask hd) else slotId.
Definition getHashIndexPosition {K} `{IndexHashable K} (k : K) : Z :=
  Z.land (Z.shiftr (hash k) (64 - NUM_HASH_INDEXES_LOG2)) (NUM_HASH_INDEXES - 1).
(** [ceil(numEntries * 1.5)], exact for the counts of 32 bits it is called with *)
Definition getNumRequiredEntries (n : Z) : Z := ((3 * n + 1) / 2)%Z.

End HashSlot.
