(* ===== verification/HashSlotSpec.v ===== *)
(** * Slots as lists of cells

    A slot is seen as its cells, each empty or with an entry; the operations on the validity mask, the fingerprints
    and the entries are updates of one cell, and counting bits is counting cells. *)

From stdpp Require Import base numbers list strings.
From Stdlib Require Import ZArith Lia.
From S2P Require Import Prelude HashSlot.
Import HashSlot.

(** ** Hashes of integers *)

Lemma lxor_range a b n : (0 ≤ n)%Z → (0 ≤ a < 2 ^ n)%Z → (0 ≤ b < 2 ^ n)%Z → (0 ≤ Z.lxor a b < 2 ^ n)%Z.
Proof.
  intros Hn Ha Hb. assert (H0 : (0 ≤ Z.lxor a b)%Z) by (apply Z.lxor_nonneg; lia). split; [exact H0|].
  destruct (Z.eq_dec (Z.lxor a b) 0) as [->|Hne]; [lia|]. apply Z.log2_lt_pow2; [lia|].
  apply (Z.le_lt_trans _ (Z.max (Z.log2 a) (Z.log2 b))); [apply Z.log2_lxor; lia|].
  assert (Hlog : ∀ c, (0 ≤ c < 2 ^ n)%Z → c = 0%Z ∨ (Z.log2 c < n)%Z).
  { intros c Hc. destruct (Z.eq_dec c 0) as [|Hc0]; [auto|]. right. apply Z.log2_lt_pow2; lia. }
  destruct (Hlog a Ha) as [->|Hla], (Hlog b Hb) as [->|Hlb]; try (rewrite ?Z.lxor_0_l, ?Z.lxor_0_r in Hne); cbn [Z.log2]; try lia;
    apply Z.max_lub_lt; try assumption.
  - destruct (Z.eq_dec n 0) as [->|]; [|lia]. lia.
  - destruct (Z.eq_dec n 0) as [->|]; [|lia]. lia.
Qed.

Lemma murmurhash64_range x : (0 ≤ x < 2 ^ 64)%Z → (0 ≤ murmurhash64 x < 2 ^ 64)%Z.
Proof.
  intros Hx. unfold murmurhash64. assert (Hu : ∀ z, (0 ≤ uwrap 64 z < 2 ^ 64)%Z) by (intros z; apply Z.mod_pos_bound; lia).
  assert (Hs : ∀ y, (0 ≤ y < 2 ^ 64)%Z → (0 ≤ Z.shiftr y 32 < 2 ^ 64)%Z).
  { intros y Hy. rewrite Z.shiftr_div_pow2 by lia. split; [apply Z.div_pos; lia|]. apply Z.div_lt_upper_bound; lia. }
  apply lxor_range; [lia|apply Hu|apply Hs, Hu].
Qed.

#[global] Instance integer_key_ok : IndexHashableOk Z.
Proof.
  split; [intros k; apply murmurhash64_range, Z.mod_pos_bound; lia|]. cbn. unfold SLOT_CAPACITY_BYTES, SLOT_HEADER_BYTES. lia.
Qed.

Section Cells.
Context {K : Type} `{Hk : IndexHashable K} `{Hok : !IndexHashableOk K}.

Abbreviation CAP := (SLOT_CAPACITY K).

Lemma capacity_range : 0 < CAP ≤ 20.
Proof.
  unfold SLOT_CAPACITY, FINGERPRINT_CAPACITY. destruct entry_fits as [H1 H2]. set (n := SLOT_CAPACITY_BYTES - SLOT_HEADER_BYTES) in *.
  assert (0 < n / entry_bytes) by (apply Nat.div_str_pos; lia). lia.
Qed.

(** The fingerprint of an entry. *)
Definition fp (e : SlotEntry K) : Z := getFingerprintForHash (hash (key e)).

(** ** Bits of a mask *)

Lemma isEntryValid_bit i (h : SlotHeader) : isEntryValid i h = Z.testbit (validityMask h) (Z.of_nat i).
Proof.
  unfold isEntryValid. rewrite Z.shiftl_1_l. destruct (Z.testbit (validityMask h) (Z.of_nat i)) eqn:Hb.
  - apply negb_true_iff, Z.eqb_neq. intros E. apply (f_equal (λ z, Z.testbit z (Z.of_nat i))) in E.
    rewrite Z.land_spec, Hb, Z.pow2_bits_true, Z.bits_0 in E by lia. discriminate E.
  - apply negb_false_iff, Z.eqb_eq. apply Z.bits_inj'. intros n Hn. rewrite Z.land_spec, Z.bits_0.
    destruct (Z.eq_dec n (Z.of_nat i)) as [->|Hne]; [rewrite Hb; reflexivity|]. rewrite Z.pow2_bits_false by lia. apply andb_false_r.
Qed.

Lemma valid_bit i m j : (0 ≤ j)%Z → Z.testbit (Z.lor m (Z.shiftl 1 (Z.of_nat i))) j = if decide (j = Z.of_nat i) then true else Z.testbit m j.
Proof.
  intros Hj. rewrite Z.lor_spec, Z.shiftl_1_l. destruct (decide (j = Z.of_nat i)) as [->|Hne].
  - rewrite Z.pow2_bits_true by lia. apply orb_true_r.
  - rewrite Z.pow2_bits_false by lia. apply orb_false_r.
Qed.

Lemma invalid_bit i m j : i < 32 → (0 ≤ j < 32)%Z →
  Z.testbit (Z.land m (uwrap 32 (Z.lnot (Z.shiftl 1 (Z.of_nat i))))) j = if decide (j = Z.of_nat i) then false else Z.testbit m j.
Proof.
  intros Hi Hj. rewrite Z.land_spec. unfold uwrap. rewrite Z.mod_pow2_bits_low, Z.lnot_spec, Z.shiftl_1_l by lia.
  destruct (decide (j = Z.of_nat i)) as [->|Hne].
  - rewrite Z.pow2_bits_true by lia. apply andb_false_r.
  - rewrite Z.pow2_bits_false by lia. apply andb_true_r.
Qed.

Lemma high_bits m n j : (0 ≤ n)%Z → (0 ≤ m < 2 ^ n)%Z → (n ≤ j)%Z → Z.testbit m j = false.
Proof.
  intros Hn Hm Hj. rewrite <- (Z.mod_small m (2 ^ n)) by exact Hm. apply Z.mod_pow2_bits_high. lia.
Qed.

Lemma bits_below m n : (0 ≤ n)%Z → (0 ≤ m)%Z → (∀ j, (n ≤ j)%Z → Z.testbit m j = false) → (m < 2 ^ n)%Z.
Proof.
  intros Hn Hm H. destruct (Z.lt_ge_cases m (2 ^ n)) as [|Hge]; [assumption|exfalso].
  assert (Hp : (0 < m)%Z) by lia. pose proof (Z.bit_log2 m Hp) as Hb.
  rewrite H in Hb; [discriminate|]. apply (Z.log2_le_pow2 m n Hp). exact Hge.
Qed.

(** ** The cells of a slot *)

Definition cell (s : Slot K) (i : nat) : option (SlotEntry K) :=
  if Z.testbit (validityMask (header s)) (Z.of_nat i) then entries s !! i else None.
Definition view (s : Slot K) : list (option (SlotEntry K)) := map (cell s) (seq 0 CAP).

Record slot_ok (s : Slot K) : Prop := {
  so_fingerprints : length (fingerprints (header s)) = FINGERPRINT_CAPACITY;
  so_entries : length (entries s) = CAP;
  so_mask : (0 ≤ validityMask (header s) < 2 ^ Z.of_nat CAP)%Z;
  so_fp : ∀ i e, cell s i = Some e → fingerprints (header s) !! i = Some (fp e);
}.

Lemma view_length s : length (view s) = CAP.
Proof. unfold view. rewrite length_map, length_seq. reflexivity. Qed.

Lemma view_lookup s i : i < CAP → view s !! i = Some (cell s i).
Proof. intros Hi. unfold view. rewrite list_lookup_fmap, lookup_seq_lt by exact Hi. reflexivity. Qed.

Lemma slot_view_eq s l : length l = CAP → (∀ i, i < CAP → l !! i = Some (cell s i)) → view s = l.
Proof.
  intros Hl H. apply list_eq. intros i. destruct (Nat.lt_ge_cases i CAP) as [Hi|Hi].
  - rewrite view_lookup, H by exact Hi. reflexivity.
  - rewrite !lookup_ge_None_2 by (rewrite ?view_length; lia). reflexivity.
Qed.

Lemma cell_high s i : slot_ok s → CAP ≤ i → cell s i = None.
Proof. intros Hs Hi. unfold cell. rewrite (high_bits _ (Z.of_nat CAP)); [reflexivity|lia|apply Hs|lia]. Qed.

Lemma cell_put s i e f j : slot_ok s → i < CAP → cell (put_entry i e f s) j = if decide (j = i) then Some e else cell s j.
Proof.
  intros Hs Hi. unfold cell, put_entry, setEntryValid. cbn [header entries validityMask]. rewrite valid_bit by lia.
  destruct (decide (j = i)) as [->|Hne].
  - rewrite decide_True by reflexivity. apply list_lookup_insert_eq. rewrite (so_entries _ Hs). exact Hi.
  - rewrite decide_False by lia. rewrite list_lookup_insert_ne by congruence. reflexivity.
Qed.

Lemma cell_drop s i j : slot_ok s → i < CAP → cell (drop_entry i s) j = if decide (j = i) then None else cell s j.
Proof.
  intros Hs Hi. pose proof capacity_range as Hc. destruct (Nat.lt_ge_cases j CAP) as [Hj|Hj].
  - unfold cell, drop_entry, set_header, setEntryInvalid. cbn [header entries validityMask]. rewrite invalid_bit by lia.
    destruct (decide (j = i)) as [->|Hne]; [rewrite decide_True by reflexivity; reflexivity|]. rewrite decide_False by lia. reflexivity.
  - rewrite (cell_high s j Hs Hj). rewrite decide_False by lia. unfold cell, drop_entry, set_header, setEntryInvalid. cbn [header entries validityMask].
    rewrite Z.land_spec, (high_bits (validityMask (header s)) (Z.of_nat CAP)) by (apply Hs || lia). reflexivity.
Qed.

Lemma view_update s s' i c :
  i < CAP → (∀ j, cell s' j = if decide (j = i) then c else cell s j) → view s' = <[i := c]> (view s).
Proof.
  intros Hi H. apply slot_view_eq; [rewrite length_insert; apply view_length|]. intros j Hj. rewrite H.
  destruct (decide (j = i)) as [->|Hne].
  - apply list_lookup_insert_eq. rewrite view_length. exact Hi.
  - rewrite list_lookup_insert_ne by congruence. apply view_lookup, Hj.
Qed.

Lemma view_put s i e f : slot_ok s → i < CAP → view (put_entry i e f s) = <[i := Some e]> (view s).
Proof. intros Hs Hi. apply view_update; [exact Hi|]. intros j. apply cell_put; assumption. Qed.

Lemma view_drop s i : slot_ok s → i < CAP → view (drop_entry i s) = <[i := None]> (view s).
Proof. intros Hs Hi. apply view_update; [exact Hi|]. intros j. apply cell_drop; assumption. Qed.

Lemma slot_ok_put s i e : slot_ok s → i < CAP → slot_ok (put_entry i e (fp e) s).
Proof.
  intros Hs Hi. pose proof capacity_range as Hc. pose proof Hs as [H1 H2 H3 H4].
  split; cbn [put_entry header entries setEntryValid fingerprints validityMask].
  - rewrite length_insert. exact H1.
  - rewrite length_insert. exact H2.
  - assert (H0 : (0 ≤ Z.lor (validityMask (header s)) (Z.shiftl 1 (Z.of_nat i)))%Z).
    { apply Z.lor_nonneg. split; [lia|]. rewrite Z.shiftl_1_l. lia. }
    split; [exact H0|]. apply bits_below; [lia|exact H0|]. intros j Hj. rewrite valid_bit, decide_False by lia. apply (high_bits _ (Z.of_nat CAP)); lia.
  - intros j e' Hj. change (cell (put_entry i e (fp e) s) j = Some e') in Hj. rewrite cell_put in Hj by assumption.
    destruct (decide (j = i)) as [->|Hne].
    + injection Hj as <-. apply list_lookup_insert_eq. unfold FINGERPRINT_CAPACITY in H1. lia.
    + rewrite list_lookup_insert_ne by congruence. exact (H4 j e' Hj).
Qed.

Lemma slot_ok_drop s i : slot_ok s → i < CAP → slot_ok (drop_entry i s).
Proof.
  intros Hs Hi. pose proof capacity_range as Hc. pose proof Hs as [H1 H2 H3 H4].
  split; cbn [drop_entry set_header header entries setEntryInvalid fingerprints validityMask]; try assumption.
  - assert (H0 : (0 ≤ Z.land (validityMask (header s)) (uwrap 32 (Z.lnot (Z.shiftl 1 (Z.of_nat i)))))%Z) by (apply Z.land_nonneg; lia).
    split; [exact H0|]. apply bits_below; [lia|exact H0|]. intros j Hj. rewrite Z.land_spec, (high_bits _ (Z.of_nat CAP)) by lia. reflexivity.
  - intros j e Hj. change (cell (drop_entry i s) j = Some e) in Hj. rewrite cell_drop in Hj by assumption.
    destruct (decide (j = i)) as [->|_]; [discriminate Hj|]. exact (H4 j e Hj).
Qed.

Lemma view_next s id : view (set_next id s) = view s.
Proof. reflexivity. Qed.

Lemma slot_ok_next s id : slot_ok s → slot_ok (set_next id s).
Proof. intros [H1 H2 H3 H4]. split; assumption. Qed.

Lemma slot_ok_new : slot_ok Slot_new.
Proof.
  split; cbn [Slot_new header entries SlotHeader_new fingerprints validityMask]; try apply length_replicate; [split; [lia|apply Z.pow_pos_nonneg; lia]|].
  intros i e He. unfold cell, Slot_new, SlotHeader_new in He. cbn [header validityMask] in He. rewrite Z.bits_0 in He. discriminate He.
Qed.

Lemma view_new : view Slot_new = replicate CAP None.
Proof.
  apply slot_view_eq; [apply length_replicate|]. intros i Hi. rewrite lookup_replicate_2 by exact Hi.
  unfold cell, Slot_new, SlotHeader_new. cbn [header validityMask]. rewrite Z.bits_0. reflexivity.
Qed.

(** ** Counting *)

Lemma slot_bit s i : slot_ok s → i < CAP → Z.testbit (validityMask (header s)) (Z.of_nat i) = true ↔ is_Some (cell s i).
Proof.
  intros Hs Hi. unfold cell. destruct (Z.testbit _ _); split; intros H; try discriminate H; try reflexivity.
  - apply lookup_lt_is_Some. rewrite (so_entries _ Hs). exact Hi.
  - destruct H as [? H]. discriminate H.
Qed.

Lemma filter_prefix (p : nat → bool) n m : ∀ a, (∀ i, a ≤ i < a + n + m → p i = true ↔ i < a + n) → length (filter (λ i, Is_true (p i)) (seq a (n + m))) = n.
Proof.
  revert m. induction n as [|n IH]; intros m a H.
  - cbn [Nat.add]. revert a H. induction m as [|m IH]; intros a H; [reflexivity|]. cbn [seq]. rewrite filter_cons_False.
    + apply IH. intros i Hi. rewrite H by lia. lia.
    + intros Hp. apply Is_true_true, H in Hp; lia.
  - cbn [Nat.add seq]. rewrite filter_cons_True.
    + cbn [length]. rewrite IH; [reflexivity|]. intros i Hi. rewrite H by lia. lia.
    + apply Is_true_true, H; lia.
Qed.

Lemma countr_prefix m n : ∀ fuel a, n ≤ fuel → (∀ i, a ≤ i < a + fuel → Z.testbit m (Z.of_nat i) = true ↔ i < a + n) → countr_one_from fuel a m = n.
Proof.
  induction n as [|n IH]; intros fuel a Hf H.
  - destruct fuel as [|fuel]; [reflexivity|]. cbn [countr_one_from]. destruct (Z.testbit m (Z.of_nat a)) eqn:E; [|reflexivity].
    apply H in E; lia.
  - destruct fuel as [|fuel]; [lia|]. cbn [countr_one_from]. rewrite (proj2 (H a ltac:(lia))) by lia. f_equal. apply IH; [lia|].
    intros i Hi. rewrite H by lia. lia.
Qed.

(** A slot filled from the left: [l] and then empty cells. *)
Definition filled (l : list (SlotEntry K)) (n : nat) : list (option (SlotEntry K)) := map Some l ++ replicate (n - length l) None.

Lemma filled_lookup l n i : length l ≤ n → i < n → filled l n !! i = Some (l !! i).
Proof.
  intros Hl Hi. unfold filled. destruct (Nat.lt_ge_cases i (length l)) as [H|H].
  - rewrite lookup_app_l by (rewrite length_map; exact H). rewrite list_lookup_fmap. destruct (lookup_lt_is_Some_2 l i H) as [e ->]. reflexivity.
  - rewrite lookup_app_r, length_map by (rewrite length_map; exact H). rewrite lookup_replicate_2 by lia. rewrite lookup_ge_None_2 by exact H. reflexivity.
Qed.

Lemma filled_length l n : length l ≤ n → length (filled l n) = n.
Proof. intros Hl. unfold filled. rewrite length_app, length_map, length_replicate. lia. Qed.

Lemma filled_cell s l i : view s = filled l CAP → length l ≤ CAP → i < CAP → cell s i = l !! i.
Proof.
  intros Hv Hl Hi. pose proof (view_lookup s i Hi) as H. rewrite Hv, filled_lookup in H by assumption. injection H as H. symmetry. exact H.
Qed.

Lemma filled_bits s l i : slot_ok s → view s = filled l CAP → length l ≤ CAP → Z.testbit (validityMask (header s)) (Z.of_nat i) = true ↔ i < length l.
Proof.
  intros Hs Hv Hl. destruct (Nat.lt_ge_cases i CAP) as [Hi|Hi].
  - rewrite slot_bit by assumption. rewrite (filled_cell s l i Hv Hl Hi). rewrite lookup_lt_is_Some. reflexivity.
  - rewrite (high_bits _ (Z.of_nat CAP)) by (apply Hs || lia). split; [discriminate|lia].
Qed.

Lemma filled_numEntries s l : slot_ok s → view s = filled l CAP → length l ≤ CAP → numEntries (header s) = length l ∧ countr_one (validityMask (header s)) = length l.
Proof.
  intros Hs Hv Hl. pose proof capacity_range as Hc. split.
  - unfold numEntries, popcount. replace 32 with (length l + (32 - length l)) by lia. apply (filter_prefix (λ i, Z.testbit (validityMask (header s)) (Z.of_nat i))).
    intros i _. rewrite (filled_bits s l i Hs Hv Hl). lia.
  - unfold countr_one. apply countr_prefix; [lia|]. intros i _. rewrite (filled_bits s l i Hs Hv Hl). lia.
Qed.
End Cells.
