(* ===== verification/InMemHashIndex.v ===== *)
(** * The in-memory hash index

    storage/index/in_mem_hash_index.{h,cpp}: linear hashing with chains of overflow slots. Primary and overflow
    slots are two vectors whose elements keep their addresses when they grow, so a pointer to a slot is its place;
    unused overflow slots are in a chain of their own. Allocating memory succeeds. *)

From stdpp Require Import base numbers list strings.
From Stdlib Require Import ZArith Lia.
From S2P Require Import Prelude HashSlot.
Import HashSlot.

Module InMemHashIndex.

Inductive SlotType := PRIMARY | OVF.
#[global] Instance slot_type_eq_dec : EqDecision SlotType.
Proof. solve_decision. Defined.
Record SlotInfo := MkSlotInfo { slotId : Z; slotType : SlotType }.
#[global] Instance slot_info_eq_dec : EqDecision SlotInfo.
Proof. solve_decision. Defined.
Definition INVALID_OVF_INFO : SlotInfo := MkSlotInfo INVALID_OVERFLOW_SLOT_ID OVF.

Section Index.
Context {K : Type} `{IndexHashable K}.

Record InMemHashIndex := MkIndex {
  pSlots : list (Slot K);
  oSlots : list (Slot K);
  indexHeader : HashIndexHeader;
  numFreeSlots : Z;
}.

Definition set_pSlots (l : list (Slot K)) (x : InMemHashIndex) : InMemHashIndex := MkIndex l (oSlots x) (indexHeader x) (numFreeSlots x).
Definition set_oSlots (l : list (Slot K)) (x : InMemHashIndex) : InMemHashIndex := MkIndex (pSlots x) l (indexHeader x) (numFreeSlots x).
Definition set_indexHeader (h : HashIndexHeader) (x : InMemHashIndex) : InMemHashIndex := MkIndex (pSlots x) (oSlots x) h (numFreeSlots x).
Definition set_numFree (n : Z) (x : InMemHashIndex) : InMemHashIndex := MkIndex (pSlots x) (oSlots x) (indexHeader x) n.
Definition on_header (g : HashIndexHeader → HashIndexHeader) : M InMemHashIndex unit := modify (λ x, set_indexHeader (g (indexHeader x)) x).

(** ** Slots by their place *)

Definition slot_at (i : SlotInfo) (x : InMemHashIndex) : option (Slot K) :=
  match slotType i with PRIMARY => pSlots x !! Z.to_nat (slotId i) | OVF => oSlots x !! Z.to_nat (slotId i) end.
Definition put_slot (i : SlotInfo) (s : Slot K) (x : InMemHashIndex) : InMemHashIndex :=
  match slotType i with
  | PRIMARY => set_pSlots (<[Z.to_nat (slotId i) := s]> (pSlots x)) x
  | OVF => set_oSlots (<[Z.to_nat (slotId i) := s]> (oSlots x)) x
  end.
Definition getSlot (i : SlotInfo) : M InMemHashIndex (Slot K) :=
  observe (λ x, match slot_at i x with Some s => Ok s | None => Throw (UndefinedBehaviour "no such slot") end).
Definition on_slot (i : SlotInfo) (g : Slot K → Slot K) : M InMemHashIndex unit :=
  s ← getSlot i; modify (put_slot i (g s)).

(** [nextChainedSlot]: the next slot of the chain, if there is one. *)
Definition nextChainedSlot (i : SlotInfo) : M InMemHashIndex (option SlotInfo) :=
  s ← getSlot i;
  ku_assert (bool_decide (slotType i = PRIMARY) || negb (slotId i =? nextOvfSlotId (header s))%Z) ;;
  mret (if (nextOvfSlotId (header s) =? INVALID_OVERFLOW_SLOT_ID)%Z then None else Some (MkSlotInfo (nextOvfSlotId (header s)) OVF)).

(** A chain passes each overflow slot at most once. *)
Definition chain_fuel (x : InMemHashIndex) : nat := S (length (oSlots x)).
Definition no_end {A} : M InMemHashIndex A := raise (UndefinedBehaviour "the loop does not end").

(** ** Finding entries *)

(** The first position below [n] with the property. *)
Fixpoint find_pos (p : nat → bool) (i n : nat) : option nat :=
  match n with 0 => None | S n' => if p i then Some i else find_pos p (S i) n' end.

Definition matches (k : K) (fingerprint : Z) (isVisible : Z → bool) (s : Slot K) (entryPos : nat) : bool :=
  match fingerprints (header s) !! entryPos, entries s !! entryPos with
  | Some f, Some e => (f =? fingerprint)%Z && bool_decide (k = key e) && isVisible (value e)
  | _, _ => false
  end.

(** [findEntry]: the slot the iterator ends at, and the position found there. *)
Fixpoint find_loop (fuel : nat) (i : SlotInfo) (k : K) (fingerprint : Z) (isVisible : Z → bool) : M InMemHashIndex (SlotInfo * option nat) :=
  match fuel with
  | 0 => no_end
  | S fuel' =>
      s ← getSlot i;
      ku_assert (numEntries (header s) =? countr_one (validityMask (header s))) ;;
      match find_pos (matches k fingerprint isVisible s) 0 (numEntries (header s)) with
      | Some p => mret (i, Some p)
      | None =>
          if numEntries (header s) <? SLOT_CAPACITY K then mret (i, None)
          else
            next ← nextChainedSlot i;
            match next with Some i' => find_loop fuel' i' k fingerprint isVisible | None => mret (i, None) end
      end
  end.
Definition findEntry (i : SlotInfo) (k : K) (fingerprint : Z) (isVisible : Z → bool) : M InMemHashIndex (SlotInfo * option nat) :=
  x ← get_state; find_loop (chain_fuel x) i k fingerprint isVisible.

Definition primary (id : Z) : SlotInfo := MkSlotInfo id PRIMARY.

Definition lookup (k : K) (isVisible : Z → bool) : M InMemHashIndex (option Z) :=
  x ← get_state;
  if (headerNumEntries (indexHeader x) =? 0)%Z then mret None
  else
    r ← findEntry (primary (getPrimarySlotIdForHash (indexHeader x) (hash k))) k (getFingerprintForHash (hash k)) isVisible;
    match r with
    | (i, Some p) =>
        s ← getSlot i;
        match entries s !! p with Some e => mret (Some (value e)) | None => raise (UndefinedBehaviour "no such entry") end
    | (_, None) => mret None
    end.

(** ** Overflow slots *)

Definition allocatePSlots (numSlotsToAllocate : nat) : M InMemHashIndex nat :=
  x ← get_state;
  put_state (set_pSlots (pSlots x ++ replicate numSlotsToAllocate Slot_new) x) ;;
  mret (length (pSlots x)).

Definition addFreeOverflowSlot (i : SlotInfo) : M InMemHashIndex unit :=
  s ← getSlot i;
  ku_assert (negb (slotId i =? INVALID_OVERFLOW_SLOT_ID)%Z) ;;
  ku_assert (nextOvfSlotId (header s) =? INVALID_OVERFLOW_SLOT_ID)%Z ;;
  ku_assert (bool_decide (slotType i = OVF)) ;;
  x ← get_state;
  on_slot i (set_next (firstFreeOverflowSlotId (indexHeader x))) ;;
  on_header (set_firstFree (slotId i)) ;;
  modify (λ x, set_numFree (uwrap 64 (numFreeSlots x + 1)) x).

(** [allocateAOSlot]; the id is returned as a [uint32_t]. *)
Definition allocateAOSlot : M InMemHashIndex Z :=
  x ← get_state;
  let freeOSlotId := firstFreeOverflowSlotId (indexHeader x) in
  if (freeOSlotId =? INVALID_OVERFLOW_SLOT_ID)%Z then
    put_state (set_oSlots (oSlots x ++ [Slot_new]) x) ;;
    mret (uwrap 32 (Z.of_nat (length (oSlots x))))
  else
    let i := MkSlotInfo freeOSlotId OVF in
    s ← getSlot i;
    on_header (set_firstFree (nextOvfSlotId (header s))) ;;
    ku_assert (numEntries (header s) =? 0) ;;
    on_slot i (set_next INVALID_OVERFLOW_SLOT_ID) ;;
    ku_assert (0 <? numFreeSlots x)%Z ;;
    modify (λ x, set_numFree (numFreeSlots x - 1) x) ;;
    mret (uwrap 32 freeOSlotId).

(** [reclaimOverflowSlots]: past the last slot with entries, then the empty slots one by one. *)
Fixpoint skip_nonempty (fuel : nat) (i last : SlotInfo) : M InMemHashIndex (SlotInfo * SlotInfo) :=
  s ← getSlot i;
  if (0 <? numEntries (header s)) || bool_decide (slotType i = PRIMARY) then
    match fuel with
    | 0 => no_end
    | S fuel' =>
        next ← nextChainedSlot i;
        match next with Some i' => skip_nonempty fuel' i' i | None => mret (INVALID_OVF_INFO, i) end
    end
  else mret (i, last).
Fixpoint free_chain (fuel : nat) (i : SlotInfo) : M InMemHashIndex unit :=
  if decide (i = INVALID_OVF_INFO) then mret tt
  else
    match fuel with
    | 0 => no_end
    | S fuel' =>
        s ← getSlot i;
        ku_assert (numEntries (header s) =? 0) ;;
        on_slot i (set_next INVALID_OVERFLOW_SLOT_ID) ;;
        (if decide (slotType i = OVF) then addFreeOverflowSlot i else mret tt) ;;
        free_chain fuel' (MkSlotInfo (nextOvfSlotId (header s)) OVF)
    end.
Definition reclaimOverflowSlots (i : SlotInfo) : M InMemHashIndex unit :=
  s ← getSlot i;
  if (nextOvfSlotId (header s) =? INVALID_OVERFLOW_SLOT_ID)%Z then mret tt
  else
    x ← get_state;
    r ← skip_nonempty (chain_fuel x) i i;
    let '(i', lastNonEmptySlot) := r in
    on_slot lastNonEmptySlot (set_next INVALID_OVERFLOW_SLOT_ID) ;;
    free_chain (chain_fuel x) i'.

(** ** Appending *)

Definition insert (k : K) (i : SlotInfo) (entryPos : nat) (v fingerprint : Z) : M InMemHashIndex unit :=
  ku_assert (getFingerprintForHash (hash k) =? fingerprint)%Z ;;
  on_slot i (put_entry entryPos (MkEntry k v) fingerprint).
Definition insertToNewOvfSlot (k : K) (previousSlot : SlotInfo) (v fingerprint : Z) : M InMemHashIndex unit :=
  newSlotId ← allocateAOSlot;
  on_slot previousSlot (set_next newSlotId) ;;
  insert k (MkSlotInfo newSlotId OVF) 0 v fingerprint.
Definition appendInternal (k : K) (v h : Z) (isVisible : Z → bool) : M InMemHashIndex bool :=
  let fingerprint := getFingerprintForHash h in
  x ← get_state;
  r ← findEntry (primary (getPrimarySlotIdForHash (indexHeader x) h)) k fingerprint isVisible;
  let '(i, entryPos) := r in
  s ← getSlot i;
  match entryPos with
  | Some _ => mret false
  | None =>
      (if numEntries (header s) <? SLOT_CAPACITY K then insert k i (numEntries (header s)) v fingerprint
       else insertToNewOvfSlot k i v fingerprint) ;;
      on_header (λ h, set_numEntries (uwrap 64 (headerNumEntries h + 1)) h) ;;
      mret true
  end.

(** ** Growing *)

(** [countSlots] of a primary slot *)
Fixpoint count_loop (fuel : nat) (i : SlotInfo) : M InMemHashIndex nat :=
  match fuel with
  | 0 => no_end
  | S fuel' =>
      next ← nextChainedSlot i;
      match next with Some i' => n ← count_loop fuel' i'; mret (S n) | None => mret 1 end
  end.
Definition countSlots (i : SlotInfo) : M InMemHashIndex nat :=
  if bool_decide (slotType i = OVF) && (slotId i =? INVALID_OVERFLOW_SLOT_ID)%Z then mret 0
  else x ← get_state; count_loop (chain_fuel x) i.

(** [reserveOverflowSlots]; the bound of the loop is computed anew each round. *)
Fixpoint free_new_slots (fuel i : nat) (totalSlotsRequired : Z) (newSlotId : Z) : M InMemHashIndex unit :=
  x ← get_state;
  if (Z.of_nat i <? uwrap 64 (totalSlotsRequired - numFreeSlots x))%Z then
    match fuel with
    | 0 => no_end
    | S fuel' => addFreeOverflowSlot (MkSlotInfo newSlotId OVF) ;; free_new_slots fuel' (S i) totalSlotsRequired (newSlotId + 1)
    end
  else mret tt.
Definition reserveOverflowSlots (totalSlotsRequired : nat) : M InMemHashIndex unit :=
  x ← get_state;
  let total := Z.of_nat totalSlotsRequired in
  if (numFreeSlots x <? total)%Z then
    put_state (set_oSlots (oSlots x ++ replicate (Z.to_nat (total - numFreeSlots x)) Slot_new) x) ;;
    free_new_slots totalSlotsRequired 0 total (Z.of_nat (length (oSlots x)))
  else mret tt.

(** The variables of [splitSlot]. *)
Record SplitState := MkSplit {
  originalSlot : SlotInfo;
  originalSlotForInsert : SlotInfo;
  entryPosToInsert : nat;
  newSlot : SlotInfo;
  newSlotPos : nat;
  gaps : bool;
}.

(** The first free position from the insertion point on. *)
Fixpoint find_gap (fuel : nat) (i : SlotInfo) (pos : nat) : M InMemHashIndex (SlotInfo * nat) :=
  s ← getSlot i;
  if isEntryValid pos (header s) then
    match fuel with
    | 0 => no_end
    | S fuel' =>
        if SLOT_CAPACITY K <=? S pos then
          next ← nextChainedSlot i;
          match next with Some i' => find_gap fuel' i' 0 | None => raise assert_failure end
        else find_gap fuel' i (S pos)
    end
  else mret (i, pos).

(** The entry goes to the end of the new chain. *)
Definition move_entry (entryPos : nat) (entry : SlotEntry K) (fingerprint : Z) (st : SplitState) : M InMemHashIndex SplitState :=
  place ←
    (if SLOT_CAPACITY K <=? newSlotPos st then
       newOvfSlotId ← allocateAOSlot;
       on_slot (newSlot st) (set_next newOvfSlotId) ;;
       next ← nextChainedSlot (newSlot st);
       match next with Some i => mret (i, 0) | None => raise assert_failure end
     else mret (newSlot st, newSlotPos st));
  let '(i, pos) := place in
  on_slot i (put_entry pos entry fingerprint) ;;
  on_slot (originalSlot st) (drop_entry entryPos) ;;
  mret (MkSplit (originalSlot st) (originalSlotForInsert st) (entryPosToInsert st) i (S pos) true).
(** The entry goes to the first gap of its own chain. *)
Definition close_gap (fuel entryPos : nat) (entry : SlotEntry K) (fingerprint : Z) (st : SplitState) : M InMemHashIndex SplitState :=
  place ← find_gap fuel (originalSlotForInsert st) (entryPosToInsert st);
  let '(i, pos) := place in
  on_slot i (put_entry pos entry fingerprint) ;;
  on_slot (originalSlot st) (drop_entry entryPos) ;;
  mret (MkSplit (originalSlot st) i pos (newSlot st) (newSlotPos st) (gaps st)).

(** One entry: [None] when it is not valid, which ends the split. *)
Definition split_entry (entryPos : nat) (st : SplitState) : M InMemHashIndex (option SplitState) :=
  x ← get_state;
  s ← getSlot (originalSlot st);
  if negb (isEntryValid entryPos (header s)) then
    ku_assert (numEntries (header s) =? countr_one (validityMask (header s))) ;;
    mret None
  else
    match entries s !! entryPos with
    | None => raise (UndefinedBehaviour "no such entry")
    | Some entry =>
        let h := hash (key entry) in
        let fingerprint := getFingerprintForHash h in
        let newSlotId := Z.land h (higherLevelHashMask (indexHeader x)) in
        st' ←
          (if negb (newSlotId =? nextSplitSlotId (indexHeader x))%Z then move_entry entryPos entry fingerprint st
           else if gaps st then close_gap (SLOT_CAPACITY K * chain_fuel x) entryPos entry fingerprint st
           else mret st);
        mret (Some st')
    end.

(** The entries of one slot; the result tells whether the split goes on. *)
Fixpoint split_entries (positions : list nat) (st : SplitState) : M InMemHashIndex (SplitState * bool) :=
  match positions with
  | [] => mret (st, true)
  | p :: positions' =>
      r ← split_entry p st;
      match r with Some st' => split_entries positions' st' | None => mret (st, false) end
  end.
Fixpoint split_chain (fuel : nat) (st : SplitState) : M InMemHashIndex SplitState :=
  match fuel with
  | 0 => no_end
  | S fuel' =>
      r ← split_entries (seq 0 (SLOT_CAPACITY K)) st;
      let '(st', more) := r in
      if more : bool then
        s ← getSlot (originalSlot st');
        ku_assert (numEntries (header s) =? countr_one (validityMask (header s))) ;;
        next ← nextChainedSlot (originalSlot st');
        match next with
        | Some i => split_chain fuel' (MkSplit i (originalSlotForInsert st') (entryPosToInsert st') (newSlot st') (newSlotPos st') (gaps st'))
        | None => mret st'
        end
      else mret st'
  end.
Definition splitSlot : M InMemHashIndex unit :=
  allocatePSlots 1 ;;
  x ← get_state;
  let original := primary (nextSplitSlotId (indexHeader x)) in
  n ← countSlots original;
  reserveOverflowSlots n ;;
  x ← get_state;
  st ← split_chain (chain_fuel x) (MkSplit original original 0 (primary (Z.of_nat (length (pSlots x)) - 1)) 0 false);
  reclaimOverflowSlots (originalSlotForInsert st) ;;
  on_header incrementNextSplitSlotId.

(** [allocateSlots]: each round doubles the slots of the level. *)
Fixpoint raise_level (fuel : nat) (newNumSlots numSlotsOfCurrentLevel : Z) : M InMemHashIndex Z :=
  if (uwrap 32 (Z.shiftl numSlotsOfCurrentLevel 1) <=? newNumSlots)%Z then
    match fuel with
    | 0 => no_end
    | S fuel' => on_header incrementLevel ;; raise_level fuel' newNumSlots (uwrap 32 (Z.shiftl numSlotsOfCurrentLevel 1))
    end
  else mret numSlotsOfCurrentLevel.
Definition allocateSlots (newNumSlots : Z) : M InMemHashIndex unit :=
  x ← get_state;
  let existingSlots := Z.of_nat (length (pSlots x)) in
  (if (existingSlots <? newNumSlots)%Z then allocatePSlots (Z.to_nat (newNumSlots - existingSlots)) ;; mret tt else mret tt) ;;
  numSlotsOfCurrentLevel ← raise_level 32 newNumSlots (uwrap 32 (Z.shiftl 1 (currentLevel (indexHeader x))));
  if (numSlotsOfCurrentLevel <=? newNumSlots)%Z
  then on_header (set_nextSplit (newNumSlots - numSlotsOfCurrentLevel))
  else mret tt.

(** [reserve]; the argument is a [uint32_t]. *)
Fixpoint split_until (fuel : nat) (numRequiredSlots : Z) : M InMemHashIndex unit :=
  x ← get_state;
  if (Z.of_nat (length (pSlots x)) <? numRequiredSlots)%Z then
    match fuel with 0 => no_end | S fuel' => splitSlot ;; split_until fuel' numRequiredSlots end
  else mret tt.
Definition reserve (numEntries_ : Z) : M InMemHashIndex unit :=
  let numRequiredEntries := getNumRequiredEntries (uwrap 32 numEntries_) in
  let numRequiredSlots := ((numRequiredEntries + Z.of_nat (SLOT_CAPACITY K) - 1) / Z.of_nat (SLOT_CAPACITY K))%Z in
  x ← get_state;
  if (numRequiredSlots <=? Z.of_nat (length (pSlots x)))%Z then mret tt
  else if (headerNumEntries (indexHeader x) =? 0)%Z then allocateSlots (uwrap 32 numRequiredSlots)
  else split_until (Z.to_nat (numRequiredSlots - Z.of_nat (length (pSlots x)))) numRequiredSlots.
Definition reserveSpaceForAppend (numNewEntries : Z) : M InMemHashIndex unit :=
  x ← get_state; reserve (headerNumEntries (indexHeader x) + numNewEntries).

(** [append] of one entry, and of the entries of a buffer from an offset on. *)
Definition append (k : K) (v : Z) (isVisible : Z → bool) : M InMemHashIndex bool :=
  x ← get_state;
  reserve (headerNumEntries (indexHeader x) + 1) ;;
  appendInternal k v (hash k) isVisible.
Fixpoint append_loop (buffer : list (K * Z)) (done : nat) (isVisible : Z → bool) : M InMemHashIndex nat :=
  match buffer with
  | [] => mret done
  | (k, v) :: buffer' =>
      ok ← appendInternal k v (hash k) isVisible;
      if ok : bool then append_loop buffer' (S done) isVisible else mret done
  end.
Definition append_buffer (buffer : list (K * Z)) (bufferOffset : nat) (isVisible : Z → bool) : M InMemHashIndex nat :=
  x ← get_state;
  reserve (headerNumEntries (indexHeader x) + Z.of_nat (length buffer) - Z.of_nat bufferOffset) ;;
  append_loop (drop bufferOffset buffer) 0 isVisible.

(** ** Deleting *)

Fixpoint find_any (fuel : nat) (i : SlotInfo) (k : K) (fingerprint : Z) : M InMemHashIndex (option (SlotInfo * nat)) :=
  match fuel with
  | 0 => no_end
  | S fuel' =>
      s ← getSlot i;
      match find_pos (λ p, isEntryValid p (header s) && matches k fingerprint (λ _, true) s p) 0 (SLOT_CAPACITY K) with
      | Some p => mret (Some (i, p))
      | None =>
          next ← nextChainedSlot i;
          match next with Some i' => find_any fuel' i' k fingerprint | None => mret None end
      end
  end.
Fixpoint last_slot (fuel : nat) (i : SlotInfo) : M InMemHashIndex SlotInfo :=
  match fuel with
  | 0 => no_end
  | S fuel' =>
      next ← nextChainedSlot i;
      match next with Some i' => last_slot fuel' i' | None => mret i end
  end.
Definition move_last (i newIter : SlotInfo) (deletedPos : nat) : M InMemHashIndex unit :=
  s ← getSlot newIter;
  if negb (bool_decide (newIter = i)) || negb (Z.of_nat deletedPos =? Z.of_nat (numEntries (header s)) - 1)%Z then
    ku_assert (0 <? numEntries (header s)) ;;
    let lastEntryPos := numEntries (header s) - 1 in
    match entries s !! lastEntryPos, fingerprints (header s) !! lastEntryPos with
    | Some e, Some f => on_slot i (put_entry deletedPos e f) ;; on_slot newIter (drop_entry lastEntryPos)
    | _, _ => raise (UndefinedBehaviour "no such entry")
    end
  else on_slot i (drop_entry deletedPos).
Definition deleteKey (k : K) : M InMemHashIndex bool :=
  x ← get_state;
  if (headerNumEntries (indexHeader x) =? 0)%Z then mret false
  else
    let slotId := getPrimarySlotIdForHash (indexHeader x) (hash k) in
    found ← find_any (chain_fuel x) (primary slotId) k (getFingerprintForHash (hash k));
    match found with
    | None => mret false
    | Some (i, deletedPos) =>
        newIter ← last_slot (chain_fuel x) i;
        move_last i newIter deletedPos ;;
        s ← getSlot newIter;
        (if numEntries (header s) =? 0 then reclaimOverflowSlots (primary slotId) else mret tt) ;;
        mret true
    end.

(** ** Construction *)

(** A page holds 16 slots. *)
Definition SLOTS_PER_PAGE : Z := 16%Z.
Definition InMemHashIndex_new : outcome InMemHashIndex :=
  match allocateSlots SLOTS_PER_PAGE (MkIndex [] [] HashIndexHeader_new 0) with (Ok _, x) => Ok x | (Throw e, _) => Throw e end.
(** [clear] leaves [numFreeSlots]. *)
Definition clear : M InMemHashIndex unit :=
  modify (λ x, MkIndex [] [] HashIndexHeader_new (numFreeSlots x)) ;;
  allocateSlots SLOTS_PER_PAGE.

End Index.
#[global] Arguments InMemHashIndex : clear implicits.
End InMemHashIndex.
