(* ===== verification/HashChain.v ===== *)
(** * Chains of slots

    A primary slot and its overflow slots as one row of cells: finding, counting, filling and emptying cells
    through the links between slots. *)

From stdpp Require Import base numbers list strings.
From Stdlib Require Import ZArith Lia.
From S2P Require Import Prelude HashSlot HashSlotSpec InMemHashIndex.
Import HashSlot InMemHashIndex.

Section Chains.
Context {K : Type} `{HK : IndexHashable K} `{Hok : !IndexHashableOk K}.

Abbreviation CAP := (SLOT_CAPACITY K).
Abbreviation Index := (InMemHashIndex K).
Implicit Types (x : Index) (i j : SlotInfo) (l : list SlotInfo) (es : list (SlotEntry K)).

Lemma filled_split es n m : filled es (n + m) = filled (take n es) n ++ filled (drop n es) m.
Proof.
  unfold filled. rewrite length_take, length_drop. destruct (Nat.le_ge_cases n (length es)) as [H|H].
  - replace (n - n `min` length es) with 0 by lia. cbn [replicate]. rewrite app_nil_r, app_assoc, <- map_app, take_drop. f_equal. f_equal. lia.
  - rewrite take_ge, drop_ge by lia. cbn [map app]. rewrite <- app_assoc, <- replicate_add. f_equal. f_equal. lia.
Qed.

Lemma filled_full es n : length es = n → filled es n = map Some es.
Proof. intros <-. unfold filled. rewrite Nat.sub_diag. apply app_nil_r. Qed.

Lemma filled_nil n : filled (K := K) [] n = replicate n None.
Proof. unfold filled. rewrite Nat.sub_0_r. reflexivity. Qed.

Lemma filled_inj es es' n : length es ≤ n → length es' ≤ n → filled es n = filled es' n → es = es'.
Proof.
  intros H1 H2 E. apply list_eq. intros p. destruct (Nat.lt_ge_cases p n) as [Hp|Hp].
  - pose proof (f_equal (λ z, z !! p) E) as Ep. cbn beta in Ep. rewrite !filled_lookup in Ep by assumption. congruence.
  - rewrite !lookup_ge_None_2 by lia. reflexivity.
Qed.

(** ** Slots by place *)

Definition here (i : SlotInfo) : Prop := (0 ≤ slotId i)%Z.

Lemma slot_at_put i s s0 x j : slot_at i x = Some s0 → here i → here j → slot_at j (put_slot i s x) = if decide (j = i) then Some s else slot_at j x.
Proof.
  unfold here, slot_at, put_slot. destruct i as [ni ti], j as [nj tj]. cbn [slotId slotType]. intros Hs Hi Hj.
  destruct (decide (MkSlotInfo nj tj = MkSlotInfo ni ti)) as [E|E].
  - injection E as -> ->. destruct ti; cbn [pSlots oSlots set_pSlots set_oSlots]; apply list_lookup_insert_eq; apply lookup_lt_Some in Hs; exact Hs.
  - destruct ti, tj; cbn [pSlots oSlots set_pSlots set_oSlots]; try reflexivity; apply list_lookup_insert_ne; intros E'; apply E; f_equal; lia.
Qed.

Lemma getSlot_run i s x : slot_at i x = Some s → getSlot i x = (Ok s, x).
Proof. intros H. unfold getSlot, observe. rewrite H. reflexivity. Qed.

Lemma on_slot_run i g s x : slot_at i x = Some s → on_slot i g x = (Ok tt, put_slot i (g s) x).
Proof. intros H. unfold on_slot. rewrite (M_bind_ok _ _ _ _ _ (getSlot_run i s x H)). reflexivity. Qed.

Definition slots_ok (x : Index) : Prop := ∀ i s, here i → slot_at i x = Some s → slot_ok s.

Lemma slots_ok_put x i s s0 : slots_ok x → here i → slot_at i x = Some s0 → slot_ok s → slots_ok (put_slot i s x).
Proof.
  intros Hx Hi H0 Hs j t Hj Ht. rewrite (slot_at_put i s s0 x j H0 Hi Hj) in Ht. destruct (decide (j = i)) as [->|_].
  - injection Ht as <-. exact Hs.
  - exact (Hx j t Hj Ht).
Qed.

(** ** Links *)

Definition next_of (l : list SlotInfo) : Z := match l with [] => INVALID_OVERFLOW_SLOT_ID | j :: _ => slotId j end.
Fixpoint linked (x : Index) (l : list SlotInfo) : Prop :=
  match l with
  | [] => True
  | i :: l' =>
      (∃ s, slot_at i x = Some s ∧ nextOvfSlotId (header s) = next_of l') ∧ (0 ≤ slotId i < INVALID_OVERFLOW_SLOT_ID)%Z ∧
      Forall (λ j, slotType j = OVF) l' ∧ linked x l'
  end.
Definition chain_view (x : Index) (l : list SlotInfo) : list (option (SlotEntry K)) :=
  concat (map (λ i, match slot_at i x with Some s => view s | None => replicate CAP None end) l).

Lemma linked_here x l i : linked x l → i ∈ l → here i ∧ ∃ s, slot_at i x = Some s.
Proof.
  induction l as [|a l IH]; intros Hl Hi; [inversion Hi|]. destruct Hl as ((s & Hs & _) & Ha & _ & Hl).
  apply elem_of_cons in Hi as [->|Hi]; [|exact (IH Hl Hi)]. split; [unfold here; lia|eauto].
Qed.

Lemma chain_view_cons x i s l : slot_at i x = Some s → chain_view x (i :: l) = view s ++ chain_view x l.
Proof. intros H. unfold chain_view. cbn [map concat]. rewrite H. reflexivity. Qed.

Lemma chain_view_length x l : length (chain_view x l) = length l * CAP.
Proof.
  unfold chain_view. induction l as [|i l IH]; [reflexivity|]. cbn [map concat length]. rewrite length_app, IH.
  destruct (slot_at i x); [rewrite view_length|rewrite length_replicate]; lia.
Qed.

(** Indexes that agree on some slots. *)
Definition agree (l : list SlotInfo) (x x' : Index) : Prop := ∀ i, i ∈ l → slot_at i x' = slot_at i x.

Lemma linked_agree x x' l : agree l x x' → linked x l → linked x' l.
Proof.
  induction l as [|i l IH]; intros Ha; [auto|]. intros ((s & Hs & Hn) & Hi & Ht & Hl).
  split; [exists s; rewrite (Ha i) by left; auto|]. split; [exact Hi|]. split; [exact Ht|]. apply IH; [|exact Hl]. intros j Hj. apply Ha. right. exact Hj.
Qed.

Lemma chain_view_agree x x' l : agree l x x' → chain_view x' l = chain_view x l.
Proof.
  intros Ha. unfold chain_view. f_equal. apply map_ext_in. intros i Hi. rewrite (Ha i) by (apply list_elem_of_In; exact Hi). reflexivity.
Qed.

Lemma agree_put l x i s s0 : slot_at i x = Some s0 → here i → Forall here l → i ∉ l → agree l x (put_slot i s x).
Proof.
  intros H0 Hi Hl Hn j Hj. rewrite Forall_forall in Hl. rewrite (slot_at_put i s s0 x j H0 Hi (Hl j Hj)). rewrite decide_False; [reflexivity|].
  intros ->. contradiction.
Qed.

Lemma linked_all_here x l : linked x l → Forall here l.
Proof. intros H. apply Forall_forall. intros i Hi. apply (linked_here x l i H Hi). Qed.

(** Writing a slot without changing its link. *)
Lemma linked_put x l i s s' :
  slot_at i x = Some s → here i → nextOvfSlotId (header s') = nextOvfSlotId (header s) → linked x l → linked (put_slot i s' x) l.
Proof.
  intros Hs Hi Hn. induction l as [|a l IH]; [auto|]. intros ((t & Ht & Hnt) & Ha & Hty & Hl).
  split; [|split; [exact Ha|split; [exact Hty|exact (IH Hl)]]].
  rewrite (slot_at_put i s' s x a Hs Hi ltac:(unfold here; lia)). destruct (decide (a = i)) as [->|_]; [|eauto].
  exists s'. split; [reflexivity|]. congruence.
Qed.

Lemma chain_view_put x l k i s s' p c :
  NoDup l → Forall here l → l !! k = Some i → slot_at i x = Some s → p < CAP → view s' = <[p := c]> (view s) →
  chain_view (put_slot i s' x) l = <[k * CAP + p := c]> (chain_view x l).
Proof.
  revert k. induction l as [|a l IH]; intros k Hnd Hh Hk Hs Hp Hv; [discriminate Hk|].
  apply NoDup_cons in Hnd as [Hna Hnd]. apply Forall_cons in Hh as [Ha Hh]. destruct k as [|k]; cbn in Hk.
  - injection Hk as ->. rewrite (chain_view_cons x i s l Hs).
    assert (H1 : slot_at i (put_slot i s' x) = Some s') by (rewrite (slot_at_put i s' s x i Hs Ha Ha), decide_True by reflexivity; reflexivity).
    rewrite (chain_view_cons _ i s' l H1), Hv. rewrite (chain_view_agree x) by (apply (agree_put l x i s' s Hs Ha Hh Hna)).
    symmetry. apply insert_app_l. rewrite view_length. exact Hp.
  - assert (Hi : here i) by (rewrite Forall_lookup in Hh; exact (Hh k i Hk)).
    assert (Hne : a ≠ i) by (intros ->; apply Hna; apply list_elem_of_lookup; eauto).
    unfold chain_view. cbn [map concat]. rewrite (slot_at_put i s' s x a Hs Hi Ha), decide_False by exact Hne.
    fold (chain_view (put_slot i s' x) l). fold (chain_view x l). rewrite (IH k Hnd Hh Hk Hs Hp Hv).
    set (v := match slot_at a x with Some _ => _ | None => _ end). assert (Hlen : length v = CAP) by (unfold v; destruct (slot_at a x); [apply view_length|apply length_replicate]).
    replace (S k * CAP + p) with (length v + (k * CAP + p)) by lia. symmetry. apply insert_app_r.
Qed.

(** ** Buckets *)

(** A chain whose cells are [es] and then empty. *)
Record row (x : Index) (l : list SlotInfo) (es : list (SlotEntry K)) : Prop := {
  rw_linked : linked x l;
  rw_nodup : NoDup l;
  rw_view : chain_view x l = filled es (length l * CAP);
  rw_length : length es ≤ length l * CAP;
}.
(** No slot of a bucket but its first is empty. *)
Record bucket (x : Index) (l : list SlotInfo) (es : list (SlotEntry K)) : Prop := {
  bk_row : row x l es;
  bk_tight : length l = 1 ∨ 0 < length l ∧ (length l - 1) * CAP < length es;
}.

Lemma row_agree x x' l es : agree l x x' → row x l es → row x' l es.
Proof.
  intros Ha [H1 H2 H3 H4]. split; try assumption; [exact (linked_agree x x' l Ha H1)|]. rewrite (chain_view_agree x x' l Ha). exact H3.
Qed.

Lemma bucket_agree x x' l es : agree l x x' → bucket x l es → bucket x' l es.
Proof. intros Ha [H1 H2]. split; [exact (row_agree x x' l es Ha H1)|exact H2]. Qed.

Lemma row_cons x i l es :
  row x (i :: l) es → ∃ s, slot_at i x = Some s ∧ here i ∧ nextOvfSlotId (header s) = next_of l ∧ view s = filled (take CAP es) CAP ∧ row x l (drop CAP es).
Proof.
  intros [((s & Hs & Hn) & Hi & Ht & Hl) Hnd Hv Hlen]. exists s. split; [exact Hs|]. split; [unfold here; lia|]. split; [exact Hn|].
  rewrite (chain_view_cons x i s l Hs) in Hv. cbn [length] in Hv. rewrite Nat.mul_succ_l, Nat.add_comm, filled_split in Hv.
  apply app_inj_1 in Hv as [Hv1 Hv2]; [|rewrite view_length, filled_length; [reflexivity|rewrite length_take; lia]].
  split; [exact Hv1|]. apply NoDup_cons in Hnd as [_ Hnd]. split; try assumption. rewrite length_drop. cbn [length] in Hlen. lia.
Qed.

Lemma bucket_tail x i j l es : bucket x (i :: j :: l) es → CAP < length es ∧ bucket x (j :: l) (drop CAP es).
Proof.
  intros [Hr [Ht|[_ Ht]]]; [discriminate Ht|]. cbn [length] in Ht.
  assert (Hlt : CAP < length es) by nia. split; [exact Hlt|].
  destruct (row_cons x i (j :: l) es Hr) as (_ & _ & _ & _ & _ & Hr'). split; [exact Hr'|]. cbn [length]. rewrite length_drop.
  destruct l; [left; reflexivity|right; cbn [length] in *; split; [lia|nia]].
Qed.

Lemma row_slot_ok x l es i s : slots_ok x → row x l es → i ∈ l → slot_at i x = Some s → slot_ok s.
Proof. intros Hx Hr Hi Hs. destruct (linked_here x l i (rw_linked _ _ _ Hr) Hi) as [Hh _]. exact (Hx i s Hh Hs). Qed.

(** The slot of a chain at [k], and what it holds. *)
Lemma row_slot x l es k i :
  row x l es → l !! k = Some i → ∃ s, slot_at i x = Some s ∧ here i ∧ nextOvfSlotId (header s) = next_of (drop (S k) l) ∧
    view s = filled (take CAP (drop (k * CAP) es)) CAP.
Proof.
  revert k es. induction l as [|a l IH]; intros k es Hr Hk; [discriminate Hk|].
  destruct (row_cons x a l es Hr) as (s & Hs & Ha & Hn & Hv & Hr'). destruct k as [|k]; cbn in Hk.
  - injection Hk as <-. exists s. split; [exact Hs|]. split; [exact Ha|]. split; [exact Hn|]. cbn [Nat.mul]. rewrite drop_0. exact Hv.
  - destruct (IH k (drop CAP es) Hr' Hk) as (t & Ht & Hi & Hnt & Hvt). exists t. split; [exact Ht|]. split; [exact Hi|]. split; [exact Hnt|].
    rewrite Hvt, drop_drop. reflexivity.
Qed.

(** [nextChainedSlot] follows the links. *)
Lemma next_run x l k i :
  linked x l → NoDup l → l !! k = Some i → nextChainedSlot i x = (Ok (l !! S k), x).
Proof.
  revert k. induction l as [|a l IH]; intros k Hl Hnd Hk; [discriminate Hk|]. apply NoDup_cons in Hnd as [Hna Hnd].
  destruct k as [|k]; cbn in Hk; [|destruct Hl as (_ & _ & _ & Hl); exact (IH k Hl Hnd Hk)].
  injection Hk as ->. destruct Hl as ((s & Hs & Hn) & Hi & Ht & Hl).
  unfold nextChainedSlot. rewrite (M_bind_ok _ _ _ _ _ (getSlot_run i s x Hs)), Hn. destruct l as [|b l]; cbn [next_of lookup list_lookup].
  - unfold ku_assert. replace (_ || _) with true; [rewrite Z.eqb_refl; reflexivity|]. symmetry. apply orb_true_iff. right. apply negb_true_iff, Z.eqb_neq. lia.
  - apply Forall_cons in Ht as [Hb _]. destruct Hl as (_ & Hbr & _). unfold ku_assert. replace (_ || _) with true.
    + rewrite (proj2 (Z.eqb_neq (slotId b) _)) by lia. destruct b as [nb tb]. cbn in Hb. subst tb. reflexivity.
    + symmetry. apply orb_true_iff. destruct (decide (slotType i = PRIMARY)) as [E|E]; [left; apply bool_decide_eq_true_2, E|right].
      apply negb_true_iff, Z.eqb_neq. intros E'. apply Hna. replace i with b; [left|]. destruct i as [ni []], b as [nb tb]; cbn in *; congruence.
Qed.

(** ** Walking along a chain *)

Lemma find_pos_some p a n q : find_pos p a n = Some q → a ≤ q < a + n ∧ p q = true.
Proof.
  revert a. induction n as [|n IH]; intros a E; cbn [find_pos] in E; [discriminate E|]. destruct (p a) eqn:Hp.
  - injection E as <-. split; [lia|exact Hp].
  - apply IH in E as [H1 H2]. split; [lia|exact H2].
Qed.

Lemma find_pos_none p a n q : find_pos p a n = None → a ≤ q < a + n → p q = false.
Proof.
  revert a. induction n as [|n IH]; intros a E Hq; cbn [find_pos] in E; [lia|]. destruct (p a) eqn:Hp; [discriminate E|].
  destruct (decide (q = a)) as [->|]; [exact Hp|]. apply (IH (S a) E). lia.
Qed.

(** What a slot of a row holds at a position. *)
Lemma slot_content s es c p :
  slot_ok s → view s = filled (take CAP (drop c es)) CAP → p < CAP → cell s p = es !! (c + p).
Proof.
  intros Hs Hv Hp. rewrite (filled_cell s _ p Hv) by (rewrite ?length_take; lia). rewrite lookup_take_lt, lookup_drop by exact Hp. reflexivity.
Qed.

Lemma slot_count s es c :
  slot_ok s → view s = filled (take CAP (drop c es)) CAP →
  numEntries (header s) = CAP `min` (length es - c) ∧ countr_one (validityMask (header s)) = CAP `min` (length es - c).
Proof.
  intros Hs Hv. destruct (filled_numEntries s _ Hs Hv) as [H1 H2]; [rewrite length_take; lia|]. rewrite length_take, length_drop in H1, H2. auto.
Qed.

Lemma matches_cell (k0 : K) vis s p e :
  slot_ok s → cell s p = Some e → matches k0 (getFingerprintForHash (hash k0)) vis s p = bool_decide (key e = k0) && vis (value e).
Proof.
  intros Hs Hc. pose proof (so_fp _ Hs p e Hc) as Hf. unfold matches. rewrite Hf. unfold cell in Hc. destruct (Z.testbit _ _); [|discriminate Hc].
  rewrite Hc. destruct (decide (key e = k0)) as [E|E].
  - rewrite !bool_decide_eq_true_2 by congruence. unfold fp. rewrite E, Z.eqb_refl. reflexivity.
  - rewrite !bool_decide_eq_false_2 by congruence. rewrite andb_false_r. reflexivity.
Qed.

Lemma bucket_full x l es k : bucket x l es → S k < length l → S k * CAP < length es.
Proof. intros [_ [H|[_ H]]] Hk; [lia|nia]. Qed.

Lemma last_lookup_pred l k i : l !! k = Some i → length l ≤ S k → last l = Some i.
Proof. intros Hk Hl. rewrite last_lookup. apply lookup_lt_Some in Hk as Hlt. replace (pred (length l)) with k by lia. exact Hk. Qed.

(** [findEntry] finds an entry of the key that is visible, or ends at the last slot. *)
Definition found (l : list SlotInfo) (es : list (SlotEntry K)) (k0 : K) (vis : Z → bool) (c : nat) (r : SlotInfo * option nat) : Prop :=
  match r with
  | (i, Some p) => ∃ m e, l !! m = Some i ∧ p < CAP ∧ es !! (m * CAP + p) = Some e ∧ key e = k0 ∧ vis (value e) = true
  | (i, None) => last l = Some i ∧ ∀ g e, c ≤ g → es !! g = Some e → key e = k0 → vis (value e) = false
  end.

Lemma find_loop_ok x l es k0 vis : ∀ fuel k i,
  slots_ok x → bucket x l es → l !! k = Some i → length l ≤ k + fuel →
  ∃ r, find_loop fuel i k0 (getFingerprintForHash (hash k0)) vis x = (Ok r, x) ∧ found l es k0 vis (k * CAP) r.
Proof.
  pose proof (capacity_range (K := K)) as Hcap. intros fuel. induction fuel as [|fuel IH]; intros k i Hx Hb Hk Hf; apply lookup_lt_Some in Hk as Hlt; [lia|].
  pose proof (bk_row _ _ _ Hb) as Hr. destruct (row_slot x l es k i Hr Hk) as (s & Hs & Hi & Hn & Hv).
  assert (Hso : slot_ok s) by exact (Hx i s Hi Hs). destruct (slot_count s es (k * CAP) Hso Hv) as [Hne Hco].
  cbn [find_loop]. rewrite (M_bind_ok _ _ _ _ _ (getSlot_run i s x Hs)), Hne, Hco. unfold ku_assert. rewrite Nat.eqb_refl, (M_bind_ok (mret tt) _ x tt x eq_refl).
  set (n := CAP `min` (length es - k * CAP)) in *. assert (Hcell : ∀ p, p < n → ∃ e, cell s p = Some e ∧ es !! (k * CAP + p) = Some e).
  { intros p Hp. rewrite (slot_content s es (k * CAP) p Hso Hv) by lia. destruct (lookup_lt_is_Some_2 es (k * CAP + p)) as [e He]; [lia|]. eauto. }
  destruct (find_pos _ 0 n) as [p|] eqn:Hp.
  - apply find_pos_some in Hp as [Hp Hm]. destruct (Hcell p ltac:(lia)) as (e & Hc & He). rewrite (matches_cell k0 vis s p e Hso Hc) in Hm.
    apply andb_true_iff in Hm as [Hm Hvis]. apply bool_decide_eq_true in Hm. exists (i, Some p). split; [reflexivity|]. exists k, e. split_and!; try assumption. lia.
  - assert (Hno : ∀ g e, k * CAP ≤ g < k * CAP + n → es !! g = Some e → key e = k0 → vis (value e) = false).
    { intros g e Hg He Hke. destruct (Hcell (g - k * CAP) ltac:(lia)) as (e' & Hc & He'). replace (k * CAP + (g - k * CAP)) with g in He' by lia.
      rewrite He in He'. injection He' as <-. pose proof (find_pos_none _ _ _ (g - k * CAP) Hp ltac:(lia)) as Hm.
      rewrite (matches_cell k0 vis s _ e Hso Hc), bool_decide_eq_true_2 in Hm by exact Hke. exact Hm. }
    assert (Hend : n < CAP ∨ length l ≤ S k → length es ≤ k * CAP + n).
    { intros [H|H]; [lia|]. pose proof (rw_length _ _ _ Hr). assert (length l = S k) by lia. nia. }
    assert (Hlast : n < CAP ∨ length l ≤ S k → found l es k0 vis (k * CAP) (i, None)).
    { intros H. split; [|intros g e Hg He; apply Hno with (g := g); [|exact He]; apply lookup_lt_Some in He; specialize (Hend H); lia].
      apply (last_lookup_pred l k i Hk). destruct H as [H|H]; [|exact H]. destruct (Nat.le_gt_cases (length l) (S k)) as [|Hgt]; [assumption|].
      pose proof (bucket_full x l es k Hb Hgt). nia. }
    destruct (Nat.ltb_spec n CAP) as [Hlt'|Hge]; [exists (i, None); split; [reflexivity|apply Hlast; auto]|].
    rewrite (M_bind_ok _ _ _ _ _ (next_run x l k i (rw_linked _ _ _ Hr) (rw_nodup _ _ _ Hr) Hk)).
    destruct (l !! S k) as [i'|] eqn:Hk'; [|exists (i, None); split; [reflexivity|apply Hlast; right; apply lookup_ge_None_1; exact Hk']].
    destruct (IH (S k) i' Hx Hb Hk' ltac:(lia)) as (r & Hrun & Hfound). exists r. split; [exact Hrun|].
    destruct r as [j [p|]]; [exact Hfound|]. destruct Hfound as [H1 H2]. split; [exact H1|]. intros g e Hg He Hke.
    destruct (Nat.lt_ge_cases g (S k * CAP)) as [Hg'|Hg']; [apply (Hno g e); [lia|assumption|assumption]|exact (H2 g e Hg' He Hke)].
Qed.

(** [deleteKey]'s search, which does not ask for visibility. *)
Lemma find_any_ok x l es k0 : ∀ fuel k i,
  slots_ok x → bucket x l es → l !! k = Some i → length l ≤ k + fuel →
  ∃ r, find_any fuel i k0 (getFingerprintForHash (hash k0)) x = (Ok r, x) ∧
    match r with
    | Some (i', p) => ∃ m e, l !! m = Some i' ∧ p < CAP ∧ es !! (m * CAP + p) = Some e ∧ key e = k0
    | None => ∀ g e, k * CAP ≤ g → es !! g = Some e → key e ≠ k0
    end.
Proof.
  intros fuel. induction fuel as [|fuel IH]; intros k i Hx Hb Hk Hf; apply lookup_lt_Some in Hk as Hlt; [lia|].
  pose proof (bk_row _ _ _ Hb) as Hr. destruct (row_slot x l es k i Hr Hk) as (s & Hs & Hi & Hn & Hv).
  assert (Hso : slot_ok s) by exact (Hx i s Hi Hs). cbn [find_any]. rewrite (M_bind_ok _ _ _ _ _ (getSlot_run i s x Hs)).
  assert (Hcell : ∀ p, p < CAP → isEntryValid p (header s) && matches k0 (getFingerprintForHash (hash k0)) (λ _, true) s p =
    match es !! (k * CAP + p) with Some e => bool_decide (key e = k0) | None => false end).
  { intros p Hp. pose proof (slot_content s es (k * CAP) p Hso Hv Hp) as Hc. rewrite isEntryValid_bit. destruct (es !! (k * CAP + p)) as [e|].
    - rewrite (matches_cell k0 _ s p e Hso Hc), andb_true_r. rewrite (proj2 (slot_bit s p Hso Hp)) by eauto. reflexivity.
    - destruct (Z.testbit _ _) eqn:E; [|reflexivity]. apply (slot_bit s p Hso Hp) in E as [e E]. congruence. }
  destruct (find_pos _ 0 CAP) as [p|] eqn:Hp.
  - apply find_pos_some in Hp as [Hp Hm]. cbn beta in Hm. rewrite Hcell in Hm by lia. destruct (es !! (k * CAP + p)) as [e|] eqn:He; [|discriminate Hm].
    apply bool_decide_eq_true in Hm. exists (Some (i, p)). split; [reflexivity|]. exists k, e. split_and!; try assumption. lia.
  - assert (Hno : ∀ g e, k * CAP ≤ g < S k * CAP → es !! g = Some e → key e ≠ k0).
    { intros g e Hg He. pose proof (find_pos_none _ _ _ (g - k * CAP) Hp ltac:(lia)) as Hm. cbn beta in Hm. rewrite Hcell in Hm by lia.
      replace (k * CAP + (g - k * CAP)) with g in Hm by lia. rewrite He in Hm. apply bool_decide_eq_false in Hm. exact Hm. }
    rewrite (M_bind_ok _ _ _ _ _ (next_run x l k i (rw_linked _ _ _ Hr) (rw_nodup _ _ _ Hr) Hk)). destruct (l !! S k) as [i'|] eqn:Hk'.
    + destruct (IH (S k) i' Hx Hb Hk' ltac:(lia)) as (r & Hrun & Hfound). exists r. split; [exact Hrun|].
      destruct r as [[j p]|]; [exact Hfound|]. intros g e Hg He. destruct (Nat.lt_ge_cases g (S k * CAP)); [apply (Hno g e); [lia|exact He]|exact (Hfound g e ltac:(lia) He)].
    + exists None. split; [reflexivity|]. intros g e Hg He. apply (Hno g e); [|exact He]. apply lookup_ge_None_1 in Hk'. apply lookup_lt_Some in He.
      pose proof (rw_length _ _ _ Hr). assert (length l = S k) by lia. nia.
Qed.

Lemma last_slot_ok x l : ∀ fuel k i, linked x l → NoDup l → l !! k = Some i → length l ≤ k + fuel → ∃ j, last_slot fuel i x = (Ok j, x) ∧ last l = Some j.
Proof.
  intros fuel. induction fuel as [|fuel IH]; intros k i Hl Hnd Hk Hf; apply lookup_lt_Some in Hk as Hlt; [lia|].
  cbn [last_slot]. rewrite (M_bind_ok _ _ _ _ _ (next_run x l k i Hl Hnd Hk)). destruct (l !! S k) as [i'|] eqn:Hk'.
  - exact (IH (S k) i' Hl Hnd Hk' ltac:(lia)).
  - exists i. split; [reflexivity|]. apply lookup_ge_None_1 in Hk'. exact (last_lookup_pred l k i Hk Hk').
Qed.

Lemma count_loop_ok x l : ∀ fuel k i, linked x l → NoDup l → l !! k = Some i → length l ≤ k + fuel → count_loop fuel i x = (Ok (length l - k), x).
Proof.
  intros fuel. induction fuel as [|fuel IH]; intros k i Hl Hnd Hk Hf; apply lookup_lt_Some in Hk as Hlt; [lia|].
  cbn [count_loop]. rewrite (M_bind_ok _ _ _ _ _ (next_run x l k i Hl Hnd Hk)). destruct (l !! S k) as [i'|] eqn:Hk'.
  - rewrite (M_bind_ok _ _ _ _ _ (IH (S k) i' Hl Hnd Hk' ltac:(lia))). apply lookup_lt_Some in Hk'. unfold mret, M_ret. do 2 f_equal. lia.
  - apply lookup_ge_None_1 in Hk'. unfold mret, M_ret. do 2 f_equal. lia.
Qed.
End Chains.

(** * The slots of an index and who owns them

    Every overflow slot is in at most one chain, or in the chain of free slots. Allocating a slot, freeing the empty end of a
    chain and writing to a slot keep that, and leave the slots of all other chains alone. *)

(** The counter of free slots may count slots that are in no chain; a bound of how many. *)
Class LostSlots := { lost : Z; lost_range : (0 ≤ lost < 2 ^ 62)%Z }.
Lemma none_lost_range : (0 ≤ 0 < 2 ^ 62)%Z.
Proof. lia. Qed.
Definition none_lost : LostSlots := {| lost := 0; lost_range := none_lost_range |}.

Section Store.
Context {K : Type} `{HK : IndexHashable K} `{Hok : !IndexHashableOk K} `{Hlost : LostSlots}.

Abbreviation CAP := (SLOT_CAPACITY K).
Abbreviation Index := (InMemHashIndex K).
Implicit Types (x : Index) (i j o : SlotInfo) (l L F : list SlotInfo) (es : list (SlotEntry K)).

(** ** Parts of chains *)

(** A chain whose last slot links to [n]. *)
Fixpoint linked_to (x : Index) (l : list SlotInfo) (n : Z) : Prop :=
  match l with
  | [] => True
  | i :: l' =>
      (∃ s, slot_at i x = Some s ∧ nextOvfSlotId (header s) = match l' with [] => n | j :: _ => slotId j end) ∧
      (0 ≤ slotId i < INVALID_OVERFLOW_SLOT_ID)%Z ∧ Forall (λ j, slotType j = OVF) l' ∧ linked_to x l' n
  end.

Lemma linked_app x l l' :
  linked x (l ++ l') ↔ linked_to x l (next_of l') ∧ linked x l' ∧ (l ≠ [] → Forall (λ j, slotType j = OVF) l').
Proof.
  induction l as [|i l IH]; cbn [app linked linked_to]; [split; [intros H; split_and!; auto; contradiction|tauto]|].
  rewrite Forall_app, IH. assert (E : next_of (l ++ l') = match l with [] => next_of l' | j :: _ => slotId j end) by (destruct l; reflexivity). rewrite E. split.
  - intros (H1 & H2 & (H3 & H4) & H5 & H6 & H7). tauto.
  - intros ((H1 & H2 & H3 & H4) & H5 & H6). specialize (H6 ltac:(discriminate)). tauto.
Qed.

Lemma linked_to_invalid x l : linked_to x l INVALID_OVERFLOW_SLOT_ID ↔ linked x l.
Proof.
  pose proof (linked_app x l []) as H. rewrite app_nil_r in H. rewrite H. cbn [next_of linked]. split; [|tauto]. intros Hl. split_and!; auto.
Qed.

Lemma linked_to_agree x x' l n : agree l x x' → linked_to x l n → linked_to x' l n.
Proof.
  induction l as [|i l IH]; intros Ha; [auto|]. intros ((s & Hs & Hn) & Hi & Ht & Hl).
  split; [exists s; rewrite (Ha i) by left; auto|]. split; [exact Hi|]. split; [exact Ht|]. apply IH; [|exact Hl]. intros j Hj. apply Ha. right. exact Hj.
Qed.

Lemma linked_to_here x l n : linked_to x l n → Forall here l.
Proof. induction l as [|i l IH]; [constructor|]. intros (_ & Hi & _ & Hl). constructor; [unfold here; lia|exact (IH Hl)]. Qed.

(** Setting the last link. *)
Lemma linked_to_relink x l i s n m :
  linked_to x (l ++ [i]) n → NoDup (l ++ [i]) → slot_at i x = Some s → linked_to (put_slot i (set_next m s) x) (l ++ [i]) m.
Proof.
  intros Hl Hnd Hs. assert (Hall : Forall here (l ++ [i])) by exact (linked_to_here x _ n Hl).
  apply NoDup_app in Hnd as (_ & Hdis & _). apply Forall_app in Hall as [Hh Hi]. rewrite Forall_singleton in Hi.
  induction l as [|a l IH]; cbn [app linked_to] in *.
  - destruct Hl as (_ & Hr & _ & _). split; [exists (set_next m s)|].
    + rewrite (slot_at_put i _ s x i Hs Hi Hi), decide_True by reflexivity. auto.
    + split; [exact Hr|auto].
  - destruct Hl as ((t & Ht & Hn) & Hr & Hty & Hl). apply Forall_cons in Hh as [Ha Hh].
    split; [|split; [exact Hr|split; [exact Hty|apply IH; [exact Hl|intros b Hb; apply Hdis; right; exact Hb|exact Hh]]]].
    assert (Hne : a ≠ i) by (intros ->; apply (Hdis i); [left|left]). exists t. rewrite (slot_at_put i _ s x a Hs Hi Ha), decide_False by exact Hne.
    split; [exact Ht|]. rewrite Hn. destruct l; reflexivity.
Qed.

(** ** Owned and free slots *)

Definition empty_at (x : Index) (i : SlotInfo) : Prop := ∃ s, slot_at i x = Some s ∧ view s = replicate CAP None.

Record store (x : Index) (L F : list SlotInfo) : Prop := {
  st_slots : slots_ok x;
  st_nodup : NoDup (L ++ F);
  st_exists : Forall (λ i, here i ∧ is_Some (slot_at i x)) L;
  st_free : linked x F;
  st_first : firstFreeOverflowSlotId (indexHeader x) = next_of F;
  st_types : Forall (λ i, slotType i = OVF) F;
  st_empty : Forall (empty_at x) F;
  st_count : (0 ≤ numFreeSlots x - Z.of_nat (length F) ≤ lost)%Z;
}.

Lemma store_perm x L L' F : L ≡ₚ L' → store x L F → store x L' F.
Proof. intros Hp [H1 H2 H3 H4 H5 H6 H7 H8]. split; try assumption; rewrite <- Hp; assumption. Qed.

#[global] Instance store_proper x : Proper ((≡ₚ) ==> eq ==> iff) (store x).
Proof. intros L L' Hp F F' <-. split; apply store_perm; [exact Hp|symmetry; exact Hp]. Qed.

Lemma store_not_free x L F i : store x L F → i ∈ L → i ∉ F.
Proof. intros Hs Hi. destruct (proj1 (NoDup_app _ _) (st_nodup _ _ _ Hs)) as (_ & H & _). apply H, Hi. Qed.

Lemma empty_agree x x' F : agree F x x' → Forall (empty_at x) F → Forall (empty_at x') F.
Proof. intros Ha H. rewrite Forall_forall in *. intros i Hi. destruct (H i Hi) as (s & Hs & Hv). exists s. rewrite (Ha i Hi). auto. Qed.

(** Writing to an owned slot. *)
Lemma store_put x L F i s s0 : store x L F → i ∈ L → slot_at i x = Some s0 → slot_ok s → store (put_slot i s x) L F.
Proof.
  intros Hst Hi H0 Hs. pose proof (store_not_free x L F i Hst Hi) as Hn. destruct Hst as [H1 H2 H3 H4 H5 H6 H7 H8].
  rewrite Forall_forall in H3. destruct (H3 i Hi) as [Hh _]. pose proof (agree_put F x i s s0 H0 Hh (linked_all_here x F H4) Hn) as Ha.
  split; try assumption.
  - exact (slots_ok_put x i s s0 H1 Hh H0 Hs).
  - apply Forall_forall. intros j Hj. destruct (H3 j Hj) as [Hjh Hjs]. split; [exact Hjh|]. rewrite (slot_at_put i s s0 x j H0 Hh Hjh).
    destruct (decide (j = i)); [eauto|exact Hjs].
  - exact (linked_agree x _ F Ha H4).
  - unfold put_slot. destruct (slotType i); exact H5.
  - exact (empty_agree x _ F Ha H7).
  - unfold put_slot. destruct (slotType i); exact H8.
Qed.

(** The other fields. *)
Record same_shape (x x' : Index) (k : nat) : Prop := {
  ss_header : ∃ n, indexHeader x' = set_firstFree n (indexHeader x);
  ss_pSlots : length (pSlots x') = length (pSlots x);
  ss_oSlots : length (oSlots x) ≤ length (oSlots x') ≤ length (oSlots x) + k;
}.

Lemma same_shape_trans x x1 x2 k k' : same_shape x x1 k → same_shape x1 x2 k' → same_shape x x2 (k + k').
Proof.
  intros [[n A1] A2 A3] [[m B1] B2 B3]. split; [exists m; rewrite B1, A1; reflexivity|congruence|lia].
Qed.

Lemma set_firstFree_same h : set_firstFree (firstFreeOverflowSlotId h) h = h.
Proof. destruct h; reflexivity. Qed.

Lemma same_shape_refl x : same_shape x x 0.
Proof. split; [exists (firstFreeOverflowSlotId (indexHeader x)); symmetry; apply set_firstFree_same|reflexivity|lia]. Qed.

Lemma same_shape_put x i s : same_shape x (put_slot i s x) 0.
Proof.
  split; unfold put_slot; destruct (slotType i); cbn [indexHeader pSlots oSlots set_pSlots set_oSlots]; rewrite ?length_insert; try lia;
    exists (firstFreeOverflowSlotId (indexHeader x)); symmetry; apply set_firstFree_same.
Qed.

Lemma same_shape_weaken x x' k k' : same_shape x x' k → k ≤ k' → same_shape x x' k'.
Proof. intros [A1 A2 A3] Hk. split; try assumption. lia. Qed.

(** Slots do not depend on the header and the counter. *)
Lemma slot_at_header i h x : slot_at i (set_indexHeader h x) = slot_at i x.
Proof. reflexivity. Qed.
Lemma slot_at_numFree i n x : slot_at i (set_numFree n x) = slot_at i x.
Proof. reflexivity. Qed.

Lemma linked_header h x l : linked (set_indexHeader h x) l ↔ linked x l.
Proof. split; apply linked_agree; intros i _; reflexivity. Qed.

(** ** Allocating an overflow slot *)

Lemma new_slot_at x i : here i → slot_at i (set_oSlots (oSlots x ++ [Slot_new]) x) =
  if decide (i = MkSlotInfo (Z.of_nat (length (oSlots x))) OVF) then Some Slot_new else slot_at i x.
Proof.
  unfold here, slot_at. destruct i as [n []]; cbn [slotType slotId pSlots oSlots set_oSlots]; intros Hn; [rewrite decide_False by discriminate; reflexivity|].
  destruct (decide (MkSlotInfo n OVF = MkSlotInfo (Z.of_nat (length (oSlots x))) OVF)) as [E|E].
  - injection E as ->. rewrite Nat2Z.id, lookup_app_r, Nat.sub_diag by lia. reflexivity.
  - destruct (Nat.lt_ge_cases (Z.to_nat n) (length (oSlots x))) as [Hlt|Hge]; [apply lookup_app_l, Hlt|].
    rewrite !lookup_ge_None_2; [reflexivity|lia|rewrite length_app; cbn [length]]. assert (n ≠ Z.of_nat (length (oSlots x))) by congruence. lia.
Qed.

Lemma owned_in_range x L F i : store x L F → i ∈ L ∨ i ∈ F → slotType i = OVF → (slotId i < Z.of_nat (length (oSlots x)))%Z.
Proof.
  intros Hst Hi Ht. assert (Hs : here i ∧ is_Some (slot_at i x)).
  { destruct Hi as [Hi|Hi]; [pose proof (st_exists _ _ _ Hst) as H; rewrite Forall_forall in H; exact (H i Hi)|exact (linked_here x F i (st_free _ _ _ Hst) Hi)]. }
  destruct Hs as [Hh [s Hs]]. unfold slot_at in Hs. rewrite Ht in Hs. apply lookup_lt_Some in Hs. unfold here in Hh. lia.
Qed.

Lemma allocate_grow x L : 
  store x L [] → (Z.of_nat (length (oSlots x)) < 2 ^ 32)%Z →
  let o := MkSlotInfo (Z.of_nat (length (oSlots x))) OVF in let x' := set_oSlots (oSlots x ++ [Slot_new]) x in
  allocateAOSlot x = (Ok (slotId o), x') ∧ store x' (o :: L) [] ∧ agree L x x' ∧ slot_at o x' = Some Slot_new ∧ same_shape x x' 1.
Proof.
  intros Hst Hlt. cbn zeta. set (o := MkSlotInfo _ OVF). set (x' := set_oSlots _ x). pose proof Hst as [H1 H2 H3 H4 H5 H6 H7 H8].
  assert (Ho : o ∉ L) by (intros Hi; pose proof (owned_in_range x L [] o Hst (or_introl Hi) eq_refl); cbn in *; lia).
  assert (Ho' : slot_at o x' = Some Slot_new) by (unfold x'; rewrite new_slot_at, decide_True by (reflexivity || (unfold here; cbn; lia)); reflexivity).
  assert (Ha : agree L x x').
  { intros i Hi. rewrite Forall_forall in H3. destruct (H3 i Hi) as [Hh _]. unfold x'. rewrite new_slot_at by exact Hh. rewrite decide_False; [reflexivity|]. intros ->. contradiction. }
  split_and!; try assumption.
  - unfold allocateAOSlot. rewrite (M_bind_ok get_state _ x x x eq_refl), H5. cbn [next_of]. rewrite Z.eqb_refl.
    rewrite (M_bind_ok (put_state x') _ x tt x' eq_refl). unfold mret, M_ret. rewrite uwrap_small by lia. reflexivity.
  - split; try assumption.
    + intros i s Hi Hs. unfold x' in Hs. rewrite new_slot_at in Hs by exact Hi. destruct (decide _); [injection Hs as <-; apply slot_ok_new|exact (H1 i s Hi Hs)].
    + rewrite app_nil_r in *. constructor; assumption.
    + constructor; [split; [unfold here; cbn; lia|eauto]|]. rewrite Forall_forall in *. intros i Hi. destruct (H3 i Hi) as [Hh Hs]. split; [exact Hh|]. rewrite (Ha i Hi). exact Hs.
    + constructor.
  - split; [exists (firstFreeOverflowSlotId (indexHeader x)); symmetry; apply set_firstFree_same|reflexivity|]. cbn [x' oSlots set_oSlots]. rewrite length_app. cbn. lia.
Qed.

Lemma view_empty_count s : slot_ok s → view s = replicate CAP None → numEntries (header s) = 0.
Proof. intros Hs Hv. apply (filled_numEntries s [] Hs); [rewrite filled_nil; exact Hv|cbn; lia]. Qed.

Lemma allocate_reuse x L o F :
  store x L (o :: F) → (Z.of_nat (length (oSlots x)) ≤ 2 ^ 32)%Z →
  ∃ x' s, allocateAOSlot x = (Ok (slotId o), x') ∧ store x' (o :: L) F ∧ agree L x x' ∧ slot_at o x' = Some s ∧
    view s = replicate CAP None ∧ nextOvfSlotId (header s) = INVALID_OVERFLOW_SLOT_ID ∧ same_shape x x' 0.
Proof.
  intros Hst Hlt. pose proof Hst as [H1 H2 H3 H4 H5 H6 H7 H8]. apply Forall_cons in H6 as [Hot H6]. apply Forall_cons in H7 as [(s & Hs & Hv) H7].
  destruct H4 as ((s' & Hs' & Hn) & Hor & _ & H4). rewrite Hs in Hs'. injection Hs' as <-.
  pose proof (owned_in_range x L (o :: F) o Hst ltac:(right; left) Hot) as Hid. assert (Hho : here o) by (unfold here; lia). assert (Hso : slot_ok s) by exact (H1 o s Hho Hs).
  apply (NoDup_Permutation_proper _ _ (symmetry (Permutation_middle L F o))) in H2. apply NoDup_cons in H2 as [Hno H2].
  rewrite elem_of_app in Hno. set (t := set_next INVALID_OVERFLOW_SLOT_ID s).
  set (x1 := set_indexHeader (set_firstFree (nextOvfSlotId (header s)) (indexHeader x)) x). set (x2 := put_slot o t x1).
  set (x3 := set_numFree (numFreeSlots x2 - 1) x2).
  assert (Hx3 : ∀ i, here i → slot_at i x3 = if decide (i = o) then Some t else slot_at i x) by (intros i Hi; apply (slot_at_put o t s x1 i Hs Hho Hi)).
  assert (Ha : ∀ l, Forall here l → o ∉ l → agree l x x3).
  { intros l Hl Hnl i Hi. rewrite Forall_forall in Hl. rewrite Hx3, decide_False by (exact (Hl i Hi) || (intros ->; contradiction)). reflexivity. }
  assert (HhL : Forall here L) by (apply (Forall_impl _ _ _ H3); tauto). pose proof (Ha L HhL ltac:(tauto)) as HaL. pose proof (Ha F (linked_all_here x F H4) ltac:(tauto)) as HaF.
  assert (Hnf : numFreeSlots x2 = numFreeSlots x) by (unfold x2, put_slot; rewrite Hot; reflexivity). cbn [length] in H8.
  exists x3, t. split; [|split; [|split; [exact HaL|split; [rewrite Hx3, decide_True by auto; reflexivity|split; [exact Hv|split; [reflexivity|]]]]]].
  - unfold allocateAOSlot. rewrite (M_bind_ok get_state _ x x x eq_refl), H5. cbn [next_of]. rewrite (proj2 (Z.eqb_neq _ _)) by lia.
    replace (MkSlotInfo (slotId o) OVF) with o by (destruct o; cbn in Hot; subst; reflexivity). rewrite (M_bind_ok _ _ _ _ _ (getSlot_run o s x Hs)).
    rewrite (M_bind_ok (on_header _) _ x tt x1 eq_refl). unfold ku_assert. rewrite (view_empty_count s Hso Hv). cbn [Nat.eqb]. rewrite (M_bind_ok (mret tt) _ x1 tt x1 eq_refl).
    rewrite (M_bind_ok _ _ _ _ _ (on_slot_run o (set_next INVALID_OVERFLOW_SLOT_ID) s x1 Hs)). fold t x2.
    rewrite (proj2 (Z.ltb_lt 0 (numFreeSlots x))) by lia. rewrite (M_bind_ok (mret tt) _ x2 tt x2 eq_refl), (M_bind_ok (modify (λ x, set_numFree (numFreeSlots x - 1) x)) _ x2 tt x3 eq_refl).
    unfold mret, M_ret. rewrite uwrap_small by lia. reflexivity.
  - split; try assumption.
    + intros i r Hi Hr. rewrite Hx3 in Hr by exact Hi. destruct (decide (i = o)); [injection Hr as <-; apply slot_ok_next, Hso|exact (H1 i r Hi Hr)].
    + cbn [app]. constructor; [rewrite elem_of_app; tauto|exact H2].
    + constructor; [split; [exact Hho|rewrite Hx3, decide_True by auto; eauto]|]. rewrite Forall_forall in *. intros i Hi. destruct (H3 i Hi) as [Hh Hsi]. split; [exact Hh|]. rewrite (HaL i Hi). exact Hsi.
    + exact (linked_agree x x3 F HaF H4).
    + unfold x3, x2, put_slot. rewrite Hot. cbn [indexHeader set_numFree set_oSlots x1 set_indexHeader set_firstFree firstFreeOverflowSlotId]. exact Hn.
    + exact (empty_agree x x3 F HaF H7).
    + cbn [x3 numFreeSlots set_numFree]. rewrite Hnf. lia.
  - split; unfold x3, x2, put_slot; rewrite Hot; cbn [indexHeader pSlots oSlots set_numFree set_oSlots x1 set_indexHeader]; [eauto|reflexivity|rewrite length_insert; lia].
Qed.

(** [allocateAOSlot] gives a slot nobody has, empty and at the end of no chain. *)
Lemma ovf_allocate_ok x L F :
  store x L F → (Z.of_nat (length (oSlots x)) < 2 ^ 32)%Z →
  ∃ o x' F' s, allocateAOSlot x = (Ok (slotId o), x') ∧ slotType o = OVF ∧ (0 ≤ slotId o < INVALID_OVERFLOW_SLOT_ID)%Z ∧ store x' (o :: L) F' ∧ agree L x x' ∧
    slot_at o x' = Some s ∧ view s = replicate CAP None ∧ nextOvfSlotId (header s) = INVALID_OVERFLOW_SLOT_ID ∧ same_shape x x' 1.
Proof.
  intros Hst Hlt. destruct F as [|o F].
  - destruct (allocate_grow x L Hst Hlt) as (H1 & H2 & H3 & H4 & H5). eexists _, _, [], Slot_new. split; [exact H1|]. cbn [slotType slotId].
    split; [reflexivity|]. split; [unfold INVALID_OVERFLOW_SLOT_ID; lia|]. split_and!; try assumption; [apply view_new|reflexivity].
  - destruct (allocate_reuse x L o F Hst ltac:(lia)) as (x' & s & H1 & H2 & H3 & H4 & H5 & H6 & H7). exists o, x', F, s.
    pose proof (st_types _ _ _ Hst) as Ht. apply Forall_cons in Ht as [Ht _]. destruct (st_free _ _ _ Hst) as (_ & Hr & _).
    split_and!; try assumption; [lia|lia|apply (same_shape_weaken _ _ 0); [exact H7|lia]].
Qed.

(** ** Freeing slots *)

Lemma addFree_ok x L F o s :
  store x (o :: L) F → slot_at o x = Some s → slotType o = OVF → (0 ≤ slotId o < INVALID_OVERFLOW_SLOT_ID)%Z → view s = replicate CAP None →
  nextOvfSlotId (header s) = INVALID_OVERFLOW_SLOT_ID → (numFreeSlots x + 1 < 2 ^ 63)%Z →
  ∃ x', addFreeOverflowSlot o x = (Ok tt, x') ∧ store x' L (o :: F) ∧ agree L x x' ∧ same_shape x x' 0 ∧ numFreeSlots x' = (numFreeSlots x + 1)%Z.
Proof.
  intros Hst Hs Hty Hor Hv Hn Hbound. pose proof Hst as [H1 H2 H3 H4 H5 H6 H7 H8]. assert (Hho : here o) by (unfold here; lia). assert (Hso : slot_ok s) by exact (H1 o s Hho Hs).
  cbn [app] in H2. apply NoDup_cons in H2 as [Hno H2]. rewrite elem_of_app in Hno. apply Forall_cons in H3 as [_ H3].
  set (t := set_next (firstFreeOverflowSlotId (indexHeader x)) s). set (x1 := put_slot o t x).
  set (x2 := set_indexHeader (set_firstFree (slotId o) (indexHeader x1)) x1). set (x3 := set_numFree (uwrap 64 (numFreeSlots x2 + 1)) x2).
  assert (Hnf : numFreeSlots x2 = numFreeSlots x) by (unfold x2, x1, put_slot; rewrite Hty; reflexivity).
  assert (Hx3 : ∀ i, here i → slot_at i x3 = if decide (i = o) then Some t else slot_at i x) by (intros i Hi; apply (slot_at_put o t s x i Hs Hho Hi)).
  assert (Ha : ∀ l, Forall here l → o ∉ l → agree l x x3).
  { intros l Hl Hnl i Hi. rewrite Forall_forall in Hl. rewrite Hx3, decide_False by (exact (Hl i Hi) || (intros ->; contradiction)). reflexivity. }
  assert (HhL : Forall here L) by (apply (Forall_impl _ _ _ H3); tauto). pose proof (Ha L HhL ltac:(tauto)) as HaL. pose proof (Ha F (linked_all_here x F H4) ltac:(tauto)) as HaF.
  exists x3. split; [|split; [|split; [exact HaL|split]]].
  - unfold addFreeOverflowSlot. rewrite (M_bind_ok _ _ _ _ _ (getSlot_run o s x Hs)). unfold ku_assert.
    rewrite (proj2 (Z.eqb_neq (slotId o) _)) by lia. cbn [negb]. rewrite (M_bind_ok (mret tt) _ x tt x eq_refl), Hn, Z.eqb_refl, (M_bind_ok (mret tt) _ x tt x eq_refl).
    rewrite bool_decide_eq_true_2 by exact Hty. rewrite (M_bind_ok (mret tt) _ x tt x eq_refl), (M_bind_ok get_state _ x x x eq_refl).
    rewrite (M_bind_ok _ _ _ _ _ (on_slot_run o (set_next (firstFreeOverflowSlotId (indexHeader x))) s x Hs)). fold t x1.
    rewrite (M_bind_ok (on_header _) _ x1 tt x2 eq_refl). reflexivity.
  - split; try assumption.
    + intros i r Hi Hr. rewrite Hx3 in Hr by exact Hi. destruct (decide (i = o)); [injection Hr as <-; apply slot_ok_next, Hso|exact (H1 i r Hi Hr)].
    + rewrite <- Permutation_middle. constructor; [rewrite elem_of_app; tauto|exact H2].
    + rewrite Forall_forall in *. intros i Hi. destruct (H3 i Hi) as [Hh Hsi]. split; [exact Hh|]. rewrite (HaL i Hi). exact Hsi.
    + split; [exists t; rewrite Hx3, decide_True by auto; split; [reflexivity|exact H5]|]. split; [exact Hor|]. split; [exact H6|exact (linked_agree x x3 F HaF H4)].
    + reflexivity.
    + constructor; assumption.
    + constructor; [exists t; rewrite Hx3, decide_True by auto; auto|exact (empty_agree x x3 F HaF H7)].
    + cbn [x3 numFreeSlots set_numFree length]. rewrite Hnf, uwrap_small by lia. lia.
  - split; unfold x3, x2, x1, put_slot; rewrite Hty; cbn [indexHeader pSlots oSlots set_numFree set_oSlots set_indexHeader]; [eauto|reflexivity|rewrite length_insert; lia].
  - cbn [x3 numFreeSlots set_numFree]. rewrite Hnf, uwrap_small by lia. reflexivity.
Qed.

Lemma agree_trans l x x1 x2 : agree l x x1 → agree l x1 x2 → agree l x x2.
Proof. intros H1 H2 i Hi. rewrite (H2 i Hi). exact (H1 i Hi). Qed.

Lemma agree_app l l' x x' : agree (l ++ l') x x' ↔ agree l x x' ∧ agree l' x x'.
Proof.
  split.
  - intros H. split; intros i Hi; apply H, elem_of_app; auto.
  - intros [H1 H2] i Hi. apply elem_of_app in Hi as [Hi|Hi]; auto.
Qed.

(** The empty end of a chain becomes free, slot by slot. *)
Lemma free_chain_ok R : ∀ fuel x L F,
  store x (R ++ L) F → linked x R → Forall (λ i, slotType i = OVF) R → Forall (empty_at x) R → length R ≤ fuel →
  (numFreeSlots x + Z.of_nat (length R) < 2 ^ 63)%Z →
  ∃ x', free_chain fuel (MkSlotInfo (next_of R) OVF) x = (Ok tt, x') ∧ store x' L (rev R ++ F) ∧ agree L x x' ∧ same_shape x x' 0.
Proof.
  induction R as [|o R IH]; intros fuel x L F Hst Hl Hty He Hf Hb.
  - exists x. cbn [next_of rev app]. split; [destruct fuel; cbn [free_chain]; rewrite decide_True by reflexivity; reflexivity|].
    split; [exact Hst|]. split; [intros i _; reflexivity|apply same_shape_refl].
  - apply Forall_cons in Hty as [Hot Hty]. apply Forall_cons in He as [(s & Hs & Hv) He]. destruct Hl as ((s' & Hs' & Hn) & Hor & _ & Hl).
    rewrite Hs in Hs'. injection Hs' as <-. destruct fuel as [|fuel]; [cbn in Hf; lia|]. cbn [length] in Hf, Hb. cbn [free_chain next_of].
    assert (Ho : MkSlotInfo (slotId o) OVF = o) by (destruct o; cbn in Hot; subst; reflexivity). rewrite Ho.
    rewrite decide_False by (intros E; rewrite E in Hor; cbn in Hor; lia). rewrite (M_bind_ok _ _ _ _ _ (getSlot_run o s x Hs)).
    assert (Hho : here o) by (unfold here; lia). assert (Hso : slot_ok s) by exact (st_slots _ _ _ Hst o s Hho Hs).
    unfold ku_assert. rewrite (view_empty_count s Hso Hv). cbn [Nat.eqb]. rewrite (M_bind_ok (mret tt) _ x tt x eq_refl).
    rewrite (M_bind_ok _ _ _ _ _ (on_slot_run o (set_next INVALID_OVERFLOW_SLOT_ID) s x Hs)). set (t := set_next _ s). set (x1 := put_slot o t x).
    rewrite decide_True by exact Hot. cbn [app] in Hst. pose proof (store_put x (o :: R ++ L) F o t s Hst ltac:(left) Hs (slot_ok_next s _ Hso)) as Hst1. fold x1 in Hst1.
    assert (Hs1 : slot_at o x1 = Some t) by (unfold x1; rewrite (slot_at_put o t s x o Hs Hho Hho), decide_True by reflexivity; reflexivity).
    assert (Hnf1 : numFreeSlots x1 = numFreeSlots x) by (unfold x1, put_slot; rewrite Hot; reflexivity).
    destruct (addFree_ok x1 (R ++ L) F o t Hst1 Hs1 Hot Hor Hv eq_refl ltac:(lia)) as (x2 & Hrun & Hst2 & Ha2 & Hss2 & Hnf2).
    rewrite (M_bind_ok _ _ _ _ _ Hrun), Hn.
    assert (Ha12 : agree (R ++ L) x x2).
    { apply (agree_trans _ _ x1); [|exact Ha2]. pose proof (st_nodup _ _ _ Hst) as Hnd. cbn [app] in Hnd. apply NoDup_cons in Hnd as [Hno _].
      pose proof (st_exists _ _ _ Hst) as Hex. apply Forall_cons in Hex as [_ Hex].
      apply (agree_put (R ++ L) x o t s Hs Hho); [apply (Forall_impl _ _ _ Hex); tauto|]. intros Hin. apply Hno. apply elem_of_app. left. exact Hin. }
    apply agree_app in Ha12 as [HaR HaL].
    destruct (IH fuel x2 L (o :: F) Hst2 (linked_agree x x2 R HaR Hl) Hty (empty_agree x x2 R HaR He) ltac:(lia) ltac:(lia)) as (x3 & Hrun3 & Hst3 & Ha3 & Hss3).
    exists x3. split; [exact Hrun3|]. cbn [rev]. rewrite <- app_assoc. split; [exact Hst3|].
    split; [exact (agree_trans _ _ _ _ HaL Ha3)|].
    pose proof (same_shape_trans _ _ _ _ _ (same_shape_put x o t) (same_shape_trans _ _ _ _ _ Hss2 Hss3)) as Hss. exact Hss.
Qed.

(** ** Cutting off the empty end of a chain *)

(** The slots some entries need. *)
Definition need (es : list (SlotEntry K)) : nat := Nat.max 1 ((length es + CAP - 1) / CAP).

Lemma need_spec es : 1 ≤ need es ∧ length es ≤ need es * CAP ∧ (need es = 1 ∨ (need es - 1) * CAP < length es).
Proof.
  pose proof (capacity_range (K := K)) as Hc. unfold need. pose proof (Nat.div_mod_eq (length es + CAP - 1) CAP) as Hd.
  pose proof (Nat.mod_upper_bound (length es + CAP - 1) CAP ltac:(lia)) as Hm. set (q := (length es + CAP - 1) / CAP) in *. set (r := (length es + CAP - 1) mod CAP) in *.
  destruct (Nat.max_spec 1 q) as [[H ->]|[H ->]]; split_and!; try lia; try nia.
Qed.

Lemma need_least es n : 0 < n → length es ≤ n * CAP → need es ≤ n.
Proof. pose proof (capacity_range (K := K)) as Hc. intros Hn Hl. destruct (need_spec es) as (H1 & H2 & [H3|H3]); [lia|]. nia. Qed.

Lemma need_lt es k : k < need es ↔ k = 0 ∨ k * CAP < length es.
Proof.
  pose proof (capacity_range (K := K)) as Hc. destruct (need_spec es) as (H1 & H2 & H3). split.
  - intros Hk. destruct H3 as [H3|H3]; [left; lia|]. destruct (decide (k = 0)); [auto|right; nia].
  - intros [->|Hk]; [lia|nia].
Qed.

Lemma linked_types x i l : linked x (i :: l) → Forall (λ j, slotType j = OVF) l.
Proof. intros (_ & _ & H & _). exact H. Qed.

Lemma linked_type x l k i : linked x l → l !! S k = Some i → slotType i = OVF.
Proof. destruct l as [|a l]; [discriminate|]. intros Hl%linked_types Hk. rewrite Forall_lookup in Hl. exact (Hl k i Hk). Qed.

Lemma skip_ok x l es : ∀ fuel k i j,
  slots_ok x → row x l es → option_map slotType (head l) = Some PRIMARY → l !! k = Some i → k ≤ need es → (k = need es → l !! (k - 1) = Some j) → length l ≤ k + fuel →
  ∃ jl, l !! (need es - 1) = Some jl ∧ skip_nonempty fuel i j x = (Ok (default INVALID_OVF_INFO (l !! need es), jl), x).
Proof.
  pose proof (capacity_range (K := K)) as Hc. intros fuel. induction fuel as [|fuel IH]; intros k i j Hx Hr Hhd Hk Hkn Hj Hf; apply lookup_lt_Some in Hk as Hlt; [lia|].
  destruct (row_slot x l es k i Hr Hk) as (s & Hs & Hi & Hn & Hv). assert (Hso : slot_ok s) by exact (Hx i s Hi Hs).
  destruct (slot_count s es (k * CAP) Hso Hv) as [Hne _]. cbn [skip_nonempty]. rewrite (M_bind_ok _ _ _ _ _ (getSlot_run i s x Hs)), Hne.
  assert (Hcond : ((0 <? CAP `min` (length es - k * CAP)) || bool_decide (slotType i = PRIMARY)) = bool_decide (k < need es)).
  { destruct (decide (k = 0)) as [->|Hk0].
    - destruct l as [|a l]; [discriminate|]. cbn in Hk, Hhd. injection Hk as ->. injection Hhd as Hhd. rewrite (bool_decide_eq_true_2 (slotType i = PRIMARY)) by exact Hhd.
      rewrite orb_true_r. symmetry. apply bool_decide_eq_true_2. apply need_lt. auto.
    - destruct k as [|k']; [lia|]. rewrite (linked_type x l k' i (rw_linked _ _ _ Hr) Hk). rewrite (bool_decide_eq_false_2 (OVF = PRIMARY)) by discriminate.
      rewrite orb_false_r. destruct (Nat.ltb_spec 0 (CAP `min` (length es - S k' * CAP))) as [H|H]; symmetry.
      + apply bool_decide_eq_true_2, need_lt. right. lia.
      + apply bool_decide_eq_false_2. rewrite need_lt. lia. }
  rewrite Hcond. destruct (decide (k < need es)) as [Hlt'|Hge].
  - rewrite bool_decide_eq_true_2 by exact Hlt'. rewrite (M_bind_ok _ _ _ _ _ (next_run x l k i (rw_linked _ _ _ Hr) (rw_nodup _ _ _ Hr) Hk)).
    destruct (l !! S k) as [i'|] eqn:Hk'.
    + apply (IH (S k) i' i Hx Hr Hhd Hk'); [lia| |lia]. intros E. replace (S k - 1) with k by lia. exact Hk.
    + apply lookup_ge_None_1 in Hk'. pose proof (need_least es (length l) ltac:(lia) (rw_length _ _ _ Hr)) as Hnl. assert (need es = S k) as -> by lia.
      exists i. replace (S k - 1) with k by lia. split; [exact Hk|]. rewrite (lookup_ge_None_2 l (S k)) by lia. reflexivity.
  - rewrite bool_decide_eq_false_2 by exact Hge. assert (k = need es) as -> by lia. exists j. split; [apply Hj; reflexivity|]. rewrite Hk. reflexivity.
Qed.

Lemma chain_view_next x i s n l : slot_at i x = Some s → here i → Forall here l → chain_view (put_slot i (set_next n s) x) l = chain_view x l.
Proof.
  intros Hs Hi Hl. unfold chain_view. f_equal. apply map_ext_in. intros j Hj. apply list_elem_of_In in Hj. rewrite Forall_forall in Hl.
  rewrite (slot_at_put i _ s x j Hs Hi (Hl j Hj)). destruct (decide (j = i)) as [->|_]; [rewrite Hs; reflexivity|reflexivity].
Qed.

Lemma chain_view_take x l n : n ≤ length l → chain_view x (take n l) = take (n * CAP) (chain_view x l).
Proof.
  intros Hn. rewrite <- (take_drop n l) at 2. unfold chain_view. rewrite map_app, concat_app. fold (chain_view x (take n l)) (chain_view x (drop n l)).
  rewrite take_app_length'; [reflexivity|]. rewrite chain_view_length, length_take. f_equal. lia.
Qed.

Lemma filled_take es n m : n ≤ m → length es ≤ n → take n (filled es m) = filled es n.
Proof.
  intros Hn Hl. replace m with (n + (m - n)) by lia. rewrite filled_split, (take_ge es n) by exact Hl. apply take_app_length'. symmetry. apply filled_length, Hl.
Qed.

(** The kept part of a row, once its last link is cut. *)
Lemma row_cut x l es jl s :
  row x l es → 0 < length l → l !! (need es - 1) = Some jl → slot_at jl x = Some s →
  bucket (put_slot jl (set_next INVALID_OVERFLOW_SLOT_ID s) x) (take (need es) l) es.
Proof.
  intros [Hl Hnd Hv Hlen] Hpos Hjl Hs. destruct (need_spec es) as (N1 & N2 & N3). pose proof (need_least es (length l) Hpos Hlen) as Hnl.
  assert (Htk : take (need es) l = take (need es - 1) l ++ [jl]).
  { replace (need es) with (S (need es - 1)) at 1 by lia. apply take_S_r. exact Hjl. }
  assert (Hh : here jl) by (apply (linked_here x l jl Hl); apply list_elem_of_lookup; eauto).
  rewrite <- (take_drop (need es) l) in Hl, Hnd. apply linked_app in Hl as (Hl1 & _ & _). apply NoDup_app in Hnd as (Hnd & _ & _).
  assert (Hlt : length (take (need es) l) = need es) by (rewrite length_take; lia).
  split; [split|].
  - apply linked_to_invalid. rewrite Htk in *. exact (linked_to_relink x _ jl s _ _ Hl1 Hnd Hs).
  - exact Hnd.
  - rewrite chain_view_next by (exact Hs || exact Hh || exact (linked_to_here x _ _ Hl1)).
    rewrite chain_view_take, Hv, Hlt by exact Hnl. apply filled_take; [nia|exact N2].
  - rewrite Hlt. exact N2.
  - rewrite Hlt. destruct N3 as [N3|N3]; [left; exact N3|right; split; [lia|exact N3]].
Qed.

Lemma row_rest_empty x l es : row x l es → Forall (empty_at x) (drop (need es) l).
Proof.
  intros Hr. apply Forall_lookup. intros k i Hk. rewrite lookup_drop in Hk. destruct (row_slot x l es _ i Hr Hk) as (s & Hs & _ & _ & Hv).
  exists s. split; [exact Hs|]. rewrite Hv. destruct (need_spec es) as (_ & N2 & _). rewrite drop_ge, take_nil by nia. apply filled_nil.
Qed.

Lemma reclaim_ok x l es L F k i :
  store x (l ++ L) F → row x l es → option_map slotType (head l) = Some PRIMARY → l !! k = Some i → k < need es → length l ≤ chain_fuel x →
  (numFreeSlots x + Z.of_nat (length l) < 2 ^ 63)%Z →
  ∃ x', reclaimOverflowSlots i x = (Ok tt, x') ∧ bucket x' (take (need es) l) es ∧ store x' (take (need es) l ++ L) (rev (drop (need es) l) ++ F) ∧
    agree L x x' ∧ same_shape x x' 0.
Proof.
  intros Hst Hr Hhd Hk Hkn Hfuel Hnf. apply lookup_lt_Some in Hk as Hlt. pose proof (need_least es (length l) ltac:(lia) (rw_length _ _ _ Hr)) as Hnl.
  destruct (row_slot x l es k i Hr Hk) as (s & Hs & Hi & Hn & _). unfold reclaimOverflowSlots. rewrite (M_bind_ok _ _ _ _ _ (getSlot_run i s x Hs)), Hn.
  destruct (drop (S k) l) as [|a r] eqn:Hd; cbn [next_of].
  - rewrite Z.eqb_refl. assert (Hlk : length l = S k) by (pose proof (f_equal length Hd) as E; rewrite length_drop in E; cbn in E; lia).
    assert (Hneed : need es = length l) by lia. exists x. split; [reflexivity|]. rewrite Hneed, take_ge, drop_ge by lia. cbn [rev app].
    split; [split; [exact Hr|]|split; [exact Hst|split; [intros j _; reflexivity|apply same_shape_refl]]].
    destruct (need_spec es) as (_ & _ & [N|N]); [left; lia|right; split; [lia|rewrite <- Hneed; exact N]].
  - assert (Ha : l !! S k = Some a) by (rewrite <- (Nat.add_0_r (S k)), <- lookup_drop, Hd; reflexivity).
    assert (Har : (slotId a ≠ INVALID_OVERFLOW_SLOT_ID)%Z).
    { pose proof (rw_linked _ _ _ Hr) as Hl. rewrite <- (take_drop (S k) l), Hd in Hl. apply linked_app in Hl as (_ & (_ & Hr' & _) & _). lia. }
    rewrite (proj2 (Z.eqb_neq _ _) Har), (M_bind_ok get_state _ x x x eq_refl).
    destruct (skip_ok x l es (chain_fuel x) k i i (st_slots _ _ _ Hst) Hr Hhd Hk ltac:(lia) ltac:(lia) ltac:(lia)) as (jl & Hjl & Hskip).
    rewrite (M_bind_ok _ _ _ _ _ Hskip). destruct (row_slot x l es _ jl Hr Hjl) as (t & Ht & Hjh & _ & _).
    rewrite (M_bind_ok _ _ _ _ _ (on_slot_run jl (set_next INVALID_OVERFLOW_SLOT_ID) t x Ht)). set (x1 := put_slot jl _ x).
    pose proof (row_cut x l es jl t Hr ltac:(lia) Hjl Ht) as Hbk. fold x1 in Hbk.
    assert (Hin : jl ∈ l) by (apply list_elem_of_lookup; eauto).
    assert (Hst1 : store x1 (l ++ L) F) by (apply (store_put x (l ++ L) F jl _ t Hst ltac:(apply elem_of_app; auto) Ht), slot_ok_next, (st_slots _ _ _ Hst jl t Hjh Ht)).
    assert (Hnodrop : jl ∉ drop (need es) l ++ L).
    { intros Hin'. pose proof (st_nodup _ _ _ Hst) as Hnd. apply NoDup_app in Hnd as (Hnd & _ & _). rewrite <- (take_drop (need es) l), <- app_assoc in Hnd.
      apply NoDup_app in Hnd as (_ & Hdis & _). apply (Hdis jl); [|exact Hin']. apply list_elem_of_lookup. exists (need es - 1). rewrite lookup_take_lt by lia. exact Hjl. }
    assert (Hh : Forall here (drop (need es) l ++ L)).
    { pose proof (st_exists _ _ _ Hst) as Hex. rewrite <- (take_drop (need es) l), <- app_assoc in Hex. apply Forall_app in Hex as [_ Hex]. apply (Forall_impl _ _ _ Hex). tauto. }
    pose proof (agree_put _ x jl (set_next INVALID_OVERFLOW_SLOT_ID t) t Ht Hjh Hh Hnodrop) as Hag. fold x1 in Hag. apply agree_app in Hag as [HagR HagL].
    assert (HlR : linked x (drop (need es) l)) by (pose proof (rw_linked _ _ _ Hr) as Hl; rewrite <- (take_drop (need es) l) in Hl; apply linked_app in Hl as (_ & H & _); exact H).
    assert (HtR : Forall (λ j, slotType j = OVF) (drop (need es) l)).
    { apply Forall_lookup. intros m j Hm. rewrite lookup_drop in Hm. destruct (need_spec es) as (N1 & _). replace (need es + m) with (S (need es - 1 + m)) in Hm by lia. exact (linked_type x l _ j (rw_linked _ _ _ Hr) Hm). }
    assert (Hperm : l ++ L ≡ₚ drop (need es) l ++ (take (need es) l ++ L)) by (rewrite <- (take_drop (need es) l) at 1; rewrite (Permutation_app_comm (take _ _)), app_assoc; reflexivity).
    destruct (free_chain_ok (drop (need es) l) (chain_fuel x) x1 (take (need es) l ++ L) F (store_perm _ _ _ _ Hperm Hst1) (linked_agree x x1 _ HagR HlR) HtR
      (empty_agree x x1 _ HagR (row_rest_empty x l es Hr))) as (x2 & Hfree & Hst2 & Ha2 & Hss2).
    { rewrite length_drop. lia. }
    { replace (numFreeSlots x1) with (numFreeSlots x) by (unfold x1, put_slot; destruct (slotType jl); reflexivity). rewrite length_drop. lia. }
    exists x2. split; [|split; [|split; [exact Hst2|split]]].
    + replace (default INVALID_OVF_INFO (l !! need es)) with (MkSlotInfo (next_of (drop (need es) l)) OVF); [exact Hfree|].
      rewrite <- (Nat.add_0_r (need es)) at 2. rewrite <- lookup_drop. destruct (drop (need es) l) as [|b R']; [reflexivity|].
      apply Forall_cons in HtR as [Hb _]. destruct b as [nb tb]. cbn [slotType] in Hb. subst tb. reflexivity.
    + apply (bucket_agree x1); [|exact Hbk]. apply agree_app in Ha2 as [Ha2 _]. exact Ha2.
    + apply agree_app in Ha2 as [_ Ha2]. exact (agree_trans _ _ _ _ HagL Ha2).
    + exact (same_shape_trans _ _ _ 0 0 (same_shape_put x jl _) Hss2).
Qed.
End Store.
