(* ===== verification/HashGrow.v ===== *)
(** * Adding entries and splitting slots

    An entry is added at the end of a chain, in its last slot or in a new one; a split moves the entries of a chain
    that belong to the new slot there and closes the gaps they leave. *)

From stdpp Require Import base numbers list strings.
From Stdlib Require Import ZArith Lia.
From S2P Require Import Prelude HashSlot HashSlotSpec InMemHashIndex HashChain.
Import HashSlot InMemHashIndex.

Section Grow.
Context {K : Type} `{HK : IndexHashable K} `{Hok : !IndexHashableOk K} `{Hlost : LostSlots}.

Abbreviation CAP := (SLOT_CAPACITY K).
Abbreviation Index := (InMemHashIndex K).
Implicit Types (x : Index) (i j o : SlotInfo) (l L F : list SlotInfo) (es : list (SlotEntry K)) (e : SlotEntry K).

(** ** One more entry *)

Lemma filled_push es e n : length es < n → <[length es := Some e]> (filled es n) = filled (es ++ [e]) n.
Proof.
  intros Hn. unfold filled. rewrite insert_app_r_alt by (rewrite length_map; lia). rewrite length_map, Nat.sub_diag, length_app, map_app. cbn [length map].
  rewrite <- app_assoc. f_equal. destruct (n - length es) as [|m] eqn:E; [lia|]. cbn. f_equal. f_equal. lia.
Qed.

Lemma last_split l i : last l = Some i → l !! (length l - 1) = Some i ∧ 0 < length l.
Proof.
  intros H. rewrite last_lookup in H. replace (pred (length l)) with (length l - 1) in H by lia. split; [exact H|]. apply lookup_lt_Some in H. lia.
Qed.

Lemma store_app_here x l L F : store x (l ++ L) F → Forall here l ∧ Forall here L ∧ NoDup l ∧ (∀ i, i ∈ l → i ∉ L).
Proof.
  intros Hst. pose proof (st_exists _ _ _ Hst) as Hex. apply Forall_app in Hex as [H1 H2]. pose proof (st_nodup _ _ _ Hst) as Hnd.
  apply NoDup_app in Hnd as (Hnd & _ & _). apply NoDup_app in Hnd as (H3 & H4 & _).
  split; [apply (Forall_impl _ _ _ H1); tauto|]. split; [apply (Forall_impl _ _ _ H2); tauto|]. auto.
Qed.

Lemma push_here x l L F es i s e p :
  store x (l ++ L) F → row x l es → last l = Some i → slot_at i x = Some s → (length l - 1) * CAP ≤ length es < length l * CAP →
  p = length es - (length l - 1) * CAP →
  let x' := put_slot i (put_entry p e (fp e) s) x in bucket x' l (es ++ [e]) ∧ store x' (l ++ L) F ∧ agree L x x'.
Proof.
  intros Hst Hr Hlast Hs Hlen Hp. cbn zeta. destruct (last_split l i Hlast) as [Hi Hpos]. destruct (store_app_here x l L F Hst) as (Hh & HhL & Hnd & Hdis).
  assert (Hin : i ∈ l) by (apply list_elem_of_lookup; eauto). assert (Hih : here i) by (rewrite Forall_forall in Hh; exact (Hh i Hin)).
  assert (Hso : slot_ok s) by exact (st_slots _ _ _ Hst i s Hih Hs). assert (Hpc : p < CAP) by nia.
  split; [split; [split|]|split].
  - exact (linked_put x l i s (put_entry p e (fp e) s) Hs Hih eq_refl (rw_linked _ _ _ Hr)).
  - exact Hnd.
  - rewrite (chain_view_put x l (length l - 1) i s _ p (Some e) Hnd Hh Hi Hs Hpc (view_put s p e (fp e) Hso Hpc)), (rw_view _ _ _ Hr).
    replace ((length l - 1) * CAP + p) with (length es) by lia. apply filled_push. lia.
  - rewrite length_app. cbn. lia.
  - rewrite length_app. cbn. right. lia.
  - apply (store_put x (l ++ L) F i _ s Hst); [apply elem_of_app; auto|exact Hs|]. apply slot_ok_put; assumption.
  - exact (agree_put L x i _ s Hs Hih HhL (Hdis i Hin)).
Qed.

(** A new slot at the end of a chain. *)
Lemma extend_chain x l L F i o s t :
  store x (o :: l ++ L) F → linked x l → last l = Some i → slot_at i x = Some s → slot_at o x = Some t →
  slotType o = OVF → (0 ≤ slotId o < INVALID_OVERFLOW_SLOT_ID)%Z → view t = replicate CAP None → nextOvfSlotId (header t) = INVALID_OVERFLOW_SLOT_ID →
  let x' := put_slot i (set_next (slotId o) s) x in
  linked x' (l ++ [o]) ∧ NoDup (l ++ [o]) ∧ chain_view x' (l ++ [o]) = chain_view x l ++ replicate CAP None ∧ store x' ((l ++ [o]) ++ L) F ∧ agree L x x' ∧ slot_at o x' = Some t.
Proof.
  intros Hst Hlk Hlast Hs Ht Hty Hor Hv Hn. cbn zeta. destruct (last_split l i Hlast) as [Hi Hpos].
  assert (Hperm : o :: l ++ L ≡ₚ (l ++ [o]) ++ L) by (rewrite <- app_assoc; cbn [app]; apply Permutation_middle).
  apply (store_perm _ _ _ _ Hperm) in Hst. destruct (store_app_here x (l ++ [o]) L F Hst) as (Hh & HhL & Hnd & Hdis).
  assert (Hin : i ∈ l) by (apply list_elem_of_lookup; eauto). apply Forall_app in Hh as [Hhl Hho]. rewrite Forall_singleton in Hho.
  assert (Hih : here i) by (rewrite Forall_forall in Hhl; exact (Hhl i Hin)). pose proof Hnd as (Hndl & Hno & _)%NoDup_app.
  assert (Hoi : o ≠ i) by (intros ->; apply (Hno i Hin); left).
  assert (Hso : slot_at o (put_slot i (set_next (slotId o) s) x) = Some t) by (rewrite (slot_at_put i _ s x o Hs Hih Hho), decide_False by exact Hoi; exact Ht).
  assert (Hl : l = take (length l - 1) l ++ [i]) by (rewrite <- (firstn_all l) at 1; replace (length l) with (S (length l - 1)) at 1 by lia; apply take_S_r, Hi).
  split; [|split; [exact Hnd|split; [|split; [|split; [|exact Hso]]]]].
  - apply linked_app. split; [|split].
    + cbn [next_of]. rewrite Hl at 1. apply (linked_to_relink x _ i s INVALID_OVERFLOW_SLOT_ID); [|rewrite <- Hl; exact Hndl|exact Hs]. rewrite <- Hl. apply linked_to_invalid, Hlk.
    + split; [exists t; split; [exact Hso|exact Hn]|]. split; [exact Hor|]. split; [constructor|exact I].
    + intros _. constructor; [exact Hty|constructor].
  - unfold chain_view. rewrite map_app, concat_app. fold (chain_view (put_slot i (set_next (slotId o) s) x) l). rewrite chain_view_next by assumption.
    cbn [map concat]. rewrite Hso, Hv, app_nil_r. reflexivity.
  - apply (store_put x _ F i _ s Hst); [apply elem_of_app; left; apply elem_of_app; auto|exact Hs|]. apply slot_ok_next. exact (st_slots _ _ _ Hst i s Hih Hs).
  - apply (agree_put L x i _ s Hs Hih HhL). apply Hdis. apply elem_of_app. auto.
Qed.

Lemma extend x l L F es i o s t :
  store x (o :: l ++ L) F → row x l es → length es = length l * CAP → last l = Some i → slot_at i x = Some s → slot_at o x = Some t →
  slotType o = OVF → (0 ≤ slotId o < INVALID_OVERFLOW_SLOT_ID)%Z → view t = replicate CAP None → nextOvfSlotId (header t) = INVALID_OVERFLOW_SLOT_ID →
  let x' := put_slot i (set_next (slotId o) s) x in
  row x' (l ++ [o]) es ∧ store x' ((l ++ [o]) ++ L) F ∧ agree L x x' ∧ slot_at o x' = Some t.
Proof.
  intros Hst Hr Hlen Hlast Hs Ht Hty Hor Hv Hn. destruct (extend_chain x l L F i o s t Hst (rw_linked _ _ _ Hr) Hlast Hs Ht Hty Hor Hv Hn) as (Hlk & Hnd & Hcv & Hrest).
  split; [split; try assumption|exact Hrest].
  - rewrite Hcv, (rw_view _ _ _ Hr), filled_full by (symmetry; lia). rewrite length_app. cbn [length]. unfold filled. f_equal. f_equal. lia.
  - rewrite length_app. cbn. lia.
Qed.

(** The entry that follows a bucket's entries, in the slot that has a place for it: the last slot, or a new one. *)
Definition place_for (i : SlotInfo) (n : nat) : M Index (SlotInfo * nat) :=
  if CAP <=? n then
    newOvfSlotId ← allocateAOSlot;
    on_slot i (set_next newOvfSlotId) ;;
    mret (MkSlotInfo newOvfSlotId OVF, 0)
  else mret (i, n).

Lemma place_ok x l L F es i :
  store x (l ++ L) F → bucket x l es → last l = Some i → (Z.of_nat (length (oSlots x)) < 2 ^ 32)%Z →
  ∃ i' p x' l' F', place_for i (length es - (length l - 1) * CAP) x = (Ok (i', p), x') ∧ store x' (l' ++ L) F' ∧ row x' l' es ∧ last l' = Some i' ∧
    p = length es - (length l' - 1) * CAP ∧ (length l' - 1) * CAP ≤ length es < length l' * CAP ∧ agree L x x' ∧ same_shape x x' 1 ∧
    head l' = head l ∧ (l' = l ∧ x' = x ∧ i' = i ∨ l' = l ++ [i'] ∧ p = 0 ∧ CAP ≤ length es - (length l - 1) * CAP).
Proof.
  pose proof (capacity_range (K := K)) as Hc. intros Hst Hb Hlast Hsize. pose proof Hb as [Hr Ht]. destruct (last_split l i Hlast) as [Hi Hpos]. pose proof (rw_length _ _ _ Hr) as Hlen.
  assert (Hge : (length l - 1) * CAP ≤ length es) by (destruct Ht as [Ht|Ht]; [rewrite Ht; lia|lia]).
  unfold place_for. destruct (Nat.leb_spec CAP (length es - (length l - 1) * CAP)) as [Hfull|Hroom].
  - assert (Heq : length es = length l * CAP) by nia.
    destruct (ovf_allocate_ok x (l ++ L) F Hst Hsize) as (o & x1 & F' & t & Hrun & Hty & Hor & Hst1 & Ha1 & Hto & Hvo & Hno & Hss1).
    rewrite (M_bind_ok _ _ _ _ _ Hrun). apply agree_app in Ha1 as [Hal HaL]. pose proof (row_agree x x1 l es Hal Hr) as Hr1.
    destruct (row_slot x1 l es _ i Hr1 Hi) as (s & Hs & _). rewrite (M_bind_ok _ _ _ _ _ (on_slot_run i (set_next (slotId o)) s x1 Hs)).
    destruct (extend x1 l L F' es i o s t Hst1 Hr1 Heq Hlast Hs Hto Hty Hor Hvo Hno) as (Hr2 & Hst2 & Ha2 & _).
    exists o, 0, (put_slot i (set_next (slotId o) s) x1), (l ++ [o]), F'. rewrite length_app. cbn [length].
    split; [destruct o; cbn in Hty; subst; reflexivity|]. split; [exact Hst2|]. split; [exact Hr2|]. split; [apply last_snoc|].
    split; [nia|]. split; [nia|]. split; [exact (agree_trans _ _ _ _ HaL Ha2)|].
    split; [exact (same_shape_trans _ _ _ 1 0 Hss1 (same_shape_put x1 i _))|]. split; [destruct l; [cbn in Hpos; lia|reflexivity]|]. right. auto.
  - exists i, (length es - (length l - 1) * CAP), x, l, F. split; [reflexivity|]. split_and!; try assumption; try reflexivity; try nia.
    + intros k _. reflexivity.
    + apply (same_shape_weaken _ _ 0); [apply same_shape_refl|lia].
    + left. auto.
Qed.
(** The slots of a chain or of the free slots exist, so there are not more of them than overflow slots. *)
Lemma ovf_count x l : NoDup l → Forall (λ i, slotType i = OVF ∧ here i ∧ is_Some (slot_at i x)) l → length l ≤ length (oSlots x).
Proof.
  intros Hnd Hl. rewrite <- (length_seq (length (oSlots x)) 0), <- (length_fmap (λ i, Z.to_nat (slotId i)) l). apply submseteq_length, NoDup_submseteq.
  - apply NoDup_fmap_2_strong; [|exact Hnd]. rewrite Forall_forall in Hl. intros [a ta] [b tb] Ha Hb E. destruct (Hl _ Ha) as (H1 & H2 & _), (Hl _ Hb) as (H3 & H4 & _).
    unfold here in *. cbn in *. subst. f_equal. lia.
  - intros n Hn. apply list_elem_of_fmap in Hn as (i & -> & Hi). rewrite Forall_forall in Hl. destruct (Hl i Hi) as (H1 & H2 & s & Hs).
    unfold slot_at in Hs. rewrite H1 in Hs. apply lookup_lt_Some in Hs. apply elem_of_seq. lia.
Qed.

Lemma free_count x L F : store x L F → length F ≤ length (oSlots x).
Proof.
  intros Hst. apply ovf_count; [exact (proj2 (proj2 (proj1 (NoDup_app _ _) (st_nodup _ _ _ Hst))))|]. pose proof (st_types _ _ _ Hst) as Ht. rewrite Forall_forall in *.
  intros i Hi. destruct (linked_here x F i (st_free _ _ _ Hst) Hi) as (Hh & s & Hs). split; [exact (Ht i Hi)|]. split; [exact Hh|eauto].
Qed.

Lemma chain_count x l : linked x l → NoDup l → length l ≤ chain_fuel x.
Proof.
  intros Hl Hnd. destruct l as [|a l]; [cbn; lia|]. unfold chain_fuel. cbn [length]. apply le_n_S. apply NoDup_cons in Hnd as [_ Hnd]. apply (ovf_count x l Hnd).
  destruct Hl as (_ & _ & Ht & Hl). rewrite Forall_forall in *. intros i Hi. destruct (linked_here x l i Hl Hi) as (Hh & s & Hs). split; [exact (Ht i Hi)|]. split; [exact Hh|eauto].
Qed.

Lemma free_bound x L F n : store x L F → (Z.of_nat (length (oSlots x)) < 2 ^ 32)%Z → (Z.of_nat n ≤ 2 ^ 33)%Z → (numFreeSlots x + Z.of_nat n < 2 ^ 63)%Z.
Proof. intros Hst Hs Hn. pose proof (free_count x L F Hst). pose proof (st_count _ _ _ Hst). pose proof lost_range. lia. Qed.

(** ** Appending to a bucket *)

Lemma insert_as_place (k : K) i n v f x :
  (if n <? CAP then insert k i n v f else insertToNewOvfSlot k i v f) x = (place_for i n ≫= λ q : SlotInfo * nat, insert k (q.1) (q.2) v f) x.
Proof.
  unfold place_for, insertToNewOvfSlot. destruct (Nat.ltb_spec n CAP) as [H|H].
  - rewrite (proj2 (Nat.leb_gt _ _)) by exact H. reflexivity.
  - rewrite (proj2 (Nat.leb_le _ _)) by exact H. unfold mbind, M_bind. destruct (allocateAOSlot x) as [[o|] x1]; [|reflexivity].
    destruct (on_slot i (set_next o) x1) as [[u|] x2]; reflexivity.
Qed.

Lemma chain_insert_ok x l L F es i (k : K) v :
  store x (l ++ L) F → bucket x l es → last l = Some i → (Z.of_nat (length (oSlots x)) < 2 ^ 32)%Z →
  let n := length es - (length l - 1) * CAP in let f := getFingerprintForHash (hash k) in
  ∃ x' l' F', (if n <? CAP then insert k i n v f else insertToNewOvfSlot k i v f) x = (Ok tt, x') ∧ bucket x' l' (es ++ [MkEntry k v]) ∧
    store x' (l' ++ L) F' ∧ agree L x x' ∧ same_shape x x' 1 ∧ head l' = head l.
Proof.
  intros Hst Hb Hlast Hsize. cbn zeta. rewrite insert_as_place.
  destruct (place_ok x l L F es i Hst Hb Hlast Hsize) as (i' & p & x1 & l' & F' & Hrun & Hst1 & Hr1 & Hlast1 & Hp & Hlen & Ha1 & Hss & Hhd & _).
  rewrite (M_bind_ok _ _ _ _ _ Hrun). cbn [fst snd]. destruct (last_split l' i' Hlast1) as [Hi' _].
  destruct (row_slot x1 l' es _ i' Hr1 Hi') as (s & Hs & _). unfold insert, ku_assert. rewrite Z.eqb_refl, (M_bind_ok (mret tt) _ x1 tt x1 eq_refl).
  destruct (push_here x1 l' L F' es i' s (MkEntry k v) p Hst1 Hr1 Hlast1 Hs Hlen Hp) as (Hb2 & Hst2 & Ha2).
  eexists _, l', F'. split; [apply (on_slot_run i' _ s x1 Hs)|]. split; [exact Hb2|]. split; [exact Hst2|].
  split; [exact (agree_trans _ _ _ _ Ha1 Ha2)|]. split; [exact (same_shape_trans _ _ _ 1 0 Hss (same_shape_put x1 i' _))|exact Hhd].
Qed.
End Grow.

(** * Removing entries of a bucket

    [deleteKey] puts the last entry of a bucket in the place of the removed one, and frees the slots that are
    empty after that. *)

Section Remove.
Context {K : Type} `{HK : IndexHashable K} `{Hok : !IndexHashableOk K} `{Hlost : LostSlots}.

Abbreviation CAP := (SLOT_CAPACITY K).
Abbreviation Index := (InMemHashIndex K).
Implicit Types (x : Index) (i j o : SlotInfo) (l L F : list SlotInfo) (es : list (SlotEntry K)) (e : SlotEntry K).

(** ** Lists *)

Lemma filled_set es e g n : g < length es → <[g := Some e]> (filled es n) = filled (<[g := e]> es) n.
Proof.
  intros Hg. unfold filled. rewrite insert_app_l by (rewrite length_map; exact Hg). rewrite length_insert. f_equal.
  symmetry. apply list_fmap_insert.
Qed.

Lemma filled_pop es n : 0 < length es ≤ n → <[length es - 1 := None]> (filled es n) = filled (take (length es - 1) es) n.
Proof.
  intros Hl. apply list_eq. intros p. assert (Ht : length (take (length es - 1) es) = length es - 1) by (rewrite length_take; lia).
  destruct (Nat.lt_ge_cases p n) as [Hp|Hp].
  - rewrite (filled_lookup (take _ _)) by lia. destruct (decide (p = length es - 1)) as [->|Hne].
    + rewrite list_lookup_insert_eq by (rewrite filled_length; lia). f_equal. symmetry. apply lookup_ge_None_2. lia.
    + rewrite list_lookup_insert_ne, filled_lookup by lia. f_equal. destruct (Nat.lt_ge_cases p (length es - 1)).
      * symmetry. apply lookup_take_lt. lia.
      * rewrite !lookup_ge_None_2 by lia. reflexivity.
  - rewrite !lookup_ge_None_2; [reflexivity|rewrite filled_length; lia|rewrite length_insert, filled_length; lia].
Qed.

(** A list without the element at [g]: the last one takes its place. *)
Definition swap_remove (g : nat) es : list (SlotEntry K) :=
  take (length es - 1) (match es !! (length es - 1) with Some e => <[g := e]> es | None => es end).

Lemma swap_remove_perm g es e : es !! g = Some e → es ≡ₚ e :: swap_remove g es.
Proof.
  intros Hg. apply lookup_lt_Some in Hg as Hlt. unfold swap_remove. destruct (lookup_lt_is_Some_2 es (length es - 1)) as [a Ha]; [lia|]. rewrite Ha.
  assert (Hes : es = take (length es - 1) es ++ [a]) by (rewrite <- (firstn_all es) at 1; replace (length es) with (S (length es - 1)) at 1 by lia; apply take_S_r, Ha).
  destruct (decide (g = length es - 1)) as [->|Hne].
  - rewrite take_insert_ge by lia. rewrite Hg in Ha. injection Ha as ->. rewrite Hes at 1. rewrite Permutation_app_comm. reflexivity.
  - rewrite take_insert_lt by lia. set (r := take (length es - 1) es) in *. assert (Hr : r !! g = Some e) by (unfold r; rewrite lookup_take_lt by lia; exact Hg).
    apply lookup_lt_Some in Hr as Hrl. rewrite Hes at 1. rewrite Permutation_app_comm. cbn [app].
    rewrite <- (take_drop_middle r g e Hr) at 1. rewrite (insert_take_drop r g a Hrl). rewrite <- !Permutation_middle. apply Permutation_swap.
Qed.

Lemma swap_remove_length g es : length (swap_remove g es) = length es - 1.
Proof. unfold swap_remove. destruct (es !! (length es - 1)); rewrite length_take, ?length_insert; lia. Qed.

(** ** Writing one cell of a chain *)

Lemma cell_write x l L F m i s s' p c :
  store x (l ++ L) F → linked x l → l !! m = Some i → slot_at i x = Some s → p < CAP → slot_ok s' → view s' = <[p := c]> (view s) →
  nextOvfSlotId (header s') = nextOvfSlotId (header s) →
  let x' := put_slot i s' x in
  linked x' l ∧ chain_view x' l = <[m * CAP + p := c]> (chain_view x l) ∧ store x' (l ++ L) F ∧ agree L x x' ∧ same_shape x x' 0.
Proof.
  intros Hst Hl Hi Hs Hp Hso Hv Hn. cbn zeta. destruct (store_app_here x l L F Hst) as (Hh & HhL & Hnd & Hdis).
  assert (Hin : i ∈ l) by (apply list_elem_of_lookup; eauto). assert (Hih : here i) by (rewrite Forall_forall in Hh; exact (Hh i Hin)).
  split; [exact (linked_put x l i s s' Hs Hih Hn Hl)|]. split; [exact (chain_view_put x l m i s s' p c Hnd Hh Hi Hs Hp Hv)|]. split; [|split].
  - apply (store_put x (l ++ L) F i _ s Hst); [apply elem_of_app; auto|exact Hs|exact Hso].
  - exact (agree_put L x i _ s Hs Hih HhL (Hdis i Hin)).
  - apply same_shape_put.
Qed.

Lemma row_write x l L F es es' m i s s' p c :
  store x (l ++ L) F → row x l es → l !! m = Some i → slot_at i x = Some s → p < CAP → slot_ok s' → view s' = <[p := c]> (view s) →
  nextOvfSlotId (header s') = nextOvfSlotId (header s) → <[m * CAP + p := c]> (filled es (length l * CAP)) = filled es' (length l * CAP) →
  length es' ≤ length l * CAP →
  let x' := put_slot i s' x in row x' l es' ∧ store x' (l ++ L) F ∧ agree L x x' ∧ same_shape x x' 0.
Proof.
  intros Hst [Hl Hnd Hrv _] Hi Hs Hp Hso Hv Hn Hf Hlen. destruct (cell_write x l L F m i s s' p c Hst Hl Hi Hs Hp Hso Hv Hn) as (H1 & H2 & H3 & H4 & H5).
  split; [|auto]. split; try assumption. rewrite H2, Hrv. exact Hf.
Qed.

Lemma row_set x l L F es m i s p e :
  store x (l ++ L) F → row x l es → l !! m = Some i → slot_at i x = Some s → p < CAP → m * CAP + p < length es →
  let x' := put_slot i (put_entry p e (fp e) s) x in row x' l (<[m * CAP + p := e]> es) ∧ store x' (l ++ L) F ∧ agree L x x' ∧ same_shape x x' 0.
Proof.
  intros Hst Hr Hi Hs Hp Hg. destruct (row_slot x l es m i Hr Hi) as (s0 & Hs0 & Hih & _). rewrite Hs in Hs0. injection Hs0 as <-.
  assert (Hso : slot_ok s) by exact (st_slots _ _ _ Hst i s Hih Hs).
  apply (row_write x l L F es _ m i s _ p (Some e) Hst Hr Hi Hs Hp (slot_ok_put s p e Hso Hp) (view_put s p e _ Hso Hp) eq_refl).
  - apply filled_set, Hg.
  - rewrite length_insert. apply Hr.
Qed.

Lemma row_pop x l L F es m i s p :
  store x (l ++ L) F → row x l es → l !! m = Some i → slot_at i x = Some s → p < CAP → S (m * CAP + p) = length es →
  let x' := put_slot i (drop_entry p s) x in row x' l (take (length es - 1) es) ∧ store x' (l ++ L) F ∧ agree L x x' ∧ same_shape x x' 0.
Proof.
  intros Hst Hr Hi Hs Hp Hg. destruct (row_slot x l es m i Hr Hi) as (s0 & Hs0 & Hih & _). rewrite Hs in Hs0. injection Hs0 as <-.
  assert (Hso : slot_ok s) by exact (st_slots _ _ _ Hst i s Hih Hs). pose proof (rw_length _ _ _ Hr).
  apply (row_write x l L F es _ m i s _ p None Hst Hr Hi Hs Hp (slot_ok_drop s p Hso Hp) (view_drop s p Hso Hp) eq_refl).
  - replace (m * CAP + p) with (length es - 1) by lia. apply filled_pop. lia.
  - rewrite length_take. lia.
Qed.

(** ** Moving the last entry *)

Lemma bucket_last_count x l es j s :
  slots_ok x → row x l es → last l = Some j → slot_at j x = Some s → (length l - 1) * CAP ≤ length es →
  numEntries (header s) = length es - (length l - 1) * CAP.
Proof.
  intros Hx Hr Hj Hs Hlen. destruct (last_split l j Hj) as [Hk Hpos]. destruct (row_slot x l es _ j Hr Hk) as (s' & Hs' & Hh & _ & Hv).
  rewrite Hs in Hs'. injection Hs' as <-. destruct (slot_count s es _ (Hx j s Hh Hs) Hv) as [-> _]. pose proof (rw_length _ _ _ Hr). nia.
Qed.

Lemma move_last_ok x l L F es m i j p e :
  store x (l ++ L) F → bucket x l es → l !! m = Some i → last l = Some j → p < CAP → es !! (m * CAP + p) = Some e →
  ∃ x', move_last i j p x = (Ok tt, x') ∧ row x' l (swap_remove (m * CAP + p) es) ∧ store x' (l ++ L) F ∧ agree L x x' ∧ same_shape x x' 0.
Proof.
  intros Hst Hb Hi Hj Hp Hg. pose proof Hb as [Hr Ht]. destruct (last_split l j Hj) as [Hk Hpos]. apply lookup_lt_Some in Hg as Hlt. apply lookup_lt_Some in Hi as Hm.
  pose proof (rw_length _ _ _ Hr) as Hlen. assert (Hge : (length l - 1) * CAP < length es) by (destruct Ht as [Ht|Ht]; [rewrite Ht; lia|lia]).
  destruct (row_slot x l es _ j Hr Hk) as (s & Hs & Hjh & _ & Hv). pose proof (st_slots _ _ _ Hst j s Hjh Hs) as Hso.
  destruct (row_slot x l es _ i Hr Hi) as (t & Hti & Hih & _ & _).
  unfold move_last. rewrite (M_bind_ok _ _ _ _ _ (getSlot_run j s x Hs)), (bucket_last_count x l es j s (st_slots _ _ _ Hst) Hr Hj Hs ltac:(lia)).
  assert (Hl1 : length l * CAP = (length l - 1) * CAP + CAP) by (destruct (length l) as [|n]; [lia|]; replace (S n - 1) with n by lia; lia).
  assert (Hq : 0 < length es - (length l - 1) * CAP ≤ CAP) by lia. assert (Hqd : (length l - 1) * CAP + (length es - (length l - 1) * CAP) = length es) by lia.
  set (q := length es - (length l - 1) * CAP) in *. clearbody q. unfold swap_remove. destruct (lookup_lt_is_Some_2 es (length es - 1)) as [a Ha]; [lia|]. rewrite Ha.
  destruct (negb (bool_decide (j = i)) || negb (Z.of_nat p =? Z.of_nat q - 1)%Z) eqn:Hc.
  - unfold ku_assert. rewrite (proj2 (Nat.ltb_lt _ _)) by lia. rewrite (M_bind_ok (mret tt) _ x tt x eq_refl).
    pose proof (slot_content s es _ (q - 1) Hso Hv ltac:(lia)) as Hcell. replace ((length l - 1) * CAP + (q - 1)) with (length es - 1) in Hcell by lia. rewrite Ha in Hcell.
    rewrite (so_fp _ Hso _ _ Hcell). unfold cell in Hcell. destruct (Z.testbit _ _); [|discriminate Hcell]. rewrite Hcell.
    rewrite (M_bind_ok _ _ _ _ _ (on_slot_run i (put_entry p a (fp a)) t x Hti)).
    destruct (row_set x l L F es m i t p a Hst Hr Hi Hti Hp Hlt) as (Hr1 & Hst1 & Ha1 & Hss1). set (x1 := put_slot i _ x) in *.
    destruct (row_slot x1 l _ _ j Hr1 Hk) as (s1 & Hs1 & _).
    destruct (row_pop x1 l L F _ (length l - 1) j s1 (q - 1) Hst1 Hr1 Hk Hs1 ltac:(lia)) as (Hr2 & Hst2 & Ha2 & Hss2); [rewrite length_insert; lia|].
    eexists. split; [apply (on_slot_run j _ s1 x1 Hs1)|]. rewrite length_insert in Hr2. split; [exact Hr2|]. split; [exact Hst2|].
    split; [exact (agree_trans _ _ _ _ Ha1 Ha2)|exact (same_shape_trans _ _ _ 0 0 Hss1 Hss2)].
  - apply orb_false_iff in Hc as [Hji Hpq]. apply negb_false_iff, bool_decide_eq_true in Hji as ->. apply negb_false_iff, Z.eqb_eq in Hpq.
    assert (m = length l - 1) as -> by exact (NoDup_lookup l _ _ i (rw_nodup _ _ _ Hr) Hi Hk).
    destruct (row_pop x l L F es _ i t p Hst Hr Hi Hti Hp ltac:(lia)) as (Hr1 & Hst1 & Ha1 & Hss1).
    eexists. split; [apply (on_slot_run i _ t x Hti)|]. rewrite take_insert_ge by (generalize dependent ((length l - 1) * CAP); lia). auto.
Qed.

(** The whole of [deleteKey] on a bucket, after the entry is found. *)
Lemma remove_ok x l L F es m i p e id :
  store x (l ++ L) F → bucket x l es → head l = Some (primary id) → l !! m = Some i → p < CAP → es !! (m * CAP + p) = Some e →
  (Z.of_nat (length (oSlots x)) < 2 ^ 32)%Z →
  ∃ x' l' F', (newIter ← last_slot (chain_fuel x) i; move_last i newIter p ;; s ← getSlot newIter;
      (if numEntries (header s) =? 0 then reclaimOverflowSlots (primary id) else mret tt) ;; mret true) x = (Ok true, x') ∧
    bucket x' l' (swap_remove (m * CAP + p) es) ∧ store x' (l' ++ L) F' ∧ agree L x x' ∧ same_shape x x' 0 ∧ head l' = head l.
Proof.
  intros Hst Hb Hhd Hi Hp He Hsize. pose proof Hb as [Hr Ht]. pose proof (chain_count x l (rw_linked _ _ _ Hr) (rw_nodup _ _ _ Hr)) as Hfuel.
  destruct (last_slot_ok x l (chain_fuel x) m i (rw_linked _ _ _ Hr) (rw_nodup _ _ _ Hr) Hi ltac:(lia)) as (j & Hrun & Hj). rewrite (M_bind_ok _ _ _ _ _ Hrun).
  destruct (move_last_ok x l L F es m i j p e Hst Hb Hi Hj Hp He) as (x1 & Hmove & Hr1 & Hst1 & Ha1 & Hss1). rewrite (M_bind_ok _ _ _ _ _ Hmove).
  set (es' := swap_remove _ es) in *. destruct (last_split l j Hj) as [Hk Hpos]. destruct (row_slot x1 l es' _ j Hr1 Hk) as (s & Hs & _). rewrite (M_bind_ok _ _ _ _ _ (getSlot_run j s x1 Hs)).
  apply lookup_lt_Some in He as Hlt. assert (Hlen' : length es' = length es - 1) by apply swap_remove_length.
  assert (Hge : (length l - 1) * CAP < length es) by (destruct Ht as [Ht|Ht]; [rewrite Ht; lia|lia]).
  rewrite (bucket_last_count x1 l es' j s (st_slots _ _ _ Hst1) Hr1 Hj Hs ltac:(lia)). destruct (Nat.eqb_spec (length es' - (length l - 1) * CAP) 0) as [E|E].
  - pose proof (ss_oSlots _ _ _ Hss1) as Hos. assert (Hfuel1 : length l ≤ chain_fuel x1) by (unfold chain_fuel in *; lia).
    assert (H0 : l !! 0 = Some (primary id)) by (destruct l; [discriminate Hhd|exact Hhd]).
    destruct (reclaim_ok x1 l es' L F 0 (primary id) Hst1 Hr1) as (x2 & Hrec & Hb2 & Hst2 & Ha2 & Hss2); try assumption.
    { rewrite Hhd. reflexivity. }
    { apply need_spec. }
    { apply (free_bound x1 (l ++ L) F (length l) Hst1); [lia|]. unfold chain_fuel in Hfuel1. lia. }
    eexists _, _, _. split; [rewrite (M_bind_ok _ _ _ _ _ Hrec); reflexivity|]. split; [exact Hb2|]. split; [exact Hst2|].
    split; [exact (agree_trans _ _ _ _ Ha1 Ha2)|]. split; [exact (same_shape_trans _ _ _ 0 0 Hss1 Hss2)|].
    destruct (need_spec es') as [N _]. destruct l as [|a l]; [cbn in Hpos; lia|]. destruct (need es'); [lia|reflexivity].
  - exists x1, l, F. split; [reflexivity|]. split; [split; [exact Hr1|right; lia]|]. auto.
Qed.
End Remove.

(** * Reserving overflow slots

    [reserveOverflowSlots] before a split: new slots behind the existing ones, and some of them put among the free
    slots. Chains are left alone. *)

Section Reserve.
Context {K : Type} `{HK : IndexHashable K} `{Hok : !IndexHashableOk K} `{Hlost : LostSlots}.

Abbreviation CAP := (SLOT_CAPACITY K).
Abbreviation Index := (InMemHashIndex K).
Implicit Types (x : Index) (i j o : SlotInfo) (l L F N : list SlotInfo) (es : list (SlotEntry K)) (e : SlotEntry K).

(** The overflow slots from [a] on. *)
Fixpoint ovf_from (a : Z) (n : nat) : list SlotInfo :=
  match n with 0 => [] | S n' => MkSlotInfo a OVF :: ovf_from (a + 1) n' end.

Lemma ovf_from_in a n o : o ∈ ovf_from a n ↔ slotType o = OVF ∧ (a ≤ slotId o < a + Z.of_nat n)%Z.
Proof.
  revert a. induction n as [|n IH]; intros a; cbn [ovf_from]; [rewrite elem_of_nil; lia|]. rewrite elem_of_cons, IH. destruct o as [b t]. cbn [slotId slotType]. split.
  - intros [E|H]; [injection E as -> ->|]; split; [reflexivity|lia|tauto|lia].
  - intros [-> H]. destruct (decide (b = a)) as [->|]; [left; reflexivity|right; split; [reflexivity|lia]].
Qed.

Lemma ovf_from_id a n b : MkSlotInfo b OVF ∈ ovf_from a n ↔ (a ≤ b < a + Z.of_nat n)%Z.
Proof. rewrite ovf_from_in. cbn. tauto. Qed.

Lemma ovf_from_nodup a n : NoDup (ovf_from a n).
Proof.
  revert a. induction n as [|n IH]; intros a; cbn [ovf_from]; constructor; [|apply IH]. rewrite ovf_from_id. lia.
Qed.

Lemma ovf_from_length a n : length (ovf_from a n) = n.
Proof. revert a. induction n as [|n IH]; intros a; cbn; [|rewrite IH]; reflexivity. Qed.

Lemma grown_slot_at x n i : here i →
  slot_at i (set_oSlots (oSlots x ++ replicate n Slot_new) x) =
    if bool_decide (i ∈ ovf_from (Z.of_nat (length (oSlots x))) n) then Some Slot_new else slot_at i x.
Proof.
  unfold here, slot_at. destruct i as [a []]; cbn [slotType slotId pSlots oSlots set_oSlots]; intros Ha.
  - rewrite bool_decide_eq_false_2; [reflexivity|]. rewrite ovf_from_in. cbn. intros [E _]. discriminate E.
  - destruct (Nat.lt_ge_cases (Z.to_nat a) (length (oSlots x))) as [H|H].
    + rewrite bool_decide_eq_false_2 by (rewrite ovf_from_id; lia). apply lookup_app_l, H.
    + rewrite lookup_app_r by exact H. destruct (Nat.lt_ge_cases (Z.to_nat a - length (oSlots x)) n) as [Hn|Hn].
      * rewrite bool_decide_eq_true_2 by (rewrite ovf_from_id; lia). apply lookup_replicate_2, Hn.
      * rewrite bool_decide_eq_false_2 by (rewrite ovf_from_id; lia). rewrite !lookup_ge_None_2 by (rewrite ?length_replicate; lia). reflexivity.
Qed.

(** New overflow slots belong to nobody else. *)
Lemma grow_ok x L F n :
  store x L F →
  let N := ovf_from (Z.of_nat (length (oSlots x))) n in let x' := set_oSlots (oSlots x ++ replicate n Slot_new) x in
  store x' (N ++ L) F ∧ agree L x x' ∧ (∀ o, o ∈ N → slot_at o x' = Some Slot_new) ∧ same_shape x x' n.
Proof.
  intros Hst. cbn zeta. set (N := ovf_from _ n). set (x' := set_oSlots _ x). pose proof Hst as [H1 H2 H3 H4 H5 H6 H7 H8].
  assert (Hout : ∀ i, i ∈ L ∨ i ∈ F → i ∉ N).
  { intros i Hi HN. apply ovf_from_in in HN as [Ht Hr]. pose proof (owned_in_range x L F i Hst Hi Ht). lia. }
  assert (Hat : ∀ i, here i → slot_at i x' = if bool_decide (i ∈ N) then Some Slot_new else slot_at i x) by (intros i Hi; apply grown_slot_at, Hi).
  assert (Hnew : ∀ o, o ∈ N → slot_at o x' = Some Slot_new).
  { intros o Ho. rewrite Hat, bool_decide_eq_true_2 by (exact Ho || (apply ovf_from_in in Ho; unfold here; lia)). reflexivity. }
  assert (Hold : ∀ l, Forall here l → (∀ i, i ∈ l → i ∉ N) → agree l x x').
  { intros l Hl HN i Hi. rewrite Forall_forall in Hl. rewrite Hat, bool_decide_eq_false_2 by auto. reflexivity. }
  assert (HaL : agree L x x') by (apply Hold; [apply (Forall_impl _ _ _ H3); tauto|auto]).
  assert (HaF : agree F x x') by (apply Hold; [exact (linked_all_here x F H4)|auto]).
  split; [split|split; [exact HaL|split; [exact Hnew|]]]; try assumption.
  - intros i s Hi Hs. rewrite Hat in Hs by exact Hi. destruct (bool_decide (i ∈ N)); [injection Hs as <-; apply slot_ok_new|exact (H1 i s Hi Hs)].
  - rewrite <- app_assoc. apply NoDup_app. split; [apply ovf_from_nodup|]. split; [|exact H2]. intros i HN Hi. apply elem_of_app in Hi. exact (Hout i Hi HN).
  - apply Forall_app. split; rewrite Forall_forall in *; intros i Hi.
    + split; [apply ovf_from_in in Hi; unfold here; lia|]. rewrite (Hnew i Hi). eauto.
    + rewrite (HaL i Hi). exact (H3 i Hi).
  - exact (linked_agree x x' F HaF H4).
  - exact (empty_agree x x' F HaF H7).
  - split; [exists (firstFreeOverflowSlotId (indexHeader x)); symmetry; apply set_firstFree_same|reflexivity|]. cbn [x' oSlots set_oSlots]. rewrite length_app, length_replicate. lia.
Qed.

Lemma store_drop x N L F : store x (N ++ L) F → store x L F.
Proof.
  intros [H1 H2 H3 H4 H5 H6 H7 H8]. split; try assumption; [|apply Forall_app in H3 as [_ H3]; exact H3].
  rewrite <- app_assoc in H2. apply NoDup_app in H2 as (_ & _ & H2). exact H2.
Qed.

(** The loop that frees new slots ends, and frees only new slots. *)
Lemma free_new_ok total L : ∀ fuel n (r : nat) x F a,
  store x (ovf_from a n ++ L) F → (∀ o, o ∈ ovf_from a n → slot_at o x = Some Slot_new) → (numFreeSlots x + Z.of_nat n)%Z = total → n ≤ fuel →
  (0 ≤ a)%Z → (a + Z.of_nat n < INVALID_OVERFLOW_SLOT_ID)%Z → (total < 2 ^ 63)%Z →
  ∃ x' F', free_new_slots fuel r total a x = (Ok tt, x') ∧ store x' L F' ∧ agree L x x' ∧ same_shape x x' 0.
Proof.
  intros fuel. induction fuel as [|fuel IH]; intros n r x F a Hst Hnew Htot Hf Ha Hend Hbig; pose proof (st_count _ _ _ Hst) as Hcount; pose proof lost_range as Hlr; cbn [free_new_slots];
    rewrite (M_bind_ok get_state _ x x x eq_refl), uwrap_small by lia; destruct (Z.ltb_spec (Z.of_nat r) (total - numFreeSlots x)) as [Hc|Hc].
  - lia.
  - exists x, F. split; [reflexivity|]. split; [exact (store_drop _ _ _ _ Hst)|]. split; [intros j _; reflexivity|apply same_shape_refl].
  - destruct n as [|n]; [lia|]. cbn [ovf_from app] in Hst, Hnew.
    destruct (addFree_ok x (ovf_from (a + 1) n ++ L) F (MkSlotInfo a OVF) Slot_new Hst (Hnew _ ltac:(left)) eq_refl) as (x1 & Hrun & Hst1 & Ha1 & Hss1 & Hnf1); try reflexivity.
    { cbn [slotId]. lia. }
    { apply view_new. }
    { lia. }
    rewrite (M_bind_ok _ _ _ _ _ Hrun). apply agree_app in Ha1 as [HaN HaL].
    destruct (IH n (S r) x1 _ (a + 1)%Z Hst1) as (x2 & F2 & Hrun2 & Hst2 & Ha2 & Hss2); try lia.
    { intros o Ho. rewrite (HaN o Ho). apply Hnew. right. exact Ho. }
    exists x2, F2. split; [exact Hrun2|]. split; [exact Hst2|]. split; [exact (agree_trans _ _ _ _ HaL Ha2)|exact (same_shape_trans _ _ _ 0 0 Hss1 Hss2)].
  - exists x, F. split; [reflexivity|]. split; [exact (store_drop _ _ _ _ Hst)|]. split; [intros j _; reflexivity|apply same_shape_refl].
Qed.

Lemma reserveOverflow_ok x L F n :
  store x L F → (Z.of_nat (length (oSlots x)) + Z.of_nat n < 2 ^ 32)%Z →
  ∃ x' F', reserveOverflowSlots n x = (Ok tt, x') ∧ store x' L F' ∧ agree L x x' ∧ same_shape x x' n.
Proof.
  intros Hst Hsize. unfold reserveOverflowSlots. rewrite (M_bind_ok get_state _ x x x eq_refl). destruct (Z.ltb_spec (numFreeSlots x) (Z.of_nat n)) as [Hc|Hc].
  - set (c := Z.to_nat _). destruct (grow_ok x L F c Hst) as (Hst1 & Ha1 & Hnew & Hss1). set (x1 := set_oSlots _ x) in *.
    rewrite (M_bind_ok (put_state x1) _ x tt x1 eq_refl). pose proof (st_count _ _ _ Hst). pose proof lost_range.
    destruct (free_new_ok (Z.of_nat n) L n c 0 x1 F _ Hst1 Hnew) as (x2 & F2 & Hrun & Hst2 & Ha2 & Hss2); cbn [x1 numFreeSlots set_oSlots]; unfold INVALID_OVERFLOW_SLOT_ID in *; try lia.
    exists x2, F2. split; [exact Hrun|]. split; [exact Hst2|]. split; [exact (agree_trans _ _ _ _ Ha1 Ha2)|].
    apply (same_shape_weaken _ _ (c + 0)); [exact (same_shape_trans _ _ _ c 0 Hss1 Hss2)|lia].
  - exists x, F. split; [reflexivity|]. split; [exact Hst|]. split; [intros j _; reflexivity|]. apply (same_shape_weaken _ _ 0); [apply same_shape_refl|lia].
Qed.
End Reserve.
