(* ===== verification/HashSplit.v ===== *)
(** * Splitting a slot

    The loop of [splitSlot]: entries of the original chain whose hash has the next bit set go to the new chain, the others
    close up to the front of the original chain. The loop ends with two chains without gaps that hold the entries of the
    original one. *)

From stdpp Require Import base numbers list strings.
From Stdlib Require Import ZArith Lia.
From S2P Require Import Prelude HashSlot HashSlotSpec InMemHashIndex HashChain HashGrow.
Import HashSlot InMemHashIndex.

Section Split.
Context {K : Type} `{HK : IndexHashable K} `{Hok : !IndexHashableOk K} `{Hlost : LostSlots}.

Abbreviation CAP := (SLOT_CAPACITY K).
Abbreviation Index := (InMemHashIndex K).
Implicit Types (x : Index) (i j o : SlotInfo) (l L F : list SlotInfo) (es : list (SlotEntry K)) (e : SlotEntry K).

(** ** Cells *)

Definition cells x l (f : nat → option (SlotEntry K)) : Prop := ∀ q, q < length l * CAP → chain_view x l !! q = Some (f q).

Lemma row_cells x l es : linked x l → NoDup l → length es ≤ length l * CAP → cells x l (λ q, es !! q) → row x l es.
Proof.
  intros Hl Hnd Hlen Hc. split; try assumption. apply list_eq. intros q. destruct (Nat.lt_ge_cases q (length l * CAP)) as [Hq|Hq].
  - rewrite (Hc q Hq), filled_lookup by assumption. reflexivity.
  - rewrite !lookup_ge_None_2; [reflexivity|rewrite filled_length; lia|rewrite chain_view_length; lia].
Qed.

Lemma cells_row x l es : row x l es → cells x l (λ q, es !! q).
Proof. intros Hr q Hq. rewrite (rw_view _ _ _ Hr), filled_lookup; [reflexivity|apply Hr|exact Hq]. Qed.

Lemma cells_ext x l f f' : (∀ q, q < length l * CAP → f q = f' q) → cells x l f → cells x l f'.
Proof. intros H Hc q Hq. rewrite (Hc q Hq), (H q Hq). reflexivity. Qed.

Lemma cells_agree x x' l f : agree l x x' → cells x l f → cells x' l f.
Proof. intros Ha Hc q Hq. rewrite (chain_view_agree x x' l Ha). exact (Hc q Hq). Qed.

Lemma cell_lt l k p : k < length l → p < CAP → k * CAP + p < length l * CAP.
Proof. intros Hk Hp. nia. Qed.

Lemma chain_cell x l k i s p : l !! k = Some i → slot_at i x = Some s → p < CAP → chain_view x l !! (k * CAP + p) = Some (cell s p).
Proof.
  revert k. induction l as [|a l IH]; intros k Hk Hs Hp; [discriminate Hk|]. unfold chain_view. cbn [map concat]. fold (chain_view x l). destruct k as [|k]; cbn in Hk.
  - injection Hk as ->. rewrite Hs. cbn [Nat.mul Nat.add]. rewrite lookup_app_l by (rewrite view_length; exact Hp). apply view_lookup, Hp.
  - assert (Hlen : length (match slot_at a x with Some s0 => view s0 | None => replicate CAP None end) = CAP) by (destruct (slot_at a x); [apply view_length|apply length_replicate]).
    rewrite lookup_app_r, Hlen by (rewrite Hlen; cbn; lia). replace (S k * CAP + p - CAP) with (k * CAP + p) by (cbn; lia). exact (IH k Hk Hs Hp).
Qed.

Lemma cells_cell x l f k i s p : cells x l f → l !! k = Some i → slot_at i x = Some s → p < CAP → cell s p = f (k * CAP + p).
Proof.
  intros Hc Hk Hs Hp. apply lookup_lt_Some in Hk as Hlt. pose proof (Hc _ (cell_lt l k p Hlt Hp)) as H. rewrite (chain_cell x l k i s p Hk Hs Hp) in H. congruence.
Qed.

Lemma valid_cell s p : slot_ok s → p < CAP → isEntryValid p (header s) = bool_decide (is_Some (cell s p)).
Proof.
  intros Hs Hp. rewrite isEntryValid_bit. destruct (Z.testbit _ _) eqn:E.
  - rewrite bool_decide_eq_true_2; [reflexivity|]. apply slot_bit; assumption.
  - rewrite bool_decide_eq_false_2; [reflexivity|]. intros H. apply (slot_bit s p Hs Hp) in H. congruence.
Qed.

(** A write changes one cell. *)
Lemma cells_write x l L F f m i s s' p c :
  store x (l ++ L) F → linked x l → cells x l f → l !! m = Some i → slot_at i x = Some s → p < CAP → slot_ok s' → view s' = <[p := c]> (view s) →
  nextOvfSlotId (header s') = nextOvfSlotId (header s) →
  let x' := put_slot i s' x in
  linked x' l ∧ cells x' l (λ q, if decide (q = m * CAP + p) then c else f q) ∧ store x' (l ++ L) F ∧ agree L x x' ∧ same_shape x x' 0.
Proof.
  intros Hst Hl Hc Hi Hs Hp Hso Hv Hn. destruct (cell_write x l L F m i s s' p c Hst Hl Hi Hs Hp Hso Hv Hn) as (H1 & H2 & H3 & H4 & H5).
  split; [exact H1|]. split; [|auto]. intros q Hq. rewrite H2. destruct (decide (q = m * CAP + p)) as [->|Hne].
  - apply list_lookup_insert_eq. rewrite chain_view_length. exact Hq.
  - rewrite list_lookup_insert_ne by congruence. exact (Hc q Hq).
Qed.

(** [find_gap] passes the valid cells. *)
Lemma find_gap_ok x l f t : ∀ fuel a i p,
  slots_ok x → linked x l → NoDup l → cells x l f → l !! a = Some i → p < CAP → a * CAP + p ≤ t → t < length l * CAP → t ≤ a * CAP + p + fuel →
  (∀ q, a * CAP + p ≤ q < t → is_Some (f q)) → f t = None →
  ∃ a' i' p', find_gap fuel i p x = (Ok (i', p'), x) ∧ l !! a' = Some i' ∧ p' < CAP ∧ a' * CAP + p' = t.
Proof.
  intros fuel. induction fuel as [|fuel IH]; intros a i p Hx Hl Hnd Hc Ha Hp Hle Ht Hf Hfull Hnone;
    destruct (linked_here x l i Hl ltac:(apply list_elem_of_lookup; eauto)) as (Hh & s & Hs);
    assert (Hv : isEntryValid p (header s) = bool_decide (is_Some (f (a * CAP + p)))) by (rewrite valid_cell, (cells_cell x l f a i s p Hc Ha Hs Hp) by (exact Hp || exact (Hx i s Hh Hs)); reflexivity);
    cbn [find_gap]; rewrite (M_bind_ok _ _ _ _ _ (getSlot_run i s x Hs)), Hv.
  - assert (t = a * CAP + p) as -> by lia. rewrite Hnone, bool_decide_eq_false_2 by apply is_Some_None. exists a, i, p. auto.
  - destruct (decide (t = a * CAP + p)) as [->|Hne].
    + rewrite Hnone, bool_decide_eq_false_2 by apply is_Some_None. exists a, i, p. auto.
    + rewrite bool_decide_eq_true_2 by (apply Hfull; lia). destruct (Nat.leb_spec CAP (S p)) as [Hend|Hin].
      * assert (Hsa : S a < length l) by nia. destruct (lookup_lt_is_Some_2 l (S a) Hsa) as [i' Hi']. rewrite (M_bind_ok _ _ _ _ _ (next_run x l a i Hl Hnd Ha)), Hi'.
        apply (IH (S a) i' 0 Hx Hl Hnd Hc Hi'); try assumption; try (cbn; lia). intros q Hq. apply Hfull. cbn in Hq. lia.
      * apply (IH a i (S p) Hx Hl Hnd Hc Ha); try assumption; try lia. intros q Hq. apply Hfull. lia.
Qed.
(** ** The loop *)

Section Loop.
Variable stay : SlotEntry K → bool.

Definition kept es g : list (SlotEntry K) := filter (λ e, stay e = true) (take g es).
Definition moved es g : list (SlotEntry K) := filter (λ e, stay e = false) (take g es).

Lemma kept_stay es g e : es !! g = Some e → stay e = true → kept es (S g) = kept es g ++ [e] ∧ moved es (S g) = moved es g.
Proof.
  intros He Hs. unfold kept, moved. rewrite (take_S_r es g e He), !filter_app, !filter_cons, decide_True, decide_False, !filter_nil, app_nil_r by congruence. auto.
Qed.
Lemma kept_move es g e : es !! g = Some e → stay e = false → kept es (S g) = kept es g ∧ moved es (S g) = moved es g ++ [e].
Proof.
  intros He Hs. unfold kept, moved. rewrite (take_S_r es g e He), !filter_app, !filter_cons, decide_False, decide_True, !filter_nil, app_nil_r by congruence. auto.
Qed.

Lemma kept_moved_length es g : g ≤ length es → length (kept es g) + length (moved es g) = g.
Proof.
  induction g as [|g IH]; intros Hg; [reflexivity|]. destruct (lookup_lt_is_Some_2 es g Hg) as [e He]. specialize (IH ltac:(lia)). destruct (stay e) eqn:Hs.
  - destruct (kept_stay es g e He Hs) as [-> ->]. rewrite length_app. cbn. lia.
  - destruct (kept_move es g e He Hs) as [-> ->]. rewrite length_app. cbn. lia.
Qed.

Lemma kept_moved_perm es g : length es ≤ g → es ≡ₚ kept es g ++ moved es g.
Proof.
  intros Hg. unfold kept, moved. rewrite take_ge by exact Hg. induction es as [|e es IH]; [reflexivity|]. destruct (stay e) eqn:Hs.
  - rewrite !filter_cons, decide_True, decide_False by congruence. cbn [app]. constructor. apply IH. cbn in Hg. lia.
  - rewrite !filter_cons, decide_False, decide_True by congruence. rewrite <- Permutation_middle. constructor. apply IH. cbn in Hg. lia.
Qed.

(** The cells while the entries before [g] are distributed. *)
Definition midway es g (q : nat) : option (SlotEntry K) := if decide (q < g) then kept es g !! q else es !! q.

Record splitting (x0 x : Index) (st : SplitState) l l2 L F es (k g : nat) : Prop := {
  sp_store : store x (l ++ l2 ++ L) F;
  sp_linked : linked x l;
  sp_done : g ≤ length es ≤ length l * CAP;
  sp_cells : cells x l (midway es g);
  sp_new : bucket x l2 (moved es g);
  sp_original : l !! k = Some (originalSlot st);
  sp_last : last l2 = Some (newSlot st);
  sp_pos : newSlotPos st = length (moved es g) - (length l2 - 1) * CAP;
  sp_gaps : gaps st = bool_decide (length (kept es g) < g);
  sp_cursor : ∃ a, l !! a = Some (originalSlotForInsert st) ∧ entryPosToInsert st < CAP ∧
    (a * CAP + entryPosToInsert st = 0 ∨ a * CAP + entryPosToInsert st < length (kept es g));
  sp_shape : same_shape x0 x (length l2 - 1);
  sp_agree : agree L x0 x;
  sp_next : k * CAP ≤ g ≤ S k * CAP;
}.

Lemma sp_nodup x0 x st l l2 L F es k g : splitting x0 x st l l2 L F es k g → NoDup l.
Proof. intros H. exact (proj1 (proj2 (proj2 (store_app_here x l (l2 ++ L) F (sp_store _ _ _ _ _ _ _ _ _ _ H))))). Qed.

(** The slots before [g] have no gaps. *)
Lemma split_slot_count x0 x st l l2 L F es k g s :
  splitting x0 x st l l2 L F es k g → g = S k * CAP ∨ g = length es → slot_at (originalSlot st) x = Some s →
  numEntries (header s) = countr_one (validityMask (header s)).
Proof.
  intros H Hg Hs. pose proof (sp_original _ _ _ _ _ _ _ _ _ _ H) as Hk. destruct (linked_here x l _ (sp_linked _ _ _ _ _ _ _ _ _ _ H) ltac:(apply list_elem_of_lookup; eauto)) as [Hh _].
  pose proof (st_slots _ _ _ (sp_store _ _ _ _ _ _ _ _ _ _ H) _ s Hh Hs) as Hso. pose proof (sp_done _ _ _ _ _ _ _ _ _ _ H) as [Hd _].
  pose proof (kept_moved_length es g Hd) as Hkl. destruct (filled_numEntries s (take CAP (drop (k * CAP) (kept es g))) Hso) as [-> ->]; [|rewrite length_take; lia|reflexivity].
  apply slot_view_eq; [apply filled_length; rewrite length_take; lia|]. intros p Hp. rewrite filled_lookup by (rewrite ?length_take; lia).
  rewrite lookup_take_lt, lookup_drop by exact Hp. rewrite (cells_cell x l _ k _ s p (sp_cells _ _ _ _ _ _ _ _ _ _ H) Hk Hs Hp). unfold midway.
  destruct (decide (k * CAP + p < g)) as [Hlt|Hge]; [reflexivity|]. destruct Hg as [-> | ->]; [cbn in Hge; lia|]. rewrite !lookup_ge_None_2 by lia. reflexivity.
Qed.

Lemma midway_move es g e q : es !! g = Some e → stay e = false → midway es (S g) q = if decide (q = g) then None else midway es g q.
Proof.
  intros He Hs. unfold midway. destruct (kept_move es g e He Hs) as [-> _]. apply lookup_lt_Some in He as Hlt. pose proof (kept_moved_length es g ltac:(lia)) as Hk.
  destruct (decide (q = g)) as [->|Hne]; [rewrite decide_True by lia; apply lookup_ge_None_2; lia|].
  destruct (decide (q < S g)), (decide (q < g)); try lia; reflexivity.
Qed.

Lemma midway_close es g e q :
  es !! g = Some e → stay e = true → length (kept es g) < g →
  midway es (S g) q = if decide (q = g) then None else if decide (q = length (kept es g)) then Some e else midway es g q.
Proof.
  intros He Hs Hgap. unfold midway. destruct (kept_stay es g e He Hs) as [-> _]. destruct (decide (q = g)) as [->|Hne].
  - rewrite decide_True by lia. apply lookup_ge_None_2. rewrite length_app. cbn. lia.
  - destruct (decide (q = length (kept es g))) as [->|Hne']; [rewrite decide_True by lia; apply list_lookup_middle; reflexivity|].
    destruct (decide (q < S g)), (decide (q < g)); try lia; try reflexivity. destruct (Nat.lt_ge_cases q (length (kept es g))).
    + apply lookup_app_l. lia.
    + rewrite !lookup_ge_None_2; [reflexivity|lia|rewrite length_app; cbn; lia].
Qed.

Lemma midway_same es g e q : es !! g = Some e → stay e = true → g = length (kept es g) → midway es (S g) q = midway es g q.
Proof.
  intros He Hs Hg. unfold midway. destruct (kept_stay es g e He Hs) as [-> _]. destruct (decide (q < g)) as [H|H].
  - rewrite decide_True by lia. apply lookup_app_l. lia.
  - destruct (decide (q < S g)); [|reflexivity]. assert (q = g) as -> by lia. rewrite He. apply list_lookup_middle. exact Hg.
Qed.

Lemma store_rotate x l l2 L F : store x (l ++ l2 ++ L) F ↔ store x (l2 ++ l ++ L) F.
Proof. split; apply store_perm; rewrite !app_assoc, (Permutation_app_comm l l2); reflexivity. Qed.

(** The entry at [g] leaves its cell. *)
Lemma leave_cell x l L F f k i p :
  store x (l ++ L) F → linked x l → cells x l f → l !! k = Some i → p < CAP →
  ∃ x', on_slot i (drop_entry p) x = (Ok tt, x') ∧ linked x' l ∧ cells x' l (λ q, if decide (q = k * CAP + p) then None else f q) ∧ store x' (l ++ L) F ∧
    agree L x x' ∧ same_shape x x' 0.
Proof.
  intros Hst Hl Hc Hk Hp. destruct (linked_here x l i Hl ltac:(apply list_elem_of_lookup; eauto)) as (Hh & s & Hs). pose proof (st_slots _ _ _ Hst i s Hh Hs) as Hso.
  eexists. split; [apply (on_slot_run i _ s x Hs)|].
  exact (cells_write x l L F f k i s _ p None Hst Hl Hc Hk Hs Hp (slot_ok_drop s p Hso Hp) (view_drop s p Hso Hp) eq_refl).
Qed.

(** The place of a moved entry is the one [place_for] gives. *)
Lemma split_place x l2 es i i' p x' :
  row x' (l2 ++ [i']) es → last l2 = Some i → CAP ≤ p → place_for i p x = (Ok (i', 0), x') →
  (if CAP <=? p then newOvfSlotId ← allocateAOSlot; on_slot i (set_next newOvfSlotId) ;; next ← nextChainedSlot i;
     match next with Some i => mret (i, 0) | None => raise assert_failure end else mret (i, p)) x = (Ok (i', 0), x').
Proof.
  intros Hr Hlast Hp. unfold place_for. rewrite (proj2 (Nat.leb_le _ _) Hp). unfold mbind, M_bind. destruct (allocateAOSlot x) as [[o|] x1]; [|discriminate].
  destruct (on_slot i (set_next o) x1) as [[u|] x2]; [|discriminate]. cbn. intros E. injection E as Ei ->. destruct (last_split l2 i Hlast) as [Hi Hpos].
  rewrite (next_run x' (l2 ++ [i']) (length l2 - 1) i (rw_linked _ _ _ Hr) (rw_nodup _ _ _ Hr)) by (rewrite lookup_app_l by lia; exact Hi).
  replace (S (length l2 - 1)) with (length l2) by lia. rewrite list_lookup_middle by reflexivity. reflexivity.
Qed.

Lemma new_chain_short x0 x st l l2 L F es k g : splitting x0 x st l l2 L F es k g → length l2 - 1 ≤ length l.
Proof.
  intros H. pose proof (capacity_range (K := K)) as Hc. pose proof (sp_done _ _ _ _ _ _ _ _ _ _ H) as Hd. pose proof (kept_moved_length es g ltac:(lia)) as Hk.
  destruct (bk_tight _ _ _ (sp_new _ _ _ _ _ _ _ _ _ _ H)) as [Ht|[_ Ht]]; [lia|]. nia.
Qed.

Lemma move_ok x0 x st l l2 L F es k g p e :
  splitting x0 x st l l2 L F es k g → g = k * CAP + p → p < CAP → es !! g = Some e → stay e = false → (Z.of_nat (length (oSlots x0) + length l) < 2 ^ 32)%Z →
  ∃ st' x' l2' F', move_entry p e (fp e) st x = (Ok st', x') ∧ splitting x0 x' st' l l2' L F' es k (S g) ∧ head l2' = head l2.
Proof.
  intros H Hg Hp He Hs Hsize. pose proof (new_chain_short _ _ _ _ _ _ _ _ _ _ H) as Hshort. destruct H as [Hst Hl Hd Hc Hb Ho Hlast Hpos Hgaps Hcur Hss Hag Hnx].
  apply store_rotate in Hst. pose proof (ss_oSlots _ _ _ Hss) as Hos. destruct (last_split l2 _ Hlast) as [_ Hl2].
  destruct (place_ok x l2 (l ++ L) F (moved es g) (newSlot st) Hst Hb Hlast ltac:(lia)) as (i' & p' & x1 & l2' & F' & Hrun & Hst1 & Hr1 & Hlast1 & Hp' & Hlen & Ha1 & Hss1 & Hhd & Hcase).
  destruct (last_split l2' i' Hlast1) as [Hi' Hl2']. destruct (row_slot x1 l2' _ _ i' Hr1 Hi') as (s & Hs1 & _).
  destruct (push_here x1 l2' (l ++ L) F' (moved es g) i' s e p' Hst1 Hr1 Hlast1 Hs1 Hlen Hp') as (Hb2 & Hst2 & Ha2). set (x2 := put_slot i' _ x1) in *.
  pose proof (agree_trans _ _ _ _ Ha1 Ha2) as Ha. apply agree_app in Ha as [Hal HaL]. apply store_rotate in Hst2.
  destruct (leave_cell x2 l (l2' ++ L) F' _ k _ p Hst2 (linked_agree x x2 l Hal Hl) (cells_agree x x2 l _ Hal Hc) Ho Hp) as (x3 & Hrun3 & Hl3 & Hc3 & Hst3 & Ha3 & Hss3).
  apply agree_app in Ha3 as [Ha3 Ha3L]. destruct (kept_move es g e He Hs) as [Hk1 Hm1]. apply lookup_lt_Some in He as Hlt.
  exists (MkSplit (originalSlot st) (originalSlotForInsert st) (entryPosToInsert st) i' (S p') true), x3, l2', F'. split; [|split; [|exact Hhd]].
  - unfold move_entry. rewrite (M_bind_ok _ _ x (i', p') x1).
    + rewrite (M_bind_ok _ _ _ _ _ (on_slot_run i' _ s x1 Hs1)). fold x2. rewrite (M_bind_ok _ _ _ _ _ Hrun3). reflexivity.
    + rewrite <- Hpos in Hrun, Hcase. destruct Hcase as [(-> & -> & ->)|(-> & -> & Hfull)]; [|exact (split_place x l2 _ _ i' _ x1 Hr1 Hlast Hfull Hrun)].
      unfold place_for in Hrun. destruct (CAP <=? newSlotPos st) eqn:E; [|exact Hrun]. apply Nat.leb_le in E. nia.
  - split; cbn [originalSlot originalSlotForInsert entryPosToInsert newSlot newSlotPos gaps]; rewrite ?Hk1, ?Hm1; try assumption; try lia.
    + apply (cells_ext x3 l _ _ (λ q _, eq_sym (midway_move es g e q He Hs))). rewrite Hg in *. exact Hc3.
    + exact (bucket_agree x2 x3 l2' _ Ha3 Hb2).
    + rewrite length_app. cbn. lia.
    + symmetry. apply bool_decide_eq_true_2. pose proof (kept_moved_length es g ltac:(lia)). lia.
    + assert (Hss2 : same_shape x x2 (length l2' - length l2)).
      { destruct Hcase as [(-> & -> & _)|(-> & _)]; [rewrite Nat.sub_diag; apply same_shape_put|]. rewrite length_app. cbn [length].
        replace (length l2 + 1 - length l2) with (1 + 0) by lia. exact (same_shape_trans _ _ _ 1 0 Hss1 (same_shape_put x1 i' _)). }
      assert (length l2 ≤ length l2') by (destruct Hcase as [(-> & _)|(-> & _)]; rewrite ?length_app; cbn; lia).
      apply (same_shape_weaken _ _ (length l2 - 1 + (length l2' - length l2 + 0))); [|lia]. exact (same_shape_trans _ _ _ _ _ Hss (same_shape_trans _ _ _ _ 0 Hss2 Hss3)).
    + exact (agree_trans _ _ _ _ Hag (agree_trans _ _ _ _ HaL Ha3L)).
Qed.

Lemma close_ok x0 x st l l2 L F es k g p e fuel :
  splitting x0 x st l l2 L F es k g → g = k * CAP + p → p < CAP → es !! g = Some e → stay e = true → length (kept es g) < g → length l * CAP ≤ fuel →
  ∃ st' x', close_gap fuel p e (fp e) st x = (Ok st', x') ∧ splitting x0 x' st' l l2 L F es k (S g).
Proof.
  intros H Hg Hp He Hs Hgap Hfuel. pose proof (sp_nodup _ _ _ _ _ _ _ _ _ _ H) as Hnd. destruct H as [Hst Hl Hd Hc Hb Ho Hlast Hpos Hgaps (a & Ha & Hap & Hcur) Hss Hag Hnx].
  apply lookup_lt_Some in He as Hlt. apply lookup_lt_Some in Ho as Hk.
  destruct (find_gap_ok x l (midway es g) (length (kept es g)) fuel a _ _ (st_slots _ _ _ Hst) Hl Hnd Hc Ha Hap) as (a' & i' & p' & Hrun & Ha' & Hp' & Ht); try lia.
  { intros q Hq. unfold midway. rewrite decide_True by lia. apply lookup_lt_is_Some. lia. }
  { unfold midway. rewrite decide_True by lia. apply lookup_ge_None_2. lia. }
  destruct (linked_here x l i' Hl ltac:(apply list_elem_of_lookup; eauto)) as (Hh & s & Hs'). pose proof (st_slots _ _ _ Hst i' s Hh Hs') as Hso.
  destruct (cells_write x l (l2 ++ L) F _ a' i' s _ p' (Some e) Hst Hl Hc Ha' Hs' Hp' (slot_ok_put s p' e Hso Hp') (view_put s p' e _ Hso Hp') eq_refl) as (Hl1 & Hc1 & Hst1 & Ha1 & Hss1).
  set (x1 := put_slot i' _ x) in *.
  destruct (leave_cell x1 l (l2 ++ L) F _ k _ p Hst1 Hl1 Hc1 Ho Hp) as (x2 & Hrun2 & Hl2 & Hc2 & Hst2 & Ha2 & Hss2).
  pose proof (agree_trans _ _ _ _ Ha1 Ha2) as Ha12. apply agree_app in Ha12 as [Hal2 HaL]. destruct (kept_stay es g e He Hs) as [Hk1 Hm1].
  exists (MkSplit (originalSlot st) i' p' (newSlot st) (newSlotPos st) (gaps st)), x2. split.
  - unfold close_gap. rewrite (M_bind_ok _ _ _ _ _ Hrun). rewrite (M_bind_ok _ _ _ _ _ (on_slot_run i' _ s x Hs')). fold x1. rewrite (M_bind_ok _ _ _ _ _ Hrun2). reflexivity.
  - split; cbn [originalSlot originalSlotForInsert entryPosToInsert newSlot newSlotPos gaps]; rewrite ?Hk1, ?Hm1; try assumption; try lia.
    + apply (cells_ext x2 l _ _ (λ q _, eq_sym (midway_close es g e q He Hs Hgap))). rewrite Hg in *. rewrite Ht in Hc2. exact Hc2.
    + exact (bucket_agree x x2 l2 _ Hal2 Hb).
    + rewrite Hgaps, length_app. cbn [length]. apply bool_decide_ext. lia.
    + exists a'. split; [exact Ha'|]. split; [exact Hp'|]. right. rewrite length_app. cbn. lia.
    + replace (length l2 - 1) with (length l2 - 1 + (0 + 0)) by lia. exact (same_shape_trans _ _ _ _ _ Hss (same_shape_trans _ _ _ 0 0 Hss1 Hss2)).
    + exact (agree_trans _ _ _ _ Hag HaL).
Qed.

Lemma keep_ok x0 x st l l2 L F es k g e :
  splitting x0 x st l l2 L F es k g → g < S k * CAP → es !! g = Some e → stay e = true → g = length (kept es g) → splitting x0 x st l l2 L F es k (S g).
Proof.
  intros [Hst Hl Hd Hc Hb Ho Hlast Hpos Hgaps (a & Ha & Hap & Hcur) Hss Hag Hnx] Hg He Hs Hk. apply lookup_lt_Some in He as Hlt. destruct (kept_stay es g e He Hs) as [Hk1 Hm1].
  split; rewrite ?Hk1, ?Hm1; try assumption; try lia.
  - exact (cells_ext x l _ _ (λ q _, eq_sym (midway_same es g e q He Hs Hk)) Hc).
  - rewrite Hgaps, length_app. cbn [length]. apply bool_decide_ext. lia.
  - exists a. split; [exact Ha|]. split; [exact Hap|]. rewrite length_app. cbn. lia.
Qed.
End Loop.

(** ** The whole chain *)

(** The entries that stay, by the header at the start of the split. *)
Definition stays (h : HashIndexHeader) e : bool := (Z.land (hash (key e)) (higherLevelHashMask h) =? nextSplitSlotId h)%Z.

Abbreviation split_at x0 := (splitting (stays (indexHeader x0)) x0).

Lemma split_entry_ok x0 x st l l2 L F es k g p :
  split_at x0 x st l l2 L F es k g → g = k * CAP + p → p < CAP → (Z.of_nat (length (oSlots x0) + length l) < 2 ^ 32)%Z →
  if decide (g < length es)
  then ∃ st' x' l2' F', split_entry p st x = (Ok (Some st'), x') ∧ split_at x0 x' st' l l2' L F' es k (S g) ∧ head l2' = head l2
  else split_entry p st x = (Ok None, x).
Proof.
  intros H Hg Hp Hsize. pose proof (sp_nodup _ _ _ _ _ _ _ _ _ _ _ H) as Hnd. pose proof H as [Hst Hl Hd Hc Hb Ho Hlast Hpos Hgaps Hcur Hss Hag Hnx].
  destruct (linked_here x l _ Hl ltac:(apply list_elem_of_lookup; eauto)) as (Hh & s & Hs). pose proof (st_slots _ _ _ Hst _ s Hh Hs) as Hso.
  unfold split_entry. rewrite (M_bind_ok get_state _ x x x eq_refl), (M_bind_ok _ _ _ _ _ (getSlot_run _ s x Hs)).
  assert (Hcell : cell s p = es !! g) by (rewrite (cells_cell x l _ k _ s p Hc Ho Hs Hp), <- Hg; unfold midway; rewrite decide_False by lia; reflexivity).
  rewrite (valid_cell s p Hso Hp), Hcell. destruct (decide (g < length es)) as [Hlt|Hge].
  - destruct (lookup_lt_is_Some_2 es g Hlt) as [e He]. rewrite He in Hcell |- *. cbn [negb]. rewrite bool_decide_eq_true_2 by eauto. cbn [negb].
    unfold cell in Hcell. destruct (Z.testbit _ _); [|discriminate Hcell]. rewrite Hcell.
    assert (Hst0 : (Z.land (hash (key e)) (higherLevelHashMask (indexHeader x)) =? nextSplitSlotId (indexHeader x))%Z = stays (indexHeader x0) e).
    { destruct (ss_header _ _ _ Hss) as [n ->]. reflexivity. }
    rewrite Hst0. fold (fp e). destruct (stays (indexHeader x0) e) eqn:Hse; cbn [negb].
    + rewrite Hgaps. pose proof (kept_moved_length (stays (indexHeader x0)) es g ltac:(lia)) as Hkm. destruct (decide (length (kept (stays (indexHeader x0)) es g) < g)) as [Hgap|Hno].
      * rewrite bool_decide_eq_true_2 by exact Hgap. pose proof (chain_count x l Hl Hnd) as Hfuel.
        destruct (close_ok _ x0 x st l l2 L F es k g p e (CAP * chain_fuel x) H Hg Hp He Hse Hgap) as (st' & x' & Hrun & H'); [nia|].
        exists st', x', l2, F. rewrite (M_bind_ok _ _ _ _ _ Hrun). auto.
      * rewrite bool_decide_eq_false_2 by exact Hno. exists st, x, l2, F. split; [reflexivity|]. split; [|reflexivity]. apply (keep_ok _ x0 x st l l2 L F es k g e H); auto; lia.
    + destruct (move_ok _ x0 x st l l2 L F es k g p e H Hg Hp He Hse Hsize) as (st' & x' & l2' & F' & Hrun & H' & Hhd).
      exists st', x', l2', F'. rewrite (M_bind_ok _ _ _ _ _ Hrun). auto.
  - rewrite lookup_ge_None_2 by lia. rewrite bool_decide_eq_false_2 by apply is_Some_None. cbn [negb]. unfold ku_assert.
    rewrite (split_slot_count _ x0 x st l l2 L F es k g s H ltac:(right; lia) Hs), Nat.eqb_refl. reflexivity.
Qed.

Lemma split_entries_ok x0 l L es k : (Z.of_nat (length (oSlots x0) + length l) < 2 ^ 32)%Z → ∀ n p x st l2 F,
  p + n = CAP → split_at x0 x st l l2 L F es k (k * CAP + p) →
  ∃ st' more x' l2' F' g, split_entries (seq p n) st x = (Ok (st', more), x') ∧ split_at x0 x' st' l l2' L F' es k g ∧ head l2' = head l2 ∧
    g = if (more : bool) then S k * CAP else length es.
Proof.
  intros Hsize n. induction n as [|n IH]; intros p x st l2 F Hp H.
  - exists st, true, x, l2, F, (k * CAP + p). cbn [seq split_entries]. split; [reflexivity|]. split; [exact H|]. split; [reflexivity|]. cbn. lia.
  - cbn [seq split_entries]. pose proof (split_entry_ok x0 x st l l2 L F es k _ p H eq_refl ltac:(lia) Hsize) as Hstep.
    destruct (decide (k * CAP + p < length es)) as [Hlt|Hge].
    + destruct Hstep as (st1 & x1 & l21 & F1 & Hrun & H1 & Hhd). rewrite (M_bind_ok _ _ _ _ _ Hrun).
      destruct (IH (S p) x1 st1 l21 F1 ltac:(lia)) as (st' & more & x' & l2' & F' & g & Hrun' & H' & Hhd' & Hg); [rewrite Nat.add_succ_r; exact H1|].
      exists st', more, x', l2', F', g. split; [exact Hrun'|]. split; [exact H'|]. split; [congruence|exact Hg].
    + rewrite (M_bind_ok _ _ _ _ _ Hstep). exists st, false, x, l2, F, (k * CAP + p). split; [reflexivity|]. split; [exact H|]. split; [reflexivity|].
      pose proof (sp_done _ _ _ _ _ _ _ _ _ _ _ H). lia.
Qed.

Lemma split_chain_ok x0 l L es : (Z.of_nat (length (oSlots x0) + length l) < 2 ^ 32)%Z → ∀ fuel k x st l2 F,
  length l ≤ k + fuel → split_at x0 x st l l2 L F es k (k * CAP) →
  ∃ st' x' l2' F' k', split_chain fuel st x = (Ok st', x') ∧ split_at x0 x' st' l l2' L F' es k' (length es) ∧ head l2' = head l2.
Proof.
  intros Hsize fuel. induction fuel as [|fuel IH]; intros k x st l2 F Hf H; pose proof (sp_original _ _ _ _ _ _ _ _ _ _ _ H) as Ho; apply lookup_lt_Some in Ho as Hk; [lia|].
  cbn [split_chain]. destruct (split_entries_ok x0 l L es k Hsize CAP 0 x st l2 F eq_refl) as (st1 & more & x1 & l21 & F1 & g & Hrun & H1 & Hhd & Hg); [rewrite Nat.add_0_r; exact H|].
  rewrite (M_bind_ok _ _ _ _ _ Hrun). destruct more; [|exists st1, x1, l21, F1, k; subst g; auto]. subst g.
  pose proof (sp_original _ _ _ _ _ _ _ _ _ _ _ H1) as Ho1. pose proof (sp_linked _ _ _ _ _ _ _ _ _ _ _ H1) as Hl1.
  destruct (linked_here x1 l _ Hl1 ltac:(apply list_elem_of_lookup; eauto)) as (_ & s & Hs). rewrite (M_bind_ok _ _ _ _ _ (getSlot_run _ s x1 Hs)).
  unfold ku_assert. rewrite (split_slot_count _ x0 x1 st1 l l21 L F1 es k _ s H1 ltac:(left; reflexivity) Hs), Nat.eqb_refl, (M_bind_ok (mret tt) _ x1 tt x1 eq_refl).
  rewrite (M_bind_ok _ _ _ _ _ (next_run x1 l k _ Hl1 (sp_nodup _ _ _ _ _ _ _ _ _ _ _ H1) Ho1)). destruct (l !! S k) as [i|] eqn:Hi.
  - destruct (IH (S k) x1 (MkSplit i (originalSlotForInsert st1) (entryPosToInsert st1) (newSlot st1) (newSlotPos st1) (gaps st1)) l21 F1 ltac:(lia)) as (st' & x' & l2' & F' & k' & Hrun' & H' & Hhd').
    { destruct H1. split; cbn [originalSlot originalSlotForInsert entryPosToInsert newSlot newSlotPos gaps]; try assumption. lia. }
    exists st', x', l2', F', k'. split; [exact Hrun'|]. split; [exact H'|congruence].
  - apply lookup_ge_None_1 in Hi. pose proof (sp_done _ _ _ _ _ _ _ _ _ _ _ H1) as Hd. assert (Hlk : length l = S k) by lia. exists st1, x1, l21, F1, k.
    split; [reflexivity|]. split; [|exact Hhd]. replace (length es) with (S k * CAP) by (rewrite Hlk in Hd; lia). exact H1.
Qed.
End Split.

(** * Adding a primary slot

    [splitSlot] as a whole: the chain that is split and the chain of the new primary slot share the entries, and all
    other chains are as before. *)

Section Level.
Context {K : Type} `{HK : IndexHashable K} `{Hok : !IndexHashableOk K} `{Hlost : LostSlots}.

Abbreviation CAP := (SLOT_CAPACITY K).
Abbreviation Index := (InMemHashIndex K).
Abbreviation split_at x0 := (splitting (stays (indexHeader x0)) x0).
Implicit Types (x : Index) (i j o : SlotInfo) (l L F : list SlotInfo) (es : list (SlotEntry K)) (e : SlotEntry K).

Lemma store_header x L F h : firstFreeOverflowSlotId h = firstFreeOverflowSlotId (indexHeader x) → store x L F → store (set_indexHeader h x) L F.
Proof.
  intros Hh [H1 H2 H3 H4 H5 H6 H7 H8]. split; try assumption; [apply linked_header, H4|]. cbn [indexHeader set_indexHeader]. congruence.
Qed.

(** ** New primary slots *)

Definition primaries (a n : nat) : list SlotInfo := map (λ p, primary (Z.of_nat p)) (seq a n).

Lemma primaries_in a n o : o ∈ primaries a n ↔ ∃ p, o = primary (Z.of_nat p) ∧ a ≤ p < a + n.
Proof. unfold primaries. rewrite list_elem_of_fmap. split; intros (p & -> & Hp); exists p; rewrite elem_of_seq in *; auto. Qed.

Lemma primaries_nodup a n : NoDup (primaries a n).
Proof. apply NoDup_fmap_2; [|apply NoDup_seq]. intros p q E. injection E as E. lia. Qed.

Lemma grownP_slot_at x n i : here i →
  slot_at i (set_pSlots (pSlots x ++ replicate n Slot_new) x) = if bool_decide (i ∈ primaries (length (pSlots x)) n) then Some Slot_new else slot_at i x.
Proof.
  unfold here, slot_at. destruct i as [a []]; cbn [slotType slotId pSlots oSlots set_pSlots]; intros Ha.
  - assert (Hin : MkSlotInfo a PRIMARY ∈ primaries (length (pSlots x)) n ↔ length (pSlots x) ≤ Z.to_nat a < length (pSlots x) + n).
    { rewrite primaries_in. split; [intros (p & E & Hp); injection E as ->; lia|]. intros Hr. exists (Z.to_nat a). split; [unfold primary; f_equal; lia|exact Hr]. }
    destruct (Nat.lt_ge_cases (Z.to_nat a) (length (pSlots x))) as [H|H].
    + rewrite bool_decide_eq_false_2 by (rewrite Hin; lia). apply lookup_app_l, H.
    + rewrite lookup_app_r by exact H. destruct (Nat.lt_ge_cases (Z.to_nat a - length (pSlots x)) n) as [Hn|Hn].
      * rewrite bool_decide_eq_true_2 by (rewrite Hin; lia). apply lookup_replicate_2, Hn.
      * rewrite bool_decide_eq_false_2 by (rewrite Hin; lia). rewrite !lookup_ge_None_2 by (rewrite ?length_replicate; lia). reflexivity.
  - rewrite bool_decide_eq_false_2; [reflexivity|]. rewrite primaries_in. intros (p & E & _). discriminate E.
Qed.

Lemma growP_ok x L F n :
  store x L F →
  let N := primaries (length (pSlots x)) n in let x' := set_pSlots (pSlots x ++ replicate n Slot_new) x in
  store x' (N ++ L) F ∧ agree L x x' ∧ (∀ o, o ∈ N → slot_at o x' = Some Slot_new).
Proof.
  intros Hst. cbn zeta. set (N := primaries _ n). set (x' := set_pSlots _ x). pose proof Hst as [H1 H2 H3 H4 H5 H6 H7 H8]. rewrite Forall_forall in H3, H6.
  assert (Hout : ∀ i, i ∈ L ∨ i ∈ F → i ∉ N).
  { intros i Hi HN. apply primaries_in in HN as (p & -> & Hp). destruct Hi as [Hi|Hi]; [|discriminate (H6 _ Hi)].
    destruct (H3 _ Hi) as [_ [s Hs]]. unfold slot_at, primary in Hs. cbn in Hs. apply lookup_lt_Some in Hs. lia. }
  assert (Hat : ∀ i, here i → slot_at i x' = if bool_decide (i ∈ N) then Some Slot_new else slot_at i x) by (intros i Hi; apply grownP_slot_at, Hi).
  assert (Hhere : ∀ o, o ∈ N → here o) by (intros o Ho; apply primaries_in in Ho as (p & -> & _); unfold here; cbn; lia).
  assert (Hnew : ∀ o, o ∈ N → slot_at o x' = Some Slot_new) by (intros o Ho; rewrite (Hat o (Hhere o Ho)), bool_decide_eq_true_2 by exact Ho; reflexivity).
  assert (Hold : ∀ l, Forall here l → (∀ i, i ∈ l → i ∉ N) → agree l x x').
  { intros l Hl HN i Hi. rewrite Forall_forall in Hl. rewrite Hat, bool_decide_eq_false_2 by auto. reflexivity. }
  assert (HaL : agree L x x') by (apply Hold; [apply Forall_forall; intros i Hi; apply (H3 i Hi)|auto]).
  assert (HaF : agree F x x') by (apply Hold; [exact (linked_all_here x F H4)|auto]).
  split; [split|split; [exact HaL|exact Hnew]]; try assumption.
  - intros i s Hi Hs. rewrite Hat in Hs by exact Hi. destruct (bool_decide (i ∈ N)); [injection Hs as <-; apply slot_ok_new|exact (H1 i s Hi Hs)].
  - rewrite <- app_assoc. apply NoDup_app. split; [apply primaries_nodup|]. split; [|exact H2]. intros i HN Hi. apply elem_of_app in Hi. exact (Hout i Hi HN).
  - apply Forall_app. split; apply Forall_forall; intros i Hi.
    + split; [exact (Hhere i Hi)|]. rewrite (Hnew i Hi). eauto.
    + rewrite (HaL i Hi). exact (H3 i Hi).
  - exact (linked_agree x x' F HaF H4).
  - apply Forall_forall. exact H6.
  - exact (empty_agree x x' F HaF H7).
Qed.

Lemma new_bucket x o : slot_at o x = Some Slot_new → (0 ≤ slotId o < INVALID_OVERFLOW_SLOT_ID)%Z → bucket x [o] [].
Proof.
  intros Ho Hr. split; [split|left; reflexivity].
  - split; [exists Slot_new; split; [exact Ho|reflexivity]|]. split; [exact Hr|]. split; [constructor|exact I].
  - constructor; [apply not_elem_of_nil|constructor].
  - rewrite (chain_view_cons x o _ [] Ho). cbn [chain_view map concat length]. rewrite app_nil_r, Nat.mul_1_l, filled_nil. apply view_new.
  - cbn. lia.
Qed.

(** ** A split *)

Lemma split_start x l o L F es i :
  store x (l ++ [o] ++ L) F → bucket x l es → l !! 0 = Some i → bucket x [o] [] →
  split_at x x (MkSplit i i 0 o 0 false) l [o] L F es 0 0.
Proof.
  intros Hst [Hr _] Hi Ho. pose proof (capacity_range (K := K)) as Hc. split; cbn [originalSlot originalSlotForInsert entryPosToInsert newSlot newSlotPos gaps]; try assumption.
  - apply Hr.
  - split; [lia|apply Hr].
  - apply (cells_ext x l (λ q, es !! q)); [|exact (cells_row x l es Hr)]. intros q _. unfold midway. rewrite decide_False by lia. reflexivity.
  - reflexivity.
  - reflexivity.
  - reflexivity.
  - exists 0. split; [exact Hi|]. split; [lia|left; reflexivity].
  - apply same_shape_refl.
  - intros j _. reflexivity.
  - lia.
Qed.

Lemma split_end x0 x st l l2 L F es k :
  split_at x0 x st l l2 L F es k (length es) →
  row x l (filter (λ e, stays (indexHeader x0) e = true) es) ∧ bucket x l2 (filter (λ e, stays (indexHeader x0) e = false) es) ∧
  ∃ a, l !! a = Some (originalSlotForInsert st) ∧ a < need (filter (λ e, stays (indexHeader x0) e = true) es).
Proof.
  intros H. pose proof (sp_nodup _ _ _ _ _ _ _ _ _ _ _ H) as Hnd. destruct H as [Hst Hl Hd Hc Hb Ho Hlast Hpos Hgaps (a & Ha & Hap & Hcur) Hss Hag Hnx].
  unfold kept in Hcur. unfold moved in Hb. rewrite firstn_all in Hcur, Hb. set (ks := filter _ es) in *.
  pose proof (kept_moved_length (stays (indexHeader x0)) es (length es) ltac:(lia)) as Hk. unfold kept at 1 in Hk. rewrite firstn_all in Hk. fold ks in Hk.
  split; [|split; [exact Hb|]].
  - apply row_cells; [exact Hl|exact Hnd|lia|]. apply (cells_ext x l _ _) with (2 := Hc). intros q Hq. unfold midway, kept. rewrite firstn_all. fold ks.
    destruct (decide (q < length es)); [reflexivity|]. rewrite !lookup_ge_None_2 by lia. reflexivity.
  - exists a. split; [exact Ha|]. apply need_lt. destruct Hcur as [Hz|Hlt]; [left; pose proof (capacity_range (K := K)); nia|right; lia].
Qed.

(** The new primary slot and the reserved overflow slots. *)
Lemma split_prepare x l L F es :
  store x (l ++ L) F → bucket x l es → head l = Some (primary (nextSplitSlotId (indexHeader x))) →
  (Z.of_nat (length (oSlots x)) + 2 * Z.of_nat (length l) < 2 ^ 32)%Z → (Z.of_nat (length (pSlots x)) < 2 ^ 32)%Z →
  let i := primary (nextSplitSlotId (indexHeader x)) in let o := primary (Z.of_nat (length (pSlots x))) in
  let x1 := set_pSlots (pSlots x ++ [Slot_new]) x in
  ∃ x2 F2 n, countSlots i x1 = (Ok (length l), x1) ∧ reserveOverflowSlots (length l) x1 = (Ok tt, x2) ∧
    split_at x2 x2 (MkSplit i i 0 o 0 false) l [o] L F2 es 0 0 ∧ length l ≤ chain_fuel x2 ∧ agree L x x2 ∧ indexHeader x2 = set_firstFree n (indexHeader x) ∧
    length (pSlots x2) = S (length (pSlots x)) ∧ length (oSlots x2) ≤ length (oSlots x) + length l.
Proof.
  intros Hst Hb Hhd Hsize Hps. cbn zeta. set (P := length (pSlots x)) in *. set (o := primary (Z.of_nat P)). destruct (growP_ok x (l ++ L) F 1 Hst) as (Hst1 & Ha1 & Hnew1).
  cbn [replicate primaries seq map] in Hst1, Hnew1, Ha1. set (x1 := set_pSlots _ x) in *. fold P in Hst1, Hnew1. fold o in Hst1, Hnew1.
  apply agree_app in Ha1 as [Ha1l Ha1L]. apply store_rotate in Hst1. pose proof (bucket_agree x x1 l es Ha1l Hb) as Hb1. pose proof (bk_row _ _ _ Hb1) as Hr1.
  pose proof (new_bucket x1 o (Hnew1 o ltac:(left)) ltac:(unfold INVALID_OVERFLOW_SLOT_ID; cbn; lia)) as Hnb1.
  set (i := primary (nextSplitSlotId (indexHeader x))) in *. assert (Hi : l !! 0 = Some i) by (destruct l; [discriminate Hhd|exact Hhd]).
  pose proof (chain_count x1 l (rw_linked _ _ _ Hr1) (rw_nodup _ _ _ Hr1)) as Hfuel1.
  destruct (reserveOverflow_ok x1 _ F (length l) Hst1) as (x2 & F2 & Hrun2 & Hst2 & Ha2 & Hss2); [cbn [x1 oSlots set_pSlots]; lia|].
  apply agree_app in Ha2 as [Ha2l Ha2r]. apply agree_app in Ha2r as [Ha2o Ha2L]. pose proof (ss_oSlots _ _ _ Hss2) as Hos2. cbn [x1 oSlots set_pSlots] in Hos2.
  destruct (ss_header _ _ _ Hss2) as [n2 Hh2]. pose proof (ss_pSlots _ _ _ Hss2) as Hp2. cbn [x1 pSlots set_pSlots] in Hp2. rewrite length_app in Hp2. cbn [length] in Hp2.
  exists x2, F2, n2. split; [|split; [exact Hrun2|split; [|split; [|split; [exact (agree_trans _ _ _ _ Ha1L Ha2L)|split; [exact Hh2|lia]]]]]].
  - unfold countSlots. cbn [i primary slotType]. rewrite bool_decide_eq_false_2 by discriminate. cbn [andb]. rewrite (M_bind_ok get_state _ x1 x1 x1 eq_refl).
    rewrite (count_loop_ok x1 l (chain_fuel x1) 0 i (rw_linked _ _ _ Hr1) (rw_nodup _ _ _ Hr1) Hi ltac:(lia)), Nat.sub_0_r. reflexivity.
  - exact (split_start x2 l o L F2 es i Hst2 (bucket_agree x1 x2 l es Ha2l Hb1) Hi (bucket_agree x1 x2 [o] [] Ha2o Hnb1)).
  - exact (chain_count x2 l (linked_agree x1 x2 l Ha2l (rw_linked _ _ _ Hr1)) (rw_nodup _ _ _ Hr1)).
Qed.

(** After the loop the empty end of the original chain is freed. *)
Lemma split_finish x2 x3 st l l2 L F es k id :
  split_at x2 x3 st l l2 L F es k (length es) → head l = Some (primary id) → (Z.of_nat (length (oSlots x2) + length l) < 2 ^ 32)%Z →
  let stay := stays (indexHeader x2) in
  ∃ x4 l' F4, reclaimOverflowSlots (originalSlotForInsert st) x3 = (Ok tt, x4) ∧ store x4 (l' ++ l2 ++ L) F4 ∧ bucket x4 l' (filter (λ e, stay e = true) es) ∧
    bucket x4 l2 (filter (λ e, stay e = false) es) ∧ head l' = head l ∧ agree L x2 x4 ∧ same_shape x2 x4 (length l).
Proof.
  intros H Hhd Hsize. cbn zeta. pose proof (new_chain_short _ _ _ _ _ _ _ _ _ _ _ H) as Hshort. pose proof (sp_shape _ _ _ _ _ _ _ _ _ _ _ H) as Hss3. pose proof (ss_oSlots _ _ _ Hss3) as Hos3.
  destruct (split_end x2 x3 st l l2 L F es k H) as (Hr3 & Hb3 & a & Ha & Han). set (ks := filter (λ e, _ = true) es) in *. pose proof (sp_store _ _ _ _ _ _ _ _ _ _ _ H) as Hst3.
  destruct (reclaim_ok x3 l ks (l2 ++ L) F a _ Hst3 Hr3 ltac:(rewrite Hhd; reflexivity) Ha Han) as (x4 & Hrun4 & Hb4 & Hst4 & Ha4 & Hss4).
  { exact (chain_count x3 l (rw_linked _ _ _ Hr3) (rw_nodup _ _ _ Hr3)). }
  { apply (free_bound x3 _ F (length l) Hst3); lia. }
  apply agree_app in Ha4 as [Ha4l Ha4L]. exists x4, (take (need ks) l), (rev (drop (need ks) l) ++ F). split; [exact Hrun4|]. split; [exact Hst4|]. split; [exact Hb4|].
  split; [exact (bucket_agree x3 x4 l2 _ Ha4l Hb3)|]. split; [destruct l; [discriminate Hhd|]; destruct (need_spec ks) as [N _]; destruct (need ks); [lia|reflexivity]|].
  split; [exact (agree_trans _ _ _ _ (sp_agree _ _ _ _ _ _ _ _ _ _ _ H) Ha4L)|].
  apply (same_shape_weaken _ _ (length l2 - 1 + 0)); [exact (same_shape_trans _ _ _ _ 0 Hss3 Hss4)|lia].
Qed.

Lemma splitSlot_ok x l L F es :
  store x (l ++ L) F → bucket x l es → head l = Some (primary (nextSplitSlotId (indexHeader x))) →
  (Z.of_nat (length (oSlots x)) + 2 * Z.of_nat (length l) < 2 ^ 32)%Z → (Z.of_nat (length (pSlots x)) < 2 ^ 32)%Z →
  let stay := stays (indexHeader x) in
  ∃ x' l' l2 F' n, splitSlot x = (Ok tt, x') ∧ store x' (l' ++ l2 ++ L) F' ∧ bucket x' l' (filter (λ e, stay e = true) es) ∧
    bucket x' l2 (filter (λ e, stay e = false) es) ∧ head l' = head l ∧ head l2 = Some (primary (Z.of_nat (length (pSlots x)))) ∧ agree L x x' ∧
    indexHeader x' = incrementNextSplitSlotId (set_firstFree n (indexHeader x)) ∧ length (pSlots x') = S (length (pSlots x)) ∧
    length (oSlots x') ≤ length (oSlots x) + 2 * length l.
Proof.
  intros Hst Hb Hhd Hsize Hps. cbn zeta.
  destruct (split_prepare x l L F es Hst Hb Hhd Hsize Hps) as (x2 & F2 & n2 & Hcount & Hrun2 & Hstart & Hfuel & Ha2 & Hh2 & Hp2 & Ho2).
  destruct (split_chain_ok x2 l L es ltac:(lia) (chain_fuel x2) 0 x2 _ _ F2 ltac:(lia) Hstart) as (st3 & x3 & l2 & F3 & k3 & Hrun3 & H3 & Hhd3).
  destruct (split_finish x2 x3 st3 l l2 L F3 es k3 _ H3 Hhd ltac:(lia)) as (x4 & l' & F4 & Hrun4 & Hst4 & Hb4 & Hb4' & Hhd4 & Ha4 & Hss4).
  destruct (ss_header _ _ _ Hss4) as [n4 Hh4]. pose proof (ss_pSlots _ _ _ Hss4) as Hp4. pose proof (ss_oSlots _ _ _ Hss4) as Ho4.
  assert (Hstays : ∀ e, stays (indexHeader x2) e = stays (indexHeader x) e) by (intros e; rewrite Hh2; reflexivity).
  rewrite (list_filter_iff _ (λ e, stays (indexHeader x) e = true)) in Hb4 by (intros e; rewrite Hstays; reflexivity).
  rewrite (list_filter_iff _ (λ e, stays (indexHeader x) e = false)) in Hb4' by (intros e; rewrite Hstays; reflexivity).
  set (x5 := set_indexHeader (incrementNextSplitSlotId (indexHeader x4)) x4). exists x5, l', l2, F4, n4.
  assert (Hsame : agree (l' ++ l2 ++ L) x4 x5) by (intros j _; reflexivity). apply agree_app in Hsame as [Hs1 Hs2]. apply agree_app in Hs2 as [Hs2 Hs3].
  split; [|split; [|split; [exact (bucket_agree _ _ _ _ Hs1 Hb4)|split; [exact (bucket_agree _ _ _ _ Hs2 Hb4')|split; [exact Hhd4|split; [exact Hhd3|split; [|split; [|split]]]]]]]].
  - unfold splitSlot, allocatePSlots. set (x1 := set_pSlots (pSlots x ++ [Slot_new]) x) in *. set (i := primary (nextSplitSlotId (indexHeader x))) in *.
    rewrite (M_bind_ok _ _ x (length (pSlots x)) x1 eq_refl), (M_bind_ok get_state _ x1 x1 x1 eq_refl). change (primary (nextSplitSlotId (indexHeader x1))) with i. cbn zeta.
    rewrite (M_bind_ok _ _ _ _ _ Hcount), (M_bind_ok _ _ _ _ _ Hrun2), (M_bind_ok get_state _ x2 x2 x2 eq_refl).
    replace (primary (Z.of_nat (length (pSlots x2)) - 1)) with (primary (Z.of_nat (length (pSlots x)))) by (unfold primary; f_equal; lia).
    rewrite (M_bind_ok _ _ _ _ _ Hrun3), (M_bind_ok _ _ _ _ _ Hrun4). reflexivity.
  - apply store_header; [|exact Hst4]. unfold incrementNextSplitSlotId, incrementLevel. destruct (nextSplitSlotId (indexHeader x4) <? Z.shiftl 1 (currentLevel (indexHeader x4)) - 1)%Z; reflexivity.
  - exact (agree_trans _ _ _ _ Ha2 (agree_trans _ _ _ _ Ha4 Hs3)).
  - cbn [x5 indexHeader set_indexHeader]. rewrite Hh4, Hh2. reflexivity.
  - cbn [x5 pSlots set_indexHeader]. lia.
  - cbn [x5 oSlots set_indexHeader]. lia.
Qed.
End Level.
