(* ===== verification/HashDirectory.v ===== *)
(** * Primary slots and their chains

    Linear hashing: the header against the number of primary slots, and where a split sends a hash. A directory has a chain of slots and a bag of
    entries for every primary slot; replacing a chain, splitting one and adding empty ones keep it. What makes slots a chain of some
    entries is a parameter: in memory chains have no gaps, on disk they may. *)

From stdpp Require Import base numbers list strings.
From Stdlib Require Import ZArith Lia.
From S2P Require Import Prelude HashSlot HashSlotSpec InMemHashIndex HashChain HashGrow HashSplit.
Import HashSlot InMemHashIndex.

(** ** Linear hashing *)

Record header_ok (h : HashIndexHeader) (P : Z) : Prop := {
  ho_level : (0 ≤ currentLevel h)%Z;
  ho_mask : levelHashMask h = Z.ones (currentLevel h);
  ho_higher : higherLevelHashMask h = Z.ones (currentLevel h + 1);
  ho_split : (0 ≤ nextSplitSlotId h < 2 ^ currentLevel h)%Z;
  ho_slots : (P = 2 ^ currentLevel h + nextSplitSlotId h)%Z;
}.

Lemma mod_next_level v n : (0 ≤ n)%Z → (v mod 2 ^ (n + 1) = v mod 2 ^ n ∨ v mod 2 ^ (n + 1) = v mod 2 ^ n + 2 ^ n)%Z.
Proof.
  intros Hn. assert (Hp : (0 < 2 ^ n)%Z) by (apply Z.pow_pos_nonneg; lia). rewrite Z.pow_add_r, Z.pow_1_r by lia.
  rewrite Z.rem_mul_r by lia. assert ((v / 2 ^ n) mod 2 = 0 ∨ (v / 2 ^ n) mod 2 = 1)%Z as [-> | ->] by (pose proof (Z.mod_pos_bound (v / 2 ^ n) 2 ltac:(lia)); lia); lia.
Qed.

Lemma primary_slot h P v :
  header_ok h P → getPrimarySlotIdForHash h v = if (v mod 2 ^ currentLevel h <? nextSplitSlotId h)%Z then (v mod 2 ^ (currentLevel h + 1))%Z else (v mod 2 ^ currentLevel h)%Z.
Proof. intros [H1 H2 H3 H4 H5]. unfold getPrimarySlotIdForHash. rewrite H2, H3, !Z.land_ones by lia. reflexivity. Qed.

Lemma primary_slot_range h P v : header_ok h P → (0 ≤ getPrimarySlotIdForHash h v < P)%Z.
Proof.
  intros Hh. rewrite (primary_slot h P v Hh). destruct Hh as [H1 H2 H3 H4 ->]. pose proof (Z.mod_pos_bound v (2 ^ currentLevel h) ltac:(lia)) as Hm.
  destruct (Z.ltb_spec (v mod 2 ^ currentLevel h) (nextSplitSlotId h)); [destruct (mod_next_level v (currentLevel h) H1) as [-> | ->]; lia|lia].
Qed.

Lemma next_split_ok h P : header_ok h P → header_ok (incrementNextSplitSlotId h) (P + 1).
Proof.
  intros [H1 H2 H3 H4 ->]. unfold incrementNextSplitSlotId. rewrite Z.shiftl_1_l. destruct (Z.ltb_spec (nextSplitSlotId h) (2 ^ currentLevel h - 1)) as [Hlt|Hge].
  - split; cbn [currentLevel levelHashMask higherLevelHashMask nextSplitSlotId]; try assumption; lia.
  - unfold incrementLevel. split; cbn [currentLevel levelHashMask higherLevelHashMask nextSplitSlotId]; rewrite ?Z.shiftl_1_l, ?Z.ones_equiv; try lia.
    rewrite Z.pow_add_r by lia. lia.
Qed.

(** Decides the equations of integers in the goal. *)
Ltac split_eqb := repeat match goal with |- context [(?a =? ?b)%Z] => destruct (Z.eqb_spec a b) end.

(** A split sends the entries of the split slot to it or to the new last slot, and no other entry elsewhere. *)
Lemma primary_slot_next h P v :
  header_ok h P →
  getPrimarySlotIdForHash (incrementNextSplitSlotId h) v =
    if (getPrimarySlotIdForHash h v =? nextSplitSlotId h)%Z then
      if (Z.land v (higherLevelHashMask h) =? nextSplitSlotId h)%Z then nextSplitSlotId h else P
    else getPrimarySlotIdForHash h v.
Proof.
  intros Hh. rewrite (primary_slot _ _ v (next_split_ok h P Hh)), (primary_slot h P v Hh). destruct Hh as [H1 H2 H3 H4 ->].
  rewrite H3, Z.land_ones by lia. set (n := currentLevel h) in *. set (ns := nextSplitSlotId h) in *.
  pose proof (Z.mod_pos_bound v (2 ^ n) ltac:(lia)) as Hm. pose proof (mod_next_level v n H1) as Hn.
  unfold incrementNextSplitSlotId. rewrite Z.shiftl_1_l. fold n ns. destruct (Z.ltb_spec ns (2 ^ n - 1)) as [Hlt|Hge]; cbn [incrementLevel currentLevel nextSplitSlotId]; fold n.
  - destruct (Z.ltb_spec (v mod 2 ^ n) (ns + 1)), (Z.ltb_spec (v mod 2 ^ n) ns); split_eqb; lia.
  - pose proof (Z.mod_pos_bound v (2 ^ (n + 1)) ltac:(apply Z.pow_pos_nonneg; lia)). destruct (Z.ltb_spec (v mod 2 ^ (n + 1)) 0), (Z.ltb_spec (v mod 2 ^ n) ns); split_eqb; lia.
Qed.

Lemma primary_slot_moved h P v :
  header_ok h P → getPrimarySlotIdForHash h v = nextSplitSlotId h → Z.land v (higherLevelHashMask h) ≠ nextSplitSlotId h → Z.land v (higherLevelHashMask h) = P.
Proof.
  intros Hh. rewrite (primary_slot h P v Hh). destruct Hh as [H1 H2 H3 H4 ->]. rewrite H3, Z.land_ones by lia. pose proof (mod_next_level v (currentLevel h) H1).
  pose proof (Z.mod_pos_bound v (2 ^ currentLevel h) ltac:(lia)). destruct (Z.ltb_spec (v mod 2 ^ currentLevel h) (nextSplitSlotId h)); lia.
Qed.

(** ** One list and the others *)

Definition others {A} (D : list (list A)) (p : nat) : list A := concat (take p D) ++ concat (drop (S p) D).

Lemma concat_focus {A} (D : list (list A)) p (d : list A) : D !! p = Some d → concat D ≡ₚ d ++ others D p.
Proof.
  intros Hp. rewrite <- (take_drop_middle D p d Hp) at 1. rewrite concat_app. cbn [concat]. unfold others. rewrite !app_assoc. apply Permutation_app_tail, Permutation_app_comm.
Qed.

Lemma others_insert {A} (D : list (list A)) p (d : list A) : others (<[p := d]> D) p = others D p.
Proof. unfold others. rewrite take_insert_ge, drop_insert_lt by lia. reflexivity. Qed.

Lemma concat_update {A} (D : list (list A)) p (d : list A) : p < length D → concat (<[p := d]> D) ≡ₚ d ++ others D p.
Proof. intros Hp. rewrite (concat_focus _ p d) by (apply list_lookup_insert_eq, Hp). rewrite others_insert. reflexivity. Qed.

Lemma others_in {A} (D : list (list A)) p q (d : list A) a : D !! q = Some d → q ≠ p → a ∈ d → a ∈ others D p.
Proof.
  intros Hq Hne Ha. unfold others. apply elem_of_app. destruct (Nat.lt_ge_cases q p) as [H|H]; [left|right]; apply list_elem_of_In, in_concat; exists d; split; try (apply list_elem_of_In; exact Ha);
    apply list_elem_of_In, list_elem_of_lookup.
  - exists q. rewrite lookup_take_lt by lia. exact Hq.
  - exists (q - S p). rewrite lookup_drop. replace (S p + (q - S p)) with q by lia. exact Hq.
Qed.

(** ** Directories *)

Section Directory.
Context {K : Type} `{HK : IndexHashable K} `{Hok : !IndexHashableOk K} `{Hlost : LostSlots}.
Abbreviation Index := (InMemHashIndex K).
Implicit Types (x : Index) (l L F : list SlotInfo) (es : list (SlotEntry K)) (e : SlotEntry K) (C : list (list SlotInfo)) (B : list (list (SlotEntry K))).

(** The chain an entry belongs to. *)
Definition home (h : HashIndexHeader) e : Z := getPrimarySlotIdForHash h (hash (key e)).

Variable chain : Index → list SlotInfo → list (SlotEntry K) → Prop.

Record directory x C B F : Prop := {
  dr_header : header_ok (indexHeader x) (Z.of_nat (length (pSlots x)));
  dr_store : store x (concat C) F;
  dr_chains : length C = length (pSlots x);
  dr_bags : length B = length (pSlots x);
  dr_chain : ∀ p l es, C !! p = Some l → B !! p = Some es →
    chain x l es ∧ head l = Some (primary (Z.of_nat p)) ∧ Forall (λ e, home (indexHeader x) e = Z.of_nat p) es;
}.

Lemma directory_focus x C B F p :
  directory x C B F → p < length (pSlots x) →
  ∃ l es, C !! p = Some l ∧ B !! p = Some es ∧ chain x l es ∧ store x (l ++ others C p) F ∧ head l = Some (primary (Z.of_nat p)) ∧
    Forall (λ e, home (indexHeader x) e = Z.of_nat p) es ∧ concat B ≡ₚ es ++ others B p.
Proof.
  intros [H1 H2 H3 H4 H5] Hp. destruct (lookup_lt_is_Some_2 C p ltac:(lia)) as [l Hl]. destruct (lookup_lt_is_Some_2 B p ltac:(lia)) as [es Hes].
  destruct (H5 p l es Hl Hes) as (Hb & Hhd & Hhome). exists l, es. split_and!; try assumption; [|exact (concat_focus B p es Hes)]. exact (store_perm x _ _ F (concat_focus C p l Hl) H2).
Qed.

(** An entry is in the bag of its chain. *)
Lemma directory_home x C B F p es e : directory x C B F → B !! p = Some es → e ∈ concat B → home (indexHeader x) e = Z.of_nat p → e ∈ es.
Proof.
  intros [H1 H2 H3 H4 H5] Hp He Hh. apply list_elem_of_In, in_concat in He as (es' & Hin & He). apply list_elem_of_In, list_elem_of_lookup in Hin as [q Hq]. apply list_elem_of_In in He.
  apply lookup_lt_Some in Hq as Hlt. destruct (lookup_lt_is_Some_2 C q ltac:(lia)) as [l Hl]. destruct (H5 q l es' Hl Hq) as (_ & _ & Hhome). rewrite Forall_forall in Hhome.
  rewrite (Hhome e He) in Hh. assert (q = p) as -> by lia. rewrite Hp in Hq. injection Hq as ->. exact He.
Qed.

(** Chains depend on their slots only. *)
Hypothesis chain_agree : ∀ x x' l es, agree l x x' → chain x l es → chain x' l es.

(** Replacing one chain. *)
Lemma directory_update x x' C B F F' p l l' es es' :
  directory x C B F → C !! p = Some l → B !! p = Some es → store x' (l' ++ others C p) F' → chain x' l' es' → agree (others C p) x x' → head l' = head l →
  header_ok (indexHeader x') (Z.of_nat (length (pSlots x))) → (∀ e, home (indexHeader x') e = home (indexHeader x) e) → length (pSlots x') = length (pSlots x) →
  Forall (λ e, home (indexHeader x) e = Z.of_nat p) es' →
  directory x' (<[p := l']> C) (<[p := es']> B) F' ∧ concat (<[p := es']> B) ≡ₚ es' ++ others B p.
Proof.
  intros [H1 H2 H3 H4 H5] Hl Hes Hst Hb Ha Hhd Hh Hhm Hps Hhome. apply lookup_lt_Some in Hes as Hlt. assert (HpC : p < length C) by lia.
  split; [|exact (concat_update B p es' Hlt)]. split; rewrite ?length_insert, ?Hps; try assumption.
  - exact (store_perm x' _ _ F' (symmetry (concat_update C p l' HpC)) Hst).
  - intros q lq esq Hlq Hesq. destruct (decide (q = p)) as [->|Hne].
    + rewrite list_lookup_insert_eq in Hlq by lia. rewrite list_lookup_insert_eq in Hesq by lia. injection Hlq as <-. injection Hesq as <-. destruct (H5 p l es Hl Hes) as (_ & Hhd0 & _).
      split; [exact Hb|]. split; [congruence|]. apply (Forall_impl _ _ _ Hhome). intros e He. rewrite Hhm. exact He.
    + rewrite list_lookup_insert_ne in Hlq by congruence. rewrite list_lookup_insert_ne in Hesq by congruence. destruct (H5 q lq esq Hlq Hesq) as (Hbq & Hhdq & Hq). split; [|split; [exact Hhdq|]].
      * apply (chain_agree x); [|exact Hbq]. intros i Hi. exact (Ha i (others_in C p q lq i Hlq Hne Hi)).
      * apply (Forall_impl _ _ _ Hq). intros e He. rewrite Hhm. exact He.
Qed.

(** Splitting the next chain in two. *)
Lemma directory_split x x' C B F F' p l l' l2 es n :
  directory x C B F → nextSplitSlotId (indexHeader x) = Z.of_nat p → C !! p = Some l → B !! p = Some es →
  let stay := stays (indexHeader x) in let ks := filter (λ e, stay e = true) es in let ms := filter (λ e, stay e = false) es in
  store x' (l' ++ l2 ++ others C p) F' → chain x' l' ks → chain x' l2 ms → head l' = head l → head l2 = Some (primary (Z.of_nat (length (pSlots x)))) →
  agree (others C p) x x' → indexHeader x' = incrementNextSplitSlotId (set_firstFree n (indexHeader x)) → length (pSlots x') = S (length (pSlots x)) →
  directory x' (<[p := l']> C ++ [l2]) (<[p := ks]> B ++ [ms]) F' ∧ concat (<[p := ks]> B ++ [ms]) ≡ₚ concat B.
Proof.
  intros H Hp Hl Hes stay ks ms Hst Hb1 Hb2 Hhd1 Hhd2 Ha Hh Hps. pose proof H as [H1 H2 H3 H4 H5]. apply lookup_lt_Some in Hes as Hlt. assert (HpC : p < length C) by lia.
  assert (H1' : header_ok (set_firstFree n (indexHeader x)) (Z.of_nat (length (pSlots x)))) by (destruct H1; split; assumption).
  assert (Hhome : ∀ e, home (indexHeader x') e = if (home (indexHeader x) e =? Z.of_nat p)%Z then if stay e then Z.of_nat p else Z.of_nat (length (pSlots x)) else home (indexHeader x) e).
  { intros e. unfold home, stay, stays. rewrite Hh, (primary_slot_next _ _ (hash (key e)) H1'), <- Hp. reflexivity. }
  split; [split; rewrite ?length_app, ?length_insert, ?Hps; cbn [length]; try lia|].
  - rewrite Hh. replace (Z.of_nat (S (length (pSlots x)))) with (Z.of_nat (length (pSlots x)) + 1)%Z by lia. apply next_split_ok, H1'.
  - apply (store_perm x' (l' ++ l2 ++ others C p)); [|exact Hst]. rewrite concat_app, (concat_update C p l' HpC). cbn [concat]. rewrite app_nil_r, <- app_assoc. apply Permutation_app_head, Permutation_app_comm.
  - intros q lq esq Hlq Hesq. destruct (Nat.lt_ge_cases q (length (pSlots x))) as [Hq|Hq].
    + rewrite lookup_app_l in Hlq by (rewrite length_insert; lia). rewrite lookup_app_l in Hesq by (rewrite length_insert; lia). destruct (decide (q = p)) as [->|Hne].
      * rewrite list_lookup_insert_eq in Hlq by lia. rewrite list_lookup_insert_eq in Hesq by lia. injection Hlq as <-. injection Hesq as <-. destruct (H5 p l es Hl Hes) as (_ & Hhd0 & Hq0).
        split; [exact Hb1|]. split; [congruence|]. rewrite Forall_forall in *. intros e He. apply list_elem_of_filter in He as [Hs He]. rewrite Hhome, (Hq0 e He), Z.eqb_refl, Hs. reflexivity.
      * rewrite list_lookup_insert_ne in Hlq by congruence. rewrite list_lookup_insert_ne in Hesq by congruence. destruct (H5 q lq esq Hlq Hesq) as (Hbq & Hhdq & Hq0).
        split; [|split; [exact Hhdq|]].
        -- apply (chain_agree x); [|exact Hbq]. intros i Hi. exact (Ha i (others_in C p q lq i Hlq Hne Hi)).
        -- apply (Forall_impl _ _ _ Hq0). intros e He. rewrite Hhome, He, (proj2 (Z.eqb_neq _ _)) by lia. reflexivity.
    + assert (q = length (pSlots x)) as ->. { apply lookup_lt_Some in Hlq. rewrite length_app, length_insert in Hlq. cbn in Hlq. lia. }
      rewrite lookup_app_r, length_insert, H3, Nat.sub_diag in Hlq by (rewrite length_insert; lia). rewrite lookup_app_r, length_insert, H4, Nat.sub_diag in Hesq by (rewrite length_insert; lia).
      injection Hlq as <-. injection Hesq as <-. split; [exact Hb2|]. split; [exact Hhd2|]. destruct (H5 p l es Hl Hes) as (_ & _ & Hq0). rewrite Forall_forall in *.
      intros e He. apply list_elem_of_filter in He as [Hs He]. rewrite Hhome, (Hq0 e He), Z.eqb_refl, Hs. reflexivity.
  - rewrite concat_app, (concat_update B p ks Hlt), (concat_focus B p es Hes). cbn [concat]. rewrite app_nil_r. rewrite (Permutation_app_comm (ks ++ _)), app_assoc. apply Permutation_app_tail.
    rewrite (Permutation_app_comm ms). symmetry. pose proof (kept_moved_perm stay es (length es) ltac:(lia)) as E. unfold kept, moved in E. rewrite firstn_all in E. exact E.
Qed.

(** New primary slots head empty chains. *)
Hypothesis chain_new : ∀ x o, slot_at o x = Some Slot_new → (0 ≤ slotId o < INVALID_OVERFLOW_SLOT_ID)%Z → chain x [o] [].

Lemma concat_nils {A} n : concat (replicate n (@nil A)) = [].
Proof. induction n as [|n IH]; [reflexivity|exact IH]. Qed.

Lemma directory_widen x C F h n :
  store x (concat C) F → length C = length (pSlots x) → (∀ p l, C !! p = Some l → chain x l [] ∧ head l = Some (primary (Z.of_nat p))) →
  header_ok h (Z.of_nat (length (pSlots x) + n)) → firstFreeOverflowSlotId h = firstFreeOverflowSlotId (indexHeader x) → (Z.of_nat (length (pSlots x) + n) < 2 ^ 32)%Z →
  ∃ C', directory (set_indexHeader h (set_pSlots (pSlots x ++ replicate n Slot_new) x)) C' (replicate (length (pSlots x) + n) []) F.
Proof.
  intros Hst HC Hb Hh Hff Hbig. destruct (growP_ok x (concat C) F n Hst) as (Hst1 & Ha1 & Hnew1). set (x1 := set_pSlots _ x) in *. set (x2 := set_indexHeader h x1).
  set (N := primaries (length (pSlots x)) n) in *.
  assert (Hconcat : concat (map (λ o, [o]) N) = N) by (clear; induction N as [|o N IH]; [reflexivity|cbn [map concat app]; rewrite IH; reflexivity]).
  assert (HN : length (map (λ o, [o]) N) = n) by (unfold N, primaries; rewrite !length_map, length_seq; reflexivity).
  assert (Hp1 : length (pSlots x2) = length (pSlots x) + n) by (cbn [x2 x1 pSlots set_indexHeader set_pSlots]; rewrite length_app, length_replicate; lia).
  exists (C ++ map (λ o, [o]) N). split; rewrite ?length_app, ?HN, ?length_replicate, ?Hp1; try lia.
  - exact Hh.
  - apply store_header; [exact Hff|]. apply (store_perm x1 (N ++ concat C)); [|exact Hst1]. rewrite concat_app, Hconcat. apply Permutation_app_comm.
  - intros q l es Hl Hes. apply lookup_replicate in Hes as [-> Hq]. assert (Hsame : ∀ l es, chain x1 l es → chain x2 l es) by (intros l' es'; apply chain_agree; intros i _; reflexivity).
    destruct (Nat.lt_ge_cases q (length (pSlots x))) as [Hlt|Hge].
    + rewrite lookup_app_l in Hl by lia. destruct (Hb q l Hl) as [Hbq Hhd]. split; [|split; [exact Hhd|constructor]]. apply Hsame, (chain_agree x); [|exact Hbq].
      intros i Hi. apply Ha1. apply list_elem_of_In, in_concat. exists l. split; [apply list_elem_of_In, list_elem_of_lookup; eauto|apply list_elem_of_In; exact Hi].
    + rewrite lookup_app_r, HC in Hl by lia. apply list_lookup_fmap_Some in Hl as (o & -> & Ho). unfold N, primaries in Ho. apply list_lookup_fmap_Some in Ho as (r & -> & Hr). apply lookup_seq in Hr as [-> Hr].
      replace (length (pSlots x) + (q - length (pSlots x))) with q in * by lia. split; [|split; [reflexivity|constructor]]. apply Hsame, chain_new.
      * apply Hnew1, primaries_in. exists q. split; [reflexivity|lia].
      * unfold INVALID_OVERFLOW_SLOT_ID. cbn [primary slotId]. lia.
Qed.
End Directory.
