(* ===== verification/HashIndexSpec.v ===== *)
(** * The hash index as a bag of entries

    The invariant of the in-memory hash index: the header agrees with the number of primary slots, every primary slot
    heads a chain without gaps, chains and free slots share no slot, and an entry is in the chain its hash picks. The
    entries of all chains are what the index represents. *)

From stdpp Require Import base numbers list strings gmap.
From Stdlib Require Import ZArith Lia.
From S2P Require Import Prelude HashSlot HashSlotSpec InMemHashIndex HashChain HashGrow HashSplit HashDirectory.
Import HashSlot InMemHashIndex.

(** ** The invariant *)

Section Invariant.
Context {K : Type} `{HK : IndexHashable K} `{Hok : !IndexHashableOk K} `{Hlost : LostSlots}.

Abbreviation CAP := (SLOT_CAPACITY K).
Abbreviation Index := (InMemHashIndex K).
Implicit Types (x : Index) (l L F : list SlotInfo) (es : list (SlotEntry K)) (e : SlotEntry K) (C : list (list SlotInfo)) (B : list (list (SlotEntry K))).

Record index_ok x C B F : Prop := {
  ix_header : header_ok (indexHeader x) (Z.of_nat (length (pSlots x)));
  ix_store : store x (concat C) F;
  ix_chains : length C = length (pSlots x);
  ix_buckets : length B = length (pSlots x);
  ix_bucket : ∀ p l es, C !! p = Some l → B !! p = Some es →
    bucket x l es ∧ head l = Some (primary (Z.of_nat p)) ∧ Forall (λ e, home (indexHeader x) e = Z.of_nat p) es;
  ix_count : (Z.of_nat (length (concat B)) ≤ headerNumEntries (indexHeader x))%Z;
}.

(** An index represents the entries of its chains, in no order. *)
Definition represents x es : Prop := ∃ C B F, index_ok x C B F ∧ es ≡ₚ concat B.

#[global] Instance represents_proper x : Proper ((≡ₚ) ==> iff) (represents x).
Proof. intros es es' Hp. split; intros (C & B & F & H & HB); exists C, B, F; split; [exact H|rewrite <- Hp; exact HB|exact H|rewrite Hp; exact HB]. Qed.

Lemma index_directory x C B F : index_ok x C B F ↔ directory bucket x C B F ∧ (Z.of_nat (length (concat B)) ≤ headerNumEntries (indexHeader x))%Z.
Proof. split; [intros []; split; [split; assumption|assumption]|intros [[] ?]; split; assumption]. Qed.

Lemma index_focus x C B F p :
  index_ok x C B F → p < length (pSlots x) →
  ∃ l es, C !! p = Some l ∧ B !! p = Some es ∧ bucket x l es ∧ store x (l ++ others C p) F ∧ head l = Some (primary (Z.of_nat p)) ∧
    Forall (λ e, home (indexHeader x) e = Z.of_nat p) es ∧ concat B ≡ₚ es ++ others B p.
Proof.
  intros [H1 H2 H3 H4 H5 H6] Hp. destruct (lookup_lt_is_Some_2 C p ltac:(lia)) as [l Hl]. destruct (lookup_lt_is_Some_2 B p ltac:(lia)) as [es Hes].
  destruct (H5 p l es Hl Hes) as (Hb & Hhd & Hhome). exists l, es. split_and!; try assumption; [|exact (concat_focus B p es Hes)]. exact (store_perm x _ _ F (concat_focus C p l Hl) H2).
Qed.

(** An entry of a key is in the chain of the key's hash. *)
Lemma home_entry x C B F p es e : index_ok x C B F → B !! p = Some es → e ∈ others B p → home (indexHeader x) e ≠ Z.of_nat p.
Proof.
  intros [H1 H2 H3 H4 H5 H6] Hp He E. unfold others in He. apply elem_of_app in He.
  assert (Hq : ∃ q es', q ≠ p ∧ B !! q = Some es' ∧ e ∈ es').
  { destruct He as [He|He]; apply list_elem_of_In, in_concat in He as (es' & Hin & He); apply list_elem_of_In, list_elem_of_lookup in Hin as [q Hq].
    - apply lookup_take_Some in Hq as [Hq Hlt]. exists q, es'. split; [lia|]. split; [exact Hq|apply list_elem_of_In; exact He].
    - rewrite lookup_drop in Hq. exists (S p + q), es'. split; [lia|]. split; [exact Hq|apply list_elem_of_In; exact He]. }
  destruct Hq as (q & es' & Hne & Hq & Hin). apply lookup_lt_Some in Hq as Hlt. destruct (lookup_lt_is_Some_2 C q ltac:(lia)) as [l Hl].
  destruct (H5 q l es' Hl Hq) as (_ & _ & Hhome). rewrite Forall_forall in Hhome. rewrite (Hhome e Hin) in E. lia.
Qed.

(** Replacing one chain. *)
Lemma index_update x x' C B F F' p l l' es es' n m :
  index_ok x C B F → C !! p = Some l → B !! p = Some es → store x' (l' ++ others C p) F' → bucket x' l' es' → agree (others C p) x x' → head l' = head l →
  indexHeader x' = set_numEntries m (set_firstFree n (indexHeader x)) → length (pSlots x') = length (pSlots x) →
  Forall (λ e, home (indexHeader x) e = Z.of_nat p) es' → (Z.of_nat (length (es' ++ others B p)) ≤ m)%Z →
  index_ok x' (<[p := l']> C) (<[p := es']> B) F' ∧ concat (<[p := es']> B) ≡ₚ es' ++ others B p.
Proof.
  intros [H Hc]%index_directory Hl Hes Hst Hb Ha Hhd Hh Hps Hhome Hm.
  destruct (directory_update bucket bucket_agree x x' C B F F' p l l' es es' H Hl Hes Hst Hb Ha Hhd) as [H' HB]; try assumption.
  - rewrite Hh. destruct (dr_header _ _ _ _ _ H). split; assumption.
  - intros e. rewrite Hh. reflexivity.
  - split; [|exact HB]. apply index_directory. split; [exact H'|]. rewrite HB, Hh. exact Hm.
Qed.

(** A chain is not longer than it needs to be. *)
Lemma bucket_short x l es : bucket x l es → length l ≤ S (length es).
Proof. intros [_ [Ht|[_ Ht]]]; [lia|]. pose proof (capacity_range (K := K)). nia. Qed.
End Invariant.

(** * The operations of the hash index on the bag it represents

    Looking up, appending and deleting work on the chain of the key; splitting and allocating slots keep the entries. *)

Section Operations.
Context {K : Type} `{HK : IndexHashable K} `{Hok : !IndexHashableOk K} `{Hlost : LostSlots}.

Abbreviation CAP := (SLOT_CAPACITY K).
Abbreviation Index := (InMemHashIndex K).
Implicit Types (x : Index) (l L F : list SlotInfo) (es : list (SlotEntry K)) (e : SlotEntry K) (C : list (list SlotInfo)) (B : list (list (SlotEntry K))).

(** ** The chain of a key *)

Lemma key_chain x C B F (k : K) :
  index_ok x C B F →
  ∃ p l es, getPrimarySlotIdForHash (indexHeader x) (hash k) = Z.of_nat p ∧ p < length (pSlots x) ∧ C !! p = Some l ∧ B !! p = Some es ∧ bucket x l es ∧
    store x (l ++ others C p) F ∧ l !! 0 = Some (primary (Z.of_nat p)) ∧ length l ≤ chain_fuel x ∧ concat B ≡ₚ es ++ others B p ∧
    Forall (λ e, home (indexHeader x) e = Z.of_nat p) es ∧ (∀ e, e ∈ concat B → key e = k → e ∈ es).
Proof.
  intros H. pose proof (primary_slot_range _ _ (hash k) (ix_header _ _ _ _ H)) as Hr. set (q := getPrimarySlotIdForHash _ _) in *. exists (Z.to_nat q).
  destruct (index_focus x C B F (Z.to_nat q) H ltac:(lia)) as (l & es & Hl & Hes & Hb & Hst & Hhd & Hhome & HB). exists l, es.
  split_and!; try assumption; try lia.
  - destruct l; [discriminate Hhd|exact Hhd].
  - exact (chain_count x l (rw_linked _ _ _ (bk_row _ _ _ Hb)) (rw_nodup _ _ _ (bk_row _ _ _ Hb))).
  - intros e He Hk. rewrite HB in He. apply elem_of_app in He as [He|He]; [exact He|]. destruct (home_entry x C B F _ es e H Hes He). unfold home. rewrite Hk. fold q. lia.
Qed.

(** ** Looking up *)

(** [findEntry] from the primary slot of a key. *)
Lemma find_key x C B F (k : K) vis p l es :
  index_ok x C B F → bucket x l es → store x (l ++ others C p) F → l !! 0 = Some (primary (Z.of_nat p)) → length l ≤ chain_fuel x →
  ∃ r, findEntry (primary (Z.of_nat p)) k (getFingerprintForHash (hash k)) vis x = (Ok r, x) ∧ found l es k vis 0 r.
Proof.
  intros H Hb Hst H0 Hf. unfold findEntry. rewrite (M_bind_ok get_state _ x x x eq_refl). exact (find_loop_ok x l es k vis (chain_fuel x) 0 _ (st_slots _ _ _ Hst) Hb H0 ltac:(lia)).
Qed.

(** The entries of a key that are visible. *)
Definition visible (k : K) (vis : Z → bool) es : Prop := ∃ e, e ∈ es ∧ key e = k ∧ vis (value e) = true.

Lemma lookup_run x es (k : K) vis :
  represents x es →
  ∃ r, lookup k vis x = (Ok r, x) ∧ match r with Some v => MkEntry k v ∈ es ∧ vis v = true | None => ¬ visible k vis es end.
Proof.
  intros (C & B & F & H & HB). unfold lookup. rewrite (M_bind_ok get_state _ x x x eq_refl). destruct (Z.eqb_spec (headerNumEntries (indexHeader x)) 0) as [E|E].
  - exists None. split; [reflexivity|]. intros (e & He & _). pose proof (ix_count _ _ _ _ H) as Hc. rewrite HB in He. destruct (concat B); [inversion He|cbn in Hc; lia].
  - destruct (key_chain x C B F k H) as (p & l & bs & -> & Hp & Hl & Hbs & Hb & Hst & H0 & Hf & HBp & _ & Hkey).
    destruct (find_key x C B F k vis p l bs H Hb Hst H0 Hf) as ([i [q|]] & Hrun & Hfound); rewrite (M_bind_ok _ _ _ _ _ Hrun).
    + destruct Hfound as (m & e & Hm & Hq & He & Hke & Hvis). destruct (row_slot x l bs m i (bk_row _ _ _ Hb) Hm) as (s & Hs & Hi & _ & Hv).
      rewrite (M_bind_ok _ _ _ _ _ (getSlot_run i s x Hs)). pose proof (slot_content s bs _ q (st_slots _ _ _ Hst i s Hi Hs) Hv Hq) as Hc. rewrite He in Hc.
      unfold cell in Hc. destruct (Z.testbit _ _); [|discriminate Hc]. rewrite Hc. exists (Some (value e)). split; [reflexivity|]. split; [|exact Hvis].
      rewrite HB, HBp. apply elem_of_app. left. subst k. destruct e. apply list_elem_of_lookup. eauto.
    + destruct Hfound as [_ Hno]. exists None. split; [reflexivity|]. intros (e & He & Hke & Hvis). rewrite HB in He. apply Hkey, list_elem_of_lookup in He as [g Hg]; [|exact Hke].
      rewrite (Hno g e ltac:(lia) Hg Hke) in Hvis. discriminate Hvis.
Qed.

(** ** Appending without growing *)

Lemma appendInternal_run x es (k : K) v vis :
  represents x es → (Z.of_nat (length (oSlots x)) < 2 ^ 32)%Z → (headerNumEntries (indexHeader x) < 2 ^ 64 - 1)%Z →
  ∃ b x', appendInternal k v (hash k) vis x = (Ok b, x') ∧ length (pSlots x') = length (pSlots x) ∧
    if (b : bool) then ¬ visible k vis es ∧ represents x' (MkEntry k v :: es) ∧ headerNumEntries (indexHeader x') = (headerNumEntries (indexHeader x) + 1)%Z ∧
      length (oSlots x') ≤ S (length (oSlots x))
    else visible k vis es ∧ x' = x.
Proof.
  intros (C & B & F & H & HB) Hsize Hcount. unfold appendInternal. rewrite (M_bind_ok get_state _ x x x eq_refl).
  destruct (key_chain x C B F k H) as (p & l & bs & Ep & Hp & Hl & Hbs & Hb & Hst & H0 & Hf & HBp & Hhome & Hkey). rewrite Ep.
  destruct (find_key x C B F k vis p l bs H Hb Hst H0 Hf) as ([i [q|]] & Hrun & Hfound); rewrite (M_bind_ok _ _ _ _ _ Hrun); pose proof (bk_row _ _ _ Hb) as Hr.
  - destruct Hfound as (m & e & Hm & Hq & He & Hke & Hvis). destruct (row_slot x l bs m i Hr Hm) as (s & Hs & _). rewrite (M_bind_ok _ _ _ _ _ (getSlot_run i s x Hs)).
    exists false, x. split; [reflexivity|]. split; [reflexivity|]. split; [|reflexivity]. exists e. split; [|auto]. rewrite HB, HBp. apply elem_of_app. left. apply list_elem_of_lookup. eauto.
  - destruct Hfound as [Hlast Hno]. destruct (last_split l i Hlast) as [Hi Hpos]. destruct (row_slot x l bs _ i Hr Hi) as (s & Hs & _). rewrite (M_bind_ok _ _ _ _ _ (getSlot_run i s x Hs)).
    rewrite (bucket_last_count x l bs i s (st_slots _ _ _ Hst) Hr Hlast Hs) by (destruct (bk_tight _ _ _ Hb) as [Ht|Ht]; [rewrite Ht; lia|lia]).
    destruct (chain_insert_ok x l _ F bs i k v Hst Hb Hlast Hsize) as (x1 & l' & F' & Hins & Hb1 & Hst1 & Ha1 & Hss1 & Hhd1). rewrite (M_bind_ok _ _ _ _ _ Hins).
    set (x2 := set_indexHeader (set_numEntries (uwrap 64 (headerNumEntries (indexHeader x1) + 1)) (indexHeader x1)) x1).
    destruct (ss_header _ _ _ Hss1) as [n Hn]. pose proof (ix_count _ _ _ _ H) as Hc. assert (Hne : headerNumEntries (indexHeader x1) = headerNumEntries (indexHeader x)) by (rewrite Hn; reflexivity).
    exists true, x2. split; [reflexivity|]. split; [apply (ss_pSlots _ _ _ Hss1)|]. split; [|split; [|split]].
    + intros (e & He & Hke & Hvis). rewrite HB in He. apply Hkey, list_elem_of_lookup in He as [g Hg]; [|exact Hke]. rewrite (Hno g e ltac:(lia) Hg Hke) in Hvis. discriminate Hvis.
    + destruct (index_update x x2 C B F F' p l l' bs (bs ++ [MkEntry k v]) n (headerNumEntries (indexHeader x) + 1) H Hl Hbs) as [Hix HB']; try assumption.
      * apply store_header; [reflexivity|exact Hst1].
      * apply (bucket_agree x1); [intros j _; reflexivity|exact Hb1].
      * cbn [x2 indexHeader set_indexHeader]. rewrite Hne, uwrap_small, Hn by lia. reflexivity.
      * apply (ss_pSlots _ _ _ Hss1).
      * apply Forall_app. split; [exact Hhome|]. constructor; [exact Ep|constructor].
      * pose proof (Permutation_length HBp) as HLp. rewrite !length_app in *. cbn [length]. lia.
      * exists (<[p := l']> C), (<[p := bs ++ [MkEntry k v]]> B), F'. split; [exact Hix|]. rewrite HB', HB, HBp, <- app_assoc. cbn [app]. apply Permutation_middle.
    + cbn [x2 indexHeader set_indexHeader set_numEntries headerNumEntries]. rewrite Hne, uwrap_small by lia. reflexivity.
    + pose proof (ss_oSlots _ _ _ Hss1). cbn [x2 oSlots set_indexHeader]. lia.
Qed.

(** ** Deleting *)

Lemma deleteKey_run x es (k : K) :
  represents x es → (Z.of_nat (length (oSlots x)) < 2 ^ 32)%Z →
  ∃ b x', deleteKey k x = (Ok b, x') ∧
    if (b : bool) then ∃ e es', key e = k ∧ es ≡ₚ e :: es' ∧ represents x' es' ∧ length (pSlots x') = length (pSlots x) ∧ length (oSlots x') = length (oSlots x) ∧
      headerNumEntries (indexHeader x') = headerNumEntries (indexHeader x)
    else (∀ e, e ∈ es → key e ≠ k) ∧ x' = x.
Proof.
  intros (C & B & F & H & HB) Hsize. unfold deleteKey. rewrite (M_bind_ok get_state _ x x x eq_refl). pose proof (ix_count _ _ _ _ H) as Hc.
  destruct (Z.eqb_spec (headerNumEntries (indexHeader x)) 0) as [E|E].
  { exists false, x. split; [reflexivity|]. split; [|reflexivity]. intros e He. rewrite HB in He. destruct (concat B); [inversion He|cbn in Hc; lia]. }
  destruct (key_chain x C B F k H) as (p & l & bs & Ep & Hp & Hl & Hbs & Hb & Hst & H0 & Hf & HBp & Hhome & Hkey). rewrite Ep. cbn zeta.
  destruct (find_any_ok x l bs k (chain_fuel x) 0 _ (st_slots _ _ _ Hst) Hb H0 ltac:(lia)) as ([[i q]|] & Hrun & Hfound); rewrite (M_bind_ok _ _ _ _ _ Hrun).
  - destruct Hfound as (m & e & Hm & Hq & He & Hke). assert (Hhd : head l = Some (primary (Z.of_nat p))) by (destruct l; [discriminate H0|exact H0]).
    destruct (remove_ok x l _ F bs m i q e _ Hst Hb Hhd Hm Hq He Hsize) as (x' & l' & F' & Hrm & Hb' & Hst' & Ha' & Hss' & Hhd').
    exists true, x'. split; [exact Hrm|]. pose proof (swap_remove_perm _ bs e He) as Hperm. set (bs' := swap_remove _ bs) in *. destruct (ss_header _ _ _ Hss') as [n Hn].
    pose proof (ss_oSlots _ _ _ Hss') as Hos. pose proof (Permutation_length HBp) as HLp. pose proof (Permutation_length Hperm) as Hlen. cbn [length] in Hlen.
    destruct (index_update x x' C B F F' p l l' bs bs' n (headerNumEntries (indexHeader x)) H Hl Hbs) as [Hix HB']; try assumption.
    + apply (ss_pSlots _ _ _ Hss').
    + rewrite Forall_forall in *. intros e' He'. apply Hhome. rewrite Hperm. right. exact He'.
    + rewrite !length_app in *. lia.
    + exists e, (bs' ++ others B p). split; [exact Hke|]. split; [rewrite HB, HBp, Hperm; reflexivity|]. split.
      * exists (<[p := l']> C), (<[p := bs']> B), F'. split; [exact Hix|]. symmetry. exact HB'.
      * split; [apply (ss_pSlots _ _ _ Hss')|]. split; [lia|]. rewrite Hn. reflexivity.
  - exists false, x. split; [reflexivity|]. split; [|reflexivity]. intros e He Hke. rewrite HB in He. apply Hkey, list_elem_of_lookup in He as [g Hg]; [|exact Hke].
    exact (Hfound g e ltac:(lia) Hg Hke).
Qed.
End Operations.

(** * Growing the hash index

    Splits and new slots keep the bag of entries: [splitSlot], [allocateSlots], [reserve] and, with them, [append], the
    constructor and [clear]. Each operation comes with how many slots it adds. *)

Section Growing.
Context {K : Type} `{HK : IndexHashable K} `{Hok : !IndexHashableOk K} `{Hlost : LostSlots}.

Abbreviation CAP := (SLOT_CAPACITY K).
Abbreviation Index := (InMemHashIndex K).
Implicit Types (x : Index) (l L F : list SlotInfo) (es : list (SlotEntry K)) (e : SlotEntry K) (C : list (list SlotInfo)) (B : list (list (SlotEntry K))).

(** ** A split *)

Lemma next_split_count h : headerNumEntries (incrementNextSplitSlotId h) = headerNumEntries h.
Proof. unfold incrementNextSplitSlotId, incrementLevel. destruct (nextSplitSlotId h <? Z.shiftl 1 (currentLevel h) - 1)%Z; reflexivity. Qed.

Lemma index_split x x' C B F F' p l l' l2 es n :
  index_ok x C B F → nextSplitSlotId (indexHeader x) = Z.of_nat p → C !! p = Some l → B !! p = Some es →
  let stay := stays (indexHeader x) in let ks := filter (λ e, stay e = true) es in let ms := filter (λ e, stay e = false) es in
  store x' (l' ++ l2 ++ others C p) F' → bucket x' l' ks → bucket x' l2 ms → head l' = head l → head l2 = Some (primary (Z.of_nat (length (pSlots x)))) →
  agree (others C p) x x' → indexHeader x' = incrementNextSplitSlotId (set_firstFree n (indexHeader x)) → length (pSlots x') = S (length (pSlots x)) →
  index_ok x' (<[p := l']> C ++ [l2]) (<[p := ks]> B ++ [ms]) F' ∧ concat (<[p := ks]> B ++ [ms]) ≡ₚ concat B.
Proof.
  intros [H Hc]%index_directory Hp Hl Hes stay ks ms Hst Hb1 Hb2 Hhd1 Hhd2 Ha Hh Hps.
  destruct (directory_split bucket bucket_agree x x' C B F F' p l l' l2 es n H Hp Hl Hes Hst Hb1 Hb2 Hhd1 Hhd2 Ha Hh Hps) as [H' HB].
  fold stay in HB. fold ks ms in HB. split; [|exact HB]. apply index_directory. split; [exact H'|]. rewrite HB, Hh, next_split_count. exact Hc.
Qed.

(** A split adds at most twice as many overflow slots as the split chain can have. *)
Lemma splitSlot_run x es :
  represents x es → (Z.of_nat (length (oSlots x)) + 2 * Z.of_nat (S (length es)) < 2 ^ 32)%Z → (Z.of_nat (length (pSlots x)) < 2 ^ 32)%Z →
  ∃ x', splitSlot x = (Ok tt, x') ∧ represents x' es ∧ length (pSlots x') = S (length (pSlots x)) ∧ length (oSlots x') ≤ length (oSlots x) + 2 * S (length es) ∧
    headerNumEntries (indexHeader x') = headerNumEntries (indexHeader x).
Proof.
  intros (C & B & F & H & HB) Hsize Hps. pose proof (ix_header _ _ _ _ H) as [_ _ _ Hns Hsl].
  set (p := Z.to_nat (nextSplitSlotId (indexHeader x))). assert (Hp : nextSplitSlotId (indexHeader x) = Z.of_nat p) by lia.
  destruct (index_focus x C B F p H ltac:(lia)) as (l & bs & Hl & Hbs & Hb & Hst & Hhd & Hhome & HBp).
  assert (Hlen : length l ≤ S (length es)). { pose proof (bucket_short x l bs Hb). pose proof (Permutation_length HB) as E1. pose proof (Permutation_length HBp) as E2. rewrite length_app in E2. lia. }
  rewrite <- Hp in Hhd. destruct (splitSlot_ok x l _ F bs Hst Hb Hhd ltac:(lia) Hps) as (x' & l' & l2 & F' & n & Hrun & Hst' & Hb1 & Hb2 & Hhd1 & Hhd2 & Ha & Hh & Hps' & Hos').
  destruct (index_split x x' C B F F' p l l' l2 bs n H Hp Hl Hbs Hst' Hb1 Hb2 Hhd1 Hhd2 Ha Hh Hps') as [Hix HB'].
  exists x'. split; [exact Hrun|]. split; [|split; [exact Hps'|split; [lia|]]].
  - eexists _, _, F'. split; [exact Hix|]. rewrite HB'. exact HB.
  - rewrite Hh, next_split_count. reflexivity.
Qed.

(** Splits until there are [n] primary slots. *)
Lemma split_until_run es : ∀ fuel n x,
  represents x es → fuel = Z.to_nat (n - Z.of_nat (length (pSlots x))) → (Z.of_nat (length (oSlots x)) + Z.of_nat (fuel * (2 * S (length es))) < 2 ^ 32)%Z → (n ≤ 2 ^ 30)%Z →
  ∃ x', split_until fuel n x = (Ok tt, x') ∧ represents x' es ∧ length (pSlots x') = length (pSlots x) + fuel ∧
    length (oSlots x') ≤ length (oSlots x) + fuel * (2 * S (length es)) ∧ headerNumEntries (indexHeader x') = headerNumEntries (indexHeader x).
Proof.
  intros fuel. induction fuel as [|fuel IH]; intros n x H Hf Hsize Hn; cbn [split_until]; rewrite (M_bind_ok get_state _ x x x eq_refl); destruct (Z.ltb_spec (Z.of_nat (length (pSlots x))) n) as [Hlt|Hge]; try lia.
  - exists x. split; [reflexivity|]. split; [exact H|]. lia.
  - destruct (splitSlot_run x es H ltac:(lia) ltac:(lia)) as (x1 & Hrun & H1 & Hp1 & Ho1 & Hc1). rewrite (M_bind_ok _ _ _ _ _ Hrun).
    destruct (IH n x1 H1 ltac:(lia) ltac:(lia) Hn) as (x2 & Hrun2 & H2 & Hp2 & Ho2 & Hc2). exists x2. split; [exact Hrun2|]. split; [exact H2|]. split; [lia|]. split; [lia|congruence].
Qed.

(** ** Slots for an index without entries *)

(** The masks of a level. *)
Definition level_ok (h : HashIndexHeader) : Prop :=
  (0 ≤ currentLevel h)%Z ∧ levelHashMask h = Z.ones (currentLevel h) ∧ higherLevelHashMask h = Z.ones (currentLevel h + 1).

Lemma pow2_le_mono_inv a b : (0 ≤ b)%Z → (2 ^ a ≤ 2 ^ b)%Z → (a ≤ b)%Z.
Proof. intros Hb H. destruct (Z.le_gt_cases a b) as [|Hgt]; [assumption|]. apply (Z.pow_lt_mono_r 2) in Hgt; lia. Qed.

Lemma raise_level_run n : ∀ fuel x,
  level_ok (indexHeader x) → (2 ^ currentLevel (indexHeader x) ≤ n ≤ 2 ^ 30)%Z → (30 < currentLevel (indexHeader x) + Z.of_nat fuel)%Z →
  ∃ h, raise_level fuel n (2 ^ currentLevel (indexHeader x))%Z x = (Ok (2 ^ currentLevel h)%Z, set_indexHeader h x) ∧ level_ok h ∧ (2 ^ currentLevel h ≤ n < 2 ^ (currentLevel h + 1))%Z ∧
    headerNumEntries h = headerNumEntries (indexHeader x) ∧ firstFreeOverflowSlotId h = firstFreeOverflowSlotId (indexHeader x).
Proof.
  assert (Hsh : ∀ z, (0 ≤ z < 2 ^ 31)%Z → uwrap 32 (Z.shiftl z 1) = (2 * z)%Z) by (intros z Hz; rewrite Z.shiftl_mul_pow2, uwrap_small by lia; lia).
  intros fuel. induction fuel as [|fuel IH]; intros x Hl Hn Hf; pose proof Hl as (Hl0 & Hl1 & Hl2); cbn [raise_level]; rewrite Hsh by lia;
    pose proof (pow2_le_mono_inv (currentLevel (indexHeader x)) 30 ltac:(lia) ltac:(lia)) as Hle; [lia|].
  rewrite <- Z.pow_succ_r, <- Z.add_1_r by lia. destruct (Z.leb_spec (2 ^ (currentLevel (indexHeader x) + 1)) n) as [Hle2|Hgt].
  - set (x1 := set_indexHeader (incrementLevel (indexHeader x)) x). rewrite (M_bind_ok (on_header incrementLevel) _ x tt x1 eq_refl).
    assert (Hl1' : level_ok (indexHeader x1)) by (unfold level_ok, x1, incrementLevel; cbn [indexHeader set_indexHeader currentLevel levelHashMask higherLevelHashMask]; rewrite !Z.shiftl_1_l, !Z.ones_equiv; lia).
    destruct (IH x1 Hl1') as (h & Hrun & Hh & Hr & Hc & Hff); cbn [x1 indexHeader set_indexHeader incrementLevel currentLevel]; try lia.
    exists h. split; [exact Hrun|]. auto.
  - exists (indexHeader x). split; [destruct x; reflexivity|]. split; [exact Hl|]. split; [lia|]. auto.
Qed.

Lemma allocateSlots_run x n :
  level_ok (indexHeader x) → (2 ^ currentLevel (indexHeader x) ≤ n ≤ 2 ^ 30)%Z → (Z.of_nat (length (pSlots x)) ≤ n)%Z →
  ∃ h, allocateSlots n x = (Ok tt, set_indexHeader h (set_pSlots (pSlots x ++ replicate (Z.to_nat n - length (pSlots x)) Slot_new) x)) ∧ header_ok h n ∧
    headerNumEntries h = headerNumEntries (indexHeader x) ∧ firstFreeOverflowSlotId h = firstFreeOverflowSlotId (indexHeader x).
Proof.
  intros Hl Hn Hp. unfold allocateSlots. rewrite (M_bind_ok get_state _ x x x eq_refl). set (x1 := set_pSlots (pSlots x ++ replicate (Z.to_nat n - length (pSlots x)) Slot_new) x).
  pose proof Hl as (Hl0 & _). pose proof (pow2_le_mono_inv (currentLevel (indexHeader x)) 30 ltac:(lia) ltac:(lia)) as Hle.
  rewrite (M_bind_ok _ _ x tt x1).
  - destruct (raise_level_run n 32 x1 Hl Hn ltac:(cbn [x1 indexHeader set_pSlots]; lia)) as (h & Hrun & (Hh0 & Hh1 & Hh2) & Hr & Hc & Hff). change (indexHeader x1) with (indexHeader x) in Hrun.
    rewrite Z.shiftl_1_l, uwrap_small by (pose proof (Z.pow_le_mono_r 2 (currentLevel (indexHeader x)) 30); lia). rewrite (M_bind_ok _ _ _ _ _ Hrun).
    rewrite (proj2 (Z.leb_le _ _)) by lia. exists (set_nextSplit (n - 2 ^ currentLevel h)%Z h). split; [reflexivity|]. split; [|auto].
    rewrite Z.pow_add_r, Z.pow_1_r in Hr by lia. split; cbn [set_nextSplit currentLevel levelHashMask higherLevelHashMask nextSplitSlotId]; try assumption; lia.
  - destruct (Z.ltb_spec (Z.of_nat (length (pSlots x))) n) as [Hlt|Hge].
    + rewrite (M_bind_ok _ _ x (length (pSlots x)) x1); [reflexivity|]. unfold allocatePSlots. rewrite (M_bind_ok get_state _ x x x eq_refl).
      replace (Z.to_nat (n - Z.of_nat (length (pSlots x)))) with (Z.to_nat n - length (pSlots x)) by lia. reflexivity.
    + unfold x1. replace (Z.to_nat n - length (pSlots x)) with 0 by lia. cbn [replicate]. rewrite app_nil_r. destruct x; reflexivity.
Qed.

Lemma index_widen x C F h n :
  store x (concat C) F → length C = length (pSlots x) → (∀ p l, C !! p = Some l → bucket x l [] ∧ head l = Some (primary (Z.of_nat p))) →
  header_ok h (Z.of_nat (length (pSlots x) + n)) → firstFreeOverflowSlotId h = firstFreeOverflowSlotId (indexHeader x) → (0 ≤ headerNumEntries h)%Z →
  (Z.of_nat (length (pSlots x) + n) < 2 ^ 32)%Z →
  represents (set_indexHeader h (set_pSlots (pSlots x ++ replicate n Slot_new) x)) [].
Proof.
  intros Hst HC Hb Hh Hff Hc Hbig. destruct (directory_widen bucket bucket_agree new_bucket x C F h n Hst HC Hb Hh Hff Hbig) as [C' H].
  eexists C', _, F. rewrite index_directory. split; [split; [exact H|rewrite concat_nils; exact Hc]|]. rewrite concat_nils. reflexivity.
Qed.

(** ** Reserving *)

(** The primary slots [reserve] asks for. *)
Definition slots_for (n : Z) : Z := ((getNumRequiredEntries (uwrap 32 n) + Z.of_nat CAP - 1) / Z.of_nat CAP)%Z.

Lemma reserve_run x es n :
  represents x es → (slots_for n ≤ 2 ^ 30)%Z →
  (Z.of_nat (length (oSlots x)) + (slots_for n - Z.of_nat (length (pSlots x))) * (2 * Z.of_nat (S (length es))) < 2 ^ 32)%Z →
  ∃ x', reserve n x = (Ok tt, x') ∧ represents x' es ∧ Z.of_nat (length (pSlots x')) = Z.max (Z.of_nat (length (pSlots x))) (slots_for n) ∧
    length (oSlots x') ≤ length (oSlots x) + (length (pSlots x') - length (pSlots x)) * (2 * S (length es)) ∧ headerNumEntries (indexHeader x') = headerNumEntries (indexHeader x).
Proof.
  intros H Hr Hsize. unfold reserve. cbn zeta. rewrite (M_bind_ok get_state _ x x x eq_refl). fold (slots_for n). set (r := slots_for n) in *.
  destruct (Z.leb_spec r (Z.of_nat (length (pSlots x)))) as [Hle|Hgt]; [exists x; split; [reflexivity|]; split; [exact H|lia]|].
  destruct (Z.eqb_spec (headerNumEntries (indexHeader x)) 0) as [E|E].
  - destruct H as (C & B & F & H & HB). pose proof (ix_header _ _ _ _ H) as [Hh0 Hh1 Hh2 Hh3 Hh4]. pose proof (ix_count _ _ _ _ H) as Hc. rewrite E in Hc.
    assert (HB0 : concat B = []) by (destruct (concat B); [reflexivity|cbn in Hc; lia]). rewrite HB0 in HB. apply Permutation_nil_r in HB as ->.
    rewrite (uwrap_small 32 r) by lia. destruct (allocateSlots_run x r) as (h & Hrun & Hh & Hn & Hff); [split_and!; assumption|lia|lia|].
    eexists. split; [exact Hrun|]. cbn [pSlots oSlots indexHeader set_pSlots set_indexHeader]. rewrite length_app, length_replicate. split; [|split; [lia|split; [lia|exact Hn]]].
    apply (index_widen x C F); try assumption; [apply H|apply H| |replace (Z.of_nat _) with r by lia; exact Hh|lia|lia].
    intros p l Hl. apply lookup_lt_Some in Hl as Hlt. rewrite (ix_chains _ _ _ _ H), <- (ix_buckets _ _ _ _ H) in Hlt. destruct (lookup_lt_is_Some_2 B p Hlt) as [es Hes].
    destruct (ix_bucket _ _ _ _ H p l es Hl Hes) as (Hb & Hhd & _). pose proof (concat_focus B p es Hes) as Hf. rewrite HB0 in Hf. apply Permutation_nil_l, eq_sym, app_eq_nil in Hf as [-> _]. auto.
  - destruct (split_until_run es (Z.to_nat (r - Z.of_nat (length (pSlots x)))) r x H eq_refl ltac:(lia) Hr) as (x' & Hrun & H' & Hp' & Ho' & Hc').
    exists x'. split; [exact Hrun|]. split; [exact H'|]. split; [lia|]. split; [|exact Hc']. replace (length (pSlots x') - length (pSlots x)) with (Z.to_nat (r - Z.of_nat (length (pSlots x)))) by lia. exact Ho'.
Qed.

(** ** New and cleared indexes *)

Lemma empty_store nf : (0 ≤ nf ≤ lost)%Z → store (K := K) (MkIndex [] [] HashIndexHeader_new nf) [] [].
Proof.
  intros Hn. split; [intros [a []] s Ha Hs; discriminate Hs|constructor|constructor|exact I|reflexivity|constructor|constructor|cbn [numFreeSlots length]; lia].
Qed.

Lemma fresh_run nf : (0 ≤ nf ≤ lost)%Z →
  ∃ x, allocateSlots SLOTS_PER_PAGE (MkIndex [] [] HashIndexHeader_new nf) = (Ok tt, x) ∧ represents x [] ∧ length (pSlots x) = 16 ∧ oSlots x = [] ∧ headerNumEntries (indexHeader x) = 0%Z.
Proof.
  intros Hn. destruct (allocateSlots_run (MkIndex [] [] HashIndexHeader_new nf) SLOTS_PER_PAGE) as (h & Hrun & Hh & Hc & Hff).
  { split_and!; reflexivity || (cbn; lia). }
  { unfold SLOTS_PER_PAGE. cbn. lia. }
  { cbn. unfold SLOTS_PER_PAGE. lia. }
  eexists. split; [exact Hrun|]. split; [|split; [reflexivity|split; [reflexivity|exact Hc]]].
  apply (index_widen _ [] [] h 16 (empty_store nf Hn) eq_refl); cbn [pSlots length Nat.add]; try assumption; try lia.
  - intros p l Hp. discriminate Hp.
  - rewrite Hc. cbn. lia.
Qed.

Lemma new_run : ∃ x, InMemHashIndex_new = Ok x ∧ represents x [] ∧ length (pSlots x) = 16 ∧ oSlots x = [] ∧ headerNumEntries (indexHeader x) = 0%Z.
Proof. pose proof lost_range as Hl. destruct (fresh_run 0 ltac:(lia)) as (x & Hrun & H). exists x. unfold InMemHashIndex_new. rewrite Hrun. auto. Qed.

Lemma clear_run x : (0 ≤ numFreeSlots x ≤ lost)%Z →
  ∃ x', clear x = (Ok tt, x') ∧ represents x' [] ∧ length (pSlots x') = 16 ∧ oSlots x' = [] ∧ headerNumEntries (indexHeader x') = 0%Z.
Proof.
  intros Hn. destruct (fresh_run (numFreeSlots x) Hn) as (x' & Hrun & H). exists x'. split; [|exact H]. unfold clear. rewrite (M_bind_ok (modify _) _ x tt _ eq_refl). exact Hrun.
Qed.

(** The free slots that are counted. *)
Lemma free_slots_range x es : represents x es → (0 ≤ numFreeSlots x ≤ lost + Z.of_nat (length (oSlots x)))%Z.
Proof. intros (C & B & F & H & _). pose proof (st_count _ _ _ (ix_store _ _ _ _ H)). pose proof (free_count _ _ _ (ix_store _ _ _ _ H)). lia. Qed.

(** ** Appending *)

(** Room for [n] more entries: the sizes stay within 32 bits. *)
Record room x es (n : Z) : Prop := {
  rm_slots : (slots_for n ≤ 2 ^ 30)%Z;
  rm_ovf : (Z.of_nat (length (oSlots x)) + Z.max 0 (slots_for n - Z.of_nat (length (pSlots x))) * (2 * Z.of_nat (S (length es))) < 2 ^ 32 - 1)%Z;
  rm_count : (headerNumEntries (indexHeader x) < 2 ^ 64 - 1)%Z;
}.

Lemma append_run x es (k : K) v vis :
  represents x es → room x es (headerNumEntries (indexHeader x) + 1) →
  ∃ b x', append k v vis x = (Ok b, x') ∧ Z.of_nat (length (pSlots x')) = Z.max (Z.of_nat (length (pSlots x))) (slots_for (headerNumEntries (indexHeader x) + 1)) ∧
    length (oSlots x') ≤ length (oSlots x) + (length (pSlots x') - length (pSlots x)) * (2 * S (length es)) + 1 ∧
    if (b : bool) then ¬ visible k vis es ∧ represents x' (MkEntry k v :: es) ∧ headerNumEntries (indexHeader x') = (headerNumEntries (indexHeader x) + 1)%Z
    else visible k vis es ∧ represents x' es ∧ headerNumEntries (indexHeader x') = headerNumEntries (indexHeader x).
Proof.
  intros H [R1 R2 R3]. unfold append. rewrite (M_bind_ok get_state _ x x x eq_refl). set (n := (headerNumEntries (indexHeader x) + 1)%Z) in *.
  destruct (reserve_run x es n H R1 ltac:(nia)) as (x1 & Hrun & H1 & Hp1 & Ho1 & Hc1). rewrite (M_bind_ok _ _ _ _ _ Hrun).
  assert (Hsize : (Z.of_nat (length (oSlots x1)) < 2 ^ 32 - 1)%Z).
  { assert (Z.of_nat (length (pSlots x1) - length (pSlots x)) = Z.max 0 (slots_for n - Z.of_nat (length (pSlots x))))%Z as Hd by lia. rewrite <- Hd in R2. lia. }
  destruct (appendInternal_run x1 es k v vis H1 ltac:(lia) ltac:(lia)) as ([] & x2 & Hrun2 & Hp2 & Hres); rewrite Hrun2.
  - destruct Hres as (Hno & H2 & Hc2 & Ho2). exists true, x2. split; [reflexivity|]. rewrite Hp2. split; [exact Hp1|]. split; [lia|]. split; [exact Hno|]. split; [exact H2|lia].
  - destruct Hres as (Hyes & ->). exists false, x1. split; [reflexivity|]. split; [exact Hp1|]. split; [lia|]. auto.
Qed.

(** ** Sizes *)

Lemma slots_for_bound n : (0 ≤ n < 2 ^ 32)%Z → (0 ≤ slots_for n ≤ 2 * n)%Z.
Proof.
  intros Hn. pose proof (capacity_range (K := K)) as Hc. unfold slots_for, getNumRequiredEntries. rewrite uwrap_small by lia.
  assert (Hd : (0 ≤ (3 * n + 1) / 2 < 2 * n + 1)%Z) by (split; [apply Z.div_pos; lia|apply Z.div_lt_upper_bound; lia]). set (r := ((3 * n + 1) / 2)%Z) in *.
  split; [apply Z.div_pos; lia|]. destruct (Z.eq_dec r 0) as [->|Hr]; [rewrite Z.div_small by lia; lia|].
  apply (Z.le_trans _ r); [|lia]. apply Z.div_le_upper_bound; [lia|]. nia.
Qed.

(** An index after [n] of at most [N] operations. *)
Record small (N n : nat) x es : Prop := {
  sm_length : length es ≤ n;
  sm_count : (0 ≤ headerNumEntries (indexHeader x) ≤ Z.of_nat n)%Z;
  sm_primary : length (pSlots x) ≤ 16 + 2 * n;
  sm_overflow : length (oSlots x) ≤ length (pSlots x) * (2 * S N) + n;
}.

Lemma small_room N n x es : small N n x es → n < N → (Z.of_nat N ≤ 2 ^ 14)%Z → room x es (headerNumEntries (indexHeader x) + 1).
Proof.
  intros [Hes Hc Hp Ho] HnN HN. pose proof (slots_for_bound (headerNumEntries (indexHeader x) + 1) ltac:(lia)) as Hs. set (s := slots_for _) in *.
  split; [lia| |lia]. fold s. assert (Hmax : (Z.max 0 (s - Z.of_nat (length (pSlots x))) * (2 * Z.of_nat (S (length es))) ≤ Z.max 0 (s - Z.of_nat (length (pSlots x))) * (2 * Z.of_nat (S N)))%Z) by nia.
  assert (Hsum : (Z.of_nat (length (pSlots x)) + Z.max 0 (s - Z.of_nat (length (pSlots x))) ≤ 16 + 2 * Z.of_nat N)%Z) by lia. nia.
Qed.

Lemma small_overflow N n x es : small N n x es → n ≤ N → (Z.of_nat N ≤ 2 ^ 14)%Z → (Z.of_nat (length (oSlots x)) < 2 ^ 31)%Z.
Proof. intros [Hes Hc Hp Ho] Hn HN. nia. Qed.

Lemma small_fresh N x : length (pSlots x) = 16 → oSlots x = [] → headerNumEntries (indexHeader x) = 0%Z → small N 0 x [].
Proof. intros Hp Ho Hc. split; rewrite ?Hp, ?Ho, ?Hc; cbn [length]; lia. Qed.

Lemma small_later N n n' x es : n ≤ n' → small N n x es → small N n' x es.
Proof. intros Hn [H1 H2 H3 H4]. split; lia. Qed.

Lemma append_small N n x es (k : K) v vis :
  represents x es → small N n x es → n < N → (Z.of_nat N ≤ 2 ^ 14)%Z →
  ∃ b x', append k v vis x = (Ok b, x') ∧ (b = true ↔ ¬ visible k vis es) ∧ let es' := if (b : bool) then MkEntry k v :: es else es in
    represents x' es' ∧ small N (S n) x' es' ∧ headerNumEntries (indexHeader x') = (headerNumEntries (indexHeader x) + if (b : bool) then 1 else 0)%Z.
Proof.
  intros H Hs Hn HN. pose proof Hs as [Hes Hc Hp Ho]. destruct (append_run x es k v vis H (small_room N n x es Hs Hn HN)) as (b & x' & Hrun & Hp' & Ho' & Hres).
  pose proof (slots_for_bound (headerNumEntries (indexHeader x) + 1) ltac:(lia)) as Hsl. exists b, x'. split; [exact Hrun|].
  assert (Hovf : length (oSlots x') ≤ length (pSlots x') * (2 * S N) + S n).
  { assert ((length (pSlots x') - length (pSlots x)) * (2 * S (length es)) ≤ (length (pSlots x') - length (pSlots x)) * (2 * S N)) by nia. assert (length (pSlots x) ≤ length (pSlots x')) by lia. nia. }
  destruct b; destruct Hres as (Hv & H' & Hc'); (split; [split; [intros E; discriminate E || exact Hv|intros E; contradiction || reflexivity]|]); (split; [exact H'|]); (split; [split; cbn [length]; lia|lia]).
Qed.
End Growing.

(** * Theorems of the in-memory hash index

    The index is a bag of entries: a lookup finds a visible entry of the key exactly when there is one, an append adds an entry
    exactly when there is none, a deletion removes one entry, and growing keeps them all. With every entry visible, any
    sequence of operations on a new index does what it does on a finite map. *)

(** ** Buffers *)

Section Buffers.
Context {K : Type} `{HK : IndexHashable K} `{Hok : !IndexHashableOk K} `{Hlost : LostSlots}.
Implicit Types (x : InMemHashIndex K) (es : list (SlotEntry K)).

Definition entry_of (q : K * Z) : SlotEntry K := MkEntry q.1 q.2.

(** The entries a buffer adds to [es]: those before the first one whose key is visible by then. *)
Fixpoint accepted (vis : Z → bool) (buffer : list (K * Z)) es : list (SlotEntry K) :=
  match buffer with
  | [] => []
  | q :: buffer' =>
      if existsb (λ e, bool_decide (key e = q.1) && vis (value e)) es then [] else entry_of q :: accepted vis buffer' (entry_of q :: es)
  end.

Lemma visible_existsb (k : K) vis es : visible k vis es ↔ existsb (λ e, bool_decide (key e = k) && vis (value e)) es = true.
Proof.
  rewrite existsb_exists. split.
  - intros (e & He & Hk & Hv). exists e. split; [apply list_elem_of_In; exact He|]. rewrite bool_decide_eq_true_2, Hv by exact Hk. reflexivity.
  - intros (e & He & Hb). apply andb_true_iff in Hb as [Hk Hv]. exists e. split; [apply list_elem_of_In; exact He|]. split; [apply bool_decide_eq_true in Hk; exact Hk|exact Hv].
Qed.

Lemma append_loop_run vis : ∀ buffer x es n,
  represents x es → (Z.of_nat (length (oSlots x) + length buffer) < 2 ^ 32)%Z → (headerNumEntries (indexHeader x) + Z.of_nat (length buffer) < 2 ^ 64)%Z →
  ∃ x', append_loop buffer n vis x = (Ok (n + length (accepted vis buffer es)), x') ∧ represents x' (rev (accepted vis buffer es) ++ es).
Proof.
  intros buffer. induction buffer as [|[k v] buffer IH]; intros x es n H Ho Hc; cbn [append_loop accepted].
  - exists x. cbn [length rev app]. rewrite Nat.add_0_r. auto.
  - cbn [length] in Ho, Hc. destruct (appendInternal_run x es k v vis H ltac:(lia) ltac:(lia)) as ([] & x1 & Hrun & Hp & Hres); rewrite (M_bind_ok _ _ _ _ _ Hrun); cbn [fst].
    + destruct Hres as (Hno & H1 & Hc1 & Ho1). rewrite visible_existsb in Hno. apply not_true_is_false in Hno as ->.
      destruct (IH x1 (MkEntry k v :: es) (S n) H1 ltac:(lia) ltac:(lia)) as (x2 & Hrun2 & H2). exists x2. cbn [length rev]. rewrite Hrun2, <- app_assoc. split; [|exact H2].
      unfold entry_of. cbn [fst snd]. do 2 f_equal. lia.
    + destruct Hres as (Hyes & ->). apply visible_existsb in Hyes as ->. exists x. cbn [length rev app]. rewrite Nat.add_0_r. auto.
Qed.

(** The count [append] reserves for. *)
Definition buffer_demand x (buffer : list (K * Z)) (offset : nat) : Z := (headerNumEntries (indexHeader x) + Z.of_nat (length buffer) - Z.of_nat offset)%Z.

(** Appending a buffer from an offset adds its entries in order up to the first whose key has a visible entry by then, keeps
    what was there, and returns how many were added. *)
Theorem hash_index_append x es buffer offset vis :
  represents x es → offset ≤ length buffer → (slots_for (K := K) (buffer_demand x buffer offset) ≤ 2 ^ 30)%Z →
  (Z.of_nat (length (oSlots x)) + Z.max 0 (slots_for (K := K) (buffer_demand x buffer offset) - Z.of_nat (length (pSlots x))) * (2 * Z.of_nat (S (length es))) +
    Z.of_nat (length buffer) < 2 ^ 32)%Z →
  (headerNumEntries (indexHeader x) + Z.of_nat (length buffer) < 2 ^ 64)%Z →
  let added := accepted vis (drop offset buffer) es in
  ∃ x', append_buffer buffer offset vis x = (Ok (length added), x') ∧ represents x' (rev added ++ es).
Proof.
  intros H Hoff Hs Hr Hc. cbn zeta. unfold append_buffer. rewrite (M_bind_ok get_state _ x x x eq_refl). fold (buffer_demand x buffer offset). set (n := buffer_demand x buffer offset) in *.
  destruct (reserve_run x es n H Hs ltac:(nia)) as (x1 & Hrun & H1 & Hp1 & Ho1 & Hc1). rewrite (M_bind_ok _ _ _ _ _ Hrun).
  assert (Hd : (Z.of_nat (length (pSlots x1) - length (pSlots x)) = Z.max 0 (slots_for (K := K) n - Z.of_nat (length (pSlots x))))%Z) by lia. rewrite <- Hd in Hr.
  destruct (append_loop_run vis (drop offset buffer) x1 es 0 H1) as (x2 & Hrun2 & H2); try (rewrite length_drop; lia). exists x2. auto.
Qed.
End Buffers.

(** A new index of integer keys. *)
Definition new_index : InMemHashIndex Z := match InMemHashIndex_new with Ok x => x | Throw _ => MkIndex [] [] HashIndexHeader_new 0 end.

#[local] Existing Instance none_lost.
Lemma new_index_empty : represents new_index [] ∧ length (pSlots new_index) = 16 ∧ oSlots new_index = [] ∧ headerNumEntries (indexHeader new_index) = 0%Z.
Proof. destruct (new_run (K := Z)) as (x & E & H). unfold new_index. rewrite E. exact H. Qed.

Lemma hash_index_append_witness :
  ∃ x', append_buffer [(5, 0); (7, 1); (5, 2); (9, 3)]%Z 0 (λ _, true) new_index = (Ok 2, x') ∧ represents x' [MkEntry 7 1; MkEntry 5 0]%Z.
Proof.
  assert (E : accepted (λ _, true) (drop 0 [(5, 0); (7, 1); (5, 2); (9, 3)]%Z) [] = [MkEntry 5 0; MkEntry 7 1]%Z) by (vm_compute; reflexivity).
  pose proof (hash_index_append new_index [] [(5, 0); (7, 1); (5, 2); (9, 3)]%Z 0 (λ _, true)) as H. cbn zeta in H. rewrite E in H.
  apply H; [apply new_index_empty|cbn; lia|vm_compute; discriminate|vm_compute; reflexivity|vm_compute; reflexivity].
Defined.

(** ** Single operations *)

Section Single.
Context {K : Type} `{HK : IndexHashable K} `{Hok : !IndexHashableOk K} `{Hlost : LostSlots}.
Implicit Types (x : InMemHashIndex K) (es : list (SlotEntry K)).

(** A lookup returns, and leaves the index alone: it yields the value of a visible entry of the key, and nothing exactly when
    no entry of the key is visible. *)
Theorem hash_index_lookup x es (k : K) vis :
  represents x es →
  ∃ r, lookup k vis x = (Ok r, x) ∧ (r = None ↔ ¬ visible k vis es) ∧ ∀ v, r = Some v → MkEntry k v ∈ es ∧ vis v = true.
Proof.
  intros H. destruct (lookup_run x es k vis H) as ([v|] & Hrun & Hr); eexists; (split; [exact Hrun|]).
  - destruct Hr as [Hin Hv]. split; [|intros v' E; injection E as <-; auto]. split; [discriminate|]. intros Hno. destruct Hno. exists (MkEntry k v). auto.
  - split; [tauto|discriminate].
Qed.

(** Deleting a key removes one entry of it and keeps all others, and fails exactly when the key has no entry. *)
Theorem hash_index_delete x es (k : K) :
  represents x es → (Z.of_nat (length (oSlots x)) < 2 ^ 32)%Z →
  ∃ b x', deleteKey k x = (Ok b, x') ∧ (b = true ↔ ∃ v, MkEntry k v ∈ es) ∧
    ∃ es', represents x' es' ∧ if (b : bool) then ∃ v, es ≡ₚ MkEntry k v :: es' else es' = es ∧ x' = x.
Proof.
  intros H Ho. destruct (deleteKey_run x es k H Ho) as (b & x' & Hrun & Hr). exists b, x'. split; [exact Hrun|]. destruct b.
  - destruct Hr as ([k' v] & es' & Hk & Hp & H' & _). cbn in Hk. subst k'. split; [|exists es'; eauto]. split; [|reflexivity]. intros _. exists v. rewrite Hp. left.
  - destruct Hr as [Hno ->]. split; [|exists es; auto]. split; [discriminate|]. intros (v & Hv). destruct (Hno _ Hv eq_refl).
Qed.

(** Reserving keeps the entries and returns with at least the primary slots the count asks for. *)
Theorem hash_index_reserve x es n :
  represents x es → (slots_for (K := K) n ≤ 2 ^ 30)%Z →
  (Z.of_nat (length (oSlots x)) + (slots_for (K := K) n - Z.of_nat (length (pSlots x))) * (2 * Z.of_nat (S (length es))) < 2 ^ 32)%Z →
  ∃ x', reserve n x = (Ok tt, x') ∧ represents x' es ∧ Z.of_nat (length (pSlots x')) = Z.max (Z.of_nat (length (pSlots x))) (slots_for (K := K) n).
Proof. intros H Hs Hr. destruct (reserve_run x es n H Hs Hr) as (x' & Hrun & H' & Hp & _). eauto. Qed.
End Single.

(** ** Sequences of operations *)

#[local] Existing Instance none_lost.

Section Map.
Context {K : Type} `{HK : IndexHashable K} `{Hok : !IndexHashableOk K} `{Countable K}.
Implicit Types (x : InMemHashIndex K) (es : list (SlotEntry K)) (m : gmap K Z).

Inductive op := Append (k : K) (v : Z) | Delete (k : K) | Lookup (k : K).
Inductive result := Done (b : bool) | Value (v : option Z).

Definition exec (o : op) : M (InMemHashIndex K) result :=
  match o with
  | Append k v => b ← append k v (λ _, true); mret (Done b)
  | Delete k => b ← deleteKey k; mret (Done b)
  | Lookup k => v ← lookup k (λ _, true); mret (Value v)
  end.
Fixpoint exec_all (os : list op) : M (InMemHashIndex K) (list result) :=
  match os with [] => mret [] | o :: os' => r ← exec o; rs ← exec_all os'; mret (r :: rs) end.

(** The same on a finite map. *)
Definition spec (o : op) (m : gmap K Z) : result * gmap K Z :=
  match o with
  | Append k v => if decide (is_Some (m !! k)) then (Done false, m) else (Done true, <[k := v]> m)
  | Delete k => (Done (bool_decide (is_Some (m !! k))), delete k m)
  | Lookup k => (Value (m !! k), m)
  end.
Fixpoint spec_all (os : list op) (m : gmap K Z) : list result :=
  match os with [] => [] | o :: os' => let '(r, m') := spec o m in r :: spec_all os' m' end.

(** The entries of a map. *)
Definition entries_of m es : Prop := NoDup (key <$> es) ∧ ∀ k v, MkEntry k v ∈ es ↔ m !! k = Some v.

Lemma entries_of_visible m es (k : K) : entries_of m es → visible k (λ _, true) es ↔ is_Some (m !! k).
Proof.
  intros [_ Hm]. split.
  - intros ([k' v] & Hin & Hk & _). cbn in Hk. subst k'. exists v. apply Hm, Hin.
  - intros [v Hv]. exists (MkEntry k v). split; [apply Hm, Hv|auto].
Qed.

Lemma entries_of_insert m es (k : K) v : entries_of m es → m !! k = None → entries_of (<[k := v]> m) (MkEntry k v :: es).
Proof.
  intros [Hnd Hm] Hk. split.
  - cbn. constructor; [|exact Hnd]. intros Hin. apply list_elem_of_fmap in Hin as ([k' v'] & E & Hin). cbn in E. subst k'. apply Hm in Hin. congruence.
  - intros k' v'. rewrite elem_of_cons, Hm, lookup_insert_Some. split.
    + intros [E|E]; [injection E as -> ->; auto|]. right. split; [congruence|exact E].
    + intros [[-> ->]|[_ E]]; auto.
Qed.

Lemma entries_of_delete m es es' (k : K) v : entries_of m es → es ≡ₚ MkEntry k v :: es' → entries_of (delete k m) es'.
Proof.
  intros [Hnd Hm] Hp. rewrite Hp in Hnd. cbn in Hnd. apply NoDup_cons in Hnd as [Hk Hnd]. split; [exact Hnd|]. intros k' v'. rewrite lookup_delete_Some. split.
  - intros Hin. split; [intros <-; apply Hk, list_elem_of_fmap; exists (MkEntry k v'); auto|]. apply Hm. rewrite Hp. right. exact Hin.
  - intros [Hne Hl]. apply Hm in Hl. rewrite Hp in Hl. apply elem_of_cons in Hl as [E|Hl]; [congruence|exact Hl].
Qed.

Lemma entries_of_empty : entries_of ∅ [].
Proof. split; [constructor|]. intros k v. rewrite lookup_empty, elem_of_nil. split; [tauto|discriminate]. Qed.

#[local] Instance entries_of_proper m : Proper ((≡ₚ) ==> iff) (entries_of m).
Proof. intros es es' Hp. unfold entries_of. setoid_rewrite Hp. reflexivity. Qed.

(** An index after [n] of at most [N] operations, and the map. *)
Definition simulates (N n : nat) x m : Prop := ∃ es, represents x es ∧ entries_of m es ∧ small N n x es.

Lemma append_step N n x m (k : K) v :
  simulates N n x m → n < N → (Z.of_nat N ≤ 2 ^ 14)%Z →
  ∃ x', exec (Append k v) x = (Ok (spec (Append k v) m).1, x') ∧ simulates N (S n) x' (spec (Append k v) m).2.
Proof.
  intros (es & Hr & Hm & Hs) Hn HN. destruct (append_small N n x es k v (λ _, true) Hr Hs Hn HN) as (b & x' & Hrun & Hb & Hr' & Hs' & _).
  exists x'. cbn [exec spec]. rewrite (M_bind_ok _ _ _ _ _ Hrun). rewrite (entries_of_visible m es k Hm) in Hb.
  destruct (decide (is_Some (m !! k))) as [Hk|Hk], b; cbn [fst snd]; try (destruct (proj1 Hb eq_refl Hk)); try (discriminate (proj2 Hb Hk)); (split; [reflexivity|]); eexists; (split; [exact Hr'|]); (split; [|exact Hs']).
  - exact Hm.
  - apply (entries_of_insert m es k v Hm). apply eq_None_not_Some, Hk.
Qed.

Lemma delete_step N n x m (k : K) :
  simulates N n x m → n < N → (Z.of_nat N ≤ 2 ^ 14)%Z → ∃ x', exec (Delete k) x = (Ok (spec (Delete k) m).1, x') ∧ simulates N (S n) x' (spec (Delete k) m).2.
Proof.
  intros (es & Hr & Hm & Hs) Hn HN. pose proof (small_overflow N n x es Hs ltac:(lia) HN). destruct (deleteKey_run x es k Hr ltac:(lia)) as (b & x' & Hrun & Hres).
  exists x'. cbn [exec spec fst snd]. rewrite (M_bind_ok _ _ _ _ _ Hrun). destruct b.
  - destruct Hres as ([k' v] & es' & Hk & Hperm & H' & Hp' & Ho' & Hc'). cbn in Hk. subst k'. assert (Hin : m !! k = Some v) by (apply Hm; rewrite Hperm; left).
    rewrite bool_decide_eq_true_2 by eauto. split; [reflexivity|]. exists es'. split; [exact H'|]. split; [exact (entries_of_delete m es es' k v Hm Hperm)|].
    pose proof (Permutation_length Hperm) as Hl. cbn [length] in Hl. destruct Hs. split; rewrite ?Hp', ?Ho', ?Hc'; lia.
  - destruct Hres as (Hno & ->). assert (Hk : m !! k = None) by (apply eq_None_not_Some; intros [v Hv]; apply Hm in Hv; exact (Hno _ Hv eq_refl)).
    rewrite bool_decide_eq_false_2 by (rewrite Hk; apply is_Some_None). split; [reflexivity|]. exists es. rewrite delete_id by exact Hk. split; [exact Hr|]. split; [exact Hm|apply (small_later N n); [lia|exact Hs]].
Qed.

Lemma lookup_step N n x m (k : K) :
  simulates N n x m → ∃ x', exec (Lookup k) x = (Ok (spec (Lookup k) m).1, x') ∧ simulates N (S n) x' (spec (Lookup k) m).2.
Proof.
  intros (es & Hr & Hm & Hs). destruct (lookup_run x es k (λ _, true) Hr) as (r & Hrun & Hres). exists x. cbn [exec spec fst snd]. rewrite (M_bind_ok _ _ _ _ _ Hrun).
  assert (r = m !! k) as ->.
  { destruct r as [v|]; [symmetry; apply Hm, Hres|]. symmetry. apply eq_None_not_Some. rewrite <- (entries_of_visible m es k Hm). exact Hres. }
  split; [reflexivity|]. exists es. split; [exact Hr|]. split; [exact Hm|apply (small_later N n); [lia|exact Hs]].
Qed.

Lemma exec_all_run N : (Z.of_nat N ≤ 2 ^ 14)%Z → ∀ os n x m, simulates N n x m → n + length os ≤ N → ∃ x', exec_all os x = (Ok (spec_all os m), x').
Proof.
  intros HN os. induction os as [|o os IH]; intros n x m Hs Hn; cbn [exec_all spec_all length] in *; [exists x; reflexivity|].
  assert (Hstep : ∃ x', exec o x = (Ok (spec o m).1, x') ∧ simulates N (S n) x' (spec o m).2).
  { destruct o as [k v|k|k]; [apply (append_step N n)|apply (delete_step N n)|apply (lookup_step N n)]; assumption || lia. }
  destruct Hstep as (x1 & Hrun & Hs1). destruct (spec o m) as [r m']. cbn [fst snd] in *. rewrite (M_bind_ok _ _ _ _ _ Hrun).
  destruct (IH (S n) x1 m' Hs1 ltac:(lia)) as (x2 & Hrun2). rewrite (M_bind_ok _ _ _ _ _ Hrun2). exists x2. reflexivity.
Qed.

(** C8. From a new index, with every entry visible, any sequence of at most 2^14 appends, deletions and lookups returns, without a
    failed assertion, what the same sequence returns on a finite map: no entry is lost or found under another key by splits, overflow
    chains or reused slots. *)
Theorem hash_index_refines_map os :
  (Z.of_nat (length os) ≤ 2 ^ 14)%Z → ∃ x x', InMemHashIndex_new = Ok x ∧ exec_all os x = (Ok (spec_all os ∅), x').
Proof.
  intros Hos. destruct new_run as (x & Hnew & Hx & Hp & Ho & Hc). exists x. destruct (exec_all_run (length os) Hos os 0 x ∅) as (x' & Hrun); [|lia|eauto].
  exists []. split; [exact Hx|]. split; [exact entries_of_empty|apply small_fresh; assumption].
Qed.
End Map.
#[global] Arguments op : clear implicits.

(** ** Witnesses *)

(** An index with an entry. *)
Lemma one_entry : ∃ x, represents x [MkEntry 5 0]%Z ∧ length (oSlots x) ≤ 1 ∧ length (pSlots x) = 16.
Proof.
  destruct new_index_empty as (H & Hp & Ho & Hc). destruct (appendInternal_run new_index [] 5%Z 0%Z (λ _, true) H) as (b & x & Hrun & Hps & Hres); [rewrite Ho; cbn; lia|rewrite Hc; lia|].
  destruct b; [|destruct Hres as [(e & He & _) _]; inversion He]. destruct Hres as (_ & H' & _ & Ho'). rewrite Ho in Ho'. exists x. split; [exact H'|]. split; [exact Ho'|]. rewrite Hps. exact Hp.
Qed.

Lemma hash_index_lookup_witness : ∃ x, represents x [MkEntry 5 0]%Z ∧ ∃ r, lookup 5%Z (λ _, true) x = (Ok r, x) ∧ r ≠ None.
Proof.
  destruct one_entry as (x & H & _). exists x. split; [exact H|]. destruct (hash_index_lookup x [MkEntry 5 0]%Z 5%Z (λ _, true) H) as (r & Hrun & Hnone & _).
  exists r. split; [exact Hrun|]. intros E. apply Hnone in E. apply E. exists (MkEntry 5 0)%Z. split; [left|split; reflexivity].
Defined.

Lemma hash_index_delete_witness : ∃ x b x', represents x [MkEntry 5 0]%Z ∧ deleteKey 5%Z x = (Ok b, x') ∧ b = true.
Proof.
  destruct one_entry as (x & H & Ho & _). destruct (hash_index_delete x [MkEntry 5 0]%Z 5%Z H ltac:(lia)) as (b & x' & Hrun & Hb & _).
  exists x, b, x'. split; [exact H|]. split; [exact Hrun|]. apply Hb. exists 0%Z. left.
Defined.

Lemma hash_index_reserve_witness : ∃ x x', represents x [MkEntry 5 0]%Z ∧ reserve 300 x = (Ok tt, x') ∧ represents x' [MkEntry 5 0]%Z ∧ length (pSlots x') = 33.
Proof.
  assert (E : slots_for (K := Z) 300 = 33%Z) by (vm_compute; reflexivity). destruct one_entry as (x & H & Ho & Hp).
  destruct (hash_index_reserve x [MkEntry 5 0]%Z 300 H) as (x' & Hrun & H' & Hps); rewrite ?E, ?Hp in *; cbn [length] in *; try lia. exists x, x'. split; [exact H|]. split; [exact Hrun|]. split; [exact H'|lia].
Defined.

Lemma hash_index_refines_map_witness :
  ∃ x x', InMemHashIndex_new = Ok x ∧
    exec_all [Append 5 0; Append 7 1; Append 5 2; Lookup 7; Delete 5; Lookup 5; Delete 5; Append 5 3; Lookup 5]%Z x =
      (Ok [Done true; Done true; Done false; Value (Some 1); Done true; Value None; Done false; Done true; Value (Some 3)]%Z, x').
Proof.
  assert (E : spec_all [Append 5 0; Append 7 1; Append 5 2; Lookup 7; Delete 5; Lookup 5; Delete 5; Append 5 3; Lookup 5]%Z ∅ =
    [Done true; Done true; Done false; Value (Some 1); Done true; Value None; Done false; Done true; Value (Some 3)]%Z) by (vm_compute; reflexivity).
  rewrite <- E. apply (hash_index_refines_map [Append 5 0; Append 7 1; Append 5 2; Lookup 7; Delete 5; Lookup 5; Delete 5; Append 5 3; Lookup 5]%Z). cbn. lia.
Defined.

(** ** What the counters do not say *)

(** [reserveOverflowSlots] is called so that the chain of free slots is as long as the split needs; asked for four slots, it allocates
    four and puts two of them in the chain, since the bound of its loop shrinks with every slot it adds. The other two belong to no
    chain and are never used. *)
Theorem reserved_slots_lost :
  ∃ x', reserveOverflowSlots 4 new_index = (Ok tt, x') ∧ length (oSlots x') = 4 ∧ numFreeSlots x' = 2%Z ∧
    (firstFreeOverflowSlotId (indexHeader x'), nextOvfSlotId ∘ header <$> oSlots x') = (1, [INVALID_OVERFLOW_SLOT_ID; 0; INVALID_OVERFLOW_SLOT_ID; INVALID_OVERFLOW_SLOT_ID])%Z.
Proof. eexists. split; [vm_compute; reflexivity|]. vm_compute. auto. Qed.

(** [clear] forgets the overflow slots and keeps their count: two free slots are counted and there are none. *)
Theorem clear_keeps_free_count :
  ∃ x', (reserveOverflowSlots 4 ;; clear) new_index = (Ok tt, x') ∧ oSlots x' = [] ∧ firstFreeOverflowSlotId (indexHeader x') = INVALID_OVERFLOW_SLOT_ID ∧ numFreeSlots x' = 2%Z.
Proof. eexists. split; [vm_compute; reflexivity|]. vm_compute. auto. Qed.

(** [deleteKey] does not change the number of entries: an index without entries has size one. *)
Theorem delete_keeps_size :
  ∃ x', (append 5%Z 0%Z (λ _, true) ;; deleteKey 5%Z ;; lookup 5%Z (λ _, true)) new_index = (Ok None, x') ∧ headerNumEntries (indexHeader x') = 1%Z.
Proof. eexists. split; [vm_compute; reflexivity|]. vm_compute. auto. Qed.
