(* ===== verification/LocalHashIndex.v ===== *)
(** * The local part of a hash index

    storage/local_storage/local_hash_index.h: keys inserted and keys deleted since the last checkpoint, in memory. The
    lock of the class is held by every operation as a whole. *)

From stdpp Require Import base numbers list strings.
From Stdlib Require Import ZArith Lia.
From S2P Require Import Prelude HashSlot InMemHashIndex.
Import HashSlot.

Module LocalHashIndex.

Inductive HashIndexLocalLookupState := KEY_FOUND | KEY_DELETED | KEY_NOT_EXIST.

Section Local.
Context {K : Type} `{IndexHashable K}.

(** [localDeletions] is a set: no key is in the list twice. *)
Record HashIndexLocalStorage := MkLocal {
  localDeletions : list K;
  localInsertions : InMemHashIndex.InMemHashIndex K;
}.
Definition set_localDeletions (l : list K) (s : HashIndexLocalStorage) : HashIndexLocalStorage := MkLocal l (localInsertions s).
Definition set_localInsertions (i : InMemHashIndex.InMemHashIndex K) (s : HashIndexLocalStorage) : HashIndexLocalStorage := MkLocal (localDeletions s) i.

(** An operation on the insertions. *)
Definition on_insertions {A} (m : M (InMemHashIndex.InMemHashIndex K) A) : M HashIndexLocalStorage A :=
  λ s, let '(r, i) := m (localInsertions s) in (r, set_localInsertions i s).

Definition contains (k : K) (l : list K) : bool := bool_decide (k ∈ l).
Definition erase (k : K) (l : list K) : list K := filter (λ k', k' ≠ k) l.

(** The result and the offset written for it. *)
Definition lookup (k : K) (isVisible : Z → bool) : M HashIndexLocalStorage (HashIndexLocalLookupState * option Z) :=
  s ← get_state;
  if contains k (localDeletions s) then mret (KEY_DELETED, None)
  else
    r ← on_insertions (InMemHashIndex.lookup k isVisible);
    mret (match r with Some _ => KEY_FOUND | None => KEY_NOT_EXIST end, r).

Definition deleteKey (k : K) : M HashIndexLocalStorage unit :=
  deleted ← on_insertions (InMemHashIndex.deleteKey k);
  if deleted : bool then mret tt
  else modify (λ s, set_localDeletions (if contains k (localDeletions s) then localDeletions s else k :: localDeletions s) s).

Definition discard (k : K) : M HashIndexLocalStorage bool := on_insertions (InMemHashIndex.deleteKey k).

Definition insert (k : K) (v : Z) (isVisible : Z → bool) : M HashIndexLocalStorage bool :=
  modify (λ s, set_localDeletions (erase k (localDeletions s)) s) ;;
  on_insertions (InMemHashIndex.append k v isVisible).

Definition reserveSpaceForAppend (n : Z) : M HashIndexLocalStorage unit := on_insertions (InMemHashIndex.reserveSpaceForAppend n).
Definition append (k : K) (v : Z) (isVisible : Z → bool) : M HashIndexLocalStorage bool := on_insertions (InMemHashIndex.append k v isVisible).
Definition append_buffer (buffer : list (K * Z)) (bufferOffset : nat) (isVisible : Z → bool) : M HashIndexLocalStorage nat :=
  on_insertions (InMemHashIndex.append_buffer buffer bufferOffset isVisible).

(** [size] and [empty] of the insertions *)
Definition insertions_size (s : HashIndexLocalStorage) : Z := headerNumEntries (InMemHashIndex.indexHeader (localInsertions s)).
Definition hasUpdates (s : HashIndexLocalStorage) : bool := negb ((insertions_size s =? 0)%Z && (length (localDeletions s) =? 0)).
(** The difference of two unsigned numbers, as an [int64_t]. *)
Definition getNetInserts (s : HashIndexLocalStorage) : Z :=
  let d := uwrap 64 (insertions_size s - Z.of_nat (length (localDeletions s))) in if (d <? 2 ^ 63)%Z then d else (d - 2 ^ 64)%Z.

Definition clear : M HashIndexLocalStorage unit :=
  on_insertions InMemHashIndex.clear ;;
  modify (set_localDeletions []).
Definition reserveInserts (newEntries : Z) : M HashIndexLocalStorage unit := on_insertions (InMemHashIndex.reserve newEntries).

Definition HashIndexLocalStorage_new : outcome HashIndexLocalStorage :=
  match InMemHashIndex.InMemHashIndex_new with Ok i => Ok (MkLocal [] i) | Throw e => Throw e end.
End Local.
#[global] Arguments HashIndexLocalStorage : clear implicits.
End LocalHashIndex.
