(* ===== verification/DiskArray.v ===== *)
(** * Disk arrays

    storage/disk_array.{h,cpp}: arrays of elements of one size in the pages of a file. Array pages hold the elements; page indices pages (PIPs), chained
    from the header, hold the numbers of the array pages. A checkpoint sees and makes changes, the others see the array of the last checkpoint. Pages that
    were on disk change through the shadow file (storage/shadow_utils.cpp), newer ones directly. *)

From stdpp Require Import base numbers list gmap strings pretty.
From Stdlib Require Import ZArith Lia.
From S2P Require Import Prelude.

(** ** What a disk array promises

    The elements a checkpoint sees and changes, and those everybody else sees. *)

Module VersionedArray.
Section Arrays.
Context {A : Type}.

Record VersionedArray := MkArray { committed : list A; current : list A }.

Definition elements (checkpoint : bool) (a : VersionedArray) : list A := if checkpoint then current a else committed a.
Definition getNumElements (checkpoint : bool) (a : VersionedArray) : Z := Z.of_nat (length (elements checkpoint a)).
Definition update (idx : Z) (v : A) (a : VersionedArray) : VersionedArray := MkArray (committed a) (<[Z.to_nat idx := v]> (current a)).
Definition pushBack (v : A) (a : VersionedArray) : VersionedArray := MkArray (committed a) (current a ++ [v]).
Definition resize (n : Z) (v : A) (a : VersionedArray) : VersionedArray :=
  MkArray (committed a) (current a ++ replicate (Z.to_nat n - length (current a)) v).
Definition checkpointInMemory (a : VersionedArray) : VersionedArray := MkArray (current a) (current a).
Definition rollbackInMemory (a : VersionedArray) : VersionedArray := MkArray (committed a) (committed a).
End Arrays.
#[global] Arguments VersionedArray : clear implicits.
End VersionedArray.

#[local] Open Scope Z_scope.

(** ** Data *)

Module DiskArray.

Definition INVALID_PAGE_IDX : Z := 4294967295.
Definition NULL_PAGE_IDX : Z := INVALID_PAGE_IDX.
Definition UINT32_MAX : Z := 4294967295.
Definition NUM_PAGE_IDXS_PER_PIP : Z := (Z.of_nat KUZU_PAGE_SIZE - 4) / 4.

Record DiskArrayHeader := MkHeader { numElements : Z; firstPIPPageIdx : Z }.
Definition DiskArrayHeader_new : DiskArrayHeader := MkHeader 0 INVALID_PAGE_IDX.

Record PIP := MkPIP { nextPipPageIdx : Z; pageIdxs : list Z }.
Definition PIP_new : PIP := MkPIP NULL_PAGE_IDX (replicate (Z.to_nat NUM_PAGE_IDXS_PER_PIP) NULL_PAGE_IDX).
Record PIPWrapper := MkPIPWrapper { pipPageIdx : Z; pipContents : PIP }.
Definition set_next (p : Z) (w : PIPWrapper) : PIPWrapper := MkPIPWrapper (pipPageIdx w) (MkPIP p (pageIdxs (pipContents w))).
Definition set_pageIdx (offset : Z) (p : Z) (w : PIPWrapper) : PIPWrapper :=
  MkPIPWrapper (pipPageIdx w) (MkPIP (nextPipPageIdx (pipContents w)) (<[Z.to_nat offset := p]> (pageIdxs (pipContents w)))).

Section Arrays.
Context {U : Type}.
Variable elementSize : Z.
(** What is in a frame that has not been read. *)
Variable junk : list U.

(** [PageStorageInfo] *)
Definition alignedElementSize : Z := 2 ^ Z.log2_up elementSize.
Definition numElementsPerPage : Z := Z.of_nat KUZU_PAGE_SIZE / alignedElementSize.

(** [getAPIdxAndOffsetInAP]; the offset counts elements. *)
Definition getAPIdxAndOffsetInAP (idx : Z) : Z * Z := (uwrap 32 (idx / numElementsPerPage), idx mod numElementsPerPage).

(** ** Files *)

Inductive PageContent := ArrayPage (cells : list U) | PIPPage (p : PIP).

(** The pages of the data file as its frames have them, what the shadow file writes over them when it is applied, and the pages it has a shadow page for;
    the page numbers that [allocatePage] hands out. *)
Record DiskArray := MkDiskArray {
  original : gmap Z PageContent;
  shadowPages : gmap Z PageContent;
  shadowMap : gset Z;
  allocatable : list Z;
  header : DiskArrayHeader;
  headerForWriteTrx : DiskArrayHeader;
  hasTransactionalUpdates : bool;
  pips : list PIPWrapper;
  updatedLastPIP : option PIPWrapper;
  newPIPs : list PIPWrapper;
  lastAPPageIdx : Z;
  lastPageOnDisk : Z;
}.
Definition set_original (m : gmap Z PageContent) (x : DiskArray) : DiskArray :=
  MkDiskArray m (shadowPages x) (shadowMap x) (allocatable x) (header x) (headerForWriteTrx x) (hasTransactionalUpdates x) (pips x) (updatedLastPIP x) (newPIPs x) (lastAPPageIdx x) (lastPageOnDisk x).
Definition set_shadow (m : gmap Z PageContent) (s : gset Z) (x : DiskArray) : DiskArray :=
  MkDiskArray (original x) m s (allocatable x) (header x) (headerForWriteTrx x) (hasTransactionalUpdates x) (pips x) (updatedLastPIP x) (newPIPs x) (lastAPPageIdx x) (lastPageOnDisk x).
Definition set_allocatable (l : list Z) (x : DiskArray) : DiskArray :=
  MkDiskArray (original x) (shadowPages x) (shadowMap x) l (header x) (headerForWriteTrx x) (hasTransactionalUpdates x) (pips x) (updatedLastPIP x) (newPIPs x) (lastAPPageIdx x) (lastPageOnDisk x).
Definition set_header (h : DiskArrayHeader) (x : DiskArray) : DiskArray :=
  MkDiskArray (original x) (shadowPages x) (shadowMap x) (allocatable x) h (headerForWriteTrx x) (hasTransactionalUpdates x) (pips x) (updatedLastPIP x) (newPIPs x) (lastAPPageIdx x) (lastPageOnDisk x).
Definition set_headerForWriteTrx (h : DiskArrayHeader) (x : DiskArray) : DiskArray :=
  MkDiskArray (original x) (shadowPages x) (shadowMap x) (allocatable x) (header x) h (hasTransactionalUpdates x) (pips x) (updatedLastPIP x) (newPIPs x) (lastAPPageIdx x) (lastPageOnDisk x).
Definition set_updates (b : bool) (x : DiskArray) : DiskArray :=
  MkDiskArray (original x) (shadowPages x) (shadowMap x) (allocatable x) (header x) (headerForWriteTrx x) b (pips x) (updatedLastPIP x) (newPIPs x) (lastAPPageIdx x) (lastPageOnDisk x).
Definition set_pips (ps : list PIPWrapper) (u : option PIPWrapper) (ns : list PIPWrapper) (x : DiskArray) : DiskArray :=
  MkDiskArray (original x) (shadowPages x) (shadowMap x) (allocatable x) (header x) (headerForWriteTrx x) (hasTransactionalUpdates x) ps u ns (lastAPPageIdx x) (lastPageOnDisk x).
Definition set_lastAPPageIdx (p : Z) (x : DiskArray) : DiskArray :=
  MkDiskArray (original x) (shadowPages x) (shadowMap x) (allocatable x) (header x) (headerForWriteTrx x) (hasTransactionalUpdates x) (pips x) (updatedLastPIP x) (newPIPs x) p (lastPageOnDisk x).
Definition set_lastPageOnDisk (p : Z) (x : DiskArray) : DiskArray :=
  MkDiskArray (original x) (shadowPages x) (shadowMap x) (allocatable x) (header x) (headerForWriteTrx x) (hasTransactionalUpdates x) (pips x) (updatedLastPIP x) (newPIPs x) (lastAPPageIdx x) p.

Definition no_page {A} : M DiskArray A := raise (UndefinedBehaviour "no such page").
Definition no_pip {A} : M DiskArray A := raise (UndefinedBehaviour "no such page indices page").

Definition allocatePage : M DiskArray Z :=
  x ← get_state;
  match allocatable x with p :: l => put_state (set_allocatable l x) ;; mret p | [] => no_page end.

(** [createShadowVersionIfNecessaryAndPinPage]: a new shadow page holds the original unless reading it is skipped. *)
Definition createShadowVersionIfNecessary (p : Z) (skipReadingOriginalPage : bool) (blank : PageContent) : M DiskArray unit :=
  x ← get_state;
  if bool_decide (p ∈ shadowMap x) then mret tt
  else
    c ← (if skipReadingOriginalPage then mret blank else match original x !! p with Some c => mret c | None => no_page end);
    put_state (set_shadow (<[p := c]> (shadowPages x)) ({[p]} ∪ shadowMap x) x).
(** Writing to the frame of a shadow page or of a page of the file. *)
Definition write_shadow (p : Z) (g : PageContent → PageContent) : M DiskArray unit :=
  x ← get_state;
  match shadowPages x !! p with Some c => put_state (set_shadow (<[p := g c]> (shadowPages x)) (shadowMap x) x) | None => no_page end.
Definition write_original (p : Z) (g : PageContent → PageContent) : M DiskArray unit :=
  x ← get_state;
  match original x !! p with Some c => put_state (set_original (<[p := g c]> (original x)) x) | None => no_page end.
(** [ShadowUtils::updatePage] *)
Definition shadow_updatePage (p : Z) (skipReadingOriginalPage : bool) (blank : PageContent) (g : PageContent → PageContent) : M DiskArray unit :=
  createShadowVersionIfNecessary p skipReadingOriginalPage blank ;; write_shadow p g.
(** [pinPage] of a page of the file, read from it or not. *)
Definition pinPage (p : Z) (isNewPage : bool) : M DiskArray unit :=
  if isNewPage then modify (λ x, set_original (<[p := ArrayPage junk]> (original x)) x)
  else x ← get_state; match original x !! p with Some _ => mret tt | None => no_page end.

Definition set_cell (pos : Z) (v : U) (c : PageContent) : PageContent :=
  match c with ArrayPage cells => ArrayPage (<[Z.to_nat pos := v]> cells) | PIPPage p => PIPPage p end.
Definition read_cell (pos : Z) (c : option PageContent) : outcome U :=
  match c with
  | Some (ArrayPage cells) => match cells !! Z.to_nat pos with Some v => Ok v | None => Throw (UndefinedBehaviour "past the end of the page") end
  | _ => Throw (UndefinedBehaviour "no such page")
  end.

(** ** Page numbers *)

Definition getDiskArrayHeader (checkpoint : bool) (x : DiskArray) : DiskArrayHeader := if checkpoint then headerForWriteTrx x else header x.
Definition getNumElements (checkpoint : bool) (x : DiskArray) : Z := numElements (getDiskArrayHeader checkpoint x).
Definition getNumAPs (h : DiskArrayHeader) : Z := (numElements h + numElementsPerPage - 1) / numElementsPerPage.

Definition out_of_bounds (idx n : Z) : exn :=
  RuntimeException ("idx: " +:+ pretty idx +:+ " of the DiskArray to be accessed is >= numElements in DiskArray" +:+ pretty n +:+ ".")%string.
(** Called inside [KU_ASSERT], so only by a build that checks assertions, which is the one modelled here; its exception then comes before
    that of the assertion. *)
Definition checkOutOfBoundAccess (checkpoint : bool) (idx : Z) : M DiskArray unit :=
  observe (λ x, let n := getNumElements checkpoint x in if n <=? idx then Throw (out_of_bounds idx n) else Ok tt).

Definition hasPIPUpdatesNoLock (pipIdx : Z) (x : DiskArray) : bool :=
  let n := Z.of_nat (length (pips x)) in
  if n <=? pipIdx then true else (pipIdx =? n - 1) && bool_decide (is_Some (updatedLastPIP x)).

Definition pip_entry (offset : Z) (w : option PIPWrapper) : outcome Z :=
  match w with
  | Some p => match pageIdxs (pipContents p) !! Z.to_nat offset with Some i => Ok i | None => Throw (UndefinedBehaviour "no such entry") end
  | None => Throw (UndefinedBehaviour "no such page indices page")
  end.
Definition getAPPageIdxNoLock (apIdx : Z) (checkpoint : bool) : M DiskArray Z :=
  x ← get_state;
  let pipIdx := apIdx / NUM_PAGE_IDXS_PER_PIP in
  let offsetInPIP := apIdx mod NUM_PAGE_IDXS_PER_PIP in
  let n := Z.of_nat (length (pips x)) in
  if negb checkpoint || negb (hasPIPUpdatesNoLock pipIdx x) then observe (λ _, pip_entry offsetInPIP (pips x !! Z.to_nat pipIdx))
  else if (pipIdx =? n - 1) && bool_decide (is_Some (updatedLastPIP x)) then observe (λ _, pip_entry offsetInPIP (updatedLastPIP x))
  else
    ku_assert ((n <=? pipIdx) && (pipIdx - n <? Z.of_nat (length (newPIPs x)))) ;;
    observe (λ _, pip_entry offsetInPIP (newPIPs x !! Z.to_nat (pipIdx - n))).

(** ** Reading and updating *)

Definition get (checkpoint : bool) (idx : Z) : M DiskArray U :=
  checkOutOfBoundAccess checkpoint idx ;;
  let '(apIdx, pos) := getAPIdxAndOffsetInAP idx in
  apPageIdx ← getAPPageIdxNoLock apIdx checkpoint;
  observe (λ x,
    if negb checkpoint || negb (hasTransactionalUpdates x) || (lastPageOnDisk x <? apPageIdx) || bool_decide (apPageIdx ∉ shadowMap x)
    then read_cell pos (original x !! apPageIdx)
    else read_cell pos (shadowPages x !! apPageIdx)).

Definition updatePage (pageIdx : Z) (isNewPage : bool) (g : PageContent → PageContent) : M DiskArray unit :=
  x ← get_state;
  if pageIdx <=? lastPageOnDisk x then shadow_updatePage pageIdx isNewPage (ArrayPage junk) g
  else pinPage pageIdx isNewPage ;; write_original pageIdx g.

Definition update (idx : Z) (val : U) : M DiskArray unit :=
  modify (set_updates true) ;;
  checkOutOfBoundAccess true idx ;;
  let '(apIdx, pos) := getAPIdxAndOffsetInAP idx in
  apPageIdx ← getAPPageIdxNoLock apIdx true;
  updatePage apPageIdx false (set_cell pos val).

(** ** Growing *)

(** An index of [UINT64_MAX] stands for the header. *)
Definition setNextPIPPageIDxOfPIPNoLock (pipIdxOfPreviousPIP : Z) (nextPIPPageIdx : Z) : M DiskArray unit :=
  x ← get_state;
  let n := Z.of_nat (length (pips x)) in
  if pipIdxOfPreviousPIP =? 2 ^ 64 - 1 then
    put_state (set_headerForWriteTrx (MkHeader (numElements (headerForWriteTrx x)) nextPIPPageIdx) x)
  else if n =? 0 then
    if pipIdxOfPreviousPIP <? Z.of_nat (length (newPIPs x))
    then put_state (set_pips (pips x) (updatedLastPIP x) (alter (set_next nextPIPPageIdx) (Z.to_nat pipIdxOfPreviousPIP) (newPIPs x)) x)
    else no_pip
  else
    upd ← (match updatedLastPIP x with
           | Some p => mret p
           | None => match pips x !! Z.to_nat pipIdxOfPreviousPIP with Some p => mret p | None => no_pip end
           end);
    if pipIdxOfPreviousPIP =? n - 1 then put_state (set_pips (pips x) (Some (set_next nextPIPPageIdx upd)) (newPIPs x) x)
    else
      ku_assert ((n <=? pipIdxOfPreviousPIP) && (pipIdxOfPreviousPIP - n <? Z.of_nat (length (newPIPs x)))) ;;
      put_state (set_pips (pips x) (Some upd) (alter (set_next nextPIPPageIdx) (Z.to_nat (pipIdxOfPreviousPIP - n)) (newPIPs x)) x).

(** The array page of [apIdx], and whether it is new. *)
Definition getAPPageIdxAndAddAPToPIPIfNecessary (apIdx : Z) : M DiskArray (Z * bool) :=
  x ← get_state;
  let numAPs := getNumAPs (headerForWriteTrx x) in
  if (apIdx =? uwrap 64 (numAPs - 1)) && negb (lastAPPageIdx x =? INVALID_PAGE_IDX) then mret (lastAPPageIdx x, false)
  else if apIdx <? numAPs then p ← getAPPageIdxNoLock apIdx true; mret (p, false)
  else
    ku_assert (apIdx =? numAPs) ;;
    newAPPageIdx ← allocatePage;
    let pipIdx := apIdx / NUM_PAGE_IDXS_PER_PIP in
    let offset := apIdx mod NUM_PAGE_IDXS_PER_PIP in
    x ← get_state;
    let n := Z.of_nat (length (pips x)) in
    (if pipIdx <? n then
       ku_assert (pipIdx =? n - 1) ;;
       upd ← (match updatedLastPIP x with
              | Some p => mret p
              | None => match pips x !! Z.to_nat pipIdx with Some p => mret p | None => no_pip end
              end);
       put_state (set_pips (pips x) (Some (set_pageIdx offset newAPPageIdx upd)) (newPIPs x) x)
     else if pipIdx - n <? Z.of_nat (length (newPIPs x)) then
       put_state (set_pips (pips x) (updatedLastPIP x) (alter (set_pageIdx offset newAPPageIdx) (Z.to_nat (pipIdx - n)) (newPIPs x)) x)
     else
       pipPageIdx ← allocatePage;
       modify (λ x, set_pips (pips x) (updatedLastPIP x) (newPIPs x ++ [MkPIPWrapper pipPageIdx PIP_new]) x) ;;
       setNextPIPPageIDxOfPIPNoLock (uwrap 64 (pipIdx - 1)) pipPageIdx ;;
       modify (λ x, set_pips (pips x) (updatedLastPIP x) (alter (set_pageIdx offset newAPPageIdx) (length (newPIPs x) - 1)%nat (newPIPs x)) x)) ;;
    mret (newAPPageIdx, true).

(** ** The write iterator *)

(** The cursor, the page of the file it has pinned, and whether it has its shadow page instead. *)
Record WriteIterator := MkIterator { cursorPage : Z; cursorPos : Z; itIdx : Z; originalPage : Z; onShadow : bool }.

Definition iter_mut : M DiskArray WriteIterator :=
  modify (set_updates true) ;; mret (MkIterator UINT32_MAX 65535 0 INVALID_PAGE_IDX false).
Definition unpin (it : WriteIterator) : WriteIterator :=
  if onShadow it then MkIterator (cursorPage it) (cursorPos it) (itIdx it) (originalPage it) false
  else MkIterator (cursorPage it) (cursorPos it) (itIdx it) INVALID_PAGE_IDX false.
Definition getPage (newPageIdx : Z) (isNewlyAdded : bool) (it : WriteIterator) : M DiskArray WriteIterator :=
  let it := unpin it in
  x ← get_state;
  if newPageIdx <=? lastPageOnDisk x then
    createShadowVersionIfNecessary newPageIdx isNewlyAdded (ArrayPage junk) ;; mret (MkIterator (cursorPage it) (cursorPos it) (itIdx it) newPageIdx true)
  else
    pinPage newPageIdx isNewlyAdded ;; mret (MkIterator (cursorPage it) (cursorPos it) (itIdx it) newPageIdx false).
Definition seek (newIdx : Z) (it : WriteIterator) : M DiskArray WriteIterator :=
  x ← get_state;
  ku_assert (newIdx <? numElements (headerForWriteTrx x)) ;;
  let '(apIdx, pos) := getAPIdxAndOffsetInAP newIdx in
  let it' := MkIterator apIdx pos newIdx (originalPage it) (onShadow it) in
  if cursorPage it =? apIdx then mret it'
  else apPageIdx ← getAPPageIdxNoLock apIdx true; getPage apPageIdx false it'.
(** Assigning through [operator*]. *)
Definition assign (val : U) (it : WriteIterator) : M DiskArray unit :=
  x ← get_state;
  ku_assert (itIdx it <? numElements (headerForWriteTrx x)) ;;
  ku_assert (negb (originalPage it =? INVALID_PAGE_IDX)) ;;
  (if onShadow it then write_shadow (originalPage it) (set_cell (cursorPos it) val) else write_original (originalPage it) (set_cell (cursorPos it) val)).
Definition pushBack (val : U) (it : WriteIterator) : M DiskArray WriteIterator :=
  x ← get_state;
  let idx := numElements (headerForWriteTrx x) in
  let '(apIdx, pos) := getAPIdxAndOffsetInAP idx in
  let it' := MkIterator apIdx pos idx (originalPage it) (onShadow it) in
  r ← getAPPageIdxAndAddAPToPIPIfNecessary apIdx;
  let '(apPageIdx, isNewlyAdded) := r in
  modify (λ x, set_headerForWriteTrx (MkHeader (uwrap 64 (numElements (headerForWriteTrx x) + 1)) (firstPIPPageIdx (headerForWriteTrx x))) (set_lastAPPageIdx apPageIdx x)) ;;
  it'' ← (if isNewlyAdded || (originalPage it =? INVALID_PAGE_IDX) || negb (apIdx =? cursorPage it) then getPage apPageIdx isNewlyAdded it' else mret it');
  assign val it'' ;;
  mret it''.

Fixpoint push_times (n : nat) (val : U) (it : WriteIterator) : M DiskArray WriteIterator :=
  match n with O => mret it | S n' => it' ← pushBack val it; push_times n' val it' end.
Definition resize (newNumElements : Z) (defaultVal : U) : M DiskArray Z :=
  it ← iter_mut;
  x ← get_state;
  let originalNumElements := numElements (headerForWriteTrx x) in
  push_times (Z.to_nat (newNumElements - originalNumElements)) defaultVal it ;;
  mret originalNumElements.

(** ** Checkpoints *)

Definition checkpoint : M DiskArray unit :=
  x ← get_state;
  (match updatedLastPIP x with Some p => shadow_updatePage (pipPageIdx p) true (PIPPage PIP_new) (λ _, PIPPage (pipContents p)) | None => mret tt end) ;;
  for_each (newPIPs x) (λ p, shadow_updatePage (pipPageIdx p) true (PIPPage PIP_new) (λ _, PIPPage (pipContents p))).

(** [ShadowFile::clearShadowPage]: the page is still written when the shadow file is applied. *)
Definition clearShadowPage (p : Z) : M DiskArray unit := modify (λ x, set_shadow (shadowPages x) (shadowMap x ∖ {[p]}) x).

Definition updateLastPageOnDisk : M DiskArray unit :=
  x ← get_state;
  let n := numElements (header x) in
  if 0 <? n then p ← getAPPageIdxNoLock (getAPIdxAndOffsetInAP (n - 1)).1 false; modify (set_lastPageOnDisk p)
  else modify (set_lastPageOnDisk 0).

Definition checkpointOrRollbackInMemoryIfNecessary (isCheckpoint : bool) : M DiskArray unit :=
  x ← get_state;
  if negb (hasTransactionalUpdates x) then mret tt
  else
    (match updatedLastPIP x with
     | Some u =>
         match last (pips x) with
         | Some l =>
             let l' := if isCheckpoint then u else l in
             modify (λ x, set_pips (take (length (pips x) - 1) (pips x) ++ [l']) (updatedLastPIP x) (newPIPs x) x) ;; clearShadowPage (pipPageIdx l')
         | None => no_pip
         end
     | None => mret tt
     end) ;;
    for_each (newPIPs x) (λ p, clearShadowPage (pipPageIdx p) ;; if isCheckpoint then modify (λ x, set_pips (pips x ++ [p]) (updatedLastPIP x) (newPIPs x) x) else mret tt) ;;
    modify (λ x, set_pips (pips x) None [] x) ;;
    modify (set_updates false) ;;
    x ← get_state;
    if isCheckpoint && negb (lastPageOnDisk x =? INVALID_PAGE_IDX) then updateLastPageOnDisk else mret tt.

(** What happens around it in a checkpoint: the header is published with those of all arrays ([DiskArrayCollection::checkpointInMemory]) or restored
    ([rollbackCheckpoint]), and the shadow pages are written over the originals and forgotten. *)
Definition publish_header : M DiskArray unit := modify (λ x, set_header (headerForWriteTrx x) x).
Definition restore_header : M DiskArray unit := modify (λ x, set_headerForWriteTrx (header x) x).
Definition applyShadowPages : M DiskArray unit := modify (λ x, set_shadow ∅ ∅ (set_original (shadowPages x ∪ original x) x)).

(** A checkpoint of the array, in the order in which the primary key index and the checkpointer run its parts; and its rollback, which leaves the shadow
    pages ([Checkpointer::rollback]). *)
Definition commit : M DiskArray unit := checkpoint ;; checkpointOrRollbackInMemoryIfNecessary true ;; publish_header ;; applyShadowPages.
Definition rollback : M DiskArray unit := checkpointOrRollbackInMemoryIfNecessary false ;; restore_header.

(** The pages that [reclaimStorage] frees. *)
Definition reclaimStorage (x : DiskArray) : list Z :=
  concat (map (λ p, List.filter (λ i, negb (i =? NULL_PAGE_IDX)) (pageIdxs (pipContents p)) ++ (if pipPageIdx p =? NULL_PAGE_IDX then [] else [pipPageIdx p])) (pips x)).

(** ** Opening an array *)

Fixpoint read_pips (fuel : nat) (file : gmap Z PageContent) (p : Z) : outcome (list PIPWrapper) :=
  if p =? NULL_PAGE_IDX then Ok []
  else
    match fuel, file !! p with
    | S fuel', Some (PIPPage c) => match read_pips fuel' file (nextPipPageIdx c) with Ok l => Ok (MkPIPWrapper p c :: l) | Throw e => Throw e end
    | O, _ => Throw (UndefinedBehaviour "the loop does not end")
    | _, _ => Throw (UndefinedBehaviour "no such page indices page")
    end.
Definition DiskArray_open (file : gmap Z PageContent) (free : list Z) (h : DiskArrayHeader) (bypassShadowing : bool) : outcome DiskArray :=
  match read_pips (size file) file (firstPIPPageIdx h) with
  | Throw e => Throw e
  | Ok l =>
      let x := MkDiskArray file ∅ ∅ free h h false l None [] INVALID_PAGE_IDX INVALID_PAGE_IDX in
      if bypassShadowing then match updateLastPageOnDisk x with (Ok _, x') => Ok x' | (Throw e, _) => Throw e end else Ok x
  end.
End Arrays.
#[global] Arguments PageContent : clear implicits.
#[global] Arguments DiskArray : clear implicits.
End DiskArray.

(** * Collections of disk arrays, and block vectors

    storage/disk_array_collection.{h,cpp}: the headers of the disk arrays of an index, in a chain of header pages with a version for readers and one for
    the checkpoint. Also the block vectors of storage/disk_array.{h,cpp}, arrays in memory in pages of their own. *)

Module DiskArrayCollection.
Import DiskArray.

(** ** Header pages *)

Definition NUM_HEADERS_PER_PAGE : Z := (Z.of_nat KUZU_PAGE_SIZE - 4 - 4) / 16.

Record HeaderPage := MkHeaderPage { headers : list DiskArrayHeader; nextHeaderPage : Z; numHeaders : Z }.
Definition HeaderPage_new : HeaderPage := MkHeaderPage (replicate (Z.to_nat NUM_HEADERS_PER_PAGE) DiskArrayHeader_new) INVALID_PAGE_IDX 0.
Definition put_header (i : nat) (h : DiskArrayHeader) (p : HeaderPage) : HeaderPage := MkHeaderPage (<[i := h]> (headers p)) (nextHeaderPage p) (numHeaders p).
Definition put_next (n : Z) (p : HeaderPage) : HeaderPage := MkHeaderPage (headers p) n (numHeaders p).
Definition count_header (p : HeaderPage) : HeaderPage := MkHeaderPage (headers p) (nextHeaderPage p) (uwrap 32 (numHeaders p + 1)).

#[global] Instance DiskArrayHeader_eq_dec : EqDecision DiskArrayHeader.
Proof. solve_decision. Defined.
#[global] Instance HeaderPage_eq_dec : EqDecision HeaderPage.
Proof. solve_decision. Defined.

(** ** The collection *)

(** The header pages of the file, what the shadow file writes over them, and the pages that can be allocated. *)
Record DiskArrayCollection := MkCollection {
  pagesOnDisk : gmap Z HeaderPage;
  shadowPages : gmap Z HeaderPage;
  allocatable : list Z;
  headerPagesOnDisk : Z;
  headersForReadTrx : list HeaderPage;
  headersForWriteTrx : list HeaderPage;
  totalHeaders : Z;
}.
Definition set_pages (d s : gmap Z HeaderPage) (x : DiskArrayCollection) : DiskArrayCollection :=
  MkCollection d s (allocatable x) (headerPagesOnDisk x) (headersForReadTrx x) (headersForWriteTrx x) (totalHeaders x).
Definition set_headers (r w : list HeaderPage) (x : DiskArrayCollection) : DiskArrayCollection :=
  MkCollection (pagesOnDisk x) (shadowPages x) (allocatable x) (headerPagesOnDisk x) r w (totalHeaders x).
Definition set_onDisk (n : Z) (x : DiskArrayCollection) : DiskArrayCollection :=
  MkCollection (pagesOnDisk x) (shadowPages x) (allocatable x) n (headersForReadTrx x) (headersForWriteTrx x) (totalHeaders x).
Definition set_allocatable (l : list Z) (x : DiskArrayCollection) : DiskArrayCollection :=
  MkCollection (pagesOnDisk x) (shadowPages x) l (headerPagesOnDisk x) (headersForReadTrx x) (headersForWriteTrx x) (totalHeaders x).
Definition set_total (n : Z) (x : DiskArrayCollection) : DiskArrayCollection :=
  MkCollection (pagesOnDisk x) (shadowPages x) (allocatable x) (headerPagesOnDisk x) (headersForReadTrx x) (headersForWriteTrx x) n.

Definition no_page {A} : M DiskArrayCollection A := raise (UndefinedBehaviour "no such header page").

Definition DiskArrayCollection_new (free : list Z) : DiskArrayCollection := MkCollection ∅ ∅ free 0 [HeaderPage_new] [HeaderPage_new] 0.

(** The pages of the chain from [p] on. *)
Fixpoint read_chain (fuel : nat) (file : gmap Z HeaderPage) (p : Z) : outcome (list HeaderPage) :=
  match fuel, file !! p with
  | S fuel', Some page =>
      if nextHeaderPage page =? INVALID_PAGE_IDX then Ok [page]
      else match read_chain fuel' file (nextHeaderPage page) with Ok l => Ok (page :: l) | Throw e => Throw e end
  | O, _ => Throw (UndefinedBehaviour "the loop does not end")
  | _, None => Throw (UndefinedBehaviour "no such header page")
  end.
Definition DiskArrayCollection_open (file : gmap Z HeaderPage) (free : list Z) (firstHeaderPage : Z) : outcome DiskArrayCollection :=
  match read_chain (size file) file firstHeaderPage with
  | Throw e => Throw e
  | Ok l => Ok (MkCollection file ∅ free (Z.of_nat (length l)) l l (foldl (λ n p, uwrap 64 (n + numHeaders p)) 0 l))
  end.

(** The number of the new array. *)
Definition addDiskArray : M DiskArrayCollection Z :=
  x ← get_state;
  let oldSize := totalHeaders x in
  let total := uwrap 64 (oldSize + 1) in
  modify (set_total total) ;;
  let pageIdx := total mod NUM_HEADERS_PER_PAGE in
  (if Z.of_nat (length (headersForWriteTrx x)) <=? pageIdx
   then modify (λ x, set_headers (headersForReadTrx x ++ [HeaderPage_new]) (headersForWriteTrx x ++ [HeaderPage_new]) x) else mret tt) ;;
  x ← get_state;
  match headersForWriteTrx x !! Z.to_nat pageIdx with
  | None => no_page
  | Some headerPage =>
      ku_assert (numHeaders headerPage <? NUM_HEADERS_PER_PAGE) ;;
      let indexInPage := Z.to_nat (numHeaders headerPage) in
      modify (λ x, set_headers (alter count_header (Z.to_nat pageIdx) (headersForReadTrx x))
                     (alter (λ p, count_header (put_header indexInPage DiskArrayHeader_new p)) (Z.to_nat pageIdx) (headersForWriteTrx x)) x) ;;
      mret oldSize
  end.

(** The header of an array for a checkpoint and for the others ([getDiskArray] gives both to the array), and what the array writes to it. *)
Definition getHeader (checkpoint : bool) (idx : Z) : M DiskArrayCollection DiskArrayHeader :=
  x ← get_state;
  ku_assert (idx <? totalHeaders x) ;;
  match (if checkpoint then headersForWriteTrx x else headersForReadTrx x) !! Z.to_nat (idx / NUM_HEADERS_PER_PAGE) with
  | Some p => match headers p !! Z.to_nat (idx mod NUM_HEADERS_PER_PAGE) with Some h => mret h | None => no_page end
  | None => no_page
  end.
Definition writeHeader (idx : Z) (h : DiskArrayHeader) : M DiskArrayCollection unit :=
  x ← get_state;
  ku_assert (idx <? totalHeaders x) ;;
  modify (λ x, set_headers (headersForReadTrx x) (alter (put_header (Z.to_nat (idx mod NUM_HEADERS_PER_PAGE)) h) (Z.to_nat (idx / NUM_HEADERS_PER_PAGE)) (headersForWriteTrx x)) x).

Definition populateNextHeaderPage (indexInMemory : nat) : M DiskArrayCollection unit :=
  x ← get_state;
  match allocatable x with
  | p :: l => put_state (set_allocatable l (set_headers (alter (put_next p) indexInMemory (headersForReadTrx x)) (alter (put_next p) indexInMemory (headersForWriteTrx x)) x))
  | [] => raise (UndefinedBehaviour "no page to allocate")
  end.

Fixpoint checkpoint_pages (n : nat) (indexInMemory : nat) (headerPage : Z) : M DiskArrayCollection unit :=
  match n with
  | O => mret tt
  | S n' =>
      x ← get_state;
      (match headersForWriteTrx x !! indexInMemory with
       | Some w => if (nextHeaderPage w =? INVALID_PAGE_IDX) && (indexInMemory <? length (headersForWriteTrx x) - 1)%nat then populateNextHeaderPage indexInMemory else mret tt
       | None => no_page
       end) ;;
      x ← get_state;
      match headersForWriteTrx x !! indexInMemory, headersForReadTrx x !! indexInMemory with
      | Some w, Some r =>
          (if (headerPagesOnDisk x <=? Z.of_nat indexInMemory) || bool_decide (w ≠ r)
           then put_state (set_pages (pagesOnDisk x) (<[headerPage := w]> (shadowPages x)) x) else mret tt) ;;
          checkpoint_pages n' (S indexInMemory) (nextHeaderPage w)
      | _, _ => no_page
      end
  end.
Definition checkpoint (firstHeaderPage : Z) : M DiskArrayCollection unit :=
  x ← get_state;
  checkpoint_pages (length (headersForWriteTrx x)) 0 firstHeaderPage ;;
  modify (λ x, set_onDisk (Z.of_nat (length (headersForWriteTrx x))) x).

Definition checkpointInMemory : M DiskArrayCollection unit :=
  modify (λ x, set_onDisk (Z.of_nat (length (headersForReadTrx x))) (set_headers (headersForWriteTrx x) (headersForWriteTrx x) x)).
Definition rollbackCheckpoint : M DiskArrayCollection unit := modify (λ x, set_headers (headersForReadTrx x) (headersForReadTrx x) x).

(** The header pages that are freed. *)
Fixpoint reclaim_pages (l : list HeaderPage) (headerPage : Z) : list Z :=
  match l with [] => [] | p :: l' => if headerPage =? INVALID_PAGE_IDX then [] else headerPage :: reclaim_pages l' (nextHeaderPage p) end.
Definition reclaimStorage (x : DiskArrayCollection) (firstHeaderPage : Z) : list Z := reclaim_pages (headersForReadTrx x) firstHeaderPage.

(** The shadow pages are written over the originals, or forgotten. *)
Definition applyShadowPages : M DiskArrayCollection unit := modify (λ x, set_pages (shadowPages x ∪ pagesOnDisk x) ∅ x).
Definition clearShadowPages : M DiskArrayCollection unit := modify (λ x, set_pages (pagesOnDisk x) ∅ x).

(** The collection of an index: as many arrays as it needs, from the start. *)
Fixpoint add_arrays (k : nat) : M DiskArrayCollection unit := match k with O => mret tt | S k' => add_arrays k' ;; addDiskArray ;; mret tt end.
End DiskArrayCollection.

(** ** Block vectors *)

Module BlockVector.
Section Vectors.
Context {U : Type} (elementSize : Z).
(** What an element is in a page of zeros, and what its constructor makes. *)
Variables (zero made : U).
Abbreviation numElementsPerPage := (DiskArray.numElementsPerPage elementSize).

Record BlockVector := MkBlockVector { inMemArrayPages : list (list U); numElements : Z }.
Definition BlockVector_new : BlockVector := MkBlockVector [] 0.

Definition getNumArrayPagesNeededForElements (n : Z) : Z := (n + numElementsPerPage - 1) / numElementsPerPage.

(** Reading and writing through [operator[]]. *)
Definition at_ (idx : Z) : M BlockVector U :=
  x ← get_state;
  let '(apIdx, pos) := DiskArray.getAPIdxAndOffsetInAP elementSize idx in
  ku_assert (apIdx <? Z.of_nat (length (inMemArrayPages x))) ;;
  match inMemArrayPages x !! Z.to_nat apIdx ≫= (λ p, p !! Z.to_nat pos) with Some v => mret v | None => raise (UndefinedBehaviour "past the end of a page") end.
Definition put (idx : Z) (v : U) : M BlockVector unit :=
  x ← get_state;
  let '(apIdx, pos) := DiskArray.getAPIdxAndOffsetInAP elementSize idx in
  ku_assert (apIdx <? Z.of_nat (length (inMemArrayPages x))) ;;
  put_state (MkBlockVector (alter (<[Z.to_nat pos := v]>) (Z.to_nat apIdx) (inMemArrayPages x)) (numElements x)).

Definition resize (newNumElements : Z) : M BlockVector unit :=
  x ← get_state;
  let oldNumElements := numElements x in
  ku_assert (oldNumElements <=? newNumElements) ;;
  let newNumArrayPages := getNumArrayPagesNeededForElements newNumElements in
  let page := replicate (Z.to_nat numElementsPerPage) zero in
  put_state (MkBlockVector (inMemArrayPages x ++ replicate (Z.to_nat newNumArrayPages - length (inMemArrayPages x)) page) (numElements x)) ;;
  for_each (seq 0 (Z.to_nat (newNumElements - oldNumElements))) (λ i, put (oldNumElements + Z.of_nat i) made) ;;
  modify (λ x, MkBlockVector (inMemArrayPages x) newNumElements).
End Vectors.
#[global] Arguments BlockVector : clear implicits.
End BlockVector.
