(* ===== verification/HashIndex.v ===== *)
(** * The hash index on disk

    storage/index/hash_index.{h,cpp}, for keys that are stored in the slots: two disk arrays of slots that change only in a
    checkpoint, the header of the index, and the local storage with what changed since. The disk arrays are what
    they promise their users ([VersionedArray]; [disk_array_refines] of DiskArrayTheorems.v shows that [DiskArray] keeps the
    promise). The index writes their pages in place ([bypassShadowing]), and then the promise holds for readers only while no
    checkpoint is changing the arrays; the transaction manager runs a checkpoint when no other transaction is active, so
    a lookup of a transaction in the middle of a checkpoint does not occur in the theorems. *)

From stdpp Require Import base numbers list strings.
From Stdlib Require Import ZArith Lia.
From S2P Require Import Prelude TransactionManager HashSlot InMemHashIndex LocalHashIndex DiskArray.
Import HashSlot InMemHashIndex LocalHashIndex.

Abbreviation TransactionType := Transaction.TransactionType.
#[local] Open Scope nat_scope.

Import VersionedArray.

Module HashIndex.
Section Disk.
Context {K : Type} `{IndexHashable K}.

Record HashIndex := MkHashIndex {
  diskPSlots : VersionedArray (Slot K);
  diskOSlots : VersionedArray (Slot K);
  localStorage : HashIndexLocalStorage K;
  indexHeaderForReadTrx : HashIndexHeader;
  indexHeaderForWriteTrx : HashIndexHeader;
}.
Definition set_diskPSlots (a : VersionedArray (Slot K)) (x : HashIndex) : HashIndex :=
  MkHashIndex a (diskOSlots x) (localStorage x) (indexHeaderForReadTrx x) (indexHeaderForWriteTrx x).
Definition set_diskOSlots (a : VersionedArray (Slot K)) (x : HashIndex) : HashIndex :=
  MkHashIndex (diskPSlots x) a (localStorage x) (indexHeaderForReadTrx x) (indexHeaderForWriteTrx x).
Definition set_localStorage (s : HashIndexLocalStorage K) (x : HashIndex) : HashIndex :=
  MkHashIndex (diskPSlots x) (diskOSlots x) s (indexHeaderForReadTrx x) (indexHeaderForWriteTrx x).
Definition set_writeHeader (h : HashIndexHeader) (x : HashIndex) : HashIndex :=
  MkHashIndex (diskPSlots x) (diskOSlots x) (localStorage x) (indexHeaderForReadTrx x) h.
Definition on_local {A} (m : M (HashIndexLocalStorage K) A) : M HashIndex A :=
  λ x, let '(r, s) := m (localStorage x) in (r, set_localStorage s x).
Definition on_writeHeader (g : HashIndexHeader → HashIndexHeader) : M HashIndex unit := modify (λ x, set_writeHeader (g (indexHeaderForWriteTrx x)) x).

Definition is_checkpoint (t : TransactionType) : bool := bool_decide (t = Transaction.CHECKPOINT).

(** ** Reading slots *)

Definition slots_of (i : SlotInfo) (x : HashIndex) : VersionedArray (Slot K) := match slotType i with PRIMARY => diskPSlots x | OVF => diskOSlots x end.
(** A read past the end of an array throws. *)
Definition getSlot (t : TransactionType) (i : SlotInfo) : M HashIndex (Slot K) :=
  observe (λ x, match elements (is_checkpoint t) (slots_of i x) !! Z.to_nat (slotId i) with
                | Some s => Ok s
                | None => Throw (RuntimeException "idx of the DiskArray to be accessed is >= numElements in DiskArray")
                end).
Definition updateSlot (i : SlotInfo) (s : Slot K) : M HashIndex unit :=
  modify (λ x, match slotType i with
               | PRIMARY => set_diskPSlots (update (slotId i) s (diskPSlots x)) x
               | OVF => set_diskOSlots (update (slotId i) s (diskOSlots x)) x
               end).

(** The iterator holds the place and a copy of the slot. *)
Definition nextChainedSlot (t : TransactionType) (i : SlotInfo) (s : Slot K) : M HashIndex (option (SlotInfo * Slot K)) :=
  ku_assert (bool_decide (slotType i = PRIMARY) || negb (slotId i =? nextOvfSlotId (header s))%Z) ;;
  if (nextOvfSlotId (header s) =? INVALID_OVERFLOW_SLOT_ID)%Z then mret None
  else let i' := MkSlotInfo (nextOvfSlotId (header s)) OVF in s' ← getSlot t i'; mret (Some (i', s')).

Definition findMatchedEntryInSlot (s : Slot K) (k : K) (fingerprint : Z) (isVisible : Z → bool) : option nat :=
  find_pos (λ p, isEntryValid p (header s) && matches k fingerprint isVisible s p) 0 (SLOT_CAPACITY K).

(** A chain passes each overflow slot at most once. *)
Definition disk_fuel (t : TransactionType) (x : HashIndex) : nat := S (length (elements (is_checkpoint t) (diskOSlots x))).
Definition disk_no_end {A} : M HashIndex A := raise (UndefinedBehaviour "the loop does not end").

Fixpoint lookup_chain (fuel : nat) (t : TransactionType) (i : SlotInfo) (s : Slot K) (k : K) (fingerprint : Z) (isVisible : Z → bool) : M HashIndex (option Z) :=
  match fuel with
  | 0 => disk_no_end
  | S fuel' =>
      match findMatchedEntryInSlot s k fingerprint isVisible with
      | Some p => match entries s !! p with Some e => mret (Some (value e)) | None => raise (UndefinedBehaviour "no such entry") end
      | None =>
          next ← nextChainedSlot t i s;
          match next with Some (i', s') => lookup_chain fuel' t i' s' k fingerprint isVisible | None => mret None end
      end
  end.
Definition lookupInPersistentIndex (t : TransactionType) (k : K) (isVisible : Z → bool) : M HashIndex (option Z) :=
  x ← get_state;
  let header := if is_checkpoint t then indexHeaderForWriteTrx x else indexHeaderForReadTrx x in
  if (headerNumEntries header =? 0)%Z then mret None
  else
    let i := primary (getPrimarySlotIdForHash header (hash k)) in
    s ← getSlot t i;
    lookup_chain (disk_fuel t x) t i s k (getFingerprintForHash (hash k)) isVisible.

(** [deleteFromPersistentIndex]: the first match of every slot of the chain. *)
Fixpoint delete_chain (fuel : nat) (t : TransactionType) (i : SlotInfo) (s : Slot K) (k : K) (fingerprint : Z) (isVisible : Z → bool) : M HashIndex unit :=
  match fuel with
  | 0 => disk_no_end
  | S fuel' =>
      s' ← match findMatchedEntryInSlot s k fingerprint isVisible with
           | Some p =>
               let s' := drop_entry p s in
               updateSlot i s' ;;
               on_writeHeader (λ h, set_numEntries (uwrap 64 (headerNumEntries h - 1)) h) ;;
               mret s'
           | None => mret s
           end;
      next ← nextChainedSlot t i s';
      match next with Some (i', s'') => delete_chain fuel' t i' s'' k fingerprint isVisible | None => mret tt end
  end.
Definition deleteFromPersistentIndex (t : TransactionType) (k : K) (isVisible : Z → bool) : M HashIndex unit :=
  x ← get_state;
  if (headerNumEntries (indexHeaderForWriteTrx x) =? 0)%Z then mret tt
  else
    let i := primary (getPrimarySlotIdForHash (indexHeaderForWriteTrx x) (hash k)) in
    s ← getSlot t i;
    delete_chain (disk_fuel t x) t i s k (getFingerprintForHash (hash k)) isVisible.

(** ** Lookups, insertions and deletions through the local storage *)

Definition lookupInternal (t : TransactionType) (k : K) (isVisible : Z → bool) : M HashIndex (option Z) :=
  r ← on_local (LocalHashIndex.lookup k isVisible);
  match r with
  | (KEY_DELETED, _) => mret None
  | (KEY_FOUND, v) => mret v
  | (KEY_NOT_EXIST, _) => lookupInPersistentIndex t k isVisible
  end.
Definition deleteInternal (k : K) : M HashIndex unit := on_local (LocalHashIndex.deleteKey k).
Definition discardLocal (k : K) : M HashIndex bool := on_local (discard k).
Definition insertInternal (t : TransactionType) (k : K) (v : Z) (isVisible : Z → bool) : M HashIndex bool :=
  r ← on_local (LocalHashIndex.lookup k isVisible);
  match r with
  | (KEY_FOUND, _) => mret false
  | (KEY_DELETED, _) => on_local (LocalHashIndex.insert k v isVisible)
  | (KEY_NOT_EXIST, _) =>
      p ← lookupInPersistentIndex t k isVisible;
      match p with Some _ => mret false | None => on_local (LocalHashIndex.insert k v isVisible) end
  end.

Fixpoint append_checked (t : TransactionType) (buffer : list (K * Z)) (i inserted : nat) (isVisible : Z → bool) : M HashIndex nat :=
  match buffer with
  | [] => mret inserted
  | (k, v) :: buffer' =>
      p ← lookupInPersistentIndex t k isVisible;
      match p with
      | Some _ => mret i
      | None =>
          ok ← on_local (LocalHashIndex.append k v isVisible);
          append_checked t buffer' (S i) (if ok : bool then S inserted else inserted) isVisible
      end
  end.
Definition appendNoLock (t : TransactionType) (buffer : list (K * Z)) (bufferOffset : nat) (isVisible : Z → bool) : M HashIndex nat :=
  x ← get_state;
  if (0 <? headerNumEntries (indexHeaderForWriteTrx x))%Z then
    on_local (reserveSpaceForAppend (Z.of_nat (length buffer) - Z.of_nat bufferOffset)) ;;
    append_checked t (drop bufferOffset buffer) 0 0 isVisible
  else on_local (LocalHashIndex.append_buffer buffer bufferOffset isVisible).

Definition bulkReserve (newEntries : Z) : M HashIndex unit := on_local (reserveInserts newEntries).
End Disk.
#[global] Arguments HashIndex : clear implicits.
End HashIndex.
