(* ===== verification/HashIndexCheckpoint.v ===== *)
(** * Checkpointing a hash index

    The other half of storage/index/hash_index.cpp: making room on disk by splitting slots, merging the local insertions
    into the slots, and publishing the result. *)

From stdpp Require Import base numbers list strings.
From Stdlib Require Import ZArith Lia.
From S2P Require Import Prelude TransactionManager HashSlot InMemHashIndex LocalHashIndex DiskArray HashIndex.
Import HashSlot InMemHashIndex LocalHashIndex VersionedArray HashIndex.

#[local] Open Scope nat_scope.

Module HashIndexCheckpoint.
Section Checkpoint.
Context {K : Type} `{IndexHashable K}.

(** Whether [emplace_back] on a vector of [n] slots moves them, which is up to the library. *)
Variable reallocates : nat → bool.

(** ** Splitting slots *)

(** The state of [splitSlots]: the index, and the overflow slots that are appended at the end. *)
Record Splitting := MkSplitting { splitIndex : HashIndex K; newOverflowSlots : list (Slot K) }.
Definition set_splitIndex (x : HashIndex K) (s : Splitting) : Splitting := MkSplitting x (newOverflowSlots s).
Definition set_newOverflowSlots (l : list (Slot K)) (s : Splitting) : Splitting := MkSplitting (splitIndex s) l.

(** A pointer to a slot: in a page of an array, or in the vector of new slots. *)
Inductive SlotPtr := InPSlots (idx : Z) | InOSlots (idx : Z) | InNewSlots (idx : nat).

Definition deref (p : SlotPtr) (s : Splitting) : option (Slot K) :=
  match p with
  | InPSlots i => current (diskPSlots (splitIndex s)) !! Z.to_nat i
  | InOSlots i => current (diskOSlots (splitIndex s)) !! Z.to_nat i
  | InNewSlots i => newOverflowSlots s !! i
  end.
Definition assign (p : SlotPtr) (v : Slot K) (s : Splitting) : Splitting :=
  let x := splitIndex s in
  match p with
  | InPSlots i => set_splitIndex (set_diskPSlots (update i v (diskPSlots x)) x) s
  | InOSlots i => set_splitIndex (set_diskOSlots (update i v (diskOSlots x)) x) s
  | InNewSlots i => set_newOverflowSlots (<[i := v]> (newOverflowSlots s)) s
  end.
Definition read_ptr (p : SlotPtr) : M Splitting (Slot K) :=
  observe (λ s, match deref p s with Some v => Ok v | None => Throw (UndefinedBehaviour "pointer to no slot") end).
Definition on_ptr (p : SlotPtr) (g : Slot K → Slot K) : M Splitting unit := v ← read_ptr p; modify (assign p (g v)).

(** [getNextOvfSlot]; [getNumElements] without an argument counts the committed elements. *)
Definition getNextOvfSlot (id : Z) : M Splitting SlotPtr :=
  s ← get_state;
  let n := getNumElements false (diskOSlots (splitIndex s)) in
  if (n <=? id)%Z then mret (InNewSlots (Z.to_nat (id - n)))
  else ku_assert (id <? getNumElements true (diskOSlots (splitIndex s)))%Z ;; mret (InOSlots id).

(** The slot new entries go to and the position in it. *)
Definition NewPlace : Type := SlotPtr * nat.

(** A new overflow slot after the one that is full. A pointer into the vector dangles when the vector moves. *)
Definition next_new_slot (original newSlot : SlotPtr) : M Splitting NewPlace :=
  s ← get_state;
  let n := length (newOverflowSlots s) in
  on_ptr newSlot (set_next (Z.of_nat n + getNumElements false (diskOSlots (splitIndex s)))) ;;
  modify (λ s, set_newOverflowSlots (newOverflowSlots s ++ [Slot_new]) s) ;;
  match original with
  | InNewSlots _ => if reallocates n then raise (UndefinedBehaviour "use after the vector has moved") else mret (InNewSlots n, 0)
  | _ => mret (InNewSlots n, 0)
  end.

(** One entry of the original slot. *)
Definition split_disk_entry (original : SlotPtr) (newIdx : Z) (originalEntryPos : nat) (place : NewPlace) : M Splitting NewPlace :=
  s ← read_ptr original;
  if negb (isEntryValid originalEntryPos (header s)) then mret place
  else
    place' ← (if SLOT_CAPACITY K <=? place.2 then next_new_slot original place.1 else mret place);
    st ← get_state;
    let header := indexHeaderForWriteTrx (splitIndex st) in
    match entries s !! originalEntryPos, fingerprints (HashSlot.header s) !! originalEntryPos with
    | Some entry, Some fingerprint =>
        let newSlotId := Z.land (hash (key entry)) (higherLevelHashMask header) in
        if (newSlotId =? nextSplitSlotId header)%Z then mret place'
        else
          ku_assert (newSlotId =? newIdx)%Z ;;
          on_ptr place'.1 (put_entry place'.2 entry fingerprint) ;;
          on_ptr original (drop_entry originalEntryPos) ;;
          mret (place'.1, S place'.2)
    | _, _ => raise (UndefinedBehaviour "no such entry")
    end.
Fixpoint split_disk_entries (original : SlotPtr) (newIdx : Z) (positions : list nat) (place : NewPlace) : M Splitting NewPlace :=
  match positions with
  | [] => mret place
  | p :: positions' => place' ← split_disk_entry original newIdx p place; split_disk_entries original newIdx positions' place'
  end.
Fixpoint split_disk_chain (fuel : nat) (original : SlotPtr) (newIdx : Z) (place : NewPlace) : M Splitting unit :=
  match fuel with
  | 0 => raise (UndefinedBehaviour "the loop does not end")
  | S fuel' =>
      place' ← split_disk_entries original newIdx (seq 0 (SLOT_CAPACITY K)) place;
      s ← read_ptr original;
      if (nextOvfSlotId (header s) =? INVALID_OVERFLOW_SLOT_ID)%Z then mret tt
      else next ← getNextOvfSlot (nextOvfSlotId (header s)); split_disk_chain fuel' next newIdx place'
  end.
(** One round: a new primary slot, and the entries that go to it. *)
Definition split_disk_slot : M Splitting unit :=
  modify (λ s, let x := splitIndex s in set_splitIndex (set_diskPSlots (pushBack Slot_new (diskPSlots x)) x) s) ;;
  s ← get_state;
  let newIdx := (getNumElements true (diskPSlots (splitIndex s)) - 1)%Z in
  let original := nextSplitSlotId (indexHeaderForWriteTrx (splitIndex s)) in
  ku_assert (original <=? newIdx)%Z ;;
  split_disk_chain (S (length (current (diskOSlots (splitIndex s))) + length (newOverflowSlots s)) ) (InPSlots original) newIdx (InPSlots newIdx, 0) ;;
  modify (λ s, let x := splitIndex s in set_splitIndex (set_writeHeader (incrementNextSplitSlotId (indexHeaderForWriteTrx x)) x) s).
Fixpoint split_disk_loop (n : nat) : M Splitting unit :=
  match n with 0 => mret tt | S n' => split_disk_slot ;; split_disk_loop n' end.
Definition splitSlots (numSlotsToSplit : Z) : M (HashIndex K) unit := λ x,
  match split_disk_loop (Z.to_nat numSlotsToSplit) (MkSplitting x []) with
  | (Ok _, s) => (Ok tt, set_diskOSlots (fold_left (λ a v, pushBack v a) (newOverflowSlots s) (diskOSlots (splitIndex s))) (splitIndex s))
  | (Throw e, s) => (Throw e, splitIndex s)
  end.

(** ** Reserving *)

(** The slots the index should have; at least those of its level and a page of them. *)
Definition numRequiredSlots (x : HashIndex K) (newEntries : Z) : Z :=
  let numRequiredEntries := getNumRequiredEntries (uwrap 64 (headerNumEntries (indexHeaderForWriteTrx x) + newEntries)) in
  Z.max (Z.max ((numRequiredEntries + Z.of_nat (SLOT_CAPACITY K) - 1) / Z.of_nat (SLOT_CAPACITY K)) (Z.shiftl 1 (currentLevel (indexHeaderForWriteTrx x)))) SLOTS_PER_PAGE.
Definition numSlotsToSplit (x : HashIndex K) (newEntries : Z) : Z := uwrap 64 (numRequiredSlots x newEntries - getNumElements true (diskPSlots x)).

Fixpoint raise_header (fuel : nat) (required numSlotsOfCurrentLevel : Z) (h : HashIndexHeader) : option (Z * HashIndexHeader) :=
  if (uwrap 32 (Z.shiftl numSlotsOfCurrentLevel 1) <=? required)%Z then
    match fuel with
    | 0 => None
    | S fuel' => raise_header fuel' required (uwrap 32 (Z.shiftl numSlotsOfCurrentLevel 1)) (incrementLevel h)
    end
  else Some (numSlotsOfCurrentLevel, h).
Definition reserve (newEntries : Z) : M (HashIndex K) unit :=
  x ← get_state;
  let required := numRequiredSlots x newEntries in
  if (headerNumEntries (indexHeaderForWriteTrx x) =? 0)%Z then
    modify (λ x, set_diskPSlots (resize required Slot_new (diskPSlots x)) x) ;;
    match raise_header 32 required (uwrap 32 (Z.shiftl 1 (currentLevel (indexHeaderForWriteTrx x)))) (indexHeaderForWriteTrx x) with
    | None => disk_no_end
    | Some (n, h) => modify (set_writeHeader (if (n <=? required)%Z then set_nextSplit (required - n) h else h))
    end
  else splitSlots (numSlotsToSplit x newEntries).

(** ** Merging *)

Record HashIndexEntryView := MkView { diskSlotId : Z; viewFingerprint : Z; viewEntry : SlotEntry K }.

(** [std::sort] by descending slot; the order of equal elements is up to the library. *)
Variable std_sort : list HashIndexEntryView → list HashIndexEntryView.

(** The entries of a chain of the local index. *)
Fixpoint collect (fuel : nat) (header_ : HashIndexHeader) (i : SlotInfo) : M (InMemHashIndex K) (list HashIndexEntryView) :=
  match fuel with
  | 0 => no_end
  | S fuel' =>
      s ← InMemHashIndex.getSlot i;
      let n := numEntries (header s) in
      let here := zip_with (λ e f, MkView (getPrimarySlotIdForHash header_ (hash (key e))) f e) (take n (entries s)) (take n (fingerprints (header s))) in
      next ← InMemHashIndex.nextChainedSlot i;
      match next with Some i' => rest ← collect fuel' header_ i'; mret (here ++ rest) | None => mret here end
  end.
Definition sortEntries (i : SlotInfo) : M (HashIndex K) (list HashIndexEntryView) :=
  x ← get_state;
  let local := localInsertions (localStorage x) in
  match (collect (chain_fuel local) (indexHeaderForWriteTrx x) i local).1 with
  | Ok l => mret (std_sort l)
  | Throw e => raise e
  end.

(** The place of [mergeSlot] in the chain: a slot, and a position that may be past its end. *)
Definition disk_slot (i : SlotInfo) : M (HashIndex K) (Slot K) := HashIndex.getSlot Transaction.CHECKPOINT i.
(** The assertion on the link of a slot after [pushBack]. The source reads the slot through a pointer that the [pushBack]
    may have invalidated, as its comment says; here it is read again from its array. *)
Definition check_link (i : SlotInfo) : M (HashIndex K) unit :=
  s ← disk_slot i;
  x ← get_state;
  ku_assert ((nextOvfSlotId (header s) =? INVALID_OVERFLOW_SLOT_ID) || (nextOvfSlotId (header s) <? getNumElements true (diskOSlots x)))%Z.
Definition advance (i : SlotInfo) (pos : nat) : M (HashIndex K) (SlotInfo * nat) :=
  if SLOT_CAPACITY K <=? S pos then
    s ← disk_slot i;
    x ← get_state;
    let size := getNumElements true (diskOSlots x) in
    id ← (if (nextOvfSlotId (header s) =? INVALID_OVERFLOW_SLOT_ID)%Z then
            updateSlot i (set_next size s) ;;
            modify (λ x, set_diskOSlots (pushBack Slot_new (diskOSlots x)) x) ;;
            check_link i ;;
            mret size
          else ku_assert (nextOvfSlotId (header s) <? size)%Z ;; mret (nextOvfSlotId (header s)));
    let i' := MkSlotInfo id OVF in
    s' ← disk_slot i';
    ku_assert (negb (id =? nextOvfSlotId (header s'))%Z) ;;
    mret (i', 0)
  else mret (i, S pos).
Fixpoint next_empty (fuel : nat) (i : SlotInfo) (pos : nat) : M (HashIndex K) (SlotInfo * nat) :=
  s ← disk_slot i;
  if isEntryValid pos (header s) || (SLOT_CAPACITY K <=? pos) then
    match fuel with 0 => disk_no_end | S fuel' => p ← advance i pos; let '(i', pos') := p in next_empty fuel' i' pos' end
  else mret (i, pos).

Fixpoint merge_entries (l : list HashIndexEntryView) (slot : Z) (i : SlotInfo) (pos merged : nat) : M (HashIndex K) nat :=
  match l with
  | [] => mret merged
  | v :: l' =>
      if negb (diskSlotId v =? slot)%Z then mret merged
      else
        x ← get_state;
        p ← next_empty (S (SLOT_CAPACITY K) * S (S (length (current (diskOSlots x))))) i pos;
        let '(i', pos') := p in
        s ← disk_slot i';
        updateSlot i' (put_entry pos' (viewEntry v) (viewFingerprint v) s) ;;
        x ← get_state;
        let h := hash (key (viewEntry v)) in
        ku_assert ((viewFingerprint v =? getFingerprintForHash h) && (getPrimarySlotIdForHash (indexHeaderForWriteTrx x) h =? slot))%Z ;;
        on_writeHeader (λ h, set_numEntries (uwrap 64 (headerNumEntries h + 1)) h) ;;
        merge_entries l' slot i' (S pos') (S merged)
  end.
(** From the back of the vector. *)
Definition mergeSlot (slotToMerge : list HashIndexEntryView) (slot : Z) : M (HashIndex K) nat :=
  x ← get_state;
  ku_assert (slot <? getNumElements true (diskPSlots x))%Z ;;
  s ← disk_slot (primary slot);
  ku_assert ((nextOvfSlotId (header s) =? INVALID_OVERFLOW_SLOT_ID) || (nextOvfSlotId (header s) <? getNumElements true (diskOSlots x)))%Z ;;
  merge_entries (rev slotToMerge) slot (primary slot) 0 0.

(** One pass over the partitions: those whose next entry is on the page of the first of them. *)
Fixpoint merge_pass (parts : list (list HashIndexEntryView * bool)) (page : option Z) : M (HashIndex K) (list (list HashIndexEntryView * bool)) :=
  match parts with
  | [] => mret []
  | (l, done) :: parts' =>
      match done, last l with
      | false, Some v =>
          let page' := default (diskSlotId v / SLOTS_PER_PAGE)%Z page in
          part ← (if (diskSlotId v / SLOTS_PER_PAGE =? page')%Z then
                    merged ← mergeSlot l (diskSlotId v);
                    ku_assert (merged <=? length l) ;;
                    let l' := take (length l - merged) l in
                    mret (l', bool_decide (l' = []))
                  else mret (l, false));
          rest ← merge_pass parts' (Some page');
          mret (part :: rest)
      | _, _ => rest ← merge_pass parts' page; mret ((l, true) :: rest)
      end
  end.
Fixpoint merge_passes (fuel : nat) (parts : list (list HashIndexEntryView * bool)) : M (HashIndex K) unit :=
  if forallb snd parts then mret tt
  else
    match fuel with
    | 0 => disk_no_end
    | S fuel' => parts' ← merge_pass parts None; merge_passes fuel' parts'
    end.
(** A page of local slots at a time. *)
Fixpoint sort_batch (ids : list nat) : M (HashIndex K) (list (list HashIndexEntryView)) :=
  match ids with [] => mret [] | i :: ids' => l ← sortEntries (primary (Z.of_nat i)); rest ← sort_batch ids'; mret (l :: rest) end.
Definition merge_batch (ids : list nat) : M (HashIndex K) unit :=
  parts ← sort_batch ids;
  merge_passes (S (length (concat parts))) (map (λ l, (l, false)) parts).
Fixpoint merge_batches (fuel from n : nat) : M (HashIndex K) unit :=
  if from <? n then
    match fuel with
    | 0 => disk_no_end
    | S fuel' =>
        merge_batch (seq from (Nat.min (Z.to_nat SLOTS_PER_PAGE) (n - from))) ;;
        merge_batches fuel' (from + Z.to_nat SLOTS_PER_PAGE) n
    end
  else mret tt.
Definition mergeBulkInserts : M (HashIndex K) unit :=
  x ← get_state;
  reserve (insertions_size (localStorage x)) ;;
  let n := length (pSlots (localInsertions (localStorage x))) in
  merge_batches n 0 n.

(** ** Checkpoint and rollback *)

Definition checkpoint : M (HashIndex K) bool :=
  x ← get_state;
  if hasUpdates (localStorage x) then
    let netInserts := getNetInserts (localStorage x) in
    (if (0 <? netInserts)%Z then reserve netInserts else mret tt) ;;
    mergeBulkInserts ;;
    mret true
  else mret false.

Definition checkpointInMemory : M (HashIndex K) bool :=
  x ← get_state;
  if negb (hasUpdates (localStorage x)) then mret false
  else
    modify (λ x, set_diskOSlots (VersionedArray.checkpointInMemory (diskOSlots x)) (set_diskPSlots (VersionedArray.checkpointInMemory (diskPSlots x)) x)) ;;
    on_local LocalHashIndex.clear ;;
    mret true.
Definition rollbackInMemory : M (HashIndex K) bool :=
  x ← get_state;
  if negb (hasUpdates (localStorage x)) then mret false
  else
    modify (λ x, set_diskOSlots (VersionedArray.rollbackInMemory (diskOSlots x)) (set_diskPSlots (VersionedArray.rollbackInMemory (diskPSlots x)) x)) ;;
    on_local LocalHashIndex.clear ;;
    mret true.
Definition rollbackCheckpoint : M (HashIndex K) unit :=
  modify (λ x, set_diskOSlots (VersionedArray.rollbackInMemory (diskOSlots x)) (set_diskPSlots (VersionedArray.rollbackInMemory (diskPSlots x)) x)).
End Checkpoint.
#[global] Arguments Splitting : clear implicits.
#[global] Arguments HashIndexEntryView : clear implicits.
End HashIndexCheckpoint.
