(* ===== verification/HashIndexDisk.v ===== *)
(** * What a hash index on disk holds

    The slots of a disk version as chains with gaps: the invariant, the bag of entries, and looking up a key in it and through
    the local storage. *)

From stdpp Require Import base numbers list strings.
From Stdlib Require Import ZArith Lia.
From S2P Require Import Prelude TransactionManager HashSlot HashSlotSpec InMemHashIndex HashChain HashGrow HashSplit HashDirectory HashIndexSpec LocalHashIndex DiskArray HashIndex.
Import HashSlot InMemHashIndex LocalHashIndex VersionedArray HashIndex.

#[local] Open Scope nat_scope.

Section Disk.
Context {K : Type} `{HK : IndexHashable K} `{Hok : !IndexHashableOk K} `{Hlost : LostSlots}.

Abbreviation CAP := (SLOT_CAPACITY K).
Abbreviation Index := (InMemHashIndex K).
Implicit Types (y : Index) (i : SlotInfo) (l L : list SlotInfo) (es : list (SlotEntry K)) (e : SlotEntry K) (C : list (list SlotInfo)) (B : list (list (SlotEntry K))).

(** ** Chains with gaps *)

(** The entries in the cells of a chain. *)
Definition held y l : list (SlotEntry K) := omap id (chain_view y l).

Record gap_chain y l es : Prop := {
  gc_linked : linked y l;
  gc_nodup : NoDup l;
  gc_held : held y l ≡ₚ es;
}.

Lemma gap_chain_agree y y' l es : agree l y y' → gap_chain y l es → gap_chain y' l es.
Proof. intros Ha [H1 H2 H3]. split; [exact (linked_agree y y' l Ha H1)|exact H2|]. unfold held. rewrite (chain_view_agree y y' l Ha). exact H3. Qed.

Lemma elem_of_held y l e : e ∈ held y l ↔ ∃ q, chain_view y l !! q = Some (Some e).
Proof.
  unfold held. rewrite list_elem_of_omap. split.
  - intros (c & Hc & E). cbn in E. subst c. apply list_elem_of_lookup in Hc. exact Hc.
  - intros [q Hq]. exists (Some e). split; [apply list_elem_of_lookup; eauto|reflexivity].
Qed.

(** The cells of the slot at [k] are entries of the chain, and the other way round. *)
Lemma held_slot y l k i s p e : l !! k = Some i → slot_at i y = Some s → p < CAP → cell s p = Some e → e ∈ held y l.
Proof. intros Hk Hs Hp Hc. apply elem_of_held. exists (k * CAP + p). rewrite (chain_cell y l k i s p Hk Hs Hp), Hc. reflexivity. Qed.

Lemma held_cell y l e : linked y l → e ∈ held y l → ∃ k i s p, l !! k = Some i ∧ slot_at i y = Some s ∧ p < CAP ∧ cell s p = Some e.
Proof.
  pose proof (capacity_range (K := K)) as Hc. intros Hl He. apply elem_of_held in He as [q Hq]. apply lookup_lt_Some in Hq as Hlt. rewrite chain_view_length in Hlt.
  assert (Hk : q / CAP < length l) by (apply Nat.Div0.div_lt_upper_bound; lia). destruct (lookup_lt_is_Some_2 l _ Hk) as [i Hi].
  destruct (linked_here y l i Hl ltac:(apply list_elem_of_lookup; eauto)) as (_ & s & Hs). pose proof (Nat.mod_upper_bound q CAP ltac:(lia)) as Hp.
  exists (q / CAP), i, s, (q mod CAP). split_and!; try assumption. pose proof (chain_cell y l _ i s _ Hi Hs Hp) as E. replace (q / CAP * CAP + q mod CAP) with q in E; [congruence|].
  pose proof (Nat.div_mod_eq q CAP). lia.
Qed.

(** ** The invariant *)

Record disk_index y C B : Prop := {
  di_directory : directory gap_chain y C B [];
  di_count : headerNumEntries (indexHeader y) = Z.of_nat (length (concat B));
}.

(** A version of the slots holds a bag; an index without a checkpoint has no slots. *)
Definition holds y es : Prop := ∃ C B, disk_index y C B ∧ es ≡ₚ concat B.
Definition persists y es : Prop := holds y es ∨ es = [] ∧ pSlots y = [] ∧ oSlots y = [] ∧ indexHeader y = HashIndexHeader_new.

#[global] Instance holds_proper y : Proper ((≡ₚ) ==> iff) (holds y).
Proof. intros es es' Hp. split; intros (C & B & H & HB); exists C, B; split; [exact H|rewrite <- Hp; exact HB|exact H|rewrite Hp; exact HB]. Qed.

(** What a transaction sees of the slots. *)
Definition version (ckpt : bool) (x : HashIndex K) : Index :=
  MkIndex (elements ckpt (diskPSlots x)) (elements ckpt (diskOSlots x)) (if ckpt then indexHeaderForWriteTrx x else indexHeaderForReadTrx x) 0.

Lemma disk_getSlot_run t i s x : slot_at i (version (is_checkpoint t) x) = Some s → HashIndex.getSlot t i x = (Ok s, x).
Proof. unfold slot_at, HashIndex.getSlot, observe, slots_of, version. cbn [pSlots oSlots]. intros H. destruct (slotType i); rewrite H; reflexivity. Qed.

Lemma disk_next_run t x l k i s :
  linked (version (is_checkpoint t) x) l → NoDup l → l !! k = Some i → slot_at i (version (is_checkpoint t) x) = Some s →
  ∃ r, HashIndex.nextChainedSlot t i s x = (Ok r, x) ∧
    match l !! S k, r with Some j, Some (j', s') => j' = j ∧ slot_at j (version (is_checkpoint t) x) = Some s' | None, None => True | _, _ => False end.
Proof.
  set (y := version _ x). intros Hl Hnd Hk Hs. pose proof (next_run y l k i Hl Hnd Hk) as Hn. unfold InMemHashIndex.nextChainedSlot in Hn.
  rewrite (M_bind_ok _ _ _ _ _ (getSlot_run i s y Hs)) in Hn. unfold HashIndex.nextChainedSlot, ku_assert in *. destruct (_ || _); [|discriminate Hn].
  rewrite (M_bind_ok (mret tt) _ y tt y eq_refl) in Hn. rewrite (M_bind_ok (mret tt) _ x tt x eq_refl). unfold mret, M_ret in Hn. injection Hn as Hn.
  destruct (nextOvfSlotId (header s) =? INVALID_OVERFLOW_SLOT_ID)%Z; rewrite <- Hn; [exists None; split; [reflexivity|exact I]|].
  symmetry in Hn. destruct (linked_here y l _ Hl ltac:(apply list_elem_of_lookup; exists (S k); exact Hn)) as (_ & s' & Hs'). exists (Some (MkSlotInfo (nextOvfSlotId (header s)) OVF, s')).
  rewrite (M_bind_ok _ _ _ _ _ (disk_getSlot_run t _ s' x Hs')). split; [reflexivity|]. auto.
Qed.

(** ** Looking up on disk *)

Lemma findMatched_some s (k : K) vis p :
  slot_ok s → findMatchedEntryInSlot s k (getFingerprintForHash (hash k)) vis = Some p → ∃ e, p < CAP ∧ cell s p = Some e ∧ entries s !! p = Some e ∧ key e = k ∧ vis (value e) = true.
Proof.
  intros Hs E. apply find_pos_some in E as [Hp E]. apply andb_true_iff in E as [Hv Hm]. rewrite (valid_cell s p Hs ltac:(lia)) in Hv. apply bool_decide_eq_true in Hv as [e He].
  rewrite (matches_cell k vis s p e Hs He) in Hm. apply andb_true_iff in Hm as [Hk Hvis]. apply bool_decide_eq_true in Hk. exists e. split; [lia|]. split; [exact He|].
  split; [unfold cell in He; destruct (Z.testbit _ _); [exact He|discriminate He]|auto].
Qed.

Lemma findMatched_none s (k : K) vis p e :
  slot_ok s → findMatchedEntryInSlot s k (getFingerprintForHash (hash k)) vis = None → p < CAP → cell s p = Some e → key e = k → vis (value e) = false.
Proof.
  intros Hs E Hp He Hk. pose proof (find_pos_none _ _ _ p E ltac:(lia)) as Hf. cbn beta in Hf. rewrite (valid_cell s p Hs Hp), He, bool_decide_eq_true_2 in Hf by eauto.
  rewrite (matches_cell k vis s p e Hs He), bool_decide_eq_true_2 in Hf by exact Hk. exact Hf.
Qed.

Lemma lookup_chain_run t x l (k : K) vis : ∀ fuel m i s,
  let y := version (is_checkpoint t) x in
  slots_ok y → linked y l → NoDup l → l !! m = Some i → slot_at i y = Some s → length l ≤ m + fuel →
  ∃ r, lookup_chain fuel t i s k (getFingerprintForHash (hash k)) vis x = (Ok r, x) ∧
    match r with
    | Some v => MkEntry k v ∈ held y l ∧ vis v = true
    | None => ∀ m' i' s' p e, m ≤ m' → l !! m' = Some i' → slot_at i' y = Some s' → p < CAP → cell s' p = Some e → key e = k → vis (value e) = false
    end.
Proof.
  intros fuel. induction fuel as [|fuel IH]; intros m i s y Hy Hl Hnd Hm Hs Hf; apply lookup_lt_Some in Hm as Hlt; [lia|]. cbn [lookup_chain].
  destruct (linked_here y l i Hl ltac:(apply list_elem_of_lookup; eauto)) as [Hh _]. pose proof (Hy i s Hh Hs) as Hso. destruct (findMatchedEntryInSlot s k _ vis) as [p|] eqn:Ef.
  - destruct (findMatched_some s k vis p Hso Ef) as ([k' v] & Hp & Hc & He & Hk & Hv). cbn in Hk, Hv. subst k'. rewrite He. exists (Some v). split; [reflexivity|].
    split; [exact (held_slot y l m i s p _ Hm Hs Hp Hc)|exact Hv].
  - destruct (disk_next_run t x l m i s Hl Hnd Hm Hs) as (r & Hrun & Hr). rewrite (M_bind_ok _ _ _ _ _ Hrun). destruct (l !! S m) as [j|] eqn:Hj, r as [[j' s']|]; try contradiction.
    + destruct Hr as [-> Hs']. destruct (IH (S m) j s' Hy Hl Hnd Hj Hs' ltac:(lia)) as (r & Hrun' & Hr). exists r. split; [exact Hrun'|]. destruct r; [exact Hr|].
      intros m' i' s'' p e Hm' Hi' Hs'' Hp Hc Hk. destruct (decide (m' = m)) as [->|]; [|exact (Hr m' i' s'' p e ltac:(lia) Hi' Hs'' Hp Hc Hk)].
      rewrite Hm in Hi'. injection Hi' as <-. rewrite Hs in Hs''. injection Hs'' as <-. exact (findMatched_none s k vis p e Hso Ef Hp Hc Hk).
    + exists None. split; [reflexivity|]. intros m' i' s'' p e Hm' Hi' Hs'' Hp Hc Hk. apply lookup_ge_None_1 in Hj. apply lookup_lt_Some in Hi' as Hlt'. assert (m' = m) as -> by lia.
      rewrite Hm in Hi'. injection Hi' as <-. rewrite Hs in Hs''. injection Hs'' as <-. exact (findMatched_none s k vis p e Hso Ef Hp Hc Hk).
Qed.

Lemma lookup_disk_run t x es (k : K) vis :
  persists (version (is_checkpoint t) x) es →
  ∃ r, lookupInPersistentIndex t k vis x = (Ok r, x) ∧ match r with Some v => MkEntry k v ∈ es ∧ vis v = true | None => ¬ visible k vis es end.
Proof.
  set (y := version _ x). intros H. unfold lookupInPersistentIndex. rewrite (M_bind_ok get_state _ x x x eq_refl). cbn zeta.
  change (if is_checkpoint t then indexHeaderForWriteTrx x else indexHeaderForReadTrx x) with (indexHeader y).
  assert (Hempty : headerNumEntries (indexHeader y) = 0%Z → es = []).
  { destruct H as [(C & B & H & HB)|(-> & _)]; [|reflexivity]. intros E. rewrite (di_count _ _ _ H) in E. destruct (concat B); [apply Permutation_nil_r; exact HB|cbn in E; lia]. }
  destruct (Z.eqb_spec (headerNumEntries (indexHeader y)) 0) as [E|E].
  { exists None. split; [reflexivity|]. rewrite (Hempty E). intros (e & He & _). inversion He. }
  destruct H as [(C & B & H & HB)|(_ & _ & _ & Hh)]; [|rewrite Hh in E; contradiction]. pose proof (di_directory _ _ _ H) as Hd. pose proof (primary_slot_range _ _ (hash k) (dr_header _ _ _ _ _ Hd)) as Hr.
  set (q := getPrimarySlotIdForHash _ _) in *. destruct (directory_focus gap_chain y C B [] (Z.to_nat q) Hd ltac:(lia)) as (l & bs & Hl & Hbs & [Hlk Hnd Hheld] & Hst & Hhd & Hhome & HBp). rewrite Z2Nat.id in Hhd by lia.
  assert (H0 : l !! 0 = Some (primary q)) by (destruct l; [discriminate Hhd|exact Hhd]). destruct (linked_here y l _ Hlk ltac:(apply list_elem_of_lookup; eauto)) as (_ & s & Hs).
  rewrite (M_bind_ok _ _ _ _ _ (disk_getSlot_run t _ s x Hs)). pose proof (chain_count y l Hlk Hnd) as Hf.
  destruct (lookup_chain_run t x l k vis (disk_fuel t x) 0 _ s (st_slots _ _ _ Hst) Hlk Hnd H0 Hs ltac:(exact Hf)) as (r & Hrun & Hres). exists r. split; [exact Hrun|]. destruct r as [v|].
  - destruct Hres as [Hin Hv]. split; [|exact Hv]. rewrite HB, HBp. apply elem_of_app. left. rewrite <- Hheld. exact Hin.
  - intros (e & He & Hk & Hv). rewrite HB in He. apply (directory_home gap_chain y C B [] _ bs e Hd Hbs) in He; [|unfold home; rewrite Hk; fold q; lia]. rewrite <- Hheld in He.
    destruct (held_cell y l e Hlk He) as (m & i & s' & p & Hm & Hs' & Hp & Hc). rewrite (Hres m i s' p e ltac:(lia) Hm Hs' Hp Hc Hk) in Hv. discriminate Hv.
Qed.
End Disk.

(** * The hash index through its layers

    Lookups, insertions and deletions of a hash index as operations on three parts: the keys deleted since the last
    checkpoint, the entries inserted since, and the entries on disk. *)

Section Layers.
Context {K : Type} `{HK : IndexHashable K} `{Hok : !IndexHashableOk K} `{Hlost : LostSlots}.
Implicit Types (x : HashIndex K) (D : list K) (ls ps es : list (SlotEntry K)) (k : K).

(** The parts of an index, as a transaction that is not a checkpoint sees them. *)
Record layered x D ls ps : Prop := {
  ly_deleted : localDeletions (localStorage x) = D;
  ly_local : represents (localInsertions (localStorage x)) ls;
  ly_disk : persists (version false x) ps;
}.

Lemma on_insertions_run {A} (m : M (InMemHashIndex K) A) (s : HashIndexLocalStorage K) r i :
  m (localInsertions s) = (r, i) → on_insertions m s = (r, set_localInsertions i s).
Proof. intros E. unfold on_insertions. rewrite E. reflexivity. Qed.

Lemma on_local_run {A} (m : M (HashIndexLocalStorage K) A) x r s : m (localStorage x) = (r, s) → on_local m x = (r, set_localStorage s x).
Proof. intros E. unfold on_local. rewrite E. reflexivity. Qed.

Lemma set_local_same x : set_localStorage (localStorage x) x = x.
Proof. destruct x. reflexivity. Qed.

Lemma local_lookup_run x D ls ps k vis :
  layered x D ls ps →
  ∃ st r, on_local (LocalHashIndex.lookup k vis) x = (Ok (st, r), x) ∧
    match st with
    | KEY_DELETED => k ∈ D ∧ r = None
    | KEY_FOUND => ¬ k ∈ D ∧ ∃ v, r = Some v ∧ MkEntry k v ∈ ls ∧ vis v = true
    | KEY_NOT_EXIST => ¬ k ∈ D ∧ ¬ visible k vis ls
    end.
Proof.
  intros [HD Hl Hd]. unfold on_local. unfold LocalHashIndex.lookup. rewrite (M_bind_ok get_state _ _ _ _ eq_refl). unfold contains. rewrite HD. destruct (decide (k ∈ D)) as [Hk|Hk].
  - rewrite bool_decide_eq_true_2 by exact Hk. exists KEY_DELETED, None. unfold mret, M_ret. rewrite set_local_same. auto.
  - rewrite bool_decide_eq_false_2 by exact Hk. destruct (lookup_run _ ls k vis Hl) as (r & Hrun & Hr). rewrite (M_bind_ok _ _ _ _ _ (on_insertions_run _ _ _ _ Hrun)).
    exists (match r with Some _ => KEY_FOUND | None => KEY_NOT_EXIST end), r. split.
    + unfold mret, M_ret. destruct x as [p o [dl il] hr hw]. reflexivity.
    + destruct r as [v|]; split; try assumption. destruct Hr. eauto.
Qed.

(** The entries a lookup of the key can find: none if the key is deleted, those inserted since the checkpoint if one of them is visible, and
    those on disk otherwise. *)
Definition candidates D ls ps k vis : list (SlotEntry K) :=
  if decide (k ∈ D) then [] else if existsb (λ e, bool_decide (key e = k) && vis (value e)) ls then ls else ps.

(** A lookup through the layers returns and changes nothing: it yields the value of a visible entry of the key among the inserted entries if
    there is one, else of one on disk, and nothing exactly when the key is deleted or has no visible entry in either. *)
Theorem index_lookup_layers x D ls ps k vis t :
  layered x D ls ps → t ≠ Transaction.CHECKPOINT →
  ∃ r, lookupInternal t k vis x = (Ok r, x) ∧ (r = None ↔ ¬ visible k vis (candidates D ls ps k vis)) ∧
    ∀ v, r = Some v → MkEntry k v ∈ candidates D ls ps k vis ∧ vis v = true.
Proof.
  intros H Ht. destruct (local_lookup_run x D ls ps k vis H) as (st & r & Hrun & Hst). unfold lookupInternal, candidates. rewrite (M_bind_ok _ _ _ _ _ Hrun).
  assert (Hck : is_checkpoint t = false) by (apply bool_decide_eq_false_2, Ht). destruct st.
  - destruct Hst as (Hk & v & -> & Hin & Hv). assert (Hvis : visible k vis ls) by (exists (MkEntry k v); auto). rewrite decide_False by exact Hk. apply visible_existsb in Hvis as Hb. rewrite Hb.
    exists (Some v). split; [reflexivity|]. split; [split; [discriminate|intros Hno; contradiction]|]. intros v' E. injection E as <-. auto.
  - destruct Hst as [Hk _]. rewrite decide_True by exact Hk. exists None. split; [reflexivity|]. split; [|discriminate]. split; [|reflexivity]. intros _ (e & He & _). inversion He.
  - destruct Hst as [Hk Hno]. rewrite decide_False by exact Hk. rewrite visible_existsb in Hno. apply not_true_is_false in Hno as ->.
    pose proof (ly_disk _ _ _ _ H) as Hd. rewrite <- Hck in Hd. destruct (lookup_disk_run t x ps k vis Hd) as (v & Hrun' & Hv). exists v. split; [exact Hrun'|]. destruct v as [v|].
    + destruct Hv as [Hin Hv]. split; [|intros v' E; injection E as <-; auto]. split; [discriminate|]. intros Hno. destruct Hno. exists (MkEntry k v). auto.
    + split; [tauto|discriminate].
Qed.

(** Without deletions the layers are one bag. *)
Lemma visible_app k vis es es' : visible k vis (es ++ es') ↔ visible k vis es ∨ visible k vis es'.
Proof. split; [intros (e & [He|He]%elem_of_app & H)|intros [(e & He & H)|(e & He & H)]]; [left|right| |]; exists e; split; rewrite ?elem_of_app; auto. Qed.

Lemma lookup_plain_run x ls ps k vis t :
  layered x [] ls ps → t ≠ Transaction.CHECKPOINT →
  ∃ r, lookupInternal t k vis x = (Ok r, x) ∧ match r with Some v => MkEntry k v ∈ ls ++ ps ∧ vis v = true | None => ¬ visible k vis (ls ++ ps) end.
Proof.
  intros H Ht. destruct (local_lookup_run x [] ls ps k vis H) as (st & r & Hrun & Hst). unfold lookupInternal. rewrite (M_bind_ok _ _ _ _ _ Hrun). assert (Hck : is_checkpoint t = false) by (apply bool_decide_eq_false_2, Ht). destruct st.
  - destruct Hst as (_ & v & -> & Hin & Hv). exists (Some v). split; [reflexivity|]. split; [apply elem_of_app; auto|exact Hv].
  - destruct Hst as [Hk _]. inversion Hk.
  - destruct Hst as [_ Hno]. pose proof (ly_disk _ _ _ _ H) as Hd. rewrite <- Hck in Hd. destruct (lookup_disk_run t x ps k vis Hd) as (v & Hrun' & Hv). exists v. split; [exact Hrun'|].
    destruct v as [v|]; [destruct Hv; rewrite elem_of_app; auto|]. rewrite visible_app. tauto.
Qed.

(** ** Inserting *)

Lemma local_insert_run x D ls ps k v vis :
  layered x D ls ps → let i := localInsertions (localStorage x) in room i ls (headerNumEntries (indexHeader i) + 1) →
  ∃ b x', on_local (LocalHashIndex.insert k v vis) x = (Ok b, x') ∧ (b = true ↔ ¬ visible k vis ls) ∧
    layered x' (erase k D) (if (b : bool) then MkEntry k v :: ls else ls) ps.
Proof.
  intros [<- Hl Hd] i Hroom. destruct (append_run i ls k v vis Hl Hroom) as (b & i' & Hrun & _ & _ & Hres).
  set (s1 := set_localDeletions (erase k (localDeletions (localStorage x))) (localStorage x)). exists b, (set_localStorage (set_localInsertions i' s1) x). split; [|split].
  - unfold on_local, LocalHashIndex.insert. rewrite (M_bind_ok (modify (λ s, set_localDeletions (erase k (localDeletions s)) s)) _ _ tt s1 eq_refl).
    rewrite (on_insertions_run _ s1 _ _ Hrun). reflexivity.
  - destruct b; destruct Hres as [Hv _]; [tauto|]. split; [discriminate|contradiction].
  - split; [reflexivity| |exact Hd]. destruct b; destruct Hres as (_ & H' & _); exact H'.
Qed.

(** An insertion through the layers succeeds exactly when the key has no visible entry among the inserted ones and is deleted or has none on disk.
    It then is an inserted entry and the key is not deleted any more; otherwise no entry changes. *)
Theorem index_insert_layers x D ls ps k v vis t :
  layered x D ls ps → t ≠ Transaction.CHECKPOINT → let i := localInsertions (localStorage x) in room i ls (headerNumEntries (indexHeader i) + 1) →
  ∃ b x', insertInternal t k v vis x = (Ok b, x') ∧ (b = true ↔ ¬ visible k vis ls ∧ (k ∈ D ∨ ¬ visible k vis ps)) ∧
    if (b : bool) then layered x' (erase k D) (MkEntry k v :: ls) ps else ∃ D', layered x' D' ls ps ∧ (D' = D ∨ D' = erase k D).
Proof.
  intros H Ht i Hroom. destruct (local_lookup_run x D ls ps k vis H) as (st & r & Hrun & Hst). unfold insertInternal. rewrite (M_bind_ok _ _ _ _ _ Hrun).
  assert (Hck : is_checkpoint t = false) by (apply bool_decide_eq_false_2, Ht). destruct (local_insert_run x D ls ps k v vis H Hroom) as (b & x' & Hins & Hb & Hx').
  destruct st.
  - destruct Hst as (Hk & v' & -> & Hin & Hv). exists false, x. split; [reflexivity|]. split; [|exists D; auto]. split; [discriminate|]. intros [Hno _]. destruct Hno. exists (MkEntry k v'). auto.
  - destruct Hst as [Hk _]. exists b, x'. split; [exact Hins|]. split; [rewrite Hb; tauto|]. destruct b; [exact Hx'|]. exists (erase k D). auto.
  - destruct Hst as [Hk Hno]. pose proof (ly_disk _ _ _ _ H) as Hd. rewrite <- Hck in Hd. destruct (lookup_disk_run t x ps k vis Hd) as (p & Hrun' & Hp).
    rewrite (M_bind_ok _ _ _ _ _ Hrun'). destruct p as [w|].
    + destruct Hp as [Hin Hw]. exists false, x. split; [reflexivity|]. split; [|exists D; auto]. split; [discriminate|]. intros [_ [Hc|Hc]]; [contradiction|]. destruct Hc. exists (MkEntry k w). auto.
    + exists b, x'. split; [exact Hins|]. split; [rewrite Hb; tauto|]. destruct b; [exact Hx'|]. exists (erase k D). auto.
Qed.

Lemma insert_plain_run N n x ls ps k v vis t :
  layered x [] ls ps → t ≠ Transaction.CHECKPOINT → small N n (localInsertions (localStorage x)) ls → n < N → (Z.of_nat N ≤ 2 ^ 14)%Z →
  ∃ b s, insertInternal t k v vis x = (Ok b, set_localStorage s x) ∧ (b = true ↔ ¬ visible k vis (ls ++ ps)) ∧ let ls' := if (b : bool) then MkEntry k v :: ls else ls in
    layered (set_localStorage s x) [] ls' ps ∧ small N (S n) (localInsertions s) ls' ∧ insertions_size s = (insertions_size (localStorage x) + if (b : bool) then 1 else 0)%Z.
Proof.
  intros H Ht Hs Hn HN. destruct (local_lookup_run x [] ls ps k vis H) as (st & r & Hrun & Hst). unfold insertInternal. rewrite (M_bind_ok _ _ _ _ _ Hrun). setoid_rewrite visible_app.
  assert (Hck : is_checkpoint t = false) by (apply bool_decide_eq_false_2, Ht). pose proof H as [HD Hl Hd].
  assert (Hx : set_localStorage (localStorage x) x = x) by apply set_local_same. assert (Hsame : layered (set_localStorage (localStorage x) x) [] ls ps) by (rewrite Hx; exact H).
  destruct st; [|destruct Hst as [Hk _]; inversion Hk|].
  - destruct Hst as (_ & v' & -> & Hin & Hv). exists false, (localStorage x). split; [rewrite set_local_same; reflexivity|]. split; [split; [discriminate|intros Hno; destruct Hno; left; exists (MkEntry k v'); auto]|].
    split; [exact Hsame|]. split; [exact (small_later N n (S n) _ _ ltac:(lia) Hs)|lia].
  - destruct Hst as [_ Hno]. rewrite <- Hck in Hd. destruct (lookup_disk_run t x ps k vis Hd) as (p & Hrun' & Hp). rewrite Hck in Hd. rewrite (M_bind_ok _ _ _ _ _ Hrun'). destruct p as [w|].
    + destruct Hp as [Hin Hw]. exists false, (localStorage x). split; [rewrite set_local_same; reflexivity|]. split; [split; [discriminate|intros Hno'; destruct Hno'; right; exists (MkEntry k w); auto]|].
      split; [exact Hsame|]. split; [exact (small_later N n (S n) _ _ ltac:(lia) Hs)|lia].
    + destruct (append_small N n _ ls k v vis Hl Hs Hn HN) as (b & i' & Hap & Hb & Hr & Hs' & Hc). set (s1 := set_localDeletions (erase k (localDeletions (localStorage x))) (localStorage x)).
      exists b, (set_localInsertions i' s1). split; [|split; [rewrite Hb; tauto|]].
      * apply on_local_run. unfold LocalHashIndex.insert. rewrite (M_bind_ok (modify (λ s, set_localDeletions (erase k (localDeletions s)) s)) _ _ tt s1 eq_refl). exact (on_insertions_run _ s1 _ _ Hap).
      * split; [split; [cbn; rewrite HD; reflexivity|exact Hr|exact Hd]|]. split; [exact Hs'|exact Hc].
Qed.

(** ** Deleting *)

(** A deletion through the layers removes an inserted entry of the key if there is one, and otherwise marks the key as deleted; what is on disk
    stays. *)
Theorem index_delete_layers x D ls ps k :
  layered x D ls ps → (Z.of_nat (length (oSlots (localInsertions (localStorage x)))) < 2 ^ 32)%Z →
  ∃ x', deleteInternal k x = (Ok tt, x') ∧
    ((∃ v ls', ls ≡ₚ MkEntry k v :: ls' ∧ layered x' D ls' ps) ∨
     (∀ v, MkEntry k v ∉ ls) ∧ ∃ D', layered x' D' ls ps ∧ ∀ k', k' ∈ D' ↔ k' = k ∨ k' ∈ D).
Proof.
  intros [HD Hl Hd] Ho. set (s := localStorage x) in *. destruct (deleteKey_run _ ls k Hl Ho) as (b & i' & Hrun & Hres). unfold deleteInternal, on_local, LocalHashIndex.deleteKey. fold s.
  rewrite (M_bind_ok _ _ _ _ _ (on_insertions_run _ _ _ _ Hrun)). destruct b.
  - eexists. split; [reflexivity|]. left. destruct Hres as ([k' v] & ls' & Hk & Hp & H' & _). cbn in Hk. subst k'. exists v, ls'. split; [exact Hp|]. split; [exact HD|exact H'|exact Hd].
  - destruct Hres as [Hno ->]. eexists. split; [reflexivity|]. right. split; [intros v Hv; exact (Hno _ Hv eq_refl)|].
    cbn [localDeletions set_localInsertions]. eexists. split; [split; [reflexivity|exact Hl|exact Hd]|]. cbn [localDeletions localStorage set_localStorage set_localDeletions]. rewrite HD.
    intros k'. unfold contains. destruct (decide (k ∈ D)) as [Hk|Hk].
    + rewrite bool_decide_eq_true_2 by exact Hk. split; [auto|]. intros [->|]; assumption.
    + rewrite bool_decide_eq_false_2 by exact Hk. apply elem_of_cons.
Qed.
End Layers.

(** ** A new index *)

Section New.
Context {K : Type} `{HK : IndexHashable K} `{Hok : !IndexHashableOk K}.

Lemma local_new : ∃ s0 : HashIndexLocalStorage K, HashIndexLocalStorage_new = Ok s0 ∧ localDeletions s0 = [] ∧ (∀ d, represents (Hlost := d) (localInsertions s0) []) ∧
  (∀ N, small N 0 (localInsertions s0) []) ∧ insertions_size s0 = 0%Z.
Proof.
  destruct (new_run (Hlost := none_lost)) as (i & Hnew & _ & Hp & Ho & Hc). exists (MkLocal [] i). unfold HashIndexLocalStorage_new. rewrite Hnew. split; [reflexivity|]. split; [reflexivity|].
  split; [|split; [intros N; apply small_fresh; assumption|exact Hc]]. intros d. destruct (new_run (Hlost := d)) as (i' & Hnew' & H' & _). rewrite Hnew in Hnew'. injection Hnew' as <-. exact H'.
Qed.

Definition fresh_index (s : HashIndexLocalStorage K) : HashIndex K := MkHashIndex (MkArray [] []) (MkArray [] []) s HashIndexHeader_new HashIndexHeader_new.

Lemma fresh_layered `{Hlost : LostSlots} s0 : HashIndexLocalStorage_new (K := K) = Ok s0 → layered (fresh_index s0) [] [] [] ∧ (∀ N, small N 0 (localInsertions s0) []).
Proof.
  intros Hs0. destruct local_new as (s0' & E & HD & Hr & Hsm & _). rewrite Hs0 in E. injection E as <-. split; [|exact Hsm]. split; [exact HD|apply Hr|right; auto].
Qed.
End New.

(** ** Witnesses *)

#[local] Existing Instance none_lost.

Lemma index_lookup_layers_witness : ∃ x : HashIndex Z, layered x [] [] [] ∧ lookupInternal Transaction.WRITE 5%Z (λ _, true) x = (Ok None, x).
Proof.
  destruct (local_new (K := Z)) as (s0 & Hs0 & _). destruct (fresh_layered s0 Hs0) as [H _]. exists (fresh_index s0). split; [exact H|].
  destruct (index_lookup_layers _ _ _ _ 5%Z (λ _, true) Transaction.WRITE H ltac:(discriminate)) as (r & Hrun & Hr & _). rewrite Hrun. f_equal. f_equal. apply Hr. intros (e & He & _). inversion He.
Defined.

Lemma index_insert_layers_witness :
  ∃ x x' : HashIndex Z, layered x [] [] [] ∧ insertInternal Transaction.WRITE 5%Z 0%Z (λ _, true) x = (Ok true, x') ∧ layered x' [] [MkEntry 5 0]%Z [].
Proof.
  destruct (local_new (K := Z)) as (s0 & Hs0 & _). destruct (fresh_layered s0 Hs0) as [H Hsm]. exists (fresh_index s0).
  destruct (index_insert_layers _ _ _ _ 5%Z 0%Z (λ _, true) Transaction.WRITE H ltac:(discriminate)) as (b & x' & Hrun & Hb & Hres).
  - apply (small_room 1 0); [apply Hsm|lia|lia].
  - assert (b = true) as ->. { apply Hb. split; [|right]; intros (e & He & _); inversion He. } exists x'. auto.
Defined.

Lemma index_delete_layers_witness : ∃ x x' : HashIndex Z, layered x [] [] [] ∧ deleteInternal 5%Z x = (Ok tt, x') ∧ ∃ D', layered x' D' [] [] ∧ 5%Z ∈ D'.
Proof.
  destruct (local_new (K := Z)) as (s0 & Hs0 & _). destruct (fresh_layered s0 Hs0) as [H Hsm]. exists (fresh_index s0).
  destruct (index_delete_layers _ _ _ _ 5%Z H) as (x' & Hrun & Hres).
  - pose proof (small_overflow 1 0 _ _ (Hsm 1) ltac:(lia) ltac:(lia)). cbn in *. lia.
  - exists x'. split; [exact H|]. split; [exact Hrun|]. destruct Hres as [(v & ls' & Hp & _)|(_ & D' & HD' & Hin)]; [apply Permutation_nil_cons in Hp as []|]. exists D'. split; [exact HD'|]. apply Hin. auto.
Defined.
