(* ===== verification/HashDiskSplit.v ===== *)
(** * Splitting slots on disk

    [splitSlots] on the slots of the disk arrays and the vector of new overflow slots, seen as one index: a split moves the entries that belong
    to the new slot there and leaves gaps. *)

From stdpp Require Import base numbers list strings.
From Stdlib Require Import ZArith Lia.
From S2P Require Import Prelude TransactionManager HashSlot HashSlotSpec InMemHashIndex HashChain HashGrow HashSplit HashDirectory HashIndexSpec LocalHashIndex DiskArray HashIndex HashIndexCheckpoint HashIndexDisk.
Import HashSlot InMemHashIndex LocalHashIndex VersionedArray HashIndex HashIndexCheckpoint.

#[local] Open Scope nat_scope.

Section Split.
Context {K : Type} `{HK : IndexHashable K} `{Hok : !IndexHashableOk K} `{Hlost : LostSlots}.
Variable reallocates : nat → bool.

Abbreviation CAP := (SLOT_CAPACITY K).
Abbreviation Index := (InMemHashIndex K).
Implicit Types (y : Index) (s : Splitting K) (p q : SlotPtr) (i : SlotInfo) (l L : list SlotInfo) (es : list (SlotEntry K)) (e : SlotEntry K).
Implicit Types (V : list (option (SlotEntry K))) (place : NewPlace).

(** ** The slots as one index *)

(** The overflow slots on disk, and all slots a split works on. *)
Definition on_disk s : nat := length (current (diskOSlots (splitIndex s))).
Definition flat s : Index :=
  MkIndex (current (diskPSlots (splitIndex s))) (current (diskOSlots (splitIndex s)) ++ newOverflowSlots s) (indexHeaderForWriteTrx (splitIndex s)) 0.

(** What a split leaves alone. *)
Definition base s : list (Slot K) * list (Slot K) * nat * HashIndexLocalStorage K * HashIndexHeader :=
  let x := splitIndex s in (committed (diskPSlots x), committed (diskOSlots x), on_disk s, localStorage x, indexHeaderForReadTrx x).

Definition place_of (n : nat) p : SlotInfo :=
  match p with InPSlots a => primary a | InOSlots a => MkSlotInfo a OVF | InNewSlots j => MkSlotInfo (Z.of_nat (n + j)) OVF end.
Definition ptr_ok (n : nat) p : Prop := match p with InPSlots a => (0 ≤ a)%Z | InOSlots a => (0 ≤ a < Z.of_nat n)%Z | InNewSlots _ => True end.

Lemma base_on_disk s s' : base s' = base s → on_disk s' = on_disk s.
Proof. intros E. injection E. auto. Qed.

Lemma deref_flat s p : ptr_ok (on_disk s) p → deref p s = slot_at (place_of (on_disk s) p) (flat s).
Proof.
  intros Hp. destruct p as [a|a|j]; cbn [deref place_of slot_at slotType slotId primary flat oSlots pSlots ptr_ok] in *; [reflexivity| |].
  - rewrite lookup_app_l by (unfold on_disk in Hp; lia). reflexivity.
  - rewrite Nat2Z.id, lookup_app_r by (unfold on_disk; lia). unfold on_disk. f_equal. lia.
Qed.

Lemma assign_flat s p v : ptr_ok (on_disk s) p → flat (assign p v s) = put_slot (place_of (on_disk s) p) v (flat s) ∧ base (assign p v s) = base s.
Proof.
  intros Hp. destruct p as [a|a|j]; cbn [assign place_of put_slot slotType slotId primary ptr_ok] in *; unfold flat, base, on_disk in *; cbn; (split; [|rewrite ?length_insert; reflexivity]).
  - reflexivity.
  - rewrite insert_app_l by lia. reflexivity.
  - rewrite Nat2Z.id, insert_app_r. reflexivity.
Qed.

Lemma read_run s p v : ptr_ok (on_disk s) p → slot_at (place_of (on_disk s) p) (flat s) = Some v → read_ptr p s = (Ok v, s).
Proof. intros Hp Hv. unfold read_ptr, observe. rewrite (deref_flat s p Hp), Hv. reflexivity. Qed.

Lemma on_ptr_run s p v g :
  ptr_ok (on_disk s) p → slot_at (place_of (on_disk s) p) (flat s) = Some v →
  ∃ s', on_ptr p g s = (Ok tt, s') ∧ flat s' = put_slot (place_of (on_disk s) p) (g v) (flat s) ∧ base s' = base s.
Proof.
  intros Hp Hv. exists (assign p (g v) s). unfold on_ptr. rewrite (M_bind_ok _ _ _ _ _ (read_run s p v Hp Hv)). split; [reflexivity|]. exact (assign_flat s p (g v) Hp).
Qed.

(** ** A new overflow slot *)

Definition is_old p : Prop := match p with InNewSlots _ => False | _ => True end.
Definition settled s : Prop := length (committed (diskOSlots (splitIndex s))) = on_disk s.

Lemma settled_base s s' : base s' = base s → settled s → settled s'.
Proof. intros E H. unfold settled in *. injection E as _ E1 E2 _ _. rewrite E1, E2. exact H. Qed.

Lemma put_grow y i v w : slot_at i y = Some v → set_oSlots (oSlots (put_slot i w y) ++ [Slot_new]) (put_slot i w y) = put_slot i w (set_oSlots (oSlots y ++ [Slot_new]) y).
Proof.
  destruct i as [a []]; unfold slot_at, put_slot; cbn [slotType slotId]; intros Hv; [reflexivity|]. apply lookup_lt_Some in Hv. cbn [set_oSlots oSlots pSlots indexHeader numFreeSlots].
  rewrite insert_app_l by exact Hv. reflexivity.
Qed.

Lemma put_shape y i v : indexHeader (put_slot i v y) = indexHeader y ∧ length (pSlots (put_slot i v y)) = length (pSlots y) ∧ length (oSlots (put_slot i v y)) = length (oSlots y).
Proof. unfold put_slot. destruct (slotType i); cbn [set_oSlots set_pSlots oSlots pSlots indexHeader]; rewrite ?length_insert; auto. Qed.

Lemma flat_new s : length (oSlots (flat s)) = on_disk s + length (newOverflowSlots s).
Proof. unfold flat, on_disk. cbn [oSlots]. apply length_app. Qed.

Lemma new_slot_run s p q l2 L es :
  settled s → is_old p → ptr_ok (on_disk s) q → last l2 = Some (place_of (on_disk s) q) → store (flat s) (l2 ++ L) [] → row (flat s) l2 es → length es = length l2 * CAP →
  (Z.of_nat (length (oSlots (flat s))) < INVALID_OVERFLOW_SLOT_ID)%Z →
  ∃ s' m, next_new_slot reallocates p q s = (Ok (InNewSlots m, 0), s') ∧ base s' = base s ∧ let o := place_of (on_disk s) (InNewSlots m) in
    row (flat s') (l2 ++ [o]) es ∧ store (flat s') ((l2 ++ [o]) ++ L) [] ∧ agree L (flat s) (flat s') ∧ indexHeader (flat s') = indexHeader (flat s) ∧
    length (pSlots (flat s')) = length (pSlots (flat s)) ∧ length (oSlots (flat s')) = S (length (oSlots (flat s))).
Proof.
  intros Hset Hold Hq Hlast Hst Hrow Hfull Hsize. set (i := place_of (on_disk s) q) in *. set (m := length (newOverflowSlots s)). set (o := place_of (on_disk s) (InNewSlots m)).
  assert (Hi : i ∈ l2) by (apply last_Some_elem_of; exact Hlast). destruct (linked_here _ _ _ (rw_linked _ _ _ Hrow) Hi) as (Hh & v & Hv).
  destruct (on_ptr_run s q v (set_next (Z.of_nat m + getNumElements false (diskOSlots (splitIndex s)))) Hq Hv) as (s1 & Hrun & Hf1 & Hb1). fold i in Hf1.
  assert (Hid : (Z.of_nat m + getNumElements false (diskOSlots (splitIndex s)))%Z = slotId o) by (unfold getNumElements, elements, o; cbn [place_of slotId]; rewrite Hset; lia).
  assert (Ho : o = MkSlotInfo (Z.of_nat (length (oSlots (flat s)))) OVF) by (rewrite flat_new; reflexivity). rewrite Hid in Hf1.
  set (s2 := set_newOverflowSlots (newOverflowSlots s1 ++ [Slot_new]) s1). set (y1 := set_oSlots (oSlots (flat s) ++ [Slot_new]) (flat s)).
  assert (Hf2 : flat s2 = put_slot i (set_next (slotId o) v) y1).
  { rewrite <- (put_grow _ _ v _ Hv), <- Hf1. unfold flat, s2, set_oSlots. cbn. rewrite app_assoc. reflexivity. }
  destruct (grow_ok (flat s) (l2 ++ L) [] 1 Hst) as (Hst1 & Ha1 & Hnew & _). cbn [ovf_from replicate app] in Hst1, Ha1, Hnew. fold y1 in Hst1, Ha1, Hnew. rewrite <- Ho in Hst1, Hnew.
  apply agree_app in Ha1 as [Ha1 Ha1']. assert (Hrow1 : row y1 l2 es) by (exact (row_agree _ _ _ _ Ha1 Hrow)).
  destruct (extend y1 l2 L [] es i o v Slot_new Hst1 Hrow1 Hfull Hlast) as (Hr & Hs & Ha & _); try reflexivity; [rewrite (Ha1 i Hi); exact Hv|apply Hnew; left|rewrite Ho; cbn [slotId]; lia|exact view_new|].
  exists s2, m. rewrite <- Hf2 in Hr, Hs, Ha. split.
  - unfold next_new_slot. rewrite (M_bind_ok get_state _ s s s eq_refl). cbn zeta. rewrite (M_bind_ok _ _ _ _ _ Hrun). rewrite (M_bind_ok (modify (λ s, set_newOverflowSlots (newOverflowSlots s ++ [Slot_new]) s)) _ s1 tt s2 eq_refl). destruct p; [reflexivity|reflexivity|contradiction].
  - split; [rewrite <- Hb1; reflexivity|]. split; [exact Hr|]. split; [exact Hs|]. split; [exact (agree_trans L _ _ _ Ha1' Ha)|].
    destruct (put_shape y1 i (set_next (slotId o) v)) as (Hs1 & Hs2 & Hs3). rewrite Hf2, Hs1, Hs2, Hs3. unfold y1. cbn [set_oSlots oSlots pSlots indexHeader]. rewrite length_app. cbn [length]. split_and!; try reflexivity. lia.
Qed.

(** ** Moving the entries of a chain *)

Section Moving.
Variable stay : SlotEntry K → bool.

Definition keep_cell (c : option (SlotEntry K)) : option (SlotEntry K) := match c with Some e => if stay e then Some e else None | None => None end.
Definition gone_cell (c : option (SlotEntry K)) : option (SlotEntry K) := match c with Some e => if stay e then None else Some e | None => None end.
(** The cells while those before [g] are done, and the entries that went away. *)
Definition rest V g : list (option (SlotEntry K)) := map keep_cell (take g V) ++ drop g V.
Definition gone V g : list (SlotEntry K) := omap gone_cell (take g V).

Lemma rest_lookup V g : g < length V → rest V g !! g = V !! g.
Proof. intros Hg. unfold rest. rewrite lookup_app_r; rewrite length_map, length_take_le by lia; [|lia]. rewrite lookup_drop. f_equal. lia. Qed.

Lemma rest_next V g c : V !! g = Some c → rest V (S g) = <[g := keep_cell c]> (rest V g).
Proof.
  intros Hc. apply lookup_lt_Some in Hc as Hg. unfold rest. rewrite (take_S_r V g c Hc), map_app, <- app_assoc. rewrite (drop_S V c g Hc).
  rewrite insert_app_r_alt; rewrite length_map, length_take_le by lia; [|lia]. rewrite Nat.sub_diag. reflexivity.
Qed.

Lemma rest_same V g c : V !! g = Some c → keep_cell c = c → rest V (S g) = rest V g.
Proof.
  intros Hc Hk. rewrite (rest_next V g c Hc), Hk. apply list_insert_id. apply lookup_lt_Some in Hc as Hg. rewrite rest_lookup by exact Hg. exact Hc.
Qed.

Lemma gone_next V g c : V !! g = Some c → gone V (S g) = gone V g ++ match gone_cell c with Some e => [e] | None => [] end.
Proof. intros Hc. unfold gone. rewrite (take_S_r V g c Hc), omap_app. cbn [omap list_omap]. destruct (gone_cell c); reflexivity. Qed.
End Moving.

Record moving s0 s l l2 L V (stay : SlotEntry K → bool) (g : nat) place : Prop := {
  mv_store : store (flat s) (l ++ l2 ++ L) [];
  mv_linked : linked (flat s) l;
  mv_cells : chain_view (flat s) l = rest stay V g;
  mv_new : row (flat s) l2 (gone stay V g);
  mv_last : last l2 = Some (place_of (on_disk s0) place.1);
  mv_ptr : ptr_ok (on_disk s0) place.1;
  mv_pos : place.2 = length (gone stay V g) - (length l2 - 1) * CAP;
  mv_fit : (length l2 - 1) * CAP ≤ length (gone stay V g);
  mv_base : base s = base s0;
  mv_header : indexHeader (flat s) = indexHeader (flat s0);
  mv_primary : length (pSlots (flat s)) = length (pSlots (flat s0));
  mv_ovf : length (oSlots (flat s)) = length (oSlots (flat s0)) + (length l2 - 1);
  mv_agree : agree L (flat s0) (flat s);
}.

Lemma gone_length stay V g : length (gone stay V g) ≤ length (omap id V).
Proof.
  unfold gone. revert g. induction V as [|c V IH]; intros [|g]; cbn [take omap list_omap length]; [lia|lia|lia|]. specialize (IH g). destruct c as [e|]; cbn [gone_cell id]; [|exact IH].
  destruct (stay e); cbn [length]; lia.
Qed.

Lemma moving_nonempty s0 s l l2 L V stay g place : moving s0 s l l2 L V stay g place → 0 < length l2.
Proof. intros H. destruct (last_split _ _ (mv_last _ _ _ _ _ _ _ _ _ H)). assumption. Qed.

(** A place for the next entry. *)
Lemma place_step s0 s l l2 L V stay g place p :
  moving s0 s l l2 L V stay g place → settled s0 → is_old p → (Z.of_nat (length (oSlots (flat s0)) + length (omap id V)) < INVALID_OVERFLOW_SLOT_ID)%Z →
  ∃ place' s' l2', (if CAP <=? place.2 then next_new_slot reallocates p place.1 else mret place) s = (Ok place', s') ∧ moving s0 s' l l2' L V stay g place' ∧
    head l2' = head l2 ∧ place'.2 < CAP ∧ agree l (flat s) (flat s').
Proof.
  pose proof (capacity_range (K := K)) as Hcap. intros H Hset Hold Hsize. pose proof (moving_nonempty _ _ _ _ _ _ _ _ _ H) as Hne. pose proof H as [H1 H2 H3 H4 H5 H6 H7 H8 H9 H10 H11 H12 H13].
  pose proof (gone_length stay V g) as Hg. destruct (Nat.leb_spec CAP place.2) as [Hfull|Hroom]; [|exists place, s, l2; split_and!; [reflexivity|exact H|reflexivity|exact Hroom|intros i _; reflexivity]].
  pose proof (rw_length _ _ _ H4) as Hlen. rewrite <- (base_on_disk _ _ H9) in H5, H6.
  assert (Hfit : length (gone stay V g) = length l2 * CAP). { rewrite H7 in Hfull. replace (length l2) with (S (length l2 - 1)) in Hlen |- * by lia. rewrite Nat.mul_succ_l in *. lia. }
  destruct (new_slot_run s p place.1 l2 (l ++ L) (gone stay V g) (settled_base _ _ H9 Hset) Hold H6 H5 (proj1 (store_rotate _ _ _ _ _) H1) H4 Hfit) as (s' & m & Hrun & Hb & Hr & Hs & Ha & Hh & Hp & Ho); [nia|].
  apply agree_app in Ha as [Hal HaL]. set (o := place_of (on_disk s) (InNewSlots m)) in *. exists (InNewSlots m, 0), s', (l2 ++ [o]). split; [exact Hrun|].
  assert (Hn : length (l2 ++ [o]) = S (length l2)) by (rewrite length_app; cbn [length]; lia).
  split; [split|split; [destruct l2; [cbn in Hne; lia|reflexivity]|split; [cbn; lia|exact Hal]]]; cbn [fst snd]; rewrite ?Hn; cbn [Nat.sub]; rewrite ?Nat.sub_0_r; try (congruence || lia).
  - apply store_rotate. exact Hs.
  - exact (linked_agree _ _ _ Hal H2).
  - rewrite (chain_view_agree _ _ _ Hal). exact H3.
  - rewrite last_snoc. unfold o. rewrite (base_on_disk _ _ H9). reflexivity.
  - exact I.
  - exact (agree_trans L _ _ _ H13 HaL).
Qed.

(** An entry goes to its place and leaves its cell. *)
Lemma move_step s0 s l l2 L V stay g place p k pos e :
  moving s0 s l l2 L V stay g place → place.2 < CAP → ptr_ok (on_disk s0) p → l !! k = Some (place_of (on_disk s0) p) → pos < CAP → g = k * CAP + pos → V !! g = Some (Some e) → stay e = false →
  ∃ s', (on_ptr place.1 (put_entry place.2 e (fp e)) ;; on_ptr p (drop_entry pos) ;; mret (place.1, S place.2)) s = (Ok (place.1, S place.2), s') ∧
    moving s0 s' l l2 L V stay (S g) (place.1, S place.2).
Proof.
  intros H Hroom Hp Hk Hpos Hg HV Hgo. pose proof (moving_nonempty _ _ _ _ _ _ _ _ _ H) as Hne. pose proof H as [H1 H2 H3 H4 H5 H6 H7 H8 H9 H10 H11 H12 H13]. pose proof (base_on_disk _ _ H9) as Hod.
  set (i := place_of (on_disk s0) p) in *. set (j := place_of (on_disk s0) place.1) in *. assert (Hj : j ∈ l2) by (apply last_Some_elem_of; exact H5). assert (Hi : i ∈ l) by (apply list_elem_of_lookup; eauto).
  destruct (linked_here _ _ j (rw_linked _ _ _ H4) Hj) as (Hhj & w & Hw). destruct (on_ptr_run s place.1 w (put_entry place.2 e (fp e)) ltac:(rewrite Hod; exact H6) ltac:(rewrite Hod; exact Hw)) as (s1 & Hrun1 & Hf1 & Hb1).
  rewrite Hod in Hf1. fold j in Hf1. rewrite (M_bind_ok _ _ _ _ _ Hrun1). pose proof (proj1 (store_rotate _ _ _ _ _) H1) as Hst.
  assert (Hfit : (length l2 - 1) * CAP ≤ length (gone stay V g) < length l2 * CAP). { split; [exact H8|]. rewrite H7 in Hroom. replace (length l2) with (S (length l2 - 1)) at 1 by lia. rewrite Nat.mul_succ_l. lia. }
  destruct (push_here _ l2 (l ++ L) [] _ j w e place.2 Hst H4 H5 Hw Hfit H7) as (Hbk & Hst1 & Ha1). rewrite <- Hf1 in Hbk, Hst1, Ha1. apply agree_app in Ha1 as [Hal HaL].
  pose proof (linked_agree _ _ _ Hal H2) as Hl1. destruct (linked_here _ _ i Hl1 Hi) as (Hhi & v & Hv). pose proof (base_on_disk _ _ Hb1) as Hod1. rewrite Hod in Hod1.
  destruct (on_ptr_run s1 p v (drop_entry pos) ltac:(rewrite Hod1; exact Hp) ltac:(rewrite Hod1; exact Hv)) as (s2 & Hrun2 & Hf2 & Hb2). rewrite Hod1 in Hf2. fold i in Hf2. rewrite (M_bind_ok _ _ _ _ _ Hrun2).
  apply store_rotate in Hst1. pose proof (st_slots _ _ _ Hst1 i v Hhi Hv) as Hvok.
  destruct (cell_write _ l (l2 ++ L) [] k i v (drop_entry pos v) pos None Hst1 Hl1 Hk Hv Hpos (slot_ok_drop v pos Hvok Hpos) (view_drop v pos Hvok Hpos) eq_refl) as (Hl2 & Hcv & Hst2 & Ha2 & Hss).
  rewrite <- Hf2 in Hl2, Hcv, Hst2, Ha2, Hss. apply agree_app in Ha2 as [Ha2 Ha2L]. exists s2. split; [reflexivity|].
  assert (Hgn : gone stay V (S g) = gone stay V g ++ [e]) by (rewrite (gone_next stay V g _ HV); cbn [gone_cell]; rewrite Hgo; reflexivity).
  destruct (put_shape (flat s) j (put_entry place.2 e (fp e) w)) as (Hs1 & Hs2 & Hs3), (put_shape (flat s1) i (drop_entry pos v)) as (Hs4 & Hs5 & Hs6). rewrite <- Hf1 in Hs1, Hs2, Hs3. rewrite <- Hf2 in Hs4, Hs5, Hs6.
  split; cbn [fst snd]; rewrite ?Hgn, ?length_app; cbn [length]; try (congruence || lia); try assumption.
  - rewrite Hcv, (chain_view_agree _ _ _ Hal), H3, <- Hg. rewrite (rest_next stay V g _ HV). cbn [keep_cell]. rewrite Hgo. reflexivity.
  - exact (row_agree _ _ _ _ Ha2 (bk_row _ _ _ Hbk)).
  - exact (agree_trans L _ _ _ H13 (agree_trans L _ _ _ HaL Ha2L)).
Qed.

(** One cell of the original chain: an entry that does not stay goes to the new chain. *)
Lemma split_step s0 s l l2 L V g place p k pos newIdx :
  let h := indexHeader (flat s0) in
  moving s0 s l l2 L V (stays h) g place → settled s0 → is_old p → ptr_ok (on_disk s0) p → l !! k = Some (place_of (on_disk s0) p) → pos < CAP → g = k * CAP + pos →
  length V = length l * CAP → (∀ e, Some e ∈ V → stays h e = false → Z.land (hash (key e)) (higherLevelHashMask h) = newIdx) →
  (Z.of_nat (length (oSlots (flat s0)) + length (omap id V)) < INVALID_OVERFLOW_SLOT_ID)%Z →
  ∃ place' s' l2', split_disk_entry reallocates p newIdx pos place s = (Ok place', s') ∧ moving s0 s' l l2' L V (stays h) (S g) place' ∧ head l2' = head l2.
Proof.
  intros h H Hset Hold Hp Hk Hpos Hg HV Hgo Hsize. set (i := place_of (on_disk s0) p) in *. pose proof (lookup_lt_Some _ _ _ Hk) as Hkl. pose proof (cell_lt l k pos Hkl Hpos) as HgV. rewrite <- Hg, <- HV in HgV.
  destruct (lookup_lt_is_Some_2 V g HgV) as [c Hc]. pose proof (base_on_disk _ _ (mv_base _ _ _ _ _ _ _ _ _ H)) as Hod.
  destruct (linked_here _ _ i (mv_linked _ _ _ _ _ _ _ _ _ H) ltac:(apply list_elem_of_lookup; eauto)) as (Hh & v & Hv).
  pose proof (st_slots _ _ _ (mv_store _ _ _ _ _ _ _ _ _ H) i v Hh Hv) as Hvok.
  assert (Hcell : cell v pos = c). { pose proof (chain_cell _ l k i v pos Hk Hv Hpos) as E. rewrite (mv_cells _ _ _ _ _ _ _ _ _ H), <- Hg, rest_lookup, Hc in E by exact HgV. congruence. }
  unfold split_disk_entry. rewrite (M_bind_ok _ _ _ _ _ (read_run s p v ltac:(rewrite Hod; exact Hp) ltac:(rewrite Hod; exact Hv))). rewrite (valid_cell v pos Hvok Hpos), Hcell.
  destruct c as [e|].
  2: { rewrite bool_decide_eq_false_2 by (intros [? E]; discriminate E). exists place, s, l2. split; [reflexivity|]. split; [|reflexivity]. destruct H as [H1 H2 H3 H4 H5 H6 H7 H8 H9 H10 H11 H12 H13].
    split; rewrite ?(gone_next (stays h) V g None Hc), ?app_nil_r; try assumption. rewrite (rest_same (stays h) V g None Hc eq_refl). exact H3. }
  rewrite bool_decide_eq_true_2 by eauto. cbn [negb].
  destruct (place_step s0 s l l2 L V (stays h) g place p H Hset Hold Hsize) as (place' & s1 & l2' & Hrun1 & H' & Hhd & Hroom & Hal). rewrite (M_bind_ok _ _ _ _ _ Hrun1).
  rewrite (M_bind_ok get_state _ s1 s1 s1 eq_refl). assert (Hent : entries v !! pos = Some e) by (unfold cell in Hcell; destruct (Z.testbit _ _); [exact Hcell|discriminate Hcell]).
  rewrite Hent, (so_fp v Hvok pos e Hcell). cbn zeta. change (indexHeaderForWriteTrx (splitIndex s1)) with (indexHeader (flat s1)). rewrite (mv_header _ _ _ _ _ _ _ _ _ H'). fold h.
  destruct (Z.land (hash (key e)) (higherLevelHashMask h) =? nextSplitSlotId h)%Z eqn:Estay; fold (stays h e) in Estay.
  - exists place', s1, l2'. split; [reflexivity|]. split; [|exact Hhd]. destruct H' as [H1 H2 H3 H4 H5 H6 H7 H8 H9 H10 H11 H12 H13].
    split; rewrite ?(gone_next (stays h) V g _ Hc); cbn [gone_cell]; rewrite ?Estay, ?app_nil_r; try assumption. rewrite (rest_same (stays h) V g _ Hc); [exact H3|]. cbn [keep_cell]. rewrite Estay. reflexivity.
  - rewrite (Hgo e ltac:(apply list_elem_of_lookup; eauto) Estay). unfold ku_assert. rewrite Z.eqb_refl. rewrite (M_bind_ok (mret tt) _ s1 tt s1 eq_refl).
    destruct (move_step s0 s1 l l2' L V (stays h) g place' p k pos e H' Hroom Hp Hk Hpos Hg Hc Estay) as (s2 & Hrun2 & H''). exists (place'.1, S place'.2), s2, l2'. auto.
Qed.

(** ** A whole chain *)

Section Chain.
Variables (s0 : Splitting K) (l L : list SlotInfo) (V : list (option (SlotEntry K))) (newIdx : Z).
Let h := indexHeader (flat s0).
Hypothesis (Hset : settled s0) (HV : length V = length l * CAP).
Hypothesis Hgo : ∀ e, Some e ∈ V → stays h e = false → Z.land (hash (key e)) (higherLevelHashMask h) = newIdx.
Hypothesis Hsize : (Z.of_nat (length (oSlots (flat s0)) + length (omap id V)) < INVALID_OVERFLOW_SLOT_ID)%Z.

Lemma split_entries_run p k : is_old p → ptr_ok (on_disk s0) p → l !! k = Some (place_of (on_disk s0) p) → ∀ n pos place s l2,
  pos + n = CAP → moving s0 s l l2 L V (stays h) (k * CAP + pos) place →
  ∃ place' s' l2', split_disk_entries reallocates p newIdx (seq pos n) place s = (Ok place', s') ∧ moving s0 s' l l2' L V (stays h) (S k * CAP) place' ∧ head l2' = head l2.
Proof.
  intros Hold Hp Hk n. induction n as [|n IH]; intros pos place s l2 Hn H; cbn [seq split_disk_entries].
  - exists place, s, l2. split; [reflexivity|]. split; [|reflexivity]. replace (S k * CAP) with (k * CAP + pos) by (rewrite Nat.mul_succ_l; lia). exact H.
  - destruct (split_step s0 s l l2 L V _ place p k pos newIdx H Hset Hold Hp Hk ltac:(lia) eq_refl HV Hgo Hsize) as (place1 & s1 & l21 & Hrun1 & H1 & Hhd1). rewrite (M_bind_ok _ _ _ _ _ Hrun1).
    rewrite plus_n_Sm in H1. destruct (IH (S pos) place1 s1 l21 ltac:(lia) H1) as (place2 & s2 & l22 & Hrun2 & H2 & Hhd2). exists place2, s2, l22. split; [exact Hrun2|]. split; [exact H2|congruence].
Qed.

Lemma linked_link y l' k i v : linked y l' → l' !! k = Some i → slot_at i y = Some v → nextOvfSlotId (header v) = next_of (drop (S k) l').
Proof.
  revert k. induction l' as [|j l' IH]; intros [|k] Hl Hk Hv; try discriminate Hk; cbn [linked] in Hl; destruct Hl as ((v' & Hv' & Hn) & _ & _ & Hl).
  - injection Hk as ->. rewrite Hv in Hv'. injection Hv' as <-. exact Hn.
  - exact (IH k Hl Hk Hv).
Qed.

(** The slots of the chain are not in the vector. *)
Hypothesis Hold : Forall (λ i, slotType i = PRIMARY ∨ (slotId i < Z.of_nat (on_disk s0))%Z) l.

Lemma split_chain_run : ∀ fuel k p place s l2,
  is_old p → ptr_ok (on_disk s0) p → l !! k = Some (place_of (on_disk s0) p) → length l ≤ k + fuel → moving s0 s l l2 L V (stays h) (k * CAP) place →
  ∃ place' s' l2', split_disk_chain reallocates fuel p newIdx place s = (Ok tt, s') ∧ moving s0 s' l l2' L V (stays h) (length V) place' ∧ head l2' = head l2.
Proof.
  intros fuel. induction fuel as [|fuel IH]; intros k p place s l2 Hop Hp Hk Hf H; pose proof (lookup_lt_Some _ _ _ Hk) as Hkl; [lia|]. cbn [split_disk_chain].
  rewrite <- (Nat.add_0_r (k * CAP)) in H. destruct (split_entries_run p k Hop Hp Hk CAP 0 place s l2 eq_refl H) as (place1 & s1 & l21 & Hrun1 & H1 & Hhd1). rewrite (M_bind_ok _ _ _ _ _ Hrun1).
  pose proof (base_on_disk _ _ (mv_base _ _ _ _ _ _ _ _ _ H1)) as Hod. set (i := place_of (on_disk s0) p) in *. pose proof (mv_linked _ _ _ _ _ _ _ _ _ H1) as Hl.
  destruct (linked_here _ _ i Hl ltac:(apply list_elem_of_lookup; eauto)) as (Hh & v & Hv). rewrite (M_bind_ok _ _ _ _ _ (read_run s1 p v ltac:(rewrite Hod; exact Hp) ltac:(rewrite Hod; exact Hv))).
  rewrite (linked_link _ l k i v Hl Hk Hv). destruct (l !! S k) as [j|] eqn:Hj.
  - rewrite (drop_S _ _ _ Hj). cbn [next_of]. assert (Hjl : j ∈ l) by (apply list_elem_of_lookup; eauto). pose proof (linked_type _ _ _ _ Hl Hj) as Hty.
    assert (Hjr : (0 ≤ slotId j < Z.of_nat (on_disk s0))%Z). { rewrite Forall_forall in Hold. destruct (Hold j Hjl) as [E|E]; [congruence|]. destruct (linked_here _ _ j Hl Hjl) as [Hhj _]. unfold here in Hhj. lia. }
    assert (Hodz : (Z.of_nat (on_disk s0) < INVALID_OVERFLOW_SLOT_ID)%Z) by (rewrite flat_new in Hsize; lia). rewrite (proj2 (Z.eqb_neq _ _)) by lia.
    assert (Hget : getNextOvfSlot (slotId j) s1 = (Ok (InOSlots (slotId j)), s1)).
    { unfold getNextOvfSlot. rewrite (M_bind_ok get_state _ s1 s1 s1 eq_refl). cbn zeta. unfold getNumElements, elements. pose proof (settled_base _ _ (mv_base _ _ _ _ _ _ _ _ _ H1) Hset) as E. unfold settled, on_disk in E, Hod, Hjr.
      rewrite E, Hod, (proj2 (Z.leb_gt _ _)) by lia. unfold ku_assert. rewrite (proj2 (Z.ltb_lt _ _)) by lia. reflexivity. }
    rewrite (M_bind_ok _ _ _ _ _ Hget). destruct (IH (S k) (InOSlots (slotId j)) place1 s1 l21) as (place2 & s2 & l22 & Hrun2 & H2 & Hhd2); [exact I|exact Hjr| |lia|exact H1|].
    + rewrite Hj. destruct j as [a t]. cbn in Hty |- *. rewrite Hty. reflexivity.
    + exists place2, s2, l22. split; [exact Hrun2|]. split; [exact H2|congruence].
  - apply lookup_ge_None_1 in Hj. rewrite drop_ge by lia. cbn [next_of]. rewrite Z.eqb_refl. exists place1, s1, l21. split; [reflexivity|]. split; [|exact Hhd1]. rewrite HV. replace (length l) with (S k) by lia. exact H1.
Qed.
End Chain.
End Split.

(** * Making room on disk

    [splitSlots] and [reserve] keep the entries of the index: slot by slot when there are entries, and by adding empty slots when there are none. *)

Section Grow.
Context {K : Type} `{HK : IndexHashable K} `{Hok : !IndexHashableOk K} `{Hlost : LostSlots}.
Variable reallocates : nat → bool.

Abbreviation CAP := (SLOT_CAPACITY K).
Abbreviation Index := (InMemHashIndex K).
Implicit Types (x : HashIndex K) (y : Index) (s : Splitting K) (l L : list SlotInfo) (es : list (SlotEntry K)) (e : SlotEntry K) (V : list (option (SlotEntry K))) (C : list (list SlotInfo)) (B : list (list (SlotEntry K))).

(** ** Entries of cells *)

Lemma omap_filled es n : omap id (filled es n) = es.
Proof.
  unfold filled. generalize (n - length es). intros m. induction es as [|e es IH]; cbn [map app omap list_omap id]; [|f_equal; exact IH].
  induction m as [|m IH]; [reflexivity|exact IH].
Qed.

Lemma held_row y l es : row y l es → held y l = es.
Proof. intros H. unfold held. rewrite (rw_view _ _ _ H). apply omap_filled. Qed.

Lemma omap_keep stay V : omap id (map (keep_cell stay) V) = filter (λ e, stay e = true) (omap id V).
Proof.
  induction V as [|[e|] V IH]; [reflexivity| |exact IH]. cbn [map keep_cell omap list_omap id]. destruct (stay e) eqn:E.
  - rewrite filter_cons_True by exact E. cbn [id]. f_equal. exact IH.
  - rewrite filter_cons_False by congruence. exact IH.
Qed.

Lemma omap_gone stay V : omap (gone_cell stay) V = filter (λ e, stay e = false) (omap id V).
Proof.
  induction V as [|[e|] V IH]; [reflexivity| |exact IH]. cbn [gone_cell omap list_omap id]. destruct (stay e) eqn:E.
  - rewrite filter_cons_False by congruence. exact IH.
  - rewrite filter_cons_True by exact E. f_equal. exact IH.
Qed.

Lemma new_gap_chain y o : slot_at o y = Some Slot_new → (0 ≤ slotId o < INVALID_OVERFLOW_SLOT_ID)%Z → gap_chain y [o] [].
Proof. intros H1 H2. pose proof (bk_row _ _ _ (new_bucket y o H1 H2)) as H. split; [apply H|apply H|]. rewrite (held_row _ _ _ H). reflexivity. Qed.

(** ** One split *)

(** The slots of a chain that are not new. *)
Definition old_chain (n : nat) l : Prop := Forall (λ i, slotType i = PRIMARY ∨ (slotId i < Z.of_nat n)%Z) l.

(** The new primary slot. *)
Lemma split_begin s C B p l es :
  directory gap_chain (flat s) C B [] → C !! p = Some l → B !! p = Some es → (Z.of_nat (length (pSlots (flat s))) < INVALID_OVERFLOW_SLOT_ID)%Z →
  let o := Z.of_nat (length (pSlots (flat s))) in let x := splitIndex s in let s1 := set_splitIndex (set_diskPSlots (pushBack Slot_new (diskPSlots x)) x) s in
  moving s1 s1 l [primary o] (others C p) (chain_view (flat s1) l) (stays (indexHeader (flat s))) 0 (InPSlots o, 0) ∧ agree (others C p) (flat s) (flat s1) ∧ gap_chain (flat s1) l es ∧ base s1 = base s.
Proof.
  intros H Hl Hes Hsize o x s1. pose proof (dr_store _ _ _ _ _ H) as Hst. destruct (dr_chain _ _ _ _ _ H p l es Hl Hes) as (Hg & _ & _).
  apply (store_perm _ _ _ [] (concat_focus C p l Hl)) in Hst. destruct (growP_ok (flat s) _ [] 1 Hst) as (Hst1 & Ha & Hnew). cbn [primaries seq map replicate app] in Hst1, Ha, Hnew. fold o in Hst1, Hnew.
  change (set_pSlots _ (flat s)) with (flat s1) in *. apply agree_app in Ha as [Hal HaL]. pose proof (gap_chain_agree _ _ _ _ Hal Hg) as Hg1. split; [|auto].
  assert (Ho : slot_at (primary o) (flat s1) = Some Slot_new) by (apply Hnew; left). assert (Hr : row (flat s1) [primary o] []) by (apply bk_row, new_bucket; [exact Ho|unfold o; cbn [primary slotId]; lia]).
  split; try (reflexivity || lia || assumption).
  - apply store_rotate. exact Hst1.
  - apply Hg1.
  - cbn. lia.
  - cbn [length Nat.sub]. lia.
  - intros i _. reflexivity.
Qed.

(** What the loop leaves, as two chains. *)
Lemma split_chains s1 s l l2 L es stay place :
  moving s1 s l l2 L (chain_view (flat s1) l) stay (length (chain_view (flat s1) l)) place → held (flat s1) l ≡ₚ es →
  gap_chain (flat s) l (filter (λ e, stay e = true) es) ∧ gap_chain (flat s) l2 (filter (λ e, stay e = false) es).
Proof.
  intros [H1 H2 H3 H4 _ _ _ _ _ _ _ _ _] Hes. set (V := chain_view (flat s1) l) in *. unfold rest, gone in *. rewrite firstn_all in *. rewrite drop_all, app_nil_r in H3.
  pose proof (st_nodup _ _ _ H1) as Hnd. rewrite app_nil_r in Hnd. apply NoDup_app in Hnd as (Hnd & _ & _). split; split; try assumption; try apply H4.
  - unfold held. rewrite H3, omap_keep. rewrite <- Hes. reflexivity.
  - rewrite (held_row _ _ _ H4), omap_gone. rewrite <- Hes. reflexivity.
Qed.

(** A round of the loop up to the header. *)
Definition pushed s : Splitting K := let x := splitIndex s in set_splitIndex (set_diskPSlots (pushBack Slot_new (diskPSlots x)) x) s.
Definition headed s : Splitting K := let x := splitIndex s in set_splitIndex (set_writeHeader (incrementNextSplitSlotId (indexHeaderForWriteTrx x)) x) s.

Lemma pushed_primary s : length (pSlots (flat (pushed s))) = S (length (pSlots (flat s))).
Proof. unfold pushed, flat. cbn. rewrite length_app. cbn. lia. Qed.

Lemma disk_slot_moves s C B p l es :
  directory gap_chain (flat s) C B [] → settled s → nextSplitSlotId (indexHeader (flat s)) = Z.of_nat p → C !! p = Some l → B !! p = Some es → old_chain (on_disk s) l →
  (Z.of_nat (length (pSlots (flat s))) < INVALID_OVERFLOW_SLOT_ID)%Z → (Z.of_nat (length (oSlots (flat s)) + length es) < INVALID_OVERFLOW_SLOT_ID)%Z →
  ∃ s2 l2 place, split_disk_slot reallocates s = (Ok tt, headed s2) ∧ let V := chain_view (flat (pushed s)) l in
    moving (pushed s) s2 l l2 (others C p) V (stays (indexHeader (flat s))) (length V) place ∧ head l2 = Some (primary (Z.of_nat (length (pSlots (flat s))))).
Proof.
  intros H Hset Hp Hl Hes Hold Hsp Hso. destruct (split_begin s C B p l es H Hl Hes Hsp) as (Hm & Ha & Hg & Hb). set (o := Z.of_nat (length (pSlots (flat s)))) in *.
  set (s1 := set_splitIndex _ s) in *. set (h := indexHeader (flat s)) in *. set (V := chain_view (flat s1) l) in *.
  destruct (dr_chain _ _ _ _ _ H p l es Hl Hes) as (_ & Hhd & Hhome). pose proof (dr_header _ _ _ _ _ H) as Hh. fold h in Hh, Hhome. pose proof (lookup_lt_Some _ _ _ Hl) as Hlt. rewrite (dr_chains _ _ _ _ _ H) in Hlt.
  assert (HV : length V = length l * CAP) by apply chain_view_length. assert (Hv : length (omap id V) = length es) by (rewrite <- (gc_held _ _ _ Hg); reflexivity).
  assert (Hgo : ∀ e, Some e ∈ V → stays h e = false → Z.land (hash (key e)) (higherLevelHashMask h) = o).
  { intros e He Hs. apply (primary_slot_moved h o); [exact Hh| |apply Z.eqb_neq; exact Hs]. rewrite Hp. rewrite Forall_forall in Hhome. apply Hhome. rewrite <- (gc_held _ _ _ Hg). apply list_elem_of_omap. exists (Some e). auto. }
  destruct (split_chain_run reallocates s1 l (others C p) V o (settled_base _ _ Hb Hset) HV Hgo ltac:(rewrite Hv; exact Hso) ltac:(rewrite (base_on_disk _ _ Hb); exact Hold)
    (S (length (current (diskOSlots (splitIndex s1))) + length (newOverflowSlots s1))) 0 (InPSlots (Z.of_nat p)) (InPSlots o, 0) s1 [primary o]) as (place & s2 & l2 & Hrun & H2 & Hhd2).
  { exact I. }
  { cbn. lia. }
  { destruct l as [|j l]; [discriminate Hhd|exact Hhd]. }
  { pose proof (chain_count _ l (gc_linked _ _ _ Hg) (gc_nodup _ _ _ Hg)) as E. unfold chain_fuel in E. rewrite flat_new in E. exact E. }
  { exact Hm. }
  exists s2, l2, place. split; [|split; [exact H2|exact Hhd2]]. unfold split_disk_slot.
  rewrite (M_bind_ok (modify pushed) _ s tt s1 eq_refl), (M_bind_ok get_state _ s1 s1 s1 eq_refl). cbn zeta.
  replace (getNumElements true (diskPSlots (splitIndex s1)) - 1)%Z with o by (change (getNumElements true (diskPSlots (splitIndex s1))) with (Z.of_nat (length (pSlots (flat (pushed s))))); rewrite pushed_primary; unfold o; lia).
  change (indexHeaderForWriteTrx (splitIndex s1)) with h. rewrite Hp. unfold ku_assert. rewrite (proj2 (Z.leb_le _ _)) by lia. rewrite (M_bind_ok (mret tt) _ s1 tt s1 eq_refl), (M_bind_ok _ _ _ _ _ Hrun). reflexivity.
Qed.

Lemma next_split_firstFree h : firstFreeOverflowSlotId (incrementNextSplitSlotId h) = firstFreeOverflowSlotId h.
Proof. unfold incrementNextSplitSlotId, incrementLevel. destruct (_ <? _)%Z; reflexivity. Qed.

Lemma disk_slot_run s C B p l es :
  directory gap_chain (flat s) C B [] → settled s → nextSplitSlotId (indexHeader (flat s)) = Z.of_nat p → C !! p = Some l → B !! p = Some es → old_chain (on_disk s) l →
  (Z.of_nat (length (pSlots (flat s))) < INVALID_OVERFLOW_SLOT_ID)%Z → (Z.of_nat (length (oSlots (flat s)) + length es) < INVALID_OVERFLOW_SLOT_ID)%Z →
  ∃ s' l2 B', split_disk_slot reallocates s = (Ok tt, s') ∧ base s' = base s ∧ directory gap_chain (flat s') (C ++ [l2]) B' [] ∧ concat B' ≡ₚ concat B ∧
    indexHeader (flat s') = incrementNextSplitSlotId (indexHeader (flat s)) ∧ length (pSlots (flat s')) = S (length (pSlots (flat s))) ∧
    length (oSlots (flat s')) ≤ length (oSlots (flat s)) + length es.
Proof.
  intros H Hset Hp Hl Hes Hold Hsp Hso. destruct (split_begin s C B p l es H Hl Hes Hsp) as (_ & Ha & Hg & Hb). fold (pushed s) in Ha, Hg, Hb.
  destruct (disk_slot_moves s C B p l es H Hset Hp Hl Hes Hold Hsp Hso) as (s2 & l2 & place & Hrun & H2 & Hhd2). cbn zeta in H2. set (h := indexHeader (flat s)) in *.
  destruct (split_chains _ s2 l l2 (others C p) es (stays h) place H2 (gc_held _ _ _ Hg)) as [Hk Hgone]. pose proof (gone_length (stays h) (chain_view (flat (pushed s)) l) (length (chain_view (flat (pushed s)) l))) as Hgl.
  assert (Hv : length (omap id (chain_view (flat (pushed s)) l)) = length es) by (rewrite <- (gc_held _ _ _ Hg); reflexivity). pose proof (capacity_range (K := K)) as Hcap.
  pose proof H2 as [G1 G2 G3 G4 G5 G6 G7 G8 G9 G10 G11 G12 G13].
  assert (Hh' : indexHeader (flat (headed s2)) = incrementNextSplitSlotId h) by (change (indexHeader (flat (headed s2))) with (incrementNextSplitSlotId (indexHeader (flat s2))); rewrite G10; reflexivity).
  destruct (directory_split gap_chain gap_chain_agree (flat s) (flat (headed s2)) C B [] [] p l l l2 es (firstFreeOverflowSlotId h) H Hp Hl Hes) as [H' HB']; fold h.
  { exact (store_header (flat s2) _ _ _ (next_split_firstFree _) G1). }
  { exact (gap_chain_agree (flat s2) (flat (headed s2)) _ _ ltac:(intros i _; reflexivity) Hk). }
  { exact (gap_chain_agree (flat s2) (flat (headed s2)) _ _ ltac:(intros i _; reflexivity) Hgone). }
  { reflexivity. }
  { exact Hhd2. }
  { intros i Hi. change (slot_at i (flat (headed s2))) with (slot_at i (flat s2)). rewrite (G13 i Hi). exact (Ha i Hi). }
  { unfold h. rewrite set_firstFree_same. exact Hh'. }
  { change (length (pSlots (flat s2)) = S (length (pSlots (flat s)))). rewrite G11. apply pushed_primary. }
  rewrite (list_insert_id C p l Hl) in H'. exists (headed s2), l2. eexists. split; [exact Hrun|]. split; [rewrite <- Hb, <- G9; reflexivity|]. split; [exact H'|]. split; [exact HB'|]. split; [exact Hh'|].
  split; [change (length (pSlots (flat s2)) = S (length (pSlots (flat s)))); rewrite G11; apply pushed_primary|]. change (length (oSlots (flat s2)) ≤ length (oSlots (flat s)) + length es). rewrite G12.
  change (length (oSlots (flat (pushed s)))) with (length (oSlots (flat s))). nia.
Qed.

(** ** All splits *)

(** The next slot to split was there at the start, until there are twice as many. *)
Lemma next_split_old h P P0 : header_ok h P → (P < 2 * P0)%Z → (nextSplitSlotId h < P0)%Z.
Proof. intros [_ _ _ H1 H2] H. lia. Qed.

Lemma bag_length B p es : B !! p = Some es → length es ≤ length (concat B).
Proof. intros H. rewrite (concat_focus B p es H), length_app. lia. Qed.

Lemma split_loop_run P0 : ∀ n s C B,
  directory gap_chain (flat s) C B [] → settled s → (∀ p l, p < P0 → C !! p = Some l → old_chain (on_disk s) l) → P0 ≤ length (pSlots (flat s)) → length (pSlots (flat s)) + n ≤ 2 * P0 →
  (Z.of_nat (length (pSlots (flat s)) + n) < INVALID_OVERFLOW_SLOT_ID)%Z → (Z.of_nat (length (oSlots (flat s)) + n * length (concat B)) < INVALID_OVERFLOW_SLOT_ID)%Z →
  ∃ s' C' B', split_disk_loop reallocates n s = (Ok tt, s') ∧ base s' = base s ∧ directory gap_chain (flat s') C' B' [] ∧ concat B' ≡ₚ concat B ∧
    headerNumEntries (indexHeader (flat s')) = headerNumEntries (indexHeader (flat s)) ∧ length (pSlots (flat s')) = length (pSlots (flat s)) + n ∧
    length (oSlots (flat s')) ≤ length (oSlots (flat s)) + n * length (concat B).
Proof.
  intros n. induction n as [|n IH]; intros s C B H Hset Hold HP0 HP Hsp Hso; cbn [split_disk_loop].
  { exists s, C, B. split; [reflexivity|]. split; [reflexivity|]. split; [exact H|]. split; [reflexivity|]. lia. }
  pose proof (dr_header _ _ _ _ _ H) as Hh. pose proof (next_split_old _ _ (Z.of_nat P0) Hh ltac:(lia)) as Hns. pose proof (ho_split _ _ Hh) as Hns0. pose proof (ho_slots _ _ Hh) as Hns1.
  set (p := Z.to_nat (nextSplitSlotId (indexHeader (flat s)))). assert (Hp : nextSplitSlotId (indexHeader (flat s)) = Z.of_nat p) by lia.
  destruct (directory_focus gap_chain _ C B [] p H ltac:(lia)) as (l & es & Hl & Hes & _). pose proof (bag_length B p es Hes) as Hle.
  destruct (disk_slot_run s C B p l es H Hset Hp Hl Hes (Hold p l ltac:(lia) Hl) ltac:(lia) ltac:(lia)) as (s1 & l2 & B1 & Hrun & Hb & H1 & HB & Hh1 & Hp1 & Ho1). rewrite (M_bind_ok _ _ _ _ _ Hrun).
  pose proof (Permutation_length HB) as HBl.
  destruct (IH s1 (C ++ [l2]) B1 H1 (settled_base _ _ Hb Hset)) as (s2 & C2 & B2 & Hrun2 & Hb2 & H2 & HB2 & Hc2 & Hp2 & Ho2); [|lia|lia|lia|rewrite HBl; lia|].
  - intros q l' Hq Hl'. rewrite (base_on_disk _ _ Hb). apply (Hold q l' Hq). rewrite lookup_app_l in Hl'; [exact Hl'|]. rewrite (dr_chains _ _ _ _ _ H). lia.
  - exists s2, C2, B2. split; [exact Hrun2|]. split; [congruence|]. split; [exact H2|]. split; [rewrite HB2; exact HB|]. split; [rewrite Hc2, Hh1; apply next_split_count|]. rewrite HBl in Ho2. lia.
Qed.

(** What changes only at the end of a checkpoint. *)
Definition fixed (x : HashIndex K) : list (Slot K) * list (Slot K) * HashIndexLocalStorage K * HashIndexHeader :=
  (committed (diskPSlots x), committed (diskOSlots x), localStorage x, indexHeaderForReadTrx x).

Lemma flat_start x : flat (MkSplitting x []) = version true x.
Proof. unfold flat, version. cbn. rewrite app_nil_r. reflexivity. Qed.

Lemma push_all (l : list (Slot K)) a : fold_left (λ a v, pushBack v a) l a = MkArray (committed a) (current a ++ l).
Proof. revert a. induction l as [|v l IH]; intros [c u]; cbn [fold_left]; [rewrite app_nil_r; reflexivity|]. rewrite IH. cbn. rewrite <- app_assoc. reflexivity. Qed.

Lemma splitSlots_run x C B n :
  directory gap_chain (version true x) C B [] → length (committed (diskOSlots x)) = length (current (diskOSlots x)) → n ≤ length (current (diskPSlots x)) →
  (Z.of_nat (length (current (diskPSlots x)) + n) < INVALID_OVERFLOW_SLOT_ID)%Z → (Z.of_nat (length (current (diskOSlots x)) + n * length (concat B)) < INVALID_OVERFLOW_SLOT_ID)%Z →
  ∃ x' C' B', splitSlots reallocates (Z.of_nat n) x = (Ok tt, x') ∧ fixed x' = fixed x ∧ directory gap_chain (version true x') C' B' [] ∧ concat B' ≡ₚ concat B ∧
    headerNumEntries (indexHeaderForWriteTrx x') = headerNumEntries (indexHeaderForWriteTrx x) ∧ length (current (diskPSlots x')) = length (current (diskPSlots x)) + n ∧
    length (current (diskOSlots x')) ≤ length (current (diskOSlots x)) + n * length (concat B).
Proof.
  intros H Hc Hn Hsp Hso. set (s := MkSplitting x []). rewrite <- flat_start in H. fold s in H. assert (Hos : length (oSlots (flat s)) = length (current (diskOSlots x))) by (rewrite flat_new; unfold on_disk, s; cbn; lia).
  destruct (split_loop_run (length (current (diskPSlots x))) n s C B H Hc) as (s' & C' & B' & Hrun & Hb & H' & HB & Hce & Hp & Ho); [|cbn; lia|cbn; lia|exact Hsp|rewrite Hos; exact Hso|].
  - intros p l _ Hl. apply Forall_forall. intros i Hi. assert (Hic : i ∈ concat C) by (apply list_elem_of_In, in_concat; exists l; split; [apply list_elem_of_In, list_elem_of_lookup; eauto|apply list_elem_of_In; exact Hi]).
    destruct (slotType i) eqn:Ht; [left; reflexivity|right]. pose proof (owned_in_range _ _ _ i (dr_store _ _ _ _ _ H) (or_introl Hic) Ht) as E. rewrite Hos in E. exact E.
  - eexists. exists C', B'. unfold splitSlots. rewrite Nat2Z.id. fold s. rewrite Hrun. split; [reflexivity|]. rewrite push_all. injection Hb as Hb1 Hb2 Hb3 Hb4 Hb5.
    split; [unfold fixed; cbn; congruence|]. split; [exact H'|]. split; [exact HB|]. split; [exact Hce|]. split; [exact Hp|]. rewrite Hos in Ho. exact Ho.
Qed.

(** ** Reserving *)

Lemma raise_header_run n : ∀ fuel h,
  level_ok h → (2 ^ currentLevel h ≤ n ≤ 2 ^ 30)%Z → (30 < currentLevel h + Z.of_nat fuel)%Z →
  ∃ h', raise_header fuel n (2 ^ currentLevel h) h = Some (2 ^ currentLevel h', h')%Z ∧ level_ok h' ∧ (2 ^ currentLevel h' ≤ n < 2 ^ (currentLevel h' + 1))%Z ∧
    headerNumEntries h' = headerNumEntries h ∧ firstFreeOverflowSlotId h' = firstFreeOverflowSlotId h.
Proof.
  assert (Hsh : ∀ z, (0 ≤ z < 2 ^ 31)%Z → uwrap 32 (Z.shiftl z 1) = (2 * z)%Z) by (intros z Hz; rewrite Z.shiftl_mul_pow2, uwrap_small by lia; lia).
  intros fuel. induction fuel as [|fuel IH]; intros h Hl Hn Hf; pose proof Hl as (Hl0 & Hl1 & Hl2); cbn [raise_header]; rewrite Hsh by lia;
    pose proof (pow2_le_mono_inv (currentLevel h) 30 ltac:(lia) ltac:(lia)) as Hle; [lia|].
  rewrite <- Z.pow_succ_r, <- Z.add_1_r by lia. destruct (Z.leb_spec (2 ^ (currentLevel h + 1)) n) as [Hle2|Hgt].
  - assert (Hl' : level_ok (incrementLevel h)) by (unfold level_ok, incrementLevel; cbn [currentLevel levelHashMask higherLevelHashMask]; rewrite !Z.shiftl_1_l, !Z.ones_equiv; lia).
    destruct (IH (incrementLevel h) Hl') as (h' & Hrun & Hh & Hr & Hc & Hff); cbn [incrementLevel currentLevel] in *; try lia. exists h'. auto.
  - exists h. split; [reflexivity|]. split; [exact Hl|]. split; [lia|]. auto.
Qed.

(** Empty chains, before and after there are more of them. *)
Definition empty_chains y C : Prop := store y (concat C) [] ∧ length C = length (pSlots y) ∧ ∀ p l, C !! p = Some l → gap_chain y l [] ∧ head l = Some (primary (Z.of_nat p)).

Lemma persists_empty y es : persists y es → headerNumEntries (indexHeader y) = 0%Z → numFreeSlots y = 0%Z → es = [] ∧ level_ok (indexHeader y) ∧ ∃ C, empty_chains y C.
Proof.
  intros [(C & B & [H Hc] & HB)|(-> & Hp & Ho & Hh)] E Hf.
  - rewrite E in Hc. assert (HB0 : concat B = []) by (destruct (concat B); [reflexivity|cbn in Hc; lia]). split; [rewrite HB0 in HB; apply Permutation_nil_r; exact HB|]. pose proof H as [[H1 H2 H3 _ _] H4 H5 H6 H7].
    split; [split_and!; assumption|]. exists C. split; [exact H4|]. split; [exact H5|]. intros p l Hl. pose proof (lookup_lt_Some _ _ _ Hl) as Hlt. rewrite H5, <- H6 in Hlt.
    destruct (lookup_lt_is_Some_2 B p Hlt) as [es' Hes]. destruct (H7 p l es' Hl Hes) as (Hg & Hhd & _). pose proof (concat_focus B p es' Hes) as Hf'. rewrite HB0 in Hf'. apply Permutation_nil_l, eq_sym, app_eq_nil in Hf' as [-> _]. auto.
  - split; [reflexivity|]. rewrite Hh. split; [split_and!; reflexivity || (cbn; lia)|]. exists []. destruct y as [py oy hy fy]. cbn in Hp, Ho, Hh, Hf. subst. split; [apply empty_store; pose proof lost_range; lia|]. split; [reflexivity|]. intros p l Hl. discriminate Hl.
Qed.

Lemma reserve_empty_run x es n :
  persists (version true x) es → headerNumEntries (indexHeaderForWriteTrx x) = 0%Z → (Z.of_nat (length (current (diskPSlots x))) ≤ numRequiredSlots x n ≤ 2 ^ 30)%Z →
  ∃ x', reserve reallocates n x = (Ok tt, x') ∧ fixed x' = fixed x ∧ holds (version true x') es ∧ headerNumEntries (indexHeaderForWriteTrx x') = headerNumEntries (indexHeaderForWriteTrx x) ∧
    Z.of_nat (length (current (diskPSlots x'))) = numRequiredSlots x n ∧ length (current (diskOSlots x')) = length (current (diskOSlots x)).
Proof.
  intros H E Hr. destruct (persists_empty _ _ H E eq_refl) as (-> & Hl & C & Hst & HC & Hch). set (r := numRequiredSlots x n) in *. set (h0 := indexHeaderForWriteTrx x) in *.
  assert (Hlev : (2 ^ currentLevel h0 ≤ r)%Z) by (unfold r, numRequiredSlots; fold h0; rewrite Z.shiftl_1_l; lia). pose proof Hl as (Hl0 & _). cbn [version indexHeader] in Hl0. fold h0 in Hl0.
  pose proof (pow2_le_mono_inv (currentLevel h0) 30 ltac:(lia) ltac:(lia)) as Hle. destruct (raise_header_run r 32 h0 Hl ltac:(lia) ltac:(lia)) as (h & Hrun & (Hh0 & Hh1 & Hh2) & Hrange & Hc & Hff).
  set (k := Z.to_nat r - length (current (diskPSlots x))). rewrite Z.pow_add_r, Z.pow_1_r in Hrange by lia.
  destruct (directory_widen gap_chain gap_chain_agree new_gap_chain (version true x) C [] (set_nextSplit (r - 2 ^ currentLevel h) h) k Hst HC Hch) as [C' Hd].
  { replace (Z.of_nat (length (pSlots (version true x)) + k)) with r by (unfold k; cbn [version pSlots elements]; lia). split; cbn [set_nextSplit currentLevel levelHashMask higherLevelHashMask nextSplitSlotId]; try assumption; lia. }
  { exact Hff. }
  { unfold k. cbn [version pSlots elements]. lia. }
  set (x1 := set_diskPSlots (resize r Slot_new (diskPSlots x)) x). eexists. unfold reserve. rewrite (M_bind_ok get_state _ x x x eq_refl). cbn zeta. fold r h0. rewrite E, Z.eqb_refl.
  rewrite (M_bind_ok (modify (λ x, set_diskPSlots (resize r Slot_new (diskPSlots x)) x)) _ x tt x1 eq_refl). rewrite Z.shiftl_1_l, uwrap_small by (pose proof (Z.pow_le_mono_r 2 (currentLevel h0) 30); lia).
  rewrite Hrun, (proj2 (Z.leb_le _ _)) by lia. split; [reflexivity|]. split; [reflexivity|]. split; [|split; [rewrite E in Hc; exact Hc|split; [cbn; rewrite length_app, length_replicate; lia|reflexivity]]].
  eexists C', _. split; [split; [exact Hd|]|]; rewrite concat_nils; [|reflexivity]. cbn. rewrite Hc. exact E.
Qed.

(** When a checkpoint can make room: no slot too many is there, and with entries at most as many are split as there are. *)
Record can_reserve x es (n : Z) : Prop := {
  cr_slots : (Z.of_nat (length (current (diskPSlots x))) ≤ numRequiredSlots x n ≤ 2 ^ 30)%Z;
  cr_double : es = [] ∨ (numRequiredSlots x n ≤ 2 * Z.of_nat (length (current (diskPSlots x))))%Z;
  cr_settled : length (committed (diskOSlots x)) = length (current (diskOSlots x));
  cr_overflow : (Z.of_nat (length (current (diskOSlots x))) + numRequiredSlots x n * Z.of_nat (length es) < INVALID_OVERFLOW_SLOT_ID)%Z;
}.

Lemma reserve_disk_run x es n :
  persists (version true x) es → can_reserve x es n →
  ∃ x', reserve reallocates n x = (Ok tt, x') ∧ fixed x' = fixed x ∧ holds (version true x') es ∧ headerNumEntries (indexHeaderForWriteTrx x') = headerNumEntries (indexHeaderForWriteTrx x) ∧
    Z.of_nat (length (current (diskPSlots x'))) = numRequiredSlots x n ∧ (Z.of_nat (length (current (diskOSlots x'))) ≤ Z.of_nat (length (current (diskOSlots x))) + numRequiredSlots x n * Z.of_nat (length es))%Z.
Proof.
  intros H [Hr Hd Hset Hso]. destruct (Z.eqb_spec (headerNumEntries (indexHeaderForWriteTrx x)) 0) as [E|E].
  - destruct (reserve_empty_run x es n H E Hr) as (x' & Hrun & Hf & H' & Hc & Hp & Ho). exists x'. split_and!; try assumption. lia.
  - destruct H as [(C & B & [H Hcount] & HB)|(_ & _ & _ & Hh)]; [|cbn in Hh; rewrite Hh in E; contradiction]. pose proof (Permutation_length HB) as Hl.
    assert (Hne : es ≠ []) by (intros ->; cbn [version indexHeader] in Hcount; cbn [length] in Hl; lia). destruct Hd as [Hd|Hd]; [contradiction|]. set (r := numRequiredSlots x n) in *.
    set (k := Z.to_nat (r - Z.of_nat (length (current (diskPSlots x))))). assert (Hk : (Z.of_nat k ≤ r)%Z) by lia.
    assert (HkE : (Z.of_nat (k * length (concat B)) ≤ r * Z.of_nat (length es))%Z) by (rewrite <- Hl, Nat2Z.inj_mul; apply Z.mul_le_mono_nonneg_r; lia).
    destruct (splitSlots_run x C B k H Hset ltac:(lia) ltac:(unfold INVALID_OVERFLOW_SLOT_ID; lia) ltac:(lia)) as (x' & C' & B' & Hrun & Hf & H' & HB' & Hc & Hp & Ho).
    exists x'. split; [|split; [exact Hf|split; [|split; [exact Hc|split; [lia|lia]]]]].
    + unfold reserve. rewrite (M_bind_ok get_state _ x x x eq_refl). cbn zeta. rewrite (proj2 (Z.eqb_neq _ _) E). unfold numSlotsToSplit. fold r. change (getNumElements true (diskPSlots x)) with (Z.of_nat (length (current (diskPSlots x)))).
      rewrite uwrap_small by lia. rewrite <- (Z2Nat.id (r - _)) by lia. exact Hrun.
    + exists C', B'. split; [|rewrite HB'; exact HB]. split; [exact H'|]. rewrite HB'. cbn [version indexHeader] in *. rewrite Hc. exact Hcount.
Qed.

(** A second [reserve] finds the slots it asks for. *)
Lemma required_stable x x' n :
  header_ok (indexHeaderForWriteTrx x') (numRequiredSlots x n) → (0 ≤ currentLevel (indexHeaderForWriteTrx x))%Z → headerNumEntries (indexHeaderForWriteTrx x') = headerNumEntries (indexHeaderForWriteTrx x) → numRequiredSlots x' n = numRequiredSlots x n.
Proof.
  intros [H1 _ _ H4 H5] Hl Hc. remember (numRequiredSlots x n) as r eqn:Hr. unfold numRequiredSlots in Hr |- *. rewrite Hc. set (q := (_ / _)%Z) in *. set (a := currentLevel (indexHeaderForWriteTrx x)) in *.
  set (b := currentLevel (indexHeaderForWriteTrx x')) in *. rewrite !Z.shiftl_1_l in *. assert (Hab : (2 ^ a ≤ 2 ^ b)%Z); [|lia].
  apply Z.pow_le_mono_r; [lia|]. assert (2 ^ a < 2 ^ (b + 1))%Z by (rewrite Z.pow_add_r, Z.pow_1_r by lia; lia). destruct (Z.le_gt_cases a b) as [|Hgt]; [assumption|].
  pose proof (Z.pow_le_mono_r 2 (b + 1) a ltac:(lia) ltac:(lia)). lia.
Qed.
End Grow.
