(* ===== verification/HashDiskMerge.v ===== *)
(** * Merging entries into the slots on disk

    [mergeSlot] puts entries into the empty cells of a chain, in order, and adds a slot when there are none; what the chain held stays. *)

From stdpp Require Import base numbers list strings.
From Stdlib Require Import ZArith Lia.
From S2P Require Import Prelude TransactionManager HashSlot HashSlotSpec InMemHashIndex HashChain HashGrow HashSplit HashDirectory HashIndexSpec LocalHashIndex DiskArray HashIndex HashIndexCheckpoint HashIndexDisk HashDiskSplit.
Import HashSlot InMemHashIndex LocalHashIndex VersionedArray HashIndex HashIndexCheckpoint.

#[local] Open Scope nat_scope.

Section Merge.
Context {K : Type} `{HK : IndexHashable K} `{Hok : !IndexHashableOk K} `{Hlost : LostSlots}.

Abbreviation CAP := (SLOT_CAPACITY K).
Abbreviation Index := (InMemHashIndex K).
Abbreviation now := (version true).
Implicit Types (x : HashIndex K) (y : Index) (i o : SlotInfo) (l L : list SlotInfo) (es : list (SlotEntry K)) (e : SlotEntry K).

(** ** Steps *)

(** A step on one chain: at most [k] new overflow slots, and [L] is left alone. *)
Record step x x' L (k : nat) : Prop := {
  stp_fixed : fixed x' = fixed x;
  stp_header : indexHeaderForWriteTrx x' = indexHeaderForWriteTrx x;
  stp_primary : length (pSlots (now x')) = length (pSlots (now x));
  stp_overflow : length (oSlots (now x')) ≤ length (oSlots (now x)) + k;
  stp_agree : agree L (now x) (now x');
}.

Lemma step_refl x L : step x x L 0.
Proof. split; try reflexivity; [lia|intros i _; reflexivity]. Qed.

Lemma step_trans x x1 x2 L k k' : step x x1 L k → step x1 x2 L k' → step x x2 L (k + k').
Proof. intros [] []. split; [congruence|congruence|congruence|lia|eapply agree_trans; eassumption]. Qed.

Lemma disk_slot_get i v x : slot_at i (now x) = Some v → disk_slot i x = (Ok v, x).
Proof. intros H. apply (disk_getSlot_run Transaction.CHECKPOINT). exact H. Qed.

Lemma updateSlot_run i v x : ∃ x', updateSlot i v x = (Ok tt, x') ∧ now x' = put_slot i v (now x) ∧ fixed x' = fixed x ∧ indexHeaderForWriteTrx x' = indexHeaderForWriteTrx x.
Proof. eexists. split; [reflexivity|]. unfold put_slot, now. destruct (slotType i); auto. Qed.

(** Writing a cell of a chain. *)
Lemma write_step x l L k i v v' p c :
  store (now x) (l ++ L) [] → linked (now x) l → l !! k = Some i → slot_at i (now x) = Some v → p < CAP → slot_ok v' → view v' = <[p := c]> (view v) → nextOvfSlotId (header v') = nextOvfSlotId (header v) →
  ∃ x', updateSlot i v' x = (Ok tt, x') ∧ store (now x') (l ++ L) [] ∧ linked (now x') l ∧ chain_view (now x') l = <[k * CAP + p := c]> (chain_view (now x) l) ∧ step x x' L 0.
Proof.
  intros Hst Hl Hk Hv Hp Hok' Hview Hn. destruct (updateSlot_run i v' x) as (x' & Hrun & Hf & Hfix & Hh). exists x'. split; [exact Hrun|].
  destruct (cell_write _ l L [] k i v v' p c Hst Hl Hk Hv Hp Hok' Hview Hn) as (H1 & H2 & H3 & H4 & H5). destruct (put_shape (now x) i v') as (_ & Hs1 & Hs2). rewrite <- Hf in *.
  split; [exact H3|]. split; [exact H1|]. split; [exact H2|]. split; try assumption; lia.
Qed.

(** A new slot at the end of a chain. *)
Lemma add_slot_run x l L i v :
  store (now x) (l ++ L) [] → linked (now x) l → last l = Some i → slot_at i (now x) = Some v → (Z.of_nat (length (oSlots (now x))) < INVALID_OVERFLOW_SLOT_ID)%Z →
  let o := MkSlotInfo (Z.of_nat (length (oSlots (now x)))) OVF in
  ∃ x', (updateSlot i (set_next (slotId o) v) ;; modify (λ x, set_diskOSlots (pushBack Slot_new (diskOSlots x)) x) ;; check_link i ;; mret (slotId o)) x = (Ok (slotId o), x') ∧ store (now x') ((l ++ [o]) ++ L) [] ∧ linked (now x') (l ++ [o]) ∧ chain_view (now x') (l ++ [o]) = chain_view (now x) l ++ replicate CAP None ∧
    slot_at o (now x') = Some Slot_new ∧ step x x' L 1.
Proof.
  intros Hst Hl Hlast Hv Hsize o. set (y1 := set_oSlots (oSlots (now x) ++ [Slot_new]) (now x)). destruct (grow_ok (now x) (l ++ L) [] 1 Hst) as (Hst1 & Ha1 & Hnew & _).
  cbn [ovf_from replicate app] in Hst1, Ha1, Hnew. fold y1 in Hst1, Ha1, Hnew. fold o in Hst1, Hnew. apply agree_app in Ha1 as [Ha1 HaL]. assert (Hi : i ∈ l) by (apply last_Some_elem_of; exact Hlast).
  destruct (extend_chain y1 l L [] i o v Slot_new Hst1 (linked_agree _ _ _ Ha1 Hl) Hlast) as (H1 & H2 & H3 & H4 & H5 & H6); try reflexivity; [rewrite (Ha1 i Hi); exact Hv|apply Hnew; left|cbn [o slotId]; lia|exact view_new|].
  destruct (updateSlot_run i (set_next (slotId o) v) x) as (x1 & Hrun & Hf & Hfix & Hh). set (x2 := set_diskOSlots (pushBack Slot_new (diskOSlots x1)) x1).
  assert (Hf2 : now x2 = put_slot i (set_next (slotId o) v) y1) by (unfold y1; rewrite <- (put_grow _ _ v _ Hv), <- Hf; reflexivity). rewrite <- Hf2 in *.
  exists x2. split; [|split; [exact H4|split; [exact H1|split; [rewrite H3, (chain_view_agree _ _ _ Ha1); reflexivity|split; [exact H6|]]]]].
  - assert (Hlen : length (oSlots (now x2)) = S (length (oSlots (now x)))) by (rewrite Hf2, (proj2 (proj2 (put_shape y1 i _))); unfold y1; cbn [set_oSlots oSlots]; rewrite length_app; cbn [length]; lia).
    assert (Hhi : here i) by apply (linked_here _ _ i Hl Hi). assert (Hv1 : slot_at i y1 = Some v) by (rewrite (Ha1 i Hi); exact Hv).
    assert (Hi2 : slot_at i (now x2) = Some (set_next (slotId o) v)) by (rewrite Hf2, (slot_at_put i _ v y1 i Hv1 Hhi Hhi), decide_True by reflexivity; reflexivity).
    assert (Hc : check_link i x2 = (Ok tt, x2)).
    { unfold check_link. rewrite (M_bind_ok _ _ _ _ _ (disk_slot_get i _ x2 Hi2)), (M_bind_ok get_state _ x2 x2 x2 eq_refl). change (getNumElements true (diskOSlots x2)) with (Z.of_nat (length (oSlots (now x2)))).
      change (nextOvfSlotId (header (set_next (slotId o) v))) with (slotId o). unfold ku_assert. rewrite (proj2 (Z.ltb_lt (slotId o) _)), orb_true_r by (cbn [o slotId]; lia). reflexivity. }
    rewrite (M_bind_ok _ _ _ _ _ Hrun), (M_bind_ok (modify (λ x, set_diskOSlots (pushBack Slot_new (diskOSlots x)) x)) _ x1 tt x2 eq_refl), (M_bind_ok _ _ _ _ _ Hc). reflexivity.
  - destruct (put_shape y1 i (set_next (slotId o) v)) as (_ & Hs1 & Hs2). rewrite <- Hf2 in *. split; [exact Hfix|exact Hh|exact Hs1| |exact (agree_trans L _ _ _ HaL H5)].
    rewrite Hs2. unfold y1. cbn [set_oSlots oSlots]. rewrite length_app. cbn [length]. lia.
Qed.

(** ** The next empty cell *)

(** From the cell at [pos] of a slot, or its end, to the next one, which may be in a new slot. *)
Lemma advance_run x l L k i pos :
  store (now x) (l ++ L) [] → linked (now x) l → NoDup l → l !! k = Some i → pos ≤ CAP → (Z.of_nat (length (oSlots (now x))) < INVALID_OVERFLOW_SLOT_ID)%Z →
  ∃ i' pos' x', advance i pos x = (Ok (i', pos'), x') ∧
    ((∃ k', x' = x ∧ l !! k' = Some i' ∧ pos' < CAP ∧ k' * CAP + pos' = k * CAP + pos + if decide (pos = CAP) then 0 else 1) ∨
     pos' = 0 ∧ store (now x') ((l ++ [i']) ++ L) [] ∧ linked (now x') (l ++ [i']) ∧ chain_view (now x') (l ++ [i']) = chain_view (now x) l ++ replicate CAP None ∧
       slot_at i' (now x') = Some Slot_new ∧ step x x' L 1).
Proof.
  pose proof (capacity_range (K := K)) as Hcap. intros Hst Hl Hnd Hk Hpos Hsize. unfold advance. destruct (Nat.leb_spec CAP (S pos)) as [Hend|Hin].
  2: { exists i, (S pos), x. split; [reflexivity|]. left. exists k. split; [reflexivity|]. split; [exact Hk|]. split; [lia|]. rewrite decide_False by lia. lia. }
  destruct (linked_here _ _ i Hl ltac:(apply list_elem_of_lookup; eauto)) as (Hh & v & Hv). rewrite (M_bind_ok _ _ _ _ _ (disk_slot_get i v x Hv)), (M_bind_ok get_state _ x x x eq_refl). cbn zeta.
  change (getNumElements true (diskOSlots x)) with (Z.of_nat (length (oSlots (now x)))). rewrite (linked_link _ l k i v Hl Hk Hv). destruct (l !! S k) as [j|] eqn:Hj.
  - rewrite (drop_S _ _ _ Hj). cbn [next_of]. assert (Hjl : j ∈ l) by (apply list_elem_of_lookup; eauto). pose proof (linked_type _ _ _ _ Hl Hj) as Hty. destruct (linked_here _ _ j Hl Hjl) as (Hhj & w & Hw). unfold here in Hhj.
    pose proof (owned_in_range _ _ _ j Hst ltac:(left; apply elem_of_app; auto) Hty) as Hjr. rewrite (proj2 (Z.eqb_neq _ _)) by lia. unfold ku_assert. rewrite (proj2 (Z.ltb_lt _ _)) by lia.
    rewrite (M_bind_ok _ _ x (slotId j) x eq_refl). assert (Ej : MkSlotInfo (slotId j) OVF = j) by (destruct j; cbn in Hty |- *; congruence). rewrite Ej, (M_bind_ok _ _ _ _ _ (disk_slot_get j w x Hw)).
    assert (Hne : (slotId j =? nextOvfSlotId (header w))%Z = false).
    { rewrite (linked_link _ l (S k) j w Hl Hj Hw). apply Z.eqb_neq. destruct (l !! S (S k)) as [j'|] eqn:Hj'; [|apply lookup_ge_None_1 in Hj'; rewrite drop_ge by lia; cbn [next_of]; lia].
      rewrite (drop_S _ _ _ Hj'). cbn [next_of]. intros E. pose proof (linked_type _ _ _ _ Hl Hj') as Hty'. assert (j = j') as <- by (destruct j, j'; cbn in *; congruence). pose proof (NoDup_lookup _ _ _ _ Hnd Hj Hj'). lia. }
    rewrite Hne. exists j, 0, x. split; [reflexivity|]. left. exists (S k). split; [reflexivity|]. split; [exact Hj|]. split; [lia|]. rewrite Nat.mul_succ_l. destruct (decide (pos = CAP)); lia.
  - apply lookup_ge_None_1 in Hj. rewrite drop_ge by lia. cbn [next_of]. rewrite Z.eqb_refl. pose proof (last_lookup_pred l k i Hk Hj) as Hlast.
    destruct (add_slot_run x l L i v Hst Hl Hlast Hv Hsize) as (x' & Hrun & H1 & H2 & H3 & H4 & H5). set (o := MkSlotInfo _ OVF) in *. change (Z.of_nat (length (oSlots (now x)))) with (slotId o).
    rewrite (M_bind_ok _ _ _ _ _ Hrun). change (MkSlotInfo (slotId o) OVF) with o. rewrite (M_bind_ok _ _ _ _ _ (disk_slot_get o _ x' H4)). unfold ku_assert.
    change (nextOvfSlotId (header Slot_new)) with INVALID_OVERFLOW_SLOT_ID. rewrite (proj2 (Z.eqb_neq _ _)) by (cbn [o slotId]; lia). exists o, 0, x'. split; [reflexivity|]. right. split_and!; assumption || reflexivity.
Qed.

Lemma next_empty_here x fuel i v pos : slot_at i (now x) = Some v → slot_ok v → pos < CAP → cell v pos = None → next_empty fuel i pos x = (Ok (i, pos), x).
Proof.
  intros Hv Hvok Hpos Hc. destruct fuel; cbn [next_empty]; rewrite (M_bind_ok _ _ _ _ _ (disk_slot_get i v x Hv)), (valid_cell v pos Hvok Hpos), Hc;
    rewrite bool_decide_eq_false_2 by (intros [? E]; discriminate E); rewrite (proj2 (Nat.leb_gt _ _)) by lia; reflexivity.
Qed.

Lemma held_extended y y' l l' : chain_view y' l' = chain_view y l ++ replicate CAP None → held y' l' = held y l.
Proof. intros E. unfold held. rewrite E, omap_app. pose proof (omap_filled (K := K) [] CAP) as H. rewrite filled_nil in H. rewrite H, app_nil_r. reflexivity. Qed.

Lemma head_snoc l o : l ≠ [] → head (l ++ [o]) = head l.
Proof. destruct l; [contradiction|reflexivity]. Qed.

Lemma next_empty_run x l L : store (now x) (l ++ L) [] → linked (now x) l → NoDup l → (Z.of_nat (length (oSlots (now x))) < INVALID_OVERFLOW_SLOT_ID)%Z → ∀ fuel k i pos,
  l !! k = Some i → pos ≤ CAP → length l * CAP + (if decide (pos = CAP) then 1 else 0) ≤ k * CAP + pos + fuel →
  ∃ x' l' k' i' pos', next_empty fuel i pos x = (Ok (i', pos'), x') ∧ l' !! k' = Some i' ∧ pos' < CAP ∧ chain_view (now x') l' !! (k' * CAP + pos') = Some None ∧
    store (now x') (l' ++ L) [] ∧ linked (now x') l' ∧ NoDup l' ∧ held (now x') l' = held (now x) l ∧ head l' = head l ∧ step x x' L 1.
Proof.
  pose proof (capacity_range (K := K)) as Hcap. intros Hst Hl Hnd Hsize fuel. induction fuel as [|fuel IH]; intros k i pos Hk Hpos Hf; pose proof (lookup_lt_Some _ _ _ Hk) as Hkl.
  { exfalso. assert (S k * CAP ≤ length l * CAP) by (apply Nat.mul_le_mono_r; lia). rewrite Nat.mul_succ_l in *. destruct (decide (pos = CAP)); lia. }
  destruct (linked_here _ _ i Hl ltac:(apply list_elem_of_lookup; eauto)) as (Hh & v & Hv). pose proof (st_slots _ _ _ Hst i v Hh Hv) as Hvok.
  destruct (decide (pos < CAP ∧ cell v pos = None)) as [[Hp Hc]|Hbusy].
  { exists x, l, k, i, pos. split; [exact (next_empty_here x _ i v pos Hv Hvok Hp Hc)|]. split; [exact Hk|]. split; [exact Hp|]. split; [rewrite (chain_cell _ l k i v pos Hk Hv Hp), Hc; reflexivity|].
    split_and!; try assumption || reflexivity. destruct (step_refl x L). split; try assumption. lia. }
  assert (Hb : (isEntryValid pos (header v) || (CAP <=? pos)) = true).
  { apply orb_true_iff. destruct (Nat.leb_spec CAP pos) as [|Hp]; [right; reflexivity|left]. rewrite (valid_cell v pos Hvok Hp). apply bool_decide_eq_true_2. destruct (cell v pos) eqn:E; [eauto|]. destruct Hbusy. auto. }
  destruct (advance_run x l L k i pos Hst Hl Hnd Hk Hpos Hsize) as (i' & pos' & x' & Hadv & Hres).
  assert (Hstep : next_empty (S fuel) i pos x = next_empty fuel i' pos' x').
  { cbn [next_empty]. rewrite (M_bind_ok _ _ _ _ _ (disk_slot_get i v x Hv)), Hb, (M_bind_ok _ _ _ _ _ Hadv). reflexivity. }
  rewrite Hstep. destruct Hres as [(k' & -> & Hk' & Hp' & Hcur)|(-> & H1 & H2 & H3 & H4 & H5)].
  - apply (IH k' i' pos' Hk' ltac:(lia)). rewrite (decide_False (P := pos' = CAP)) by lia. destruct (decide (pos = CAP)); lia.
  - assert (Hlast : (l ++ [i']) !! length l = Some i') by (rewrite lookup_app_r, Nat.sub_diag by lia; reflexivity).
    exists x', (l ++ [i']), (length l), i', 0. split; [apply (next_empty_here x' _ i' Slot_new 0 H4 slot_ok_new); [lia|]|].
    { pose proof (view_lookup (K := K) Slot_new 0 ltac:(lia)) as E. rewrite view_new, lookup_replicate_2 in E by lia. congruence. }
    split; [exact Hlast|]. split; [lia|]. split; [rewrite H3, lookup_app_r by (rewrite chain_view_length; lia); rewrite chain_view_length; apply lookup_replicate_2; lia|].
    split; [exact H1|]. split; [exact H2|]. split; [|split; [exact (held_extended _ _ _ _ H3)|split; [apply head_snoc; intros ->; discriminate Hk|exact H5]]].
    pose proof (st_nodup _ _ _ H1) as Hn. rewrite app_nil_r in Hn. apply NoDup_app in Hn as (Hn & _ & _). exact Hn.
Qed.

(** ** A run of entries *)

(** The chain [l] became [l'], with the entries [es] more. *)
Record merged x x' l l' L es : Prop := {
  mg_store : store (now x') (l' ++ L) [];
  mg_linked : linked (now x') l';
  mg_nodup : NoDup l';
  mg_held : held (now x') l' ≡ₚ es ++ held (now x) l;
  mg_head : head l' = head l;
  mg_fixed : fixed x' = fixed x;
  mg_header : indexHeaderForWriteTrx x' = set_numEntries (headerNumEntries (indexHeaderForWriteTrx x) + Z.of_nat (length es)) (indexHeaderForWriteTrx x);
  mg_primary : length (pSlots (now x')) = length (pSlots (now x));
  mg_overflow : length (oSlots (now x')) ≤ length (oSlots (now x)) + length es;
  mg_agree : agree L (now x) (now x');
}.

Lemma set_numEntries_same h : set_numEntries (headerNumEntries h) h = h.
Proof. destruct h. reflexivity. Qed.

Lemma merged_refl x l L : store (now x) (l ++ L) [] → linked (now x) l → NoDup l → merged x x l l L [].
Proof. intros H1 H2 H3. split; try assumption || reflexivity; [rewrite Z.add_0_r, set_numEntries_same; reflexivity|lia|intros i _; reflexivity]. Qed.

Lemma merged_trans x x1 x2 l l1 l2 L es1 es2 : merged x x1 l l1 L es1 → merged x1 x2 l1 l2 L es2 → merged x x2 l l2 L (es2 ++ es1).
Proof.
  intros [A1 A2 A3 A4 A5 A6 A7 A8 A9 A10] [B1 B2 B3 B4 B5 B6 B7 B8 B9 B10]. split; try assumption; try congruence.
  - rewrite B4, A4, app_assoc. reflexivity.
  - rewrite B7, A7. cbn [set_numEntries headerNumEntries]. rewrite length_app. unfold set_numEntries. cbn. f_equal. lia.
  - rewrite length_app. lia.
  - exact (agree_trans L _ _ _ A10 B10).
Qed.

(** The cell of the chain view that gets an entry. *)
Lemma held_put V q e : V !! q = Some None → omap id (<[q := Some e]> V) ≡ₚ e :: omap (@id (option (SlotEntry K))) V.
Proof.
  intros H. rewrite <- (take_drop_middle V q None H) at 2. pose proof (lookup_lt_Some _ _ _ H). rewrite insert_take_drop by assumption. rewrite !omap_app. cbn [omap list_omap id]. symmetry. apply Permutation_middle.
Qed.

(** One entry: found a cell, written, counted. *)
Definition merge_one (v : HashIndexEntryView K) (slot : Z) i pos : M (HashIndex K) (SlotInfo * nat) :=
  x ← get_state;
  p ← next_empty (S CAP * S (S (length (current (diskOSlots x))))) i pos;
  let '(i', pos') := p in
  s ← disk_slot i';
  updateSlot i' (put_entry pos' (viewEntry v) (viewFingerprint v) s) ;;
  x ← get_state;
  let h := hash (key (viewEntry v)) in
  ku_assert ((viewFingerprint v =? getFingerprintForHash h) && (getPrimarySlotIdForHash (indexHeaderForWriteTrx x) h =? slot))%Z ;;
  on_writeHeader (λ h, set_numEntries (uwrap 64 (headerNumEntries h + 1)) h) ;;
  mret (i', pos').

Lemma merge_one_run x l L k i pos (v : HashIndexEntryView K) slot :
  store (now x) (l ++ L) [] → linked (now x) l → NoDup l → l !! k = Some i → pos ≤ CAP → (Z.of_nat (length (oSlots (now x))) < INVALID_OVERFLOW_SLOT_ID)%Z →
  viewFingerprint v = fp (viewEntry v) → home (indexHeaderForWriteTrx x) (viewEntry v) = slot → (0 ≤ headerNumEntries (indexHeaderForWriteTrx x) < 2 ^ 64 - 1)%Z →
  ∃ x' l' k' i' pos', merge_one v slot i pos x = (Ok (i', pos'), x') ∧ l' !! k' = Some i' ∧ pos' < CAP ∧ merged x x' l l' L [viewEntry v].
Proof.
  pose proof (capacity_range (K := K)) as Hcap. intros Hst Hl Hnd Hk Hpos Hsize Hfp Hhome Hnum. set (F := S CAP * S (S (length (current (diskOSlots x))))).
  pose proof (chain_count _ l Hl Hnd) as Hcc. unfold chain_fuel in Hcc. change (oSlots (now x)) with (current (diskOSlots x)) in Hcc.
  destruct (next_empty_run x l L Hst Hl Hnd Hsize F k i pos Hk Hpos) as (x1 & l' & k' & i' & pos' & Hrun & Hk' & Hp' & Hcv & Hst1 & Hl1 & Hnd1 & Hheld & Hhd & Hstep).
  { assert (length l * CAP ≤ S (length (current (diskOSlots x))) * CAP) by (apply Nat.mul_le_mono_r; lia). unfold F. destruct (decide (pos = CAP)); nia. }
  destruct (linked_here _ _ i' Hl1 ltac:(apply list_elem_of_lookup; eauto)) as (Hh' & s & Hs). pose proof (st_slots _ _ _ Hst1 i' s Hh' Hs) as Hsok. set (e := viewEntry v) in *.
  destruct (write_step x1 l' L k' i' s (put_entry pos' e (fp e) s) pos' (Some e) Hst1 Hl1 Hk' Hs Hp' (slot_ok_put s pos' e Hsok Hp') (view_put s pos' e _ Hsok Hp') eq_refl) as (x2 & Hup & Hst2 & Hl2 & Hcv2 & Hstep2).
  pose proof (step_trans _ _ _ _ _ _ Hstep Hstep2) as [Q1 Q2 Q3 Q4 Q5]. set (x3 := set_writeHeader (set_numEntries (headerNumEntries (indexHeaderForWriteTrx x) + 1) (indexHeaderForWriteTrx x)) x2).
  exists x3, l', k', i', pos'. split; [|split; [exact Hk'|split; [exact Hp'|]]].
  - unfold merge_one. rewrite (M_bind_ok get_state _ x x x eq_refl). fold F. rewrite (M_bind_ok _ _ _ _ _ Hrun). rewrite (M_bind_ok _ _ _ _ _ (disk_slot_get i' s x1 Hs)). rewrite Hfp.
    rewrite (M_bind_ok _ _ _ _ _ Hup), (M_bind_ok get_state _ x2 x2 x2 eq_refl). fold e. cbn zeta. rewrite Q2. unfold home in Hhome. rewrite Hhome. unfold fp, ku_assert. rewrite !Z.eqb_refl. cbn [andb].
    rewrite (M_bind_ok (mret tt) _ x2 tt x2 eq_refl). rewrite (M_bind_ok (on_writeHeader _) _ x2 tt x3); [reflexivity|]. unfold on_writeHeader, modify, x3. rewrite Q2, uwrap_small by lia. reflexivity.
  - split; try assumption; try reflexivity.
    + apply (store_header (now x2) (l' ++ L) [] (indexHeaderForWriteTrx x3)); [|exact Hst2]. cbn [x3 indexHeaderForWriteTrx set_writeHeader set_numEntries firstFreeOverflowSlotId now version indexHeader]. rewrite Q2. reflexivity.
    + exact (linked_agree (now x2) (now x3) l' ltac:(intros j _; reflexivity) Hl2).
    + unfold held. rewrite (chain_view_agree (now x2) (now x3) l') by (intros j _; reflexivity). rewrite Hcv2, (held_put _ _ e Hcv). cbn [app]. constructor. fold (held (now x1) l') (held (now x) l). rewrite Hheld. reflexivity.
Qed.

(** The entries at the front of a list that go to the slot. *)
Fixpoint front (slot : Z) (vs : list (HashIndexEntryView K)) : list (HashIndexEntryView K) :=
  match vs with [] => [] | v :: vs' => if (diskSlotId v =? slot)%Z then v :: front slot vs' else [] end.

(** What [sortEntries] makes of an entry. *)
Definition faithful (h : HashIndexHeader) (v : HashIndexEntryView K) : Prop := viewFingerprint v = fp (viewEntry v) ∧ diskSlotId v = home h (viewEntry v).

Lemma merge_entries_cons v vs slot i pos n x :
  merge_entries (v :: vs) slot i pos n x =
    if (diskSlotId v =? slot)%Z then (p ← merge_one v slot i pos; merge_entries vs slot p.1 (S p.2) (S n)) x else (Ok n, x).
Proof.
  cbn [merge_entries]. destruct (diskSlotId v =? slot)%Z; [|reflexivity]. cbn [negb]. unfold merge_one, mbind, M_bind, mret, M_ret, get_state. cbv beta iota zeta.
  destruct (next_empty _ i pos x) as [[[i' pos']|] x1]; [|reflexivity]. destruct (disk_slot i' x1) as [[s|] x2]; [|reflexivity]. destruct (updateSlot _ _ x2) as [[?|] x3]; [|reflexivity].
  destruct (ku_assert _ x3) as [[?|] x4]; [|reflexivity]. destruct (on_writeHeader _ x4) as [[?|] x5]; reflexivity.
Qed.

Lemma merge_entries_run slot L : ∀ vs x l k i pos n,
  store (now x) (l ++ L) [] → linked (now x) l → NoDup l → l !! k = Some i → pos ≤ CAP → Forall (faithful (indexHeaderForWriteTrx x)) vs →
  (Z.of_nat (length (oSlots (now x)) + length vs) ≤ INVALID_OVERFLOW_SLOT_ID)%Z → (0 ≤ headerNumEntries (indexHeaderForWriteTrx x))%Z →
  (headerNumEntries (indexHeaderForWriteTrx x) + Z.of_nat (length vs) < 2 ^ 64)%Z →
  ∃ x' l', merge_entries vs slot i pos n x = (Ok (n + length (front slot vs)), x') ∧ merged x x' l l' L (rev (map viewEntry (front slot vs))).
Proof.
  intros vs. induction vs as [|v vs IH]; intros x l k i pos n Hst Hl Hnd Hk Hpos Hvs Hsize Hnum Hlt.
  { exists x, l. rewrite Nat.add_0_r. split; [reflexivity|]. apply merged_refl; assumption. }
  rewrite merge_entries_cons. cbn [front]. destruct (Z.eqb_spec (diskSlotId v) slot) as [E|E]; [|exists x, l; rewrite Nat.add_0_r; split; [reflexivity|apply merged_refl; assumption]].
  apply Forall_cons in Hvs as [[Hf Hd] Hvs]. cbn [length] in Hsize, Hlt.
  destruct (merge_one_run x l L k i pos v slot Hst Hl Hnd Hk Hpos ltac:(lia) Hf ltac:(congruence) ltac:(lia)) as (x1 & l1 & k1 & i1 & pos1 & Hrun & Hk1 & Hp1 & H1). rewrite (M_bind_ok _ _ _ _ _ Hrun). cbn [fst snd].
  pose proof (mg_header _ _ _ _ _ _ H1) as Hh1. cbn [length] in Hh1. pose proof (mg_overflow _ _ _ _ _ _ H1) as Ho1. cbn [length] in Ho1.
  destruct (IH x1 l1 k1 i1 (S pos1) (S n) (mg_store _ _ _ _ _ _ H1) (mg_linked _ _ _ _ _ _ H1) (mg_nodup _ _ _ _ _ _ H1) Hk1 ltac:(lia)) as (x2 & l2 & Hrun2 & H2).
  - apply (Forall_impl _ _ _ Hvs). intros w [Hw1 Hw2]. split; [exact Hw1|]. rewrite Hw2, Hh1. reflexivity.
  - lia.
  - rewrite Hh1. cbn [set_numEntries headerNumEntries]. lia.
  - rewrite Hh1. cbn [set_numEntries headerNumEntries]. lia.
  - exists x2, l2. split; [rewrite Hrun2; cbn [length]; f_equal; f_equal; lia|]. cbn [map rev]. exact (merged_trans _ _ _ _ _ _ _ _ _ H1 H2).
Qed.

(** ** The whole index *)

(** The index holds [ms] more; the header changes in the number of entries only. *)
Record absorbed x x' es ms : Prop := {
  ab_holds : holds (now x') (ms ++ es);
  ab_fixed : fixed x' = fixed x;
  ab_header : indexHeaderForWriteTrx x' = set_numEntries (headerNumEntries (indexHeaderForWriteTrx x) + Z.of_nat (length ms)) (indexHeaderForWriteTrx x);
  ab_overflow : length (oSlots (now x')) ≤ length (oSlots (now x)) + length ms;
}.

Lemma absorbed_refl x es : holds (now x) es → absorbed x x es [].
Proof. intros H. split; try assumption || reflexivity; [rewrite Z.add_0_r, set_numEntries_same; reflexivity|lia]. Qed.

Lemma absorbed_trans x x1 x2 es ms1 ms2 : absorbed x x1 es ms1 → absorbed x1 x2 (ms1 ++ es) ms2 → absorbed x x2 es (ms2 ++ ms1).
Proof.
  intros [A1 A2 A3 A4] [B1 B2 B3 B4]. split; [rewrite <- app_assoc; exact B1|congruence| |rewrite length_app; lia].
  rewrite B3, A3. rewrite length_app. unfold set_numEntries. cbn. f_equal. lia.
Qed.

Lemma absorbed_faithful x x' es ms v : absorbed x x' es ms → faithful (indexHeaderForWriteTrx x) v → faithful (indexHeaderForWriteTrx x') v.
Proof. intros H [H1 H2]. split; [exact H1|]. rewrite H2, (ab_header _ _ _ _ H). reflexivity. Qed.

(** The header knows the number of primary slots. *)
Lemma absorbed_primary x x' es ms : holds (now x) es → absorbed x x' es ms → length (pSlots (now x')) = length (pSlots (now x)).
Proof.
  intros (C & B & [H _] & _) [(C' & B' & [H' _] & _) _ Hh _]. pose proof (ho_slots _ _ (dr_header _ _ _ _ _ H)) as E. pose proof (ho_slots _ _ (dr_header _ _ _ _ _ H')) as E'.
  change (indexHeader (now x')) with (indexHeaderForWriteTrx x') in E'. rewrite Hh in E'. cbn [set_numEntries currentLevel nextSplitSlotId] in E'. change (indexHeader (now x)) with (indexHeaderForWriteTrx x) in E. lia.
Qed.

(** Room for some entries more. *)
Definition has_room x (n : nat) : Prop :=
  (Z.of_nat (length (oSlots (now x)) + n) ≤ INVALID_OVERFLOW_SLOT_ID)%Z ∧ (0 ≤ headerNumEntries (indexHeaderForWriteTrx x) < 2 ^ 64 - Z.of_nat n)%Z.

Lemma absorbed_room x x' es ms n : absorbed x x' es ms → has_room x (length ms + n) → has_room x' n.
Proof. intros [_ _ H1 H2] [H3 H4]. split; [lia|]. rewrite H1. cbn [set_numEntries headerNumEntries]. lia. Qed.

Lemma has_room_le x n n' : n' ≤ n → has_room x n → has_room x n'.
Proof. intros Hn [H1 H2]. split; lia. Qed.

Lemma front_take slot vs : front slot vs = take (length (front slot vs)) vs.
Proof. induction vs as [|v vs IH]; [reflexivity|]. cbn [front]. destruct (diskSlotId v =? slot)%Z; [|reflexivity]. cbn [length take]. f_equal. exact IH. Qed.

Lemma front_length slot vs : length (front slot vs) ≤ length vs.
Proof. rewrite front_take, length_take. lia. Qed.

Lemma front_slot slot vs w : w ∈ front slot vs → diskSlotId w = slot ∧ w ∈ vs.
Proof.
  induction vs as [|v vs IH]; cbn [front]; intros H; [inversion H|]. destruct (Z.eqb_spec (diskSlotId v) slot) as [E|E]; [|inversion H].
  apply elem_of_cons in H as [->|H]; [split; [exact E|left]|]. destruct (IH H). split; [assumption|right; assumption].
Qed.

Lemma front_last slot vs v : last vs = Some v → diskSlotId v = slot → 0 < length (front slot (rev vs)).
Proof.
  intros Hl E. apply last_Some in Hl as [vs' ->]. rewrite rev_app_distr. cbn [rev app front]. rewrite E, Z.eqb_refl. cbn. lia.
Qed.

(** The assertions at the start of [mergeSlot]. *)
Lemma mergeSlot_start x l L slot s vs :
  store (now x) (l ++ L) [] → linked (now x) l → l !! 0 = Some (primary slot) → slot_at (primary slot) (now x) = Some s → (slot < Z.of_nat (length (pSlots (now x))))%Z →
  mergeSlot vs slot x = merge_entries (rev vs) slot (primary slot) 0 0 x.
Proof.
  intros Hst Hlk H0 Hs Hr. unfold mergeSlot. rewrite (M_bind_ok get_state _ x x x eq_refl). change (getNumElements true (diskPSlots x)) with (Z.of_nat (length (pSlots (now x)))).
  rewrite (proj2 (Z.ltb_lt _ _)) by lia. rewrite (M_bind_ok (ku_assert true) _ x tt x eq_refl), (M_bind_ok _ _ _ _ _ (disk_slot_get _ s x Hs)). rewrite (linked_link _ l 0 _ s Hlk H0 Hs).
  change (getNumElements true (diskOSlots x)) with (Z.of_nat (length (oSlots (now x)))).
  destruct (l !! 1) as [j|] eqn:Hj.
  - rewrite (drop_S _ _ _ Hj). cbn [next_of]. pose proof (owned_in_range _ _ _ j Hst ltac:(left; apply elem_of_app; left; apply list_elem_of_lookup; eauto) (linked_type _ _ _ _ Hlk Hj)) as Hjr.
    rewrite (proj2 (Z.ltb_lt _ _)) by lia. rewrite orb_true_r. reflexivity.
  - apply lookup_ge_None_1 in Hj. rewrite drop_ge by lia. cbn [next_of]. rewrite Z.eqb_refl. reflexivity.
Qed.

(** [mergeSlot] takes entries from the end of the vector. *)
Lemma mergeSlot_run x es vs v :
  holds (now x) es → Forall (faithful (indexHeaderForWriteTrx x)) vs → last vs = Some v → has_room x (length vs) →
  ∃ x' m, mergeSlot vs (diskSlotId v) x = (Ok m, x') ∧ 0 < m ≤ length vs ∧ absorbed x x' es (map viewEntry (drop (length vs - m) vs)).
Proof.
  intros (C & B & [H Hc] & HB) Hvs Hlast [Hr1 Hr2]. set (slot := diskSlotId v) in *. set (h := indexHeaderForWriteTrx x) in *.
  assert (Hv : faithful h v) by (rewrite Forall_forall in Hvs; apply Hvs, last_Some_elem_of; exact Hlast). destruct Hv as [_ Hslot]. fold slot in Hslot.
  pose proof (primary_slot_range _ _ (hash (key (viewEntry v))) (dr_header _ _ _ _ _ H)) as Hrange. change (indexHeader (now x)) with h in Hrange. fold (home h (viewEntry v)) in Hrange. rewrite <- Hslot in Hrange.
  set (p := Z.to_nat slot). destruct (directory_focus gap_chain _ C B [] p H ltac:(lia)) as (l & bs & Hl & Hbs & [Hlk Hnd Hheld] & Hst & Hhd & Hhome & HBp). replace (Z.of_nat p) with slot in Hhd by lia.
  assert (H0 : l !! 0 = Some (primary slot)) by (destruct l; [discriminate Hhd|exact Hhd]). destruct (linked_here _ l _ Hlk ltac:(apply list_elem_of_lookup; eauto)) as (_ & s & Hs).
  destruct (merge_entries_run slot (others C p) (rev vs) x l 0 (primary slot) 0 0 Hst Hlk Hnd H0 ltac:(lia)) as (x' & l' & Hrun & Hm).
  { apply Forall_rev. exact Hvs. }
  { rewrite length_rev. exact Hr1. }
  { apply Hr2. }
  { rewrite length_rev. fold h. lia. }
  set (m := length (front slot (rev vs))) in *. pose proof (front_length slot (rev vs)) as Hml. rewrite length_rev in Hml. fold m in Hml.
  assert (Hfront : rev (map viewEntry (front slot (rev vs))) = map viewEntry (drop (length vs - m) vs)) by (rewrite front_take; fold m; rewrite <- map_rev, firstn_rev, rev_involutive; reflexivity).
  assert (Hpos : 0 < m) by exact (front_last slot vs v Hlast eq_refl).
  rewrite Hfront in Hm. set (ms := map viewEntry (drop (length vs - m) vs)) in *. exists x', m. split; [|split; [lia|]].
  - rewrite (mergeSlot_start x l (others C p) slot s vs Hst Hlk H0 Hs ltac:(lia)). rewrite Hrun. reflexivity.
  - destruct Hm as [M1 M2 M3 M4 M5 M6 M7 M8 M9 M10]. fold h in M7.
    destruct (directory_update gap_chain gap_chain_agree (now x) (now x') C B [] [] p l l' bs (ms ++ bs) H Hl Hbs M1) as [H' HB']; try assumption.
    + split; [exact M2|exact M3|]. rewrite M4, Hheld. reflexivity.
    + change (indexHeader (now x')) with (indexHeaderForWriteTrx x'). rewrite M7. destruct (dr_header _ _ _ _ _ H). split; assumption.
    + intros e. change (indexHeader (now x')) with (indexHeaderForWriteTrx x'). rewrite M7. reflexivity.
    + apply Forall_app. split; [|exact Hhome]. change (indexHeader (now x)) with h. replace (Z.of_nat p) with slot by lia. rewrite <- Hfront. apply Forall_rev, Forall_map.
      apply Forall_forall. intros w Hw. pose proof (front_slot slot (rev vs) w Hw) as [Hw1 Hw2]. rewrite Forall_forall in Hvs. destruct (Hvs w) as [_ Hd]; [apply list_elem_of_In, in_rev, list_elem_of_In; exact Hw2|]. congruence.
    + split; [|exact M6|exact M7|exact M9]. exists (<[p := l']> C), (<[p := ms ++ bs]> B). split; [split; [exact H'|]|].
      * rewrite HB'. change (indexHeader (now x')) with (indexHeaderForWriteTrx x'). rewrite M7. cbn [set_numEntries headerNumEntries]. change h with (indexHeader (now x)). rewrite Hc, HBp, !length_app. lia.
      * rewrite HB', HB, HBp, app_assoc. reflexivity.
Qed.

(** ** Passes over the partitions *)

Implicit Types (parts : list (list (HashIndexEntryView K) * bool)).

Definition left_over parts : list (HashIndexEntryView K) := concat (map fst parts).
Definition part_ok (h : HashIndexHeader) (part : list (HashIndexEntryView K) * bool) : Prop := Forall (faithful h) part.1 ∧ (part.2 = true → part.1 = []).

(** A partition is left alone, or entries at its end are merged. *)
Lemma merge_part_run x es vs v page :
  holds (now x) es → Forall (faithful (indexHeaderForWriteTrx x)) vs → last vs = Some v → has_room x (length vs) →
  ∃ vs' ws x', (if (diskSlotId v / SLOTS_PER_PAGE =? page)%Z then
       merged ← mergeSlot vs (diskSlotId v);
       ku_assert (merged <=? length vs) ;;
       let l' := take (length vs - merged) vs in mret (l', bool_decide (l' = []))
     else mret (vs, false)) x = (Ok (vs', bool_decide (vs' = [])), x') ∧ vs = vs' ++ ws ∧ absorbed x x' es (map viewEntry ws) ∧
    ((diskSlotId v / SLOTS_PER_PAGE)%Z = page → ws ≠ []).
Proof.
  intros H Hvs Hlast Hroom. destruct (Z.eqb_spec (diskSlotId v / SLOTS_PER_PAGE) page) as [E|E].
  - destruct (mergeSlot_run x es vs v H Hvs Hlast Hroom) as (x' & m & Hrun & Hm & Ha). exists (take (length vs - m) vs), (drop (length vs - m) vs), x'.
    split; [|split; [rewrite take_drop; reflexivity|split; [exact Ha|]]].
    + rewrite (M_bind_ok _ _ _ _ _ Hrun). rewrite (proj2 (Nat.leb_le _ _)) by lia. reflexivity.
    + intros _ Hnil. apply (f_equal length) in Hnil. rewrite length_drop in Hnil. cbn in Hnil. lia.
  - exists vs, [], x. split; [|split; [rewrite app_nil_r; reflexivity|split; [apply absorbed_refl, H|intros E'; contradiction]]].
    rewrite bool_decide_eq_false_2 by (intros ->; discriminate Hlast). reflexivity.
Qed.

Lemma merge_pass_run : ∀ parts page x es,
  holds (now x) es → Forall (part_ok (indexHeaderForWriteTrx x)) parts → has_room x (length (left_over parts)) →
  ∃ parts' ws x', merge_pass parts page x = (Ok parts', x') ∧ left_over parts ≡ₚ ws ++ left_over parts' ∧ absorbed x x' es (map viewEntry ws) ∧
    Forall (part_ok (indexHeaderForWriteTrx x')) parts' ∧ (page = None → left_over parts ≠ [] → ws ≠ []) ∧ Forall (λ q, q.1 = [] → q.2 = true) parts'.
Proof.
  intros parts. induction parts as [|[vs done] parts IH]; intros page x es H Hp Hroom; cbn [merge_pass].
  { exists [], [], x. split; [reflexivity|]. split; [reflexivity|]. split; [apply absorbed_refl, H|]. split; [constructor|]. split; [contradiction|constructor]. }
  apply Forall_cons in Hp as [[Hvs Hdone] Hp]. cbn [fst snd] in Hvs, Hdone. unfold left_over in Hroom |- *. cbn [map concat fst] in *. fold (left_over parts) in *. rewrite length_app in Hroom.
  destruct (decide (vs = [])) as [->|Hne].
  - destruct (IH page x es H Hp Hroom) as (parts' & ws & x' & Hrun & Hperm & Ha & Hp' & Hprog & Hflag). exists (([], true) :: parts'), ws, x'.
    split; [destruct done; cbn [last]; rewrite (M_bind_ok _ _ _ _ _ Hrun); reflexivity|]. split; [exact Hperm|]. split; [exact Ha|]. split; [constructor; [split; [constructor|reflexivity]|exact Hp']|].
    split; [exact Hprog|]. constructor; [reflexivity|exact Hflag].
  - assert (done = false) as -> by (destruct done; [destruct (Hne (Hdone eq_refl))|reflexivity]). destruct (last vs) as [v|] eqn:Hlast; [|apply last_None in Hlast; contradiction].
    set (page' := default (diskSlotId v / SLOTS_PER_PAGE)%Z page). destruct (merge_part_run x es vs v page' H Hvs Hlast (has_room_le _ _ _ (Nat.le_add_r _ _) Hroom)) as (vs' & ws1 & x1 & Hrun1 & -> & Ha1 & Hprog1).
    rewrite (M_bind_ok _ _ _ _ _ Hrun1). rewrite length_app in Hroom. pose proof (Forall_impl _ _ _ Hp (λ q Hq, conj (Forall_impl _ _ _ (proj1 Hq) (λ w, absorbed_faithful _ _ _ _ w Ha1)) (proj2 Hq))) as Hp1.
    destruct (IH (Some page') x1 (map viewEntry ws1 ++ es) (ab_holds _ _ _ _ Ha1) Hp1) as (parts' & ws & x' & Hrun & Hperm & Ha & Hp' & _ & Hflag).
    { apply (absorbed_room _ _ _ _ _ Ha1). rewrite length_map. apply (has_room_le _ (length vs' + length ws1 + length (left_over parts))); [lia|exact Hroom]. }
    rewrite (M_bind_ok _ _ _ _ _ Hrun). exists ((vs', bool_decide (vs' = [])) :: parts'), (ws ++ ws1), x'. split; [reflexivity|]. cbn [map concat fst]. split.
    { rewrite Hperm. fold (left_over parts'). solve_Permutation. }
    split; [rewrite map_app; exact (absorbed_trans _ _ _ _ _ _ Ha1 Ha)|]. split; [constructor; [|exact Hp']|].
    { split; cbn [fst snd]; [|intros Hb; apply bool_decide_eq_true in Hb; exact Hb]. apply Forall_app in Hvs as [Hvs _]. apply (Forall_impl _ _ _ Hvs). intros w Hw. exact (absorbed_faithful _ _ _ _ w Ha (absorbed_faithful _ _ _ _ w Ha1 Hw)). }
    split; [|constructor; [intros E; apply bool_decide_eq_true_2, E|exact Hflag]]. intros -> _ E. apply app_eq_nil in E as [_ E]. exact (Hprog1 eq_refl E).
Qed.

Lemma left_over_nil parts : left_over parts = [] → Forall (λ q, q.1 = []) parts.
Proof. induction parts as [|[vs d] parts IH]; intros H; [constructor|]. apply app_eq_nil in H as [H1 H2]. constructor; [exact H1|exact (IH H2)]. Qed.

Lemma merge_passes_run : ∀ fuel parts x es,
  holds (now x) es → Forall (part_ok (indexHeaderForWriteTrx x)) parts → has_room x (length (left_over parts)) → length (left_over parts) < fuel ∨ forallb snd parts = true →
  ∃ x' ms, merge_passes fuel parts x = (Ok tt, x') ∧ absorbed x x' es ms ∧ ms ≡ₚ map viewEntry (left_over parts).
Proof.
  intros fuel. induction fuel as [|fuel IH]; intros parts x es H Hp Hroom Hf; (destruct (forallb snd parts) eqn:Hall; [|destruct Hf as [Hf|Hf]; [|discriminate Hf]]); cbn [merge_passes]; rewrite Hall; try lia.
  1, 2: exists x, []; split; [reflexivity|]; split; [apply absorbed_refl, H|]; assert (left_over parts = []) as ->; [|reflexivity]; clear - Hp Hall; induction parts as [|[vs d] parts IH]; [reflexivity|];
    cbn [forallb snd] in Hall; apply andb_true_iff in Hall as [Hd Hall]; apply Forall_cons in Hp as [[_ Hv] Hp]; unfold left_over; cbn [map concat]; rewrite (Hv Hd); exact (IH Hp Hall).
  destruct (merge_pass_run parts None x es H Hp Hroom) as (parts' & ws & x1 & Hrun & Hperm & Ha & Hp1 & Hprog & Hflag). rewrite (M_bind_ok _ _ _ _ _ Hrun). pose proof (Permutation_length Hperm) as Hlen. rewrite length_app in Hlen.
  destruct (IH parts' x1 (map viewEntry ws ++ es) (ab_holds _ _ _ _ Ha) Hp1) as (x2 & ms & Hrun2 & Ha2 & Hms).
  - apply (absorbed_room _ _ _ _ _ Ha). rewrite length_map, <- Hlen. exact Hroom.
  - destruct (decide (left_over parts = [])) as [E|E].
    + right. rewrite E in Hperm. apply Permutation_nil_l, eq_sym, app_eq_nil in Hperm as [_ E']. apply left_over_nil in E'. apply forallb_forall. intros q Hq. apply list_elem_of_In in Hq. rewrite Forall_forall in Hflag, E'. auto.
    + left. specialize (Hprog eq_refl E). destruct ws; [contradiction|]. cbn [length] in Hlen. lia.
  - exists x2, (ms ++ map viewEntry ws). split; [exact Hrun2|]. split; [exact (absorbed_trans _ _ _ _ _ _ Ha Ha2)|]. rewrite Hms, Hperm, map_app. apply Permutation_app_comm.
Qed.
End Merge.

(** * A checkpoint moves the local insertions to disk

    The entries of the local index are collected chain by chain and merged in batches; together with the room that is made first this is what
    [checkpoint] does. Publishing the new version ends it. *)

Section Checkpoint.
Context {K : Type} `{HK : IndexHashable K} `{Hok : !IndexHashableOk K} `{Hlost : LostSlots}.
Variable reallocates : nat → bool.
Variable std_sort : list (HashIndexEntryView K) → list (HashIndexEntryView K).
(** [std::sort] permutes its range. *)
Hypothesis sort_permutes : ∀ l, std_sort l ≡ₚ l.

Abbreviation CAP := (SLOT_CAPACITY K).
Abbreviation Index := (InMemHashIndex K).
Abbreviation now := (version true).
Implicit Types (x : HashIndex K) (y : Index) (i : SlotInfo) (l : list SlotInfo) (es ls ps : list (SlotEntry K)) (e : SlotEntry K) (h : HashIndexHeader).

(** ** Collecting a chain *)

Definition view_of h e : HashIndexEntryView K := MkView (home h e) (fp e) e.

Lemma views_of_slot h s es c :
  slot_ok s → view s = filled (take CAP (drop c es)) CAP →
  zip_with (λ e f, MkView (getPrimarySlotIdForHash h (hash (key e))) f e) (take (numEntries (header s)) (entries s)) (take (numEntries (header s)) (fingerprints (header s))) =
    map (view_of h) (take CAP (drop c es)).
Proof.
  intros Hs Hv. destruct (slot_count s es c Hs Hv) as [-> _]. apply list_eq. intros p. rewrite lookup_zip_with, !list_lookup_fmap. destruct (Nat.lt_ge_cases p (CAP `min` (length es - c))) as [Hp|Hp].
  - rewrite !lookup_take_lt, lookup_drop by lia. pose proof (slot_content s es c p Hs Hv ltac:(lia)) as Hc. destruct (lookup_lt_is_Some_2 es (c + p) ltac:(lia)) as [e He]. rewrite He in Hc |- *.
    rewrite (so_fp s Hs p e Hc). unfold cell in Hc. destruct (Z.testbit _ _); [|discriminate Hc]. rewrite Hc. reflexivity.
  - rewrite (lookup_take_ge (entries s)) by lia. cbn. rewrite lookup_ge_None_2; [reflexivity|]. rewrite length_take, length_drop. lia.
Qed.

Lemma collect_run y h l es : slots_ok y → row y l es → ∀ fuel k i,
  l !! k = Some i → length l ≤ k + fuel → collect fuel h i y = (Ok (map (view_of h) (drop (k * CAP) es)), y).
Proof.
  intros Hy Hr fuel. induction fuel as [|fuel IH]; intros k i Hk Hf; pose proof (lookup_lt_Some _ _ _ Hk) as Hkl; [lia|]. cbn [collect]. destruct (row_slot y l es k i Hr Hk) as (s & Hs & Hh & _ & Hv).
  rewrite (M_bind_ok _ _ _ _ _ (getSlot_run i s y Hs)), (M_bind_ok _ _ _ _ _ (next_run y l k i (rw_linked _ _ _ Hr) (rw_nodup _ _ _ Hr) Hk)). cbn zeta.
  rewrite (views_of_slot h s es _ (Hy i s Hh Hs) Hv). 
  replace (map (view_of h) (drop (k * CAP) es)) with (map (view_of h) (take CAP (drop (k * CAP) es)) ++ map (view_of h) (drop (S k * CAP) es))
    by (rewrite <- map_app; f_equal; rewrite <- (take_drop CAP (drop (k * CAP) es)) at 2; rewrite drop_drop; do 2 f_equal; lia). destruct (l !! S k) as [j|] eqn:Hj.
  - rewrite (M_bind_ok _ _ _ _ _ (IH (S k) j Hj ltac:(lia))). reflexivity.
  - apply lookup_ge_None_1 in Hj. pose proof (rw_length _ _ _ Hr) as Hl. rewrite (drop_ge es (S k * CAP)); [rewrite app_nil_r; reflexivity|]. replace (S k) with (length l) by lia. exact Hl.
Qed.

(** ** Batches *)

Lemma sortEntries_run x C B F p l es :
  index_ok (localInsertions (localStorage x)) C B F → C !! p = Some l → B !! p = Some es →
  ∃ vs, sortEntries std_sort (primary (Z.of_nat p)) x = (Ok vs, x) ∧ vs ≡ₚ map (view_of (indexHeaderForWriteTrx x)) es.
Proof.
  set (y := localInsertions _). intros H Hl Hes. destruct (ix_bucket _ _ _ _ H p l es Hl Hes) as ([Hr _] & Hhd & _). set (h := indexHeaderForWriteTrx x).
  assert (H0 : l !! 0 = Some (primary (Z.of_nat p))) by (destruct l; [discriminate Hhd|exact Hhd]).
  pose proof (collect_run y h l es (st_slots _ _ _ (ix_store _ _ _ _ H)) Hr (chain_fuel y) 0 _ H0 (chain_count y l (rw_linked _ _ _ Hr) (rw_nodup _ _ _ Hr))) as Hrun. cbn [Nat.mul] in Hrun. rewrite drop_0 in Hrun.
  exists (std_sort (map (view_of h) es)). split; [|apply sort_permutes]. unfold sortEntries. rewrite (M_bind_ok get_state _ x x x eq_refl). cbn zeta. fold y h. rewrite Hrun. reflexivity.
Qed.

Lemma sort_batch_run x C B F : index_ok (localInsertions (localStorage x)) C B F → ∀ m from, from + m ≤ length B →
  ∃ parts, sort_batch std_sort (seq from m) x = (Ok parts, x) ∧ Forall2 (λ vs es, vs ≡ₚ map (view_of (indexHeaderForWriteTrx x)) es) parts (take m (drop from B)).
Proof.
  intros H m. induction m as [|m IH]; intros from Hm; cbn [seq sort_batch]; [exists []; split; [reflexivity|constructor]|].
  destruct (lookup_lt_is_Some_2 B from ltac:(lia)) as [es Hes]. destruct (lookup_lt_is_Some_2 C from) as [l Hl]; [rewrite (ix_chains _ _ _ _ H), <- (ix_buckets _ _ _ _ H); lia|].
  destruct (sortEntries_run x C B F from l es H Hl Hes) as (vs & Hrun & Hvs). destruct (IH (S from) ltac:(lia)) as (parts & Hrun' & Hps).
  exists (vs :: parts). rewrite (M_bind_ok _ _ _ _ _ Hrun), (M_bind_ok _ _ _ _ _ Hrun'). split; [reflexivity|]. rewrite (drop_S _ _ _ Hes). cbn [take]. constructor; assumption.
Qed.

Lemma sorted_parts h parts (Bs : list (list (SlotEntry K))) :
  Forall2 (λ vs es, vs ≡ₚ map (view_of h) es) parts Bs → let ps := map (λ vs, (vs, false)) parts in
  Forall (part_ok h) ps ∧ left_over ps = concat parts ∧ map viewEntry (concat parts) ≡ₚ concat Bs.
Proof.
  intros H. cbn zeta. induction H as [|vs es parts Bs Hvs _ (IH1 & IH2 & IH3)]; [split; [constructor|split; reflexivity]|]. split; [|split].
  - constructor; [|exact IH1]. split; [|discriminate]. cbn [fst]. apply Forall_forall. intros v Hv. rewrite Hvs in Hv. apply list_elem_of_fmap in Hv as (e & -> & _). split; reflexivity.
  - unfold left_over. cbn [map concat fst]. f_equal. exact IH2.
  - cbn [concat]. rewrite map_app, IH3, Hvs, map_map, map_id. reflexivity.
Qed.

Lemma merge_batch_run x es C B F m from :
  index_ok (localInsertions (localStorage x)) C B F → from + m ≤ length B → holds (now x) es → has_room x (length (concat (take m (drop from B)))) →
  ∃ x' ms, merge_batch std_sort (seq from m) x = (Ok tt, x') ∧ absorbed x x' es ms ∧ ms ≡ₚ concat (take m (drop from B)).
Proof.
  intros H Hm Hh Hroom. destruct (sort_batch_run x C B F H m from Hm) as (parts & Hrun & Hps). destruct (sorted_parts _ _ _ Hps) as (Hok' & Hlo & Hperm).
  assert (Hlen : length (concat parts) = length (concat (take m (drop from B)))) by (rewrite <- Hperm, length_map; reflexivity).
  destruct (merge_passes_run (S (length (concat parts))) (map (λ vs, (vs, false)) parts) x es Hh Hok') as (x' & ms & Hrun' & Ha & Hms); [rewrite Hlo, Hlen; exact Hroom|left; rewrite Hlo; lia|].
  exists x', ms. unfold merge_batch. rewrite (M_bind_ok _ _ _ _ _ Hrun). split; [exact Hrun'|]. split; [exact Ha|]. rewrite Hms, Hlo. exact Hperm.
Qed.

Lemma merge_batches_run C B F : ∀ fuel from x es,
  index_ok (localInsertions (localStorage x)) C B F → holds (now x) es → length B ≤ from + fuel → has_room x (length (concat (drop from B))) →
  ∃ x' ms, merge_batches std_sort fuel from (length B) x = (Ok tt, x') ∧ absorbed x x' es ms ∧ ms ≡ₚ concat (drop from B).
Proof.
  intros fuel. induction fuel as [|fuel IH]; intros from x es H Hh Hf Hroom; cbn [merge_batches]; destruct (Nat.ltb_spec from (length B)) as [Hlt|Hge]; try lia.
  1, 3: exists x, []; split; [reflexivity|]; split; [apply absorbed_refl, Hh|]; rewrite drop_ge by lia; reflexivity.
  set (n := Z.to_nat SLOTS_PER_PAGE). assert (Hn : n = 16) by reflexivity. set (m := n `min` (length B - from)).
  assert (Hsplit : concat (drop from B) = concat (take m (drop from B)) ++ concat (drop (from + n) B)).
  { rewrite <- concat_app. f_equal. rewrite <- (take_drop m (drop from B)) at 1. f_equal. rewrite drop_drop. destruct (Nat.le_gt_cases n (length B - from)); [f_equal; lia|rewrite !drop_ge by lia; reflexivity]. }
  rewrite Hsplit, length_app in Hroom. destruct (merge_batch_run x es C B F m from H ltac:(lia) Hh (has_room_le _ _ _ (Nat.le_add_r _ _) Hroom)) as (x1 & ms1 & Hrun1 & Ha1 & Hms1). rewrite (M_bind_ok _ _ _ _ _ Hrun1).
  destruct (IH (from + n) x1 (ms1 ++ es)) as (x2 & ms2 & Hrun2 & Ha2 & Hms2); [|exact (ab_holds _ _ _ _ Ha1)|lia| |].
  - pose proof (ab_fixed _ _ _ _ Ha1) as E. injection E as _ _ E _. rewrite E. exact H.
  - apply (absorbed_room _ _ _ _ _ Ha1). rewrite Hms1. exact Hroom.
  - exists x2, (ms2 ++ ms1). split; [exact Hrun2|]. split; [exact (absorbed_trans _ _ _ _ _ _ Ha1 Ha2)|]. rewrite Hms1, Hms2, Hsplit. apply Permutation_app_comm.
Qed.

(** ** The checkpoint *)

(** Between checkpoints there is one version on disk. *)
Record quiet x : Prop := {
  qt_primary : current (diskPSlots x) = committed (diskPSlots x);
  qt_overflow : current (diskOSlots x) = committed (diskOSlots x);
  qt_header : indexHeaderForWriteTrx x = indexHeaderForReadTrx x;
}.

Lemma quiet_version x : quiet x → now x = version false x.
Proof. intros [H1 H2 H3]. unfold version, elements. congruence. Qed.

(** The slots the checkpoint asks for. *)
Definition demand x : Z := numRequiredSlots x (insertions_size (localStorage x)).

(** An index a checkpoint can merge: nothing is deleted, no slot is there too many, and with entries on disk the slots at most double. *)
Record ready x ls ps : Prop := {
  rd_layers : layered x [] ls ps;
  rd_quiet : quiet x;
  rd_slots : (Z.of_nat (length (current (diskPSlots x))) ≤ demand x ≤ 2 ^ 30)%Z;
  rd_double : ps = [] ∨ (demand x ≤ 2 * Z.of_nat (length (current (diskPSlots x))))%Z;
  rd_overflow : (Z.of_nat (length (current (diskOSlots x))) + demand x * Z.of_nat (length ps) + Z.of_nat (length ls) < INVALID_OVERFLOW_SLOT_ID)%Z;
  rd_size : (insertions_size (localStorage x) < 2 ^ 63)%Z;
}.

(** [reserve] when the slots are there. *)
Lemma reserve_again_run x es n :
  holds (now x) es → numRequiredSlots x n = Z.of_nat (length (current (diskPSlots x))) → (numRequiredSlots x n ≤ 2 ^ 30)%Z →
  ∃ x', reserve reallocates n x = (Ok tt, x') ∧ fixed x' = fixed x ∧ holds (now x') es ∧ headerNumEntries (indexHeaderForWriteTrx x') = headerNumEntries (indexHeaderForWriteTrx x) ∧
    length (current (diskPSlots x')) = length (current (diskPSlots x)) ∧ length (current (diskOSlots x')) = length (current (diskOSlots x)).
Proof.
  intros H Hr Hmax. destruct (Z.eqb_spec (headerNumEntries (indexHeaderForWriteTrx x)) 0) as [E|E].
  - destruct (reserve_empty_run reallocates x es n (or_introl H) E ltac:(lia)) as (x' & Hrun & Hf & H' & Hc & Hp & Ho). exists x'. split_and!; try assumption. lia.
  - exists x. split; [|split_and!; reflexivity || assumption]. unfold reserve. rewrite (M_bind_ok get_state _ x x x eq_refl). cbn zeta. rewrite (proj2 (Z.eqb_neq _ _) E). unfold numSlotsToSplit. rewrite Hr.
    change (getNumElements true (diskPSlots x)) with (Z.of_nat (length (current (diskPSlots x)))). rewrite Z.sub_diag. unfold splitSlots. cbn. destruct x as [p [co cu] s hr hw]. reflexivity.
Qed.

Lemma ready_can_reserve x ls ps : ready x ls ps → can_reserve x ps (insertions_size (localStorage x)).
Proof. intros [H1 [H2 H3 H4] H5 H6 H7 H8]. split; [exact H5|exact H6|rewrite H3; reflexivity|]. unfold demand in H7. lia. Qed.

(** The room for the entries, made twice. *)
Lemma reserve_twice_run x ls ps :
  ready x ls ps → let n := insertions_size (localStorage x) in
  ∃ x1 x2, reserve reallocates n x = (Ok tt, x1) ∧ reserve reallocates n x1 = (Ok tt, x2) ∧ localStorage x1 = localStorage x ∧ fixed x2 = fixed x ∧ holds (now x2) ps ∧ has_room x2 (length ls) ∧
    Z.of_nat (length (current (diskPSlots x2))) = demand x ∧ (Z.of_nat (length (current (diskOSlots x2))) ≤ Z.of_nat (length (current (diskOSlots x))) + demand x * Z.of_nat (length ps))%Z.
Proof.
  intros H n. pose proof H as [[_ _ Hp] Hq Hs _ Ho _]. rewrite <- (quiet_version x Hq) in Hp. fold n in Ho. pose proof (ready_can_reserve x ls ps H) as Hcr. fold n in Hcr.
  destruct (reserve_disk_run reallocates x ps n Hp Hcr) as (x1 & Hrun1 & Hf1 & H1 & Hc1 & Hp1 & Ho1). assert (Hl1 : localStorage x1 = localStorage x) by (injection Hf1; auto).
  assert (Hlevel : (0 ≤ currentLevel (indexHeaderForWriteTrx x))%Z) by (destruct Hp as [(C & B & [Hd _] & _)|(_ & _ & _ & Hh)]; [apply (dr_header _ _ _ _ _ Hd)|cbn in Hh; rewrite Hh; cbn; lia]).
  assert (Hr : numRequiredSlots x1 n = Z.of_nat (length (current (diskPSlots x1)))).
  { rewrite Hp1. apply required_stable; [|exact Hlevel|exact Hc1]. destruct H1 as (C & B & [Hd _] & _). pose proof (dr_header _ _ _ _ _ Hd) as Hh. cbn [version indexHeader pSlots elements] in Hh. rewrite Hp1 in Hh. exact Hh. }
  destruct (reserve_again_run x1 ps n H1 Hr) as (x2 & Hrun2 & Hf2 & H2 & Hc2 & Hp2 & Ho2); [destruct Hcr; lia|]. exists x1, x2. split_and!; try assumption; try congruence; try (unfold demand; fold n; lia).
  assert (Hcount : headerNumEntries (indexHeaderForWriteTrx x2) = Z.of_nat (length ps)) by (destruct H2 as (C & B & [_ Hc] & HB); rewrite HB; exact Hc).
  unfold demand in Ho, Hs. fold n in Ho, Hs. split; [cbn [version oSlots elements]; lia|]. rewrite Hcount. assert (1 ≤ numRequiredSlots x n)%Z by (unfold numRequiredSlots, SLOTS_PER_PAGE; lia).
  assert (Z.of_nat (length ps) ≤ numRequiredSlots x n * Z.of_nat (length ps))%Z by nia. unfold INVALID_OVERFLOW_SLOT_ID in Ho. lia.
Qed.

Lemma net_inserts_none (s : HashIndexLocalStorage K) : localDeletions s = [] → (0 ≤ insertions_size s < 2 ^ 63)%Z → getNetInserts s = insertions_size s ∧ hasUpdates s = negb (insertions_size s =? 0)%Z.
Proof.
  intros HD Hs. unfold getNetInserts, hasUpdates. rewrite HD. cbn [length Nat.eqb]. rewrite andb_true_r. split; [|reflexivity]. cbn zeta. rewrite Z.sub_0_r, uwrap_small by lia. rewrite (proj2 (Z.ltb_lt _ _)) by lia. reflexivity.
Qed.

Lemma checkpoint_run x ls ps :
  ready x ls ps →
  ∃ x', checkpoint reallocates std_sort x = (Ok (hasUpdates (localStorage x)), x') ∧ persists (now x') (ls ++ ps) ∧ fixed x' = fixed x ∧
    if hasUpdates (localStorage x) then Z.of_nat (length (current (diskPSlots x'))) = demand x ∧
      (Z.of_nat (length (current (diskOSlots x'))) ≤ Z.of_nat (length (current (diskOSlots x))) + demand x * Z.of_nat (length ps) + Z.of_nat (length ls))%Z
    else x' = x.
Proof.
  intros H. pose proof H as [[HD (C & B & F & Hix & HB) Hp] Hq _ _ _ Hsz]. pose proof (ix_count _ _ _ _ Hix) as Hcount. fold (insertions_size (localStorage x)) in Hcount. set (n := insertions_size (localStorage x)) in *.
  destruct (net_inserts_none (localStorage x) HD ltac:(fold n; lia)) as [Hnet Hup]. fold n in Hnet, Hup. unfold checkpoint. rewrite (M_bind_ok get_state _ x x x eq_refl), Hup. destruct (Z.eqb_spec n 0) as [E|E]; cbn [negb].
  - exists x. split; [reflexivity|]. split; [|split; reflexivity]. rewrite (quiet_version x Hq). assert (ls = []) as ->; [|exact Hp]. apply Permutation_length in HB. destruct ls; [reflexivity|cbn [length] in HB; lia].
  - rewrite Hnet. rewrite (proj2 (Z.ltb_lt _ _)) by lia. destruct (reserve_twice_run x ls ps H) as (x1 & x2 & Hrun1 & Hrun2 & Hl1 & Hf2 & H2 & Hroom & Hp2 & Ho2). fold n in Hrun1, Hrun2.
    assert (Hl2 : localStorage x2 = localStorage x) by (injection Hf2; auto).
    destruct (merge_batches_run C B F (length B) 0 x2 ps) as (x3 & ms & Hrun3 & Ha & Hms); [rewrite Hl2; exact Hix|exact H2|lia|rewrite drop_0; rewrite <- HB; exact Hroom|]. rewrite drop_0 in Hms.
    exists x3. split; [|split; [left; rewrite HB, <- Hms; exact (ab_holds _ _ _ _ Ha)|split; [rewrite (ab_fixed _ _ _ _ Ha); exact Hf2|]]].
    2: { pose proof (absorbed_primary _ _ _ _ H2 Ha) as Hp3. pose proof (ab_overflow _ _ _ _ Ha) as Ho3. cbn [version pSlots oSlots elements] in Hp3, Ho3. rewrite Hms, <- HB in Ho3. lia. }
    rewrite (M_bind_ok _ _ _ _ _ Hrun1). unfold mergeBulkInserts. rewrite M_bind_assoc, (M_bind_ok get_state _ x1 x1 x1 eq_refl), Hl1. fold n. rewrite M_bind_assoc, (M_bind_ok _ _ _ _ _ Hrun2). cbn zeta.
    rewrite <- (ix_buckets _ _ _ _ Hix). rewrite (M_bind_ok _ _ _ _ _ Hrun3). reflexivity.
Qed.
End Checkpoint.
