(* ===== verification/PrimaryKeyIndex.v ===== *)
(** * The primary key index

    The second half of storage/index/hash_index.{h,cpp}: 256 hash indexes, the one for a key picked by the top bits of its hash, and the pages with their
    headers. Keys are of a type that is stored in the slots; the overflow file, which is for strings, is not there. Also the part of a rollback that
    takes keys out of the index again (storage/table/node_table.cpp). *)

From stdpp Require Import base numbers list strings.
From Stdlib Require Import ZArith Lia.
From S2P Require Import Prelude TransactionManager HashSlot InMemHashIndex LocalHashIndex DiskArray HashIndex HashIndexCheckpoint.
Import HashSlot LocalHashIndex VersionedArray HashIndex HashIndexCheckpoint.

#[local] Open Scope nat_scope.

Module PrimaryKeyIndex.

Definition INDEX_HEADER_PAGES : nat := 2.
(** [KUZU_PAGE_SIZE / sizeof(HashIndexHeaderOnDisk)] *)
Definition INDEX_HEADERS_PER_PAGE : nat := 4096 / 32.
Definition NUM_HEADER_PAGES : Z := 2.
Definition INVALID_PAGE_IDX : Z := 4294967295.
Definition NUM_INDEXES : nat := Z.to_nat NUM_HASH_INDEXES.

Section Index.
Context {K : Type} `{IndexHashable K}.
Variable toString : K → string.
Variable reallocates : nat → bool.
Variable std_sort : list (HashIndexEntryView K) → list (HashIndexEntryView K).

(** [headerPages] is what the header pages hold; the headers themselves are in the hash indexes, which have references to them. *)
Record PrimaryKeyIndex := MkPKIndex {
  hashIndices : list (HashIndex K);
  firstHeaderPage : Z;
  headerPages : list (list HashIndexHeaderOnDisk);
}.
Definition set_hashIndices (l : list (HashIndex K)) (x : PrimaryKeyIndex) : PrimaryKeyIndex := MkPKIndex l (firstHeaderPage x) (headerPages x).
Definition set_firstHeaderPage (p : Z) (x : PrimaryKeyIndex) : PrimaryKeyIndex := MkPKIndex (hashIndices x) p (headerPages x).
Definition set_headerPages (l : list (list HashIndexHeaderOnDisk)) (x : PrimaryKeyIndex) : PrimaryKeyIndex := MkPKIndex (hashIndices x) (firstHeaderPage x) l.

(** ** Making an index *)

Definition HashIndex_make (p o : VersionedArray (Slot K)) (h : HashIndexHeader) : outcome (HashIndex K) :=
  match HashIndexLocalStorage_new with Ok s => Ok (MkHashIndex p o s h h) | Throw e => Throw e end.
(** One hash index per header; the arrays of the disk array collection are first all primary and then all overflow arrays. *)
Fixpoint initSubIndices (arrays : list (VersionedArray (Slot K))) (headers : list HashIndexHeader) (i : nat) : outcome (list (HashIndex K)) :=
  match headers with
  | [] => Ok []
  | h :: headers' =>
      match arrays !! i, arrays !! (NUM_INDEXES + i) with
      | Some p, Some o =>
          match HashIndex_make p o h, initSubIndices arrays headers' (S i) with Ok x, Ok l => Ok (x :: l) | Throw e, _ => Throw e | _, Throw e => Throw e end
      | _, _ => Throw (UndefinedBehaviour "no such disk array")
      end
  end.
Definition createNewIndex : outcome PrimaryKeyIndex :=
  match initSubIndices (replicate (2 * NUM_INDEXES) (MkArray [] [])) (replicate NUM_INDEXES HashIndexHeader_new) 0 with
  | Ok l => Ok (MkPKIndex l INVALID_PAGE_IDX [])
  | Throw e => Throw e
  end.

(** The headers on the pages, up to the number of indexes. *)
Fixpoint read_headers (pages : list (list HashIndexHeaderOnDisk)) (headers : list HashIndexHeader) : list HashIndexHeader :=
  match pages with
  | [] => headers
  | page :: pages' => read_headers pages' (headers ++ map HashIndexHeader_read (take (Nat.min INDEX_HEADERS_PER_PAGE (NUM_INDEXES - length headers)) page))
  end.
(** The constructor on the pages and the arrays of a file. *)
Definition PrimaryKeyIndex_open (startPage : Z) (pages : list (list HashIndexHeaderOnDisk)) (arrays : list (VersionedArray (Slot K))) : outcome PrimaryKeyIndex :=
  let headers := read_headers (take INDEX_HEADER_PAGES pages) [] in
  if length headers =? NUM_INDEXES then
    match initSubIndices arrays headers 0 with Ok l => Ok (MkPKIndex l startPage pages) | Throw e => Throw e end
  else Throw assert_failure.

(** ** Keys *)

Definition on_index {A} (pos : nat) (m : M (HashIndex K) A) : M PrimaryKeyIndex A :=
  λ x, match hashIndices x !! pos with
       | Some i => let '(r, i') := m i in (r, set_hashIndices (<[pos := i']> (hashIndices x)) x)
       | None => (Throw (UndefinedBehaviour "no such index"), x)
       end.
Definition position (k : K) : nat := Z.to_nat (getHashIndexPosition k).

Definition lookup (t : TransactionType) (k : K) (isVisible : Z → bool) : M PrimaryKeyIndex (option Z) := on_index (position k) (lookupInternal t k isVisible).
Definition insert (t : TransactionType) (k : K) (v : Z) (isVisible : Z → bool) : M PrimaryKeyIndex bool := on_index (position k) (insertInternal t k v isVisible).
Definition delete_ (k : K) : M PrimaryKeyIndex unit := on_index (position k) (deleteInternal k).
Definition discardLocal (k : K) : M PrimaryKeyIndex bool := on_index (position k) (HashIndex.discardLocal k).

Definition nullPKException : string := "Found NULL, which violates the non-null constraint of the primary key column.".
Definition duplicatePKException (pkString : string) : string :=
  ("Found duplicated primary key value " +:+ pkString +:+ ", which violates the uniqueness constraint of the primary key column.")%string.

(** [commitInsert] on the selected rows: the key, which may be NULL, and the offset. *)
Fixpoint commitInsert (t : TransactionType) (rows : list (option K * Z)) (isVisible : Z → bool) : M PrimaryKeyIndex unit :=
  match rows with
  | [] => mret tt
  | (None, _) :: _ => raise (RuntimeException nullPKException)
  | (Some k, offset) :: rows' =>
      ok ← insert t k offset isVisible;
      if ok : bool then commitInsert t rows' isVisible else raise (RuntimeException (duplicatePKException (toString k)))
  end.
(** [delete_] of a vector *)
Fixpoint delete_vector (keys : list (option K)) : M PrimaryKeyIndex unit :=
  match keys with [] => mret tt | None :: keys' => delete_vector keys' | Some k :: keys' => delete_ k ;; delete_vector keys' end.

Definition appendWithIndexPosNoLock (t : TransactionType) (buffer : list (K * Z)) (bufferOffset indexPos : nat) (isVisible : Z → bool) : M PrimaryKeyIndex nat :=
  ku_assert (forallb (λ q : K * Z, position q.1 =? indexPos) buffer) ;;
  on_index indexPos (appendNoLock t buffer bufferOffset isVisible).

(** The size for each index is a [uint32_t]. *)
Definition bulkReserve (numValuesToAppend : Z) : M PrimaryKeyIndex unit :=
  let eachSize := uwrap 32 (numValuesToAppend / NUM_HASH_INDEXES + 1) in
  for_each (seq 0 NUM_INDEXES) (λ i, on_index i (HashIndex.bulkReserve eachSize)).

(** [RollbackPKDeleter::processScanOutput]: the keys of the rows that are rolled back. *)
Definition rollback_keys (t : TransactionType) (keys : list K) : M PrimaryKeyIndex unit :=
  for_each keys (λ k,
    r ← lookup t k (λ _, true);
    match r with Some _ => discardLocal k ;; mret tt | None => mret tt end).

(** ** Checkpoints *)

(** Every index in turn; whether one of them says so. *)
Fixpoint any_index (m : M (HashIndex K) bool) (ids : list nat) : M PrimaryKeyIndex bool :=
  match ids with
  | [] => mret false
  | i :: ids' => b ← on_index i m; b' ← any_index m ids'; mret (b || b')
  end.

(** [allocatePageRange] gives the pages starting at [startPage] if it is called. *)
Definition writeHeaders (startPage : Z) : M PrimaryKeyIndex unit :=
  modify (λ x, if (firstHeaderPage x =? INVALID_PAGE_IDX)%Z then set_firstHeaderPage startPage x else x) ;;
  x ← get_state;
  let headers := map (λ i, write (indexHeaderForWriteTrx i)) (take NUM_INDEXES (hashIndices x)) in
  put_state (set_headerPages (map (λ j, take INDEX_HEADERS_PER_PAGE (drop (j * INDEX_HEADERS_PER_PAGE) headers)) (seq 0 INDEX_HEADER_PAGES)) x) ;;
  ku_assert (length (concat (map (λ j, take INDEX_HEADERS_PER_PAGE (drop (j * INDEX_HEADERS_PER_PAGE) headers)) (seq 0 INDEX_HEADER_PAGES))) =? NUM_INDEXES).

Definition publish_header (i : HashIndex K) : HashIndex K := MkHashIndex (diskPSlots i) (diskOSlots i) (localStorage i) (indexHeaderForWriteTrx i) (indexHeaderForWriteTrx i).
Definition restore_header (i : HashIndex K) : HashIndex K := MkHashIndex (diskPSlots i) (diskOSlots i) (localStorage i) (indexHeaderForReadTrx i) (indexHeaderForReadTrx i).

Definition checkpointInMemory : M PrimaryKeyIndex unit :=
  indexChanged ← any_index HashIndexCheckpoint.checkpointInMemory (seq 0 NUM_INDEXES);
  if indexChanged : bool then modify (λ x, set_hashIndices (map publish_header (hashIndices x)) x) else mret tt.

(** The checkpoint of the disk array collection and the flush of the pages are not part of this state. *)
Definition checkpoint (startPage : Z) : M PrimaryKeyIndex unit :=
  indexChanged ← any_index (HashIndexCheckpoint.checkpoint reallocates std_sort) (seq 0 NUM_INDEXES);
  (if indexChanged : bool then writeHeaders startPage else mret tt) ;;
  checkpointInMemory.

Definition rollbackCheckpoint : M PrimaryKeyIndex unit :=
  for_each (seq 0 NUM_INDEXES) (λ i, on_index i HashIndexCheckpoint.rollbackCheckpoint) ;;
  modify (λ x, set_hashIndices (map restore_header (hashIndices x)) x).

Definition getDiskArrayFirstHeaderPage (x : PrimaryKeyIndex) : Z :=
  if (firstHeaderPage x =? INVALID_PAGE_IDX)%Z then INVALID_PAGE_IDX else (firstHeaderPage x + NUM_HEADER_PAGES)%Z.
End Index.
#[global] Arguments PrimaryKeyIndex : clear implicits.
End PrimaryKeyIndex.
