(* ===== verification/PrimaryKeySpec.v ===== *)
(** * The primary key index through checkpoints

    A hash index after a checkpoint that is published, and the loops of the primary key index over its hash indexes. *)

From stdpp Require Import base numbers list strings gmap.
From Stdlib Require Import ZArith Lia.
From S2P Require Import Prelude TransactionManager HashSlot HashSlotSpec InMemHashIndex HashChain HashGrow HashDirectory HashIndexSpec LocalHashIndex DiskArray HashIndex HashIndexCheckpoint HashIndexDisk HashDiskSplit HashDiskMerge PrimaryKeyIndex.
Import HashSlot InMemHashIndex LocalHashIndex VersionedArray HashIndex HashIndexCheckpoint PrimaryKeyIndex.

#[local] Open Scope nat_scope.

Section Cycle.
Context {K : Type} `{HK : IndexHashable K} `{Hok : !IndexHashableOk K}.
Variable reallocates : nat → bool.
Variable std_sort : list (HashIndexEntryView K) → list (HashIndexEntryView K).
Hypothesis sort_permutes : ∀ l, std_sort l ≡ₚ l.
Implicit Types (x : HashIndex K) (ls ps es : list (SlotEntry K)).

(** ** One hash index *)

(** What is on disk does not depend on the bound of lost slots. *)
Lemma persists_lost (d d' : LostSlots) (y : InMemHashIndex K) es : numFreeSlots y = 0%Z → persists (Hlost := d) y es → persists (Hlost := d') y es.
Proof.
  intros Hn [(C & B & [[H1 H2 H3 H4 H5] Hc] & HB)|H]; [left|right; exact H]. exists C, B. split; [|exact HB]. split; [|exact Hc]. split; try assumption.
  destruct H2 as [S1 S2 S3 S4 S5 S6 S7 S8]. split; try assumption. rewrite Hn. pose proof (lost_range (LostSlots := d')). cbn [length]. lia.
Qed.

Lemma publish_quiet x : quiet x → publish_header x = x.
Proof. intros [_ _ H]. destruct x as [p o s hr hw]. cbn in H. unfold publish_header. cbn. congruence. Qed.

(** The slots of a new version become everybody's, and the local storage is cleared. *)
Lemma publish_run (d d' : LostSlots) x ls es :
  represents (Hlost := d) (localInsertions (localStorage x)) ls → hasUpdates (localStorage x) = true → persists (Hlost := d) (version true x) es →
  (numFreeSlots (localInsertions (localStorage x)) ≤ lost (LostSlots := d'))%Z →
  ∃ x1, HashIndexCheckpoint.checkpointInMemory x = (Ok true, x1) ∧ indexHeaderForWriteTrx x1 = indexHeaderForWriteTrx x ∧ let x' := publish_header x1 in
    layered (Hlost := d') x' [] [] es ∧ quiet x' ∧ current (diskPSlots x') = current (diskPSlots x) ∧ current (diskOSlots x') = current (diskOSlots x) ∧
    length (pSlots (localInsertions (localStorage x'))) = 16 ∧ oSlots (localInsertions (localStorage x')) = [] ∧ insertions_size (localStorage x') = 0%Z.
Proof.
  intros Hl Hup Hp Hnf. pose proof (free_slots_range (Hlost := d) _ _ Hl) as Hr. destruct (clear_run (Hlost := d') (localInsertions (localStorage x)) ltac:(lia)) as (i' & Hrun & Hi & Hip & Hio & Hic).
  set (x1 := set_diskOSlots (VersionedArray.checkpointInMemory (diskOSlots x)) (set_diskPSlots (VersionedArray.checkpointInMemory (diskPSlots x)) x)).
  set (x2 := set_localStorage (set_localDeletions [] (set_localInsertions i' (localStorage x))) x1). exists x2. split.
  - unfold HashIndexCheckpoint.checkpointInMemory. rewrite (M_bind_ok get_state _ x x x eq_refl), Hup. cbn [negb]. 
    rewrite (M_bind_ok (modify (λ x, set_diskOSlots (VersionedArray.checkpointInMemory (diskOSlots x)) (set_diskPSlots (VersionedArray.checkpointInMemory (diskPSlots x)) x))) _ x tt x1 eq_refl).
    rewrite (M_bind_ok _ _ x1 tt x2); [reflexivity|]. apply on_local_run. unfold LocalHashIndex.clear. change (localStorage x1) with (localStorage x). rewrite (M_bind_ok _ _ _ _ _ (on_insertions_run _ _ _ _ Hrun)). reflexivity.
  - split; [reflexivity|]. cbn zeta. split; [|split; [split; reflexivity|]; split_and!; [reflexivity|reflexivity|exact Hip|exact Hio|exact Hic]]. split; [reflexivity|exact Hi|]. apply (persists_lost d d'); [reflexivity|exact Hp].
Qed.

Lemma cycle_run (d d' : LostSlots) x ls ps :
  ready (Hlost := d) x ls ps → (numFreeSlots (localInsertions (localStorage x)) ≤ lost (LostSlots := d'))%Z →
  ∃ b x1 x2, HashIndexCheckpoint.checkpoint reallocates std_sort x = (Ok b, x1) ∧ HashIndexCheckpoint.checkpointInMemory x1 = (Ok b, x2) ∧ indexHeaderForWriteTrx x2 = indexHeaderForWriteTrx x1 ∧ let x' := publish_header x2 in
    if b : bool then
      layered (Hlost := d') x' [] [] (ls ++ ps) ∧ quiet x' ∧ Z.of_nat (length (current (diskPSlots x'))) = demand x ∧
      (Z.of_nat (length (current (diskOSlots x'))) ≤ Z.of_nat (length (current (diskOSlots x))) + demand x * Z.of_nat (length ps) + Z.of_nat (length ls))%Z ∧
      length (pSlots (localInsertions (localStorage x'))) = 16 ∧ oSlots (localInsertions (localStorage x')) = [] ∧ insertions_size (localStorage x') = 0%Z
    else x1 = x ∧ x' = x ∧ x2 = x ∧ insertions_size (localStorage x) = 0%Z.
Proof.
  intros H Hnf. destruct (checkpoint_run (Hlost := d) reallocates std_sort sort_permutes x ls ps H) as (x1 & Hrun & Hp & Hf & Hsz). assert (Hl : localStorage x1 = localStorage x) by (injection Hf; auto).
  exists (hasUpdates (localStorage x)), x1. destruct (hasUpdates (localStorage x)) eqn:Hup.
  - destruct (publish_run d d' x1 ls (ls ++ ps)) as (x2 & Hrun2 & Hh2 & H2 & Hq & Hcp & Hco & Hrest); [rewrite Hl; apply (rd_layers _ _ _ H)|rewrite Hl; exact Hup|exact Hp|rewrite Hl; exact Hnf|].
    exists x2. split; [exact Hrun|]. split; [exact Hrun2|]. split; [exact Hh2|]. cbn zeta. rewrite Hcp, Hco. split; [exact H2|]. split; [exact Hq|]. destruct Hsz. split; [assumption|]. split; assumption.
  - subst x1. exists x. split; [exact Hrun|]. split; [unfold HashIndexCheckpoint.checkpointInMemory; rewrite (M_bind_ok get_state _ x x x eq_refl), Hup; reflexivity|]. split; [reflexivity|]. cbn zeta. split; [reflexivity|].
    split; [apply publish_quiet, H|]. split; [reflexivity|]. unfold hasUpdates in Hup. apply negb_false_iff, andb_true_iff in Hup as [E _]. apply Z.eqb_eq. exact E.
Qed.

(** ** All hash indexes *)

Implicit Types X : PrimaryKeyIndex K.

Lemma on_index_run {A} pos (m : M (HashIndex K) A) X x r x' : hashIndices X !! pos = Some x → m x = (r, x') → on_index pos m X = (r, set_hashIndices (<[pos := x']> (hashIndices X)) X).
Proof. intros Hx Hm. unfold on_index. rewrite Hx, Hm. reflexivity. Qed.

(** [X'] is [X] with other hash indexes. *)
Definition reindexed X X' : Prop := firstHeaderPage X' = firstHeaderPage X ∧ headerPages X' = headerPages X ∧ length (hashIndices X') = length (hashIndices X).

(** The loop runs the operation on every index of the list. *)
Lemma any_index_run (m : M (HashIndex K) bool) (b : nat → bool) (f : nat → HashIndex K) : ∀ ids X,
  NoDup ids → (∀ i, i ∈ ids → ∃ x, hashIndices X !! i = Some x ∧ m x = (Ok (b i), f i)) →
  ∃ X', any_index m ids X = (Ok (existsb b ids), X') ∧ reindexed X X' ∧
    (∀ i, i ∈ ids → hashIndices X' !! i = Some (f i)) ∧ (∀ i, i ∉ ids → hashIndices X' !! i = hashIndices X !! i).
Proof.
  intros ids. induction ids as [|i ids IH]; intros X Hnd H; cbn [any_index existsb].
  { exists X. split; [reflexivity|]. split; [split; auto|]. split; [intros i Hi; inversion Hi|auto]. }
  apply NoDup_cons in Hnd as [Hi Hnd]. destruct (H i ltac:(left)) as (x & Hx & Hm). rewrite (M_bind_ok _ _ _ _ _ (on_index_run i m X x _ _ Hx Hm)). set (X1 := set_hashIndices _ X). pose proof (lookup_lt_Some _ _ _ Hx) as Hlt.
  destruct (IH X1 Hnd) as (X' & Hrun & (Hr1 & Hr2 & Hr3) & Hin & Hout).
  - intros j Hj. destruct (H j ltac:(right; exact Hj)) as (y & Hy & Hmy). exists y. split; [|exact Hmy]. cbn. rewrite list_lookup_insert_ne by (intros ->; contradiction). exact Hy.
  - rewrite (M_bind_ok _ _ _ _ _ Hrun). exists X'. split; [reflexivity|]. split; [split_and!; [exact Hr1|exact Hr2|rewrite Hr3; cbn; apply length_insert]|]. split.
    + intros j Hj. apply elem_of_cons in Hj as [->|Hj]; [|exact (Hin j Hj)]. rewrite (Hout i Hi). cbn. apply list_lookup_insert_eq. exact Hlt.
    + intros j Hj. apply not_elem_of_cons in Hj as [Hne Hj]. rewrite (Hout j Hj). cbn. apply list_lookup_insert_ne. congruence.
Qed.

(** ** Header pages *)

Definition headers_of X : list HashIndexHeader := map indexHeaderForWriteTrx (hashIndices X).

Lemma chunks_two {A} (l : list A) n : length l = 2 * n → concat (map (λ j, take n (drop (j * n) l)) (seq 0 2)) = l.
Proof.
  intros Hl. cbn [seq map concat]. rewrite app_nil_r, Nat.mul_0_l, Nat.mul_1_l, drop_0. rewrite (take_ge (drop n l)) by (rewrite length_drop; lia). apply take_drop.
Qed.

Lemma writeHeaders_run startPage X :
  length (hashIndices X) = NUM_INDEXES →
  ∃ X', writeHeaders startPage X = (Ok tt, X') ∧ hashIndices X' = hashIndices X ∧ firstHeaderPage X' = (if (firstHeaderPage X =? INVALID_PAGE_IDX)%Z then startPage else firstHeaderPage X) ∧
    length (headerPages X') = INDEX_HEADER_PAGES ∧ (∀ page, page ∈ headerPages X' → length page = INDEX_HEADERS_PER_PAGE) ∧ concat (headerPages X') = map write (headers_of X).
Proof.
  intros Hlen. unfold writeHeaders. set (X1 := if (firstHeaderPage X =? INVALID_PAGE_IDX)%Z then set_firstHeaderPage startPage X else X).
  rewrite (M_bind_ok (modify (λ Y, if (firstHeaderPage Y =? INVALID_PAGE_IDX)%Z then set_firstHeaderPage startPage Y else Y)) _ X tt X1 eq_refl), (M_bind_ok get_state _ X1 X1 X1 eq_refl). cbn zeta.
  assert (Hi : hashIndices X1 = hashIndices X) by (unfold X1; destruct (_ =? _)%Z; reflexivity). rewrite Hi, take_ge by lia. set (hs := map (λ i, write (indexHeaderForWriteTrx i)) (hashIndices X)).
  assert (Hhs : length hs = 2 * INDEX_HEADERS_PER_PAGE) by (unfold hs; rewrite length_map, Hlen; reflexivity). set (pages := map (λ j, take INDEX_HEADERS_PER_PAGE (drop (j * INDEX_HEADERS_PER_PAGE) hs)) (seq 0 INDEX_HEADER_PAGES)).
  assert (Hpages : concat pages = hs) by exact (chunks_two hs INDEX_HEADERS_PER_PAGE Hhs). rewrite (M_bind_ok (put_state (set_headerPages pages X1)) _ X1 tt _ eq_refl). rewrite Hpages, Hhs.
  eexists. split; [reflexivity|]. split; [exact Hi|]. split; [unfold X1; destruct (_ =? _)%Z; reflexivity|]. split; [reflexivity|]. split.
  - intros page Hp. change (headerPages _) with pages in Hp. unfold pages, INDEX_HEADER_PAGES in Hp. cbn [seq map] in Hp. rewrite !elem_of_cons, elem_of_nil in Hp. destruct Hp as [->|[->|[]]]; rewrite length_take, length_drop; lia.
  - cbn [headerPages set_headerPages]. rewrite Hpages. unfold hs, headers_of. rewrite map_map. reflexivity.
Qed.
End Cycle.

(** * Sequences of operations on a primary key index

    One hash index between and across checkpoints, against a finite map of its keys. *)

(** ** Entries and maps *)

Section Sizes.
Context {K : Type} `{HK : IndexHashable K} `{Hok : !IndexHashableOk K} `{Countable K}.
Implicit Types (es : list (SlotEntry K)) (m : gmap K Z).

Lemma entries_of_size m es : entries_of m es → length es = size m.
Proof.
  intros [Hnd He]. set (l := map (λ e, (key e, value e)) es). assert (Hl : l.*1 = key <$> es) by (unfold l; rewrite <- list_fmap_compose; reflexivity).
  assert (Hm : list_to_map l = m).
  { apply map_eq. intros k. apply option_eq. intros v. rewrite <- elem_of_list_to_map by (rewrite Hl; exact Hnd). rewrite <- He. unfold l. rewrite list_elem_of_fmap. split.
    - intros ([k' v'] & E & Hin). cbn in E. injection E as <- <-. exact Hin.
    - intros Hin. exists (MkEntry k v). auto. }
  rewrite <- Hm, <- length_map_to_list, (map_to_list_to_map l) by (rewrite Hl; exact Hnd). unfold l. rewrite length_map. reflexivity.
Qed.

Lemma entries_of_lookup m es (k : K) v : entries_of m es → MkEntry k v ∈ es → m !! k = Some v.
Proof. intros [_ He] Hin. apply He, Hin. Qed.

(** The slots an index with [c] entries gets in a checkpoint. *)
Definition slots_needed (c : nat) : Z := Z.max ((getNumRequiredEntries (Z.of_nat c) + Z.of_nat (SLOT_CAPACITY K) - 1) / Z.of_nat (SLOT_CAPACITY K)) SLOTS_PER_PAGE.

Lemma slots_needed_mono c c' : c ≤ c' → (slots_needed c ≤ slots_needed c')%Z.
Proof.
  intros Hc. pose proof (capacity_range (K := K)). unfold slots_needed, getNumRequiredEntries. assert ((3 * Z.of_nat c + 1) / 2 ≤ (3 * Z.of_nat c' + 1) / 2)%Z by (apply Z.div_le_mono; lia).
  apply Z.max_le_compat_r, Z.div_le_mono; lia.
Qed.

Lemma slots_needed_bound c : (Z.of_nat c < 2 ^ 32)%Z → (16 ≤ slots_needed c ≤ 16 + 2 * Z.of_nat c)%Z.
Proof.
  intros Hc. pose proof (slots_for_bound (K := K) (Z.of_nat c) ltac:(lia)) as Hb. unfold slots_for in Hb. rewrite uwrap_small in Hb by lia. unfold slots_needed, SLOTS_PER_PAGE. lia.
Qed.
End Sizes.

(** ** One hash index *)

Section Sub.
Context {K : Type} `{HK : IndexHashable K} `{Hok : !IndexHashableOk K} `{Countable K}.
Variable reallocates : nat → bool.
Variable std_sort : list (HashIndexEntryView K) → list (HashIndexEntryView K).
Hypothesis sort_permutes : ∀ l, std_sort l ≡ₚ l.
Implicit Types (x : HashIndex K) (ls ps es : list (SlotEntry K)) (m : gmap K Z).

Abbreviation needed := (slots_needed (K := K)).

(** A hash index with the entries of [m], [c] of them on disk, after [n] of at most [N] operations. *)
Record run_state (d : LostSlots) (N n : nat) x m ls ps : Prop := {
  rs_layers : layered (Hlost := d) x [] ls ps;
  rs_quiet : quiet x;
  rs_map : entries_of m (ls ++ ps);
  rs_small : small N n (localInsertions (localStorage x)) ls;
  rs_size : insertions_size (localStorage x) = Z.of_nat (length ls);
  rs_count : length ls + length ps ≤ n;
  rs_slots : ps = [] ∧ current (diskPSlots x) = [] ∧ indexHeaderForReadTrx x = HashIndexHeader_new ∨ Z.of_nat (length (current (diskPSlots x))) = needed (length ps);
  rs_overflow : (Z.of_nat (length (current (diskOSlots x))) ≤ Z.of_nat n * 2 ^ 32)%Z;
  rs_lost : (lost (LostSlots := d) ≤ Z.of_nat n * 2 ^ 32)%Z;
}.
Definition tracks (N n : nat) x m (c : nat) : Prop := ∃ d ls ps, run_state d N n x m ls ps ∧ length ps = c.

Lemma tracks_later N n n' x m c : n ≤ n' → tracks N n x m c → tracks N n' x m c.
Proof. intros Hn (d & ls & ps & [H1 H2 H3 H4 H5 H6 H7 H8 H9] & Hc). exists d, ls, ps. split; [|exact Hc]. split; try assumption; try lia. exact (small_later N n n' _ _ Hn H4). Qed.

Lemma visible_all (k : K) es v : MkEntry k v ∈ es → visible k (λ _, true) es.
Proof. intros Hin. exists (MkEntry k v). auto. Qed.

Lemma sub_lookup N n x m c k : tracks N n x m c → lookupInternal Transaction.WRITE k (λ _, true) x = (Ok (m !! k), x).
Proof.
  intros (d & ls & ps & H0 & _). pose proof (rs_map _ _ _ _ _ _ _ H0) as Hm. destruct (lookup_plain_run (Hlost := d) x ls ps k (λ _, true) Transaction.WRITE (rs_layers _ _ _ _ _ _ _ H0) ltac:(discriminate)) as (r & Hrun & Hr).
  rewrite Hrun. f_equal. f_equal. destruct r as [v|]; [symmetry; apply (entries_of_lookup m (ls ++ ps)); [exact Hm|apply Hr]|]. symmetry. apply eq_None_not_Some. rewrite <- (entries_of_visible m _ k Hm). exact Hr.
Qed.

Lemma sub_insert N n x m c k v :
  tracks N n x m c → n < N → (Z.of_nat N ≤ 2 ^ 14)%Z →
  ∃ s, let x' := set_localStorage s x in insertInternal Transaction.WRITE k v (λ _, true) x = (Ok (bool_decide (m !! k = None)), x') ∧ tracks N (S n) x' (if decide (m !! k = None) then <[k := v]> m else m) c.
Proof.
  intros (d & ls & ps & H0 & Hc) Hn HN. pose proof H0 as [H1 H2 H3 H4 H5 H6 H7 H8 H9].
  destruct (insert_plain_run (Hlost := d) N n x ls ps k v (λ _, true) Transaction.WRITE H1 ltac:(discriminate) H4 Hn HN) as (b & s & Hrun & Hb & Hl & Hs & Hz). rewrite (entries_of_visible m _ k H3) in Hb.
  exists s. cbn zeta. assert (Hbm : b = bool_decide (m !! k = None)) by (apply eq_true_iff_eq; rewrite Hb, bool_decide_eq_true, eq_None_not_Some; reflexivity). rewrite <- Hbm. split; [exact Hrun|].
  exists d, (if b then MkEntry k v :: ls else ls), ps. split; [|exact Hc]. split; try assumption; try lia.
  - destruct H2. split; assumption.
  - destruct b; symmetry in Hbm; [apply bool_decide_eq_true in Hbm; rewrite decide_True by exact Hbm; exact (entries_of_insert m _ k v H3 Hbm)|apply bool_decide_eq_false in Hbm; rewrite decide_False by exact Hbm; exact H3].
  - cbn. rewrite Hz, H5. destruct b; cbn [length]; lia.
  - destruct b; cbn [length]; lia.
  - cbn. lia.
Qed.

(** What a checkpoint asks for. *)
Lemma run_demand d N n x m ls ps : run_state d N n x m ls ps → (Z.of_nat n ≤ 2 ^ 14)%Z → demand x = needed (length ls + length ps).
Proof.
  intros [[_ _ Hp] [Hq1 Hq2 Hq3] _ _ Hz Hc Hs _ _] Hn. unfold demand, numRequiredSlots. rewrite Hz.
  assert (Hcount : headerNumEntries (indexHeaderForWriteTrx x) = Z.of_nat (length ps)).
  { rewrite Hq3. destruct Hp as [(C & B & [_ Hcnt] & HB)|(-> & _ & _ & Hh)]; [rewrite HB; exact Hcnt|cbn in Hh; rewrite Hh; reflexivity]. }
  rewrite Hcount, uwrap_small by lia. rewrite <- Nat2Z.inj_add, (Nat.add_comm (length ps)). fold (needed (length ls + length ps)). set (q := (_ / _)%Z). rewrite Z.shiftl_1_l.
  assert (Hlev : (2 ^ currentLevel (indexHeaderForWriteTrx x) ≤ Z.max q SLOTS_PER_PAGE)%Z); [|unfold slots_needed; fold q; lia].
  change (Z.max q SLOTS_PER_PAGE) with (needed (length ls + length ps)). pose proof (slots_needed_mono (K := K) (length ps) (length ls + length ps) ltac:(lia)) as Hmono. pose proof (slots_needed_bound (K := K) (length ps) ltac:(lia)) as Hb.
  destruct Hs as [(_ & _ & Hh)|Hs]; [rewrite Hq3, Hh; cbn; lia|]. destruct Hp as [(C & B & [Hd _] & HB)|(-> & Hp & _)].
  - pose proof (dr_header _ _ _ _ _ Hd) as [_ _ _ Hns Hsl]. cbn [version elements indexHeader pSlots] in Hns, Hsl. rewrite <- Hq1, Hs in Hsl. rewrite Hq3. lia.
  - cbn in Hp. rewrite <- Hq1 in Hp. rewrite Hp in Hs. cbn [length] in Hs, Hb. lia.
Qed.

Lemma run_ready d N n x m ls ps :
  run_state d N n x m ls ps → n ≤ N → (Z.of_nat N ≤ 2 ^ 14)%Z → ps = [] ∨ (needed (length ls + length ps) ≤ 2 * needed (length ps))%Z → ready (Hlost := d) x ls ps.
Proof.
  intros H0 Hn HN Hdbl. pose proof (run_demand d N n x m ls ps H0 ltac:(lia)) as Hd. pose proof H0 as [H1 H2 H3 H4 H5 H6 H7 H8 H9].
  pose proof (slots_needed_bound (K := K) (length ls + length ps) ltac:(lia)) as Hb. pose proof (slots_needed_mono (K := K) (length ps) (length ls + length ps) ltac:(lia)) as Hmono.
  split; rewrite ?Hd; try assumption.
  - destruct H7 as [(-> & -> & _)| ->]; cbn [length] in *; lia.
  - destruct H7 as [(-> & _)| ->]; [left; reflexivity|exact Hdbl].
  - assert (needed (length ls + length ps) * Z.of_nat (length ps) ≤ 2 ^ 16 * 2 ^ 14)%Z by (apply Z.mul_le_mono_nonneg; lia). unfold INVALID_OVERFLOW_SLOT_ID. lia.
  - rewrite H5. lia.
Qed.

Lemma lost_bound (n : nat) : n ≤ Z.to_nat (2 ^ 14) → (0 ≤ Z.of_nat n * 2 ^ 32 < 2 ^ 62)%Z.
Proof. lia. Qed.

Lemma sub_cycle N n x m c :
  tracks N n x m c → n < N → (Z.of_nat N ≤ 2 ^ 14)%Z → c = 0 ∨ (needed (size m) ≤ 2 * needed c)%Z →
  ∃ b x1 x2, HashIndexCheckpoint.checkpoint reallocates std_sort x = (Ok b, x1) ∧ HashIndexCheckpoint.checkpointInMemory x1 = (Ok b, x2) ∧ tracks N (S n) (publish_header x2) m (size m) ∧
    indexHeaderForWriteTrx x2 = indexHeaderForWriteTrx x1 ∧ (b = false → x1 = x ∧ x2 = x ∧ publish_header x = x).
Proof.
  intros (d & ls & ps & H0 & <-) Hn HN Hdbl. pose proof H0 as [H1 H2 H3 H4 H5 H6 H7 H8 H9]. pose proof (entries_of_size m _ H3) as Hsz. rewrite length_app in Hsz.
  assert (Hready : ready (Hlost := d) x ls ps). { apply (run_ready d N n x m); try assumption; [lia|]. rewrite Hsz. destruct Hdbl as [E|E]; [left; apply nil_length_inv, E|right; exact E]. }
  set (d' := {| lost := Z.of_nat (S n) * 2 ^ 32; lost_range := lost_bound (S n) ltac:(lia) |}). pose proof (free_slots_range (Hlost := d) _ _ (ly_local _ _ _ _ H1)) as Hf. pose proof (small_overflow N n _ _ H4 ltac:(lia) HN) as Hov.
  destruct (cycle_run reallocates std_sort sort_permutes d d' x ls ps Hready) as (b & x1 & x2 & Hrun1 & Hrun2 & Hh2 & Hres); [cbn [lost d']; lia|].
  exists b, x1, x2. split; [exact Hrun1|]. split; [exact Hrun2|]. cbn zeta in Hres. pose proof (run_demand d N n x m ls ps H0 ltac:(lia)) as Hd. destruct b.
  - destruct Hres as (Q1 & Q2 & Q3 & Q4 & Q5 & Q6 & Q7). split; [|split; [exact Hh2|discriminate]]. exists d', [], (ls ++ ps). rewrite length_app. split; [|exact Hsz].
    pose proof (slots_needed_bound (K := K) (length ls + length ps) ltac:(lia)) as Hb. rewrite Hd in Q3, Q4.
    assert (needed (length ls + length ps) * Z.of_nat (length ps) ≤ 2 ^ 16 * 2 ^ 14)%Z by (apply Z.mul_le_mono_nonneg; lia).
    split; try assumption; rewrite ?length_app; cbn [length]; try lia.
    + apply (small_later N 0); [lia|]. apply small_fresh; assumption.
    + cbn [lost d']. lia.
  - destruct Hres as (E1 & E2 & E3 & E4). split; [|split; [exact Hh2|intros _; split; [exact E1|split; [exact E3|congruence]]]]. rewrite E2. rewrite H5 in E4. assert (ls = []) as -> by (apply nil_length_inv; lia). cbn [length app] in *.
    apply (tracks_later N n); [lia|]. exists d, [], ps. split; [exact H0|lia].
Qed.
End Sub.
