(* ===== verification/PrimaryKeyTheorems.v ===== *)
(** * Theorems of the primary key index

    Any sequence of insertions, lookups and checkpoints does what it does on a finite map; an index that is opened from the pages of a checkpoint
    has the entries of the one that wrote them; inserting rows at commit. *)

From stdpp Require Import base numbers list gmap strings.
From Stdlib Require Import ZArith Lia.
From S2P Require Import Prelude TransactionManager HashSlot HashSlotSpec InMemHashIndex HashChain HashGrow HashDirectory HashIndexSpec LocalHashIndex DiskArray HashIndex HashIndexCheckpoint HashIndexDisk HashDiskSplit HashDiskMerge PrimaryKeyIndex PrimaryKeySpec.
Import HashSlot LocalHashIndex VersionedArray HashIndex HashIndexCheckpoint PrimaryKeyIndex.

#[local] Open Scope nat_scope.

Section Refinement.
Context {K : Type} `{HK : IndexHashable K} `{Hok : !IndexHashableOk K} `{Countable K}.
Variable reallocates : nat → bool.
Variable std_sort : list (HashIndexEntryView K) → list (HashIndexEntryView K).
Variable startPage : Z.
Implicit Types (X : PrimaryKeyIndex K) (m : gmap K Z).

(** ** Operations and their specification *)

Inductive op := Insert (k : K) (v : Z) | Lookup (k : K) | Checkpoint.
Inductive result := Done (b : bool) | Value (v : option Z) | Checkpointed.

(** Every row is visible. *)
Definition exec (o : op) : M (PrimaryKeyIndex K) result :=
  match o with
  | Insert k v => b ← insert Transaction.WRITE k v (λ _, true); mret (Done b)
  | Lookup k => v ← lookup Transaction.WRITE k (λ _, true); mret (Value v)
  | Checkpoint => checkpoint reallocates std_sort startPage ;; mret Checkpointed
  end.
Fixpoint exec_all (os : list op) : M (PrimaryKeyIndex K) (list result) :=
  match os with [] => mret [] | o :: os' => r ← exec o; rs ← exec_all os'; mret (r :: rs) end.

(** A map of the entries, and the map at the last checkpoint. *)
Definition spec (o : op) (s : gmap K Z * gmap K Z) : result * (gmap K Z * gmap K Z) :=
  let '(m, disk) := s in
  match o with
  | Insert k v => if decide (m !! k = None) then (Done true, (<[k := v]> m, disk)) else (Done false, (m, disk))
  | Lookup k => (Value (m !! k), (m, disk))
  | Checkpoint => (Checkpointed, (m, m))
  end.
Fixpoint spec_all (os : list op) (s : gmap K Z * gmap K Z) : list result :=
  match os with [] => [] | o :: os' => let '(r, s') := spec o s in r :: spec_all os' s' end.

(** The entries of one hash index. *)
Definition part (pos : nat) m : gmap K Z := filter (λ q : K * Z, position q.1 = pos) m.

(** No checkpoint has more than twice the slots of a hash index that has entries on disk. *)
Definition gentle (s : gmap K Z * gmap K Z) : bool :=
  forallb (λ pos, (size (part pos s.2) =? 0) || (slots_needed (K := K) (size (part pos s.1)) <=? 2 * slots_needed (K := K) (size (part pos s.2)))%Z) (seq 0 NUM_INDEXES).
Fixpoint gentle_all (os : list op) (s : gmap K Z * gmap K Z) : bool :=
  match os with [] => true | o :: os' => (match o with Checkpoint => gentle s | _ => true end) && gentle_all os' (spec o s).2 end.

(** ** The simulation *)

Record pk_tracks (N n : nat) X (s : gmap K Z * gmap K Z) : Prop := {
  pt_length : length (hashIndices X) = NUM_INDEXES;
  pt_tracks : ∀ pos x, hashIndices X !! pos = Some x → tracks N n x (part pos s.1) (size (part pos s.2));
}.

Lemma position_range (k : K) : position k < NUM_INDEXES.
Proof.
  unfold position, NUM_INDEXES, getHashIndexPosition. change (NUM_HASH_INDEXES - 1)%Z with (Z.ones 8). rewrite Z.land_ones by lia. pose proof (Z.mod_pos_bound (Z.shiftr (hash k) (64 - NUM_HASH_INDEXES_LOG2)) (2 ^ 8) ltac:(lia)).
  change NUM_HASH_INDEXES with (2 ^ 8)%Z. lia.
Qed.

Lemma part_lookup k m : part (position k) m !! k = m !! k.
Proof. unfold part. rewrite map_lookup_filter. destruct (m !! k); [|reflexivity]. cbn. rewrite option_guard_True by reflexivity. reflexivity. Qed.

Lemma part_insert pos k v m : m !! k = None → part pos (<[k := v]> m) = if decide (pos = position k) then <[k := v]> (part pos m) else part pos m.
Proof.
  intros Hk. unfold part. rewrite map_filter_insert. cbn. destruct (decide (pos = position k)) as [->|Hne]; [rewrite decide_True by reflexivity; reflexivity|]. rewrite decide_False by congruence. rewrite delete_id by exact Hk. reflexivity.
Qed.

Lemma pk_index N n X s k : pk_tracks N n X s → ∃ x, hashIndices X !! position k = Some x ∧ tracks N n x (part (position k) s.1) (size (part (position k) s.2)).
Proof. intros [Hl Ht]. destruct (lookup_lt_is_Some_2 (hashIndices X) (position k)) as [x Hx]; [rewrite Hl; apply position_range|]. eauto. Qed.

Lemma pk_lookup_step N n X s k : pk_tracks N n X s → exec (Lookup k) X = (Ok (spec (Lookup k) s).1, X).
Proof.
  intros Hp. destruct s as [m disk]. destruct (pk_index N n X _ k Hp) as (x & Hx & Ht). cbn [exec spec fst]. rewrite (M_bind_ok _ _ X (m !! k) X); [reflexivity|].
  unfold lookup. rewrite (on_index_run _ _ X x _ _ Hx (sub_lookup _ _ _ _ _ k Ht)). cbn [fst]. rewrite part_lookup, (list_insert_id _ _ _ Hx). destruct X; reflexivity.
Qed.

Lemma pk_insert_step N n X s k v :
  pk_tracks N n X s → n < N → (Z.of_nat N ≤ 2 ^ 14)%Z → 
  ∃ X', exec (Insert k v) X = (Ok (spec (Insert k v) s).1, X') ∧ pk_tracks N (S n) X' (spec (Insert k v) s).2 ∧
    ∃ x st, hashIndices X !! position k = Some x ∧ X' = set_hashIndices (<[position k := set_localStorage st x]> (hashIndices X)) X.
Proof.
  intros Hp Hn HN. destruct s as [m disk]. destruct (pk_index N n X _ k Hp) as (x & Hx & Ht). destruct (sub_insert N n x _ _ k v Ht Hn HN) as (st & Hrun & Ht'). set (x' := set_localStorage st x) in *. cbn [fst snd] in *. rewrite part_lookup in Hrun, Ht'.
  set (X' := set_hashIndices (<[position k := x']> (hashIndices X)) X). exists X'. cbn [exec spec]. unfold insert. rewrite (M_bind_ok _ _ _ _ _ (on_index_run _ _ X x _ _ Hx Hrun)).
  assert (Hother : ∀ m', (∀ pos, pos ≠ position k → part pos m' = part pos m) → tracks N (S n) x' (part (position k) m') (size (part (position k) disk)) → pk_tracks N (S n) X' (m', disk)).
  { intros m' Hm' Hk'. destruct Hp as [Hl Hall]. split; [cbn; rewrite length_insert; exact Hl|]. intros pos y Hy. cbn [fst snd]. cbn in Hy. destruct (decide (pos = position k)) as [->|Hne].
    - rewrite list_lookup_insert_eq in Hy by (apply lookup_lt_Some in Hx; exact Hx). injection Hy as <-. exact Hk'.
    - rewrite list_lookup_insert_ne in Hy by congruence. rewrite (Hm' pos Hne). apply (tracks_later N n); [lia|]. exact (Hall pos y Hy). }
  destruct (decide (m !! k = None)) as [Hk|Hk]; [rewrite bool_decide_eq_true_2 by exact Hk|rewrite bool_decide_eq_false_2 by exact Hk]; cbn [fst snd]; (split; [reflexivity|]); (split; [apply Hother|exists x, st; auto]).
  - intros pos Hne. rewrite part_insert, decide_False by assumption. reflexivity.
  - rewrite part_insert, decide_True by (assumption || reflexivity). exact Ht'.
  - reflexivity.
  - exact Ht'.
Qed.

Hypothesis sort_permutes : ∀ l, std_sort l ≡ₚ l.

(** A loop over all indexes, with the outcome on each of them. *)
Lemma all_indexes_run (op : M (HashIndex K) bool) (P : nat → HashIndex K → bool → HashIndex K → Prop) X :
  length (hashIndices X) = NUM_INDEXES → (∀ pos x, hashIndices X !! pos = Some x → ∃ b x', op x = (Ok b, x') ∧ P pos x b x') →
  ∃ b X', any_index op (seq 0 NUM_INDEXES) X = (Ok b, X') ∧ reindexed X X' ∧
    ∀ pos x, hashIndices X !! pos = Some x → ∃ b' x', op x = (Ok b', x') ∧ hashIndices X' !! pos = Some x' ∧ P pos x b' x' ∧ (b = false → b' = false).
Proof.
  intros Hl Hop. destruct (lookup_lt_is_Some_2 (hashIndices X) 0) as [x0 Hx0]; [rewrite Hl; apply Nat.ltb_lt; reflexivity|].
  set (at_ pos := default x0 (hashIndices X !! pos)). set (b pos := match (op (at_ pos)).1 with Ok b => b | Throw _ => false end). set (f pos := (op (at_ pos)).2).
  assert (Hat : ∀ pos x, hashIndices X !! pos = Some x → op x = (Ok (b pos), f pos) ∧ P pos x (b pos) (f pos)).
  { intros pos x Hx. destruct (Hop pos x Hx) as (b' & x' & Hrun & HP). assert (Ha : at_ pos = x) by (unfold at_; rewrite Hx; reflexivity). unfold b, f. rewrite Ha, Hrun. split; [reflexivity|exact HP]. }
  destruct (any_index_run op b f (seq 0 NUM_INDEXES) X (NoDup_seq _ _)) as (X' & Hrun & Hre & Hin & _).
  - intros i Hi. apply elem_of_seq in Hi. destruct (lookup_lt_is_Some_2 (hashIndices X) i) as [x Hx]; [lia|]. exists x. split; [exact Hx|]. apply (Hat i x Hx).
  - exists (existsb b (seq 0 NUM_INDEXES)), X'. split; [exact Hrun|]. split; [exact Hre|]. intros pos x Hx. pose proof (lookup_lt_Some _ _ _ Hx) as Hlt. rewrite Hl in Hlt. destruct (Hat pos x Hx) as [Hrun' HP].
    assert (Hpos : pos ∈ seq 0 NUM_INDEXES) by (apply elem_of_seq; lia). exists (b pos), (f pos). split; [exact Hrun'|]. split; [exact (Hin pos Hpos)|]. split; [exact HP|].
    intros E. destruct (b pos) eqn:Eb; [|reflexivity]. rewrite <- E. symmetry. apply existsb_exists. exists pos. split; [apply list_elem_of_In; exact Hpos|exact Eb].
Qed.

(** What one checkpoint does to a hash index of the primary key index: [x1] after its checkpoint, and [x2] after the one in memory. *)
Definition cycled N n (s : gmap K Z * gmap K Z) (pos : nat) (x : HashIndex K) (b : bool) (x1 : HashIndex K) : Prop :=
  ∃ x2, HashIndexCheckpoint.checkpointInMemory x1 = (Ok b, x2) ∧ tracks N (S n) (publish_header x2) (part pos s.1) (size (part pos s.1)) ∧
    indexHeaderForWriteTrx x2 = indexHeaderForWriteTrx x1 ∧ (b = false → x1 = x ∧ x2 = x ∧ publish_header x = x).

(** The header pages hold these headers. *)
Record paged X (headers : list HashIndexHeader) : Prop := {
  pg_pages : length (headerPages X) = INDEX_HEADER_PAGES;
  pg_full : ∀ page, page ∈ headerPages X → length page = INDEX_HEADERS_PER_PAGE;
  pg_headers : concat (headerPages X) = map write headers;
}.

Lemma pk_checkpoint_disk N n X s :
  pk_tracks N n X s → n < N → (Z.of_nat N ≤ 2 ^ 14)%Z → gentle s = true →
  ∃ b X1 X2, any_index (HashIndexCheckpoint.checkpoint reallocates std_sort) (seq 0 NUM_INDEXES) X = (Ok b, X1) ∧ (if b : bool then writeHeaders startPage else mret tt) X1 = (Ok tt, X2) ∧
    length (hashIndices X2) = NUM_INDEXES ∧
    (∀ pos x1, hashIndices X2 !! pos = Some x1 → ∃ x b', hashIndices X !! pos = Some x ∧ cycled N n s pos x b' x1 ∧ (b = false → b' = false)) ∧
    if b : bool then firstHeaderPage X2 = (if (firstHeaderPage X =? INVALID_PAGE_IDX)%Z then startPage else firstHeaderPage X) ∧ paged X2 (headers_of X2) else firstHeaderPage X2 = firstHeaderPage X ∧ headerPages X2 = headerPages X.
Proof.
  intros [Hl Hall] Hn HN Hg. destruct (all_indexes_run (HashIndexCheckpoint.checkpoint reallocates std_sort) (cycled N n s) X Hl) as (b & X1 & Hrun1 & (Hr1 & Hr2 & Hr3) & H1).
  { intros pos x Hx. pose proof (lookup_lt_Some _ _ _ Hx) as Hlt. unfold gentle in Hg. rewrite forallb_forall in Hg. specialize (Hg pos ltac:(apply in_seq; lia)).
    destruct (sub_cycle reallocates std_sort sort_permutes N n x _ _ (Hall pos x Hx) Hn HN) as (b & x1 & x2 & Hr & Hr' & Ht & Hh & Hb).
    - apply orb_true_iff in Hg as [E|E]; [left; apply Nat.eqb_eq, E|right; apply Z.leb_le, E].
    - exists b, x1. split; [exact Hr|]. exists x2. auto. }
  assert (Hback : ∀ pos x1, hashIndices X1 !! pos = Some x1 → ∃ x b', hashIndices X !! pos = Some x ∧ cycled N n s pos x b' x1 ∧ (b = false → b' = false)).
  { intros pos x1 Hx1. pose proof (lookup_lt_Some _ _ _ Hx1) as Hlt. destruct (lookup_lt_is_Some_2 (hashIndices X) pos ltac:(lia)) as [x Hx]. destruct (H1 pos x Hx) as (b' & x1' & _ & Hx1' & Hc & Hb).
    rewrite Hx1 in Hx1'. injection Hx1' as ->. eauto. }
  exists b, X1. destruct b.
  - destruct (writeHeaders_run startPage X1 ltac:(lia)) as (X2 & Hw & Hi & Hf & Hp1 & Hp2 & Hp3). exists X2. rewrite Hi. split; [exact Hrun1|]. split; [exact Hw|]. split; [lia|]. split; [exact Hback|].
    rewrite Hr1 in Hf. split; [exact Hf|]. split; [exact Hp1|exact Hp2|]. unfold headers_of. rewrite Hi. exact Hp3.
  - exists X1. split; [exact Hrun1|]. split; [reflexivity|]. split; [lia|]. split; [exact Hback|]. auto.
Qed.

Lemma pk_checkpoint_memory N n X X2 s b :
  length (hashIndices X2) = NUM_INDEXES → (∀ pos x1, hashIndices X2 !! pos = Some x1 → ∃ x b', hashIndices X !! pos = Some x ∧ cycled N n s pos x b' x1 ∧ (b = false → b' = false)) →
  ∃ X3, PrimaryKeyIndex.checkpointInMemory X2 = (Ok tt, X3) ∧ pk_tracks N (S n) X3 (s.1, s.1) ∧ firstHeaderPage X3 = firstHeaderPage X2 ∧ headerPages X3 = headerPages X2 ∧
    map indexHeaderForReadTrx (hashIndices X3) = headers_of X2 ∧ (b = false → ∀ pos x, hashIndices X3 !! pos = Some x → hashIndices X !! pos = Some x).
Proof.
  intros Hl Hback. set (P pos (x1 : HashIndex K) (b' : bool) x2 := tracks N (S n) (publish_header x2) (part pos s.1) (size (part pos s.1)) ∧ indexHeaderForWriteTrx x2 = indexHeaderForWriteTrx x1 ∧
    ∃ x, hashIndices X !! pos = Some x ∧ (b' = false → x2 = x ∧ publish_header x2 = x2) ∧ (b = false → b' = false)).
  destruct (all_indexes_run HashIndexCheckpoint.checkpointInMemory P X2 Hl) as (b2 & X3 & Hrun & (Hr1 & Hr2 & Hr3) & H3).
  { intros pos x1 Hx1. destruct (Hback pos x1 Hx1) as (x & b' & Hx & (x2 & Hr & Ht & Hh & Hb) & Hbb). exists b', x2. split; [exact Hr|]. split; [exact Ht|]. split; [exact Hh|]. exists x. split; [exact Hx|].
    split; [intros E; destruct (Hb E) as (_ & -> & E2); auto|exact Hbb]. }
  set (X4 := if b2 then set_hashIndices (map publish_header (hashIndices X3)) X3 else X3).
  assert (H4 : ∀ pos y, hashIndices X4 !! pos = Some y → ∃ x1 b' x2, hashIndices X2 !! pos = Some x1 ∧ P pos x1 b' x2 ∧ y = publish_header x2).
  { intros pos y Hy. assert (Hlt : pos < length (hashIndices X2)) by (apply lookup_lt_Some in Hy; unfold X4 in Hy; destruct b2; cbn in Hy; rewrite ?length_map in Hy; lia). destruct (lookup_lt_is_Some_2 _ _ Hlt) as [x1 Hx1].
    destruct (H3 pos x1 Hx1) as (b' & x2 & _ & Hx2 & HP & Hbb). exists x1, b', x2. split; [exact Hx1|]. split; [exact HP|]. unfold X4 in Hy. destruct b2; cbn [hashIndices set_hashIndices] in Hy.
    - apply list_lookup_fmap_Some in Hy as (x2' & -> & Hx2'). congruence.
    - destruct HP as (_ & _ & x & _ & Hb & _). rewrite (proj2 (Hb (Hbb eq_refl))). congruence. }
  assert (Hl4 : length (hashIndices X4) = NUM_INDEXES) by (unfold X4; destruct b2; cbn; rewrite ?length_map; lia).
  exists X4. split; [|split; [|split; [|split; [|split]]]].
  - unfold PrimaryKeyIndex.checkpointInMemory. rewrite (M_bind_ok _ _ _ _ _ Hrun). unfold X4. destruct b2; reflexivity.
  - split; [exact Hl4|]. intros pos y Hy. destruct (H4 pos y Hy) as (x1 & b' & x2 & _ & (Ht & _) & ->). exact Ht.
  - unfold X4. destruct b2; exact Hr1.
  - unfold X4. destruct b2; exact Hr2.
  - unfold headers_of. apply list_eq. intros pos. rewrite !list_lookup_fmap. destruct (hashIndices X4 !! pos) as [y|] eqn:Hy.
    + destruct (H4 pos y Hy) as (x1 & b' & x2 & Hx1 & (_ & Hh & _) & ->). rewrite Hx1. cbn. f_equal. exact Hh.
    + apply lookup_ge_None_1 in Hy. rewrite (lookup_ge_None_2 (hashIndices X2)) by lia. reflexivity.
  - intros E pos y Hy. destruct (H4 pos y Hy) as (x1 & b' & x2 & _ & (_ & _ & x & Hx & Hb & Hbb) & ->). destruct (Hb (Hbb E)) as [-> ->]. exact Hx.
Qed.

(** A checkpoint of the whole index: afterwards the pages hold the headers that are read, or nothing has changed. *)
Lemma pk_checkpoint_run N n X s :
  pk_tracks N n X s → n < N → (Z.of_nat N ≤ 2 ^ 14)%Z → gentle s = true →
  ∃ X', checkpoint reallocates std_sort startPage X = (Ok tt, X') ∧ pk_tracks N (S n) X' (s.1, s.1) ∧
    (firstHeaderPage X' = (if (firstHeaderPage X =? INVALID_PAGE_IDX)%Z then startPage else firstHeaderPage X) ∧ paged X' (map indexHeaderForReadTrx (hashIndices X')) ∨ X' = X).
Proof.
  intros Hp Hn HN Hg. destruct (pk_checkpoint_disk N n X s Hp Hn HN Hg) as (b & X1 & X2 & Hrun1 & Hw & Hl & Hback & Hpages). destruct (pk_checkpoint_memory N n X X2 s b Hl Hback) as (X3 & Hrun2 & Ht & Hf & Hpg & Hh & Hsame).
  exists X3. split; [unfold checkpoint; rewrite (M_bind_ok _ _ _ _ _ Hrun1), (M_bind_ok _ _ _ _ _ Hw); exact Hrun2|]. split; [exact Ht|]. destruct b.
  - left. destruct Hpages as [Hfp [P1 P2 P3]]. split; [congruence|]. rewrite Hh. split; rewrite Hpg; assumption.
  - right. destruct Hpages as [Hfp Hpp]. destruct X as [l f pgs], X3 as [l3 f3 pgs3]. cbn in *. f_equal; [|congruence|congruence]. specialize (Hsame eq_refl). apply list_eq_same_length with (n := NUM_INDEXES); [exact (pt_length _ _ _ _ Hp)|exact (pt_length _ _ _ _ Ht)|].
    intros i a1 a2 _ Ha1 Ha2. rewrite (Hsame i a1 Ha1) in Ha2. congruence.
Qed.

(** What a file has of the index: nothing, or the headers that are read. *)
Definition untouched (x : HashIndex K) : Prop := committed (diskPSlots x) = [] ∧ committed (diskOSlots x) = [] ∧ indexHeaderForReadTrx x = HashIndexHeader_new.
Definition on_file X : Prop :=
  firstHeaderPage X = INVALID_PAGE_IDX ∧ Forall untouched (hashIndices X) ∨ firstHeaderPage X ≠ INVALID_PAGE_IDX ∧ paged X (map indexHeaderForReadTrx (hashIndices X)).

Hypothesis start_valid : startPage ≠ INVALID_PAGE_IDX.

Lemma on_file_local X pos x st : hashIndices X !! pos = Some x → on_file X → on_file (set_hashIndices (<[pos := set_localStorage st x]> (hashIndices X)) X).
Proof.
  intros Hx [[Hf Hu]|[Hf [P1 P2 P3]]]; [left|right]; (split; [exact Hf|]).
  - cbn. apply Forall_insert; [exact Hu|]. rewrite Forall_lookup in Hu. exact (Hu pos x Hx).
  - split; [exact P1|exact P2|]. cbn [headerPages set_hashIndices hashIndices]. rewrite P3. f_equal. rewrite list_fmap_insert. symmetry. apply list_insert_id. rewrite list_lookup_fmap, Hx. reflexivity.
Qed.

Lemma pk_step N n X s o :
  pk_tracks N n X s → n < N → (Z.of_nat N ≤ 2 ^ 14)%Z → (match o with Checkpoint => gentle s | _ => true end) = true →
  ∃ X', exec o X = (Ok (spec o s).1, X') ∧ pk_tracks N (S n) X' (spec o s).2 ∧ (on_file X → on_file X').
Proof.
  intros Hp Hn HN Hg. destruct o as [k v|k|].
  - destruct (pk_insert_step N n X s k v Hp Hn HN) as (X' & Hrun & Ht & x & st & Hx & ->). exists (set_hashIndices (<[position k := set_localStorage st x]> (hashIndices X)) X). split; [exact Hrun|]. split; [exact Ht|]. apply on_file_local, Hx.
  - exists X. split; [exact (pk_lookup_step N n X s k Hp)|]. split; [|auto]. destruct s as [m disk], Hp as [Hl Hall]. split; [exact Hl|]. intros pos x Hx. apply (tracks_later N n); [lia|]. exact (Hall pos x Hx).
  - destruct (pk_checkpoint_run N n X s Hp Hn HN Hg) as (X' & Hrun & Ht & Hpg). exists X'. cbn [exec]. rewrite (M_bind_ok _ _ _ _ _ Hrun). destruct s as [m disk]. split; [reflexivity|]. split; [exact Ht|].
    intros Hf. destruct Hpg as [[Hfp Hpg]| ->]; [|exact Hf]. right. split; [|exact Hpg]. rewrite Hfp. destruct (Z.eqb_spec (firstHeaderPage X) INVALID_PAGE_IDX); assumption.
Qed.

Definition spec_state (os : list op) (s : gmap K Z * gmap K Z) : gmap K Z * gmap K Z := fold_left (λ s o, (spec o s).2) os s.

Lemma pk_exec_run N : (Z.of_nat N ≤ 2 ^ 14)%Z → ∀ os n X s, pk_tracks N n X s → n + length os ≤ N → gentle_all os s = true →
  ∃ X', exec_all os X = (Ok (spec_all os s), X') ∧ pk_tracks N (n + length os) X' (spec_state os s) ∧ (on_file X → on_file X').
Proof.
  intros HN os. induction os as [|o os IH]; intros n X s Hp Hn Hg; cbn [exec_all spec_all length gentle_all spec_state fold_left] in *; [exists X; rewrite Nat.add_0_r; auto|]. apply andb_true_iff in Hg as [Hg1 Hg2].
  destruct (pk_step N n X s o Hp ltac:(lia) HN Hg1) as (X1 & Hrun & Hp1 & Hf1). destruct (spec o s) as [r s']. cbn [fst snd] in *. rewrite (M_bind_ok _ _ _ _ _ Hrun).
  destruct (IH (S n) X1 s' Hp1 ltac:(lia) Hg2) as (X2 & Hrun2 & Hp2 & Hf2). rewrite (M_bind_ok _ _ _ _ _ Hrun2). exists X2. split; [reflexivity|]. rewrite Nat.add_succ_r, <- Nat.add_succ_l. auto.
Qed.

(** ** New and reopened indexes *)

Lemma init_run arrays s0 : HashIndexLocalStorage_new (K := K) = Ok s0 → ∀ headers i,
  (∀ j, j < length headers → is_Some (arrays !! (i + j)) ∧ is_Some (arrays !! (NUM_INDEXES + (i + j)))) →
  ∃ l, initSubIndices arrays headers i = Ok l ∧ length l = length headers ∧ ∀ j x, l !! j = Some x →
    ∃ p o h, arrays !! (i + j) = Some p ∧ arrays !! (NUM_INDEXES + (i + j)) = Some o ∧ headers !! j = Some h ∧ x = MkHashIndex p o s0 h h.
Proof.
  intros Hs headers. induction headers as [|h headers IH]; intros i Ha; cbn [initSubIndices]; [exists []; split; [reflexivity|]; split; [reflexivity|intros j x Hx; discriminate Hx]|].
  destruct (Ha 0 ltac:(cbn; lia)) as [[p Hp] [o Ho]]. rewrite Nat.add_0_r in Hp, Ho. rewrite Hp, Ho. unfold HashIndex_make. rewrite Hs. destruct (IH (S i)) as (l & Hl & Hlen & Hel).
  - intros j Hj. rewrite !Nat.add_succ_l, <- !Nat.add_succ_r. apply (Ha (S j)). cbn. lia.
  - rewrite Hl. eexists. split; [reflexivity|]. split; [cbn; lia|]. intros [|j] x Hx; cbn in Hx.
    + injection Hx as <-. exists p, o, h. rewrite Nat.add_0_r. auto.
    + destruct (Hel j x Hx) as (p' & o' & h' & E1 & E2 & E3 & E4). exists p', o', h'. rewrite Nat.add_succ_r, <- Nat.add_succ_l. auto.
Qed.

Lemma part_empty pos : part pos ∅ = ∅.
Proof. apply map_filter_empty. Qed.

Lemma pk_new N : ∃ X, createNewIndex = Ok X ∧ pk_tracks N 0 X (∅, ∅) ∧ firstHeaderPage X = INVALID_PAGE_IDX ∧ Forall untouched (hashIndices X).
Proof.
  destruct local_new as (s0 & Hs0 & HD & Hr & Hsm & Hz). destruct (init_run (replicate (2 * NUM_INDEXES) (MkArray [] [])) s0 Hs0 (replicate NUM_INDEXES HashIndexHeader_new) 0) as (l & Hl & Hlen & Hel).
  { intros j Hj. rewrite length_replicate in Hj. rewrite !lookup_replicate_2 by lia. eauto. }
  rewrite length_replicate in Hlen. exists (MkPKIndex l INVALID_PAGE_IDX []). unfold createNewIndex. rewrite Hl. split; [reflexivity|].
  assert (Hall : ∀ pos x, l !! pos = Some x → x = MkHashIndex (MkArray [] []) (MkArray [] []) s0 HashIndexHeader_new HashIndexHeader_new).
  { intros pos x Hx. destruct (Hel pos x Hx) as (p & o & h & Ep & Eo & Eh & ->). apply lookup_replicate in Ep as [-> _]. apply lookup_replicate in Eo as [-> _]. apply lookup_replicate in Eh as [-> _]. reflexivity. }
  split; [|split; [reflexivity|apply Forall_lookup; intros pos x Hx; rewrite (Hall pos x Hx); split_and!; reflexivity]]. split; [exact Hlen|].
  intros pos x Hx. cbn [fst snd]. rewrite part_empty, map_size_empty, (Hall pos x Hx).
  exists none_lost, [], []. split; [|reflexivity]. split; cbn [app length]; try (assumption || reflexivity || lia).
  - split; [exact HD|apply Hr|]. right. auto.
  - split; reflexivity.
  - exact entries_of_empty.
  - apply Hsm.
  - left. auto.
Qed.

(** ** Opening an index from its pages *)

(** The disk arrays of the file, as the headers of the last checkpoint say. *)
Definition arrays_of X : list (VersionedArray (Slot K)) :=
  map (λ x, MkArray (committed (diskPSlots x)) (committed (diskPSlots x))) (hashIndices X) ++ map (λ x, MkArray (committed (diskOSlots x)) (committed (diskOSlots x))) (hashIndices X).
(** What is in memory only is gone. *)
Definition reopen X : outcome (PrimaryKeyIndex K) :=
  if (firstHeaderPage X =? INVALID_PAGE_IDX)%Z then createNewIndex else PrimaryKeyIndex_open (firstHeaderPage X) (headerPages X) (arrays_of X).
Definition reloaded (s0 : HashIndexLocalStorage K) (x : HashIndex K) : HashIndex K :=
  MkHashIndex (MkArray (committed (diskPSlots x)) (committed (diskPSlots x))) (MkArray (committed (diskOSlots x)) (committed (diskOSlots x))) s0 (indexHeaderForReadTrx x) (indexHeaderForReadTrx x).

Lemma header_reads h P : header_ok h P → (P ≤ 2 ^ 40)%Z → HashIndexHeader_read (write h) = h.
Proof.
  intros [H0 H1 H2 H3 H4] HP. assert (Hl : (currentLevel h ≤ 40)%Z) by (apply pow2_le_mono_inv; lia). destruct h as [l m1 m2 ns ne ff]. cbn in *. unfold HashIndexHeader_read, write. cbn.
  rewrite (uwrap_small 8 l) by lia. rewrite !Z.shiftl_1_l. assert (2 ^ l ≤ 2 ^ 40)%Z by (apply Z.pow_le_mono_r; lia). assert (2 ^ (l + 1) ≤ 2 ^ 41)%Z by (apply Z.pow_le_mono_r; lia).
  rewrite !uwrap_small by (split; [apply Z.pow_nonneg; lia|lia]). rewrite H1, H2, !Z.ones_equiv. f_equal; lia.
Qed.

Lemma tracks_header N n x m c : tracks N n x m c → n ≤ N → (Z.of_nat N ≤ 2 ^ 14)%Z → HashIndexHeader_read (write (indexHeaderForReadTrx x)) = indexHeaderForReadTrx x.
Proof.
  intros (d & ls & ps & [[_ _ Hp] [Hq1 Hq2 Hq3] _ _ _ Hc Hs _ _] & _) Hn HN. destruct Hp as [(C & B & [Hd _] & _)|(_ & _ & _ & Hh)]; [|cbn in Hh; rewrite Hh; reflexivity].
  apply (header_reads _ _ (dr_header _ _ _ _ _ Hd)). cbn [version elements InMemHashIndex.indexHeader InMemHashIndex.pSlots]. rewrite <- Hq1. pose proof (slots_needed_bound (K := K) (length ps) ltac:(lia)). destruct Hs as [(_ & -> & _)| ->]; cbn [length]; lia.
Qed.

(** Everything is on disk. *)
Lemma tracks_reloaded N n x m s0 :
  HashIndexLocalStorage_new (K := K) = Ok s0 → tracks N n x m (size m) → tracks N n (reloaded s0 x) m (size m).
Proof.
  intros Hs0 (d & ls & ps & [[H1a H1b H1c] [Hq1 Hq2 Hq3] H3 H4 H5 H6 H7 H8 H9] & Hc). destruct local_new as (s0' & Hs0' & HD & Hr & Hsm & Hz). rewrite Hs0 in Hs0'. injection Hs0' as <-.
  pose proof (entries_of_size m _ H3) as Hsz. rewrite length_app in Hsz. assert (ls = []) as -> by (apply nil_length_inv; lia). exists d, [], ps. split; [|exact Hc]. cbn [length app] in *. split; try (assumption || lia).
  - split; [exact HD|apply Hr|exact H1c].
  - split; reflexivity.
  - apply (small_later N 0); [lia|]. apply Hsm.
  - rewrite Hq1 in H7. exact H7.
  - rewrite Hq2 in H8. exact H8.
Qed.

Lemma read_headers_pages X headers : paged X headers → length headers = NUM_INDEXES → read_headers (take INDEX_HEADER_PAGES (headerPages X)) [] = map HashIndexHeader_read (map write headers).
Proof.
  intros [P1 P2 P3] Hl. rewrite <- P3. destruct (headerPages X) as [|a [|b [|c r]]]; try discriminate P1. cbn [take concat read_headers app length]. pose proof (P2 a ltac:(left)) as Ha. pose proof (P2 b ltac:(right; left)) as Hb.
  unfold INDEX_HEADER_PAGES. cbn [take read_headers app length]. rewrite length_map, length_take, !take_ge by (rewrite ?Ha, ?Hb; vm_compute; lia). rewrite app_nil_r, <- map_app. reflexivity.
Qed.

Lemma reopen_run N n X m : pk_tracks N n X (m, m) → n ≤ N → (Z.of_nat N ≤ 2 ^ 14)%Z → on_file X → ∃ X', reopen X = Ok X' ∧ pk_tracks N n X' (m, m).
Proof.
  intros [Hl Hall] Hn HN Hf. destruct local_new as (s0 & Hs0 & _).
  assert (Hok' : ∀ l fp pgs, length l = NUM_INDEXES → (∀ pos y, l !! pos = Some y → ∃ x, hashIndices X !! pos = Some x ∧ y = reloaded s0 x) → pk_tracks N n (MkPKIndex l fp pgs) (m, m)).
  { intros l fp pgs Hlen Hel. split; [exact Hlen|]. intros pos y Hy. destruct (Hel pos y Hy) as (x & Hx & ->). apply tracks_reloaded; [exact Hs0|]. exact (Hall pos x Hx). }
  unfold reopen. destruct Hf as [[Hf Hu]|[Hf Hpg]].
  - rewrite (proj2 (Z.eqb_eq _ _) Hf). destruct (init_run (replicate (2 * NUM_INDEXES) (MkArray [] [])) s0 Hs0 (replicate NUM_INDEXES HashIndexHeader_new) 0) as (l & Hrun & Hlen & Hel).
    { intros j Hj. rewrite length_replicate in Hj. rewrite !lookup_replicate_2 by lia. eauto. }
    rewrite length_replicate in Hlen. eexists. unfold createNewIndex. rewrite Hrun. split; [reflexivity|]. apply Hok'; [exact Hlen|]. intros pos y Hy. destruct (Hel pos y Hy) as (p & o & h & Ep & Eo & Eh & ->).
    apply lookup_replicate in Ep as [-> _]. apply lookup_replicate in Eo as [-> _]. apply lookup_replicate in Eh as [-> _]. destruct (lookup_lt_is_Some_2 (hashIndices X) pos) as [x Hx]; [apply lookup_lt_Some in Hy; lia|].
    exists x. split; [exact Hx|]. rewrite Forall_lookup in Hu. destruct (Hu pos x Hx) as (E1 & E2 & E3). unfold reloaded. rewrite E1, E2, E3. reflexivity.
  - rewrite (proj2 (Z.eqb_neq _ _) Hf). unfold PrimaryKeyIndex_open. rewrite (read_headers_pages X _ Hpg) by (rewrite length_map; exact Hl).
    assert (Hh : map HashIndexHeader_read (map write (map indexHeaderForReadTrx (hashIndices X))) = map indexHeaderForReadTrx (hashIndices X)).
    { rewrite !map_map. apply map_ext_in. intros x Hx. apply list_elem_of_In, list_elem_of_lookup in Hx as [pos Hx]. exact (tracks_header N n x _ _ (Hall pos x Hx) Hn HN). }
    rewrite Hh, length_map, Hl, Nat.eqb_refl.
    assert (Harr : ∀ j x, hashIndices X !! j = Some x → arrays_of X !! j = Some (MkArray (committed (diskPSlots x)) (committed (diskPSlots x))) ∧ arrays_of X !! (NUM_INDEXES + j) = Some (MkArray (committed (diskOSlots x)) (committed (diskOSlots x)))).
    { intros j x Hx. unfold arrays_of. apply lookup_lt_Some in Hx as Hlt. rewrite lookup_app_l by (rewrite length_map; exact Hlt). rewrite lookup_app_r by (rewrite length_map; lia). rewrite length_map, Hl.
      replace (NUM_INDEXES + j - NUM_INDEXES) with j by lia. rewrite !list_lookup_fmap, Hx. auto. }
    destruct (init_run (arrays_of X) s0 Hs0 (map indexHeaderForReadTrx (hashIndices X)) 0) as (l & Hrun & Hlen & Hel).
    { intros j Hj. rewrite length_map in Hj. destruct (lookup_lt_is_Some_2 _ _ Hj) as [x Hx]. destruct (Harr j x Hx) as [E1 E2]. cbn [Nat.add]. rewrite E1, E2. eauto. }
    rewrite Hrun. eexists. split; [reflexivity|]. rewrite length_map in Hlen. apply Hok'; [lia|]. intros pos y Hy. destruct (Hel pos y Hy) as (p & o & h & Ep & Eo & Eh & ->). apply list_lookup_fmap_Some in Eh as (x & -> & Hx).
    destruct (Harr pos x Hx) as [Ep' Eo']. cbn [Nat.add] in Ep, Eo. exists x. split; [exact Hx|]. unfold reloaded. congruence.
Qed.

Lemma spec_all_app os os' s : spec_all (os ++ os') s = spec_all os s ++ spec_all os' (spec_state os s).
Proof. revert s. induction os as [|o os IH]; intros s; cbn [app spec_all spec_state fold_left]; [reflexivity|]. destruct (spec o s) as [r s'] eqn:E. rewrite IH. reflexivity. Qed.

Lemma gentle_all_app os os' s : gentle_all (os ++ os') s = gentle_all os s && gentle_all os' (spec_state os s).
Proof. revert s. induction os as [|o os IH]; intros s; cbn [app gentle_all spec_state fold_left]; [reflexivity|]. rewrite IH, andb_assoc. reflexivity. Qed.

(** C6. A primary key index refines a finite map through its checkpoints: a sequence of up to 2^14 insertions, lookups and checkpoints on a new index, no checkpoint of
    which more than doubles the slots of a hash index that has entries on disk, runs without an error and yields what it yields on a map in which an insertion fails
    exactly when the key is there and a checkpoint changes nothing. *)
Theorem pk_index_refines_map os :
  (Z.of_nat (length os) ≤ 2 ^ 14)%Z → gentle_all os (∅, ∅) = true →
  ∃ X X', createNewIndex = Ok X ∧ exec_all os X = (Ok (spec_all os (∅, ∅)), X').
Proof.
  intros Hlen Hg. destruct (pk_new (length os)) as (X & Hnew & Ht & _ & _). destruct (pk_exec_run (length os) Hlen os 0 X _ Ht ltac:(lia) Hg) as (X' & Hrun & _). eauto.
Qed.

(** C7. A primary key index survives being closed after a checkpoint: after up to 2^14 insertions, lookups and checkpoints in all, no checkpoint of which more than doubles the slots of a
    hash index that has entries on disk, an index opened from the header pages and disk arrays that the last checkpoint left, with nothing else of what was in memory, goes on
    with the map of the one that was closed. Keys are not deleted, and every row is visible to the transactions. *)
Theorem pk_index_reopens os os' :
  (Z.of_nat (length (os ++ Checkpoint :: os')) ≤ 2 ^ 14)%Z → gentle_all (os ++ Checkpoint :: os') (∅, ∅) = true →
  ∃ X rs X1 X2 rs' X', createNewIndex = Ok X ∧ exec_all (os ++ [Checkpoint]) X = (Ok rs, X1) ∧ reopen X1 = Ok X2 ∧ exec_all os' X2 = (Ok rs', X') ∧
    rs ++ rs' = spec_all (os ++ Checkpoint :: os') (∅, ∅).
Proof.
  replace (os ++ Checkpoint :: os') with ((os ++ [Checkpoint]) ++ os') by (rewrite <- app_assoc; reflexivity). intros Hlen Hg. rewrite gentle_all_app in Hg. apply andb_true_iff in Hg as [Hg1 Hg2]. set (N := length ((os ++ [Checkpoint]) ++ os')) in *.
  assert (HN : N = length (os ++ [Checkpoint]) + length os') by apply length_app. destruct (pk_new N) as (X & Hnew & Ht & Hf & Hu). destruct (pk_exec_run N Hlen (os ++ [Checkpoint]) 0 X _ Ht ltac:(lia) Hg1) as (X1 & Hrun1 & Ht1 & Hf1).
  specialize (Hf1 ltac:(left; auto)). set (s := spec_state (os ++ [Checkpoint]) (∅, ∅)) in *. assert (Hs : s = (s.1, s.1)) by (unfold s, spec_state; rewrite fold_left_app; cbn; destruct (fold_left _ os _); reflexivity).
  rewrite Hs in Ht1, Hg2. destruct (reopen_run N _ X1 s.1 Ht1 ltac:(lia) Hlen Hf1) as (X2 & Hopen & Ht2). destruct (pk_exec_run N Hlen os' _ X2 _ Ht2 ltac:(lia) Hg2) as (X' & Hrun2 & _).
  exists X, (spec_all (os ++ [Checkpoint]) (∅, ∅)), X1, X2, (spec_all os' (s.1, s.1)), X'. split; [exact Hnew|]. split; [exact Hrun1|]. split; [exact Hopen|]. split; [exact Hrun2|]. rewrite (spec_all_app (os ++ [Checkpoint]) os'). fold s. rewrite <- Hs. reflexivity.
Qed.
End Refinement.

(** ** Rows of a commit *)

Section Commit.
Context {K : Type} `{HK : IndexHashable K} `{Hok : !IndexHashableOk K} `{Countable K}.
Variable toString : K → string.
Implicit Types (X : PrimaryKeyIndex K) (m : gmap K Z) (rows : list (option K * Z)).

(** Rows in order: the first NULL or the first key that is there ends them with an error. *)
Fixpoint commit_spec rows m : (unit + string) * gmap K Z :=
  match rows with
  | [] => (inl tt, m)
  | (None, _) :: _ => (inr nullPKException, m)
  | (Some k, v) :: rows' => if decide (m !! k = None) then commit_spec rows' (<[k := v]> m) else (inr (duplicatePKException (toString k)), m)
  end.

Lemma commit_insert_run N : (Z.of_nat N ≤ 2 ^ 14)%Z → ∀ rows n X m disk, pk_tracks N n X (m, disk) → n + length rows ≤ N →
  ∃ X', commitInsert toString Transaction.WRITE rows (λ _, true) X = (match (commit_spec rows m).1 with inl _ => Ok tt | inr e => Throw (RuntimeException e) end, X') ∧
    pk_tracks N (n + length rows) X' ((commit_spec rows m).2, disk).
Proof.
  assert (Hlater : ∀ n n' X s, n ≤ n' → pk_tracks N n X s → pk_tracks N n' X s). { intros n n' X s Hn [Hl Ht]. split; [exact Hl|]. intros pos x Hx. apply (tracks_later N n); [exact Hn|]. exact (Ht pos x Hx). }
  intros HN rows. induction rows as [|[[k|] v] rows IH]; intros n X m disk Hp Hn; cbn [commitInsert commit_spec length] in *; [exists X; rewrite Nat.add_0_r; auto| |].
  - destruct (pk_insert_step (λ _, false) (λ l, l) 0%Z N n X (m, disk) k v Hp ltac:(lia) HN) as (X1 & Hrun & Hp1 & _). cbn [exec spec fst snd] in Hrun, Hp1. 
    assert (Hins : insert Transaction.WRITE k v (λ _, true) X = (Ok (bool_decide (m !! k = None)), X1)).
    { unfold mbind, M_bind, mret, M_ret in Hrun. destruct (insert Transaction.WRITE k v (λ _, true) X) as [[b|e] Y]; [|destruct (decide (m !! k = None)); discriminate Hrun]. injection Hrun as Hb <-.
      destruct (decide (m !! k = None)) as [Hk|Hk]; cbn in Hb; injection Hb as ->; [rewrite bool_decide_eq_true_2 by exact Hk|rewrite bool_decide_eq_false_2 by exact Hk]; reflexivity. }
    rewrite (M_bind_ok _ _ _ _ _ Hins). destruct (decide (m !! k = None)) as [Hk|Hk]; [rewrite bool_decide_eq_true_2 by exact Hk|rewrite bool_decide_eq_false_2 by exact Hk]; cbn [fst snd] in *.
    + destruct (IH (S n) X1 _ disk Hp1 ltac:(lia)) as (X' & Hrun' & Hp'). exists X'. rewrite Nat.add_succ_r, <- Nat.add_succ_l. auto.
    + exists X1. split; [reflexivity|]. apply (Hlater (S n)); [lia|]. exact Hp1.
  - exists X. split; [reflexivity|]. apply (Hlater n); [lia|]. exact Hp.
Qed.

(** Committing rows to a primary key index inserts their keys one by one. It throws at the first row with a NULL key and at the first row with a key that is in the
    index or in an earlier row, with the message for it, and the keys of the rows before stay inserted: the error is for the caller to roll back. *)
Theorem pk_commit_insert N n X m disk rows :
  pk_tracks N n X (m, disk) → n + length rows ≤ N → (Z.of_nat N ≤ 2 ^ 14)%Z →
  ∃ X', commitInsert toString Transaction.WRITE rows (λ _, true) X = (match (commit_spec rows m).1 with inl _ => Ok tt | inr e => Throw (RuntimeException e) end, X') ∧
    pk_tracks N (n + length rows) X' ((commit_spec rows m).2, disk).
Proof. intros Hp Hn HN. exact (commit_insert_run N HN rows n X m disk Hp Hn). Qed.
End Commit.

(** ** Witnesses *)

Definition some_operations : list (@op Z) := [Insert 5 0; Insert 7 1; Checkpoint; Insert 5 2; Lookup 7; Insert 9 2; Checkpoint; Lookup 9]%Z.

Lemma pk_index_refines_map_witness :
  ∃ X X' : PrimaryKeyIndex Z, createNewIndex = Ok X ∧
    exec_all (λ _, false) (λ l, l) 10 some_operations X = (Ok [Done true; Done true; Checkpointed; Done false; Value (Some 1); Done true; Checkpointed; Value (Some 2)]%Z, X').
Proof. exact (pk_index_refines_map (K := Z) (λ _, false) (λ l, l) 10 (λ l, reflexivity l) ltac:(discriminate) some_operations ltac:(vm_compute; discriminate) ltac:(vm_compute; reflexivity)). Defined.

Lemma pk_index_reopens_witness :
  ∃ (X X1 X2 X' : PrimaryKeyIndex Z) rs rs', createNewIndex = Ok X ∧ exec_all (λ _, false) (λ l, l) 10 (some_operations ++ [Checkpoint]) X = (Ok rs, X1) ∧ reopen X1 = Ok X2 ∧
    exec_all (λ _, false) (λ l, l) 10 [Lookup 5; Lookup 6]%Z X2 = (Ok rs', X') ∧ rs' = [Value (Some 0); Value None]%Z.
Proof.
  destruct (pk_index_reopens (K := Z) (λ _, false) (λ l, l) 10 (λ l, reflexivity l) ltac:(discriminate) some_operations [Lookup 5; Lookup 6]%Z ltac:(vm_compute; discriminate) ltac:(vm_compute; reflexivity)) as (X & rs & X1 & X2 & rs' & X' & H1 & H2 & H3 & H4 & H5).
  exists X, X1, X2, X', rs, rs'. split_and!; try assumption. assert (Hl : length rs = 9).
  { destruct (pk_new (K := Z) 9) as (Y & E & Ht & _). rewrite H1 in E. injection E as <-. destruct (pk_exec_run (K := Z) (λ _, false) (λ l, l) 10 (λ l, reflexivity l) ltac:(discriminate) 9 ltac:(vm_compute; discriminate) (some_operations ++ [Checkpoint]) 0 X _ Ht ltac:(vm_compute; lia) ltac:(vm_compute; reflexivity)) as (Y' & E & _).
    rewrite H2 in E. injection E as -> _. vm_compute. reflexivity. }
  apply (f_equal (drop 9)) in H5. rewrite drop_app_length' in H5 by (symmetry; exact Hl). rewrite H5. vm_compute. reflexivity.
Defined.

Lemma pk_commit_insert_witness :
  ∃ X X' : PrimaryKeyIndex Z, pk_tracks 10 0 X (∅, ∅) ∧
    commitInsert (λ _, EmptyString) Transaction.WRITE [(Some 3, 0); (None, 1)]%Z (λ _, true) X = (Throw (RuntimeException nullPKException), X').
Proof.
  destruct (pk_new (K := Z) 10) as (X & _ & Ht & _). destruct (pk_commit_insert (λ _, EmptyString) 10 0 X ∅ ∅ [(Some 3, 0); (None, 1)]%Z Ht ltac:(cbn; lia) ltac:(vm_compute; discriminate)) as (X' & Hrun & _).
  exists X, X'. split; [exact Ht|]. exact Hrun.
Defined.

(** * Where the hash index does not do what it means to

    Runs of the model on integer keys that end in a lost key, a key that comes back, a failed assertion or undefined behaviour. The keys are
    given by their hashes, which the inverse of the hash function turns into keys. *)

Import HashSlot InMemHashIndex LocalHashIndex VersionedArray HashIndex HashIndexCheckpoint.

Module HashIndexFindings.

(** ** Keys for hashes *)

(** The inverse of the multiplier of the hash function, modulo 2^64. *)
Definition inverse_multiplier : Z := 0xcfee444d8b59a89b.
Definition unshift (x : Z) : Z := Z.lxor x (Z.shiftr x 32).
Definition key_for (h : Z) : Z := unshift (uwrap 64 (unshift (uwrap 64 (unshift h * inverse_multiplier)) * inverse_multiplier)).
(** Hashes from [first], [step] apart. *)
Definition hashes (first step : Z) (n : nat) : list Z := map (λ i, (first + step * Z.of_nat i)%Z) (seq 0 n).

(** ** Runs on a new index *)

Definition every_row : Z → bool := λ _, true.
(** A vector that grows by doubling. *)
Definition doubling (n : nat) : bool := n =? 2 ^ Nat.log2 n.

Definition insert_all (hs : list Z) : M (HashIndex Z) unit := for_each hs (λ h, insertInternal Transaction.WRITE (key_for h) h every_row ;; mret tt).
Definition discard_all (hs : list Z) : M (HashIndex Z) unit := for_each hs (λ h, discardLocal (key_for h) ;; mret tt).
Definition delete_all (hs : list Z) : M (HashIndex Z) unit := for_each hs (λ h, deleteInternal (key_for h)).
Fixpoint missing (hs : list Z) : M (HashIndex Z) (list Z) :=
  match hs with
  | [] => mret []
  | h :: hs' => v ← lookupInternal Transaction.WRITE (key_for h) every_row; rest ← missing hs'; mret (match v with None => h :: rest | Some _ => rest end)
  end.
Definition checkpoint_all : M (HashIndex Z) unit :=
  checkpoint doubling (λ l, l) ;; checkpointInMemory ;; modify PrimaryKeyIndex.publish_header.
Definition on_new {A} (m : M (HashIndex Z) A) : outcome A :=
  match HashIndexLocalStorage_new with
  | Ok s => (m (MkHashIndex (MkArray [] []) (MkArray [] []) s HashIndexHeader_new HashIndexHeader_new)).1
  | Throw e => Throw e
  end.

Lemma key_for_hash : map (λ h, hash (key_for h)) (hashes 0 1000003 20) = hashes 0 1000003 20.
Proof. vm_compute. reflexivity. Qed.

(** ** Slots on disk *)

(** A checkpoint that makes room for entries that are gone again leaves more slots than its entries need; the next one subtracts the slots there are from
    those that are needed in unsigned arithmetic, and asks for 2^64 - 1 splits. *)
Theorem split_count_underflows :
  on_new (insert_all (hashes 0 1 300) ;; discard_all (hashes 0 1 290) ;; checkpoint_all ;; x ← get_state;
          mret (length (current (diskPSlots x)), headerNumEntries (indexHeaderForWriteTrx x), numSlotsToSplit x 1)) = Ok (33, 10%Z, (2 ^ 64 - 1)%Z).
Proof. vm_compute. reflexivity. Qed.

(** An index whose insertions are all gone gets its slots without entries; the next checkpoint sets the header for the slots it needs and cannot shrink the
    array, so that a later split does not find the new slot where the hash says. *)
Theorem empty_index_loses_its_slots :
  on_new (insert_all (hashes 0 1 300) ;; discard_all (hashes 0 1 300) ;; checkpoint_all ;; insert_all [32%Z] ;; checkpoint_all ;; insert_all (hashes 33 1 320) ;; checkpoint_all) = Throw assert_failure.
Proof. vm_compute. reflexivity. Qed.

(** [splitSlots] numbers its new overflow slots from the committed size of the array. A checkpoint with deletions reserves twice, and the slots of the second
    time overlap those of the first: keys are lost. *)
Theorem second_split_loses_keys :
  on_new (insert_all (hashes 0 16 40) ;; insert_all (hashes 3 16 40) ;; checkpoint_all ;; delete_all (hashes 0 16 20) ;; insert_all (hashes 2 16 100) ;; checkpoint_all ;;
          missing (hashes 3 16 40)) = Ok [19; 51; 83; 115; 147; 179]%Z.
Proof. vm_compute. reflexivity. Qed.

(** [splitSlots] keeps a pointer into its vector of new overflow slots while it appends to it. *)
Theorem split_uses_moved_slot :
  ∃ e, on_new (insert_all (hashes 16 32 60) ;; checkpoint_all ;; insert_all (hashes 2 16 450) ;; checkpoint_all) = Throw (UndefinedBehaviour e).
Proof. eexists. vm_compute. reflexivity. Qed.

(** ** Deletions *)

(** A checkpoint forgets the keys that were deleted: they are there again afterwards. *)
Theorem deleted_key_comes_back :
  on_new (insert_all [7%Z] ;; checkpoint_all ;; delete_all [7%Z] ;; before ← missing [7%Z]; checkpoint_all ;; after ← missing [7%Z]; mret (before, after)) = Ok ([7%Z], []).
Proof. vm_compute. reflexivity. Qed.

(** A key that is deleted on disk, inserted again and deleted again is found: the second deletion only removes the new entry. *)
Theorem second_deletion_uncovers :
  on_new (insert_all [7%Z] ;; checkpoint_all ;; delete_all [7%Z] ;; insert_all [7%Z] ;; delete_all [7%Z] ;; missing [7%Z]) = Ok [].
Proof. vm_compute. reflexivity. Qed.

(** ** Appending *)

(** When there are entries on disk, [appendNoLock] goes on after a key it could not append: the count is not the position of that key, and the keys after it are
    in the index. *)
Theorem append_goes_on :
  on_new (insert_all [1%Z] ;; checkpoint_all ;; n ← appendNoLock Transaction.WRITE [(key_for 2, 2); (key_for 2, 3); (key_for 4, 4)]%Z 0 every_row; gone ← missing [2; 4]%Z; mret (n, gone)) = Ok (2, []).
Proof. vm_compute. reflexivity. Qed.

(** ** Rolling back *)

Definition on_new_pk {A} (m : M (PrimaryKeyIndex.PrimaryKeyIndex Z) A) : outcome A :=
  match PrimaryKeyIndex.createNewIndex with Ok X => (m X).1 | Throw e => Throw e end.

(** A transaction inserts a key; another one fails to insert it because it is there, and rolls its rows back: the key of the first one is not in the index any
    more. *)
Theorem rollback_removes_other_key :
  let k := 5%Z in
  on_new_pk (a ← PrimaryKeyIndex.insert Transaction.WRITE k 0%Z every_row; b ← PrimaryKeyIndex.insert Transaction.WRITE k 1%Z every_row;
             PrimaryKeyIndex.rollback_keys Transaction.WRITE [k] ;; v ← PrimaryKeyIndex.lookup Transaction.WRITE k every_row; mret (a, b, v)) = Ok (true, false, None).
Proof. vm_compute. reflexivity. Qed.
End HashIndexFindings.
