(* ===== verification/DiskArraySpec.v ===== *)
(** * What a disk array holds

    The numbers of its array pages, the elements in their cells, and the invariant that its operations keep. *)

From stdpp Require Import base numbers list gmap strings.
From Stdlib Require Import ZArith Lia.
From S2P Require Import Prelude DiskArray.
Import DiskArray.

#[local] Open Scope nat_scope.

(** ** Pages of page numbers *)

Definition CP : nat := Z.to_nat NUM_PAGE_IDXS_PER_PIP.

Lemma CP_value : NUM_PAGE_IDXS_PER_PIP = Z.of_nat CP ∧ CP = 1023.
Proof. split; vm_compute; reflexivity. Qed.

Definition full (w : PIPWrapper) : Prop := length (pageIdxs (pipContents w)) = CP.
Definition flat (ps : list PIPWrapper) : list Z := concat (map (λ w, pageIdxs (pipContents w)) ps).

Lemma flat_app ps qs : flat (ps ++ qs) = flat ps ++ flat qs.
Proof. unfold flat. rewrite map_app, concat_app. reflexivity. Qed.

Lemma flat_length ps : Forall full ps → length (flat ps) = length ps * CP.
Proof. induction 1 as [|w ps Hw _ IH]; [reflexivity|]. cbn [flat map concat]. rewrite length_app. unfold full in Hw. fold (flat ps). cbn [length Nat.mul]. lia. Qed.

Lemma past_one_pip a : CP ≤ a → a / CP = S ((a - CP) / CP) ∧ a mod CP = (a - CP) mod CP.
Proof. pose proof CP_value as [_ Hc]. intros Ha. assert (E : a = (a - CP) + 1 * CP) by lia. split; rewrite E at 1; [rewrite Nat.div_add by lia; lia|apply Nat.Div0.mod_add]. Qed.

Lemma flat_lookup ps a w : Forall full ps → ps !! (a / CP) = Some w → flat ps !! a = pageIdxs (pipContents w) !! (a mod CP).
Proof.
  pose proof CP_value as [_ Hc]. intros Hf. revert a. induction Hf as [|v ps Hv _ IH]; intros a Hw; [discriminate Hw|]. cbn [flat map concat]. fold (flat ps). unfold full in Hv. destruct (decide (a < CP)) as [Ha|Ha].
  - rewrite Nat.div_small in Hw by exact Ha. injection Hw as <-. rewrite lookup_app_l, Nat.mod_small by lia. reflexivity.
  - destruct (past_one_pip a ltac:(lia)) as [E E']. rewrite E in Hw. rewrite E', lookup_app_r by lia. rewrite Hv. exact (IH (a - CP) Hw).
Qed.

(** An entry is set. *)
Lemma flat_alter ps a p : Forall full ps → a / CP < length ps → flat (alter (set_pageIdx (Z.of_nat (a mod CP)) p) (a / CP) ps) = <[a := p]> (flat ps).
Proof.
  pose proof CP_value as [_ Hc]. intros Hf. revert a. induction Hf as [|v ps Hv Hps IH]; intros a Ha; [cbn in Ha; lia|]. cbn [flat map concat]. fold (flat ps). unfold full in Hv. destruct (decide (a < CP)) as [Hlt|Hge].
  - rewrite Nat.div_small, Nat.mod_small by exact Hlt. cbn [alter list_alter flat map concat]. cbn [set_pageIdx pipContents pageIdxs]. rewrite Nat2Z.id. fold (flat ps). rewrite insert_app_l by lia. reflexivity.
  - destruct (past_one_pip a ltac:(lia)) as [E E']. rewrite E, E'. rewrite E in Ha. cbn [alter list_alter flat map concat]. fold (flat (alter (set_pageIdx (Z.of_nat ((a - CP) mod CP)) p) ((a - CP) / CP) ps)). rewrite (IH (a - CP)) by (cbn [length] in Ha; lia).
    rewrite insert_app_r_alt by lia. rewrite Hv. reflexivity.
Qed.

Lemma full_set_pageIdx offset p w : full w → full (set_pageIdx offset p w).
Proof. unfold full. cbn. rewrite length_insert. auto. Qed.
Lemma full_set_next p w : full w → full (set_next p w).
Proof. auto. Qed.
Lemma full_new p : full (MkPIPWrapper p PIP_new).
Proof. unfold full. cbn. apply length_replicate. Qed.

Lemma Forall_alter_full (f : PIPWrapper → PIPWrapper) i ps : (∀ w, full w → full (f w)) → Forall full ps → Forall full (alter f i ps).
Proof. intros Hf Hps. revert i. induction Hps as [|w ps Hw Hps IH]; intros [|i]; cbn; constructor; auto. Qed.

Lemma flat_set_next p i ps : flat (alter (set_next p) i ps) = flat ps.
Proof. revert i. induction ps as [|w ps IH]; intros [|i]; [reflexivity..|]. cbn [alter list_alter flat map concat]. fold (flat (alter (set_next p) i ps)). rewrite IH. reflexivity. Qed.

(** ** The version of a checkpoint *)

(** A PIP that is updated takes the place of the last one. *)
Definition old_pips (ps : list PIPWrapper) (u : option PIPWrapper) : list PIPWrapper := match u with Some w => take (length ps - 1) ps ++ [w] | None => ps end.
Definition joined (ps : list PIPWrapper) (u : option PIPWrapper) (ns : list PIPWrapper) : list PIPWrapper := old_pips ps u ++ ns.
Definition upd_ok (ps : list PIPWrapper) (u : option PIPWrapper) : Prop := match u with Some w => ∃ l, last ps = Some l ∧ pipPageIdx w = pipPageIdx l | None => True end.

Lemma old_pips_length ps u : upd_ok ps u → length (old_pips ps u) = length ps.
Proof.
  destruct u as [w|]; [|reflexivity]. intros (l & Hl & _). cbn [old_pips]. rewrite length_app, length_take. cbn [length]. destruct ps; [discriminate Hl|]. cbn [length]. lia.
Qed.

Lemma joined_length ps u ns : upd_ok ps u → length (joined ps u ns) = length ps + length ns.
Proof. intros H. unfold joined. rewrite length_app, old_pips_length by exact H. reflexivity. Qed.

Lemma pips_last_split {A} (l : list A) a : last l = Some a → l = take (length l - 1) l ++ [a].
Proof. intros H. apply last_Some in H as [l' ->]. rewrite length_app. cbn [length]. rewrite Nat.add_sub, take_app_length. reflexivity. Qed.

(** Changing the last old PIP, and a new one. *)
Lemma joined_update ps u ns w f : upd_ok ps u → last (old_pips ps u) = Some w → joined ps (Some (f w)) ns = alter f (length ps - 1) (joined ps u ns).
Proof.
  intros Hu Hw. pose proof (old_pips_length ps u Hu) as Hl. pose proof (pips_last_split _ _ Hw) as E. unfold joined. rewrite alter_app_l by (rewrite Hl; destruct ps; [destruct u; [destruct Hu as (l & Hl' & _); discriminate Hl'|discriminate Hw]|cbn [length]; lia]).
  f_equal. rewrite E, Hl. assert (Ht : take (length ps - 1) (old_pips ps u) = take (length ps - 1) ps) by (destruct u; [cbn [old_pips]; rewrite take_app_length' by (rewrite length_take; lia)|]; reflexivity).
  rewrite Ht. cbn [old_pips]. assert (Hlt : length (take (length ps - 1) ps) = length ps - 1) by (rewrite length_take; lia). rewrite alter_app_r_alt by lia. rewrite Hlt, Nat.sub_diag. reflexivity.
Qed.

Lemma joined_new ps u ns f i : upd_ok ps u → joined ps u (alter f i ns) = alter f (length ps + i) (joined ps u ns).
Proof. intros Hu. unfold joined. rewrite alter_app_r_alt by (rewrite old_pips_length by exact Hu; lia). rewrite old_pips_length by exact Hu. do 2 f_equal. lia. Qed.

Section Views.
Context {U : Type}.
Implicit Types x : DiskArray U.

Definition wpips x : list PIPWrapper := joined (pips x) (updatedLastPIP x) (newPIPs x).
Definition page_numbers (checkpoint : bool) x : list PIPWrapper := if checkpoint then wpips x else pips x.

(** What [getAPPageIdxNoLock] reads. *)
Lemma pip_lookup checkpoint x q : upd_ok (pips x) (updatedLastPIP x) →
  page_numbers checkpoint x !! q =
    if negb checkpoint || negb (hasPIPUpdatesNoLock (Z.of_nat q) x) then pips x !! q
    else if (Z.of_nat q =? Z.of_nat (length (pips x)) - 1)%Z && bool_decide (is_Some (updatedLastPIP x)) then updatedLastPIP x
    else newPIPs x !! (q - length (pips x)).
Proof.
  intros Hu. destruct checkpoint; cbn [negb orb page_numbers]; [|reflexivity]. pose proof (old_pips_length _ _ Hu) as Hlen. unfold wpips, joined, hasPIPUpdatesNoLock.
  destruct (Z.leb_spec (Z.of_nat (length (pips x))) (Z.of_nat q)) as [Hge|Hlt]; cbn [negb orb].
  - rewrite lookup_app_r by lia. rewrite Hlen. destruct (Z.eqb_spec (Z.of_nat q) (Z.of_nat (length (pips x)) - 1)); [lia|]. reflexivity.
  - rewrite lookup_app_l by lia. destruct (updatedLastPIP x) as [u|] eqn:Eu; cbn [old_pips] in *.
    + rewrite bool_decide_eq_true_2, andb_true_r by eauto. destruct (Z.eqb_spec (Z.of_nat q) (Z.of_nat (length (pips x)) - 1)) as [E|E]; cbn [negb andb].
      * rewrite lookup_app_r by (rewrite length_take; lia). rewrite length_take. replace (q - (length (pips x) - 1) `min` length (pips x)) with 0 by lia. reflexivity.
      * rewrite lookup_app_l by (rewrite length_take; lia). rewrite lookup_take_lt by lia. reflexivity.
    + rewrite bool_decide_eq_false_2, andb_false_r by (intros [? E]; discriminate E). reflexivity.
Qed.

Lemma getAPPageIdx_run x checkpoint a p :
  upd_ok (pips x) (updatedLastPIP x) → Forall full (page_numbers checkpoint x) → flat (page_numbers checkpoint x) !! a = Some p → getAPPageIdxNoLock (Z.of_nat a) checkpoint x = (Ok p, x).
Proof.
  pose proof CP_value as [HCP Hc]. intros Hu Hf Ha. assert (Hq : a / CP < length (page_numbers checkpoint x)). { apply lookup_lt_Some in Ha. rewrite flat_length in Ha by exact Hf. apply Nat.Div0.div_lt_upper_bound. lia. }
  destruct (lookup_lt_is_Some_2 _ _ Hq) as [w Hw]. rewrite (flat_lookup _ a w Hf Hw) in Ha. unfold getAPPageIdxNoLock. rewrite (M_bind_ok get_state _ x x x eq_refl). cbn zeta. rewrite HCP, <- Nat2Z.inj_div, <- Nat2Z.inj_mod, Nat2Z.id.
  assert (He : pip_entry (Z.of_nat (a mod CP)) (Some w) = Ok p) by (unfold pip_entry; rewrite Nat2Z.id, Ha; reflexivity). rewrite (pip_lookup checkpoint x _ Hu) in Hw. unfold observe.
  destruct (negb checkpoint || negb (hasPIPUpdatesNoLock (Z.of_nat (a / CP)) x)) eqn:E1; [rewrite Hw, He; reflexivity|]. destruct ((_ =? _)%Z && _) eqn:E2; [rewrite Hw, He; reflexivity|].
  assert (Hn : (Z.of_nat (length (pips x)) ≤ Z.of_nat (a / CP))%Z).
  { apply orb_false_iff in E1 as [_ E1]. apply negb_false_iff in E1. unfold hasPIPUpdatesNoLock in E1. destruct (Z.leb_spec (Z.of_nat (length (pips x))) (Z.of_nat (a / CP))); [assumption|]. rewrite E2 in E1. discriminate E1. }
  pose proof (lookup_lt_Some _ _ _ Hw) as Hlt. rewrite (proj2 (Z.leb_le _ _)) by exact Hn. rewrite (proj2 (Z.ltb_lt _ _)) by lia. cbn [andb]. rewrite (M_bind_ok (ku_assert true) _ x tt x eq_refl).
  replace (Z.to_nat (Z.of_nat (a / CP) - Z.of_nat (length (pips x)))) with (a / CP - length (pips x)) by lia. rewrite Hw, He. reflexivity.
Qed.
End Views.

(** ** Elements in pages *)

Section Elements.
Context {U : Type} (n : nat).
Hypothesis n_pos : 0 < n.
Implicit Types (content : Z → option (PageContent U)) (used : list Z) (W : list U).

(** The pages for so many elements. *)
Definition pages_for (len : nat) : nat := (len + n - 1) / n.

Definition cells_of (c : option (PageContent U)) : option (list U) := match c with Some (ArrayPage cs) => Some cs | _ => None end.
Definition elem content used (i : nat) : option U := p ← used !! (i / n); cs ← cells_of (content p); cs !! (i mod n).

Record view content used W : Prop := {
  vw_pages : length used = pages_for (length W);
  vw_cells : ∀ p, p ∈ used → ∃ cs, content p = Some (ArrayPage cs) ∧ length cs = n;
  vw_elems : ∀ i v, W !! i = Some v → elem content used i = Some v;
}.

Lemma view_ext content content' used W : (∀ p, p ∈ used → content' p = content p) → view content used W → view content' used W.
Proof.
  intros He [H1 H2 H3]. split; [exact H1|intros p Hp; rewrite He by exact Hp; auto|]. intros i v Hv. specialize (H3 i v Hv). unfold elem in *. destruct (used !! (i / n)) as [p|] eqn:Hp; [|discriminate H3].
  cbn in *. rewrite He by (apply list_elem_of_lookup; eauto). exact H3.
Qed.

Lemma pages_for_in len i : i < len → i / n < pages_for len.
Proof. intros Hi. unfold pages_for. apply Nat.div_le_lower_bound; [lia|]. rewrite Nat.mul_succ_r. pose proof (Nat.Div0.mul_div_le i n). lia. Qed.

Lemma view_page content used W i : view content used W → i < length W → ∃ p cs, used !! (i / n) = Some p ∧ content p = Some (ArrayPage cs) ∧ length cs = n ∧ W !! i = cs !! (i mod n).
Proof.
  intros [H1 H2 H3] Hi. destruct (lookup_lt_is_Some_2 used (i / n)) as [p Hp]; [rewrite H1; apply pages_for_in, Hi|]. destruct (H2 p ltac:(apply list_elem_of_lookup; eauto)) as (cs & Hc & Hl). exists p, cs. split; [exact Hp|]. split; [exact Hc|]. split; [exact Hl|].
  destruct (lookup_lt_is_Some_2 W i Hi) as [v Hv]. rewrite Hv. specialize (H3 i v Hv). unfold elem in H3. rewrite Hp in H3. cbn in H3. rewrite Hc in H3. cbn in H3. symmetry. exact H3.
Qed.

(** An index of another page or another place. *)
Lemma place_ne i j : i ≠ j → i / n = j / n → i mod n ≠ j mod n.
Proof. intros Hij Hd Hm. apply Hij. rewrite (Nat.div_mod_eq i n), (Nat.div_mod_eq j n). congruence. Qed.

(** Writing a cell of the page of [i]. *)
Lemma view_write content content' used W W' i p cs v :
  NoDup used → used !! (i / n) = Some p → content' p = Some (ArrayPage (<[i mod n := v]> cs)) → length cs = n → (∀ q, q ∈ used → q ≠ p → content' q = content q) →
  length used = pages_for (length W') → (∀ q, q ∈ used → q ≠ p → ∃ cs, content q = Some (ArrayPage cs) ∧ length cs = n) →
  W' !! i = Some v → (∀ j w, j ≠ i → W' !! j = Some w → if decide (j / n = i / n) then cs !! (j mod n) = Some w else elem content used j = Some w) →
  view content' used W'.
Proof.
  intros Hnd Hp Hc Hl Hother Hlen Hcells Hi Hj. split; [exact Hlen| |].
  - intros q Hq. destruct (decide (q = p)) as [->|Hne]; [exists (<[i mod n := v]> cs); rewrite length_insert; auto|]. rewrite Hother by assumption. apply Hcells; assumption.
  - intros j w Hw. destruct (decide (j = i)) as [->|Hne].
    + unfold elem. rewrite Hp. cbn. rewrite Hc. cbn. rewrite Hi in Hw. rewrite <- Hw. apply list_lookup_insert_eq. rewrite Hl. apply Nat.mod_upper_bound. lia.
    + specialize (Hj j w Hne Hw). destruct (decide (j / n = i / n)) as [E|E].
      * unfold elem. rewrite E, Hp. cbn. rewrite Hc. cbn. rewrite list_lookup_insert_ne; [exact Hj|]. intros Em. apply (place_ne i j); congruence.
      * unfold elem in *. destruct (used !! (j / n)) as [q|] eqn:Eq; [|discriminate Hj]. cbn in *. rewrite Hother; [exact Hj|apply list_elem_of_lookup; eauto|].
        intros ->. apply E. exact (NoDup_lookup _ _ _ _ Hnd Eq Hp).
Qed.

Lemma cells_update content content' used W i p cs v :
  view content used W → NoDup used → i < length W → used !! (i / n) = Some p → content p = Some (ArrayPage cs) → content' p = Some (ArrayPage (<[i mod n := v]> cs)) → (∀ q, q ∈ used → q ≠ p → content' q = content q) →
  view content' used (<[i := v]> W).
Proof.
  intros [H1 H2 H3] Hnd Hi Hp Hcs Hc Ho. destruct (H2 p ltac:(apply list_elem_of_lookup; eauto)) as (cs' & E & Hl). rewrite Hcs in E. injection E as <-.
  apply (view_write content content' used W _ i p cs v); try assumption; [rewrite length_insert; exact H1|intros q Hq _; exact (H2 q Hq)|apply list_lookup_insert_eq, Hi|].
  intros j w Hne Hw. rewrite list_lookup_insert_ne in Hw by congruence. specialize (H3 j w Hw). destruct (decide (j / n = i / n)) as [E|E]; [|exact H3]. unfold elem in H3. rewrite E, Hp in H3. cbn in H3. rewrite Hcs in H3. exact H3.
Qed.

Lemma pages_for_same len : len mod n ≠ 0 → pages_for (S len) = pages_for len.
Proof.
  intros Hm. unfold pages_for. pose proof (Nat.div_mod_eq len n) as E. set (q := len / n) in *. set (r := len mod n) in *. pose proof (Nat.mod_upper_bound len n ltac:(lia)) as Hr. fold r in Hr.
  rewrite <- (Nat.div_unique (S len + n - 1) n (S q) r) by lia. apply (Nat.div_unique _ n (S q) (r - 1)); lia.
Qed.
Lemma pages_for_new len : len mod n = 0 → pages_for (S len) = S (pages_for len) ∧ len / n = pages_for len.
Proof.
  intros Hm. unfold pages_for. pose proof (Nat.div_mod_eq len n) as E. set (q := len / n) in *. rewrite <- (Nat.div_unique (S len + n - 1) n (S q) 0) by lia. rewrite <- (Nat.div_unique (len + n - 1) n q (n - 1)) by lia. auto.
Qed.
Lemma pages_for_last len : len mod n ≠ 0 → S (len / n) = pages_for len.
Proof.
  intros Hm. unfold pages_for. pose proof (Nat.div_mod_eq len n) as E. pose proof (Nat.mod_upper_bound len n ltac:(lia)) as Hr. set (q := len / n) in *. set (r := len mod n) in *. apply (Nat.div_unique _ n (S q) (r - 1)); lia.
Qed.

Lemma view_push content content' used W p cs v :
  view content used W → NoDup used → length W mod n ≠ 0 → used !! (length W / n) = Some p → content p = Some (ArrayPage cs) → content' p = Some (ArrayPage (<[length W mod n := v]> cs)) →
  (∀ q, q ∈ used → q ≠ p → content' q = content q) → view content' used (W ++ [v]).
Proof.
  intros [H1 H2 H3] Hnd Hm Hp Hcs Hc Ho. destruct (H2 p ltac:(apply list_elem_of_lookup; eauto)) as (cs' & E & Hl). rewrite Hcs in E. injection E as <-.
  apply (view_write content content' used W _ (length W) p cs v); try assumption; [rewrite length_app, Nat.add_1_r, pages_for_same by exact Hm; exact H1|intros q Hq _; exact (H2 q Hq)|rewrite lookup_app_r, Nat.sub_diag by lia; reflexivity|].
  intros j w Hne Hw. assert (Hj : j < length W) by (apply lookup_lt_Some in Hw; rewrite length_app in Hw; cbn in Hw; lia). rewrite lookup_app_l in Hw by exact Hj. specialize (H3 j w Hw).
  destruct (decide (j / n = length W / n)) as [E|E]; [|exact H3]. unfold elem in H3. rewrite E, Hp in H3. cbn in H3. rewrite Hcs in H3. exact H3.
Qed.

Lemma view_push_page content content' used W p cs v :
  view content used W → NoDup (used ++ [p]) → length W mod n = 0 → length cs = n → content' p = Some (ArrayPage (<[0 := v]> cs)) → (∀ q, q ∈ used → content' q = content q) → view content' (used ++ [p]) (W ++ [v]).
Proof.
  intros [H1 H2 H3] Hnd Hm Hl Hc Ho. destruct (pages_for_new _ Hm) as [E1 E2]. assert (Hin : ∀ q, q ∈ used ++ [p] → q ≠ p → q ∈ used) by (intros q Hq Hne; apply elem_of_app in Hq as [Hq|Hq]; [exact Hq|apply list_elem_of_singleton in Hq; congruence]).
  apply (view_write content content' (used ++ [p]) W _ (length W) p cs v); try assumption.
  - rewrite E2, <- H1, lookup_app_r, Nat.sub_diag by lia. reflexivity.
  - rewrite Hm. exact Hc.
  - intros q Hq Hne. apply Ho. auto.
  - rewrite !length_app, !Nat.add_1_r, E1, H1. reflexivity.
  - intros q Hq Hne. apply H2. auto.
  - rewrite lookup_app_r, Nat.sub_diag by lia. reflexivity.
  - intros j w Hne Hw. assert (Hj : j < length W) by (apply lookup_lt_Some in Hw; rewrite length_app in Hw; cbn in Hw; lia). rewrite lookup_app_l in Hw by exact Hj. pose proof (pages_for_in _ j Hj) as Hpg.
    rewrite decide_False by lia. specialize (H3 j w Hw). unfold elem in *. rewrite lookup_app_l by lia. exact H3.
Qed.
End Elements.

(** ** The page numbers of an array *)

Fixpoint chained (first : Z) (ps : list PIPWrapper) : Prop :=
  match ps with [] => first = NULL_PAGE_IDX | w :: ps' => first = pipPageIdx w ∧ chained (nextPipPageIdx (pipContents w)) ps' end.

Record numbers_ok (J : list PIPWrapper) (alloc : list Z) (first : Z) (used : list Z) : Prop := {
  nb_full : Forall full J;
  nb_flat : flat J = used ++ replicate (length J * CP - length used) NULL_PAGE_IDX;
  nb_count : length J = pages_for CP (length used);
  nb_distinct : NoDup (used ++ map pipPageIdx J ++ alloc);
  nb_valid : Forall (λ p, (0 ≤ p < INVALID_PAGE_IDX)%Z) (used ++ map pipPageIdx J ++ alloc);
  nb_chain : chained first J;
}.

Lemma pages_for_mul (n a : nat) : 0 < n → a ≤ pages_for n a * n.
Proof. intros Hn. unfold pages_for. pose proof (Nat.div_mod_eq (a + n - 1) n). pose proof (Nat.mod_upper_bound (a + n - 1) n ltac:(lia)). lia. Qed.

Lemma chained_next first J q : J ≠ [] → chained first J → chained first (alter (set_next q) (length J - 1) J ++ [MkPIPWrapper q PIP_new]).
Proof.
  intros Hne. revert first. induction J as [|w J IH]; intros first Hc; [contradiction|]. destruct J as [|w' J].
  - destruct Hc as [-> _]. cbn. auto.
  - destruct Hc as [-> Hc]. replace (length (w :: w' :: J) - 1) with (S (length (w' :: J) - 1)) by (cbn [length]; lia). cbn [alter list_alter app chained]. split; [reflexivity|]. apply IH; [discriminate|exact Hc].
Qed.

Lemma chained_map first J J' : map (λ w, (pipPageIdx w, nextPipPageIdx (pipContents w))) J = map (λ w, (pipPageIdx w, nextPipPageIdx (pipContents w))) J' → chained first J → chained first J'.
Proof.
  revert first J'. induction J as [|w J IH]; intros first [|w' J'] E Hc; try discriminate E; [exact Hc|]. cbn [map] in E. injection E as E1 E2 E3. destruct Hc as [-> Hc]. cbn [chained]. split; [exact E1|]. apply IH; [exact E3|]. rewrite <- E2. exact Hc.
Qed.

Lemma map_alter_same {A B} (g : A → B) (f : A → A) i l : (∀ a, g (f a) = g a) → map g (alter f i l) = map g l.
Proof. intros Hf. revert i. induction l as [|a l IH]; intros [|i]; cbn; [reflexivity..|rewrite Hf; reflexivity|rewrite <- (IH i); reflexivity]. Qed.

Lemma insert_replicate {A} (l : list A) k (a p : A) : <[length l := p]> (l ++ replicate (S k) a) = (l ++ [p]) ++ replicate k a.
Proof. rewrite insert_app_r_alt, Nat.sub_diag by lia. cbn. rewrite <- app_assoc. reflexivity. Qed.

(** There is room in the last PIP for one more page. *)
Lemma numbers_fill J p alloc first used :
  numbers_ok J (p :: alloc) first used → length used / CP < length J → numbers_ok (alter (set_pageIdx (Z.of_nat (length used mod CP)) p) (length used / CP) J) alloc first (used ++ [p]).
Proof.
  pose proof CP_value as [_ HCP]. intros [H1 H2 H3 H4 H5 H6] Hlt. set (a := length used) in *. assert (Hm : a mod CP ≠ 0) by (intros Hm; destruct (pages_for_new CP ltac:(lia) a Hm); lia).
  assert (Hroom : a < length J * CP) by (pose proof (Nat.div_mod_eq a CP); pose proof (Nat.mod_upper_bound a CP ltac:(lia)); nia).
  assert (Hpip : map pipPageIdx (alter (set_pageIdx (Z.of_nat (a mod CP)) p) (a / CP) J) = map pipPageIdx J) by (apply map_alter_same; reflexivity).
  assert (Hperm : (used ++ [p]) ++ map pipPageIdx J ++ alloc ≡ₚ used ++ map pipPageIdx J ++ p :: alloc) by (rewrite <- app_assoc; cbn; apply Permutation_app_head, Permutation_middle).
  split; rewrite ?Hpip, ?length_alter, ?length_app; cbn [length].
  - apply Forall_alter_full; [apply full_set_pageIdx|exact H1].
  - rewrite (flat_alter J a p H1 Hlt), H2. fold a. replace (length J * CP - a) with (S (length J * CP - (a + 1))) by lia. apply insert_replicate.
  - fold a. rewrite Nat.add_1_r, (pages_for_same CP ltac:(lia) a Hm). exact H3.
  - rewrite Hperm. exact H4.
  - rewrite Hperm. exact H5.
  - apply (chained_map first J); [|exact H6]. symmetry. apply map_alter_same. reflexivity.
Qed.

(** A new PIP for one more page. *)
Lemma numbers_extend J p q alloc first used :
  numbers_ok J (p :: q :: alloc) first used → length J ≤ length used / CP →
  numbers_ok (alter (set_next q) (length J - 1) J ++ [set_pageIdx (Z.of_nat (length used mod CP)) p (MkPIPWrapper q PIP_new)]) alloc (if decide (J = []) then q else first) (used ++ [p]).
Proof.
  pose proof CP_value as [_ HCP]. intros [H1 H2 H3 H4 H5 H6] Hge. set (a := length used) in *. assert (Hm : a mod CP = 0) by (destruct (decide (a mod CP = 0)) as [E|E]; [exact E|pose proof (pages_for_last CP ltac:(lia) a E); lia]).
  destruct (pages_for_new CP ltac:(lia) a Hm) as [E1 E2]. assert (Ha : a = length J * CP) by (pose proof (Nat.div_mod_eq a CP); lia). rewrite Hm. set (new := set_pageIdx (Z.of_nat 0) p (MkPIPWrapper q PIP_new)). set (J1 := alter (set_next q) (length J - 1) J).
  assert (Hpip : map pipPageIdx (J1 ++ [new]) = map pipPageIdx J ++ [q]) by (rewrite map_app; unfold J1; rewrite map_alter_same by reflexivity; reflexivity).
  assert (Hl : length (J1 ++ [new]) = S (length J)) by (rewrite length_app; unfold J1; rewrite length_alter; cbn; lia).
  assert (Hperm : (used ++ [p]) ++ (map pipPageIdx J ++ [q]) ++ alloc ≡ₚ used ++ map pipPageIdx J ++ p :: q :: alloc).
  { rewrite <- !app_assoc. cbn. apply Permutation_app_head. rewrite Permutation_middle. apply Permutation_app_head. reflexivity. }
  split; rewrite ?Hpip, ?Hl, ?length_app; cbn [length].
  - apply Forall_app. split; [apply Forall_alter_full; [apply full_set_next|exact H1]|]. constructor; [apply full_set_pageIdx, full_new|constructor].
  - rewrite flat_app. unfold J1. rewrite flat_set_next, H2. fold a. rewrite Ha, Nat.sub_diag, app_nil_r, <- app_assoc. f_equal. unfold flat, new. cbn. rewrite app_nil_r. unfold PIP_new. cbn [pageIdxs]. fold CP.
    destruct CP as [|c]; [lia|]. change (<[_ := p]> _) with (p :: replicate c NULL_PAGE_IDX). cbn [app]. f_equal. f_equal. lia.
  - fold a. rewrite Nat.add_1_r, E1. lia.
  - rewrite Hperm. exact H4.
  - rewrite Hperm. exact H5.
  - destruct (decide (J = [])) as [->|Hne]; [split; reflexivity|]. apply (chained_map first (J1 ++ [MkPIPWrapper q PIP_new])); [rewrite !map_app; reflexivity|]. apply chained_next; assumption.
Qed.
