(* ===== verification/DiskArrayOps.v ===== *)
(** * The operations of a disk array

    The invariant of a disk array with its files, and what every operation does to the elements that a checkpoint and the others see. *)

From stdpp Require Import base numbers list gmap strings.
From Stdlib Require Import ZArith Lia.
From S2P Require Import Prelude DiskArray DiskArraySpec.
Import DiskArray.

#[local] Open Scope nat_scope.

Section Ops.
Context {U : Type} (elementSize : Z).
Hypothesis size_ok : (0 < elementSize ≤ Z.of_nat KUZU_PAGE_SIZE)%Z.

Definition n : nat := Z.to_nat (numElementsPerPage elementSize).

Implicit Types (x : DiskArray U) (used : list Z) (W C : list U) (p : Z).

Lemma per_page : numElementsPerPage elementSize = Z.of_nat n ∧ 1 ≤ n ≤ 4096.
Proof.
  unfold n, numElementsPerPage, alignedElementSize. change (Z.of_nat KUZU_PAGE_SIZE) with 4096%Z in *. assert (Hl : (0 ≤ Z.log2_up elementSize ≤ 12)%Z) by (split; [apply Z.log2_up_nonneg|change 12%Z with (Z.log2_up 4096); apply Z.log2_up_le_mono; lia]).
  assert (H0 : (0 < 2 ^ Z.log2_up elementSize)%Z) by (apply Z.pow_pos_nonneg; lia). assert (H1 : (2 ^ Z.log2_up elementSize ≤ 2 ^ 12)%Z) by (apply Z.pow_le_mono_r; lia).
  assert (1 ≤ 4096 / 2 ^ Z.log2_up elementSize)%Z by (apply Z.div_le_lower_bound; lia). assert (4096 / 2 ^ Z.log2_up elementSize ≤ 4096)%Z by (apply Z.div_le_upper_bound; lia). lia.
Qed.

Lemma n_pos : 0 < n.
Proof. pose proof per_page. lia. Qed.

Lemma cursor_of i : (Z.of_nat i < 2 ^ 32)%Z → getAPIdxAndOffsetInAP elementSize (Z.of_nat i) = (Z.of_nat (i / n), Z.of_nat (i mod n)).
Proof.
  intros Hi. destruct per_page as [E Hn]. unfold getAPIdxAndOffsetInAP. rewrite E, <- Nat2Z.inj_div, <- Nat2Z.inj_mod, uwrap_small; [reflexivity|]. assert (i / n ≤ i) by (apply Nat.Div0.div_le_upper_bound; nia). lia.
Qed.

Lemma numAPs_of len first : getNumAPs elementSize (MkHeader (Z.of_nat len) first) = Z.of_nat (pages_for n len).
Proof. destruct per_page as [E Hn]. unfold getNumAPs, pages_for. cbn [numElements]. rewrite E, Nat2Z.inj_div. f_equal. lia. Qed.

Variable junk : list U.
Hypothesis junk_full : length junk = n.

(** ** The invariant *)

(** What the checkpoint reads of a page. *)
Definition wpage x p : option (PageContent U) := if (p <=? lastPageOnDisk x)%Z && bool_decide (p ∈ shadowMap x) then shadowPages x !! p else original x !! p.

Record array_ok x used W : Prop := {
  ao_count : numElements (headerForWriteTrx x) = Z.of_nat (length W);
  ao_upd : upd_ok (pips x) (updatedLastPIP x);
  ao_linked : newPIPs x ≠ [] → pips x ≠ [] → is_Some (updatedLastPIP x);
  ao_old : Forall full (pips x);
  ao_numbers : numbers_ok (wpips x) (allocatable x) (firstPIPPageIdx (headerForWriteTrx x)) used;
  ao_view : view n (wpage x) used W;
  ao_shadow : shadowMap x = dom (shadowPages x);
  ao_shadowed : ∀ p, p ∈ shadowMap x → p ∈ used ∧ (p ≤ lastPageOnDisk x)%Z;
  ao_clean : hasTransactionalUpdates x = false → shadowMap x = ∅ ∧ updatedLastPIP x = None ∧ newPIPs x = [];
  ao_last : lastAPPageIdx x = INVALID_PAGE_IDX ∨ last used = Some (lastAPPageIdx x);
}.

(** The elements that the others read. *)
Record readable x usedc C : Prop := {
  rd_count : numElements (header x) = Z.of_nat (length C);
  rd_view : view n (λ p, original x !! p) usedc C;
  rd_flat : ∃ rest, flat (pips x) = usedc ++ rest;
}.
(** They are in pages that a checkpoint does not write to. *)
Record committed_ok x usedc C : Prop := {
  co_readable : readable x usedc C;
  co_isolated : ∀ p, p ∈ usedc → (p ≤ lastPageOnDisk x)%Z ∧ p ∉ allocatable x;
}.

Lemma used_distinct x used W : array_ok x used W → NoDup used.
Proof. intros H. pose proof (nb_distinct _ _ _ _ (ao_numbers _ _ _ H)) as Hd. apply NoDup_app in Hd as [Hd _]. exact Hd. Qed.

Lemma flat_used x used W a p : array_ok x used W → used !! a = Some p → flat (wpips x) !! a = Some p.
Proof. intros H Ha. rewrite (nb_flat _ _ _ _ (ao_numbers _ _ _ H)). rewrite lookup_app_l by (apply lookup_lt_Some in Ha; exact Ha). exact Ha. Qed.

Lemma used_valid x used W p : array_ok x used W → p ∈ used → (0 ≤ p < INVALID_PAGE_IDX)%Z.
Proof. intros H Hp. pose proof (nb_valid _ _ _ _ (ao_numbers _ _ _ H)) as Hv. rewrite Forall_forall in Hv. apply Hv. apply elem_of_app. auto. Qed.

(** ** Reading *)

(** Reading an element whose page numbers and pages are known. *)
Lemma get_view x checkpoint used W content i v :
  upd_ok (pips x) (updatedLastPIP x) → Forall full (page_numbers checkpoint x) → (∀ a p, used !! a = Some p → flat (page_numbers checkpoint x) !! a = Some p) →
  getNumElements checkpoint x = Z.of_nat (length W) → view n content used W → (Z.of_nat (length W) ≤ 2 ^ 32)%Z →
  (∀ p, p ∈ used → (if negb checkpoint || negb (hasTransactionalUpdates x) || (lastPageOnDisk x <? p)%Z || bool_decide (p ∉ shadowMap x) then original x !! p else shadowPages x !! p) = content p) →
  W !! i = Some v → get elementSize checkpoint (Z.of_nat i) x = (Ok v, x).
Proof.
  intros Hu Hf Hflat Hc Hv Hlen Hread Hi. apply lookup_lt_Some in Hi as Hlt. destruct (view_page n n_pos content used W i Hv Hlt) as (p & cs & Hp & Hcs & Hl & E). unfold get, checkOutOfBoundAccess. rewrite cursor_of by lia.
  rewrite (M_bind_ok _ _ x tt x) by (unfold observe; rewrite Hc, (proj2 (Z.leb_gt _ _)) by lia; reflexivity). cbn beta iota. rewrite (M_bind_ok _ _ _ _ _ (getAPPageIdx_run x checkpoint (i / n) p Hu Hf (Hflat _ _ Hp))).
  specialize (Hread p ltac:(apply list_elem_of_lookup; eauto)). rewrite Hcs in Hread. unfold observe. rewrite Hi in E.
  assert (Hcell : read_cell (Z.of_nat (i mod n)) (Some (ArrayPage cs)) = Ok v) by (cbn; rewrite Nat2Z.id, <- E; reflexivity).
  destruct (negb checkpoint || negb (hasTransactionalUpdates x) || (lastPageOnDisk x <? p)%Z || bool_decide (p ∉ shadowMap x)); rewrite Hread, Hcell; reflexivity.
Qed.

Lemma get_out x checkpoint i len : getNumElements checkpoint x = Z.of_nat len → len ≤ i → get elementSize checkpoint (Z.of_nat i) x = (Throw (out_of_bounds (Z.of_nat i) (Z.of_nat len)), x).
Proof. intros Hc Hi. unfold get. apply M_bind_throw. unfold checkOutOfBoundAccess, observe. rewrite Hc, (proj2 (Z.leb_le _ _)) by lia. reflexivity. Qed.

(** The outcome of reading an element of a list. *)
Definition read_list (W : list U) (i : nat) : outcome U := match W !! i with Some v => Ok v | None => Throw (out_of_bounds (Z.of_nat i) (Z.of_nat (length W))) end.

Lemma get_current x used W i : array_ok x used W → (Z.of_nat (length W) ≤ 2 ^ 32)%Z → get elementSize true (Z.of_nat i) x = (read_list W i, x).
Proof.
  intros H Hlen. unfold read_list. destruct (W !! i) as [v|] eqn:Hi; [|apply lookup_ge_None_1 in Hi; apply get_out; [exact (ao_count _ _ _ H)|exact Hi]].
  apply (get_view x true used W (wpage x)); [exact (ao_upd _ _ _ H)|exact (nb_full _ _ _ _ (ao_numbers _ _ _ H))|intros a p; apply (flat_used x used W a p H)|exact (ao_count _ _ _ H)|exact (ao_view _ _ _ H)|exact Hlen| |exact Hi].
  - intros p Hp. cbn [negb orb]. unfold wpage. rewrite Z.ltb_antisym. destruct (p <=? lastPageOnDisk x)%Z; cbn [negb orb andb]; [|rewrite orb_true_r; reflexivity].
    destruct (hasTransactionalUpdates x) eqn:Ht; cbn [negb orb]; [|destruct (ao_clean _ _ _ H Ht) as [-> _]; rewrite bool_decide_eq_false_2 by set_solver; reflexivity].
    rewrite bool_decide_not. destruct (bool_decide (p ∈ shadowMap x)); reflexivity.
Qed.

Lemma get_committed x used W usedc C i : array_ok x used W → readable x usedc C → (Z.of_nat (length C) ≤ 2 ^ 32)%Z → get elementSize false (Z.of_nat i) x = (read_list C i, x).
Proof.
  intros H [H1 H2 H3] Hlen. unfold read_list. destruct (C !! i) as [v|] eqn:Hi; [|apply lookup_ge_None_1 in Hi; apply get_out; [exact H1|exact Hi]].
  apply (get_view x false usedc C (λ p, original x !! p)); [exact (ao_upd _ _ _ H)|exact (ao_old _ _ _ H)| |exact H1|exact H2|exact Hlen| |exact Hi].
  - intros a p Ha. cbn [page_numbers]. destruct H3 as [rest ->]. rewrite lookup_app_l by (apply lookup_lt_Some in Ha; exact Ha). exact Ha.
  - reflexivity.
Qed.

(** ** Writing to pages *)

(** Everything but the files. *)
Definition rest x := (allocatable x, header x, headerForWriteTrx x, hasTransactionalUpdates x, (pips x, updatedLastPIP x, newPIPs x), lastAPPageIdx x, lastPageOnDisk x).

Lemma array_ok_frame x x' used W W' :
  array_ok x used W → rest x' = rest x → hasTransactionalUpdates x = true → length W' = length W → view n (wpage x') used W' → shadowMap x' = dom (shadowPages x') →
  (∀ p, p ∈ shadowMap x' → p ∈ used ∧ (p ≤ lastPageOnDisk x')%Z) → array_ok x' used W'.
Proof.
  intros [H1 H2 H3 H4 H5 H6 H7 H8 H9 H10] Hr Ht Hlen Hv Hs1 Hs2. unfold rest in Hr. injection Hr as E1 E2 E3 E4 E5 E6 E7 E8 E9. split; unfold wpips in *; rewrite ?E1, ?E3, ?E4, ?E5, ?E6, ?E7, ?E8; try assumption; [rewrite H1, Hlen; reflexivity|congruence].
Qed.

Lemma committed_ok_frame x x' usedc C : committed_ok x usedc C → rest x' = rest x → (∀ q, q ∈ usedc → original x' !! q = original x !! q) → committed_ok x' usedc C.
Proof.
  intros [[H1 H2 H3] H4] Hr Ho. unfold rest in Hr. injection Hr as E1 E2 E3 E4 E5 E6 E7 E8 E9. split; [split|]; rewrite ?E1, ?E2, ?E5, ?E9; try assumption. apply (view_ext n (λ p, original x !! p)); [exact Ho|exact H2].
Qed.

(** Getting a page ready for writing, and writing to it: the parts of [updatePage] and of the iterator. *)
Definition touch (p : Z) (isNew : bool) : M (DiskArray U) unit :=
  x ← get_state; if (p <=? lastPageOnDisk x)%Z then createShadowVersionIfNecessary p isNew (ArrayPage junk) else pinPage junk p isNew.
Definition poke (p : Z) (g : PageContent U → PageContent U) : M (DiskArray U) unit :=
  x ← get_state; if (p <=? lastPageOnDisk x)%Z then write_shadow p g else write_original p g.
Definition at_hand p x : Prop := (p ≤ lastPageOnDisk x)%Z → p ∈ shadowMap x.

Lemma touch_run x used W p :
  array_ok x used W → hasTransactionalUpdates x = true → p ∈ used →
  ∃ x', touch p false x = (Ok tt, x') ∧ rest x' = rest x ∧ original x' = original x ∧ array_ok x' used W ∧ at_hand p x' ∧ (∀ q, at_hand q x → at_hand q x').
Proof.
  intros H Ht Hp. pose proof (vw_cells _ _ _ _ (ao_view _ _ _ H) p Hp) as (cs & Hcs & Hl). unfold touch. rewrite (M_bind_ok get_state _ x x x eq_refl). unfold wpage in Hcs. destruct (Z.leb_spec p (lastPageOnDisk x)) as [Hle|Hgt].
  - unfold createShadowVersionIfNecessary. rewrite (M_bind_ok get_state _ x x x eq_refl). cbn [andb] in Hcs. destruct (decide (p ∈ shadowMap x)) as [Hin|Hout].
    + rewrite bool_decide_eq_true_2 by exact Hin. exists x. split_and!; auto. intros _. exact Hin.
    + rewrite bool_decide_eq_false_2 in * by exact Hout. rewrite Hcs. rewrite (M_bind_ok (mret (ArrayPage cs)) _ x (ArrayPage cs) x eq_refl). eexists. split; [reflexivity|]. split; [reflexivity|]. split; [reflexivity|].
      split; [|split; [intros _; cbn; set_solver|intros q Hq Hle'; cbn; apply elem_of_union; right; exact (Hq Hle')]]. apply (array_ok_frame x _ used W W); try assumption; [reflexivity|reflexivity| | |].
      * apply (view_ext n (wpage x)); [|exact (ao_view _ _ _ H)]. intros q Hq. unfold wpage. cbn. destruct (Z.leb_spec q (lastPageOnDisk x)); cbn [andb]; [|reflexivity]. destruct (decide (q = p)) as [->|Hne].
        -- rewrite lookup_insert_eq, bool_decide_eq_true_2, bool_decide_eq_false_2 by set_solver. symmetry. exact Hcs.
        -- rewrite lookup_insert_ne by congruence. assert (E : bool_decide (q ∈ {[p]} ∪ shadowMap x) = bool_decide (q ∈ shadowMap x)) by (apply bool_decide_ext; set_solver). rewrite E. reflexivity.
      * cbn. rewrite dom_insert_L, (ao_shadow _ _ _ H). reflexivity.
      * cbn. intros q Hq. apply elem_of_union in Hq as [Hq|Hq]; [apply elem_of_singleton in Hq; subst q; auto|exact (ao_shadowed _ _ _ H q Hq)].
  - cbn [andb] in Hcs. unfold pinPage. rewrite (M_bind_ok get_state _ x x x eq_refl), Hcs. exists x. split_and!; auto. intros Hle. lia.
Qed.

Lemma poke_run x p k v cs :
  at_hand p x → shadowMap x = dom (shadowPages x) → wpage x p = Some (ArrayPage cs) →
  ∃ x', poke p (set_cell (Z.of_nat k) v) x = (Ok tt, x') ∧ rest x' = rest x ∧ shadowMap x' = shadowMap x ∧ shadowMap x' = dom (shadowPages x') ∧ wpage x' p = Some (ArrayPage (<[k := v]> cs)) ∧
    (∀ q, q ≠ p → wpage x' q = wpage x q) ∧ (∀ q, (q ≤ lastPageOnDisk x)%Z ∨ q ≠ p → original x' !! q = original x !! q).
Proof.
  intros Hh Hd Hp. unfold poke. rewrite (M_bind_ok get_state _ x x x eq_refl). unfold wpage, at_hand in *. destruct (Z.leb_spec p (lastPageOnDisk x)) as [Hle|Hgt].
  - rewrite bool_decide_eq_true_2 in Hp by auto. cbn [andb] in Hp. unfold write_shadow. rewrite (M_bind_ok get_state _ x x x eq_refl), Hp. eexists. split; [reflexivity|]. split; [reflexivity|]. split; [reflexivity|]. cbn. split; [|split; [|split]].
    + rewrite dom_insert_L, Hd. assert (p ∈ dom (shadowPages x)) by (apply elem_of_dom; eauto). set_solver.
    + rewrite (proj2 (Z.leb_le _ _)) by lia. rewrite bool_decide_eq_true_2 by auto. cbn [andb]. rewrite lookup_insert_eq, Nat2Z.id. reflexivity.
    + intros q Hne. rewrite lookup_insert_ne by congruence. reflexivity.
    + auto.
  - cbn [andb] in Hp. unfold write_original. rewrite (M_bind_ok get_state _ x x x eq_refl), Hp. eexists. split; [reflexivity|]. split; [reflexivity|]. split; [reflexivity|]. cbn. split; [exact Hd|]. split; [|split].
    + rewrite (proj2 (Z.leb_gt _ _)) by lia. cbn [andb]. rewrite lookup_insert_eq, Nat2Z.id. reflexivity.
    + intros q Hne. rewrite lookup_insert_ne by congruence. reflexivity.
    + intros q Hq. apply lookup_insert_ne. destruct Hq; [lia|congruence].
Qed.

(** Writing an element in a page that is at hand. *)
Lemma write_element x used W i p v :
  array_ok x used W → hasTransactionalUpdates x = true → i < length W → used !! (i / n) = Some p → at_hand p x →
  ∃ x', poke p (set_cell (Z.of_nat (i mod n)) v) x = (Ok tt, x') ∧ rest x' = rest x ∧ array_ok x' used (<[i := v]> W) ∧ (∀ q, at_hand q x → at_hand q x') ∧ (∀ q, q ∉ used → original x' !! q = original x !! q) ∧ (∀ usedc C, committed_ok x usedc C → committed_ok x' usedc C).
Proof.
  intros H Ht Hi Hp Hh. destruct (view_page n n_pos _ _ _ i (ao_view _ _ _ H) Hi) as (p' & cs & Hp' & Hcs & Hl & _). rewrite Hp in Hp'. injection Hp' as <-.
  destruct (poke_run x p (i mod n) v cs Hh (ao_shadow _ _ _ H) Hcs) as (x' & Hrun & Hr & Hm & Hd & Hw & Ho & Horig). exists x'. split; [exact Hrun|]. split; [exact Hr|]. assert (El : lastPageOnDisk x' = lastPageOnDisk x) by (unfold rest in Hr; congruence).
  split; [|split; [|split]].
  - apply (array_ok_frame x x' used W); try assumption; [apply length_insert| |rewrite Hm, El; exact (ao_shadowed _ _ _ H)]. exact (cells_update n n_pos (wpage x) (wpage x') used W i p cs v (ao_view _ _ _ H) (used_distinct x used W H) Hi Hp Hcs Hw (λ q _ Hne, Ho q Hne)).
  - intros q Hq. unfold at_hand. rewrite El, Hm. exact Hq.
  - intros q Hq. apply Horig. right. intros ->. apply Hq, list_elem_of_lookup. eauto.
  - intros usedc C Hc. apply (committed_ok_frame x x' usedc C Hc Hr). intros q Hq. apply Horig. left. apply (co_isolated _ _ _ Hc q Hq).
Qed.

Lemma set_updates_ok x used W : array_ok x used W → array_ok (set_updates true x) used W ∧ (∀ usedc C, committed_ok x usedc C → committed_ok (set_updates true x) usedc C).
Proof. intros [H1 H2 H3 H4 H5 H6 H7 H8 H9 H10]. split; [split; try assumption; discriminate|]. intros usedc C [[C1 C2 C3] C4]. split; [split|]; assumption. Qed.

Lemma updatePage_parts p g x : updatePage junk p false g x = (touch p false ;; poke p g) x.
Proof.
  unfold updatePage, touch, poke, shadow_updatePage, mbind, M_bind, get_state. destruct (p <=? lastPageOnDisk x)%Z eqn:E.
  - destruct (createShadowVersionIfNecessary p false (ArrayPage junk) x) as [[[]|e] x'] eqn:Ec; [|reflexivity]. cbn. assert (El : lastPageOnDisk x' = lastPageOnDisk x); [|rewrite El, E; reflexivity].
    unfold createShadowVersionIfNecessary in Ec. rewrite (M_bind_ok get_state _ x x x eq_refl) in Ec. destruct (bool_decide _); [injection Ec as <-; reflexivity|]. destruct (original x !! p); [|discriminate Ec]. injection Ec as <-. reflexivity.
  - destruct (pinPage junk p false x) as [[[]|e] x'] eqn:Ec; [|reflexivity]. cbn. assert (El : lastPageOnDisk x' = lastPageOnDisk x); [|rewrite El, E; reflexivity].
    unfold pinPage in Ec. rewrite (M_bind_ok get_state _ x x x eq_refl) in Ec. destruct (original x !! p); [injection Ec as <-; reflexivity|discriminate Ec].
Qed.

(** What every operation of a checkpoint keeps. *)
Definition keeps x x' : Prop :=
  lastPageOnDisk x' = lastPageOnDisk x ∧ header x' = header x ∧ pips x' = pips x ∧ (∀ w, w ∈ pips x → original x' !! pipPageIdx w = original x !! pipPageIdx w) ∧ ∀ usedc C, committed_ok x usedc C → committed_ok x' usedc C.

Lemma keeps_trans x y z : keeps x y → keeps y z → keeps x z.
Proof. intros (A1 & A2 & A3 & A4 & A5) (B1 & B2 & B3 & B4 & B5). split_and!; [congruence|congruence|congruence| |auto]. intros w Hw. rewrite B4 by congruence. auto. Qed.

Lemma page_of x used W i : array_ok x used W → i < length W → ∃ p, used !! (i / n) = Some p ∧ p ∈ used ∧ getAPPageIdxNoLock (Z.of_nat (i / n)) true x = (Ok p, x).
Proof.
  intros H Hi. destruct (view_page n n_pos _ _ _ i (ao_view _ _ _ H) Hi) as (p & _ & Hp & _). exists p. split; [exact Hp|]. split; [apply list_elem_of_lookup; eauto|].
  apply getAPPageIdx_run; [exact (ao_upd _ _ _ H)|exact (nb_full _ _ _ _ (ao_numbers _ _ _ H))|exact (flat_used x used W _ p H Hp)].
Qed.

(** The page numbers of PIPs are not those of array pages. *)
Lemma pip_not_used x used W w : array_ok x used W → w ∈ pips x → pipPageIdx w ∉ used ++ allocatable x.
Proof.
  intros H Hw. assert (Hp : pipPageIdx w ∈ map pipPageIdx (wpips x)).
  { unfold wpips, joined. rewrite map_app. apply elem_of_app. left. pose proof (ao_upd _ _ _ H) as Hu. destruct (updatedLastPIP x) as [u|]; [|apply list_elem_of_fmap; eauto]. destruct Hu as (l & Hl & E). cbn [old_pips]. rewrite map_app. cbn [map]. rewrite (pips_last_split _ _ Hl) in Hw.
    apply elem_of_app in Hw as [Hw|Hw]; apply elem_of_app; [left; apply list_elem_of_fmap; eauto|right]. apply list_elem_of_singleton in Hw. subst w. rewrite E. left. }
  pose proof (nb_distinct _ _ _ _ (ao_numbers _ _ _ H)) as Hd. rewrite NoDup_app in Hd. destruct Hd as (_ & Hd1 & Hd2). rewrite NoDup_app in Hd2. destruct Hd2 as (_ & Hd2 & _). rewrite elem_of_app. intros [Hin|Hin]; [apply (Hd1 _ Hin), elem_of_app; auto|exact (Hd2 _ Hp Hin)].
Qed.

Lemma rest_keeps x x' used W : array_ok x used W → rest x' = rest x → (∀ q, q ∉ used → original x' !! q = original x !! q) → (∀ usedc C, committed_ok x usedc C → committed_ok x' usedc C) → keeps x x'.
Proof.
  unfold rest. intros H Hr Ho Hc. injection Hr as E1 E2 E3 E4 E5 E6 E7 E8 E9. split_and!; try assumption. intros w Hw. apply Ho. pose proof (pip_not_used x used W w H Hw) as Hn. rewrite elem_of_app in Hn. tauto.
Qed.

Lemma update_run x used W i v :
  array_ok x used W → (Z.of_nat (length W) ≤ 2 ^ 32)%Z →
  ∃ x', update elementSize junk (Z.of_nat i) v x = (if decide (i < length W) then Ok tt else Throw (out_of_bounds (Z.of_nat i) (Z.of_nat (length W))), x') ∧ array_ok x' used (<[i := v]> W) ∧ keeps x x' ∧ allocatable x' = allocatable x.
Proof.
  intros H Hlen. destruct (set_updates_ok x used W H) as [H1 Hc1]. set (x1 := set_updates true x) in *. unfold update. rewrite (M_bind_ok (modify (set_updates true)) _ x tt x1 eq_refl). destruct (decide (i < length W)) as [Hi|Hi].
  - rewrite (M_bind_ok _ _ x1 tt x1) by (unfold checkOutOfBoundAccess, observe, getNumElements; cbn [getDiskArrayHeader]; rewrite (ao_count _ _ _ H1), (proj2 (Z.leb_gt _ _)) by lia; reflexivity). rewrite cursor_of by lia. cbn beta iota.
    destruct (page_of x1 used W i H1 Hi) as (p & Hp & Hin & Hrun). rewrite (M_bind_ok _ _ _ _ _ Hrun), updatePage_parts. destruct (touch_run x1 used W p H1 eq_refl Hin) as (x2 & Hrun2 & Hr2 & Ho2 & H2 & Hh2 & _). rewrite (M_bind_ok _ _ _ _ _ Hrun2).
    assert (Ht2 : hasTransactionalUpdates x2 = true) by (unfold rest in Hr2; injection Hr2; auto). destruct (write_element x2 used W i p v H2 Ht2 Hi Hp Hh2) as (x3 & Hrun3 & Hr3 & H3 & _ & Ho3 & Hc3). exists x3. split; [exact Hrun3|]. split; [exact H3|].
    assert (Hk : keeps x x3); [|split; [exact Hk|unfold rest in *; injection Hr3; injection Hr2; intros; cbn in *; congruence]].
    apply (keeps_trans x x1); [split_and!; auto|]. apply (keeps_trans x1 x2); [|exact (rest_keeps x2 x3 used W H2 Hr3 Ho3 Hc3)]. apply (rest_keeps x1 x2 used W H1 Hr2); [intros q _; rewrite Ho2; reflexivity|]. intros usedc C Hc. apply (committed_ok_frame x1 x2 usedc C Hc Hr2). intros q _. rewrite Ho2. reflexivity.
  - exists x1. split; [apply M_bind_throw; unfold checkOutOfBoundAccess, observe, getNumElements; cbn [getDiskArrayHeader]; rewrite (ao_count _ _ _ H1), (proj2 (Z.leb_le _ _)) by lia; reflexivity|]. rewrite list_insert_ge by lia. split; [exact H1|].
    split; [split_and!; auto|reflexivity].
Qed.

(** ** The iterator *)

Inductive it_ok x used (it : WriteIterator) : Prop :=
  | it_new : cursorPage it = UINT32_MAX → originalPage it = INVALID_PAGE_IDX → it_ok x used it
  | it_at a p : cursorPage it = Z.of_nat a → used !! a = Some p → originalPage it = p → onShadow it = (p <=? lastPageOnDisk x)%Z → at_hand p x → it_ok x used it.

(** The iterator is at the element [i]. *)
Definition it_on x used (it : WriteIterator) (i : nat) : Prop :=
  cursorPage it = Z.of_nat (i / n) ∧ cursorPos it = Z.of_nat (i mod n) ∧ itIdx it = Z.of_nat i ∧ ∃ p, used !! (i / n) = Some p ∧ originalPage it = p ∧ onShadow it = (p <=? lastPageOnDisk x)%Z ∧ at_hand p x.

Lemma it_on_ok x used it i : it_on x used it i → it_ok x used it.
Proof. intros (H1 & _ & _ & p & H2 & H3 & H4 & H5). exact (it_at x used it (i / n) p H1 H2 H3 H4 H5). Qed.

Lemma getPage_touch p b a pos i it x x' : touch p b x = (Ok tt, x') → getPage junk p b (MkIterator a pos i (originalPage it) (onShadow it)) x = (Ok (MkIterator a pos i p (p <=? lastPageOnDisk x)%Z), x').
Proof.
  intros Hrun. unfold getPage, touch in *. rewrite (M_bind_ok get_state _ x x x eq_refl). rewrite (M_bind_ok get_state _ x x x eq_refl) in Hrun.
  destruct (p <=? lastPageOnDisk x)%Z; rewrite (M_bind_ok _ _ _ _ _ Hrun); unfold unpin; cbn [onShadow]; destruct (onShadow it); reflexivity.
Qed.

Lemma getPage_run x used W p a pos i it :
  array_ok x used W → hasTransactionalUpdates x = true → p ∈ used →
  ∃ x', getPage junk p false (MkIterator a pos i (originalPage it) (onShadow it)) x = (Ok (MkIterator a pos i p (p <=? lastPageOnDisk x)%Z), x') ∧ rest x' = rest x ∧ original x' = original x ∧ array_ok x' used W ∧ at_hand p x'.
Proof.
  intros H Ht Hp. destruct (touch_run x used W p H Ht Hp) as (x' & Hrun & Hr & Ho & H' & Hh & _). exists x'. split; [exact (getPage_touch p false a pos i it x x' Hrun)|auto].
Qed.

Lemma seek_run x used W it i :
  array_ok x used W → hasTransactionalUpdates x = true → it_ok x used it → i < length W → (Z.of_nat (length W) < 2 ^ 32)%Z →
  ∃ it' x', seek elementSize junk (Z.of_nat i) it x = (Ok it', x') ∧ rest x' = rest x ∧ original x' = original x ∧ array_ok x' used W ∧ it_on x' used it' i.
Proof.
  intros H Ht Hit Hi Hlen. unfold seek. rewrite (M_bind_ok get_state _ x x x eq_refl), (ao_count _ _ _ H), (proj2 (Z.ltb_lt _ _)) by lia. rewrite (M_bind_ok (ku_assert true) _ x tt x eq_refl), cursor_of by lia. cbn beta iota zeta.
  destruct (page_of x used W i H Hi) as (p & Hp & Hin & Hrun). destruct (Z.eqb_spec (cursorPage it) (Z.of_nat (i / n))) as [E|E].
  - eexists _, x. split; [reflexivity|]. split; [reflexivity|]. split; [reflexivity|]. split; [exact H|]. destruct Hit as [E1 _|a p' E1 E2 E3 E4 E5].
    + assert (i / n ≤ i) by (pose proof n_pos; apply Nat.Div0.div_le_upper_bound; nia). unfold UINT32_MAX in E1. lia.
    + assert (a = i / n) as -> by lia. rewrite Hp in E2. injection E2 as <-. split; [reflexivity|]. split; [reflexivity|]. split; [reflexivity|]. exists p. auto.
  - rewrite (M_bind_ok _ _ _ _ _ Hrun). destruct (getPage_run x used W p (Z.of_nat (i / n)) (Z.of_nat (i mod n)) (Z.of_nat i) it H Ht Hin) as (x' & Hg & Hr & Ho & H' & Hh). rewrite Hg. eexists _, x'. split; [reflexivity|]. split; [exact Hr|]. split; [exact Ho|]. split; [exact H'|]. split; [reflexivity|]. split; [reflexivity|]. split; [reflexivity|].
    exists p. cbn [originalPage onShadow]. assert (El : lastPageOnDisk x' = lastPageOnDisk x) by (unfold rest in Hr; congruence). rewrite El. auto.
Qed.

Lemma assign_poke x used it i v p : it_on x used it i → used !! (i / n) = Some p → (Z.of_nat i < numElements (headerForWriteTrx x))%Z → p ≠ INVALID_PAGE_IDX → assign v it x = poke p (set_cell (Z.of_nat (i mod n)) v) x.
Proof.
  intros (_ & H2 & H3 & p' & H4 & H5 & H6 & _) Hp Hi Hne. rewrite Hp in H4. injection H4 as <-. unfold assign, poke. rewrite !(M_bind_ok get_state _ x x x eq_refl), H3, (proj2 (Z.ltb_lt _ _) Hi), H5, (proj2 (Z.eqb_neq _ _) Hne). cbn [negb].
  rewrite !(M_bind_ok (ku_assert true) _ x tt x eq_refl), H6, H2. reflexivity.
Qed.

Lemma it_ok_rest x x' used it : rest x' = rest x → (∀ q, at_hand q x → at_hand q x') → it_ok x used it → it_ok x' used it.
Proof.
  intros Hr Hh [E1 E2|a p E1 E2 E3 E4 E5]; [exact (it_new x' used it E1 E2)|]. apply (it_at x' used it a p); auto. assert (El : lastPageOnDisk x' = lastPageOnDisk x) by (unfold rest in Hr; congruence). rewrite El. exact E4.
Qed.

Lemma assign_run x used W it i v :
  array_ok x used W → hasTransactionalUpdates x = true → it_on x used it i → i < length W →
  ∃ x', assign v it x = (Ok tt, x') ∧ rest x' = rest x ∧ array_ok x' used (<[i := v]> W) ∧ it_ok x' used it ∧ keeps x x'.
Proof.
  intros H Ht Hon Hi. pose proof Hon as (_ & _ & _ & p & Hp & _ & _ & Hh). pose proof (used_valid x used W p H ltac:(apply list_elem_of_lookup; eauto)) as Hv. rewrite (assign_poke x used it i v p Hon Hp) by (rewrite ?(ao_count _ _ _ H); lia).
  destruct (write_element x used W i p v H Ht Hi Hp Hh) as (x' & Hrun & Hr & H' & Hhh & Ho & Hc). exists x'. split; [exact Hrun|]. split; [exact Hr|]. split; [exact H'|]. split; [exact (it_ok_rest x x' used it Hr Hhh (it_on_ok _ _ _ _ Hon))|exact (rest_keeps x x' used W H Hr Ho Hc)].
Qed.

(** ** Adding pages *)

Lemma upd_current (ps : list PIPWrapper) u : upd_ok ps u → ps ≠ [] →
  ∃ w, last (old_pips ps u) = Some w ∧ (∀ i, (u = None → i = length ps - 1) → match u with Some p => Some p | None => ps !! i end = Some w).
Proof.
  intros Hu Hne. destruct u as [w|]; cbn [old_pips]; [exists w; split; [apply last_snoc|auto]|].
  destruct (last ps) as [w|] eqn:E; [|apply last_None in E; contradiction]. exists w. split; [reflexivity|]. intros i Hi. rewrite (Hi eq_refl), <- E, last_lookup. f_equal. lia.
Qed.

Lemma upd_ok_set ps u w w' : upd_ok ps u → ps ≠ [] → last (old_pips ps u) = Some w → pipPageIdx w' = pipPageIdx w → upd_ok ps (Some w').
Proof.
  intros Hu Hne Hw E. cbn. destruct u as [v|].
  - cbn [old_pips] in Hw. rewrite last_snoc in Hw. injection Hw as ->. destruct Hu as (l & Hl & El). exists l. split; [exact Hl|congruence].
  - exists w. auto.
Qed.

(** The PIP before a new one, or the header, gets its number. *)
Lemma setNext_run (y : DiskArray U) ns0 w0 q :
  let J0 := joined (pips y) (updatedLastPIP y) ns0 in
  newPIPs y = ns0 ++ [w0] → upd_ok (pips y) (updatedLastPIP y) → (ns0 ≠ [] → pips y ≠ [] → is_Some (updatedLastPIP y)) → (Z.of_nat (length J0) < 2 ^ 32)%Z →
  ∃ u' ns', let first' := if decide (J0 = []) then q else firstPIPPageIdx (headerForWriteTrx y) in
    setNextPIPPageIDxOfPIPNoLock (uwrap 64 (Z.of_nat (length J0) - 1)) q y = (Ok tt, set_headerForWriteTrx (MkHeader (numElements (headerForWriteTrx y)) first') (set_pips (pips y) u' (ns' ++ [w0]) y)) ∧
    joined (pips y) u' ns' = alter (set_next q) (length J0 - 1) J0 ∧ upd_ok (pips y) u' ∧ (pips y ≠ [] → is_Some u').
Proof.
  intros J0 Hns Hu Hl Hlen. pose proof (joined_length _ _ ns0 Hu) as HJ. fold J0 in HJ. unfold setNextPIPPageIDxOfPIPNoLock. rewrite (M_bind_ok get_state _ y y y eq_refl). cbn zeta. destruct (decide (J0 = [])) as [E0|E0].
  - rewrite E0 in HJ |- *. cbn [length] in HJ. exists None, []. assert (Ep : pips y = []) by (apply nil_length_inv; lia). assert (En : ns0 = []) by (apply nil_length_inv; lia). change (uwrap 64 (Z.of_nat 0 - 1)) with (2 ^ 64 - 1)%Z. rewrite Z.eqb_refl.
    rewrite Ep in *. split; [|split; [reflexivity|split; [exact I|contradiction]]]. unfold put_state. do 2 f_equal. assert (Eu : updatedLastPIP y = None) by (destruct (updatedLastPIP y); [destruct Hu as (? & E & _); discriminate E|reflexivity]).
    rewrite En in Hns. destruct y. cbn in *. subst. reflexivity.
  - assert (HJ0 : 0 < length J0) by (destruct J0; [contradiction|cbn; lia]). rewrite uwrap_small by lia. rewrite (proj2 (Z.eqb_neq _ _)) by lia. destruct (Z.eqb_spec (Z.of_nat (length (pips y))) 0) as [E|E].
    + assert (Ep : pips y = []) by (apply nil_length_inv; lia). assert (Eu : updatedLastPIP y = None) by (destruct (updatedLastPIP y); [rewrite Ep in Hu; destruct Hu as (? & E' & _); discriminate E'|reflexivity]).
      rewrite Hns, length_app. cbn [length]. rewrite Ep in HJ. cbn [length] in HJ. rewrite (proj2 (Z.ltb_lt _ _)) by lia. exists None, (alter (set_next q) (length J0 - 1) ns0). replace (Z.to_nat (Z.of_nat (length J0) - 1)) with (length J0 - 1) by lia.
      split; [|split; [unfold J0; rewrite Ep, Eu; reflexivity|split; [exact I|congruence]]]. unfold put_state. do 2 f_equal. rewrite alter_app_l by lia. destruct y as [? ? ? ? ? [] ? ? ? ? ? ?]. cbn in *. subst. reflexivity.
    + assert (Hne : pips y ≠ []) by (intros Ep; rewrite Ep in E; apply E; reflexivity). destruct (upd_current (pips y) (updatedLastPIP y) Hu Hne) as (w & Hw & Hcur).
      assert (Hupd : (match updatedLastPIP y with Some p => mret p | None => match pips y !! Z.to_nat (Z.of_nat (length J0) - 1) with Some p => mret p | None => no_pip end end) y = (Ok w, y)).
      { specialize (Hcur (Z.to_nat (Z.of_nat (length J0) - 1))). assert (Hi : updatedLastPIP y = None → Z.to_nat (Z.of_nat (length J0) - 1) = length (pips y) - 1).
        { intros Eu. assert (ns0 = []) as -> by (destruct ns0; [reflexivity|]; destruct (Hl ltac:(discriminate) Hne) as [? E']; congruence). cbn [length] in HJ. lia. }
        specialize (Hcur Hi). destruct (updatedLastPIP y) as [v|]; [injection Hcur as ->; reflexivity|]. rewrite Hcur. reflexivity. }
      rewrite (M_bind_ok _ _ _ _ _ Hupd). destruct (Z.eqb_spec (Z.of_nat (length J0) - 1) (Z.of_nat (length (pips y)) - 1)) as [E1|E1].
      * assert (ns0 = []) as -> by (apply nil_length_inv; lia). exists (Some (set_next q w)), []. split; [|split; [|split; [exact (upd_ok_set _ _ w _ Hu Hne Hw eq_refl)|eauto]]].
        -- unfold put_state. do 2 f_equal. rewrite Hns. destruct y as [? ? ? ? ? [] ? ? ? ? ? ?]. reflexivity.
        -- unfold J0. rewrite (joined_update _ _ [] w (set_next q) Hu Hw). f_equal. fold J0. lia.
      * rewrite Hns, length_app. cbn [length]. rewrite (proj2 (Z.leb_le _ _)), (proj2 (Z.ltb_lt _ _)) by lia. cbn [andb]. rewrite (M_bind_ok (ku_assert true) _ y tt y eq_refl). replace (Z.to_nat (Z.of_nat (length J0) - 1 - Z.of_nat (length (pips y)))) with (length ns0 - 1) by lia.
        exists (Some w), (alter (set_next q) (length ns0 - 1) ns0). split; [|split; [|split; [exact (upd_ok_set _ _ w w Hu Hne Hw eq_refl)|eauto]]].
        -- unfold put_state. do 2 f_equal. rewrite alter_app_l by lia. destruct y as [? ? ? ? ? [] ? ? ? ? ? ?]. reflexivity.
        -- rewrite joined_new by exact (upd_ok_set _ _ w w Hu Hne Hw eq_refl). assert (Ej : joined (pips y) (Some w) ns0 = J0) by (change (Some w) with (Some (id w)); rewrite (joined_update _ _ ns0 w id Hu Hw); apply list_alter_id; reflexivity).
           rewrite Ej. f_equal. lia.
Qed.

(** The page numbers of [x'] are those of [x] with one more; nothing else differs. *)
Record grown x x' (used : list Z) (p : Z) : Prop := {
  gr_files : original x' = original x ∧ shadowPages x' = shadowPages x ∧ shadowMap x' = shadowMap x;
  gr_header : header x' = header x ∧ numElements (headerForWriteTrx x') = numElements (headerForWriteTrx x);
  gr_flags : hasTransactionalUpdates x' = hasTransactionalUpdates x ∧ lastPageOnDisk x' = lastPageOnDisk x ∧ pips x' = pips x;
  gr_upd : upd_ok (pips x') (updatedLastPIP x');
  gr_linked : newPIPs x' ≠ [] → pips x' ≠ [] → is_Some (updatedLastPIP x');
  gr_numbers : numbers_ok (wpips x') (allocatable x') (firstPIPPageIdx (headerForWriteTrx x')) (used ++ [p]);
  gr_pages : p ∈ allocatable x ∧ ∃ k, k ≤ 2 ∧ allocatable x' = drop k (allocatable x);
}.

Definition put_entry (pipIdx offset newAPPageIdx : Z) : M (DiskArray U) unit :=
  x ← get_state;
  let n := Z.of_nat (length (pips x)) in
  if (pipIdx <? n)%Z then
    ku_assert (pipIdx =? n - 1)%Z ;;
    upd ← (match updatedLastPIP x with Some p => mret p | None => match pips x !! Z.to_nat pipIdx with Some p => mret p | None => no_pip end end);
    put_state (set_pips (pips x) (Some (set_pageIdx offset newAPPageIdx upd)) (newPIPs x) x)
  else if (pipIdx - n <? Z.of_nat (length (newPIPs x)))%Z then
    put_state (set_pips (pips x) (updatedLastPIP x) (alter (set_pageIdx offset newAPPageIdx) (Z.to_nat (pipIdx - n)) (newPIPs x)) x)
  else
    pipPageIdx ← allocatePage;
    modify (λ x, set_pips (pips x) (updatedLastPIP x) (newPIPs x ++ [MkPIPWrapper pipPageIdx PIP_new]) x) ;;
    setNextPIPPageIDxOfPIPNoLock (uwrap 64 (pipIdx - 1)) pipPageIdx ;;
    modify (λ x, set_pips (pips x) (updatedLastPIP x) (alter (set_pageIdx offset newAPPageIdx) (length (newPIPs x) - 1) (newPIPs x)) x).

Lemma pip_space J alloc first used : numbers_ok J alloc first used → length used / CP ≤ length J ∧ (length used / CP < length J → S (length used / CP) = length J).
Proof.
  pose proof CP_value as [_ HCP]. intros H. rewrite (nb_count _ _ _ _ H). set (a := length used). destruct (decide (a mod CP = 0)) as [E|E].
  - destruct (pages_for_new CP ltac:(lia) a E) as [_ E2]. lia.
  - pose proof (pages_for_last CP ltac:(lia) a E). lia.
Qed.

Lemma put_entry_run x used p l :
  upd_ok (pips x) (updatedLastPIP x) → (newPIPs x ≠ [] → pips x ≠ [] → is_Some (updatedLastPIP x)) → numbers_ok (wpips x) (p :: l) (firstPIPPageIdx (headerForWriteTrx x)) used → allocatable x = l → l ≠ [] → (Z.of_nat (length used) < 2 ^ 32)%Z →
  ∃ x', put_entry (Z.of_nat (length used / CP)) (Z.of_nat (length used mod CP)) p x = (Ok tt, x') ∧ grown (set_allocatable (p :: l) x) x' used p.
Proof.
  pose proof CP_value as [_ HCP]. intros Hu Hl Hn Ha Hne Hlen. destruct (pip_space _ _ _ _ Hn) as [Hsp1 Hsp2]. pose proof (joined_length _ _ (newPIPs x) Hu) as HJ. unfold put_entry. rewrite (M_bind_ok get_state _ x x x eq_refl). cbn zeta. set (a := length used) in *.
  change (wpips x) with (joined (pips x) (updatedLastPIP x) (newPIPs x)) in *. set (J := joined (pips x) (updatedLastPIP x) (newPIPs x)) in *.
  destruct (Z.ltb_spec (Z.of_nat (a / CP)) (Z.of_nat (length (pips x)))) as [Hold|Hold]; [|destruct (Z.ltb_spec (Z.of_nat (a / CP) - Z.of_nat (length (pips x))) (Z.of_nat (length (newPIPs x)))) as [Hnew|Hnew]].
  - assert (Epos : a / CP = length (pips x) - 1) by lia. assert (Hps : pips x ≠ []) by (intros E; rewrite E in Hold; cbn in Hold; lia). destruct (upd_current (pips x) (updatedLastPIP x) Hu Hps) as (w & Hw & Hcur). specialize (Hcur (a / CP) (λ _, Epos)).
    rewrite (proj2 (Z.eqb_eq _ _)) by lia. rewrite (M_bind_ok (ku_assert true) _ x tt x eq_refl), Nat2Z.id. rewrite (M_bind_ok _ _ x w x) by (destruct (updatedLastPIP x); [injection Hcur as ->; reflexivity|rewrite Hcur; reflexivity]).
    eexists. split; [reflexivity|]. split; [cbn; auto|cbn; auto|cbn; auto|exact (upd_ok_set _ _ w _ Hu Hps Hw eq_refl)|cbn; eauto| |split; [left|exists 1; split; [lia|exact Ha]]].
    change (numbers_ok (joined (pips x) (Some (set_pageIdx (Z.of_nat (a mod CP)) p w)) (newPIPs x)) (allocatable x) (firstPIPPageIdx (headerForWriteTrx x)) (used ++ [p])). rewrite (joined_update _ _ (newPIPs x) w _ Hu Hw), <- Epos, Ha. apply numbers_fill; [exact Hn|fold a J; lia].
  - eexists. split; [reflexivity|]. split; [cbn; auto|cbn; auto|cbn; auto|exact Hu|cbn; intros E; apply Hl; intros E'; apply E; rewrite E'; reflexivity| |split; [left|exists 1; split; [lia|exact Ha]]].
    replace (Z.to_nat (Z.of_nat (a / CP) - Z.of_nat (length (pips x)))) with (a / CP - length (pips x)) by lia.
    change (numbers_ok (joined (pips x) (updatedLastPIP x) (alter (set_pageIdx (Z.of_nat (a mod CP)) p) (a / CP - length (pips x)) (newPIPs x))) (allocatable x) (firstPIPPageIdx (headerForWriteTrx x)) (used ++ [p])). rewrite joined_new by exact Hu. replace (length (pips x) + (a / CP - length (pips x))) with (a / CP) by lia. rewrite Ha. apply numbers_fill; [exact Hn|fold a J; lia].
  - destruct l as [|q l]; [contradiction|]. set (x1 := set_allocatable l x). rewrite (M_bind_ok allocatePage _ x q x1) by (unfold allocatePage; rewrite (M_bind_ok get_state _ x x x eq_refl), Ha; reflexivity).
    set (w0 := MkPIPWrapper q PIP_new). set (x2 := set_pips (pips x) (updatedLastPIP x) (newPIPs x ++ [w0]) x1). rewrite (M_bind_ok (modify (λ x, set_pips (pips x) (updatedLastPIP x) (newPIPs x ++ [w0]) x)) _ x1 tt x2 eq_refl).
    assert (Epos : a / CP = length J) by lia. rewrite Epos. destruct (setNext_run x2 (newPIPs x) w0 q eq_refl Hu Hl) as (u' & ns' & Hrun & Hj & Hu' & Hsome). { change (joined (pips x2) (updatedLastPIP x2) (newPIPs x)) with J. assert (a / CP ≤ a) by (apply Nat.Div0.div_le_upper_bound; nia). lia. }
    change (joined (pips x2) (updatedLastPIP x2) (newPIPs x)) with J in *. rewrite (M_bind_ok _ _ _ _ _ Hrun). eexists. split; [reflexivity|]. split; [cbn; auto|cbn; auto|cbn; auto|exact Hu'|cbn; auto| |split; [left|exists 2; split; [lia|reflexivity]]].
    cbn [newPIPs set_headerForWriteTrx set_pips]. rewrite length_app. cbn [length]. unfold wpips. cbn [newPIPs pips updatedLastPIP allocatable headerForWriteTrx firstPIPPageIdx set_headerForWriteTrx set_pips]. rewrite Nat.add_sub, alter_app_r_alt, Nat.sub_diag by lia. cbn [alter list_alter]. change (pips x2) with (pips x) in Hj |- *.
    unfold joined at 1. rewrite app_assoc. fold (joined (pips x) u' ns'). rewrite Hj. apply (numbers_extend J p q l (firstPIPPageIdx (headerForWriteTrx x)) used Hn). fold a. lia.
Qed.

Lemma numAPs_ok x used W : array_ok x used W → getNumAPs elementSize (headerForWriteTrx x) = Z.of_nat (length used).
Proof. intros H. rewrite (vw_pages _ _ _ _ (ao_view _ _ _ H)), <- (numAPs_of _ (firstPIPPageIdx (headerForWriteTrx x))), <- (ao_count _ _ _ H). destruct (headerForWriteTrx x). reflexivity. Qed.

(** There is room on the last page. *)
Lemma last_page_run x used W :
  array_ok x used W → length W mod n ≠ 0 → (Z.of_nat (length W) < 2 ^ 32)%Z →
  ∃ p, getAPPageIdxAndAddAPToPIPIfNecessary elementSize (Z.of_nat (length W / n)) x = (Ok (p, false), x) ∧ used !! (length W / n) = Some p.
Proof.
  pose proof n_pos as Hpos. intros H Hm Hlen. pose proof (pages_for_last n Hpos _ Hm) as E. rewrite <- (vw_pages _ _ _ _ (ao_view _ _ _ H)) in E. unfold getAPPageIdxAndAddAPToPIPIfNecessary. rewrite (M_bind_ok get_state _ x x x eq_refl), (numAPs_ok x used W H). cbn zeta.
  destruct (lookup_lt_is_Some_2 used (length W / n) ltac:(lia)) as [p Hp]. assert (length W / n ≤ length W) by (apply Nat.Div0.div_le_upper_bound; nia). rewrite uwrap_small by lia. rewrite (proj2 (Z.eqb_eq _ _)) by lia. cbn [andb]. exists p. split; [|exact Hp].
  destruct (Z.eqb_spec (lastAPPageIdx x) INVALID_PAGE_IDX) as [Ei|Ei]; cbn [negb].
  - rewrite (proj2 (Z.ltb_lt _ _)) by lia. rewrite (M_bind_ok _ _ x p x); [reflexivity|]. apply getAPPageIdx_run; [exact (ao_upd _ _ _ H)|exact (nb_full _ _ _ _ (ao_numbers _ _ _ H))|exact (flat_used x used W _ p H Hp)].
  - destruct (ao_last _ _ _ H) as [|Hl]; [contradiction|]. rewrite last_lookup, <- E in Hl. cbn [Nat.pred] in Hl. rewrite Hp in Hl. injection Hl as ->. reflexivity.
Qed.

(** A new page. *)
Lemma new_page_run x used W :
  array_ok x used W → length W mod n = 0 → 2 ≤ length (allocatable x) → (Z.of_nat (length W) < 2 ^ 32)%Z →
  ∃ p x', getAPPageIdxAndAddAPToPIPIfNecessary elementSize (Z.of_nat (length W / n)) x = (Ok (p, true), x') ∧ grown x x' used p.
Proof.
  pose proof n_pos as Hpos. pose proof CP_value as [HCP Hc]. intros H Hm Ha Hlen. destruct (pages_for_new n Hpos _ Hm) as [_ E]. rewrite <- (vw_pages _ _ _ _ (ao_view _ _ _ H)) in E. assert (length W / n ≤ length W) by (apply Nat.Div0.div_le_upper_bound; nia).
  destruct (allocatable x) as [|p l] eqn:El; [cbn in Ha; lia|]. unfold getAPPageIdxAndAddAPToPIPIfNecessary. rewrite (M_bind_ok get_state _ x x x eq_refl), (numAPs_ok x used W H). cbn zeta. rewrite E.
  assert (Hne : (Z.of_nat (length used) =? uwrap 64 (Z.of_nat (length used) - 1))%Z = false). { apply Z.eqb_neq. destruct (decide (length used = 0)) as [->|]; [discriminate|]. rewrite uwrap_small by lia. lia. }
  rewrite Hne. cbn [andb]. rewrite Z.ltb_irrefl, Z.eqb_refl, (M_bind_ok (ku_assert true) _ x tt x eq_refl). set (x1 := set_allocatable l x). rewrite (M_bind_ok allocatePage _ x p x1) by (unfold allocatePage; rewrite (M_bind_ok get_state _ x x x eq_refl), El; reflexivity).
  pose proof (ao_numbers _ _ _ H) as Hn. rewrite El in Hn. destruct (put_entry_run x1 used p l (ao_upd _ _ _ H) (ao_linked _ _ _ H) Hn eq_refl) as (x' & Hrun & Hg); [destruct l; [cbn in Ha; lia|discriminate]|lia|].
  exists p, x'. split; [|assert (Ex : set_allocatable (p :: l) x1 = x) by (unfold x1; clear - El; rewrite <- El; destruct x; reflexivity); rewrite Ex in Hg; exact Hg]. rewrite HCP, <- Nat2Z.inj_div, <- Nat2Z.inj_mod. unfold put_entry in Hrun. rewrite (M_bind_ok get_state _ x1 x1 x1 eq_refl). rewrite (M_bind_ok get_state _ x1 x1 x1 eq_refl) in Hrun. cbn zeta in Hrun |- *.
  rewrite (M_bind_ok _ _ _ _ _ Hrun). reflexivity.
Qed.

(** ** Appending *)

Definition bump (p : Z) x : DiskArray U := set_headerForWriteTrx (MkHeader (uwrap 64 (numElements (headerForWriteTrx x) + 1)) (firstPIPPageIdx (headerForWriteTrx x))) (set_lastAPPageIdx p x).

(** The new page as a frame that has not been read: from here on its cells count. *)
Lemma touch_new x p : p ∉ shadowMap x → 
  ∃ x', touch p true x = (Ok tt, x') ∧ rest x' = rest x ∧ at_hand p x' ∧ (∀ q, at_hand q x → at_hand q x') ∧ wpage x' p = Some (ArrayPage junk) ∧ (∀ q, q ≠ p → wpage x' q = wpage x q) ∧ (∀ q, q ≠ p → original x' !! q = original x !! q) ∧
    (shadowMap x = dom (shadowPages x) → shadowMap x' = dom (shadowPages x')) ∧ (∀ q, q ∈ shadowMap x' → q ∈ shadowMap x ∨ q = p ∧ (p ≤ lastPageOnDisk x)%Z).
Proof.
  intros Hp. unfold touch. rewrite (M_bind_ok get_state _ x x x eq_refl). unfold at_hand, wpage. destruct (Z.leb_spec p (lastPageOnDisk x)) as [Hle|Hgt].
  - unfold createShadowVersionIfNecessary. rewrite (M_bind_ok get_state _ x x x eq_refl), bool_decide_eq_false_2 by exact Hp. rewrite (M_bind_ok (mret (ArrayPage junk)) _ x (ArrayPage junk) x eq_refl). eexists. split; [reflexivity|]. cbn. split; [reflexivity|].
    split; [set_solver|]. split; [set_solver|]. rewrite (proj2 (Z.leb_le _ _)), bool_decide_eq_true_2 by (lia || set_solver). split; [apply lookup_insert_eq|]. split; [|split; [auto|split; [intros E; rewrite dom_insert_L, E; reflexivity|set_solver]]].
    intros q Hne. rewrite lookup_insert_ne by congruence. assert (E : bool_decide (q ∈ {[p]} ∪ shadowMap x) = bool_decide (q ∈ shadowMap x)) by (apply bool_decide_ext; set_solver). rewrite E. reflexivity.
  - eexists. split; [reflexivity|]. cbn. split; [reflexivity|]. split; [lia|]. split; [auto|]. rewrite (proj2 (Z.leb_gt _ _)) by lia. split; [apply lookup_insert_eq|]. split; [|split; [intros q Hne; apply lookup_insert_ne; congruence|auto]]. 
    intros q Hne. rewrite lookup_insert_ne by congruence. reflexivity.
Qed.

Lemma bump_touch p q b x : touch p b (bump q x) = let '(r, x') := touch p b x in (r, bump q x').
Proof.
  unfold touch. rewrite !(M_bind_ok get_state _ _ _ _ eq_refl). change (lastPageOnDisk (bump q x)) with (lastPageOnDisk x). destruct (p <=? lastPageOnDisk x)%Z.
  - unfold createShadowVersionIfNecessary. rewrite !(M_bind_ok get_state _ _ _ _ eq_refl). change (shadowMap (bump q x)) with (shadowMap x). change (original (bump q x)) with (original x). destruct (bool_decide _); [reflexivity|]. destruct b; [reflexivity|]. destruct (original x !! p); reflexivity.
  - unfold pinPage. destruct b; [reflexivity|]. rewrite !(M_bind_ok get_state _ _ _ _ eq_refl). change (original (bump q x)) with (original x). destruct (original x !! p); reflexivity.
Qed.

Lemma bump_poke p q g x : poke p g (bump q x) = let '(r, x') := poke p g x in (r, bump q x').
Proof.
  unfold poke. rewrite !(M_bind_ok get_state _ _ _ _ eq_refl). change (lastPageOnDisk (bump q x)) with (lastPageOnDisk x). destruct (p <=? lastPageOnDisk x)%Z; unfold write_shadow, write_original; rewrite !(M_bind_ok get_state _ _ _ _ eq_refl).
  - change (shadowPages (bump q x)) with (shadowPages x). destruct (shadowPages x !! p); reflexivity.
  - change (original (bump q x)) with (original x). destruct (original x !! p); reflexivity.
Qed.

(** The iterator on the page of a new element. *)
Definition it_last (p : Z) x (len : nat) : WriteIterator := MkIterator (Z.of_nat (len / n)) (Z.of_nat (len mod n)) (Z.of_nat len) p (p <=? lastPageOnDisk x)%Z.

Lemma assign_last x used p len v cs :
  at_hand p x → shadowMap x = dom (shadowPages x) → wpage x p = Some (ArrayPage cs) → used !! (len / n) = Some p → numElements (headerForWriteTrx x) = Z.of_nat len → (Z.of_nat len < 2 ^ 32)%Z → p ≠ INVALID_PAGE_IDX →
  ∃ x', assign v (it_last p x len) (bump p x) = (Ok tt, bump p x') ∧ rest x' = rest x ∧ shadowMap x' = shadowMap x ∧ shadowMap x' = dom (shadowPages x') ∧ wpage x' p = Some (ArrayPage (<[len mod n := v]> cs)) ∧
    (∀ q, q ≠ p → wpage x' q = wpage x q) ∧ (∀ q, (q ≤ lastPageOnDisk x)%Z ∨ q ≠ p → original x' !! q = original x !! q).
Proof.
  intros Hh Hd Hw Hu Hc Hlen Hv. destruct (poke_run x p (len mod n) v cs Hh Hd Hw) as (x' & Hrun & Hrest). exists x'. split; [|exact Hrest].
  rewrite (assign_poke (bump p x) used _ len v p); [rewrite bump_poke, Hrun; reflexivity| |exact Hu|cbn; rewrite Hc, uwrap_small by lia; lia|exact Hv].
  split; [reflexivity|]. split; [reflexivity|]. split; [reflexivity|]. exists p. auto.
Qed.

Lemma pushBack_same x used W it v :
  array_ok x used W → hasTransactionalUpdates x = true → it_ok x used it → length W mod n ≠ 0 → (Z.of_nat (length W) + 1 < 2 ^ 32)%Z →
  ∃ it' x', pushBack elementSize junk v it x = (Ok it', x') ∧ array_ok x' used (W ++ [v]) ∧ it_ok x' used it' ∧ keeps x x' ∧ hasTransactionalUpdates x' = true ∧ allocatable x' = allocatable x.
Proof.
  pose proof n_pos as Hpos. intros H Ht Hit Hm Hlen. destruct (last_page_run x used W H Hm ltac:(lia)) as (p & Hrun & Hp). set (a := length W / n) in *. assert (Hin : p ∈ used) by (apply list_elem_of_lookup; eauto). pose proof (used_valid x used W p H Hin) as Hv.
  assert (Hget : ∃ x2, (if false || (originalPage it =? INVALID_PAGE_IDX)%Z || negb (Z.of_nat a =? cursorPage it)%Z then getPage junk p false (MkIterator (Z.of_nat a) (Z.of_nat (length W mod n)) (Z.of_nat (length W)) (originalPage it) (onShadow it)) else mret (MkIterator (Z.of_nat a) (Z.of_nat (length W mod n)) (Z.of_nat (length W)) (originalPage it) (onShadow it))) (bump p x) = (Ok (it_last p x (length W)), bump p x2) ∧
    rest x2 = rest x ∧ original x2 = original x ∧ array_ok x2 used W ∧ at_hand p x2).
  { cbn [orb]. destruct ((originalPage it =? INVALID_PAGE_IDX)%Z || negb (Z.of_nat a =? cursorPage it)%Z) eqn:E.
    - destruct (touch_run x used W p H Ht Hin) as (x2 & Hrun2 & Hr2 & Ho2 & H2 & Hh2 & _). exists x2. split; [|auto]. rewrite (getPage_touch p false _ _ _ it (bump p x) (bump p x2)); [reflexivity|]. rewrite bump_touch, Hrun2. reflexivity.
    - apply orb_false_iff in E as [E1 E2]. apply negb_false_iff, Z.eqb_eq in E2. apply Z.eqb_neq in E1. destruct Hit as [? E3|a' p' E3 E4 E5 E6 E7]; [congruence|]. assert (a' = a) as -> by lia. rewrite Hp in E4. injection E4 as <-. exists x. rewrite E5, E6. split; [reflexivity|]. auto. }
  destruct Hget as (x2 & Hget & Hr2 & Ho2 & H2 & Hh2). assert (Er : lastPageOnDisk x2 = lastPageOnDisk x ∧ hasTransactionalUpdates x2 = true ∧ allocatable x2 = allocatable x) by (unfold rest in Hr2; injection Hr2; intros; split_and!; congruence). destruct Er as (El & Et & Ea).
  destruct (vw_cells _ _ _ _ (ao_view _ _ _ H2) p Hin) as (cs & Hcs & Hl). destruct (assign_last x2 used p (length W) v cs Hh2 (ao_shadow _ _ _ H2) Hcs Hp (ao_count _ _ _ H2) ltac:(lia) ltac:(lia)) as (x3 & Has & Hr3 & Hm3 & Hd3 & Hw3 & Hq3 & Ho3).
  assert (Hit3 : it_last p x2 (length W) = it_last p x (length W)) by (unfold it_last; rewrite El; reflexivity). rewrite Hit3 in Has. exists (it_last p x (length W)), (bump p x3).
  assert (Er3 : lastPageOnDisk x3 = lastPageOnDisk x2 ∧ header x3 = header x2 ∧ headerForWriteTrx x3 = headerForWriteTrx x2 ∧ pips x3 = pips x2 ∧ updatedLastPIP x3 = updatedLastPIP x2 ∧ newPIPs x3 = newPIPs x2 ∧ hasTransactionalUpdates x3 = true ∧ allocatable x3 = allocatable x2) by (unfold rest in Hr3; injection Hr3; intros; split_and!; congruence).
  destruct Er3 as (F1 & F2 & F3 & F4 & F5 & F6 & F7 & F8). split; [|split; [|split; [|split; [|split; [exact F7|cbn; congruence]]]]].
  - unfold pushBack. rewrite (M_bind_ok get_state _ x x x eq_refl), (ao_count _ _ _ H), cursor_of by lia. cbn beta iota zeta. rewrite (M_bind_ok _ _ _ _ _ Hrun). cbn beta iota. rewrite (M_bind_ok (modify (bump p)) _ x tt (bump p x) eq_refl). rewrite (M_bind_ok _ _ _ _ _ Hget), (M_bind_ok _ _ _ _ _ Has). reflexivity.
  - pose proof H2 as [G1 G2 G3 G4 G5 G6 G7 G8 G9 G10]. split; unfold wpips in *; cbn; rewrite ?F3, ?F4, ?F5, ?F6, ?F8; try assumption.
    + rewrite G1, uwrap_small by lia. rewrite length_app. cbn [length]. lia.
    + apply (view_push n Hpos (wpage x2) (wpage x3) used W p cs v G6); try assumption; [|intros q _; apply Hq3]. exact (proj1 (proj1 (NoDup_app _ _) (nb_distinct _ _ _ _ G5))).
    + rewrite Hm3, F1. exact G8.
    + congruence.
    + right. rewrite last_lookup. pose proof (pages_for_last n Hpos _ Hm) as E. rewrite <- (vw_pages _ _ _ _ G6) in E. rewrite <- E. exact Hp.
  - apply (it_at (bump p x3) used _ a p); try reflexivity; [exact Hp|cbn; congruence|]. intros Hle. cbn in *. rewrite Hm3. apply Hh2. congruence.
  - apply (keeps_trans x x2).
    + apply (rest_keeps x x2 used W H Hr2); [intros q _; rewrite Ho2; reflexivity|]. intros usedc C Hc. apply (committed_ok_frame x x2 usedc C Hc Hr2). intros q _. rewrite Ho2. reflexivity.
    + split_and!; [exact F1|exact F2|exact F4| |]; [intros w Hw; apply Ho3; right; intros E; apply (pip_not_used x2 used W w H2 Hw), elem_of_app; left; rewrite E; exact Hin|]. intros usedc C Hc. pose proof (committed_ok_frame x2 x3 usedc C Hc Hr3 (λ q Hq, Ho3 q (or_introl (proj1 (co_isolated _ _ _ Hc q Hq))))) as [[C1 C2 C3] C4]. split; [split|]; assumption.
Qed.

Lemma pushBack_new x used W it v :
  array_ok x used W → hasTransactionalUpdates x = true → length W mod n = 0 → 2 ≤ length (allocatable x) → (Z.of_nat (length W) + 1 < 2 ^ 32)%Z →
  ∃ it' x' p k, pushBack elementSize junk v it x = (Ok it', x') ∧ array_ok x' (used ++ [p]) (W ++ [v]) ∧ it_ok x' (used ++ [p]) it' ∧ keeps x x' ∧ hasTransactionalUpdates x' = true ∧ k ≤ 2 ∧ allocatable x' = drop k (allocatable x).
Proof.
  pose proof n_pos as Hpos. intros H Ht Hm Ha Hlen. destruct (new_page_run x used W H Hm Ha ltac:(lia)) as (p & x1 & Hrun & [(G1 & G2 & G3) (G4 & G5) (G6 & G7 & G8) G9 G10 G11 (G12 & k & Hk & Gk)]).
  assert (Hpu : p ∉ used). { intros Hp. pose proof (nb_distinct _ _ _ _ (ao_numbers _ _ _ H)) as Hd. apply NoDup_app in Hd as (_ & Hd & _). apply (Hd p Hp). apply elem_of_app. auto. }
  assert (Hps : p ∉ shadowMap x1) by (rewrite G3; intros Hp; exact (Hpu (proj1 (ao_shadowed _ _ _ H p Hp)))).
  destruct (touch_new x1 p Hps) as (x2 & Hrun2 & Hr2 & Hh2 & _ & Hw2 & Hq2 & Ho2 & Hd2 & Hm2). rewrite G2, G3 in Hd2. specialize (Hd2 (ao_shadow _ _ _ H)).
  destruct (pages_for_new n Hpos _ Hm) as [_ E]. rewrite <- (vw_pages _ _ _ _ (ao_view _ _ _ H)) in E. assert (Hp : (used ++ [p]) !! (length W / n) = Some p) by (rewrite E, lookup_app_r, Nat.sub_diag by lia; reflexivity).
  pose proof (nb_valid _ _ _ _ G11) as Hval. rewrite Forall_forall in Hval. specialize (Hval p ltac:(rewrite !elem_of_app; left; right; left)).
  assert (Er : lastPageOnDisk x2 = lastPageOnDisk x1 ∧ headerForWriteTrx x2 = headerForWriteTrx x1) by (unfold rest in Hr2; split; congruence). destruct Er as [El Eh].
  destruct (assign_last x2 (used ++ [p]) p (length W) v junk Hh2 Hd2 Hw2 Hp ltac:(rewrite Eh, G5; exact (ao_count _ _ _ H)) ltac:(lia) ltac:(lia)) as (x3 & Has & Hr3 & Hm3 & Hd3 & Hw3 & Hq3 & Ho3).
  rewrite Hr2 in Hr3. assert (Er3 : lastPageOnDisk x3 = lastPageOnDisk x1 ∧ header x3 = header x1 ∧ headerForWriteTrx x3 = headerForWriteTrx x1 ∧ pips x3 = pips x1 ∧ updatedLastPIP x3 = updatedLastPIP x1 ∧ newPIPs x3 = newPIPs x1 ∧ hasTransactionalUpdates x3 = hasTransactionalUpdates x1 ∧ allocatable x3 = allocatable x1) by (unfold rest in Hr3; injection Hr3; intros; split_and!; congruence).
  destruct Er3 as (F1 & F2 & F3 & F4 & F5 & F6 & F7 & F8). exists (it_last p x2 (length W)), (bump p x3), p, k. split; [|split; [|split; [|split; [|split; [cbn; congruence|split; [exact Hk|cbn; congruence]]]]]].
  - unfold pushBack. rewrite (M_bind_ok get_state _ x x x eq_refl), (ao_count _ _ _ H), cursor_of by lia. cbn beta iota zeta. rewrite (M_bind_ok _ _ _ _ _ Hrun). cbn beta iota. rewrite (M_bind_ok (modify (bump p)) _ x1 tt (bump p x1) eq_refl). cbn [orb].
    assert (Hb : touch p true (bump p x1) = (Ok tt, bump p x2)) by (rewrite bump_touch, Hrun2; reflexivity). rewrite (M_bind_ok _ _ _ _ _ (getPage_touch p true _ _ _ it _ _ Hb)). unfold it_last in Has |- *. rewrite El in Has |- *. change (lastPageOnDisk (bump p x1)) with (lastPageOnDisk x1).
    rewrite (M_bind_ok _ _ _ _ _ Has). reflexivity.
  - assert (Hold : ∀ q, q ∈ used → wpage x3 q = wpage x q). { intros q Hq. assert (q ≠ p) by congruence. rewrite Hq3, Hq2 by assumption. unfold wpage. rewrite G1, G2, G3, G7. reflexivity. }
    pose proof H as [K1 K2 K3 K4 K5 K6 K7 K8 K9 K10]. split; unfold wpips in *; cbn; rewrite ?F3, ?F4, ?F5, ?F6, ?F8; try assumption.
    + rewrite G5, K1, uwrap_small by lia. rewrite length_app. cbn [length]. lia.
    + rewrite G8. exact K4.
    + rewrite Hm in Hw3. apply (view_push_page n Hpos (wpage x) (wpage x3) used W p junk v K6); try assumption. exact (proj1 (proj1 (NoDup_app _ _) (nb_distinct _ _ _ _ G11))).
    + intros q Hq. rewrite Hm3 in Hq. rewrite F1, G7. destruct (Hm2 q Hq) as [Hq'|[-> Hle]]; [rewrite G3 in Hq'; destruct (K8 q Hq') as [? ?]; rewrite elem_of_app; auto|]. rewrite elem_of_app, list_elem_of_singleton. split; [auto|lia].
    + congruence.
    + right. apply last_snoc.
  - apply (it_at (bump p x3) (used ++ [p]) _ (length W / n) p); try reflexivity; [exact Hp|cbn; congruence|]. intros Hle. cbn in *. rewrite Hm3. apply Hh2. lia.
  - split_and!; [cbn; congruence|cbn; congruence|cbn; congruence| |].
    { intros w Hw. pose proof (pip_not_used x used W w H Hw) as Hn. rewrite elem_of_app in Hn. assert (pipPageIdx w ≠ p) by (intros E0; apply Hn; rewrite E0; auto). cbn. rewrite Ho3, Ho2, G1 by auto. reflexivity. }
    intros usedc C [[C1 C2 C3] C4]. split; [split|]; cbn; rewrite ?F2, ?F4, ?F1, ?F8, ?G4, ?G8, ?G7; try assumption.
    + apply (view_ext n (λ q, original x !! q)); [|exact C2]. intros q Hq. destruct (C4 q Hq) as [Hle Hna]. rewrite Ho3 by (left; lia). rewrite Ho2 by congruence. rewrite G1. reflexivity.
    + intros q Hq. destruct (C4 q Hq) as [Hle Hna]. split; [exact Hle|]. rewrite Gk. intros Hin. apply Hna. rewrite <- (take_drop k (allocatable x)). apply elem_of_app. auto.
Qed.

Lemma pushBack_run x used W it v :
  array_ok x used W → hasTransactionalUpdates x = true → it_ok x used it → 2 ≤ length (allocatable x) → (Z.of_nat (length W) + 1 < 2 ^ 32)%Z →
  ∃ it' x' used' k, pushBack elementSize junk v it x = (Ok it', x') ∧ array_ok x' used' (W ++ [v]) ∧ it_ok x' used' it' ∧ keeps x x' ∧ hasTransactionalUpdates x' = true ∧ k ≤ 2 ∧ allocatable x' = drop k (allocatable x).
Proof.
  intros H Ht Hit Ha Hlen. destruct (decide (length W mod n = 0)) as [E|E].
  - destruct (pushBack_new x used W it v H Ht E Ha Hlen) as (it' & x' & p & k & Hrun & Hrest). exists it', x', (used ++ [p]), k. auto.
  - destruct (pushBack_same x used W it v H Ht Hit E Hlen) as (it' & x' & Hrun & H1 & H2 & H3 & H4 & H5). exists it', x', used, 0. split_and!; auto.
Qed.
End Ops.
