(* ===== verification/DiskArrayTheorems.v ===== *)
(** * Theorems of the disk array

    A disk array does what it promises ([VersionedArray]): any sequence of reads, updates, appends and checkpoints on a new array, and going on with the array
    that a checkpoint left in the file. Also what it does not promise. *)

From stdpp Require Import base numbers list gmap strings.
From Stdlib Require Import ZArith Lia.
From S2P Require Import Prelude DiskArray DiskArraySpec DiskArrayOps.
Import DiskArray.

#[local] Open Scope nat_scope.

#[local] Instance PIP_eq_dec : EqDecision PIP.
Proof. solve_decision. Defined.
#[local] Instance PIPWrapper_eq_dec : EqDecision PIPWrapper.
Proof. solve_decision. Defined.

Section Commit.
Context {U : Type} (elementSize : Z) (junk : list U).
Hypothesis size_ok : (0 < elementSize ≤ Z.of_nat KUZU_PAGE_SIZE)%Z.
Hypothesis junk_full : length junk = n elementSize.

Abbreviation n := (n elementSize).
Abbreviation array_ok := (array_ok elementSize).
Abbreviation readable := (readable elementSize).
Abbreviation committed_ok := (committed_ok elementSize).
Abbreviation keeps := (keeps elementSize).
Implicit Types (x : DiskArray U) (used : list Z) (W C : list U) (p : Z).

(** ** A checkpoint *)

Definition changed x : list PIPWrapper := (match updatedLastPIP x with Some u => [u] | None => [] end) ++ newPIPs x.
Definition put_pips (l : list PIPWrapper) (m : gmap Z (PageContent U)) : gmap Z (PageContent U) := fold_left (λ m w, <[pipPageIdx w := PIPPage (pipContents w)]> m) l m.

Lemma put_pips_other l m p : p ∉ map pipPageIdx l → put_pips l m !! p = m !! p.
Proof. revert m. induction l as [|w l IH]; intros m Hp; [reflexivity|]. cbn in *. rewrite not_elem_of_cons in Hp. rewrite IH by tauto. apply lookup_insert_ne. intros E. apply (proj1 Hp). symmetry. exact E. Qed.

Lemma put_pips_in l m w : NoDup (map pipPageIdx l) → w ∈ l → put_pips l m !! pipPageIdx w = Some (PIPPage (pipContents w)).
Proof.
  revert m. induction l as [|v l IH]; intros m Hnd Hw; [inversion Hw|]. cbn in *. apply NoDup_cons in Hnd as [Hv Hnd]. apply elem_of_cons in Hw as [->|Hw]; [|exact (IH _ Hnd Hw)]. rewrite put_pips_other by exact Hv. apply lookup_insert_eq.
Qed.

Lemma shadow_pip_run x p c blank : shadowMap x = dom (shadowPages x) → shadow_updatePage p true blank (λ _, c) x = (Ok tt, set_shadow (<[p := c]> (shadowPages x)) (dom (<[p := c]> (shadowPages x))) x).
Proof.
  intros Hd. unfold shadow_updatePage, createShadowVersionIfNecessary. rewrite M_bind_assoc, (M_bind_ok get_state _ x x x eq_refl). destruct (decide (p ∈ shadowMap x)) as [Hp|Hp].
  - rewrite bool_decide_eq_true_2 by exact Hp. rewrite (M_bind_ok (mret tt) _ x tt x eq_refl). unfold write_shadow. rewrite (M_bind_ok get_state _ x x x eq_refl). pose proof Hp as Hp'. rewrite Hd in Hp'. apply elem_of_dom in Hp' as [c' Hc']. rewrite Hc'. unfold put_state.
    assert (E : dom (<[p := c]> (shadowPages x)) = shadowMap x) by (rewrite dom_insert_L, Hd; assert (p ∈ dom (shadowPages x)) by (apply elem_of_dom; eauto); set_solver). rewrite E. reflexivity.
  - rewrite bool_decide_eq_false_2 by exact Hp. rewrite M_bind_assoc, (M_bind_ok (mret blank) _ x blank x eq_refl). set (x1 := set_shadow _ _ x). rewrite (M_bind_ok (put_state x1) _ x tt x1 eq_refl).
    unfold write_shadow. rewrite (M_bind_ok get_state _ x1 x1 x1 eq_refl). cbn. rewrite lookup_insert_eq, insert_insert_eq. unfold put_state. rewrite dom_insert_L, Hd. reflexivity.
Qed.

Lemma write_pips_run l : ∀ x, shadowMap x = dom (shadowPages x) →
  for_each l (λ w, shadow_updatePage (pipPageIdx w) true (PIPPage PIP_new) (λ _, PIPPage (pipContents w))) x = (Ok tt, set_shadow (put_pips l (shadowPages x)) (dom (put_pips l (shadowPages x))) x).
Proof.
  induction l as [|w l IH]; intros x Hd; cbn [for_each put_pips fold_left]; [rewrite <- Hd; destruct x; reflexivity|]. rewrite (M_bind_ok _ _ _ _ _ (shadow_pip_run x _ _ _ Hd)). rewrite IH by reflexivity. reflexivity.
Qed.

Lemma array_checkpoint_run x : shadowMap x = dom (shadowPages x) → checkpoint x = (Ok tt, set_shadow (put_pips (changed x) (shadowPages x)) (dom (put_pips (changed x) (shadowPages x))) x).
Proof.
  intros Hd. unfold checkpoint, changed. rewrite (M_bind_ok get_state _ x x x eq_refl). destruct (updatedLastPIP x) as [u|].
  - rewrite (M_bind_ok _ _ _ _ _ (shadow_pip_run x _ _ _ Hd)). rewrite write_pips_run by reflexivity. reflexivity.
  - rewrite (M_bind_ok (mret tt) _ x tt x eq_refl). apply write_pips_run, Hd.
Qed.

(** Publishing the new PIPs in memory. *)
Lemma append_pips_run l : ∀ x, for_each l (λ w : PIPWrapper, clearShadowPage (pipPageIdx w) ;; modify (λ x, set_pips (pips x ++ [w]) (updatedLastPIP x) (newPIPs x) x)) x
  = (Ok tt, set_pips (pips x ++ l) (updatedLastPIP x) (newPIPs x) (set_shadow (shadowPages x) (shadowMap x ∖ list_to_set (map pipPageIdx l)) x)).
Proof.
  induction l as [|w l IH]; intros x; cbn [for_each map].
  - rewrite app_nil_r. assert (E : shadowMap x ∖ list_to_set [] = shadowMap x) by set_solver. rewrite E. destruct x. reflexivity.
  - set (x1 := set_pips (pips x ++ [w]) (updatedLastPIP x) (newPIPs x) (set_shadow (shadowPages x) (shadowMap x ∖ {[pipPageIdx w]}) x)). assert (Hrun : (clearShadowPage (pipPageIdx w) ;; modify (λ x, set_pips (pips x ++ [w]) (updatedLastPIP x) (newPIPs x) x)) x = (Ok tt, x1)) by reflexivity.
    rewrite (M_bind_ok _ _ _ _ _ Hrun), IH. unfold x1. cbn. rewrite <- app_assoc. cbn.
    assert (E : shadowMap x ∖ {[pipPageIdx w]} ∖ list_to_set (map pipPageIdx l) = shadowMap x ∖ ({[pipPageIdx w]} ∪ list_to_set (map pipPageIdx l))) by set_solver. rewrite E. reflexivity.
Qed.

Definition published x : DiskArray U :=
  set_updates false (set_pips (wpips x) None [] (set_shadow (shadowPages x) (shadowMap x ∖ list_to_set (map pipPageIdx (changed x))) x)).

Lemma checkpointInMemory_run x :
  upd_ok (pips x) (updatedLastPIP x) → hasTransactionalUpdates x = true →
  checkpointOrRollbackInMemoryIfNecessary elementSize true x = (if (lastPageOnDisk x =? INVALID_PAGE_IDX)%Z then (Ok tt, published x) else updateLastPageOnDisk elementSize (published x)).
Proof.
  intros Hu Ht. unfold checkpointOrRollbackInMemoryIfNecessary. rewrite (M_bind_ok get_state _ x x x eq_refl), Ht. cbn [negb]. set (old := old_pips (pips x) (updatedLastPIP x)).
  set (x1 := set_pips old (updatedLastPIP x) (newPIPs x) (set_shadow (shadowPages x) (match updatedLastPIP x with Some u => shadowMap x ∖ {[pipPageIdx u]} | None => shadowMap x end) x)).
  assert (H1 : (match updatedLastPIP x with
     | Some u => match last (pips x) with
         | Some l => modify (λ x, set_pips (take (length (pips x) - 1) (pips x) ++ [u]) (updatedLastPIP x) (newPIPs x) x) ;; clearShadowPage (pipPageIdx u)
         | None => no_pip end
     | None => mret tt end) x = (Ok tt, x1)).
  { unfold x1, old. destruct (updatedLastPIP x) as [u|] eqn:Eu; [|destruct x; cbn in *; subst; reflexivity]. destruct Hu as (l & Hl & _). rewrite Hl. cbn. rewrite <- Eu. reflexivity. }
  rewrite (M_bind_ok _ _ _ _ _ H1), (M_bind_ok _ _ _ _ _ (append_pips_run (newPIPs x) x1)). set (x2 := set_pips (pips x1 ++ newPIPs x) _ _ _). rewrite (M_bind_ok (modify (λ x, set_pips (pips x) None [] x)) _ x2 tt (set_pips (pips x2) None [] x2) eq_refl).
  set (x3 := set_pips (pips x2) None [] x2). rewrite (M_bind_ok (modify (set_updates false)) _ x3 tt (set_updates false x3) eq_refl). assert (E : set_updates false x3 = published x).
  { unfold published, x3, x2, x1, changed, wpips, joined. fold old. cbn. assert (Em : match updatedLastPIP x with Some u => shadowMap x ∖ {[pipPageIdx u]} | None => shadowMap x end ∖ list_to_set (map pipPageIdx (newPIPs x)) = shadowMap x ∖ list_to_set (map pipPageIdx ((match updatedLastPIP x with Some u => [u] | None => [] end) ++ newPIPs x))).
    { rewrite map_app, list_to_set_app_L. destruct (updatedLastPIP x); cbn; set_solver. } rewrite Em. reflexivity. }
  rewrite E, (M_bind_ok get_state _ _ _ _ eq_refl). change (lastPageOnDisk (published x)) with (lastPageOnDisk x). destruct (lastPageOnDisk x =? INVALID_PAGE_IDX)%Z; reflexivity.
Qed.

Lemma updateLastPageOnDisk_run x used (m : nat) rest :
  Forall full (pips x) → updatedLastPIP x = None → flat (pips x) = used ++ rest → numElements (header x) = Z.of_nat m → m ≤ length used * n → (Z.of_nat m ≤ 2 ^ 32)%Z → (∀ p, p ∈ used → (0 ≤ p < INVALID_PAGE_IDX)%Z) →
  ∃ l, updateLastPageOnDisk elementSize x = (Ok tt, set_lastPageOnDisk l x) ∧ l ≠ INVALID_PAGE_IDX.
Proof.
  pose proof (n_pos elementSize size_ok) as Hpos. intros Hf Hu Hfl Hc Hm Hlen Hv. unfold updateLastPageOnDisk. rewrite (M_bind_ok get_state _ x x x eq_refl), Hc. cbn zeta. destruct (Z.ltb_spec 0 (Z.of_nat m)) as [Hgt|Hle]; [|exists 0%Z; split; [reflexivity|discriminate]].
  replace (Z.of_nat m - 1)%Z with (Z.of_nat (m - 1)) by lia. rewrite cursor_of by (assumption || lia). cbn [fst]. destruct (lookup_lt_is_Some_2 used ((m - 1) / n)) as [p Hp]; [apply Nat.Div0.div_lt_upper_bound; lia|].
  rewrite (M_bind_ok _ _ x p x).
  - exists p. split; [reflexivity|]. pose proof (Hv p ltac:(apply list_elem_of_lookup; eauto)). lia.
  - apply getAPPageIdx_run; [rewrite Hu; exact I|exact Hf|]. cbn [page_numbers]. rewrite Hfl. apply lookup_app_l_Some. exact Hp.
Qed.

(** The array after a checkpoint, with the last page on disk as the code computes it. *)
Definition final (l : Z) x : DiskArray U :=
  set_shadow ∅ ∅ (set_original (put_pips (changed x) (shadowPages x) ∪ original x) (set_header (headerForWriteTrx x) (set_lastPageOnDisk l (set_updates false (set_pips (wpips x) None [] x))))).

Lemma set_last_same x : set_lastPageOnDisk (lastPageOnDisk x) x = x.
Proof. destruct x. reflexivity. Qed.

Lemma commit_final x used W :
  array_ok x used W → (0 ≤ numElements (header x) ≤ Z.of_nat (length W))%Z → (Z.of_nat (length W) ≤ 2 ^ 32)%Z → ∃ l, commit elementSize x = (Ok tt, final l x) ∧ (l = INVALID_PAGE_IDX ↔ lastPageOnDisk x = INVALID_PAGE_IDX).
Proof.
  pose proof (n_pos elementSize size_ok) as Hpos. intros H Hc Hlen. unfold commit. rewrite (M_bind_ok _ _ _ _ _ (array_checkpoint_run x (ao_shadow _ _ _ _ H))). set (x1 := set_shadow (put_pips (changed x) (shadowPages x)) (dom (put_pips (changed x) (shadowPages x))) x).
  destruct (hasTransactionalUpdates x) eqn:Ht.
  - assert (Hlast : ∃ l, checkpointOrRollbackInMemoryIfNecessary elementSize true x1 = (Ok tt, set_lastPageOnDisk l (published x1)) ∧ (l = INVALID_PAGE_IDX ↔ lastPageOnDisk x = INVALID_PAGE_IDX)).
    { rewrite (checkpointInMemory_run x1 (ao_upd _ _ _ _ H) Ht). change (lastPageOnDisk x1) with (lastPageOnDisk x). destruct (Z.eqb_spec (lastPageOnDisk x) INVALID_PAGE_IDX) as [E|E].
      - exists (lastPageOnDisk x). change (lastPageOnDisk x) with (lastPageOnDisk (published x1)) at 1. rewrite set_last_same. split; [reflexivity|tauto].
      - destruct (updateLastPageOnDisk_run (published x1) used (Z.to_nat (numElements (header x))) _ (nb_full _ _ _ _ (ao_numbers _ _ _ _ H)) eq_refl (nb_flat _ _ _ _ (ao_numbers _ _ _ _ H))) as (l & Hrun & Hl); [cbn; lia| |lia|intros q Hq; eapply used_valid; eauto|exists l; split; [exact Hrun|tauto]].
        rewrite (vw_pages _ _ _ _ (ao_view _ _ _ _ H)). pose proof (pages_for_mul n (length W) Hpos). lia. }
    destruct Hlast as (l & Hrun & Hl). exists l. rewrite (M_bind_ok _ _ _ _ _ Hrun). split; [reflexivity|exact Hl].
  - destruct (ao_clean _ _ _ _ H Ht) as (E1 & E2 & E3). exists (lastPageOnDisk x). split; [|tauto]. assert (Hrun : checkpointOrRollbackInMemoryIfNecessary elementSize true x1 = (Ok tt, x1)) by (unfold checkpointOrRollbackInMemoryIfNecessary; rewrite (M_bind_ok get_state _ x1 x1 x1 eq_refl); change (hasTransactionalUpdates x1) with (hasTransactionalUpdates x); rewrite Ht; reflexivity).
    rewrite (M_bind_ok _ _ _ _ _ Hrun). cbn. unfold final, wpips, joined. rewrite E2, E3. cbn. rewrite app_nil_r. clear - Ht E2 E3. destruct x; cbn in *; subst; reflexivity.
Qed.

(** Nothing is pending, and the PIPs are on their pages. *)
Definition settled x : Prop := hasTransactionalUpdates x = false ∧ header x = headerForWriteTrx x ∧ shadowPages x = ∅.
Definition pips_on_file x : Prop := ∀ w, w ∈ pips x → original x !! pipPageIdx w = Some (PIPPage (pipContents w)).

Lemma changed_pages x p : p ∈ map pipPageIdx (changed x) → p ∈ map pipPageIdx (wpips x).
Proof. unfold changed, wpips, joined. rewrite !map_app, !elem_of_app. intros [Hp|Hp]; [|auto]. left. destruct (updatedLastPIP x); cbn [old_pips]; [rewrite map_app; apply elem_of_app; auto|inversion Hp]. Qed.

Lemma final_pips x used W l : array_ok x used W → pips_on_file x → pips_on_file (final l x).
Proof.
  intros H Hf w Hw. change (pips (final l x)) with (wpips x) in Hw. cbn [final original set_shadow set_original]. pose proof (nb_distinct _ _ _ _ (ao_numbers _ _ _ _ H)) as Hd. apply NoDup_app in Hd as (_ & Hdu & Hd). apply NoDup_app in Hd as (Hd & _).
  assert (Hch : NoDup (map pipPageIdx (changed x))). { unfold wpips, joined, changed in *. rewrite !map_app in *. apply NoDup_app in Hd as (D1 & D2 & D3). apply NoDup_app. destruct (updatedLastPIP x) as [u|]; cbn [old_pips map] in *; [rewrite map_app in *; cbn [map] in *|]; split_and!; auto; [apply NoDup_singleton| |apply NoDup_nil_2|intros ? Hx; inversion Hx].
    intros q Hq. apply D2. apply elem_of_app. auto. }
  assert (Hu : ∀ q, q ∈ map pipPageIdx (wpips x) → shadowPages x !! q = None). { intros q Hq. apply not_elem_of_dom. rewrite <- (ao_shadow _ _ _ _ H). intros Hs. destruct (ao_shadowed _ _ _ _ H q Hs) as [Hin _]. apply (Hdu q Hin). apply elem_of_app. auto. }
  destruct (decide (w ∈ changed x)) as [Hin|Hout].
  - apply lookup_union_Some_l. exact (put_pips_in _ _ w Hch Hin).
  - assert (Hold : w ∈ pips x ∧ pipPageIdx w ∉ map pipPageIdx (changed x)).
    { unfold wpips, joined, changed in *. rewrite elem_of_app in Hout. rewrite elem_of_app in Hw. destruct Hw as [Hw|Hw]; [|tauto]. rewrite map_app in Hd |- *. apply NoDup_app in Hd as (D1 & D2 & _). rewrite elem_of_app. destruct (updatedLastPIP x) as [u|]; cbn [old_pips map] in *.
      - apply elem_of_app in Hw as [Hw|Hw]; [|apply list_elem_of_singleton in Hw; subst w; exfalso; apply Hout; left; left]. split; [rewrite <- (take_drop (length (pips x) - 1) (pips x)); apply elem_of_app; auto|]. rewrite map_app in D1, D2. apply NoDup_app in D1 as (_ & D1 & _).
        assert (Hm : pipPageIdx w ∈ map pipPageIdx (take (length (pips x) - 1) (pips x))) by (apply list_elem_of_fmap; eauto). intros [Hq|Hq]; [exact (D1 _ Hm Hq)|]. apply (D2 (pipPageIdx w)); [apply elem_of_app; auto|exact Hq].
      - split; [exact Hw|]. intros [Hq|Hq]; [inversion Hq|]. apply (D2 (pipPageIdx w)); [apply list_elem_of_fmap; eauto|exact Hq]. }
    destruct Hold as [Hold Hno]. rewrite lookup_union_r; [exact (Hf w Hold)|]. rewrite put_pips_other by exact Hno. apply Hu. apply list_elem_of_fmap. eauto.
Qed.

Lemma final_ok x used W l : array_ok x used W → array_ok (final l x) used W ∧ readable (final l x) used W ∧ settled (final l x).
Proof.
  intros H. pose proof H as [H1 H2 H3 H4 H5 H6 H7 H8 H9 H10]. assert (Hpage : ∀ p, p ∈ used → original (final l x) !! p = wpage x p).
  { intros p Hp. cbn. assert (Hno : p ∉ map pipPageIdx (changed x)). { intros Hc. pose proof (nb_distinct _ _ _ _ H5) as Hd. apply NoDup_app in Hd as (_ & Hd & _). apply (Hd p Hp). apply elem_of_app. left. apply changed_pages, Hc. }
    unfold wpage. destruct (decide (p ∈ shadowMap x)) as [Hs|Hs].
    - rewrite bool_decide_eq_true_2, (proj2 (Z.leb_le _ _)) by (assumption || apply (H8 p Hs)). cbn [andb]. rewrite H7 in Hs. apply elem_of_dom in Hs as [c Hc]. rewrite Hc. apply lookup_union_Some_l. rewrite put_pips_other by exact Hno. exact Hc.
    - rewrite bool_decide_eq_false_2, andb_false_r by exact Hs. apply lookup_union_r. rewrite put_pips_other by exact Hno. rewrite H7 in Hs. apply not_elem_of_dom. exact Hs. }
  assert (Hj : wpips (final l x) = wpips x) by (unfold wpips at 1, joined; cbn; apply app_nil_r). split; [|split].
  - split; rewrite ?Hj; [exact H1|exact I|intros Hn; exfalso; apply Hn; reflexivity|exact (nb_full _ _ _ _ H5)|exact H5| |reflexivity| |auto|exact H10].
    + apply (view_ext n (wpage x)); [|exact H6]. intros p Hp. unfold wpage at 1. change (shadowMap (final l x)) with (∅ : gset Z). rewrite bool_decide_eq_false_2, andb_false_r by set_solver. apply Hpage, Hp.
    + intros p Hp. change (p ∈ (∅ : gset Z)) in Hp. apply elem_of_empty in Hp. destruct Hp.
  - split; [exact H1| |eexists; exact (nb_flat _ _ _ _ H5)]. apply (view_ext n (wpage x)); [exact Hpage|exact H6].
  - split_and!; reflexivity.
Qed.

(** ** Sessions of the write iterator *)

Inductive step := SetAt (i : nat) (v : U) | Append (v : U).

Definition run_step (s : step) (it : WriteIterator) : M (DiskArray U) WriteIterator :=
  match s with SetAt i v => it' ← seek elementSize junk (Z.of_nat i) it; assign v it' ;; mret it' | Append v => pushBack elementSize junk v it end.
Fixpoint run_steps (l : list step) (it : WriteIterator) : M (DiskArray U) WriteIterator := match l with [] => mret it | s :: l' => it' ← run_step s it; run_steps l' it' end.

Definition step_list (s : step) (W : list U) : list U := match s with SetAt i v => <[i := v]> W | Append v => W ++ [v] end.
Definition step_allowed (s : step) (W : list U) : bool := match s with SetAt i _ => bool_decide (i < length W) | Append _ => true end.
Fixpoint steps_list (l : list step) (W : list U) : list U := match l with [] => W | s :: l' => steps_list l' (step_list s W) end.
Fixpoint steps_allowed (l : list step) (W : list U) : bool := match l with [] => true | s :: l' => step_allowed s W && steps_allowed l' (step_list s W) end.

Lemma step_grows s W : length W ≤ length (step_list s W) ≤ S (length W).
Proof. destruct s; cbn; [rewrite length_insert; lia|rewrite length_app; cbn; lia]. Qed.
Lemma steps_grow l : ∀ W, length W ≤ length (steps_list l W).
Proof. induction l as [|s l IH]; intros W; cbn; [lia|]. pose proof (step_grows s W). specialize (IH (step_list s W)). lia. Qed.

(** The pages that are left for more elements. *)
Definition reserve x W : nat := length (allocatable x) + 2 * length W.

Lemma step_run s x used W it :
  array_ok x used W → hasTransactionalUpdates x = true → it_ok x used it → step_allowed s W = true → (Z.of_nat (length (step_list s W)) < 2 ^ 32)%Z → 2 * length (step_list s W) ≤ reserve x W →
  ∃ it' x' used', run_step s it x = (Ok it', x') ∧ array_ok x' used' (step_list s W) ∧ it_ok x' used' it' ∧ keeps x x' ∧ hasTransactionalUpdates x' = true ∧ reserve x W ≤ reserve x' (step_list s W).
Proof.
  intros H Ht Hit Hal Hlen Hres. unfold reserve in *. destruct s as [i v|v]; cbn [run_step step_list step_allowed] in *.
  - apply bool_decide_eq_true in Hal. rewrite length_insert in Hlen. destruct (seek_run elementSize size_ok junk junk_full x used W it i H Ht Hit Hal Hlen) as (it1 & x1 & R1 & E1 & O1 & H1 & On). rewrite (M_bind_ok _ _ _ _ _ R1). assert (Ht1 : hasTransactionalUpdates x1 = true) by (unfold rest in E1; injection E1; congruence).
    destruct (assign_run elementSize size_ok junk junk_full x1 used W it1 i v H1 Ht1 On Hal) as (x2 & R2 & E2 & H2 & It2 & K2). rewrite (M_bind_ok _ _ _ _ _ R2). exists it1, x2, used. split; [reflexivity|]. split; [exact H2|]. split; [exact It2|].
    assert (Ha : allocatable x2 = allocatable x ∧ hasTransactionalUpdates x2 = true) by (unfold rest in E1, E2; injection E1; injection E2; intros; split; congruence). destruct Ha as [-> ->]. rewrite length_insert. split; [|auto].
    eapply keeps_trans; [..|exact K2]; try assumption. eapply rest_keeps; [assumption..|exact H|exact E1| |]; [intros q _; rewrite O1; reflexivity|]. intros usedc C Hc. eapply committed_ok_frame; [exact Hc|exact E1|]. intros q _. rewrite O1. reflexivity.
  - rewrite length_app in *. cbn [length] in *. destruct (pushBack_run elementSize size_ok junk junk_full x used W it v H Ht Hit ltac:(lia) ltac:(lia)) as (it' & x' & used' & k & R & H' & I' & K & T & Hk & Ea). exists it', x', used'. split_and!; auto. rewrite Ea, length_drop. lia.
Qed.

Lemma steps_run l : ∀ x used W it,
  array_ok x used W → hasTransactionalUpdates x = true → it_ok x used it → steps_allowed l W = true → (Z.of_nat (length (steps_list l W)) < 2 ^ 32)%Z → 2 * length (steps_list l W) ≤ reserve x W →
  ∃ it' x' used', run_steps l it x = (Ok it', x') ∧ array_ok x' used' (steps_list l W) ∧ keeps x x' ∧ hasTransactionalUpdates x' = true ∧ reserve x W ≤ reserve x' (steps_list l W).
Proof.
  induction l as [|s l IH]; intros x used W it H Ht Hit Hal Hlen Hres; cbn [run_steps steps_list steps_allowed] in *; [exists it, x, used; split_and!; auto; split_and!; auto|]. apply andb_prop in Hal as [Hal1 Hal2]. pose proof (steps_grow l (step_list s W)).
  destruct (step_run s x used W it H Ht Hit Hal1 ltac:(lia) ltac:(lia)) as (it1 & x1 & used1 & R1 & H1 & I1 & K1 & T1 & L1). rewrite (M_bind_ok _ _ _ _ _ R1).
  destruct (IH x1 used1 _ it1 H1 T1 I1 Hal2 Hlen ltac:(lia)) as (it2 & x2 & used2 & R2 & H2 & K2 & T2 & L2). exists it2, x2, used2. split_and!; auto; [eapply keeps_trans; eassumption|lia].
Qed.

Lemma push_times_steps k v : ∀ it x, push_times elementSize junk k v it x = run_steps (replicate k (Append v)) it x.
Proof.
  induction k as [|k IH]; intros it x; cbn [push_times replicate run_steps run_step]; [reflexivity|]. unfold mbind, M_bind. destruct (pushBack elementSize junk v it x) as [[it'|e] x']; [apply IH|reflexivity].
Qed.
Lemma appends_list k v : ∀ W, steps_list (replicate k (Append v)) W = W ++ replicate k v.
Proof. induction k as [|k IH]; intros W; cbn [replicate steps_list step_list]; [rewrite app_nil_r; reflexivity|]. rewrite IH, <- app_assoc. reflexivity. Qed.
Lemma appends_allowed k v : ∀ W, steps_allowed (replicate k (Append v)) W = true.
Proof. induction k as [|k IH]; intros W; cbn; auto. Qed.

Lemma session_run l x used W :
  array_ok x used W → steps_allowed l W = true → (Z.of_nat (length (steps_list l W)) < 2 ^ 32)%Z → 2 * length (steps_list l W) ≤ reserve x W →
  ∃ it x' used', (it ← iter_mut; run_steps l it) x = (Ok it, x') ∧ array_ok x' used' (steps_list l W) ∧ keeps x x' ∧ reserve x W ≤ reserve x' (steps_list l W).
Proof.
  intros H Hal Hlen Hres. destruct (set_updates_ok elementSize x used W H) as [H1 Hc1]. set (it0 := MkIterator UINT32_MAX 65535 0 INVALID_PAGE_IDX false). rewrite (M_bind_ok iter_mut _ x it0 (set_updates true x) eq_refl).
  destruct (steps_run l (set_updates true x) used W it0 H1 eq_refl ltac:(apply it_new; reflexivity) Hal Hlen Hres) as (it & x' & used' & R & H' & K & _ & L). exists it, x', used'. split; [exact R|]. split; [exact H'|]. split; [|exact L]. eapply keeps_trans; [..|exact K]; try assumption; split_and!; auto.
Qed.

Lemma array_resize_run k v x used W (W' := W ++ replicate (k - length W) v) :
  array_ok x used W → (Z.of_nat (length W') < 2 ^ 32)%Z → 2 * length W' ≤ reserve x W →
  ∃ x' used', resize elementSize junk (Z.of_nat k) v x = (Ok (Z.of_nat (length W)), x') ∧ array_ok x' used' W' ∧ keeps x x' ∧ reserve x W ≤ reserve x' W'.
Proof.
  intros H Hlen Hres. unfold W' in *. clear W'. rewrite <- (appends_list (k - length W) v W) in *. destruct (session_run _ x used W H (appends_allowed _ v W) Hlen Hres) as (it & x' & used' & R & H' & K & L). exists x', used'. split; [|auto].
  set (it0 := MkIterator UINT32_MAX 65535 0 INVALID_PAGE_IDX false). rewrite (M_bind_ok iter_mut _ x it0 (set_updates true x) eq_refl) in R. unfold resize. rewrite (M_bind_ok iter_mut _ x it0 (set_updates true x) eq_refl), (M_bind_ok get_state _ _ _ _ eq_refl). cbn zeta.
  change (headerForWriteTrx (set_updates true x)) with (headerForWriteTrx x). rewrite (ao_count _ _ _ _ H). replace (Z.to_nat (Z.of_nat k - Z.of_nat (length W))) with (k - length W) by lia.
  rewrite (M_bind_ok _ _ (set_updates true x) it x') by (rewrite push_times_steps; exact R). reflexivity.
Qed.

(** ** Opening the file again *)

Lemma read_pips_run (file : gmap Z (PageContent U)) l : ∀ fuel first, chained first l → (∀ w, w ∈ l → file !! pipPageIdx w = Some (PIPPage (pipContents w)) ∧ pipPageIdx w ≠ NULL_PAGE_IDX) → length l ≤ fuel → read_pips fuel file first = Ok l.
Proof.
  induction l as [|w l IH]; intros fuel first Hc Hl Hf.
  - cbn in Hc. subst first. destruct fuel; reflexivity.
  - destruct Hc as [-> Hc]. cbn [length] in Hf. destruct fuel as [|fuel]; [lia|]. destruct (Hl w ltac:(left)) as [Hw Hn]. cbn [read_pips]. rewrite (proj2 (Z.eqb_neq _ _) Hn), Hw. rewrite (IH fuel _ Hc); [destruct w; reflexivity| |lia]. intros w' Hw'. apply Hl. right. exact Hw'.
Qed.

Lemma pips_fuel x : NoDup (map pipPageIdx (pips x)) → pips_on_file x → length (pips x) ≤ size (original x).
Proof.
  intros Hd Hf. rewrite <- size_dom, <- (length_map pipPageIdx). assert (Hs : size (list_to_set (map pipPageIdx (pips x)) : gset Z) = length (map pipPageIdx (pips x))) by (apply size_list_to_set, Hd). rewrite <- Hs. apply subseteq_size. intros p Hp. apply elem_of_list_to_set, list_elem_of_fmap in Hp as (w & -> & Hw).
  apply elem_of_dom. rewrite (Hf w Hw). eauto.
Qed.

Lemma settled_clean x used W : array_ok x used W → settled x → wpips x = pips x ∧ updatedLastPIP x = None ∧ newPIPs x = [] ∧ shadowMap x = ∅.
Proof. intros H (Ht & _ & _). destruct (ao_clean _ _ _ _ H Ht) as (E1 & E2 & E3). unfold wpips, joined. rewrite E2, E3, app_nil_r. auto. Qed.

Definition reopened l x : DiskArray U := set_lastPageOnDisk l (set_lastAPPageIdx INVALID_PAGE_IDX x).

Lemma reopened_ok x used W l : array_ok x used W → settled x → array_ok (reopened l x) used W ∧ settled (reopened l x) ∧ (readable x used W → readable (reopened l x) used W) ∧ (pips_on_file x → pips_on_file (reopened l x)).
Proof.
  intros H Hs. destruct (settled_clean x used W H Hs) as (_ & E2 & E3 & E4). pose proof H as [H1 H2 H3 H4 H5 H6 H7 H8 H9 H10]. split; [|split; [exact Hs|split; [intros [C1 C2 C3]; split; assumption|auto]]].
  assert (Hw : ∀ p, wpage (reopened l x) p = wpage x p) by (intros p; unfold wpage; cbn; rewrite E4, bool_decide_eq_false_2, !andb_false_r by set_solver; reflexivity).
  split; try assumption; [apply (view_ext n (wpage x)); [intros p _; apply Hw|exact H6]| |left; reflexivity]. cbn. intros p Hp. rewrite E4 in Hp. apply elem_of_empty in Hp. destruct Hp.
Qed.

Lemma open_run x used W bypass :
  array_ok x used W → settled x → pips_on_file x → (Z.of_nat (length W) ≤ 2 ^ 32)%Z →
  ∃ l, DiskArray_open elementSize (original x) (allocatable x) (header x) bypass = Ok (reopened l x) ∧ (l = INVALID_PAGE_IDX ↔ bypass = false).
Proof.
  pose proof (n_pos elementSize size_ok) as Hpos. intros H Hs Hf Hlen. destruct (settled_clean x used W H Hs) as (E1 & E2 & E3 & E4). destruct Hs as (S1 & S2 & S3). pose proof (ao_numbers _ _ _ _ H) as Hn. rewrite E1 in Hn. unfold DiskArray_open.
  rewrite (read_pips_run _ (pips x)).
  - assert (Ex : MkDiskArray (original x) ∅ ∅ (allocatable x) (header x) (header x) false (pips x) None [] INVALID_PAGE_IDX INVALID_PAGE_IDX = reopened INVALID_PAGE_IDX x) by (clear - E2 E3 E4 S1 S2 S3; destruct x; cbn in *; subst; reflexivity).
    rewrite Ex. destruct bypass; [|exists INVALID_PAGE_IDX; split; [reflexivity|tauto]].
    destruct (updateLastPageOnDisk_run (reopened INVALID_PAGE_IDX x) used (length W) _ (nb_full _ _ _ _ Hn) E2 (nb_flat _ _ _ _ Hn)) as (l & R & Hl); [cbn; rewrite S2; exact (ao_count _ _ _ _ H)| |exact Hlen|intros q Hq; eapply used_valid; eauto|].
    + rewrite (vw_pages _ _ _ _ (ao_view _ _ _ _ H)). exact (pages_for_mul n (length W) Hpos).
    + rewrite R. exists l. split; [reflexivity|]. split; [tauto|discriminate].
  - rewrite S2. exact (nb_chain _ _ _ _ Hn).
  - intros w Hw. split; [exact (Hf w Hw)|]. pose proof (nb_valid _ _ _ _ Hn) as Hv. rewrite Forall_forall in Hv. specialize (Hv (pipPageIdx w)). assert (Hin : pipPageIdx w ∈ used ++ map pipPageIdx (pips x) ++ allocatable x) by (rewrite !elem_of_app; right; left; apply list_elem_of_fmap; eauto). specialize (Hv Hin). unfold NULL_PAGE_IDX. lia.
  - apply pips_fuel; [|exact Hf]. pose proof (nb_distinct _ _ _ _ Hn) as Hd. apply NoDup_app in Hd as (_ & _ & Hd). apply NoDup_app in Hd as (Hd & _). exact Hd.
Qed.

(** ** Sequences of operations *)

Inductive array_op := GetElement (checkpoint : bool) (i : nat) | CountElements (checkpoint : bool) | Update (i : nat) (v : U) | Iterate (l : list step) | Resize (k : nat) (v : U) | Commit | Reopen.
Inductive result := Done | Element (v : U) | Count (c : Z).

Definition run_op (bypass : bool) (o : array_op) : M (DiskArray U) result :=
  match o with
  | GetElement c i => v ← get elementSize c (Z.of_nat i); mret (Element v)
  | CountElements c => x ← get_state; mret (Count (getNumElements c x))
  | Update i v => update elementSize junk (Z.of_nat i) v ;; mret Done
  | Iterate l => it ← (it ← iter_mut; run_steps l it); mret Done
  | Resize k v => c ← resize elementSize junk (Z.of_nat k) v; mret (Count c)
  | Commit => commit elementSize ;; mret Done
  | Reopen => x ← get_state; match DiskArray_open elementSize (original x) (allocatable x) (header x) bypass with Ok x' => put_state x' ;; mret Done | Throw e => raise e end
  end.

Import VersionedArray.
Implicit Types (a : VersionedArray U).

Definition spec_op (o : array_op) a : outcome result * VersionedArray U :=
  match o with
  | GetElement c i => (match read_list (elements c a) i with Ok v => Ok (Element v) | Throw e => Throw e end, a)
  | CountElements c => (Ok (Count (VersionedArray.getNumElements c a)), a)
  | Update i v => (if decide (i < length (current a)) then Ok Done else Throw (out_of_bounds (Z.of_nat i) (Z.of_nat (length (current a)))), VersionedArray.update (Z.of_nat i) v a)
  | Iterate l => (Ok Done, MkArray (committed a) (steps_list l (current a)))
  | Resize k v => (Ok (Count (Z.of_nat (length (current a)))), VersionedArray.resize (Z.of_nat k) v a)
  | Commit => (Ok Done, checkpointInMemory a)
  | Reopen => (Ok Done, a)
  end.

(** Exceptions go to the caller, who goes on. *)
Fixpoint run_all {S O R} (f : O → S → outcome R * S) (l : list O) (s : S) : list (outcome R) * S :=
  match l with [] => ([], s) | o :: l' => let '(r, s1) := f o s in let '(rs, s2) := run_all f l' s1 in (r :: rs, s2) end.

(** Whether a checkpoint has changed something. *)
Definition pending_after (o : array_op) (pending : bool) : bool := match o with Update _ _ | Iterate _ | Resize _ _ => true | Commit => false | _ => pending end.
(** What the callers keep to: an iterator is moved to elements that there are; with pages written in place, the others do not read while a checkpoint changes the array; it
    is opened as a checkpoint left it. *)
Definition allowed (bypass pending : bool) (o : array_op) a : bool :=
  match o with
  | GetElement false _ => negb (bypass && pending)
  | Iterate l => steps_allowed l (current a)
  | Reopen => negb pending
  | _ => true
  end.
Fixpoint all_allowed (bypass pending : bool) (l : list array_op) a : bool :=
  match l with [] => true | o :: l' => allowed bypass pending o a && all_allowed bypass (pending_after o pending) l' (spec_op o a).2 end.

Record refines (bypass pending : bool) x a : Prop := {
  rf_array : ∃ used, array_ok x used (current a) ∧ (pending = false → readable x used (current a) ∧ settled x ∧ committed a = current a);
  rf_reader : bypass = false → ∃ usedc, committed_ok x usedc (committed a);
  rf_count : numElements (header x) = Z.of_nat (length (committed a)) ∧ length (committed a) ≤ length (current a);
  rf_last : lastPageOnDisk x = INVALID_PAGE_IDX ↔ bypass = false;
  rf_pips : pips_on_file x;
}.

Lemma spec_grows o a : length (current a) ≤ length (current (spec_op o a).2).
Proof. destruct o; cbn; try lia; [rewrite length_insert; lia|apply steps_grow|rewrite length_app; lia]. Qed.
Lemma specs_grow l : ∀ a, length (current a) ≤ length (current (run_all spec_op l a).2).
Proof.
  induction l as [|o l IH]; intros a; cbn [run_all]; [reflexivity|]. pose proof (spec_grows o a) as H. destruct (spec_op o a) as [r a1]. specialize (IH a1). destruct (run_all spec_op l a1). cbn [snd] in *. lia.
Qed.

(** A change by a checkpoint. *)
Lemma refines_change bypass pending x a x' used' W' : refines bypass pending x a → array_ok x' used' W' → keeps x x' → length (current a) ≤ length W' → refines bypass true x' (MkArray (committed a) W').
Proof.
  intros [_ R2 [R3 R3'] R4 R5] H' (K1 & K2 & K3 & K4 & K5) Hl. split; cbn.
  - exists used'. split; [exact H'|discriminate].
  - intros Hb. destruct (R2 Hb) as [usedc Hc]. eauto.
  - rewrite K2. split; [exact R3|lia].
  - rewrite K1. exact R4.
  - intros w Hw. rewrite K3 in Hw. rewrite (K4 w Hw). exact (R5 w Hw).
Qed.

(** Every page that is used is on disk when all of them are taken to be. *)
Lemma isolated x used W : array_ok x used W → readable x used W → lastPageOnDisk x = INVALID_PAGE_IDX → committed_ok x used W.
Proof.
  intros H Hr E. split; [exact Hr|]. intros p Hp. pose proof (nb_valid _ _ _ _ (ao_numbers _ _ _ _ H)) as Hv. rewrite Forall_forall in Hv. specialize (Hv p ltac:(apply elem_of_app; auto)). split; [lia|]. pose proof (nb_distinct _ _ _ _ (ao_numbers _ _ _ _ H)) as Hd.
  apply NoDup_app in Hd as (_ & Hd & _). intros Ha. apply (Hd p Hp). apply elem_of_app. auto.
Qed.

Lemma refines_settled bypass x used W : array_ok x used W → readable x used W → settled x → pips_on_file x → (lastPageOnDisk x = INVALID_PAGE_IDX ↔ bypass = false) → refines bypass false x (MkArray W W).
Proof.
  intros H Hr Hs Hp Hl. split; cbn; [exists used; auto| |split; [exact (rd_count _ _ _ _ Hr)|lia]|exact Hl|exact Hp]. intros Hb. exists used. apply isolated; tauto.
Qed.

Lemma get_run c i x a bypass pending :
  refines bypass pending x a → allowed bypass pending (GetElement c i) a = true → (Z.of_nat (length (current a)) < 2 ^ 32)%Z → get elementSize c (Z.of_nat i) x = (read_list (elements c a) i, x).
Proof.
  intros [(used & H & Hp) R2 [_ R3] _ _] Hal Hlen. destruct c; cbn [elements allowed] in *; [eapply get_current; eauto; lia|]. apply negb_true_iff, andb_false_iff in Hal as [Hb|Hb].
  - destruct (R2 Hb) as (usedc & Hc). eapply get_committed; eauto; [exact (co_readable _ _ _ _ Hc)|lia].
  - destruct (Hp Hb) as (Hr & _ & E). rewrite E. eapply get_committed; eauto. lia.
Qed.

Lemma commit_run bypass pending x a : refines bypass pending x a → (Z.of_nat (length (current a)) < 2 ^ 32)%Z → ∃ x', commit elementSize x = (Ok tt, x') ∧ refines bypass false x' (checkpointInMemory a) ∧ allocatable x' = allocatable x.
Proof.
  intros [(used & H & _) _ [R3 R3'] R4 R5] Hlen. destruct (commit_final x used (current a) H ltac:(lia) ltac:(lia)) as (l & Hrun & Hl). destruct (final_ok x used (current a) l H) as (H' & Hr' & Hs').
  exists (final l x). split; [exact Hrun|]. split; [|reflexivity]. apply (refines_settled bypass _ used); try assumption; [exact (final_pips x used _ l H R5)|]. cbn. tauto.
Qed.

Lemma array_reopen_run bypass x a : refines bypass false x a → (Z.of_nat (length (current a)) < 2 ^ 32)%Z → ∃ x', run_op bypass Reopen x = (Ok Done, x') ∧ refines bypass false x' a ∧ allocatable x' = allocatable x.
Proof.
  intros [(used & H & Hp) _ _ _ R5] Hlen. destruct (Hp eq_refl) as (Hr & Hs & E). destruct (open_run x used _ bypass H Hs R5 ltac:(lia)) as (l & Ho & Hl). exists (reopened l x). cbn [run_op]. rewrite (M_bind_ok get_state _ x x x eq_refl), Ho. split; [reflexivity|]. split; [|reflexivity].
  destruct (reopened_ok x used _ l H Hs) as (H' & Hs' & Hr' & Hp'). destruct a as [C W]. cbn in *. subst C. apply (refines_settled bypass _ used); auto.
Qed.

Lemma op_run bypass pending o x a :
  refines bypass pending x a → allowed bypass pending o a = true → (Z.of_nat (length (current (spec_op o a).2)) < 2 ^ 32)%Z → 2 * length (current (spec_op o a).2) ≤ reserve x (current a) →
  ∃ x', run_op bypass o x = ((spec_op o a).1, x') ∧ refines bypass (pending_after o pending) x' (spec_op o a).2 ∧ reserve x (current a) ≤ reserve x' (current (spec_op o a).2).
Proof.
  intros R Hal Hlen Hres. pose proof (spec_grows o a) as Hg. pose proof R as [(used & H & Hp) R2 [R3 R3'] R4 R5]. destruct o as [c i|c|i v|l|k v| |]; cbn [spec_op pending_after fst snd] in *.
  - exists x. split; [|auto]. pose proof (get_run c i x a bypass pending R Hal ltac:(lia)) as E. cbn [run_op]. unfold mbind, M_bind. rewrite E. destruct (read_list _ _); reflexivity.
  - exists x. split; [|auto]. cbn [run_op]. rewrite (M_bind_ok get_state _ x x x eq_refl). unfold DiskArray.getNumElements, VersionedArray.getNumElements. destruct c; cbn [getDiskArrayHeader elements]; [rewrite (ao_count _ _ _ _ H)|rewrite R3]; reflexivity.
  - unfold VersionedArray.update in *. cbn [current] in *. rewrite Nat2Z.id in *. rewrite length_insert in *. destruct (update_run elementSize size_ok junk junk_full x used (current a) i v H ltac:(lia)) as (x' & E & H' & K & Ea). exists x'. split; [cbn [run_op]; unfold mbind, M_bind; rewrite E; destruct (decide _); reflexivity|].
    split; [|unfold reserve; rewrite Ea, length_insert; lia]. apply (refines_change bypass pending x a x' used); auto. rewrite length_insert. lia.
  - destruct (session_run l x used (current a) H Hal Hlen Hres) as (it & x' & used' & E & H' & K & L). exists x'. split; [cbn [run_op]; rewrite (M_bind_ok _ _ _ _ _ E); reflexivity|]. split; [|exact L]. exact (refines_change bypass pending x a x' used' _ R H' K Hg).
  - unfold VersionedArray.resize in *. cbn [current] in *. rewrite Nat2Z.id in *. destruct (array_resize_run k v x used (current a) H Hlen Hres) as (x' & used' & E & H' & K & L). exists x'. split; [cbn [run_op]; rewrite (M_bind_ok _ _ _ _ _ E); reflexivity|]. split; [|exact L]. exact (refines_change bypass pending x a x' used' _ R H' K Hg).
  - destruct (commit_run bypass pending x a R ltac:(lia)) as (x' & E & R' & Ea). exists x'. split; [cbn [run_op]; rewrite (M_bind_ok _ _ _ _ _ E); reflexivity|]. split; [exact R'|]. unfold reserve. cbn. rewrite Ea. lia.
  - cbn in Hal. apply negb_true_iff in Hal as ->. destruct (array_reopen_run bypass x a R ltac:(lia)) as (x' & E & R' & Ea). exists x'. split; [exact E|]. split; [exact R'|]. unfold reserve. rewrite Ea. lia.
Qed.

Definition ends_pending (pending : bool) (l : list array_op) : bool := fold_left (λ (b : bool) o, pending_after o b) l pending.

Lemma ops_run bypass l : ∀ pending x a (final := (run_all spec_op l a).2),
  refines bypass pending x a → all_allowed bypass pending l a = true → (Z.of_nat (length (current final)) < 2 ^ 32)%Z → 2 * length (current final) ≤ reserve x (current a) →
  (run_all (run_op bypass) l x).1 = (run_all spec_op l a).1 ∧ refines bypass (ends_pending pending l) (run_all (run_op bypass) l x).2 final.
Proof.
  induction l as [|o l IH]; intros pending x a final R Hal Hlen Hres; unfold final in *; clear final; cbn [run_all all_allowed ends_pending fold_left] in *; [auto|]. apply andb_prop in Hal as [Hal1 Hal2]. pose proof (specs_grow l (spec_op o a).2) as Hg. destruct (op_run bypass pending o x a R Hal1) as (x1 & E & R1 & L1).
  - destruct (spec_op o a) as [r a1]. cbn [snd] in *. destruct (run_all spec_op l a1). cbn [snd] in *. lia.
  - destruct (spec_op o a) as [r a1]. cbn [snd] in *. destruct (run_all spec_op l a1). cbn [snd] in *. lia.
  - rewrite E. destruct (spec_op o a) as [r a1]. cbn [fst snd] in *. specialize (IH (pending_after o pending) x1 a1 R1 Hal2). destruct (run_all spec_op l a1) as [rs a2]. cbn [fst snd] in *. specialize (IH Hlen ltac:(lia)). destruct (run_all (run_op bypass) l x1) as [rs' x2]. cbn in *. destruct IH as [-> IH]. auto.
Qed.

Lemma new_array bypass free : NoDup free → Forall (λ p, (0 ≤ p < INVALID_PAGE_IDX)%Z) free → ∃ x, DiskArray_open elementSize (∅ : gmap Z (PageContent U)) free DiskArrayHeader_new bypass = Ok x ∧ refines bypass false x (MkArray [] []) ∧ allocatable x = free.
Proof.
  pose proof (n_pos elementSize size_ok) as Hpos. intros Hd Hv. assert (Hn : pages_for n 0 = 0) by (unfold pages_for; apply Nat.div_small; lia). assert (HC : pages_for CP 0 = 0) by (pose proof CP_value as [_ HCP]; unfold pages_for; apply Nat.div_small; lia).
  set (l := if bypass then 0%Z else INVALID_PAGE_IDX). set (x := MkDiskArray (∅ : gmap Z (PageContent U)) ∅ ∅ free DiskArrayHeader_new DiskArrayHeader_new false [] None [] INVALID_PAGE_IDX l). exists x. split; [destruct bypass; reflexivity|]. split; [|reflexivity].
  apply (refines_settled bypass x []); [| | | |].
  - split; [reflexivity|exact I|contradiction|constructor| | |reflexivity|set_solver|auto|auto].
    + split; [constructor|reflexivity|symmetry; exact HC|exact Hd|exact Hv|reflexivity].
    + split; [symmetry; exact Hn|intros p Hp; inversion Hp|intros i v E; discriminate E].
  - split; [reflexivity| |exists []; reflexivity]. split; [symmetry; exact Hn|intros p Hp; inversion Hp|intros i v E; discriminate E].
  - split_and!; reflexivity.
  - intros w Hw. inversion Hw.
  - unfold x, l. cbn. destruct bypass; split; try discriminate; reflexivity.
Qed.

(** ** Giving back the pages *)

Definition used_entries (l : list Z) : list Z := List.filter (λ i, negb (i =? NULL_PAGE_IDX)%Z) l.

Lemma reclaim_perm ps : (∀ w, w ∈ ps → pipPageIdx w ≠ NULL_PAGE_IDX) →
  concat (map (λ w, used_entries (pageIdxs (pipContents w)) ++ (if (pipPageIdx w =? NULL_PAGE_IDX)%Z then [] else [pipPageIdx w])) ps) ≡ₚ used_entries (flat ps) ++ map pipPageIdx ps.
Proof.
  unfold flat, used_entries. induction ps as [|w ps IH]; intros Hp; [reflexivity|]. cbn [map concat]. rewrite IH by (intros; apply Hp; right; assumption). rewrite (proj2 (Z.eqb_neq _ _)) by (apply Hp; left). rewrite List.filter_app, <- !app_assoc. apply Permutation_app_head. cbn [app]. apply Permutation_middle.
Qed.

Lemma used_entries_of used k : Forall (λ p, (0 ≤ p < INVALID_PAGE_IDX)%Z) used → used_entries (used ++ replicate k NULL_PAGE_IDX) = used.
Proof.
  intros Hv. unfold used_entries. rewrite List.filter_app. assert (E : ∀ j, List.filter (λ i, negb (i =? NULL_PAGE_IDX)%Z) (replicate j NULL_PAGE_IDX) = []) by (induction j; auto). rewrite E, app_nil_r. clear k E.
  induction Hv as [|p l Hp Hl IH]; [reflexivity|]. cbn [List.filter]. unfold NULL_PAGE_IDX in *. rewrite (proj2 (Z.eqb_neq _ _)) by lia. cbn [negb]. rewrite IH. reflexivity.
Qed.

Lemma reclaim_all x used W : array_ok x used W → settled x → reclaimStorage x ≡ₚ used ++ map pipPageIdx (pips x).
Proof.
  intros H Hs. destruct (settled_clean x used W H Hs) as (E & _). pose proof (ao_numbers _ _ _ _ H) as Hn. rewrite E in Hn. pose proof (nb_valid _ _ _ _ Hn) as Hv. apply Forall_app in Hv as [Hv1 Hv2]. apply Forall_app in Hv2 as [Hv2 _]. unfold reclaimStorage.
  etransitivity; [apply reclaim_perm|rewrite (nb_flat _ _ _ _ Hn), used_entries_of by exact Hv1; reflexivity]. intros w Hw. rewrite Forall_forall in Hv2. specialize (Hv2 (pipPageIdx w) ltac:(apply list_elem_of_fmap; eauto)). unfold NULL_PAGE_IDX. lia.
Qed.

Lemma reclaim_settled bypass x a : refines bypass false x a → NoDup (reclaimStorage x ++ allocatable x) ∧ length (reclaimStorage x) = pages_for n (length (current a)) + pages_for CP (pages_for n (length (current a))).
Proof.
  intros [(used & H & Hp) _ _ _ _]. destruct (Hp eq_refl) as (_ & Hs & _). pose proof (reclaim_all x used _ H Hs) as E. destruct (settled_clean x used _ H Hs) as (Ep & _). pose proof (ao_numbers _ _ _ _ H) as Hn. rewrite Ep in Hn. rewrite E, <- app_assoc. split; [exact (nb_distinct _ _ _ _ Hn)|].
  rewrite length_app, length_map, (nb_count _ _ _ _ Hn), (vw_pages _ _ _ _ (ao_view _ _ _ _ H)). reflexivity.
Qed.
End Commit.

(** ** The theorems *)

Section Theorems.
Context {U : Type} (elementSize : Z) (junk : list U) (bypass : bool) (free : list Z).
Hypothesis size_ok : (0 < elementSize ≤ Z.of_nat KUZU_PAGE_SIZE)%Z.
Hypothesis junk_full : Z.of_nat (length junk) = numElementsPerPage elementSize.
Hypothesis free_distinct : NoDup free.
Hypothesis free_valid : Forall (λ p, (0 ≤ p < INVALID_PAGE_IDX)%Z) free.

Definition empty : VersionedArray.VersionedArray U := VersionedArray.MkArray [] [].
(** The callers keep to the protocol, and there are pages for the elements. *)
Definition runs_ok (ops : list array_op) : bool :=
  let len := length (VersionedArray.current (run_all spec_op ops empty).2) in all_allowed bypass false ops empty && (Z.of_nat len <? 2 ^ 32)%Z && (2 * len <=? length free).

Lemma junk_page : length junk = n elementSize.
Proof. destruct (per_page elementSize size_ok). lia. Qed.

Lemma new_array_runs ops : runs_ok ops = true →
  ∃ x, DiskArray_open elementSize (∅ : gmap Z (PageContent U)) free DiskArrayHeader_new bypass = Ok x ∧
    (run_all (run_op elementSize junk bypass) ops x).1 = (run_all spec_op ops empty).1 ∧ refines elementSize bypass (ends_pending false ops) (run_all (run_op elementSize junk bypass) ops x).2 (run_all spec_op ops empty).2.
Proof.
  unfold runs_ok. rewrite !andb_true_iff, Z.ltb_lt, Nat.leb_le. intros [[H1 H2] H3]. destruct (new_array elementSize junk size_ok junk_page bypass free free_distinct free_valid) as (x & Ho & R & Ea). exists x. split; [exact Ho|].
  apply (ops_run elementSize junk size_ok); [exact junk_page|exact R|exact H1|exact H2|]. unfold reserve. rewrite Ea. cbn. lia.
Qed.

(** C9. A sequence of reads, updates, sessions of the write iterator, resizings, checkpoints and reopenings on a new disk array yields what it yields on a pair of lists: a
    checkpoint reads and writes the current one, the others read the one of the last checkpoint. An iterator is only moved to elements that there are, an array is reopened only
    as a checkpoint left it, and with pages written in place ([bypassShadowing], as the hash index has it) the others do not read while a checkpoint is changing the array: see
    [update_of_committed_page_visible] and [recycled_page_number]. The array stays below 2^32 elements, the pages that can be allocated are enough, and accesses out of range fail as in
    a build that checks assertions. *)
Theorem disk_array_refines ops : runs_ok ops = true →
  ∃ x, DiskArray_open elementSize ∅ free DiskArrayHeader_new bypass = Ok x ∧ (run_all (run_op elementSize junk bypass) ops x).1 = (run_all spec_op ops empty).1.
Proof. intros H. destruct (new_array_runs ops H) as (x & Ho & E & _). eauto. Qed.

(** C29. Releasing a disk array that a checkpoint left gives back the pages of its elements and its page indices pages, each once and none that can still be allocated. *)
Theorem disk_array_reclaims ops : runs_ok ops = true → ends_pending false ops = false →
  ∃ x, DiskArray_open elementSize ∅ free DiskArrayHeader_new bypass = Ok x ∧
    let x' := (run_all (run_op elementSize junk bypass) ops x).2 in let pages := Z.to_nat (getNumAPs elementSize (header x')) in
    NoDup (reclaimStorage x' ++ allocatable x') ∧ length (reclaimStorage x') = pages + (pages + 1022) / 1023.
Proof.
  intros H He. destruct (new_array_runs ops H) as (x & Ho & _ & R). exists x. split; [exact Ho|]. rewrite He in R. cbn zeta. set (x' := (run_all _ ops x).2) in *. set (a := (run_all spec_op ops empty).2) in *. destruct (reclaim_settled elementSize junk junk_page bypass x' a R) as [H1 H2]. split; [exact H1|]. rewrite H2.
  pose proof (rf_array _ _ _ _ _ R) as (used & Ha & Hp). destruct (Hp eq_refl) as (Hr & _ & _). pose proof (rd_count _ _ _ _ Hr) as Hc. destruct (header x') as [c f]. cbn in Hc. subst c. rewrite numAPs_of, Nat2Z.id by exact size_ok. f_equal. unfold pages_for at 1. f_equal. change CP with 1023. lia.
Qed.
End Theorems.

(** Elements of 256 bytes, 16 on a page. *)
Definition some_ops : list (array_op (U := Z)) :=
  [Iterate [Append 1; Append 2; SetAt 0 7]; CountElements false; Commit; GetElement false 0; Resize 40 5; Update 1 9; Commit; Reopen; GetElement false 1; GetElement true 39; CountElements true]%Z.
Definition some_results : list (outcome (result (U := Z))) :=
  [Ok Done; Ok (Count 0); Ok Done; Ok (Element 7); Ok (Count 2); Ok Done; Ok Done; Ok Done; Ok (Element 9); Ok (Element 5); Ok (Count 40)]%Z.
Definition some_pages : list Z := Z.of_nat <$> seq 3 80.

Lemma disk_array_refines_witness : ∃ x, DiskArray_open 256 ∅ some_pages DiskArrayHeader_new true = Ok x ∧ (run_all (run_op 256 (replicate 16 (-1)%Z) true) some_ops x).1 = some_results.
Proof.
  apply (disk_array_refines 256 (replicate 16 (-1)%Z) true some_pages); [cbv; split; congruence|reflexivity|apply (bool_decide_unpack _); vm_compute; exact I|apply (bool_decide_unpack _); vm_compute; exact I|reflexivity].
Defined.

Lemma disk_array_reclaims_witness : ∃ x, DiskArray_open 256 ∅ some_pages DiskArrayHeader_new true = Ok x ∧
    let x' := (run_all (run_op 256 (replicate 16 (-1)%Z) true) some_ops x).2 in let pages := Z.to_nat (getNumAPs 256 (header x')) in
    NoDup (reclaimStorage x' ++ allocatable x') ∧ length (reclaimStorage x') = pages + (pages + 1022) / 1023.
Proof.
  apply (disk_array_reclaims 256 (replicate 16 (-1)%Z) true some_pages); [cbv; split; congruence|reflexivity|apply (bool_decide_unpack _); vm_compute; exact I|apply (bool_decide_unpack _); vm_compute; exact I|reflexivity|reflexivity].
Defined.

(** ** What a disk array does not promise *)

Module DiskArrayFindings.
Definition page : list Z := replicate 16 (-1)%Z.
Definition push (l : list Z) : M (DiskArray Z) unit := it ← iter_mut; it' ← run_steps 256 page (Append <$> l) it; mret tt.
(** What a program on a new array returns. *)
Definition on_new {A} (bypass : bool) (free : list Z) (m : M (DiskArray Z) A) : option (outcome A) := match DiskArray_open 256 ∅ free DiskArrayHeader_new bypass with Ok x => Some (m x).1 | Throw _ => None end.

(** The last page on disk is computed from the header before the new one is published: pages of the last checkpoint still count as new, and an update changes what others read. *)
Lemma update_of_committed_page_visible : on_new true [5; 6; 7; 8; 9]%Z (push [1; 2]%Z ;; commit 256 ;; a ← get 256 false 0; update 256 page 0 99%Z ;; b ← get 256 false 0; mret (a, b)) = Some (Ok (1, 99)%Z).
Proof. vm_compute. reflexivity. Qed.

(** A rollback leaves the number of the last array page, which was taken back: the next element goes to a page that is not the array's. *)
Lemma rollback_keeps_last_page : on_new true [5; 6; 7; 8; 9]%Z (push (replicate 5 1%Z) ;; commit 256 ;; push (replicate 20 2%Z) ;; rollback 256 ;; push [7]%Z ;; commit 256 ;; get 256 false 5) = Some (Ok 2%Z).
Proof. vm_compute. reflexivity. Qed.

(** Page numbers need not grow: a page with a number above that of the last array page is taken for a new one. *)
Lemma recycled_page_number : on_new true [10; 6; 5]%Z (push (replicate 16 1%Z) ;; commit 256 ;; push [2]%Z ;; commit 256 ;; push [3]%Z ;; commit 256 ;; a ← get 256 false 0; update 256 page 0 99%Z ;; b ← get 256 false 0; x ← get_state; mret (a, b, lastPageOnDisk x)) = Some (Ok (1, 99, 5)%Z).
Proof. vm_compute. reflexivity. Qed.

(** A rollback leaves the shadow pages, and the next checkpoint goes on from them: a change that was rolled back comes with it. *)
Lemma rolled_back_change_comes_back : on_new false [5; 6; 7; 8; 9]%Z (push [1; 2]%Z ;; commit 256 ;; update 256 page 0 99%Z ;; rollback 256 ;; a ← get 256 false 0; update 256 page 1 3%Z ;; commit 256 ;; b ← get 256 false 0; mret (a, b)) = Some (Ok (1, 99)%Z).
Proof. vm_compute. reflexivity. Qed.
End DiskArrayFindings.
