(* ===== verification/DiskArrayHeaders.v ===== *)
(** * Theorems of collections of disk arrays and of block vectors *)

From stdpp Require Import base numbers list gmap strings.
From Stdlib Require Import ZArith Lia.
From S2P Require Import Prelude DiskArray DiskArrayOps DiskArrayTheorems.

#[local] Open Scope nat_scope.

(** ** Lists in blocks *)

Section Blocks.
Context {A : Type} (m : nat).
Hypothesis m_pos : 0 < m.
Definition blocks (bs : list (list A)) : Prop := Forall (λ b, length b = m) bs.

Lemma past_block i : m ≤ i → i / m = S ((i - m) / m) ∧ i mod m = (i - m) mod m.
Proof. intros Hi. assert (E : i = (i - m) + 1 * m) by lia. split; rewrite E at 1; [rewrite Nat.div_add by lia; lia|apply Nat.Div0.mod_add]. Qed.

Lemma blocks_length bs : blocks bs → length (concat bs) = length bs * m.
Proof. induction 1 as [|b bs Hb _ IH]; [reflexivity|]. cbn [concat length]. rewrite length_app. lia. Qed.

Lemma blocks_lookup bs : blocks bs → ∀ i, bs !! (i / m) ≫= (λ b, b !! (i mod m)) = concat bs !! i.
Proof.
  induction 1 as [|b bs Hb _ IH]; intros i; [reflexivity|]. cbn [concat]. destruct (decide (i < m)) as [Hi|Hi].
  - rewrite Nat.div_small, Nat.mod_small, lookup_app_l by lia. reflexivity.
  - destruct (past_block i ltac:(lia)) as [E E']. rewrite E, E', lookup_app_r by lia. rewrite Hb. exact (IH (i - m)).
Qed.

Lemma blocks_insert bs v : blocks bs → ∀ i, i / m < length bs → concat (alter (<[i mod m := v]>) (i / m) bs) = <[i := v]> (concat bs).
Proof.
  induction 1 as [|b bs Hb _ IH]; intros i Hi; [cbn in Hi; lia|]. destruct (decide (i < m)) as [Hlt|Hge].
  - rewrite Nat.div_small, Nat.mod_small by lia. cbn [alter list_alter concat]. rewrite insert_app_l by lia. reflexivity.
  - destruct (past_block i ltac:(lia)) as [E E']. rewrite E, E'. rewrite E in Hi. cbn [length] in Hi. cbn [alter list_alter concat]. rewrite IH by lia. rewrite insert_app_r_alt by lia. rewrite Hb. reflexivity.
Qed.

Lemma blocks_alter bs v k j : blocks bs → blocks (alter (<[k := v]>) j bs).
Proof. intros H. revert j. induction H as [|b bs Hb H IH]; intros [|j]; cbn; [constructor|constructor|constructor; [rewrite length_insert; exact Hb|exact H]|constructor; [exact Hb|exact (IH j)]]. Qed.

Lemma blocks_in (bs : list (list A)) i : i < length bs * m → i / m < length bs.
Proof. intros Hi. apply Nat.Div0.div_lt_upper_bound. lia. Qed.
End Blocks.

(** ** Block vectors *)

Module BlockVectorTheorems.
Import BlockVector.
Section Vectors.
Context {U : Type} (elementSize : Z) (zero made : U).
Hypothesis size_ok : (0 < elementSize ≤ Z.of_nat KUZU_PAGE_SIZE)%Z.
Abbreviation n := (n elementSize).

(** The elements, in pages of which the last one may have room for more. *)
Definition holds (x : BlockVector U) (W : list U) : Prop := numElements x = Z.of_nat (length W) ∧ blocks n (inMemArrayPages x) ∧ take (length W) (concat (inMemArrayPages x)) = W.

Lemma at_run x W i v : holds x W → W !! i = Some v → (Z.of_nat (length W) ≤ 2 ^ 32)%Z → at_ elementSize (Z.of_nat i) x = (Ok v, x).
Proof.
  pose proof (n_pos elementSize size_ok) as Hpos. intros (H1 & H2 & H3) Hv Hlen. apply lookup_lt_Some in Hv as Hi. unfold at_. rewrite (M_bind_ok get_state _ x x x eq_refl), cursor_of by (assumption || lia). cbn beta iota.
  assert (Hc : concat (inMemArrayPages x) !! i = Some v) by (rewrite <- H3 in Hv; apply lookup_take_Some in Hv; tauto). pose proof (lookup_lt_Some _ _ _ Hc) as Hlt. rewrite (blocks_length n Hpos _ H2) in Hlt. pose proof (blocks_in n Hpos _ i Hlt) as Hb.
  rewrite (proj2 (Z.ltb_lt _ _)) by lia. rewrite (M_bind_ok (ku_assert true) _ x tt x eq_refl), !Nat2Z.id, (blocks_lookup n Hpos _ H2 i), Hc. reflexivity.
Qed.

(** Writing anywhere in the pages. *)
Lemma put_run (x : BlockVector U) i v : blocks n (inMemArrayPages x) → i < length (concat (inMemArrayPages x)) → (Z.of_nat i < 2 ^ 32)%Z →
  ∃ ps, put elementSize (Z.of_nat i) v x = (Ok tt, MkBlockVector ps (numElements x)) ∧ blocks n ps ∧ concat ps = <[i := v]> (concat (inMemArrayPages x)).
Proof.
  pose proof (n_pos elementSize size_ok) as Hpos. intros H Hi Hlen. rewrite (blocks_length n Hpos _ H) in Hi. pose proof (blocks_in n Hpos _ i Hi) as Hb. unfold put. rewrite (M_bind_ok get_state _ x x x eq_refl), cursor_of by assumption. cbn beta iota.
  rewrite (proj2 (Z.ltb_lt _ _)) by lia. rewrite (M_bind_ok (ku_assert true) _ x tt x eq_refl), !Nat2Z.id. eexists. split; [reflexivity|]. split; [apply blocks_alter, H|exact (blocks_insert n Hpos _ v H i Hb)].
Qed.

Lemma fill_run (L k : nat) : ∀ j x W, blocks n (inMemArrayPages x) → length W = L + j → take (L + j) (concat (inMemArrayPages x)) = W → L + j + k ≤ length (concat (inMemArrayPages x)) → (Z.of_nat (L + j + k) ≤ 2 ^ 32)%Z →
  ∃ ps, for_each (seq j k) (λ i, put elementSize (Z.of_nat L + Z.of_nat i) made) x = (Ok tt, MkBlockVector ps (numElements x)) ∧ blocks n ps ∧ take (L + j + k) (concat ps) = W ++ replicate k made.
Proof.
  induction k as [|k IH]; intros j x W H Hl Ht Hlen Hb; cbn [seq for_each].
  - exists (inMemArrayPages x). split; [destruct x; reflexivity|]. split; [exact H|]. rewrite app_nil_r, Nat.add_0_r. exact Ht.
  - destruct (put_run x (L + j) made H ltac:(lia) ltac:(lia)) as (ps & R & H' & E). rewrite <- Nat2Z.inj_add, (M_bind_ok _ _ _ _ _ R). destruct (IH (S j) (MkBlockVector ps (numElements x)) (W ++ [made])) as (ps' & R' & H'' & E'); cbn [inMemArrayPages]; [exact H'|rewrite length_app; cbn; lia| |rewrite E, length_insert; lia|lia|].
    + rewrite E. replace (L + S j) with (S (L + j)) by lia. rewrite (take_S_r _ _ made) by (apply list_lookup_insert_eq; lia). rewrite take_insert_ge, Ht by lia. reflexivity.
    + exists ps'. split; [exact R'|]. split; [exact H''|]. replace (L + j + S k) with (L + S j + k) by lia. rewrite E', <- app_assoc. reflexivity.
Qed.

Lemma vector_resize x W k : holds x W → length W ≤ k → (Z.of_nat k ≤ 2 ^ 32)%Z → ∃ x', resize elementSize zero made (Z.of_nat k) x = (Ok tt, x') ∧ holds x' (W ++ replicate (k - length W) made).
Proof.
  pose proof (n_pos elementSize size_ok) as Hpos. destruct (per_page elementSize size_ok) as [En _]. intros (H1 & H2 & H3) Hk Hlen. unfold resize. rewrite (M_bind_ok get_state _ x x x eq_refl), H1. cbn zeta. rewrite (proj2 (Z.leb_le _ _)) by lia. rewrite (M_bind_ok (ku_assert true) _ x tt x eq_refl).
  set (page := replicate (Z.to_nat _) zero). set (pages := Z.to_nat (getNumArrayPagesNeededForElements elementSize (Z.of_nat k))). set (ps := inMemArrayPages x ++ replicate (pages - length (inMemArrayPages x)) page).
  rewrite (M_bind_ok (put_state (MkBlockVector ps (Z.of_nat (length W)))) _ x tt _ eq_refl). assert (Hps : blocks n ps) by (apply Forall_app; split; [exact H2|apply Forall_replicate; unfold page; rewrite length_replicate; reflexivity]).
  assert (Hpg : k ≤ length (concat ps)). { rewrite (blocks_length n Hpos _ Hps). unfold ps. rewrite length_app, length_replicate. assert (Hn : k ≤ pages * n); [|nia]. unfold pages, getNumArrayPagesNeededForElements. rewrite En. pose proof (Z.div_mod (Z.of_nat k + Z.of_nat n - 1) (Z.of_nat n) ltac:(lia)) as E. pose proof (Z.mod_pos_bound (Z.of_nat k + Z.of_nat n - 1) (Z.of_nat n) ltac:(lia)). 
    pose proof (Z.div_pos (Z.of_nat k + Z.of_nat n - 1) (Z.of_nat n) ltac:(lia) ltac:(lia)). nia. }
  replace (Z.to_nat (Z.of_nat k - Z.of_nat (length W))) with (k - length W) by lia.
  destruct (fill_run (length W) (k - length W) 0 (MkBlockVector ps (Z.of_nat (length W))) W) as (ps' & R & H' & E); cbn [inMemArrayPages]; [exact Hps|lia| |lia|lia|].
  - rewrite Nat.add_0_r. unfold ps. rewrite concat_app, take_app_le; [exact H3|]. rewrite <- H3 at 1. rewrite length_take. lia.
  - rewrite (M_bind_ok _ _ _ _ _ R). eexists. split; [reflexivity|]. split; [cbn; rewrite length_app, length_replicate; lia|]. split; [exact H'|]. cbn [inMemArrayPages]. rewrite length_app, length_replicate. rewrite Nat.add_0_r in E. exact E.
Qed.

Lemma vector_put x W i v : holds x W → i < length W → (Z.of_nat (length W) ≤ 2 ^ 32)%Z → ∃ x', put elementSize (Z.of_nat i) v x = (Ok tt, x') ∧ holds x' (<[i := v]> W).
Proof.
  intros (H1 & H2 & H3) Hi Hlen. assert (Hl : length W ≤ length (concat (inMemArrayPages x))) by (rewrite <- H3 at 1; rewrite length_take; lia). destruct (put_run x i v H2 ltac:(lia) ltac:(lia)) as (ps & R & H & E). eexists. split; [exact R|]. split; [cbn; rewrite length_insert; exact H1|]. split; [exact H|]. cbn [inMemArrayPages]. rewrite length_insert, E.
  rewrite take_insert_lt by exact Hi. rewrite H3. reflexivity.
Qed.
End Vectors.
End BlockVectorTheorems.

(** ** Chains of header pages *)

Module CollectionTheorems.
Import DiskArray DiskArrayCollection.

Abbreviation NH := 255.
Implicit Types (l : list HeaderPage) (x : DiskArrayCollection) (a : Z) (file : gmap Z HeaderPage).

(** The pages are linked from [a] on, and where they are. *)
Fixpoint linked a l : Prop := match l with [] => False | p :: l' => match l' with [] => nextHeaderPage p = INVALID_PAGE_IDX | _ => nextHeaderPage p ≠ INVALID_PAGE_IDX ∧ linked (nextHeaderPage p) l' end end.
Fixpoint addresses a l : list Z := match l with [] => [] | p :: l' => a :: addresses (nextHeaderPage p) l' end.
Definition stored file a l : Prop := Forall2 (λ q p, file !! q = Some p) (addresses a l) l.

Lemma read_chain_run file l : ∀ fuel a, linked a l → stored file a l → length l ≤ fuel → read_chain fuel file a = Ok l.
Proof.
  induction l as [|p l IH]; intros fuel a Hl Hs Hf; [destruct Hl|]. destruct fuel as [|fuel]; [cbn in Hf; lia|]. inversion Hs as [|? ? ? ? Hp Hs']; subst. cbn [read_chain]. rewrite Hp. destruct l as [|p' l].
  - cbn in Hl. rewrite Hl. reflexivity.
  - destruct Hl as [Hn Hl]. rewrite (proj2 (Z.eqb_neq _ _) Hn). rewrite (IH fuel _ Hl Hs' ltac:(cbn [length] in *; lia)). reflexivity.
Qed.

Lemma addresses_length a l : length (addresses a l) = length l.
Proof. revert a. induction l; intros a0; cbn; auto. Qed.

Lemma stored_fuel file a l : NoDup (addresses a l) → stored file a l → length l ≤ size file.
Proof.
  intros Hd Hs. rewrite <- (addresses_length a l), <- size_dom, <- (size_list_to_set (C := gset Z) (addresses a l) Hd). apply subseteq_size. intros q Hq. apply elem_of_list_to_set, list_elem_of_lookup in Hq as [i Hi]. destruct (Forall2_lookup_l _ _ _ _ _ Hs Hi) as (p & _ & Hp). apply elem_of_dom. eauto.
Qed.

(** ** A checkpoint of pages that are on disk *)

Definition needs x i : bool := match headersForWriteTrx x !! i, headersForReadTrx x !! i with Some w, Some r => (headerPagesOnDisk x <=? Z.of_nat i)%Z || bool_decide (w ≠ r) | _, _ => false end.

Lemma checkpoint_step (k i : nat) a x w r :
  headersForWriteTrx x !! i = Some w → headersForReadTrx x !! i = Some r → (nextHeaderPage w = INVALID_PAGE_IDX → S i = length (headersForWriteTrx x)) →
  checkpoint_pages (S k) i a x = checkpoint_pages k (S i) (nextHeaderPage w) (if needs x i then set_pages (pagesOnDisk x) (<[a := w]> (shadowPages x)) x else x).
Proof.
  intros Hw Hr Hn. cbn [checkpoint_pages]. rewrite (M_bind_ok get_state _ x x x eq_refl), Hw. assert (E : (nextHeaderPage w =? INVALID_PAGE_IDX)%Z && (i <? length (headersForWriteTrx x) - 1) = false).
  { apply andb_false_iff. destruct (Z.eqb_spec (nextHeaderPage w) INVALID_PAGE_IDX) as [E|E]; [right; apply Nat.ltb_ge; specialize (Hn E); lia|left; reflexivity]. }
  rewrite E, (M_bind_ok (mret tt) _ x tt x eq_refl), (M_bind_ok get_state _ x x x eq_refl), Hw, Hr. unfold needs. rewrite Hw, Hr. destruct (_ || _); reflexivity.
Qed.

Lemma linked_next a p l : linked a (p :: l) → (nextHeaderPage p = INVALID_PAGE_IDX → l = []) ∧ (l ≠ [] → linked (nextHeaderPage p) l).
Proof. destruct l as [|p' l]; cbn; [tauto|]. intros [H1 H2]. tauto. Qed.

Lemma linked_run file suf : ∀ sufr pre prer x a,
  headersForWriteTrx x = pre ++ suf → headersForReadTrx x = prer ++ sufr → length prer = length pre → (suf ≠ [] → linked a suf) → NoDup (addresses a suf) →
  Forall2 (λ q r, file !! q = Some r) (addresses a suf) sufr → (∀ q, q ∈ addresses a suf → shadowPages x !! q = None) →
  ∃ s, checkpoint_pages (length suf) (length pre) a x = (Ok tt, set_pages (pagesOnDisk x) s x) ∧ (∀ q, q ∉ addresses a suf → s !! q = shadowPages x !! q) ∧ stored (s ∪ file) a suf.
Proof.
  induction suf as [|w suf IH]; intros sufr pre prer x a Hw Hr Hp Hl Hd Hf Hs; cbn [length].
  - exists (shadowPages x). split; [destruct x; reflexivity|]. split; [auto|]. constructor.
  - specialize (Hl ltac:(discriminate)). destruct (linked_next a w suf Hl) as [Hl1 Hl2]. cbn [addresses] in *. inversion Hf as [|? r ? sufr' Hfa Hf']; subst. apply NoDup_cons in Hd as [Hna Hd].
    assert (Hwi : headersForWriteTrx x !! length pre = Some w) by (rewrite Hw; apply list_lookup_middle; reflexivity). assert (Hri : headersForReadTrx x !! length pre = Some r) by (rewrite Hr; apply list_lookup_middle; auto).
    rewrite (checkpoint_step (length suf) (length pre) a x w r Hwi Hri) by (intros E; rewrite Hw, (Hl1 E), length_app; cbn; lia). set (x1 := if needs x (length pre) then _ else x).
    assert (E1 : headersForWriteTrx x1 = (pre ++ [w]) ++ suf) by (rewrite <- app_assoc; unfold x1; destruct (needs _ _); exact Hw). assert (E2 : headersForReadTrx x1 = (prer ++ [r]) ++ sufr') by (rewrite <- app_assoc; unfold x1; destruct (needs _ _); exact Hr).
    assert (E3 : ∀ q, q ≠ a → shadowPages x1 !! q = shadowPages x !! q) by (intros q Hq; unfold x1; destruct (needs _ _); [apply lookup_insert_ne; congruence|reflexivity]).
    destruct (IH sufr' (pre ++ [w]) (prer ++ [r]) x1 (nextHeaderPage w) E1 E2) as (s & R & Ho & St); [rewrite !length_app, Hp; reflexivity|exact Hl2|exact Hd|exact Hf'|intros q Hq; rewrite E3 by congruence; apply Hs; right; exact Hq|].
    rewrite length_app, Nat.add_1_r in R. exists s. split; [rewrite R; unfold x1; destruct (needs _ _); reflexivity|]. split; [intros q Hq; apply not_elem_of_cons in Hq as [Hq1 Hq2]; rewrite Ho, E3 by assumption; reflexivity|]. constructor; [|exact St].
    specialize (Ho a Hna). unfold x1, needs in Ho. rewrite Hwi, Hri in Ho. destruct (headerPagesOnDisk x <=? Z.of_nat (length pre))%Z; cbn [orb] in Ho; [cbn in Ho; rewrite lookup_insert_eq in Ho; apply lookup_union_Some_l, Ho|]. destruct (decide (w = r)) as [->|Hne].
    + rewrite bool_decide_eq_false_2 in Ho by tauto. rewrite Hs in Ho by left. rewrite lookup_union_r by exact Ho. exact Hfa.
    + rewrite bool_decide_eq_true_2 in Ho by exact Hne. cbn in Ho. rewrite lookup_insert_eq in Ho. apply lookup_union_Some_l, Ho.
Qed.

(** ** The first checkpoint *)

Fixpoint relink (ps : list Z) l : list HeaderPage := match l, ps with p :: l', q :: ps' => put_next q p :: relink ps' l' | _, _ => l end.

Definition populated (i : nat) p (rest : list Z) x : DiskArrayCollection := set_allocatable rest (set_headers (alter (put_next p) i (headersForReadTrx x)) (alter (put_next p) i (headersForWriteTrx x)) x).

Lemma populate_step (k i : nat) a x w p rest :
  headersForWriteTrx x !! i = Some w → nextHeaderPage w = INVALID_PAGE_IDX → S i < length (headersForWriteTrx x) → allocatable x = p :: rest → p ≠ INVALID_PAGE_IDX →
  checkpoint_pages (S k) i a x = checkpoint_pages (S k) i a (populated i p rest x).
Proof.
  intros Hw Hn Hi Ha Hp. set (x1 := populated i p rest x). assert (Hw1 : headersForWriteTrx x1 !! i = Some (put_next p w)) by (cbn; rewrite list_lookup_alter_eq, Hw; reflexivity). cbn [checkpoint_pages].
  rewrite (M_bind_ok get_state _ x x x eq_refl), (M_bind_ok get_state _ x1 x1 x1 eq_refl), Hw, Hw1, Hn. assert (E : (INVALID_PAGE_IDX =? INVALID_PAGE_IDX)%Z && (i <? length (headersForWriteTrx x) - 1) = true) by (rewrite Z.eqb_refl; apply Nat.ltb_lt; lia). rewrite E.
  assert (R : populateNextHeaderPage i x = (Ok tt, x1)) by (unfold populateNextHeaderPage; rewrite (M_bind_ok get_state _ x x x eq_refl), Ha; reflexivity). rewrite (M_bind_ok _ _ _ _ _ R). cbn [nextHeaderPage put_next]. rewrite (proj2 (Z.eqb_neq _ _) Hp). reflexivity.
Qed.

Lemma alter_middle {A} (f : A → A) (l1 : list A) y (l2 : list A) : alter f (length l1) (l1 ++ y :: l2) = l1 ++ f y :: l2.
Proof. rewrite alter_app_r_alt, Nat.sub_diag by lia. reflexivity. Qed.

Lemma first_checkpoint_run suf : ∀ sufr pre prer x a ps rest,
  headersForWriteTrx x = pre ++ suf → headersForReadTrx x = prer ++ sufr → length prer = length pre → length sufr = length suf → headerPagesOnDisk x = 0%Z → Forall (λ p, nextHeaderPage p = INVALID_PAGE_IDX) suf →
  allocatable x = ps ++ rest → length ps = length suf - 1 → NoDup (a :: ps) → Forall (λ q, q ≠ INVALID_PAGE_IDX) ps → suf ≠ [] →
  ∃ s, checkpoint_pages (length suf) (length pre) a x = (Ok tt, set_allocatable rest (set_headers (prer ++ relink ps sufr) (pre ++ relink ps suf) (set_pages (pagesOnDisk x) s x))) ∧
    (∀ q, q ∉ a :: ps → s !! q = shadowPages x !! q) ∧ linked a (relink ps suf) ∧ addresses a (relink ps suf) = a :: ps ∧ stored s a (relink ps suf).
Proof.
  induction suf as [|w suf IH]; intros sufr pre prer x a ps rest Hw Hr Hp Hlen Hd Hn Ha Hps Hnd Hv Hne; [contradiction|]. clear Hne. destruct sufr as [|r sufr]; [discriminate Hlen|]. inversion Hn as [|? ? Hwn Hn']; subst.
  assert (Hwi : headersForWriteTrx x !! length pre = Some w) by (rewrite Hw; apply list_lookup_middle; reflexivity). assert (Hri : headersForReadTrx x !! length pre = Some r) by (rewrite Hr; apply list_lookup_middle; auto). destruct suf as [|w' suf].
  - destruct ps; [|discriminate Hps]. destruct sufr; [|discriminate Hlen]. cbn [length relink]. rewrite (checkpoint_step 0 (length pre) a x w r Hwi Hri) by (intros _; rewrite Hw, length_app; cbn; lia). assert (E : needs x (length pre) = true) by (unfold needs; rewrite Hwi, Hri, Hd, (proj2 (Z.leb_le _ _)) by lia; reflexivity). rewrite E.
    exists (<[a := w]> (shadowPages x)). split; [cbn; rewrite <- Hw, <- Hr; cbn in Ha; rewrite <- Ha; destruct x; reflexivity|]. split; [intros q Hq; apply lookup_insert_ne; intros ->; apply Hq; left|]. split; [exact Hwn|]. split; [reflexivity|]. constructor; [apply lookup_insert_eq|constructor].
  - destruct ps as [|p ps]; [discriminate Hps|]. cbn [app] in Ha. inversion Hv as [|? ? Hpv Hv']; subst. apply NoDup_cons in Hnd as [Hna Hnd].
    cbn [length]. rewrite (populate_step _ (length pre) a x w p (ps ++ rest) Hwi Hwn) by (try rewrite Hw, length_app; cbn; auto; lia). set (x1 := populated (length pre) p (ps ++ rest) x).
    assert (E1 : headersForWriteTrx x1 = pre ++ put_next p w :: w' :: suf) by (cbn; rewrite Hw; apply alter_middle). assert (E2 : headersForReadTrx x1 = prer ++ put_next p r :: sufr) by (cbn; rewrite Hr, <- Hp; apply alter_middle).
    assert (Hwi1 : headersForWriteTrx x1 !! length pre = Some (put_next p w)) by (rewrite E1; apply list_lookup_middle; reflexivity). assert (Hri1 : headersForReadTrx x1 !! length pre = Some (put_next p r)) by (rewrite E2; apply list_lookup_middle; auto).
    rewrite (checkpoint_step _ (length pre) a x1 _ _ Hwi1 Hri1) by (cbn; contradiction). assert (E : needs x1 (length pre) = true) by (unfold needs; rewrite Hwi1, Hri1; cbn; rewrite Hd, (proj2 (Z.leb_le _ _)) by lia; reflexivity). rewrite E. cbn [nextHeaderPage put_next].
    set (x2 := set_pages (pagesOnDisk x1) (<[a := put_next p w]> (shadowPages x1)) x1).
    destruct (IH sufr (pre ++ [put_next p w]) (prer ++ [put_next p r]) x2 p ps rest) as (s & R & Ho & Hl & Had & Hs); try assumption; try (rewrite <- app_assoc; assumption); [rewrite !length_app, Hp; reflexivity|cbn in Hlen |- *; lia|reflexivity|cbn in Hps |- *; lia|discriminate|].
    rewrite length_app, Nat.add_1_r in R. exists s. split; [|split; [|split; [|split]]].
    + cbn [length] in R. rewrite R. rewrite <- !app_assoc. reflexivity.
    + intros q Hq. apply not_elem_of_cons in Hq as [Hq1 Hq2]. rewrite Ho by exact Hq2. apply lookup_insert_ne. congruence.
    + cbn [relink linked]. destruct ps; (split; [exact Hpv|exact Hl]).
    + cbn [relink addresses]. f_equal. exact Had.
    + cbn [relink]. constructor; [rewrite Ho by exact Hna; apply lookup_insert_eq|exact Hs].
Qed.

(** ** The headers of the arrays *)

Import VersionedArray.

Definition meta (p : HeaderPage) : Z * Z := (nextHeaderPage p, numHeaders p).
Definition all_headers l : list DiskArrayHeader := concat (map headers l).
Definition counted l : Z := foldl (λ n p, uwrap 64 (n + numHeaders p)) 0%Z l.

(** The pages of the file: none yet, or the readers' version linked from the first one. *)
Inductive on_disk (first : Z) x : bool → Prop :=
  | not_written : headerPagesOnDisk x = 0%Z → Forall (λ p, nextHeaderPage p = INVALID_PAGE_IDX) (headersForWriteTrx x) → length (headersForWriteTrx x) ≤ length (allocatable x) → NoDup (first :: allocatable x) → Forall (λ q, q ≠ INVALID_PAGE_IDX) (allocatable x) → on_disk first x false
  | was_written : linked first (headersForWriteTrx x) → NoDup (addresses first (headersForWriteTrx x)) → stored (pagesOnDisk x) first (headersForReadTrx x) → on_disk first x true.

Record coll_ok (first : Z) (written : bool) x (v : VersionedArray DiskArrayHeader) : Prop := {
  cl_total : totalHeaders x = Z.of_nat (length (current v)) ∧ length (committed v) = length (current v);
  cl_full : blocks NH (map headers (headersForReadTrx x)) ∧ blocks NH (map headers (headersForWriteTrx x)) ∧ headersForWriteTrx x ≠ [];
  cl_current : take (length (current v)) (all_headers (headersForWriteTrx x)) = current v;
  cl_committed : take (length (current v)) (all_headers (headersForReadTrx x)) = committed v;
  cl_meta : map meta (headersForReadTrx x) = map meta (headersForWriteTrx x);
  cl_count : counted (headersForWriteTrx x) = Z.of_nat (length (current v));
  cl_shadow : shadowPages x = ∅;
  cl_disk : on_disk first x written;
}.

Lemma meta_addresses l l' : map meta l = map meta l' → ∀ a, addresses a l = addresses a l' ∧ (linked a l ↔ linked a l').
Proof.
  revert l'. induction l as [|p l IH]; intros [|p' l'] E a; try discriminate E; [tauto|]. cbn [map] in E. unfold meta at 1 3 in E. injection E as E1 E2 E3. destruct (IH l' E3 (nextHeaderPage p)) as [IH1 IH2]. cbn [addresses linked]. rewrite E1 in IH1, IH2 |- *. rewrite IH1. split; [reflexivity|].
  destruct l as [|q l], l' as [|q' l']; try discriminate E3; [tauto|]. tauto.
Qed.
Lemma meta_counted l l' : map meta l = map meta l' → counted l = counted l'.
Proof.
  unfold counted. generalize 0%Z. revert l'. induction l as [|p l IH]; intros [|p' l'] z E; try discriminate E; [reflexivity|]. cbn [map] in E. unfold meta at 1 3 in E. injection E as E1 E2 E3. cbn [foldl]. rewrite E2. exact (IH l' _ E3).
Qed.
Lemma meta_length l l' : map meta l = map meta l' → length l = length l'.
Proof. intros E. rewrite <- (length_map meta l), E, length_map. reflexivity. Qed.

Lemma header_lookup l i h : blocks NH (map headers l) → all_headers l !! i = Some h → ∃ p, l !! (i / NH) = Some p ∧ headers p !! (i mod NH) = Some h.
Proof.
  intros Hb Hh. unfold all_headers in Hh. rewrite <- (blocks_lookup NH ltac:(lia) _ Hb i) in Hh. rewrite list_lookup_fmap in Hh. destruct (l !! (i / NH)) as [p|]; [|discriminate Hh]. exists p. auto.
Qed.

Lemma cell_of (i : nat) : Z.to_nat (Z.of_nat i / NUM_HEADERS_PER_PAGE) = i / NH ∧ Z.to_nat (Z.of_nat i mod NUM_HEADERS_PER_PAGE) = i mod NH.
Proof. change NUM_HEADERS_PER_PAGE with (Z.of_nat NH). rewrite <- Nat2Z.inj_div, <- Nat2Z.inj_mod, !Nat2Z.id. auto. Qed.

Lemma getHeader_run first written x v c i h : coll_ok first written x v → elements c v !! i = Some h → getHeader c (Z.of_nat i) x = (Ok h, x).
Proof.
  intros [[H1 H1'] (F1 & F2 & _) H3 H4 _ _ _ _] Hh. pose proof (lookup_lt_Some _ _ _ Hh) as Hi. assert (Hi' : i < length (current v)) by (destruct c; cbn in Hi; lia). destruct (cell_of i) as [C1 C2]. unfold getHeader. rewrite (M_bind_ok get_state _ x x x eq_refl), H1, (proj2 (Z.ltb_lt _ _)) by lia. rewrite (M_bind_ok (ku_assert true) _ x tt x eq_refl), C1, C2.
  destruct c; cbn [elements] in Hh; [rewrite <- H3 in Hh|rewrite <- H4 in Hh]; apply lookup_take_Some in Hh as [Hh _]; [destruct (header_lookup _ i h F2 Hh) as (p & E1 & E2)|destruct (header_lookup _ i h F1 Hh) as (p & E1 & E2)]; rewrite E1, E2; reflexivity.
Qed.

Lemma map_headers_put i j h l : map headers (alter (put_header j h) i l) = alter (<[j := h]>) i (map headers l).
Proof. revert i. induction l as [|p l IH]; intros [|i]; cbn; [reflexivity..|]. f_equal. exact (IH i). Qed.

Lemma map_meta_put i j h l : map meta (alter (put_header j h) i l) = map meta l.
Proof. revert i. induction l as [|p l IH]; intros [|i]; cbn; [reflexivity..|]. f_equal. exact (IH i). Qed.

Lemma map_next l l' : map meta l = map meta l' → map nextHeaderPage l = map nextHeaderPage l'.
Proof. intros E. apply (f_equal (map fst)) in E. rewrite !map_map in E. exact E. Qed.
Lemma Forall_next l l' (P : Z → Prop) : map meta l = map meta l' → Forall (λ p, P (nextHeaderPage p)) l' → Forall (λ p, P (nextHeaderPage p)) l.
Proof. intros E H. apply List.Forall_map. rewrite (map_next l l' E). apply List.Forall_map. exact H. Qed.

(** Pages with the same links and counts. *)
Lemma on_disk_meta first x written w : map meta w = map meta (headersForWriteTrx x) → on_disk first x written → on_disk first (set_headers (headersForReadTrx x) w x) written.
Proof.
  intros E [D1 D2 D3 D4 D5|D1 D2 D3]; [apply not_written|apply was_written]; cbn; try assumption.
  - exact (Forall_next _ _ (λ q, q = INVALID_PAGE_IDX) E D2).
  - rewrite (meta_length _ _ E). exact D3.
  - apply (meta_addresses _ _ E). exact D1.
  - rewrite (proj1 (meta_addresses _ _ E first)). exact D2.
Qed.

#[local] Ltac proj := cbn [totalHeaders headersForReadTrx headersForWriteTrx shadowPages pagesOnDisk allocatable headerPagesOnDisk set_headers set_pages set_onDisk set_allocatable VersionedArray.rollbackInMemory VersionedArray.checkpointInMemory VersionedArray.update committed current].

Lemma writeHeader_run first written x v i h : coll_ok first written x v → i < length (current v) → ∃ x', writeHeader (Z.of_nat i) h x = (Ok tt, x') ∧ coll_ok first written x' (VersionedArray.update (Z.of_nat i) h v).
Proof.
  intros [[H1 H1'] (F1 & F2 & F3) H3 H4 H5 H6 H7 H8] Hi. destruct (cell_of i) as [C1 C2]. unfold writeHeader. rewrite (M_bind_ok get_state _ x x x eq_refl), H1, (proj2 (Z.ltb_lt _ _)) by lia. rewrite (M_bind_ok (ku_assert true) _ x tt x eq_refl), C1, C2. eexists. split; [reflexivity|]. unfold VersionedArray.update. rewrite Nat2Z.id.
  assert (Hin : i / NH < length (map headers (headersForWriteTrx x))). { apply blocks_in; [lia|]. rewrite <- (blocks_length NH ltac:(lia) _ F2). fold (all_headers (headersForWriteTrx x)). assert (length (current v) ≤ length (all_headers (headersForWriteTrx x))) by (rewrite <- H3 at 1; rewrite length_take; lia). lia. }
  split; proj; rewrite ?length_insert; auto.
  - split; [exact F1|]. rewrite map_headers_put. split; [apply blocks_alter, F2|]. intros E. apply F3, nil_length_inv. apply (f_equal length) in E. rewrite length_alter in E. exact E.
  - unfold all_headers. rewrite map_headers_put, (blocks_insert NH ltac:(lia) _ h F2 i Hin), take_insert_lt by exact Hi. f_equal. exact H3.
  - rewrite map_meta_put. exact H5.
  - rewrite (meta_counted _ _ (map_meta_put _ _ _ _)). exact H6.
  - apply on_disk_meta; [apply map_meta_put|exact H8].
Qed.

(** ** Checkpoints, their rollback, and opening the file again *)

Definition commit (first : Z) : M DiskArrayCollection unit := checkpoint first ;; DiskArrayCollection.checkpointInMemory ;; applyShadowPages.

Lemma relink_headers ps l : map headers (relink ps l) = map headers l ∧ map numHeaders (relink ps l) = map numHeaders l.
Proof. revert ps. induction l as [|p l IH]; intros [|q ps]; cbn [relink map]; try (split; reflexivity). destruct (IH ps) as [-> ->]. split; reflexivity. Qed.
Lemma counted_numbers l l' : map numHeaders l = map numHeaders l' → counted l = counted l'.
Proof. unfold counted. generalize 0%Z. revert l'. induction l as [|p l IH]; intros [|p' l'] z E; try discriminate E; [reflexivity|]. cbn [map] in E. injection E as E1 E2. cbn [foldl]. rewrite E1. exact (IH l' _ E2). Qed.

(** The two versions agree and are on disk. *)
Lemma coll_settled first x W :
  totalHeaders x = Z.of_nat (length W) → blocks NH (map headers (headersForWriteTrx x)) → headersForReadTrx x = headersForWriteTrx x → take (length W) (all_headers (headersForWriteTrx x)) = W → counted (headersForWriteTrx x) = Z.of_nat (length W) → shadowPages x = ∅ →
  linked first (headersForWriteTrx x) → NoDup (addresses first (headersForWriteTrx x)) → stored (pagesOnDisk x) first (headersForWriteTrx x) → coll_ok first true x (MkArray W W).
Proof.
  intros H1 H2 H3 H4 H5 H6 H7 H8 H9. split; proj; rewrite ?H3; auto; [|apply was_written; rewrite ?H3; assumption]. split_and!; try assumption. intros E. rewrite E in H7. destruct H7.
Qed.

Lemma commit_new first x v : coll_ok first false x v → ∃ x', commit first x = (Ok tt, x') ∧ coll_ok first true x' (VersionedArray.checkpointInMemory v).
Proof.
  intros [[H1 H1'] (F1 & F2 & F3) H3 H4 H5 H6 H7 H8]. inversion H8 as [D1 D2 D3 D4 D5|]; subst. set (w := headersForWriteTrx x) in *. set (ps := take (length w - 1) (allocatable x)). assert (Hps : length ps = length w - 1) by (unfold ps; rewrite length_take; lia).
  destruct (first_checkpoint_run w (headersForReadTrx x) [] [] x first ps (drop (length w - 1) (allocatable x))) as (s & R & Ho & Hl & Ha & Hs); try reflexivity; try assumption; [exact (meta_length _ _ H5)|unfold ps; rewrite take_drop; reflexivity| | |].
  - apply NoDup_cons in D4 as [N1 N2]. rewrite <- (take_drop (length w - 1) (allocatable x)) in N1, N2. fold ps in N1, N2. apply NoDup_app in N2 as (N2 & _). apply NoDup_cons. split; [|exact N2]. intros Hin. apply N1, elem_of_app. auto.
  - apply Forall_take, D5.
  - cbn [app length] in R. unfold commit, checkpoint. rewrite M_bind_assoc, (M_bind_ok get_state _ x x x eq_refl). fold w. rewrite M_bind_assoc, (M_bind_ok _ _ _ _ _ R). eexists. split; [reflexivity|]. destruct (relink_headers ps w) as [E1 E2]. unfold VersionedArray.checkpointInMemory.
    apply coll_settled; proj; try reflexivity; try assumption; [rewrite E1; exact F2|unfold all_headers; rewrite E1; exact H3|rewrite (counted_numbers _ _ E2); exact H6| |].
    + rewrite Ha. apply NoDup_cons in D4 as [N1 N2]. apply NoDup_cons. rewrite <- (take_drop (length w - 1) (allocatable x)) in N1, N2. fold ps in N1, N2. apply NoDup_app in N2 as (N2 & _). split; [|exact N2]. intros Hin. apply N1, elem_of_app. auto.
    + eapply Forall2_impl; [exact Hs|]. intros q p Hq. apply lookup_union_Some_l, Hq.
Qed.

Lemma commit_written first x v : coll_ok first true x v → ∃ x', commit first x = (Ok tt, x') ∧ coll_ok first true x' (VersionedArray.checkpointInMemory v).
Proof.
  intros [[H1 H1'] (F1 & F2 & F3) H3 H4 H5 H6 H7 H8]. inversion H8 as [|D1 D2 D3]; subst. set (w := headersForWriteTrx x) in *. destruct (meta_addresses _ _ H5 first) as [Ea _].
  destruct (linked_run (pagesOnDisk x) w (headersForReadTrx x) [] [] x first) as (s & R & Ho & Hs); try reflexivity; try assumption; [auto|unfold stored in D3; rewrite Ea in D3; exact D3|intros q _; rewrite H7; apply lookup_empty|].
  cbn [app length] in R. unfold commit, checkpoint. rewrite M_bind_assoc, (M_bind_ok get_state _ x x x eq_refl). fold w. rewrite M_bind_assoc, (M_bind_ok _ _ _ _ _ R). eexists. split; [reflexivity|]. apply coll_settled; proj; try reflexivity; assumption.
Qed.

Lemma rollback_run first written x v : coll_ok first written x v → ∃ x', rollbackCheckpoint x = (Ok tt, x') ∧ coll_ok first written x' (VersionedArray.rollbackInMemory v).
Proof.
  intros [[H1 H1'] (F1 & F2 & F3) H3 H4 H5 H6 H7 H8]. eexists. split; [reflexivity|]. split; proj; rewrite ?H1'; auto.
  - split_and!; try assumption. intros E. rewrite E in H5. destruct (headersForWriteTrx x); [contradiction|discriminate H5].
  - rewrite (meta_counted _ _ H5). exact H6.
  - apply (on_disk_meta first x written); assumption.
Qed.

Lemma reopen_collection first x v : coll_ok first true x v → ∃ x', DiskArrayCollection_open (pagesOnDisk x) (allocatable x) first = Ok x' ∧ coll_ok first true x' (VersionedArray.rollbackInMemory v).
Proof.
  intros [[H1 H1'] (F1 & F2 & F3) H3 H4 H5 H6 H7 H8]. inversion H8 as [|D1 D2 D3]; subst. destruct (meta_addresses _ _ H5 first) as [Ea El]. rewrite <- Ea in D2. unfold DiskArrayCollection_open. rewrite (read_chain_run _ (headersForReadTrx x)); [|tauto|exact D3|exact (stored_fuel _ _ _ D2 D3)]. eexists. split; [reflexivity|].
  apply coll_settled; proj; try reflexivity; try assumption; rewrite ?H1'; auto; [|rewrite (meta_counted _ _ H5); exact H6|tauto]. fold (counted (headersForReadTrx x)). rewrite (meta_counted _ _ H5). exact H6.
Qed.

(** ** Sequences of operations *)

Inductive coll_op := GetHeader (checkpoint : bool) (i : nat) | WriteHeader (i : nat) (h : DiskArrayHeader) | CommitHeaders | RollbackHeaders | ReopenHeaders.

Definition run_coll (first : Z) (o : coll_op) : M DiskArrayCollection (option DiskArrayHeader) :=
  match o with
  | GetHeader c i => h ← getHeader c (Z.of_nat i); mret (Some h)
  | WriteHeader i h => writeHeader (Z.of_nat i) h ;; mret None
  | CommitHeaders => commit first ;; mret None
  | RollbackHeaders => rollbackCheckpoint ;; mret None
  | ReopenHeaders => x ← get_state; match DiskArrayCollection_open (pagesOnDisk x) (allocatable x) first with Ok x' => put_state x' ;; mret None | Throw e => raise e end
  end.
Definition spec_coll (o : coll_op) (v : VersionedArray DiskArrayHeader) : outcome (option DiskArrayHeader) * VersionedArray DiskArrayHeader :=
  match o with
  | GetHeader c i => (Ok (elements c v !! i), v)
  | WriteHeader i h => (Ok None, VersionedArray.update (Z.of_nat i) h v)
  | CommitHeaders => (Ok None, VersionedArray.checkpointInMemory v)
  | RollbackHeaders | ReopenHeaders => (Ok None, VersionedArray.rollbackInMemory v)
  end.
(** The arrays exist, and what is opened was written. *)
Definition coll_allowed (k : nat) (written : bool) (o : coll_op) : bool := match o with GetHeader _ i | WriteHeader i _ => i <? k | ReopenHeaders => written | _ => true end.
Fixpoint colls_allowed (k : nat) (written : bool) (l : list coll_op) {struct l} : bool :=
  match l with [] => true | o :: l' => coll_allowed k written o && colls_allowed k (match o with CommitHeaders => true | _ => written end) l' end.

Lemma coll_run first written o x v :
  coll_ok first written x v → coll_allowed (length (current v)) written o = true →
  ∃ x', run_coll first o x = ((spec_coll o v).1, x') ∧ coll_ok first (match o with CommitHeaders => true | _ => written end) x' (spec_coll o v).2 ∧ length (current (spec_coll o v).2) = length (current v).
Proof.
  intros H Hal. pose proof (cl_total _ _ _ _ H) as [_ Hl]. destruct o as [c i|i h| | |]; cbn [coll_allowed spec_coll fst snd run_coll] in *; try apply Nat.ltb_lt in Hal.
  - destruct (lookup_lt_is_Some_2 (elements c v) i) as [h Hh]; [destruct c; cbn; lia|]. exists x. rewrite Hh, (M_bind_ok _ _ _ _ _ (getHeader_run first written x v c i h H Hh)). auto.
  - destruct (writeHeader_run first written x v i h H Hal) as (x' & R & H'). exists x'. rewrite (M_bind_ok _ _ _ _ _ R). split; [reflexivity|]. split; [exact H'|]. apply length_insert.
  - assert (Hc : ∃ x', commit first x = (Ok tt, x') ∧ coll_ok first true x' (VersionedArray.checkpointInMemory v)) by (destruct written; [exact (commit_written first x v H)|exact (commit_new first x v H)]). destruct Hc as (x' & R & H'). exists x'. rewrite (M_bind_ok _ _ _ _ _ R). auto.
  - destruct (rollback_run first written x v H) as (x' & R & H'). exists x'. rewrite (M_bind_ok _ _ _ _ _ R). auto.
  - subst written. destruct (reopen_collection first x v H) as (x' & R & H'). exists x'. rewrite (M_bind_ok get_state _ x x x eq_refl), R. auto.
Qed.

Lemma colls_run first (l : list coll_op) : ∀ written x v, coll_ok first written x v → colls_allowed (length (current v)) written l = true → (run_all (run_coll first) l x).1 = (run_all spec_coll l v).1.
Proof.
  induction l as [|o l IH]; intros written x v H Hal; [reflexivity|]. cbn [colls_allowed run_all] in *. apply andb_prop in Hal as [Hal1 Hal2]. destruct (coll_run first written o x v H Hal1) as (x1 & R & H1 & E). rewrite R. destruct (spec_coll o v) as [r v1]. cbn [fst snd] in *. rewrite <- E in Hal2. specialize (IH _ x1 v1 H1 Hal2).
  destruct (run_all (run_coll first) l x1), (run_all spec_coll l v1). cbn in *. congruence.
Qed.

(** The collection of a primary key index. *)
Definition index_arrays : nat := 512.
Definition index_pages : list HeaderPage := headersForWriteTrx (add_arrays index_arrays (DiskArrayCollection_new [])).2.
Definition no_headers : VersionedArray DiskArrayHeader := MkArray (replicate index_arrays DiskArrayHeader_new) (replicate index_arrays DiskArrayHeader_new).

Lemma index_collection free : add_arrays index_arrays (DiskArrayCollection_new free) = (Ok tt, MkCollection ∅ ∅ free 0 index_pages index_pages 512).
Proof. vm_cast_no_check (eq_refl (Ok tt : outcome unit, MkCollection ∅ ∅ free 0 index_pages index_pages 512)). Qed.

Lemma index_collection_ok first free : NoDup (first :: free) → Forall (λ q, q ≠ INVALID_PAGE_IDX) free → 255 ≤ length free → coll_ok first false (MkCollection ∅ ∅ free 0 index_pages index_pages 512) no_headers.
Proof.
  intros Hd Hv Hl. assert (Hb : blocks NH (map headers index_pages)) by (apply List.Forall_map, List.Forall_forall; intros p Hp; apply Nat.eqb_eq; revert p Hp; apply List.forallb_forall; vm_compute; reflexivity).
  assert (Hn : Forall (λ p, nextHeaderPage p = INVALID_PAGE_IDX) index_pages) by (apply List.Forall_forall; intros p Hp; apply Z.eqb_eq; revert p Hp; apply List.forallb_forall; vm_compute; reflexivity).
  assert (Ht : take index_arrays (all_headers index_pages) = replicate index_arrays DiskArrayHeader_new) by (vm_compute; reflexivity). assert (Hk : length (replicate index_arrays DiskArrayHeader_new) = index_arrays) by apply length_replicate.
  assert (Hc : counted index_pages = Z.of_nat index_arrays) by (vm_compute; reflexivity). assert (Hp : length index_pages = 255) by (vm_compute; reflexivity). assert (Hne : index_pages ≠ []) by (intros E; rewrite E in Hp; discriminate Hp). split; proj; unfold no_headers; cbn [current committed]; rewrite ?Hk.
  - split; reflexivity.
  - auto.
  - exact Ht.
  - exact Ht.
  - reflexivity.
  - exact Hc.
  - reflexivity.
  - apply not_written; proj; [reflexivity|exact Hn|rewrite Hp; exact Hl|exact Hd|exact Hv].
Qed.

(** C10. Any sequence of reads and writes of the headers of the disk arrays of an index, of checkpoints that run to their end (the header pages written to the shadow file, the versions in
    memory made equal, the shadow pages applied), of rollbacks of a checkpoint that has not yet written header pages, and of reopenings yields what it yields on a pair of lists of headers; a
    reopened collection has the headers of the last checkpoint. A rollback after [DiskArrayCollection::checkpoint] is left out: see [rolled_back_header_returns]. The pages that can be allocated
    are enough for the header pages. *)
Theorem collection_refines first free ops : NoDup (first :: free) → Forall (λ q, q ≠ INVALID_PAGE_IDX) free → 255 ≤ length free → colls_allowed index_arrays false ops = true →
  (add_arrays index_arrays (DiskArrayCollection_new free)).1 = Ok tt ∧ (run_all (run_coll first) ops (add_arrays index_arrays (DiskArrayCollection_new free)).2).1 = (run_all spec_coll ops no_headers).1.
Proof. intros Hd Hv Hl Hal. rewrite index_collection. split; [reflexivity|]. exact (colls_run first ops false _ no_headers (index_collection_ok first free Hd Hv Hl) Hal). Qed.

Definition some_coll_ops : list coll_op := [WriteHeader 3 (MkHeader 7 9); GetHeader false 3; CommitHeaders; GetHeader false 3; WriteHeader 300 (MkHeader 1 2); CommitHeaders; WriteHeader 3 (MkHeader 0 0); ReopenHeaders; GetHeader true 3; GetHeader false 300]%Z.
Definition some_coll_results : list (outcome (option DiskArrayHeader)) := [Ok None; Ok (Some DiskArrayHeader_new); Ok None; Ok (Some (MkHeader 7 9)); Ok None; Ok None; Ok None; Ok None; Ok (Some (MkHeader 7 9)); Ok (Some (MkHeader 1 2))]%Z.
Lemma collection_refines_witness :
  (add_arrays index_arrays (DiskArrayCollection_new (Z.of_nat <$> seq 2 300))).1 = Ok tt ∧ (run_all (run_coll 1) some_coll_ops (add_arrays index_arrays (DiskArrayCollection_new (Z.of_nat <$> seq 2 300))).2).1 = some_coll_results.
Proof. apply (collection_refines 1 (Z.of_nat <$> seq 2 300) some_coll_ops); [apply (bool_decide_unpack _); vm_compute; exact I|apply (bool_decide_unpack _); vm_compute; exact I|apply Nat.leb_le; reflexivity|reflexivity]. Defined.

(** ** What a collection does not promise *)

(** A rollback after the header pages were written to shadow pages leaves the shadow pages: the next checkpoint sees no change, and applying the shadow file puts the header that was rolled
    back into the file. *)
Lemma rolled_back_header_returns :
  ((add_arrays 1 ;; commit 1 ;; writeHeader 0 (MkHeader 7 9) ;; checkpoint 1 ;; rollbackCheckpoint ;; commit 1 ;; a ← getHeader true 0; x ← get_state;
    match DiskArrayCollection_open (pagesOnDisk x) [] 1 with Ok y => put_state y ;; b ← getHeader true 0; mret (a, b) | Throw e => raise e end) (DiskArrayCollection_new [2; 3; 4]%Z)).1 =
  Ok (DiskArrayHeader_new, MkHeader 7 9)%Z.
Proof. vm_compute. reflexivity. Qed.

(** A new array takes a page by its number modulo the headers of a page: the 512 headers of an index take 255 pages, where 3 are enough. *)
Lemma one_page_per_array : length index_pages = 255.
Proof. vm_compute. reflexivity. Qed.

(** The 255th array resets the header of the first one. *)
Lemma added_array_resets_header :
  ((add_arrays 254 ;; writeHeader 0 (MkHeader 7 9) ;; a ← getHeader true 0; addDiskArray ;; b ← getHeader true 0; mret (a, b)) (DiskArrayCollection_new [])).1 = Ok (MkHeader 7 9, DiskArrayHeader_new)%Z.
Proof. vm_compute. reflexivity. Qed.

(** An array that is added after a checkpoint is not in the file after the next one: the page before its header page is not written. *)
Lemma added_array_lost :
  ((add_arrays 1 ;; commit 1 ;; addDiskArray ;; commit 1 ;; x ← get_state; match DiskArrayCollection_open (pagesOnDisk x) [] 1 with Ok y => mret (totalHeaders x, totalHeaders y) | Throw e => raise e end) (DiskArrayCollection_new [2; 3; 4]%Z)).1 = Ok (2, 1)%Z.
Proof. vm_compute. reflexivity. Qed.
End CollectionTheorems.
